(* ===== verification/_CoqProject ===== *)
-Q . S2P
Prelude.v
NetcodeInput.v
NetcodeLink.v
Prediction.v
EntityPrediction.v
Float64.v
Room.v
Simulation.v
LagCompensation.v
ReplicationProtocol.v
ReplicationSender.v
ReplicationReceiver.v
ReplicationLink.v
Bytes.v
CoreError.v
Identity.v
Session.v
Frame.v
SnapshotReplication.v
Ownership.v
Outbox.v
CredentialStores.v
Tickets.v
Replay.v
Realtime.v
Rollback.v
RoomBounds.v
RoomCases.v
Presence.v
GatewayLimits.v
GatewaySessions.v
GatewayConnection.v
GatewayLoop.v
Protection.v
KeyedExecutor.v
PlayerCache.v
ServiceMessages.v
Futures.v
WorldRuntime.v
WorldServer.v
WorldLifecycle.v
WorldRouting.v
WorldClient.v
Concurrency.v
OutboxDispatcher.v
GatewayDrain.v
WorldScene.v
PlayerSync.v
Principals.v
HttpTokens.v
IdentityProviders.v
OtpService.v
HttpAuth.v
Payments.v
AreaOfInterest.v
NetSim.v
Float64Facts.v
TickSync.v
Interpolation.v
ClientProtocol.v
ClientDriver.v
KubernetesLeases.v
