(* ===== verification/Prelude.v ===== *)
(** * Elura: verification of the realtime and service core

    Elura is a framework for multiplayer game servers written in Rust ([src/crates]).  Clients send
    sequenced inputs and predict their effect; an authoritative room simulates in fixed steps, rolls back
    for late inputs, rewinds for lag compensation and replicates entities and snapshots back; a gateway
    authenticates sessions with tickets, keeps them in tables and a presence directory, limits and
    protects what they do, and forwards to the world that owns the player's shard; worlds run each player's
    commands one at a time, keep scenes and caches of players, and answer over multiplexed connections.
    Shards, credentials and events are kept in stores; a dispatcher delivers the events; accounts sign in over HTTP
    with identity providers and one-time passwords, and payment callbacks are verified.  The client kit of
    [src/examples] owns the other end of a connection.  This library models the components that carry that logic and
    proves what makes each of them correct.

    ** Files and sources (paths under [src/crates] unless they start with [examples])

    Shared:
    - [Prelude] (this file): Rust's [Result] with its [?] operator ([let?]), integer widths with checked,
      saturating and wrapping operations, stable sorting, binary search, ordered maps, times, and the
      tactics ([breflect], [branches], [width]) and hints the other files share.
    - [Bytes]: byte strings, integers on the wire, the law of the JSON encoder.  [Float64]: binary64;
      [Float64Facts]: validity, order and conversions of its operations.
    - [CoreError] ([elura-core/src/error.rs]): errors and their public envelope.
    - [Futures]: asynchronous computations that are polled, dropped, time out or panic, and a weakest
      precondition for them.  [Concurrency]: pools of computations under any schedule, and a
      rely-guarantee logic.

    Client and room:
    - [NetcodeInput] ([elura-netcode/src/input.rs], [error.rs]): sender history, redundant packets,
      acknowledgements, the sequence window and the receiver.  [NetcodeLink] composes sender and
      receiver over a network that loses, repeats and reorders.
    - [Prediction], [EntityPrediction] ([elura-netcode/src/prediction.rs], [entity_prediction.rs]):
      client-side prediction with reconciliation, and the matching of predicted entities.
    - [TickSync], [Interpolation] ([elura-netcode/src/tick_sync.rs], [interpolation.rs]): the estimate of the
      server's tick and the buffer that renders between received states.
    - [AreaOfInterest] ([elura-aoi/src/lib.rs]): the grid of entities and its visibility queries.
    - [NetSim] ([elura-net-sim/src/lib.rs]): the deterministic simulation of a network link.
    - [ClientProtocol], [ClientDriver] ([examples/tiny-network-game/sdk/rust/crates], [elura-protocol/src/lib.rs]
      and [elura-client/src/lib.rs]): the client's codec and messages, and the task that owns its connection.
    - [Room] ([elura-room/src/lib.rs]): roster, leadership, readiness, lifecycle.
    - [Simulation] ([elura-simulation/src/lib.rs]): the fixed-step clock.
    - [LagCompensation] ([elura-lag-compensation/src/lib.rs]): the history of states and rewinds.
    - [ReplicationProtocol], [ReplicationSender], [ReplicationReceiver] ([elura-replication/src]): entity
      replication; [ReplicationLink] composes them over an unreliable network.
    - [Realtime] ([elura-core/src/realtime.rs]): the authoritative room with rollback.  [Rollback] relates
      it to a naive simulation of the command log, [RoomBounds] bounds its memory, [RoomCases] runs it on
      concrete simulations.
    - [SnapshotReplication] ([elura-core/src/snapshot_replication.rs], [state_hash.rs]): keyframes, XOR
      deltas, publisher, receiver.
    - [Replay] ([elura-core/src/replay.rs], [realtime/replay_player.rs]): the recording format, writer,
      reader and player.

    Services:
    - [Frame] ([elura-core/src/protocol.rs]): the ELR2 frame codec.
    - [Ownership] ([elura-core/src/ownership.rs]): hashing of players to shards, rendezvous placement,
      ownership tables and resolver directories.
    - [Outbox] ([elura-core/src/outbox.rs], [outbox/memory.rs]): the transactional outbox.
    - [CredentialStores] ([elura-core/src/account_version*], [replay_protection.rs], [otp*]).
    - [Identity], [Session] ([elura-core/src/session.rs]): identities, session-control events, the state
      machine of a session.
    - [Tickets] ([elura-core/src/ticket.rs]): signed single-use tickets, over the interface of a replay
      protection store ([ReplayProtectionStore] with [ReplayProtectionLaws]).
    - [Principals], [HttpTokens] ([elura-core/src/identity.rs], [http_auth.rs]): accounts and their external
      identities, the binding store, access and refresh tokens with scopes and rotation.
    - [IdentityProviders], [OtpService] ([elura-providers/src/identity/registry.rs], [guest.rs], [phone.rs],
      [otp/mod.rs]): the registry of providers, sign-in and linking, guest tokens, codes sent to a phone.
    - [Payments] ([elura-providers/src/payment/mod.rs]): checkout, queries, refunds and verified callbacks.
    - [ServiceMessages] ([elura-core/src/gateway_world.rs], [realm_gateway.rs],
      [elura-runtime/src/security/auth.rs]): commands to worlds and their messages, the internal token, the
      directory of public endpoints.
    - [KubernetesLeases] ([elura-adapters/src/kubernetes/ownership.rs], [leader.rs]): shards assigned by leases,
      the observers that build ownership tables from them, and the election of the active coordinator.
    - [OutboxDispatcher] ([elura-runtime/src/outbox.rs]): the worker on [Outbox], with concurrent
      deliveries, renewals, timeouts, retries and dead letters.

    Gateway ([elura-gateway/src]):
    - [Presence] ([presence.rs], [elura-core/src/push.rs]): the directory of online sessions and the
      routing of pushes.
    - [GatewayLimits] ([session_state.rs], [transport/limits.rs], [elura-core/src/rate_limit.rs]).
    - [GatewaySessions] ([server.rs], [session_state.rs], [elura-core/src/protocol/session_control.rs]): the
      table of connected sessions, delivery of pushes, forced logouts.
    - [GatewayConnection] ([connection.rs], [client_protocol.rs], [interceptor.rs], [transport/admission.rs],
      [transport/account_version.rs]): the requests of a client, above all the login, which composes
      [Tickets], [Presence] (through [DirectoryLaws]), [Session], [GatewaySessions] and the policies.
    - [GatewayLoop] ([connection.rs], [config.rs]): the loop that serves a connection and its cleanup.
    - [Protection] ([protection.rs]): the concurrency limit and circuit breaker of a backend.
    - [WorldRouting] ([routing.rs], [discovery.rs]): targets of a route, the choice for a player, the cache
      of connection pools.  [WorldClient] ([world_client.rs], [connection.rs]): the multiplexed connection
      to a world, and its composition with the world's end.
    - [HttpAuth] ([http_auth.rs], [http_auth/identity.rs]): the login, refresh and session-ticket endpoints over
      [HttpTokens], [IdentityProviders] and [Tickets].
    - [GatewayDrain] ([transport/drain.rs]): the controller of a drain, one atomic access per step.

    World ([elura-world/src]):
    - [KeyedExecutor] ([keyed.rs]): one operation of a player at a time.
    - [PlayerCache] ([player/cache.rs]): the cache of player snapshots.  [PlayerSync]
      ([player/invalidation.rs], [player/loader.rs]): invalidations between the caches of several worlds.
    - [WorldRuntime] ([runtime.rs], [middleware.rs], [context.rs], [module.rs], [stats.rs], [config.rs],
      [routes.rs], [handler.rs]): assembly of routes, modules and middleware, and the execution of a
      command, the unit of work above all.
    - [WorldServer] ([server.rs], [world.rs]): what a world does with a frame or an in-process command.
      [WorldLifecycle] ([server.rs], [registration.rs]): accept loop, connection loop, startup, shutdown.
    - [WorldScene] ([scene.rs]): the registry of scenes and the task of each.

    ** How the code is represented

    A struct is a [Record] and an enum an [Inductive] with the constructors of the source; a method
    [T::m] is the definition [T_m], one per operation, loops that matter as definitions of their own.
    [&mut self] becomes a function returning its result together with the new receiver, so what an error
    leaves behind is explicit.  Integers are [Z] with the width written out where the code adds,
    multiplies or converts; durations and times are nanoseconds.  A [HashMap] is a [gmap]; where the code
    iterates one, the model takes some order and the theorems do not depend on it (the order of dead
    letters that failed at the same instant apart).  A [BTreeMap] is iterated in key order.  Clock
    readings and drawn identifiers are arguments.  Strings are their UTF-8 bytes.  Application code
    (states, commands, delta encoders, simulation rules, interceptors) and third-party code (JSON,
    SHA-256, HMAC, Base64, Protobuf, hashes) are parameters, with their documented laws as named
    hypotheses: [delta_law] and [state_law] in replication, [json_law] in recordings, [SimulationLaws] and
    [TotalSimulation] in rooms, [TicketCryptoLaws] in tickets and the laws of signatures in HTTP and guest
    tokens, [LeaseApiLaws] for the API server of Kubernetes; each has a concrete instance.  A provider of identities or payments is a record of its operations.  Components
    meet at classes ([ReplayDriver], [OnlineDirectory], [ReplayProtectionStore], [OwnershipResolver]); the
    laws the clients rely on are classes too, discharged for the in-memory implementations.  A
    mutex-protected operation is atomic; panics while a lock is held are modelled where they can happen
    ([Outbox], [CredentialStores]).  Where tasks interleave, the model is a step relation over the
    states of the tasks ([KeyedExecutor], [Protection], [PlayerCache], [Realtime], [GatewayLoop],
    [WorldLifecycle], [WorldClient], [WorldScene], [GatewayDrain], [PlayerSync], [ClientDriver],
    [KubernetesLeases]), or the code itself as a
    computation of [Futures] whose polls a schedule interleaves ([WorldRuntime], [OutboxDispatcher]): what
    a dropped future runs on its way out is then part of the model.  In [GatewayDrain] alone a store may
    be seen late, as its memory ordering allows.

    ** What is proved

    - Links: every input is delivered to the simulation at most once and none is lost while the client
      retains it; acknowledgements are always accepted; replicated entities never diverge, and after any
      losses as many exchanges as there are pending batches make the replica equal to the visible set.
      One liveness failure is proved: an input that falls out of the redundancy window is never sent
      again.
    - Rooms: the state of a room is the naive simulation of the commands it accepted, in order, whatever
      arrives late within the window, as long as no tick fails; finalized ticks do not change; memory is
      bounded; a tick succeeds when the simulation does.  Three failures around late commands and failing ticks are exhibited.
    - Refinements: the sequence window to a set of received sequences, the roster to the list of members
      in join order, the history ring to the newest accepted recordings, the outbox to the life cycle of
      each event, staged replication to direct application of events; a remote call of a world to the same
      call in process; the grid of interest to the map of positions; the interpolation buffer to the newest received
      states.
    - Conservation and order: the clock neither creates nor loses time and does not depend on how elapsed
      time is sliced; playback of a recording is the recorded sequence; frames do not depend on how the
      bytes are chunked, and the client's codec is the framework's; a simulated link delivers exactly the copies
      it scheduled, in the order of their deadlines.
    - Safety of stores: fenced leases, no lost or redelivered event, single-use credentials and tickets, a
      bounded number of guesses, atomic replacement of ownership tables, minimal disruption of placement.
      The dispatcher acknowledges only what was handled, however it is interrupted, and dead-letters
      what keeps failing (batches that hold all active events, spaced by the longest backoff, errors of at most
      4096 bytes); it does not record an error text that is too long.
    - Shard leases: however coordinators, candidates and observers interleave, an epoch of a shard has one owner and a
      term of the election one holder.  Exhibited failures: a renewal that hangs lets two leaders run, a lease
      shorter than a second is never in force.
    - Accounts and payments: what a login grants is what its tokens carry, on every instance that shares the keys;
      a session ticket over HTTP admits exactly the player that the account may play; a phone login proves the
      code last sent, within its attempts and once; a payment event is accepted once.
    - Client: every operation of the application is answered exactly once, a response belongs to its own
      request, the state shown agrees with the connection, and no event makes the task panic while times fit.
      Exhibited failures: a payload above the configured limit drops the connection, a ticket lifetime out of
      range panics the task.
    - Gateway: realm capacity and one slot per user; a login succeeds exactly when every check agrees and
      otherwise answers the error of the first that failed and leaves nothing behind; anonymous sessions never
      reach the world; pushes reach exactly the sessions they address, up to the first whose queue takes no
      frame, and control events those they select while queues have room; a connection keeps within its limits and violations
      end it; calls to a backend are limited and the breaker opens and recovers; a call to a world gets
      the response of its own command; a drained gateway has no session and its waiters return, provided
      the flag is seen.  Exhibited failures: a
      replayed ticket evicts the live session where every earlier check passes, an interrupted login keeps its slot, a full queue stops a
      forced logout, the probe limit of the breaker can be exceeded.
    - World: operations of a player exclude each other; a command runs only on the owner of its shard, under
      the current epoch; a unit of work commits exactly when its command succeeds; what a build accepts is
      well formed; a connection answers every request once and a server stops in order; a scene runs each
      call at most once and none survives a shutdown; the cache keeps the newest version and evicts the
      least recently used, and caches agree with the database once they have been told, over a bus that
      may lose messages: only an invalidation that was lost leaves a stale entry.  Exhibited failures: two live
      scenes of one identifier, an invalidation that an ongoing load undoes.
    - Errors: each operation's failing branches and what they leave of the state.

    Round trips (frames, deltas, recordings, tickets, error envelopes) and functional descriptions of
    every branch complete each component.

    ** Bounds and fuel

    Recursion that is not structural carries fuel that is shown to be enough: [close_gaps] runs at most
    once per pending sequence, [binary_search_loop] once per halving, [trim_zeros] once per byte, [drain]
    and [play_loop] once per byte left plus one, and the scheduled steps of the clock bound its loop;
    [utf8_lossy] takes at least one byte a round, so the number of bytes is enough.  Computations of
    [Futures] are inductive; their schedules (polls with their times, rounds of a loop, the order of a
    pool) are arguments, and the theorems hold for all of them; where one says that a computation
    finishes, its polls are counted.  Ticks and clocks of
    rooms are bounded by their 64 bits, and the theorems that need a tick to be free say so.

    ** Not modelled

    Sockets, TLS, gRPC, HTTP routing, process start-up, timers and telemetry of the gateway, world, runtime and
    adapters, which are input and output through third-party crates: what they decide is modelled where the
    decision is code of the repository, and their effects are arguments.  The adapters of Redis, SQL databases,
    Kubernetes endpoints and brokers state most of their behaviour in scripts and queries that another system runs; the
    HTTP clients of identity, payment, notification and OTP services follow protocols of those services.  The
    password provider depends on the Unicode case tables and on argon2.  Parsing of the PROXY protocol header,
    the text of metrics, the test kit, the sample games and the command-line tools carry no state that the
    modelled components rely on. *)

From Stdlib Require Export ZArith Lia Bool.
From stdpp Require Export base tactics numbers list gmap sets strings sorting.

Open Scope Z_scope.

(** ** Rust results *)

(** [Result<T, E>].  Every fallible operation of the sources returns this type; a method taking
    [&mut self] is a function returning the result together with the new receiver, so that what an
    error leaves behind in the state is explicit. *)
Inductive result (E A : Type) : Type :=
| Ok (a : A)
| Err (e : E).
Arguments Ok {E A} a.
Arguments Err {E A} e.

Global Instance result_eq_dec {E A : Type} `{!EqDecision E, !EqDecision A} : EqDecision (result E A).
Proof. solve_decision. Defined.

Definition is_ok {E A} (r : result E A) : bool :=
  match r with Ok _ => true | Err _ => false end.

(** [r.map_err(f)]. *)
Definition map_err {E F A} (f : E -> F) (r : result E A) : result F A :=
  match r with Ok a => Ok a | Err e => Err (f e) end.

(** [o.ok_or(e)]. *)
Definition ok_or {E A} (o : option A) (e : E) : result E A :=
  match o with Some a => Ok a | None => Err e end.

Declare Scope rust_scope.
Delimit Scope rust_scope with rust.

(** The [?] operator on a pure result. *)
Notation "'let?' x ':=' r 'in' k" :=
  (match r with Ok x => k | Err e => Err e end)
  (at level 10, x pattern, r at level 100, k at level 200) : rust_scope.

(** The [?] operator inside a method: an error returns with the receiver [s] as it stands. *)
Notation "'let?' x ':=' r 'else' s 'in' k" :=
  (match r with Ok x => k | Err e => (Err e, s) end)
  (at level 10, x pattern, r at level 100, s at level 100, k at level 200) : rust_scope.
Open Scope rust_scope.

(** ** Machine integers

    Unsigned Rust integers are [Z] values with their width written out: [usize] is 64 bits wide, as
    on every target the repository builds for. *)
Definition u8_max : Z := 255.
Definition u32_max : Z := 4294967295.
Definition u64_max : Z := 18446744073709551615.
Definition u128_max : Z := 340282366920938463463374607431768211455.
Definition usize_max : Z := u64_max.

Definition fits (max x : Z) : Prop := 0 <= x <= max.
Abbreviation u64_ok := (fits u64_max).

(** [checked_add], [saturating_add], [saturating_sub] of a width with maximum [max]. *)
Definition checked_add (max a b : Z) : option Z :=
  if a + b <=? max then Some (a + b) else None.
Definition saturating_add (max a b : Z) : Z := Z.min (a + b) max.
Definition saturating_sub (a b : Z) : Z := Z.max (a - b) 0.
Definition saturating_mul (max a b : Z) : Z := Z.min (a * b) max.
(** Arithmetic that wraps at 64 bits. *)
Definition wrap_u64 (n : Z) : Z := n mod 18446744073709551616.
(** [wrapping_mul] at 64 bits. *)
Definition wrapping_mul_u64 (a b : Z) : Z := (a * b) mod 18446744073709551616.

(** [Vec::len] and the like, as the [usize] the code compares. *)
Definition len {A} (l : list A) : Z := Z.of_nat (length l).

Lemma len_nonneg {A} (l : list A) : 0 <= len l.
Proof. unfold len; lia. Qed.

Lemma len_nil {A} : len (@nil A) = 0.
Proof. done. Qed.

Lemma len_cons {A} (x : A) l : len (x :: l) = len l + 1.
Proof. unfold len; cbn [length]; lia. Qed.

Lemma len_app {A} (l k : list A) : len (l ++ k) = len l + len k.
Proof. unfold len; rewrite length_app; lia. Qed.

Create HintDb elura.
Create Rewrite HintDb elura.
#[export] Hint Rewrite @len_nil @len_cons @len_app : elura.
#[export] Hint Resolve len_nonneg : elura.

(** ** Tactics *)

(** Reads the boolean tests of the model as propositions. *)
Ltac breflect :=
  repeat match goal with
  | H : _ && _ = true |- _ => apply andb_prop in H; destruct H
  | H : _ || _ = false |- _ => apply orb_false_elim in H; destruct H
  | H : _ || _ = true |- _ => apply orb_prop in H
  | H : _ && _ = false |- _ => apply andb_false_iff in H
  | H : negb _ = true |- _ => apply negb_true_iff in H
  | H : negb _ = false |- _ => apply negb_false_iff in H
  | H : (_ =? _) = true |- _ => apply Z.eqb_eq in H
  | H : (_ =? _) = false |- _ => apply Z.eqb_neq in H
  | H : (_ <? _) = true |- _ => apply Z.ltb_lt in H
  | H : (_ <? _) = false |- _ => apply Z.ltb_ge in H
  | H : (_ <=? _) = true |- _ => apply Z.leb_le in H
  | H : (_ <=? _) = false |- _ => apply Z.leb_gt in H
  | H : bool_decide _ = true |- _ => apply bool_decide_eq_true in H
  | H : bool_decide _ = false |- _ => apply bool_decide_eq_false in H
  | H : ~ is_Some _ |- _ => apply eq_None_not_Some in H
  end.

(** Runs the branches of an operation whose outcome is known: destructs the scrutinees in [H] and
    discards the branches whose outcome differs. *)
Ltac branches H :=
  repeat (case_match; simplify_eq/=; try discriminate H);
  try (injection H as; subst); breflect; simplify_eq/=.

(** [lia] after opening the width definitions. *)
Ltac width :=
  unfold checked_add, saturating_add, saturating_sub, saturating_mul, fits,
    u8_max, u32_max, u64_max, u128_max, usize_max in *;
  repeat case_match; simplify_eq; breflect; try lia.

Lemma checked_add_Some max a b c :
  checked_add max a b = Some c <-> c = a + b /\ a + b <= max.
Proof.
  unfold checked_add; destruct (Z.leb_spec (a + b) max); split; [by intros [= <-]|by intros [-> _]|done|lia].
Qed.

Lemma checked_add_None max a b : checked_add max a b = None <-> max < a + b.
Proof.
  unfold checked_add; destruct (Z.leb_spec (a + b) max); split; [done|lia|done|done].
Qed.

Lemma saturating_add_exact max a b : a + b <= max -> saturating_add max a b = a + b.
Proof. unfold saturating_add. lia. Qed.

(** ** Filtering *)

Lemma filter_all {A} (P : A -> Prop) `{!forall x, Decision (P x)} l :
  Forall P l -> filter P l = l.
Proof. induction 1; [done|]. rewrite filter_cons_True by done. by f_equal. Qed.

Lemma filter_none {A} (P : A -> Prop) `{!forall x, Decision (P x)} l :
  Forall (fun x => ~ P x) l -> filter P l = [].
Proof. induction 1; [done|]. by rewrite filter_cons_False. Qed.

Lemma filter_fmap {A B} (f : A -> B) (P : B -> Prop) `{!forall x, Decision (P x)} (l : list A) :
  filter P (f <$> l) = f <$> filter (fun x => P (f x)) l.
Proof.
  induction l as [|x l IH]; [done|]. rewrite fmap_cons, !filter_cons.
  case_decide; cbn; by rewrite IH.
Qed.

Lemma length_filter_all {A} (P : A -> Prop) `{!forall x, Decision (P x)} (l : list A) :
  length (filter P l) = length l <-> Forall P l.
Proof.
  split; [|intros Hall; by rewrite filter_all].
  induction l as [|x l IH]; [done|]. rewrite filter_cons. case_decide; cbn.
  - intros [= Hl]. constructor; auto.
  - pose proof (length_filter P l). lia.
Qed.

(** With distinct keys a key selects one element. *)
Lemma filter_key_unique {A B} `{EqDecision B} (key : A -> B) (l : list A) x :
  NoDup (key <$> l) -> x ∈ l -> filter (fun y => key y = key x) l = [x].
Proof.
  induction l as [|y l IH]; intros Hnd Hx; [by apply elem_of_nil in Hx|].
  cbn in Hnd. apply NoDup_cons in Hnd as [Hy Hnd]. rewrite filter_cons.
  apply elem_of_cons in Hx as [->|Hx].
  - rewrite decide_True by done. f_equal. apply filter_none, Forall_forall. intros z Hz Heq.
    apply Hy. rewrite <-Heq. by apply list_elem_of_fmap_2.
  - rewrite decide_False; [by apply IH|]. intros Heq. apply Hy. rewrite Heq.
    by apply list_elem_of_fmap_2.
Qed.

Lemma omap_ext_in {A B} (f g : A -> option B) (l : list A) :
  (forall x, x ∈ l -> f x = g x) -> omap f l = omap g l.
Proof.
  induction l as [|x l IH]; intros Hext; [done|]. cbn.
  rewrite (Hext x) by set_solver. rewrite IH by set_solver. done.
Qed.

Lemma mapM_ext_in {A B} (f g : A -> option B) (l : list A) :
  (forall x, x ∈ l -> f x = g x) -> mapM f l = mapM g l.
Proof.
  induction l as [|x l IH]; intros Hext; [done|]. cbn.
  rewrite (Hext x) by set_solver. rewrite IH by set_solver. done.
Qed.

Lemma length_omap_le {A B} (f : A -> option B) (l : list A) : (length (omap f l) <= length l)%nat.
Proof. induction l as [|x l IH]; cbn; [done|]. destruct (f x); cbn; lia. Qed.

(** ** Sorted lists *)

Lemma StronglySorted_weaken {A} (R S : A -> A -> Prop) l :
  (forall x y, R x y -> S x y) -> StronglySorted R l -> StronglySorted S l.
Proof. intros HRS. induction 1; constructor; eauto using Forall_impl. Qed.

(** Ordered by a strictly increasing integer key: the tick- and sequence-indexed queues. *)
Definition increasing {A} (key : A -> Z) : list A -> Prop :=
  StronglySorted (fun x y => key x < key y).

Section increasing.
Context {A : Type} (key : A -> Z).
Implicit Types (l : list A) (x y : A).

Lemma increasing_nil : increasing key [].
Proof. constructor. Qed.

Lemma increasing_cons x l :
  increasing key (x :: l) <-> Forall (fun y => key x < key y) l /\ increasing key l.
Proof. apply StronglySorted_cons. Qed.

Lemma increasing_snoc l x :
  increasing key (l ++ [x]) <-> increasing key l /\ Forall (fun y => key y < key x) l.
Proof.
  unfold increasing. rewrite StronglySorted_app, Forall_forall. split.
  - intros (H & Hl & _). split; [done|]. intros y Hy. by apply H; [|left].
  - intros [Hl H]. split_and!; [|done|repeat constructor].
    intros y z Hy ->%list_elem_of_singleton. by apply H.
Qed.

Lemma increasing_fmap l : increasing key l <-> StronglySorted Z.lt (key <$> l).
Proof.
  induction l as [|x l IH]; [by split; constructor|].
  rewrite increasing_cons, IH, fmap_cons, StronglySorted_cons, Forall_fmap. done.
Qed.

Lemma increasing_app_l l k : increasing key (l ++ k) -> increasing key l.
Proof. apply StronglySorted_app_1_l. Qed.

Lemma increasing_app_r l k : increasing key (l ++ k) -> increasing key k.
Proof. apply StronglySorted_app_1_r. Qed.

Lemma increasing_drop n l : increasing key l -> increasing key (drop n l).
Proof. rewrite <-(take_drop n l) at 1. apply increasing_app_r. Qed.

Lemma increasing_lookup l i j x y :
  increasing key l -> l !! i = Some x -> l !! j = Some y -> (i < j)%nat -> key x < key y.
Proof.
  revert i j. induction l as [|z l IH]; intros i j Hs Hi Hj Hij; [done|].
  apply increasing_cons in Hs as [Hz Hs]. destruct j as [|j]; [lia|]. cbn in Hj.
  destruct i as [|i]; cbn in Hi; simplify_eq.
  - rewrite Forall_forall in Hz. apply Hz. by eapply list_elem_of_lookup_2.
  - eapply (IH i j); eauto with lia.
Qed.

(** Keys determine positions. *)
Lemma increasing_key_inj l x y :
  increasing key l -> x ∈ l -> y ∈ l -> key x = key y -> x = y.
Proof.
  intros Hs (i & Hi)%list_elem_of_lookup (j & Hj)%list_elem_of_lookup Heq.
  destruct (lt_eq_lt_dec i j) as [[Hlt| ->]|Hlt].
  - pose proof (increasing_lookup _ _ _ _ _ Hs Hi Hj Hlt). lia.
  - congruence.
  - pose proof (increasing_lookup _ _ _ _ _ Hs Hj Hi Hlt). lia.
Qed.

Lemma increasing_sublist l k : sublist l k -> increasing key k -> increasing key l.
Proof.
  induction 1 as [|x l k Hlk IH|x l k Hlk IH]; [done| |]; rewrite ?increasing_cons.
  - intros [Hx Hk]. split; [|auto]. rewrite Forall_forall in *.
    intros y Hy. apply Hx. by eapply sublist_subseteq.
  - intros [_ Hk]. auto.
Qed.

Lemma increasing_nodup l : increasing key l -> NoDup (key <$> l).
Proof.
  induction l as [|x l IH]; [intros; apply NoDup_nil_2|].
  rewrite increasing_cons, fmap_cons, NoDup_cons. intros [Hx Hl]. split; [|auto].
  intros (y & Heq & Hy)%list_elem_of_fmap. rewrite Forall_forall in Hx. specialize (Hx y Hy). lia.
Qed.

Lemma increasing_perm_eq l k : increasing key l -> increasing key k -> l ≡ₚ k -> l = k.
Proof.
  apply StronglySorted_unique_strong. intros; lia.
Qed.

Lemma increasing_last l x y :
  increasing key l -> last l = Some y -> x ∈ l -> key x <= key y.
Proof.
  intros Hs [k ->]%last_Some Hx. apply increasing_snoc in Hs as [_ Hs].
  rewrite Forall_forall in Hs. apply elem_of_app in Hx as [Hx| ->%list_elem_of_singleton]; [|lia].
  specialize (Hs x Hx). lia.
Qed.
End increasing.

Lemma seqZ_sorted (a n : Z) : StronglySorted Z.lt (seqZ a n).
Proof.
  destruct (decide (0 <= n)) as [Hn|]; [|rewrite seqZ_nil by lia; constructor].
  revert a. apply (natlike_ind (fun n => forall a, StronglySorted Z.lt (seqZ a n))); [..|done].
  - intros a. constructor.
  - intros m Hm IH a. rewrite seqZ_cons, Z.pred_succ by lia. constructor; [done|].
    apply Forall_forall. intros x Hx%elem_of_seqZ. lia.
Qed.

(** ** Stable sorting

    [slice::sort_by_key] and [slice::sort_by] are stable; insertion from the right is the reference
    for them. *)
Section sort_by.
Context {A : Type} (leb : A -> A -> bool).

Fixpoint insert_by (x : A) (l : list A) : list A :=
  match l with
  | [] => [x]
  | y :: k => if leb x y then x :: y :: k else y :: insert_by x k
  end.

Fixpoint sort_by (l : list A) : list A :=
  match l with
  | [] => []
  | x :: k => insert_by x (sort_by k)
  end.

Lemma insert_by_perm x l : insert_by x l ≡ₚ x :: l.
Proof.
  induction l as [|y l IH]; cbn; [done|].
  destruct (leb x y); [done|]. rewrite IH. apply Permutation_swap.
Qed.

Lemma sort_by_perm l : sort_by l ≡ₚ l.
Proof. induction l as [|x l IH]; cbn; [done|]. by rewrite insert_by_perm, IH. Qed.

Lemma elem_of_sort_by x l : x ∈ sort_by l <-> x ∈ l.
Proof. by rewrite sort_by_perm. Qed.

Lemma length_sort_by l : length (sort_by l) = length l.
Proof. apply Permutation_length, sort_by_perm. Qed.

Context (leb_total : forall x y, leb x y = true \/ leb y x = true)
        (leb_trans : forall x y z, leb x y = true -> leb y z = true -> leb x z = true).

Lemma insert_by_sorted x l :
  StronglySorted (fun a b => leb a b = true) l ->
  StronglySorted (fun a b => leb a b = true) (insert_by x l).
Proof.
  induction 1 as [|y l Hs IH Hall]; cbn; [repeat constructor|].
  destruct (leb x y) eqn:E.
  - constructor; [by constructor|]. constructor; [done|].
    eapply Forall_impl; [exact Hall|]; eauto.
  - constructor; [done|].
    rewrite insert_by_perm. constructor; [|done].
    destruct (leb_total x y); congruence.
Qed.

Lemma sort_by_sorted l : StronglySorted (fun a b => leb a b = true) (sort_by l).
Proof. induction l; cbn; [constructor|]. by apply insert_by_sorted. Qed.

(** A list that is already ordered is left as it is (stability on ties included). *)
Lemma sort_by_id l :
  StronglySorted (fun a b => leb a b = true) l -> sort_by l = l.
Proof.
  induction 1 as [|x l Hs IH Hall]; cbn; [done|]. rewrite IH.
  destruct l as [|y l]; cbn; [done|]. apply Forall_cons_1 in Hall as [-> _]. done.
Qed.
End sort_by.

(** [sort_by_key] on an integer key. *)
Abbreviation key_leb key := (fun x y => key x <=? key y).

Definition sort_by_key {A} (key : A -> Z) : list A -> list A := sort_by (key_leb key).

Lemma sort_by_key_sorted {A} (key : A -> Z) l :
  StronglySorted (fun x y => key x <= key y) (sort_by_key key l).
Proof.
  eapply StronglySorted_weaken; [|apply (sort_by_sorted (key_leb key))].
  - intros x y H; cbn in H; lia.
  - intros; cbn; lia.
  - intros; cbn in *; lia.
Qed.

Lemma sort_by_key_id {A} (key : A -> Z) l :
  StronglySorted (fun x y => key x <= key y) l -> sort_by_key key l = l.
Proof.
  intros H. apply sort_by_id.
  eapply StronglySorted_weaken; [|exact H]. intros; cbn in *; lia.
Qed.

(** Distinct keys make the order strict. *)
Lemma sort_by_key_increasing {A} (key : A -> Z) l :
  NoDup (key <$> l) -> increasing key (sort_by_key key l).
Proof.
  intros Hnd.
  assert (Hnd' : NoDup (key <$> sort_by_key key l)).
  { by rewrite (sort_by_perm _ l : sort_by_key _ _ ≡ₚ _). }
  clear Hnd. pose proof (sort_by_key_sorted key l) as Hs.
  induction Hs as [|x k Hs IH Hall]; [apply increasing_nil|].
  rewrite fmap_cons in Hnd'. apply NoDup_cons in Hnd' as [Hx Hnd].
  apply increasing_cons. split; [|by apply IH]. rewrite Forall_forall in *.
  intros y Hy. specialize (Hall y Hy). destruct (decide (key x = key y)) as [Heq|]; [|lia].
  destruct Hx. rewrite Heq. by apply list_elem_of_fmap_2.
Qed.

Lemma sort_by_key_fmap {A B} (f : A -> B) (key : B -> Z) (l : list A) :
  sort_by_key key (f <$> l) = f <$> sort_by_key (fun x => key (f x)) l.
Proof.
  unfold sort_by_key. induction l as [|x l IH]; cbn; [done|]. rewrite IH.
  generalize (sort_by (fun x y => key (f x) <=? key (f y)) l). intros k.
  induction k as [|y k IHk]; cbn; [done|].
  case_match; cbn; [done|]. f_equal. apply IHk.
Qed.

(** [Iterator::min_by_key]: the first of the elements with the least key. *)
Fixpoint min_by_key {A} (key : A -> Z) (l : list A) : option A :=
  match l with
  | [] => None
  | x :: k =>
      match min_by_key key k with
      | None => Some x
      | Some y => if key x <=? key y then Some x else Some y
      end
  end.

Lemma min_by_key_head {A} (key : A -> Z) l : min_by_key key l = head (sort_by_key key l).
Proof.
  unfold sort_by_key. induction l as [|x l IH]; cbn; [done|]. rewrite IH.
  destruct (sort_by _ l); cbn; [done|]. by case_match.
Qed.

(** Iteration of a map with integer keys in key order, as [BTreeMap::iter] does. *)
Lemma btree_iter_increasing {A} (m : gmap Z A) :
  increasing fst (sort_by_key fst (map_to_list m)).
Proof. apply sort_by_key_increasing, NoDup_fst_map_to_list. Qed.

Lemma elem_of_btree_iter {A} (m : gmap Z A) k v :
  (k, v) ∈ sort_by_key fst (map_to_list m) <-> m !! k = Some v.
Proof. unfold sort_by_key. by rewrite elem_of_sort_by, elem_of_map_to_list. Qed.

(** ** Binary search

    [binary_search_by_key] on a slice: the position of a matching element, or the position at which
    it could be inserted.  The loop halves the window [base .. base + size); as many iterations as
    the list has elements are more than enough. *)
Fixpoint binary_search_loop (keys : list Z) (target : Z) (fuel : nat) (base size : nat) : nat :=
  match fuel with
  | O => base
  | Datatypes.S fuel =>
      if (size <=? 1)%nat then base
      else
        let half := (size / 2)%nat in
        let mid := (base + half)%nat in
        let base := if target <? default 0 (keys !! mid) then base else mid in
        binary_search_loop keys target fuel base (size - half)%nat
  end.

Definition binary_search_by_key {A} (key : A -> Z) (l : list A) (target : Z) : result nat nat :=
  match length l with
  | O => Err O
  | size =>
      let base := binary_search_loop (key <$> l) target size 0 size in
      let found := default 0 (key <$> l !! base) in
      if found =? target then Ok base
      else Err (if found <? target then (base + 1)%nat else base)
  end.

Lemma binary_search_loop_range keys target fuel : forall base size,
  (base + size <= length keys)%nat -> (0 < size)%nat ->
  (binary_search_loop keys target fuel base size < length keys)%nat.
Proof.
  induction fuel as [|fuel IH]; intros base size Hle Hpos; cbn [binary_search_loop]; [lia|].
  destruct (Nat.leb_spec size 1); [lia|].
  pose proof (Nat.div_lt size 2 ltac:(lia) ltac:(lia)).
  pose proof (Nat.div_str_pos size 2 ltac:(lia)). set (half := (size / 2)%nat) in *. clearbody half.
  destruct (target <? _); apply IH; lia.
Qed.

(** Where the elements before a position are smaller than the target and those after it greater, the loop
    ends there. *)
Lemma binary_search_loop_finds keys target i fuel : forall base size,
  (forall j a, keys !! j = Some a -> (j < i)%nat -> a < target) ->
  (forall j a, keys !! j = Some a -> (i < j)%nat -> target < a) ->
  (size <= fuel)%nat -> (base + size <= length keys)%nat ->
  keys !! i = Some target -> (base <= i < base + size)%nat ->
  binary_search_loop keys target fuel base size = i.
Proof.
  induction fuel as [|fuel IH]; intros base size Hcmp Hcmp' Hf Hle Hi Hr;
    cbn [binary_search_loop]; [lia|].
  destruct (Nat.leb_spec size 1); [lia|].
  pose proof (Nat.div_lt size 2 ltac:(lia) ltac:(lia)).
  pose proof (Nat.div_str_pos size 2 ltac:(lia)).
  pose proof (Nat.Div0.mul_div_le size 2).
  set (half := (size / 2)%nat) in *. clearbody half.
  destruct (keys !! (base + half)%nat) as [k|] eqn:Hk; [|apply lookup_ge_None in Hk; lia]. cbn.
  destruct (lt_eq_lt_dec (base + half) i) as [[Hlt|Heq]|Hgt].
  - pose proof (Hcmp _ _ Hk Hlt). destruct (Z.ltb_spec target k); [lia|]. apply IH; auto; lia.
  - subst i. rewrite Hi in Hk. simplify_eq. rewrite Z.ltb_irrefl. apply IH; auto; lia.
  - pose proof (Hcmp' _ _ Hk Hgt). destruct (Z.ltb_spec target k); [|lia]. apply IH; auto; lia.
Qed.

Lemma binary_search_loop_found keys target fuel base size i :
  StronglySorted Z.lt keys -> (size <= fuel)%nat -> (base + size <= length keys)%nat ->
  keys !! i = Some target -> (base <= i < base + size)%nat ->
  binary_search_loop keys target fuel base size = i.
Proof.
  intros Hs Hf Hle Hi Hr. apply binary_search_loop_finds; try done; intros j a Hj Hji.
  - by eapply (increasing_lookup id keys j i).
  - by eapply (increasing_lookup id keys i j).
Qed.

(** On a list ordered by its key, the search succeeds exactly on the keys present. *)
Lemma binary_search_by_key_spec {A} (key : A -> Z) (l : list A) target :
  increasing key l ->
  match binary_search_by_key key l target with
  | Ok i => exists x, l !! i = Some x /\ key x = target
  | Err _ => forall x, x ∈ l -> key x <> target
  end.
Proof.
  intros Hinc. unfold binary_search_by_key. destruct (length l) as [|n] eqn:Hlen.
  { apply nil_length_inv in Hlen as ->. intros x Hx. set_solver. }
  rewrite <-Hlen. set (base := binary_search_loop _ _ _ _ _).
  assert (Hbase : (base < length l)%nat).
  { unfold base. rewrite <-(length_fmap key l). apply binary_search_loop_range; rewrite length_fmap; lia. }
  apply lookup_lt_is_Some in Hbase as [x Hx]. rewrite Hx. cbn.
  destruct (Z.eqb_spec (key x) target) as [Heq|Hne]; [eauto|].
  intros y (i & Hi)%list_elem_of_lookup Hy. apply Hne.
  assert (base = i) as ->; [|congruence]. unfold base.
  apply binary_search_loop_found; rewrite ?length_fmap.
  - by rewrite <-increasing_fmap.
  - lia.
  - lia.
  - rewrite list_lookup_fmap, Hi. cbn. congruence.
  - apply lookup_lt_Some in Hi. lia.
Qed.

(** The loop ends at the last element that is not above the target, or at the first. *)
Lemma binary_search_loop_last keys target fuel : forall base size,
  (size <= fuel)%nat -> (base + size <= length keys)%nat -> (0 < size)%nat ->
  (base = 0%nat \/ default 0 (keys !! base) <= target) ->
  StronglySorted Z.lt keys -> (forall j a, keys !! j = Some a -> (base + size <= j)%nat -> target < a) ->
  let b := binary_search_loop keys target fuel base size in
  (b = 0%nat \/ default 0 (keys !! b) <= target) /\ forall j a, keys !! j = Some a -> (b < j)%nat -> target < a.
Proof.
  induction fuel as [|fuel IH]; intros base size Hf Hle Hpos Hb Hs Habove; cbn [binary_search_loop]; [lia|].
  destruct (Nat.leb_spec size 1); [split; [done|intros j a Hj Hlt; apply (Habove _ _ Hj); lia]|].
  pose proof (Nat.div_lt size 2 ltac:(lia) ltac:(lia)). pose proof (Nat.div_str_pos size 2 ltac:(lia)).
  pose proof (Nat.Div0.mul_div_le size 2). set (half := (size / 2)%nat) in *. clearbody half.
  destruct (keys !! (base + half)%nat) as [k|] eqn:Hk; [|apply lookup_ge_None in Hk; lia]. cbn.
  destruct (Z.ltb_spec target k) as [Hlt|Hge]; apply IH; try done; try lia.
  - intros j a Hj Hle'. destruct (decide (j = base + half)%nat) as [->|Hne]; [congruence|].
    pose proof (increasing_lookup id keys (base + half) j k a Hs Hk Hj ltac:(lia)). cbn in *. lia.
  - right. by rewrite Hk.
  - intros j a Hj Hle'. apply (Habove _ _ Hj). lia.
Qed.

(** On a list ordered by its key, a failed search gives the position where the key belongs. *)
Lemma binary_search_by_key_position {A} (key : A -> Z) (l : list A) target i :
  increasing key l -> binary_search_by_key key l target = Err i ->
  (i <= length l)%nat /\ forall j x, l !! j = Some x -> ((j < i)%nat -> key x < target) /\ ((i <= j)%nat -> target < key x).
Proof.
  intros Hinc. unfold binary_search_by_key. destruct (length l) as [|n] eqn:Hlen.
  { intros [= <-]. apply nil_length_inv in Hlen as ->. split; [done|]. intros j x Hx. by rewrite lookup_nil in Hx. }
  rewrite <-Hlen. set (base := binary_search_loop _ _ _ _ _).
  assert (Hbase : (base < length l)%nat).
  { unfold base. rewrite <-(length_fmap key l). apply binary_search_loop_range; rewrite length_fmap; lia. }
  destruct (binary_search_loop_last (key <$> l) target (length l) 0 (length l)) as [Hle Hgt].
  { lia. } { rewrite length_fmap. lia. } { lia. } { by left. } { by rewrite <-increasing_fmap. }
  { intros j a Hj%lookup_lt_Some. rewrite length_fmap in Hj. lia. }
  fold base in Hle, Hgt. pose proof (lookup_lt_is_Some_2 l base Hbase) as [x Hx]. rewrite Hx. cbn.
  rewrite list_lookup_fmap, Hx in Hle. cbn in Hle.
  destruct (Z.eqb_spec (key x) target) as [Heq|Hne]; [done|]. intros [= <-].
  assert (Hbelow : forall j y, l !! j = Some y -> (j < base)%nat -> key y < key x).
  { intros j y Hj Hlt. by apply (increasing_lookup key l j base). }
  assert (Habove : forall j y, l !! j = Some y -> (base < j)%nat -> target < key y).
  { intros j y Hj Hlt. apply (Hgt j); [by rewrite list_lookup_fmap, Hj|done]. }
  destruct (Z.ltb_spec (key x) target) as [Hlt|Hge].
  - split; [lia|]. intros j y Hj. split; [|intros ?; apply (Habove j); [done|lia]].
    intros Hji. destruct (decide (j = base)) as [->|]; [congruence|]. specialize (Hbelow j y Hj ltac:(lia)). lia.
  - split; [lia|]. intros j y Hj. split; [intros ?; lia|]. intros Hji.
    destruct (decide (j = base)) as [->|]; [assert (x = y) by congruence; subst; lia|]. apply (Habove j); [done|lia].
Qed.

(** ** Times

    [SystemTime] and [Instant] in nanoseconds; the seconds are an [i64]. *)
Definition SYSTEM_TIME_MAX : Z := 9223372036854775807 * 1000000000 + 999999999.

(** [time + duration], [None] where it panics. *)
Definition SystemTime_add (time duration : Z) : option Z :=
  checked_add SYSTEM_TIME_MAX time duration.

(** ** Ordered maps

    [BTreeMap<K, V>] with a key type that has an order: lookups are those of a finite map, iteration
    follows the order. *)
Class Ord (A : Type) := ord_leb : A -> A -> bool.

#[export] Instance Z_ord : Ord Z := Z.leb.

Definition btree_iter {K V} `{Countable K, !Ord K} (m : gmap K V) : list (K * V) :=
  sort_by (fun p q => ord_leb p.1 q.1) (map_to_list m).

Lemma btree_iter_perm {K V} `{Countable K, !Ord K} (m : gmap K V) : btree_iter m ≡ₚ map_to_list m.
Proof. apply sort_by_perm. Qed.

Lemma elem_of_btree {K V} `{Countable K, !Ord K} (m : gmap K V) k v :
  (k, v) ∈ btree_iter m <-> m !! k = Some v.
Proof. by rewrite btree_iter_perm, elem_of_map_to_list. Qed.

Lemma btree_iter_nodup {K V} `{Countable K, !Ord K} (m : gmap K V) : NoDup (btree_iter m).*1.
Proof. rewrite btree_iter_perm. apply NoDup_fst_map_to_list. Qed.
