(* ===== verification/NetcodeInput.v ===== *)
(** * Input sequencing: [crates/elura-netcode/src/input.rs] and [error.rs]

    The client keeps a bounded history of unacknowledged inputs and sends the newest of them
    redundantly; the server validates, de-duplicates and cumulatively acknowledges them. *)

From S2P Require Import Prelude.

(** [error.rs]: the failures of every netcode primitive. *)
Inductive NetcodeError : Type :=
| InvalidConfig (message : string)
| InvalidSample (message : string)
| InvalidInput (message : string)
| InputHistoryFull
| SequenceExhausted
| InvalidAcknowledgement
| PredictionHistoryFull
| ReplayLimitExceeded
| InterpolationBufferEmpty
| PredictedEntityLimit.

Abbreviation NetcodeResult := (result NetcodeError).

(** ** Configuration *)

Record InputSenderConfig : Type := {
  history_capacity : Z;
  redundancy : Z;
}.

Definition InputSenderConfig_default : InputSenderConfig :=
  {| history_capacity := 64; redundancy := 3 |}.

Definition InputSenderConfig_validate (c : InputSenderConfig) : NetcodeResult unit :=
  if c.(history_capacity) =? 0 then
    Err (InvalidConfig "input history capacity must be positive")
  else if (c.(redundancy) =? 0) || (c.(history_capacity) <? c.(redundancy)) then
    Err (InvalidConfig "input redundancy must be within history capacity")
  else Ok ().

Record InputReceiverConfig : Type := {
  max_inputs_per_packet : Z;
  reorder_window : Z;
  max_past_ticks : Z;
  max_future_ticks : Z;
}.

Definition InputReceiverConfig_default : InputReceiverConfig :=
  {| max_inputs_per_packet := 16; reorder_window := 256;
     max_past_ticks := 12; max_future_ticks := 120 |}.

Definition InputReceiverConfig_validate (c : InputReceiverConfig) : NetcodeResult unit :=
  if c.(max_inputs_per_packet) =? 0 then
    Err (InvalidConfig "maximum inputs per packet must be positive")
  else if c.(reorder_window) =? 0 then
    Err (InvalidConfig "input reorder window must be positive")
  else if c.(max_future_ticks) =? 0 then
    Err (InvalidConfig "maximum future ticks must be positive")
  else Ok ().

(** ** Wire data *)

Record InputFrame (T : Type) : Type := {
  sequence : Z;
  target_tick : Z;
  input : T;
}.
Arguments sequence {T} _.
Arguments target_tick {T} _.
Arguments input {T} _.

Record InputPacket (T : Type) : Type := {
  client_tick : Z;
  acknowledged_server_tick : Z;
  inputs : list (InputFrame T);
}.
Arguments client_tick {T} _.
Arguments acknowledged_server_tick {T} _.
Arguments inputs {T} _.

Record InputAck : Type := {
  server_tick : Z;
  acknowledged_sequence : Z;
}.

(** ** Client: bounded history and redundant packets *)

Record InputSender (T : Type) : Type := {
  is_config : InputSenderConfig;
  is_next_sequence : Z;
  is_acknowledged_sequence : Z;
  is_acknowledged_server_tick : Z;
  is_history : list (InputFrame T);
}.
Arguments is_config {T} _.
Arguments is_next_sequence {T} _.
Arguments is_acknowledged_sequence {T} _.
Arguments is_acknowledged_server_tick {T} _.
Arguments is_history {T} _.

Definition InputSender_with_next_sequence {T} (config : InputSenderConfig) (next_sequence : Z) :
    NetcodeResult (InputSender T) :=
  let? _ := InputSenderConfig_validate config in
  if next_sequence =? 0 then Err (InvalidConfig "next input sequence must be positive")
  else Ok {| is_config := config;
             is_next_sequence := next_sequence;
             is_acknowledged_sequence := next_sequence - 1;
             is_acknowledged_server_tick := 0;
             is_history := [] |}.

Definition InputSender_new {T} (config : InputSenderConfig) : NetcodeResult (InputSender T) :=
  InputSender_with_next_sequence config 1.

Definition InputSender_record {T} (self : InputSender T) (tick : Z) (value : T) :
    NetcodeResult Z * InputSender T :=
  if tick =? 0 then (Err (InvalidInput "input target Tick must be positive"), self)
  else if self.(is_config).(history_capacity) <=? len self.(is_history) then
    (Err InputHistoryFull, self)
  else
    let seq := self.(is_next_sequence) in
    let? next := ok_or (checked_add u64_max self.(is_next_sequence) 1) SequenceExhausted
      else self in
    (Ok seq,
     {| is_config := self.(is_config);
        is_next_sequence := next;
        is_acknowledged_sequence := self.(is_acknowledged_sequence);
        is_acknowledged_server_tick := self.(is_acknowledged_server_tick);
        is_history := self.(is_history) ++
          [{| sequence := seq; target_tick := tick; input := value |}] |}).

(** [while history.front().is_some_and(|frame| frame.sequence <= ack) { history.pop_front(); }] *)
Fixpoint release_front {T} (ack : Z) (history : list (InputFrame T)) : list (InputFrame T) :=
  match history with
  | [] => []
  | frame :: rest =>
      if frame.(sequence) <=? ack then release_front ack rest else history
  end.

Definition InputSender_acknowledge {T} (self : InputSender T) (ack : InputAck) :
    NetcodeResult Z * InputSender T :=
  let last_issued := self.(is_next_sequence) - 1 in
  if last_issued <? ack.(acknowledged_sequence) then (Err InvalidAcknowledgement, self)
  else
    let tick := Z.max self.(is_acknowledged_server_tick) ack.(server_tick) in
    if ack.(acknowledged_sequence) <=? self.(is_acknowledged_sequence) then
      (Ok 0,
       {| is_config := self.(is_config);
          is_next_sequence := self.(is_next_sequence);
          is_acknowledged_sequence := self.(is_acknowledged_sequence);
          is_acknowledged_server_tick := tick;
          is_history := self.(is_history) |})
    else
      let history := release_front ack.(acknowledged_sequence) self.(is_history) in
      (Ok (len self.(is_history) - len history),
       {| is_config := self.(is_config);
          is_next_sequence := self.(is_next_sequence);
          is_acknowledged_sequence := ack.(acknowledged_sequence);
          is_acknowledged_server_tick := tick;
          is_history := history |}).

Definition InputSender_packet {T} (self : InputSender T) (tick : Z) : InputPacket T :=
  let skip := saturating_sub (len self.(is_history)) self.(is_config).(redundancy) in
  {| client_tick := tick;
     acknowledged_server_tick := self.(is_acknowledged_server_tick);
     inputs := drop (Z.to_nat skip) self.(is_history) |}.

(** ** Server: the cumulative acknowledgement window *)

Inductive SequenceDisposition : Type := Accepted | Duplicate.

Record SequenceWindow : Type := {
  sw_reorder_window : Z;
  sw_acknowledged : Z;
  sw_pending : gset Z;
}.

Definition SequenceWindow_with_acknowledged (window acknowledged : Z) :
    NetcodeResult SequenceWindow :=
  if window =? 0 then Err (InvalidConfig "input reorder window must be positive")
  else Ok {| sw_reorder_window := window;
             sw_acknowledged := acknowledged;
             sw_pending := ∅ |}.

Definition SequenceWindow_new (window : Z) : NetcodeResult SequenceWindow :=
  SequenceWindow_with_acknowledged window 0.

(** [while let Some(next) = acknowledged.checked_add(1) { if !pending.remove(&next) { break; }
    acknowledged = next; }].  Every iteration but the last removes an element of [pending], so
    [size pending + 1] iterations are enough ([close_gaps_stuck]). *)
Fixpoint close_gaps (fuel : nat) (acknowledged : Z) (pending : gset Z) : Z * gset Z :=
  match fuel with
  | O => (acknowledged, pending)
  | S fuel =>
      match checked_add u64_max acknowledged 1 with
      | None => (acknowledged, pending)
      | Some next =>
          if bool_decide (next ∈ pending)
          then close_gaps fuel next (pending ∖ {[next]})
          else (acknowledged, pending)
      end
  end.

Definition SequenceWindow_observe (self : SequenceWindow) (seq : Z) :
    NetcodeResult SequenceDisposition * SequenceWindow :=
  if seq =? 0 then (Err (InvalidInput "input sequence must be positive"), self)
  else if (seq <=? self.(sw_acknowledged)) || bool_decide (seq ∈ self.(sw_pending)) then
    (Ok Duplicate, self)
  else if saturating_add u64_max self.(sw_acknowledged) self.(sw_reorder_window) <? seq then
    (Err (InvalidInput "input sequence exceeds the reorder window"), self)
  else
    let pending := {[seq]} ∪ self.(sw_pending) in
    let '(acknowledged, pending) := close_gaps (S (size pending)) self.(sw_acknowledged) pending in
    (Ok Accepted,
     {| sw_reorder_window := self.(sw_reorder_window);
        sw_acknowledged := acknowledged;
        sw_pending := pending |}).

(** ** Server: packet validation *)

Record InputReceiveReport (T : Type) : Type := {
  accepted : list (InputFrame T);
  duplicates : Z;
  report_client_tick : Z;
  report_acknowledged_server_tick : Z;
  acknowledgement : InputAck;
}.
Arguments accepted {T} _.
Arguments duplicates {T} _.
Arguments report_client_tick {T} _.
Arguments report_acknowledged_server_tick {T} _.
Arguments acknowledgement {T} _.

Record InputReceiver : Type := {
  ir_config : InputReceiverConfig;
  ir_sequences : SequenceWindow;
}.

Definition InputReceiver_with_acknowledged (config : InputReceiverConfig) (acknowledged : Z) :
    NetcodeResult InputReceiver :=
  let? _ := InputReceiverConfig_validate config in
  let? sequences := SequenceWindow_with_acknowledged config.(reorder_window) acknowledged in
  Ok {| ir_config := config; ir_sequences := sequences |}.

Definition InputReceiver_new (config : InputReceiverConfig) : NetcodeResult InputReceiver :=
  InputReceiver_with_acknowledged config 0.

(** The [for frame in packet.inputs] loop: the staged window, the accepted frames in order and the
    number of duplicates. *)
Fixpoint receive_frames {T} (earliest latest : Z) (frames : list (InputFrame T))
    (w : SequenceWindow) (acc : list (InputFrame T)) (dups : Z) :
    NetcodeResult (SequenceWindow * list (InputFrame T) * Z) :=
  match frames with
  | [] => Ok (w, acc, dups)
  | frame :: rest =>
      match SequenceWindow_observe w frame.(sequence) with
      | (Err e, _) => Err e
      | (Ok Duplicate, w) => receive_frames earliest latest rest w acc (dups + 1)
      | (Ok Accepted, w) =>
          if (frame.(target_tick) =? 0) || (frame.(target_tick) <? earliest)
             || (latest <? frame.(target_tick))
          then Err (InvalidInput "input target Tick is outside the receive window")
          else receive_frames earliest latest rest w (acc ++ [frame]) dups
      end
  end.

Definition InputReceiver_receive {T} (self : InputReceiver) (current_server_tick : Z)
    (packet : InputPacket T) : NetcodeResult (InputReceiveReport T) * InputReceiver :=
  if self.(ir_config).(max_inputs_per_packet) <? len packet.(inputs) then
    (Err (InvalidInput "packet contains too many input frames"), self)
  else if current_server_tick <? packet.(acknowledged_server_tick) then
    (Err (InvalidInput "client acknowledged a future server Tick"), self)
  else
    let frames := sort_by_key sequence packet.(inputs) in
    let earliest := saturating_sub current_server_tick self.(ir_config).(max_past_ticks) in
    let latest := saturating_add u64_max current_server_tick self.(ir_config).(max_future_ticks) in
    let? (w, acc, dups) := receive_frames earliest latest frames self.(ir_sequences) [] 0
      else self in
    (Ok {| accepted := acc;
           duplicates := dups;
           report_client_tick := packet.(client_tick);
           report_acknowledged_server_tick := packet.(acknowledged_server_tick);
           acknowledgement :=
             {| server_tick := current_server_tick;
                acknowledged_sequence := w.(sw_acknowledged) |} |},
     {| ir_config := self.(ir_config); ir_sequences := w |}).

(** ** The window as an abstract set of received sequences *)

Module Window.

(** What the window remembers: every positive sequence up to the cumulative acknowledgement, and
    the sequences buffered above the first gap. *)
Definition received (w : SequenceWindow) (s : Z) : Prop :=
  0 < s <= w.(sw_acknowledged) \/ s ∈ w.(sw_pending).

(** Well-formedness: widths, and [pending] holds exactly sequences above the first gap and within
    the reorder window. *)
Record wf (w : SequenceWindow) : Prop := {
  wf_window : 0 < w.(sw_reorder_window) <= u64_max;
  wf_ack : u64_ok w.(sw_acknowledged);
  wf_pending : forall s, s ∈ w.(sw_pending) ->
    w.(sw_acknowledged) + 1 < s /\
    s <= saturating_add u64_max w.(sw_acknowledged) w.(sw_reorder_window);
}.

#[export] Instance received_dec w s : Decision (received w s).
Proof. unfold received. apply _. Defined.

(** [close_gaps] removes exactly the run of consecutive sequences above [a] and stops at a gap. *)
Lemma close_gaps_spec fuel : forall a P a' P',
  (size P < fuel)%nat ->
  (forall s, s ∈ P -> a < s <= u64_max) ->
  close_gaps fuel a P = (a', P') ->
  a <= a' /\ (forall s, a < s <= a' -> s ∈ P) /\ a' + 1 ∉ P /\
  (forall s, s ∈ P' <-> s ∈ P /\ a' < s).
Proof.
  induction fuel as [|fuel IH]; intros a P a' P' Hfuel HP Hrun; [lia|]; cbn in Hrun.
  destruct (checked_add u64_max a 1) as [next|] eqn:Hnext.
  2: { apply checked_add_None in Hnext. simplify_eq.
       split_and!; [lia|lia|intros ?%HP; lia|naive_solver]. }
  apply checked_add_Some in Hnext as [-> Hmax].
  case_bool_decide as Hin; simplify_eq.
  2: { split_and!; [lia|lia|done|naive_solver]. }
  apply IH in Hrun as (Hle & Hrange & Hgap & HP').
  - split_and!.
    + lia.
    + intros s Hs. destruct (decide (s = a + 1)) as [->|]; [done|].
      assert (s ∈ P ∖ {[a + 1]}) by (apply Hrange; lia). set_solver.
    + assert (a' + 1 <> a + 1) by lia. set_solver.
    + intros s. rewrite HP'. split; [set_solver|].
      intros [? ?]. assert (s <> a + 1) by lia. set_solver.
  - rewrite size_difference by set_solver. rewrite size_singleton.
    assert (size P <> 0%nat) by (apply size_non_empty_iff; set_solver). lia.
  - intros s [Hs Hne]%elem_of_difference. specialize (HP s Hs). set_solver by lia.
Qed.

Lemma new_wf window w :
  fits u64_max window -> SequenceWindow_new window = Ok w -> wf w /\ sw_acknowledged w = 0 /\
  forall s, ~ received w s.
Proof.
  unfold SequenceWindow_new, SequenceWindow_with_acknowledged, fits. intros Hw H.
  destruct (window =? 0) eqn:E; simplify_eq. breflect.
  split_and!; [|done|intros s [?|?]; cbn in *; [lia|set_solver]].
  constructor; cbn; [lia|unfold fits, u64_max; lia|set_solver].
Qed.

(** The outcome of [observe] on a well-formed window, as an operation on the abstract set. *)
Definition observe_outcome (w : SequenceWindow) (s : Z)
    (r : NetcodeResult SequenceDisposition) (w' : SequenceWindow) : Prop :=
  match r with
  | Err _ =>
      w' = w /\ (s = 0 \/ (~ received w s /\
        saturating_add u64_max (sw_acknowledged w) (sw_reorder_window w) < s))
  | Ok Duplicate => w' = w /\ received w s
  | Ok Accepted =>
      wf w' /\ sw_reorder_window w' = sw_reorder_window w /\
      sw_acknowledged w <= sw_acknowledged w' /\
      ~ received w s /\ 0 < s <= u64_max /\
      forall t, received w' t <-> t = s \/ received w t
  end.

Lemma observe_ok w s : wf w -> u64_ok s ->
  observe_outcome w s (SequenceWindow_observe w s).1 (SequenceWindow_observe w s).2.
Proof.
  intros [Hwin Hack Hpend] Hs. unfold SequenceWindow_observe, fits in *.
  destruct (s =? 0) eqn:Hz; breflect; [by cbn; auto|].
  destruct ((s <=? _) || _) eqn:Hdup; breflect.
  { cbn. split; [done|]. destruct Hdup; breflect; [left; lia|by right]. }
  destruct (_ <? s) eqn:Hfar; breflect.
  { cbn. split; [done|]. right. split; [|lia]. intros [?|?]; [lia|done]. }
  destruct (close_gaps _ _ _) as [a' P'] eqn:Hrun. cbn.
  unfold saturating_add in *.
  apply close_gaps_spec in Hrun as (Hle & Hrange & Hgap & HP'); [|lia|].
  2: { intros t [->%elem_of_singleton|Ht]%elem_of_union; [lia|]. specialize (Hpend t Ht). lia. }
  assert (Hbound : forall t, t ∈ {[s]} ∪ sw_pending w -> sw_acknowledged w < t /\
    t <= sw_acknowledged w + sw_reorder_window w /\ t <= u64_max).
  { intros t [->%elem_of_singleton|Ht]%elem_of_union; [lia|]. specialize (Hpend t Ht). lia. }
  assert (Ha' : a' <= u64_max).
  { destruct (decide (sw_acknowledged w < a')); [|lia].
    assert (Hin : a' ∈ {[s]} ∪ sw_pending w) by (apply Hrange; lia). apply Hbound in Hin. lia. }
  split_and!; try done; try lia.
  - constructor; cbn; [done|unfold fits; lia|]. intros t [Ht Hlt]%HP'.
    assert (t <> a' + 1) by (intros ->; done). apply Hbound in Ht. unfold saturating_add. lia.
  - intros [?|?]; [lia|done].
  - intros t. unfold received; cbn. rewrite HP'. split.
    + intros [Ht|[Ht _]]; [|set_solver].
      destruct (decide (t <= sw_acknowledged w)); [by right; left; lia|].
      assert (Hin : t ∈ {[s]} ∪ sw_pending w) by (apply Hrange; lia). set_solver.
    + intros Ht. destruct (decide (t <= a')) as [Hta|Hta].
      * left. destruct Ht as [->|[?|Ht]]; [lia|lia|].
        assert (Hin : t ∈ {[s]} ∪ sw_pending w) by set_solver. apply Hbound in Hin. lia.
      * right. destruct Ht as [->|[?|Ht]]; [set_solver by lia|lia|set_solver by lia].
Qed.

(** The cumulative acknowledgement of a well-formed window is the end of the longest prefix of
    received sequences. *)
Lemma ack_is_longest_prefix w n : wf w -> 0 <= n ->
  n <= sw_acknowledged w <-> forall s, 0 < s <= n -> received w s.
Proof.
  intros [Hwin Hack Hpend] Hn. split; [intros; left; lia|].
  intros Hall. destruct (decide (n <= sw_acknowledged w)) as [|Hgt]; [done|].
  unfold fits in *. destruct (Hall (sw_acknowledged w + 1)) as [?|Hin]; [lia|lia|].
  apply Hpend in Hin. lia.
Qed.

End Window.

(** ** Packet reception *)

Module Receiver.
Import Window.
Section receiver.
Context {T : Type}.
Implicit Types (frames acc : list (InputFrame T)) (w : SequenceWindow).

Definition frames_ok (frames : list (InputFrame T)) : Prop :=
  Forall (fun f => u64_ok f.(sequence)) frames.

Definition in_tick_window (earliest latest : Z) (f : InputFrame T) : Prop :=
  0 <> f.(target_tick) /\ earliest <= f.(target_tick) <= latest.

(** What a successful pass over [frames] from window [w] establishes about the staged window [w']
    and the newly accepted frames [new]. *)
Record pass (earliest latest : Z) (frames : list (InputFrame T)) (w w' : SequenceWindow)
    (new : list (InputFrame T)) : Prop := {
  pass_wf : wf w';
  pass_window : w'.(sw_reorder_window) = w.(sw_reorder_window);
  pass_ack : w.(sw_acknowledged) <= w'.(sw_acknowledged);
  pass_sublist : sublist new frames;
  pass_nodup : NoDup (sequence <$> new);
  pass_fresh : Forall (fun f => ~ received w f.(sequence)) new;
  pass_ticks : Forall (in_tick_window earliest latest) new;
  pass_received : forall s, received w' s <-> s ∈ sequence <$> new \/ received w s;
  pass_all : Forall (fun f => received w' f.(sequence)) frames;
}.

Lemma pass_nil e l w : wf w -> pass e l [] w w [].
Proof.
  intros Hw. constructor; cbn; try done; try by constructor.
  intros s. set_solver.
Qed.

Lemma pass_dup e l frames w w' new f :
  received w f.(sequence) -> pass e l frames w w' new -> pass e l (f :: frames) w w' new.
Proof.
  intros Hf []. constructor; try done; [by constructor|].
  constructor; [|done]. rewrite pass_received0. by right.
Qed.

Lemma pass_accept e l frames w w1 w' new f :
  wf w -> observe_outcome w f.(sequence) (Ok Accepted) w1 -> in_tick_window e l f ->
  pass e l frames w1 w' new -> pass e l (f :: frames) w w' (f :: new).
Proof.
  intros Hw (Hw1 & Hwin & Hack & Hfresh & Hpos & Hrec) Htick []. rewrite Forall_forall in *.
  constructor; cbn; rewrite ?Forall_cons; try done.
  - congruence.
  - lia.
  - by constructor.
  - constructor; [|done]. intros (g & Heq & Hg)%list_elem_of_fmap.
    apply (pass_fresh0 g Hg). rewrite Hrec. by left.
  - split; [done|]. rewrite Forall_forall. intros g Hg Hr. apply (pass_fresh0 g Hg), Hrec. by right.
  - by rewrite Forall_forall.
  - intros s. rewrite pass_received0, Hrec. set_solver.
  - split; [|by rewrite Forall_forall]. rewrite pass_received0, Hrec. by right; left.
Qed.

Lemma receive_frames_pass e l frames : forall w acc dups w' acc' dups',
  wf w -> frames_ok frames ->
  receive_frames e l frames w acc dups = Ok (w', acc', dups') ->
  exists new, acc' = acc ++ new /\ pass e l frames w w' new /\
    dups' = dups + (len frames - len new).
Proof.
  induction frames as [|f frames IH]; intros w acc dups w' acc' dups' Hw Hok Hrun; cbn in Hrun.
  { simplify_eq. exists []. rewrite app_nil_r. split_and!; [done|by apply pass_nil|lia]. }
  apply Forall_cons in Hok as [Hf Hok].
  pose proof (observe_ok w f.(sequence) Hw Hf) as Hobs.
  destruct (SequenceWindow_observe w f.(sequence)) as [[[]|err] w1]; cbn in Hobs; [| |done].
  - case_match eqn:Htick; [done|]. breflect.
    apply IH in Hrun as (new & -> & Hpass & ->); [|apply Hobs|done].
    exists (f :: new). rewrite <-app_assoc, !len_cons. split_and!; [done| |lia].
    eapply pass_accept; eauto. split; lia.
  - destruct Hobs as [-> Hrec].
    apply IH in Hrun as (new & -> & Hpass & ->); [|done..].
    exists new. rewrite !len_cons. split_and!; [done| |lia]. by apply pass_dup.
Qed.

(** Well-formed receivers: the window uses the configured reorder distance. *)
Record receiver_wf (r : InputReceiver) : Prop := {
  rwf_window : wf r.(ir_sequences);
  rwf_same : sw_reorder_window r.(ir_sequences) = reorder_window r.(ir_config);
}.

Definition earliest_tick (r : InputReceiver) (now : Z) : Z :=
  saturating_sub now (max_past_ticks r.(ir_config)).
Definition latest_tick (r : InputReceiver) (now : Z) : Z :=
  saturating_add u64_max now (max_future_ticks r.(ir_config)).

Lemma frames_ok_sort frames : frames_ok frames -> frames_ok (sort_by_key sequence frames).
Proof. unfold frames_ok. by rewrite (sort_by_perm _ frames : sort_by_key _ _ ≡ₚ _). Qed.

Lemma receive_ok r now (p : InputPacket T) report r' :
  receiver_wf r -> frames_ok p.(inputs) ->
  InputReceiver_receive r now p = (Ok report, r') ->
  receiver_wf r' /\ r'.(ir_config) = r.(ir_config) /\
  pass (earliest_tick r now) (latest_tick r now) (sort_by_key sequence p.(inputs))
    r.(ir_sequences) r'.(ir_sequences) report.(accepted) /\
  report.(duplicates) = len p.(inputs) - len report.(accepted) /\
  len p.(inputs) <= max_inputs_per_packet r.(ir_config) /\
  p.(acknowledged_server_tick) <= now /\
  report.(acknowledgement) =
    {| server_tick := now; acknowledged_sequence := sw_acknowledged r'.(ir_sequences) |}.
Proof.
  intros [Hw Hsame] Hok Hrun. unfold InputReceiver_receive in Hrun.
  case_match eqn:Hlen; [done|]. case_match eqn:Htick; [done|].
  destruct (receive_frames _ _ _ _ _ _) as [[[w acc] dups]|] eqn:Hf; simplify_eq/=. breflect.
  apply receive_frames_pass in Hf as (new & -> & Hpass & ->); [|done|by apply frames_ok_sort].
  cbn. split_and!; try done; try lia.
  - constructor; cbn; [apply Hpass|]. rewrite (pass_window _ _ _ _ _ _ Hpass). done.
  - unfold len. rewrite (length_sort_by _ _ : length (sort_by_key _ _) = _). lia.
Qed.

Lemma receive_err r now (p : InputPacket T) e r' :
  InputReceiver_receive r now p = (Err e, r') -> r' = r.
Proof. unfold InputReceiver_receive. repeat case_match; naive_solver. Qed.

Lemma new_receiver_wf config r :
  fits u64_max (reorder_window config) -> InputReceiver_new config = Ok r ->
  receiver_wf r /\ r.(ir_config) = config /\ forall s, ~ received r.(ir_sequences) s.
Proof.
  unfold InputReceiver_new, InputReceiver_with_acknowledged. intros Hfit H.
  destruct (InputReceiverConfig_validate config); [|done].
  destruct (SequenceWindow_with_acknowledged _ _) as [w|] eqn:Hw; simplify_eq/=.
  pose proof (new_wf _ _ Hfit Hw) as (Hwf & _ & Hnone).
  split_and!; [|done|done]. constructor; cbn; [done|].
  unfold SequenceWindow_with_acknowledged in Hw. case_match; by simplify_eq.
Qed.

(** The accepted inputs of a sequence of calls, rejected packets included. *)
Fixpoint receive_all (r : InputReceiver) (packets : list (Z * InputPacket T)) :
    list (InputFrame T) * InputReceiver :=
  match packets with
  | [] => ([], r)
  | (now, p) :: rest =>
      match InputReceiver_receive r now p with
      | (Ok report, r) => let '(fs, r) := receive_all r rest in (report.(accepted) ++ fs, r)
      | (Err _, r) => receive_all r rest
      end
  end.

Lemma receive_all_nodup packets : forall r,
  receiver_wf r -> Forall (fun p => frames_ok p.2.(inputs)) packets ->
  NoDup (sequence <$> (receive_all r packets).1) /\
  Forall (fun f => ~ received r.(ir_sequences) f.(sequence)) (receive_all r packets).1.
Proof.
  induction packets as [|[now p] packets IH]; intros r Hr Hall; cbn; [by repeat constructor|].
  apply Forall_cons in Hall as [Hp Hall]. cbn in Hp.
  destruct (InputReceiver_receive r now p) as [[report|e] r'] eqn:Hrun.
  2: { apply receive_err in Hrun as ->. by apply IH. }
  apply receive_ok in Hrun as (Hr' & _ & Hpass & _); [|done..].
  specialize (IH r' Hr' Hall). destruct (receive_all r' packets) as [fs r''].
  cbn in *. destruct IH as [Hnd Hfresh]. destruct Hpass. rewrite Forall_forall in *.
  rewrite fmap_app. split.
  - apply NoDup_app. split_and!; [done| |done].
    intros s Hs (g & -> & Hg)%list_elem_of_fmap. apply (Hfresh g Hg), pass_received0. by left.
  - intros g [Hg|Hg]%elem_of_app Hrec; [by eapply pass_fresh0|].
    apply (Hfresh g Hg), pass_received0. by right.
Qed.

End receiver.
End Receiver.

(** ** Properties *)

(** On a well-formed window [SequenceWindow::observe] implements insertion into a set of received
    sequences: it rejects exactly zero and the unseen sequences beyond the reorder window, reports
    exactly the members as duplicates and leaves the window alone in both cases; otherwise the set
    gains exactly the observed sequence, the window stays well formed, and the cumulative
    acknowledgement is the end of the longest received prefix. *)
Theorem sequence_window_refines_set (w : SequenceWindow) (s : Z)
    (r : NetcodeResult SequenceDisposition) (w' : SequenceWindow) :
  Window.wf w -> u64_ok s -> SequenceWindow_observe w s = (r, w') ->
  Window.observe_outcome w s r w' /\ Window.wf w' /\
  forall n, 0 <= n ->
    n <= w'.(sw_acknowledged) <-> forall t, 0 < t <= n -> Window.received w' t.
Proof.
  intros Hw Hs Heq. pose proof (Window.observe_ok w s Hw Hs) as Hout. rewrite Heq in Hout.
  cbn in Hout. assert (Hw' : Window.wf w') by (destruct r as [[]|]; naive_solver).
  split_and!; [done|done|]. intros n Hn. by apply Window.ack_is_longest_prefix.
Qed.

Lemma sequence_window_refines_set_witness :
  exists w w',
    SequenceWindow_observe w 1 = (Ok Accepted, w') /\ sw_acknowledged w' = 2 /\
    Window.observe_outcome w 1 (Ok Accepted) w'.
Proof.
  exists {| sw_reorder_window := 8; sw_acknowledged := 0; sw_pending := {[2]} |}. eexists.
  split; [vm_compute; reflexivity|]. split; [reflexivity|].
  refine (proj1 (sequence_window_refines_set _ 1 _ _ _ _ _)).
  - constructor; cbn; unfold fits, saturating_add, u64_max; [lia|lia|set_solver by lia].
  - unfold fits, u64_max. lia.
  - vm_compute. reflexivity.
Defined.

(** [InputReceiver::receive] is transactional and validates every accepted input: an error leaves
    the receiver unchanged; success means the packet is within its limits, accepts a sub-sequence
    of the sorted frames with pairwise distinct, previously unseen sequences and target ticks
    inside the rollback and scheduling windows, counts every other frame as a duplicate, and
    acknowledges the receiver's new cumulative sequence. *)
Theorem input_receive_transactional {T} (r r' : InputReceiver) (now : Z) (p : InputPacket T)
    (res : NetcodeResult (InputReceiveReport T)) :
  Receiver.receiver_wf r -> Receiver.frames_ok p.(inputs) ->
  InputReceiver_receive r now p = (res, r') ->
  match res with
  | Err _ => r' = r
  | Ok report =>
      Receiver.receiver_wf r' /\
      len p.(inputs) <= max_inputs_per_packet r.(ir_config) /\
      p.(acknowledged_server_tick) <= now /\
      sublist report.(accepted) (sort_by_key sequence p.(inputs)) /\
      NoDup (sequence <$> report.(accepted)) /\
      Forall (fun f => ~ Window.received r.(ir_sequences) f.(sequence) /\ f.(target_tick) <> 0 /\
        now - max_past_ticks r.(ir_config) <= f.(target_tick)
          <= now + max_future_ticks r.(ir_config)) report.(accepted) /\
      report.(duplicates) = len p.(inputs) - len report.(accepted) /\
      report.(acknowledgement).(server_tick) = now /\
      report.(acknowledgement).(acknowledged_sequence) = sw_acknowledged r'.(ir_sequences)
  end.
Proof.
  intros Hr Hok Hrun. destruct res as [report|e]; [|by eapply Receiver.receive_err].
  apply Receiver.receive_ok in Hrun as (Hr' & _ & [] & Hdup & Hlen & Htick & ->); [|done..].
  split_and!; try done. rewrite Forall_forall in *. intros f Hf.
  split; [by apply pass_fresh|]. destruct (pass_ticks f Hf) as [? Hw].
  unfold Receiver.earliest_tick, Receiver.latest_tick, saturating_sub, saturating_add in Hw. lia.
Qed.

Lemma input_receive_transactional_witness :
  exists (r r' : InputReceiver) (report : InputReceiveReport Z),
    InputReceiver_new InputReceiverConfig_default = Ok r /\
    InputReceiver_receive r 10
      {| client_tick := 10; acknowledged_server_tick := 9;
         inputs := [{| sequence := 2; target_tick := 12; input := 7 |};
                    {| sequence := 1; target_tick := 11; input := 5 |}] |} = (Ok report, r') /\
    report.(duplicates) = 0 /\ Receiver.receiver_wf r'.
Proof.
  eexists _, _, _. split; [reflexivity|]. split; [vm_compute; reflexivity|]. split; [reflexivity|].
  refine (proj1 (input_receive_transactional _ _ 10
    {| client_tick := 10; acknowledged_server_tick := 9;
       inputs := [{| sequence := 2; target_tick := 12; input := 7 |};
                  {| sequence := 1; target_tick := 11; input := 5 |}] |} (Ok _) _ _ _)).
  - apply (Receiver.new_receiver_wf InputReceiverConfig_default); [|reflexivity].
    vm_compute. split; discriminate.
  - repeat constructor; cbn; unfold u64_max; lia.
  - vm_compute. reflexivity.
Defined.

(** Whatever packets arrive, replayed and hostile ones included, no sequence is ever accepted
    twice by one receiver. *)
Theorem input_receive_exactly_once {T} (config : InputReceiverConfig) (r : InputReceiver)
    (packets : list (Z * InputPacket T)) :
  u64_ok (reorder_window config) -> InputReceiver_new config = Ok r ->
  Forall (fun p => Receiver.frames_ok p.2.(inputs)) packets ->
  NoDup (sequence <$> (Receiver.receive_all r packets).1).
Proof.
  intros Hfit Hnew Hall. apply Receiver.receive_all_nodup; [|done].
  by eapply Receiver.new_receiver_wf.
Qed.

Lemma input_receive_exactly_once_witness :
  exists (r : InputReceiver) (packets : list (Z * InputPacket Z)),
    sequence <$> (Receiver.receive_all r packets).1 = [1; 2] /\
    NoDup (sequence <$> (Receiver.receive_all r packets).1).
Proof.
  pose (p := {| client_tick := 1; acknowledged_server_tick := 0;
                inputs := [{| sequence := 1; target_tick := 1; input := 0 |};
                           {| sequence := 2; target_tick := 2; input := 0 |}] |}).
  exists {| ir_config := InputReceiverConfig_default;
            ir_sequences := {| sw_reorder_window := 256; sw_acknowledged := 0;
                               sw_pending := ∅ |} |}, [(1, p); (2, p)].
  split; [vm_compute; reflexivity|].
  apply (input_receive_exactly_once InputReceiverConfig_default).
  - vm_compute. split; discriminate.
  - reflexivity.
  - repeat constructor; cbn; unfold u64_max; lia.
Defined.
