(* ===== verification/NetcodeLink.v ===== *)
(** * The input link: client sender and server receiver over an unreliable network

    [NetcodeInput] models each end of the input stream; this file composes them the way the
    transport does.  The network holds every packet and acknowledgement ever sent, and may deliver
    each of them never, once or many times, in any order and at any server tick.  The invariant of
    the composed system is proved by induction on its steps. *)

From S2P Require Import Prelude NetcodeInput.
Import Window Receiver.

Section link.
Context {T : Type}.

Record link : Type := {
  lk_sender : InputSender T;
  lk_receiver : InputReceiver;
  lk_log : list (InputFrame T);
  lk_packets : list (InputPacket T);
  lk_acks : list InputAck;
  lk_delivered : list (InputFrame T);
}.

Definition link_init (s : InputSender T) (r : InputReceiver) : link :=
  {| lk_sender := s; lk_receiver := r; lk_log := []; lk_packets := []; lk_acks := [];
     lk_delivered := [] |}.

(** One event of the composed system.  [lk_log] and [lk_delivered] only record what happened. *)
Inductive link_step (l : link) : link -> Prop :=
| step_record tick v seq s' :
    InputSender_record l.(lk_sender) tick v = (Ok seq, s') ->
    link_step l
      {| lk_sender := s'; lk_receiver := l.(lk_receiver);
         lk_log := l.(lk_log) ++ [{| sequence := seq; target_tick := tick; input := v |}];
         lk_packets := l.(lk_packets); lk_acks := l.(lk_acks);
         lk_delivered := l.(lk_delivered) |}
| step_send tick :
    link_step l
      {| lk_sender := l.(lk_sender); lk_receiver := l.(lk_receiver); lk_log := l.(lk_log);
         lk_packets := InputSender_packet l.(lk_sender) tick :: l.(lk_packets);
         lk_acks := l.(lk_acks); lk_delivered := l.(lk_delivered) |}
| step_deliver now p report r' :
    p ∈ l.(lk_packets) ->
    InputReceiver_receive l.(lk_receiver) now p = (Ok report, r') ->
    link_step l
      {| lk_sender := l.(lk_sender); lk_receiver := r'; lk_log := l.(lk_log);
         lk_packets := l.(lk_packets); lk_acks := report.(acknowledgement) :: l.(lk_acks);
         lk_delivered := l.(lk_delivered) ++ report.(accepted) |}
| step_reject now p e r' :
    p ∈ l.(lk_packets) ->
    InputReceiver_receive l.(lk_receiver) now p = (Err e, r') ->
    link_step l
      {| lk_sender := l.(lk_sender); lk_receiver := r'; lk_log := l.(lk_log);
         lk_packets := l.(lk_packets); lk_acks := l.(lk_acks);
         lk_delivered := l.(lk_delivered) |}
| step_ack a res s' :
    a ∈ l.(lk_acks) ->
    InputSender_acknowledge l.(lk_sender) a = (res, s') ->
    link_step l
      {| lk_sender := s'; lk_receiver := l.(lk_receiver); lk_log := l.(lk_log);
         lk_packets := l.(lk_packets); lk_acks := l.(lk_acks);
         lk_delivered := l.(lk_delivered) |}.

Abbreviation reachable := (rtc link_step).

(** The sender's view: the log numbers inputs consecutively from one, and the history is the part
    of the log above the acknowledged sequence. *)
Record sender_inv (s : InputSender T) (log : list (InputFrame T)) : Prop := {
  si_log : sequence <$> log = seqZ 1 (s.(is_next_sequence) - 1);
  si_next : 1 <= s.(is_next_sequence) <= u64_max;
  si_acked : 0 <= s.(is_acknowledged_sequence) < s.(is_next_sequence);
  si_history : s.(is_history) = drop (Z.to_nat s.(is_acknowledged_sequence)) log;
}.

Record link_inv (l : link) : Prop := {
  li_sender : sender_inv l.(lk_sender) l.(lk_log);
  li_receiver : receiver_wf l.(lk_receiver);
  li_packets : forall p f, p ∈ l.(lk_packets) -> f ∈ p.(inputs) -> f ∈ l.(lk_log);
  li_nodup : NoDup (sequence <$> l.(lk_delivered));
  li_integrity : l.(lk_delivered) ⊆ l.(lk_log);
  li_received : forall s,
    received l.(lk_receiver).(ir_sequences) s <-> s ∈ sequence <$> l.(lk_delivered);
  li_acks : forall a, a ∈ l.(lk_acks) ->
    a.(acknowledged_sequence) <= sw_acknowledged l.(lk_receiver).(ir_sequences);
  li_acked : is_acknowledged_sequence l.(lk_sender)
    <= sw_acknowledged l.(lk_receiver).(ir_sequences);
}.

(** *** The sender's history *)

Lemma log_sequence s log f :
  sender_inv s log -> f ∈ log -> 1 <= f.(sequence) < s.(is_next_sequence).
Proof.
  intros [Hlog Hnext _ _] Hf.
  assert (Hin : f.(sequence) ∈ sequence <$> log) by (apply list_elem_of_fmap; eauto).
  rewrite Hlog in Hin. apply elem_of_seqZ in Hin. lia.
Qed.

Lemma log_index s log f :
  sender_inv s log -> f ∈ log -> log !! Z.to_nat (f.(sequence) - 1) = Some f.
Proof.
  intros Hinv (i & Hi)%list_elem_of_lookup. destruct Hinv as [Hlog Hnext _ _].
  assert (Hs : (sequence <$> log) !! i = Some f.(sequence)) by by rewrite list_lookup_fmap, Hi.
  rewrite Hlog in Hs. apply lookup_seqZ in Hs as [Hs _].
  by replace (Z.to_nat (f.(sequence) - 1)) with i by lia.
Qed.

Lemma log_unique s log f g :
  sender_inv s log -> f ∈ log -> g ∈ log -> f.(sequence) = g.(sequence) -> f = g.
Proof.
  intros Hinv Hf Hg Heq. apply (log_index s) in Hf, Hg; [|done..]. congruence.
Qed.

Lemma release_front_drop (l : list (InputFrame T)) : forall a n ack,
  sequence <$> l = seqZ a n -> a - 1 <= ack ->
  release_front ack l = drop (Z.to_nat (ack + 1 - a)) l.
Proof.
  induction l as [|f l IH]; intros a n ack Hseq Hack; cbn; [by rewrite drop_nil|].
  destruct (decide (0 < n)); [|by rewrite seqZ_nil in Hseq by lia].
  rewrite seqZ_cons in Hseq by lia. injection Hseq as Hf Hl.
  destruct (Z.leb_spec (sequence f) ack).
  - rewrite (IH (Z.succ a) (Z.pred n) ack Hl) by lia.
    by replace (Z.to_nat (ack + 1 - a)) with (S (Z.to_nat (ack + 1 - Z.succ a))) by lia.
  - by replace (Z.to_nat (ack + 1 - a)) with 0%nat by lia.
Qed.

Lemma drop_seqZ k a n : drop k (seqZ a n) = seqZ (a + Z.of_nat k) (n - Z.of_nat k).
Proof.
  revert a n. induction k as [|k IH]; intros a n.
  { cbn. by rewrite Z.add_0_r, Z.sub_0_r. }
  destruct (decide (0 < n)); [|by rewrite !seqZ_nil by lia; destruct k].
  rewrite seqZ_cons by lia. cbn [drop]. rewrite IH. f_equal; lia.
Qed.

Lemma sender_record s log tick v seq s' :
  sender_inv s log -> InputSender_record s tick v = (Ok seq, s') ->
  sender_inv s' (log ++ [{| sequence := seq; target_tick := tick; input := v |}]) /\
  is_acknowledged_sequence s' = is_acknowledged_sequence s /\ is_config s' = is_config s /\
  is_history s' = is_history s ++ [{| sequence := seq; target_tick := tick; input := v |}] /\
  len (is_history s) < history_capacity (is_config s).
Proof.
  intros [Hlog Hnext Hacked Hhist] Hrun. unfold InputSender_record in Hrun.
  case_match; [done|]. case_match eqn:Hcap; [done|].
  destruct (checked_add _ _ _) as [next|] eqn:Hadd; simplify_eq/=. breflect.
  apply checked_add_Some in Hadd as [-> Hmax].
  assert (Hlen : length log = Z.to_nat (is_next_sequence s - 1)).
  { by rewrite <-(length_fmap sequence), Hlog, length_seqZ. }
  split_and!; try done. constructor; cbn; [|lia|lia|].
  - rewrite fmap_app, Hlog; cbn.
    replace (is_next_sequence s + 1 - 1) with ((is_next_sequence s - 1) + 1) by lia.
    rewrite seqZ_app by lia. f_equal.
    by replace (1 + (is_next_sequence s - 1)) with (is_next_sequence s) by lia.
  - rewrite Hhist, drop_app_le by lia. done.
Qed.

(** An acknowledgement of an issued sequence is accepted and releases exactly the inputs it
    covers. *)
Lemma sender_acknowledge s log a :
  sender_inv s log -> a.(acknowledged_sequence) < s.(is_next_sequence) ->
  exists n s', InputSender_acknowledge s a = (Ok n, s') /\ sender_inv s' log /\
    is_acknowledged_sequence s' =
      Z.max (is_acknowledged_sequence s) a.(acknowledged_sequence) /\
    is_next_sequence s' = is_next_sequence s /\ is_config s' = is_config s /\
    is_history s = take (Z.to_nat n) (is_history s) ++ is_history s'.
Proof.
  intros Hinv Hlt. pose proof Hinv as [Hlog Hnext Hacked Hhist].
  unfold InputSender_acknowledge. case_match eqn:Hissued; breflect; [lia|].
  case_match eqn:Hold; breflect.
  { eexists _, _. split; [done|]. cbn. split_and!; try done; try lia. }
  eexists _, _. split; [done|]. cbn.
  assert (Hrel : release_front a.(acknowledged_sequence) (is_history s) =
                 drop (Z.to_nat (a.(acknowledged_sequence) - is_acknowledged_sequence s))
                   (is_history s)).
  { erewrite (release_front_drop _ (is_acknowledged_sequence s + 1)
                (is_next_sequence s - 1 - is_acknowledged_sequence s)); [f_equal; lia| |lia].
    rewrite Hhist, fmap_drop, Hlog, drop_seqZ. f_equal; lia. }
  split_and!; try done; try lia.
  - constructor; cbn; [done|done|lia|].
    rewrite Hrel, Hhist, drop_drop. f_equal. lia.
  - rewrite Hrel. unfold len. rewrite length_drop.
    set (k := Z.to_nat (a.(acknowledged_sequence) - is_acknowledged_sequence s)).
    assert (Hk : (k <= length (is_history s))%nat).
    { rewrite Hhist, length_drop, <-(length_fmap sequence), Hlog, length_seqZ. lia. }
    replace (Z.to_nat _) with k by lia. by rewrite take_drop.
Qed.

Lemma history_sequences s log : sender_inv s log ->
  sequence <$> is_history s =
    seqZ (is_acknowledged_sequence s + 1) (is_next_sequence s - 1 - is_acknowledged_sequence s).
Proof.
  intros [Hlog Hnext Hacked Hhist]. rewrite Hhist, fmap_drop, Hlog, drop_seqZ. f_equal; lia.
Qed.

Lemma released_range s s' log released :
  sender_inv s log -> sender_inv s' log -> is_next_sequence s' = is_next_sequence s ->
  is_history s = released ++ is_history s' ->
  Forall (fun f => f.(sequence) <= is_acknowledged_sequence s') released /\
  Forall (fun f => is_acknowledged_sequence s' < f.(sequence)) (is_history s').
Proof.
  intros Hs Hs' Hnext Hsplit. pose proof (si_acked _ _ Hs). pose proof (si_acked _ _ Hs').
  pose proof (history_sequences _ _ Hs) as Hseq. pose proof (history_sequences _ _ Hs') as Hseq'.
  rewrite Hsplit, fmap_app, Hseq', Hnext in Hseq.
  assert (Hlen : length released =
    Z.to_nat (is_acknowledged_sequence s' - is_acknowledged_sequence s)).
  { apply (f_equal length) in Hseq. rewrite length_app, !length_seqZ, length_fmap in Hseq. lia. }
  split; apply Forall_forall; intros f (i & Hi)%list_elem_of_lookup.
  - pose proof (lookup_lt_Some _ _ _ Hi).
    assert (Hf : (sequence <$> released) !! i = Some f.(sequence))
      by by rewrite list_lookup_fmap, Hi.
    apply (lookup_app_l_Some _ (seqZ (is_acknowledged_sequence s' + 1)
      (is_next_sequence s - 1 - is_acknowledged_sequence s'))) in Hf.
    rewrite Hseq in Hf. apply lookup_seqZ in Hf. lia.
  - assert (Hf : (sequence <$> is_history s') !! i = Some f.(sequence))
      by by rewrite list_lookup_fmap, Hi.
    rewrite Hseq' in Hf. apply lookup_seqZ in Hf. lia.
Qed.

Lemma packet_from_log s log tick f :
  sender_inv s log -> f ∈ (InputSender_packet s tick).(inputs) -> f ∈ log.
Proof.
  intros [_ _ _ Hhist] Hf. cbn in Hf. rewrite Hhist, drop_drop in Hf.
  by eapply subseteq_drop.
Qed.

(** *** The composed invariant *)

Lemma link_packets_ok l p : link_inv l -> p ∈ l.(lk_packets) -> frames_ok p.(inputs).
Proof.
  intros Hinv Hp. apply Forall_forall. intros f Hf.
  pose proof (li_sender l Hinv) as Hs. pose proof (si_next _ _ Hs).
  pose proof (log_sequence _ _ f Hs (li_packets l Hinv p f Hp Hf)). unfold fits. lia.
Qed.

(** The server never acknowledges a sequence the client has not issued. *)
Lemma link_ack_issued l : link_inv l ->
  sw_acknowledged l.(lk_receiver).(ir_sequences) < is_next_sequence l.(lk_sender).
Proof.
  intros Hinv. pose proof (li_sender l Hinv) as Hs. pose proof (si_next _ _ Hs).
  set (a := sw_acknowledged _). destruct (decide (0 < a)); [|lia].
  assert (Hrec : received l.(lk_receiver).(ir_sequences) a) by (left; unfold a; lia).
  apply li_received in Hrec as (f & -> & Hf)%list_elem_of_fmap; [|done].
  pose proof (log_sequence _ _ f Hs (li_integrity l Hinv f Hf)). lia.
Qed.

Lemma link_init_inv sc rc s r :
  fits u64_max (reorder_window rc) ->
  InputSender_new sc = Ok s -> InputReceiver_new rc = Ok r ->
  link_inv (link_init s r).
Proof.
  intros Hfit Hs Hr. apply new_receiver_wf in Hr as (Hwf & _ & Hnone); [|done].
  assert (s = {| is_config := sc; is_next_sequence := 1; is_acknowledged_sequence := 0;
                 is_acknowledged_server_tick := 0; is_history := [] |}) as ->.
  { unfold InputSender_new, InputSender_with_next_sequence in Hs.
    destruct (InputSenderConfig_validate sc); cbn in Hs; by simplify_eq. }
  pose proof (wf_ack _ (rwf_window _ Hwf)) as [Hack _].
  constructor; cbn; try done; try set_solver.
  apply NoDup_nil_2.
Qed.

Lemma link_deliver l now p report r' :
  link_inv l -> p ∈ l.(lk_packets) ->
  InputReceiver_receive l.(lk_receiver) now p = (Ok report, r') ->
  link_inv {| lk_sender := l.(lk_sender); lk_receiver := r'; lk_log := l.(lk_log);
              lk_packets := l.(lk_packets); lk_acks := report.(acknowledgement) :: l.(lk_acks);
              lk_delivered := l.(lk_delivered) ++ report.(accepted) |}.
Proof.
  intros Hinv Hp Hrun. pose proof (link_packets_ok l p Hinv Hp) as Hok.
  apply receive_ok in Hrun as (Hr' & _ & Hpass & _ & _ & _ & Hack); [|apply Hinv|done].
  destruct Hinv, Hpass. rewrite Forall_forall in pass_fresh0.
  constructor; cbn; try done.
  - rewrite fmap_app. apply NoDup_app. split_and!; [done| |done].
    intros s Hs (f & -> & Hf)%list_elem_of_fmap. by eapply pass_fresh0, li_received0.
  - apply list_subseteq_app_iff_l. split; [done|].
    intros f Hf. eapply li_packets0; [done|].
    eapply sublist_subseteq in Hf; [|done]. by apply elem_of_sort_by in Hf.
  - intros s. rewrite pass_received0, li_received0, fmap_app, elem_of_app. tauto.
  - intros a [->|Ha]%elem_of_cons; [by rewrite Hack|]. specialize (li_acks0 a Ha). lia.
  - lia.
Qed.

Lemma link_step_inv l l' : link_inv l -> link_step l l' -> link_inv l'.
Proof.
  intros Hinv Hstep. destruct Hstep as [tick v seq s' Hrec|tick|now p report r' Hp Hrun
    |now p e r' Hp Hrun|a res s' Ha Hack].
  - eapply sender_record in Hrec as (Hs' & Hacked & _); [|apply Hinv].
    destruct Hinv. constructor; cbn; try done; [set_solver..|by rewrite Hacked].
  - destruct Hinv. constructor; cbn; try done.
    intros p f [->|Hp]%elem_of_cons Hf; [by eapply packet_from_log|by eapply li_packets0].
  - by eapply link_deliver.
  - apply receive_err in Hrun as ->. by destruct Hinv, l.
  - pose proof (link_ack_issued l Hinv). pose proof (li_acks l Hinv a Ha).
    destruct (sender_acknowledge _ _ a (li_sender l Hinv)) as
      (n & s1 & Heq & Hs1 & Hmax & _); [lia|]. rewrite Heq in Hack. simplify_eq.
    destruct Hinv. constructor; cbn; try done. rewrite Hmax. lia.
Qed.

Lemma link_reachable_inv l l' : link_inv l -> reachable l l' -> link_inv l'.
Proof. intros Hinv Hrtc. induction Hrtc; eauto using link_step_inv. Qed.

(** Every recorded input is still retained by the client or was accepted by the server. *)
Lemma link_no_loss l f :
  link_inv l -> f ∈ l.(lk_log) -> f ∈ is_history l.(lk_sender) \/ f ∈ l.(lk_delivered).
Proof.
  intros Hinv Hf. pose proof (li_sender l Hinv) as Hs.
  pose proof (log_sequence _ _ f Hs Hf) as Hseq.
  destruct (decide (f.(sequence) <= is_acknowledged_sequence l.(lk_sender))) as [Hle|Hgt].
  - right. pose proof (li_acked l Hinv).
    assert (Hrec : received l.(lk_receiver).(ir_sequences) f.(sequence)) by (left; lia).
    apply li_received in Hrec as (g & Heq & Hg)%list_elem_of_fmap; [|done].
    by rewrite (log_unique _ _ f g Hs Hf (li_integrity l Hinv g Hg) Heq).
  - left. rewrite (si_history _ _ Hs). apply list_elem_of_lookup.
    pose proof (si_acked _ _ Hs).
    exists (Z.to_nat (f.(sequence) - 1 - is_acknowledged_sequence l.(lk_sender))).
    rewrite lookup_drop, <-(log_index _ _ f Hs Hf). f_equal. lia.
Qed.

(** *** Redundancy only covers the newest inputs *)

(** Input [s] is out of reach: the server has not received it, no packet in the network carries it,
    and at least [redundancy] newer inputs are retained behind it. *)
Record out_of_reach (s : Z) (l : link) : Prop := {
  oor_range : 0 < s;
  oor_missing : ~ received l.(lk_receiver).(ir_sequences) s;
  oor_packets : forall p f, p ∈ l.(lk_packets) -> f ∈ p.(inputs) -> f.(sequence) <> s;
  oor_newer : s + redundancy (is_config l.(lk_sender)) < is_next_sequence l.(lk_sender);
}.

Lemma packet_newest s log tick f :
  sender_inv s log -> f ∈ (InputSender_packet s tick).(inputs) ->
  is_next_sequence s - redundancy (is_config s) <= f.(sequence).
Proof.
  intros Hinv Hf. pose proof Hinv as [Hlog Hnext Hacked Hhist]. cbn in Hf.
  rewrite Hhist, drop_drop in Hf.
  pose proof (list_elem_of_fmap_2 sequence _ _ Hf) as Hin.
  rewrite fmap_drop, Hlog, drop_seqZ in Hin. apply elem_of_seqZ in Hin.
  assert (Hlen : len (is_history s) = is_next_sequence s - 1 - is_acknowledged_sequence s).
  { unfold len. rewrite Hhist, length_drop, <-(length_fmap sequence), Hlog, length_seqZ. lia. }
  rewrite <-Hhist, Hlen in Hin. unfold saturating_sub in Hin. lia.
Qed.

Lemma out_of_reach_step s l l' :
  link_inv l -> link_step l l' -> out_of_reach s l -> out_of_reach s l'.
Proof.
  intros Hinv Hstep [Hpos Hmiss Hpack Hnewer].
  destruct Hstep as [tick v seq s' Hrec|tick|now p report r' Hp Hrun|now p e r' Hp Hrun
    |a res s' Ha Hack].
  - assert (is_config s' = is_config (lk_sender l) /\
            is_next_sequence s' = is_next_sequence (lk_sender l) + 1) as [Hc Hn].
    { unfold InputSender_record in Hrec. repeat (case_match; try done).
      destruct (checked_add _ _ _) eqn:Hadd; simplify_eq/=.
      by apply checked_add_Some in Hadd as [-> _]. }
    constructor; cbn; try done. rewrite Hc, Hn. lia.
  - constructor; cbn; try done.
    intros p f [->|Hp]%elem_of_cons Hf; [|by eapply Hpack].
    pose proof (packet_newest _ _ _ _ (li_sender l Hinv) Hf). lia.
  - pose proof (link_packets_ok l p Hinv Hp).
    apply receive_ok in Hrun as (_ & _ & Hpass & _); [|apply Hinv|done]. destruct Hpass.
    constructor; cbn; try done. rewrite pass_received0. intros [(f & -> & Hf)%list_elem_of_fmap|]; [|done].
    eapply sublist_subseteq in Hf; [|done]. apply elem_of_sort_by in Hf. by eapply Hpack.
  - apply receive_err in Hrun as ->. by constructor.
  - pose proof (link_ack_issued l Hinv). pose proof (li_acks l Hinv a Ha).
    destruct (sender_acknowledge _ _ a (li_sender l Hinv)) as
      (n & s1 & Heq & _ & _ & Hn & Hc & _); [lia|]. rewrite Heq in Hack. simplify_eq.
    constructor; cbn; try done. by rewrite Hc, Hn.
Qed.

End link.

(** ** Concrete runs *)

Definition example_sender : InputSender Z :=
  {| is_config := InputSenderConfig_default; is_next_sequence := 1;
     is_acknowledged_sequence := 0; is_acknowledged_server_tick := 0; is_history := [] |}.

Definition example_receiver : InputReceiver :=
  {| ir_config := InputReceiverConfig_default;
     ir_sequences := {| sw_reorder_window := 256; sw_acknowledged := 0; sw_pending := ∅ |} |}.

(** One input recorded, sent, delivered and acknowledged. *)
Lemma example_run : exists (l : @link Z) (a : InputAck),
  rtc link_step (link_init example_sender example_receiver) l /\
  (a ∈ l.(lk_acks) /\ a.(acknowledged_sequence) = 1) /\
  is_history l.(lk_sender) = [] /\ sequence <$> l.(lk_delivered) = [1].
Proof.
  eexists _, {| server_tick := 4; acknowledged_sequence := 1 |}. split.
  - eapply rtc_l; [eapply (step_record _ 5 42); reflexivity|].
    eapply rtc_l; [eapply (step_send _ 3)|].
    eapply rtc_l; [eapply (step_deliver _ 4); [left|vm_compute; reflexivity]|].
    eapply rtc_l; [eapply step_ack; [left|reflexivity]|]. eapply rtc_refl.
  - cbn. split_and!; [left|done..].
Qed.

(** Two inputs recorded with redundancy one: the first is out of reach. *)
Lemma example_gap : exists (s : InputSender Z) (l : link),
  InputSender_new {| history_capacity := 4; redundancy := 1 |} = Ok s /\
  rtc link_step (link_init s example_receiver) l /\ out_of_reach 1 l.
Proof.
  eexists _, _. split; [reflexivity|]. split.
  - eapply rtc_l; [eapply (step_record _ 5 42); reflexivity|].
    eapply rtc_l; [eapply (step_record _ 6 43); reflexivity|]. eapply rtc_refl.
  - constructor; cbn; [lia| |set_solver|lia].
    intros [?|Hin]; cbn in *; [lia|set_solver].
Qed.

(** ** Properties *)

(** C1: over a network that loses, duplicates and reorders packets and acknowledgements, the server
    accepts every input sequence at most once, accepts only frames the client recorded, with their
    tick and value unchanged, and every recorded input is either still retained for
    retransmission or has been accepted. *)
Theorem input_link_exactly_once {T} (sc : InputSenderConfig) (rc : InputReceiverConfig)
    (s : InputSender T) (r : InputReceiver) (l : link) :
  u64_ok (reorder_window rc) ->
  InputSender_new sc = Ok s -> InputReceiver_new rc = Ok r ->
  rtc link_step (link_init s r) l ->
  NoDup (sequence <$> l.(lk_delivered)) /\ l.(lk_delivered) ⊆ l.(lk_log) /\
  forall f, f ∈ l.(lk_log) -> f ∈ is_history l.(lk_sender) \/ f ∈ l.(lk_delivered).
Proof.
  intros Hfit Hs Hr Hrun.
  assert (Hinv : link_inv l) by (eapply link_reachable_inv; [|done]; by eapply link_init_inv).
  split_and!; [apply Hinv..|]. intros f. by apply link_no_loss.
Qed.

Lemma input_link_exactly_once_witness :
  exists (s : InputSender Z) (r : InputReceiver) (l : link),
    is_history l.(lk_sender) = [] /\ sequence <$> l.(lk_delivered) = [1] /\
    NoDup (sequence <$> l.(lk_delivered)) /\ rtc link_step (link_init s r) l.
Proof.
  destruct example_run as (l & a & Hrun & Ha & Hhist & Hdel).
  exists example_sender, example_receiver, l. split_and!; [done|done| |done].
  apply (input_link_exactly_once InputSenderConfig_default InputReceiverConfig_default
    example_sender example_receiver l); [vm_compute; split; discriminate|reflexivity|reflexivity|].
  exact Hrun.
Defined.

(** The client never rejects a genuine acknowledgement: at every reachable state, each
    acknowledgement the server ever produced is processed successfully, the acknowledged sequence
    never moves backwards, and exactly the inputs it covers are released. *)
Theorem input_ack_always_accepted {T} (sc : InputSenderConfig) (rc : InputReceiverConfig)
    (s : InputSender T) (r : InputReceiver) (l : link) (a : InputAck) :
  u64_ok (reorder_window rc) ->
  InputSender_new sc = Ok s -> InputReceiver_new rc = Ok r ->
  rtc link_step (link_init s r) l -> a ∈ l.(lk_acks) ->
  exists n s', InputSender_acknowledge l.(lk_sender) a = (Ok n, s') /\
    is_acknowledged_sequence s' =
      Z.max (is_acknowledged_sequence l.(lk_sender)) a.(acknowledged_sequence) /\
    is_history l.(lk_sender) = take (Z.to_nat n) (is_history l.(lk_sender)) ++ is_history s' /\
    Forall (fun f => f.(sequence) <= is_acknowledged_sequence s')
      (take (Z.to_nat n) (is_history l.(lk_sender))) /\
    Forall (fun f => is_acknowledged_sequence s' < f.(sequence)) (is_history s').
Proof.
  intros Hfit Hs Hr Hrun Ha.
  assert (Hinv : link_inv l) by (eapply link_reachable_inv; [|done]; by eapply link_init_inv).
  pose proof (li_acks l Hinv a Ha). pose proof (link_ack_issued l Hinv).
  destruct (sender_acknowledge _ _ a (li_sender l Hinv)) as
    (n & s' & Heq & Hs' & Hmax & Hnext & _ & Hsplit); [lia|].
  pose proof (released_range _ _ _ _ (li_sender l Hinv) Hs' Hnext Hsplit) as [Hrel Hkept].
  exists n, s'. split_and!; done.
Qed.

Lemma input_ack_always_accepted_witness :
  exists (l : @link Z) (a : InputAck), a ∈ l.(lk_acks) /\ a.(acknowledged_sequence) = 1 /\
    exists n s', InputSender_acknowledge l.(lk_sender) a = (Ok n, s').
Proof.
  destruct example_run as (l & a & Hrun & (Ha & Hseq) & _). exists l, a. split_and!; [done|done|].
  destruct (input_ack_always_accepted InputSenderConfig_default InputReceiverConfig_default
    example_sender example_receiver l a) as (n & s' & Heq & _);
    [vm_compute; split; discriminate|reflexivity|reflexivity|exact Hrun|exact Ha|].
  by exists n, s'.
Defined.

(** Redundancy only covers the newest inputs: once [redundancy] newer inputs are retained behind
    an input that no packet in the network carries, no later step of the link delivers it, and the
    server's cumulative acknowledgement stays below it for ever, so the client's history cannot be
    released past it. *)
Theorem input_gap_never_recovers {T} (sc : InputSenderConfig) (rc : InputReceiverConfig)
    (s : InputSender T) (r : InputReceiver) (l l' : link) (q : Z) :
  u64_ok (reorder_window rc) ->
  InputSender_new sc = Ok s -> InputReceiver_new rc = Ok r ->
  rtc link_step (link_init s r) l -> out_of_reach q l -> rtc link_step l l' ->
  q ∉ sequence <$> l'.(lk_delivered) /\
  sw_acknowledged l'.(lk_receiver).(ir_sequences) < q /\
  is_acknowledged_sequence l'.(lk_sender) < q.
Proof.
  intros Hfit Hs Hr Hrun Hgap Hrun'.
  assert (Hinv : link_inv l) by (eapply link_reachable_inv; [|done]; by eapply link_init_inv).
  assert (link_inv l' /\ out_of_reach q l') as [Hinv' [Hpos Hmiss _ _]].
  { clear Hrun. induction Hrun' as [|l l1 l' Hstep _ IH]; [done|].
    apply IH; eauto using link_step_inv, out_of_reach_step. }
  assert (Hack : sw_acknowledged l'.(lk_receiver).(ir_sequences) < q).
  { destruct (decide (q <= sw_acknowledged (ir_sequences (lk_receiver l')))); [|lia].
    destruct Hmiss. left. lia. }
  split_and!; [by rewrite <-li_received|done|].
  pose proof (li_acked l' Hinv'). lia.
Qed.

Lemma input_gap_never_recovers_witness :
  exists (l : @link Z), out_of_reach 1 l /\ 1 ∉ sequence <$> l.(lk_delivered).
Proof.
  destruct example_gap as (s & l & Hs & Hrun & Hgap). exists l. split; [exact Hgap|].
  apply (input_gap_never_recovers {| history_capacity := 4; redundancy := 1 |}
    InputReceiverConfig_default s example_receiver l l);
    [vm_compute; split; discriminate|exact Hs|reflexivity|exact Hrun|exact Hgap|apply rtc_refl].
Defined.
