(* ===== verification/Prediction.v ===== *)
(** * Client prediction: [crates/elura-netcode/src/prediction.rs]

    A bounded history of locally simulated inputs, replayed on top of each authoritative state.
    [simulate] is the game's own rule, a parameter of [reconcile]: the source asks it to advance the
    state exactly once for the tick and input it is given, which is a function of the three. *)

From S2P Require Import Prelude NetcodeInput.

Record PredictionConfig : Type := {
  pc_history_capacity : Z;
  max_replay_steps : Z;
}.

Definition PredictionConfig_default : PredictionConfig :=
  {| pc_history_capacity := 256; max_replay_steps := 64 |}.

Definition PredictionConfig_validate (c : PredictionConfig) : NetcodeResult unit :=
  if c.(pc_history_capacity) =? 0 then
    Err (InvalidConfig "prediction history capacity must be positive")
  else if (c.(max_replay_steps) =? 0) || (c.(pc_history_capacity) <? c.(max_replay_steps)) then
    Err (InvalidConfig "prediction replay limit must be within history capacity")
  else Ok ().

Record PredictionFrame (I S : Type) : Type := {
  pf_tick : Z;
  pf_input : I;
  predicted_state : S;
}.
Arguments pf_tick {I S} _.
Arguments pf_input {I S} _.
Arguments predicted_state {I S} _.

Record ReconciliationReport (S : Type) : Type := {
  authoritative_tick : Z;
  predicted_state_at_authoritative_tick : option S;
  corrected_state : S;
  replayed_inputs : Z;
  current_tick : Z;
}.
Arguments authoritative_tick {S} _.
Arguments predicted_state_at_authoritative_tick {S} _.
Arguments corrected_state {S} _.
Arguments replayed_inputs {S} _.
Arguments current_tick {S} _.

Record PredictionBuffer (I S : Type) : Type := {
  pb_config : PredictionConfig;
  pb_frames : list (PredictionFrame I S);
  confirmed_tick : Z;
}.
Arguments pb_config {I S} _.
Arguments pb_frames {I S} _.
Arguments confirmed_tick {I S} _.

Section prediction.
Context {I S : Type}.

Definition PredictionBuffer_new (config : PredictionConfig) :
    NetcodeResult (PredictionBuffer I S) :=
  let? _ := PredictionConfig_validate config in
  Ok {| pb_config := config; pb_frames := []; confirmed_tick := 0 |}.

(** [frames.back().map_or(default, |frame| frame.tick)] *)
Definition last_tick_or (default : Z) (frames : list (PredictionFrame I S)) : Z :=
  match last frames with Some frame => frame.(pf_tick) | None => default end.

Definition PredictionBuffer_record (self : PredictionBuffer I S) (tick : Z) (i : I) (s : S) :
    NetcodeResult unit * PredictionBuffer I S :=
  let previous := last_tick_or self.(confirmed_tick) self.(pb_frames) in
  if (tick =? 0) || (tick <=? previous) then
    (Err (InvalidInput "prediction Tick must increase and be positive"), self)
  else if self.(pb_config).(pc_history_capacity) <=? len self.(pb_frames) then
    (Err PredictionHistoryFull, self)
  else
    (Ok (),
     {| pb_config := self.(pb_config);
        pb_frames := self.(pb_frames) ++
          [{| pf_tick := tick; pf_input := i; predicted_state := s |}];
        confirmed_tick := self.(confirmed_tick) |}).

(** [frames.iter().position(|frame| frame.tick > tick).unwrap_or(frames.len())] *)
Fixpoint confirmed_count (tick : Z) (frames : list (PredictionFrame I S)) : nat :=
  match frames with
  | [] => 0
  | frame :: rest => if tick <? frame.(pf_tick) then 0 else Datatypes.S (confirmed_count tick rest)
  end.

Context (simulate : S -> Z -> I -> S).

(** [for frame in &mut self.frames { simulate(&mut corrected, frame.tick, &frame.input);
    frame.predicted_state = corrected.clone(); }] *)
Fixpoint replay (state : S) (frames : list (PredictionFrame I S)) :
    S * list (PredictionFrame I S) :=
  match frames with
  | [] => (state, [])
  | frame :: rest =>
      let state := simulate state frame.(pf_tick) frame.(pf_input) in
      let '(final, rest) := replay state rest in
      (final, {| pf_tick := frame.(pf_tick); pf_input := frame.(pf_input);
                 predicted_state := state |} :: rest)
  end.

Definition PredictionBuffer_reconcile (self : PredictionBuffer I S) (tick : Z) (state : S) :
    NetcodeResult (ReconciliationReport S) * PredictionBuffer I S :=
  if tick <? self.(confirmed_tick) then
    (Err (InvalidInput "authoritative prediction Tick moved backwards"), self)
  else
    let confirmed := confirmed_count tick self.(pb_frames) in
    let replayed := len self.(pb_frames) - Z.of_nat confirmed in
    if self.(pb_config).(max_replay_steps) <? replayed then (Err ReplayLimitExceeded, self)
    else
      let predicted :=
        match confirmed with
        | O => None
        | Datatypes.S index =>
            match self.(pb_frames) !! index with
            | Some frame =>
                if frame.(pf_tick) =? tick then Some frame.(predicted_state) else None
            | None => None
            end
        end in
      let '(corrected, frames) := replay state (drop confirmed self.(pb_frames)) in
      (Ok {| authoritative_tick := tick;
             predicted_state_at_authoritative_tick := predicted;
             corrected_state := corrected;
             replayed_inputs := replayed;
             current_tick := last_tick_or tick frames |},
       {| pb_config := self.(pb_config); pb_frames := frames; confirmed_tick := tick |}).

Definition PredictionBuffer_reset (self : PredictionBuffer I S) (tick : Z) :
    PredictionBuffer I S :=
  {| pb_config := self.(pb_config); pb_frames := []; confirmed_tick := tick |}.

(** ** Invariant *)

(** Retained ticks increase strictly above the confirmed one and fit the configured history. *)
Record prediction_wf (b : PredictionBuffer I S) : Prop := {
  pwf_increasing : increasing pf_tick b.(pb_frames);
  pwf_above : Forall (fun f => b.(confirmed_tick) < f.(pf_tick)) b.(pb_frames);
  pwf_capacity : len b.(pb_frames) <= b.(pb_config).(pc_history_capacity);
}.

Lemma last_tick_bound d (frames : list (PredictionFrame I S)) f :
  increasing pf_tick frames -> f ∈ frames -> f.(pf_tick) <= last_tick_or d frames.
Proof.
  intros Hinc Hf. unfold last_tick_or. destruct (last frames) as [g|] eqn:Hl.
  - by eapply increasing_last.
  - apply last_None in Hl as ->. set_solver.
Qed.

Lemma record_wf b tick i s r b' :
  prediction_wf b -> PredictionBuffer_record b tick i s = (r, b') -> prediction_wf b'.
Proof.
  intros [Hinc Habove Hcap] Hrun. unfold PredictionBuffer_record in Hrun.
  case_match eqn:Htick; simplify_eq; [done|]. case_match eqn:Hfull; simplify_eq; [done|]. breflect.
  assert (Hlast : forall f, f ∈ b.(pb_frames) -> f.(pf_tick) < tick).
  { intros f Hf. pose proof (last_tick_bound (confirmed_tick b) _ f Hinc Hf). lia. }
  assert (Hconf : b.(confirmed_tick) < tick).
  { unfold last_tick_or in *. destruct (last b.(pb_frames)) as [f|] eqn:Hl; [|lia].
    apply last_Some in Hl as [l' Hl]. rewrite Hl in Habove.
    apply Forall_app in Habove as [_ ?%Forall_cons_1]. cbn in *. lia. }
  constructor; cbn.
  - apply increasing_snoc. split; [done|]. by apply Forall_forall.
  - apply Forall_app. repeat constructor; [done|]. cbn. lia.
  - rewrite len_app, len_cons, len_nil. lia.
Qed.

(** *** Replay *)

Lemma replay_ticks state frames :
  (pf_tick <$> (replay state frames).2) = (pf_tick <$> frames) /\
  (pf_input <$> (replay state frames).2) = (pf_input <$> frames).
Proof.
  revert state. induction frames as [|f frames IH]; intros state; cbn; [done|].
  specialize (IH (simulate state f.(pf_tick) f.(pf_input))).
  destruct (replay _ frames) as [final rest]; cbn in *. destruct IH as [-> ->]. done.
Qed.

(** The reference: the states after each of a list of tick/input pairs. *)
Definition step_state (state : S) (f : PredictionFrame I S) : S :=
  simulate state f.(pf_tick) f.(pf_input).

Lemma replay_final state frames : (replay state frames).1 = foldl step_state state frames.
Proof.
  revert state. induction frames as [|f frames IH]; intros state; cbn; [done|].
  rewrite <-IH. by destruct (replay _ frames).
Qed.

Lemma replay_predicted state frames : forall k f,
  (replay state frames).2 !! k = Some f ->
  f.(predicted_state) = foldl step_state state (take (Datatypes.S k) frames).
Proof.
  revert state. induction frames as [|g frames IH]; intros state k f; cbn; [done|].
  specialize (IH (simulate state g.(pf_tick) g.(pf_input))).
  destruct (replay _ frames) as [final rest]; cbn in *.
  destruct k as [|k]; cbn; intros Hk; [by simplify_eq|].
  rewrite (IH _ _ Hk). by destruct frames.
Qed.

Lemma confirmed_count_split tick frames :
  increasing pf_tick frames ->
  Forall (fun f => f.(pf_tick) <= tick) (take (confirmed_count tick frames) frames) /\
  Forall (fun f => tick < f.(pf_tick)) (drop (confirmed_count tick frames) frames).
Proof.
  induction 1 as [|f frames Hs IH Hall]; cbn; [done|].
  destruct (Z.ltb_spec tick (pf_tick f)); cbn.
  - split; [done|]. constructor; [done|]. eapply Forall_impl; [exact Hall|]. cbn; intros; lia.
  - split; [by constructor; [|apply IH]|apply IH].
Qed.

Lemma confirmed_count_le tick frames : (confirmed_count tick frames <= length frames)%nat.
Proof. induction frames; cbn; [lia|]. case_match; lia. Qed.

Lemma pending_filter tick frames :
  increasing pf_tick frames ->
  drop (confirmed_count tick frames) frames = filter (fun f => tick < pf_tick f) frames.
Proof.
  intros Hinc. pose proof (confirmed_count_split tick frames Hinc) as [Htake Hdrop].
  rewrite <-(take_drop (confirmed_count tick frames) frames) at 3.
  rewrite filter_app, filter_none, filter_all; [done|done|].
  eapply Forall_impl; [exact Htake|]. cbn; intros; lia.
Qed.

Lemma confirmed_count_last tick frames k f :
  increasing pf_tick frames -> confirmed_count tick frames = Datatypes.S k ->
  frames !! k = Some f -> forall g, g ∈ frames -> g.(pf_tick) = tick -> g = f.
Proof.
  intros Hinc Hcount Hk g Hg Htick.
  pose proof (confirmed_count_split tick frames Hinc) as [Htake Hdrop].
  rewrite Forall_forall in Htake, Hdrop. rewrite Hcount in *.
  apply list_elem_of_lookup in Hg as [j Hj].
  destruct (lt_eq_lt_dec j k) as [[Hlt| ->]|Hlt]; [|congruence|].
  - pose proof (increasing_lookup _ _ _ _ _ _ Hinc Hj Hk Hlt).
    assert (Hin : f ∈ take (Datatypes.S k) frames).
    { apply list_elem_of_lookup. exists k. rewrite lookup_take_lt by lia. done. }
    specialize (Htake f Hin). lia.
  - assert (Hin : g ∈ drop (Datatypes.S k) frames).
    { apply list_elem_of_lookup. exists (j - Datatypes.S k)%nat. rewrite lookup_drop.
      rewrite <-Hj. f_equal. lia. }
    specialize (Hdrop g Hin). lia.
Qed.

Lemma confirmed_upto tick frames f :
  increasing pf_tick frames -> f ∈ frames -> pf_tick f = tick ->
  exists k, confirmed_count tick frames = Datatypes.S k /\ frames !! k = Some f.
Proof.
  intros Hinc Hf Htick.
  assert (Hpos : confirmed_count tick frames <> 0%nat).
  { intros H0. pose proof (confirmed_count_split tick frames Hinc) as [_ Hdrop].
    rewrite H0, drop_0, Forall_forall in Hdrop. specialize (Hdrop f Hf). lia. }
  destruct (confirmed_count tick frames) as [|k] eqn:Hcount; [done|]. exists k. split; [done|].
  pose proof (confirmed_count_le tick frames).
  destruct (lookup_lt_is_Some_2 frames k) as [g Hg]; [lia|].
  by rewrite Hg, (confirmed_count_last tick frames k g Hinc Hcount Hg f Hf Htick).
Qed.

Lemma reconcile_ok b tick state report b' :
  prediction_wf b -> PredictionBuffer_reconcile b tick state = (Ok report, b') ->
  let pending := drop (confirmed_count tick b.(pb_frames)) b.(pb_frames) in
  pb_config b' = pb_config b /\ confirmed_tick b' = tick /\ confirmed_tick b <= tick /\
  pb_frames b' = (replay state pending).2 /\
  corrected_state report = foldl step_state state pending /\
  replayed_inputs report = len pending /\ len pending <= max_replay_steps (pb_config b) /\
  authoritative_tick report = tick /\ current_tick report = last_tick_or tick (pb_frames b') /\
  (forall s, predicted_state_at_authoritative_tick report = Some s <->
    exists f, f ∈ pb_frames b /\ pf_tick f = tick /\ predicted_state f = s).
Proof.
  intros [Hinc Habove Hcap] Hrun. unfold PredictionBuffer_reconcile in Hrun.
  case_match eqn:Hback; [done|]. case_match eqn:Hlimit; [done|].
  pose proof (confirmed_count_le tick b.(pb_frames)) as Hle.
  pose proof (replay_final state (drop (confirmed_count tick (pb_frames b)) (pb_frames b))) as Hfin.
  destruct (replay _ _) as [corrected frames] eqn:Hrep. simplify_eq/=. breflect.
  assert (Hpending : len (drop (confirmed_count tick b.(pb_frames)) b.(pb_frames)) =
    len b.(pb_frames) - Z.of_nat (confirmed_count tick b.(pb_frames))).
  { unfold len. rewrite length_drop. lia. }
  cbv zeta. rewrite Hpending. split_and!; try done; try lia; [by rewrite Hrep|].
  intros s. pose proof (confirmed_count_split tick (pb_frames b) Hinc) as [Htake Hdrop].
  destruct (confirmed_count tick b.(pb_frames)) as [|k] eqn:Hcount.
  - split; [done|]. intros (f & Hf & Ht & _). rewrite drop_0, Forall_forall in Hdrop.
    specialize (Hdrop f Hf). lia.
  - destruct (lookup_lt_is_Some_2 b.(pb_frames) k) as [f Hk]; [lia|]. rewrite Hk.
    pose proof (confirmed_count_last tick _ _ _ Hinc Hcount Hk) as Hlast.
    destruct (Z.eqb_spec (pf_tick f) tick) as [Ht|Ht]; split.
    + intros [= <-]. exists f. split_and!; [by eapply list_elem_of_lookup_2|done|done].
    + intros (g & Hg & Hgt & <-). by rewrite (Hlast g Hg Hgt).
    + done.
    + intros (g & Hg & Hgt & <-). rewrite (Hlast g Hg Hgt) in Hgt. done.
Qed.

Lemma reconcile_wf b tick state r b' :
  prediction_wf b -> PredictionBuffer_reconcile b tick state = (r, b') -> prediction_wf b'.
Proof.
  intros Hwf Hrun. destruct r as [report|e].
  2: { unfold PredictionBuffer_reconcile in Hrun.
       repeat (case_match; simplify_eq; try done). }
  apply reconcile_ok in Hrun as (Hc & Ht & Hle & Hf & _); [|done].
  destruct Hwf as [Hinc Habove Hcap].
  set (pending := drop _ _) in *. pose proof (replay_ticks state pending) as [Hticks _].
  rewrite <-Hf in Hticks.
  constructor.
  - rewrite increasing_fmap, Hticks, <-increasing_fmap. by apply increasing_drop.
  - rewrite Ht. pose proof (confirmed_count_split tick _ Hinc) as [_ Hdrop].
    change (Forall (Z.lt tick ∘ pf_tick) pending) in Hdrop.
    change (Forall (Z.lt tick ∘ pf_tick) (pb_frames b')).
    rewrite <-Forall_fmap in *. by rewrite Hticks.
  - rewrite Hc. unfold len. rewrite <-(length_fmap pf_tick), Hticks, length_fmap.
    unfold pending, len in *. rewrite length_drop. lia.
Qed.

(** A buffer whose predictions are the local simulation of its inputs from [state]. *)
Definition consistent (state : S) (frames : list (PredictionFrame I S)) : Prop :=
  (replay state frames).2 = frames.

Lemma replay_app state l k :
  (replay state (l ++ k)).2 = (replay state l).2 ++ (replay (replay state l).1 k).2.
Proof.
  revert state. induction l as [|f l IH]; intros state; cbn; [done|].
  specialize (IH (simulate state (pf_tick f) (pf_input f))).
  destruct (replay _ (l ++ k)), (replay _ l); cbn in *. by rewrite IH.
Qed.

Lemma consistent_app state l k :
  consistent state (l ++ k) ->
  consistent state l /\ consistent (foldl step_state state l) k.
Proof.
  unfold consistent. rewrite replay_app, replay_final. intros Heq.
  apply app_inj_1 in Heq; [done|].
  rewrite <-(length_fmap pf_tick), (proj1 (replay_ticks state l)), length_fmap. done.
Qed.

End prediction.

(** ** Properties *)

(** [PredictionBuffer::reconcile] restores and replays: an error (a tick moving backwards or more
    pending inputs than the replay limit) leaves the buffer unchanged; success returns the
    authoritative state advanced through exactly the inputs after the authoritative tick, in tick
    order, keeps those inputs with the intermediate states as their new predictions, confirms the
    authoritative tick, reports the earlier prediction for that tick exactly when one was
    recorded, and keeps the buffer well formed. *)
Theorem reconcile_replays_pending {I S} (simulate : S -> Z -> I -> S)
    (b b' : PredictionBuffer I S) (tick : Z) (state : S)
    (r : NetcodeResult (ReconciliationReport S)) :
  prediction_wf b -> PredictionBuffer_reconcile simulate b tick state = (r, b') ->
  prediction_wf b' /\
  match r with
  | Err ReplayLimitExceeded =>
      b' = b /\ max_replay_steps (pb_config b) <
        len (filter (fun f => tick < pf_tick f) (pb_frames b))
  | Err _ => b' = b /\ tick < confirmed_tick b
  | Ok report =>
      let pending := filter (fun f => tick < pf_tick f) (pb_frames b) in
      corrected_state report = foldl (fun s f => simulate s (pf_tick f) (pf_input f)) state pending /\
      replayed_inputs report = len pending /\
      confirmed_tick b' = tick /\
      pf_tick <$> pb_frames b' = pf_tick <$> pending /\
      pf_input <$> pb_frames b' = pf_input <$> pending /\
      (forall k f, pb_frames b' !! k = Some f -> predicted_state f =
        foldl (fun s f => simulate s (pf_tick f) (pf_input f)) state (take (Datatypes.S k) pending)) /\
      (forall s, predicted_state_at_authoritative_tick report = Some s <->
        exists f, f ∈ pb_frames b /\ pf_tick f = tick /\ predicted_state f = s)
  end.
Proof.
  intros Hwf Hrun. split; [by eapply reconcile_wf|].
  assert (Hpend : drop (confirmed_count tick (pb_frames b)) (pb_frames b) =
                  filter (fun f => tick < pf_tick f) (pb_frames b)) by apply pending_filter, Hwf.
  destruct r as [report|e].
  - apply reconcile_ok in Hrun as (_ & Ht & _ & Hf & Hcorr & Hn & _ & _ & _ & Hpred); [|done].
    rewrite Hpend in *. cbn. rewrite Hf. split_and!; try done; try apply replay_ticks.
    intros k f. apply replay_predicted.
  - unfold PredictionBuffer_reconcile in Hrun. case_match eqn:Hback; simplify_eq; breflect; [done|].
    case_match eqn:Hlimit; [|by destruct (replay _ _ _)]. simplify_eq. breflect.
    split; [done|]. rewrite <-Hpend. unfold len in *. rewrite length_drop.
    pose proof (confirmed_count_le tick (pb_frames b')). lia.
Qed.

(** Three recorded inputs of a game whose state is the sum of its inputs. *)
Definition example_buffer : PredictionBuffer Z Z :=
  {| pb_config := PredictionConfig_default;
     pb_frames := [{| pf_tick := 1; pf_input := 5; predicted_state := 5 |};
                   {| pf_tick := 2; pf_input := 10; predicted_state := 15 |};
                   {| pf_tick := 4; pf_input := 30; predicted_state := 45 |}];
     confirmed_tick := 0 |}.

Lemma example_buffer_wf : prediction_wf example_buffer.
Proof. constructor; cbn; [repeat constructor; cbn; lia..|unfold len; cbn; lia]. Qed.

Lemma reconcile_replays_pending_witness :
  exists (b' : PredictionBuffer Z Z) (report : ReconciliationReport Z),
    PredictionBuffer_reconcile (fun s _ i => s + i) example_buffer 2 100 = (Ok report, b') /\
    corrected_state report = 130 /\ predicted_state_at_authoritative_tick report = Some 15 /\
    prediction_wf b'.
Proof.
  eexists _, _. split; [reflexivity|]. split; [reflexivity|]. split; [reflexivity|].
  eapply (reconcile_replays_pending (fun s _ i => s + i) example_buffer _ 2 100);
    [apply example_buffer_wf|reflexivity].
Defined.

(** A correct prediction is confirmed without a visible correction: when the buffer holds the
    local simulation of its inputs from some state, and the authoritative state for a recorded
    tick is the predicted one, reconciling returns the newest predicted state and keeps the
    remaining frames exactly as predicted. *)
Theorem reconcile_confirms_prediction {I S} (simulate : S -> Z -> I -> S)
    (b b' : PredictionBuffer I S) (start : S) (f : PredictionFrame I S)
    (report : ReconciliationReport S) :
  prediction_wf b -> consistent simulate start (pb_frames b) -> f ∈ pb_frames b ->
  PredictionBuffer_reconcile simulate b (pf_tick f) (predicted_state f) = (Ok report, b') ->
  pb_frames b' = drop (confirmed_count (pf_tick f) (pb_frames b)) (pb_frames b) /\
  Some (corrected_state report) = predicted_state <$> last (pb_frames b).
Proof.
  intros Hwf Hcons Hf Hrun.
  apply reconcile_ok in Hrun as (_ & _ & _ & Hframes & Hcorr & _); [|done].
  destruct Hwf as [Hinc _ _].
  destruct (confirmed_upto (pf_tick f) (pb_frames b) f Hinc Hf eq_refl) as (k & Hk & Hkf).
  set (pending := drop _ _) in *.
  pose proof (take_drop (confirmed_count (pf_tick f) (pb_frames b)) (pb_frames b)) as Hsplit.
  fold pending in Hsplit. rewrite <-Hsplit in Hcons. apply consistent_app in Hcons as [Hdone Hpend].
  assert (Hstate : foldl (step_state simulate) start
    (take (confirmed_count (pf_tick f) (pb_frames b)) (pb_frames b)) = predicted_state f).
  { rewrite Hk in *. symmetry.
    erewrite (replay_predicted simulate start _ k f); [by rewrite take_take, Nat.min_id|].
    rewrite Hdone. by rewrite lookup_take_lt by lia. }
  rewrite Hstate in Hpend. split; [by rewrite Hframes|].
  rewrite Hcorr. destruct (last pending) as [g|] eqn:Hlast.
  - apply last_Some in Hlast as [l Hl]. rewrite <-Hsplit, Hl, app_assoc, last_snoc. cbn. f_equal.
    rewrite <-Hl. symmetry. erewrite (replay_predicted simulate _ pending (length l) g).
    + rewrite take_ge; [done|]. rewrite Hl, length_app. cbn. lia.
    + rewrite Hpend, Hl. by rewrite lookup_app_r, Nat.sub_diag by done.
  - apply last_None in Hlast. rewrite Hlast in *. cbn. rewrite app_nil_r in Hsplit.
    rewrite <-Hsplit, Hk, (take_S_r _ _ _ Hkf), last_snoc. done.
Qed.

Lemma reconcile_confirms_prediction_witness :
  exists (b' : PredictionBuffer Z Z) (report : ReconciliationReport Z),
    PredictionBuffer_reconcile (fun s _ i => s + i) example_buffer 2 15 = (Ok report, b') /\
    corrected_state report = 45 /\
    pb_frames b' = drop (confirmed_count 2 (pb_frames example_buffer)) (pb_frames example_buffer).
Proof.
  eexists _, _. split; [reflexivity|]. split; [reflexivity|].
  eapply (reconcile_confirms_prediction (fun s _ i => s + i) example_buffer _ 0
    {| pf_tick := 2; pf_input := 10; predicted_state := 15 |});
    [apply example_buffer_wf|reflexivity|right; left|reflexivity].
Defined.
