(* ===== verification/EntityPrediction.v ===== *)
(** * Predicted entities: [crates/elura-netcode/src/entity_prediction.rs]

    The registry of locally spawned entities waiting for their authoritative identity: two maps,
    one by prediction key and one by temporary entity, kept as inverses of each other. *)

From S2P Require Import Prelude NetcodeInput.

(** ** Keys *)

Record PredictionKeyGenerator : Type := { pkg_next : Z }.

Definition PredictionKeyGenerator_default : PredictionKeyGenerator := {| pkg_next := 1 |}.

Definition PredictionKeyGenerator_with_next (next : Z) : NetcodeResult PredictionKeyGenerator :=
  if next =? 0 then Err (InvalidConfig "next prediction key must be positive")
  else Ok {| pkg_next := next |}.

Definition PredictionKeyGenerator_generate (self : PredictionKeyGenerator) :
    NetcodeResult Z * PredictionKeyGenerator :=
  let key := self.(pkg_next) in
  let? next := ok_or (checked_add u64_max self.(pkg_next) 1) SequenceExhausted else self in
  (Ok key, {| pkg_next := next |}).

(** ** The matcher *)

Record PredictedEntityConfig : Type := {
  capacity : Z;
  timeout_ticks : Z;
}.

Definition PredictedEntityConfig_default : PredictedEntityConfig :=
  {| capacity := 128; timeout_ticks := 120 |}.

Definition PredictedEntityConfig_validate (c : PredictedEntityConfig) : NetcodeResult unit :=
  if (c.(capacity) =? 0) || (c.(timeout_ticks) =? 0) then
    Err (InvalidConfig "predicted entity limits must be positive")
  else Ok ().

Record PredictedEntity (I : Type) : Type := {
  pe_key : Z;
  pe_temporary_entity : I;
  spawned_tick : Z;
}.
Arguments pe_key {I} _.
Arguments pe_temporary_entity {I} _.
Arguments spawned_tick {I} _.

Record EntityMatch (I : Type) : Type := {
  em_key : Z;
  em_temporary_entity : I;
  em_authoritative_entity : I;
  age_ticks : Z;
}.
Arguments em_key {I} _.
Arguments em_temporary_entity {I} _.
Arguments em_authoritative_entity {I} _.
Arguments age_ticks {I} _.

Section matcher.
Context {I : Type} `{Countable I}.

Record PredictedEntityMatcher : Type := {
  pm_config : PredictedEntityConfig;
  pm_pending : gmap Z (PredictedEntity I);
  pm_temporary : gmap I Z;
}.

Definition PredictedEntityMatcher_new (config : PredictedEntityConfig) :
    NetcodeResult PredictedEntityMatcher :=
  let? _ := PredictedEntityConfig_validate config in
  Ok {| pm_config := config; pm_pending := ∅; pm_temporary := ∅ |}.

Definition PredictedEntityMatcher_register (self : PredictedEntityMatcher) (key : Z) (entity : I)
    (tick : Z) : NetcodeResult unit * PredictedEntityMatcher :=
  if (key =? 0) || (tick =? 0) then
    (Err (InvalidInput "prediction key and spawn Tick must be positive"), self)
  else if bool_decide (is_Some (self.(pm_pending) !! key))
          || bool_decide (is_Some (self.(pm_temporary) !! entity)) then
    (Err (InvalidInput "prediction key or temporary entity is already registered"), self)
  else if self.(pm_config).(capacity) <=? Z.of_nat (size self.(pm_pending)) then
    (Err PredictedEntityLimit, self)
  else
    (Ok (),
     {| pm_config := self.(pm_config);
        pm_pending := <[key := {| pe_key := key; pe_temporary_entity := entity;
                                  spawned_tick := tick |}]> self.(pm_pending);
        pm_temporary := <[entity := key]> self.(pm_temporary) |}).

(** [pending.remove(&key)] followed by [temporary.remove(&predicted.temporary_entity)]. *)
Definition forget (self : PredictedEntityMatcher) (key : Z) (entity : I) : PredictedEntityMatcher :=
  {| pm_config := self.(pm_config);
     pm_pending := delete key self.(pm_pending);
     pm_temporary := delete entity self.(pm_temporary) |}.

Definition PredictedEntityMatcher_resolve (self : PredictedEntityMatcher) (key : Z) (entity : I)
    (tick : Z) : NetcodeResult (option (EntityMatch I)) * PredictedEntityMatcher :=
  match self.(pm_pending) !! key with
  | None => (Ok None, self)
  | Some predicted =>
      if tick <? predicted.(spawned_tick) then
        (Err (InvalidInput "authoritative match Tick precedes predicted spawn"), self)
      else if self.(pm_config).(timeout_ticks) <? tick - predicted.(spawned_tick) then
        (Ok None, forget self key predicted.(pe_temporary_entity))
      else
        (Ok (Some {| em_key := key;
                     em_temporary_entity := predicted.(pe_temporary_entity);
                     em_authoritative_entity := entity;
                     age_ticks := tick - predicted.(spawned_tick) |}),
         forget self key predicted.(pe_temporary_entity))
  end.

Definition is_expired (self : PredictedEntityMatcher) (tick : Z) (e : PredictedEntity I) : bool :=
  self.(pm_config).(timeout_ticks) <? saturating_sub tick e.(spawned_tick).

(** The keys collected by [expire], in the key order of the [BTreeMap]. *)
Definition expired_keys (self : PredictedEntityMatcher) (tick : Z) : list Z :=
  fst <$> filter (fun kv => is_expired self tick kv.2 = true)
    (sort_by_key fst (map_to_list self.(pm_pending))).

(** The draining [filter_map] of [expire]. *)
Fixpoint expire_keys (self : PredictedEntityMatcher) (keys : list Z) :
    list (PredictedEntity I) * PredictedEntityMatcher :=
  match keys with
  | [] => ([], self)
  | key :: rest =>
      match self.(pm_pending) !! key with
      | None => expire_keys self rest
      | Some predicted =>
          let '(out, self) := expire_keys (forget self key predicted.(pe_temporary_entity)) rest in
          (predicted :: out, self)
      end
  end.

Definition PredictedEntityMatcher_expire (self : PredictedEntityMatcher) (tick : Z) :
    list (PredictedEntity I) * PredictedEntityMatcher :=
  expire_keys self (expired_keys self tick).

Definition PredictedEntityMatcher_clear (self : PredictedEntityMatcher) : PredictedEntityMatcher :=
  {| pm_config := self.(pm_config); pm_pending := ∅; pm_temporary := ∅ |}.

(** ** Invariant: the two maps are inverse to each other *)

Record matcher_wf (m : PredictedEntityMatcher) : Prop := {
  mwf_key : forall k e, m.(pm_pending) !! k = Some e ->
    e.(pe_key) = k /\ 0 <> k /\ 0 <> e.(spawned_tick) /\
    m.(pm_temporary) !! e.(pe_temporary_entity) = Some k;
  mwf_temporary : forall t k, m.(pm_temporary) !! t = Some k ->
    exists e, m.(pm_pending) !! k = Some e /\ e.(pe_temporary_entity) = t;
  mwf_capacity : Z.of_nat (size m.(pm_pending)) <= m.(pm_config).(capacity);
}.

Lemma register_wf m key entity tick r m' :
  matcher_wf m -> PredictedEntityMatcher_register m key entity tick = (r, m') -> matcher_wf m'.
Proof.
  intros [Hkey Htemp Hcap] Hrun. unfold PredictedEntityMatcher_register in Hrun.
  case_match eqn:Hz; simplify_eq; [done|]. case_match eqn:Hdup; simplify_eq; [done|].
  case_match eqn:Hfull; simplify_eq; [done|]. breflect.
  constructor; cbn.
  - intros k e Hk. destruct (decide (k = key)) as [->|Hne]; simplify_map_eq; [split_and!; done|].
    destruct (Hkey k e Hk) as (He & Hk0 & Ht0 & Ht). split_and!; try done.
    rewrite lookup_insert_ne; [done|]. intros Heq. congruence.
  - intros t k Ht. destruct (decide (t = entity)) as [->|Hne]; simplify_map_eq; [by eexists|].
    destruct (Htemp t k Ht) as (e & He & Het). exists e. split; [|done].
    rewrite lookup_insert_ne; [done|]. intros Heq. congruence.
  - rewrite map_size_insert_None by done. lia.
Qed.

Lemma forget_wf m key e :
  matcher_wf m -> m.(pm_pending) !! key = Some e ->
  matcher_wf (forget m key e.(pe_temporary_entity)).
Proof.
  intros [Hkey Htemp Hcap] He. constructor; cbn.
  - intros k f [Hne Hk]%lookup_delete_Some. destruct (Hkey k f Hk) as (Hf & Hk0 & Ht0 & Ht).
    split_and!; try done. rewrite lookup_delete_ne; [done|]. intros Heq.
    destruct (Hkey key e He) as (_ & _ & _ & Ht'). congruence.
  - intros t k [Hne Ht]%lookup_delete_Some. destruct (Htemp t k Ht) as (f & Hf & Hft).
    exists f. split; [|done]. rewrite lookup_delete_ne; [done|]. intros ->. congruence.
  - rewrite map_size_delete, He. lia.
Qed.

Lemma resolve_wf m key entity tick r m' :
  matcher_wf m -> PredictedEntityMatcher_resolve m key entity tick = (r, m') -> matcher_wf m'.
Proof.
  intros Hwf Hrun. unfold PredictedEntityMatcher_resolve in Hrun.
  destruct (pm_pending m !! key) as [e|] eqn:He; simplify_eq; [|done].
  repeat (case_match; simplify_eq; eauto using forget_wf).
Qed.

Lemma expire_keys_wf keys : forall m, matcher_wf m -> matcher_wf (expire_keys m keys).2.
Proof.
  induction keys as [|k keys IH]; intros m Hwf; cbn; [done|].
  destruct (pm_pending m !! k) as [e|] eqn:He; [|by apply IH].
  specialize (IH _ (forget_wf m k e Hwf He)). by destruct (expire_keys _ keys).
Qed.

Lemma clear_wf m : matcher_wf m -> matcher_wf (PredictedEntityMatcher_clear m).
Proof.
  intros Hwf. constructor; cbn; [intros ??; by rewrite lookup_empty..|].
  rewrite map_size_empty. pose proof (mwf_capacity m Hwf). lia.
Qed.

Lemma new_matcher_wf config m :
  fits usize_max (capacity config) -> PredictedEntityMatcher_new config = Ok m -> matcher_wf m.
Proof.
  unfold PredictedEntityMatcher_new. intros Hfit Hnew.
  destruct (PredictedEntityConfig_validate config); simplify_eq/=.
  constructor; cbn; [intros ??; by rewrite lookup_empty..|]. rewrite map_size_empty.
  unfold fits in *. lia.
Qed.

(** The calls of a client, in any order. *)
Inductive matcher_step (m : PredictedEntityMatcher) : PredictedEntityMatcher -> Prop :=
| ms_register key entity tick r m' :
    PredictedEntityMatcher_register m key entity tick = (r, m') -> matcher_step m m'
| ms_resolve key entity tick r m' :
    PredictedEntityMatcher_resolve m key entity tick = (r, m') -> matcher_step m m'
| ms_expire tick out m' :
    PredictedEntityMatcher_expire m tick = (out, m') -> matcher_step m m'
| ms_clear : matcher_step m (PredictedEntityMatcher_clear m).

Lemma matcher_step_wf m m' : matcher_wf m -> matcher_step m m' -> matcher_wf m'.
Proof.
  intros Hwf Hstep. destruct Hstep as [????? Hr|????? Hr|??? Hr|].
  - by eapply register_wf.
  - by eapply resolve_wf.
  - pose proof (expire_keys_wf (expired_keys m tick) m Hwf) as Hw.
    unfold PredictedEntityMatcher_expire in Hr. by rewrite Hr in Hw.
  - by apply clear_wf.
Qed.

(** *** Expiry *)

Lemma expire_keys_lookup keys : forall m, NoDup keys ->
  (expire_keys m keys).1 = omap (fun k => m.(pm_pending) !! k) keys /\
  forall k, (expire_keys m keys).2.(pm_pending) !! k =
    if bool_decide (k ∈ keys) then None else m.(pm_pending) !! k.
Proof.
  induction keys as [|key keys IH]; intros m Hnd; cbn; [done|].
  apply NoDup_cons in Hnd as [Hkey Hnd].
  destruct (pm_pending m !! key) as [e|] eqn:He.
  - destruct (IH (forget m key (pe_temporary_entity e)) Hnd) as [IH1 IH2]. cbn in IH1, IH2.
    destruct (expire_keys _ keys) as [out m'']; cbn in *. split.
    + rewrite IH1. f_equal. apply omap_ext_in. intros k Hk. rewrite lookup_delete_ne; [done|].
      set_solver.
    + intros k. rewrite IH2. destruct (decide (k = key)) as [->|Hne].
      * rewrite (bool_decide_true (key ∈ key :: keys)) by set_solver. case_bool_decide; [done|].
        by rewrite lookup_delete_eq.
      * rewrite lookup_delete_ne by done.
        rewrite (bool_decide_ext (k ∈ key :: keys) (k ∈ keys)) by set_solver. done.
  - destruct (IH m Hnd) as [IH1 IH2]. split; [done|]. intros k. rewrite IH2.
    destruct (decide (k = key)) as [->|Hne].
    + rewrite (bool_decide_true (key ∈ key :: keys)) by set_solver. by case_bool_decide.
    + by rewrite (bool_decide_ext (k ∈ key :: keys) (k ∈ keys)) by set_solver.
Qed.

Lemma expired_keys_nodup m tick : NoDup (expired_keys m tick).
Proof.
  unfold expired_keys. 
  apply (sublist_NoDup _ _ (increasing_nodup _ _ (btree_iter_increasing m.(pm_pending)))).
  apply fmap_sublist, sublist_filter.
Qed.

Lemma elem_of_expired_keys m tick k :
  k ∈ expired_keys m tick <->
  exists e, m.(pm_pending) !! k = Some e /\ is_expired m tick e = true.
Proof.
  unfold expired_keys. rewrite list_elem_of_fmap. split.
  - intros ([k' e] & -> & [He Hin]%list_elem_of_filter). exists e. cbn in *.
    split; [by apply elem_of_btree_iter|done].
  - intros (e & Hk & He). exists (k, e). split; [done|]. apply list_elem_of_filter.
    split; [done|]. by apply elem_of_btree_iter.
Qed.

Lemma expire_out m tick :
  matcher_wf m ->
  (PredictedEntityMatcher_expire m tick).1 =
    snd <$> filter (fun kv => is_expired m tick kv.2 = true)
      (sort_by_key fst (map_to_list m.(pm_pending))).
Proof.
  intros Hwf. unfold PredictedEntityMatcher_expire.
  rewrite (proj1 (expire_keys_lookup _ m (expired_keys_nodup m tick))).
  unfold expired_keys. set (l := filter _ _).
  assert (Hl : forall k e, (k, e) ∈ l -> m.(pm_pending) !! k = Some e).
  { intros k e [_ Hin]%list_elem_of_filter. by apply elem_of_btree_iter. }
  clearbody l. induction l as [|[k e] l IH]; [done|]. cbn.
  rewrite (Hl k e) by left. cbn. f_equal. apply IH. intros ???. apply Hl. by right.
Qed.

End matcher.
Arguments PredictedEntityMatcher I {_ _}.

(** ** Properties *)

(** Whatever a client calls, the pending predictions and the temporary entities stay a one-to-one
    correspondence: every pending entry carries its own positive key and is found through its
    temporary entity, every temporary entity leads to its pending entry, and the number of pending
    entries never exceeds the configured capacity. *)
Theorem predicted_entities_one_to_one {I} `{Countable I} (config : PredictedEntityConfig)
    (m0 m : PredictedEntityMatcher I) :
  fits usize_max (capacity config) -> PredictedEntityMatcher_new config = Ok m0 ->
  rtc matcher_step m0 m -> matcher_wf m.
Proof.
  intros Hfit Hnew Hrun. pose proof (new_matcher_wf _ _ Hfit Hnew) as Hwf.
  clear Hnew. induction Hrun; eauto using matcher_step_wf.
Qed.

Lemma predicted_entities_one_to_one_witness :
  exists m : PredictedEntityMatcher Z,
    m.(pm_temporary) !! 77 = Some 5 /\ matcher_wf m.
Proof.
  pose (m0 := {| pm_config := PredictedEntityConfig_default; pm_pending := ∅;
                 pm_temporary := (∅ : gmap Z Z) |}).
  exists (PredictedEntityMatcher_register m0 5 77 10).2. split; [reflexivity|].
  apply (predicted_entities_one_to_one PredictedEntityConfig_default m0).
  - vm_compute. split; discriminate.
  - reflexivity.
  - apply rtc_once. eapply (ms_register _ 5 77 10). reflexivity.
Defined.

(** Resolving an authoritative spawn: an unknown key yields nothing and a tick before the spawn is
    refused, both leaving the matcher alone; a known key is forgotten together with its temporary
    entity, and yields the match with its age exactly when it is not older than the timeout. *)
Theorem resolve_matches_pending {I} `{Countable I} (m m' : PredictedEntityMatcher I) (key : Z)
    (entity : I) (tick : Z) (r : NetcodeResult (option (EntityMatch I))) :
  matcher_wf m -> PredictedEntityMatcher_resolve m key entity tick = (r, m') ->
  match m.(pm_pending) !! key with
  | None => r = Ok None /\ m' = m
  | Some e =>
      if tick <? e.(spawned_tick) then (exists msg, r = Err (InvalidInput msg)) /\ m' = m
      else
        m'.(pm_pending) = delete key m.(pm_pending) /\
        m'.(pm_temporary) !! e.(pe_temporary_entity) = None /\ matcher_wf m' /\
        r = Ok (if tick - e.(spawned_tick) <=? m.(pm_config).(timeout_ticks)
                then Some {| em_key := key; em_temporary_entity := e.(pe_temporary_entity);
                             em_authoritative_entity := entity;
                             age_ticks := tick - e.(spawned_tick) |}
                else None)
  end.
Proof.
  intros Hwf Hrun. pose proof Hrun as Hrun'. unfold PredictedEntityMatcher_resolve in Hrun.
  destruct (pm_pending m !! key) as [e|] eqn:He; [|by simplify_eq].
  destruct (tick <? spawned_tick e); [simplify_eq; eauto|].
  apply resolve_wf in Hrun'; [|done]. rewrite Z.leb_antisym.
  destruct (_ <? tick - _); simplify_eq; cbn; split_and!;
    first [done | apply lookup_delete_eq].
Qed.

Lemma resolve_matches_pending_witness :
  exists m m' : PredictedEntityMatcher Z,
    PredictedEntityMatcher_resolve m 5 900 12 =
      (Ok (Some {| em_key := 5; em_temporary_entity := 77; em_authoritative_entity := 900;
                   age_ticks := 2 |}), m') /\ m'.(pm_temporary) !! 77 = None.
Proof.
  pose (m0 := {| pm_config := PredictedEntityConfig_default; pm_pending := ∅;
                 pm_temporary := (∅ : gmap Z Z) |}).
  pose (m := (PredictedEntityMatcher_register m0 5 77 10).2).
  exists m, (PredictedEntityMatcher_resolve m 5 900 12).2. split; [reflexivity|].
  refine (proj1 (proj2 (resolve_matches_pending m _ 5 900 12
    (PredictedEntityMatcher_resolve m 5 900 12).1 _ eq_refl))).
  eapply (register_wf m0 5 77 10); [|reflexivity].
  apply (new_matcher_wf PredictedEntityConfig_default); [|reflexivity].
  vm_compute. split; discriminate.
Defined.

(** [expire] returns exactly the predictions older than the timeout, in key order, and removes
    exactly those. *)
Theorem expire_removes_exactly_expired {I} `{Countable I} (m m' : PredictedEntityMatcher I)
    (tick : Z) (out : list (PredictedEntity I)) :
  matcher_wf m -> PredictedEntityMatcher_expire m tick = (out, m') ->
  increasing pe_key out /\
  (forall e, e ∈ out <-> m.(pm_pending) !! e.(pe_key) = Some e /\
    m.(pm_config).(timeout_ticks) < saturating_sub tick e.(spawned_tick)) /\
  (forall k e, m'.(pm_pending) !! k = Some e <-> m.(pm_pending) !! k = Some e /\
    saturating_sub tick e.(spawned_tick) <= m.(pm_config).(timeout_ticks)) /\
  matcher_wf m'.
Proof.
  intros Hwf Hrun. pose proof (expire_out m tick Hwf) as Hout.
  pose proof (expire_keys_lookup _ m (expired_keys_nodup m tick)) as [_ Hlook].
  pose proof (expire_keys_wf (expired_keys m tick) m Hwf) as Hwf'.
  unfold PredictedEntityMatcher_expire in *. rewrite Hrun in *. cbn in *. split_and!; [| | |done].
  - rewrite increasing_fmap, Hout, <-list_fmap_compose. rewrite (list_fmap_ext _ fst).
    + rewrite <-increasing_fmap. eapply increasing_sublist; [apply sublist_filter|].
      apply btree_iter_increasing.
    + intros i [k e] [_ Hin]%list_elem_of_lookup_2%list_elem_of_filter. cbn in *.
      apply elem_of_btree_iter in Hin. by apply (mwf_key m Hwf).
  - intros e. rewrite Hout, list_elem_of_fmap. unfold is_expired. split.
    + intros ([k e'] & -> & [Hexp Hin]%list_elem_of_filter). cbn in *.
      apply elem_of_btree_iter in Hin. pose proof (mwf_key m Hwf k e' Hin) as (-> & _).
      split; [done|]. by apply Z.ltb_lt.
    + intros [Hin Hexp]. exists (pe_key e, e). split; [done|]. apply list_elem_of_filter.
      split; [by apply Z.ltb_lt|by apply elem_of_btree_iter].
  - intros k e. rewrite Hlook. case_bool_decide as Hk.
    + split; [done|]. intros [Hin Hle].
      apply elem_of_expired_keys in Hk as (e' & Hin' & Hexp). simplify_eq.
      unfold is_expired in Hexp. breflect. lia.
    + split; [|by intros []]. intros Hin. split; [done|].
      destruct (decide (saturating_sub tick (spawned_tick e) <= timeout_ticks (pm_config m)));
        [done|]. destruct Hk. apply elem_of_expired_keys. exists e. split; [done|].
      unfold is_expired. apply Z.ltb_lt. lia.
Qed.

Lemma expire_removes_exactly_expired_witness :
  exists m m' : PredictedEntityMatcher Z,
    PredictedEntityMatcher_expire m 200 =
      ([{| pe_key := 5; pe_temporary_entity := 77; spawned_tick := 10 |}], m') /\
    is_Some (m'.(pm_pending) !! 6) /\ matcher_wf m'.
Proof.
  pose (m0 := {| pm_config := PredictedEntityConfig_default; pm_pending := ∅;
                 pm_temporary := (∅ : gmap Z Z) |}).
  pose (m1 := (PredictedEntityMatcher_register m0 5 77 10).2).
  pose (m := (PredictedEntityMatcher_register m1 6 78 150).2).
  exists m, (PredictedEntityMatcher_expire m 200).2.
  split; [reflexivity|]. split; [by eexists|].
  eapply (expire_removes_exactly_expired m _ 200); [|vm_compute; reflexivity].
  eapply (register_wf m1 6 78 150); [|reflexivity].
  eapply (register_wf m0 5 77 10); [|reflexivity].
  apply (new_matcher_wf PredictedEntityConfig_default); [|reflexivity].
  vm_compute. split; discriminate.
Defined.
