(* ===== verification/Float64.v ===== *)
(** * Binary64 arithmetic

    The operations on [f64] the sources use, executable, on the Standard Library's specification of
    IEEE 754 rounding to nearest, ties to even (53 bits of precision, exponents up to 1024). *)

From Stdlib Require Export SpecFloat.
From S2P Require Import Prelude.

Definition f64 : Type := spec_float.

Definition f64_add : f64 -> f64 -> f64 := SFadd 53 1024.
Definition f64_sub : f64 -> f64 -> f64 := SFsub 53 1024.
Definition f64_mul : f64 -> f64 -> f64 := SFmul 53 1024.
Definition f64_div : f64 -> f64 -> f64 := SFdiv 53 1024.
Definition f64_ltb : f64 -> f64 -> bool := SFltb.
Definition f64_leb : f64 -> f64 -> bool := SFleb.

(** The cast [n as f64] of an integer. *)
Definition f64_of_Z (n : Z) : f64 := binary_normalize 53 1024 n 0 false.

Definition f64_one : f64 := f64_of_Z 1.

(** [Duration::as_secs_f64] of a duration in nanoseconds. *)
Definition as_secs_f64 (nanos : Z) : f64 :=
  f64_add (f64_of_Z (nanos / 1000000000))
    (f64_div (f64_of_Z (nanos mod 1000000000)) (f64_of_Z 1000000000)).

(** Rounding of [m * 2^e] to the nearest integer, ties to even, for [m >= 0]. *)
Definition round_half_even (m e : Z) : Z :=
  if 0 <=? e then m * 2 ^ e
  else
    let d := 2 ^ (- e) in
    let q := m / d in
    let r := m mod d in
    if (d <? 2 * r) || ((2 * r =? d) && Z.odd q) then q + 1 else q.

(** [Duration::from_secs_f64] in nanoseconds: the nearest nanosecond; [None] where it panics (negative,
    not finite, or more seconds than a [u64] holds). *)
Definition from_secs_f64 (x : f64) : option Z :=
  match x with
  | S754_zero _ => Some 0
  | S754_finite false m e =>
      let nanos := round_half_even (Z.pos m * 1000000000) e in
      if nanos <? (u64_max + 1) * 1000000000 then Some nanos else None
  | _ => None
  end.

(** [f64::is_finite], [is_sign_negative], [abs]. *)
Definition f64_is_finite (x : f64) : bool :=
  match x with S754_zero _ | S754_finite _ _ _ => true | _ => false end.
Definition f64_is_sign_negative (x : f64) : bool :=
  match x with S754_zero s | S754_infinity s | S754_finite s _ _ => s | S754_nan => false end.
Definition f64_abs : f64 -> f64 := SFabs.
Definition f64_neg : f64 -> f64 := SFopp.
Definition f64_zero : f64 := S754_zero false.
Definition f64_eqb : f64 -> f64 -> bool := SFeqb.

(** [f64::max] and [f64::min] give the other operand for a NaN; [f64::clamp] keeps a NaN (its bounds are
    ordered wherever the sources call it). *)
Definition f64_max (x y : f64) : f64 :=
  match x, y with S754_nan, _ => y | _, S754_nan => x | _, _ => if f64_ltb x y then y else x end.
Definition f64_clamp (x low high : f64) : f64 :=
  let x := if f64_ltb x low then low else x in if f64_ltb high x then high else x.

(** The signed significand of a finite number. *)
Definition f64_signed (s : bool) (m : positive) : Z := if s then Z.neg m else Z.pos m.

(** [f64::mul_add]: the exact [x * y + z], rounded once. *)
Definition f64_mul_add (x y z : f64) : f64 :=
  match x, y, z with
  | S754_finite sx mx ex, S754_finite sy my ey, S754_finite sz mz ez =>
      let e := Z.min (ex + ey) ez in
      let product := f64_signed sx mx * f64_signed sy my * 2 ^ (ex + ey - e) in
      binary_normalize 53 1024 (product + f64_signed sz mz * 2 ^ (ez - e)) e false
  | S754_finite sx mx ex, S754_finite sy my ey, S754_zero _ => f64_mul x y
  | _, _, _ => f64_add (f64_mul x y) z
  end.

(** The integer part towards minus infinity, plus infinity and zero of a finite number. *)
Definition floor_Z (s : bool) (m : positive) (e : Z) : Z :=
  if 0 <=? e then f64_signed s m * 2 ^ e else f64_signed s m / 2 ^ (- e).
Definition ceil_Z (s : bool) (m : positive) (e : Z) : Z := - floor_Z (negb s) m e.
Definition trunc_Z (s : bool) (m : positive) (e : Z) : Z := if s then ceil_Z s m e else floor_Z s m e.

(** [f64::floor] and [f64::ceil]; a zero keeps the sign of the argument. *)
Definition f64_floor (x : f64) : f64 :=
  match x with S754_finite s m e => binary_normalize 53 1024 (floor_Z s m e) 0 s | _ => x end.
Definition f64_ceil (x : f64) : f64 :=
  match x with S754_finite s m e => binary_normalize 53 1024 (ceil_Z s m e) 0 s | _ => x end.

(** The saturating cast [x as T] to an integer type with bounds [low] and [high]; a NaN is zero. *)
Definition f64_as (low high : Z) (x : f64) : Z :=
  match x with
  | S754_zero _ | S754_nan => 0
  | S754_infinity s => if s then low else high
  | S754_finite s m e => Z.max low (Z.min high (trunc_Z s m e))
  end.

Example f64_floor_ceil :
  let half := f64_div (f64_of_Z (-7)) (f64_of_Z 2) in
  f64_floor half = f64_of_Z (-4) /\ f64_ceil half = f64_of_Z (-3) /\ f64_as (-100) 100 half = -3
  /\ f64_mul_add half half (f64_of_Z 1) = f64_div (f64_of_Z 53) (f64_of_Z 4).
Proof. vm_compute. done. Qed.

Example from_secs_f64_frame : from_secs_f64 (f64_div (f64_of_Z 1) (f64_of_Z 30)) = Some 33333333.
Proof. vm_compute. reflexivity. Qed.
