(* ===== verification/Room.v ===== *)
(** * Rooms: [crates/elura-room/src/lib.rs]

    The room roster and its lifecycle.  The members are a hash map, so the model iterates it through
    [map_to_list] and the theorems show that no observable result depends on that order: the roster
    in join order is the abstract state, a plain list of members, that the operations act on. *)

From S2P Require Import Prelude.

Record RoomConfig : Type := {
  capacity : Z;
  minimum_to_start : Z;
  require_all_ready : bool;
  allow_join_in_progress : bool;
}.

Definition RoomConfig_default : RoomConfig :=
  {| capacity := 4; minimum_to_start := 1; require_all_ready := true;
     allow_join_in_progress := false |}.

Inductive RoomError : Type :=
| InvalidConfig (message : string)
| AlreadyMember
| MemberNotFound
| Full
| NotOpen
| NotEnoughMembers (minimum actual : Z)
| MembersNotReady.

Definition RoomResult (T : Type) : Type := result RoomError T.

Definition RoomConfig_validate (c : RoomConfig) : RoomResult unit :=
  if c.(capacity) =? 0 then Err (InvalidConfig "capacity must be positive")
  else if (c.(minimum_to_start) =? 0) || (c.(capacity) <? c.(minimum_to_start)) then
    Err (InvalidConfig "minimum_to_start must be in 1..=capacity")
  else Ok ().

Inductive RoomPhase : Type := Open | Active | Closed.

Global Instance RoomPhase_eq_dec : EqDecision RoomPhase.
Proof. solve_decision. Defined.

Record RoomMember (D : Type) : Type := {
  data : D;
  ready : bool;
  joined_order : Z;
}.
Arguments data {D} _.
Arguments ready {D} _.
Arguments joined_order {D} _.

Record RoomDeparture (M D : Type) : Type := {
  rd_data : D;
  new_leader : option M;
  empty_after : bool;
}.
Arguments rd_data {M D} _.
Arguments new_leader {M D} _.
Arguments empty_after {M D} _.

Section room.
Context {I M D : Type} `{Countable M}.

Record Room : Type := {
  room_id : I;
  config : RoomConfig;
  phase : RoomPhase;
  leader : option M;
  members : gmap M (RoomMember D);
  next_join_order : Z;
}.

Definition Room_new (id : I) (config : RoomConfig) : RoomResult Room :=
  let? _ := RoomConfig_validate config in
  Ok {| room_id := id; config := config; phase := Open; leader := None; members := ∅;
        next_join_order := 0 |}.

Definition Room_len (self : Room) : Z := Z.of_nat (size self.(members)).
Definition Room_contains (self : Room) (member : M) : bool :=
  bool_decide (is_Some (self.(members) !! member)).

Definition set_members (self : Room) (members : gmap M (RoomMember D)) : Room :=
  {| room_id := self.(room_id); config := self.(config); phase := self.(phase); leader := self.(leader);
     members := members; next_join_order := self.(next_join_order) |}.
Definition set_leader (self : Room) (leader : option M) : Room :=
  {| room_id := self.(room_id); config := self.(config); phase := self.(phase); leader := leader;
     members := self.(members); next_join_order := self.(next_join_order) |}.
Definition set_phase (self : Room) (phase : RoomPhase) : Room :=
  {| room_id := self.(room_id); config := self.(config); phase := phase; leader := self.(leader);
     members := self.(members); next_join_order := self.(next_join_order) |}.

(** What a caller can do through the reference [member_mut] returns: write the public fields. *)
Definition Room_member_mut (self : Room) (member : M) (new_data : D -> D) (new_ready : bool) : Room :=
  match self.(members) !! member with
  | None => self
  | Some m =>
      set_members self (<[member := {| data := new_data m.(data); ready := new_ready;
                                       joined_order := m.(joined_order) |}]> self.(members))
  end.

Definition Room_members_in_join_order (self : Room) : list M :=
  fst <$> sort_by_key (fun p => joined_order p.2) (map_to_list self.(members)).

Definition Room_join (self : Room) (member : M) (d : D) : RoomResult unit * Room :=
  if bool_decide (self.(phase) = Closed)
     || (bool_decide (self.(phase) = Active) && negb self.(config).(allow_join_in_progress)) then
    (Err NotOpen, self)
  else if Room_contains self member then (Err AlreadyMember, self)
  else if self.(config).(capacity) <=? Room_len self then (Err Full, self)
  else
    (Ok (),
     {| room_id := self.(room_id);
        config := self.(config);
        phase := self.(phase);
        leader := match self.(leader) with None => Some member | Some l => Some l end;
        members := <[member := {| data := d; ready := false;
                                  joined_order := self.(next_join_order) |}]> self.(members);
        next_join_order := saturating_add u128_max self.(next_join_order) 1 |}).

Definition Room_leave (self : Room) (member : M) : RoomResult (RoomDeparture M D) * Room :=
  match self.(members) !! member with
  | None => (Err MemberNotFound, self)
  | Some removed =>
      let self := set_members self (delete member self.(members)) in
      let self :=
        if bool_decide (self.(leader) = Some member) then
          set_leader self
            (fst <$> min_by_key (fun p => joined_order p.2) (map_to_list self.(members)))
        else self in
      (Ok {| rd_data := removed.(data); new_leader := self.(leader);
             empty_after := bool_decide (self.(members) = ∅) |}, self)
  end.

Definition Room_transfer_leader (self : Room) (member : M) : RoomResult unit * Room :=
  if negb (Room_contains self member) then (Err MemberNotFound, self)
  else (Ok (), set_leader self (Some member)).

Definition Room_set_ready (self : Room) (member : M) (r : bool) : RoomResult unit * Room :=
  if negb (bool_decide (self.(phase) = Open)) then (Err NotOpen, self)
  else
    match self.(members) !! member with
    | None => (Err MemberNotFound, self)
    | Some m =>
        (Ok (), set_members self (<[member := {| data := m.(data); ready := r;
                                                 joined_order := m.(joined_order) |}]>
                                  self.(members)))
    end.

Definition Room_ready_count (self : Room) : Z :=
  len (filter (fun p => ready p.2 = true) (map_to_list self.(members))).

Definition Room_can_start (self : Room) : bool :=
  bool_decide (self.(phase) = Open)
  && (self.(config).(minimum_to_start) <=? Room_len self)
  && (negb self.(config).(require_all_ready) || (Room_ready_count self =? Room_len self)).

Definition Room_start (self : Room) : RoomResult unit * Room :=
  if negb (bool_decide (self.(phase) = Open)) then (Err NotOpen, self)
  else if Room_len self <? self.(config).(minimum_to_start) then
    (Err (NotEnoughMembers self.(config).(minimum_to_start) (Room_len self)), self)
  else if self.(config).(require_all_ready) && negb (Room_ready_count self =? Room_len self) then
    (Err MembersNotReady, self)
  else (Ok (), set_phase self Active).

Definition Room_close (self : Room) : Room := set_phase self Closed.

(** ** Calls *)

Inductive room_call : Type :=
| CJoin (member : M) (d : D)
| CLeave (member : M)
| CTransfer (member : M)
| CReady (member : M) (r : bool)
| CMutate (member : M) (f : D -> D) (r : bool)
| CStart
| CClose.

(** What a caller sees of a call, the application's own data apart. *)
Inductive room_reply : Type :=
| RDone
| RLeft (new_leader : option M) (is_empty : bool).

Definition reply_of {A} (f : A -> room_reply) (x : RoomResult A * Room) :
    RoomResult room_reply * Room :=
  (match x.1 with Ok a => Ok (f a) | Err e => Err e end, x.2).

Definition room_exec (r : Room) (c : room_call) : RoomResult room_reply * Room :=
  match c with
  | CJoin m d => reply_of (fun _ => RDone) (Room_join r m d)
  | CLeave m => reply_of (fun dep => RLeft dep.(new_leader) dep.(empty_after)) (Room_leave r m)
  | CTransfer m => reply_of (fun _ => RDone) (Room_transfer_leader r m)
  | CReady m b => reply_of (fun _ => RDone) (Room_set_ready r m b)
  | CMutate m f b => (Ok RDone, Room_member_mut r m f b)
  | CStart => reply_of (fun _ => RDone) (Room_start r)
  | CClose => (Ok RDone, Room_close r)
  end.

Definition room_run (r : Room) (cs : list room_call) : Room :=
  foldl (fun r c => (room_exec r c).2) r cs.

(** ** Abstract specification: members in join order *)

Record Roster : Type := {
  ros_order : list M;
  ros_leader : option M;
  ros_ready : gset M;
  ros_phase : RoomPhase;
}.

Definition mark (m : M) (b : bool) (s : gset M) : gset M :=
  if b then {[m]} ∪ s else s ∖ {[m]}.

Definition roster_exec (c : RoomConfig) (s : Roster) (call : room_call) :
    RoomResult room_reply * Roster :=
  let '(Build_Roster order leader ready phase) := s in
  match call with
  | CJoin m _ =>
      if bool_decide (phase = Closed \/ phase = Active /\ c.(allow_join_in_progress) = false) then
        (Err NotOpen, s)
      else if bool_decide (m ∈ order) then (Err AlreadyMember, s)
      else if bool_decide (c.(capacity) <= len order) then (Err Full, s)
      else (Ok RDone, Build_Roster (order ++ [m]) (Some (default m leader)) ready phase)
  | CLeave m =>
      if bool_decide (m ∈ order) then
        let rest := filter (fun k => k <> m) order in
        let leader := if bool_decide (leader = Some m) then head rest else leader in
        (Ok (RLeft leader (bool_decide (rest = []))),
         Build_Roster rest leader (ready ∖ {[m]}) phase)
      else (Err MemberNotFound, s)
  | CTransfer m =>
      if bool_decide (m ∈ order) then (Ok RDone, Build_Roster order (Some m) ready phase)
      else (Err MemberNotFound, s)
  | CReady m b =>
      if bool_decide (phase = Open) then
        if bool_decide (m ∈ order) then (Ok RDone, Build_Roster order leader (mark m b ready) phase)
        else (Err MemberNotFound, s)
      else (Err NotOpen, s)
  | CMutate m _ b =>
      (Ok RDone, if bool_decide (m ∈ order) then Build_Roster order leader (mark m b ready) phase
                 else s)
  | CStart =>
      if bool_decide (phase = Open) then
        if bool_decide (len order < c.(minimum_to_start)) then
          (Err (NotEnoughMembers c.(minimum_to_start) (len order)), s)
        else if bool_decide (c.(require_all_ready) = true /\ ~ Forall (fun m => m ∈ ready) order) then
          (Err MembersNotReady, s)
        else (Ok RDone, Build_Roster order leader ready Active)
      else (Err NotOpen, s)
  | CClose => (Ok RDone, Build_Roster order leader ready Closed)
  end.

(** ** The roster *)

Notation roster := Room_members_in_join_order.

Definition orders (r : Room) : gmap M Z := joined_order <$> r.(members).

(** The invariant: join orders identify members, the leader is a member, and there is one exactly
    when the room is not empty. *)
Record room_wf (r : Room) : Prop := {
  rwf_orders : forall m n x y, r.(members) !! m = Some x -> r.(members) !! n = Some y ->
    joined_order x = joined_order y -> m = n;
  rwf_next : forall m x, r.(members) !! m = Some x -> 0 <= joined_order x < r.(next_join_order);
  rwf_next0 : 0 <= r.(next_join_order);
  rwf_leader : forall l, r.(leader) = Some l -> is_Some (r.(members) !! l);
  rwf_no_leader : r.(leader) = None -> r.(members) = ∅;
  rwf_capacity : Room_len r <= r.(config).(capacity);
}.

(** The roster only depends on the join orders. *)
Definition by_order (o : gmap M Z) : list M := fst <$> sort_by_key snd (map_to_list o).

Lemma roster_orders r : roster r = by_order (orders r).
Proof.
  unfold Room_members_in_join_order, by_order, orders.
  rewrite map_to_list_fmap, sort_by_key_fmap, <-list_fmap_compose. done.
Qed.

Definition orders_inj (o : gmap M Z) : Prop :=
  forall m n a, o !! m = Some a -> o !! n = Some a -> m = n.

Lemma by_order_increasing o :
  orders_inj o -> increasing snd (sort_by_key snd (map_to_list o)).
Proof.
  intros Hinj. apply sort_by_key_increasing. apply NoDup_fmap_2_strong; [|apply NoDup_map_to_list].
  intros [m a] [n b] Hm%elem_of_map_to_list Hn%elem_of_map_to_list Hab; cbn in *; subst b.
  by rewrite (Hinj m n a Hm Hn).
Qed.

Lemma by_order_unique o l :
  orders_inj o -> increasing snd l -> l ≡ₚ map_to_list o -> by_order o = fst <$> l.
Proof.
  intros Hinj Hinc Hperm. unfold by_order. f_equal.
  apply (increasing_perm_eq snd); [by apply by_order_increasing|done|].
  rewrite Hperm. apply sort_by_perm.
Qed.

Lemma by_order_insert o m n :
  orders_inj o -> o !! m = None -> (forall k a, o !! k = Some a -> a < n) ->
  by_order (<[m := n]> o) = by_order o ++ [m].
Proof.
  intros Hinj Hm Hlt. change [m] with (fst <$> [(m, n)]). unfold by_order at 2. rewrite <-fmap_app.
  apply by_order_unique.
  - intros a b x Ha Hb.
    destruct (decide (a = m)) as [->|], (decide (b = m)) as [->|]; simplify_map_eq; try done.
    + specialize (Hlt _ _ Hb). lia.
    + specialize (Hlt _ _ Ha). lia.
    + by eapply Hinj.
  - apply increasing_snoc. split; [by apply by_order_increasing|]. apply Forall_forall.
    intros [k a] Hin. unfold sort_by_key in Hin. rewrite elem_of_sort_by, elem_of_map_to_list in Hin.
    by eapply Hlt.
  - rewrite map_to_list_insert by done. rewrite Permutation_app_comm. cbn. f_equiv.
    apply sort_by_perm.
Qed.

Lemma by_order_delete o m :
  orders_inj o -> by_order (delete m o) = filter (fun k => k <> m) (by_order o).
Proof.
  intros Hinj. unfold by_order at 2. rewrite filter_fmap. apply by_order_unique.
  - intros a b x [_ Ha]%lookup_delete_Some [_ Hb]%lookup_delete_Some. by eapply Hinj.
  - eapply increasing_sublist; [apply sublist_filter|by apply by_order_increasing].
  - apply NoDup_Permutation.
    + apply NoDup_filter. unfold sort_by_key. rewrite sort_by_perm. apply NoDup_map_to_list.
    + apply NoDup_map_to_list.
    + intros [k a]. rewrite list_elem_of_filter. unfold sort_by_key.
      rewrite elem_of_sort_by, !elem_of_map_to_list, lookup_delete_Some. cbn. naive_solver.
Qed.

Lemma room_orders_inj r : room_wf r -> orders_inj (orders r).
Proof.
  intros Hwf m n a Hm Hn. unfold orders in *. rewrite lookup_fmap in Hm, Hn.
  apply fmap_Some in Hm as (x & Hx & Hax), Hn as (y & Hy & Hay).
  by eapply (rwf_orders r Hwf m n x y); [..|congruence].
Qed.

Lemma elem_of_roster r m : m ∈ roster r <-> is_Some (r.(members) !! m).
Proof.
  unfold Room_members_in_join_order. rewrite list_elem_of_fmap. split.
  - intros ([k x] & -> & Hin). unfold sort_by_key in Hin.
    rewrite elem_of_sort_by, elem_of_map_to_list in Hin. by eexists.
  - intros [x Hx]. exists (m, x). split; [done|]. unfold sort_by_key.
    by rewrite elem_of_sort_by, elem_of_map_to_list.
Qed.

Lemma roster_nodup r : NoDup (roster r).
Proof.
  unfold Room_members_in_join_order.
  rewrite (sort_by_perm _ (map_to_list (members r)) : sort_by_key _ _ ≡ₚ _).
  apply NoDup_fst_map_to_list.
Qed.

Lemma roster_len r : len (roster r) = Room_len r.
Proof.
  unfold Room_members_in_join_order, Room_len, len, sort_by_key.
  by rewrite length_fmap, length_sort_by, length_map_to_list.
Qed.

Lemma roster_nil r : roster r = [] <-> r.(members) = ∅.
Proof.
  split.
  - intros Hnil. apply map_empty. intros m. destruct (members r !! m) as [x|] eqn:Hx; [|done].
    assert (Hin : m ∈ roster r) by (apply elem_of_roster; eauto). rewrite Hnil in Hin. set_solver.
  - intros Hemp. unfold Room_members_in_join_order. by rewrite Hemp, map_to_list_empty.
Qed.

(** The leader elected by [min_by_key] is the head of the roster. *)
Lemma earliest_is_head r :
  fst <$> min_by_key (fun p => joined_order p.2) (map_to_list r.(members)) = head (roster r).
Proof. rewrite min_by_key_head. unfold Room_members_in_join_order. by destruct (sort_by_key _ _). Qed.

(** *** The operations preserve the invariant and act on the roster *)

Lemma join_ok r m d r' :
  Room_join r m d = (Ok (), r') ->
  r.(members) !! m = None /\ Room_len r < r.(config).(capacity) /\ r.(phase) <> Closed /\
  r'.(members) = <[m := {| data := d; ready := false; joined_order := next_join_order r |}]>
                   r.(members) /\
  r'.(next_join_order) = saturating_add u128_max (next_join_order r) 1 /\
  r'.(leader) = Some (default m r.(leader)) /\
  r'.(config) = r.(config) /\ r'.(phase) = r.(phase).
Proof.
  unfold Room_join, Room_contains. intros Hrun. repeat (case_match; simplify_eq/=).
  all: breflect; split_and!; try done.
Qed.

Lemma join_err r m d e r' : Room_join r m d = (Err e, r') -> r' = r.
Proof. unfold Room_join. intros. by repeat (case_match; simplify_eq/=). Qed.

Lemma join_wf r m d res r' :
  room_wf r -> next_join_order r < u128_max -> Room_join r m d = (res, r') -> room_wf r'.
Proof.
  intros Hwf Hsat Hrun. destruct res as [[]|e]; [|by apply join_err in Hrun as ->].
  pose proof (join_ok _ _ _ _ Hrun) as (Hm & Hcap & _ & Hmem & Hnx & Hlead & Hcfg & _).
  destruct Hwf as [Hord Hnext Hnext0 Hl Hnone _].
  assert (Hsucc : next_join_order r' = next_join_order r + 1) by (rewrite Hnx; width).
  constructor; rewrite ?Hmem, ?Hsucc, ?Hcfg, ?Hlead.
  - intros a b x y Ha Hb Heq.
    destruct (decide (a = m)) as [->|], (decide (b = m)) as [->|]; simplify_map_eq; try done.
    + apply Hnext in Hb. lia.
    + apply Hnext in Ha. lia.
    + by eapply Hord.
  - intros a x Ha. destruct (decide (a = m)) as [->|]; simplify_map_eq; [lia|].
    apply Hnext in Ha. lia.
  - lia.
  - intros l [= <-]. destruct (leader r) as [l|] eqn:Hlr; cbn.
    + rewrite lookup_insert_is_Some. destruct (decide (m = l)); auto.
    + rewrite lookup_insert_eq. by eexists.
  - done.
  - unfold Room_len. rewrite Hmem, map_size_insert_None by done. unfold Room_len in Hcap. lia.
Qed.

Lemma roster_join r m d r' :
  room_wf r -> Room_join r m d = (Ok (), r') -> roster r' = roster r ++ [m].
Proof.
  intros Hwf (Hm & _ & _ & Hmem & _)%join_ok. rewrite !roster_orders. unfold orders at 1.
  rewrite Hmem, fmap_insert. apply by_order_insert.
  - by apply room_orders_inj.
  - unfold orders. by rewrite lookup_fmap, Hm.
  - intros k a Hk. unfold orders in Hk. rewrite lookup_fmap in Hk.
    apply fmap_Some in Hk as (x & Hx & ->). by apply (rwf_next r Hwf k x).
Qed.

Lemma leave_ok r m dep r' :
  Room_leave r m = (Ok dep, r') ->
  exists x, r.(members) !! m = Some x /\ r'.(members) = delete m r.(members) /\
    r'.(leader) = (if bool_decide (r.(leader) = Some m) then head (roster r') else r.(leader)) /\
    r'.(next_join_order) = r.(next_join_order) /\ r'.(config) = r.(config) /\
    r'.(phase) = r.(phase) /\
    dep = {| rd_data := data x; new_leader := r'.(leader);
             empty_after := bool_decide (r'.(members) = ∅) |}.
Proof.
  unfold Room_leave. intros Hrun. destruct (members r !! m) as [x|]; simplify_eq/=.
  exists x. split; [done|]. case_bool_decide; cbn; split_and!; try done.
  rewrite <-earliest_is_head. done.
Qed.

Lemma leave_err r m e r' : Room_leave r m = (Err e, r') -> r' = r /\ e = MemberNotFound.
Proof. unfold Room_leave. intros. by case_match; simplify_eq. Qed.

Lemma roster_leave r m dep r' :
  room_wf r -> Room_leave r m = (Ok dep, r') -> roster r' = filter (fun k => k <> m) (roster r).
Proof.
  intros Hwf (x & _ & Hmem & _)%leave_ok. rewrite !roster_orders. unfold orders at 1.
  rewrite Hmem, fmap_delete. by apply by_order_delete, room_orders_inj.
Qed.

Lemma leave_wf r m res r' : room_wf r -> Room_leave r m = (res, r') -> room_wf r'.
Proof.
  intros Hwf Hrun. destruct res as [dep|e]; [|by apply leave_err in Hrun as [-> _]].
  pose proof (leave_ok _ _ _ _ Hrun) as (x & Hx & Hmem & Hlead & Hnx & Hcfg & _).
  destruct Hwf as [Hord Hnext Hnext0 Hl Hnone Hcap].
  constructor; rewrite ?Hnx, ?Hcfg, ?Hlead; rewrite ?Hmem.
  - intros a b y z [_ Ha]%lookup_delete_Some [_ Hb]%lookup_delete_Some. by eapply Hord.
  - intros a y [_ Ha]%lookup_delete_Some. by eapply Hnext.
  - done.
  - intros l. case_bool_decide as Hm.
    + intros (k & Hk)%head_Some. rewrite <-Hmem, <-elem_of_roster, Hk. left.
    + intros Hl'. rewrite lookup_delete_ne by congruence. auto.
  - case_bool_decide as Hm.
    + intros Hh%head_None. rewrite <-Hmem. by apply roster_nil.
    + intros Hl'. specialize (Hnone Hl'). rewrite Hnone in Hx. done.
  - unfold Room_len in *. rewrite Hmem, map_size_delete, Hx. lia.
Qed.

(** Rewriting a member's public fields. *)
Lemma touch_orders r m x y :
  r.(members) !! m = Some x -> joined_order y = joined_order x ->
  orders (set_members r (<[m := y]> r.(members))) = orders r.
Proof.
  intros Hx Hy. unfold orders. cbn. rewrite fmap_insert, Hy. apply insert_id.
  by rewrite lookup_fmap, Hx.
Qed.

Lemma touch_wf r m x y :
  room_wf r -> r.(members) !! m = Some x -> joined_order y = joined_order x ->
  room_wf (set_members r (<[m := y]> r.(members))).
Proof.
  intros [Hord Hnext Hnext0 Hl Hnone Hcap] Hx Hy.
  assert (Hback : forall k z, <[m := y]> r.(members) !! k = Some z ->
    exists z', r.(members) !! k = Some z' /\ joined_order z' = joined_order z).
  { intros k z. destruct (decide (k = m)) as [->|]; intros; simplify_map_eq; eauto. }
  constructor; cbn; try done.
  - intros a b u v (u' & Ha & Hu)%Hback (v' & Hb & Hv)%Hback Heq. eapply Hord; eauto. congruence.
  - intros a u (u' & Ha & Hu)%Hback. specialize (Hnext a u' Ha). lia.
  - intros l Hl'. rewrite lookup_insert_is_Some. destruct (decide (m = l)); auto.
  - intros Hl'. rewrite Hnone in Hx by done. done.
  - unfold Room_len in *. cbn. rewrite map_size_insert_Some by eauto. done.
Qed.

Lemma room_exec_wf r c :
  room_wf r -> next_join_order r < u128_max ->
  room_wf (room_exec r c).2 /\ next_join_order (room_exec r c).2 <= next_join_order r + 1 /\
  config (room_exec r c).2 = config r.
Proof.
  intros Hwf Hsat. pose proof Hwf as [Hord Hnext Hnext0 Hl Hnone Hcap].
  destruct c as [m d|m|m|m b|m f b| |]; cbn.
  - destruct (Room_join r m d) as [[[]|e] r'] eqn:E; cbn.
    + split; [by eapply join_wf|]. apply join_ok in E as (_ & _ & _ & _ & -> & _ & Hcfg & _).
      split; [width|done].
    + apply join_err in E as ->. split_and!; [done|lia|done].
  - destruct (Room_leave r m) as [[dep|e] r'] eqn:E; cbn.
    + split; [by eapply leave_wf|]. apply leave_ok in E as (x & _ & _ & _ & -> & Hcfg & _).
      split; [lia|done].
    + apply leave_err in E as [-> _]. split_and!; [done|lia|done].
  - unfold Room_transfer_leader, Room_contains. case_bool_decide as Hm; cbn.
    + split_and!; [|lia|done]. constructor; cbn; try done. by intros l [= <-].
    + split_and!; [done|lia|done].
  - unfold Room_set_ready. case_match; cbn; [split_and!; [done|lia|done]|].
    destruct (members r !! m) as [x|] eqn:Hx; cbn; (split_and!; [|lia|done]); [|done].
    by eapply touch_wf.
  - unfold Room_member_mut.
    destruct (members r !! m) as [x|] eqn:Hx; cbn; (split_and!; [|lia|done]); [|done].
    by eapply touch_wf.
  - unfold Room_start. repeat case_match; cbn; (split_and!; [|lia|done]); done.
  - split_and!; [|lia|done]. done.
Qed.

Lemma room_run_wf cs : forall r,
  room_wf r -> next_join_order r + len cs <= u128_max ->
  room_wf (room_run r cs) /\ next_join_order (room_run r cs) <= next_join_order r + len cs.
Proof.
  induction cs as [|c cs IH]; intros r Hwf Hle; cbn; [rewrite len_nil; split; [done|lia]|].
  rewrite len_cons in *. pose proof (len_nonneg cs).
  destruct (room_exec_wf r c Hwf) as (Hwf' & Hnx & _); [lia|].
  destruct (IH (room_exec r c).2 Hwf') as [Hw Hn]; [lia|].
  unfold room_run in Hw, Hn. split; [done|lia].
Qed.

Lemma new_room_wf i c r :
  fits usize_max (capacity c) -> Room_new i c = Ok r -> room_wf r /\ next_join_order r = 0.
Proof.
  intros Hfit Hnew. unfold Room_new in Hnew. destruct (RoomConfig_validate c); simplify_eq/=.
  split; [|done]. constructor; cbn; try done; try (intros *; rewrite lookup_empty; done).
  unfold Room_len. cbn. rewrite map_size_empty. unfold fits in Hfit. lia.
Qed.

(** *** Abstraction *)

Definition ready_set (r : Room) : gset M :=
  dom (filter (fun p => ready p.2 = true) r.(members)).

Lemma elem_of_ready_set r m :
  m ∈ ready_set r <-> exists x, r.(members) !! m = Some x /\ ready x = true.
Proof.
  unfold ready_set. rewrite elem_of_dom. split.
  - intros [x [Hx Hr]%map_lookup_filter_Some]. eauto.
  - intros (x & Hx & Hr). exists x. by apply map_lookup_filter_Some.
Qed.

Definition abs (r : Room) : Roster :=
  {| ros_order := roster r; ros_leader := r.(leader); ros_ready := ready_set r;
     ros_phase := r.(phase) |}.

Lemma abs_touch r m x y :
  r.(members) !! m = Some x -> joined_order y = joined_order x ->
  abs (set_members r (<[m := y]> r.(members))) =
  {| ros_order := roster r; ros_leader := r.(leader); ros_ready := mark m (ready y) (ready_set r);
     ros_phase := r.(phase) |}.
Proof.
  intros Hx Hy. unfold abs. f_equal.
  - by rewrite !roster_orders, (touch_orders r m x).
  - apply set_eq. intros k. unfold mark. rewrite elem_of_ready_set. cbn.
    destruct (decide (k = m)) as [->|Hne].
    + rewrite lookup_insert_eq. destruct (ready y) eqn:Hry; split.
      * set_solver.
      * eauto.
      * intros (z & [= <-] & Hz). congruence.
      * set_solver.
    + rewrite lookup_insert_ne by done. rewrite <-elem_of_ready_set.
      destruct (ready y); set_solver.
Qed.

Lemma contains_roster r m : Room_contains r m = bool_decide (m ∈ roster r).
Proof. unfold Room_contains. apply bool_decide_ext. by rewrite elem_of_roster. Qed.

Lemma ready_count_all r :
  Room_ready_count r = Room_len r <-> Forall (fun m => m ∈ ready_set r) (roster r).
Proof.
  unfold Room_ready_count, Room_len, len. rewrite <-length_map_to_list, Nat2Z.inj_iff.
  rewrite length_filter_all, !Forall_forall. split.
  - intros Hall m [x Hx]%elem_of_roster. apply elem_of_ready_set. exists x. split; [done|].
    apply (Hall (m, x)). by apply elem_of_map_to_list.
  - intros Hall [m x] Hx%elem_of_map_to_list. cbn.
    destruct (proj1 (elem_of_ready_set r m)) as (y & Hy & Hr); [|congruence].
    apply Hall, elem_of_roster. eauto.
Qed.

Lemma join_guard p b :
  bool_decide (p = Closed) || (bool_decide (p = Active) && negb b) =
  bool_decide (p = Closed \/ p = Active /\ b = false).
Proof. repeat case_bool_decide; destruct b; naive_solver. Qed.

Lemma abs_join r m d :
  room_wf r ->
  roster_exec r.(config) (abs r) (CJoin m d) =
    ((room_exec r (CJoin m d)).1, abs (room_exec r (CJoin m d)).2).
Proof.
  intros Hwf. cbn -[Room_join]. destruct (Room_join r m d) as [res r'] eqn:E.
  pose proof E as E'. unfold Room_join in E.
  rewrite contains_roster, <-roster_len in E.
  rewrite join_guard in E. case_bool_decide; [by simplify_eq|].
  destruct (bool_decide_reflect (m ∈ roster r)); [by simplify_eq|].
  destruct (Z.leb_spec (capacity (config r)) (len (roster r)));
    [rewrite bool_decide_true by done; by simplify_eq|rewrite bool_decide_false by lia].
  destruct res as [[]|]; [|done]. unfold reply_of; cbn. f_equal. unfold abs.
  rewrite (roster_join r m d r') by done.
  pose proof (join_ok _ _ _ _ E') as (Hm & _ & _ & Hmem & _ & -> & _ & ->). f_equal.
  apply set_eq. intros k. rewrite !elem_of_ready_set, Hmem.
  destruct (decide (k = m)) as [->|]; [rewrite lookup_insert_eq|by rewrite lookup_insert_ne].
  naive_solver.
Qed.

Lemma abs_leave r m :
  room_wf r ->
  roster_exec r.(config) (abs r) (CLeave m) =
    ((room_exec r (CLeave m)).1, abs (room_exec r (CLeave m)).2).
Proof.
  intros Hwf. cbn -[Room_leave]. destruct (Room_leave r m) as [[dep|e] r'] eqn:E.
  - pose proof (leave_ok _ _ _ _ E) as (x & Hx & Hmem & Hlead & _ & _ & Hph & ->).
    rewrite bool_decide_true by (apply elem_of_roster; eauto). unfold reply_of; cbn.
    rewrite <-(roster_leave r m _ r' Hwf E), <-Hlead.
    rewrite (bool_decide_ext (members r' = ∅) (roster r' = [])) by (by rewrite roster_nil).
    f_equal. unfold abs. f_equal; [|done].
    apply set_eq. intros k. rewrite elem_of_difference, !elem_of_ready_set, Hmem.
    setoid_rewrite lookup_delete_Some. set_solver.
  - pose proof (leave_err _ _ _ _ E) as [-> ->]. rewrite bool_decide_false; [done|].
    rewrite elem_of_roster. intros [x Hx]. unfold Room_leave in E. by rewrite Hx in E.
Qed.

Lemma abs_exec r c :
  room_wf r ->
  roster_exec r.(config) (abs r) c = ((room_exec r c).1, abs (room_exec r c).2).
Proof.
  intros Hwf. destruct c as [m d|m|m|m b|m f b| |]; [by apply abs_join|by apply abs_leave|..]; cbn.
  - unfold Room_transfer_leader. rewrite contains_roster. by case_bool_decide.
  - unfold Room_set_ready. case_bool_decide; [|done]. case_bool_decide as Hm; cbn.
    + apply elem_of_roster in Hm as [x Hx]. rewrite Hx. unfold reply_of; cbn.
      by rewrite (abs_touch r m x).
    + rewrite elem_of_roster, <-eq_None_not_Some in Hm. by rewrite Hm.
  - unfold Room_member_mut. case_bool_decide as Hm.
    + apply elem_of_roster in Hm as [x Hx]. rewrite Hx. by rewrite (abs_touch r m x).
    + rewrite elem_of_roster, <-eq_None_not_Some in Hm. by rewrite Hm.
  - unfold Room_start. case_bool_decide; [|done]. cbn. rewrite roster_len.
    case_bool_decide as Hn; destruct (Z.ltb_spec (Room_len r) (minimum_to_start (config r)));
      try lia; [done|].
    case_bool_decide as Hr; rewrite <-ready_count_all in Hr.
    + destruct Hr as [-> Hr]. apply Z.eqb_neq in Hr. by rewrite Hr.
    + destruct (require_all_ready _); cbn; [|done].
      destruct (Z.eqb_spec (Room_ready_count r) (Room_len r)); [done|]. tauto.
  - done.
Qed.

End room.
Arguments Room I M D {_ _}.
Arguments room_call M D : clear implicits.

(** ** Properties *)

(** C19: a room is the roster it promises.  On every call and every branch the room answers as the
    list of its members in join order does: a join appends and the first member leads, a departure
    removes the member and hands a vacated leadership to the earliest remaining member (whatever the
    iteration order of the hash map), readiness, start and close act on that list, and a failed call
    reports the same error and leaves it alone. *)
Theorem room_refines_roster {I M D} `{Countable M} (r : Room I M D) (c : room_call M D) :
  room_wf r ->
  roster_exec r.(config) (abs r) c = ((room_exec r c).1, abs (room_exec r c).2).
Proof. apply abs_exec. Qed.

Definition example_config : RoomConfig :=
  {| capacity := 3; minimum_to_start := 2; require_all_ready := true;
     allow_join_in_progress := false |}.

Definition example_empty_room : Room unit Z Z :=
  {| room_id := (); config := example_config; phase := Open; leader := None; members := ∅;
     next_join_order := 0 |}.

Definition example_room : Room unit Z Z :=
  room_run example_empty_room
    [CJoin 7 70; CJoin 5 50; CJoin 9 90; CReady 5 true; CReady 9 true].

Lemma example_room_wf : room_wf example_room.
Proof.
  apply room_run_wf; [|vm_compute; discriminate].
  apply (new_room_wf () example_config); [|reflexivity]. vm_compute. split; discriminate.
Qed.

Lemma room_refines_roster_witness :
  abs example_room =
    {| ros_order := [7; 5; 9]; ros_leader := Some 7; ros_ready := {[5; 9]}; ros_phase := Open |} /\
  (room_exec example_room (CLeave 7)).1 = Ok (RLeft (Some 5) false) /\
  roster_exec example_config (abs example_room) (CLeave 7 : room_call Z Z) =
    ((room_exec example_room (CLeave 7)).1, abs (room_exec example_room (CLeave 7)).2).
Proof.
  split; [vm_compute; reflexivity|]. split; [vm_compute; reflexivity|].
  exact (room_refines_roster example_room (CLeave 7) example_room_wf).
Defined.

(** Whatever is called on a new room, join orders stay unique, the leader is always a current
    member, a room without a leader is empty and the roster never exceeds the capacity.  The bound on
    the number of calls keeps the 128-bit join counter, which saturates, away from its maximum. *)
Theorem room_roster_invariant {I M D} `{Countable M} (i : I) (c : RoomConfig) (r0 : Room I M D)
    (cs : list (room_call M D)) :
  fits usize_max (capacity c) -> Room_new i c = Ok r0 -> len cs <= u128_max ->
  room_wf (room_run r0 cs).
Proof.
  intros Hfit Hnew Hlen. destruct (new_room_wf _ _ _ Hfit Hnew) as [Hwf Hn].
  apply room_run_wf; [done|lia].
Qed.

Lemma room_roster_invariant_witness :
  Room_new () example_config = Ok example_empty_room /\ room_wf example_room.
Proof.
  split; [reflexivity|]. apply (room_roster_invariant () example_config).
  - vm_compute. split; discriminate.
  - reflexivity.
  - vm_compute. discriminate.
Defined.

(** The start policy.  [start] succeeds exactly when [can_start] says so, which is when the room
    is open, has enough members and, if the configuration asks for it, all of them are ready; it then
    becomes active with the same members, and otherwise reports the first failing condition and
    changes nothing. *)
Theorem room_start_policy {I M D} `{Countable M} (r r' : Room I M D) (res : RoomResult unit) :
  Room_start r = (res, r') ->
  (res = Ok () <-> Room_can_start r = true) /\
  (Room_can_start r = true <->
    r.(phase) = Open /\ r.(config).(minimum_to_start) <= Room_len r /\
    (r.(config).(require_all_ready) = true ->
     forall m x, r.(members) !! m = Some x -> ready x = true)) /\
  match res with
  | Ok _ => r' = set_phase r Active
  | Err e => r' = r /\
      e = if negb (bool_decide (r.(phase) = Open)) then NotOpen
          else if Room_len r <? r.(config).(minimum_to_start) then
            NotEnoughMembers r.(config).(minimum_to_start) (Room_len r)
          else MembersNotReady
  end.
Proof.
  intros Hrun.
  assert (Hall : Room_ready_count r = Room_len r <->
    forall m x, r.(members) !! m = Some x -> ready x = true).
  { rewrite ready_count_all, Forall_forall. setoid_rewrite elem_of_roster.
    setoid_rewrite elem_of_ready_set. split; [|intros Hr m [x Hx]; eauto].
    intros Hr m x Hx. destruct (Hr m) as (y & Hy & Hry); [eauto|congruence]. }
  rewrite <-Hall. unfold Room_start in Hrun. unfold Room_can_start.
  rewrite !andb_true_iff, orb_true_iff, negb_true_iff, bool_decide_eq_true, Z.leb_le, Z.eqb_eq.
  destruct (bool_decide_reflect (phase r = Open)); cbn in *; [|simplify_eq; intuition done].
  destruct (Z.ltb_spec (Room_len r) (minimum_to_start (config r))); cbn in *.
  { simplify_eq. split_and!; try done; intuition (done || lia). }
  destruct (require_all_ready (config r)); cbn in *.
  - destruct (Z.eqb_spec (Room_ready_count r) (Room_len r)); simplify_eq/=; intuition done.
  - simplify_eq. intuition done.
Qed.

Lemma room_start_policy_witness :
  Room_can_start example_room = false /\
  Room_can_start (room_run example_room [CReady 7 true]) = true /\
  (Room_start (room_run example_room [CReady 7 true])).1 = Ok ().
Proof.
  split; [reflexivity|]. split; [reflexivity|].
  apply (room_start_policy (room_run example_room [CReady 7 true])
    (Room_start (room_run example_room [CReady 7 true])).2); reflexivity.
Defined.

Definition phase_rank (p : RoomPhase) : Z :=
  match p with Open => 0 | Active => 1 | Closed => 2 end.

Lemma room_exec_phase {I M D} `{Countable M} (r : Room I M D) (c : room_call M D) :
  phase_rank r.(phase) <= phase_rank (room_exec r c).2.(phase) /\
  (r.(phase) = Closed -> room_wf r ->
   sublist (Room_members_in_join_order (room_exec r c).2) (Room_members_in_join_order r)).
Proof.
  split.
  - destruct c; cbn; unfold Room_join, Room_leave, Room_transfer_leader, Room_set_ready,
      Room_member_mut, Room_start; repeat case_match; cbn; try lia; breflect;
      repeat match goal with E : phase _ = _ |- _ => rewrite E end; cbn; try lia.
    destruct (phase r); cbn; lia.
  - intros Hcl Hwf. pose proof (abs_exec r c Hwf) as Habs.
    apply (f_equal (fun p => ros_order p.2)) in Habs. cbn in Habs. rewrite <-Habs.
    destruct c; cbn; rewrite ?Hcl; repeat case_match; cbn; try done; breflect; try tauto.
    all: apply sublist_filter.
Qed.

(** The lifecycle only moves forward: no call takes a room back to an earlier phase, and a closed
    room stays closed and only loses members, in an unchanged order. *)
Theorem room_lifecycle_monotone {I M D} `{Countable M} (r : Room I M D)
    (cs : list (room_call M D)) :
  room_wf r -> next_join_order r + len cs <= u128_max ->
  phase_rank r.(phase) <= phase_rank (room_run r cs).(phase) /\
  (r.(phase) = Closed ->
   (room_run r cs).(phase) = Closed /\
   sublist (Room_members_in_join_order (room_run r cs)) (Room_members_in_join_order r)).
Proof.
  revert r. induction cs as [|c cs IH]; intros r Hwf Hle; [done|].
  rewrite len_cons in Hle. pose proof (len_nonneg cs).
  destruct (room_exec_wf r c Hwf) as (Hwf' & Hnx & _); [lia|].
  destruct (room_exec_phase r c) as [Hrank Hsub].
  destruct (IH (room_exec r c).2 Hwf') as [IH1 IH2]; [lia|].
  change (room_run r (c :: cs)) with (room_run (room_exec r c).2 cs). split; [lia|].
  intros Hcl. destruct IH2 as [Hcl' Hsub'].
  { rewrite Hcl in Hrank. by destruct (phase (room_exec r c).2). }
  split; [done|]. etrans; [exact Hsub'|auto].
Qed.

Lemma room_lifecycle_monotone_witness :
  (room_run (room_run example_room [CClose]) [CJoin 1 1; CStart; CLeave 5]).(phase) = Closed.
Proof.
  apply (room_lifecycle_monotone (room_run example_room [CClose])).
  - exact (proj1 (room_exec_wf example_room CClose example_room_wf eq_refl)).
  - vm_compute. discriminate.
  - reflexivity.
Defined.
