(* ===== verification/Simulation.v ===== *)
(** * Fixed-step clock: [crates/elura-simulation/src/lib.rs]

    Durations are integer nanoseconds up to [duration_max], with the saturating arithmetic of the
    source.  The callback of [advance] is a function on the application's own state, so that what a
    failed step leaves behind is visible. *)

From S2P Require Import Prelude Float64.

(** [Duration::MAX] in nanoseconds. *)
Definition duration_max : Z := u64_max * 1000000000 + 999999999.

Inductive SimulationError : Type :=
| InvalidConfig (message : string).

Definition SimulationResult (T : Type) : Type := result SimulationError T.

Record SimulationConfig : Type := {
  step : Z;
  max_steps_per_update : Z;
  max_accumulated_time : Z;
}.

Definition SimulationConfig_default : SimulationConfig :=
  {| step := 50000000; max_steps_per_update := 4; max_accumulated_time := 500000000 |}.

Definition SimulationConfig_validate (c : SimulationConfig) : SimulationResult unit :=
  if c.(step) =? 0 then Err (InvalidConfig "step must be positive")
  else if c.(max_steps_per_update) =? 0 then
    Err (InvalidConfig "max_steps_per_update must be positive")
  else if c.(max_accumulated_time) <? c.(step) then
    Err (InvalidConfig "max_accumulated_time must be at least one step")
  else Ok ().

Record SimulationStep : Type := {
  ss_tick : Z;
  delta : Z;
  ss_simulation_time : Z;
}.

Record SimulationReport : Type := {
  steps : Z;
  sr_tick : Z;
  sr_simulation_time : Z;
  backlog : Z;
  backlog_steps : Z;
  interpolation : f64;
  dropped_time : Z;
  sr_total_dropped_time : Z;
}.

Record FixedStepClock : Type := {
  config : SimulationConfig;
  accumulator : Z;
  simulation_time : Z;
  tick : Z;
  total_dropped_time : Z;
}.

Definition FixedStepClock_new (config : SimulationConfig) : SimulationResult FixedStepClock :=
  let? _ := SimulationConfig_validate config in
  Ok {| config := config; accumulator := 0; simulation_time := 0; tick := 0;
        total_dropped_time := 0 |}.

Definition whole_steps (duration step : Z) : Z := duration / step.

Definition duration_ratio (duration step : Z) : f64 :=
  f64_div (as_secs_f64 duration) (as_secs_f64 step).

Definition FixedStepClock_report (self : FixedStepClock) (steps dropped_time : Z) :
    SimulationReport :=
  let backlog_steps := whole_steps self.(accumulator) self.(config).(step) in
  let interpolation :=
    if 0 <? backlog_steps then f64_one
    else duration_ratio self.(accumulator) self.(config).(step) in
  {| steps := steps; sr_tick := self.(tick); sr_simulation_time := self.(simulation_time);
     backlog := self.(accumulator); backlog_steps := backlog_steps;
     interpolation := interpolation; dropped_time := dropped_time;
     sr_total_dropped_time := self.(total_dropped_time) |}.

Section advance.
Context {E S : Type} (callback : S -> SimulationStep -> result E unit * S).

(** The step the next iteration offers to the callback. *)
Definition next_step (self : FixedStepClock) : SimulationStep :=
  {| ss_tick := saturating_add u128_max self.(tick) 1;
     delta := self.(config).(step);
     ss_simulation_time := saturating_add duration_max self.(simulation_time) self.(config).(step) |}.

(** What an iteration commits once the callback has succeeded. *)
Definition commit_step (self : FixedStepClock) : FixedStepClock :=
  {| config := self.(config);
     accumulator := saturating_sub self.(accumulator) self.(config).(step);
     simulation_time := (next_step self).(ss_simulation_time);
     tick := (next_step self).(ss_tick);
     total_dropped_time := self.(total_dropped_time) |}.

(** The loop [for _ in 0..scheduled]. *)
Fixpoint advance_loop (scheduled : nat) (self : FixedStepClock) (app : S) (committed : Z) :
    result E Z * FixedStepClock * S :=
  match scheduled with
  | O => (Ok committed, self, app)
  | Datatypes.S n =>
      match callback app (next_step self) with
      | (Err e, app) => (Err e, self, app)
      | (Ok _, app) => advance_loop n (commit_step self) app (committed + 1)
      end
  end.

(** What [advance] does before the loop: add the elapsed time and drop the excess. *)
Definition accumulate (self : FixedStepClock) (elapsed : Z) : Z * FixedStepClock :=
  let accumulated := saturating_add duration_max self.(accumulator) elapsed in
  let dropped_time := saturating_sub accumulated self.(config).(max_accumulated_time) in
  (dropped_time,
   {| config := self.(config);
      accumulator := Z.min accumulated self.(config).(max_accumulated_time);
      simulation_time := self.(simulation_time);
      tick := self.(tick);
      total_dropped_time :=
        saturating_add duration_max self.(total_dropped_time) dropped_time |}).

Definition scheduled_steps (self : FixedStepClock) : Z :=
  Z.min (whole_steps self.(accumulator) self.(config).(step))
    self.(config).(max_steps_per_update).

Definition FixedStepClock_advance (self : FixedStepClock) (elapsed : Z) (app : S) :
    result E SimulationReport * FixedStepClock * S :=
  let '(dropped_time, self) := accumulate self elapsed in
  match advance_loop (Z.to_nat (scheduled_steps self)) self app 0 with
  | (Err e, self, app) => (Err e, self, app)
  | (Ok committed, self, app) => (Ok (FixedStepClock_report self committed dropped_time), self, app)
  end.

End advance.

(** The trait [FixedStepSimulation] and [advance_simulation]. *)
Class FixedStepSimulation (S E : Type) := simulation_step : S -> SimulationStep -> result E unit * S.

Definition FixedStepClock_advance_simulation {S E} `{!FixedStepSimulation S E}
    (self : FixedStepClock) (elapsed : Z) (simulation : S) :
    result E SimulationReport * FixedStepClock * S :=
  FixedStepClock_advance simulation_step self elapsed simulation.

Definition FixedStepClock_reset (self : FixedStepClock) : FixedStepClock :=
  {| config := self.(config); accumulator := 0; simulation_time := 0; tick := 0;
     total_dropped_time := 0 |}.

(** ** Invariant *)

Definition config_ok (c : SimulationConfig) : Prop :=
  0 < c.(step) /\ 0 < c.(max_steps_per_update) <= u32_max /\
  c.(step) <= c.(max_accumulated_time) <= duration_max.

(** A clock that has been given [total] nanoseconds since it was created or reset.  Every nanosecond
    is simulated, waiting or dropped. *)
Record clock_wf (total : Z) (c : FixedStepClock) : Prop := {
  cwf_config : config_ok c.(config);
  cwf_conserved : c.(simulation_time) + c.(accumulator) + c.(total_dropped_time) = total;
  cwf_time : c.(simulation_time) = c.(tick) * c.(config).(step);
  cwf_tick : 0 <= c.(tick);
  cwf_backlog : 0 <= c.(accumulator) <= c.(config).(max_accumulated_time);
  cwf_dropped : 0 <= c.(total_dropped_time);
  cwf_total : total <= duration_max;
}.

Lemma new_clock_wf cfg c :
  fits duration_max cfg.(step) -> fits u32_max cfg.(max_steps_per_update) ->
  fits duration_max cfg.(max_accumulated_time) ->
  FixedStepClock_new cfg = Ok c -> clock_wf 0 c.
Proof.
  unfold fits, FixedStepClock_new, SimulationConfig_validate. intros H1 H2 H3 Hnew.
  repeat (case_match; simplify_eq/=). breflect.
  constructor; cbn; unfold config_ok; unfold duration_max in *; lia.
Qed.

(** The clock after [k] committed steps. *)
Definition clock_after (c : FixedStepClock) (k : Z) : FixedStepClock :=
  {| config := c.(config);
     accumulator := c.(accumulator) - k * c.(config).(step);
     simulation_time := c.(simulation_time) + k * c.(config).(step);
     tick := c.(tick) + k;
     total_dropped_time := c.(total_dropped_time) |}.

Definition step_at (c : FixedStepClock) (k : Z) : SimulationStep :=
  {| ss_tick := c.(tick) + k;
     delta := c.(config).(step);
     ss_simulation_time := c.(simulation_time) + k * c.(config).(step) |}.

Lemma clock_tick_bound total c : clock_wf total c -> tick c <= total.
Proof. intros [(Hs & _) Hcons Htime Htick Hb Hd Ht]. nia. Qed.

Lemma commit_step_ok total c :
  clock_wf total c -> c.(config).(step) <= c.(accumulator) ->
  next_step c = step_at c 1 /\ commit_step c = clock_after c 1 /\ clock_wf total (clock_after c 1).
Proof.
  intros Hwf Hstep. pose proof (clock_tick_bound _ _ Hwf) as Htb.
  destruct Hwf as [(Hs & Hm & Hx) Hcons Htime Htick Hb Hd Ht].
  assert (Htick1 : saturating_add u128_max (tick c) 1 = tick c + 1).
  { unfold duration_max in *. width. }
  assert (Htime1 : saturating_add duration_max (simulation_time c) (step (config c)) =
    simulation_time c + step (config c)) by width.
  assert (Hnext : next_step c = step_at c 1).
  { unfold next_step, step_at. by rewrite Htick1, Htime1, Z.mul_1_l. }
  split; [done|]. split.
  - unfold commit_step. rewrite Hnext. unfold clock_after, step_at. cbn. f_equal. width.
  - constructor; cbn; try done; nia.
Qed.

Section run.
Context {E S : Type} (callback : S -> SimulationStep -> result E unit * S).

(** The steps [l] offered in order until one fails: the failure if any, the number of steps that
    succeeded, and the application's state. *)
Fixpoint run_steps (app : S) (l : list SimulationStep) : option E * Z * S :=
  match l with
  | [] => (None, 0, app)
  | s :: l =>
      match callback app s with
      | (Err e, app) => (Some e, 0, app)
      | (Ok _, app) => let '(r, k, app) := run_steps app l in (r, k + 1, app)
      end
  end.

Lemma run_steps_count l : forall app r k app',
  run_steps app l = (r, k, app') ->
  0 <= k <= len l /\ (r = None <-> k = len l).
Proof.
  induction l as [|s l IH]; intros app r k app' Hrun; cbn in Hrun.
  - simplify_eq. unfold len; cbn. split; [lia|done].
  - rewrite len_cons. pose proof (len_nonneg l). destruct (callback app s) as [[[]|e] app1].
    + destruct (run_steps app1 l) as [[r1 k1] app2] eqn:E1. simplify_eq.
      apply IH in E1 as [Hb Hiff].
      split; [lia|]. split; [intros Hr%Hiff; lia|intros; apply Hiff; lia].
    + simplify_eq. split; [lia|]. split; [done|lia].
Qed.

Lemma run_steps_app l1 l2 : forall app,
  run_steps app (l1 ++ l2) =
  let '(r, k, app1) := run_steps app l1 in
  match r with
  | Some e => (Some e, k, app1)
  | None => let '(r2, k2, app2) := run_steps app1 l2 in (r2, k + k2, app2)
  end.
Proof.
  induction l1 as [|s l1 IH]; intros app; cbn.
  - by destruct (run_steps app l2) as [[??]?].
  - destruct (callback app s) as [[[]|e] app1]; [|done]. rewrite IH.
    destruct (run_steps app1 l1) as [[[e|] k] app2]; [done|].
    destruct (run_steps app2 l2) as [[r2 k2] app3]. f_equal. f_equal. lia.
Qed.

Lemma step_at_after c j k : step_at (clock_after c j) k = step_at c (j + k).
Proof. unfold step_at, clock_after; cbn. f_equal; lia. Qed.

Lemma clock_after_after c j k : clock_after (clock_after c j) k = clock_after c (j + k).
Proof. unfold clock_after; cbn. f_equal; lia. Qed.

Lemma clock_after_0 c : clock_after c 0 = c.
Proof. destruct c. unfold clock_after; cbn. f_equal; lia. Qed.

Lemma clock_after_wf total c k :
  clock_wf total c -> 0 <= k -> k * c.(config).(step) <= c.(accumulator) ->
  clock_wf total (clock_after c k).
Proof. intros [(Hs & Hm & Hx) Hcons Htime Htick Hb Hd Ht] Hk Hle. constructor; cbn; try done; nia. Qed.

(** The steps numbered from the clock's next tick on. *)
Definition steps_from (c : FixedStepClock) (n : Z) : list SimulationStep :=
  step_at c <$> seqZ 1 n.

Lemma len_steps_from c n : 0 <= n -> len (steps_from c n) = n.
Proof. intros. unfold steps_from, len. rewrite length_fmap, length_seqZ. lia. Qed.

Lemma steps_from_cons c n :
  0 <= n -> steps_from c (n + 1) = step_at c 1 :: steps_from (clock_after c 1) n.
Proof.
  intros Hn. unfold steps_from. rewrite (seqZ_cons 1 (n + 1)) by lia. cbn. f_equal.
  replace (Z.pred (n + 1)) with n by lia. change (Z.succ 1) with (1 + 1).
  rewrite <-(fmap_add_seqZ 1 1 n), <-list_fmap_compose.
  apply list_fmap_ext. intros i k _. cbn. by rewrite step_at_after.
Qed.

Lemma steps_from_add c j k :
  0 <= j -> 0 <= k -> steps_from c (j + k) = steps_from c j ++ steps_from (clock_after c j) k.
Proof.
  intros Hj Hk. unfold steps_from. rewrite seqZ_app by lia. rewrite fmap_app. f_equal.
  replace (1 + j) with (j + 1) by lia. rewrite <-(fmap_add_seqZ j 1 k), <-list_fmap_compose.
  apply list_fmap_ext. intros i x _. cbn. by rewrite step_at_after.
Qed.

Lemma advance_loop_run total n : forall c app committed,
  clock_wf total c -> Z.of_nat n * c.(config).(step) <= c.(accumulator) ->
  advance_loop callback n c app committed =
  let '(r, k, app') := run_steps app (steps_from c (Z.of_nat n)) in
  (match r with None => Ok (committed + k) | Some e => Err e end, clock_after c k, app').
Proof.
  induction n as [|n IH]; intros c app committed Hwf Hle; cbn [advance_loop].
  - change (run_steps app (steps_from c (Z.of_nat 0))) with (@None E, 0, app). cbv beta iota.
    by rewrite Z.add_0_r, clock_after_0.
  - destruct (cwf_config _ _ Hwf) as [Hs _].
    destruct (commit_step_ok total c Hwf) as (Hnext & Hcommit & Hwf'); [nia|].
    rewrite Nat2Z.inj_succ, <-Z.add_1_r, steps_from_cons by lia. cbn [run_steps].
    rewrite Hnext. destruct (callback app (step_at c 1)) as [[[]|e] app1].
    + rewrite Hcommit, IH; [|done|cbn; lia].
      destruct (run_steps app1 _) as [[r k] app2]. rewrite clock_after_after.
      replace (1 + k) with (k + 1) by lia. replace (committed + 1 + k) with (committed + (k + 1)) by lia.
      done.
    + by rewrite clock_after_0.
Qed.

Lemma accumulate_ok total c elapsed :
  clock_wf total c -> 0 <= elapsed -> total + elapsed <= duration_max ->
  accumulate c elapsed =
    (Z.max (c.(accumulator) + elapsed - c.(config).(max_accumulated_time)) 0,
     {| config := c.(config);
        accumulator := Z.min (c.(accumulator) + elapsed) c.(config).(max_accumulated_time);
        simulation_time := c.(simulation_time);
        tick := c.(tick);
        total_dropped_time := c.(total_dropped_time)
          + Z.max (c.(accumulator) + elapsed - c.(config).(max_accumulated_time)) 0 |}) /\
  clock_wf (total + elapsed) (accumulate c elapsed).2.
Proof.
  intros [(Hs & Hm & Hx) Hcons Htime Htick Hb Hd Ht] He Htot.
  assert (Hsim : 0 <= simulation_time c) by nia.
  assert (Hacc : saturating_add duration_max (accumulator c) elapsed = accumulator c + elapsed) by width.
  unfold accumulate. rewrite Hacc. unfold saturating_sub. split.
  - f_equal. f_equal. width.
  - unfold saturating_add. constructor; cbn; try done; lia.
Qed.

Lemma scheduled_steps_fit total c :
  clock_wf total c ->
  0 <= scheduled_steps c /\ scheduled_steps c * c.(config).(step) <= c.(accumulator).
Proof.
  intros [(Hs & Hm & Hx) Hcons Htime Htick Hb Hd Ht]. unfold scheduled_steps, whole_steps.
  pose proof (Z.mul_div_le (accumulator c) (step (config c)) Hs).
  pose proof (Z.div_pos (accumulator c) (step (config c))). nia.
Qed.

Lemma advance_run total c elapsed app :
  clock_wf total c -> 0 <= elapsed -> total + elapsed <= duration_max ->
  let c1 := (accumulate c elapsed).2 in
  let '(r, k, app') := run_steps app (steps_from c1 (scheduled_steps c1)) in
  FixedStepClock_advance callback c elapsed app =
    (match r with
     | None => Ok (FixedStepClock_report (clock_after c1 k) k (accumulate c elapsed).1)
     | Some e => Err e
     end, clock_after c1 k, app') /\
  clock_wf (total + elapsed) (clock_after c1 k) /\
  0 <= k <= scheduled_steps c1 /\ (r = None <-> k = scheduled_steps c1).
Proof.
  intros Hwf He Htot. destruct (accumulate_ok total c elapsed Hwf He Htot) as [_ Hwf1].
  unfold FixedStepClock_advance. destruct (accumulate c elapsed) as [dropped c1] eqn:Eacc.
  cbn [fst snd] in *. destruct (scheduled_steps_fit _ _ Hwf1) as [Hn Hfit].
  rewrite (advance_loop_run (total + elapsed)), Z2Nat.id by (try done; rewrite ?Z2Nat.id; lia).
  destruct (run_steps app _) as [[r k] app'] eqn:Erun. apply run_steps_count in Erun as [Hk Hiff].
  rewrite len_steps_from in Hk, Hiff by done. destruct (cwf_config _ _ Hwf1) as [Hs _].
  split; [by destruct r; rewrite ?Z.add_0_l|]. split; [|done].
  apply clock_after_wf; [done|lia|nia].
Qed.

(** A sequence of updates. *)
Definition advance_all (c : FixedStepClock) (app : S) (l : list Z) : FixedStepClock * S :=
  foldl (fun '(c, app) elapsed =>
    let '(_, c, app) := FixedStepClock_advance callback c elapsed app in (c, app)) (c, app) l.
End run.

Definition total_elapsed (l : list Z) : Z := foldr Z.add 0 l.

Lemma total_elapsed_nonneg l : Forall (fun e => 0 <= e) l -> 0 <= total_elapsed l.
Proof. unfold total_elapsed. induction 1; cbn; lia. Qed.

Lemma advance_all_wf {E S} (callback : S -> SimulationStep -> result E unit * S) l :
  Forall (fun e => 0 <= e) l -> forall total c app,
  clock_wf total c -> total + total_elapsed l <= duration_max ->
  clock_wf (total + total_elapsed l) (advance_all callback c app l).1.
Proof.
  unfold total_elapsed.
  induction 1 as [|e l He Hl IH]; intros total c app Hwf Htot; cbn in *.
  - by rewrite Z.add_0_r.
  - pose proof (total_elapsed_nonneg l Hl) as Hnn. unfold total_elapsed in Hnn.
    pose proof (advance_run callback total c e app Hwf He ltac:(lia)) as Hrun. cbn in Hrun.
    unfold advance_all. cbn [foldl].
    destruct (run_steps callback app _) as [[r k] app']. destruct Hrun as (-> & Hwf' & _).
    rewrite Z.add_assoc. apply IH; [done|lia].
Qed.

(** *** Updates without drops *)

Definition bump (c : FixedStepClock) (elapsed : Z) : FixedStepClock :=
  {| config := c.(config); accumulator := c.(accumulator) + elapsed;
     simulation_time := c.(simulation_time); tick := c.(tick);
     total_dropped_time := c.(total_dropped_time) |}.

Section no_drop.
Context {E S : Type} (callback : S -> SimulationStep -> result E unit * S).
Context (callback_ok : forall a s, exists a', callback a s = (Ok (), a')).

Lemma run_steps_ok l : forall app, exists app', run_steps callback app l = (None, len l, app').
Proof.
  induction l as [|s l IH]; intros app; [by eexists|].
  destruct (callback_ok app s) as [app1 Hok]. destruct (IH app1) as [app2 IH1].
  exists app2. cbn. rewrite Hok, IH1, len_cons. done.
Qed.

Lemma advance_no_drop total c e app :
  clock_wf total c -> 0 <= e -> total + e <= duration_max ->
  c.(accumulator) + e <= c.(config).(max_accumulated_time) ->
  let n := (c.(accumulator) + e) / c.(config).(step) in
  n <= c.(config).(max_steps_per_update) ->
  exists report app',
    run_steps callback app (steps_from (bump c e) n) = (None, n, app') /\
    FixedStepClock_advance callback c e app = (Ok report, clock_after (bump c e) n, app') /\
    clock_wf (total + e) (clock_after (bump c e) n) /\ 0 <= n.
Proof.
  intros Hwf He Htot Hmax n Hn.
  pose proof (advance_run callback total c e app Hwf He Htot) as Hrun. cbv zeta in Hrun.
  destruct (accumulate_ok total c e Hwf He Htot) as [Hacc _]. rewrite Hacc in Hrun.
  cbn [fst snd] in Hrun. rewrite Z.min_l in Hrun by lia.
  replace (Z.max _ 0) with 0 in Hrun by lia. rewrite Z.add_0_r in Hrun. fold (bump c e) in Hrun.
  assert (Hsched : scheduled_steps (bump c e) = n).
  { unfold scheduled_steps, whole_steps. cbn. fold n. lia. }
  rewrite Hsched in Hrun. destruct (cwf_config _ _ Hwf) as (Hs & _).
  assert (Hn0 : 0 <= n) by (apply Z.div_pos; [destruct (cwf_backlog _ _ Hwf)|]; lia).
  destruct (run_steps_ok (steps_from (bump c e) n) app) as [app' Happ].
  rewrite len_steps_from in Happ by done. rewrite Happ in Hrun.
  destruct Hrun as (Hadv & Hwf' & _). eauto 10.
Qed.
End no_drop.

(** ** Properties *)

(** What one update does.  The elapsed time enters the backlog up to the configured maximum, the
    rest is dropped; the steps numbered from the next tick are then offered in order, as many as fit
    in the backlog and in the per-update limit, until one fails.  Exactly the steps that succeeded are
    committed: the failing one consumes no time, and the update reports its error.  A complete update
    leaves less than one step of backlog unless it ran the maximum number of steps. *)
Theorem clock_update_commits_successful_steps {E S}
    (callback : S -> SimulationStep -> result E unit * S) (total elapsed : Z) (c : FixedStepClock)
    (app : S) :
  clock_wf total c -> 0 <= elapsed -> total + elapsed <= duration_max ->
  let excess := Z.max (c.(accumulator) + elapsed - c.(config).(max_accumulated_time)) 0 in
  let c1 := {| config := c.(config); accumulator := c.(accumulator) + elapsed - excess;
               simulation_time := c.(simulation_time); tick := c.(tick);
               total_dropped_time := c.(total_dropped_time) + excess |} in
  let n := Z.min (c1.(accumulator) / c.(config).(step)) c.(config).(max_steps_per_update) in
  let '(failure, k, app') := run_steps callback app (steps_from c1 n) in
  exists res,
    FixedStepClock_advance callback c elapsed app = (res, clock_after c1 k, app') /\
    match failure with
    | Some e => res = Err e /\ 0 <= k < n
    | None => k = n /\ exists report, res = Ok report /\ report.(steps) = n /\
        report.(sr_tick) = c.(tick) + n /\ report.(dropped_time) = excess /\
        report.(backlog) = c1.(accumulator) - n * c.(config).(step) /\
        (report.(backlog) < c.(config).(step) \/ n = c.(config).(max_steps_per_update))
    end.
Proof.
  intros Hwf He Htot excess c1 n.
  pose proof (advance_run callback total c elapsed app Hwf He Htot) as Hrun. cbv zeta in Hrun.
  destruct (accumulate_ok total c elapsed Hwf He Htot) as [Hacc _]. rewrite Hacc in Hrun.
  cbn [fst snd] in Hrun.
  replace (Z.min (accumulator c + elapsed) (max_accumulated_time (config c)))
    with (accumulator c + elapsed - excess) in Hrun by lia.
  fold excess in Hrun. fold c1 in Hrun. change (scheduled_steps c1) with n in Hrun.
  destruct (run_steps callback app (steps_from c1 n)) as [[r k] app'].
  destruct Hrun as (-> & _ & Hk & Hiff). eexists. split; [reflexivity|].
  destruct r as [e|].
  - split; [done|]. destruct (decide (k = n)) as [Heq|]; [|lia]. by apply Hiff in Heq.
  - assert (k = n) as -> by (by apply Hiff). split; [done|]. eexists. split; [reflexivity|].
    cbn. split_and!; try done.
    assert (Hn : n = Z.min (accumulator c1 / step (config c)) (max_steps_per_update (config c)))
      by done. clearbody n. cbn in *. destruct (cwf_config _ _ Hwf) as (Hs & _).
    pose proof (Z.div_mod (accumulator c + elapsed - excess) (step (config c)) ltac:(lia)).
    pose proof (Z.mod_pos_bound (accumulator c + elapsed - excess) (step (config c)) Hs). nia.
Qed.

Definition example_clock : FixedStepClock :=
  {| config := {| step := 10; max_steps_per_update := 3; max_accumulated_time := 100 |};
     accumulator := 4; simulation_time := 20; tick := 2; total_dropped_time := 1 |}.

Lemma example_clock_wf : clock_wf 25 example_clock.
Proof. constructor; cbn; unfold config_ok, u32_max, duration_max, u64_max; cbn; lia. Qed.

(** An application that counts the steps and refuses the fourth tick. *)
Definition example_callback (app : Z) (s : SimulationStep) : result string unit * Z :=
  if s.(ss_tick) =? 4 then (Err "refused"%string, app + 100) else (Ok (), app + 1).

Lemma clock_update_commits_successful_steps_witness :
  exists res, FixedStepClock_advance example_callback example_clock 30 0 =
    (res, clock_after {| config := example_clock.(config); accumulator := 34;
                         simulation_time := 20; tick := 2; total_dropped_time := 1 |} 1, 101) /\
    res = Err "refused"%string.
Proof.
  destruct (clock_update_commits_successful_steps example_callback 25 30 example_clock 0
    example_clock_wf ltac:(lia) ltac:(vm_compute; discriminate)) as (res & Hrun & Hres & _).
  exists res. split; [exact Hrun|exact Hres].
Defined.

(** C29: time is conserved.  Over any sequence of updates, with any application, the time given to a
    new clock is exactly its simulated time, its backlog and the time it dropped; the simulated time
    is the tick count times the step, and the backlog stays within its limit. *)
Theorem clock_conserves_time {E S} (callback : S -> SimulationStep -> result E unit * S)
    (cfg : SimulationConfig) (c0 : FixedStepClock) (app : S) (l : list Z) :
  fits duration_max cfg.(step) -> fits u32_max cfg.(max_steps_per_update) ->
  fits duration_max cfg.(max_accumulated_time) -> FixedStepClock_new cfg = Ok c0 ->
  Forall (fun e => 0 <= e) l -> total_elapsed l <= duration_max ->
  let c := (advance_all callback c0 app l).1 in
  c.(simulation_time) + c.(accumulator) + c.(total_dropped_time) = total_elapsed l /\
  c.(simulation_time) = c.(tick) * c.(config).(step) /\
  0 <= c.(accumulator) <= c.(config).(max_accumulated_time).
Proof.
  intros H1 H2 H3 Hnew Hl Htot c. pose proof (new_clock_wf _ _ H1 H2 H3 Hnew) as Hwf.
  apply (advance_all_wf callback l Hl 0 c0 app Hwf) in Htot as [_ Hcons Htime _ Hb _ _].
  rewrite Z.add_0_l in Hcons. done.
Qed.

Lemma clock_conserves_time_witness :
  (advance_all example_callback
     {| config := SimulationConfig_default; accumulator := 0; simulation_time := 0; tick := 0;
        total_dropped_time := 0 |} 0 [60000000; 700000000]).1.(total_dropped_time) = 210000000 /\
  let c := (advance_all example_callback
     {| config := SimulationConfig_default; accumulator := 0; simulation_time := 0; tick := 0;
        total_dropped_time := 0 |} 0 [60000000; 700000000]).1 in
  c.(simulation_time) + c.(accumulator) + c.(total_dropped_time) = 760000000.
Proof.
  split; [reflexivity|].
  apply (clock_conserves_time example_callback SimulationConfig_default).
  1-3: vm_compute; split; discriminate.
  - reflexivity.
  - repeat constructor; lia.
  - vm_compute. discriminate.
Defined.

(** The simulation does not depend on how wall time is cut into updates.  While nothing is dropped
    and the step limit is not reached, two updates leave the clock and the application as one update
    with the sum of their times does. *)
Theorem clock_slicing_irrelevant {E S} (callback : S -> SimulationStep -> result E unit * S)
    (total e1 e2 : Z) (c : FixedStepClock) (app : S) :
  clock_wf total c -> 0 <= e1 -> 0 <= e2 -> total + e1 + e2 <= duration_max ->
  c.(accumulator) + e1 + e2 <= c.(config).(max_accumulated_time) ->
  (c.(accumulator) + e1 + e2) / c.(config).(step) <= c.(config).(max_steps_per_update) ->
  (forall a s, exists a', callback a s = (Ok (), a')) ->
  advance_all callback c app [e1; e2] = advance_all callback c app [e1 + e2].
Proof.
  intros Hwf H1 H2 Htot Hmax Hlim Hok. destruct (cwf_config _ _ Hwf) as (Hs & _).
  destruct (cwf_backlog _ _ Hwf) as [Hb _].
  assert (Hmono : (c.(accumulator) + e1) / c.(config).(step) <=
    (c.(accumulator) + e1 + e2) / c.(config).(step)) by (apply Z.div_le_mono; lia).
  destruct (advance_no_drop callback Hok total c e1 app Hwf H1) as (rep1 & app1 & Hr1 & Ha1 & Hw1 & Hn1);
    [lia..|].
  set (n1 := (accumulator c + e1) / step (config c)) in *.
  assert (Hn2 : (accumulator c + e1 - n1 * step (config c) + e2) / step (config c) =
    (accumulator c + e1 + e2) / step (config c) - n1).
  { replace (accumulator c + e1 - n1 * step (config c) + e2)
      with (accumulator c + e1 + e2 + (- n1) * step (config c)) by lia.
    rewrite Z.div_add by lia. lia. }
  assert (Hle : n1 * step (config c) <= accumulator c + e1).
  { unfold n1. rewrite Z.mul_comm. apply Z.mul_div_le. lia. }
  destruct (advance_no_drop callback Hok _ _ e2 app1 Hw1 H2) as (rep2 & app2 & Hr2 & Ha2 & Hw2 & Hn2');
    [lia|cbn in *; nia|cbn in *; lia|].
  destruct (advance_no_drop callback Hok total c (e1 + e2) app Hwf) as (rep & app3 & Hr & Ha & _ & Hn);
    [lia..|rewrite Z.add_assoc; lia|].
  rewrite Z.add_assoc in Hr, Ha, Hn. 
  change (accumulator (clock_after (bump c e1) n1)) with (accumulator c + e1 - n1 * step (config c)) in *.
  change (config (clock_after (bump c e1) n1)) with (config c) in *. rewrite Hn2 in Hr2, Ha2, Hn2'.
  unfold advance_all. cbn [foldl]. rewrite Ha1, Ha2, Ha.
  set (n := (accumulator c + e1 + e2) / step (config c)) in *.
  assert (Hbump : bump (clock_after (bump c e1) n1) e2 = clock_after (bump c (e1 + e2)) n1).
  { unfold bump, clock_after; cbn. f_equal; lia. }
  rewrite Hbump in *. rewrite clock_after_after. replace (n1 + (n - n1)) with n by lia. f_equal.
  replace n with (n1 + (n - n1)) in Hr by lia. rewrite steps_from_add, run_steps_app in Hr by lia.
  change (steps_from (bump c (e1 + e2)) n1) with (steps_from (bump c e1) n1) in Hr.
  rewrite Hr1, Hr2 in Hr. by simplify_eq.
Qed.

Lemma clock_slicing_irrelevant_witness :
  advance_all (fun a s => (Ok () : result string unit, a + s.(ss_tick))) example_clock 0 [8; 13] =
  advance_all (fun a s => (Ok () : result string unit, a + s.(ss_tick))) example_clock 0 [8 + 13].
Proof.
  apply (clock_slicing_irrelevant _ 25 8 13 example_clock 0 example_clock_wf);
    [lia|lia|vm_compute; discriminate..|]. intros a s. by eexists.
Defined.
