(* ===== verification/LagCompensation.v ===== *)
(** * Lag compensation: [crates/elura-lag-compensation/src/lib.rs]

    The bounded ring of authoritative states, indexed by tick, and the validated rewind queries on
    it.  The states are the application's own. *)

From S2P Require Import Prelude.

Inductive LagCompensationError : Type :=
| InvalidConfig (message : string)
| InvalidTickOrder
| HistoryEmpty
| FutureTick
| RewindLimitExceeded
| StateUnavailable.

Definition LagCompensationResult (T : Type) : Type := result LagCompensationError T.

Record LagCompensationConfig : Type := {
  history_capacity : Z;
  max_rewind_ticks : Z;
}.

Definition LagCompensationConfig_default : LagCompensationConfig :=
  {| history_capacity := 64; max_rewind_ticks := 30 |}.

(** [u64::try_from] of a [usize] cannot fail, so the [map_or] default is never taken. *)
Definition LagCompensationConfig_validate (c : LagCompensationConfig) : LagCompensationResult unit :=
  if (c.(history_capacity) =? 0) || (c.(max_rewind_ticks) =? 0) then
    Err (InvalidConfig "history capacity and rewind window must be positive")
  else
    let required := saturating_add u64_max c.(max_rewind_ticks) 1 in
    if c.(history_capacity) <? required then
      Err (InvalidConfig "history capacity must include the current Tick and full rewind window")
    else Ok ().

Record RewindContext : Type := {
  target_tick : Z;
  current_tick : Z;
  rewind_ticks : Z;
}.

Record RewindSample (S : Type) : Type := {
  context : RewindContext;
  state : S;
}.
Arguments context {S} _.
Arguments state {S} _.

Record LagCompensationStats : Type := {
  states_recorded : Z;
  queries_completed : Z;
  queries_rejected : Z;
}.

Definition LagCompensationStats_default : LagCompensationStats :=
  {| states_recorded := 0; queries_completed := 0; queries_rejected := 0 |}.

Record LagCompensationHistory (S : Type) : Type := {
  config : LagCompensationConfig;
  states : list (Z * S);
  stats : LagCompensationStats;
}.
Arguments config {S} _.
Arguments states {S} _.
Arguments stats {S} _.

Section history.
Context {S : Type}.
Implicit Types (self h : LagCompensationHistory S).

Definition LagCompensationHistory_new (config : LagCompensationConfig) :
    LagCompensationResult (LagCompensationHistory S) :=
  let? _ := LagCompensationConfig_validate config in
  Ok {| config := config; states := []; stats := LagCompensationStats_default |}.

Definition LagCompensationHistory_record self (tick : Z) (s : S) :
    LagCompensationResult unit * LagCompensationHistory S :=
  if (tick =? 0)
     || match last self.(states) with Some (current, _) => tick <=? current | None => false end then
    (Err InvalidTickOrder, self)
  else
    let states := if len self.(states) =? self.(config).(history_capacity)
                  then tail self.(states) else self.(states) in
    (Ok (),
     {| config := self.(config);
        states := states ++ [(tick, s)];
        stats := {| states_recorded := saturating_add u64_max self.(stats).(states_recorded) 1;
                    queries_completed := self.(stats).(queries_completed);
                    queries_rejected := self.(stats).(queries_rejected) |} |}).

Definition LagCompensationHistory_validate_rewind self (target : Z) :
    LagCompensationResult (RewindContext * nat) :=
  match last self.(states) with
  | None => Err HistoryEmpty
  | Some (current, _) =>
      if current <? target then Err FutureTick
      else
        let rewind := current - target in
        if self.(config).(max_rewind_ticks) <? rewind then Err RewindLimitExceeded
        else
          let? index := map_err (fun _ => StateUnavailable)
                          (binary_search_by_key fst self.(states) target) in
          Ok ({| target_tick := target; current_tick := current; rewind_ticks := rewind |}, index)
  end.

Definition with_stats self (stats : LagCompensationStats) : LagCompensationHistory S :=
  {| config := self.(config); states := self.(states); stats := stats |}.

Definition count_completed (s : LagCompensationStats) : LagCompensationStats :=
  {| states_recorded := s.(states_recorded);
     queries_completed := saturating_add u64_max s.(queries_completed) 1;
     queries_rejected := s.(queries_rejected) |}.

Definition count_rejected (s : LagCompensationStats) : LagCompensationStats :=
  {| states_recorded := s.(states_recorded);
     queries_completed := s.(queries_completed);
     queries_rejected := saturating_add u64_max s.(queries_rejected) 1 |}.

(** [None] stands for the panic of [self.states[index]] out of range. *)
Definition LagCompensationHistory_rewind self (target : Z) :
    option (LagCompensationResult (RewindSample S) * LagCompensationHistory S) :=
  match LagCompensationHistory_validate_rewind self target with
  | Ok (context, index) =>
      entry ← self.(states) !! index;
      Some (Ok {| context := context; state := entry.2 |},
            with_stats self (count_completed self.(stats)))
  | Err error => Some (Err error, with_stats self (count_rejected self.(stats)))
  end.

Definition LagCompensationHistory_with_rewind {R} self (target : Z) (query : RewindContext -> S -> R) :
    option (LagCompensationResult R * LagCompensationHistory S) :=
  '(r, self) ← LagCompensationHistory_rewind self target;
  Some (match r with Ok sample => Ok (query sample.(context) sample.(state)) | Err e => Err e end, self).

Definition LagCompensationHistory_current_tick self : option Z := fst <$> last self.(states).
Definition LagCompensationHistory_oldest_tick self : option Z := fst <$> head self.(states).

Definition LagCompensationHistory_reset self : LagCompensationHistory S :=
  {| config := self.(config); states := []; stats := LagCompensationStats_default |}.

(** ** Recording *)

Record history_wf h : Prop := {
  hwf_config : 0 < h.(config).(max_rewind_ticks) < h.(config).(history_capacity);
  hwf_order : increasing fst h.(states);
  hwf_len : len h.(states) <= h.(config).(history_capacity);
}.

Lemma new_history_wf c h :
  fits usize_max c.(history_capacity) -> u64_ok c.(max_rewind_ticks) ->
  c.(max_rewind_ticks) < u64_max ->
  LagCompensationHistory_new c = Ok h -> history_wf h.
Proof.
  unfold LagCompensationHistory_new, LagCompensationConfig_validate. intros H1 H2 H3 Hnew.
  destruct (_ || _) eqn:Hz; [done|]. destruct (_ <? _) eqn:Hc; [done|]. injection Hnew as <-.
  breflect. unfold saturating_add, fits in *. constructor; cbn; [lia|apply increasing_nil|].
  change (len (@nil (Z * S))) with 0. lia.
Qed.

(** A run of recordings, keeping the log of those that were accepted. *)
Definition record_all h (l : list (Z * S)) : LagCompensationHistory S :=
  foldl (fun h '(tick, s) => (LagCompensationHistory_record h tick s).2) h l.

Definition accepts h (tick : Z) : bool :=
  negb (tick =? 0)
  && match last h.(states) with Some (current, _) => current <? tick | None => true end.

(** The newest [n] elements of a list. *)
Definition newest {A} (n : Z) (l : list A) : list A := drop (Z.to_nat (len l - n)) l.

Lemma newest_snoc {A} (n : Z) (l : list A) x :
  0 < n ->
  newest n (l ++ [x]) = (if len (newest n l) =? n then tail (newest n l) else newest n l) ++ [x].
Proof.
  intros Hn. unfold newest. rewrite len_app. change (len [x]) with 1.
  unfold len at 2 4. rewrite length_drop.
  destruct (Z.eqb_spec (Z.of_nat (length l - Z.to_nat (len l - n))) n) as [Heq|Hne]; unfold len in *.
  - rewrite drop_app_le by lia. f_equal.
    replace (Z.to_nat (Z.of_nat (length l) + 1 - n))
      with (Datatypes.S (Z.to_nat (Z.of_nat (length l) - n))) by lia.
    rewrite <-Nat.add_1_r, <-drop_drop. by destruct (drop _ l).
  - replace (Z.to_nat (Z.of_nat (length l) + 1 - n)) with O by lia.
    replace (Z.to_nat (Z.of_nat (length l) - n)) with O by lia. done.
Qed.

(** The recordings a history accepts, given its newest tick. *)
Fixpoint accepted (current : Z) (l : list (Z * S)) : list (Z * S) :=
  match l with
  | [] => []
  | (tick, s) :: l =>
      if current <? tick then (tick, s) :: accepted tick l else accepted current l
  end.

Definition newest_tick (log : list (Z * S)) : Z := default 0 (fst <$> last log).

Lemma last_newest {A} (n : Z) (l : list A) : 0 < n -> last (newest n l) = last l.
Proof.
  intros Hn. unfold newest. destruct l as [|x l] using rev_ind; [by rewrite drop_nil|].
  rewrite drop_app_le, !last_snoc; [done|]. unfold len. rewrite length_app. cbn. lia.
Qed.

Lemma len_newest {A} (n : Z) (l : list A) : 0 <= n -> len (newest n l) <= n.
Proof. intros. unfold newest, len. rewrite length_drop. lia. Qed.

Lemma record_states h log tick s :
  0 < h.(config).(history_capacity) -> h.(states) = newest h.(config).(history_capacity) log ->
  0 <= newest_tick log -> 0 <= tick ->
  (LagCompensationHistory_record h tick s).2.(config) = h.(config) /\
  (LagCompensationHistory_record h tick s).2.(states) =
    newest h.(config).(history_capacity)
      (if newest_tick log <? tick then log ++ [(tick, s)] else log).
Proof.
  intros Hcap Hst Hn Ht.
  assert (Hguard : (tick =? 0) || match last h.(states) with
    | Some (current, _) => tick <=? current | None => false end = negb (newest_tick log <? tick)).
  { rewrite Hst, last_newest by done. unfold newest_tick in *.
    destruct (last log) as [[cur x]|]; cbn in *; lia. }
  unfold LagCompensationHistory_record. rewrite Hguard.
  destruct (newest_tick log <? tick); cbn; [|done]. split; [done|].
  by rewrite newest_snoc, <-Hst.
Qed.

Lemma record_all_states l : forall h log,
  0 < h.(config).(history_capacity) -> h.(states) = newest h.(config).(history_capacity) log ->
  0 <= newest_tick log -> Forall (fun p => 0 <= p.1) l ->
  (record_all h l).(config) = h.(config) /\
  (record_all h l).(states) =
    newest h.(config).(history_capacity) (log ++ accepted (newest_tick log) l).
Proof.
  induction l as [|[tick s] l IH]; intros h log Hcap Hst Hn Hl.
  { cbn. by rewrite app_nil_r. }
  apply Forall_cons in Hl as [Ht Hl]. cbn in Ht.
  destruct (record_states h log tick s Hcap Hst Hn Ht) as [Hcfg Hst'].
  change (record_all h ((tick, s) :: l))
    with (record_all (LagCompensationHistory_record h tick s).2 l).
  rewrite <-Hcfg in Hst'. cbn [accepted]. destruct (Z.ltb_spec (newest_tick log) tick).
  - assert (Hnt : newest_tick (log ++ [(tick, s)]) = tick).
    { unfold newest_tick. by rewrite last_snoc. }
    destruct (IH _ _ ltac:(by rewrite Hcfg) Hst' ltac:(lia) Hl) as [IH1 IH2].
    rewrite IH1, IH2, Hcfg, Hnt. split; [done|]. by rewrite <-app_assoc.
  - destruct (IH _ _ ltac:(by rewrite Hcfg) Hst' Hn Hl) as [IH1 IH2].
    rewrite IH1, IH2, Hcfg. done.
Qed.

Lemma accepted_increasing l : forall current,
  increasing fst (accepted current l) /\ Forall (fun p => current < p.1) (accepted current l).
Proof.
  induction l as [|[tick s] l IH]; intros current; cbn; [split; [apply increasing_nil|constructor]|].
  destruct (Z.ltb_spec current tick); [|apply IH]. destruct (IH tick) as [IH1 IH2].
  split; [by apply increasing_cons|]. constructor; [done|].
  eapply Forall_impl; [exact IH2|]. cbn. lia.
Qed.

Lemma accepted_all l : forall current,
  increasing fst l -> Forall (fun p => current < p.1) l -> accepted current l = l.
Proof.
  induction l as [|[tick s] l IH]; intros current Hinc Hl; cbn; [done|].
  apply Forall_cons in Hl as [Ht Hl]. apply increasing_cons in Hinc as [Hx Hinc]. cbn in Ht.
  destruct (Z.ltb_spec current tick); [|lia]. f_equal. by apply IH.
Qed.

Lemma rewind_spec h target :
  history_wf h ->
  exists r stats,
    LagCompensationHistory_rewind h target = Some (r, with_stats h stats) /\
    match last h.(states) with
    | None => r = Err HistoryEmpty
    | Some (current, _) =>
        if current <? target then r = Err FutureTick
        else if h.(config).(max_rewind_ticks) <? current - target then r = Err RewindLimitExceeded
        else
          (r = Err StateUnavailable /\ forall s, (target, s) ∉ h.(states)) \/
          (exists s, (target, s) ∈ h.(states) /\
             r = Ok {| context := {| target_tick := target; current_tick := current;
                                     rewind_ticks := current - target |};
                       state := s |})
    end.
Proof.
  intros [_ Hord _]. unfold LagCompensationHistory_rewind, LagCompensationHistory_validate_rewind.
  destruct (last h.(states)) as [[current s0]|]; [|by do 2 eexists].
  destruct (current <? target); [by do 2 eexists|].
  destruct (_ <? current - target); [by do 2 eexists|].
  pose proof (binary_search_by_key_spec fst h.(states) target Hord) as Hs.
  destruct (binary_search_by_key fst h.(states) target) as [i|i]; cbn.
  - destruct Hs as ([t s] & Hi & Ht). cbn in Ht. subst t. rewrite Hi. cbn.
    do 2 eexists. split; [done|]. right. exists s. split; [|done].
    by eapply list_elem_of_lookup_2.
  - do 2 eexists. split; [done|]. left. split; [done|]. intros s Hin. by apply (Hs _ Hin).
Qed.

End history.

(** *** Recording every tick *)

Definition contiguous {S} (first : Z) (l : list S) : list (Z * S) := zip (seqZ first (len l)) l.

Lemma contiguous_ticks {S} first (l : list S) : fst <$> contiguous first l = seqZ first (len l).
Proof. apply fst_zip. rewrite length_seqZ. unfold len. lia. Qed.

Lemma length_contiguous {S} first (l : list S) : length (contiguous first l) = length l.
Proof. rewrite <-(length_fmap fst), contiguous_ticks, length_seqZ. unfold len. lia. Qed.

Lemma contiguous_lookup {S} first (l : list S) i s :
  l !! i = Some s -> contiguous first l !! i = Some (first + Z.of_nat i, s).
Proof.
  intros Hs. unfold contiguous. apply lookup_zip_with_Some. exists (first + Z.of_nat i), s.
  split_and!; [done| |done]. apply lookup_seqZ. split; [done|].
  apply lookup_lt_Some in Hs. unfold len. lia.
Qed.

Lemma contiguous_positive {S} first (l : list S) :
  0 < first -> Forall (fun p => 0 < p.1) (contiguous first l).
Proof.
  intros Hf. apply Forall_forall. intros [t x] Hin%(list_elem_of_fmap_2 fst).
  rewrite contiguous_ticks, elem_of_seqZ in Hin. cbn in *. lia.
Qed.

Lemma contiguous_accepted {S} first (l : list S) :
  0 < first -> accepted 0 (contiguous first l) = contiguous first l.
Proof.
  intros Hf. apply accepted_all.
  - rewrite increasing_fmap, contiguous_ticks. apply seqZ_sorted.
  - by apply contiguous_positive.
Qed.

Lemma contiguous_last {S} first (l : list S) x :
  last (contiguous first l) = Some x -> x.1 = first + len l - 1.
Proof.
  intros Hl. rewrite last_lookup, length_contiguous in Hl.
  destruct (l !! Nat.pred (length l)) as [s|] eqn:Hs.
  - pose proof (lookup_lt_Some _ _ _ Hs). rewrite (contiguous_lookup _ _ _ _ Hs) in Hl.
    simplify_eq. cbn. unfold len. lia.
  - apply lookup_ge_None in Hs. apply lookup_lt_Some in Hl. rewrite length_contiguous in Hl. lia.
Qed.

Lemma newest_lookup {A} (n : Z) (l : list A) i x :
  l !! i = Some x -> len l - n <= Z.of_nat i -> x ∈ newest n l.
Proof.
  intros Hi Hle. apply list_elem_of_lookup. unfold newest.
  exists (i - Z.to_nat (len l - n))%nat. rewrite lookup_drop. rewrite <-Hi. f_equal. lia.
Qed.

Lemma record_all_wf {S} (h : LagCompensationHistory S) (l : list (Z * S)) c :
  history_wf h -> h.(states) = [] -> h.(config) = c -> Forall (fun p => 0 <= p.1) l ->
  history_wf (record_all h l) /\ (record_all h l).(config) = c /\
  (record_all h l).(states) = newest c.(history_capacity) (accepted 0 l).
Proof.
  intros [Hcfg _ _] Hnil <- Hl.
  destruct (record_all_states l h []) as [Hc Hst]; [lia| |done|done|].
  { rewrite Hnil. unfold newest. by rewrite drop_nil. }
  change ([] ++ accepted (newest_tick []) l) with (accepted 0 l) in Hst.
  split; [|done]. constructor; rewrite ?Hc, ?Hst.
  - done.
  - apply increasing_drop, accepted_increasing.
  - apply len_newest. lia.
Qed.

(** ** Properties *)

(** The history is the newest part of what was recorded.  Whatever is recorded on a new history,
    in whatever order, exactly the recordings with a tick above every earlier accepted one are
    accepted, and the newest [history_capacity] of them are retained. *)
Theorem lag_history_keeps_newest {S} (c : LagCompensationConfig) (h : LagCompensationHistory S)
    (l : list (Z * S)) :
  0 < c.(history_capacity) -> LagCompensationHistory_new c = Ok h -> Forall (fun p => 0 <= p.1) l ->
  (record_all h l).(states) = newest c.(history_capacity) (accepted 0 l) /\
  increasing fst (record_all h l).(states) /\
  len (record_all h l).(states) <= c.(history_capacity).
Proof.
  intros Hcap Hnew Hl. unfold LagCompensationHistory_new in Hnew.
  destruct (LagCompensationConfig_validate c); simplify_eq.
  destruct (record_all_states l {| config := c; states := []; stats := LagCompensationStats_default |}
    [] Hcap) as [_ Hst]; [unfold newest; by rewrite drop_nil|done|done|].
  cbn in Hst. change (newest_tick []) with 0 in Hst. rewrite Hst. split; [done|].
  split; [|apply len_newest; lia]. apply increasing_drop, accepted_increasing.
Qed.

Definition example_lag_config : LagCompensationConfig :=
  {| history_capacity := 3; max_rewind_ticks := 2 |}.

Lemma lag_history_keeps_newest_witness :
  (record_all {| config := example_lag_config; states := []; stats := LagCompensationStats_default |}
    [(1, 10); (4, 40); (3, 30); (5, 50); (9, 90)]).(states) = [(4, 40); (5, 50); (9, 90)].
Proof.
  eapply eq_trans.
  - apply (lag_history_keeps_newest example_lag_config); [reflexivity|reflexivity|].
    repeat constructor; cbn; lia.
  - reflexivity.
Defined.

(** A rewind answers exactly.  It returns the state recorded at the requested tick with the
    distance to the newest one, or the reason it cannot: no history, a tick in the future, a tick
    further back than the limit, or a tick that is not retained; the states are never changed and the
    indexed access never fails. *)
Theorem rewind_returns_recorded_state {S} (h : LagCompensationHistory S) (target : Z) :
  history_wf h ->
  exists r stats,
    LagCompensationHistory_rewind h target = Some (r, with_stats h stats) /\
    match last h.(states) with
    | None => r = Err HistoryEmpty
    | Some (current, _) =>
        if current <? target then r = Err FutureTick
        else if h.(config).(max_rewind_ticks) <? current - target then r = Err RewindLimitExceeded
        else
          (r = Err StateUnavailable /\ forall s, (target, s) ∉ h.(states)) \/
          (exists s, (target, s) ∈ h.(states) /\
             r = Ok {| context := {| target_tick := target; current_tick := current;
                                     rewind_ticks := current - target |};
                       state := s |})
    end.
Proof. apply rewind_spec. Qed.

Definition example_history : LagCompensationHistory Z :=
  {| config := example_lag_config; states := [(4, 40); (5, 50); (9, 90)];
     stats := LagCompensationStats_default |}.

Lemma example_history_wf : history_wf example_history.
Proof. constructor; cbn; [lia|repeat constructor; cbn; lia|unfold len; cbn; lia]. Qed.

Lemma rewind_returns_recorded_state_witness :
  exists r stats, LagCompensationHistory_rewind example_history 8 =
    Some (r, with_stats example_history stats) /\ r = Err StateUnavailable.
Proof.
  destruct (rewind_returns_recorded_state example_history 8 example_history_wf)
    as (r & stats & Hrun & [[Hr _]|(s & Hin & _)]).
  - exists r, stats. split; [exact Hrun|exact Hr].
  - exfalso. apply list_elem_of_In in Hin. cbn in Hin. intuition congruence.
Defined.

(** The rewind window is always served.  When the server records every tick, any tick inside the
    configured window that was recorded is still available, and the query receives the very state
    recorded for it: the capacity required by the configuration covers the window. *)
Theorem rewind_window_available {S R} (c : LagCompensationConfig) (h : LagCompensationHistory S)
    (first target : Z) (l : list S) (s : S) (query : RewindContext -> S -> R) :
  fits usize_max c.(history_capacity) -> u64_ok c.(max_rewind_ticks) ->
  c.(max_rewind_ticks) < u64_max -> LagCompensationHistory_new c = Ok h -> 0 < first ->
  let newest := first + len l - 1 in
  first <= target -> newest - c.(max_rewind_ticks) <= target ->
  l !! Z.to_nat (target - first) = Some s ->
  exists h',
    LagCompensationHistory_with_rewind (record_all h (zip (seqZ first (len l)) l)) target query =
      Some (Ok (query {| target_tick := target; current_tick := newest;
                         rewind_ticks := newest - target |} s), h').
Proof.
  intros Hfc Hfm Hm Hnew Hfirst newest_t Hlo Hwin Hs. fold (contiguous first l).
  pose proof (new_history_wf _ _ Hfc Hfm Hm Hnew) as Hwf0.
  assert (Hh : h.(states) = [] /\ h.(config) = c).
  { unfold LagCompensationHistory_new in Hnew. by destruct (LagCompensationConfig_validate c); simplify_eq. }
  destruct Hh as [Hh0 Hhc].
  destruct (record_all_wf h (contiguous first l) c Hwf0 Hh0 Hhc) as (Hwf & Hc & Hst).
  { eapply Forall_impl; [by apply contiguous_positive|]. cbn. lia. }
  rewrite contiguous_accepted in Hst by done.
  pose proof (hwf_config _ Hwf0) as Hcap. rewrite Hhc in Hcap.
  pose proof (lookup_lt_Some _ _ _ Hs) as Hlt. pose proof (contiguous_lookup first _ _ _ Hs) as Hlog.
  replace (first + Z.of_nat (Z.to_nat (target - first))) with target in Hlog by lia.
  assert (Hin : (target, s) ∈ states (record_all h (contiguous first l))).
  { rewrite Hst. eapply newest_lookup; [exact Hlog|]. unfold newest_t in Hwin. unfold len in *.
    rewrite length_contiguous. lia. }
  destruct (rewind_spec _ target Hwf) as (r & st & Hrun & Hr).
  rewrite Hst, last_newest, <-Hst, Hc in Hr by lia.
  destruct (last (contiguous first l)) as [[cur x]|] eqn:Hlast.
  2: { rewrite last_None in Hlast. by rewrite Hlast in Hlog. }
  apply contiguous_last in Hlast. cbn in Hlast. fold newest_t in Hlast. subst cur.
  destruct (Z.ltb_spec newest_t target); [unfold newest_t, len in *; unfold newest_t in *; lia|].
  destruct (Z.ltb_spec (max_rewind_ticks c) (newest_t - target)); [lia|].
  destruct Hr as [[_ Hno]|(s' & Hin' & ->)]; [by destruct (Hno s)|].
  assert (s' = s) as ->.
  { pose proof (increasing_key_inj fst _ _ _ (hwf_order _ Hwf) Hin Hin' eq_refl). congruence. }
  eexists. unfold LagCompensationHistory_with_rewind. rewrite Hrun. cbn. done.
Qed.

Lemma rewind_window_available_witness :
  exists h', LagCompensationHistory_with_rewind
    (record_all {| config := example_lag_config; states := []; stats := LagCompensationStats_default |}
      (zip (seqZ 7 5) [70; 80; 90; 100; 110])) 9 (fun ctx s => (ctx.(rewind_ticks), s)) =
    Some (Ok (2, 90), h').
Proof.
  apply (rewind_window_available example_lag_config _ 7 9 [70; 80; 90; 100; 110] 90).
  - vm_compute. split; discriminate.
  - vm_compute. split; discriminate.
  - reflexivity.
  - reflexivity.
  - lia.
  - lia.
  - vm_compute. discriminate.
  - reflexivity.
Defined.
