(* ===== verification/ReplicationProtocol.v ===== *)
(** * Replication messages: [crates/elura-replication/src/protocol.rs] and [error.rs]

    Entity identifiers, states and deltas are the application's own types.  [apply_event] is the
    reference meaning of an event, on the whole map of entities. *)

From S2P Require Import Prelude.

(** [error.rs]. *)
Inductive ReplicationError : Type :=
| InvalidConfig (message : string)
| InvalidOrder (message : string)
| InvalidPacket (message : string)
| HistoryFull
| SequenceExhausted
| InvalidAcknowledgement
| EntityLimitExceeded
| VersionRegression
| BaselineMismatch
| DeltaRejected.

Abbreviation ReplicationResult := (result ReplicationError).

Record ReplicationConfig : Type := {
  history_capacity : Z;
  redundancy : Z;
  max_events_per_batch : Z;
  max_entities : Z;
  reorder_window : Z;
}.

Definition ReplicationConfig_default : ReplicationConfig :=
  {| history_capacity := 64; redundancy := 3; max_events_per_batch := 256; max_entities := 4096;
     reorder_window := 256 |}.

Definition ReplicationConfig_validate (c : ReplicationConfig) : ReplicationResult unit :=
  if c.(history_capacity) =? 0 then
    Err (InvalidConfig "batch history capacity must be positive")
  else if (c.(redundancy) =? 0) || (c.(history_capacity) <? c.(redundancy)) then
    Err (InvalidConfig "batch redundancy must be within history capacity")
  else if c.(max_events_per_batch) =? 0 then
    Err (InvalidConfig "maximum events per batch must be positive")
  else if c.(max_entities) =? 0 then
    Err (InvalidConfig "maximum replicated entities must be positive")
  else if c.(reorder_window) =? 0 then
    Err (InvalidConfig "batch reorder window must be positive")
  else if c.(reorder_window) <? c.(history_capacity) then
    Err (InvalidConfig "batch reorder window must cover sender history")
  else Ok ().

(** The bounds a validated configuration gives. *)
Record config_ok (c : ReplicationConfig) : Prop := {
  co_redundancy : 0 < c.(redundancy) <= c.(history_capacity);
  co_events : 0 < c.(max_events_per_batch);
  co_entities : 0 < c.(max_entities);
  co_window : c.(history_capacity) <= c.(reorder_window) <= u64_max;
}.

Definition config_widths (c : ReplicationConfig) : Prop :=
  fits usize_max c.(history_capacity) /\ fits usize_max c.(redundancy) /\
  fits usize_max c.(max_events_per_batch) /\ fits usize_max c.(max_entities) /\
  u64_ok c.(reorder_window).

Lemma validate_ok c : config_widths c -> ReplicationConfig_validate c = Ok () -> config_ok c.
Proof.
  intros (H1 & H2 & H3 & H4 & H5) Hv. unfold ReplicationConfig_validate, fits in *.
  repeat (case_match; [done|]). breflect. constructor; lia.
Qed.

Record VersionedState (S : Type) : Type := {
  version : Z;
  prediction_key : option Z;
  state : S;
}.
Arguments version {S} _.
Arguments prediction_key {S} _.
Arguments state {S} _.

Inductive ReplicationEvent (I S D : Type) : Type :=
| Spawn (entity : I) (version : Z) (prediction_key : option Z) (state : S)
| Despawn (entity : I)
| Update (entity : I) (base_version version : Z) (delta : D)
| Keyframe (entity : I) (version : Z) (prediction_key : option Z) (state : S).
Arguments Spawn {I S D} _ _ _ _.
Arguments Despawn {I S D} _.
Arguments Update {I S D} _ _ _ _.
Arguments Keyframe {I S D} _ _ _ _.

Definition ReplicationEvent_entity {I S D} (self : ReplicationEvent I S D) : I :=
  match self with
  | Spawn entity _ _ _ | Despawn entity | Update entity _ _ _ | Keyframe entity _ _ _ => entity
  end.

Record ReplicationBatch (I S D : Type) : Type := {
  sequence : Z;
  tick : Z;
  events : list (ReplicationEvent I S D);
}.
Arguments sequence {I S D} _.
Arguments tick {I S D} _.
Arguments events {I S D} _.

Record ReplicationPacket (I S D : Type) : Type := {
  batches : list (ReplicationBatch I S D);
}.
Arguments batches {I S D} _.
Arguments Build_ReplicationPacket {I S D} _.

Record ReplicationAck : Type := {
  acknowledged_sequence : Z;
  applied_tick : Z;
}.

(** ** Reference meaning of the events *)

Section reference.
Context {I S D : Type} `{Countable I} (apply_delta : I -> S -> D -> option S).
Implicit Types (m : gmap I (VersionedState S)) (e : ReplicationEvent I S D).

Definition apply_event (limit : Z) m e : ReplicationResult (gmap I (VersionedState S)) :=
  match e with
  | Spawn entity version key state =>
      if bool_decide (is_Some (m !! entity)) then
        Err (InvalidPacket "spawned entity already exists")
      else if limit <=? Z.of_nat (size m) then Err EntityLimitExceeded
      else Ok (<[entity := {| version := version; prediction_key := key; state := state |}]> m)
  | Despawn entity =>
      if bool_decide (is_Some (m !! entity)) then Ok (delete entity m)
      else Err (InvalidPacket "despawned entity does not exist")
  | Update entity base new delta =>
      let? current := ok_or (m !! entity) BaselineMismatch in
      if negb (current.(version) =? base) || (new <=? base) then Err BaselineMismatch
      else
        let? s := ok_or (apply_delta entity current.(state) delta) DeltaRejected in
        Ok (<[entity := {| version := new; prediction_key := current.(prediction_key);
                           state := s |}]> m)
  | Keyframe entity version key state =>
      if negb (bool_decide (is_Some (m !! entity))) && (limit <=? Z.of_nat (size m)) then
        Err EntityLimitExceeded
      else Ok (<[entity := {| version := version; prediction_key := key; state := state |}]> m)
  end.

Fixpoint apply_events (limit : Z) m (l : list (ReplicationEvent I S D)) :
    ReplicationResult (gmap I (VersionedState S)) :=
  match l with
  | [] => Ok m
  | e :: l => let? next := apply_event limit m e in apply_events limit next l
  end.

Lemma apply_events_app limit l k : forall m,
  apply_events limit m (l ++ k) = let? next := apply_events limit m l in apply_events limit next k.
Proof. induction l as [|e l IH]; intros m; cbn; [done|]. by destruct (apply_event limit m e). Qed.

(** Events on entities other than [i] leave [i] alone. *)
Lemma apply_event_frame limit m e m' i :
  apply_event limit m e = Ok m' -> i <> ReplicationEvent_entity e -> m' !! i = m !! i.
Proof.
  intros Hrun Hi. destruct e; cbn in *; repeat (case_match; simplify_eq/=);
    rewrite ?lookup_insert_ne, ?lookup_delete_ne by congruence; done.
Qed.

Lemma apply_events_frame limit l : forall m m' i,
  apply_events limit m l = Ok m' -> i ∉ ReplicationEvent_entity <$> l -> m' !! i = m !! i.
Proof.
  induction l as [|e l IH]; intros m m' i Hrun Hi; cbn in Hrun; [by simplify_eq|].
  destruct (apply_event limit m e) as [m1|] eqn:E; [|done].
  rewrite (IH _ _ _ Hrun) by set_solver. eapply apply_event_frame; [done|set_solver].
Qed.

Lemma apply_event_size limit m e m' :
  apply_event limit m e = Ok m' -> Z.of_nat (size m) <= limit -> Z.of_nat (size m') <= limit.
Proof.
  intros Hrun Hsize. destruct e as [i v k s|i|i b v d|i v k s]; cbn in Hrun.
  - case_bool_decide as Hi; [done|]. destruct (Z.leb_spec limit (Z.of_nat (size m))); [done|].
    simplify_eq. rewrite map_size_insert. destruct (m !! i); cbn; lia.
  - case_bool_decide; simplify_eq. rewrite map_size_delete. destruct (m !! i); cbn; lia.
  - destruct (m !! i) as [cur|] eqn:Hi; cbn in Hrun; [|done]. case_match; [done|].
    destruct (apply_delta i _ d); simplify_eq/=. rewrite map_size_insert, Hi. done.
  - destruct (m !! i) as [cur|] eqn:Hi; cbn in Hrun.
    + simplify_eq/=. by rewrite map_size_insert, Hi.
    + destruct (Z.leb_spec limit (Z.of_nat (size m))); simplify_eq.
      rewrite map_size_insert, Hi. cbn. lia.
Qed.

Lemma apply_events_size limit l : forall m m',
  apply_events limit m l = Ok m' -> Z.of_nat (size m) <= limit -> Z.of_nat (size m') <= limit.
Proof.
  induction l as [|e l IH]; intros m m' Hrun Hsize; cbn in Hrun; [by simplify_eq|].
  destruct (apply_event limit m e) as [m1|] eqn:E; [|done]. eauto using apply_event_size.
Qed.

(** A batch: its tick does not go back, it names each entity once and its events apply. *)
Definition apply_batch (limit : Z) (st : Z * gmap I (VersionedState S)) (b : ReplicationBatch I S D) :
    option (Z * gmap I (VersionedState S)) :=
  if b.(tick) <? st.1 then None
  else if bool_decide (NoDup (ReplicationEvent_entity <$> b.(events))) then
    match apply_events limit st.2 b.(events) with
    | Ok m => Some (b.(tick), m)
    | Err _ => None
    end
  else None.

Fixpoint apply_batches (limit : Z) (st : Z * gmap I (VersionedState S))
    (l : list (ReplicationBatch I S D)) : option (Z * gmap I (VersionedState S)) :=
  match l with
  | [] => Some st
  | b :: l => st ← apply_batch limit st b; apply_batches limit st l
  end.

Lemma apply_batches_app limit l k : forall st,
  apply_batches limit st (l ++ k) = st' ← apply_batches limit st l; apply_batches limit st' k.
Proof.
  induction l as [|b l IH]; intros st; [done|]. cbn [apply_batches app].
  destruct (apply_batch limit st b); cbn [mbind option_bind]; [apply IH|done].
Qed.

Lemma apply_batches_size limit l : forall st st',
  apply_batches limit st l = Some st' -> Z.of_nat (size st.2) <= limit ->
  Z.of_nat (size st'.2) <= limit.
Proof.
  induction l as [|b l IH]; intros st st' Hrun Hsize; cbn in Hrun; [by simplify_eq|].
  destruct (apply_batch limit st b) as [st1|] eqn:E; cbn in Hrun; [|done].
  apply (IH st1); [done|]. unfold apply_batch in E. repeat (case_match; simplify_eq/=).
  eauto using apply_events_size.
Qed.

(** Batches with ordered ticks and distinct entities apply as their events do. *)
Lemma apply_batches_events limit l : forall st m,
  Forall (fun b => NoDup (ReplicationEvent_entity <$> b.(events))) l ->
  StronglySorted (fun a b => a.(tick) <= b.(tick)) l -> Forall (fun b => st.1 <= b.(tick)) l ->
  apply_events limit st.2 (concat (events <$> l)) = Ok m ->
  apply_batches limit st l = Some (default st.1 (tick <$> last l), m).
Proof.
  induction l as [|b l IH]; intros [tk m0] m Hnd Hs Htk Hrun; cbn in Hrun; [by simplify_eq|].
  apply Forall_cons in Hnd as [Hb Hnd], Htk as [Ht Htk].
  apply StronglySorted_cons in Hs as [Hbl Hs]. rewrite apply_events_app in Hrun.
  destruct (apply_events limit m0 (events b)) as [m1|] eqn:Hm1; [|done].
  cbn. unfold apply_batch. cbn in *. destruct (Z.ltb_spec (tick b) tk); [lia|].
  rewrite bool_decide_true by done. rewrite Hm1. cbn.
  rewrite (IH (tick b, m1) m) by done. cbn. rewrite last_cons. by destruct (last l).
Qed.
End reference.
