(* ===== verification/ReplicationSender.v ===== *)
(** * Replication sender: [crates/elura-replication/src/sender.rs]

    Reconciles the set of visible entities with what the observer has been told, into bounded
    batches retained until acknowledged.  [delta] is the application's encoder. *)

From S2P Require Import Prelude ReplicationProtocol.

Record ReplicationSender (I S D : Type) `{Countable I} : Type := {
  config : ReplicationConfig;
  next_sequence : Z;
  rs_acknowledged_sequence : Z;
  last_tick : Z;
  projected : gmap I (VersionedState S);
  pending : list (ReplicationBatch I S D);
  force_keyframes : bool;
}.
Arguments config {I S D _ _} _.
Arguments next_sequence {I S D _ _} _.
Arguments rs_acknowledged_sequence {I S D _ _} _.
Arguments last_tick {I S D _ _} _.
Arguments projected {I S D _ _} _.
Arguments pending {I S D _ _} _.
Arguments force_keyframes {I S D _ _} _.

Section sender.
Context {I S D : Type} `{Countable I, !Ord I}.
Notation State := (VersionedState S).
Notation Event := (ReplicationEvent I S D).
Notation Batch := (ReplicationBatch I S D).
Notation Sender := (ReplicationSender I S D).

Definition ReplicationSender_new (config : ReplicationConfig) : ReplicationResult Sender :=
  let? _ := ReplicationConfig_validate config in
  Ok {| config := config; next_sequence := 1; rs_acknowledged_sequence := 0; last_tick := 0;
        projected := ∅; pending := []; force_keyframes := false |}.

(** [for (entity, state) in visible { if desired.insert(..).is_some() { return Err(..) } }] *)
Fixpoint collect_visible (desired : gmap I State) (visible : list (I * State)) :
    ReplicationResult (gmap I State) :=
  match visible with
  | [] => Ok desired
  | (entity, st) :: rest =>
      if bool_decide (is_Some (desired !! entity)) then
        Err (InvalidPacket "visible state contains a duplicate entity")
      else collect_visible (<[entity := st]> desired) rest
  end.

Section events.
Context (delta : I -> State -> State -> option D).

(** The despawns, over the keys of [projected]. *)
Definition despawn_events (projected desired : gmap I State) : list Event :=
  omap (fun '(entity, _) =>
    if bool_decide (is_Some (desired !! entity)) then None else Some (Despawn entity))
    (btree_iter projected).

(** The event for one desired entity, if it needs one. *)
Definition desired_event (projected : gmap I State) (force : bool) (entity : I) (current : State) :
    ReplicationResult (option Event) :=
  let keyframe := Keyframe entity current.(version) current.(prediction_key) current.(state) in
  match projected !! entity with
  | None =>
      Ok (Some (Spawn entity current.(version) current.(prediction_key) current.(state)))
  | Some previous =>
      if current.(version) <? previous.(version) then Err VersionRegression
      else if force then Ok (Some keyframe)
      else if negb (current.(version) =? previous.(version)) then
        match delta entity previous current with
        | Some encoded =>
            Ok (Some (Update entity previous.(version) current.(version) encoded))
        | None => Ok (Some keyframe)
        end
      else Ok None
  end.

(** The loop [for (entity, current) in &desired]. *)
Fixpoint desired_events (projected : gmap I State) (force : bool) (l : list (I * State)) :
    ReplicationResult (list Event) :=
  match l with
  | [] => Ok []
  | (entity, current) :: rest =>
      let? event := desired_event projected force entity current in
      let? others := desired_events projected force rest in
      Ok (option_list event ++ others)
  end.
End events.

Definition div_ceil (a b : Z) : Z := (a + b - 1) / b.

(** [for sequence in next_sequence..next] taking [max] events from the iterator each time. *)
Fixpoint make_batches (count : nat) (seq tick max : Z) (evs : list Event) : list Batch :=
  match count with
  | O => []
  | Datatypes.S count =>
      {| sequence := seq; tick := tick; events := take (Z.to_nat max) evs |}
        :: make_batches count (seq + 1) tick max (drop (Z.to_nat max) evs)
  end.

Definition ReplicationSender_update (self : Sender) (tick : Z) (visible : list (I * State))
    (delta : I -> State -> State -> option D) : ReplicationResult Z * Sender :=
  if (tick =? 0) || (tick <=? self.(last_tick)) then
    (Err (InvalidOrder "update Tick must increase and be positive"), self)
  else
    let? desired := collect_visible ∅ visible else self in
    if self.(config).(max_entities) <? Z.of_nat (size desired) then (Err EntityLimitExceeded, self)
    else
      let? changed := desired_events delta self.(projected) self.(force_keyframes)
        (btree_iter desired) else self in
      let evs := despawn_events self.(projected) desired ++ changed in
      let batch_count := div_ceil (len evs) self.(config).(max_events_per_batch) in
      if self.(config).(history_capacity)
         <? saturating_add usize_max (len self.(pending)) batch_count then (Err HistoryFull, self)
      else
        let? next := ok_or (checked_add u64_max self.(next_sequence) batch_count) SequenceExhausted
          else self in
        (Ok batch_count,
         {| config := self.(config);
            next_sequence := next;
            rs_acknowledged_sequence := self.(rs_acknowledged_sequence);
            last_tick := tick;
            projected := desired;
            pending := self.(pending) ++
              make_batches (Z.to_nat batch_count) self.(next_sequence) tick
                self.(config).(max_events_per_batch) evs;
            force_keyframes := false |}).

Fixpoint release_front (ack : Z) (l : list Batch) : list Batch :=
  match l with
  | [] => []
  | batch :: rest => if batch.(sequence) <=? ack then release_front ack rest else l
  end.

Definition ReplicationSender_acknowledge (self : Sender) (ack : ReplicationAck) :
    ReplicationResult Z * Sender :=
  let last_issued := self.(next_sequence) - 1 in
  if last_issued <? ack.(acknowledged_sequence) then (Err InvalidAcknowledgement, self)
  else if ack.(acknowledged_sequence) <=? self.(rs_acknowledged_sequence) then (Ok 0, self)
  else
    let? expected_tick :=
      ok_or ((fun p => tick p.2) <$>
        list_find (fun b => sequence b = ack.(acknowledged_sequence)) self.(pending))
        InvalidAcknowledgement else self in
    if negb (expected_tick =? ack.(applied_tick)) then (Err InvalidAcknowledgement, self)
    else
      let rest := release_front ack.(acknowledged_sequence) self.(pending) in
      (Ok (len self.(pending) - len rest),
       {| config := self.(config);
          next_sequence := self.(next_sequence);
          rs_acknowledged_sequence := ack.(acknowledged_sequence);
          last_tick := self.(last_tick);
          projected := self.(projected);
          pending := rest;
          force_keyframes := self.(force_keyframes) |}).

Definition ReplicationSender_force_keyframes (self : Sender) : Sender :=
  {| config := self.(config);
     next_sequence := self.(next_sequence);
     rs_acknowledged_sequence := self.(rs_acknowledged_sequence);
     last_tick := self.(last_tick);
     projected := self.(projected);
     pending := self.(pending);
     force_keyframes := true |}.

Definition ReplicationSender_reset (self : Sender) : Sender :=
  {| config := self.(config); next_sequence := 1; rs_acknowledged_sequence := 0; last_tick := 0;
     projected := ∅; pending := []; force_keyframes := false |}.

(** The indices collected in the [BTreeSet], in order. *)
Definition selected_indices (n redundancy : Z) : list Z :=
  let newest := saturating_sub redundancy 1 in
  let from := saturating_sub n newest in
  sort_by_key id (elements ({[0]} ∪ list_to_set (seqZ from (n - from)) : gset Z)).

Definition ReplicationSender_packet (self : Sender) : ReplicationPacket I S D :=
  if len self.(pending) <=? self.(config).(redundancy) then
    Build_ReplicationPacket self.(pending)
  else
    Build_ReplicationPacket
      (omap (fun index => self.(pending) !! Z.to_nat index)
        (selected_indices (len self.(pending)) self.(config).(redundancy))).

(** ** The events lead from the projected to the desired entities *)

Section reach.
Context (delta : I -> State -> State -> option D) (apply_delta : I -> S -> D -> option S).

(** The application's obligations: the decoder inverts the encoder; an unchanged version means an
    unchanged state; an entity keeps its prediction key. *)
Definition delta_law : Prop := forall entity previous current d,
  delta entity previous current = Some d ->
  apply_delta entity previous.(state) d = Some current.(state).

Definition state_law (projected desired : gmap I State) : Prop :=
  forall entity previous current,
    projected !! entity = Some previous -> desired !! entity = Some current ->
    (current.(version) = previous.(version) -> current = previous) /\
    current.(prediction_key) = previous.(prediction_key).

Context (Hdelta : delta_law).

Lemma despawns_apply limit (desired : gmap I State) (l : list (I * State)) : forall m : gmap I State,
  NoDup l.*1 -> (forall k v, (k, v) ∈ l -> is_Some (m !! k)) ->
  exists m', apply_events apply_delta limit m
      (omap (fun '(entity, _) =>
        if bool_decide (is_Some (desired !! entity)) then None else Some (Despawn entity)) l) = Ok m' /\
    forall k, m' !! k = if bool_decide (k ∈ l.*1 /\ desired !! k = None) then None else m !! k.
Proof.
  clear Hdelta. induction l as [|[k v] l IH]; intros m Hnd Hin.
  { exists m. split; [done|]. intros k. rewrite bool_decide_false by set_solver. done. }
  rewrite fmap_cons in Hnd. apply NoDup_cons in Hnd as [Hk Hnd]. cbn [fst] in Hk. cbn [omap list_omap].
  destruct (bool_decide_reflect (is_Some (desired !! k))) as [Hd|Hd]; cbn.
  - destruct (IH m Hnd) as (m' & Hrun & Hm'); [set_solver|]. exists m'. split; [done|]. intros j.
    rewrite Hm'.
    destruct (decide (j = k)) as [->|Hne].
    + rewrite !bool_decide_false; [done|..]; destruct Hd as [? Hd]; rewrite Hd; intros [_ ?]; done.
    + erewrite (bool_decide_ext (j ∈ l.*1 /\ _)); [done|]. set_solver.
  - rewrite <-eq_None_not_Some in Hd.
    destruct (Hin k v) as [x Hx]; [left|]. rewrite bool_decide_true by eauto. cbn.
    destruct (IH (delete k m) Hnd) as (m' & Hrun & Hm').
    { intros j w Hj. rewrite lookup_delete_ne; [eapply Hin; by right|]. intros ->.
      apply Hk. apply list_elem_of_fmap. by exists (j, w). }
    exists m'. split; [done|]. intros j. rewrite Hm'. destruct (decide (j = k)) as [->|Hne].
    + rewrite (bool_decide_true (k ∈ k :: l.*1 /\ _)) by set_solver. case_bool_decide; [done|].
      by rewrite lookup_delete_eq.
    + rewrite lookup_delete_ne by done.
      erewrite (bool_decide_ext (j ∈ l.*1 /\ _)); [done|]. set_solver.
Qed.

Lemma versioned_eta (x : State) :
  {| version := x.(version); prediction_key := x.(prediction_key); state := x.(state) |} = x.
Proof. by destruct x. Qed.

Lemma desired_event_apply limit projected force (m : gmap I State) entity current event :
  desired_event delta projected force entity current = Ok event ->
  m !! entity = projected !! entity ->
  (projected !! entity = None -> Z.of_nat (size m) < limit) ->
  (forall previous, projected !! entity = Some previous ->
    (current.(version) = previous.(version) -> current = previous) /\
    current.(prediction_key) = previous.(prediction_key)) ->
  apply_events apply_delta limit m (option_list event) = Ok (<[entity := current]> m).
Proof.
  intros Hev Hm Hsize Hlaw. unfold desired_event in Hev.
  destruct (projected !! entity) as [previous|] eqn:Hp.
  - destruct (Hlaw previous eq_refl) as [Hsame Hkey].
    destruct (Z.ltb_spec (version current) (version previous)); [done|].
    destruct force; [|destruct (Z.eqb_spec (version current) (version previous)) as [Heq|Hne]; cbn in Hev].
    + simplify_eq. cbn. rewrite Hm. rewrite bool_decide_true by eauto. cbn. by rewrite versioned_eta.
    + simplify_eq. cbn. rewrite insert_id; [done|]. rewrite Hm. f_equal. symmetry. auto.
    + destruct (delta entity previous current) as [d|] eqn:Hd; simplify_eq; cbn.
      * rewrite Hm. cbn. rewrite Z.eqb_refl. cbn.
        destruct (Z.leb_spec (version current) (version previous)); [lia|].
        rewrite (Hdelta _ _ _ _ Hd). cbn. by rewrite <-Hkey, versioned_eta.
      * rewrite Hm. rewrite bool_decide_true by eauto. cbn. by rewrite versioned_eta.
  - simplify_eq. cbn. rewrite Hm. rewrite bool_decide_false by (by intros []).
    destruct (Z.leb_spec limit (Z.of_nat (size m))); [|by rewrite versioned_eta].
    specialize (Hsize eq_refl). lia.
Qed.

Lemma desired_events_apply limit (projected : gmap I State) force desired l : forall (m : gmap I State) evs,
  desired_events delta projected force l = Ok evs -> NoDup l.*1 ->
  (forall k v, (k, v) ∈ l -> desired !! k = Some v /\ m !! k = projected !! k) ->
  (forall k, is_Some (m !! k) -> is_Some (desired !! k)) ->
  Z.of_nat (size desired) <= limit -> state_law projected desired ->
  exists m', apply_events apply_delta limit m evs = Ok m' /\
    forall k, m' !! k = if bool_decide (k ∈ l.*1) then desired !! k else m !! k.
Proof.
  induction l as [|[k v] l IH]; intros m evs Hrun Hnd Hin Hdom Hsize Hlaw; cbn in Hrun.
  { simplify_eq. by exists m. }
  rewrite fmap_cons in Hnd. apply NoDup_cons in Hnd as [Hk Hnd]. cbn [fst] in Hk.
  destruct (desired_event delta projected force k v) as [event|] eqn:Hev; [|done].
  destruct (desired_events delta projected force l) as [others|] eqn:Hothers; simplify_eq.
  destruct (Hin k v) as [Hdk Hmk]; [left|].
  assert (Happ := desired_event_apply limit projected force m k v event Hev Hmk).
  rewrite apply_events_app, Happ.
  - destruct (IH (<[k := v]> m) others eq_refl Hnd) as (m' & Hm' & Hlook).
    + intros j w Hj. destruct (Hin j w) as [Hdj Hmj]; [by right|]. split; [done|].
      rewrite lookup_insert_ne; [done|]. intros ->. apply Hk, list_elem_of_fmap. by exists (j, w).
    + intros j Hj. destruct (decide (j = k)) as [->|]; [eauto|].
      rewrite lookup_insert_ne in Hj by done. auto.
    + done.
    + done.
    + exists m'. split; [done|]. intros j. rewrite Hlook. rewrite fmap_cons. cbn [fst].
      destruct (decide (j = k)) as [->|Hne].
      * rewrite (bool_decide_true (k ∈ k :: _)) by set_solver. case_bool_decide; [done|].
        by rewrite lookup_insert_eq.
      * rewrite lookup_insert_ne by done. erewrite (bool_decide_ext (j ∈ l.*1)); [done|]. set_solver.
  - intros Hnone. rewrite Hnone in Hmk.
    assert (Hsub : dom m ⊂ dom desired).
    { split; [intros j; rewrite !elem_of_dom; auto|]. intros Hsub.
      assert (Hkd : k ∈ dom m) by (apply Hsub, elem_of_dom; eauto).
      apply elem_of_dom in Hkd as [? Hkd]. congruence. }
    apply subset_size in Hsub. rewrite !size_dom in Hsub. lia.
  - intros previous Hp. by apply (Hlaw k previous v).
Qed.

Lemma update_events_apply limit (proj desired : gmap I State) force changed :
  desired_events delta proj force (btree_iter desired) = Ok changed ->
  Z.of_nat (size desired) <= limit -> state_law proj desired ->
  apply_events apply_delta limit proj (despawn_events proj desired ++ changed) = Ok desired.
Proof.
  intros Hrun Hsize Hlaw. rewrite apply_events_app.
  destruct (despawns_apply limit desired (btree_iter proj) proj (btree_iter_nodup proj))
    as (m1 & Hm1 & Hlook1).
  { intros k v Hk%elem_of_btree. eauto. }
  unfold despawn_events. rewrite Hm1.
  assert (Hm1k : forall k, m1 !! k = if bool_decide (is_Some (desired !! k)) then proj !! k else None).
  { intros k. rewrite Hlook1. destruct (desired !! k) as [y|] eqn:Hd.
    - rewrite bool_decide_false by (by intros []). by rewrite bool_decide_true by eauto.
    - rewrite (bool_decide_false (is_Some None)) by (by intros []). case_bool_decide as Hc; [done|].
      destruct (proj !! k) as [x|] eqn:Hx; [|done]. exfalso. apply Hc. split; [|done].
      apply list_elem_of_fmap. exists (k, x). split; [done|]. by apply elem_of_btree. }
  destruct (desired_events_apply limit proj force desired (btree_iter desired) m1 changed Hrun
    (btree_iter_nodup desired)) as (m2 & Hm2 & Hlook2); try done.
  { intros k v Hk%elem_of_btree. split; [done|]. rewrite Hm1k, bool_decide_true by eauto. done. }
  { intros k Hk. rewrite Hm1k in Hk. case_bool_decide; [done|]. by destruct Hk. }
  rewrite Hm2. f_equal. apply map_eq. intros k. rewrite Hlook2.
  case_bool_decide as Hk; [done|]. rewrite Hm1k. case_bool_decide as Hd; [|by apply eq_None_not_Some in Hd].
  destruct Hd as [x Hx]. destruct Hk. apply list_elem_of_fmap. exists (k, x). split; [done|].
  by apply elem_of_btree.
Qed.
End reach.

(** ** Batches *)

Lemma despawn_events_entities (proj desired : gmap I State) :
  NoDup (ReplicationEvent_entity <$> despawn_events proj desired) /\
  forall k, k ∈ ReplicationEvent_entity <$> despawn_events proj desired -> desired !! k = None.
Proof.
  unfold despawn_events. pose proof (btree_iter_nodup proj) as Hnd.
  induction (btree_iter proj) as [|[k v] l IH]; [split; [apply NoDup_nil_2|set_solver]|].
  rewrite fmap_cons in Hnd. apply NoDup_cons in Hnd as [Hk Hnd]. destruct (IH Hnd) as [IH1 IH2].
  cbn. case_bool_decide as Hd; cbn; [done|]. apply eq_None_not_Some in Hd. split.
  - constructor; [|done]. intros (e & He & Hin)%list_elem_of_fmap. cbn in He.
    apply list_elem_of_omap in Hin as ([k' v'] & Hin & He'). case_bool_decide; simplify_eq/=.
    apply Hk, list_elem_of_fmap. by eexists (_, _).
  - intros j [->|Hj]%elem_of_cons; [done|auto].
Qed.

Lemma desired_events_entities delta (proj : gmap I State) force l : forall evs,
  desired_events delta proj force l = Ok evs -> sublist (ReplicationEvent_entity <$> evs) l.*1.
Proof.
  induction l as [|[k v] l IH]; intros evs Hrun; cbn in Hrun; [by simplify_eq|].
  destruct (desired_event delta proj force k v) as [event|] eqn:Hev; [|done].
  destruct (desired_events delta proj force l) as [others|]; simplify_eq.
  assert (He : forall e, event = Some e -> ReplicationEvent_entity e = k).
  { intros e ->. unfold desired_event in Hev. repeat (case_match; simplify_eq/=; try done). }
  destruct event as [e|]; cbn; [rewrite (He e eq_refl); constructor|constructor]; by apply IH.
Qed.

Lemma update_events_nodup delta (proj desired : gmap I State) force changed :
  desired_events delta proj force (btree_iter desired) = Ok changed ->
  NoDup (ReplicationEvent_entity <$> (despawn_events proj desired ++ changed)).
Proof.
  intros Hrun%desired_events_entities. destruct (despawn_events_entities proj desired) as [Hnd Hno].
  rewrite fmap_app. apply NoDup_app. split_and!; [done| |].
  - intros k Hk%Hno Hin. eapply sublist_subseteq in Hin; [|done].
    apply list_elem_of_fmap in Hin as ([k' v] & -> & Hin%elem_of_btree). cbn in *. congruence.
  - exact (sublist_NoDup _ _ (btree_iter_nodup desired) Hrun).
Qed.

Lemma make_batches_events count : forall seq tk max evs,
  0 < max -> len evs <= Z.of_nat count * max ->
  concat (events <$> make_batches count seq tk max evs) = evs.
Proof.
  induction count as [|count IH]; intros seq tk max evs Hmax Hlen; cbn.
  - destruct evs; [done|]. rewrite len_cons in Hlen. pose proof (len_nonneg evs). lia.
  - rewrite IH; [apply take_drop|done|]. unfold len in *. rewrite length_drop. nia.
Qed.

Lemma make_batches_lookup count : forall seq tk max evs i b,
  make_batches count seq tk max evs !! i = Some b ->
  sequence b = seq + Z.of_nat i /\ tick b = tk /\ (length (events b) <= Z.to_nat max)%nat /\
  sublist (events b) evs.
Proof.
  induction count as [|count IH]; intros seq tk max evs i b Hi; cbn in Hi; [done|].
  destruct i as [|i]; cbn in Hi.
  - simplify_eq. cbn. rewrite length_take. split_and!; [lia|done|lia|apply sublist_take].
  - apply IH in Hi as (Hs & Ht & Hl & Hsub). split_and!; [lia|done|done|].
    etrans; [exact Hsub|]. apply sublist_drop.
Qed.

Lemma length_make_batches count : forall seq tk max evs,
  length (make_batches count seq tk max evs) = count.
Proof. induction count; intros; cbn; auto. Qed.

(** ** The log of a stream

    Everything the sender has ever issued, batch [i] at position [i - 1].  The pending batches are its
    unacknowledged end. *)
Record batch_ok (c : ReplicationConfig) (i : nat) (b : Batch) : Prop := {
  bo_sequence : sequence b = Z.of_nat i + 1;
  bo_tick : 0 < tick b;
  bo_events : len (events b) <= c.(max_events_per_batch);
  bo_nodup : NoDup (ReplicationEvent_entity <$> events b);
}.

Definition ticks_ordered (log : list Batch) : Prop :=
  forall i j a b, log !! i = Some a -> log !! j = Some b -> (i <= j)%nat -> tick a <= tick b.

Record stream_wf (apply_delta : I -> S -> D -> option S) (log : list Batch) (s : Sender) : Prop := {
  st_config : config_ok s.(config);
  st_next : s.(next_sequence) = len log + 1;
  st_next_max : s.(next_sequence) <= u64_max;
  st_ack : 0 <= s.(rs_acknowledged_sequence) <= len log;
  st_pending : s.(pending) = drop (Z.to_nat s.(rs_acknowledged_sequence)) log;
  st_capacity : len s.(pending) <= s.(config).(history_capacity);
  st_batches : forall i b, log !! i = Some b -> batch_ok s.(config) i b /\ tick b <= s.(last_tick);
  st_ticks : ticks_ordered log;
  st_last : 0 <= s.(last_tick);
  st_size : Z.of_nat (size s.(projected)) <= s.(config).(max_entities);
  st_projected : apply_events apply_delta s.(config).(max_entities) ∅ (concat (events <$> log))
                 = Ok s.(projected);
}.

Lemma new_stream_wf apply_delta c (s : Sender) :
  config_widths c -> ReplicationSender_new c = Ok s -> stream_wf apply_delta [] s.
Proof.
  intros Hw Hnew. unfold ReplicationSender_new in Hnew.
  destruct (ReplicationConfig_validate c) as [[]|] eqn:Hv; simplify_eq.
  pose proof (validate_ok c Hw Hv) as Hc.
  constructor; cbn; rewrite ?len_nil; try done.
  all: destruct Hc; try (rewrite map_size_empty); try lia.
Qed.

Lemma force_stream_wf apply_delta log s :
  stream_wf apply_delta log s -> stream_wf apply_delta log (ReplicationSender_force_keyframes s).
Proof. by intros []. Qed.

Lemma div_ceil_spec a b : 0 <= a -> 0 < b -> 0 <= div_ceil a b /\ a <= div_ceil a b * b.
Proof.
  intros Ha Hb. unfold div_ceil. pose proof (Z.div_mod (a + b - 1) b ltac:(lia)).
  pose proof (Z.mod_pos_bound (a + b - 1) b Hb).
  pose proof (Z.div_pos (a + b - 1) b ltac:(lia) Hb). nia.
Qed.

Lemma update_ok s tk visible delta n s' :
  ReplicationSender_update s tk visible delta = (Ok n, s') ->
  exists desired changed,
    let evs := despawn_events s.(projected) desired ++ changed in
    s.(last_tick) < tk /\ collect_visible ∅ visible = Ok desired /\
    Z.of_nat (size desired) <= s.(config).(max_entities) /\
    desired_events delta s.(projected) s.(force_keyframes) (btree_iter desired) = Ok changed /\
    n = div_ceil (len evs) s.(config).(max_events_per_batch) /\
    saturating_add usize_max (len s.(pending)) n <= s.(config).(history_capacity) /\
    s.(next_sequence) + n <= u64_max /\
    s' = {| config := s.(config);
            next_sequence := s.(next_sequence) + n;
            rs_acknowledged_sequence := s.(rs_acknowledged_sequence);
            last_tick := tk;
            projected := desired;
            pending := s.(pending) ++
              make_batches (Z.to_nat n) s.(next_sequence) tk
                s.(config).(max_events_per_batch) evs;
            force_keyframes := false |}.
Proof.
  intros Hrun. unfold ReplicationSender_update in Hrun.
  destruct (_ || _) eqn:Ht; [done|]. destruct (collect_visible ∅ visible) as [desired|]; [|done].
  destruct (_ <? Z.of_nat (size desired)) eqn:Hs; [done|].
  destruct (desired_events _ _ _ _) as [changed|] eqn:Hc; [|done].
  destruct (_ <? saturating_add _ _ _) eqn:Hh; [done|].
  destruct (checked_add _ _ _) as [next|] eqn:Hn; [|done]. apply checked_add_Some in Hn as [-> Hn].
  cbn in Hrun. injection Hrun as <- <-. breflect. exists desired, changed. cbv zeta.
  split_and!; try done; lia.
Qed.

Lemma update_err s tk visible delta e s' :
  ReplicationSender_update s tk visible delta = (Err e, s') -> s' = s.
Proof.
  unfold ReplicationSender_update, ok_or. intros Hrun. repeat (case_match; simplify_eq; try done).
Qed.

Lemma update_stream_wf apply_delta log s tk visible delta n s' desired :
  stream_wf apply_delta log s -> delta_law delta apply_delta ->
  ReplicationSender_update s tk visible delta = (Ok n, s') ->
  collect_visible ∅ visible = Ok desired -> state_law s.(projected) desired ->
  exists new, stream_wf apply_delta (log ++ new) s' /\ len new = n /\
    s'.(rs_acknowledged_sequence) = s.(rs_acknowledged_sequence) /\
    s'.(config) = s.(config) /\ s'.(projected) = desired /\ s'.(pending) = s.(pending) ++ new.
Proof.
  intros Hwf Hdelta Hrun Hvis Hlaw.
  apply update_ok in Hrun as (desired' & changed & Htick & Hvis' & Hsize & Hch & Hn & Hcap & Hmax & ->).
  rewrite Hvis in Hvis'. injection Hvis' as <-.
  set (evs := despawn_events s.(projected) desired ++ changed) in *.
  set (new := make_batches _ _ _ _ _). exists new.
  pose proof Hwf as [Hc Hnext Hnm Hack Hpend Hlen Hb Hto Hlast Hsz Hproj].
  destruct (div_ceil_spec (len evs) s.(config).(max_events_per_batch)) as [Hn0 Hfit];
    [apply len_nonneg|by destruct Hc|]. rewrite <-Hn in Hn0, Hfit.
  assert (Hnew : len new = n) by (unfold new, len; rewrite length_make_batches; lia).
  assert (Hnodup : NoDup (ReplicationEvent_entity <$> evs)) by (by eapply update_events_nodup).
  split_and!; try done. constructor; cbn.
  - done.
  - rewrite len_app, Hnew. lia.
  - lia.
  - rewrite len_app, Hnew. lia.
  - rewrite Hpend, drop_app_le; [done|]. unfold len in Hack. lia.
  - rewrite len_app. fold new. rewrite Hnew.
    assert (len (pending s) <= len log) by (rewrite Hpend; unfold len; rewrite length_drop; lia).
    rewrite saturating_add_exact in Hcap by (unfold usize_max; lia). done.
  - intros i b [Hi|[Hge Hi]]%lookup_app_Some.
    + destruct (Hb i b Hi) as [Hbo Ht]. split; [done|lia].
    + apply make_batches_lookup in Hi as (Hs & Ht & Hl & Hsub). split; [|lia].
      constructor; [unfold len in *; lia|lia| |].
      * destruct Hc as [_ Hev _ _]. unfold len. lia.
      * eapply sublist_NoDup; [exact Hnodup|]. by apply fmap_sublist.
  - intros i j a b Ha Hb' Hij. apply lookup_app_Some in Ha as [Ha|[Hia Ha]], Hb' as [Hb'|[Hjb Hb']].
    + by eapply Hto.
    + apply make_batches_lookup in Hb' as (_ & -> & _). destruct (Hb i a Ha). lia.
    + apply lookup_lt_Some in Hb'. lia.
    + apply make_batches_lookup in Hb' as (_ & -> & _), Ha as (_ & -> & _). lia.
  - lia.
  - done.
  - rewrite fmap_app, concat_app, apply_events_app, Hproj. unfold new.
    rewrite make_batches_events; [|by destruct Hc|by rewrite Z2Nat.id]. by eapply update_events_apply.
Qed.

(** *** Acknowledgements *)

Lemma release_batches_drop (l : list Batch) ack first :
  (forall i b, l !! i = Some b -> sequence b = first + Z.of_nat i) ->
  first - 1 <= ack ->
  release_front ack l = drop (Z.to_nat (ack - first + 1)) l.
Proof.
  revert first. induction l as [|b l IH]; intros first Hseq Hle; cbn; [by rewrite drop_nil|].
  pose proof (Hseq O b eq_refl) as Hb. destruct (Z.leb_spec (sequence b) ack).
  - rewrite (IH (first + 1)); [|intros i x Hx; rewrite (Hseq (Datatypes.S i) x Hx); lia|lia].
    replace (Z.to_nat (ack - first + 1)) with (Datatypes.S (Z.to_nat (ack - (first + 1) + 1))) by lia.
    done.
  - replace (Z.to_nat (ack - first + 1)) with O by lia. done.
Qed.

Lemma stream_pending_lookup apply_delta log s i b :
  stream_wf apply_delta log s -> s.(pending) !! i = Some b ->
  sequence b = s.(rs_acknowledged_sequence) + 1 + Z.of_nat i /\
  log !! Z.to_nat (sequence b - 1) = Some b.
Proof.
  intros Hwf Hi. rewrite (st_pending _ _ _ Hwf), lookup_drop in Hi. pose proof (st_ack _ _ _ Hwf).
  destruct (st_batches _ _ _ Hwf _ _ Hi) as [[Hs _ _ _] _]. split; [lia|].
  rewrite <-Hi. f_equal. lia.
Qed.

(** A true acknowledgement is accepted and releases exactly the batches it covers. *)
Lemma acknowledge_ok apply_delta log s ack b :
  stream_wf apply_delta log s -> 0 < ack.(acknowledged_sequence) ->
  log !! Z.to_nat (ack.(acknowledged_sequence) - 1) = Some b -> tick b = ack.(applied_tick) ->
  exists n s', ReplicationSender_acknowledge s ack = (Ok n, s') /\ stream_wf apply_delta log s' /\
    s'.(rs_acknowledged_sequence) =
      Z.max s.(rs_acknowledged_sequence) ack.(acknowledged_sequence) /\
    s'.(projected) = s.(projected) /\ s'.(config) = s.(config) /\
    n = len s.(pending) - len s'.(pending).
Proof.
  intros Hwf Hpos Hb Ht. pose proof Hwf as [Hc Hnext Hnm Hack Hpend Hlen Hbs Hto Hlast Hsz Hproj].
  pose proof (lookup_lt_Some _ _ _ Hb) as Hlt. unfold ReplicationSender_acknowledge.
  destruct (Z.ltb_spec (next_sequence s - 1) (acknowledged_sequence ack)); [unfold len in *; lia|].
  destruct (Z.leb_spec (acknowledged_sequence ack) (rs_acknowledged_sequence s)).
  { exists 0, s. split_and!; try done; lia. }
  set (i := Z.to_nat (acknowledged_sequence ack - 1 - rs_acknowledged_sequence s)).
  assert (Hi : s.(pending) !! i = Some b).
  { rewrite Hpend, lookup_drop, <-Hb. f_equal. lia. }
  assert (Hfind : list_find (fun x => sequence x = ack.(acknowledged_sequence)) s.(pending) = Some (i, b)).
  { apply list_find_Some. split_and!; [done| |].
    - apply (stream_pending_lookup _ _ _ _ _ Hwf) in Hi as [Hi _]. lia.
    - intros j y Hj Hji. apply (stream_pending_lookup _ _ _ _ _ Hwf) in Hj as [Hj _]. lia. }
  rewrite Hfind. cbn. rewrite Ht, Z.eqb_refl. cbn. do 2 eexists. split; [reflexivity|].
  assert (Hrel : release_front (acknowledged_sequence ack) (pending s) =
    drop (Z.to_nat (acknowledged_sequence ack)) log).
  { rewrite (release_batches_drop _ _ (rs_acknowledged_sequence s + 1)); [|..|lia].
    - rewrite Hpend, drop_drop. f_equal. lia.
    - intros j y Hj. by apply (stream_pending_lookup _ _ _ _ _ Hwf) in Hj as [Hj _]. }
  split_and!; cbn; try done; [|lia]. constructor; cbn; try done.
  - unfold len in *. lia.
  - rewrite Hrel. unfold len in *. rewrite length_drop in *. rewrite Hpend, length_drop in Hlen. lia.
Qed.

(** *** Packets *)

Lemma selected_indices_spec n r :
  0 < r -> r < n ->
  len (selected_indices n r) = r /\
  forall i, i ∈ selected_indices n r <-> i = 0 \/ n - (r - 1) <= i < n.
Proof.
  intros Hr Hn. unfold selected_indices, saturating_sub.
  replace (Z.max (r - 1) 0) with (r - 1) by lia.
  replace (Z.max (n - (r - 1)) 0) with (n - (r - 1)) by lia.
  replace (n - (n - (r - 1))) with (r - 1) by lia. split.
  - unfold len, sort_by_key. rewrite length_sort_by. change (length (elements ?X)) with (size X).
    rewrite size_union, size_singleton, size_list_to_set, length_seqZ; [lia|apply NoDup_seqZ|].
    apply disjoint_singleton_l. rewrite elem_of_list_to_set, elem_of_seqZ. lia.
  - intros i. unfold sort_by_key.
    rewrite elem_of_sort_by, elem_of_elements, elem_of_union, elem_of_singleton,
      elem_of_list_to_set, elem_of_seqZ. lia.
Qed.

(** A packet is within the redundancy limit, carries retained batches only, and always the oldest. *)
Lemma packet_spec s :
  config_ok s.(config) ->
  len (batches (ReplicationSender_packet s)) <= s.(config).(redundancy) /\
  (forall b, b ∈ batches (ReplicationSender_packet s) -> b ∈ s.(pending)) /\
  (forall b, head s.(pending) = Some b -> b ∈ batches (ReplicationSender_packet s)) /\
  (forall b, last s.(pending) = Some b -> 1 < s.(config).(redundancy) ->
    b ∈ batches (ReplicationSender_packet s)).
Proof.
  intros [Hr _ _ _]. unfold ReplicationSender_packet.
  destruct (Z.leb_spec (len (pending s)) (redundancy (config s))) as [Hle|Hgt]; cbn.
  { split_and!; [done|done|by apply head_Some_elem_of|]. intros b Hb _. by apply last_Some_elem_of. }
  destruct (selected_indices_spec (len (pending s)) (redundancy (config s))) as [Hlen Hin]; [lia|done|].
  split_and!.
  - rewrite <-Hlen at 2. unfold len. pose proof (length_omap_le (fun index => pending s !! Z.to_nat index)
      (selected_indices (len (pending s)) (redundancy (config s)))). unfold len in *. lia.
  - intros b (index & Hi & Hb)%list_elem_of_omap. by eapply list_elem_of_lookup_2.
  - intros b Hb. apply list_elem_of_omap. exists 0. split; [apply Hin; by left|].
    destruct (pending s); [done|]. by cbn in *.
  - intros b Hb Hred. apply list_elem_of_omap. exists (len (pending s) - 1).
    split; [apply Hin; right; lia|]. rewrite last_lookup in Hb. rewrite <-Hb. f_equal.
    unfold len. lia.
Qed.
End sender.

(** ** Properties *)

(** One update of the sender.  A refused update changes nothing.  A successful one queues batches
    numbered consecutively from the next sequence, stamped with the tick and within the event limit,
    whose events, applied in order to the entities the observer already knows, produce exactly the
    visible set: entities that left are despawned, new ones spawned, changed ones updated by delta or
    keyframe, and no intermediate state exceeds the entity limit. *)
Theorem replication_update_reaches_visible {I S D} `{Countable I, !Ord I}
    (apply_delta : I -> S -> D -> option S) (delta : I -> VersionedState S -> VersionedState S -> option D)
    (s s' : ReplicationSender I S D) (tk : Z) (visible : list (I * VersionedState S))
    (res : ReplicationResult Z) :
  config_ok s.(config) -> delta_law delta apply_delta ->
  (forall desired, collect_visible ∅ visible = Ok desired -> state_law s.(projected) desired) ->
  ReplicationSender_update s tk visible delta = (res, s') ->
  match res with
  | Err _ => s' = s
  | Ok n =>
      exists new desired,
        collect_visible ∅ visible = Ok desired /\ s'.(projected) = desired /\
        s'.(pending) = s.(pending) ++ new /\ len new = n /\
        s'.(next_sequence) = s.(next_sequence) + n /\ s'.(last_tick) = tk /\ s.(last_tick) < tk /\
        (forall i b, new !! i = Some b ->
           sequence b = s.(next_sequence) + Z.of_nat i /\ tick b = tk /\
           len (events b) <= s.(config).(max_events_per_batch)) /\
        apply_events apply_delta s.(config).(max_entities) s.(projected) (concat (events <$> new))
          = Ok desired
  end.
Proof.
  intros Hc Hd Hlaw Hrun. destruct res as [n|e]; [|by eapply update_err].
  apply update_ok in Hrun as (desired & changed & Htick & Hvis & Hsize & Hch & Hn & _ & _ & ->).
  set (evs := despawn_events s.(projected) desired ++ changed) in *.
  destruct (div_ceil_spec (len evs) s.(config).(max_events_per_batch)) as [Hn0 Hfit];
    [apply len_nonneg|by destruct Hc|]. rewrite <-Hn in Hn0, Hfit.
  eexists _, desired. cbn. split_and!; try done.
  - unfold len. rewrite length_make_batches. lia.
  - intros i b (Hs & Ht & Hl & _)%make_batches_lookup. split_and!; try done.
    destruct Hc as [_ Hev _ _]. unfold len. lia.
  - rewrite make_batches_events; [|by destruct Hc|by rewrite Z2Nat.id].
    eapply update_events_apply; eauto.
Qed.

Lemma replication_update_reaches_visible_witness :
  let s := {| config := ReplicationConfig_default; next_sequence := 3; rs_acknowledged_sequence := 2;
              last_tick := 7;
              projected := {[1 := {| version := 4; prediction_key := None; state := 10 |};
                             2 := {| version := 4; prediction_key := None; state := 20 |}]};
              pending := []; force_keyframes := false |} : ReplicationSender Z Z Z in
  let visible := [(1, {| version := 5; prediction_key := None; state := 13 |})] in
  let delta (i : Z) (a b : VersionedState Z) := Some (b.(state) - a.(state)) in
  exists new desired,
    (ReplicationSender_update s 9 visible delta).2.(pending) = new /\
    new = [{| sequence := 3; tick := 9; events := [Despawn 2; Update 1 4 5 3] |}] /\
    apply_events (fun _ s d => Some (s + d)) 4096 s.(projected) (concat (events <$> new)) = Ok desired.
Proof.
  intros s visible delta.
  destruct (replication_update_reaches_visible (fun _ s d => Some (s + d)) delta s
    (ReplicationSender_update s 9 visible delta).2 9 visible (Ok 1)) as (new & desired & _ & _ & Hp & _ & _ & _ & _ & _ & Happ).
  - constructor; cbn; unfold u64_max; lia.
  - intros i a b d [= <-]. f_equal. lia.
  - intros desired Hd i a b Ha Hb.
    assert (Hd' : collect_visible ∅ visible = Ok ({[1 := {| version := 5; prediction_key := None; state := 13 |}]}
      : gmap Z (VersionedState Z))) by (vm_compute; reflexivity).
    rewrite Hd' in Hd. injection Hd as <-. apply lookup_singleton_Some in Hb as [<- <-].
    unfold s in Ha. cbn in Ha. rewrite lookup_insert_eq in Ha. injection Ha as <-.
    split; [discriminate|reflexivity].
  - vm_compute. reflexivity.
  - exists new, desired. split; [exact Hp|]. split; [|exact Happ].
    refine (eq_trans (eq_sym Hp) _). vm_compute. reflexivity.
Defined.
