(* ===== verification/ReplicationReceiver.v ===== *)
(** * Replication receiver: [crates/elura-replication/src/receiver.rs]

    Batches are de-duplicated by the sequence window of [NetcodeInput], buffered above a gap, and
    applied in order: the changes of a packet are staged in an overlay and committed together. *)

From S2P Require Import Prelude NetcodeInput ReplicationProtocol.

Record ReplicationReceiveReport : Type := {
  applied_batches : Z;
  applied_events : Z;
  duplicate_batches : Z;
  acknowledgement : ReplicationAck;
}.

Record ReplicationReceiver (I S D : Type) `{Countable I} : Type := {
  config : ReplicationConfig;
  sequences : NetcodeInput.SequenceWindow;
  pending : gmap Z (ReplicationBatch I S D);
  entities : gmap I (VersionedState S);
  rr_applied_tick : Z;
}.
Arguments config {I S D _ _} _.
Arguments sequences {I S D _ _} _.
Arguments pending {I S D _ _} _.
Arguments entities {I S D _ _} _.
Arguments rr_applied_tick {I S D _ _} _.

Section receiver.
Context {I S D : Type} `{Countable I, !Ord I}.
Notation State := (VersionedState S).
Notation Event := (ReplicationEvent I S D).
Notation Batch := (ReplicationBatch I S D).
Notation Receiver := (ReplicationReceiver I S D).

Definition ReplicationReceiver_new (config : ReplicationConfig) : ReplicationResult Receiver :=
  let? _ := ReplicationConfig_validate config in
  let? sequences := map_err (fun _ => InvalidConfig "batch reorder window must be positive")
    (NetcodeInput.SequenceWindow_new config.(reorder_window)) in
  Ok {| config := config; sequences := sequences; pending := ∅; entities := ∅;
        rr_applied_tick := 0 |}.

(** *** Staging *)

Definition staged_entity (ents : gmap I State) (changes : gmap I (option State)) (entity : I) :
    option State :=
  match changes !! entity with
  | Some change => change
  | None => ents !! entity
  end.

Section stage.
Context (apply_delta : I -> S -> D -> option S).

(** One event of [stage_batch], after the check that its entity is new to the batch. *)
Definition stage_event (ents : gmap I State) (limit : Z) (changes : gmap I (option State))
    (count : Z) (e : Event) : ReplicationResult (gmap I (option State) * Z) :=
  match e with
  | Spawn entity version key state =>
      if bool_decide (is_Some (staged_entity ents changes entity)) || (limit <=? count) then
        Err (if bool_decide (is_Some (staged_entity ents changes entity))
             then InvalidPacket "spawned entity already exists" else EntityLimitExceeded)
      else
        Ok (<[entity := Some {| version := version; prediction_key := key; state := state |}]> changes,
            count + 1)
  | Despawn entity =>
      if negb (bool_decide (is_Some (staged_entity ents changes entity))) then
        Err (InvalidPacket "despawned entity does not exist")
      else Ok (<[entity := None]> changes, count - 1)
  | Update entity base new delta =>
      let? current := ok_or (staged_entity ents changes entity) BaselineMismatch in
      if negb (current.(version) =? base) || (new <=? base) then Err BaselineMismatch
      else
        let? s := ok_or (apply_delta entity current.(state) delta) DeltaRejected in
        Ok (<[entity := Some {| version := new; prediction_key := current.(prediction_key);
                                state := s |}]> changes, count)
  | Keyframe entity version key state =>
      let existed := bool_decide (is_Some (staged_entity ents changes entity)) in
      if negb existed && (limit <=? count) then Err EntityLimitExceeded
      else
        Ok (<[entity := Some {| version := version; prediction_key := key; state := state |}]> changes,
            if existed then count else count + 1)
  end.

(** The loop [for event in &batch.events]. *)
Fixpoint stage_events (ents : gmap I State) (limit : Z) (affected : gset I)
    (changes : gmap I (option State)) (count : Z) (l : list Event) :
    ReplicationResult (gmap I (option State) * Z) :=
  match l with
  | [] => Ok (changes, count)
  | e :: l =>
      if bool_decide (ReplicationEvent_entity e ∈ affected) then
        Err (InvalidPacket "batch changes one entity more than once")
      else
        let? (changes, count) := stage_event ents limit changes count e in
        stage_events ents limit ({[ReplicationEvent_entity e]} ∪ affected) changes count l
  end.

Definition stage_batch (ents : gmap I State) (changes : gmap I (option State)) (count : Z)
    (batch : Batch) (limit : Z) : ReplicationResult (gmap I (option State) * Z * Z) :=
  let? (changes, count) := stage_events ents limit ∅ changes count batch.(events) in
  Ok (changes, count, len batch.(events)).

(** *** Receiving *)

(** The loop [for batch in packet.batches]: the staged window, the accepted batches by sequence and
    the number of duplicates. *)
Fixpoint observe_batches (c : ReplicationConfig) (l : list Batch) (w : NetcodeInput.SequenceWindow)
    (accepted : gmap Z Batch) (dups : Z) :
    ReplicationResult (NetcodeInput.SequenceWindow * gmap Z Batch * Z) :=
  match l with
  | [] => Ok (w, accepted, dups)
  | batch :: l =>
      if (batch.(tick) =? 0) || (c.(max_events_per_batch) <? len batch.(events)) then
        Err (InvalidPacket "batch Tick or event count is invalid")
      else
        match NetcodeInput.SequenceWindow_observe w batch.(sequence) with
        | (Err _, _) => Err (InvalidPacket "batch sequence exceeds the reorder window")
        | (Ok NetcodeInput.Duplicate, w) => observe_batches c l w accepted (dups + 1)
        | (Ok NetcodeInput.Accepted, w) =>
            observe_batches c l w (<[batch.(sequence) := batch]> accepted) dups
        end
  end.

Record staging : Type := {
  sg_accepted : gmap Z Batch;
  sg_tick : Z;
  sg_changes : gmap I (option State);
  sg_count : Z;
  sg_batches : Z;
  sg_events : Z;
}.

(** The loop over the newly contiguous sequences. *)
Fixpoint apply_sequences (self : Receiver) (l : list Z) (g : staging) : ReplicationResult staging :=
  match l with
  | [] => Ok g
  | seq :: l =>
      let? batch :=
        ok_or (match g.(sg_accepted) !! seq with
               | Some batch => Some batch
               | None => self.(pending) !! seq
               end) (InvalidPacket "contiguous batch payload is missing") in
      if batch.(tick) <? g.(sg_tick) then
        Err (InvalidOrder "applied batch Tick moved backwards")
      else
        let? (changes, count, n) :=
          stage_batch self.(entities) g.(sg_changes) g.(sg_count) batch self.(config).(max_entities) in
        apply_sequences self l
          {| sg_accepted := delete seq g.(sg_accepted);
             sg_tick := batch.(tick);
             sg_changes := changes;
             sg_count := count;
             sg_batches := g.(sg_batches) + 1;
             sg_events := g.(sg_events) + n |}
  end.

(** The commit loop [for (entity, state) in entity_changes]. *)
Definition commit_changes (ents : gmap I State) (changes : gmap I (option State)) : gmap I State :=
  foldl (fun ents '(entity, change) =>
    match change with
    | Some st => <[entity := st]> ents
    | None => delete entity ents
    end) ents (btree_iter changes).

Definition ReplicationReceiver_receive (self : Receiver) (packet : ReplicationPacket I S D) :
    ReplicationResult ReplicationReceiveReport * Receiver :=
  if self.(config).(redundancy) <? len packet.(batches) then
    (Err (InvalidPacket "packet contains too many redundant batches"), self)
  else
    let sorted := sort_by_key sequence packet.(batches) in
    let old_acknowledged := self.(sequences).(NetcodeInput.sw_acknowledged) in
    let? (next_sequences, accepted, dups) :=
      observe_batches self.(config) sorted self.(sequences) ∅ 0 else self in
    let new_acknowledged := next_sequences.(NetcodeInput.sw_acknowledged) in
    let first := saturating_add u64_max old_acknowledged 1 in
    let? g := apply_sequences self (seqZ first (new_acknowledged + 1 - first))
      {| sg_accepted := accepted;
         sg_tick := self.(rr_applied_tick);
         sg_changes := ∅;
         sg_count := Z.of_nat (size self.(entities));
         sg_batches := 0;
         sg_events := 0 |} else self in
    (Ok {| applied_batches := g.(sg_batches);
           applied_events := g.(sg_events);
           duplicate_batches := dups;
           acknowledgement :=
             {| acknowledged_sequence := new_acknowledged; applied_tick := g.(sg_tick) |} |},
     {| config := self.(config);
        sequences := next_sequences;
        pending := g.(sg_accepted) ∪ filter (fun p => new_acknowledged < p.1) self.(pending);
        entities := commit_changes self.(entities) g.(sg_changes);
        rr_applied_tick := g.(sg_tick) |}).
End stage.

Definition ReplicationReceiver_reset (self : Receiver) : ReplicationResult unit * Receiver :=
  let? sequences := map_err (fun _ => InvalidConfig "batch reorder window must be positive")
    (NetcodeInput.SequenceWindow_new self.(config).(reorder_window)) else self in
  (Ok (), {| config := self.(config); sequences := sequences; pending := ∅; entities := ∅;
             rr_applied_tick := 0 |}).

(** ** Staging agrees with the reference *)

Lemma commit_fold_lookup l : forall (ents : gmap I State) k,
  NoDup l.*1 ->
  foldl (fun ents '(entity, change) =>
    match change with Some st => <[entity := st]> ents | None => delete entity ents end) ents l !! k =
  match list_to_map (M := gmap I (option State)) l !! k with Some change => change | None => ents !! k end.
Proof.
  induction l as [|[j change] l IH]; intros ents k Hnd; cbn; [done|].
  rewrite fmap_cons in Hnd. apply NoDup_cons in Hnd as [Hj Hnd]. rewrite IH by done.
  destruct (decide (k = j)) as [->|Hne].
  - rewrite lookup_insert_eq. rewrite (not_elem_of_list_to_map_1 l j Hj).
    destruct change; [by rewrite lookup_insert_eq|by rewrite lookup_delete_eq].
  - rewrite (lookup_insert_ne _ j) by done. destruct (list_to_map l !! k); [done|].
    destruct change; [by rewrite lookup_insert_ne|by rewrite lookup_delete_ne].
Qed.

Lemma commit_lookup (ents : gmap I State) changes k :
  commit_changes ents changes !! k = staged_entity ents changes k.
Proof.
  unfold commit_changes, staged_entity. rewrite commit_fold_lookup by apply btree_iter_nodup.
  rewrite (list_to_map_proper _ (map_to_list changes)) by (apply btree_iter_nodup || apply btree_iter_perm).
  by rewrite list_to_map_to_list.
Qed.

Lemma commit_empty (ents : gmap I State) : commit_changes ents ∅ = ents.
Proof. apply map_eq. intros k. rewrite commit_lookup. unfold staged_entity. by rewrite lookup_empty. Qed.

Lemma commit_insert (ents : gmap I State) changes k x :
  commit_changes ents (<[k := x]> changes) =
  match x with
  | Some st => <[k := st]> (commit_changes ents changes)
  | None => delete k (commit_changes ents changes)
  end.
Proof.
  apply map_eq. intros j. rewrite commit_lookup. unfold staged_entity.
  destruct (decide (j = k)) as [->|Hne].
  - rewrite lookup_insert_eq. destruct x; [by rewrite lookup_insert_eq|by rewrite lookup_delete_eq].
  - rewrite lookup_insert_ne by done. fold (staged_entity ents changes j).
    destruct x; rewrite ?lookup_insert_ne, ?lookup_delete_ne by done; by rewrite commit_lookup.
Qed.

Section stage_spec.
Context (apply_delta : I -> S -> D -> option S) (ents : gmap I State) (limit : Z).

(** One staged event is one event on the committed map, errors included. *)
Lemma stage_event_apply changes e :
  let m := commit_changes ents changes in
  match stage_event apply_delta ents limit changes (Z.of_nat (size m)) e with
  | Ok (changes', count') =>
      apply_event apply_delta limit m e = Ok (commit_changes ents changes') /\
      count' = Z.of_nat (size (commit_changes ents changes'))
  | Err err => apply_event apply_delta limit m e = Err err
  end.
Proof.
  intros m. destruct e as [k v key st|k|k base v d|k v key st]; cbn; rewrite <-commit_lookup; fold m.
  - destruct (m !! k) as [x|] eqn:Hk.
    + rewrite bool_decide_true by eauto. done.
    + rewrite bool_decide_false by (by intros []). cbn. destruct (limit <=? _); [done|].
      rewrite commit_insert. fold m. split; [done|]. rewrite map_size_insert_None by done. lia.
  - destruct (m !! k) as [x|] eqn:Hk.
    + rewrite bool_decide_true by eauto. cbn. rewrite commit_insert. fold m. split; [done|].
      rewrite map_size_delete, Hk.
      destruct (size m) eqn:Hsz; [|cbn; lia]. exfalso. apply map_size_empty_inv in Hsz.
      by rewrite Hsz, lookup_empty in Hk.
    + rewrite bool_decide_false by (by intros []). done.
  - destruct (m !! k) as [x|] eqn:Hk; cbn; [|done]. destruct (_ || _); [done|].
    destruct (apply_delta k (state x) d); cbn; [|done]. rewrite commit_insert. fold m.
    split; [done|]. rewrite map_size_insert_Some by eauto. done.
  - destruct (m !! k) as [x|] eqn:Hk.
    + rewrite bool_decide_true by eauto. cbn. rewrite commit_insert. fold m. split; [done|].
      rewrite map_size_insert_Some by eauto. done.
    + rewrite bool_decide_false by (by intros []). cbn. destruct (limit <=? _); [done|].
      rewrite commit_insert. fold m. split; [done|]. rewrite map_size_insert_None by done. lia.
Qed.

Lemma stage_events_apply l : forall affected changes,
  let m := commit_changes ents changes in
  match stage_events apply_delta ents limit affected changes (Z.of_nat (size m)) l with
  | Ok (changes', count') =>
      apply_events apply_delta limit m l = Ok (commit_changes ents changes') /\
      count' = Z.of_nat (size (commit_changes ents changes')) /\
      NoDup (ReplicationEvent_entity <$> l) /\
      Forall (fun e => ReplicationEvent_entity e ∉ affected) l
  | Err _ =>
      (exists err, apply_events apply_delta limit m l = Err err) \/
      ~ NoDup (ReplicationEvent_entity <$> l) \/
      ~ Forall (fun e => ReplicationEvent_entity e ∉ affected) l
  end.
Proof.
  induction l as [|e l IH]; intros affected changes m; cbn [stage_events apply_events].
  { split_and!; [done|done|apply NoDup_nil_2|constructor]. }
  case_bool_decide as Haff; [right; right; by rewrite Forall_cons; intros []|].
  pose proof (stage_event_apply changes e) as Hev. cbv zeta in Hev. fold m in Hev.
  destruct (stage_event apply_delta ents limit changes (Z.of_nat (size m)) e) as [[c1 n1]|err].
  2: { left. exists err. by rewrite Hev. }
  destruct Hev as [-> ->]. specialize (IH ({[ReplicationEvent_entity e]} ∪ affected) c1). cbv zeta in IH.
  assert (Hsplit : Forall (fun e' => ReplicationEvent_entity e' ∉ ({[ReplicationEvent_entity e]} ∪ affected : gset I)) l
    <-> ReplicationEvent_entity e ∉ ReplicationEvent_entity <$> l /\
        Forall (fun e' => ReplicationEvent_entity e' ∉ affected) l).
  { rewrite !Forall_forall. split.
    - intros Hall. split; [|set_solver]. intros (e' & He & Hin)%list_elem_of_fmap.
      specialize (Hall e' Hin). set_solver.
    - intros [Hno Hall] e' Hin. specialize (Hall e' Hin).
      assert (ReplicationEvent_entity e' <> ReplicationEvent_entity e); [|set_solver].
      intros Heq. apply Hno, list_elem_of_fmap. by exists e'. }
  destruct (stage_events _ _ _ _ _ _ _) as [[c2 n2]|err]; rewrite Hsplit in IH;
    rewrite fmap_cons, NoDup_cons, Forall_cons.
  - destruct IH as (Hrun & Hn & Hnd & Hno & Hall). done.
  - destruct IH as [IH|[IH|IH]]; [by left|right; left; tauto|].
    right. destruct (decide (ReplicationEvent_entity e ∈ ReplicationEvent_entity <$> l)); [left; tauto|].
    right. tauto.
Qed.

Lemma stage_batch_apply tk changes b :
  let m := commit_changes ents changes in
  tk <= tick b ->
  match stage_batch apply_delta ents changes (Z.of_nat (size m)) b limit with
  | Ok (changes', count', n) =>
      apply_batch apply_delta limit (tk, m) b = Some (tick b, commit_changes ents changes') /\
      count' = Z.of_nat (size (commit_changes ents changes')) /\ n = len (events b)
  | Err _ => apply_batch apply_delta limit (tk, m) b = None
  end.
Proof.
  intros m Htk. unfold stage_batch, apply_batch. cbn [fst snd].
  destruct (Z.ltb_spec (tick b) tk); [lia|].
  pose proof (stage_events_apply (events b) ∅ changes) as Hst. cbv zeta in Hst. fold m in Hst.
  destruct (stage_events _ _ _ _ _ _ _) as [[c1 n1]|err].
  - destruct Hst as (Hrun & Hn & Hnd & _). rewrite bool_decide_true by done. by rewrite Hrun.
  - case_bool_decide as Hnd; [|done]. destruct Hst as [[e ->]|[Hst|Hst]]; [done|done|].
    exfalso. apply Hst. apply Forall_true. set_solver.
Qed.
End stage_spec.

(** ** The contiguous run *)

(** The batch stored for a sequence: accepted from this packet, or buffered before. *)
Definition stored (self : Receiver) (accepted : gmap Z Batch) (seq : Z) : option Batch :=
  match accepted !! seq with
  | Some b => Some b
  | None => self.(pending) !! seq
  end.

Lemma apply_sequences_apply apply_delta (self : Receiver) l : forall g,
  NoDup l -> g.(sg_count) = Z.of_nat (size (commit_changes self.(entities) g.(sg_changes))) ->
  let limit := self.(config).(max_entities) in
  let m := commit_changes self.(entities) g.(sg_changes) in
  match apply_sequences apply_delta self l g with
  | Ok g' =>
      exists bs, mapM (stored self g.(sg_accepted)) l = Some bs /\
        apply_batches apply_delta limit (g.(sg_tick), m) bs =
          Some (g'.(sg_tick), commit_changes self.(entities) g'.(sg_changes)) /\
        g'.(sg_accepted) = foldr delete g.(sg_accepted) l /\
        g'.(sg_batches) = g.(sg_batches) + len l /\
        g'.(sg_events) = g.(sg_events) + len (concat (events <$> bs))
  | Err _ =>
      mapM (stored self g.(sg_accepted)) l = None \/
      exists bs, mapM (stored self g.(sg_accepted)) l = Some bs /\
        apply_batches apply_delta limit (g.(sg_tick), m) bs = None
  end.
Proof.
  induction l as [|seq l IH]; intros g Hnd Hcount limit m; cbn [apply_sequences].
  { exists []. cbn. rewrite len_nil. split_and!; [done|done|done|lia|unfold len; cbn; lia]. }
  apply NoDup_cons in Hnd as [Hseq Hnd]. cbn [mapM]. fold (stored self g.(sg_accepted) seq).
  destruct (stored self (sg_accepted g) seq) as [b|] eqn:Hb; cbn [ok_or mbind option_bind]; [|by left].
  assert (Hmap : mapM (stored self (delete seq g.(sg_accepted))) l = mapM (stored self g.(sg_accepted)) l).
  { apply mapM_ext_in. intros x Hx. unfold stored. rewrite lookup_delete_ne; [done|]. set_solver. }
  destruct (Z.ltb_spec (tick b) (sg_tick g)) as [Hlt|Hge].
  { destruct (mapM (stored self (sg_accepted g)) l) as [bs|]; [right|by left]. exists (b :: bs).
    split; [done|]. cbn. unfold apply_batch. cbn. by rewrite (proj2 (Z.ltb_lt _ _) Hlt). }
  pose proof (stage_batch_apply apply_delta self.(entities) limit g.(sg_tick) g.(sg_changes) b Hge) as Hst.
  cbv zeta in Hst. fold m in Hst. rewrite Hcount. fold m limit.
  destruct (stage_batch apply_delta (entities self) (sg_changes g) _ b limit) as [[[c1 n1] k]|err].
  2: { destruct (mapM (stored self (sg_accepted g)) l) as [bs|]; [right|by left]. exists (b :: bs).
       split; [done|]. cbn. by rewrite Hst. }
  destruct Hst as (Hst & Hn & ->).
  specialize (IH {| sg_accepted := delete seq g.(sg_accepted); sg_tick := tick b; sg_changes := c1;
    sg_count := n1; sg_batches := sg_batches g + 1; sg_events := sg_events g + len (events b) |} Hnd Hn).
  cbn -[apply_sequences apply_batches mapM] in IH. fold limit in IH. rewrite Hmap in IH.
  destruct (apply_sequences apply_delta self l _) as [g'|err].
  - destruct IH as (bs & -> & Hbs & Hacc & Hnb & Hne). exists (b :: bs). split; [done|].
    rewrite len_cons. split_and!.
    + cbn [apply_batches]. fold m. rewrite Hst. exact Hbs.
    + rewrite Hacc. cbn. clear. induction l as [|x l IH]; cbn; [done|]. rewrite IH. apply delete_delete.
    + lia.
    + rewrite Hne. cbn. rewrite len_app. lia.
  - destruct IH as [->|(bs & -> & Hbs)]; [by left|]. right. exists (b :: bs). split; [done|].
    cbn [apply_batches]. fold m. rewrite Hst. exact Hbs.
Qed.

(** ** Observing a packet *)

Notation received := NetcodeInput.Window.received.
Notation window_wf := NetcodeInput.Window.wf.
Notation ack_of w := (NetcodeInput.sw_acknowledged w).

(** A batch that passes the checks made before its events are looked at. *)
Definition admissible (c : ReplicationConfig) (w : NetcodeInput.SequenceWindow) (b : Batch) : Prop :=
  tick b <> 0 /\ len (events b) <= c.(max_events_per_batch) /\ sequence b <> 0 /\
  (received w (sequence b) \/
   sequence b <= saturating_add u64_max (ack_of w) (NetcodeInput.sw_reorder_window w)).

Record observation (l : list Batch) (w w' : NetcodeInput.SequenceWindow) (acc acc' : gmap Z Batch) :
    Prop := {
  ob_wf : window_wf w';
  ob_window : NetcodeInput.sw_reorder_window w' = NetcodeInput.sw_reorder_window w;
  ob_ack : ack_of w <= ack_of w';
  ob_received : forall s, received w' s <-> s ∈ sequence <$> l \/ received w s;
  ob_old : forall s, received w s -> acc' !! s = acc !! s;
  ob_new : forall s, received w' s -> ~ received w s ->
    exists b, acc' !! s = Some b /\ b ∈ l /\ sequence b = s;
  ob_none : forall s, ~ received w' s -> acc' !! s = acc !! s;
}.

Lemma observe_batches_spec c l : forall w acc dups,
  window_wf w -> Forall (fun b => u64_ok (sequence b)) l ->
  match observe_batches c l w acc dups with
  | Ok (w', acc', dups') => observation l w w' acc acc'
  | Err _ => exists b, b ∈ l /\ ~ admissible c w b
  end.
Proof.
  induction l as [|b l IH]; intros w acc dups Hwf Hok; cbn [observe_batches].
  { constructor; try done. intros s. set_solver. }
  apply Forall_cons in Hok as [Hb Hok].
  destruct (_ || _) eqn:Hbad; breflect.
  { exists b. split; [left|]. intros (Ha & He & _). destruct Hbad; breflect; lia. }
  pose proof (NetcodeInput.Window.observe_ok w (sequence b) Hwf Hb) as Hobs.
  destruct (NetcodeInput.SequenceWindow_observe w (sequence b)) as [[[]|err] w1]; cbn in Hobs.
  - destruct Hobs as (Hwf1 & Hwin & Hack & Hfresh & Hpos & Hrec).
    specialize (IH w1 (<[sequence b := b]> acc) dups Hwf1 Hok).
    destruct (observe_batches _ _ _ _ _) as [[[w2 acc2] dups2]|err].
    + destruct IH as [Ow Owin Oack Orec Oold Onew Onone]. constructor.
      * done.
      * congruence.
      * lia.
      * intros s. rewrite Orec, Hrec, fmap_cons, elem_of_cons. tauto.
      * intros s Hs. rewrite Oold by (apply Hrec; auto). rewrite lookup_insert_ne; [done|]. congruence.
      * intros s Hs Hns. destruct (decide (s = sequence b)) as [->|Hne].
        -- exists b. rewrite Oold by (apply Hrec; auto). rewrite lookup_insert_eq.
           split_and!; [done|left|done].
        -- destruct (Onew s Hs) as (b' & Hb' & Hin & Heq); [rewrite Hrec; tauto|].
           exists b'. split_and!; [done|by right|done].
      * intros s Hs. rewrite Onone by done. rewrite lookup_insert_ne; [done|]. intros <-.
        apply Hs, Orec. right. apply Hrec. by left.
    + destruct IH as (b' & Hin & Hbad'). exists b'. split; [by right|]. intros (Ha & He & Hs & Hr).
      apply Hbad'. split_and!; try done. destruct Hr as [Hr|Hr]; [left; apply Hrec; auto|right].
      rewrite Hwin. unfold saturating_add in *. lia.
  - destruct Hobs as [-> Hrec]. specialize (IH w acc (dups + 1) Hwf Hok).
    destruct (observe_batches _ _ _ _ _) as [[[w2 acc2] dups2]|err].
    + destruct IH as [Ow Owin Oack Orec Oold Onew Onone]. constructor; try done.
      * intros s. rewrite Orec, fmap_cons, elem_of_cons. naive_solver.
      * intros s Hs Hns. destruct (Onew s Hs Hns) as (b' & Hb' & Hin & Heq).
        exists b'. split_and!; [done|by right|done].
    + destruct IH as (b' & Hin & Hbad'). exists b'. split; [by right|done].
  - destruct Hobs as [-> Hobs]. exists b. split; [left|]. intros (_ & _ & Hs & Hr).
    destruct Hobs as [Hobs|[Hn Hobs]]; [done|]. destruct Hr; [done|lia].
Qed.

(** ** Well-formed receivers *)

Record receiver_wf (r : Receiver) : Prop := {
  rw_config : config_ok r.(config);
  rw_window : window_wf r.(sequences);
  rw_same : NetcodeInput.sw_reorder_window r.(sequences) = r.(config).(reorder_window);
  rw_pending : forall s, is_Some (r.(pending) !! s) <-> s ∈ NetcodeInput.sw_pending r.(sequences);
  rw_keys : forall s b, r.(pending) !! s = Some b -> sequence b = s;
  rw_size : Z.of_nat (size r.(entities)) <= r.(config).(max_entities);
}.

Lemma new_replica_wf c (r : Receiver) :
  config_widths c -> ReplicationReceiver_new c = Ok r -> receiver_wf r.
Proof.
  intros Hw Hnew. unfold ReplicationReceiver_new in Hnew.
  destruct (ReplicationConfig_validate c) as [[]|] eqn:Hv; [|done].
  pose proof (validate_ok c Hw Hv) as Hc.
  destruct (NetcodeInput.SequenceWindow_new (reorder_window c)) as [w|] eqn:Hwin; cbn in Hnew; simplify_eq.
  destruct (NetcodeInput.Window.new_wf (reorder_window c) w) as (Hwf & _); [by destruct Hw as (_ & _ & _ & _ & ?)|done|].
  unfold NetcodeInput.SequenceWindow_new, NetcodeInput.SequenceWindow_with_acknowledged in Hwin.
  case_match; simplify_eq. constructor; cbn; try done.
  - intros s. rewrite lookup_empty. split; [by intros []|set_solver].
  - rewrite map_size_empty. destruct Hc. lia.
Qed.

Lemma window_pending_iff w s :
  window_wf w -> s ∈ NetcodeInput.sw_pending w <-> received w s /\ ack_of w < s.
Proof.
  intros Hwf. split.
  - intros Hs. split; [by right|]. apply (NetcodeInput.Window.wf_pending w Hwf) in Hs. lia.
  - intros [[Hs|Hs] Hlt]; [lia|done].
Qed.

Lemma foldr_delete_lookup {A} (l : list Z) (m : gmap Z A) k :
  foldr delete m l !! k = if bool_decide (k ∈ l) then None else m !! k.
Proof.
  induction l as [|x l IH]; cbn; [done|]. destruct (decide (k = x)) as [->|Hne].
  - rewrite lookup_delete_eq, bool_decide_true by set_solver. done.
  - rewrite lookup_delete_ne, IH by done. erewrite bool_decide_ext; [done|]. set_solver.
Qed.

(** The sequences that become contiguous. *)
Definition run_of (old new : Z) : list Z := seqZ (old + 1) (new - old).

(** A successful call: what it applied, and the receiver it leaves. *)
Record reception (apply_delta : I -> S -> D -> option S) (r : Receiver)
    (packet : ReplicationPacket I S D) (report : ReplicationReceiveReport) (r' : Receiver)
    (bs : list Batch) : Prop := {
  rc_wf : receiver_wf r';
  rc_config : r'.(config) = r.(config);
  rc_ack : ack_of r.(sequences) <= ack_of r'.(sequences);
  rc_received : forall s, received r'.(sequences) s <->
    s ∈ sequence <$> packet.(batches) \/ received r.(sequences) s;
  rc_run : sequence <$> bs = run_of (ack_of r.(sequences)) (ack_of r'.(sequences));
  rc_source : forall b, b ∈ bs -> b ∈ packet.(batches) \/ r.(pending) !! sequence b = Some b;
  rc_apply : apply_batches apply_delta r.(config).(max_entities) (r.(rr_applied_tick), r.(entities)) bs
    = Some (r'.(rr_applied_tick), r'.(entities));
  rc_pending : forall s b, r'.(pending) !! s = Some b ->
    b ∈ packet.(batches) \/ r.(pending) !! s = Some b;
  rc_report : report.(applied_batches) = len bs /\
    report.(applied_events) = len (concat (events <$> bs)) /\
    report.(acknowledgement) = {| acknowledged_sequence := ack_of r'.(sequences);
                                  applied_tick := r'.(rr_applied_tick) |};
}.

Lemma elem_of_run old new s : s ∈ run_of old new <-> old < s <= new.
Proof. unfold run_of. rewrite elem_of_seqZ. lia. Qed.

Section reception.
Context (r : Receiver) (l : list Batch) (w' : NetcodeInput.SequenceWindow) (acc : gmap Z Batch).
Context (Hwf : receiver_wf r) (Hobs : observation l r.(sequences) w' ∅ acc).
Let run := run_of (ack_of r.(sequences)) (ack_of w').

Lemma stored_run seq :
  seq ∈ run -> exists b, stored r acc seq = Some b /\ sequence b = seq /\
    (b ∈ l \/ r.(pending) !! seq = Some b).
Proof.
  intros Hseq%elem_of_run. destruct Hobs as [Ow Owin Oack Orec Oold Onew Onone].
  pose proof (NetcodeInput.Window.wf_ack _ (rw_window r Hwf)) as Ha. unfold fits in Ha. unfold stored.
  destruct (decide (received (sequences r) seq)) as [Hr|Hr].
  - rewrite Oold, lookup_empty by done.
    destruct (proj2 (rw_pending r Hwf seq)) as [b Hb].
    { apply window_pending_iff; [apply Hwf|]. split; [done|lia]. }
    exists b. split_and!; [done|by apply (rw_keys r Hwf)|by right].
  - destruct (Onew seq) as (b & Hb & Hin & Hsb); [left; lia|done|]. rewrite Hb. eauto.
Qed.

Lemma stored_run_all :
  exists bs, mapM (stored r acc) run = Some bs /\ sequence <$> bs = run /\
    forall b, b ∈ bs -> b ∈ l \/ r.(pending) !! sequence b = Some b.
Proof.
  destruct (mapM (stored r acc) run) as [bs|] eqn:Hm.
  - exists bs. apply mapM_Some in Hm. split; [done|].
    assert (Hall : Forall2 (fun s b => sequence b = s /\ (b ∈ l \/ r.(pending) !! s = Some b)) run bs).
    { rewrite Forall2_same_length_lookup in Hm |- *. destruct Hm as [Hlen Hm]. split; [done|].
      intros j s b Hs Hb. destruct (stored_run s) as (b' & Hb' & Hsb & Hsrc);
        [by eapply list_elem_of_lookup_2|]. rewrite (Hm j s b Hs Hb) in Hb'. by simplify_eq. }
    split.
    + clear Hm. induction Hall as [|s b k bs [Hs _] _ IH]; [done|]. cbn. by rewrite Hs, IH.
    + intros b Hb. apply list_elem_of_lookup in Hb as [j Hj].
      destruct (Forall2_lookup_r _ _ _ _ _ Hall Hj) as (s & _ & <- & Hsrc). done.
  - apply mapM_None in Hm. rewrite Exists_exists in Hm. destruct Hm as (s & Hs & Hnone).
    destruct (stored_run s Hs) as (b & Hb & _). congruence.
Qed.

Lemma pending_after s :
  let pend := foldr delete acc run ∪ filter (fun p => ack_of w' < p.1) r.(pending) in
  (is_Some (pend !! s) <-> s ∈ NetcodeInput.sw_pending w') /\
  (forall b, pend !! s = Some b -> sequence b = s /\ (b ∈ l \/ r.(pending) !! s = Some b)).
Proof.
  intros pend. destruct Hobs as [Ow Owin Oack Orec Oold Onew Onone].
  assert (Hacc : forall b, foldr delete acc run !! s = Some b ->
    received w' s /\ ack_of w' < s /\ b ∈ l /\ sequence b = s).
  { intros b Hb. rewrite foldr_delete_lookup in Hb. case_bool_decide as Hrun; [done|].
    destruct (decide (received (sequences r) s)) as [Hr|Hr].
    { by rewrite Oold, lookup_empty in Hb. }
    destruct (decide (received w' s)) as [Hr'|Hr']; [|by rewrite Onone, lookup_empty in Hb].
    destruct (Onew s Hr' Hr) as (b' & Hb' & Hin & Hsb). rewrite Hb in Hb'. injection Hb' as <-.
    split_and!; try done.
    destruct (decide (ack_of w' < s)) as [|Hle]; [done|]. destruct Hrun. apply elem_of_run.
    destruct (decide (ack_of (sequences r) < s)); [lia|]. destruct Hr. left.
    pose proof (NetcodeInput.Window.wf_ack _ Ow). destruct Hr' as [?|Hp]; [lia|].
    apply (NetcodeInput.Window.wf_pending _ Ow) in Hp. lia. }
  rewrite window_pending_iff by done. unfold pend. split; [split|].
  - intros [b [Hb|[_ [Hb Hlt]%map_lookup_filter_Some]]%lookup_union_Some_raw].
    + destruct (Hacc b Hb) as (? & ? & _). done.
    + cbn in Hlt. split; [|done]. apply Orec. right. right. apply (rw_pending r Hwf). eauto.
  - intros [Hr' Hlt]. rewrite lookup_union_is_Some.
    destruct (decide (received (sequences r) s)) as [Hr|Hr].
    + right. destruct (proj2 (rw_pending r Hwf s)) as [b Hb].
      { apply window_pending_iff; [apply Hwf|]. split; [done|lia]. }
      exists b. apply map_lookup_filter_Some. done.
    + left. destruct (Onew s Hr' Hr) as (b & Hb & _). exists b.
      rewrite foldr_delete_lookup, bool_decide_false; [done|]. unfold run. rewrite elem_of_run. lia.
  - intros b [Hb|[_ [Hb _]%map_lookup_filter_Some]]%lookup_union_Some_raw.
    + destruct (Hacc b Hb) as (_ & _ & ? & ?). auto.
    + split; [by apply (rw_keys r Hwf)|auto].
Qed.
End reception.

Lemma receive_spec apply_delta (r : Receiver) packet :
  receiver_wf r -> Forall (fun b => u64_ok (sequence b)) packet.(batches) ->
  ack_of r.(sequences) < u64_max ->
  match ReplicationReceiver_receive apply_delta r packet with
  | (Ok report, r') => exists bs, reception apply_delta r packet report r' bs
  | (Err _, r') => r' = r /\
      (r.(config).(redundancy) < len packet.(batches) \/
       (exists b, b ∈ packet.(batches) /\ ~ admissible r.(config) r.(sequences) b) \/
       (exists bs n, sequence <$> bs = run_of (ack_of r.(sequences)) n /\
          (forall b, b ∈ bs -> b ∈ packet.(batches) \/ r.(pending) !! sequence b = Some b) /\
          apply_batches apply_delta r.(config).(max_entities)
            (r.(rr_applied_tick), r.(entities)) bs = None))
  end.
Proof.
  intros Hwf Hok Hmax. unfold ReplicationReceiver_receive.
  destruct (Z.ltb_spec (redundancy (config r)) (len (batches packet))) as [|Hlen]; [by auto|].
  assert (Hperm : sort_by_key sequence (batches packet) ≡ₚ batches packet) by apply sort_by_perm.
  set (sorted := sort_by_key sequence (batches packet)) in *.
  assert (Hok' : Forall (fun b => u64_ok (sequence b)) sorted) by (by rewrite Hperm).
  pose proof (observe_batches_spec r.(config) sorted r.(sequences) ∅ 0 (rw_window r Hwf) Hok') as Hobs.
  destruct (observe_batches _ sorted _ _ _) as [[[w' acc] dups]|err].
  2: { split; [done|]. right; left. destruct Hobs as (b & Hb & Hbad). exists b.
       split; [by rewrite <-Hperm|done]. }
  rewrite saturating_add_exact by lia.
  replace (ack_of w' + 1 - (ack_of (sequences r) + 1)) with (ack_of w' - ack_of (sequences r)) by lia.
  fold (run_of (ack_of (sequences r)) (ack_of w')).
  destruct (stored_run_all r sorted w' acc Hwf Hobs) as (bs & Hbs & Hseq & Hsrc).
  set (g0 := Build_staging acc _ _ _ _ _).
  pose proof (apply_sequences_apply apply_delta r (run_of (ack_of (sequences r)) (ack_of w')) g0) as Happ.
  assert (Hcount : g0.(sg_count) = Z.of_nat (size (commit_changes r.(entities) g0.(sg_changes)))).
  { unfold g0. cbn. by rewrite commit_empty. }
  specialize (Happ (NoDup_seqZ _ _) Hcount). cbv zeta in Happ.
  destruct (apply_sequences apply_delta r _ g0) as [g'|err].
  - destruct Happ as (bs' & Hbs' & Hrun & Hacc & Hnb & Hne). unfold g0 in *. cbn in *.
    rewrite Hbs in Hbs'. injection Hbs' as <-. rewrite commit_empty in Hrun. exists bs.
    pose proof (pending_after r sorted w' acc Hwf Hobs) as Hpend. cbv zeta in Hpend. rewrite <-Hacc in Hpend.
    pose proof Hobs as [Ow Owin Oack Orec _ _ _].
    constructor; cbn; try done.
    + constructor; cbn.
      * apply Hwf.
      * done.
      * rewrite Owin. apply Hwf.
      * intros s. apply Hpend.
      * intros s b Hb. by apply Hpend in Hb as [? _].
      * eapply apply_batches_size in Hrun; [exact Hrun|apply Hwf].
    + intros s. rewrite Orec. by rewrite Hperm.
    + intros b Hb. rewrite <-Hperm. auto.
    + intros s b Hb. apply Hpend in Hb as [_ Hb]. by rewrite <-Hperm.
    + rewrite Hnb, Hne. split_and!; [|lia|done]. unfold len. rewrite <-Hseq, length_fmap. lia.
  - split; [done|]. right; right. exists bs, (ack_of w'). split; [done|]. split.
    + intros b Hb. rewrite <-Hperm. auto.
    + unfold g0 in Happ. cbn in Happ. destruct Happ as [Happ|(bs' & Hbs' & Happ)]; [congruence|].
      rewrite Hbs in Hbs'. injection Hbs' as <-. by rewrite commit_empty in Happ.
Qed.
End receiver.

(** ** Properties *)

(** Staging a batch in the overlay is applying it to the entities.  For any overlay, [stage_batch]
    succeeds exactly when the batch names every entity at most once and all its events apply in order
    to the entities as the overlay shows them; the new overlay then commits to the resulting entities,
    and the running count is their number. *)
Theorem staging_matches_reference {I S D} `{Countable I, !Ord I} (apply_delta : I -> S -> D -> option S)
    (ents : gmap I (VersionedState S)) (changes : gmap I (option (VersionedState S))) (limit : Z)
    (b : ReplicationBatch I S D) :
  let m := commit_changes ents changes in
  match stage_batch apply_delta ents changes (Z.of_nat (size m)) b limit with
  | Ok (changes', count', n) =>
      NoDup (ReplicationEvent_entity <$> b.(events)) /\
      apply_events apply_delta limit m b.(events) = Ok (commit_changes ents changes') /\
      count' = Z.of_nat (size (commit_changes ents changes')) /\ n = len b.(events)
  | Err _ =>
      ~ NoDup (ReplicationEvent_entity <$> b.(events)) \/
      exists err, apply_events apply_delta limit m b.(events) = Err err
  end.
Proof.
  intros m. unfold stage_batch.
  pose proof (stage_events_apply apply_delta ents limit (events b) ∅ changes) as Hst. cbv zeta in Hst.
  fold m in Hst. destruct (stage_events _ _ _ _ _ _ _) as [[c1 n1]|err].
  - destruct Hst as (Hrun & Hn & Hnd & _). done.
  - destruct Hst as [Hst|[Hst|Hst]]; [by right|by left|].
    exfalso. apply Hst. apply Forall_true. set_solver.
Qed.

(** Whatever packet arrives, hostile ones included, the receiver is transactional and applies
    batches exactly once and in order.  An error leaves it unchanged.  Success applies precisely the
    batches that became contiguous, each taken from this packet or from the buffer, in sequence order,
    on top of the current entities; it never exceeds the entity limit, remembers every sequence of the
    packet and acknowledges the last one applied. *)
Theorem replication_receive_transactional {I S D} `{Countable I, !Ord I}
    (apply_delta : I -> S -> D -> option S) (r r' : ReplicationReceiver I S D)
    (packet : ReplicationPacket I S D) (res : ReplicationResult ReplicationReceiveReport) :
  receiver_wf r -> Forall (fun b => u64_ok (sequence b)) packet.(batches) ->
  NetcodeInput.sw_acknowledged r.(sequences) < u64_max ->
  ReplicationReceiver_receive apply_delta r packet = (res, r') ->
  receiver_wf r' /\
  match res with
  | Err _ => r' = r
  | Ok report => exists bs, reception apply_delta r packet report r' bs
  end.
Proof.
  intros Hwf Hok Hmax Hrun. pose proof (receive_spec apply_delta r packet Hwf Hok Hmax) as Hspec.
  rewrite Hrun in Hspec. destruct res as [report|e].
  - split; [|done]. destruct Hspec as [bs Hspec]. apply Hspec.
  - destruct Hspec as [-> _]. done.
Qed.

Lemma replication_receive_transactional_witness :
  let r := {| config := ReplicationConfig_default;
              sequences := {| NetcodeInput.sw_reorder_window := 256; NetcodeInput.sw_acknowledged := 0;
                              NetcodeInput.sw_pending := ∅ |};
              pending := ∅; entities := ∅; rr_applied_tick := 0 |} : ReplicationReceiver Z Z Z in
  let packet := Build_ReplicationPacket
    [{| sequence := 2; tick := 6; events := [Update 7 1 2 5] |};
     {| sequence := 1; tick := 5; events := [Spawn 7 1 None 40] |}] in
  let out := ReplicationReceiver_receive (fun _ s d => Some (s + d)) r packet in
  out.2.(entities) = {[7 := {| version := 2; prediction_key := None; state := 45 |}]} /\
  receiver_wf out.2.
Proof.
  intros r packet out. split; [vm_compute; reflexivity|].
  apply (replication_receive_transactional (fun _ s d => Some (s + d)) r out.2 packet out.1).
  - apply (new_replica_wf ReplicationConfig_default); [|reflexivity].
    unfold config_widths, fits, usize_max, u64_max; cbn. lia.
  - repeat constructor; cbn; unfold u64_max; lia.
  - vm_compute. reflexivity.
  - apply surjective_pairing.
Defined.
