(* ===== verification/ReplicationLink.v ===== *)
(** * Replication end to end

    A [ReplicationSender] and a [ReplicationReceiver] of the same configuration over a network that
    may lose, duplicate, delay and reorder both packets and acknowledgements.  The application may
    show any sequence of visible sets whose versions and prediction keys are consistent. *)

From S2P Require Import Prelude NetcodeInput ReplicationProtocol ReplicationSender ReplicationReceiver.

Notation ack_of r := (NetcodeInput.sw_acknowledged (ReplicationReceiver.sequences r)).
Notation sender_config s := (ReplicationSender.config s).
Notation sender_pending s := (ReplicationSender.pending s).
Notation receiver_config r := (ReplicationReceiver.config r).
Notation receiver_pending r := (ReplicationReceiver.pending r).

Section link.
Context {I S D : Type} `{Countable I, !Ord I}.
Notation Batch := (ReplicationBatch I S D).
Notation Packet := (ReplicationPacket I S D).
Context (apply_delta : I -> S -> D -> option S).

Record system : Type := {
  sys_sender : ReplicationSender I S D;
  sys_receiver : ReplicationReceiver I S D;
  sys_packets : list Packet;
  sys_acks : list ReplicationAck;
}.

Inductive link_step (y : system) : system -> Prop :=
| ls_update tk visible delta res s' :
    delta_law delta apply_delta ->
    (forall desired, collect_visible ∅ visible = Ok desired ->
       state_law y.(sys_sender).(projected) desired) ->
    ReplicationSender_update y.(sys_sender) tk visible delta = (res, s') ->
    link_step y {| sys_sender := s'; sys_receiver := y.(sys_receiver);
                   sys_packets := y.(sys_packets); sys_acks := y.(sys_acks) |}
| ls_force :
    link_step y {| sys_sender := ReplicationSender_force_keyframes y.(sys_sender);
                   sys_receiver := y.(sys_receiver);
                   sys_packets := y.(sys_packets); sys_acks := y.(sys_acks) |}
| ls_send :
    link_step y {| sys_sender := y.(sys_sender); sys_receiver := y.(sys_receiver);
                   sys_packets := ReplicationSender_packet y.(sys_sender) :: y.(sys_packets);
                   sys_acks := y.(sys_acks) |}
| ls_deliver p res r' :
    p ∈ y.(sys_packets) ->
    ReplicationReceiver_receive apply_delta y.(sys_receiver) p = (res, r') ->
    link_step y {| sys_sender := y.(sys_sender); sys_receiver := r';
                   sys_packets := y.(sys_packets);
                   sys_acks := match res with
                               | Ok report => report.(acknowledgement) :: y.(sys_acks)
                               | Err _ => y.(sys_acks)
                               end |}
| ls_acknowledge a res s' :
    a ∈ y.(sys_acks) ->
    ReplicationSender_acknowledge y.(sys_sender) a = (res, s') ->
    link_step y {| sys_sender := s'; sys_receiver := y.(sys_receiver);
                   sys_packets := y.(sys_packets); sys_acks := y.(sys_acks) |}.

(** ** Invariant *)

(** A batch of the log, at the position its sequence gives. *)
Definition logged (log : list Batch) (b : Batch) : Prop :=
  0 < sequence b /\ log !! Z.to_nat (sequence b - 1) = Some b.

Record in_sync (log : list Batch) (r : ReplicationReceiver I S D) : Prop := {
  is_wf : receiver_wf r;
  is_ack : ack_of r <= len log;
  is_pending : forall s b, receiver_pending r !! s = Some b -> logged log b;
  is_applied : apply_batches apply_delta (receiver_config r).(max_entities) (0, ∅)
    (take (Z.to_nat (ack_of r)) log) = Some (r.(rr_applied_tick), r.(entities));
}.

Definition true_ack (log : list Batch) (a : ReplicationAck) : Prop :=
  0 <= a.(acknowledged_sequence) /\
  (0 < a.(acknowledged_sequence) -> exists b,
     log !! Z.to_nat (a.(acknowledged_sequence) - 1) = Some b /\ tick b = a.(applied_tick)).

Record link_inv (log : list Batch) (y : system) : Prop := {
  li_stream : stream_wf apply_delta log y.(sys_sender);
  li_sync : in_sync log y.(sys_receiver);
  li_config : receiver_config y.(sys_receiver) = sender_config y.(sys_sender);
  li_order : y.(sys_sender).(rs_acknowledged_sequence) <= ack_of y.(sys_receiver);
  li_packets : Forall (fun p => len p.(batches) <= (sender_config y.(sys_sender)).(redundancy) /\
    Forall (logged log) p.(batches)) y.(sys_packets);
  li_acks : Forall (fun a => true_ack log a /\ a.(acknowledged_sequence) <= ack_of y.(sys_receiver))
    y.(sys_acks);
}.

Lemma logged_app log new b : logged log b -> logged (log ++ new) b.
Proof. intros [Hs Hb]. split; [done|]. by apply lookup_app_l_Some. Qed.

Lemma log_applies log (s : ReplicationSender I S D) :
  stream_wf apply_delta log s ->
  apply_batches apply_delta (sender_config s).(max_entities) (0, ∅) log =
    Some (default 0 (tick <$> last log), s.(projected)).
Proof.
  intros [_ _ _ _ _ _ Hb Hto _ _ Hproj]. apply apply_batches_events; cbn; [| | |done].
  - apply Forall_forall. intros b [i Hi]%list_elem_of_lookup. apply (Hb i b Hi).
  - clear Hb Hproj. induction log as [|b log IH]; [constructor|]. constructor.
    + apply IH. intros i j a c Ha Hc Hij. by apply (Hto (Datatypes.S i) (Datatypes.S j)); [..|lia].
    + apply Forall_forall. intros c [j Hj]%list_elem_of_lookup.
      by apply (Hto O (Datatypes.S j)); [..|lia].
  - apply Forall_forall. intros b [i Hi]%list_elem_of_lookup. destruct (Hb i b Hi) as [[_ Ht _ _] _]. lia.
Qed.

(** Batches of the log with consecutive sequences are a segment of it. *)
Lemma run_is_segment log bs a n :
  0 <= a -> sequence <$> bs = run_of a n -> Forall (logged log) bs ->
  bs = take (Z.to_nat (n - a)) (drop (Z.to_nat a) log).
Proof.
  intros Ha Hseq Hlog.
  assert (Hlen : length bs = Z.to_nat (n - a)).
  { rewrite <-(length_fmap sequence bs), Hseq. unfold run_of. by rewrite length_seqZ. }
  assert (Hat : forall i b, bs !! i = Some b -> log !! (Z.to_nat a + i)%nat = Some b).
  { intros i b Hi. rewrite Forall_forall in Hlog.
    destruct (Hlog b) as [Hs Hb]; [by eapply list_elem_of_lookup_2|].
    assert (Hsi : (sequence <$> bs) !! i = Some (sequence b)) by (by rewrite list_lookup_fmap, Hi).
    rewrite Hseq in Hsi. apply lookup_seqZ in Hsi as [Hsi _]. rewrite <-Hb. f_equal. lia. }
  apply list_eq. intros i. destruct (bs !! i) as [b|] eqn:Hi.
  - pose proof (lookup_lt_Some _ _ _ Hi). rewrite lookup_take_lt by lia. rewrite lookup_drop.
    symmetry. by apply Hat.
  - symmetry. apply lookup_take_ge. apply lookup_ge_None in Hi. lia.
Qed.

Lemma prefix_applies log s k :
  stream_wf apply_delta log s -> exists st,
  apply_batches apply_delta (sender_config s).(max_entities) (0, ∅) (take k log) = Some st.
Proof.
  intros Hwf. pose proof (log_applies log s Hwf) as Hall. rewrite <-(take_drop k log) in Hall at 1.
  rewrite apply_batches_app in Hall.
  destruct (apply_batches apply_delta _ (0, ∅) (take k log)) as [st|]; [eauto|done].
Qed.

(** The next run of batches applies on top of what is already applied. *)
Lemma next_run_applies log s r n :
  stream_wf apply_delta log s -> in_sync log r -> receiver_config r = sender_config s ->
  ack_of r <= n ->
  apply_batches apply_delta (receiver_config r).(max_entities) (r.(rr_applied_tick), r.(entities))
    (take (Z.to_nat (n - ack_of r)) (drop (Z.to_nat (ack_of r)) log)) =
  apply_batches apply_delta (sender_config s).(max_entities) (0, ∅) (take (Z.to_nat n) log).
Proof.
  intros Hwf [Hr Hle Hp Happ] Hcfg Hn.
  pose proof (NetcodeInput.Window.wf_ack _ (rw_window r Hr)) as Ha. unfold fits in Ha.
  assert (Hsplit : take (Z.to_nat n) log = take (Z.to_nat (ack_of r)) log
    ++ take (Z.to_nat (n - ack_of r)) (drop (Z.to_nat (ack_of r)) log)).
  { rewrite take_take_drop. f_equal. lia. }
  rewrite Hsplit, apply_batches_app. rewrite <-Hcfg, Happ. done.
Qed.

Lemma stream_len log (s : ReplicationSender I S D) :
  stream_wf apply_delta log s ->
  len log <= s.(rs_acknowledged_sequence) + (sender_config s).(history_capacity) /\ len log < u64_max.
Proof.
  intros [_ Hnext Hnm Hack Hpend Hcap _ _ _ _ _]. rewrite Hpend in Hcap.
  unfold len in *. rewrite length_drop in Hcap. lia.
Qed.

Lemma logged_bounds log s b :
  stream_wf apply_delta log s -> logged log b ->
  0 < sequence b <= len log /\ tick b <> 0 /\
  len (events b) <= (sender_config s).(max_events_per_batch).
Proof.
  intros Hwf [Hs Hb]. destruct (st_batches _ _ _ Hwf _ _ Hb) as [[Hseq Ht He _] _].
  apply lookup_lt_Some in Hb. unfold len in *. split_and!; lia.
Qed.

(** A packet of the stream is always accepted; it keeps the receiver in step with the log. *)
Lemma deliver_ok log s r p :
  stream_wf apply_delta log s -> in_sync log r -> receiver_config r = sender_config s ->
  s.(rs_acknowledged_sequence) <= ack_of r ->
  len p.(batches) <= (sender_config s).(redundancy) -> Forall (logged log) p.(batches) ->
  exists report r', ReplicationReceiver_receive apply_delta r p = (Ok report, r') /\
    in_sync log r' /\ receiver_config r' = receiver_config r /\ ack_of r <= ack_of r' /\
    (forall b, b ∈ p.(batches) -> NetcodeInput.Window.received r'.(sequences) (sequence b)) /\
    report.(acknowledgement) = {| acknowledged_sequence := ack_of r';
                                  applied_tick := r'.(rr_applied_tick) |}.
Proof.
  intros Hwf Hsync Hcfg Hord Hlen Hlog. destruct (stream_len log s Hwf) as [Hll Hmax].
  pose proof Hsync as [Hr Hle Hp Happ].
  pose proof (NetcodeInput.Window.wf_ack _ (rw_window r Hr)) as Ha. unfold fits in Ha.
  assert (Hu64 : Forall (fun b => u64_ok (sequence b)) p.(batches)).
  { rewrite Forall_forall in *. intros b Hb.
    destruct (logged_bounds log s b Hwf (Hlog b Hb)) as (? & _). unfold fits. lia. }
  assert (Hsrc : forall bs : list Batch,
    (forall b, b ∈ bs -> b ∈ p.(batches) \/ receiver_pending r !! sequence b = Some b) ->
    Forall (logged log) bs).
  { intros bs Hbs. rewrite Forall_forall in *. intros b [Hb|Hb]%Hbs; [auto|by eapply Hp]. }
  pose proof (receive_spec apply_delta r p Hr Hu64 ltac:(lia)) as Hspec.
  destruct (ReplicationReceiver_receive apply_delta r p) as [[report|err] r'].
  - destruct Hspec as [bs [Rwf Rcfg Rack Rrec Rrun Rsrc Rapply Rpend (_ & _ & Rrep)]].
    exists report, r'. pose proof (run_is_segment log bs _ _ (proj1 Ha) Rrun (Hsrc bs Rsrc)) as Hseg.
    assert (Hle' : ack_of r' <= len log).
    { destruct (decide (ack_of r' = ack_of r)) as [->|Hne]; [done|].
      apply (f_equal length) in Hseg, Rrun. rewrite length_take, length_drop in Hseg.
      rewrite length_fmap in Rrun. unfold run_of in Rrun. rewrite length_seqZ in Rrun.
      unfold len in *. lia. }
    split_and!; try done.
    + constructor; [done|done| |].
      * intros x b Hb. apply Rpend in Hb as [Hb|Hb]; [by rewrite Forall_forall in Hlog; auto|by eapply Hp].
      * rewrite Rcfg, Hcfg. rewrite <-(next_run_applies log s r) by done. by rewrite <-Hseg.
    + intros b Hb. apply Rrec. left. by apply list_elem_of_fmap_2.
  - exfalso. destruct Hspec as [_ [Hbad|[(b & Hb & Hbad)|(bs & n & Hrun & Hbs & Hnone)]]].
    + rewrite Hcfg in Hbad. lia.
    + apply Hbad. rewrite Forall_forall in Hlog.
      destruct (logged_bounds log s b Hwf (Hlog b Hb)) as (Hseq & Ht & He).
      rewrite Hcfg. split_and!; [done|done|lia|]. right. rewrite (rw_same r Hr), Hcfg.
      pose proof (co_window _ (st_config _ _ _ Hwf)). unfold saturating_add. lia.
    + destruct (decide (ack_of r <= n)) as [Hn|Hn].
      * rewrite (run_is_segment log bs _ _ (proj1 Ha) Hrun (Hsrc bs Hbs)) in Hnone.
        rewrite (next_run_applies log s r n Hwf Hsync Hcfg Hn) in Hnone.
        destruct (prefix_applies log s (Z.to_nat n) Hwf) as [st Hst]. congruence.
      * unfold run_of in Hrun. rewrite seqZ_nil in Hrun by lia. by destruct bs.
Qed.

(** The acknowledgement of a receiver in step is true. *)
Lemma sync_true_ack log s r :
  stream_wf apply_delta log s -> in_sync log r -> receiver_config r = sender_config s ->
  true_ack log {| acknowledged_sequence := ack_of r; applied_tick := r.(rr_applied_tick) |}.
Proof.
  intros Hwf [Hr Hle Hp Happ] Hcfg.
  pose proof (NetcodeInput.Window.wf_ack _ (rw_window r Hr)) as Ha. unfold fits in Ha.
  split; cbn; [lia|]. intros Hpos.
  destruct (log !! Z.to_nat (ack_of r - 1)) as [b|] eqn:Hb.
  2: { apply lookup_ge_None in Hb. unfold len in Hle. lia. }
  exists b. split; [done|].
  replace (Z.to_nat (ack_of r)) with (Datatypes.S (Z.to_nat (ack_of r - 1))) in Happ by lia.
  rewrite (take_S_r _ _ b Hb), apply_batches_app in Happ.
  destruct (apply_batches apply_delta _ (0, ∅) (take _ log)) as [st|]; cbn in Happ; [|done].
  destruct (apply_batch apply_delta _ st b) as [st'|] eqn:Hst; cbn in Happ; [|done].
  unfold apply_batch in Hst. repeat (case_match; simplify_eq/=). done.
Qed.

Lemma replication_step_inv log y y' :
  link_inv log y -> link_step y y' -> exists new, link_inv (log ++ new) y'.
Proof.
  intros [Hst Hsync Hcfg Hord Hpk Hak] Hstep.
  destruct Hstep as [tk visible delta res s' Hd Hlaw Hrun| | |p res r' Hp Hrun|a res s' Ha Hrun].
  - destruct res as [n|e]; [|apply update_err in Hrun as ->; exists []; rewrite app_nil_r; done].
    pose proof (update_ok _ _ _ _ _ _ Hrun) as (desired & _ & _ & Hvis & _).
    destruct (update_stream_wf _ _ _ _ _ _ _ _ _ Hst Hd Hrun Hvis (Hlaw _ Hvis))
      as (new & Hst' & _ & Hack & Hc & _). exists new.
    destruct Hsync as [Hr Hle Hpd Happ]. constructor; cbn; try done.
    + constructor; [done|rewrite len_app; pose proof (len_nonneg new); lia| |].
      * intros x b Hb. by eapply logged_app, Hpd.
      * rewrite take_app_le; [done|]. unfold len in Hle.
        pose proof (NetcodeInput.Window.wf_ack _ (rw_window _ Hr)). lia.
    + congruence.
    + lia.
    + eapply Forall_impl; [exact Hpk|]. intros p [Hlen Hlog]. rewrite Hc. split; [done|].
      eapply Forall_impl; [exact Hlog|]. apply logged_app.
    + eapply Forall_impl; [exact Hak|]. intros a [[H0 Ha] Hle']. split; [|done]. split; [done|].
      intros Hpos. destruct (Ha Hpos) as (b & Hb & Ht). exists b. split; [by apply lookup_app_l_Some|done].
  - exists []. rewrite app_nil_r. constructor; try done. by apply force_stream_wf.
  - exists []. rewrite app_nil_r. constructor; try done. cbn. constructor; [|done].
    destruct (packet_spec _ (st_config _ _ _ Hst)) as (Hlen & Hin & _). split; [done|].
    apply Forall_forall. intros b Hb%Hin. apply list_elem_of_lookup in Hb as [i Hi].
    destruct (stream_pending_lookup _ _ _ _ _ Hst Hi) as [Hs Hb]. split; [|done].
    pose proof (st_ack _ _ _ Hst). lia.
  - rewrite Forall_forall in Hpk. destruct (Hpk p Hp) as [Hlen Hlog].
    destruct (deliver_ok log _ _ p Hst Hsync Hcfg Hord Hlen Hlog)
      as (report & r1 & Hrun' & Hsync' & Hc & Hack & _ & Hrep).
    rewrite Hrun in Hrun'. injection Hrun' as -> ->. exists []. rewrite app_nil_r.
    constructor; cbn; try done; [congruence|lia|by rewrite Forall_forall|].
    constructor.
    + rewrite Hrep. split; [|done]. apply (sync_true_ack log y.(sys_sender)); [done|done|congruence].
    + eapply Forall_impl; [exact Hak|]. cbn. intros a [Ha Hle]. split; [done|lia].
  - rewrite Forall_forall in Hak. destruct (Hak a Ha) as [[H0 Htrue] Hle].
    exists []. rewrite app_nil_r. destruct (decide (0 < a.(acknowledged_sequence))) as [Hpos|Hz].
    + destruct (Htrue Hpos) as (b & Hb & Ht).
      destruct (acknowledge_ok _ _ _ a b Hst Hpos Hb Ht) as (n & s1 & Hrun' & Hst' & Hack & _ & Hc & _).
      rewrite Hrun in Hrun'. injection Hrun' as -> ->.
      constructor; cbn; try done; [congruence|lia|by rewrite Hc|by rewrite Forall_forall].
    + assert (s' = y.(sys_sender)) as ->; [|constructor; try done; by rewrite Forall_forall].
      pose proof (st_ack _ _ _ Hst). pose proof (st_next _ _ _ Hst).
      unfold ReplicationSender_acknowledge in Hrun.
      destruct (Z.ltb_spec (next_sequence (sys_sender y) - 1) (acknowledged_sequence a)); [lia|].
      destruct (Z.leb_spec (acknowledged_sequence a) (rs_acknowledged_sequence (sys_sender y))); [|lia].
      by simplify_eq.
Qed.

Lemma link_inv_reachable log y y' :
  link_inv log y -> rtc link_step y y' -> exists log', link_inv log' y'.
Proof.
  intros Hinv Hrun. revert log Hinv. induction Hrun as [y|y y1 y2 Hstep _ IH]; intros log Hinv; [eauto|].
  destruct (replication_step_inv _ _ _ Hinv Hstep) as [new Hinv']. eauto.
Qed.

Lemma new_link_inv c s r :
  config_widths c -> ReplicationSender_new c = Ok s -> ReplicationReceiver_new c = Ok r ->
  link_inv [] {| sys_sender := s; sys_receiver := r; sys_packets := []; sys_acks := [] |}.
Proof.
  intros Hw Hs Hr. pose proof (new_stream_wf apply_delta c s Hw Hs) as Hst.
  pose proof (new_replica_wf c r Hw Hr) as Hrw.
  assert (Hrv : ack_of r = 0 /\ receiver_pending r = ∅ /\ r.(entities) = ∅ /\
    r.(rr_applied_tick) = 0 /\ receiver_config r = c).
  { unfold ReplicationReceiver_new in Hr. destruct (ReplicationConfig_validate c); [|done].
    unfold NetcodeInput.SequenceWindow_new, NetcodeInput.SequenceWindow_with_acknowledged in Hr.
    destruct (reorder_window c =? 0); by simplify_eq/=. }
  assert (Hsv : s.(rs_acknowledged_sequence) = 0 /\ sender_config s = c).
  { unfold ReplicationSender_new in Hs. destruct (ReplicationConfig_validate c); by simplify_eq/=. }
  destruct Hrv as (Ha & Hp & He & Ht & Hrc), Hsv as [Hsa Hsc].
  constructor; cbn; try done; [|congruence|lia].
  constructor; [done|rewrite Ha; unfold len; cbn; lia| |].
  - intros x b. by rewrite Hp, lookup_empty.
  - rewrite take_nil, He, Ht. done.
Qed.

(** *** Exchanges that are not lost *)

(** The sender's packet reaches the receiver, and the acknowledgement reaches the sender. *)
Definition exchange (x : ReplicationSender I S D * ReplicationReceiver I S D) :
    ReplicationSender I S D * ReplicationReceiver I S D :=
  match ReplicationReceiver_receive apply_delta x.2 (ReplicationSender_packet x.1) with
  | (Ok report, r) => ((ReplicationSender_acknowledge x.1 report.(acknowledgement)).2, r)
  | (Err _, r) => (x.1, r)
  end.

Record linked (log : list Batch) (x : ReplicationSender I S D * ReplicationReceiver I S D) : Prop := {
  lk_stream : stream_wf apply_delta log x.1;
  lk_sync : in_sync log x.2;
  lk_config : receiver_config x.2 = sender_config x.1;
  lk_order : x.1.(rs_acknowledged_sequence) <= ack_of x.2;
}.

Lemma pending_len log (s : ReplicationSender I S D) :
  stream_wf apply_delta log s -> len (sender_pending s) = len log - s.(rs_acknowledged_sequence).
Proof.
  intros Hwf. pose proof (st_ack _ _ _ Hwf). rewrite (st_pending _ _ _ Hwf). unfold len in *.
  rewrite length_drop. lia.
Qed.

Lemma linked_done log x :
  linked log x -> ack_of x.2 = x.1.(next_sequence) - 1 -> x.2.(entities) = x.1.(projected).
Proof.
  intros [Hst [Hr Hle Hp Happ] Hcfg Hord] Hack. rewrite (st_next _ _ _ Hst) in Hack.
  replace (ack_of x.2) with (len log) in Happ by lia. unfold len in Happ.
  rewrite Nat2Z.id, firstn_all, Hcfg, (log_applies log x.1 Hst) in Happ. by simplify_eq.
Qed.

Lemma ack_advances w n :
  NetcodeInput.Window.wf w -> NetcodeInput.Window.received w (n + 1) ->
  n <= NetcodeInput.sw_acknowledged w -> n + 1 <= NetcodeInput.sw_acknowledged w.
Proof.
  intros Hw [Hr|Hr] Hle; [lia|]. apply (NetcodeInput.Window.wf_pending w Hw) in Hr. lia.
Qed.

Lemma exchange_linked log x :
  linked log x -> linked log (exchange x) /\ (exchange x).1.(projected) = x.1.(projected) /\
  len (sender_pending (exchange x).1) <= Z.max 0 (len (sender_pending x.1) - 1).
Proof.
  intros [Hst Hsync Hcfg Hord]. destruct x as [s r]. cbn [fst snd] in *.
  destruct (packet_spec s (st_config _ _ _ Hst)) as (Hlen & Hin & Hhead & _).
  assert (Hlog : Forall (logged log) (batches (ReplicationSender_packet s))).
  { apply Forall_forall. intros b Hb%Hin. apply list_elem_of_lookup in Hb as [i Hi].
    destruct (stream_pending_lookup _ _ _ _ _ Hst Hi) as [Hs Hb]. split; [|done].
    pose proof (st_ack _ _ _ Hst). lia. }
  destruct (deliver_ok log s r _ Hst Hsync Hcfg Hord Hlen Hlog)
    as (report & r' & Hrun & Hsync' & Hc & Hack & Hrec & Hrep).
  unfold exchange. cbn [fst snd]. rewrite Hrun, Hrep.
  pose proof (sync_true_ack log s r' Hst Hsync' ltac:(congruence)) as [_ Htrue]. cbn in Htrue.
  pose proof (pending_len log s Hst) as Hpl.
  pose proof (is_ack _ _ Hsync') as Hle'.
  assert (Hprog : sender_pending s <> [] -> s.(rs_acknowledged_sequence) + 1 <= ack_of r').
  { intros Hne. destruct (sender_pending s) as [|b rest] eqn:Hpd; [done|].
    apply ack_advances; [apply (is_wf _ _ Hsync')| |lia].
    destruct (stream_pending_lookup apply_delta log s O b Hst) as [Hb _]; [by rewrite Hpd|].
    replace (rs_acknowledged_sequence s + 1) with (sequence b) by lia. by apply Hrec, Hhead. }
  destruct (decide (0 < ack_of r')) as [Hpos|Hzero].
  - destruct (Htrue Hpos) as (b & Hb & Ht).
    destruct (acknowledge_ok _ _ s {| acknowledged_sequence := ack_of r'; applied_tick := rr_applied_tick r' |}
      b Hst Hpos Hb Ht) as (n & s' & Hrun' & Hst' & Hack' & Hpj & Hcf & _).
    cbn in Hack'. rewrite Hrun'. cbn. split_and!; [constructor; cbn; try done; [congruence|lia]|done|].
    rewrite (pending_len log s' Hst'), Hack'. destruct (sender_pending s) as [|b0 rest].
    + unfold len in Hpl at 1. cbn in Hpl. lia.
    + specialize (Hprog ltac:(done)). lia.
  - assert (Hnil : sender_pending s = []).
    { destruct (sender_pending s); [done|]. pose proof (st_ack _ _ _ Hst).
      specialize (Hprog ltac:(done)). lia. }
    unfold ReplicationSender_acknowledge. cbn [acknowledged_sequence].
    pose proof (st_ack _ _ _ Hst). pose proof (st_next _ _ _ Hst).
    destruct (Z.ltb_spec (next_sequence s - 1) (ack_of r')); [lia|].
    destruct (Z.leb_spec (ack_of r') (rs_acknowledged_sequence s)); [|lia]. cbn.
    rewrite Hnil. split_and!; [constructor; cbn; try done; [congruence|lia]|done|].
    unfold len; cbn; lia.
Qed.

Lemma exchanges_linked log n : forall x,
  linked log x -> linked log (Nat.iter n exchange x) /\
  (Nat.iter n exchange x).1.(projected) = x.1.(projected) /\
  len (sender_pending (Nat.iter n exchange x).1) <= Z.max 0 (len (sender_pending x.1) - Z.of_nat n).
Proof.
  induction n as [|n IH]; intros x Hx.
  { change (Nat.iter 0 exchange x) with x. split_and!; [done|done|lia]. }
  change (Nat.iter (Datatypes.S n) exchange x) with (exchange (Nat.iter n exchange x)).
  destruct (IH x Hx) as (Hl & Hp & Hn). destruct (exchange_linked log _ Hl) as (Hl' & Hp' & Hn').
  split_and!; [done|congruence|lia].
Qed.
End link.

(** ** Properties *)

(** C8: replication is correct over an unreliable network.  From a new sender and receiver of one
    configuration, whatever is lost, duplicated or reordered: no packet the sender ever built is
    refused, however late it arrives; no acknowledgement the receiver ever produced is refused; the
    sender never forgets a batch the receiver still lacks; and when the receiver has acknowledged the
    last batch issued, its entities are exactly the ones the application made visible last. *)
Theorem replication_link_correct {I S D} `{Countable I, !Ord I} (apply_delta : I -> S -> D -> option S)
    (c : ReplicationConfig) (s : ReplicationSender I S D) (r : ReplicationReceiver I S D) (y : system) :
  config_widths c -> ReplicationSender_new c = Ok s -> ReplicationReceiver_new c = Ok r ->
  rtc (link_step apply_delta)
    {| sys_sender := s; sys_receiver := r; sys_packets := []; sys_acks := [] |} y ->
  (forall p, p ∈ y.(sys_packets) ->
     is_ok (ReplicationReceiver_receive apply_delta y.(sys_receiver) p).1 = true) /\
  (forall a, a ∈ y.(sys_acks) -> is_ok (ReplicationSender_acknowledge y.(sys_sender) a).1 = true) /\
  y.(sys_sender).(rs_acknowledged_sequence) <= ack_of y.(sys_receiver)
    <= y.(sys_sender).(next_sequence) - 1 /\
  (ack_of y.(sys_receiver) = y.(sys_sender).(next_sequence) - 1 ->
   y.(sys_receiver).(entities) = y.(sys_sender).(projected)).
Proof.
  intros Hw Hs Hr Hrun. pose proof (new_link_inv apply_delta c s r Hw Hs Hr) as Hinv.
  destruct (link_inv_reachable apply_delta _ _ _ Hinv Hrun) as [log [Hst Hsync Hcfg Hord Hpk Hak]].
  rewrite Forall_forall in Hpk. rewrite Forall_forall in Hak. pose proof (st_next _ _ _ Hst). pose proof (is_ack _ _ _ Hsync).
  split_and!; [| |lia|lia|].
  - intros p Hp. destruct (Hpk p Hp) as [Hlen Hlog].
    destruct (deliver_ok apply_delta log _ _ p Hst Hsync Hcfg Hord Hlen Hlog) as (report & r' & -> & _). done.
  - intros a Ha. destruct (Hak a Ha) as [[Hnn Htrue] Hle].
    destruct (decide (0 < acknowledged_sequence a)) as [Hpos|Hz].
    + destruct (Htrue Hpos) as (b & Hb & Ht).
      destruct (acknowledge_ok _ _ _ a b Hst Hpos Hb Ht) as (n & s1 & -> & _). done.
    + pose proof (st_ack _ _ _ Hst). unfold ReplicationSender_acknowledge.
      destruct (Z.ltb_spec (next_sequence (sys_sender y) - 1) (acknowledged_sequence a)); [lia|].
      destruct (Z.leb_spec (acknowledged_sequence a) (rs_acknowledged_sequence (sys_sender y))); [done|lia].
  - apply (linked_done apply_delta log (sys_sender y, sys_receiver y)). by constructor.
Qed.

(** A stream of integers with additive deltas: two updates and a lost first packet. *)
Definition example_config : ReplicationConfig :=
  {| history_capacity := 4; redundancy := 2; max_events_per_batch := 2; max_entities := 8;
     reorder_window := 8 |}.

Definition example_delta (entity : Z) (previous current : VersionedState Z) : option Z :=
  Some (current.(state) - previous.(state)).
Definition example_apply (entity s d : Z) : option Z := Some (s + d).

Definition vs (v st : Z) : VersionedState Z :=
  {| version := v; prediction_key := None; state := st |}.

Definition example_sender0 : ReplicationSender Z Z Z :=
  {| ReplicationSender.config := example_config; next_sequence := 1; rs_acknowledged_sequence := 0;
     last_tick := 0; projected := ∅; ReplicationSender.pending := []; force_keyframes := false |}.

Definition example_receiver0 : ReplicationReceiver Z Z Z :=
  {| ReplicationReceiver.config := example_config;
     sequences := {| NetcodeInput.sw_reorder_window := 8; NetcodeInput.sw_acknowledged := 0;
                     NetcodeInput.sw_pending := ∅ |};
     ReplicationReceiver.pending := ∅; entities := ∅; rr_applied_tick := 0 |}.

Definition example_visible1 : list (Z * VersionedState Z) := [(1, vs 1 10); (2, vs 1 20); (3, vs 1 30)].
Definition example_visible2 : list (Z * VersionedState Z) := [(1, vs 2 15); (3, vs 1 30); (4, vs 1 40)].

Definition example_sender1 : ReplicationSender Z Z Z :=
  (ReplicationSender_update example_sender0 5 example_visible1 example_delta).2.
Definition example_sender2 : ReplicationSender Z Z Z :=
  (ReplicationSender_update example_sender1 6 example_visible2 example_delta).2.

Definition example_system0 : system (I := Z) (S := Z) (D := Z) :=
  {| sys_sender := example_sender0; sys_receiver := example_receiver0; sys_packets := [];
     sys_acks := [] |}.
Definition example_system2 : system (I := Z) (S := Z) (D := Z) :=
  {| sys_sender := example_sender2; sys_receiver := example_receiver0; sys_packets := [];
     sys_acks := [] |}.

Lemma example_delta_law : delta_law example_delta example_apply.
Proof. intros entity previous current d [= <-]. unfold example_apply. f_equal. lia. Qed.

Lemma example_reachable : rtc (link_step example_apply) example_system0 example_system2.
Proof.
  eapply rtc_l; [|eapply rtc_once].
  - eapply (ls_update _ example_system0 5 example_visible1 example_delta).
    + apply example_delta_law.
    + intros desired _ entity previous current Hp. done.
    + apply surjective_pairing.
  - eapply (ls_update _ (Build_system _ _ _ _) 6 example_visible2 example_delta).
    + apply example_delta_law.
    + intros desired Hd entity previous current Hp Hc. cbn [sys_sender] in Hp.
      assert (Hproj : projected example_sender1 = list_to_map example_visible1) by (vm_compute; reflexivity).
      assert (Hdes : desired = list_to_map example_visible2).
      { assert (Hd' : collect_visible ∅ example_visible2 = Ok (list_to_map example_visible2 : gmap Z (VersionedState Z)))
          by (vm_compute; reflexivity). congruence. }
      change (projected example_sender1 !! entity = Some previous) in Hp.
      rewrite Hproj in Hp. rewrite Hdes in Hc. unfold example_visible1, example_visible2 in *. cbn in Hp, Hc.
      rewrite !lookup_insert in Hp, Hc. rewrite lookup_empty in Hp, Hc.
      repeat (case_decide; simplify_eq/=; try done); split; try done; lia.
    + apply surjective_pairing.
Qed.

Lemma replication_link_correct_witness :
  ack_of example_system2.(sys_receiver) = 0 /\ example_system2.(sys_sender).(next_sequence) = 5 /\
  (ack_of example_system2.(sys_receiver) = example_system2.(sys_sender).(next_sequence) - 1 ->
   example_system2.(sys_receiver).(entities) = example_system2.(sys_sender).(projected)).
Proof.
  split; [reflexivity|]. split; [vm_compute; reflexivity|].
  apply (replication_link_correct example_apply example_config example_sender0 example_receiver0).
  - unfold config_widths, fits, usize_max, u64_max; cbn. lia.
  - reflexivity.
  - reflexivity.
  - exact example_reachable.
Defined.

(** C39: replication always catches up.  From any reachable state, after any losses, as many exchanges
    that get through as there are unacknowledged batches leave nothing unacknowledged and the
    receiver's entities equal to the visible ones: each packet carries the oldest unacknowledged
    batch, so every exchange makes progress. *)
Theorem replication_link_catches_up {I S D} `{Countable I, !Ord I} (apply_delta : I -> S -> D -> option S)
    (c : ReplicationConfig) (s : ReplicationSender I S D) (r : ReplicationReceiver I S D) (y : system)
    (n : nat) :
  config_widths c -> ReplicationSender_new c = Ok s -> ReplicationReceiver_new c = Ok r ->
  rtc (link_step apply_delta)
    {| sys_sender := s; sys_receiver := r; sys_packets := []; sys_acks := [] |} y ->
  len (sender_pending y.(sys_sender)) <= Z.of_nat n ->
  let x := Nat.iter n (exchange apply_delta) (y.(sys_sender), y.(sys_receiver)) in
  sender_pending x.1 = [] /\ x.2.(entities) = y.(sys_sender).(projected).
Proof.
  intros Hw Hs Hr Hrun Hn x. pose proof (new_link_inv apply_delta c s r Hw Hs Hr) as Hinv.
  destruct (link_inv_reachable apply_delta _ _ _ Hinv Hrun) as [log [Hst Hsync Hcfg Hord _ _]].
  destruct (exchanges_linked apply_delta log n (sys_sender y, sys_receiver y)) as (Hl & Hp & Hlen).
  { by constructor. }
  fold x in Hl, Hp, Hlen. cbn [fst snd] in Hp, Hlen. rewrite <-Hp.
  assert (Hnil : len (sender_pending x.1) = 0) by (pose proof (len_nonneg (sender_pending x.1)); lia).
  split; [apply nil_length_inv; unfold len in Hnil; lia|].
  apply (linked_done apply_delta log); [done|]. destruct Hl as [Hst' Hsync' _ Hord'].
  pose proof (pending_len apply_delta log _ Hst'). pose proof (is_ack _ _ _ Hsync').
  rewrite (st_next _ _ _ Hst'). lia.
Qed.

Lemma replication_link_catches_up_witness :
  let x := Nat.iter 4 (exchange example_apply) (example_sender2, example_receiver0) in
  (x.2.(entities) !! 1 = Some (vs 2 15)) /\ x.2.(entities) = example_sender2.(projected).
Proof.
  intros x. split; [vm_compute; reflexivity|].
  apply (replication_link_catches_up example_apply example_config example_sender0 example_receiver0
    example_system2 4).
  - unfold config_widths, fits, usize_max, u64_max; cbn. lia.
  - reflexivity.
  - reflexivity.
  - exact example_reachable.
  - vm_compute. discriminate.
Defined.
