(* ===== verification/Bytes.v ===== *)
(** * Byte strings

    [Bytes], [BytesMut] and [Vec<u8>] as lists of integers below 256, with the big- and little-endian
    accessors the codecs use; strings as their UTF-8 bytes. *)

From Stdlib Require Import Ascii.
From S2P Require Import Prelude.

Definition byte_ok (b : Z) : Prop := 0 <= b < 256.
Definition bytes_ok (l : list Z) : Prop := Forall byte_ok l.

(** [put_u8], [put_u16], [put_u32], [put_u64]: [n] bytes, most significant first. *)
Fixpoint put_be (n : nat) (v : Z) : list Z :=
  match n with
  | O => []
  | Datatypes.S n => (v / 256 ^ Z.of_nat n) mod 256 :: put_be n v
  end.

Definition be_value (l : list Z) : Z := foldl (fun acc b => acc * 256 + b) 0 l.

(** [get_u8], ...: the value of the next [n] bytes and the rest. *)
Definition get_be (n : nat) (l : list Z) : Z * list Z := (be_value (take n l), drop n l).

(** [to_le_bytes]: [n] bytes, least significant first. *)
Fixpoint put_le (n : nat) (v : Z) : list Z :=
  match n with
  | O => []
  | Datatypes.S n => v mod 256 :: put_le n (v / 256)
  end.

Definition le_value (l : list Z) : Z := foldr (fun b acc => b + 256 * acc) 0 l.

Lemma length_put_be n v : length (put_be n v) = n.
Proof. induction n; cbn; auto. Qed.

Lemma put_be_ok n v : bytes_ok (put_be n v).
Proof. induction n; cbn; constructor; [apply Z.mod_pos_bound; lia|done]. Qed.

Lemma length_put_le n : forall v, length (put_le n v) = n.
Proof. induction n; intros; cbn; auto. Qed.

Lemma put_le_ok n : forall v, bytes_ok (put_le n v).
Proof. induction n; intros; cbn; constructor; [apply Z.mod_pos_bound; lia|apply IHn]. Qed.

Lemma be_fold_acc l : forall acc,
  foldl (fun acc b => acc * 256 + b) acc l = acc * 256 ^ Z.of_nat (length l) + be_value l.
Proof.
  unfold be_value. induction l as [|b l IH]; intros acc; cbn [foldl length]; [lia|].
  rewrite IH, (IH (0 * 256 + b)), Nat2Z.inj_succ, Z.pow_succ_r by lia. lia.
Qed.

Lemma be_value_cons b l : be_value (b :: l) = b * 256 ^ Z.of_nat (length l) + be_value l.
Proof. unfold be_value at 1. cbn [foldl]. rewrite be_fold_acc. lia. Qed.

Lemma be_value_put_mod n v : be_value (put_be n v) = v mod 256 ^ Z.of_nat n.
Proof.
  induction n as [|n IH]; [by rewrite Z.mod_1_r|].
  cbn [put_be]. rewrite be_value_cons, length_put_be, IH, Nat2Z.inj_succ, Z.pow_succ_r by lia.
  rewrite (Z.mul_comm 256), Z.rem_mul_r by lia. lia.
Qed.

Lemma be_value_put n v : 0 <= v < 256 ^ Z.of_nat n -> be_value (put_be n v) = v.
Proof. intros. rewrite be_value_put_mod. by apply Z.mod_small. Qed.

Lemma be_value_range l : bytes_ok l -> 0 <= be_value l < 256 ^ Z.of_nat (length l).
Proof.
  induction 1 as [|b l Hb Hl IH]; [done|]. rewrite be_value_cons. cbn [length].
  rewrite Nat2Z.inj_succ, Z.pow_succ_r by lia. unfold byte_ok in Hb. nia.
Qed.

Lemma put_be_mod n : forall v w, v mod 256 ^ Z.of_nat n = w mod 256 ^ Z.of_nat n -> put_be n v = put_be n w.
Proof.
  induction n as [|n IH]; intros v w Hvw; [done|]. cbn [put_be].
  rewrite Nat2Z.inj_succ, Z.pow_succ_r, (Z.mul_comm 256) in Hvw by lia.
  rewrite !Z.rem_mul_r in Hvw by lia.
  destruct (Z.div_mod_unique (256 ^ Z.of_nat n) ((v / 256 ^ Z.of_nat n) mod 256)
    ((w / 256 ^ Z.of_nat n) mod 256) (v mod 256 ^ Z.of_nat n) (w mod 256 ^ Z.of_nat n)) as [Hd Hm].
  - left. apply Z.mod_pos_bound. lia.
  - left. apply Z.mod_pos_bound. lia.
  - lia.
  - by rewrite Hd, (IH v w).
Qed.

Lemma put_be_value l : bytes_ok l -> put_be (length l) (be_value l) = l.
Proof.
  induction 1 as [|b l Hb Hl IH]; [done|]. cbn [length put_be]. rewrite be_value_cons.
  pose proof (be_value_range l Hl) as Hr. unfold byte_ok in Hb. f_equal.
  - rewrite Z.div_add_l by lia. rewrite (Z.div_small (be_value l)) by done. rewrite Z.add_0_r.
    by apply Z.mod_small.
  - etrans; [|exact IH]. apply put_be_mod. rewrite Z.add_comm. apply Z.mod_add. lia.
Qed.

Lemma get_put_be n v rest :
  0 <= v < 256 ^ Z.of_nat n -> get_be n (put_be n v ++ rest) = (v, rest).
Proof.
  intros Hv. unfold get_be. rewrite take_app_length', drop_app_length' by (by rewrite length_put_be).
  by rewrite be_value_put.
Qed.

Lemma le_value_put n : forall v, 0 <= v < 256 ^ Z.of_nat n -> le_value (put_le n v) = v.
Proof.
  induction n as [|n IH]; intros v Hv; [cbn in *; lia|]. cbn [put_le].
  unfold le_value. cbn [foldr]. fold (le_value (put_le n (v / 256))).
  rewrite Nat2Z.inj_succ, Z.pow_succ_r in Hv by lia. rewrite IH.
  - pose proof (Z.div_mod v 256). lia.
  - split; [apply Z.div_pos; lia|]. apply Z.div_lt_upper_bound; lia.
Qed.

#[export] Hint Rewrite length_put_be length_put_le : elura.

(** ** Strings

    A Rust string is its UTF-8 bytes. *)
Fixpoint string_bytes (s : string) : list Z :=
  match s with
  | EmptyString => []
  | String b s => Z.of_N (N_of_ascii b) :: string_bytes s
  end.

(** [char::is_whitespace] on the characters that take one, two and three bytes. *)
Definition whitespace1 (a : Z) : bool := ((9 <=? a) && (a <=? 13)) || (a =? 32).
Definition whitespace2 (a b : Z) : bool := (a =? 0xC2) && ((b =? 0x85) || (b =? 0xA0)).
Definition whitespace3 (a b c : Z) : bool :=
  ((a =? 0xE1) && (b =? 0x9A) && (c =? 0x80))
  || ((a =? 0xE2) && (b =? 0x80)
      && (((0x80 <=? c) && (c <=? 0x8A)) || (c =? 0xA8) || (c =? 0xA9) || (c =? 0xAF)))
  || ((a =? 0xE2) && (b =? 0x81) && (c =? 0x9F))
  || ((a =? 0xE3) && (b =? 0x80) && (c =? 0x80)).

(** Every character is white space. *)
Fixpoint blank (l : list Z) : bool :=
  match l with
  | [] => true
  | a :: l1 =>
      if whitespace1 a then blank l1
      else match l1 with
           | [] => false
           | b :: l2 =>
               if whitespace2 a b then blank l2
               else match l2 with
                    | [] => false
                    | c :: l3 => whitespace3 a b c && blank l3
                    end
           end
  end.

(** [str::trim] leaves nothing. *)
Definition trim_is_empty (s : string) : bool := blank (string_bytes s).

(** [char::is_whitespace] holds of some character: UTF-8 synchronises itself, so every position may be
    tried. *)
Fixpoint any_whitespace (l : list Z) : bool :=
  match l with
  | [] => false
  | a :: l1 =>
      whitespace1 a
      || match l1 with
         | [] => false
         | b :: l2 => whitespace2 a b || match l2 with [] => false | c :: _ => whitespace3 a b c end
         end
      || any_whitespace l1
  end.

Definition byte_of (b : ascii) : Z := Z.of_N (N_of_ascii b).

(** [str::trim_start], [str::trim_end], [str::trim]. *)
Fixpoint trim_start (s : string) : string :=
  match s with
  | EmptyString => EmptyString
  | String a s1 =>
      if whitespace1 (byte_of a) then trim_start s1
      else match s1 with
           | EmptyString => s
           | String b s2 =>
               if whitespace2 (byte_of a) (byte_of b) then trim_start s2
               else match s2 with
                    | EmptyString => s
                    | String c s3 => if whitespace3 (byte_of a) (byte_of b) (byte_of c) then trim_start s3 else s
                    end
           end
  end.

Fixpoint trim_end (s : string) : string :=
  match s with
  | EmptyString => EmptyString
  | String a s1 => if trim_is_empty s then EmptyString else String a (trim_end s1)
  end.

Definition trim (s : string) : string := trim_end (trim_start s).

(** ** JSON

    The documented behaviour of [serde_json] on a type: what was encoded decodes to the same value. *)
Definition json_law {A} (to_vec : A -> result string (list Z)) (from_slice : list Z -> result string A) : Prop :=
  forall x bytes, to_vec x = Ok bytes -> bytes_ok bytes /\ from_slice bytes = Ok x.
