(* ===== verification/CoreError.v ===== *)
(** * Errors and their public form: [crates/elura-core/src/error.rs]

    Internal errors, the envelope exchanged across process boundaries, and the conversions between
    them.  A Rust string is its sequence of bytes; the JSON parser ([serde_json]) is a parameter of
    [from_slice]. *)

From Stdlib Require Import Ascii.
From stdpp Require Import pretty.
From S2P Require Import Prelude.

Record ErrorEnvelope : Type := {
  code : string;
  message : string;
  retryable : bool;
  retry_after_ms : option Z;
}.

Inductive Error : Type :=
| InvalidConfig (message : string)
| InvalidFrame (message : string)
| Authentication
| DuplicateSession
| SessionRevoked
| AdmissionDenied (code reason : string) (retry_after_ms : Z)
| OutboxLeaseLost
| OutboxNotFound
| DuplicateEvent
| AlreadyProcessed
| Business (code message : string) (retryable : bool)
| TicketExpired
| TicketReplayed
| RouteNotFound (route : Z)
| DuplicateRoute (route : Z)
| RateLimited
| QueueFull
| Unavailable
| Timeout
| Io (error : string)
| Serialization (error : string)
| Internal (message : string).

Abbreviation Result := (result Error).

(** A call returns or panics. *)
Inductive Outcome (A : Type) : Type :=
| Returned (r : Result A)
| Panicked.
Arguments Returned {A} _.
Arguments Panicked {A}.

Definition Error_business (code message : string) : Error := Business code message false.
Definition Error_retryable (code message : string) : Error := Business code message true.

Definition ErrorEnvelope_new (code message : string) (retryable : bool) : ErrorEnvelope :=
  {| code := code; message := message; retryable := retryable; retry_after_ms := None |}.

Definition ErrorEnvelope_with_retry_after (self : ErrorEnvelope) (ms : Z) : ErrorEnvelope :=
  {| code := self.(code); message := self.(message); retryable := self.(retryable);
     retry_after_ms := if 0 <? ms then Some ms else None |}.

(** *** ASCII classes *)

Definition is_ascii_uppercase (b : ascii) : bool :=
  (65 <=? Z.of_N (N_of_ascii b)) && (Z.of_N (N_of_ascii b) <=? 90).
Definition is_ascii_lowercase (b : ascii) : bool :=
  (97 <=? Z.of_N (N_of_ascii b)) && (Z.of_N (N_of_ascii b) <=? 122).
Definition is_ascii_digit (b : ascii) : bool :=
  (48 <=? Z.of_N (N_of_ascii b)) && (Z.of_N (N_of_ascii b) <=? 57).
Definition is_ascii_alphanumeric (b : ascii) : bool :=
  is_ascii_uppercase b || is_ascii_lowercase b || is_ascii_digit b.
Definition to_ascii_uppercase (b : ascii) : ascii :=
  if is_ascii_lowercase b then ascii_of_N (N_of_ascii b - 32) else b.

(** The decimal digits of [str::parse] for an unsigned integer up to [max]. *)
Fixpoint parse_digits (max acc : Z) (s : string) : option Z :=
  match s with
  | EmptyString => Some acc
  | String c s =>
      if is_ascii_digit c then
        let acc := acc * 10 + (Z.of_N (N_of_ascii c) - 48) in
        if acc <=? max then parse_digits max acc s else None
      else None
  end.

(** [str::parse] for an unsigned integer: a leading [+] is accepted, nothing else but digits is. *)
Definition parse_unsigned (max : Z) (s : string) : option Z :=
  let digits := match s with String "+" s => s | _ => s end in
  match digits with EmptyString => None | _ => parse_digits max 0 digits end.

Fixpoint string_forallb (p : ascii -> bool) (s : string) : bool :=
  match s with
  | EmptyString => true
  | String b s => p b && string_forallb p s
  end.

Fixpoint string_map (f : ascii -> ascii) (s : string) : string :=
  match s with
  | EmptyString => EmptyString
  | String b s => String (f b) (string_map f s)
  end.

(** [String::len], in bytes. *)
Definition string_len (s : string) : Z := Z.of_nat (String.length s).

Definition public_code (value : string) : string :=
  let code := string_map (fun b => if is_ascii_alphanumeric b then to_ascii_uppercase b else "_"%char)
    (String.substring 0 64 value) in
  match code with EmptyString => "BUSINESS_ERROR"%string | _ => code end.

(** [impl From<&Error> for ErrorEnvelope]. *)
Definition ErrorEnvelope_from (error : Error) : ErrorEnvelope :=
  match error with
  | InvalidConfig _ => ErrorEnvelope_new "INVALID_CONFIG" "invalid configuration" false
  | InvalidFrame _ | Serialization _ => ErrorEnvelope_new "INVALID_REQUEST" "invalid request" false
  | Authentication | TicketExpired | TicketReplayed =>
      ErrorEnvelope_new "UNAUTHENTICATED" "authentication failed" false
  | DuplicateSession => ErrorEnvelope_new "DUPLICATE_SESSION" "duplicate session" false
  | SessionRevoked => ErrorEnvelope_new "SESSION_REVOKED" "account session was revoked" false
  | AdmissionDenied code reason ms =>
      ErrorEnvelope_with_retry_after (ErrorEnvelope_new (public_code code) reason true) ms
  | Business code message retryable => ErrorEnvelope_new (public_code code) message retryable
  | RouteNotFound _ => ErrorEnvelope_new "ROUTE_NOT_FOUND" "route is not registered" false
  | RateLimited => ErrorEnvelope_new "RATE_LIMITED" "request rate exceeded" true
  | QueueFull => ErrorEnvelope_new "QUEUE_FULL" "service queue is full" true
  | Unavailable | Io _ => ErrorEnvelope_new "UNAVAILABLE" "service is unavailable" true
  | Timeout => ErrorEnvelope_new "TIMEOUT" "operation timed out" true
  | OutboxLeaseLost | OutboxNotFound | DuplicateEvent | AlreadyProcessed | DuplicateRoute _
  | Internal _ => ErrorEnvelope_new "INTERNAL" "internal error" false
  end.

Definition is_code_byte (b : ascii) : bool :=
  is_ascii_uppercase b || is_ascii_digit b || Ascii.eqb b "_"%char.

(** The field checks of [from_slice]. *)
Definition envelope_fields_ok (e : ErrorEnvelope) : bool :=
  negb (String.eqb e.(code) EmptyString || (64 <? string_len e.(code))
        || (1024 <? string_len e.(message)) || negb (string_forallb is_code_byte e.(code))).

Definition ErrorEnvelope_from_slice (parse : list Z -> option ErrorEnvelope) (input : list Z) :
    Result ErrorEnvelope :=
  let? envelope := ok_or (parse input) (InvalidFrame "invalid error envelope") in
  if negb (envelope_fields_ok envelope) then Err (InvalidFrame "invalid error envelope fields")
  else Ok envelope.

Definition ErrorEnvelope_into_error (self : ErrorEnvelope) : Error :=
  if String.eqb self.(code) "UNAUTHENTICATED" then Authentication
  else if String.eqb self.(code) "DUPLICATE_SESSION" then DuplicateSession
  else if String.eqb self.(code) "SESSION_REVOKED" then SessionRevoked
  else if String.eqb self.(code) "RATE_LIMITED" then RateLimited
  else if String.eqb self.(code) "QUEUE_FULL" then QueueFull
  else if String.eqb self.(code) "UNAVAILABLE" then Unavailable
  else if String.eqb self.(code) "TIMEOUT" then Timeout
  else if String.eqb self.(code) "INTERNAL" then Internal "remote service error"
  else Business self.(code) self.(message) self.(retryable).

(** The constant of [to_bytes]: the JSON of an internal error. *)
Definition internal_envelope : list Z :=
  [
    123; 34; 99; 111; 100; 101; 34; 58; 34; 73; 78; 84; 69; 82; 78; 65; 76; 34; 44; 34; 109; 101;
    115; 115; 97; 103; 101; 34; 58; 34; 105; 110; 116; 101; 114; 110; 97; 108; 32; 101; 114; 114;
    111; 114; 34; 44; 34; 114; 101; 116; 114; 121; 97; 98; 108; 101; 34; 58; 102; 97; 108; 115; 101;
    125
  ].

(** [to_bytes]: [to_vec] is [serde_json::to_vec]. *)
Definition ErrorEnvelope_to_bytes (to_vec : ErrorEnvelope -> option (list Z)) (self : ErrorEnvelope) : list Z :=
  default internal_envelope (to_vec self).

(** [impl Display for Error]. *)
Definition Error_display (error : Error) : string :=
  match error with
  | InvalidConfig message => "invalid configuration: " +:+ message
  | InvalidFrame message => "invalid frame: " +:+ message
  | Authentication => "authentication failed"
  | DuplicateSession => "duplicate session"
  | SessionRevoked => "account version revoked"
  | AdmissionDenied code reason ms =>
      "admission denied (" +:+ code +:+ "): " +:+ reason +:+ "; retry after " +:+ pretty ms +:+ "ms"
  | OutboxLeaseLost => "outbox lease was lost"
  | OutboxNotFound => "outbox event was not found"
  | DuplicateEvent => "outbox event ID conflicts with another event"
  | AlreadyProcessed => "event was already processed"
  | Business code message _ => code +:+ ": " +:+ message
  | TicketExpired => "ticket expired"
  | TicketReplayed => "ticket replayed"
  | RouteNotFound route => "route " +:+ pretty route +:+ " is not registered"
  | DuplicateRoute route => "route " +:+ pretty route +:+ " already exists"
  | RateLimited => "request rate exceeded"
  | QueueFull => "queue is full"
  | Unavailable => "service is unavailable"
  | Timeout => "operation timed out"
  | Io error => "I/O error: " +:+ error
  | Serialization error => "serialization error: " +:+ error
  | Internal message => "internal error: " +:+ message
  end.

(** ** Public codes *)

Lemma string_map_length f s : String.length (string_map f s) = String.length s.
Proof. induction s; cbn; auto. Qed.

Lemma string_map_forallb p f s :
  (forall b, p (f b) = true) -> string_forallb p (string_map f s) = true.
Proof. intros Hf. induction s; cbn; [done|]. by rewrite Hf. Qed.

Lemma substring_length n : forall s, (String.length (String.substring 0 n s) <= n)%nat.
Proof. induction n; intros []; cbn; try lia. specialize (IHn s). lia. Qed.

(** The byte map of [public_code] only produces code bytes: by cases on the 256 bytes. *)
Lemma public_byte_ok b :
  is_code_byte (if is_ascii_alphanumeric b then to_ascii_uppercase b else "_"%char) = true.
Proof. destruct b as [[] [] [] [] [] [] [] []]; vm_compute; reflexivity. Qed.

(** Bytes that are already public are kept. *)
Lemma public_byte_id b :
  is_code_byte b = true ->
  (if is_ascii_alphanumeric b then to_ascii_uppercase b else "_"%char) = b.
Proof. destruct b as [[] [] [] [] [] [] [] []]; vm_compute; intros; congruence. Qed.

Lemma public_code_ok value :
  public_code value <> EmptyString /\ string_len (public_code value) <= 64 /\
  string_forallb is_code_byte (public_code value) = true.
Proof.
  unfold public_code. pose proof (substring_length 64 value) as Hlen.
  set (s := String.substring 0 64 value) in *.
  pose proof (string_map_length (fun b => if is_ascii_alphanumeric b then to_ascii_uppercase b else "_"%char) s).
  pose proof (string_map_forallb is_code_byte _ s public_byte_ok) as Hall.
  destruct (string_map _ s) as [|b r] eqn:E; [by vm_compute|].
  split_and!; [done| |done]. unfold string_len. lia.
Qed.

Lemma substring_all n : forall s, (String.length s <= n)%nat -> String.substring 0 n s = s.
Proof.
  induction n as [|n IH]; intros [|b s] Hs; cbn in *; try done; [lia|]. rewrite IH; [done|lia].
Qed.

Lemma string_map_id p f s :
  (forall b, p b = true -> f b = b) -> string_forallb p s = true -> string_map f s = s.
Proof.
  intros Hf. induction s as [|b s IH]; cbn; [done|]. intros [Hb Hs]%andb_prop.
  by rewrite Hf, IH.
Qed.

(** A code that is already public is sent as it is. *)
Lemma public_code_id value :
  value <> EmptyString -> string_len value <= 64 -> string_forallb is_code_byte value = true ->
  public_code value = value.
Proof.
  intros Hne Hlen Hall. unfold public_code.
  rewrite substring_all by (unfold string_len in Hlen; lia).
  rewrite (string_map_id is_code_byte); [by destruct value|apply public_byte_id|done].
Qed.

(** ** Properties *)

(** What an error shows to a client.  The envelope of every error has a code the decoder accepts;
    it is accepted whole exactly when its message fits the 1024-byte limit, which only an application's
    own message can exceed; and nothing of a configuration, frame, I/O, serialization or internal
    error's text reaches it. *)
Theorem error_envelope_public (error : Error) :
  let e := ErrorEnvelope_from error in
  envelope_fields_ok e = (string_len e.(message) <=? 1024) /\
  match error with
  | InvalidConfig m => e = ErrorEnvelope_from (InvalidConfig "")
  | InvalidFrame m => e = ErrorEnvelope_from (InvalidFrame "")
  | Serialization m => e = ErrorEnvelope_from (Serialization "")
  | Io m => e = ErrorEnvelope_from (Io "")
  | Internal m => e = ErrorEnvelope_from (Internal "")
  | AdmissionDenied _ reason _ => e.(message) = reason
  | Business _ m _ => e.(message) = m
  | _ => string_len e.(message) <= 1024
  end.
Proof.
  intros e. split.
  - assert (Hcode : e.(code) <> EmptyString /\ string_len e.(code) <= 64 /\
      string_forallb is_code_byte e.(code) = true).
    { unfold e. destruct error; cbn; try apply public_code_ok; by vm_compute. }
    destruct Hcode as (Hne & Hlen & Hall). unfold envelope_fields_ok. rewrite Hall.
    destruct (String.eqb_spec (code e) EmptyString); [done|].
    destruct (Z.ltb_spec 64 (string_len (code e))); [lia|]. cbn. rewrite orb_false_r, Z.leb_antisym. done.
  - unfold e. destruct error; cbn; try reflexivity; by vm_compute.
Qed.

(** Categories survive the trip.  A business error with a public code that is not one of the
    framework's own comes back as the same business error, and each framework category that has a code
    of its own comes back as that category. *)
Theorem error_category_round_trip (error : Error) :
  match error with
  | Business c m r =>
      c <> EmptyString -> string_len c <= 64 -> string_forallb is_code_byte c = true ->
      c ∉ (["UNAUTHENTICATED"; "DUPLICATE_SESSION"; "SESSION_REVOKED"; "RATE_LIMITED"; "QUEUE_FULL";
           "UNAVAILABLE"; "TIMEOUT"; "INTERNAL"]%string : list string) ->
      ErrorEnvelope_into_error (ErrorEnvelope_from error) = error
  | Authentication | DuplicateSession | SessionRevoked | RateLimited | QueueFull | Unavailable
  | Timeout => ErrorEnvelope_into_error (ErrorEnvelope_from error) = error
  | TicketExpired | TicketReplayed =>
      ErrorEnvelope_into_error (ErrorEnvelope_from error) = Authentication
  | Io _ => ErrorEnvelope_into_error (ErrorEnvelope_from error) = Unavailable
  | _ => True
  end.
Proof.
  destruct error; try done. intros Hne Hlen Hall Hnot. cbn. rewrite public_code_id by done.
  unfold ErrorEnvelope_into_error. cbn.
  repeat match goal with
  | |- context [String.eqb ?a ?b] =>
      destruct (String.eqb_spec a b); [exfalso; apply Hnot; subst; set_solver|]
  end. done.
Qed.

Lemma error_category_round_trip_witness :
  ErrorEnvelope_into_error (ErrorEnvelope_from (Business "NOT_ENOUGH_GOLD" "not enough gold" false)) =
  Business "NOT_ENOUGH_GOLD" "not enough gold" false.
Proof.
  apply (error_category_round_trip (Business "NOT_ENOUGH_GOLD" "not enough gold" false)).
  - discriminate.
  - vm_compute. discriminate.
  - reflexivity.
  - apply (bool_decide_unpack _). vm_compute. exact I.
Defined.

(** ** Decimal numbers *)

Lemma pretty_digit (d : N) : (d < 10)%N ->
  is_ascii_digit (pretty_N_char d) = true /\ Z.of_N (N_of_ascii (pretty_N_char d)) - 48 = Z.of_N d.
Proof.
  intros Hd. assert (Hall : Forall (fun d => is_ascii_digit (pretty_N_char d) = true
    /\ Z.of_N (N_of_ascii (pretty_N_char d)) - 48 = Z.of_N d) (N.of_nat <$> seq 0 10)) by (repeat constructor).
  rewrite Forall_forall in Hall. apply Hall. apply list_elem_of_fmap. exists (N.to_nat d). split; [lia|]. apply elem_of_seq. lia.
Qed.

Lemma parse_digits_go max (x : N) : forall s, Z.of_N x <= max -> parse_digits max 0 (pretty_N_go x s) = parse_digits max (Z.of_N x) s.
Proof.
  induction (N.lt_wf_0 x) as [x _ IH]. intros s Hx. destruct (decide (x = 0%N)) as [->|Hne]; [by rewrite pretty_N_go_0|].
  rewrite pretty_N_go_step by lia. rewrite IH; [|apply N.div_lt; lia|].
  2: { etrans; [|exact Hx]. apply N2Z.inj_le, N.Div0.div_le_upper_bound. lia. }
  cbn [parse_digits]. destruct (pretty_digit (x mod 10)) as [-> ->]; [by apply N.mod_lt|].
  replace (Z.of_N (x / 10) * 10 + Z.of_N (x mod 10)) with (Z.of_N x) by (pose proof (N.div_mod x 10); lia).
  destruct (Z.leb_spec (Z.of_N x) max); [done|lia].
Qed.

(** [parse] of what [to_string] writes. *)
Lemma parse_unsigned_pretty max n : 0 <= n <= max -> parse_unsigned max (pretty n) = Some n.
Proof.
  intros Hn. unfold pretty, pretty_Z. destruct n as [|p|p]; [| |lia].
  { change ((if 0 <=? max then Some 0 else None) = Some 0). by rewrite (proj2 (Z.leb_le 0 max) (proj2 Hn)). }
  change (pretty p) with (pretty_N_go (N.pos p) "").
  assert (Hg : parse_digits max 0 (pretty_N_go (N.pos p) "") = Some (Z.pos p)) by (rewrite parse_digits_go; [done|apply Hn]).
  unfold parse_unsigned.
  destruct (pretty_N_go (N.pos p) "") as [|c s] eqn:Hs; [by cbn in Hg|].
  assert (Hc : is_ascii_digit c = true) by (cbn in Hg; by destruct (is_ascii_digit c)).
  assert (c <> "+"%char) by (by intros ->). by destruct c as [[] [] [] [] [] [] [] []].
Qed.
