(* ===== verification/Identity.v ===== *)
(** * Player keys and identities: [crates/elura-core/src/session.rs]

    The key that names a player within a region and realm, and the authenticated identity attached to
    a session. *)

From S2P Require Import Prelude CoreError.

Record PlayerKey : Type := {
  region_id : Z;
  realm_id : Z;
  user_id : Z;
}.

#[export] Instance PlayerKey_eq_dec : EqDecision PlayerKey.
Proof. solve_decision. Defined.

#[export] Instance PlayerKey_countable : Countable PlayerKey.
Proof.
  refine (inj_countable' (fun k => (k.(region_id), k.(realm_id), k.(user_id)))
    (fun '(a, b, c) => {| region_id := a; realm_id := b; user_id := c |}) _).
  by intros [].
Defined.

Definition PlayerKey_validate (self : PlayerKey) : Result unit :=
  if (self.(region_id) =? 0) || (self.(realm_id) =? 0) || (self.(user_id) <=? 0) then
    Err (InvalidConfig "invalid player key")
  else Ok ().

Definition PlayerKey_new (region realm user : Z) : Result PlayerKey :=
  let key := {| region_id := region; realm_id := realm; user_id := user |} in
  let? _ := PlayerKey_validate key in
  Ok key.

Record Identity : Type := {
  account_id : Z;
  identity_user_id : Z;
  identity_region_id : Z;
  identity_realm_id : Z;
  generation : Z;
}.

#[export] Instance Identity_eq_dec : EqDecision Identity.
Proof. solve_decision. Defined.

Definition Identity_validate (self : Identity) : Result unit :=
  if (self.(account_id) <=? 0) || (self.(identity_user_id) <=? 0) || (self.(identity_region_id) =? 0)
     || (self.(identity_realm_id) =? 0) || (self.(generation) =? 0) then
    Err Authentication
  else Ok ().

Definition Identity_player_key (self : Identity) : PlayerKey :=
  {| region_id := self.(identity_region_id); realm_id := self.(identity_realm_id);
     user_id := self.(identity_user_id) |}.

(** A valid identity names a valid player. *)
Lemma identity_player_key_valid i : Identity_validate i = Ok () -> PlayerKey_validate (Identity_player_key i) = Ok ().
Proof.
  unfold Identity_validate, PlayerKey_validate, Identity_player_key. cbn.
  destruct (account_id i <=? 0); [done|]. destruct (identity_user_id i <=? 0); [done|].
  destruct (identity_region_id i =? 0); [done|]. by destruct (identity_realm_id i =? 0).
Qed.
