(* ===== verification/Session.v ===== *)
(** * Sessions: [crates/elura-core/src/session.rs]

    Session-control events and the state machine of one client session.  Clock readings and the drawn
    session identifier are arguments; nothing panics while the session lock is held, so it is never
    poisoned. *)

From S2P Require Import Prelude CoreError Identity.

(** ** Session control *)

Inductive SessionControlKind : Type := Login | ForceLogout | VersionChanged.

#[export] Instance SessionControlKind_eq_dec : EqDecision SessionControlKind.
Proof. solve_decision. Defined.

Record SessionControlEvent : Type := {
  kind : SessionControlKind;
  event_region_id : Z;
  event_realm_id : Z;
  event_user_id : Z;
  event_generation : Z;
  session_id : option Z;
  keep_session_id : option Z;
  reason : string;
}.

Definition SessionControlEvent_validate (self : SessionControlEvent) : Result unit :=
  if (self.(event_region_id) =? 0) || (self.(event_realm_id) =? 0) || (self.(event_user_id) <=? 0)
     || (256 <? string_len self.(reason))
     || (bool_decide (self.(kind) = VersionChanged) && (self.(event_generation) =? 0)) then
    Err (InvalidConfig "invalid Session control event")
  else Ok ().

(** ** Sessions *)

(** [IpAddr]. *)
Inductive IpAddr : Type := V4 (bits : Z) | V6 (bits : Z).

#[export] Instance IpAddr_eq_dec : EqDecision IpAddr.
Proof. solve_decision. Defined.

#[export] Instance IpAddr_countable : Countable IpAddr.
Proof.
  refine (inj_countable'
    (fun ip => match ip with V4 b => inl b | V6 b => inr b end)
    (fun x => match x with inl b => V4 b | inr b => V6 b end) _).
  by intros [].
Defined.

(** [SocketAddr]. *)
Record SocketAddr : Type := { addr_ip : IpAddr; addr_port : Z }.

#[export] Instance SocketAddr_eq_dec : EqDecision SocketAddr.
Proof. solve_decision. Defined.

#[export] Instance SocketAddr_countable : Countable SocketAddr.
Proof.
  refine (inj_countable' (fun a => (a.(addr_ip), a.(addr_port)))
    (fun '(i, p) => {| addr_ip := i; addr_port := p |}) _).
  by intros [].
Defined.

Inductive SessionState : Type := Anonymous | Authenticated | Closed.

#[export] Instance SessionState_eq_dec : EqDecision SessionState.
Proof. solve_decision. Defined.

Record Inner : Type := {
  state : SessionState;
  inner_identity : option Identity;
  last_activity_at : Z;
}.

Record Session : Type := {
  id : Z;
  remote_ip : IpAddr;
  connected_at : Z;
  inner : Inner;
}.

Record SessionSnapshot : Type := {
  snapshot_id : Z;
  snapshot_remote_ip : IpAddr;
  snapshot_state : SessionState;
  snapshot_identity : option Identity;
  snapshot_connected_at : Z;
  snapshot_last_activity_at : Z;
}.

Definition Session_new (now new_v4 : Z) (remote_ip : IpAddr) : Session :=
  {| id := new_v4; remote_ip := remote_ip; connected_at := now;
     inner := {| state := Anonymous; inner_identity := None; last_activity_at := now |} |}.

Definition with_inner (self : Session) (i : Inner) : Session :=
  {| id := self.(id); remote_ip := self.(remote_ip); connected_at := self.(connected_at); inner := i |}.

Definition Session_authenticate (self : Session) (now : Z) (identity : Identity) :
    Result unit * Session :=
  let? _ := Identity_validate identity else self in
  if negb (bool_decide (self.(inner).(state) = Anonymous)) then (Err Authentication, self)
  else
    (Ok (), with_inner self
      {| state := Authenticated; inner_identity := Some identity; last_activity_at := now |}).

Definition Session_identity (self : Session) : option Identity := self.(inner).(inner_identity).

Definition Session_touch (self : Session) (now : Z) : Session :=
  with_inner self {| state := self.(inner).(state); inner_identity := self.(inner).(inner_identity);
                     last_activity_at := now |}.

Definition Session_close (self : Session) (now : Z) : Session :=
  with_inner self {| state := Closed; inner_identity := self.(inner).(inner_identity);
                     last_activity_at := now |}.

Definition Session_snapshot (self : Session) : Result SessionSnapshot :=
  Ok {| snapshot_id := self.(id); snapshot_remote_ip := self.(remote_ip);
        snapshot_state := self.(inner).(state); snapshot_identity := self.(inner).(inner_identity);
        snapshot_connected_at := self.(connected_at);
        snapshot_last_activity_at := self.(inner).(last_activity_at) |}.

(** ** Lifecycle *)

Inductive SessionCall : Type :=
| CAuthenticate (now : Z) (identity : Identity)
| CTouch (now : Z)
| CClose (now : Z).

Definition session_exec (s : Session) (c : SessionCall) : option (Result unit) * Session :=
  match c with
  | CAuthenticate now identity =>
      let '(r, s') := Session_authenticate s now identity in (Some r, s')
  | CTouch now => (None, Session_touch s now)
  | CClose now => (None, Session_close s now)
  end.

(** The outcomes of the authentications and the session after the calls. *)
Fixpoint session_run (s : Session) (cs : list SessionCall) : list (Result unit) * Session :=
  match cs with
  | [] => ([], s)
  | c :: cs =>
      let '(out, s1) := session_exec s c in
      let '(outs, s2) := session_run s1 cs in
      (option_list out ++ outs, s2)
  end.

(** A state and the identity it comes with. *)
Definition session_ok (s : Session) : Prop :=
  match s.(inner).(state), s.(inner).(inner_identity) with
  | Anonymous, None | Closed, None => True
  | Authenticated, Some i | Closed, Some i => Identity_validate i = Ok ()
  | _, _ => False
  end.

Definition rank (st : SessionState) : Z :=
  match st with Anonymous => 0 | Authenticated => 1 | Closed => 2 end.

Lemma session_exec_ok s c :
  session_ok s ->
  let '(out, s') := session_exec s c in
  session_ok s' /\ rank s.(inner).(state) <= rank s'.(inner).(state)
  /\ s'.(id) = s.(id)
  /\ (forall i, Session_identity s = Some i -> Session_identity s' = Some i)
  /\ (out = Some (Ok ()) -> s.(inner).(state) = Anonymous /\ s'.(inner).(state) = Authenticated)
  /\ (s.(inner).(state) <> Anonymous -> Session_identity s' = Session_identity s).
Proof.
  intros Hok. unfold session_ok, Session_identity in *.
  destruct c as [now i|now|now]; cbn [session_exec].
  - unfold Session_authenticate. destruct (Identity_validate i) as [[]|e] eqn:Hi.
    2: { split_and!; [done|lia|done|done|done|done]. }
    case_bool_decide as Hst; cbn; rewrite ?Hst in *.
    + destruct (inner_identity (inner s)); [done|]. split_and!; [done|cbn; lia|done|done|done|done].
    + split_and!; [done|lia|done|done|done|done].
  - cbn. split_and!; [done|lia|done|done|done|done].
  - cbn. split_and!; try done.
    + destruct (state (inner s)), (inner_identity (inner s)); done.
    + destruct (state (inner s)); cbn; lia.
Qed.

(** Once left, the anonymous state is never entered again: later authentications fail. *)
Lemma session_run_not_anonymous cs : forall s,
  session_ok s -> s.(inner).(state) <> Anonymous ->
  Forall (fun r => r <> Ok ()) (session_run s cs).1
  /\ Session_identity (session_run s cs).2 = Session_identity s
  /\ (session_run s cs).2.(inner).(state) <> Anonymous.
Proof.
  induction cs as [|c cs IH]; intros s Hok Hne; [by split_and!|].
  pose proof (session_exec_ok s c Hok) as Hx. cbn [session_run].
  destruct (session_exec s c) as [out s1]. destruct Hx as (Hok1 & Hr & _ & _ & Hout & Hid).
  assert (Hne1 : s1.(inner).(state) <> Anonymous).
  { intros He. rewrite He in Hr. destruct (state (inner s)); cbn in Hr; [done|lia..]. }
  destruct (IH s1 Hok1 Hne1) as (Hall & Hid1 & Hfin).
  destruct (session_run s1 cs) as [outs s2]. cbn [fst snd] in *.
  split_and!; [|by rewrite Hid1, Hid|done].
  apply Forall_app. split; [|done]. destruct out as [r|]; [|by apply Forall_nil].
  apply Forall_singleton. intros ->. by destruct (Hout eq_refl).
Qed.

Lemma session_run_ok cs : forall s,
  session_ok s ->
  let s' := (session_run s cs).2 in
  session_ok s' /\ s'.(id) = s.(id) /\ rank s.(inner).(state) <= rank s'.(inner).(state)
  /\ (length (filter (fun r => is_ok r = true) (session_run s cs).1) <= 1)%nat.
Proof.
  induction cs as [|c cs IH]; intros s Hok; [cbn; split_and!; [done|done|lia|lia]|].
  pose proof (session_exec_ok s c Hok) as Hx. cbn [session_run].
  destruct (session_exec s c) as [out s1]. destruct Hx as (Hok1 & Hr & Hid & _ & Hout & _).
  destruct (IH s1 Hok1) as (Hok2 & Hid2 & Hr2 & Hlen).
  pose proof (session_run_not_anonymous cs s1 Hok1) as Hna.
  destruct (session_run s1 cs) as [outs s2]. cbn [fst snd] in *.
  split_and!; [done|congruence|lia|]. rewrite filter_app.
  destruct out as [[[]|e]|]; [|exact Hlen..].
  destruct (Hout eq_refl) as [_ Hauth]. rewrite Hauth in Hna. destruct Hna as (Hall & _); [done|].
  cbn [option_list]. rewrite length_app. rewrite (filter_none _ outs); [vm_compute; lia|].
  eapply Forall_impl; [exact Hall|]. intros [[]|]; done.
Qed.

(** A session authenticates at most once and never leaves the closed state.  After any calls from a
    new session: its identifier is unchanged, at most one authentication succeeded, an identity it
    shows is valid and was given by that one, authenticated sessions have an identity, and once it is
    closed every authentication is refused and the identity is kept. *)
Theorem session_authenticates_once (now new_v4 : Z) (ip : IpAddr) (cs cs' : list SessionCall) :
  let s := (session_run (Session_new now new_v4 ip) cs).2 in
  session_ok s /\ s.(id) = new_v4
  /\ (length (filter (fun r => is_ok r = true) (session_run (Session_new now new_v4 ip) cs).1) <= 1)%nat
  /\ (s.(inner).(state) = Closed ->
      (session_run s cs').2.(inner).(state) = Closed
      /\ Forall (fun r => r <> Ok ()) (session_run s cs').1
      /\ Session_identity (session_run s cs').2 = Session_identity s).
Proof.
  intros s. destruct (session_run_ok cs (Session_new now new_v4 ip) I) as (Hok & Hid & _ & Hlen).
  split_and!; [done|done|done|]. intros Hcl.
  destruct (session_run_not_anonymous cs' s Hok) as (Hall & Hident & Hna); [by rewrite Hcl|].
  destruct (session_run_ok cs' s Hok) as (_ & _ & Hr & _). split_and!; [|done|done].
  rewrite Hcl in Hr. destruct (state (inner (session_run s cs').2)); cbn in Hr; [lia..|done].
Qed.
