(* ===== verification/Frame.v ===== *)
(** * Wire frames: [crates/elura-core/src/protocol.rs]

    The ELR2 binary frame: a 28-byte big-endian header and a payload.  A decoder is given the buffer
    and returns what is left of it; [reserve] only affects allocation and is not modelled. *)

From S2P Require Import Prelude Bytes CoreError.

Definition MAGIC : Z := 0x454C5232.
Definition VERSION : Z := 2.
Definition HEADER_LEN : Z := 28.
Definition DEFAULT_MAX_PAYLOAD : Z := Z.shiftl 1 20.
Definition FIRST_APPLICATION_ROUTE : Z := 100.

Inductive FrameKind : Type := Request | Response | Push | ErrorKind.

(** [kind as u8]. *)
Definition FrameKind_as_u8 (k : FrameKind) : Z :=
  match k with Request => 1 | Response => 2 | Push => 3 | ErrorKind => 4 end.

Definition FrameKind_try_from (value : Z) : Result FrameKind :=
  if value =? 1 then Ok Request
  else if value =? 2 then Ok Response
  else if value =? 3 then Ok Push
  else if value =? 4 then Ok ErrorKind
  else Err (InvalidFrame "unknown frame kind").

Record Frame : Type := {
  kind : FrameKind;
  flags : Z;
  route : Z;
  request_id : Z;
  sequence : Z;
  payload : list Z;
}.

Definition Frame_request (route request_id : Z) (payload : list Z) : Result Frame :=
  if route =? 0 then Err (InvalidFrame "route must be non-zero")
  else if request_id =? 0 then Err (InvalidFrame "request id must be non-zero")
  else Ok {| kind := Request; flags := 0; route := route; request_id := request_id; sequence := 0;
             payload := payload |}.

Definition Frame_response (request : Frame) (payload : list Z) : Frame :=
  {| kind := Response; flags := 0; route := request.(route); request_id := request.(request_id);
     sequence := request.(sequence); payload := payload |}.

Definition Frame_error (request : Frame) (message : list Z) : Frame :=
  {| kind := ErrorKind; flags := 0; route := request.(route); request_id := request.(request_id);
     sequence := request.(sequence); payload := message |}.

Definition Frame_validate (self : Frame) (max_payload : Z) : Result unit :=
  if max_payload <? len self.(payload) then Err (InvalidFrame "payload is too large")
  else if negb (self.(flags) =? 0) then Err (InvalidFrame "unsupported frame flags")
  else if self.(route) =? 0 then Err (InvalidFrame "route must be non-zero")
  else
    match self.(kind) with
    | Request | Response | ErrorKind =>
        if self.(request_id) =? 0 then Err (InvalidFrame "request id must be non-zero") else Ok ()
    | Push =>
        if negb (self.(request_id) =? 0) then Err (InvalidFrame "push request id must be zero")
        else Ok ()
    end.

Record FrameCodec : Type := { max_payload : Z }.

Definition FrameCodec_new (max_payload : Z) : Result FrameCodec :=
  if (max_payload =? 0) || (Z.shiftl 64 20 <? max_payload) then
    Err (InvalidConfig "max payload must be in 1..=64MiB")
  else Ok {| max_payload := max_payload |}.

Definition FrameCodec_default : FrameCodec := {| max_payload := DEFAULT_MAX_PAYLOAD |}.

(** [io::Error], by kind and source. *)
Inductive IoError : Type :=
| UnexpectedEof (message : string)
| InvalidData (message : string)
| InvalidDataFrom (error : Error)
| InvalidInputFrom (error : Error).

(** The header fields, read in order from the first [HEADER_LEN] bytes. *)
Record Header : Type := {
  h_kind : FrameKind;
  h_flags : Z;
  h_route : Z;
  h_request_id : Z;
  h_sequence : Z;
  h_payload_len : Z;
}.

(** The part [decode] and [decode_message] share: from the magic to the payload limit. *)
Definition read_header (self : FrameCodec) (source : list Z) : result IoError Header :=
  let '(magic, header) := get_be 4 source in
  if negb (magic =? MAGIC) then Err (InvalidData "invalid Elura magic")
  else
    let '(version, header) := get_be 2 header in
    if negb (version =? VERSION) then Err (InvalidData "unsupported Elura version")
    else
      let '(kind, header) := get_be 1 header in
      let? kind := map_err InvalidDataFrom (FrameKind_try_from kind) in
      let '(flags, header) := get_be 1 header in
      let '(route, header) := get_be 4 header in
      let '(request_id, header) := get_be 8 header in
      let '(sequence, header) := get_be 4 header in
      let '(payload_len, header) := get_be 4 header in
      if self.(max_payload) <? payload_len then Err (InvalidData "Elura payload is too large")
      else Ok {| h_kind := kind; h_flags := flags; h_route := route; h_request_id := request_id;
                 h_sequence := sequence; h_payload_len := payload_len |}.

Definition frame_of (h : Header) (payload : list Z) : Frame :=
  {| kind := h.(h_kind); flags := h.(h_flags); route := h.(h_route);
     request_id := h.(h_request_id); sequence := h.(h_sequence); payload := payload |}.

Definition FrameCodec_decode_message (self : FrameCodec) (source : list Z) : result IoError Frame :=
  if len source <? HEADER_LEN then Err (UnexpectedEof "incomplete Elura frame")
  else
    let? h := read_header self source in
    if negb (len source =? HEADER_LEN + h.(h_payload_len)) then
      Err (InvalidData "Elura message must contain exactly one frame")
    else
      let frame := frame_of h (drop (Z.to_nat HEADER_LEN) source) in
      let? _ := map_err InvalidDataFrom (Frame_validate frame self.(max_payload)) in
      Ok frame.

Definition FrameCodec_decode (self : FrameCodec) (source : list Z) :
    result IoError (option Frame) * list Z :=
  if len source <? HEADER_LEN then (Ok None, source)
  else
    let? h := read_header self source else source in
    if len source <? HEADER_LEN + h.(h_payload_len) then (Ok None, source)
    else
      let source := drop (Z.to_nat HEADER_LEN) source in
      let frame := frame_of h (take (Z.to_nat h.(h_payload_len)) source) in
      let source := drop (Z.to_nat h.(h_payload_len)) source in
      let? _ := map_err InvalidDataFrom (Frame_validate frame self.(max_payload)) else source in
      (Ok (Some frame), source).

Definition FrameCodec_encode (self : FrameCodec) (frame : Frame) (destination : list Z) :
    result IoError unit * list Z :=
  let? _ := map_err InvalidInputFrom (Frame_validate frame self.(max_payload)) else destination in
  (Ok (),
   destination ++ put_be 4 MAGIC ++ put_be 2 VERSION ++ put_be 1 (FrameKind_as_u8 frame.(kind))
     ++ put_be 1 frame.(flags) ++ put_be 4 frame.(route) ++ put_be 8 frame.(request_id)
     ++ put_be 4 frame.(sequence) ++ put_be 4 (len frame.(payload)) ++ frame.(payload)).

(** ** Wire format *)

(** Field widths of a Rust [Frame]. *)
Record frame_ok (f : Frame) : Prop := {
  fo_flags : fits u8_max f.(flags);
  fo_route : fits u32_max f.(route);
  fo_request : u64_ok f.(request_id);
  fo_sequence : fits u32_max f.(sequence);
  fo_payload : bytes_ok f.(payload);
}.

Definition codec_ok (c : FrameCodec) : Prop := 0 < c.(max_payload) <= 67108864.

Lemma new_codec_ok m c : fits usize_max m -> FrameCodec_new m = Ok c -> codec_ok c.
Proof.
  unfold FrameCodec_new, codec_ok, fits. intros Hm Hnew. case_match eqn:Hb; simplify_eq. breflect.
  change (Z.shiftl 64 20) with 67108864 in *. cbn. lia.
Qed.

(** The header bytes of a frame. *)
Definition header_bytes (f : Frame) : list Z :=
  put_be 4 MAGIC ++ put_be 2 VERSION ++ put_be 1 (FrameKind_as_u8 f.(kind)) ++ put_be 1 f.(flags)
    ++ put_be 4 f.(route) ++ put_be 8 f.(request_id) ++ put_be 4 f.(sequence)
    ++ put_be 4 (len f.(payload)).

Definition wire (f : Frame) : list Z := header_bytes f ++ f.(payload).

Lemma length_header f : length (header_bytes f) = 28%nat.
Proof. unfold header_bytes. by rewrite !length_app, !length_put_be. Qed.

Lemma len_wire f : len (wire f) = HEADER_LEN + len f.(payload).
Proof. unfold wire. rewrite len_app. unfold len at 1. by rewrite length_header. Qed.

Lemma wire_ok f : bytes_ok f.(payload) -> bytes_ok (wire f).
Proof.
  intros Hp. unfold wire, header_bytes, bytes_ok. rewrite !Forall_app.
  split_and!; first [apply put_be_ok | done].
Qed.

Lemma encode_wire c f dest :
  FrameCodec_encode c f dest =
  match Frame_validate f c.(max_payload) with
  | Ok _ => (Ok (), dest ++ wire f)
  | Err e => (Err (InvalidInputFrom e), dest)
  end.
Proof.
  unfold FrameCodec_encode, wire, header_bytes. destruct (Frame_validate f (max_payload c)); cbn [map_err]; [|done].
  by rewrite <-!app_assoc.
Qed.

Lemma try_from_as_u8 k : FrameKind_try_from (FrameKind_as_u8 k) = Ok k.
Proof. by destruct k. Qed.

Lemma validate_payload f m : Frame_validate f m = Ok () -> len f.(payload) <= m.
Proof. unfold Frame_validate. case_match eqn:E; [done|]. intros _. breflect. lia. Qed.

(** The header of a frame reads back, whatever follows it. *)
Lemma read_header_wire c f rest :
  codec_ok c -> frame_ok f -> Frame_validate f c.(max_payload) = Ok () ->
  read_header c (header_bytes f ++ rest) =
    Ok {| h_kind := f.(kind); h_flags := f.(flags); h_route := f.(route);
          h_request_id := f.(request_id); h_sequence := f.(sequence);
          h_payload_len := len f.(payload) |}.
Proof.
  intros Hc [Hfl Hr Hid Hs _] Hv. pose proof (validate_payload _ _ Hv) as Hp. pose proof (len_nonneg f.(payload)).
  unfold codec_ok, fits, u8_max, u32_max, u64_max in *.
  unfold read_header, header_bytes. rewrite <-!app_assoc.
  rewrite (get_put_be 4 MAGIC) by done. rewrite Z.eqb_refl. cbn [negb].
  rewrite (get_put_be 2 VERSION) by done. rewrite Z.eqb_refl. cbn [negb].
  rewrite (get_put_be 1) by (by destruct (kind f)). rewrite try_from_as_u8. cbn [map_err].
  rewrite (get_put_be 1) by (change (256 ^ Z.of_nat 1) with 256; lia).
  rewrite (get_put_be 4) by (change (256 ^ Z.of_nat 4) with 4294967296; lia).
  rewrite (get_put_be 8) by (change (256 ^ Z.of_nat 8) with 18446744073709551616; lia).
  rewrite (get_put_be 4) by (change (256 ^ Z.of_nat 4) with 4294967296; lia).
  rewrite (get_put_be 4) by (change (256 ^ Z.of_nat 4) with 4294967296; lia).
  destruct (Z.ltb_spec (max_payload c) (len (payload f))); [lia|done].
Qed.

Lemma frame_of_eta f :
  frame_of {| h_kind := f.(kind); h_flags := f.(flags); h_route := f.(route);
              h_request_id := f.(request_id); h_sequence := f.(sequence);
              h_payload_len := len f.(payload) |} f.(payload) = f.
Proof. by destruct f. Qed.

Lemma decode_wire c f rest :
  codec_ok c -> frame_ok f -> Frame_validate f c.(max_payload) = Ok () ->
  FrameCodec_decode c (wire f ++ rest) = (Ok (Some f), rest).
Proof.
  intros Hc Hf Hv. unfold FrameCodec_decode. rewrite len_app, len_wire.
  pose proof (len_nonneg rest). pose proof (len_nonneg f.(payload)). unfold HEADER_LEN in *.
  destruct (Z.ltb_spec (28 + len (payload f) + len rest) 28); [lia|].
  unfold wire. rewrite <-app_assoc. rewrite read_header_wire by done. cbn [h_payload_len].
  destruct (Z.ltb_spec (28 + len (payload f) + len rest) (28 + len (payload f))); [lia|].
  rewrite (drop_app_length' (header_bytes f)) by (by rewrite length_header).
  unfold len. rewrite Nat2Z.id, take_app_length, drop_app_length. fold (len (payload f)).
  rewrite frame_of_eta, Hv. done.
Qed.

(** An incomplete frame is waited for. *)
Lemma decode_incomplete c f p q :
  codec_ok c -> frame_ok f -> Frame_validate f c.(max_payload) = Ok () ->
  p ++ q = wire f -> q <> [] -> FrameCodec_decode c p = (Ok None, p).
Proof.
  intros Hc Hf Hv Hpq Hq. unfold FrameCodec_decode.
  assert (Hlen : len p < HEADER_LEN + len f.(payload)).
  { rewrite <-len_wire, <-Hpq, len_app. destruct q; [done|]. rewrite len_cons. pose proof (len_nonneg q). lia. }
  destruct (Z.ltb_spec (len p) HEADER_LEN) as [|Hge]; [done|].
  assert (Hp : p = header_bytes f ++ drop 28 p).
  { apply (f_equal (take 28)) in Hpq. unfold wire in Hpq.
    rewrite take_app_le in Hpq by (unfold len, HEADER_LEN in Hge; lia).
    rewrite take_app_length' in Hpq by (by rewrite length_header).
    rewrite <-Hpq. symmetry. apply take_drop. }
  rewrite Hp at 1. rewrite read_header_wire by done. cbn [h_payload_len].
  destruct (Z.ltb_spec (len p) (HEADER_LEN + len (payload f))); [done|lia].
Qed.

Lemma get_be_inv n l v l' :
  get_be n l = (v, l') -> bytes_ok l -> (n <= length l)%nat ->
  l = put_be n v ++ l' /\ bytes_ok l' /\ length l' = (length l - n)%nat /\
  0 <= v < 256 ^ Z.of_nat n.
Proof.
  unfold get_be. intros [= <- <-] Hl Hn.
  assert (Ht : length (take n l) = n) by (rewrite length_take; lia).
  assert (Hok : bytes_ok (take n l)) by (by apply Forall_take).
  split_and!.
  - rewrite <-(take_drop n l) at 1. f_equal. rewrite <-Ht at 2. symmetry. by apply put_be_value.
  - by apply Forall_drop.
  - apply length_drop.
  - apply be_value_range in Hok. rewrite Ht in Hok. lia.
  - apply be_value_range in Hok. rewrite Ht in Hok. lia.
Qed.

(** A header that reads is the header of a frame. *)
Lemma read_header_inv c src h :
  bytes_ok src -> HEADER_LEN <= len src -> read_header c src = Ok h ->
  h.(h_payload_len) <= c.(max_payload) /\ 0 <= h.(h_payload_len) /\
  forall pay, len pay = h.(h_payload_len) -> bytes_ok pay ->
    src = header_bytes (frame_of h pay) ++ drop 28 src /\ frame_ok (frame_of h pay).
Proof.
  intros Hok Hlen Hrun. unfold HEADER_LEN, len in Hlen.
  unfold read_header in Hrun.
  destruct (get_be 4 src) as [magic l1] eqn:E1. apply get_be_inv in E1 as (S1 & O1 & L1 & _); [|done|lia].
  destruct (Z.eqb_spec magic MAGIC) as [->|]; [|done]. cbn [negb] in Hrun.
  destruct (get_be 2 l1) as [ver l2] eqn:E2. apply get_be_inv in E2 as (S2 & O2 & L2 & _); [|done|lia].
  destruct (Z.eqb_spec ver VERSION) as [->|]; [|done]. cbn [negb] in Hrun.
  destruct (get_be 1 l2) as [kd l3] eqn:E3. apply get_be_inv in E3 as (S3 & O3 & L3 & _); [|done|lia].
  destruct (FrameKind_try_from kd) as [k|] eqn:Hk; [|done]. cbn [map_err] in Hrun.
  destruct (get_be 1 l3) as [fl l4] eqn:E4. apply get_be_inv in E4 as (S4 & O4 & L4 & R4); [|done|lia].
  destruct (get_be 4 l4) as [rt l5] eqn:E5. apply get_be_inv in E5 as (S5 & O5 & L5 & R5); [|done|lia].
  destruct (get_be 8 l5) as [rid l6] eqn:E6. apply get_be_inv in E6 as (S6 & O6 & L6 & R6); [|done|lia].
  destruct (get_be 4 l6) as [sq l7] eqn:E7. apply get_be_inv in E7 as (S7 & O7 & L7 & R7); [|done|lia].
  destruct (get_be 4 l7) as [pl l8] eqn:E8. apply get_be_inv in E8 as (S8 & O8 & L8 & R8); [|done|lia].
  destruct (Z.ltb_spec (max_payload c) pl); [done|]. injection Hrun as <-. cbn.
  split_and!; [done|lia|].
  intros pay Hpl Hpok.
  assert (Hkd : kd = FrameKind_as_u8 k).
  { unfold FrameKind_try_from in Hk. repeat (case_match; breflect; simplify_eq; try done). }
  assert (Hsrc : src = header_bytes (frame_of {| h_kind := k; h_flags := fl; h_route := rt;
    h_request_id := rid; h_sequence := sq; h_payload_len := pl |} pay) ++ l8).
  { unfold header_bytes. cbn [frame_of kind flags route request_id sequence payload h_kind h_flags
      h_route h_request_id h_sequence]. rewrite <-!app_assoc.
    rewrite S1 at 1. rewrite S2 at 1. rewrite S3 at 1. rewrite S4 at 1. rewrite S5 at 1.
    rewrite S6 at 1. rewrite S7 at 1. rewrite S8 at 1. rewrite <-Hkd, Hpl. done. }
  split.
  - rewrite Hsrc at 2. rewrite drop_app_length' by (by rewrite length_header). done.
  - constructor; cbn; try done; unfold fits, u8_max, u32_max, u64_max; cbn in R4, R5, R6, R7; lia.
Qed.

(** Whatever is decoded is a valid frame, and the consumed bytes are its only encoding. *)
Lemma decode_inv c src f rest :
  bytes_ok src -> FrameCodec_decode c src = (Ok (Some f), rest) ->
  src = wire f ++ rest /\ frame_ok f /\ Frame_validate f c.(max_payload) = Ok ().
Proof.
  intros Hok Hrun. unfold FrameCodec_decode in Hrun.
  destruct (Z.ltb_spec (len src) HEADER_LEN) as [|Hlen]; [done|].
  destruct (read_header c src) as [h|] eqn:Hh; [|done].
  destruct (Z.ltb_spec (len src) (HEADER_LEN + h_payload_len h)) as [|Hlen2]; [done|].
  destruct (read_header_inv c src h Hok Hlen Hh) as (_ & Hpos & Hinv).
  set (p := take (Z.to_nat (h_payload_len h)) (drop (Z.to_nat HEADER_LEN) src)) in *.
  destruct (Hinv p) as [Hsrc Hf].
  { unfold p, len. rewrite length_take, length_drop. unfold HEADER_LEN, len in *. lia. }
  { by apply Forall_take, Forall_drop. }
  destruct (Frame_validate (frame_of h p) (max_payload c)) as [[]|] eqn:Hv; cbn [map_err] in Hrun; [|done].
  injection Hrun as <- <-. split_and!; [|done|done]. unfold wire. rewrite <-app_assoc. rewrite Hsrc at 1. f_equal.
  unfold p. cbn [payload frame_of]. by rewrite take_drop.
Qed.

(** *** Streams *)

(** The read loop of a connection: decode until no complete frame is buffered.  Every decoded frame
    consumes at least its header, so one iteration more than there are bytes is enough. *)
Fixpoint drain (fuel : nat) (c : FrameCodec) (buffer : list Z) :
    result IoError (list Frame) * list Z :=
  match fuel with
  | O => (Ok [], buffer)
  | Datatypes.S fuel =>
      match FrameCodec_decode c buffer with
      | (Err e, buffer) => (Err e, buffer)
      | (Ok None, buffer) => (Ok [], buffer)
      | (Ok (Some f), buffer) =>
          match drain fuel c buffer with
          | (Ok fs, buffer) => (Ok (f :: fs), buffer)
          | (Err e, buffer) => (Err e, buffer)
          end
      end
  end.

(** The chunks as the transport delivers them. *)
Fixpoint feed (c : FrameCodec) (buffer : list Z) (chunks : list (list Z)) :
    result IoError (list Frame) * list Z :=
  match chunks with
  | [] => (Ok [], buffer)
  | chunk :: chunks =>
      match drain (Datatypes.S (length (buffer ++ chunk))) c (buffer ++ chunk) with
      | (Err e, buffer) => (Err e, buffer)
      | (Ok fs, buffer) =>
          match feed c buffer chunks with
          | (Ok fs', buffer) => (Ok (fs ++ fs'), buffer)
          | (Err e, buffer) => (Err e, buffer)
          end
      end
  end.

Definition sendable (c : FrameCodec) (f : Frame) : Prop :=
  frame_ok f /\ Frame_validate f c.(max_payload) = Ok ().

Lemma drain_spec c : codec_ok c -> forall fuel frames buffer rest,
  Forall (sendable c) frames -> (length buffer < fuel)%nat ->
  buffer ++ rest = concat (wire <$> frames) ->
  exists done left buffer', frames = done ++ left /\
    drain fuel c buffer = (Ok done, buffer') /\ buffer' ++ rest = concat (wire <$> left) /\
    match left with f :: _ => len buffer' < len (wire f) | [] => buffer' = [] end.
Proof.
  intros Hc. induction fuel as [|fuel IH]; intros frames buffer rest Hall Hfuel Heq; [lia|].
  cbn [drain]. destruct frames as [|f frames].
  { apply app_eq_nil in Heq as [-> ->]. exists [], [], []. done. }
  apply Forall_cons in Hall as [[Hf Hv] Hall]. rewrite fmap_cons in Heq. cbn [concat] in Heq.
  destruct (decide (len (wire f) <= len buffer)) as [Hle|Hgt].
  - assert (Hb : buffer = wire f ++ drop (length (wire f)) buffer).
    { apply (f_equal (take (length (wire f)))) in Heq.
      rewrite (take_app_le buffer) in Heq by (unfold len in Hle; lia). rewrite take_app_length in Heq.
      rewrite <-Heq at 1. symmetry. apply take_drop. }
    set (b := drop (length (wire f)) buffer) in *. rewrite Hb. rewrite decode_wire by done.
    destruct (IH frames b rest Hall) as (dn & left & b' & -> & Hrun & Hrest & Hleft).
    { rewrite Hb, length_app in Hfuel. pose proof (len_wire f) as Hw. pose proof (len_nonneg f.(payload)).
      unfold len, HEADER_LEN in *. lia. }
    { rewrite Hb, <-app_assoc in Heq. by apply app_inv_head in Heq. }
    rewrite Hrun. exists (f :: dn), left, b'. done.
  - assert (Hpre : exists q, buffer ++ q = wire f /\ q <> []).
    { exists (drop (length buffer) (wire f)). apply (f_equal (take (length buffer))) in Heq.
      rewrite take_app_length, (take_app_le (wire f)) in Heq by (unfold len in Hgt; lia).
      split; [rewrite Heq at 1; apply take_drop|]. intros Hnil. apply (f_equal length) in Hnil.
      rewrite length_drop in Hnil. unfold len in Hgt. change (length (@nil Z)) with O in Hnil. lia. }
    destruct Hpre as (q & Hq & Hne). rewrite (decode_incomplete c f buffer q) by done.
    exists [], (f :: frames), buffer. split_and!; try done. lia.
Qed.

Lemma feed_spec c : codec_ok c -> forall chunks frames buffer,
  Forall (sendable c) frames -> buffer ++ concat chunks = concat (wire <$> frames) ->
  match frames with f :: _ => len buffer < len (wire f) | [] => buffer = [] end ->
  feed c buffer chunks = (Ok frames, []).
Proof.
  intros Hc. induction chunks as [|chunk chunks IH]; intros frames buffer Hall Heq Hpre; cbn [feed].
  - cbn [concat] in Heq. rewrite app_nil_r in Heq. destruct frames as [|f frames]; [by subst|].
    exfalso. rewrite Heq, fmap_cons in Hpre. cbn [concat] in Hpre. rewrite len_app in Hpre.
    pose proof (len_nonneg (concat (wire <$> frames))). lia.
  - cbn [concat] in Heq. rewrite app_assoc in Heq.
    destruct (drain_spec c Hc (Datatypes.S (length (buffer ++ chunk))) frames (buffer ++ chunk) (concat chunks))
      as (dn & left & b' & -> & Hrun & Hrest & Hleft); [done|lia|done|].
    apply Forall_app in Hall as [_ Hall]. rewrite Hrun, (IH left b' Hall Hrest Hleft). done.
Qed.

(** ** Properties *)

(** C11: encoding then decoding a frame gives it back, with whatever follows it in the buffer left for
    the next call, and as a message of its own.  A frame that fails validation is refused and writes
    nothing. *)
Theorem frame_round_trip (c : FrameCodec) (f : Frame) (dest rest : list Z) :
  codec_ok c -> frame_ok f ->
  match FrameCodec_encode c f dest with
  | (Ok _, out) =>
      exists bytes, out = dest ++ bytes /\ len bytes = HEADER_LEN + len f.(payload) /\
        FrameCodec_decode c (bytes ++ rest) = (Ok (Some f), rest) /\
        FrameCodec_decode_message c bytes = Ok f
  | (Err e, out) =>
      out = dest /\ exists e', e = InvalidInputFrom e' /\ Frame_validate f c.(max_payload) = Err e'
  end.
Proof.
  intros Hc Hf. rewrite encode_wire. destruct (Frame_validate f (max_payload c)) as [[]|e] eqn:Hv; [|eauto].
  exists (wire f). split_and!; [done|apply len_wire|by apply decode_wire|].
  unfold FrameCodec_decode_message. rewrite len_wire. pose proof (len_nonneg f.(payload)).
  destruct (Z.ltb_spec (HEADER_LEN + len (payload f)) HEADER_LEN); [lia|].
  unfold wire. rewrite read_header_wire by done. cbn [h_payload_len]. rewrite Z.eqb_refl. cbn [negb].
  rewrite drop_app_length' by (by rewrite length_header). rewrite frame_of_eta, Hv. done.
Qed.

Definition example_frame : Frame :=
  {| kind := Request; flags := 0; route := 100; request_id := 7; sequence := 11;
     payload := [104; 101; 108; 108; 111] |}.

Lemma example_frame_ok : frame_ok example_frame.
Proof. constructor; unfold fits, u8_max, u32_max, u64_max, bytes_ok, byte_ok; cbn; try lia. repeat constructor; lia. Qed.

Lemma frame_round_trip_witness :
  FrameCodec_decode FrameCodec_default (wire example_frame ++ [1; 2]) = (Ok (Some example_frame), [1; 2]).
Proof.
  destruct (frame_round_trip FrameCodec_default example_frame [] [1; 2]) as (bytes & Hout & _ & Hdec & _).
  - vm_compute. split; [reflexivity|discriminate].
  - exact example_frame_ok.
  - assert (bytes = wire example_frame) as <- by (symmetry; exact Hout). exact Hdec.
Defined.

(** The decoder accepts nothing but encodings.  A decoded frame is valid, and the bytes consumed
    are exactly the ones its encoding writes: no two byte strings decode to the same frame. *)
Theorem frame_decode_canonical (c : FrameCodec) (src rest dest : list Z) (f : Frame) :
  bytes_ok src -> FrameCodec_decode c src = (Ok (Some f), rest) ->
  exists bytes, src = bytes ++ rest /\ FrameCodec_encode c f dest = (Ok (), dest ++ bytes).
Proof.
  intros Hok Hrun. destruct (decode_inv c src f rest Hok Hrun) as (Hsrc & _ & Hv).
  exists (wire f). split; [done|]. by rewrite encode_wire, Hv.
Qed.

Lemma frame_decode_canonical_witness :
  exists bytes, wire example_frame ++ [9] = bytes ++ [9] /\
    FrameCodec_encode FrameCodec_default example_frame [] = (Ok (), bytes).
Proof.
  apply (frame_decode_canonical FrameCodec_default (wire example_frame ++ [9]) [9] [] example_frame).
  - apply Forall_app. split; [apply wire_ok, example_frame_ok|]. repeat constructor; lia.
  - vm_compute. reflexivity.
Defined.

(** Framing does not depend on how the transport cuts the stream.  However the encodings of a
    sequence of frames are split into chunks, feeding the chunks to the decoder yields exactly those
    frames in order and leaves an empty buffer. *)
Theorem frame_stream_chunking (c : FrameCodec) (frames : list Frame) (chunks : list (list Z)) :
  codec_ok c -> Forall (sendable c) frames -> concat chunks = concat (wire <$> frames) ->
  feed c [] chunks = (Ok frames, []).
Proof.
  intros Hc Hall Heq. apply feed_spec; try done. destruct frames as [|f frames]; [done|].
  rewrite len_wire. pose proof (len_nonneg f.(payload)). unfold HEADER_LEN. change (len (@nil Z)) with 0. lia.
Qed.

Lemma frame_stream_chunking_witness :
  feed FrameCodec_default [] [take 3 (wire example_frame); drop 3 (wire example_frame) ++ take 30 (wire example_frame);
    drop 30 (wire example_frame)] = (Ok [example_frame; example_frame], []).
Proof.
  apply (frame_stream_chunking FrameCodec_default [example_frame; example_frame]).
  - vm_compute. split; [reflexivity|discriminate].
  - repeat constructor; first [reflexivity | apply example_frame_ok].
  - reflexivity.
Defined.
