(* ===== verification/SnapshotReplication.v ===== *)
(** * Whole-room snapshots: [crates/elura-core/src/snapshot_replication.rs] and [state_hash.rs]

    A stream of byte snapshots sent as keyframes or as XOR deltas against the previous one.  SHA-256
    is a library, a parameter [sha256] of the model; the packet sink of the publisher and the
    application's encoder are parameters too. *)

From S2P Require Import Prelude Bytes CoreError.

Inductive PacketKind : Type := Keyframe | Delta.

Global Instance PacketKind_eq_dec : EqDecision PacketKind.
Proof. solve_decision. Defined.

Record ReplicationConfig : Type := {
  keyframe_interval : Z;
  max_payload : Z;
}.

Definition ReplicationConfig_default : ReplicationConfig :=
  {| keyframe_interval := 60; max_payload := Z.shiftl 4 20 |}.

(** *** XOR deltas *)

Definition byte_at (l : list Z) (i : nat) : Z := default 0 (l !! i).

(** [while out.len() > 4 && out.last() == Some(&0) { out.pop(); }]: each iteration removes a byte, so
    as many iterations as there are bytes are enough. *)
Fixpoint trim_zeros (fuel : nat) (out : list Z) : list Z :=
  match fuel with
  | O => out
  | Datatypes.S fuel =>
      if bool_decide (4 < length out)%nat && bool_decide (last out = Some 0)
      then trim_zeros fuel (take (length out - 1) out)
      else out
  end.

Definition xor_delta (base now : list Z) : Result (list Z) :=
  if u32_max <? len now then Err (InvalidFrame "state too large")
  else
    let out := put_be 4 (len now) ++ imap (fun i b => Z.lxor b (byte_at base i)) now in
    Ok (trim_zeros (length out) out).

Definition xor_apply (base delta : list Z) : Result (list Z) :=
  if (length delta <? 4)%nat then Err (InvalidFrame "delta")
  else
    Ok ((fun i => Z.lxor (byte_at base i) (byte_at delta (i + 4)))
        <$> seq 0 (Z.to_nat (be_value (take 4 delta)))).

Section snapshots.
Context {H : Type} `{!EqDecision H} (sha256 : list Z -> H).

(** [StateHash::digest] and [StateHash::matches]. *)
Definition StateHash_digest (value : list Z) : H := sha256 value.
Definition StateHash_matches (self : H) (value : list Z) : bool :=
  bool_decide (self = StateHash_digest value).

Record Packet : Type := {
  room_id : string;
  tick : Z;
  elapsed : Z;
  base_tick : Z;
  kind : PacketKind;
  payload : list Z;
  state_hash : H;
}.

Record ReplicationStream : Type := {
  rs_room : string;
  rs_config : ReplicationConfig;
  previous : option (Z * list Z);
  force : bool;
}.

Definition ReplicationStream_new (room : string) (config : ReplicationConfig) :
    Result ReplicationStream :=
  if String.eqb room "" || (config.(keyframe_interval) =? 0) || (config.(max_payload) =? 0) then
    Err (InvalidConfig "replication")
  else Ok {| rs_room := room; rs_config := config; previous := None; force := true |}.

Definition ReplicationStream_force_keyframe (self : ReplicationStream) : ReplicationStream :=
  {| rs_room := self.(rs_room); rs_config := self.(rs_config); previous := self.(previous);
     force := true |}.

Definition ReplicationStream_packet (self : ReplicationStream) (tick : Z) (state : list Z) :
    Result Packet * ReplicationStream :=
  if (tick =? 0) || (self.(rs_config).(max_payload) <? len state)
     || match self.(previous) with Some (t, _) => tick <=? t | None => false end then
    (Err (InvalidFrame "replication tick or size"), self)
  else
    let periodic := tick mod self.(rs_config).(keyframe_interval) =? 0 in
    let? (base_tick, kind, payload) :=
      match self.(previous) with
      | Some (base_tick, base) =>
          if negb self.(force) && negb periodic then
            let? delta := xor_delta base state in
            if len delta <? len state then Ok (base_tick, Delta, delta)
            else Ok (0, Keyframe, state)
          else Ok (0, Keyframe, state)
      | None => Ok (0, Keyframe, state)
      end else self in
    (Ok {| room_id := self.(rs_room); tick := tick; elapsed := 0; base_tick := base_tick;
           kind := kind; payload := payload; state_hash := StateHash_digest state |},
     {| rs_room := self.(rs_room); rs_config := self.(rs_config);
        previous := Some (tick, state); force := false |}).

Record ReplicationStats : Type := {
  keyframes_published : Z;
  deltas_published : Z;
  payload_bytes : Z;
  publish_errors : Z;
}.

Definition ReplicationStats_default : ReplicationStats :=
  {| keyframes_published := 0; deltas_published := 0; payload_bytes := 0; publish_errors := 0 |}.

(** The publisher: its stream behind a mutex that is never poisoned, and its counters, which wrap as
    atomics do. *)
Record ReplicationPublisher : Type := {
  stream : ReplicationStream;
  counters : ReplicationStats;
}.

Definition wrap_add_u64 (a b : Z) : Z := (a + b) mod 18446744073709551616.

(** [publish]: [encoder] is the application's, [sink] says whether publishing a packet succeeds. *)
Definition ReplicationPublisher_publish {S} (self : ReplicationPublisher)
    (encoder : S -> Result (list Z)) (sink : Packet -> Result unit)
    (snapshot_tick snapshot_elapsed : Z) (snapshot_state : S) :
    Result Packet * ReplicationPublisher :=
  let? encoded := encoder snapshot_state else self in
  match ReplicationStream_packet self.(stream) snapshot_tick encoded with
  | (Err e, stream) => (Err e, {| stream := stream; counters := self.(counters) |})
  | (Ok p, stream) =>
      let p := {| room_id := p.(room_id); tick := p.(tick); elapsed := snapshot_elapsed;
                  base_tick := p.(base_tick); kind := p.(kind); payload := p.(payload);
                  state_hash := p.(state_hash) |} in
      let c := self.(counters) in
      match sink p with
      | Err e =>
          (Err e,
           {| stream := ReplicationStream_force_keyframe stream;
              counters := {| keyframes_published := c.(keyframes_published);
                             deltas_published := c.(deltas_published);
                             payload_bytes := c.(payload_bytes);
                             publish_errors := wrap_add_u64 c.(publish_errors) 1 |} |})
      | Ok _ =>
          (Ok p,
           {| stream := stream;
              counters :=
                {| keyframes_published :=
                     match p.(kind) with
                     | Keyframe => wrap_add_u64 c.(keyframes_published) 1
                     | Delta => c.(keyframes_published)
                     end;
                   deltas_published :=
                     match p.(kind) with
                     | Keyframe => c.(deltas_published)
                     | Delta => wrap_add_u64 c.(deltas_published) 1
                     end;
                   payload_bytes := wrap_add_u64 c.(payload_bytes) (len p.(payload));
                   publish_errors := c.(publish_errors) |} |})
      end
  end.

Record ReplicationReceiver : Type := {
  rr_room : string;
  max : Z;
  current : option (Z * list Z);
}.

Definition ReplicationReceiver_new (room : string) (max : Z) : Result ReplicationReceiver :=
  if max =? 0 then Err (InvalidConfig "replication")
  else Ok {| rr_room := room; max := max; current := None |}.

Definition ReplicationReceiver_apply (self : ReplicationReceiver) (p : Packet) :
    Result (list Z) * ReplicationReceiver :=
  if negb (String.eqb p.(room_id) self.(rr_room)) || (p.(tick) =? 0) || (self.(max) <? len p.(payload))
     || match self.(current) with Some (t, _) => p.(tick) <=? t | None => false end then
    (Err (InvalidFrame "replication packet"), self)
  else
    let? state :=
      match p.(kind) with
      | Keyframe =>
          if p.(base_tick) =? 0 then Ok p.(payload) else Err (InvalidFrame "invalid keyframe")
      | Delta =>
          match self.(current) with
          | None => Err (InvalidFrame "missing base")
          | Some (tick, base) =>
              if negb (tick =? p.(base_tick)) then Err (InvalidFrame "base mismatch")
              else xor_apply base p.(payload)
          end
      end else self in
    if (self.(max) <? len state) || negb (StateHash_matches p.(state_hash) state) then
      (Err (InvalidFrame "state hash"), self)
    else
      (Ok state, {| rr_room := self.(rr_room); max := self.(max);
                    current := Some (p.(tick), state) |}).
End snapshots.
Arguments Packet H : clear implicits.

(** ** Deltas *)

Lemma trim_zeros_spec fuel : forall out,
  exists k, trim_zeros fuel out = take k out /\ (Nat.min 4 (length out) <= k)%nat /\
    Forall (fun b => b = 0) (drop k out).
Proof.
  induction fuel as [|fuel IH]; intros out; cbn [trim_zeros].
  { exists (length out). rewrite firstn_all, drop_all. split_and!; [done|lia|constructor]. }
  case_bool_decide as Hlen; cbn [andb].
  2: { exists (length out). rewrite firstn_all, drop_all. split_and!; [done|lia|constructor]. }
  case_bool_decide as Hz.
  2: { exists (length out). rewrite firstn_all, drop_all. split_and!; [done|lia|constructor]. }
  destruct (IH (take (length out - 1) out)) as (k & Hk & Hk4 & Hall).
  rewrite length_take in Hk4.
  destruct (decide (k <= length out - 1)%nat) as [Hle|Hgt].
  - exists k. rewrite Hk, take_take. split_and!; [f_equal; lia|lia|].
    apply last_Some in Hz as [pre ->]. rewrite length_app in *. cbn [length] in *.
    replace (length pre + 1 - 1)%nat with (length pre) in * by lia.
    rewrite take_app_length in Hall. rewrite drop_app_le by lia. apply Forall_app. split; [done|].
    by constructor.
  - exists (length out - 1)%nat. rewrite Hk, take_take. split_and!; [f_equal; lia|lia|].
    apply last_Some in Hz as [pre ->]. rewrite length_app. cbn [length].
    replace (length pre + 1 - 1)%nat with (length pre) by lia. rewrite drop_app_length.
    by constructor.
Qed.

(** Reading past the trimmed end reads the zeros that were there. *)
Lemma byte_at_trimmed k out i :
  Forall (fun b => b = 0) (drop k out) -> byte_at (take k out) i = byte_at out i.
Proof.
  intros Hall. unfold byte_at. destruct (decide (i < k)%nat) as [Hlt|Hge].
  - by rewrite lookup_take_lt.
  - rewrite lookup_take_ge by lia. destruct (out !! i) as [b|] eqn:Hi; [|done].
    rewrite Forall_forall in Hall. cbn. symmetry. apply Hall. apply list_elem_of_lookup.
    exists (i - k)%nat. rewrite lookup_drop. rewrite <-Hi. f_equal. lia.
Qed.

Lemma xor_round_trip base now delta :
  xor_delta base now = Ok delta -> xor_apply base delta = Ok now.
Proof.
  unfold xor_delta. intros Hd. destruct (Z.ltb_spec u32_max (len now)) as [|Hlen]; [done|].
  set (out := put_be 4 (len now) ++ imap (fun i b => Z.lxor b (byte_at base i)) now) in *.
  destruct (trim_zeros_spec (length out) out) as (k & Hk & Hk4 & Hall). rewrite Hk in Hd.
  injection Hd as <-.
  assert (Hol : length out = (4 + length now)%nat).
  { unfold out. by rewrite length_app, length_put_be, length_imap. }
  assert (Hhead : take 4 (take k out) = put_be 4 (len now)).
  { rewrite take_take. unfold out. rewrite take_app_le by (rewrite length_put_be; lia).
    apply take_ge. rewrite length_put_be. lia. }
  unfold xor_apply.
  assert ((length (take k out) <? 4)%nat = false) as -> by (rewrite length_take; apply Nat.ltb_ge; lia).
  rewrite Hhead, be_value_put by (unfold len, u32_max in *; change (256 ^ Z.of_nat 4) with 4294967296; lia).
  unfold len. rewrite Nat2Z.id. f_equal. apply list_eq. intros i. rewrite list_lookup_fmap.
  destruct (now !! i) as [b|] eqn:Hi.
  - pose proof (lookup_lt_Some _ _ _ Hi) as Hlt. rewrite lookup_seq_lt by done.
    cbn [fmap option_fmap option_map]. f_equal. rewrite Nat.add_0_l.
    assert (Hout : out !! (i + 4)%nat = Some (Z.lxor b (byte_at base i))).
    { unfold out. rewrite lookup_app_r by (rewrite length_put_be; lia). rewrite length_put_be.
      replace (i + 4 - 4)%nat with i by lia. by rewrite list_lookup_imap, Hi. }
    rewrite byte_at_trimmed by done. unfold byte_at at 2. rewrite Hout. cbn [default from_option id].
    by rewrite Z.lxor_comm, Z.lxor_assoc, Z.lxor_nilpotent, Z.lxor_0_r.
  - rewrite lookup_seq_ge; [done|]. by apply lookup_ge_None.
Qed.

(** The state [xor_apply] builds is as long as the delta claims, whatever the limit of the receiver. *)
Lemma xor_apply_length base delta state :
  xor_apply base delta = Ok state -> length state = Z.to_nat (be_value (take 4 delta)).
Proof.
  unfold xor_apply. case_match; [done|]. intros [= <-]. by rewrite length_fmap, length_seq.
Qed.

(** ** Streams *)

Section stream.
Context {H : Type} `{!EqDecision H} (sha256 : list Z -> H).

Inductive stream_call : Type :=
| CallPacket (tick : Z) (state : list Z)
| CallForce.

(** The packets a stream produces, each with the state it stands for. *)
Fixpoint stream_exec (st : ReplicationStream) (calls : list stream_call) :
    list (Packet H * list Z) * ReplicationStream :=
  match calls with
  | [] => ([], st)
  | CallForce :: calls => stream_exec (ReplicationStream_force_keyframe st) calls
  | CallPacket tick state :: calls =>
      match ReplicationStream_packet sha256 st tick state with
      | (Ok p, st) => let '(out, st) := stream_exec st calls in ((p, state) :: out, st)
      | (Err _, st) => stream_exec st calls
      end
  end.

(** What one packet of a log says: its own state, or the difference to an earlier entry's. *)
Definition packet_sound (room : string) (limit : Z) (log : list (Packet H * list Z))
    (e : Packet H * list Z) : Prop :=
  e.1.(room_id) = room /\ 0 <> e.1.(tick) /\ len e.1.(payload) <= limit /\ len e.2 <= limit /\
  e.1.(state_hash) = sha256 e.2 /\
  match e.1.(kind) with
  | Keyframe => e.1.(payload) = e.2 /\ e.1.(base_tick) = 0
  | Delta => exists q, q ∈ log /\ q.1.(tick) = e.1.(base_tick) /\
      xor_delta q.2 e.2 = Ok e.1.(payload)
  end.

Definition log_sound (room : string) (limit : Z) (log : list (Packet H * list Z)) : Prop :=
  increasing (fun e => e.1.(tick)) log /\ Forall (packet_sound room limit log) log.

(** The stream remembers the last entry of its log. *)
Definition stream_inv (log : list (Packet H * list Z)) (st : ReplicationStream) : Prop :=
  log_sound st.(rs_room) st.(rs_config).(max_payload) log /\
  match st.(previous) with
  | None => log = []
  | Some (t, s) => exists p, last log = Some (p, s) /\ p.(tick) = t
  end.

Lemma packet_sound_mono room limit log log' e :
  log ⊆ log' -> packet_sound room limit log e -> packet_sound room limit log' e.
Proof.
  intros Hsub (H1 & H2 & H3 & H4 & H5 & H6). split_and!; try done.
  destruct (kind e.1); [done|]. destruct H6 as (q & Hq & ?). exists q. split; [by apply Hsub|done].
Qed.

Lemma packet_ok st t s p st' :
  ReplicationStream_packet sha256 st t s = (Ok p, st') ->
  0 <> t /\ len s <= st.(rs_config).(max_payload) /\
  (forall t0 s0, st.(previous) = Some (t0, s0) -> t0 < t) /\
  st' = {| rs_room := st.(rs_room); rs_config := st.(rs_config); previous := Some (t, s);
           force := false |} /\
  p.(room_id) = st.(rs_room) /\ p.(tick) = t /\ p.(state_hash) = sha256 s /\
  ((p.(kind) = Keyframe /\ p.(payload) = s /\ p.(base_tick) = 0) \/
   (p.(kind) = Delta /\ st.(force) = false /\ exists t0 s0, st.(previous) = Some (t0, s0) /\
      p.(base_tick) = t0 /\ xor_delta s0 s = Ok p.(payload) /\ len p.(payload) < len s)).
Proof.
  intros Hrun. unfold ReplicationStream_packet in Hrun. destruct (_ || _) eqn:Hg; [done|]. breflect.
  assert (Hnew : forall t0 s0, st.(previous) = Some (t0, s0) -> t0 < t).
  { intros t0 s0 Hp. rewrite Hp in *. breflect. lia. }
  destruct (previous st) as [[t0 s0]|] eqn:Hprev.
  - destruct (negb (force st) && _) eqn:Hf; breflect.
    + destruct (xor_delta s0 s) as [d|] eqn:Hd; [|done]. destruct (len d <? len s) eqn:Hlt; breflect.
      * injection Hrun as <- <-. cbn. split_and!; try done; try lia. right. split_and!; try done.
        by exists t0, s0.
      * injection Hrun as <- <-. cbn. split_and!; try done; try lia. by left.
    + injection Hrun as <- <-. cbn. split_and!; try done; try lia. by left.
  - injection Hrun as <- <-. cbn. split_and!; try done; try lia. by left.
Qed.

Lemma packet_err st t s e st' :
  ReplicationStream_packet sha256 st t s = (Err e, st') -> st' = st.
Proof. unfold ReplicationStream_packet. intros. by repeat (case_match; simplify_eq). Qed.

Lemma packet_inv log st t s p st' :
  stream_inv log st -> ReplicationStream_packet sha256 st t s = (Ok p, st') ->
  stream_inv (log ++ [(p, s)]) st'.
Proof.
  intros [[Hinc Hall] Hlast] Hrun.
  apply packet_ok in Hrun as (Ht & Hlen & Hnew & -> & Hroom & Htick & Hhash & Hkind).
  split; cbn.
  2: { exists p. by rewrite last_snoc. }
  assert (Hsub : log ⊆ log ++ [(p, s)]) by set_solver. split.
  - apply increasing_snoc. split; [done|]. apply Forall_forall. intros e He. cbn. rewrite Htick.
    destruct (previous st) as [[t0 s0]|]; [|subst log; set_solver].
    destruct Hlast as (q & Hq & Hqt). specialize (Hnew t0 s0 eq_refl).
    pose proof (increasing_last (fun e => tick e.1) log e _ Hinc Hq He) as Hle. cbn in Hle. lia.
  - apply Forall_app. split; [eapply Forall_impl; [exact Hall|]; intros; by eapply packet_sound_mono|].
    constructor; [|done].
    destruct Hkind as [(Hk & Hp & Hb)|(Hk & _ & t0 & s0 & Hprev & Hb & Hd & Hlt)].
    + split_and!; cbn; try done; [congruence|by rewrite Hp|by rewrite Hk].
    + split_and!; cbn; try done; [congruence|lia|rewrite Hk].
      rewrite Hprev in Hlast. destruct Hlast as (q & Hq & Hqt). exists (q, s0).
      split_and!; [apply Hsub; by apply last_Some_elem_of|cbn; congruence|done].
Qed.

Lemma stream_exec_inv calls : forall log st out st',
  stream_inv log st -> stream_exec st calls = (out, st') ->
  stream_inv (log ++ out) st' /\ rs_room st' = rs_room st /\ rs_config st' = rs_config st.
Proof.
  induction calls as [|[t s|] calls IH]; intros log st out st' Hinv Hrun; cbn in Hrun.
  - simplify_eq. by rewrite app_nil_r.
  - destruct (ReplicationStream_packet sha256 st t s) as [[p|e] st1] eqn:E.
    + destruct (stream_exec st1 calls) as [out1 st2] eqn:E1. simplify_eq.
      pose proof (packet_inv _ _ _ _ _ _ Hinv E) as Hinv1.
      destruct (IH _ _ _ _ Hinv1 E1) as (Hi & Hr & Hc). rewrite <-app_assoc in Hi.
      apply packet_ok in E as (_ & _ & _ & -> & _). done.
    + apply packet_err in E as ->. by apply (IH log) in Hrun.
  - apply (IH log) in Hrun; [done|]. exact Hinv.
Qed.

Lemma new_stream_inv room c st : ReplicationStream_new room c = Ok st ->
  stream_inv [] st /\ rs_room st = room /\ rs_config st = c.
Proof.
  unfold ReplicationStream_new. case_match; [done|]. intros [= <-]. split_and!; try done.
  split; [split; [apply increasing_nil|constructor]|done].
Qed.

(** A receiver holds the state of some entry, at that entry's tick. *)
Definition faithful (log : list (Packet H * list Z)) (r : ReplicationReceiver) : Prop :=
  forall t s, r.(current) = Some (t, s) -> exists p, (p, s) ∈ log /\ p.(tick) = t.

(** Whether a packet can be applied: newer, and complete or based on the state held. *)
Definition applicable (r : ReplicationReceiver) (p : Packet H) : bool :=
  match r.(current) with
  | None => bool_decide (p.(kind) = Keyframe)
  | Some (t, _) => (t <? p.(tick)) && (bool_decide (p.(kind) = Keyframe) || (t =? p.(base_tick)))
  end.

Lemma log_state_unique room limit log p s q s' :
  log_sound room limit log -> (p, s) ∈ log -> (q, s') ∈ log -> p.(tick) = q.(tick) -> s = s'.
Proof.
  intros [Hinc _] Hp Hq Ht.
  pose proof (increasing_key_inj (fun e => tick e.1) log _ _ Hinc Hp Hq Ht). congruence.
Qed.

Lemma apply_sound room limit log r p s :
  log_sound room limit log -> (p, s) ∈ log -> faithful log r -> r.(rr_room) = room ->
  limit <= r.(max) ->
  if applicable r p then
    ReplicationReceiver_apply sha256 r p =
      (Ok s, {| rr_room := r.(rr_room); max := r.(max); current := Some (p.(tick), s) |})
  else exists e, ReplicationReceiver_apply sha256 r p = (Err e, r).
Proof.
  intros Hlog Hin Hfaith Hroom Hmax. pose proof Hlog as [_ Hall]. rewrite Forall_forall in Hall.
  destruct (Hall _ Hin) as (Hr & Ht & Hpl & Hsl & Hh & Hk). cbn in *.
  unfold ReplicationReceiver_apply, applicable.
  assert ((p.(tick) =? 0) = false) as -> by (apply Z.eqb_neq; congruence).
  rewrite Hr, Hroom, String.eqb_refl. cbn [negb orb].
  destruct (Z.ltb_spec (max r) (len (payload p))); [lia|]. cbn [orb].
  assert (Hmatch : StateHash_matches sha256 (state_hash p) s = true).
  { unfold StateHash_matches, StateHash_digest. by apply bool_decide_true. }
  assert (Hfit : (max r <? len s) = false) by (apply Z.ltb_ge; lia).
  destruct (current r) as [[t b]|] eqn:Hcur.
  - rewrite (Z.ltb_antisym (tick p) t). destruct (tick p <=? t); cbn [negb andb]; [eauto|].
    destruct (kind p) eqn:Hkind.
    + destruct Hk as [Hp Hb]. rewrite Hb, Z.eqb_refl, Hp, Hfit, Hmatch. done.
    + rewrite bool_decide_false by done. cbn [orb].
      destruct (Z.eqb_spec t (base_tick p)) as [Heq|]; cbn [negb]; [|eauto].
      destruct Hk as ([q sq] & Hq & Hqt & Hd). cbn in *.
      destruct (Hfaith t b Hcur) as (q' & Hq' & Hqt').
      assert (sq = b) as -> by (eapply (log_state_unique _ _ _ q sq q' b Hlog); congruence).
      rewrite (xor_round_trip _ _ _ Hd), Hfit, Hmatch. done.
  - destruct (kind p) eqn:Hkind.
    + destruct Hk as [Hp Hb]. rewrite bool_decide_true by done. rewrite Hb, Z.eqb_refl, Hp, Hfit, Hmatch. done.
    + rewrite bool_decide_false by done. eauto.
Qed.

(** Packets arriving in any order. *)
Definition apply_all (r : ReplicationReceiver) (ps : list (Packet H)) : ReplicationReceiver :=
  foldl (fun r p => (ReplicationReceiver_apply sha256 r p).2) r ps.

Lemma apply_all_faithful room limit log ps : forall r,
  log_sound room limit log -> Forall (fun p => p ∈ log.*1) ps -> faithful log r ->
  r.(rr_room) = room -> limit <= r.(max) -> faithful log (apply_all r ps).
Proof.
  induction ps as [|p ps IH]; intros r Hlog Hps Hf Hroom Hmax; [done|].
  apply Forall_cons in Hps as [Hp Hps]. apply list_elem_of_fmap in Hp as ([p' s] & -> & Hin).
  pose proof (apply_sound room limit log r p' s Hlog Hin Hf Hroom Hmax) as Happ.
  change (apply_all r ((p', s).1 :: ps)) with (apply_all (ReplicationReceiver_apply sha256 r p').2 ps).
  destruct (applicable r p').
  - rewrite Happ. apply IH; try done. intros t s' [= <- <-]. eauto.
  - destruct Happ as [e ->]. by apply IH.
Qed.
End stream.

(** ** Properties *)

(** C26: snapshots are never mixed up.  Whatever is pushed through a stream, and whichever of its
    packets a receiver of the room is given, lost, repeated or in any order: the state it holds at a
    tick is byte for byte the one pushed at that tick.  A further packet of the stream is applied
    exactly when it is newer and either a keyframe or the difference to the state held, and then yields
    its own state; otherwise it is refused and changes nothing. *)
Theorem snapshot_receiver_faithful {H} `{!EqDecision H} (sha256 : list Z -> H) (room : string)
    (c : ReplicationConfig) (st : ReplicationStream) (r : ReplicationReceiver) (limit : Z)
    (calls : list stream_call) (ps : list (Packet H)) (p : Packet H) (s : list Z) :
  ReplicationStream_new room c = Ok st -> ReplicationReceiver_new room limit = Ok r ->
  c.(max_payload) <= limit ->
  let sent := (stream_exec sha256 st calls).1 in
  Forall (fun q => q ∈ sent.*1) ps -> (p, s) ∈ sent ->
  let r' := apply_all sha256 r ps in
  (forall t b, r'.(current) = Some (t, b) -> exists q, (q, b) ∈ sent /\ q.(tick) = t) /\
  if applicable r' p then
    (ReplicationReceiver_apply sha256 r' p).1 = Ok s /\
    (ReplicationReceiver_apply sha256 r' p).2.(current) = Some (p.(tick), s)
  else exists e, ReplicationReceiver_apply sha256 r' p = (Err e, r').
Proof.
  intros Hst Hr Hmax sent Hps Hp r'. destruct (new_stream_inv sha256 room c st Hst) as (Hinv & Hroom & Hc).
  destruct (stream_exec sha256 st calls) as [out st'] eqn:E.
  destruct (stream_exec_inv sha256 calls [] st out st' Hinv E) as ((Hlog & _) & Hr1 & Hc1).
  rewrite Hr1, Hc1, Hroom, Hc in Hlog. cbn [app] in Hlog. unfold sent in *. cbn [fst] in *.
  unfold ReplicationReceiver_new in Hr. destruct (limit =? 0); [done|]. injection Hr as <-.
  assert (Hf : faithful out r').
  { unfold r'. eapply (apply_all_faithful sha256 room (max_payload c)); [done|done| |done|done].
    by intros t b. }
  split; [done|].
  assert (Hrr : rr_room r' = room /\ max r' = limit).
  { unfold r'. clear. generalize (@None (Z * list Z)). induction ps as [|q ps IH]; intros cur; [done|].
    cbn. unfold ReplicationReceiver_apply. repeat case_match; cbn; apply IH. }
  destruct Hrr as [Hr2 Hm2].
  pose proof (apply_sound sha256 room (max_payload c) out r' p s Hlog Hp Hf Hr2 ltac:(lia)) as Happ.
  destruct (applicable r' p); [|done]. by rewrite Happ.
Qed.

Lemma snapshot_receiver_faithful_witness :
  exists st r calls p s,
    ReplicationStream_new "room" ReplicationConfig_default = Ok st /\
    ReplicationReceiver_new "room" 4194304 = Ok r /\
    p.(kind) = Delta /\ len p.(payload) = 5 /\
    (ReplicationReceiver_apply (fun l => l) r p).1 = Err (InvalidFrame "missing base") /\
    exists q, (ReplicationReceiver_apply (fun l => l) (apply_all (fun l => l) r [q]) p).1 = Ok s /\
      (q, [0; 0; 0; 0; 0; 0; 0; 0]) ∈ (stream_exec (fun l => l) st calls).1.
Proof.
  pose (st := {| rs_room := "room"; rs_config := ReplicationConfig_default; previous := None; force := true |}).
  pose (r := {| rr_room := "room"; max := 4194304; current := None |}).
  pose (calls := [CallPacket 1 [0; 0; 0; 0; 0; 0; 0; 0]; CallPacket 2 [9; 0; 0; 0; 0; 0; 0; 0]]).
  pose (q := {| room_id := "room"; tick := 1; elapsed := 0; base_tick := 0; kind := Keyframe;
    payload := [0; 0; 0; 0; 0; 0; 0; 0]; state_hash := [0; 0; 0; 0; 0; 0; 0; 0] |}).
  pose (p := {| room_id := "room"; tick := 2; elapsed := 0; base_tick := 1; kind := Delta;
    payload := [0; 0; 0; 8; 9]; state_hash := [9; 0; 0; 0; 0; 0; 0; 0] |}).
  assert (Hsent : (stream_exec (fun l => l) st calls).1 =
    [(q, [0; 0; 0; 0; 0; 0; 0; 0]); (p, [9; 0; 0; 0; 0; 0; 0; 0])]) by (vm_compute; reflexivity).
  exists st, r, calls, p, [9; 0; 0; 0; 0; 0; 0; 0].
  do 5 (split; [vm_compute; reflexivity|]).
  exists q. split; [|rewrite Hsent; left].
  refine (proj1 (proj2 (snapshot_receiver_faithful (fun l => l) "room" ReplicationConfig_default st r
    4194304 calls [q] p [9; 0; 0; 0; 0; 0; 0; 0] _ _ _ _ _))).
  - reflexivity.
  - reflexivity.
  - vm_compute. discriminate.
  - rewrite Hsent. repeat constructor.
  - rewrite Hsent. right. left.
Defined.

(** A failed publication cannot leave receivers behind.  After the sink refuses a packet, the next
    snapshot that is published goes out as a keyframe carrying the whole encoded state; and the
    failure is counted. *)
Theorem publisher_recovers_with_keyframe {H S} `{!EqDecision H} (sha256 : list Z -> H)
    (encoder : S -> Result (list Z)) (sink sink' : Packet H -> Result unit)
    (pub pub1 pub2 : ReplicationPublisher) (t1 t2 e1 e2 : Z) (s1 s2 : S) (err : Error) (p : Packet H)
    (encoded : list Z) :
  encoder s1 = Ok encoded ->
  (exists q, (ReplicationStream_packet sha256 pub.(stream) t1 encoded).1 = Ok q) ->
  ReplicationPublisher_publish sha256 pub encoder sink t1 e1 s1 = (Err err, pub1) ->
  ReplicationPublisher_publish sha256 pub1 encoder sink' t2 e2 s2 = (Ok p, pub2) ->
  p.(kind) = Keyframe /\ encoder s2 = Ok p.(payload) /\
  pub1.(counters).(publish_errors) = wrap_add_u64 pub.(counters).(publish_errors) 1.
Proof.
  intros Henc [q Hq] Hfail Hok. unfold ReplicationPublisher_publish in Hfail, Hok.
  rewrite Henc in Hfail. destruct (ReplicationStream_packet sha256 (stream pub) t1 encoded) as [[q'|] st1];
    [|done]. cbn in Hfail. destruct (sink _) as [|e]; [done|]. injection Hfail as <- <-.
  cbn [stream counters publish_errors] in *.
  destruct (encoder s2) as [enc2|]; [|done].
  destruct (ReplicationStream_packet sha256 (ReplicationStream_force_keyframe st1) t2 enc2)
    as [[p2|] st2] eqn:E; [|done].
  apply packet_ok in E as (_ & _ & _ & _ & _ & _ & _ & Hkind).
  destruct (sink' _); [|done]. injection Hok as <- <-. cbn.
  destruct Hkind as [(Hk & Hp & _)|(_ & Hforce & _)]; [|done]. split_and!; congruence.
Qed.

Lemma publisher_recovers_with_keyframe_witness :
  exists pub pub1 pub2 p,
    ReplicationPublisher_publish (fun l => l) pub (fun s => Ok s) (fun _ => Err Unavailable) 2 0
      [9; 0; 0; 0; 0; 0; 0; 0] = (Err Unavailable, pub1) /\
    ReplicationPublisher_publish (fun l => l) pub1 (fun s => Ok s) (fun _ => Ok ()) 3 0
      [9; 0; 0; 0; 0; 0; 0; 1] = (Ok p, pub2) /\ p.(kind) = Keyframe.
Proof.
  pose (pub := {| stream := {| rs_room := "room"; rs_config := ReplicationConfig_default;
    previous := Some (1, [0; 0; 0; 0; 0; 0; 0; 0]); force := false |}; counters := ReplicationStats_default |}).
  eexists pub, _, _, _. split; [vm_compute; reflexivity|]. split; [vm_compute; reflexivity|].
  eapply (publisher_recovers_with_keyframe (fun l => l) (fun s => Ok s) (fun _ => Err Unavailable)
    (fun _ => Ok ()) pub _ _ 2 3 0 0 [9; 0; 0; 0; 0; 0; 0; 0] [9; 0; 0; 0; 0; 0; 0; 1] Unavailable _
    [9; 0; 0; 0; 0; 0; 0; 0]); [reflexivity|eexists; vm_compute; reflexivity|vm_compute; reflexivity..].
Defined.
