(* ===== verification/Ownership.v ===== *)
(** * Shard ownership: [crates/elura-core/src/ownership.rs]

    Players are hashed to shards, shards are placed on worlds by rendezvous hashing, and tables and
    directories of assignments are replaced as a whole.  The locks are never poisoned: no code panics
    while holding one. *)

From stdpp Require Import pretty.
From S2P Require Import Prelude Bytes CoreError.

Record Assignment : Type := {
  region_id : Z;
  realm_id : Z;
  shard_id : Z;
  world_id : string;
  epoch : Z;
}.

Definition Assignment_validate (self : Assignment) (count : Z) : Result unit :=
  if (count =? 0) || (self.(region_id) =? 0) || (self.(realm_id) =? 0)
     || (count <=? self.(shard_id)) || String.eqb self.(world_id) "" || (self.(epoch) =? 0) then
    Err (InvalidConfig "invalid shard assignment")
  else Ok ().

(** [v ^= v >> 33]. *)
Definition xorshift33 (v : Z) : Z := Z.lxor v (Z.shiftr v 33).

(** The 64-bit finalizer [shard_for] and [score] end with. *)
Definition mix64 (v : Z) : Z :=
  xorshift33 (wrapping_mul_u64
    (xorshift33 (wrapping_mul_u64 (xorshift33 v) 0xff51afd7ed558ccd)) 0xc4ceb9fe1a85ec53).

Definition shard_for (player count : Z) : Result Z :=
  if (player <=? 0) || (count =? 0) then Err (InvalidConfig "invalid shard input")
  else Ok (mix64 player mod count).

Definition score (shard : Z) (id : string) : Z :=
  mix64 (foldl (fun h b => wrapping_mul_u64 (Z.lxor h b) 1099511628211) 14695981039346656037
    (string_bytes (pretty shard) ++ [0] ++ string_bytes id)).

(** The loop of [preferred_world] over [worlds]. *)
Fixpoint preferred_loop (shard : Z) (seen : gset string) (best : option (string * Z))
    (worlds : list string) : Result (option (string * Z)) :=
  match worlds with
  | [] => Ok best
  | id :: rest =>
      if String.eqb id "" || bool_decide (id ∈ seen) then
        Err (InvalidConfig "invalid world membership")
      else
        let s := score shard id in
        let better :=
          match best with
          | None => true
          | Some (old, so) => (so <? s) || ((s =? so) && String.ltb id old)
          end in
        preferred_loop shard ({[id]} ∪ seen) (if better then Some (id, s) else best) rest
  end.

Definition preferred_world (shard : Z) (worlds : list string) : Result string :=
  match worlds with
  | [] => Err Unavailable
  | _ =>
      let? best := preferred_loop shard ∅ None worlds in
      ok_or (fst <$> best) Unavailable
  end.

(** [trait OwnershipResolver]. *)
Class OwnershipResolver (T : Type) := resolve : T -> Z -> Z -> Z -> Result Assignment.

(** A resolver behind [Arc<dyn OwnershipResolver>]. *)
Record DynResolver : Type := { dyn_resolve : Z -> Z -> Z -> Result Assignment }.

#[export] Instance DynResolver_resolve : OwnershipResolver DynResolver := dyn_resolve.

Record OwnershipResolverDirectory : Type := { resolvers : gmap (Z * Z) DynResolver }.

(** The loop of [OwnershipResolverDirectory::replace]. *)
Fixpoint collect_resolvers (next : gmap (Z * Z) DynResolver) (l : list ((Z * Z) * DynResolver)) :
    Result (gmap (Z * Z) DynResolver) :=
  match l with
  | [] => Ok next
  | ((region, realm), resolver) :: l =>
      if (region =? 0) || (realm =? 0) then Err (InvalidConfig "invalid ownership scope")
      else if bool_decide (is_Some (next !! (region, realm))) then
        Err (InvalidConfig "duplicate ownership scope")
      else collect_resolvers (<[(region, realm) := resolver]> next) l
  end.

Definition OwnershipResolverDirectory_replace (self : OwnershipResolverDirectory)
    (l : list ((Z * Z) * DynResolver)) : Result unit * OwnershipResolverDirectory :=
  let? next := collect_resolvers ∅ l else self in
  if (size next =? 0)%nat then
    (Err (InvalidConfig "ownership resolver directory cannot be empty"), self)
  else (Ok (), {| resolvers := next |}).

#[export] Instance OwnershipResolverDirectory_resolve : OwnershipResolver OwnershipResolverDirectory :=
  fun self region realm shard =>
    let? resolver := ok_or (self.(resolvers) !! (region, realm)) Unavailable in
    resolve resolver region realm shard.

Record OwnershipTable : Type := {
  count : Z;
  owners : gmap (Z * Z * Z) Assignment;
}.

Definition OwnershipTable_new (count : Z) : Result OwnershipTable :=
  if count =? 0 then Err (InvalidConfig "zero shards") else Ok {| count := count; owners := ∅ |}.

Definition shard_key (a : Assignment) : Z * Z * Z := (a.(region_id), a.(realm_id), a.(shard_id)).

(** The loop of [OwnershipTable::replace]. *)
Fixpoint collect_assignments (count : Z) (next : gmap (Z * Z * Z) Assignment) (l : list Assignment) :
    Result (gmap (Z * Z * Z) Assignment) :=
  match l with
  | [] => Ok next
  | a :: l =>
      let? _ := Assignment_validate a count in
      if bool_decide (is_Some (next !! shard_key a)) then Err (InvalidConfig "duplicate shard")
      else collect_assignments count (<[shard_key a := a]> next) l
  end.

Definition OwnershipTable_replace (self : OwnershipTable) (values : list Assignment) :
    Result unit * OwnershipTable :=
  let? next := collect_assignments self.(count) ∅ values else self in
  (Ok (), {| count := self.(count); owners := next |}).

Definition OwnershipTable_snapshot (self : OwnershipTable) : list Assignment :=
  snd <$> map_to_list self.(owners).

#[export] Instance OwnershipTable_resolve : OwnershipResolver OwnershipTable :=
  fun self region realm shard =>
    if (region =? 0) || (realm =? 0) || (self.(count) <=? shard) then
      Err (InvalidConfig "shard range")
    else ok_or (self.(owners) !! (region, realm, shard)) Unavailable.

(** ** The mixer is a bijection of the 64-bit integers *)

Definition u64_range (v : Z) : Prop := 0 <= v < 18446744073709551616.

Lemma u64_range_bits v : 0 <= v -> (forall i, 64 <= i -> Z.testbit v i = false) -> u64_range v.
Proof.
  intros Hv Hbits. split; [done|]. destruct (Z.eq_dec v 0) as [->|Hne]; [done|].
  destruct (Z_lt_le_dec v 18446744073709551616) as [|Hge]; [done|].
  assert (Hlog : 64 <= Z.log2 v) by (apply (Z.log2_le_pow2 v 64); [lia|exact Hge]).
  specialize (Hbits (Z.log2 v) Hlog). rewrite Z.bit_log2 in Hbits by lia. done.
Qed.

Lemma u64_testbit v i : u64_range v -> 64 <= i -> Z.testbit v i = false.
Proof.
  intros [H0 H1] Hi. apply Z.bits_above_log2; [done|].
  destruct (Z.eq_dec v 0) as [->|]; [cbn; lia|].
  assert (Z.log2 v < 64); [|lia]. apply Z.log2_lt_pow2; [lia|exact H1].
Qed.

Lemma xorshift33_range v : u64_range v -> u64_range (xorshift33 v).
Proof.
  intros Hv. unfold xorshift33. apply u64_range_bits.
  - apply Z.lxor_nonneg. rewrite Z.shiftr_nonneg. unfold u64_range in Hv. lia.
  - intros i Hi. rewrite Z.lxor_spec, Z.shiftr_spec, !u64_testbit by (done || lia). done.
Qed.

Lemma xorshift33_involutive v : u64_range v -> xorshift33 (xorshift33 v) = v.
Proof.
  intros Hv. unfold xorshift33. apply Z.bits_inj'. intros i Hi.
  rewrite Z.lxor_spec, Z.shiftr_spec, !Z.lxor_spec, !Z.shiftr_spec by lia.
  rewrite (u64_testbit v (i + 33 + 33)) by (done || lia).
  rewrite xorb_false_r, xorb_assoc, xorb_nilpotent, xorb_false_r. done.
Qed.

Lemma wrapping_mul_range a b : u64_range (wrapping_mul_u64 a b).
Proof. apply Z.mod_pos_bound. lia. Qed.

Lemma wrapping_mul_injective c c' a b :
  (c * c') mod 18446744073709551616 = 1 -> u64_range a -> u64_range b ->
  wrapping_mul_u64 a c = wrapping_mul_u64 b c -> a = b.
Proof.
  intros Hinv Ha Hb Heq. unfold wrapping_mul_u64 in Heq.
  assert (Hback : forall x, u64_range x -> ((x * c) mod 18446744073709551616 * c') mod 18446744073709551616 = x).
  { intros x Hx. rewrite Z.mul_mod_idemp_l, <-Z.mul_assoc, <-Z.mul_mod_idemp_r, Hinv, Z.mul_1_r by lia.
    by apply Z.mod_small. }
  rewrite <-(Hback a Ha), <-(Hback b Hb), Heq. done.
Qed.

Lemma mix64_range v : u64_range v -> u64_range (mix64 v).
Proof. intros. unfold mix64. apply xorshift33_range, wrapping_mul_range. Qed.

Lemma mix64_injective a b : u64_range a -> u64_range b -> mix64 a = mix64 b -> a = b.
Proof.
  intros Ha Hb Heq. unfold mix64 in Heq.
  assert (Hx : forall x y, u64_range x -> u64_range y -> xorshift33 x = xorshift33 y -> x = y).
  { intros x y Hx Hy Hxy. rewrite <-(xorshift33_involutive x Hx), <-(xorshift33_involutive y Hy). by f_equal. }
  apply Hx in Heq; try apply wrapping_mul_range.
  apply (wrapping_mul_injective _ 11291846944257947611) in Heq;
    [|reflexivity|apply xorshift33_range, wrapping_mul_range..].
  apply Hx in Heq; try apply wrapping_mul_range.
  apply (wrapping_mul_injective _ 5725274745694666757) in Heq;
    [|reflexivity|by apply xorshift33_range..].
  by apply Hx.
Qed.

(** ** Placement: the preferred world is the maximum of a total order *)

Section Placement.
Context (shard : Z).

(** [x] is preferred to [y] or is [y]: a higher score, the smaller name on a tie. *)
Definition dominates (x y : string) : Prop :=
  score shard y < score shard x \/ score shard x = score shard y /\ String.le x y.

Lemma dominates_refl x : dominates x x.
Proof. right. split; reflexivity. Qed.

Lemma dominates_trans x y z : dominates x y -> dominates y z -> dominates x z.
Proof.
  intros [?|[??]] [?|[??]]; [left; lia|left; lia|left; lia|right].
  split; [lia|]. by transitivity y.
Qed.

Lemma dominates_antisym x y : dominates x y -> dominates y x -> x = y.
Proof. intros [?|[??]] [?|[??]]; try lia. by apply (anti_symm String.le). Qed.

Lemma ltb_le x y : String.ltb x y = true -> String.le x y.
Proof. unfold String.ltb, String.le, String.leb. by destruct (x ?= y)%string. Qed.

Lemma ltb_false_le x y : String.ltb x y = false -> String.le y x.
Proof.
  unfold String.ltb, String.le, String.leb. rewrite (String.compare_antisym y x).
  by destruct (x ?= y)%string.
Qed.

(** The membership lists [preferred_world] accepts. *)
Definition valid_membership (worlds : list string) : Prop := NoDup worlds /\ "" ∉ worlds.

Definition best_of (best : option (string * Z)) (seen : gset string) : Prop :=
  match best with
  | None => seen = ∅
  | Some (w, s) => s = score shard w /\ w ∈ seen /\ forall x, x ∈ seen -> dominates w x
  end.

Lemma best_of_step best seen id (better : bool) :
  best_of best seen ->
  better = match best with
           | None => true
           | Some (old, so) =>
               (so <? score shard id) || ((score shard id =? so) && String.ltb id old)
           end ->
  best_of (if better then Some (id, score shard id) else best) ({[id]} ∪ seen).
Proof.
  destruct best as [[w s]|]; cbn.
  - intros (-> & Hw & Hdom) ->. destruct (_ || _) eqn:Hb; cbn.
    + assert (Hid : dominates id w).
      { apply orb_true_iff in Hb as [Hs%Z.ltb_lt|[Hs%Z.eqb_eq Hlt]%andb_prop];
          [left; lia|right; auto using ltb_le]. }
      split_and!; [done|set_solver|]. intros x [->%elem_of_singleton|Hx]%elem_of_union.
      * apply dominates_refl.
      * eapply dominates_trans, Hdom; done.
    + apply orb_false_iff in Hb as [Hlt%Z.ltb_ge Hb].
      assert (Hid : dominates w id).
      { destruct (Z.eq_dec (score shard id) (score shard w)) as [He|He]; [|left; lia].
        rewrite (proj2 (Z.eqb_eq _ _) He) in Hb. right. auto using ltb_false_le. }
      split_and!; [done|set_solver|]. intros x [->%elem_of_singleton|Hx]%elem_of_union; auto.
  - intros -> ->. cbn. split_and!; [done|set_solver|].
    intros x Hx. assert (x = id) as -> by set_solver. apply dominates_refl.
Qed.

Lemma preferred_loop_spec worlds : forall seen best,
  best_of best seen ->
  match preferred_loop shard seen best worlds with
  | Ok best' => valid_membership worlds /\ (forall x, x ∈ worlds -> x ∉ seen)
      /\ best_of best' (list_to_set worlds ∪ seen)
  | Err e => e = InvalidConfig "invalid world membership"
      /\ ~ (valid_membership worlds /\ forall x, x ∈ worlds -> x ∉ seen)
  end.
Proof.
  induction worlds as [|id worlds IH]; intros seen best Hbest; cbn [preferred_loop].
  - split_and!; [split; [constructor|set_solver]|set_solver|].
    by rewrite list_to_set_nil, (left_id_L ∅ (∪)).
  - destruct (_ || _) eqn:Hbad.
    + split; [done|]. intros [[Hnd Hne] Hnew].
      apply orb_true_iff in Hbad as [->%String.eqb_eq|Hin%bool_decide_eq_true]; [set_solver|]. exact (Hnew id (list_elem_of_here _ _) Hin).
    + apply orb_false_iff in Hbad as [Hne%String.eqb_neq Hin%bool_decide_eq_false].
      specialize (IH _ _ (best_of_step best seen id _ Hbest eq_refl)).
      destruct (preferred_loop _ _ _ _) as [best'|e].
      * destruct IH as ([Hnd Hnon] & Hnew & Hb). split_and!.
        -- split; [constructor; set_solver|set_solver].
        -- set_solver.
        -- by replace (list_to_set (id :: worlds) ∪ seen)
             with (list_to_set (C:=gset string) worlds ∪ ({[id]} ∪ seen)) by set_solver.
      * destruct IH as [-> Hno]. split; [done|]. intros [[Hnd Hnon] Hnew]. apply Hno.
        apply NoDup_cons in Hnd as [??]. split; [split; [done|set_solver]|set_solver].
Qed.

Lemma preferred_world_spec worlds w :
  preferred_world shard worlds = Ok w
  <-> valid_membership worlds /\ w ∈ worlds /\ forall x, x ∈ worlds -> dominates w x.
Proof.
  assert (Hloop := preferred_loop_spec worlds ∅ None eq_refl).
  destruct worlds as [|id worlds]; cbn [preferred_world].
  { split; [done|]. intros (_ & Hw & _). set_solver. }
  set (l := id :: worlds) in *. destruct (preferred_loop _ _ _ _) as [[[b s]|]|e]; cbn [ok_or fmap option_fmap option_map fst].
  - destruct Hloop as (Hv & _ & (-> & Hb & Hdom)). split.
    + intros [= <-]. split_and!; [done|set_solver|]. intros x Hx. apply Hdom. set_solver.
    + intros (_ & Hw & Hdw). f_equal. apply dominates_antisym; [apply Hdom|apply Hdw]; set_solver.
  - destruct Hloop as (_ & _ & Hnil). cbn in Hnil. subst l. set_solver.
  - destruct Hloop as [-> Hno]. split; [done|]. intros (Hv & _). destruct Hno. split; [done|set_solver].
Qed.

Lemma preferred_world_total worlds :
  valid_membership worlds -> worlds <> [] -> exists w, preferred_world shard worlds = Ok w.
Proof.
  intros Hv Hne. assert (Hloop := preferred_loop_spec worlds ∅ None eq_refl).
  destruct worlds as [|id worlds]; [done|]. cbn [preferred_world]. set (l := id :: worlds) in *.
  destruct (preferred_loop _ _ _ _) as [[[b s]|]|e]; cbn.
  - by exists b.
  - destruct Hloop as (_ & _ & Hnil). cbn in Hnil. subst l. set_solver.
  - destruct Hloop as [_ Hno]. destruct Hno. split; [done|set_solver].
Qed.
End Placement.

(** Placement is independent of the order of the membership list and moves as few shards as
    possible: if [preferred_world] places a shard on [w], every other valid membership list keeps it
    on [w] when it only lost worlds other than [w]; when it only gained worlds, the shard stays on
    [w] or moves to one of the new worlds. *)
Theorem preferred_world_minimal_disruption (shard : Z) (ws ws' : list string) (w : string)
  (Hw : preferred_world shard ws = Ok w) (Hvalid : valid_membership ws') :
  (w ∈ ws' -> (forall x, x ∈ ws' -> x ∈ ws) -> preferred_world shard ws' = Ok w)
  /\ ((forall x, x ∈ ws -> x ∈ ws') ->
      exists w', preferred_world shard ws' = Ok w' /\ (w' = w \/ w' ∉ ws)).
Proof.
  apply preferred_world_spec in Hw as (_ & Hin & Hdom). split.
  - intros Hin' Hsub. apply preferred_world_spec. auto.
  - intros Hsup. destruct (preferred_world_total shard ws') as [w' Hw']; [done| |].
    { intros ->. apply Hsup in Hin. set_solver. }
    exists w'. split; [done|]. apply preferred_world_spec in Hw' as (_ & Hin' & Hdom').
    destruct (decide (w' ∈ ws)) as [Hold|]; [left|by right].
    apply (dominates_antisym shard); auto.
Qed.

Lemma preferred_world_minimal_disruption_witness :
  preferred_world 3 ["a"; "b"; "c"] = Ok "c"
  /\ preferred_world 3 ["c"; "b"] = Ok "c"
  /\ exists w', preferred_world 3 ["d"; "c"; "b"; "a"] = Ok w' /\ (w' = "c" \/ w' ∉ ["a"; "b"; "c"]).
Proof.
  assert (Hw : preferred_world 3 ["a"; "b"; "c"] = Ok "c") by (vm_compute; reflexivity).
  split; [exact Hw|]. split.
  - refine (proj1 (preferred_world_minimal_disruption 3 _ ["c"; "b"] "c" Hw _) _ _).
    + split; apply (bool_decide_unpack _); vm_compute; exact I.
    + rewrite !elem_of_cons; tauto.
    + intros x. rewrite !elem_of_cons, elem_of_nil. tauto.
  - refine (proj2 (preferred_world_minimal_disruption 3 _ ["d"; "c"; "b"; "a"] "c" Hw _) _).
    + split; apply (bool_decide_unpack _); vm_compute; exact I.
    + intros x. rewrite !elem_of_cons, elem_of_nil. tauto.
Defined.

(** ** Players *)

(** [shard_for] rejects exactly the invalid inputs, stays below the shard count, and reduces an
    injective hash: before the reduction no two players collide. *)
Lemma shard_for_spec (player count : Z) :
  player <= 9223372036854775807 -> 0 <= count <= u32_max ->
  match shard_for player count with
  | Ok s => 0 < player /\ 0 < count /\ 0 <= s < count /\ s = mix64 player mod count
  | Err e => e = InvalidConfig "invalid shard input" /\ (player <= 0 \/ count = 0)
  end.
Proof.
  intros Hp Hc. unfold shard_for. destruct (_ || _) eqn:Hbad.
  - apply orb_true_iff in Hbad as [?%Z.leb_le|?%Z.eqb_eq]; auto.
  - breflect. assert (0 < count) by lia. split_and!; try lia; apply Z.mod_pos_bound; lia.
Qed.

(** ** Tables *)

(** What [collect_assignments] adds to the map it starts from. *)
Lemma collect_assignments_spec count l : forall next,
  match collect_assignments count next l with
  | Ok m => Forall (fun a => Assignment_validate a count = Ok ()) l /\ NoDup (shard_key <$> l)
      /\ (forall a, a ∈ l -> next !! shard_key a = None)
      /\ m = list_to_map ((fun a => (shard_key a, a)) <$> l) ∪ next
  | Err _ => ~ (Forall (fun a => Assignment_validate a count = Ok ()) l /\ NoDup (shard_key <$> l)
      /\ forall a, a ∈ l -> next !! shard_key a = None)
  end.
Proof.
  induction l as [|a l IH]; intros next; cbn [collect_assignments].
  - split_and!; [by apply Forall_nil|by apply NoDup_nil|set_solver|cbn; by rewrite (left_id_L ∅ (∪))].
  - destruct (Assignment_validate a count) as [[]|e] eqn:Hv.
    2: { intros (Hall & _). apply Forall_cons in Hall as [Ha _]. congruence. }
    case_bool_decide as Hdup.
    { intros (_ & _ & Hnew). rewrite (Hnew a) in Hdup by set_solver. by destruct Hdup. }
    apply eq_None_not_Some in Hdup. specialize (IH (<[shard_key a := a]> next)).
    destruct (collect_assignments _ _ _) as [m|e].
    + destruct IH as (Hall & Hnd & Hnew & ->).
      assert (Ha : forall b, b ∈ l -> shard_key b <> shard_key a /\ next !! shard_key b = None).
      { intros b Hb. specialize (Hnew b Hb). by apply lookup_insert_None in Hnew as []. }
      split_and!; [by constructor| | |].
      * cbn. apply NoDup_cons. split; [|done]. intros (b & Heq & Hb)%list_elem_of_fmap.
        by destruct (Ha b Hb).
      * intros b [->|Hb]%elem_of_cons; [done|]. by apply Ha.
      * cbn. rewrite <-insert_union_r, insert_union_l; [done|].
        apply not_elem_of_list_to_map_1. rewrite <-list_fmap_compose.
        intros (b & Heq & Hb)%list_elem_of_fmap. by destruct (Ha b Hb).
    + intros (Hall & Hnd & Hnew). apply IH.
      apply Forall_cons in Hall as [_ Hall]. cbn in Hnd. apply NoDup_cons in Hnd as [Hn Hnd].
      split_and!; [done..|]. intros b Hb. rewrite lookup_insert_ne; [set_solver|].
      intros Heq. apply Hn. rewrite Heq. by apply list_elem_of_fmap_2.
Qed.

Lemma collect_assignments_lookup (l : list Assignment) k :
  (list_to_map ((fun a => (shard_key a, a)) <$> l) : gmap (Z * Z * Z) Assignment) !! k
  = find (fun b => bool_decide (shard_key b = k)) l.
Proof.
  induction l as [|a l IH]; [done|]. cbn. case_bool_decide as Hk.
  - subst. by rewrite lookup_insert_eq.
  - rewrite lookup_insert_ne by done. exact IH.
Qed.

(** Replacing an ownership table is atomic.  It succeeds exactly when every assignment is valid
    and no shard is assigned twice; then [resolve] returns, for every shard in range, the assignment
    given for it and [Unavailable] for the others (nothing of the previous table survives), and
    [snapshot] lists exactly the given assignments.  Otherwise the table is unchanged. *)
Theorem ownership_table_atomic (t : OwnershipTable) (values : list Assignment) :
  let valid := Forall (fun a => Assignment_validate a t.(count) = Ok ()) values
               /\ NoDup (shard_key <$> values) in
  match OwnershipTable_replace t values with
  | (Ok _, t') => valid /\ t'.(count) = t.(count)
      /\ OwnershipTable_snapshot t' ≡ₚ values
      /\ (forall region realm shard,
          resolve t' region realm shard
          = if (region =? 0) || (realm =? 0) || (t.(count) <=? shard) then
              Err (InvalidConfig "shard range")
            else ok_or (find (fun a => bool_decide (shard_key a = (region, realm, shard))) values)
                   Unavailable)
  | (Err _, t') => t' = t /\ ~ valid
  end.
Proof.
  cbn zeta. unfold OwnershipTable_replace.
  assert (Hc := collect_assignments_spec t.(count) values ∅).
  destruct (collect_assignments _ _ _) as [m|e].
  - destruct Hc as (Hall & Hnd & _ & ->). rewrite (right_id_L ∅ (∪)).
    split_and!; [done|done|done| |].
    + unfold OwnershipTable_snapshot. cbn [owners]. rewrite map_to_list_to_map.
      * by rewrite <-list_fmap_compose, list_fmap_id.
      * by rewrite <-list_fmap_compose.
    + intros. unfold resolve, OwnershipTable_resolve. cbn [count owners].
      by rewrite collect_assignments_lookup.
  - split; [done|]. intros [Hall Hnd]. apply Hc. split_and!; [done..|].
    intros. apply lookup_empty.
Qed.

(** Directories dispatch by region and realm, and are replaced as a whole too. *)
Lemma collect_resolvers_spec l : forall next,
  match collect_resolvers next l with
  | Ok m => NoDup l.*1 /\ m = list_to_map l ∪ next /\ (forall k, k ∈ l.*1 -> next !! k = None)
  | Err _ => True
  end.
Proof.
  induction l as [|[[region realm] r] l IH]; intros next; cbn [collect_resolvers].
  - split_and!; [constructor|cbn; by rewrite (left_id_L ∅ (∪))|set_solver].
  - destruct (_ || _); [done|]. case_bool_decide as Hdup; [done|]. apply eq_None_not_Some in Hdup.
    specialize (IH (<[(region, realm) := r]> next)). destruct (collect_resolvers _ _) as [m|]; [|done].
    destruct IH as (Hnd & -> & Hnew).
    assert (Hn : (region, realm) ∉ l.*1).
    { intros Hin%Hnew. by rewrite lookup_insert_eq in Hin. }
    split_and!.
    + cbn. by apply NoDup_cons.
    + cbn. rewrite <-insert_union_r, insert_union_l; [done|]. by apply not_elem_of_list_to_map_1.
    + cbn. intros k [->|Hk]%elem_of_cons; [done|].
      by apply Hnew, lookup_insert_None in Hk as [].
Qed.

(** A directory whose replacement succeeds answers every request with the resolver given for its
    region and realm; a failed replacement changes nothing. *)
Lemma ownership_directory_dispatch (d : OwnershipResolverDirectory) l :
  match OwnershipResolverDirectory_replace d l with
  | (Ok _, d') => l <> [] /\ NoDup l.*1
      /\ (forall region realm r shard, ((region, realm), r) ∈ l ->
          resolve d' region realm shard = dyn_resolve r region realm shard)
      /\ (forall region realm shard, (region, realm) ∉ l.*1 ->
          resolve d' region realm shard = Err Unavailable)
  | (Err _, d') => d' = d
  end.
Proof.
  unfold OwnershipResolverDirectory_replace. assert (Hc := collect_resolvers_spec l ∅).
  destruct (collect_resolvers ∅ l) as [m|e]; [|done].
  destruct Hc as (Hnd & -> & _). rewrite (right_id_L ∅ (∪)). destruct (_ =? _)%nat eqn:Hs; [done|].
  unfold resolve, OwnershipResolverDirectory_resolve. cbn [resolvers]. split_and!.
  - intros ->. discriminate.
  - done.
  - intros region realm r shard Hin. by rewrite (elem_of_list_to_map_1 _ _ r).
  - intros region realm shard Hout. by rewrite not_elem_of_list_to_map_1.
Qed.
