(* ===== verification/Outbox.v ===== *)
(** * The transactional outbox: [crates/elura-core/src/outbox.rs], [outbox/memory.rs]

    Events and the in-memory store: appending, leasing with fencing tokens, acknowledging, retrying,
    dead-lettering and replaying.  Identifiers and tokens ([Uuid]) are 128-bit integers; times are
    nanoseconds since the epoch.  Each reading of the clock is an argument of its operation and need
    not be monotone; [Uuid::new_v4] is the argument [new_v4], the tokens drawn by one call.  Adding a
    duration to a time panics on overflow; a panic while the mutex is held poisons it. *)

From S2P Require Import Prelude Bytes CoreError.

Record OutboxEvent : Type := {
  id : Z;
  topic : string;
  key : string;
  trace_id : string;
  payload : list Z;
  headers : gmap string string;
  created_at : Z;
  available_at : Z;
}.

#[export] Instance OutboxEvent_eq_dec : EqDecision OutboxEvent.
Proof. solve_decision. Defined.

Definition header_invalid (h : string * string) : bool :=
  String.eqb h.1 "" || (128 <? string_len h.1) || (1024 <? string_len h.2).

Definition OutboxEvent_validate (self : OutboxEvent) : Result unit :=
  if (self.(id) =? 0) || trim_is_empty self.(topic) || (self.(available_at) <? self.(created_at))
     || (255 <? string_len self.(topic)) || (512 <? string_len self.(key))
     || (128 <? string_len self.(trace_id)) || (1024 * 1024 <? len self.(payload))
     || (64 <? Z.of_nat (size self.(headers)))
     || existsb header_invalid (map_to_list self.(headers)) then
    Err (InvalidConfig "invalid outbox event")
  else Ok ().

Definition OutboxEvent_with_id (now id : Z) (topic : string) (payload : list Z) : Result OutboxEvent :=
  let event := {| id := id; topic := topic; key := ""; trace_id := ""; payload := payload;
                  headers := ∅; created_at := now; available_at := now |} in
  let? _ := OutboxEvent_validate event in
  Ok event.

Definition OutboxEvent_new (now new_v4 : Z) (topic : string) (payload : list Z) : Result OutboxEvent :=
  OutboxEvent_with_id now new_v4 topic payload.

Definition OutboxEvent_same_identity (self other : OutboxEvent) : bool :=
  (self.(id) =? other.(id)) && String.eqb self.(topic) other.(topic)
  && String.eqb self.(key) other.(key) && String.eqb self.(trace_id) other.(trace_id)
  && bool_decide (self.(payload) = other.(payload)) && bool_decide (self.(headers) = other.(headers)).

Record OutboxDelivery : Type := {
  event : OutboxEvent;
  attempt : Z;
  worker : string;
  token : Z;
  lease_until : Z;
}.

Record DeadLetter : Type := {
  dead_event : OutboxEvent;
  dead_attempt : Z;
  reason : string;
  failed_at : Z;
}.

Definition validate_failure_reason (reason : string) : Result unit :=
  if 4096 <? string_len reason then Err (InvalidConfig "outbox failure reason exceeds limit")
  else Ok ().

Record Entry : Type := {
  entry_event : OutboxEvent;
  entry_attempt : Z;
  entry_worker : option string;
  entry_token : option Z;
  entry_lease_until : option Z;
  last_error : string;
}.

Record State : Type := {
  active : gmap Z Entry;
  dead : gmap Z DeadLetter;
  completed : gmap Z OutboxEvent;
}.

(** The mutex: its content and whether a panic has poisoned it. *)
Record MemoryOutbox : Type := {
  state : State;
  poisoned : bool;
}.

Definition MemoryOutbox_new : MemoryOutbox :=
  {| state := {| active := ∅; dead := ∅; completed := ∅ |}; poisoned := false |}.

Definition set_state (self : MemoryOutbox) (s : State) : MemoryOutbox :=
  {| state := s; poisoned := self.(poisoned) |}.
Definition set_active (s : State) (m : gmap Z Entry) : State :=
  {| active := m; dead := s.(dead); completed := s.(completed) |}.

Definition MemoryOutbox_lock (self : MemoryOutbox) : Result State :=
  if self.(poisoned) then Err (Internal "outbox lock poisoned") else Ok self.(state).

Definition MemoryOutbox_leased (s : State) (delivery : OutboxDelivery) (now : Z) : Result Entry :=
  let? entry := ok_or (s.(active) !! delivery.(event).(id)) OutboxNotFound in
  if negb (bool_decide (entry.(entry_worker) = Some delivery.(worker)))
     || negb (bool_decide (entry.(entry_token) = Some delivery.(token)))
     || match entry.(entry_lease_until) with None => true | Some until => until <=? now end then
    Err OutboxLeaseLost
  else Ok entry.

(** A new entry: no attempt, no lease, no error. *)
Definition fresh_entry (e : OutboxEvent) : Entry :=
  {| entry_event := e; entry_attempt := 0; entry_worker := None; entry_token := None;
     entry_lease_until := None; last_error := "" |}.

(** The event stored under an identifier, in the order [append] looks. *)
Definition existing_event (s : State) (i : Z) : option OutboxEvent :=
  match entry_event <$> s.(active) !! i with
  | Some e => Some e
  | None =>
      match dead_event <$> s.(dead) !! i with
      | Some e => Some e
      | None => s.(completed) !! i
      end
  end.

Definition MemoryOutbox_append (self : MemoryOutbox) (e : OutboxEvent) : Result unit * MemoryOutbox :=
  let? _ := OutboxEvent_validate e else self in
  let? s := MemoryOutbox_lock self else self in
  match existing_event s e.(id) with
  | Some existing =>
      (if OutboxEvent_same_identity existing e then Ok () else Err DuplicateEvent, self)
  | None => (Ok (), set_state self (set_active s (<[e.(id) := fresh_entry e]> s.(active))))
  end.

(** *** [acquire] *)

Definition acquirable (now : Z) (entry : Entry) : bool :=
  (entry.(entry_event).(available_at) <=? now)
  && match entry.(entry_lease_until) with None => true | Some until => until <=? now end.

(** The [(created_at, id)] order. *)
Definition created_leb (p q : Z * Entry) : bool :=
  (p.2.(entry_event).(created_at) <? q.2.(entry_event).(created_at))
  || ((p.2.(entry_event).(created_at) =? q.2.(entry_event).(created_at)) && (p.1 <=? q.1)).

Definition acquire_ids (s : State) (limit now : Z) : list Z :=
  take (Z.to_nat limit)
    (fst <$> sort_by created_leb (filter (fun p => acquirable now p.2 = true) (map_to_list s.(active)))).

Definition leased_entry (entry : Entry) (attempt : Z) (worker : string) (token until : Z) : Entry :=
  {| entry_event := entry.(entry_event); entry_attempt := attempt; entry_worker := Some worker;
     entry_token := Some token; entry_lease_until := Some until; last_error := entry.(last_error) |}.

Definition with_attempt (entry : Entry) (attempt : Z) : Entry :=
  {| entry_event := entry.(entry_event); entry_attempt := attempt;
     entry_worker := entry.(entry_worker); entry_token := entry.(entry_token);
     entry_lease_until := entry.(entry_lease_until); last_error := entry.(last_error) |}.

(** The loop over the identifiers; [None] where [now + lease] panics. *)
Fixpoint acquire_loop (worker : string) (now lease : Z) (new_v4 : nat -> Z) (n : nat)
    (m : gmap Z Entry) (ids : list Z) : option (list OutboxDelivery) * gmap Z Entry :=
  match ids with
  | [] => (Some [], m)
  | i :: ids =>
      match m !! i with
      | None => acquire_loop worker now lease new_v4 n m ids
      | Some entry =>
          let attempt := saturating_add u32_max entry.(entry_attempt) 1 in
          match SystemTime_add now lease with
          | None => (None, <[i := with_attempt entry attempt]> m)
          | Some until =>
              let token := new_v4 n in
              let delivery := {| event := entry.(entry_event); attempt := attempt; worker := worker;
                                 token := token; lease_until := until |} in
              let '(rest, m') :=
                acquire_loop worker now lease new_v4 (S n)
                  (<[i := leased_entry entry attempt worker token until]> m) ids in
              (cons delivery <$> rest, m')
          end
      end
  end.

Definition MemoryOutbox_acquire (self : MemoryOutbox) (now : Z) (new_v4 : nat -> Z)
    (worker : string) (limit lease : Z) : Outcome (list OutboxDelivery) * MemoryOutbox :=
  if trim_is_empty worker || (128 <? string_len worker) || (limit =? 0) || (4096 <? limit)
     || (lease =? 0) then
    (Returned (Err (InvalidConfig "invalid outbox lease")), self)
  else
    match MemoryOutbox_lock self with
    | Err e => (Returned (Err e), self)
    | Ok s =>
        match acquire_loop worker now lease new_v4 0 s.(active) (acquire_ids s limit now) with
        | (Some deliveries, m) => (Returned (Ok deliveries), set_state self (set_active s m))
        | (None, m) => (Panicked, {| state := set_active s m; poisoned := true |})
        end
    end.

(** *** The holder of a lease *)

Definition MemoryOutbox_ack (self : MemoryOutbox) (now : Z) (delivery : OutboxDelivery) :
    Result unit * MemoryOutbox :=
  let? s := MemoryOutbox_lock self else self in
  let? _ := MemoryOutbox_leased s delivery now else self in
  let? entry := ok_or (s.(active) !! delivery.(event).(id)) OutboxNotFound else self in
  (Ok (), set_state self
    {| active := delete delivery.(event).(id) s.(active);
       dead := s.(dead);
       completed := <[entry.(entry_event).(id) := entry.(entry_event)]> s.(completed) |}).

(** [now] is read for the lease check, [now'] for the new end of the lease. *)
Definition MemoryOutbox_renew (self : MemoryOutbox) (now now' : Z) (delivery : OutboxDelivery)
    (lease : Z) : Outcome unit * MemoryOutbox :=
  if lease =? 0 then (Returned (Err (InvalidConfig "invalid outbox lease")), self)
  else
    match MemoryOutbox_lock self with
    | Err e => (Returned (Err e), self)
    | Ok s =>
        match MemoryOutbox_leased s delivery now with
        | Err e => (Returned (Err e), self)
        | Ok entry =>
            match SystemTime_add now' lease with
            | None => (Panicked, {| state := s; poisoned := true |})
            | Some until =>
                (Returned (Ok ()),
                 set_state self (set_active s (<[delivery.(event).(id) :=
                   {| entry_event := entry.(entry_event); entry_attempt := entry.(entry_attempt);
                      entry_worker := entry.(entry_worker); entry_token := entry.(entry_token);
                      entry_lease_until := Some until; last_error := entry.(last_error) |}]>
                   s.(active))))
            end
        end
    end.

Definition with_available_at (e : OutboxEvent) (t : Z) : OutboxEvent :=
  {| id := e.(id); topic := e.(topic); key := e.(key); trace_id := e.(trace_id);
     payload := e.(payload); headers := e.(headers); created_at := e.(created_at);
     available_at := t |}.

Definition MemoryOutbox_retry (self : MemoryOutbox) (now now' : Z) (delivery : OutboxDelivery)
    (available_at : Z) (reason : string) : Result unit * MemoryOutbox :=
  let? _ := validate_failure_reason reason else self in
  let? s := MemoryOutbox_lock self else self in
  let? entry := MemoryOutbox_leased s delivery now else self in
  (Ok (), set_state self (set_active s (<[delivery.(event).(id) :=
    {| entry_event := with_available_at entry.(entry_event) (Z.max available_at now');
       entry_attempt := entry.(entry_attempt); entry_worker := None; entry_token := None;
       entry_lease_until := None; last_error := reason |}]> s.(active)))).

Definition MemoryOutbox_dead_letter (self : MemoryOutbox) (now now' : Z) (delivery : OutboxDelivery)
    (why : string) : Result unit * MemoryOutbox :=
  let? _ := validate_failure_reason why else self in
  let? s := MemoryOutbox_lock self else self in
  let? _ := MemoryOutbox_leased s delivery now else self in
  let? entry := ok_or (s.(active) !! delivery.(event).(id)) OutboxNotFound else self in
  (Ok (), set_state self
    {| active := delete delivery.(event).(id) s.(active);
       dead := <[entry.(entry_event).(id) :=
                 {| dead_event := entry.(entry_event); dead_attempt := entry.(entry_attempt);
                    reason := why; failed_at := now' |}]> s.(dead);
       completed := s.(completed) |}).

(** *** Dead letters *)

(** The newest failures first; letters that failed at the same time come in map order. *)
Definition MemoryOutbox_list_dead_letters (self : MemoryOutbox) (limit : Z) :
    Result (list DeadLetter) :=
  if limit =? 0 then Err (InvalidConfig "dead-letter limit is zero")
  else
    let? s := MemoryOutbox_lock self in
    Ok (take (Z.to_nat limit)
      (sort_by_key (fun letter => - letter.(failed_at)) (snd <$> map_to_list s.(dead)))).

Definition MemoryOutbox_replay_dead_letter (self : MemoryOutbox) (now i available_at : Z) :
    Result unit * MemoryOutbox :=
  let? s := MemoryOutbox_lock self else self in
  let? letter := ok_or (s.(dead) !! i) OutboxNotFound else self in
  (Ok (), set_state self
    {| active := <[i := fresh_entry
                   (with_available_at letter.(dead_event) (Z.max available_at now))]> s.(active);
       dead := delete i s.(dead);
       completed := s.(completed) |}).

(** ** Histories of calls *)

Inductive Call : Type :=
| Append (e : OutboxEvent)
| Acquire (now : Z) (new_v4 : nat -> Z) (worker : string) (limit lease : Z)
| Ack (now : Z) (d : OutboxDelivery)
| Renew (now now' : Z) (d : OutboxDelivery) (lease : Z)
| Retry (now now' : Z) (d : OutboxDelivery) (available_at : Z) (reason : string)
| DeadLetterDelivery (now now' : Z) (d : OutboxDelivery) (reason : string)
| Replay (now i available_at : Z).

(** One call: the deliveries it hands out and the outbox after it. *)
Definition step (o : MemoryOutbox) (c : Call) : list OutboxDelivery * MemoryOutbox :=
  match c with
  | Append e => ([], (MemoryOutbox_append o e).2)
  | Acquire now new_v4 worker limit lease =>
      match MemoryOutbox_acquire o now new_v4 worker limit lease with
      | (Returned (Ok ds), o') => (ds, o')
      | (_, o') => ([], o')
      end
  | Ack now d => ([], (MemoryOutbox_ack o now d).2)
  | Renew now now' d lease => ([], (MemoryOutbox_renew o now now' d lease).2)
  | Retry now now' d available_at reason =>
      ([], (MemoryOutbox_retry o now now' d available_at reason).2)
  | DeadLetterDelivery now now' d reason => ([], (MemoryOutbox_dead_letter o now now' d reason).2)
  | Replay now i available_at => ([], (MemoryOutbox_replay_dead_letter o now i available_at).2)
  end.

(** A sequence of calls: all deliveries handed out, oldest first, and the outbox after them. *)
Fixpoint run (o : MemoryOutbox) (cs : list Call) : list OutboxDelivery * MemoryOutbox :=
  match cs with
  | [] => ([], o)
  | c :: cs =>
      let '(ds, o1) := step o c in
      let '(h, o2) := run o1 cs in
      (ds ++ h, o2)
  end.

(** ** What [acquire] does *)

Definition delivery_of (entry : Entry) (worker : string) (token until : Z) : OutboxDelivery :=
  {| event := entry.(entry_event); attempt := saturating_add u32_max entry.(entry_attempt) 1;
     worker := worker; token := token; lease_until := until |}.

Definition lease_of (entry : Entry) (worker : string) (token until : Z) : Entry :=
  leased_entry entry (saturating_add u32_max entry.(entry_attempt) 1) worker token until.

Section AcquireLoop.
Context (w : string) (now lease until : Z) (new_v4 : nat -> Z).
Context (Huntil : SystemTime_add now lease = Some until).

Lemma acquire_loop_spec ids : forall n (m : gmap Z Entry),
  NoDup ids -> (forall i, i ∈ ids -> is_Some (m !! i)) ->
  exists ds m', acquire_loop w now lease new_v4 n m ids = (Some ds, m')
    /\ length ds = length ids
    /\ (forall i, i ∉ ids -> m' !! i = m !! i)
    /\ (forall k i, ids !! k = Some i -> exists entry, m !! i = Some entry
        /\ ds !! k = Some (delivery_of entry w (new_v4 (n + k)%nat) until)
        /\ m' !! i = Some (lease_of entry w (new_v4 (n + k)%nat) until)).
Proof.
  induction ids as [|i ids IH]; intros n m Hnd Hin; cbn [acquire_loop].
  - exists [], m. split_and!; [done..|]. intros k i Hk. by rewrite lookup_nil in Hk.
  - apply NoDup_cons in Hnd as [Hi Hnd].
    destruct (Hin i (list_elem_of_here _ _)) as [entry Hentry]. rewrite Hentry, Huntil.
    destruct (IH (S n) (<[i := lease_of entry w (new_v4 n) until]> m)) as (ds & m' & Hl & Hlen & Hout & Hds);
      [done| |].
    { intros j Hj. destruct (decide (j = i)) as [->|]; [by rewrite lookup_insert_eq|].
      rewrite lookup_insert_ne by done. apply Hin. by apply list_elem_of_further. }
    unfold lease_of in Hl. rewrite Hl. exists (delivery_of entry w (new_v4 n) until :: ds), m'.
    split_and!; [done|cbn; lia| |].
    + intros j [Hne Hj]%not_elem_of_cons. rewrite Hout, lookup_insert_ne by done. done.
    + intros [|k] j Hk; cbn in Hk.
      * injection Hk as <-. exists entry. rewrite Nat.add_0_r. split_and!; [done|done|].
        by rewrite Hout, lookup_insert_eq.
      * destruct (Hds k j Hk) as (entry' & He & Hd & Hm).
        rewrite Nat.add_succ_r. exists entry'. split_and!; [|done|done].
        rewrite lookup_insert_ne in He; [done|]. intros <-. by apply list_elem_of_lookup_2 in Hk.
Qed.
End AcquireLoop.

Lemma created_leb_total p q : created_leb p q = true \/ created_leb q p = true.
Proof. unfold created_leb. rewrite !orb_true_iff, !andb_true_iff, !Z.ltb_lt, !Z.eqb_eq, !Z.leb_le. lia. Qed.

Lemma created_leb_trans p q r :
  created_leb p q = true -> created_leb q r = true -> created_leb p r = true.
Proof. unfold created_leb. rewrite !orb_true_iff, !andb_true_iff, !Z.ltb_lt, !Z.eqb_eq, !Z.leb_le. lia. Qed.

(** The acquirable entries in order, before the truncation. *)
Definition candidates (s : State) (now : Z) : list (Z * Entry) :=
  sort_by created_leb (filter (fun p => acquirable now p.2 = true) (map_to_list s.(active))).

Lemma acquire_ids_candidates s limit now :
  acquire_ids s limit now = fst <$> take (Z.to_nat limit) (candidates s now).
Proof. unfold acquire_ids. by rewrite fmap_take. Qed.

Lemma elem_of_candidates s now i entry :
  (i, entry) ∈ candidates s now <-> s.(active) !! i = Some entry /\ acquirable now entry = true.
Proof.
  unfold candidates. rewrite elem_of_sort_by, list_elem_of_filter, elem_of_map_to_list. cbn. tauto.
Qed.

Lemma candidates_nodup s now : NoDup (candidates s now).*1.
Proof.
  unfold candidates. rewrite sort_by_perm.
  apply (sublist_NoDup _ (map_to_list s.(active)).*1); [apply NoDup_fst_map_to_list|].
  apply fmap_sublist, sublist_filter.
Qed.

Lemma acquire_ids_nodup s limit now : NoDup (acquire_ids s limit now).
Proof.
  rewrite acquire_ids_candidates, fmap_take.
  eapply sublist_NoDup; [apply candidates_nodup|]. apply sublist_take.
Qed.

Lemma acquire_ids_active s limit now i :
  i ∈ acquire_ids s limit now -> exists entry, s.(active) !! i = Some entry /\ acquirable now entry = true.
Proof.
  rewrite acquire_ids_candidates. intros ([j entry] & -> & Hin)%list_elem_of_fmap.
  apply elem_of_take in Hin as (k & Hk & _). apply list_elem_of_lookup_2 in Hk.
  exists entry. by apply elem_of_candidates.
Qed.

(** ** The life of one event

    The abstract specification: an event is absent, active (waiting or leased), dead or done, and
    each call moves it along at most one edge.  [life] reads that state off the three maps; it is
    [None] for an identifier found in two of them. *)
Inductive Life : Type :=
| Absent
| Live (entry : Entry)
| Dead (letter : DeadLetter)
| Done (e : OutboxEvent).

Definition life (s : State) (i : Z) : option Life :=
  match s.(active) !! i, s.(dead) !! i, s.(completed) !! i with
  | None, None, None => Some Absent
  | Some entry, None, None => Some (Live entry)
  | None, Some letter, None => Some (Dead letter)
  | None, None, Some e => Some (Done e)
  | _, _, _ => None
  end.

Definition life_event (L : Life) : option OutboxEvent :=
  match L with
  | Absent => None
  | Live entry => Some entry.(entry_event)
  | Dead letter => Some letter.(dead_event)
  | Done e => Some e
  end.

(** The delivery holds the lease of the entry. *)
Definition holds (d : OutboxDelivery) (now : Z) (entry : Entry) : Prop :=
  entry.(entry_worker) = Some d.(worker) /\ entry.(entry_token) = Some d.(token)
  /\ exists until, entry.(entry_lease_until) = Some until /\ now < until.

Definition renewed (entry : Entry) (until : Z) : Entry :=
  {| entry_event := entry.(entry_event); entry_attempt := entry.(entry_attempt);
     entry_worker := entry.(entry_worker); entry_token := entry.(entry_token);
     entry_lease_until := Some until; last_error := entry.(last_error) |}.

Definition retried (entry : Entry) (t : Z) (why : string) : Entry :=
  {| entry_event := with_available_at entry.(entry_event) t;
     entry_attempt := entry.(entry_attempt); entry_worker := None; entry_token := None;
     entry_lease_until := None; last_error := why |}.

Inductive lifecycle (i : Z) : Call -> Life -> Life -> Prop :=
| life_stay c L : lifecycle i c L L
| life_append e :
    e.(id) = i -> OutboxEvent_validate e = Ok () ->
    lifecycle i (Append e) Absent (Live (fresh_entry e))
| life_lease now new_v4 w limit lease entry k until :
    acquirable now entry = true -> SystemTime_add now lease = Some until ->
    lifecycle i (Acquire now new_v4 w limit lease) (Live entry) (Live (lease_of entry w (new_v4 k) until))
| life_lease_panic now new_v4 w limit lease entry :
    acquirable now entry = true -> SystemTime_add now lease = None ->
    lifecycle i (Acquire now new_v4 w limit lease) (Live entry)
      (Live (with_attempt entry (saturating_add u32_max entry.(entry_attempt) 1)))
| life_ack now d entry :
    d.(event).(id) = i -> holds d now entry ->
    lifecycle i (Ack now d) (Live entry) (Done entry.(entry_event))
| life_renew now now' d lease entry until :
    d.(event).(id) = i -> holds d now entry -> SystemTime_add now' lease = Some until ->
    lifecycle i (Renew now now' d lease) (Live entry) (Live (renewed entry until))
| life_retry now now' d t why entry :
    d.(event).(id) = i -> holds d now entry ->
    lifecycle i (Retry now now' d t why) (Live entry) (Live (retried entry (Z.max t now') why))
| life_dead now now' d why entry :
    d.(event).(id) = i -> holds d now entry ->
    lifecycle i (DeadLetterDelivery now now' d why) (Live entry)
      (Dead {| dead_event := entry.(entry_event); dead_attempt := entry.(entry_attempt);
               reason := why; failed_at := now' |})
| life_replay now t letter :
    lifecycle i (Replay now i t) (Dead letter)
      (Live (fresh_entry (with_available_at letter.(dead_event) (Z.max t now)))).

(** Every identifier is in one place, under its own event. *)
Definition outbox_ok (s : State) : Prop :=
  forall i, exists L, life s i = Some L /\ forall e, life_event L = Some e -> e.(id) = i.

(** What a call does to the store, identifier by identifier. *)
Definition follows (c : Call) (s s' : State) : Prop :=
  forall i, exists L L', life s i = Some L /\ life s' i = Some L' /\ lifecycle i c L L'
    /\ forall e, life_event L' = Some e -> e.(id) = i.

Lemma follows_ok c s s' : follows c s s' -> outbox_ok s'.
Proof. intros H i. destruct (H i) as (L & L' & _ & HL' & _ & He). by exists L'. Qed.

Lemma follows_refl c s : outbox_ok s -> follows c s s.
Proof. intros H i. destruct (H i) as (L & HL & He). exists L, L. by repeat constructor. Qed.

Lemma life_Live s i entry :
  life s i = Some (Live entry) <->
  s.(active) !! i = Some entry /\ s.(dead) !! i = None /\ s.(completed) !! i = None.
Proof.
  unfold life. split; [|by intros (-> & -> & ->)].
  destruct (s.(active) !! i), (s.(dead) !! i), (s.(completed) !! i); intros; by simplify_eq.
Qed.

Lemma ok_active s i entry :
  outbox_ok s -> s.(active) !! i = Some entry ->
  life s i = Some (Live entry) /\ entry.(entry_event).(id) = i.
Proof.
  intros Hok Ha. destruct (Hok i) as (L & HL & He). unfold life in *. rewrite Ha in *.
  destruct (s.(dead) !! i), (s.(completed) !! i); simplify_eq/=. auto.
Qed.

Lemma ok_dead s i letter :
  outbox_ok s -> s.(dead) !! i = Some letter ->
  life s i = Some (Dead letter) /\ letter.(dead_event).(id) = i.
Proof.
  intros Hok Ha. destruct (Hok i) as (L & HL & He). unfold life in *. rewrite Ha in *.
  destruct (s.(active) !! i), (s.(completed) !! i); simplify_eq/=. auto.
Qed.

(** A call that touches one identifier. *)
Lemma follows_at c s s' i L L' :
  outbox_ok s -> life s i = Some L -> life s' i = Some L' -> lifecycle i c L L' ->
  (forall e, life_event L' = Some e -> e.(id) = i) ->
  (forall j, j <> i -> life s' j = life s j) -> follows c s s'.
Proof.
  intros Hok HL HL' Hc He Hout j. destruct (decide (j = i)) as [->|Hj].
  - exists L, L'. auto.
  - destruct (Hok j) as (M & HM & HeM). exists M, M. rewrite Hout by done. by repeat constructor.
Qed.

Lemma leased_spec s d now entry :
  MemoryOutbox_leased s d now = Ok entry
  <-> s.(active) !! d.(event).(id) = Some entry /\ holds d now entry.
Proof.
  unfold MemoryOutbox_leased, holds. destruct (s.(active) !! _) as [en|]; cbn [ok_or];
    [|split; [done|by intros []]].
  split.
  - destruct (_ || _) eqn:Hb; [done|]. intros [= <-].
    rewrite !orb_false_iff, !negb_false_iff, !bool_decide_eq_true in Hb. destruct Hb as [[Hw Ht] Hl].
    destruct (entry_lease_until en) as [until|]; [|done]. breflect. eauto 6.
  - intros ([= ->] & Hw & Ht & until & Hu & Hlt).
    rewrite Hw, Ht, Hu, !bool_decide_eq_true_2 by done. cbn.
    by destruct (Z.leb_spec until now); [lia|].
Qed.

(** The lookups of a store in which one identifier changed. *)
Ltac life_maps :=
  unfold life; cbn [active dead completed set_active];
  rewrite ?lookup_insert_eq, ?lookup_delete_eq, ?lookup_insert_ne, ?lookup_delete_ne by done.

Lemma append_follows o e :
  outbox_ok o.(state) -> follows (Append e) o.(state) (MemoryOutbox_append o e).2.(state).
Proof.
  intros Hok. unfold MemoryOutbox_append, MemoryOutbox_lock.
  destruct (OutboxEvent_validate e) as [[]|] eqn:Hv; [|by apply follows_refl].
  destruct (poisoned o); [by apply follows_refl|].
  destruct (existing_event _ _) eqn:He; [by apply follows_refl|]. cbn [snd state set_state].
  unfold existing_event in He. destruct (Hok e.(id)) as (L & HL & _).
  destruct (active _ !! _) eqn:Ha; [done|]. destruct (dead _ !! _) eqn:Hd; [done|].
  apply (follows_at _ _ _ e.(id) Absent (Live (fresh_entry e))); cbn in He.
  - done.
  - unfold life. by rewrite Ha, Hd, He.
  - life_maps. by rewrite Hd, He.
  - by constructor.
  - by intros e' [= <-].
  - intros j Hj. life_maps. done.
Qed.

Lemma ack_follows o now d :
  outbox_ok o.(state) -> follows (Ack now d) o.(state) (MemoryOutbox_ack o now d).2.(state).
Proof.
  intros Hok. unfold MemoryOutbox_ack, MemoryOutbox_lock.
  destruct (poisoned o); [by apply follows_refl|].
  destruct (MemoryOutbox_leased _ _ _) as [entry|] eqn:Hl; [|by apply follows_refl].
  apply leased_spec in Hl as [Ha Hh]. rewrite Ha. cbn [ok_or snd state set_state].
  destruct (ok_active _ _ _ Hok Ha) as [HL Hid]. pose proof (proj1 (life_Live _ _ _) HL) as (_ & Hd & Hc).
  apply (follows_at _ _ _ _ (Live entry) (Done entry.(entry_event)) Hok HL).
  - life_maps. rewrite Hid, lookup_insert_eq, Hd. done.
  - by constructor.
  - by intros e [= <-].
  - intros j Hj. life_maps. rewrite Hid, lookup_insert_ne by done. done.
Qed.

Lemma dead_letter_follows o now now' d why :
  outbox_ok o.(state) ->
  follows (DeadLetterDelivery now now' d why) o.(state)
    (MemoryOutbox_dead_letter o now now' d why).2.(state).
Proof.
  intros Hok. unfold MemoryOutbox_dead_letter, MemoryOutbox_lock.
  destruct (validate_failure_reason why); [|by apply follows_refl].
  destruct (poisoned o); [by apply follows_refl|].
  destruct (MemoryOutbox_leased _ _ _) as [entry|] eqn:Hl; [|by apply follows_refl].
  apply leased_spec in Hl as [Ha Hh]. rewrite Ha. cbn [ok_or snd state set_state].
  destruct (ok_active _ _ _ Hok Ha) as [HL Hid]. pose proof (proj1 (life_Live _ _ _) HL) as (_ & Hd & Hc).
  eapply (follows_at _ _ _ _ (Live entry) (Dead _) Hok HL).
  - life_maps. rewrite Hid, lookup_insert_eq, Hc. done.
  - by constructor.
  - by intros e [= <-].
  - intros j Hj. life_maps. rewrite Hid, lookup_insert_ne by done. done.
Qed.

(** Calls that rewrite one active entry, keeping its event's identifier. *)
Lemma update_follows c s i entry entry' :
  outbox_ok s -> s.(active) !! i = Some entry ->
  lifecycle i c (Live entry) (Live entry') -> entry'.(entry_event).(id) = entry.(entry_event).(id) ->
  follows c s (set_active s (<[i := entry']> s.(active))).
Proof.
  intros Hok Ha Hc Hid'. destruct (ok_active _ _ _ Hok Ha) as [HL Hid].
  pose proof (proj1 (life_Live _ _ _) HL) as (_ & Hd & Hcm).
  eapply (follows_at _ _ _ _ (Live entry) (Live entry') Hok HL).
  - life_maps. by rewrite Hd, Hcm.
  - done.
  - intros e [= <-]. congruence.
  - intros j Hj. life_maps. done.
Qed.

Lemma renew_follows o now now' d lease :
  outbox_ok o.(state) ->
  follows (Renew now now' d lease) o.(state) (MemoryOutbox_renew o now now' d lease).2.(state).
Proof.
  intros Hok. unfold MemoryOutbox_renew, MemoryOutbox_lock.
  destruct (lease =? 0); [by apply follows_refl|]. destruct (poisoned o); [by apply follows_refl|].
  destruct (MemoryOutbox_leased _ _ _) as [entry|] eqn:Hl; [|by apply follows_refl].
  apply leased_spec in Hl as [Ha Hh].
  destruct (SystemTime_add now' lease) as [until|] eqn:Hu; [|by apply follows_refl].
  apply (update_follows _ _ _ entry); [done|done| |done].
  by apply (life_renew _ now now' d lease).
Qed.

Lemma retry_follows o now now' d t why :
  outbox_ok o.(state) ->
  follows (Retry now now' d t why) o.(state) (MemoryOutbox_retry o now now' d t why).2.(state).
Proof.
  intros Hok. unfold MemoryOutbox_retry, MemoryOutbox_lock.
  destruct (validate_failure_reason why); [|by apply follows_refl].
  destruct (poisoned o); [by apply follows_refl|].
  destruct (MemoryOutbox_leased _ _ _) as [entry|] eqn:Hl; [|by apply follows_refl].
  apply leased_spec in Hl as [Ha Hh].
  apply (update_follows _ _ _ entry); [done|done| |done].
  by apply (life_retry _ now now' d t why).
Qed.

Lemma replay_follows o now i t :
  outbox_ok o.(state) ->
  follows (Replay now i t) o.(state) (MemoryOutbox_replay_dead_letter o now i t).2.(state).
Proof.
  intros Hok. unfold MemoryOutbox_replay_dead_letter, MemoryOutbox_lock.
  destruct (poisoned o); [by apply follows_refl|].
  destruct (dead _ !! i) as [letter|] eqn:Hd; [|by apply follows_refl].
  cbn [ok_or snd state set_state]. destruct (ok_dead _ _ _ Hok Hd) as [HL Hid].
  eapply (follows_at _ _ _ _ (Dead letter) (Live _) Hok HL).
  - life_maps. unfold life in HL. rewrite Hd in HL.
    destruct (active _ !! i), (completed _ !! i); done.
  - constructor.
  - by intros e [= <-].
  - intros j Hj. life_maps. done.
Qed.

Lemma acquire_cases o now new_v4 w limit lease :
  let ids := acquire_ids o.(state) limit now in
  match MemoryOutbox_acquire o now new_v4 w limit lease with
  | (Returned (Err _), o') => o' = o
  | (Returned (Ok ds), o') => exists m',
      o' = set_state o (set_active o.(state) m') /\ length ds = length ids
      /\ (forall i, i ∉ ids -> m' !! i = o.(state).(active) !! i)
      /\ (forall k i, ids !! k = Some i -> exists entry until,
            SystemTime_add now lease = Some until
            /\ o.(state).(active) !! i = Some entry
            /\ ds !! k = Some (delivery_of entry w (new_v4 k) until)
            /\ m' !! i = Some (lease_of entry w (new_v4 k) until))
  | (Panicked, o') => SystemTime_add now lease = None
      /\ exists i entry, i ∈ ids /\ o.(state).(active) !! i = Some entry
      /\ o' = {| state := set_active o.(state)
                   (<[i := with_attempt entry (saturating_add u32_max entry.(entry_attempt) 1)]>
                      o.(state).(active));
                 poisoned := true |}
  end.
Proof.
  cbn zeta. unfold MemoryOutbox_acquire, MemoryOutbox_lock.
  destruct (_ || _); [done|]. destruct (poisoned o); [done|].
  assert (Hin : forall i, i ∈ acquire_ids (state o) limit now -> is_Some ((state o).(active) !! i)).
  { intros i (entry & Ha & _)%acquire_ids_active. eauto. }
  destruct (SystemTime_add now lease) as [until|] eqn:Hu.
  - destruct (acquire_loop_spec w now lease until new_v4 Hu _ 0 _ (acquire_ids_nodup (state o) limit now) Hin)
      as (ds & m' & -> & Hlen & Hout & Hds).
    exists m'. split_and!; [done|done|done|]. intros k i Hk.
    destruct (Hds k i Hk) as (entry & ?). exists entry, until. done.
  - destruct (acquire_ids _ _ _) as [|i ids]; cbn [acquire_loop].
    + exists (state o).(active). split_and!; [done|done|done|]. intros k i Hk. by rewrite lookup_nil in Hk.
    + destruct (Hin i (list_elem_of_here _ _)) as [entry Ha]. rewrite Ha, Hu.
      split; [done|]. exists i, entry. split_and!; [apply list_elem_of_here|done|done].
Qed.

Lemma acquire_follows o now new_v4 w limit lease :
  outbox_ok o.(state) ->
  follows (Acquire now new_v4 w limit lease) o.(state)
    (MemoryOutbox_acquire o now new_v4 w limit lease).2.(state).
Proof.
  intros Hok. assert (Hc := acquire_cases o now new_v4 w limit lease). cbn zeta in Hc.
  destruct (MemoryOutbox_acquire _ _ _ _ _ _) as [[[ds|e]|] o']; cbn [snd].
  - destruct Hc as (m' & -> & _ & Hout & Hds). intros i. cbn [state set_state].
    destruct (decide (i ∈ acquire_ids (state o) limit now)) as [Hi|Hi].
    + destruct (acquire_ids_active _ _ _ _ Hi) as (en & Ha & Hav).
      apply list_elem_of_lookup_1 in Hi as [k Hk].
      destruct (Hds k i Hk) as (entry & until & Hu & Ha' & _ & Hm').
      assert (en = entry) as -> by congruence. clear Ha'.
      destruct (ok_active _ _ _ Hok Ha) as [HL Hid].
      pose proof (proj1 (life_Live _ _ _) HL) as (_ & Hd & Hcm).
      eexists (Live entry), (Live _). split_and!; [done| |by apply life_lease|].
      * life_maps. by rewrite Hm', Hd, Hcm.
      * by intros e [= <-].
    + destruct (Hok i) as (L & HL & He). exists L, L. split_and!; [done| |constructor|done].
      revert HL. life_maps. by rewrite Hout.
  - subst. by apply follows_refl.
  - destruct Hc as (Hu & i & entry & Hi & Ha & ->). cbn [state].
    apply acquire_ids_active in Hi as (en & Ha' & Hav).
    assert (en = entry) as -> by congruence. clear Ha'.
    apply (update_follows _ _ _ entry); [done|done| |done]. by constructor.
Qed.

Lemma step_follows o c : outbox_ok o.(state) -> follows c o.(state) (step o c).2.(state).
Proof.
  intros Hok. destruct c; cbn [step snd].
  - by apply append_follows.
  - pose proof (acquire_follows o now new_v4 worker0 limit lease Hok) as H.
    destruct (MemoryOutbox_acquire _ _ _ _ _ _) as [[[]|] o']; exact H.
  - by apply ack_follows.
  - by apply renew_follows.
  - by apply retry_follows.
  - by apply dead_letter_follows.
  - by apply replay_follows.
Qed.

Lemma run_app o cs cs' :
  run o (cs ++ cs') = ((run o cs).1 ++ (run (run o cs).2 cs').1, (run (run o cs).2 cs').2).
Proof.
  revert o. induction cs as [|c cs IH]; intros o; cbn.
  - by destruct (run o cs').
  - destruct (step o c) as [ds o1]. rewrite IH. destruct (run o1 cs) as [h o2]. cbn.
    destruct (run o2 cs'). cbn. by rewrite (assoc_L (++)).
Qed.

Lemma run_invariant (P : MemoryOutbox -> Prop) :
  (forall o c, P o -> P (step o c).2) -> forall cs o, P o -> P (run o cs).2.
Proof.
  intros Hstep cs. induction cs as [|c cs IH]; intros o Ho; cbn; [done|].
  specialize (Hstep o c Ho). destruct (step o c) as [ds o1]. specialize (IH o1 Hstep).
  by destruct (run o1 cs).
Qed.

Lemma empty_ok : outbox_ok MemoryOutbox_new.(state).
Proof. intros i. exists Absent. split; [|done]. unfold life. cbn. by rewrite !lookup_empty. Qed.

Lemma run_ok cs o : outbox_ok o.(state) -> outbox_ok (run o cs).2.(state).
Proof.
  apply (run_invariant (fun o => outbox_ok o.(state))). intros o' c Hok.
  eapply follows_ok, step_follows, Hok.
Qed.

(** ** Deliveries and the store *)

(** The identifiers an acquisition delivers are those it selected. *)
Lemma acquire_delivered_ids o now new_v4 w limit lease ds o' :
  outbox_ok o.(state) ->
  MemoryOutbox_acquire o now new_v4 w limit lease = (Returned (Ok ds), o') ->
  (fun d => d.(event).(id)) <$> ds = acquire_ids o.(state) limit now.
Proof.
  intros Hok Hacq. assert (Hc := acquire_cases o now new_v4 w limit lease). cbn zeta in Hc.
  rewrite Hacq in Hc. destruct Hc as (m' & _ & Hlen & _ & Hds).
  apply list_eq_same_length with (length ds); [done|by rewrite length_fmap|].
  intros k x y Hk Hx Hy. destruct (Hds k y Hy) as (entry & until & _ & Ha & Hd & _).
  rewrite list_lookup_fmap, Hd in Hx. cbn in Hx. injection Hx as <-.
  by apply (ok_active _ _ _ Hok Ha).
Qed.

(** A delivered event was active and acquirable, and is now leased under the delivery's token. *)
Lemma acquire_delivered o now new_v4 w limit lease ds o' d :
  outbox_ok o.(state) ->
  MemoryOutbox_acquire o now new_v4 w limit lease = (Returned (Ok ds), o') -> d ∈ ds ->
  exists entry k until, o.(state).(active) !! d.(event).(id) = Some entry
    /\ acquirable now entry = true /\ SystemTime_add now lease = Some until
    /\ d = delivery_of entry w (new_v4 k) until
    /\ o'.(state).(active) !! d.(event).(id) = Some (lease_of entry w d.(token) until).
Proof.
  intros Hok Hacq [k Hk]%list_elem_of_lookup_1.
  pose proof (acquire_delivered_ids _ _ _ _ _ _ _ _ Hok Hacq) as Hids.
  assert (Hc := acquire_cases o now new_v4 w limit lease). cbn zeta in Hc.
  rewrite Hacq in Hc. destruct Hc as (m' & -> & _ & _ & Hds).
  assert (Hki : acquire_ids (state o) limit now !! k = Some d.(event).(id)).
  { by rewrite <-Hids, list_lookup_fmap, Hk. }
  destruct (acquire_ids_active (state o) limit now d.(event).(id)) as (en & Ha & Hav).
  { by apply list_elem_of_lookup_2 in Hki. }
  destruct (Hds k _ Hki) as (entry & until & Hu & Ha' & Hd & Hm').
  assert (en = entry) as -> by congruence. rewrite Hk in Hd. injection Hd as Hd.
  exists entry, k, until. split_and!; [done..|]. cbn [state set_state active set_active].
  rewrite Hm'. by rewrite Hd.
Qed.

Lemma step_delivered o c ds o' d :
  outbox_ok o.(state) -> step o c = (ds, o') -> d ∈ ds ->
  exists now new_v4 w limit lease, c = Acquire now new_v4 w limit lease
    /\ MemoryOutbox_acquire o now new_v4 w limit lease = (Returned (Ok ds), o').
Proof.
  intros Hok Hs Hd.
  destruct c; cbn in Hs; try (injection Hs as <- _; by apply elem_of_nil in Hd).
  destruct (MemoryOutbox_acquire _ _ _ _ _ _) as [[[]|] o1] eqn:Ha; injection Hs as <- <-;
    try by apply elem_of_nil in Hd. eauto 10.
Qed.

(** ** Fencing *)

(** The newest delivery of an event in a history. *)
Definition newest (h : list OutboxDelivery) (i : Z) : option OutboxDelivery :=
  last (filter (fun d => d.(event).(id) = i) h).

(** The token an active entry carries is that of the newest delivery of its event. *)
Definition tokens_current (h : list OutboxDelivery) (s : State) : Prop :=
  forall i entry t, s.(active) !! i = Some entry -> entry.(entry_token) = Some t ->
  exists d, newest h i = Some d /\ d.(token) = t.

Lemma newest_app_nil h ds i : (forall d, d ∈ ds -> d.(event).(id) <> i) -> newest (h ++ ds) i = newest h i.
Proof.
  intros H. unfold newest. rewrite filter_app, (filter_none _ ds), app_nil_r; [done|].
  by apply Forall_forall.
Qed.

Lemma newest_app_in h ds i :
  (exists d, d ∈ ds /\ d.(event).(id) = i) -> newest (h ++ ds) i = newest ds i.
Proof.
  intros (d & Hd & Hi). unfold newest. rewrite filter_app.
  assert (Hf : d ∈ filter (fun d => d.(event).(id) = i) ds) by by apply list_elem_of_filter.
  destruct (filter _ ds) as [|x k] using rev_ind; [by apply elem_of_nil in Hf|].
  by rewrite (assoc_L (++)), !last_snoc.
Qed.

Lemma newest_elem h i d : newest h i = Some d -> d ∈ h /\ d.(event).(id) = i.
Proof.
  intros H%last_Some_elem_of. by apply list_elem_of_filter in H as [].
Qed.

Lemma lifecycle_token i c L entry' t :
  lifecycle i c L (Live entry') -> entry'.(entry_token) = Some t ->
  (exists entry, L = Live entry /\ entry.(entry_token) = Some t)
  \/ exists now new_v4 w limit lease until, c = Acquire now new_v4 w limit lease
     /\ SystemTime_add now lease = Some until.
Proof. inversion 1; subst; cbn; intros; simplify_eq; eauto 10. Qed.

Lemma step_tokens h o c :
  outbox_ok o.(state) -> tokens_current h o.(state) ->
  tokens_current (h ++ (step o c).1) (step o c).2.(state).
Proof.
  intros Hok Hcur. pose proof (step_follows o c Hok) as Hf.
  destruct (step o c) as [ds o'] eqn:Hs. cbn [fst snd] in *.
  intros i entry t Ha Ht. destruct (Hf i) as (L & L' & HL & HL' & Hlc & _).
  assert (L' = Live entry) as ->.
  { destruct (ok_active _ _ _ (follows_ok _ _ _ Hf) Ha) as [HLive _]. congruence. }
  destruct (decide (i ∈ (fun d => d.(event).(id)) <$> ds)) as [Hin|Hnot].
  - apply list_elem_of_fmap in Hin as (d & Hid & Hd). symmetry in Hid.
    destruct (step_delivered _ _ _ _ _ Hok Hs Hd) as (now & f & w & limit & lease & -> & Hacq).
    rewrite newest_app_in by eauto. exists d. split.
    + unfold newest. rewrite <-Hid, (filter_key_unique (fun d => d.(event).(id))); [done| |done].
      rewrite (acquire_delivered_ids _ _ _ _ _ _ _ _ Hok Hacq). apply acquire_ids_nodup.
    + destruct (acquire_delivered _ _ _ _ _ _ _ _ _ Hok Hacq Hd) as (en & k & u & _ & _ & _ & _ & Hm).
      rewrite Hid, Ha in Hm. injection Hm as ->. cbn in Ht. by injection Ht as ->.
  - rewrite newest_app_nil by (intros d Hd <-; apply Hnot, list_elem_of_fmap; eauto).
    destruct (lifecycle_token _ _ _ _ _ Hlc Ht) as [(entry0 & -> & Ht0)|Hacq].
    + apply life_Live in HL as (Ha0 & _). by apply (Hcur i entry0).
    + destruct Hacq as (now & f & w & limit & lease & until & -> & Hu). cbn in Hs.
      assert (Hc := acquire_cases o now f w limit lease). cbn zeta in Hc.
      destruct (MemoryOutbox_acquire _ _ _ _ _ _) as [[[ds'|]|] o1] eqn:Hacq; injection Hs as <- <-.
      * destruct Hc as (m' & -> & _ & Hout & _). cbn in Ha. rewrite Hout in Ha; [by apply (Hcur i entry)|].
        by rewrite <-(acquire_delivered_ids _ _ _ _ _ _ _ _ Hok Hacq).
      * subst. by apply (Hcur i entry).
      * destruct Hc as [Hu' _]. congruence.
Qed.

Lemma run_tokens cs : forall h o,
  outbox_ok o.(state) -> tokens_current h o.(state) ->
  tokens_current (h ++ (run o cs).1) (run o cs).2.(state).
Proof.
  induction cs as [|c cs IH]; intros h o Hok Hcur; cbn [run].
  - by rewrite app_nil_r.
  - pose proof (step_tokens h o c Hok Hcur) as Hs. pose proof (follows_ok _ _ _ (step_follows o c Hok)) as Hok1.
    destruct (step o c) as [ds o1]. cbn [fst snd] in *. specialize (IH _ _ Hok1 Hs).
    destruct (run o1 cs) as [h' o2]. cbn [fst snd] in *. by rewrite (assoc_L (++)).
Qed.

(** Without the lease every call of a holder fails and changes nothing. *)
Lemma not_leased_refused o d :
  (forall now entry, MemoryOutbox_leased o.(state) d now <> Ok entry) ->
  (forall now, exists e, MemoryOutbox_ack o now d = (Err e, o))
  /\ (forall now now' lease, exists e, MemoryOutbox_renew o now now' d lease = (Returned (Err e), o))
  /\ (forall now now' t why, exists e, MemoryOutbox_retry o now now' d t why = (Err e, o))
  /\ (forall now now' why, exists e, MemoryOutbox_dead_letter o now now' d why = (Err e, o)).
Proof.
  intros Hno.
  split_and!; intros; unfold MemoryOutbox_ack, MemoryOutbox_renew, MemoryOutbox_retry,
    MemoryOutbox_dead_letter, MemoryOutbox_lock;
    repeat first [case_match; simplify_eq | by eauto];
    exfalso; by eapply Hno.
Qed.

(** ** The theorems *)

(** The three maps of the store implement the life of each event.  Whatever calls were made
    before, with any clock readings and tokens, every call moves every identifier along at most one
    edge of [lifecycle]: appended once, leased only when available and unleased, and acknowledged,
    renewed, retried or dead-lettered only by the holder of a live lease; an identifier is never in
    two maps and always stored under its own event. *)
Theorem outbox_refines_lifecycle (cs : list Call) (c : Call) :
  let o := (run MemoryOutbox_new cs).2 in
  follows c o.(state) (step o c).2.(state).
Proof. apply step_follows, run_ok, empty_ok. Qed.

Lemma same_identity_spec e e' :
  OutboxEvent_same_identity e e' = true <->
  e.(id) = e'.(id) /\ e.(topic) = e'.(topic) /\ e.(key) = e'.(key) /\ e.(trace_id) = e'.(trace_id)
  /\ e.(payload) = e'.(payload) /\ e.(headers) = e'.(headers).
Proof.
  unfold OutboxEvent_same_identity.
  rewrite !andb_true_iff, Z.eqb_eq, !String.eqb_eq, !bool_decide_eq_true. tauto.
Qed.

(** The store has the event, possibly with another availability. *)
Definition has_event (s : State) (e : OutboxEvent) : Prop :=
  exists L e', life s e.(id) = Some L /\ life_event L = Some e' /\ OutboxEvent_same_identity e' e = true.

Lemma lifecycle_keeps_event i c L L' e :
  lifecycle i c L L' -> life_event L = Some e ->
  exists e', life_event L' = Some e' /\ OutboxEvent_same_identity e' e = true.
Proof.
  intros Hlc. destruct Hlc; cbn; intros He; try discriminate He; try injection He as <-;
    eexists; (split; [done|]); by apply same_identity_spec.
Qed.

Lemma step_keeps_event o c e :
  outbox_ok o.(state) -> has_event o.(state) e -> has_event (step o c).2.(state) e.
Proof.
  intros Hok (L & e1 & HL & He1 & Hs1).
  destruct (step_follows o c Hok e.(id)) as (L0 & L' & HL0 & HL' & Hlc & _).
  assert (L0 = L) as -> by congruence.
  destruct (lifecycle_keeps_event _ _ _ _ _ Hlc He1) as (e2 & He2 & Hs2).
  exists L', e2. split_and!; [done|done|]. rewrite !same_identity_spec in *. naive_solver congruence.
Qed.

Lemma append_has_event o e o' :
  outbox_ok o.(state) -> MemoryOutbox_append o e = (Ok (), o') -> has_event o'.(state) e.
Proof.
  intros Hok Happ. pose proof (append_follows o e Hok) as Hf. rewrite Happ in Hf. cbn in Hf.
  revert Happ. unfold MemoryOutbox_append, MemoryOutbox_lock.
  destruct (OutboxEvent_validate e); [|done]. destruct (poisoned o); [done|].
  destruct (existing_event _ _) as [e0|] eqn:Hex.
  - destruct (OutboxEvent_same_identity _ _) eqn:Hs; [|done]. intros [= <-].
    destruct (Hok e.(id)) as (L & HL & _). exists L, e0. split_and!; [done| |done].
    unfold life, existing_event in *.
    destruct (active _ !! _), (dead _ !! _), (completed _ !! _); by simplify_eq/=.
  - intros [= <-]. destruct (Hf e.(id)) as (L & L' & _ & HL' & _).
    assert (L' = Live (fresh_entry e)) as ->.
    { destruct (ok_active _ e.(id) (fresh_entry e) (follows_ok _ _ _ Hf)) as [H1 _]; [|congruence].
      cbn. by rewrite lookup_insert_eq. }
    exists (Live (fresh_entry e)), e. split_and!; [done|done|by apply same_identity_spec].
Qed.

Lemma step_done o c i e :
  outbox_ok o.(state) -> life o.(state) i = Some (Done e) ->
  life (step o c).2.(state) i = Some (Done e)
  /\ forall d, d ∈ (step o c).1 -> d.(event).(id) <> i.
Proof.
  intros Hok Hdone. split.
  - destruct (step_follows o c Hok i) as (L & L' & HL & HL' & Hlc & _).
    rewrite Hdone in HL. injection HL as <-. rewrite HL'. inversion Hlc. by subst.
  - intros d Hd Hi. destruct (step o c) as [ds o'] eqn:Hs. cbn in Hd.
    destruct (step_delivered _ _ _ _ _ Hok Hs Hd) as (now & f & w & limit & lease & -> & Hacq).
    destruct (acquire_delivered _ _ _ _ _ _ _ _ _ Hok Hacq Hd) as (en & _ & _ & Ha & _).
    rewrite Hi in Ha. apply (ok_active _ _ _ Hok) in Ha as [HLive _]. congruence.
Qed.

Lemma run_done cs i e : forall o,
  outbox_ok o.(state) -> life o.(state) i = Some (Done e) ->
  forall d, d ∈ (run o cs).1 -> d.(event).(id) <> i.
Proof.
  induction cs as [|c cs IH]; intros o Hok Hdone d; cbn [run]; [by intros ?%elem_of_nil|].
  destruct (step_done o c i e Hok Hdone) as [Hd1 Hno].
  pose proof (follows_ok _ _ _ (step_follows o c Hok)) as Hok1.
  destruct (step o c) as [ds o1]. cbn [fst snd] in *. specialize (IH o1 Hok1 Hd1 d).
  destruct (run o1 cs) as [h o2]. cbn [fst snd] in *. intros [Hd|Hd]%elem_of_app; auto.
Qed.

Lemma ack_done o now d o' :
  outbox_ok o.(state) -> MemoryOutbox_ack o now d = (Ok (), o') ->
  exists e, life o'.(state) d.(event).(id) = Some (Done e).
Proof.
  intros Hok Hack. pose proof (ack_follows o now d Hok d.(event).(id)) as (L & L' & HL & HL' & Hlc & _).
  rewrite Hack in HL'. cbn in HL'. revert Hack. unfold MemoryOutbox_ack, MemoryOutbox_lock.
  destruct (poisoned o); [done|]. destruct (MemoryOutbox_leased _ _ _) as [entry|] eqn:Hl; [|done].
  apply leased_spec in Hl as [Ha _]. rewrite Ha. cbn [ok_or]. intros [= <-].
  destruct L'; [| | |eauto]; unfold life in HL'; cbn in HL'; rewrite lookup_delete_eq in HL';
    destruct (ok_active _ _ _ Hok Ha) as [_ Hid]; rewrite Hid, lookup_insert_eq in HL';
    by destruct (dead _ !! _).
Qed.

(** C23: The outbox never loses an event and never redelivers a finished one.  Once [append] has
    accepted an event, then after any calls (clock readings, retries, replays, panics included) the
    store has it in exactly one of its maps with the same identifier, topic, key, trace, payload
    and headers; and once [ack] has succeeded for it, no later call delivers it again. *)
Theorem outbox_keeps_events (cs cs' : list Call) (e : OutboxEvent) (o1 : MemoryOutbox)
  (Happend : MemoryOutbox_append (run MemoryOutbox_new cs).2 e = (Ok (), o1)) :
  let o2 := (run o1 cs').2 in
  has_event o2.(state) e
  /\ forall now d o3, d.(event).(id) = e.(id) -> MemoryOutbox_ack o2 now d = (Ok (), o3) ->
     forall cs'' d', d' ∈ (run o3 cs'').1 -> d'.(event).(id) <> e.(id).
Proof.
  pose proof (run_ok cs _ empty_ok) as Hok. set (o := (run MemoryOutbox_new cs).2) in *.
  assert (Hok1 : outbox_ok o1.(state)).
  { pose proof (follows_ok _ _ _ (append_follows o e Hok)) as H. by rewrite Happend in H. }
  assert (Hhas : outbox_ok (run o1 cs').2.(state) /\ has_event (run o1 cs').2.(state) e).
  { apply (run_invariant (fun o => outbox_ok o.(state) /\ has_event o.(state) e)).
    - intros o' c [Ho He]. split; [exact (follows_ok _ _ _ (step_follows o' c Ho))|].
      by apply step_keeps_event.
    - split; [done|]. exact (append_has_event o e o1 Hok Happend). }
  destruct Hhas as [Hok2 Hhas]. split; [done|]. intros now d o3 Hd Hack cs'' d' Hin.
  destruct (ack_done _ _ _ _ Hok2 Hack) as [e' Hdone]. rewrite Hd in Hdone.
  apply (run_done cs'' _ e' o3); [|done|done].
  pose proof (follows_ok _ _ _ (ack_follows _ now d Hok2)) as H. by rewrite Hack in H.
Qed.

(** C10: Stale deliveries are fenced.  In any history whose tokens are distinct, once an event has
    been delivered again, the older delivery can no longer acknowledge, renew, retry or dead-letter
    it: each such call is refused and leaves the outbox unchanged, at any time and after any further
    calls. *)
Theorem outbox_fences_stale_deliveries (cs cs' : list Call) (d d' : OutboxDelivery)
  (Htokens : NoDup (token <$> (run MemoryOutbox_new (cs ++ cs')).1))
  (Hd : d ∈ (run MemoryOutbox_new cs).1)
  (Hd' : d' ∈ (run (run MemoryOutbox_new cs).2 cs').1)
  (Hsame : d'.(event).(id) = d.(event).(id)) :
  let o := (run MemoryOutbox_new (cs ++ cs')).2 in
  (forall now, exists e, MemoryOutbox_ack o now d = (Err e, o))
  /\ (forall now now' lease, exists e, MemoryOutbox_renew o now now' d lease = (Returned (Err e), o))
  /\ (forall now now' t why, exists e, MemoryOutbox_retry o now now' d t why = (Err e, o))
  /\ (forall now now' why, exists e, MemoryOutbox_dead_letter o now now' d why = (Err e, o)).
Proof.
  cbn zeta. apply not_leased_refused. intros now entry [Ha (Hw & Ht & _)]%leased_spec.
  assert (Hcur := run_tokens (cs ++ cs') [] MemoryOutbox_new empty_ok).
  assert (Hempty : tokens_current [] MemoryOutbox_new.(state)).
  { intros i en t Hi. cbn in Hi. by rewrite lookup_empty in Hi. }
  destruct (Hcur Hempty _ _ _ Ha Ht) as (d0 & Hnew & Ht0).
  rewrite app_nil_l, run_app in Hnew. cbn [fst] in Hnew. rewrite newest_app_in in Hnew by eauto.
  apply newest_elem in Hnew as [Hd0 _].
  rewrite run_app in Htokens. cbn [fst] in Htokens. rewrite fmap_app in Htokens.
  apply NoDup_app in Htokens as (_ & Hdisj & _).
  apply (Hdisj d.(token)); [by apply list_elem_of_fmap_2|].
  rewrite <-Ht0. by apply list_elem_of_fmap_2.
Qed.

(** ** Acquisition order *)

(** The delivery order: older events first, the smaller identifier among equally old ones. *)
Definition before (e e' : OutboxEvent) : Prop :=
  e.(created_at) < e'.(created_at) \/ e.(created_at) = e'.(created_at) /\ e.(id) < e'.(id).

Abbreviation events_of l := ((fun p => p.2.(entry_event)) <$> l).

Lemma candidate_id s now p : outbox_ok s -> p ∈ candidates s now -> p.2.(entry_event).(id) = p.1.
Proof.
  intros Hok Hp. destruct p as [i entry]. apply elem_of_candidates in Hp as [Ha _].
  by apply (ok_active _ _ _ Hok Ha).
Qed.

Lemma candidates_sorted s now : outbox_ok s -> StronglySorted before (events_of (candidates s now)).
Proof.
  intros Hok. assert (Hid := fun p => candidate_id s now p Hok).
  pose proof (candidates_nodup s now) as Hnd.
  assert (Hs : StronglySorted (fun p q => created_leb p q = true) (candidates s now)).
  { apply sort_by_sorted; [apply created_leb_total|apply created_leb_trans]. }
  induction Hs as [|p l Hs IH Hall]; [constructor|].
  cbn in Hnd. apply NoDup_cons in Hnd as [Hp Hnd]. cbn. constructor.
  - apply IH; [|done]. intros q Hq. apply Hid. by apply list_elem_of_further.
  - rewrite Forall_fmap, Forall_forall. intros q Hq. cbn. rewrite Forall_forall in Hall.
    specialize (Hall q Hq). unfold created_leb in Hall.
    rewrite orb_true_iff, andb_true_iff, Z.ltb_lt, Z.eqb_eq, Z.leb_le in Hall.
    assert (p.1 <> q.1) by (intros Heq; apply Hp; rewrite Heq; by apply list_elem_of_fmap_2).
    unfold before. rewrite !Hid by (apply list_elem_of_here || by apply list_elem_of_further). lia.
Qed.

(** The delivered events are the first candidates. *)
Lemma acquire_events o now new_v4 w limit lease ds o' :
  MemoryOutbox_acquire o now new_v4 w limit lease = (Returned (Ok ds), o') ->
  event <$> ds = events_of (take (Z.to_nat limit) (candidates o.(state) now)).
Proof.
  intros Hacq. assert (Hc := acquire_cases o now new_v4 w limit lease). cbn zeta in Hc.
  rewrite Hacq in Hc. destruct Hc as (m' & _ & Hlen & _ & Hds). rewrite acquire_ids_candidates in *.
  set (l := take _ _) in *.
  assert (Hl : forall p, p ∈ l -> o.(state).(active) !! p.1 = Some p.2).
  { intros [i entry] Hp. apply elem_of_take in Hp as (k & Hk & _). apply list_elem_of_lookup_2 in Hk.
    by apply elem_of_candidates in Hk as []. }
  rewrite length_fmap in Hlen.
  apply list_eq_same_length with (length ds); [by rewrite length_fmap|by rewrite length_fmap|].
  intros k x y Hk Hx Hy. rewrite list_lookup_fmap in Hy.
  destruct (l !! k) as [p|] eqn:Hp; [|done]. cbn in Hy. injection Hy as <-.
  destruct (Hds k p.1) as (entry & until & _ & Ha & Hd & _); [by rewrite list_lookup_fmap, Hp|].
  rewrite (Hl p) in Ha by (by apply list_elem_of_lookup_2 in Hp). injection Ha as <-.
  rewrite list_lookup_fmap, Hd in Hx. cbn in Hx. by injection Hx as <-.
Qed.

(** An acquirable event that is not delivered comes after [limit] delivered ones. *)
Lemma acquire_undelivered o now new_v4 w limit lease ds o' i entry :
  outbox_ok o.(state) -> 0 <= limit ->
  MemoryOutbox_acquire o now new_v4 w limit lease = (Returned (Ok ds), o') ->
  o.(state).(active) !! i = Some entry -> acquirable now entry = true ->
  i ∉ (fun d => d.(event).(id)) <$> ds ->
  len ds = limit /\ forall d, d ∈ ds -> before d.(event) entry.(entry_event).
Proof.
  intros Hok Hlimit Hacq Ha Hav Hi.
  pose proof (acquire_events _ _ _ _ _ _ _ _ Hacq) as Hev.
  rewrite (acquire_delivered_ids _ _ _ _ _ _ _ _ Hok Hacq), acquire_ids_candidates in Hi.
  assert (Hin : (i, entry) ∈ drop (Z.to_nat limit) (candidates o.(state) now)).
  { assert (Hp : (i, entry) ∈ candidates o.(state) now) by by apply elem_of_candidates.
    rewrite <-(take_drop (Z.to_nat limit) (candidates _ _)) in Hp.
    apply elem_of_app in Hp as [Hp|]; [|done]. destruct Hi. apply list_elem_of_fmap. by exists (i, entry). }
  split.
  - assert (Hlen : length ds = length (take (Z.to_nat limit) (candidates o.(state) now))).
    { by rewrite <-(length_fmap event), Hev, length_fmap. }
    assert (Hlt : (Z.to_nat limit < length (candidates o.(state) now))%nat).
    { apply list_elem_of_lookup_1 in Hin as [k Hk]. apply lookup_lt_Some in Hk.
      rewrite length_drop in Hk. lia. }
    rewrite length_take in Hlen. unfold len. lia.
  - intros d Hd. pose proof (candidates_sorted o.(state) now Hok) as Hs.
    rewrite <-(take_drop (Z.to_nat limit) (candidates _ _)), fmap_app in Hs.
    eapply StronglySorted_app_1_elem_of; [exact Hs| |].
    + rewrite <-Hev. by apply list_elem_of_fmap_2.
    + apply list_elem_of_fmap. by exists (i, entry).
Qed.

Lemma acquire_returns o now new_v4 w limit lease until :
  trim_is_empty w = false -> string_len w <= 128 -> 0 < limit <= 4096 -> lease <> 0 ->
  SystemTime_add now lease = Some until -> o.(poisoned) = false ->
  exists ds o', MemoryOutbox_acquire o now new_v4 w limit lease = (Returned (Ok ds), o').
Proof.
  intros Hw Hl Hlim Hle Hu Hp. assert (Hc := acquire_cases o now new_v4 w limit lease). cbn zeta in Hc.
  unfold MemoryOutbox_acquire, MemoryOutbox_lock in *. rewrite Hp, Hw in *.
  destruct (_ || _) eqn:Hbad.
  { rewrite !orb_true_iff, !Z.ltb_lt, !Z.eqb_eq in Hbad. naive_solver lia. }
  destruct (acquire_loop _ _ _ _ _ _ _) as [[ds|] m]; [eauto|]. destruct Hc as [Hc _]. congruence.
Qed.

(** Acquisition is fair and exclusive.  On any reachable outbox a valid [acquire] returns at
    most [limit] deliveries, oldest event first; each is of an event that was available and not under
    a live lease, which it now holds until [now + lease] with the attempt counted; an acquirable
    event left out comes after [limit] older ones; every other event is untouched. *)
Theorem outbox_acquire_earliest (cs : list Call) (now : Z) (new_v4 : nat -> Z) (w : string)
  (limit lease : Z)
  (Hworker : trim_is_empty w = false /\ string_len w <= 128) (Hlimit : 0 < limit <= 4096)
  (Hlease : 0 < lease) (Htime : now + lease <= SYSTEM_TIME_MAX)
  (Hlive : (run MemoryOutbox_new cs).2.(poisoned) = false) :
  let o := (run MemoryOutbox_new cs).2 in
  exists ds o', MemoryOutbox_acquire o now new_v4 w limit lease = (Returned (Ok ds), o')
    /\ len ds <= limit /\ StronglySorted before (event <$> ds)
    /\ (forall d, d ∈ ds -> exists entry, o.(state).(active) !! d.(event).(id) = Some entry
          /\ acquirable now entry = true
          /\ d = delivery_of entry w d.(token) (now + lease)
          /\ o'.(state).(active) !! d.(event).(id) = Some (lease_of entry w d.(token) (now + lease)))
    /\ (forall i entry, o.(state).(active) !! i = Some entry -> acquirable now entry = true ->
          i ∉ (fun d => d.(event).(id)) <$> ds ->
          len ds = limit /\ forall d, d ∈ ds -> before d.(event) entry.(entry_event))
    /\ (forall i, i ∉ (fun d => d.(event).(id)) <$> ds -> life o'.(state) i = life o.(state) i).
Proof.
  intros o. assert (Hok : outbox_ok o.(state)) by apply run_ok, empty_ok.
  assert (Hu : SystemTime_add now lease = Some (now + lease)).
  { apply checked_add_Some. split; [done|lia]. }
  destruct (acquire_returns o now new_v4 w limit lease _ (proj1 Hworker) (proj2 Hworker) Hlimit ltac:(lia) Hu Hlive)
    as (ds & o' & Hacq).
  assert (Hev := acquire_events _ _ _ _ _ _ _ _ Hacq). exists ds, o'. split_and!; [done| | | | |].
  - assert (Hlen : length ds = length (take (Z.to_nat limit) (candidates o.(state) now))).
    { by rewrite <-(length_fmap event), Hev, length_fmap. }
    rewrite length_take in Hlen. unfold len. lia.
  - rewrite Hev. eapply StronglySorted_app_1_l with (l2 := events_of (drop _ _)).
    rewrite <-fmap_app, take_drop. by apply candidates_sorted.
  - intros d Hd.
    destruct (acquire_delivered _ _ _ _ _ _ _ _ _ Hok Hacq Hd) as (entry & k & u & Ha & Hav & Hu' & Heq & Hm).
    assert (u = now + lease) as -> by congruence. exists entry. split_and!; [done|done| |done].
    by rewrite Heq.
  - intros i entry Ha Hav Hi. eapply acquire_undelivered; [done|lia|done..].
  - intros i Hi. assert (Hc := acquire_cases o now new_v4 w limit lease). cbn zeta in Hc.
    rewrite Hacq in Hc. destruct Hc as (m' & -> & _ & Hout & _).
    rewrite (acquire_delivered_ids _ _ _ _ _ _ _ _ Hok Hacq) in Hi. unfold life. cbn. by rewrite Hout.
Qed.

(** A lease that ends after the latest representable time panics with the mutex held: every later
    call fails. *)
Lemma outbox_lease_overflow_poisons o now new_v4 w limit lease :
  trim_is_empty w = false -> string_len w <= 128 -> 0 < limit <= 4096 ->
  SYSTEM_TIME_MAX < now + lease -> 0 < lease -> o.(poisoned) = false ->
  acquire_ids o.(state) limit now <> [] ->
  exists o', MemoryOutbox_acquire o now new_v4 w limit lease = (Panicked, o')
    /\ MemoryOutbox_lock o' = Err (Internal "outbox lock poisoned").
Proof.
  intros Hw Hl Hlim Hover Hle Hp Hids. unfold MemoryOutbox_acquire, MemoryOutbox_lock.
  rewrite Hp, Hw. destruct (_ || _) eqn:Hbad.
  { rewrite !orb_true_iff, !Z.ltb_lt, !Z.eqb_eq in Hbad. naive_solver lia. }
  assert (Hu : SystemTime_add now lease = None) by by apply checked_add_None.
  assert (Hin := acquire_ids_active o.(state) limit now).
  destruct (acquire_ids _ _ _) as [|i ids]; [done|].
  destruct (Hin i (list_elem_of_here _ _)) as (entry & Ha & _).
  cbn [acquire_loop]. rewrite Ha, Hu. by eexists.
Qed.

(** ** Witnesses: one event delivered to [one], expired, delivered again to [two] *)

Definition mail : OutboxEvent :=
  {| id := 1; topic := "mail"; key := ""; trace_id := ""; payload := [104; 105]; headers := ∅;
     created_at := 100; available_at := 100 |}.

Definition first_lease : list Call := [Append mail; Acquire 100 (fun _ => 7) "one" 1 5].
Definition second_lease : list Call := [Acquire 108 (fun _ => 9) "two" 1 1000].
Definition mail_to (w : string) (n t until : Z) : OutboxDelivery :=
  {| event := mail; attempt := n; worker := w; token := t; lease_until := until |}.

Lemma outbox_keeps_events_witness :
  has_event (run (MemoryOutbox_append MemoryOutbox_new mail).2 second_lease).2.(state) mail.
Proof.
  apply (outbox_keeps_events [] second_lease mail (MemoryOutbox_append MemoryOutbox_new mail).2).
  vm_compute. reflexivity.
Defined.

Lemma outbox_fences_stale_deliveries_witness :
  let o := (run MemoryOutbox_new (first_lease ++ second_lease)).2 in
  exists e, MemoryOutbox_ack o 109 (mail_to "one" 1 7 105) = (Err e, o).
Proof.
  refine (proj1 (outbox_fences_stale_deliveries first_lease second_lease
    (mail_to "one" 1 7 105) (mail_to "two" 2 9 1108) _ _ _ _) 109).
  - apply (bool_decide_unpack _). vm_compute. exact I.
  - replace (run MemoryOutbox_new first_lease).1 with [mail_to "one" 1 7 105] by (vm_compute; reflexivity).
    apply list_elem_of_here.
  - replace (run (run MemoryOutbox_new first_lease).2 second_lease).1
      with [mail_to "two" 2 9 1108] by (vm_compute; reflexivity).
    apply list_elem_of_here.
  - reflexivity.
Defined.

Lemma outbox_acquire_earliest_witness :
  exists ds o', MemoryOutbox_acquire (run MemoryOutbox_new first_lease).2 108 (fun _ => 9) "two" 1 1000
    = (Returned (Ok ds), o') /\ len ds <= 1.
Proof.
  destruct (outbox_acquire_earliest first_lease 108 (fun _ => 9) "two" 1 1000)
    as (ds & o' & Hacq & Hlen & _).
  - split; [reflexivity|vm_compute; discriminate].
  - lia.
  - lia.
  - vm_compute. discriminate.
  - vm_compute. reflexivity.
  - exists ds, o'. split; [exact Hacq|exact Hlen].
Defined.
