(* ===== verification/CredentialStores.v ===== *)
(** * Credential stores of the core

    - account versions: [crates/elura-core/src/account_version.rs], [account_version/memory.rs];
    - replay protection: [crates/elura-core/src/replay_protection.rs];
    - one-time passwords: [crates/elura-core/src/otp.rs], [otp/memory.rs].

    The in-memory implementations, one definition per lock section, composed in the order of the
    code.  Clock readings are arguments.  The account-version and password stores ignore poisoning;
    nothing panics while the replay-protection mutex is held. *)

From S2P Require Import Prelude CoreError.

(** ** Account versions *)

Record AccountVersionKey : Type := {
  region_id : Z;
  realm_id : Z;
  user_id : Z;
}.

#[export] Instance AccountVersionKey_eq_dec : EqDecision AccountVersionKey.
Proof. solve_decision. Defined.

#[export] Instance AccountVersionKey_countable : Countable AccountVersionKey.
Proof.
  refine (inj_countable' (fun k => (k.(region_id), k.(realm_id), k.(user_id)))
    (fun '(a, b, c) => {| region_id := a; realm_id := b; user_id := c |}) _).
  by intros [].
Defined.

Definition AccountVersionKey_validate (self : AccountVersionKey) : Result unit :=
  if (self.(region_id) =? 0) || (self.(realm_id) =? 0) || (self.(user_id) <=? 0) then
    Err (InvalidConfig "account version key requires region, realm, and user")
  else Ok ().

Definition AccountVersionKey_new (region realm user : Z) : Result AccountVersionKey :=
  let key := {| region_id := region; realm_id := realm; user_id := user |} in
  let? _ := AccountVersionKey_validate key in
  Ok key.

Record MemoryAccountVersionStore : Type := { versions : gmap AccountVersionKey Z }.

Definition validate_write (key : AccountVersionKey) (version : Z) : Result unit :=
  let? _ := AccountVersionKey_validate key in
  if version =? 0 then Err (InvalidConfig "account version must be positive") else Ok ().

Definition MemoryAccountVersionStore_current (self : MemoryAccountVersionStore)
    (key : AccountVersionKey) : Result (option Z) :=
  let? _ := AccountVersionKey_validate key in
  Ok (self.(versions) !! key).

Definition MemoryAccountVersionStore_set (self : MemoryAccountVersionStore)
    (key : AccountVersionKey) (version : Z) : Result unit * MemoryAccountVersionStore :=
  let? _ := validate_write key version else self in
  (Ok (), {| versions := <[key := version]> self.(versions) |}).

Definition MemoryAccountVersionStore_increment (self : MemoryAccountVersionStore)
    (key : AccountVersionKey) : Result Z * MemoryAccountVersionStore :=
  let? _ := AccountVersionKey_validate key else self in
  let? next := ok_or (checked_add u64_max (default 0 (self.(versions) !! key)) 1)
                 (Internal "account version overflow") else self in
  (Ok next, {| versions := <[key := next]> self.(versions) |}).

(** ** Replay protection *)

Record MemoryReplayProtectionStore : Type := { used : gmap string Z }.

(** [now] is [None] when the clock is before the epoch. *)
Definition MemoryReplayProtectionStore_reserve (self : MemoryReplayProtectionStore)
    (now : option Z) (key : string) (expires_at : Z) : Result bool * MemoryReplayProtectionStore :=
  let? now := ok_or now Unavailable else self in
  if expires_at <=? now then (Ok false, self)
  else
    let used := filter (fun p => now < p.2) self.(used) in
    if bool_decide (is_Some (used !! key)) then (Ok false, {| used := used |})
    else (Ok true, {| used := <[key := expires_at]> used |}).

(** ** One-time passwords *)

Record OtpRecord : Type := {
  subject_key : string;
  purpose : string;
  code_digest : list Z;
}.

Definition OtpRecord_validate (self : OtpRecord) : Result unit :=
  if String.eqb self.(subject_key) "" || (256 <? string_len self.(subject_key))
     || String.eqb self.(purpose) "" || (64 <? string_len self.(purpose))
     || (len self.(code_digest) <? 16) || (128 <? len self.(code_digest)) then
    Err (InvalidConfig "invalid OTP record")
  else Ok ().

Inductive OtpCreateResult : Type := Stored | Cooldown.
Inductive OtpVerifyResult : Type := Valid | Invalid | Missing.

Record Entry : Type := {
  digest : list Z;
  expires_at : Z;
  attempts : Z;
}.

Record MemoryOtpStore : Type := {
  entries : gmap (string * string) Entry;
  cooldowns : gmap (string * string) Z;
}.

Definition otp_key (r : OtpRecord) : string * string := (r.(subject_key), r.(purpose)).

(** The section of [create] that holds the cooldown lock; [None] where [now + cooldown] panics. *)
Definition create_cooldown (self : MemoryOtpStore) (now : Z) (key : string * string) (cooldown : Z) :
    option OtpCreateResult * MemoryOtpStore :=
  let live := filter (fun p => now < p.2) self.(cooldowns) in
  let self := {| entries := self.(entries); cooldowns := live |} in
  if bool_decide (is_Some (live !! key)) then (Some Cooldown, self)
  else
    match SystemTime_add now cooldown with
    | None => (None, self)
    | Some t => (Some Stored, {| entries := self.(entries); cooldowns := <[key := t]> live |})
    end.

(** The section that holds the entry lock; [None] where [now + ttl] panics. *)
Definition create_entry (self : MemoryOtpStore) (now : Z) (key : string * string)
    (code_digest : list Z) (ttl : Z) : option unit * MemoryOtpStore :=
  match SystemTime_add now ttl with
  | None => (None, self)
  | Some t =>
      (Some (),
       {| entries := <[key := {| digest := code_digest; expires_at := t; attempts := 0 |}]>
                       self.(entries);
          cooldowns := self.(cooldowns) |})
  end.

Definition MemoryOtpStore_create (self : MemoryOtpStore) (now : Z) (record : OtpRecord)
    (ttl cooldown : Z) : Outcome OtpCreateResult * MemoryOtpStore :=
  match OtpRecord_validate record with
  | Err e => (Returned (Err e), self)
  | Ok _ =>
      match create_cooldown self now (otp_key record) cooldown with
      | (None, self) => (Panicked, self)
      | (Some Cooldown, self) => (Returned (Ok Cooldown), self)
      | (Some Stored, self) =>
          match create_entry self now (otp_key record) record.(code_digest) ttl with
          | (None, self) => (Panicked, self)
          | (Some _, self) => (Returned (Ok Stored), self)
          end
      end
  end.

Definition set_entries (self : MemoryOtpStore) (m : gmap (string * string) Entry) : MemoryOtpStore :=
  {| entries := m; cooldowns := self.(cooldowns) |}.

(** [ct_eq] compares the digests; [now] is read under the lock.  [attempts += 1] cannot overflow
    ([otp_attempts_bounded]). *)
Definition MemoryOtpStore_verify_and_consume (self : MemoryOtpStore) (now : Z) (record : OtpRecord)
    (max_attempts : Z) : Result OtpVerifyResult * MemoryOtpStore :=
  let? _ := OtpRecord_validate record else self in
  let key := otp_key record in
  match self.(entries) !! key with
  | None => (Ok Missing, self)
  | Some entry =>
      if entry.(expires_at) <=? now then (Ok Missing, set_entries self (delete key self.(entries)))
      else if bool_decide (entry.(digest) = record.(code_digest)) then
        (Ok Valid, set_entries self (delete key self.(entries)))
      else
        let attempts := entry.(attempts) + 1 in
        (Ok Invalid,
         set_entries self
           (if max_attempts <=? attempts then delete key self.(entries)
            else <[key := {| digest := entry.(digest); expires_at := entry.(expires_at);
                             attempts := attempts |}]> self.(entries)))
  end.

(** [delete]: first the entry, then the cooldown. *)
Definition delete_entry (self : MemoryOtpStore) (key : string * string) : MemoryOtpStore :=
  set_entries self (delete key self.(entries)).
Definition delete_cooldown (self : MemoryOtpStore) (key : string * string) : MemoryOtpStore :=
  {| entries := self.(entries); cooldowns := delete key self.(cooldowns) |}.

Definition MemoryOtpStore_delete (self : MemoryOtpStore) (subject_key purpose : string) :
    Result unit * MemoryOtpStore :=
  (Ok (), delete_cooldown (delete_entry self (subject_key, purpose)) (subject_key, purpose)).

(** ** Versions only grow *)

(** [increment] returns one more than the version stored (zero when there is none) and stores it; at
    the largest version it fails and changes nothing.  Other keys are untouched. *)
Lemma increment_spec s key :
  AccountVersionKey_validate key = Ok () ->
  let old := default 0 (s.(versions) !! key) in
  match MemoryAccountVersionStore_increment s key with
  | (Ok v, s') => v = old + 1 /\ v <= u64_max /\ MemoryAccountVersionStore_current s' key = Ok (Some v)
      /\ forall k, k <> key -> s'.(versions) !! k = s.(versions) !! k
  | (Err e, s') => e = Internal "account version overflow" /\ s' = s /\ u64_max < old + 1
  end.
Proof.
  intros Hkey. cbn zeta. unfold MemoryAccountVersionStore_increment. rewrite Hkey.
  destruct (checked_add _ _ _) as [v|] eqn:Hv; cbn [ok_or].
  - apply checked_add_Some in Hv as [-> Hmax]. split_and!; [done|done| |].
    + unfold MemoryAccountVersionStore_current. rewrite Hkey. cbn [versions]. by rewrite lookup_insert_eq.
    + intros k Hk. cbn [versions]. by rewrite lookup_insert_ne.
  - by apply checked_add_None in Hv.
Qed.

(** ** A key is reserved once until it expires *)

(** A reservation attempt: clock reading, key and expiration. *)
Record Reservation : Type := { at_time : Z; on_key : string; until : Z }.

(** The outcomes of a sequence of attempts on [key]. *)
Fixpoint reservations (s : MemoryReplayProtectionStore) (key : string) (l : list Reservation) :
    list (Result bool) :=
  match l with
  | [] => []
  | r :: l =>
      let '(out, s') := MemoryReplayProtectionStore_reserve s (Some r.(at_time)) r.(on_key) r.(until) in
      (if String.eqb r.(on_key) key then [out] else []) ++ reservations s' key l
  end.

Lemma reserve_keeps s now k e key exp :
  s.(used) !! key = Some exp -> now < exp ->
  let '(out, s') := MemoryReplayProtectionStore_reserve s (Some now) k e in
  s'.(used) !! key = Some exp /\ (k = key -> out = Ok false).
Proof.
  intros Hs Hnow. unfold MemoryReplayProtectionStore_reserve. cbn [ok_or].
  destruct (e <=? now); [done|].
  assert (Hf : filter (fun p => now < p.2) (used s) !! key = Some exp) by by apply map_lookup_filter_Some.
  case_bool_decide as Hin; cbn [used]; [done|].
  assert (Hk : k <> key) by (intros ->; apply Hin; eauto).
  rewrite lookup_insert_ne by done. done.
Qed.

Lemma reservations_refused l : forall s key exp,
  s.(used) !! key = Some exp -> Forall (fun r => r.(at_time) < exp) l ->
  Forall (fun out => out = Ok false) (reservations s key l).
Proof.
  induction l as [|r l IH]; intros s key exp Hs Hl; cbn [reservations]; [by apply Forall_nil|].
  apply Forall_cons in Hl as [Hr Hl].
  pose proof (reserve_keeps s r.(at_time) r.(on_key) r.(until) key exp Hs Hr) as Hk.
  destruct (MemoryReplayProtectionStore_reserve _ _ _ _) as [out s']. destruct Hk as [Hs' Hout].
  apply Forall_app. split; [|by eapply IH].
  destruct (String.eqb_spec r.(on_key) key); [|by apply Forall_nil].
  apply Forall_singleton. auto.
Qed.

(** An unexpired reservation of the key is stored. *)
Definition reserved (s : MemoryReplayProtectionStore) (key : string) (now : Z) : bool :=
  match s.(used) !! key with
  | Some e => now <? e
  | None => false
  end.

Lemma reserve_grants s now key exp :
  (MemoryReplayProtectionStore_reserve s (Some now) key exp).1
  = Ok ((now <? exp) && negb (reserved s key now)).
Proof.
  unfold MemoryReplayProtectionStore_reserve, reserved. cbn [ok_or].
  destruct (Z.leb_spec exp now); destruct (Z.ltb_spec now exp); try lia; [done|].
  case_bool_decide as Hin; cbn [fst andb].
  - destruct Hin as [e He]. apply map_lookup_filter_Some in He as [He Hlt]. rewrite He. cbn in Hlt.
    by destruct (Z.ltb_spec now e); [|lia].
  - destruct (used s !! key) as [e|] eqn:He; [|done]. destruct (Z.ltb_spec now e); [|done].
    exfalso. apply Hin. exists e. by apply map_lookup_filter_Some.
Qed.

(** A replay-protected key is granted once.  [reserve] grants a key exactly when its expiration
    is in the future and no unexpired reservation of it is stored; and once it is granted, every
    attempt on that key made before the expiration is refused, whatever other attempts are made in
    between. *)
Theorem replay_key_granted_once (s s' : MemoryReplayProtectionStore) (now : Z) (key : string)
  (exp : Z) (out : Result bool) (later : list Reservation)
  (Hreserve : MemoryReplayProtectionStore_reserve s (Some now) key exp = (out, s'))
  (Hlater : Forall (fun r => r.(at_time) < exp) later) :
  out = Ok ((now <? exp) && negb (reserved s key now))
  /\ (out = Ok true -> Forall (fun out => out = Ok false) (reservations s' key later)).
Proof.
  pose proof (reserve_grants s now key exp) as Hout. rewrite Hreserve in Hout. cbn in Hout.
  split; [done|]. intros Htrue. apply (reservations_refused later s' key exp); [|done].
  revert Hreserve. unfold MemoryReplayProtectionStore_reserve. cbn [ok_or]. rewrite Htrue.
  destruct (exp <=? now); [done|]. case_bool_decide; [done|]. intros [= <-]. cbn.
  by rewrite lookup_insert_eq.
Qed.

Definition second_attempt : list Reservation := [{| at_time := 20; on_key := "ticket"; until := 90 |}].

Lemma replay_key_granted_once_witness :
  let s0 := {| used := ∅ |} in
  let s := (MemoryReplayProtectionStore_reserve s0 (Some 10) "ticket" 70).2 in
  Ok true = Ok (E:=Error) ((10 <? 70) && negb (reserved s0 "ticket" 10))
  /\ (@Ok Error _ true = Ok true ->
      Forall (fun out => out = Ok false) (reservations s "ticket" second_attempt)).
Proof.
  intros s0 s. apply (replay_key_granted_once s0 s 10 "ticket" 70 (Ok true) second_attempt).
  - vm_compute. reflexivity.
  - apply Forall_singleton. reflexivity.
Defined.

(** ** A password is checked a bounded number of times and accepted once *)

Inductive OtpCall : Type :=
| Create (now : Z) (record : OtpRecord) (ttl cooldown : Z)
| Verify (now : Z) (record : OtpRecord) (max_attempts : Z)
| Delete (subject_key purpose : string).

Definition otp_step (s : MemoryOtpStore) (c : OtpCall) : option (Result OtpVerifyResult) * MemoryOtpStore :=
  match c with
  | Create now record ttl cooldown => (None, (MemoryOtpStore_create s now record ttl cooldown).2)
  | Verify now record m =>
      let '(out, s') := MemoryOtpStore_verify_and_consume s now record m in (Some out, s')
  | Delete subject_key purpose => (None, (MemoryOtpStore_delete s subject_key purpose).2)
  end.

Definition call_key (c : OtpCall) : string * string :=
  match c with
  | Create _ record _ _ | Verify _ record _ => otp_key record
  | Delete subject_key purpose => (subject_key, purpose)
  end.

(** The verifications of [key] with their time, the digest given and the answer, malformed requests
    apart. *)
Fixpoint answers (s : MemoryOtpStore) (key : string * string) (cs : list OtpCall) :
    list ((Z * list Z) * OtpVerifyResult) :=
  match cs with
  | [] => []
  | c :: cs =>
      let '(out, s') := otp_step s c in
      match c, out with
      | Verify now record _, Some (Ok a) =>
          if decide (call_key c = key) then ((now, record.(code_digest)), a) :: answers s' key cs
          else answers s' key cs
      | _, _ => answers s' key cs
      end
  end.

(** The calls leave the challenge of [key] alone, except for verifications with limit [m]. *)
Definition only_verifies (key : string * string) (m : Z) (c : OtpCall) : Prop :=
  match c with
  | Verify _ _ limit => limit = m
  | _ => call_key c <> key
  end.

(** Calls on another key keep the challenge. *)
Lemma otp_step_other s c key : call_key c <> key -> (otp_step s c).2.(entries) !! key = s.(entries) !! key.
Proof.
  intros Hk. destruct c as [now r ttl cd|now r m|sk pu]; cbn in *.
  - unfold MemoryOtpStore_create, create_cooldown, create_entry.
    destruct (OtpRecord_validate r); [|done]. case_bool_decide; [done|].
    destruct (SystemTime_add now cd); [|done]. destruct (SystemTime_add now ttl); [|done].
    cbn. by rewrite lookup_insert_ne.
  - unfold MemoryOtpStore_verify_and_consume. destruct (OtpRecord_validate r); [|done].
    destruct (entries s !! otp_key r) as [en|]; [|done].
    destruct (_ <=? now); cbn; [by rewrite lookup_delete_ne|].
    case_bool_decide; cbn; [by rewrite lookup_delete_ne|].
    destruct (_ <=? _); [by rewrite lookup_delete_ne|by rewrite lookup_insert_ne].
  - by rewrite lookup_delete_ne.
Qed.

(** One verification of the challenge. *)
Lemma verify_spec s now r m :
  match MemoryOtpStore_verify_and_consume s now r m with
  | (Err _, s') => s' = s
  | (Ok a, s') =>
      match s.(entries) !! otp_key r with
      | None => a = Missing /\ s' = s
      | Some en =>
          match a with
          | Missing => en.(expires_at) <= now /\ s'.(entries) !! otp_key r = None
          | Valid => now < en.(expires_at) /\ r.(code_digest) = en.(digest)
              /\ s'.(entries) !! otp_key r = None
          | Invalid => now < en.(expires_at) /\ r.(code_digest) <> en.(digest)
              /\ s'.(entries) !! otp_key r
                 = if m <=? en.(attempts) + 1 then None
                   else Some {| digest := en.(digest); expires_at := en.(expires_at);
                                attempts := en.(attempts) + 1 |}
          end
      end
  end.
Proof.
  unfold MemoryOtpStore_verify_and_consume. destruct (OtpRecord_validate r); [|done].
  destruct (entries s !! otp_key r) as [en|]; [|done].
  destruct (Z.leb_spec (expires_at en) now); [by cbn; rewrite lookup_delete_eq|].
  case_bool_decide; [by cbn; rewrite lookup_delete_eq|]. cbn. split_and!; [done|done|].
  destruct (_ <=? _); [by rewrite lookup_delete_eq|by rewrite lookup_insert_eq].
Qed.

(** A call leaves the challenge as it was, or is a verification of it. *)
Lemma answers_cons s key m c cs :
  only_verifies key m c ->
  (answers s key (c :: cs) = answers (otp_step s c).2 key cs
   /\ (otp_step s c).2.(entries) !! key = s.(entries) !! key)
  \/ exists now r a s', otp_key r = key
     /\ MemoryOtpStore_verify_and_consume s now r m = (Ok a, s')
     /\ answers s key (c :: cs) = ((now, r.(code_digest)), a) :: answers s' key cs.
Proof.
  intros Hc. destruct (decide (call_key c = key)) as [Hk|Hk].
  - destruct c as [| now r limit|]; cbn [only_verifies] in Hc; [done| |done]. subst limit.
    pose proof (verify_spec s now r m) as Hv. cbn [answers otp_step] in *.
    destruct (MemoryOtpStore_verify_and_consume s now r m) as [[a|e] s'] eqn:Hver.
    + right. exists now, r, a, s'. by rewrite decide_True.
    + left. subst s'. done.
  - left. split; [|by apply otp_step_other]. cbn [answers].
    destruct (otp_step s c) as [out s']. destruct c; try done.
    destruct out as [[|]|]; try done. by rewrite decide_False.
Qed.

(** Answers for an unanswered challenge with the given budget of wrong guesses. *)
Definition within_budget (budget : Z) (l : list OtpVerifyResult) : Prop :=
  exists i n, (l = replicate i Invalid ++ replicate n Missing /\ Z.of_nat i <= budget)
    \/ (l = replicate i Invalid ++ Valid :: replicate n Missing /\ Z.of_nat i < budget).

Lemma answers_none m key cs : forall s,
  Forall (only_verifies key m) cs -> s.(entries) !! key = None ->
  exists n, (answers s key cs).*2 = replicate n Missing.
Proof.
  induction cs as [|c cs IH]; intros s Hcs Hs; [by exists 0%nat|].
  apply Forall_cons in Hcs as [Hc Hcs].
  destruct (answers_cons s key m c cs Hc) as [[-> He]|(now & r & a & s' & <- & Hver & ->)].
  - apply IH; [done|congruence].
  - pose proof (verify_spec s now r m) as Hv. rewrite Hver, Hs in Hv. destruct Hv as [-> ->].
    destruct (IH s Hcs Hs) as [n Hn]. exists (S n). cbn. by rewrite Hn.
Qed.

Lemma answers_none_valid m key cs P : forall s,
  Forall (only_verifies key m) cs -> s.(entries) !! key = None ->
  Forall (fun x => x.2 = Valid -> P x.1) (answers s key cs).
Proof.
  intros s Hcs Hs. destruct (answers_none m key cs s Hcs Hs) as [n Hn].
  apply Forall_forall. intros x Hx Hv.
  assert (Hin : x.2 ∈ replicate n Missing) by (rewrite <-Hn; by apply list_elem_of_fmap_2).
  apply elem_of_replicate in Hin as [Hm _]. congruence.
Qed.

Lemma within_budget_missing budget n : 0 <= budget -> within_budget budget (replicate n Missing).
Proof. intros. exists 0%nat, n. left. split; [done|lia]. Qed.

Lemma within_budget_invalid budget l : within_budget budget l -> within_budget (budget + 1) (Invalid :: l).
Proof. intros (i & n & [[-> ?]|[-> ?]]); exists (S i), n; [left|right]; (split; [done|lia]). Qed.

Lemma answers_some m key cs : forall s en,
  Forall (only_verifies key m) cs -> s.(entries) !! key = Some en -> en.(attempts) < m ->
  within_budget (m - en.(attempts)) (answers s key cs).*2
  /\ Forall (fun x => x.2 = Valid -> x.1.2 = en.(digest) /\ x.1.1 < en.(expires_at)) (answers s key cs).
Proof.
  induction cs as [|c cs IH]; intros s en Hcs Hs Hen.
  { split; [apply (within_budget_missing _ 0); lia|by apply Forall_nil]. }
  apply Forall_cons in Hcs as [Hc Hcs].
  destruct (answers_cons s key m c cs Hc) as [[-> He]|(now & r & a & s' & Hkey & Hver & ->)].
  { apply IH; [done|congruence|done]. }
  pose proof (verify_spec s now r m) as Hv. rewrite Hver in Hv. rewrite Hkey in Hv. rewrite Hs in Hv.
  destruct a; cbn [fmap list_fmap snd].
  - destruct Hv as (Hnow & Hdg & Hs'). destruct (answers_none m key cs s' Hcs Hs') as [n Hn].
    split; [exists 0%nat, n; right; split; [cbn; by f_equal|lia]|].
    constructor; [done|]. by apply (answers_none_valid m key cs
        (fun p => p.2 = digest en /\ p.1 < expires_at en)).
  - destruct Hv as (Hnow & Hdg & Hs'). destruct (Z.leb_spec m (attempts en + 1)) as [Hm|Hm].
    + split; [|constructor; [done|by apply (answers_none_valid m key cs
        (fun p => p.2 = digest en /\ p.1 < expires_at en))]].
      destruct (answers_none m key cs s' Hcs Hs') as [n Hn]. replace (m - attempts en) with (0 + 1) by lia.
      apply within_budget_invalid. rewrite Hn. by apply within_budget_missing.
    + destruct (IH s' _ Hcs Hs' ltac:(cbn; lia)) as [Hb Hf]. cbn [attempts digest expires_at] in *.
      split; [|by constructor]. replace (m - attempts en) with (m - (attempts en + 1) + 1) by lia.
      by apply within_budget_invalid.
  - destruct Hv as [_ Hs']. split; [|constructor; [done|by apply (answers_none_valid m key cs
        (fun p => p.2 = digest en /\ p.1 < expires_at en))]].
    destruct (answers_none m key cs s' Hcs Hs') as [n Hn]. rewrite Hn.
    apply (within_budget_missing _ (S n)). lia.
Qed.

(** A one-time password survives a bounded number of guesses and is accepted once.  After [create]
    has stored a challenge, whatever calls follow on other keys and however it is verified with limit
    [m], the answers are at most [m] rejections, then at most one acceptance (only after fewer than
    [m] rejections), then only [Missing]; and an acceptance is given only to the stored digest before
    the challenge expires. *)
Theorem otp_bounded_single_use (s s' : MemoryOtpStore) (now ttl cooldown m : Z) (r : OtpRecord)
  (cs : list OtpCall)
  (Hcreate : MemoryOtpStore_create s now r ttl cooldown = (Returned (Ok Stored), s'))
  (Hm : 0 < m) (Hcs : Forall (only_verifies (otp_key r) m) cs) :
  within_budget m (answers s' (otp_key r) cs).*2
  /\ Forall (fun x => x.2 = Valid -> x.1.2 = r.(code_digest) /\ x.1.1 < now + ttl)
       (answers s' (otp_key r) cs).
Proof.
  assert (Hs' : s'.(entries) !! otp_key r
    = Some {| digest := r.(code_digest); expires_at := now + ttl; attempts := 0 |}).
  { revert Hcreate. unfold MemoryOtpStore_create, create_cooldown, create_entry.
    destruct (OtpRecord_validate r); [|done]. case_bool_decide; [done|].
    destruct (SystemTime_add now cooldown); [|done].
    destruct (SystemTime_add now ttl) as [t|] eqn:Ht; [|done].
    apply checked_add_Some in Ht as [-> _]. intros [= <-]. cbn. by rewrite lookup_insert_eq. }
  destruct (answers_some m (otp_key r) cs s' _ Hcs Hs') as [Hb Hf]; [done|].
  cbn in Hb. by rewrite Z.sub_0_r in Hb.
Qed.

Definition code (b : Z) : OtpRecord :=
  {| subject_key := "ada"; purpose := "login"; code_digest := replicate 16 b |}.

Lemma otp_bounded_single_use_witness :
  let s := (MemoryOtpStore_create {| entries := ∅; cooldowns := ∅ |} 0 (code 1) 100 10).2 in
  within_budget 3 (answers s (otp_key (code 1)) [Verify 5 (code 2) 3; Verify 6 (code 1) 3]).*2
  /\ Forall (fun x => x.2 = Valid -> x.1.2 = (code 1).(code_digest) /\ x.1.1 < 0 + 100)
       (answers s (otp_key (code 1)) [Verify 5 (code 2) 3; Verify 6 (code 1) 3]).
Proof.
  intros s.
  apply (otp_bounded_single_use {| entries := ∅; cooldowns := ∅ |} s 0 100 10 3 (code 1)
    [Verify 5 (code 2) 3; Verify 6 (code 1) 3]).
  - vm_compute. reflexivity.
  - lia.
  - repeat (apply Forall_cons; split; [reflexivity|]). by apply Forall_nil.
Defined.

(** The number of wrong guesses stored stays below the limit of the verification that stored it, so
    [attempts += 1] stays within 32 bits. *)
Definition attempts_ok (s : MemoryOtpStore) : Prop :=
  forall key en, s.(entries) !! key = Some en -> 0 <= en.(attempts) < u32_max.

Lemma otp_attempts_bounded s c :
  attempts_ok s -> match c with Verify _ _ m => fits u32_max m | _ => True end ->
  attempts_ok (otp_step s c).2.
Proof.
  intros Hs Hc key en. destruct (decide (call_key c = key)) as [<-|Hk].
  2: { rewrite otp_step_other by done. apply Hs. }
  destruct c as [now r ttl cd|now r m|sk pu]; cbn [otp_step call_key].
  - unfold MemoryOtpStore_create, create_cooldown, create_entry.
    destruct (OtpRecord_validate r); [|apply Hs]. case_bool_decide; [apply Hs|].
    destruct (SystemTime_add now cd); [|apply Hs]. destruct (SystemTime_add now ttl); [|apply Hs].
    cbn. rewrite lookup_insert_eq. intros [= <-]. cbn. unfold u32_max. lia.
  - pose proof (verify_spec s now r m) as Hv.
    destruct (MemoryOtpStore_verify_and_consume s now r m) as [[a|e] s']; cbn [snd]; [|subst; apply Hs].
    destruct (entries s !! otp_key r) as [en0|] eqn:H0; [|destruct Hv as [_ ->]; apply Hs].
    specialize (Hs _ _ H0). destruct a.
    + destruct Hv as (_ & _ & ->). done.
    + destruct Hv as (_ & _ & ->). destruct (Z.leb_spec m (attempts en0 + 1)); [done|].
      intros [= <-]. cbn. unfold fits in Hc. lia.
    + destruct Hv as (_ & ->). done.
  - cbn. by rewrite lookup_delete_eq.
Qed.

(** [create] takes its two locks one after the other: a [delete] between them leaves a challenge
    without a cooldown, so the next [create] is not refused. *)
Lemma otp_create_interleaved (s : MemoryOtpStore) now key cooldown dg ttl s1 s2 :
  create_cooldown s now key cooldown = (Some Stored, s1) ->
  create_entry (delete_cooldown (delete_entry s1 key) key) now key dg ttl = (Some (), s2) ->
  is_Some (s2.(entries) !! key) /\ s2.(cooldowns) !! key = None.
Proof.
  intros _. unfold create_entry. destruct (SystemTime_add now ttl) as [t|]; [|done]. intros [= <-]. cbn.
  rewrite lookup_insert_eq, lookup_delete_eq. eauto.
Qed.
