(* ===== verification/Tickets.v ===== *)
(** * Connection tickets: [crates/elura-core/src/ticket.rs]

    Signed, expiring, single-use tickets: the token is [payload.signature], the payload the claims in
    JSON and the signature their HMAC, both in unpadded URL-safe Base64.  HMAC-SHA-256, Base64 and the
    JSON encoding of the claims are parameters ([TicketCrypto]) with their documented laws
    ([TicketCryptoLaws]); the store that remembers used tickets is an interface
    ([ReplayProtectionStore]) with the promise its users rely on ([ReplayProtectionLaws]), which the
    in-memory store of [CredentialStores] discharges.  Clock readings are arguments, in seconds, [None]
    before the epoch; a reading is below [2 ^ 63], so that adding 30 or a lifetime cannot overflow.
    The nonce the source draws is an argument. *)

From Stdlib Require Import Ascii.
From S2P Require Import Prelude Bytes CoreError Identity CredentialStores.

(** ** The replay protection interface

    [trait ReplayProtectionStore]; [now] is the reading of the store's clock. *)
Class ReplayProtectionStore (R : Type) : Type := {
  reserve : R -> option Z -> string -> Z -> Result bool * R;
}.

(** What the trait promises: a key granted until [e] is granted to nobody else while the clock of the
    store is before [e]. *)
Class ReplayProtectionLaws (R : Type) `{!ReplayProtectionStore R} : Type := {
  held : R -> string -> Z -> Prop;
  reserve_granted s s' now key e :
    reserve s now key e = (Ok true, s') -> exists t, now = Some t /\ t < e /\ held s' key e;
  held_refuses s key e t e' :
    held s key e -> t < e -> (reserve s (Some t) key e').1 <> Ok true;
  held_kept s key e now key' e' :
    held s key e -> (forall t, now = Some t -> t < e) -> held (reserve s now key' e').2 key e;
}.

#[export] Instance memory_replay_store : ReplayProtectionStore MemoryReplayProtectionStore :=
  {| reserve := MemoryReplayProtectionStore_reserve |}.

#[export, refine] Instance memory_replay_laws : ReplayProtectionLaws MemoryReplayProtectionStore := {|
  held s key e := s.(used) !! key = Some e;
|}.
Proof.
  - intros s s' [t|] key e Hr; [|by cbv in Hr]. exists t. split; [done|].
    pose proof (reserve_grants s t key e) as Hg. revert Hr Hg. unfold reserve, memory_replay_store,
      MemoryReplayProtectionStore_reserve. cbn [ok_or].
    destruct (Z.leb_spec e t); [done|]. case_bool_decide; [done|]. intros [= <-] _.
    split; [lia|]. cbn [used]. by rewrite lookup_insert_eq.
  - intros s key e t e' Hs Ht. pose proof (reserve_keeps s t key e' key e Hs Ht) as Hk.
    unfold reserve, memory_replay_store. destruct (MemoryReplayProtectionStore_reserve _ _ _ _) as [out s'].
    destruct Hk as [_ Hout]. by rewrite Hout.
  - intros s key e [t|] key' e' Hs Ht; [|done].
    pose proof (reserve_keeps s t key' e' key e Hs (Ht t eq_refl)) as Hk.
    unfold reserve, memory_replay_store. destruct (MemoryReplayProtectionStore_reserve _ _ _ _) as [out s'].
    by destruct Hk.
Defined.

(** ** Claims *)

(** The connection flow a ticket may be used in. *)
Inductive TicketPurpose : Type := Login | Reconnect.

#[export] Instance TicketPurpose_eq_dec : EqDecision TicketPurpose.
Proof. solve_decision. Defined.

Record TicketClaims : Type := {
  issuer : string;
  audience : string;
  ticket_id : string;
  issued_at : Z;
  expires_at : Z;
  purpose : TicketPurpose;
  identity : Identity;
}.

#[export] Instance TicketClaims_eq_dec : EqDecision TicketClaims.
Proof. solve_decision. Defined.

(** ** Cryptography and encodings *)

Class TicketCrypto : Type := {
  (** [None] when [new_from_slice] refuses the key *)
  hmac_sha256 : list Z -> list Z -> option (list Z);
  base64_encode : list Z -> string;
  base64_decode : string -> option (list Z);
  claims_to_vec : TicketClaims -> result string (list Z);
  claims_from_slice : list Z -> result string TicketClaims;
}.

Fixpoint contains_char (c : ascii) (s : string) : bool :=
  match s with
  | EmptyString => false
  | String b s => Ascii.eqb b c || contains_char c s
  end.

(** HMAC takes keys of any size and gives 32 bytes; Base64 decodes what it encoded, needs at most two
    characters per byte, and its alphabet has no dot. *)
Class TicketCryptoLaws `{!TicketCrypto} : Prop := {
  hmac_total key payload : exists mac, hmac_sha256 key payload = Some mac /\ bytes_ok mac /\ len mac = 32;
  base64_round_trip bytes : bytes_ok bytes -> base64_decode (base64_encode bytes) = Some bytes;
  base64_length bytes : string_len (base64_encode bytes) <= 2 * len bytes;
  base64_no_dot bytes : contains_char "." (base64_encode bytes) = false;
  claims_json : json_law claims_to_vec claims_from_slice;
}.

(** [str::split_once]. *)
Fixpoint split_once (c : ascii) (s : string) : option (string * string) :=
  match s with
  | EmptyString => None
  | String b s =>
      if Ascii.eqb b c then Some (EmptyString, s)
      else match split_once c s with
           | Some (l, r) => Some (String b l, r)
           | None => None
           end
  end.

(** [Duration::as_secs]. *)
Definition as_secs (duration : Z) : Z := duration / 1000000000.

Definition unix_time (clock : option Z) : Result Z :=
  ok_or clock (Internal "system clock is before epoch").

(** ** The service *)

Record TicketService : Type := {
  keys : list (list Z);
  service_issuer : string;
  service_audience : string;
  login_ttl : Z;
  reconnect_ttl : Z;
}.

Definition TicketService_new_rotating (primary_key : list Z) (previous_keys : list (list Z))
    (issuer audience : string) (login_ttl reconnect_ttl : Z) : Result TicketService :=
  let keys := primary_key :: previous_keys in
  if existsb (fun key => len key <? 32) keys || (16 <? len keys)
     || (login_ttl =? 0) || (3600 * 1000000000 <? login_ttl)
     || (reconnect_ttl =? 0) || (3600 * 1000000000 <? reconnect_ttl) then
    Err (InvalidConfig "ticket keys must be >=32 bytes, contain at most 16 keys and ticket ttls must be positive and <=1h")
  else Ok {| keys := keys; service_issuer := issuer; service_audience := audience;
             login_ttl := login_ttl; reconnect_ttl := reconnect_ttl |}.

Definition TicketService_new (key : list Z) (issuer audience : string) (login_ttl reconnect_ttl : Z) :
    Result TicketService :=
  TicketService_new_rotating key [] issuer audience login_ttl reconnect_ttl.

Section service.
Context `{!TicketCrypto}.

Definition sign (key payload : list Z) : Result (list Z) :=
  ok_or (hmac_sha256 key payload) (InvalidConfig "invalid ticket key").

(** The claims of a new ticket. *)
Definition new_claims (self : TicketService) (now : Z) (nonce : list Z) (identity : Identity)
    (purpose : TicketPurpose) (ttl : Z) : TicketClaims :=
  {| issuer := self.(service_issuer); audience := self.(service_audience);
     ticket_id := base64_encode nonce; issued_at := now; expires_at := now + as_secs ttl;
     purpose := purpose; identity := identity |}.

(** [self.keys[0]] panics on a service without keys, which [new_rotating] never makes. *)
Definition TicketService_issue_for (self : TicketService) (clock : option Z) (nonce : list Z)
    (identity : Identity) (purpose : TicketPurpose) (ttl : Z) : Outcome string :=
  match
    (let? _ := Identity_validate identity in
     let? now := unix_time clock in
     map_err Serialization (claims_to_vec (new_claims self now nonce identity purpose ttl)))
  with
  | Err e => Returned (Err e)
  | Ok bytes =>
      let payload := base64_encode bytes in
      match self.(keys) with
      | [] => Panicked
      | key :: _ =>
          Returned
            (let? signature := sign key (string_bytes payload) in
             Ok (payload +:+ "." +:+ base64_encode signature))
      end
  end.

Definition TicketService_issue_login (self : TicketService) (clock : option Z) (nonce : list Z)
    (identity : Identity) : Outcome string :=
  TicketService_issue_for self clock nonce identity Login self.(login_ttl).

Definition TicketService_issue_reconnect (self : TicketService) (clock : option Z) (nonce : list Z)
    (identity : Identity) : Outcome string :=
  TicketService_issue_for self clock nonce identity Reconnect self.(reconnect_ttl).

(** The loop over the keys: every key is tried, [valid] collects the comparisons. *)
Fixpoint signature_valid (keys : list (list Z)) (payload signature : list Z) (valid : Z) : Result Z :=
  match keys with
  | [] => Ok valid
  | key :: keys =>
      let? expected := sign key payload in
      signature_valid keys payload signature
        (Z.lor valid (if bool_decide (signature = expected) then 1 else 0))
  end.

Definition lifetime_of (self : TicketService) (purpose : TicketPurpose) : Z :=
  match purpose with Login => self.(login_ttl) | Reconnect => self.(reconnect_ttl) end.

Definition TicketService_validate (self : TicketService) (clock : option Z) (token : string) :
    Result TicketClaims :=
  let? (payload, signature) := ok_or (split_once "." token) Authentication in
  if (4096 <? string_len payload) || (128 <? string_len signature) then Err Authentication else
  let? signature := ok_or (base64_decode signature) Authentication in
  let? valid := signature_valid self.(keys) (string_bytes payload) signature 0 in
  if negb (valid =? 1) then Err Authentication else
  let? decoded := ok_or (base64_decode payload) Authentication in
  let? claims := map_err (fun _ => Authentication) (claims_from_slice decoded) in
  let? now := unix_time clock in
  let maximum_lifetime := as_secs (lifetime_of self claims.(purpose)) in
  if negb (String.eqb claims.(issuer) self.(service_issuer))
     || negb (String.eqb claims.(audience) self.(service_audience))
     || (now + 30 <? claims.(issued_at))
     || (claims.(expires_at) <=? claims.(issued_at))
     || (maximum_lifetime <? claims.(expires_at) - claims.(issued_at))
     || (claims.(expires_at) <=? now) then Err TicketExpired else
  let? _ := Identity_validate claims.(identity) in
  Ok claims.

(** [VerifiedTicket] holds the claims of a ticket that was validated. *)
Definition VerifiedTicket_consume {R} `{!ReplayProtectionStore R} (claims : TicketClaims) (store : R)
    (clock : option Z) : Result TicketClaims * R :=
  match reserve store clock claims.(ticket_id) claims.(expires_at) with
  | (Err e, store) => (Err e, store)
  | (Ok reserved, store) => if negb reserved then (Err TicketReplayed, store) else (Ok claims, store)
  end.

(** [clock] is read by the service and [store_clock] by the store. *)
Definition TicketService_verify {R} `{!ReplayProtectionStore R} (self : TicketService)
    (clock store_clock : option Z) (token : string) (store : R) : Result TicketClaims * R :=
  let? claims := TicketService_validate self clock token else store in
  VerifiedTicket_consume claims store store_clock.
End service.

(** ** Signatures *)

Section signatures.
Context `{!TicketCrypto, !TicketCryptoLaws}.

Lemma sign_total key payload : exists mac, sign key payload = Ok mac /\ bytes_ok mac /\ len mac = 32.
Proof. destruct (hmac_total key payload) as (mac & Hmac & Hbytes). exists mac. unfold sign. by rewrite Hmac. Qed.

(** [key] makes the signature. *)
Definition signed_by (payload signature key : list Z) : bool :=
  match sign key payload with Ok mac => bool_decide (signature = mac) | Err _ => false end.

(** The loop finds whether some key of the service made the signature. *)
Lemma signature_valid_spec ks payload signature : forall valid, valid = 0 \/ valid = 1 ->
  signature_valid ks payload signature valid
  = Ok (Z.max valid (if existsb (signed_by payload signature) ks then 1 else 0)).
Proof.
  induction ks as [|key ks IH]; intros valid Hv; cbn [signature_valid existsb].
  { f_equal. lia. }
  destruct (sign_total key payload) as (mac & Hmac & _). unfold signed_by at 1. rewrite Hmac, IH.
  - f_equal. case_bool_decide; destruct Hv as [-> | ->]; cbn [orb]; case_match; done.
  - destruct Hv as [-> | ->]; case_bool_decide; auto.
Qed.

Lemma validate_signed_by ks payload signature :
  (exists key, key ∈ ks /\ sign key payload = Ok signature) ->
  signature_valid ks payload signature 0 = Ok 1.
Proof.
  intros (key & Hin & Hsign). rewrite signature_valid_spec by auto.
  rewrite (proj2 (existsb_exists _ ks)); [done|]. exists key.
  split; [by apply list_elem_of_In|]. unfold signed_by. rewrite Hsign. by apply bool_decide_eq_true.
Qed.
End signatures.

Lemma split_once_no_dot s r : contains_char "." s = false -> split_once "." (s +:+ "." +:+ r) = Some (s, r).
Proof.
  induction s as [|b s IH]; [done|]. cbn [contains_char]. intros [Hb Hs]%orb_false_iff.
  change (String b s +:+ "." +:+ r) with (String b (s +:+ "." +:+ r)). cbn [split_once].
  by rewrite Hb, IH.
Qed.

Lemma string_len_app s r : string_len (s +:+ r) = string_len s + string_len r.
Proof.
  unfold string_len. rewrite <-Nat2Z.inj_add. f_equal.
  induction s as [|b s IH]; [done|]. change (String b s +:+ r) with (String b (s +:+ r)). cbn. by rewrite IH.
Qed.

(** ** A ticket is accepted during its lifetime

    Two services of one fleet: the same issuer, audience and lifetimes, and the key that signs is among
    the keys the other accepts. *)
Definition same_fleet (a b : TicketService) : Prop :=
  a.(service_issuer) = b.(service_issuer) /\ a.(service_audience) = b.(service_audience)
  /\ a.(login_ttl) = b.(login_ttl) /\ a.(reconnect_ttl) = b.(reconnect_ttl)
  /\ forall key rest, a.(keys) = key :: rest -> key ∈ b.(keys).

(** Issuing succeeds for a valid identity whenever the claims can be encoded. *)
Lemma issue_succeeds `{!TicketCrypto, !TicketCryptoLaws} s key rest now nonce i p ttl bytes :
  s.(keys) = key :: rest -> Identity_validate i = Ok () ->
  claims_to_vec (new_claims s now nonce i p ttl) = Ok bytes ->
  exists mac, sign key (string_bytes (base64_encode bytes)) = Ok mac
    /\ TicketService_issue_for s (Some now) nonce i p ttl
       = Returned (Ok (base64_encode bytes +:+ "." +:+ base64_encode mac)).
Proof.
  intros Hkeys Hi Hj. destruct (sign_total key (string_bytes (base64_encode bytes))) as (mac & Hmac & _).
  exists mac. split; [done|]. unfold TicketService_issue_for. rewrite Hi. cbn. rewrite Hj. cbn.
  rewrite Hkeys, Hmac. done.
Qed.

(** What an issued token is made of. *)
Lemma issue_inv `{!TicketCrypto, !TicketCryptoLaws} s now nonce i p ttl token :
  TicketService_issue_for s (Some now) nonce i p ttl = Returned (Ok token) ->
  Identity_validate i = Ok () /\ exists key rest bytes mac,
    s.(keys) = key :: rest
    /\ claims_to_vec (new_claims s now nonce i p ttl) = Ok bytes
    /\ sign key (string_bytes (base64_encode bytes)) = Ok mac
    /\ token = base64_encode bytes +:+ "." +:+ base64_encode mac.
Proof.
  unfold TicketService_issue_for. destruct (Identity_validate i) as [[]|] eqn:Hi; [|done]. cbn.
  destruct (claims_to_vec _) as [bytes|] eqn:Hj; [|done]. cbn.
  destruct (keys s) as [|key rest] eqn:Hkeys; [done|].
  destruct (sign key _) as [mac|] eqn:Hmac; [|done]. intros [= <-].
  split; [done|]. exists key, rest, bytes, mac. done.
Qed.

(** A token signed by one of the keys reaches the checks of its claims. *)
Lemma validate_signed `{!TicketCrypto, !TicketCryptoLaws} s t bytes mac key c :
  claims_to_vec c = Ok bytes -> key ∈ s.(keys) ->
  sign key (string_bytes (base64_encode bytes)) = Ok mac ->
  string_len (base64_encode bytes) <= 4096 -> Identity_validate c.(identity) = Ok () ->
  c.(issuer) = s.(service_issuer) -> c.(audience) = s.(service_audience) ->
  TicketService_validate s (Some t) (base64_encode bytes +:+ "." +:+ base64_encode mac)
  = if (c.(issued_at) - 30 <=? t) && (t <? c.(expires_at))
       && (0 <? c.(expires_at) - c.(issued_at))
       && (c.(expires_at) - c.(issued_at) <=? as_secs (lifetime_of s c.(purpose)))
    then Ok c else Err TicketExpired.
Proof.
  intros Hj Hin Hsign Hlen Hid Hiss Haud.
  destruct (claims_json c bytes Hj) as [Hbytes Hslice].
  destruct (sign_total key (string_bytes (base64_encode bytes))) as (mac' & Hmac' & Hok & Hmlen).
  rewrite Hsign in Hmac'. injection Hmac' as <-. pose proof (base64_length mac) as Hml.
  unfold TicketService_validate. rewrite split_once_no_dot by apply base64_no_dot. cbn [ok_or].
  destruct (Z.ltb_spec 4096 (string_len (base64_encode bytes))); [lia|].
  destruct (Z.ltb_spec 128 (string_len (base64_encode mac))); [lia|]. cbn [orb].
  rewrite !base64_round_trip by done. cbn [ok_or].
  rewrite validate_signed_by by eauto. cbn [Z.eqb negb Pos.eqb]. rewrite Hslice. cbn [map_err unix_time ok_or].
  rewrite Hiss, Haud, !String.eqb_refl, Hid. cbn [negb orb].
  destruct (Z.ltb_spec (t + 30) (issued_at c)), (Z.leb_spec (issued_at c - 30) t); try lia; [done|].
  destruct (Z.leb_spec (expires_at c) t), (Z.ltb_spec t (expires_at c)); try lia; cbn; [by rewrite orb_true_r|].
  destruct (Z.leb_spec (expires_at c) (issued_at c)), (Z.ltb_spec 0 (expires_at c - issued_at c)); try lia; [done|].
  rewrite Z.leb_antisym. cbn. by destruct (_ <? _).
Qed.

(** [issue_login] and [issue_reconnect]. *)
Definition issue `{!TicketCrypto} (s : TicketService) (p : TicketPurpose) (clock : option Z)
    (nonce : list Z) (i : Identity) : Outcome string :=
  match p with
  | Login => TicketService_issue_login s clock nonce i
  | Reconnect => TicketService_issue_reconnect s clock nonce i
  end.

Lemma issue_is_for `{!TicketCrypto} s p clock nonce i :
  issue s p clock nonce i = TicketService_issue_for s clock nonce i p (lifetime_of s p).
Proof. by destruct p. Qed.

Lemma same_fleet_lifetime a b p : same_fleet a b -> lifetime_of a p = lifetime_of b p.
Proof. intros (_ & _ & Hl & Hr & _). by destruct p. Qed.

(** When an issued ticket is accepted: from 30 seconds before it was issued, for other machines may be
    behind, until the whole seconds of its lifetime have passed; never, when the lifetime has no whole
    second. *)
Definition accepted_at (now secs t : Z) : bool := (0 <? secs) && (now - 30 <=? t) && (t <? now + secs).

Lemma issued_validates `{!TicketCrypto, !TicketCryptoLaws} a b p now nonce i token t :
  same_fleet a b -> issue a p (Some now) nonce i = Returned (Ok token) -> string_len token <= 4096 ->
  TicketService_validate b (Some t) token
  = if accepted_at now (as_secs (lifetime_of a p)) t
    then Ok (new_claims a now nonce i p (lifetime_of a p)) else Err TicketExpired.
Proof.
  intros Hfleet Hissue Hlen. rewrite issue_is_for in Hissue.
  apply issue_inv in Hissue as [Hi (key & rest & bytes & mac & Hkeys & Hj & Hsign & ->)].
  pose proof (same_fleet_lifetime a b p Hfleet) as Hl. destruct Hfleet as (Hiss & Haud & _ & _ & Hin).
  rewrite string_len_app in Hlen.
  rewrite (validate_signed b t bytes mac key _ Hj (Hin _ _ Hkeys) Hsign);
    [|unfold string_len in *; lia|done|done|done].
  cbn [issued_at expires_at purpose new_claims]. rewrite <-Hl. unfold accepted_at.
  replace (now + as_secs (lifetime_of a p) - now) with (as_secs (lifetime_of a p)) by lia.
  rewrite Z.leb_refl, andb_true_r. f_equal. by destruct (0 <? _), (_ <=? _), (_ <? _).
Qed.

(** A ticket issued by one service of a fleet is accepted by every service that knows the key it was
    signed with, by its primary key or a rotated one, exactly from 30 seconds before the moment of issue
    until its lifetime has passed, and gives the identity and the purpose it was issued for; outside that
    window the answer is [TicketExpired].  The lifetime counts in whole seconds. *)
Theorem issued_ticket_window (Crypto : TicketCrypto) (Laws : TicketCryptoLaws)
  (a b : TicketService) (p : TicketPurpose) (now : Z) (nonce : list Z) (i : Identity) (token : string)
  (Hfleet : same_fleet a b) (Hissue : issue a p (Some now) nonce i = Returned (Ok token))
  (Hlen : string_len token <= 4096) :
  exists claims, claims.(identity) = i /\ claims.(purpose) = p /\ claims.(issued_at) = now
    /\ forall t, TicketService_validate b (Some t) token
         = if accepted_at now (as_secs (lifetime_of a p)) t then Ok claims else Err TicketExpired.
Proof. exists (new_claims a now nonce i p (lifetime_of a p)). split_and!; [done..|]. intros. by apply issued_validates. Qed.

(** A lifetime of less than a second passes the check of the configuration, and no ticket issued with it
    is ever accepted. *)
Lemma subsecond_lifetime_refused `{!TicketCrypto, !TicketCryptoLaws} key iss aud reconnect s now nonce i token t :
  TicketService_new key iss aud 500000000 reconnect = Ok s ->
  TicketService_issue_login s (Some now) nonce i = Returned (Ok token) -> string_len token <= 4096 ->
  TicketService_validate s (Some t) token = Err TicketExpired.
Proof.
  intros Hnew Hissue Hlen.
  assert (Hs : s.(login_ttl) = 500000000).
  { revert Hnew. unfold TicketService_new, TicketService_new_rotating. case_match; [done|]. by intros [= <-]. }
  assert (Hfleet : same_fleet s s).
  { split_and!; [done..|]. intros k rest ->. left. }
  rewrite (issued_validates s s Login now nonce i token t Hfleet Hissue Hlen). cbn [lifetime_of]. by rewrite Hs.
Qed.

(** ** A ticket is used once *)

(** The calls that reach the shared store: verifications by any service, and other reservations. *)
Inductive StoreCall : Type :=
| CallVerify (service : TicketService) (clock store_clock : option Z) (token : string)
| CallReserve (store_clock : option Z) (key : string) (expires_at : Z).

Definition call_clock (c : StoreCall) : option Z :=
  match c with CallVerify _ _ t _ | CallReserve t _ _ => t end.

Section single_use.
Context `{!TicketCrypto} {R : Type} `{!ReplayProtectionStore R}.

Definition call (s : R) (c : StoreCall) : R :=
  match c with
  | CallVerify service clock store_clock token =>
      (TicketService_verify service clock store_clock token s).2
  | CallReserve store_clock key e => (reserve s store_clock key e).2
  end.

(** Validation reads the claims off the token: every service reads the same. *)
Lemma validate_claims_agree a b ta tb token ca cb :
  TicketService_validate a ta token = Ok ca -> TicketService_validate b tb token = Ok cb -> ca = cb.
Proof.
  assert (Hread : forall s t c, TicketService_validate s t token = Ok c ->
    (let? (payload, _) := ok_or (split_once "." token) Authentication in
     let? decoded := ok_or (base64_decode payload) Authentication in
     map_err (fun _ => Authentication) (claims_from_slice decoded)) = Ok c).
  { intros s t c. unfold TicketService_validate. intros Hv.
    destruct (ok_or (split_once "." token) _) as [[payload signature]|]; [|done].
    destruct (_ || _); [done|]. destruct (ok_or (base64_decode signature) _); [|done].
    destruct (signature_valid _ _ _ _); [|done]. destruct (negb _); [done|].
    destruct (ok_or (base64_decode payload) _); [|done]. destruct (map_err _ _); [|done].
    destruct (unix_time t); [|done]. destruct (_ || _); [done|]. by destruct (Identity_validate _). }
  intros Ha%Hread Hb%Hread. congruence.
Qed.

Lemma verify_accepted s service clock store_clock token c s' :
  TicketService_verify service clock store_clock token s = (Ok c, s') ->
  TicketService_validate service clock token = Ok c
  /\ reserve s store_clock c.(ticket_id) c.(expires_at) = (Ok true, s').
Proof.
  unfold TicketService_verify, VerifiedTicket_consume.
  destruct (TicketService_validate _ _ _) as [c0|]; [|done].
  destruct (reserve _ _ _ _) as [[[]|] s0] eqn:Hr; try done. by intros [= -> ->].
Qed.

Context `{!ReplayProtectionLaws R}.

Lemma call_keeps s c key e :
  held s key e -> (forall t, call_clock c = Some t -> t < e) -> held (call s c) key e.
Proof.
  intros Hs Ht. destruct c as [service clock t token|t k' e']; cbn [call call_clock] in *; [|by apply held_kept].
  unfold TicketService_verify. destruct (TicketService_validate _ _ _) as [c|]; [|done].
  pose proof (held_kept s key e t c.(ticket_id) c.(expires_at) Hs Ht) as Hk. unfold VerifiedTicket_consume.
  by destruct (reserve _ _ _ _) as [[[]|] s0].
Qed.

Lemma calls_keep l : forall s key e,
  held s key e -> Forall (fun c => forall t, call_clock c = Some t -> t < e) l -> held (foldl call s l) key e.
Proof.
  induction l as [|c l IH]; intros s key e Hs Hl; [done|]. apply Forall_cons in Hl as [Hc Hl].
  cbn [foldl]. apply IH; [|done]. by apply call_keeps.
Qed.
End single_use.

(** C15: A ticket is used once.  After a ticket was accepted, whatever services of the fleet verify and
    whatever else is reserved in the shared store, a ticket with the same identifier is accepted again
    only after the first has expired, and the same token never: provided the clock of the store does not
    run back past the moment of the second attempt. *)
Theorem ticket_accepted_once (Crypto : TicketCrypto) (R : Type) (Store : ReplayProtectionStore R)
  (Laws : ReplayProtectionLaws R) (s s1 s2 : R) (a b : TicketService) (ta tsa tb : option Z) (tsb : Z)
  (token token' : string) (claims claims' : TicketClaims) (between : list StoreCall)
  (Hfirst : TicketService_verify a ta tsa token s = (Ok claims, s1))
  (Hclock : Forall (fun c => forall t, call_clock c = Some t -> t <= tsb) between)
  (Hsecond : TicketService_verify b tb (Some tsb) token' (foldl call s1 between) = (Ok claims', s2)) :
  (claims'.(ticket_id) = claims.(ticket_id) -> claims.(expires_at) <= tsb) /\ token' <> token.
Proof.
  apply verify_accepted in Hfirst as [Hva Hra], Hsecond as [Hvb Hrb].
  apply reserve_granted in Hra as (t1 & _ & _ & Hheld).
  assert (Hid : claims'.(ticket_id) = claims.(ticket_id) -> claims.(expires_at) <= tsb).
  { intros Hid. destruct (Z.le_gt_cases claims.(expires_at) tsb) as [|Hlt]; [done|]. exfalso.
    assert (Hkept : held (foldl call s1 between) claims.(ticket_id) claims.(expires_at)).
    { apply calls_keep; [done|]. eapply Forall_impl; [exact Hclock|]. cbn. intros c Hc t Ht. specialize (Hc t Ht). lia. }
    rewrite Hid in Hrb. apply (held_refuses _ _ _ tsb claims'.(expires_at) Hkept Hlt). by rewrite Hrb. }
  split; [done|]. intros ->. pose proof (validate_claims_agree _ _ _ _ _ _ _ Hva Hvb) as <-.
  apply reserve_granted in Hrb as (t2 & [= <-] & Hlt & _). specialize (Hid eq_refl). lia.
Qed.

(** ** A concrete instance

    Hexadecimal text, a checksum for the MAC and an encoding of two claims satisfy the laws. *)
Module HexCrypto.

Definition hex_digit (n : Z) : ascii :=
  match n with
  | 0 => "0" | 1 => "1" | 2 => "2" | 3 => "3" | 4 => "4" | 5 => "5" | 6 => "6" | 7 => "7"
  | 8 => "8" | 9 => "9" | 10 => "a" | 11 => "b" | 12 => "c" | 13 => "d" | 14 => "e" | _ => "f"
  end%char.

Definition hex_value (c : ascii) : option Z :=
  let n := Z.of_N (N_of_ascii c) in
  if (48 <=? n) && (n <=? 57) then Some (n - 48)
  else if (97 <=? n) && (n <=? 102) then Some (n - 87) else None.

Fixpoint hex_encode (l : list Z) : string :=
  match l with
  | [] => EmptyString
  | b :: l => String (hex_digit (b / 16)) (String (hex_digit (b mod 16)) (hex_encode l))
  end.

Fixpoint hex_decode (s : string) : option (list Z) :=
  match s with
  | EmptyString => Some []
  | String a (String b s) =>
      match hex_value a, hex_value b, hex_decode s with
      | Some x, Some y, Some l => Some (16 * x + y :: l)
      | _, _, _ => None
      end
  | String _ EmptyString => None
  end.

Lemma hex_digit_value n : 0 <= n < 16 -> hex_value (hex_digit n) = Some n.
Proof.
  intros Hn. assert (Hin : n ∈ seqZ 0 16) by (apply elem_of_seqZ; lia). clear Hn.
  revert n Hin. apply Forall_forall. repeat (constructor; [reflexivity|]). constructor.
Qed.

Lemma hex_round_trip l : bytes_ok l -> hex_decode (hex_encode l) = Some l.
Proof.
  induction 1 as [|b l Hb Hl IH]; [done|]. unfold byte_ok in Hb. cbn [hex_encode hex_decode].
  rewrite !hex_digit_value, IH.
  - f_equal. f_equal. pose proof (Z.div_mod b 16). lia.
  - apply Z.mod_pos_bound. lia.
  - split; [apply Z.div_pos; lia|]. apply Z.div_lt_upper_bound; lia.
Qed.

Lemma hex_length l : string_len (hex_encode l) <= 2 * len l.
Proof. unfold string_len. induction l as [|b l IH]; [done|]. cbn [hex_encode String.length]. rewrite len_cons. lia. Qed.

Lemma hex_digit_no_dot n : Ascii.eqb (hex_digit n) "." = false.
Proof. unfold hex_digit. repeat case_match; done. Qed.

Lemma hex_no_dot l : contains_char "." (hex_encode l) = false.
Proof. induction l as [|b l IH]; [done|]. cbn [hex_encode contains_char]. by rewrite !hex_digit_no_dot. Qed.

Definition sum (l : list Z) : Z := foldr Z.add 0 l.
Definition mac (key payload : list Z) : option (list Z) := Some (replicate 32 ((sum key + 3 * sum payload) mod 256)).

Definition player : Identity :=
  {| account_id := 1; identity_user_id := 2; identity_region_id := 1; identity_realm_id := 1; generation := 1 |}.

Definition claims_of (nonce : list Z) (p : TicketPurpose) (now secs : Z) : TicketClaims :=
  {| issuer := "auth"; audience := "gateway"; ticket_id := hex_encode nonce; issued_at := now;
     expires_at := now + secs; purpose := p; identity := player |}.

Definition login_claims : TicketClaims := claims_of [7] Login 1000 60.
Definition reconnect_claims : TicketClaims := claims_of [8] Reconnect 1010 1800.

Definition to_vec (c : TicketClaims) : result string (list Z) :=
  if bool_decide (c = login_claims) then Ok [1]
  else if bool_decide (c = reconnect_claims) then Ok [2] else Err "unsupported".
Definition from_slice (l : list Z) : result string TicketClaims :=
  match l with [1] => Ok login_claims | [2] => Ok reconnect_claims | _ => Err "unsupported" end.

#[local] Instance hex_crypto : TicketCrypto := {|
  hmac_sha256 := mac; base64_encode := hex_encode; base64_decode := hex_decode;
  claims_to_vec := to_vec; claims_from_slice := from_slice |}.

#[local] Instance hex_laws : TicketCryptoLaws.
Proof.
  split.
  - intros key payload. eexists. split; [done|]. split; [|done].
    apply Forall_replicate, Z.mod_pos_bound. lia.
  - apply hex_round_trip.
  - apply hex_length.
  - apply hex_no_dot.
  - intros c bytes. cbn [claims_to_vec claims_from_slice hex_crypto]. unfold to_vec.
    case_bool_decide as H1; [|case_bool_decide as H2; [|done]]; intros [= <-]; subst c;
      (split; [apply Forall_singleton; unfold byte_ok; lia|done]).
Qed.

(** The issuer signs with key 1; the gateway has rotated to key 2. *)
Definition issuing : TicketService :=
  {| keys := [replicate 32 1]; service_issuer := "auth"; service_audience := "gateway";
     login_ttl := 60 * 1000000000; reconnect_ttl := 1800 * 1000000000 |}.
Definition accepting : TicketService :=
  {| keys := [replicate 32 2; replicate 32 1]; service_issuer := "auth"; service_audience := "gateway";
     login_ttl := 60 * 1000000000; reconnect_ttl := 1800 * 1000000000 |}.

Definition token_of (o : Outcome string) : string :=
  match o with Returned (Ok t) => t | _ => EmptyString end.
Definition login_token : string := Eval vm_compute in token_of (issue issuing Login (Some 1000) [7] player).
Definition reconnect_token : string := Eval vm_compute in token_of (issue issuing Reconnect (Some 1010) [8] player).

Lemma fleet : same_fleet issuing accepting.
Proof. split_and!; try done. cbn. intros key rest [= <- <-]. right. left. Qed.

Lemma issued_ticket_window_witness :
  exists claims, claims.(identity) = player /\ claims.(purpose) = Login /\ claims.(issued_at) = 1000
    /\ forall t, TicketService_validate accepting (Some t) login_token
         = if accepted_at 1000 60 t then Ok claims else Err TicketExpired.
Proof.
  apply (issued_ticket_window hex_crypto hex_laws issuing accepting Login 1000 [7] player login_token fleet).
  - vm_compute. reflexivity.
  - vm_compute. discriminate.
Defined.

Definition store0 : MemoryReplayProtectionStore := {| used := ∅ |}.
Definition store1 : MemoryReplayProtectionStore :=
  (TicketService_verify accepting (Some 1001) (Some 1001) login_token store0).2.

Lemma ticket_accepted_once_witness :
  (reconnect_claims.(ticket_id) = login_claims.(ticket_id) -> login_claims.(expires_at) <= 1020)
  /\ reconnect_token <> login_token.
Proof.
  pose (replayed := [CallVerify issuing (Some 1005) (Some 1005) login_token]).
  apply (ticket_accepted_once hex_crypto _ memory_replay_store memory_replay_laws store0 store1
    (foldl call store1 (replayed ++ [CallVerify accepting (Some 1020) (Some 1020) reconnect_token]))
    accepting accepting (Some 1001) (Some 1001) (Some 1020) 1020 login_token reconnect_token
    login_claims reconnect_claims replayed).
  - vm_compute. reflexivity.
  - repeat constructor. intros t [= <-]. lia.
  - vm_compute. reflexivity.
Defined.

(** The replayed token is refused. *)
Example replay_refused :
  (TicketService_verify issuing (Some 1005) (Some 1005) login_token store1).1 = Err TicketReplayed.
Proof. vm_compute. reflexivity. Qed.

End HexCrypto.
