(* ===== verification/Replay.v ===== *)
(** * Recordings: [crates/elura-core/src/replay.rs], [realtime/replay_player.rs]

    The replay file (magic, then length-prefixed and checksummed blocks), its writer and reader, and
    the player that drives a room from a recording.  The writer's sink is a [Vec<u8>] and the reader's
    source a byte slice; the JSON encoding of headers and records ([serde_json]) and SHA-256 are
    parameters.  The room behind the player is the interface [ReplayDriver]. *)

From S2P Require Import Prelude Bytes CoreError Identity.

Definition MAGIC : list Z := [72; 90; 78; 82; 69; 80; 48; 52].
Definition MAX : Z := Z.shiftl 16 20.

(** [metadata] is a JSON value. *)
Record ReplayHeader (V : Type) : Type := {
  room_id : string;
  tick_rate : Z;
  input_delay_ticks : Z;
  rollback_window_ticks : Z;
  created_unix_ms : Z;
  metadata : V;
}.
Arguments room_id {V}. Arguments tick_rate {V}. Arguments input_delay_ticks {V}.
Arguments rollback_window_ticks {V}. Arguments created_unix_ms {V}. Arguments metadata {V}.

Inductive ReplayRecord (C : Type) : Type :=
| CommandRecord (tick : Z) (player : PlayerKey) (sequence : Z) (command : C)
| TickRecord (tick : Z)
| Checkpoint (tick : Z) (state : list Z) (state_hash : list Z).
Arguments CommandRecord {C}. Arguments TickRecord {C}. Arguments Checkpoint {C}.

Definition ReplayRecord_tick {C} (self : ReplayRecord C) : Z :=
  match self with
  | CommandRecord tick _ _ _ | TickRecord tick | Checkpoint tick _ _ => tick
  end.

(** ** Blocks *)

(** One of the eight steps of [crc] per byte. *)
Definition crc_step (c : Z) : Z :=
  Z.lxor (Z.shiftr c 1) (Z.land 0xedb88320 ((0 - Z.land c 1) mod 4294967296)).

Definition crc (b : list Z) : Z :=
  Z.lxor (foldl (fun c x => Nat.iter 8 crc_step (Z.lxor c x)) u32_max b) u32_max.

Definition block_write (out b : list Z) : Result unit * list Z :=
  if (len b =? 0) || (MAX <? len b) then (Err (InvalidFrame "replay block"), out)
  else (Ok (), out ++ put_be 4 (len b) ++ b ++ put_be 4 (crc b)).

(** [<&[u8]>::read_exact]: a source that is too short is consumed and fails with [UnexpectedEof]. *)
Definition read_exact (n : nat) (input : list Z) : option (list Z) * list Z :=
  if (n <=? length input)%nat then (Some (take n input), drop n input) else (None, []).

Definition unexpected_eof : Error := Io "failed to fill whole buffer".

Definition block_read (input : list Z) (eof : bool) : Result (option (list Z)) * list Z :=
  match read_exact 4 input with
  | (None, input) => (if eof then Ok None else Err unexpected_eof, input)
  | (Some n, input) =>
      let n := be_value n in
      if (n =? 0) || (MAX <? n) then (Err (InvalidFrame "replay block"), input)
      else
        match read_exact (Z.to_nat n) input with
        | (None, input) => (Err unexpected_eof, input)
        | (Some b, input) =>
            match read_exact 4 input with
            | (None, input) => (Err unexpected_eof, input)
            | (Some c, input) =>
                if negb (crc b =? be_value c) then (Err (InvalidFrame "replay crc"), input)
                else (Ok (Some b), input)
            end
        end
  end.

(** How a playback ends. *)
Inductive Playback (A : Type) : Type :=
| Finished (a : A)
| Waiting
| OutOfFuel.
Arguments Finished {A}. Arguments Waiting {A}. Arguments OutOfFuel {A}.

Section replay.
Context {V C : Type} (sha256 : list Z -> list Z).
(** [serde_json::to_vec] and [serde_json::from_slice]. *)
Context (header_to_vec : ReplayHeader V -> result string (list Z))
        (header_from_slice : list Z -> result string (ReplayHeader V))
        (record_to_vec : ReplayRecord C -> result string (list Z))
        (record_from_slice : list Z -> result string (ReplayRecord C)).

(** The check of a record against the last tick, in the writer and in the reader. *)
Definition record_check (last : Z) (r : ReplayRecord C) : Result unit :=
  if (ReplayRecord_tick r =? 0) || (ReplayRecord_tick r <? last) then
    Err (InvalidFrame "replay order")
  else
    match r with
    | Checkpoint _ state state_hash =>
        if bool_decide (state_hash = sha256 state) then Ok () else Err (InvalidFrame "checkpoint hash")
    | _ => Ok ()
    end.

(** ** Writer *)

Record ReplayWriter : Type := { out : list Z; w_last : Z }.

Definition ReplayWriter_new (sink : list Z) (header : ReplayHeader V) : Result ReplayWriter :=
  if String.eqb header.(room_id) "" || negb ((1 <=? header.(tick_rate)) && (header.(tick_rate) <=? 240)) then
    Err (InvalidConfig "replay header")
  else
    let? bytes := map_err Serialization (header_to_vec header) in
    let '(written, sink) := block_write (sink ++ MAGIC) bytes in
    let? _ := written in
    Ok {| out := sink; w_last := 0 |}.

Definition ReplayWriter_record (self : ReplayWriter) (r : ReplayRecord C) : Result unit * ReplayWriter :=
  let? _ := record_check self.(w_last) r else self in
  let? bytes := map_err Serialization (record_to_vec r) else self in
  match block_write self.(out) bytes with
  | (Err e, sink) => (Err e, {| out := sink; w_last := self.(w_last) |})
  | (Ok _, sink) => (Ok (), {| out := sink; w_last := ReplayRecord_tick r |})
  end.

Definition ReplayWriter_finish (self : ReplayWriter) : Result (list Z) := Ok self.(out).

(** ** Reader *)

Record ReplayReader : Type := { input : list Z; header : ReplayHeader V; r_last : Z }.

Definition ReplayReader_new (source : list Z) : Result ReplayReader :=
  match read_exact 8 source with
  | (None, _) => Err unexpected_eof
  | (Some magic, source) =>
      if negb (bool_decide (magic = MAGIC)) then Err (InvalidFrame "replay format")
      else
        let '(block, source) := block_read source false in
        let? block := block in
        let? bytes := ok_or block (InvalidFrame "missing replay header") in
        let? header := map_err Serialization (header_from_slice bytes) in
        Ok {| input := source; header := header; r_last := 0 |}
  end.

Definition ReplayReader_read_next (self : ReplayReader) :
    Result (option (ReplayRecord C)) * ReplayReader :=
  let '(block, source) := block_read self.(input) true in
  let self := {| input := source; header := self.(header); r_last := self.(r_last) |} in
  let? block := block else self in
  match block with
  | None => (Ok None, self)
  | Some bytes =>
      let? r := map_err Serialization (record_from_slice bytes) else self in
      let? _ := record_check self.(r_last) r else self in
      (Ok (Some r), {| input := source; header := self.(header); r_last := ReplayRecord_tick r |})
  end.

(** ** Player *)

Record Command : Type := { player : PlayerKey; sequence : Z; value : C }.

(** [trait ReplayDriver]: the room being driven, its state passed along.  [submit_at] answers [None] when
    it waits for ever: the player is the only task that advances the room, so a submission that has to
    wait for the room is never completed. *)
Class ReplayDriver (D : Type) := {
  driver_room_id : D -> string;
  driver_current_tick : D -> Z;
  driver_tick_rate : D -> Z;
  driver_input_delay_ticks : D -> Z;
  driver_rollback_window_ticks : D -> Z;
  submit_at : D -> Z -> Command -> option (Result unit) * D;
  advance : D -> Result unit * D;
  canonical_state : D -> Result (list Z) * D;
}.

Record ReplayStats : Type := {
  commands_submitted : Z;
  ticks_advanced : Z;
  checkpoints_verified : Z;
}.

Definition ReplayStats_default : ReplayStats :=
  {| commands_submitted := 0; ticks_advanced := 0; checkpoints_verified := 0 |}.

Section player.
Context {D : Type} `{!ReplayDriver D}.

(** The body of the loop of [play_replay]; [None] when a submission waits for ever. *)
Definition play_record (driver : D) (stats : ReplayStats) (r : ReplayRecord C) :
    option (Result ReplayStats) * D :=
  match r with
  | CommandRecord tick player sequence command =>
      let '(res, driver) :=
        submit_at driver tick {| player := player; sequence := sequence; value := command |} in
      (match res with
       | None => None
       | Some (Err e) => Some (Err e)
       | Some (Ok _) =>
           Some (Ok {| commands_submitted := wrap_u64 (stats.(commands_submitted) + 1);
                       ticks_advanced := stats.(ticks_advanced);
                       checkpoints_verified := stats.(checkpoints_verified) |})
       end, driver)
  | TickRecord tick =>
      if negb (tick =? wrap_u64 (driver_current_tick driver + 1)) then
        (Some (Err (InvalidFrame "replay Tick is out of order")), driver)
      else
        let '(res, driver) := advance driver in
        (Some (
           let? _ := res in
           if negb (driver_current_tick driver =? tick) then
             Err (InvalidFrame "replay driver Tick mismatch")
           else
             Ok {| commands_submitted := stats.(commands_submitted);
                   ticks_advanced := wrap_u64 (stats.(ticks_advanced) + 1);
                   checkpoints_verified := stats.(checkpoints_verified) |}), driver)
  | Checkpoint tick _ state_hash =>
      if negb (driver_current_tick driver =? tick) then
        (Some (Err (InvalidFrame "replay checkpoint Tick mismatch")), driver)
      else
        let '(res, driver) := canonical_state driver in
        (Some (
           let? canonical := res in
           if negb (bool_decide (state_hash = sha256 canonical)) then
             Err (InvalidFrame "replay checkpoint state mismatch")
           else
             Ok {| commands_submitted := stats.(commands_submitted);
                   ticks_advanced := stats.(ticks_advanced);
                   checkpoints_verified := wrap_u64 (stats.(checkpoints_verified) + 1) |}), driver)
  end.

(** The loop: every record read consumes at least one byte, so [fuel] above the number of bytes left is
    never used up. *)
Fixpoint play_loop (fuel : nat) (reader : ReplayReader) (driver : D) (stats : ReplayStats) :
    Playback (Result ReplayStats) * ReplayReader * D :=
  match fuel with
  | O => (OutOfFuel, reader, driver)
  | S fuel =>
      match ReplayReader_read_next reader with
      | (Err e, reader) => (Finished (Err e), reader, driver)
      | (Ok None, reader) => (Finished (Ok stats), reader, driver)
      | (Ok (Some r), reader) =>
          match play_record driver stats r with
          | (None, driver) => (Waiting, reader, driver)
          | (Some (Err e), driver) => (Finished (Err e), reader, driver)
          | (Some (Ok stats), driver) => play_loop fuel reader driver stats
          end
      end
  end.

Definition play_replay (reader : ReplayReader) (driver : D) :
    Playback (Result ReplayStats) * ReplayReader * D :=
  if negb (String.eqb (driver_room_id driver) reader.(header).(room_id))
     || negb (driver_current_tick driver =? 0)
     || negb (driver_tick_rate driver =? reader.(header).(tick_rate))
     || negb (driver_input_delay_ticks driver =? reader.(header).(input_delay_ticks))
     || negb (driver_rollback_window_ticks driver =? reader.(header).(rollback_window_ticks)) then
    (Finished (Err (InvalidConfig "replay driver does not match header")), reader, driver)
  else play_loop (S (length reader.(input))) reader driver ReplayStats_default.
End player.
End replay.

(** The checksum is CRC-32. *)
Example crc_check_value : crc [49; 50; 51; 52; 53; 54; 55; 56; 57] = 0xCBF43926.
Proof. vm_compute. reflexivity. Qed.

(** ** Blocks are read as they were written *)

Definition u32_range (v : Z) : Prop := 0 <= v < 4294967296.

Lemma lxor_u32 a b : u32_range a -> u32_range b -> u32_range (Z.lxor a b).
Proof.
  intros [Ha Ha'] [Hb Hb']. assert (Hn : 0 <= Z.lxor a b) by (apply Z.lxor_nonneg; lia).
  split; [done|]. destruct (Z.eq_dec (Z.lxor a b) 0) as [->|Hne]; [lia|].
  apply (Z.log2_lt_pow2 _ 32); [lia|]. pose proof (Z.log2_lxor a b Ha Hb) as Hlog.
  assert (Hl : forall v, 0 <= v < 4294967296 -> Z.log2 v < 32).
  { intros v Hv. destruct (Z.eq_dec v 0) as [->|]; [cbn; lia|]. apply Z.log2_lt_pow2; [lia|apply Hv]. }
  pose proof (Hl a ltac:(lia)). pose proof (Hl b ltac:(lia)). lia.
Qed.

Lemma crc_step_u32 c : u32_range c -> u32_range (crc_step c).
Proof.
  intros Hc. unfold crc_step. apply lxor_u32.
  - unfold u32_range in *. rewrite Z.shiftr_div_pow2 by lia. change (2 ^ 1) with 2.
    split; [apply Z.div_pos; lia|]. apply Z.div_lt_upper_bound; lia.
  - pose proof (Z.mod_pos_bound (0 - Z.land c 1) 4294967296 ltac:(lia)) as Hm.
    set (m := _ mod _) in *. split; [apply Z.land_nonneg; lia|].
    destruct (Z.eq_dec (Z.land 3988292384 m) 0) as [->|Hne]; [lia|].
    pose proof (proj2 (Z.land_nonneg 3988292384 m) ltac:(lia)).
    apply (Z.log2_lt_pow2 _ 32); [lia|]. pose proof (Z.log2_land 3988292384 m ltac:(lia) ltac:(lia)).
    assert (Z.log2 3988292384 = 31) by reflexivity. lia.
Qed.

Lemma crc_u32 b : bytes_ok b -> u32_range (crc b).
Proof.
  intros Hb. unfold crc. apply lxor_u32; [|unfold u32_range, u32_max; lia].
  assert (Hstart : u32_range u32_max) by (unfold u32_range, u32_max; lia).
  revert Hstart. generalize u32_max as c. induction Hb as [|x b Hx Hb IH]; intros c Hc; [done|].
  cbn [foldl]. apply IH. apply Nat.iter_invariant; [by apply crc_step_u32|].
  apply lxor_u32; [done|]. unfold byte_ok in Hx. unfold u32_range. lia.
Qed.

Definition block (b : list Z) : list Z := put_be 4 (len b) ++ b ++ put_be 4 (crc b).
Definition block_ok (b : list Z) : Prop := bytes_ok b /\ 0 < len b <= MAX.

Lemma read_exact_app n l rest : length l = n -> read_exact n (l ++ rest) = (Some l, rest).
Proof.
  intros Hn. unfold read_exact. rewrite take_app_length', drop_app_length' by done.
  rewrite length_app. by destruct (Nat.leb_spec n (length l + length rest)); [|lia].
Qed.

Lemma block_read_block b rest eof : block_ok b -> block_read (block b ++ rest) eof = (Ok (Some b), rest).
Proof.
  intros [Hb Hlen]. unfold block_read, block. rewrite <-!app_assoc.
  rewrite read_exact_app by apply length_put_be. assert (HM : MAX = 16777216) by reflexivity.
  rewrite be_value_put by (change (256 ^ Z.of_nat 4) with 4294967296; lia).
  destruct (Z.eqb_spec (len b) 0); [lia|]. destruct (Z.ltb_spec MAX (len b)); [lia|]. cbn [orb].
  rewrite read_exact_app by (unfold len; lia). rewrite read_exact_app by apply length_put_be.
  rewrite be_value_put by (apply crc_u32, Hb). by rewrite Z.eqb_refl.
Qed.

(** Whatever is accepted as a block is one: length, content and checksum agree with the bytes
    consumed. *)
Lemma block_read_canonical source eof b rest :
  bytes_ok source -> block_read source eof = (Ok (Some b), rest) ->
  source = block b ++ rest /\ block_ok b.
Proof.
  intros Hok. unfold block_read, read_exact.
  destruct (Nat.leb_spec 4 (length source)) as [H4|]; [|by destruct eof].
  set (n := be_value (take 4 source)).
  assert (Hn : put_be 4 n = take 4 source).
  { unfold n. rewrite <-(put_be_value (take 4 source)) at 2 by by apply Forall_take.
    rewrite length_take. f_equal. lia. }
  pose proof (be_value_range (take 4 source) ltac:(by apply Forall_take)) as Hr. fold n in Hr.
  destruct (Z.eqb_spec n 0); [done|]. destruct (Z.ltb_spec MAX n); [done|]. cbn [orb].
  set (s1 := drop 4 source). destruct (Nat.leb_spec (Z.to_nat n) (length s1)) as [Hn1|]; [|done].
  set (s2 := drop (Z.to_nat n) s1). destruct (Nat.leb_spec 4 (length s2)) as [H42|]; [|done].
  set (b0 := take (Z.to_nat n) s1). destruct (Z.eqb_spec (crc b0) (be_value (take 4 s2))) as [Hc|]; [|done].
  cbn [negb]. intros [= <- <-].
  assert (Hs1 : bytes_ok s1) by by apply Forall_drop.
  assert (Hs2 : bytes_ok s2) by by apply Forall_drop.
  assert (Hlen : len b0 = n) by (unfold len, b0; rewrite length_take; lia).
  split; [|split; [by apply Forall_take|lia]].
  unfold block. rewrite Hlen, Hn, Hc. rewrite <-!app_assoc.
  assert (Hc4 : put_be 4 (be_value (take 4 s2)) = take 4 s2).
  { rewrite <-(put_be_value (take 4 s2)) at 2 by by apply Forall_take. rewrite length_take. f_equal. lia. }
  rewrite Hc4, take_drop. fold s2. unfold b0, s2. rewrite take_drop. unfold s1. by rewrite take_drop.
Qed.

(** ** Playing back a recording *)

Section recordings.
Context {V C : Type} (sha256 : list Z -> list Z).
Context (header_to_vec : ReplayHeader V -> result string (list Z))
        (header_from_slice : list Z -> result string (ReplayHeader V))
        (record_to_vec : ReplayRecord C -> result string (list Z))
        (record_from_slice : list Z -> result string (ReplayRecord C)).

Abbreviation read_next := (ReplayReader_read_next (V:=V) sha256 record_from_slice).
Abbreviation write := (ReplayWriter_record sha256 record_to_vec).

(** Writes the records, stopping at the first failure. *)
Fixpoint record_all (w : ReplayWriter) (rs : list (ReplayRecord C)) : Result ReplayWriter :=
  match rs with
  | [] => Ok w
  | r :: rs => let '(res, w) := write w r in let? _ := res in record_all w rs
  end.

(** Reads records until the end; [None] is exhausted fuel. *)
Fixpoint read_all (fuel : nat) (reader : @ReplayReader V) : option (Result (list (ReplayRecord C))) :=
  match fuel with
  | O => None
  | S fuel =>
      match read_next reader with
      | (Err e, _) => Some (Err e)
      | (Ok None, _) => Some (Ok [])
      | (Ok (Some r), reader) =>
          (fun res => let? rs := res in Ok (r :: rs)) <$> read_all fuel reader
      end
  end.

(** Drives the room from a list of records: the specification of playback. *)
Fixpoint play_records {D} `{!@ReplayDriver C D} (driver : D) (stats : ReplayStats)
    (rs : list (ReplayRecord C)) : Playback (Result ReplayStats) * D :=
  match rs with
  | [] => (Finished (Ok stats), driver)
  | r :: rs =>
      match play_record sha256 driver stats r with
      | (None, driver) => (Waiting, driver)
      | (Some (Err e), driver) => (Finished (Err e), driver)
      | (Some (Ok stats), driver) => play_records driver stats rs
      end
  end.

(** The bytes of a sequence of records accepted after tick [last]. *)
Fixpoint recording (last : Z) (rs : list (ReplayRecord C)) (data : list Z) : Prop :=
  match rs with
  | [] => data = []
  | r :: rs => exists b rest, data = block b ++ rest /\ record_to_vec r = Ok b /\ block_ok b
      /\ record_check sha256 last r = Ok () /\ recording (ReplayRecord_tick r) rs rest
  end.

Context (record_law : json_law record_to_vec record_from_slice).

Lemma record_ok w r w' :
  write w r = (Ok (), w') ->
  exists b, record_to_vec r = Ok b /\ block_ok b /\ record_check sha256 w.(w_last) r = Ok ()
    /\ w' = {| out := w.(out) ++ block b; w_last := ReplayRecord_tick r |}.
Proof.
  unfold ReplayWriter_record. destruct (record_check sha256 (w_last w) r) as [[]|]; [|done].
  destruct (record_to_vec r) as [b|] eqn:Hb; cbn [map_err]; [|done]. unfold block_write.
  destruct (_ || _) eqn:Hlen; [done|]. intros [= <-].
  apply orb_false_iff in Hlen as [H0%Z.eqb_neq H1%Z.ltb_ge]. pose proof (len_nonneg b).
  destruct (record_law r b Hb) as [Hok _]. exists b. split_and!; [done| |done|done].
  split; [done|lia].
Qed.

Lemma record_all_recording rs : forall w w',
  record_all w rs = Ok w' -> exists data, w'.(out) = w.(out) ++ data /\ recording w.(w_last) rs data.
Proof.
  induction rs as [|r rs IH]; intros w w' Hrun; cbn [record_all] in Hrun.
  - injection Hrun as <-. exists []. by rewrite app_nil_r.
  - destruct (write w r) as [[[]|] w1] eqn:Hw; [|done].
    apply record_ok in Hw as (b & Hb & Hok & Hc & ->).
    destruct (IH _ _ Hrun) as (data & Hout & Hrec). exists (block b ++ data).
    cbn [out w_last] in *. rewrite Hout, <-app_assoc. split; [done|]. by exists b, data.
Qed.

Lemma read_next_recording r rs data (h : ReplayHeader V) last :
  recording last (r :: rs) data ->
  exists rest, recording (ReplayRecord_tick r) rs rest /\ (length rest < length data)%nat
    /\ read_next {| input := data; header := h; r_last := last |}
       = (Ok (Some r), {| input := rest; header := h; r_last := ReplayRecord_tick r |}).
Proof.
  intros (b & rest & -> & Hb & Hok & Hc & Hrec). exists rest. split_and!; [done| |].
  - unfold block. rewrite !length_app, length_put_be. lia.
  - unfold ReplayReader_read_next. cbn [input header r_last]. rewrite block_read_block by done.
    destruct (record_law r b Hb) as [_ ->]. cbn [map_err]. by rewrite Hc.
Qed.

Lemma read_next_end (h : ReplayHeader V) last :
  read_next {| input := []; header := h; r_last := last |}
  = (Ok None, {| input := []; header := h; r_last := last |}).
Proof. reflexivity. Qed.

Lemma read_all_recording rs : forall fuel data (h : ReplayHeader V) last,
  recording last rs data -> (length data < fuel)%nat ->
  read_all fuel {| input := data; header := h; r_last := last |} = Some (Ok rs).
Proof.
  induction rs as [|r rs IH]; intros [|fuel] data h last Hrec Hfuel; try lia; cbn [read_all].
  - cbn in Hrec. subst data. by rewrite read_next_end.
  - destruct (read_next_recording r rs data h last Hrec) as (rest & Hrest & Hlt & ->).
    rewrite (IH fuel rest h _ Hrest) by lia. done.
Qed.

Lemma play_loop_recording {D} `{!@ReplayDriver C D} rs :
  forall fuel data (h : ReplayHeader V) last (d : D) stats,
  recording last rs data -> (length data < fuel)%nat ->
  exists reader, play_loop sha256 record_from_slice fuel
      {| input := data; header := h; r_last := last |} d stats
    = ((play_records d stats rs).1, reader, (play_records d stats rs).2).
Proof.
  induction rs as [|r rs IH]; intros [|fuel] data h last d stats Hrec Hfuel; try lia; cbn [play_loop].
  - cbn in Hrec. subst data. rewrite read_next_end. by eexists.
  - destruct (read_next_recording r rs data h last Hrec) as (rest & Hrest & Hlt & ->).
    cbn [play_records]. destruct (play_record sha256 d stats r) as [[[st|e]|] d']; [|by eexists..].
    apply IH; [done|lia].
Qed.

Context (header_law : json_law header_to_vec header_from_slice).

Lemma header_round_trip h w data :
  ReplayWriter_new header_to_vec [] h = Ok w ->
  w.(w_last) = 0 /\ ReplayReader_new header_from_slice (w.(out) ++ data)
    = Ok {| input := data; header := h; r_last := 0 |}.
Proof.
  unfold ReplayWriter_new. destruct (_ || _); [done|].
  destruct (header_to_vec h) as [b|] eqn:Hb; cbn [map_err]; [|done]. unfold block_write.
  destruct (_ || _) eqn:Hlen; [done|]. intros Hw.
  assert (w = {| out := MAGIC ++ block b; w_last := 0 |}) as ->
    by (injection Hw as <-; reflexivity).
  cbn [w_last out]. split; [done|].
  apply orb_false_iff in Hlen as [H0%Z.eqb_neq H1%Z.ltb_ge]. pose proof (len_nonneg b).
  destruct (header_law h b Hb) as [Hok Hdec].
  unfold ReplayReader_new. rewrite <-app_assoc, read_exact_app by reflexivity.
  rewrite bool_decide_eq_true_2 by done. cbn [negb].
  rewrite block_read_block by (split; [done|lia]). cbn [ok_or]. by rewrite Hdec.
Qed.
End recordings.

(** The room is at its start and configured as the header says. *)
Definition driver_matches {V C D} `{!@ReplayDriver C D} (h : ReplayHeader V) (d : D) : Prop :=
  driver_room_id d = h.(room_id) /\ driver_current_tick d = 0 /\ driver_tick_rate d = h.(tick_rate)
  /\ driver_input_delay_ticks d = h.(input_delay_ticks)
  /\ driver_rollback_window_ticks d = h.(rollback_window_ticks).

(** Recordings play back what was recorded.  The bytes a writer produced open as a reader with the
    same header and yield exactly the recorded records, in order, and then the end; and playing them
    into a room that matches the header does to it exactly what its recorded records say, one after
    the other, up to the end, the first failure or a submission that waits for ever, with that outcome. *)
Theorem replay_drives_recording {V C D : Type} `{!@ReplayDriver C D} (sha256 : list Z -> list Z)
  (header_to_vec : ReplayHeader V -> result string (list Z)) header_from_slice
  (record_to_vec : ReplayRecord C -> result string (list Z)) record_from_slice
  (h : ReplayHeader V) (rs : list (ReplayRecord C)) (w0 w : ReplayWriter) (d : D)
  (Hheader : json_law header_to_vec header_from_slice)
  (Hrecord : json_law record_to_vec record_from_slice)
  (Hnew : ReplayWriter_new header_to_vec [] h = Ok w0)
  (Hall : record_all sha256 record_to_vec w0 rs = Ok w)
  (Hmatch : driver_matches h d) :
  exists reader, ReplayReader_new header_from_slice w.(out) = Ok reader /\ reader.(header) = h
    /\ read_all sha256 record_from_slice (S (length reader.(input))) reader = Some (Ok rs)
    /\ let played := play_records sha256 d ReplayStats_default rs in
       exists reader', play_replay sha256 record_from_slice reader d
         = (played.1, reader', played.2).
Proof.
  destruct (record_all_recording sha256 record_to_vec record_from_slice Hrecord rs w0 w Hall)
    as (data & Hout & Hrec).
  destruct (header_round_trip header_to_vec header_from_slice Hheader h w0 data Hnew) as [Hlast Hread].
  rewrite Hlast in Hrec. eexists. rewrite Hout, Hread. split_and!; [done|done| |].
  - cbn [input]. eapply read_all_recording; [done..|lia].
  - cbn zeta. unfold play_replay. cbn [header input]. destruct Hmatch as (-> & -> & -> & -> & ->).
    rewrite String.eqb_refl, !Z.eqb_refl. cbn [negb orb].
    eapply play_loop_recording; [done..|lia].
Qed.

(** ** Witness: a recording of two ticks *)

Module Demo.

Definition demo_header : ReplayHeader unit :=
  {| room_id := "room"; tick_rate := 30; input_delay_ticks := 0; rollback_window_ticks := 0;
     created_unix_ms := 0; metadata := () |}.

(** Encodings that cover what the recording uses. *)
Definition header_to_vec (h : ReplayHeader unit) : result string (list Z) :=
  if String.eqb h.(room_id) "room" && (h.(tick_rate) =? 30) && (h.(input_delay_ticks) =? 0)
     && (h.(rollback_window_ticks) =? 0) && (h.(created_unix_ms) =? 0) then Ok [123; 125]
  else Err "unsupported".
Definition header_from_slice (l : list Z) : result string (ReplayHeader unit) := Ok demo_header.

Definition record_to_vec (r : ReplayRecord unit) : result string (list Z) :=
  match r with
  | TickRecord t => if (0 <=? t) && (t <? 256) then Ok [t] else Err "unsupported"
  | _ => Err "unsupported"
  end.
Definition record_from_slice (l : list Z) : result string (ReplayRecord unit) :=
  match l with
  | [t] => Ok (TickRecord t)
  | _ => Err "unsupported"
  end.

Lemma header_json : json_law header_to_vec header_from_slice.
Proof.
  intros [r t i b c []] bytes. unfold header_to_vec. cbn. destruct (_ && _) eqn:Hb; [|done]. intros [= <-].
  rewrite !andb_true_iff, String.eqb_eq, !Z.eqb_eq in Hb. destruct Hb as [[[[-> ->] ->] ->] ->].
  split; [|done]. repeat constructor; done.
Qed.

Lemma record_json : json_law record_to_vec record_from_slice.
Proof.
  intros [| t |] bytes; cbn; try done. destruct (_ && _) eqn:Hb; [|done]. intros [= <-]. breflect.
  split; [|done]. apply Forall_singleton. unfold byte_ok. lia.
Qed.

(** A room that only counts ticks. *)
#[global] Instance counter : ReplayDriver (C:=unit) Z := {|
  driver_room_id := fun _ => "room"; driver_current_tick := fun d => d;
  driver_tick_rate := fun _ => 30; driver_input_delay_ticks := fun _ => 0;
  driver_rollback_window_ticks := fun _ => 0; submit_at := fun d _ _ => (Some (Ok ()), d);
  advance := fun d => (Ok (), d + 1); canonical_state := fun d => (Ok [], d) |}.

Definition opened : ReplayWriter :=
  match ReplayWriter_new header_to_vec [] demo_header with
  | Ok w => w
  | Err _ => {| out := []; w_last := 0 |}
  end.
Definition written : ReplayWriter :=
  match record_all id record_to_vec opened [TickRecord 1; TickRecord 2] with
  | Ok w => w
  | Err _ => opened
  end.
End Demo.

Lemma replay_drives_recording_witness :
  exists reader, ReplayReader_new Demo.header_from_slice Demo.written.(out) = Ok reader
    /\ reader.(header) = Demo.demo_header
    /\ read_all id Demo.record_from_slice (S (length reader.(input))) reader
       = Some (Ok [TickRecord 1; TickRecord 2])
    /\ let played := play_records id (D:=Z) 0 ReplayStats_default [TickRecord 1; TickRecord 2] in
       exists reader', play_replay id Demo.record_from_slice (D:=Z) reader 0
         = (played.1, reader', played.2).
Proof.
  apply (replay_drives_recording id Demo.header_to_vec Demo.header_from_slice Demo.record_to_vec
    Demo.record_from_slice Demo.demo_header [TickRecord 1; TickRecord 2] Demo.opened Demo.written 0).
  - exact Demo.header_json.
  - exact Demo.record_json.
  - vm_compute. reflexivity.
  - vm_compute. reflexivity.
  - repeat split.
Defined.
