(* ===== verification/Realtime.v ===== *)
(** * Realtime rooms: [crates/elura-core/src/realtime.rs]

    The authoritative room: submission and scheduling of commands, the tick, rollback and
    resimulation for late commands, snapshots and their publication, finalization.  The simulation,
    the observer and the publisher are interfaces whose state is passed along; SHA-256 is a
    parameter.

    A submission is an atomic step, and so are the three phases of a tick ([advance_tick],
    [publish_tick], [finalize_tick]), between which submissions can arrive.  The command channel is
    the list of the commands sent and not yet received; [BinaryHeap] is represented by its elements in
    popping order, which is unambiguous because the orders are distinct.  Durations are nanoseconds;
    how long a tick takes is an argument. *)

From S2P Require Import Prelude Float64 CoreError Identity Replay.

Record RoomConfig : Type := {
  tick_rate : Z;
  input_delay_ticks : Z;
  max_future_input_ticks : Z;
  command_capacity : Z;
  max_pending_commands : Z;
  max_commands_per_tick : Z;
  snapshot_interval : Z;
  rollback_window_ticks : Z;
  max_snapshot_bytes : Z;
  publish_timeout : Z;
}.

Definition RoomConfig_default : RoomConfig :=
  {| tick_rate := 30; input_delay_ticks := 2; max_future_input_ticks := 600;
     command_capacity := 1024; max_pending_commands := 4096; max_commands_per_tick := 256;
     snapshot_interval := 2; rollback_window_ticks := 0; max_snapshot_bytes := Z.shiftl 16 20;
     publish_timeout := 50000000 |}.

Definition RoomConfig_validate (self : RoomConfig) : Result unit :=
  if negb ((1 <=? self.(tick_rate)) && (self.(tick_rate) <=? 240))
     || (self.(max_future_input_ticks) =? 0) || (self.(command_capacity) =? 0)
     || (self.(max_pending_commands) =? 0) || (self.(max_commands_per_tick) =? 0)
     || (self.(snapshot_interval) =? 0) || (10000 <? self.(rollback_window_ticks))
     || (self.(max_snapshot_bytes) =? 0) || (self.(publish_timeout) =? 0) then
    Err (InvalidConfig "invalid room limits")
  else Ok ().

Record Tick : Type := { number : Z; tick_delta : Z; elapsed : Z }.

Record Finalization : Type := {
  final_room_id : string;
  through_tick : Z;
  final_elapsed : Z;
}.

Record Snapshot (N : Type) : Type := {
  snapshot_room_id : string;
  snapshot_tick : Z;
  snapshot_elapsed : Z;
  snapshot_state : N;
  snapshot_hash : list Z;
}.
Arguments snapshot_room_id {N}. Arguments snapshot_tick {N}. Arguments snapshot_elapsed {N}.
Arguments snapshot_state {N}. Arguments snapshot_hash {N}.

(** [trait SnapshotPublisher]; [publish] answers [None] when it exceeds the timeout. *)
Class SnapshotPublisher (P N : Type) := {
  publish : P -> Snapshot N -> option (Result unit) * P;
  force_keyframe : P -> P;
}.

(** [trait AuthoritativeSimulation]. *)
Class AuthoritativeSimulation (S C N : Type) := {
  apply : S -> Command (C:=C) -> Result unit * S;
  step : S -> Tick -> Result unit * S;
  snapshot : S -> Tick -> Result N;
  encode_snapshot : S -> N -> Result (list Z);
  restore : S -> Tick -> N -> Result unit * S;
}.

(** [trait RoomObserver]. *)
Class RoomObserver (O C N : Type) := {
  on_command : O -> Z -> Command (C:=C) -> Result unit * O;
  on_tick : O -> Tick -> Result unit * O;
  on_snapshot : O -> Tick -> N -> list Z -> Result unit * O;
  on_rollback : O -> Z -> Z -> Result unit * O;
}.

(** ** Counters *)

(** The fields of [Counters], as the names of its cells. *)
Inductive Counter : Type :=
| ticks | tick_failures | tick_nanos | max_tick_nanos | accepted | queue_full | received | applied
| rejected | duplicates | late | snapshots_made | snapshot_errors | published | publication_errors
| observer_errors | rollbacks | rollback_failures | resimulated | finalized_updates.

#[export] Instance Counter_eq_dec : EqDecision Counter.
Proof. solve_decision. Defined.

Definition Counters : Type := Counter -> Z.
Definition Counters_default : Counters := fun _ => 0.

(** [fetch_add] and [fetch_max]; atomics wrap. *)
Definition fetch_add (k : Counters) (c : Counter) (n : Z) : Counters :=
  fun d => if decide (d = c) then wrap_u64 (k c + n) else k d.
Definition fetch_max (k : Counters) (c : Counter) (n : Z) : Counters :=
  fun d => if decide (d = c) then Z.max (k c) n else k d.

Record RoomStats : Type := {
  stats_current_tick : Z;
  stats_finalized_tick : Z;
  ticks_completed : Z;
  stats_tick_failures : Z;
  tick_duration_nanos : Z;
  max_tick_duration_nanos : Z;
  commands_accepted : Z;
  commands_queue_full : Z;
  command_queue_depth : Z;
  commands_received : Z;
  commands_applied : Z;
  commands_rejected : Z;
  stats_duplicates : Z;
  late_commands : Z;
  snapshots_created : Z;
  stats_snapshot_errors : Z;
  publications_completed : Z;
  stats_publication_errors : Z;
  stats_observer_errors : Z;
  rollbacks_completed : Z;
  stats_rollback_failures : Z;
  ticks_resimulated : Z;
  finalization_updates : Z;
}.

(** ** The room *)

Section room.
Context {S C N O P : Type} (sha256 : list Z -> list Z).
Context `{!AuthoritativeSimulation S C N} `{!RoomObserver O C N} `{!SnapshotPublisher P N}.

Record Submitted : Type := { sub_target : Z; sub_command : Command (C:=C) }.

Record Scheduled : Type := { target : Z; order : Z; command : Command (C:=C) }.

(** [Ord for Scheduled], reversed as the heap pops the greatest: what is popped first comes first. *)
Definition Scheduled_before (a b : Scheduled) : bool :=
  (a.(target) <? b.(target)) || ((a.(target) =? b.(target)) && (a.(order) <=? b.(order))).

Record TickEntry : Type := { commands : list (Command (C:=C)); entry_snapshot : N; hash : list Z }.

Record Runtime : Type := {
  receiver : list Submitted;
  pending : list Scheduled;
  history : gmap Z TickEntry;
  sequences : gmap PlayerKey Z;
  next_order : Z;
  initialized : bool;
}.

Record Room : Type := {
  room_name : string;
  config : RoomConfig;
  delta : Z;
  simulation : S;
  runtime : Runtime;
  snapshots : option N;
  finalizations : option Finalization;
  current : Z;
  finalized : Z;
  running : bool;
  counters : Counters;
  observer : option O;
  publisher : option P;
}.

Definition set_simulation (self : Room) (s : S) : Room :=
  {| room_name := self.(room_name); config := self.(config); delta := self.(delta); simulation := s;
     runtime := self.(runtime); snapshots := self.(snapshots); finalizations := self.(finalizations);
     current := self.(current); finalized := self.(finalized); running := self.(running);
     counters := self.(counters); observer := self.(observer); publisher := self.(publisher) |}.
Definition set_runtime (self : Room) (r : Runtime) : Room :=
  {| room_name := self.(room_name); config := self.(config); delta := self.(delta);
     simulation := self.(simulation); runtime := r; snapshots := self.(snapshots);
     finalizations := self.(finalizations); current := self.(current); finalized := self.(finalized);
     running := self.(running); counters := self.(counters); observer := self.(observer);
     publisher := self.(publisher) |}.
Definition set_snapshots (self : Room) (n : option N) : Room :=
  {| room_name := self.(room_name); config := self.(config); delta := self.(delta);
     simulation := self.(simulation); runtime := self.(runtime); snapshots := n;
     finalizations := self.(finalizations); current := self.(current); finalized := self.(finalized);
     running := self.(running); counters := self.(counters); observer := self.(observer);
     publisher := self.(publisher) |}.
Definition set_finalized (self : Room) (through : Z) (f : option Finalization) : Room :=
  {| room_name := self.(room_name); config := self.(config); delta := self.(delta);
     simulation := self.(simulation); runtime := self.(runtime); snapshots := self.(snapshots);
     finalizations := f; current := self.(current); finalized := through; running := self.(running);
     counters := self.(counters); observer := self.(observer); publisher := self.(publisher) |}.
Definition set_current (self : Room) (n : Z) : Room :=
  {| room_name := self.(room_name); config := self.(config); delta := self.(delta);
     simulation := self.(simulation); runtime := self.(runtime); snapshots := self.(snapshots);
     finalizations := self.(finalizations); current := n; finalized := self.(finalized);
     running := self.(running); counters := self.(counters); observer := self.(observer);
     publisher := self.(publisher) |}.
Definition set_running (self : Room) (b : bool) : Room :=
  {| room_name := self.(room_name); config := self.(config); delta := self.(delta);
     simulation := self.(simulation); runtime := self.(runtime); snapshots := self.(snapshots);
     finalizations := self.(finalizations); current := self.(current); finalized := self.(finalized);
     running := b; counters := self.(counters); observer := self.(observer);
     publisher := self.(publisher) |}.
Definition set_counters (self : Room) (k : Counters) : Room :=
  {| room_name := self.(room_name); config := self.(config); delta := self.(delta);
     simulation := self.(simulation); runtime := self.(runtime); snapshots := self.(snapshots);
     finalizations := self.(finalizations); current := self.(current); finalized := self.(finalized);
     running := self.(running); counters := k; observer := self.(observer);
     publisher := self.(publisher) |}.
Definition set_observer (self : Room) (o : option O) : Room :=
  {| room_name := self.(room_name); config := self.(config); delta := self.(delta);
     simulation := self.(simulation); runtime := self.(runtime); snapshots := self.(snapshots);
     finalizations := self.(finalizations); current := self.(current); finalized := self.(finalized);
     running := self.(running); counters := self.(counters); observer := o;
     publisher := self.(publisher) |}.
Definition set_publisher (self : Room) (p : option P) : Room :=
  {| room_name := self.(room_name); config := self.(config); delta := self.(delta);
     simulation := self.(simulation); runtime := self.(runtime); snapshots := self.(snapshots);
     finalizations := self.(finalizations); current := self.(current); finalized := self.(finalized);
     running := self.(running); counters := self.(counters); observer := self.(observer);
     publisher := p |}.

Definition count (self : Room) (c : Counter) (n : Z) : Room :=
  set_counters self (fetch_add self.(counters) c n).

Definition set_history (self : Room) (h : gmap Z TickEntry) : Room :=
  let r := self.(runtime) in
  set_runtime self
    {| receiver := r.(receiver); pending := r.(pending); history := h; sequences := r.(sequences);
       next_order := r.(next_order); initialized := r.(initialized) |}.

Definition set_pending (self : Room) (l : list Scheduled) : Room :=
  let r := self.(runtime) in
  set_runtime self
    {| receiver := r.(receiver); pending := l; history := r.(history); sequences := r.(sequences);
       next_order := r.(next_order); initialized := r.(initialized) |}.

(** [Room::with_observer]; [Room::new] passes no observer.  [from_secs_f64] does not panic on the rates
    [validate] accepts ([room_delta_positive]). *)
Definition Room_with_observer (name : string) (config : RoomConfig) (s : S) (o : option O) : Result Room :=
  let? _ := RoomConfig_validate config in
  if String.eqb name "" || (128 <? string_len name) then Err (InvalidConfig "invalid room id")
  else
    Ok {| room_name := name; config := config;
          delta := default 0 (from_secs_f64 (f64_div f64_one (f64_of_Z config.(tick_rate))));
          simulation := s;
          runtime := {| receiver := []; pending := []; history := ∅; sequences := ∅; next_order := 0;
                        initialized := false |};
          snapshots := None; finalizations := None; current := 0; finalized := 0; running := false;
          counters := Counters_default; observer := o; publisher := None |}.

Definition Room_new (name : string) (config : RoomConfig) (s : S) : Result Room :=
  Room_with_observer name config s None.

Definition Room_with_publisher (self : Room) (p : P) : Room := set_publisher self (Some p).

Definition Room_tick (self : Room) (n : Z) : Tick :=
  {| number := n; tick_delta := self.(delta);
     elapsed := saturating_mul ((u64_max + 1) * 1000000000 - 1) self.(delta)
                  (if n <=? u32_max then n else u32_max) |}.

Definition Room_encode (self : Room) (s : S) (n : N) : Result (list Z) :=
  let? bytes := encode_snapshot s n in
  if self.(config).(max_snapshot_bytes) <? len bytes then Err (InvalidFrame "snapshot too large")
  else Ok bytes.

Definition Room_canonical_state (self : Room) : Result (list Z) :=
  let? n := snapshot self.(simulation) (Room_tick self self.(current)) in
  Room_encode self self.(simulation) n.

Definition Room_capture (self : Room) (t : Tick) : Result (N * list Z) * Room :=
  let result :=
    let? n := snapshot self.(simulation) t in
    let? bytes := Room_encode self self.(simulation) n in
    Ok (n, sha256 bytes) in
  match result with
  | Ok value => (Ok value, count self snapshots_made 1)
  | Err e => (Err e, count self snapshot_errors 1)
  end.

(** ** Submission *)

Definition Room_validate (self : Room) (target : Z) (command : Command (C:=C)) : Result unit :=
  if (target =? 0) || negb (is_ok (PlayerKey_validate command.(player))) || (command.(sequence) =? 0)
     || (saturating_add u64_max self.(current) self.(config).(max_future_input_ticks) <? target) then
    Err (InvalidConfig "invalid room command")
  else if (target <=? self.(current))
          && ((self.(config).(rollback_window_ticks) =? 0) || (target <=? self.(finalized))) then
    Err (InvalidConfig "target tick cannot be changed")
  else Ok ().

Definition send (self : Room) (target : Z) (command : Command (C:=C)) : Room :=
  let r := self.(runtime) in
  set_runtime self
    {| receiver := r.(receiver) ++ [{| sub_target := target; sub_command := command |}];
       pending := r.(pending); history := r.(history); sequences := r.(sequences);
       next_order := r.(next_order); initialized := r.(initialized) |}.

Definition channel_full (self : Room) : bool :=
  self.(config).(command_capacity) <=? len self.(runtime).(receiver).

Definition Room_try_submit_at (self : Room) (target : Z) (command : Command (C:=C)) :
    Result unit * Room :=
  let? _ := Room_validate self target command else self in
  if channel_full self then (Err QueueFull, count self queue_full 1)
  else (Ok (), count (send self target command) accepted 1).

(** [None]: the channel is full and the submission waits for the room. *)
Definition Room_submit_at (self : Room) (target : Z) (command : Command (C:=C)) :
    option (Result unit) * Room :=
  match Room_validate self target command with
  | Err e => (Some (Err e), self)
  | Ok _ =>
      if channel_full self then (None, self)
      else (Some (Ok ()), count (send self target command) accepted 1)
  end.

Definition default_target (self : Room) : Z :=
  wrap_u64 (self.(current) + self.(config).(input_delay_ticks) + 1).

Definition Room_try_submit (self : Room) (command : Command (C:=C)) : Result unit * Room :=
  Room_try_submit_at self (default_target self) command.

Definition Room_submit (self : Room) (command : Command (C:=C)) : option (Result unit) * Room :=
  Room_submit_at self (default_target self) command.

(** ** A tick *)

(** An observer callback: an error is counted and otherwise ignored. *)
Definition observe (self : Room) (callback : O -> Result unit * O) : Room :=
  match self.(observer) with
  | None => self
  | Some o =>
      let '(r, o) := callback o in
      let self := set_observer self (Some o) in
      if is_ok r then self else count self observer_errors 1
  end.

Definition Room_initialize (self : Room) : Result unit * Room :=
  if self.(runtime).(initialized) then (Ok (), self)
  else
    let '(captured, self) := Room_capture self (Room_tick self 0) in
    let? (n, h) := captured else self in
    let r := self.(runtime) in
    (Ok (), set_runtime self
      {| receiver := r.(receiver); pending := r.(pending);
         history := <[0 := {| commands := []; entry_snapshot := n; hash := h |}]> r.(history);
         sequences := r.(sequences); next_order := r.(next_order); initialized := true |}).

(** The state of the loop of [drain]. *)
Record drained : Type := {
  dr_pending : list Scheduled;
  dr_history : gmap Z TickEntry;
  dr_sequences : gmap PlayerKey Z;
  dr_order : Z;
  dr_late : option Z;
  dr_counters : Counters;
}.

Definition push_command (e : TickEntry) (c : Command (C:=C)) : TickEntry :=
  {| commands := e.(commands) ++ [c]; entry_snapshot := e.(entry_snapshot); hash := e.(hash) |}.

(** One iteration of the loop of [drain]. *)
Definition drain_one (cfg : RoomConfig) (current : Z) (d : drained) (input : Submitted) : drained :=
  let c := input.(sub_command) in
  let k := fetch_add d.(dr_counters) received 1 in
  let keep (k : Counters) : drained :=
    {| dr_pending := d.(dr_pending); dr_history := d.(dr_history); dr_sequences := d.(dr_sequences);
       dr_order := d.(dr_order); dr_late := d.(dr_late); dr_counters := k |} in
  if c.(sequence) <=? default 0 (d.(dr_sequences) !! c.(player)) then keep (fetch_add k duplicates 1)
  else if input.(sub_target) <=? current then
    let k := fetch_add k late 1 in
    match d.(dr_history) !! input.(sub_target) with
    | Some e =>
        if len e.(commands) <? cfg.(max_commands_per_tick) then
          {| dr_pending := d.(dr_pending);
             dr_history := <[input.(sub_target) := push_command e c]> d.(dr_history);
             dr_sequences := <[c.(player) := c.(sequence)]> d.(dr_sequences);
             dr_order := d.(dr_order);
             dr_late := Some (match d.(dr_late) with
                              | None => input.(sub_target)
                              | Some v => Z.min v input.(sub_target)
                              end);
             dr_counters := k |}
        else keep (fetch_add k rejected 1)
    | None => keep (fetch_add k rejected 1)
    end
  else if cfg.(max_pending_commands) <=? len d.(dr_pending) then keep (fetch_add k rejected 1)
  else
    let order := wrap_u64 (d.(dr_order) + 1) in
    {| dr_pending :=
         insert_by Scheduled_before
           {| target := input.(sub_target); order := order; command := c |} d.(dr_pending);
       dr_history := d.(dr_history);
       dr_sequences := <[c.(player) := c.(sequence)]> d.(dr_sequences);
       dr_order := order; dr_late := d.(dr_late); dr_counters := k |}.

Definition Room_drain (self : Room) : option Z * Room :=
  let r := self.(runtime) in
  let d := foldl (drain_one self.(config) self.(current))
    {| dr_pending := r.(pending); dr_history := r.(history); dr_sequences := r.(sequences);
       dr_order := r.(next_order); dr_late := None; dr_counters := self.(counters) |}
    r.(receiver) in
  (d.(dr_late),
   set_counters (set_runtime self
     {| receiver := []; pending := d.(dr_pending); history := d.(dr_history);
        sequences := d.(dr_sequences); next_order := d.(dr_order); initialized := r.(initialized) |})
     d.(dr_counters)).

(** [for command in commands { s.apply(command).await? }]. *)
Fixpoint apply_all (s : S) (cs : list (Command (C:=C))) : Result unit * S :=
  match cs with
  | [] => (Ok (), s)
  | c :: cs =>
      let '(r, s) := apply s c in
      let? _ := r else s in
      apply_all s cs
  end.

(** One iteration of the loop of [resimulate]. *)
Definition resimulate_tick (self : Room) (n : Z) : Result unit * Room :=
  let? e := ok_or (self.(runtime).(history) !! n) (InvalidConfig "rollback history") else self in
  let '(r, s) := apply_all self.(simulation) e.(commands) in
  let self := set_simulation self s in
  let? _ := r else self in
  let t := Room_tick self n in
  let '(r, s) := step self.(simulation) t in
  let self := set_simulation self s in
  let? _ := r else self in
  let '(captured, self) := Room_capture self t in
  let? (sn, h) := captured else self in
  let? e := ok_or (self.(runtime).(history) !! n) (InvalidConfig "rollback history") else self in
  (Ok (), set_history self
    (<[n := {| commands := e.(commands); entry_snapshot := sn; hash := h |}]>
       self.(runtime).(history))).

Fixpoint resimulate_loop (self : Room) (l : list Z) : Result unit * Room :=
  match l with
  | [] => (Ok (), self)
  | n :: l =>
      let '(r, self) := resimulate_tick self n in
      let? _ := r else self in
      resimulate_loop self l
  end.

Definition Room_resimulate (self : Room) (from through : Z) : Result unit * Room :=
  if from <? 1 then (Err (InvalidConfig "rollback target"), self)
  else
    let base := from - 1 in
    let? checkpoint := ok_or (self.(runtime).(history) !! base) (InvalidConfig "rollback window")
      else self in
    let? bytes := Room_encode self self.(simulation) checkpoint.(entry_snapshot) else self in
    if negb (bool_decide (checkpoint.(hash) = sha256 bytes)) then
      (Err (InvalidFrame "checkpoint corrupted"), self)
    else
      let '(r, s) := restore self.(simulation) (Room_tick self base) checkpoint.(entry_snapshot) in
      let self := set_simulation self s in
      match r with
      | Err e => (Err e, count self rollback_failures 1)
      | Ok _ =>
          let? verified := snapshot self.(simulation) (Room_tick self base) else self in
          let? bytes := Room_encode self self.(simulation) verified else self in
          if negb (bool_decide (checkpoint.(hash) = sha256 bytes)) then
            (Err (InvalidFrame "restore mismatch"), self)
          else
            let '(r, self) := resimulate_loop self (seqZ from (through + 1 - from)) in
            let? _ := r else self in
            let self := count self rollbacks 1 in
            let self := count self resimulated (through - from + 1) in
            let self := set_publisher self (force_keyframe <$> self.(publisher)) in
            (Ok (), observe self (fun o => on_rollback o from through))
      end.

(** The loop over the due commands, at most [fuel] of them. *)
Fixpoint apply_due (fuel : nat) (n : Z) (self : Room) (done : list (Command (C:=C))) :
    list (Command (C:=C)) * Room :=
  match fuel with
  | Datatypes.O => (done, self)
  | Datatypes.S fuel =>
      match self.(runtime).(pending) with
      | [] => (done, self)
      | item :: rest =>
          if n <? item.(target) then (done, self)
          else
            let self := set_pending self rest in
            let self := observe self (fun o => on_command o n item.(command)) in
            let '(r, s) := apply self.(simulation) item.(command) in
            let self := set_simulation self s in
            if is_ok r then apply_due fuel n (count self applied 1) (done ++ [item.(command)])
            else apply_due fuel n (count self rejected 1) done
      end
  end.

(** [advance_inner] up to the store of the new current tick. *)
Definition advance_tick (self : Room) : Result (Tick * N * list Z) * Room :=
  let '(r, self) := Room_initialize self in
  let? _ := r else self in
  let '(late_from, self) := Room_drain self in
  let '(r, self) :=
    match late_from with
    | Some from => Room_resimulate self from self.(current)
    | None => (Ok (), self)
    end in
  let? _ := r else self in
  let n := wrap_u64 (self.(current) + 1) in
  let t := Room_tick self n in
  let '(cmds, self) := apply_due (Z.to_nat self.(config).(max_commands_per_tick)) n self [] in
  let '(r, s) := step self.(simulation) t in
  let self := set_simulation self s in
  let? _ := r else self in
  let self := observe self (fun o => on_tick o t) in
  let '(captured, self) := Room_capture self t in
  let? (sn, h) := captured else self in
  let self := set_history self
    (<[n := {| commands := cmds; entry_snapshot := sn; hash := h |}]> self.(runtime).(history)) in
  let self := set_current self n in
  (Ok (t, sn, h), count self ticks 1).

(** The snapshot every [snapshot_interval] ticks: to the watchers, the observer and the publisher. *)
Definition publish_tick (self : Room) (t : Tick) (sn : N) (h : list Z) : Room :=
  if negb (t.(number) mod self.(config).(snapshot_interval) =? 0) then self
  else
    let self := set_snapshots self (Some sn) in
    let self := observe self (fun o => on_snapshot o t sn h) in
    match self.(publisher) with
    | None => self
    | Some p =>
        let '(r, p) := publish p
          {| snapshot_room_id := self.(room_name); snapshot_tick := t.(number);
             snapshot_elapsed := t.(elapsed); snapshot_state := sn; snapshot_hash := h |} in
        let self := set_publisher self (Some p) in
        match r with
        | Some (Ok _) => count self published 1
        | Some (Err _) | None => count self publication_errors 1
        end
    end.

(** Finalization and the end of the retained history. *)
Definition finalize_tick (self : Room) (n : Z) : Room :=
  let through := saturating_sub n self.(config).(rollback_window_ticks) in
  let self :=
    if self.(finalized) <? through then
      count (set_finalized self through
        (Some {| final_room_id := self.(room_name); through_tick := through;
                 final_elapsed := (Room_tick self through).(elapsed) |})) finalized_updates 1
    else self in
  set_history self (filter (fun p => through <= p.1) self.(runtime).(history)).

Definition Room_advance_inner (self : Room) : Result unit * Room :=
  let '(r, self) := advance_tick self in
  let? (t, sn, h) := r else self in
  (Ok (), finalize_tick (publish_tick self t sn h) t.(number)).

(** [nanos] is how long the tick took. *)
Definition Room_advance_one (self : Room) (nanos : Z) : Result unit * Room :=
  let '(r, self) := Room_advance_inner self in
  let k := fetch_max (fetch_add self.(counters) tick_nanos nanos) max_tick_nanos nanos in
  let k := if is_ok r then k else fetch_add k tick_failures 1 in
  (r, set_counters self k).

Definition Room_advance (self : Room) (nanos : Z) : Result unit * Room :=
  if self.(running) then (Err (InvalidConfig "room is running"), self)
  else Room_advance_one self nanos.

(** What the loop of [run] waits for: the timer, with the duration of the tick it causes, or a change of
    the shutdown flag ([None] when its sender is gone). *)
Inductive RunEvent : Type :=
| TimerTick (nanos : Z)
| ShutdownChanged (flag : option bool).

Fixpoint run_loop (self : Room) (events : list RunEvent) : option (Result unit) * Room :=
  match events with
  | [] => (None, self)
  | ShutdownChanged flag :: events =>
      if default true flag then (Some (Ok ()), set_running self false) else run_loop self events
  | TimerTick nanos :: events =>
      match Room_advance_one self nanos with
      | (Err e, self) => (Some (Err e), self)
      | (Ok _, self) => run_loop self events
      end
  end.

(** [run] on the events that reach it; [None] while it has not returned. *)
Definition Room_run (self : Room) (events : list RunEvent) : option (Result unit) * Room :=
  if self.(running) then (Some (Err (InvalidConfig "room already running")), self)
  else run_loop (set_running self true) events.

Definition Room_stats (self : Room) : RoomStats :=
  let k := self.(counters) in
  {| stats_current_tick := self.(current);
     stats_finalized_tick := self.(finalized);
     ticks_completed := k ticks;
     stats_tick_failures := k tick_failures;
     tick_duration_nanos := k tick_nanos;
     max_tick_duration_nanos := k max_tick_nanos;
     commands_accepted := k accepted;
     commands_queue_full := k queue_full;
     command_queue_depth := len self.(runtime).(receiver);
     commands_received := k received;
     commands_applied := k applied;
     commands_rejected := k rejected;
     stats_duplicates := k duplicates;
     late_commands := k late;
     snapshots_created := k snapshots_made;
     stats_snapshot_errors := k snapshot_errors;
     publications_completed := k published;
     stats_publication_errors := k publication_errors;
     stats_observer_errors := k observer_errors;
     rollbacks_completed := k rollbacks;
     stats_rollback_failures := k rollback_failures;
     ticks_resimulated := k resimulated;
     finalization_updates := k finalized_updates |}.

(** [impl ReplayDriver for Room]; how long a replayed tick takes does not matter. *)
#[export] Instance Room_replay_driver : ReplayDriver (C:=C) Room := {|
  driver_room_id := room_name;
  driver_current_tick := current;
  driver_tick_rate := fun self => self.(config).(tick_rate);
  driver_input_delay_ticks := fun self => self.(config).(input_delay_ticks);
  driver_rollback_window_ticks := fun self => self.(config).(rollback_window_ticks);
  submit_at := Room_submit_at;
  advance := fun self => Room_advance self 0;
  canonical_state := fun self => (Room_canonical_state self, self) |}.
End room.
