(* ===== verification/Rollback.v ===== *)
(** * Rollback correctness of realtime rooms

    Theorems about [Realtime].  The specification is the naive simulation: a log holds, for every tick
    so far, the commands applied in it, and [sim_log] replays the log from the room's initial state.
    A room that accepts late commands, restores checkpoints and resimulates is, as long as no tick fails, in
    the state the naive simulation reaches on its log ([room_state_matches_log]). *)

From S2P Require Import Prelude Float64 CoreError Identity Replay Realtime.

(** ** What the room relies on *)

(** The behaviour [AuthoritativeSimulation] asks of an application, up to an equivalence of its states
    (a simulation may keep data that no command, step or snapshot depends on): operations are
    deterministic, a rejected command changes nothing, and restoring a snapshot gives the state it was
    taken of. *)
Class SimulationLaws {S C N : Type} `{!AuthoritativeSimulation S C N} (sim_eq : relation S) : Prop := {
  sim_equivalence :: Equivalence sim_eq;
  apply_respects :: Proper (sim_eq ==> eq ==> prod_relation eq sim_eq) (apply (S:=S) (C:=C) (N:=N));
  step_respects :: Proper (sim_eq ==> eq ==> prod_relation eq sim_eq) (step (S:=S) (C:=C) (N:=N));
  snapshot_respects :: Proper (sim_eq ==> eq ==> eq) (snapshot (S:=S) (C:=C) (N:=N));
  encode_respects :: Proper (sim_eq ==> eq ==> eq) (encode_snapshot (S:=S) (C:=C) (N:=N));
  apply_atomic (s : S) (c : Command (C:=C)) e s' : apply (N:=N) s c = (Err e, s') -> sim_eq s' s;
  restore_snapshot (s s1 s' : S) t (n : N) :
    snapshot (C:=C) s t = Ok n -> restore (C:=C) s1 t n = (Ok (), s') -> sim_eq s' s;
}.

Section rollback.
Context {S C N O P : Type} (sha256 : list Z -> list Z).
Context `{!AuthoritativeSimulation S C N} `{!RoomObserver O C N} `{!SnapshotPublisher P N}.
Context (sim_eq : relation S) `{!SimulationLaws (S:=S) (C:=C) (N:=N) sim_eq}.

Abbreviation Cmd := (Command (C:=C)).
Abbreviation room := (Room (S:=S) (C:=C) (N:=N) (O:=O) (P:=P)).
Abbreviation entries := (gmap Z (TickEntry (C:=C) (N:=N))).

(** ** The naive simulation *)

Definition tick_at (d n : Z) : Tick :=
  {| number := n; tick_delta := d;
     elapsed := saturating_mul ((u64_max + 1) * 1000000000 - 1) d (if n <=? u32_max then n else u32_max) |}.

(** One tick: the commands in order, then the step. *)
Definition sim_tick (d : Z) (s : S) (n : Z) (cs : list Cmd) : Result S :=
  match apply_all (N:=N) s cs with
  | (Err e, _) => Err e
  | (Ok _, s) =>
      match step (C:=C) (N:=N) s (tick_at d n) with
      | (Err e, _) => Err e
      | (Ok _, s) => Ok s
      end
  end.

(** The ticks [n + 1], [n + 2], ... of a log. *)
Fixpoint sim_log (d : Z) (s : S) (n : Z) (log : list (list Cmd)) : Result S :=
  match log with
  | [] => Ok s
  | cs :: log => let? s := sim_tick d s (n + 1) cs in sim_log d s (n + 1) log
  end.

Lemma sim_log_snoc d log cs : forall s n,
  sim_log d s n (log ++ [cs]) = let? s := sim_log d s n log in sim_tick d s (n + len log + 1) cs.
Proof.
  induction log as [|l log IH]; intros s n; cbn [sim_log app].
  - rewrite len_nil, Z.add_0_r. by destruct (sim_tick _ _ _ _).
  - destruct (sim_tick d s (n + 1) l); [|done]. rewrite IH, len_cons.
    by replace (n + 1 + len log + 1) with (n + (len log + 1) + 1) by lia.
Qed.

(** A run of commands and a tick on equivalent states. *)
#[export] Instance apply_all_respects :
  Proper (sim_eq ==> eq ==> prod_relation eq sim_eq) (apply_all (S:=S) (C:=C) (N:=N)).
Proof.
  intros s s' Hs cs ? <-. revert s s' Hs. induction cs as [|c cs IH]; intros s s' Hs; cbn [apply_all]; [done|].
  pose proof (apply_respects s s' Hs c c eq_refl) as [Hr Hs1].
  destruct (apply s c) as [r s1], (apply s' c) as [r' s1']. cbn in Hr, Hs1. subst r'.
  destruct r; [by apply IH|done].
Qed.

(** The room's state is the one the log gives. *)
Definition at_log (d : Z) (s0 : S) (log : list (list Cmd)) (s : S) : Prop :=
  exists s1, sim_log d s0 0 log = Ok s1 /\ sim_eq s1 s.

Lemma at_log_tick d s0 log s cs s1 s2 :
  at_log d s0 log s -> apply_all (N:=N) s cs = (Ok (), s1) ->
  step (C:=C) (N:=N) s1 (tick_at d (len log + 1)) = (Ok (), s2) -> at_log d s0 (log ++ [cs]) s2.
Proof.
  intros (s' & Hlog & Hs) Ha Hst. unfold at_log. rewrite sim_log_snoc, Hlog. unfold sim_tick.
  pose proof (apply_all_respects s' s Hs cs cs eq_refl) as [Hr Hs1]. rewrite Ha in Hr, Hs1. cbn in Hr, Hs1.
  destruct (apply_all s' cs) as [r s1']. cbn in Hr, Hs1. subst r.
  pose proof (step_respects s1' s1 Hs1 _ (tick_at d (len log + 1)) eq_refl) as [Hr Hs2].
  rewrite Hst in Hr, Hs2. rewrite Z.add_0_l. destruct (step s1' _) as [r s2']. cbn in Hr, Hs2. subst r. eauto.
Qed.

(** ** The retained history *)

(** The record of tick [n] holds the snapshot of the state the log gives after [n] ticks, and its
    digest. *)
Definition entry_ok (d : Z) (s0 : S) (log : list (list Cmd)) (n : Z) (e : TickEntry (C:=C) (N:=N)) : Prop :=
  exists s bytes, at_log d s0 (take (Z.to_nat n) log) s
    /\ snapshot (C:=C) s (tick_at d n) = Ok e.(entry_snapshot)
    /\ encode_snapshot (C:=C) s e.(entry_snapshot) = Ok bytes /\ e.(hash) = sha256 bytes.

Definition hist_dom (lo cur : Z) (h : entries) : Prop := forall n, is_Some (h !! n) <-> lo <= n <= cur.

Definition hist_commands (log : list (list Cmd)) (h : entries) : Prop :=
  forall n e, h !! n = Some e -> 1 <= n -> log !! Z.to_nat (n - 1) = Some e.(commands).

Definition hist_entries (d : Z) (s0 : S) (log : list (list Cmd)) (upto : Z) (h : entries) : Prop :=
  forall n e, h !! n = Some e -> n < upto -> entry_ok d s0 log n e.

(** What a room is made of, for the simulation. *)
Definition core (r : room) : RoomConfig * Z * S * Runtime (C:=C) (N:=N) * Z * Z :=
  (r.(config), r.(delta), r.(simulation), r.(runtime), r.(current), r.(finalized)).

Lemma core_observe r f : core (observe r f) = core r.
Proof. unfold observe. destruct (observer r) as [o|]; [|done]. destruct (f o) as [[] o']; done. Qed.

(** ** Capturing a snapshot *)

Lemma capture_ok r t n h r' :
  Room_capture sha256 r t = (Ok (n, h), r') ->
  core r' = core r /\ snapshot (C:=C) r.(simulation) t = Ok n
  /\ exists bytes, encode_snapshot (C:=C) r.(simulation) n = Ok bytes /\ h = sha256 bytes.
Proof.
  unfold Room_capture, Room_encode. destruct (snapshot _ t) as [n'|]; [|done].
  destruct (encode_snapshot _ n') as [bytes|] eqn:He; [|done].
  destruct (_ <? len bytes); [done|]. intros [= <- <- <-]. eauto.
Qed.

Lemma at_log_respects d s0 log s s' : at_log d s0 log s -> sim_eq s s' -> at_log d s0 log s'.
Proof. intros (s1 & Hlog & Hs) Hs'. exists s1. split; [done|]. by transitivity s. Qed.

(** ** Resimulation *)

(** What resimulation leaves alone. *)
Definition frame (r : room) :
    RoomConfig * Z * Z * Z * list (Submitted (C:=C)) * list (Scheduled (C:=C)) * gmap PlayerKey Z * Z * bool :=
  (r.(config), r.(delta), r.(current), r.(finalized), r.(runtime).(receiver), r.(runtime).(pending),
   r.(runtime).(sequences), r.(runtime).(next_order), r.(runtime).(initialized)).

Lemma core_split r r' :
  core r' = core r ->
  frame r' = frame r /\ r'.(simulation) = r.(simulation) /\ r'.(runtime).(history) = r.(runtime).(history).
Proof. unfold core, frame. intros [= -> -> -> -> -> ->]. done. Qed.

Lemma resimulate_tick_ok d s0 log r n r' :
  resimulate_tick sha256 r n = (Ok (), r') -> r.(delta) = d -> 1 <= n ->
  at_log d s0 (take (Z.to_nat (n - 1)) log) r.(simulation) ->
  hist_commands log r.(runtime).(history) -> hist_entries d s0 log n r.(runtime).(history) ->
  frame r' = frame r /\ at_log d s0 (take (Z.to_nat n) log) r'.(simulation)
  /\ hist_commands log r'.(runtime).(history) /\ hist_entries d s0 log (n + 1) r'.(runtime).(history)
  /\ (forall k, is_Some (r'.(runtime).(history) !! k) <-> is_Some (r.(runtime).(history) !! k)).
Proof.
  intros Hrun Hd Hn Hat Hcmd Hent. unfold resimulate_tick in Hrun.
  destruct (history (runtime r) !! n) as [e|] eqn:He; cbn [ok_or] in Hrun; [|done].
  destruct (apply_all _ _) as [[[]|] s1] eqn:Ha; [|done]. cbn [simulation set_simulation] in Hrun.
  change (Room_tick (set_simulation r s1) n) with (tick_at r.(delta) n) in Hrun. rewrite Hd in Hrun.
  destruct (step s1 _) as [[[]|] s2] eqn:Hst; [|done].
  destruct (Room_capture _ _ _) as [[[sn h]|] r2] eqn:Hcap; [|done].
  apply capture_ok in Hcap as (Hcore & Hsn & bytes & Hb & ->). cbn [simulation set_simulation] in Hsn, Hb.
  apply core_split in Hcore as (Hf & Hs & Hh). cbn [simulation set_simulation runtime] in Hs, Hh.
  rewrite Hh, He in Hrun. cbn [ok_or] in Hrun. injection Hrun as <-. cbn [set_history set_runtime runtime simulation history].
  pose proof (Hcmd n e He Hn) as Hlog. pose proof (lookup_lt_Some _ _ _ Hlog).
  assert (Hlen : len (take (Z.to_nat (n - 1)) log) + 1 = n) by (unfold len; rewrite length_take; lia).
  assert (Htake : take (Z.to_nat n) log = take (Z.to_nat (n - 1)) log ++ [commands e]).
  { replace (Z.to_nat n) with (Datatypes.S (Z.to_nat (n - 1))) by lia. by apply take_S_r. }
  assert (Hat' : at_log d s0 (take (Z.to_nat n) log) s2).
  { rewrite Htake. eapply at_log_tick; [exact Hat|exact Ha|by rewrite Hlen]. }
  split_and!.
  - transitivity (frame r2); [done|by rewrite Hf].
  - by rewrite Hs.
  - intros k e' Hk Hk1. destruct (decide (k = n)) as [->|Hne].
    + rewrite lookup_insert in Hk. rewrite decide_True in Hk by done. injection Hk as <-. done.
    + rewrite lookup_insert_ne in Hk by done. eauto.
  - intros k e' Hk Hk1. destruct (decide (k = n)) as [->|Hne].
    + rewrite lookup_insert, decide_True in Hk by done. injection Hk as <-. exists s2, bytes. done.
    + rewrite lookup_insert_ne in Hk by done. apply Hent; [done|lia].
  - intros k. destruct (decide (k = n)) as [->|Hne].
    + rewrite lookup_insert, decide_True by done. by rewrite He.
    + by rewrite lookup_insert_ne.
Qed.

Lemma resimulate_loop_ok d s0 log count : forall r n r',
  resimulate_loop sha256 r (seqZ n (Z.of_nat count)) = (Ok (), r') -> r.(delta) = d -> 1 <= n ->
  at_log d s0 (take (Z.to_nat (n - 1)) log) r.(simulation) ->
  hist_commands log r.(runtime).(history) -> hist_entries d s0 log n r.(runtime).(history) ->
  frame r' = frame r /\ at_log d s0 (take (Z.to_nat (n - 1 + Z.of_nat count)) log) r'.(simulation)
  /\ hist_commands log r'.(runtime).(history)
  /\ hist_entries d s0 log (n + Z.of_nat count) r'.(runtime).(history)
  /\ (forall k, is_Some (r'.(runtime).(history) !! k) <-> is_Some (r.(runtime).(history) !! k)).
Proof.
  induction count as [|count IH]; intros r n r' Hrun Hd Hn Hat Hcmd Hent.
  - cbn in Hrun. injection Hrun as <-. rewrite !Z.add_0_r. done.
  - rewrite seqZ_cons in Hrun by lia. cbn [resimulate_loop] in Hrun.
    destruct (resimulate_tick _ _ _) as [[[]|] r1] eqn:Ht; [|done].
    eapply (resimulate_tick_ok d s0 log) in Ht as (Hf1 & Hat1 & Hcmd1 & Hent1 & Hdom1); [|done..].
    assert (Hd1 : r1.(delta) = d) by (unfold frame in Hf1; congruence).
    replace (Z.pred (Z.of_nat (Datatypes.S count))) with (Z.of_nat count) in Hrun by lia.
    replace (Z.succ n) with (n + 1) in Hrun by lia.
    apply IH in Hrun as (Hf & Hat' & Hcmd' & Hent' & Hdom'); [|done|lia|..|done|done].
    + split_and!; [congruence|..|done| |].
      * by replace (n - 1 + Z.of_nat (Datatypes.S count)) with (n + 1 - 1 + Z.of_nat count) by lia.
      * by replace (n + Z.of_nat (Datatypes.S count)) with (n + 1 + Z.of_nat count) by lia.
      * intros k. by rewrite Hdom', Hdom1.
    + by replace (n + 1 - 1) with n by lia.
Qed.

(** A completed rollback puts the room in the state of the amended log. *)
Lemma resimulate_ok d s0 log r from r' :
  Room_resimulate sha256 r from r.(current) = (Ok (), r') -> r.(delta) = d ->
  len log = r.(current) -> from <= r.(current) ->
  hist_commands log r.(runtime).(history) -> hist_entries d s0 log from r.(runtime).(history) ->
  frame r' = frame r /\ at_log d s0 log r'.(simulation) /\ hist_commands log r'.(runtime).(history)
  /\ hist_entries d s0 log (r.(current) + 1) r'.(runtime).(history)
  /\ (forall k, is_Some (r'.(runtime).(history) !! k) <-> is_Some (r.(runtime).(history) !! k)).
Proof.
  intros Hrun Hd Hlen Hfrom Hcmd Hent. unfold Room_resimulate in Hrun.
  destruct (Z.ltb_spec from 1); [done|].
  destruct (history (runtime r) !! (from - 1)) as [e|] eqn:He; cbn [ok_or] in Hrun; [|done].
  destruct (Room_encode _ _ _) as [bytes|]; [|done]. destruct (negb _); [done|].
  change (Room_tick r (from - 1)) with (tick_at r.(delta) (from - 1)) in Hrun. rewrite Hd in Hrun.
  destruct (restore _ _ _) as [[[]|] s1] eqn:Hres; [|done].
  destruct (snapshot _ _) as [n1|]; [|done]. destruct (Room_encode _ _ _) as [bytes1|]; [|done].
  destruct (negb _); [done|]. destruct (resimulate_loop _ _ _) as [[[]|] r1] eqn:Hloop; [|done].
  injection Hrun as <-. destruct (Hent _ _ He ltac:(lia)) as (s & bs & Hat & Hsn & _ & _).
  pose proof (restore_snapshot _ _ _ _ _ Hsn Hres) as Hs.
  replace (current r + 1 - from) with (Z.of_nat (Z.to_nat (current r + 1 - from))) in Hloop by lia.
  apply (resimulate_loop_ok d s0 log) in Hloop as (Hf & Hat' & Hcmd' & Hent' & Hdom');
    [|done|lia| |done|done].
  - pose proof (core_observe (set_publisher (Realtime.count (Realtime.count r1 rollbacks 1) resimulated
      (current r - from + 1)) (force_keyframe <$> publisher r1)) (fun o => on_rollback o from (current r)))
      as Hobs. apply core_split in Hobs as (Hf' & Hs' & Hh').
    cbn [set_simulation runtime history current] in *.
    split_and!; [| |by rewrite Hh'|..].
    + rewrite Hf'. transitivity (frame r1); [done|by rewrite Hf].
    + rewrite Hs'. cbn. replace (Z.to_nat _) with (length log) in Hat' by (unfold len in Hlen; lia).
      by rewrite firstn_all in Hat'.
    + rewrite Hh'. by replace (current r + 1) with (from + Z.of_nat (Z.to_nat (current r + 1 - from))) by lia.
    + intros k. by rewrite Hh', <-Hdom'.
  - cbn. eapply at_log_respects; [exact Hat|]. by symmetry.
Qed.

(** ** Each command at most once *)

Definition command_key (c : Cmd) : PlayerKey * Z := (c.(player), c.(sequence)).

(** No two commands have the same player and sequence, and no sequence is above the last one recorded for
    its player. *)
Definition once (cs : list Cmd) (last : gmap PlayerKey Z) : Prop :=
  NoDup (command_key <$> cs)
  /\ Forall (fun c => c.(sequence) <= default 0 (last !! c.(player))) cs.

Lemma once_perm cs cs' last : cs ≡ₚ cs' -> once cs last -> once cs' last.
Proof. intros Hp [Hnd Hall]. unfold once. by rewrite <-Hp. Qed.

Lemma once_sublist cs cs' last : sublist cs' cs -> once cs last -> once cs' last.
Proof.
  intros Hsub [Hnd Hall]. split.
  - eapply sublist_NoDup; [exact Hnd|]. by apply fmap_sublist.
  - rewrite Forall_forall in *. intros c Hc. apply Hall. by eapply sublist_subseteq.
Qed.

Lemma once_cons c cs last :
  once cs last -> default 0 (last !! c.(player)) < c.(sequence) ->
  once (c :: cs) (<[c.(player) := c.(sequence)]> last).
Proof.
  intros [Hnd Hall] Hseq. rewrite Forall_forall in Hall. split.
  - rewrite fmap_cons. apply NoDup_cons. split; [|done].
    intros (c' & Heq & Hc')%list_elem_of_fmap. apply Hall in Hc'. unfold command_key in Heq.
    injection Heq as Hp Hs. rewrite <-Hp in Hc'. lia.
  - apply Forall_cons. split; [rewrite lookup_insert, decide_True by done; cbn; lia|].
    apply Forall_forall. intros c' Hc'. specialize (Hall c' Hc'). cbn in Hall.
    destruct (decide (player c' = player c)) as [Heq|Hne].
    + rewrite Heq, lookup_insert, decide_True by done. rewrite Heq in Hall. cbn. lia.
    + by rewrite lookup_insert_ne.
Qed.

Lemma concat_push (log : list (list Cmd)) i cs c :
  log !! i = Some cs -> concat (<[i := cs ++ [c]]> log) ≡ₚ c :: concat log.
Proof.
  revert i. induction log as [|l log IH]; intros [|i] Hi; cbn in Hi; [done..| |].
  - injection Hi as ->. cbn. rewrite <-app_assoc. cbn. symmetry. apply Permutation_middle.
  - cbn. rewrite (IH i Hi). symmetry. apply Permutation_middle.
Qed.

(** ** Receiving commands *)

Section receiving.
Context (cfg : RoomConfig) (lo cur : Z) (log0 : list (list Cmd)) (h0 : entries).

(** The loop of [drain]: late commands join the log at their tick; everything before the earliest of them
    is as it was. *)
Definition drain_inv (log : list (list Cmd)) (d : drained (C:=C) (N:=N)) : Prop :=
  Forall2 prefix log0 log /\ Forall (fun cs => len cs <= cfg.(max_commands_per_tick)) log
  /\ hist_dom lo cur d.(dr_history) /\ hist_commands log d.(dr_history)
  /\ once (concat log ++ (command <$> d.(dr_pending))) d.(dr_sequences)
  /\ match d.(dr_late) with
     | None => log = log0 /\ d.(dr_history) = h0
     | Some f => 1 <= f <= cur /\ take (Z.to_nat (f - 1)) log = take (Z.to_nat (f - 1)) log0
                 /\ forall n, n < f -> d.(dr_history) !! n = h0 !! n
     end.

Lemma drain_one_inv log d i :
  0 <= lo -> 1 <= i.(sub_target) -> drain_inv log d -> exists log', drain_inv log' (drain_one cfg cur d i).
Proof.
  intros Hlo Ht (Hpre & Hmax & Hdom & Hcmd & Honce & Hlate). unfold drain_one.
  destruct (Z.leb_spec (sequence (sub_command i)) (default 0 (dr_sequences d !! player (sub_command i))))
    as [|Hseq]; [by exists log|].
  destruct (Z.leb_spec (sub_target i) cur) as [Hcur|Hcur].
  - destruct (dr_history d !! sub_target i) as [e|] eqn:He; [|by exists log].
    destruct (Z.ltb_spec (len (commands e)) (max_commands_per_tick cfg)) as [Hroom|]; [|by exists log].
    pose proof (Hcmd _ _ He Ht) as Hi. set (k := Z.to_nat (sub_target i - 1)) in *.
    exists (<[k := commands e ++ [sub_command i]]> log).
    unfold drain_inv. cbn [dr_history dr_pending dr_sequences dr_late push_command].
    refine (conj _ (conj _ (conj _ (conj _ (conj _ _))))).
    + pose proof (lookup_lt_Some _ _ _ Hi) as Hk. rewrite <-(Forall2_length _ _ _ Hpre) in Hk.
      destruct (lookup_lt_is_Some_2 _ _ Hk) as [cs Hcs]. rewrite <-(list_insert_id _ _ _ Hcs).
      apply Forall2_insert; [done|]. apply prefix_app_r. by eapply Forall2_lookup_lr.
    + apply Forall_insert; [done|]. rewrite len_app, len_cons, len_nil. lia.
    + intros n. destruct (decide (n = sub_target i)) as [->|].
      * rewrite lookup_insert, decide_True by done. specialize (Hdom (sub_target i)).
        rewrite He in Hdom. rewrite <-Hdom. split; eauto.
      * rewrite lookup_insert_ne by done. apply Hdom.
    + intros n e' Hn Hn1. destruct (decide (n = sub_target i)) as [->|].
      * rewrite lookup_insert, decide_True in Hn by done. injection Hn as <-. cbn.
        apply list_lookup_insert_eq. by eapply lookup_lt_Some.
      * rewrite lookup_insert_ne in Hn by done.
        rewrite list_lookup_insert_ne by lia. by apply Hcmd.
    + eapply once_perm; [|apply (once_cons (sub_command i)); [exact Honce|exact Hseq]].
      rewrite (concat_push _ _ _ _ Hi). done.
    + assert (Hbefore : forall f, f <= sub_target i ->
        take (Z.to_nat (f - 1)) (<[k:=commands e ++ [sub_command i]]> log) = take (Z.to_nat (f - 1)) log).
      { intros f Hf. apply take_insert_ge. lia. }
      destruct (dr_late d) as [f|].
      * destruct Hlate as (Hf & Htk & Hh). split_and!; [lia..| |].
        -- rewrite Hbefore by lia. replace (Z.to_nat (Z.min f (sub_target i) - 1)) with
             (Z.to_nat (Z.min f (sub_target i) - 1) `min` Z.to_nat (f - 1))%nat by lia.
           rewrite <-!take_take. by rewrite Htk.
        -- intros n Hn. rewrite lookup_insert_ne by lia. apply Hh. lia.
      * destruct Hlate as [-> ->]. split_and!; [lia..| |].
        -- by rewrite Hbefore by lia.
        -- intros n Hn. by rewrite lookup_insert_ne by lia.
  - destruct (Z.leb_spec (max_pending_commands cfg) (len (dr_pending d))); [by exists log|].
    exists log. unfold drain_inv. cbn [dr_history dr_pending dr_sequences dr_late].
    split_and!; [done..| |done].
    eapply once_perm; [|apply (once_cons (sub_command i)); [exact Honce|exact Hseq]].
    rewrite insert_by_perm, fmap_cons. cbn [command]. apply Permutation_middle.
Qed.

Lemma drain_loop_inv l : forall log d,
  0 <= lo -> Forall (fun i => 1 <= i.(sub_target)) l -> drain_inv log d ->
  exists log', drain_inv log' (foldl (drain_one cfg cur) d l).
Proof.
  induction l as [|i l IH]; intros log d Hlo Hl Hd; cbn [foldl]; [eauto|].
  apply Forall_cons in Hl as [Hi Hl]. destruct (drain_one_inv log d i Hlo Hi Hd) as [log1 H1]. eauto.
Qed.
End receiving.

(** ** Applying the due commands *)

Lemma apply_all_snoc cs c : forall s s1,
  apply_all (S:=S) (N:=N) s cs = (Ok (), s1) -> apply_all s (cs ++ [c]) = apply s1 c.
Proof.
  induction cs as [|c' cs IH]; intros s s1; cbn [apply_all app].
  - intros [= <-]. by destruct (apply s c) as [[[]|] s2].
  - destruct (apply s c') as [[[]|] s2]; [|done]. apply IH.
Qed.

(** The commands of the tick are those the simulation accepted, and it is in the state they give. *)
Lemma apply_due_ok s n fuel : forall (r : room) done s1 cmds r' logged,
  apply_due fuel n r done = (cmds, r') ->
  apply_all s done = (Ok (), s1) -> sim_eq s1 r.(simulation) ->
  once (logged ++ done ++ (command <$> r.(runtime).(pending))) r.(runtime).(sequences) ->
  (exists s2, apply_all s cmds = (Ok (), s2) /\ sim_eq s2 r'.(simulation))
  /\ len cmds <= len done + Z.of_nat fuel
  /\ once (logged ++ cmds ++ (command <$> r'.(runtime).(pending))) r'.(runtime).(sequences)
  /\ frame (set_pending r' []) = frame (set_pending r [])
  /\ r'.(runtime).(history) = r.(runtime).(history).
Proof.
  induction fuel as [|fuel IH]; intros r done s1 cmds r' logged Hrun Ha Hs Honce; cbn [apply_due] in Hrun.
  { injection Hrun as <- <-. split_and!; [eauto|lia|done..]. }
  destruct (pending (runtime r)) as [|item rest] eqn:Hp.
  { injection Hrun as <- <-. rewrite Hp. split_and!; [eauto|lia|done..]. }
  destruct (n <? target item).
  { injection Hrun as <- <-. rewrite Hp. split_and!; [eauto|lia|done..]. }
  set (r1 := observe _ _) in Hrun.
  assert (Hr1 : core r1 = core (set_pending r rest)) by apply core_observe.
  apply core_split in Hr1 as (Hf1 & Hs1 & Hh1).
  assert (Hp1 : pending (runtime r1) = rest) by (unfold frame in Hf1; cbn in Hf1; congruence).
  assert (Hq1 : sequences (runtime r1) = sequences (runtime r)) by (unfold frame in Hf1; cbn in Hf1; congruence).
  assert (Hfr : frame (set_pending r1 []) = frame (set_pending r [])).
  { unfold frame in Hf1 |- *. cbn in Hf1 |- *. congruence. }
  clearbody r1. rewrite fmap_cons in Honce.
  pose proof (apply_respects s1 r1.(simulation) ltac:(by rewrite Hs1) _ (command item) eq_refl) as [Hr Hsim].
  pose proof (apply_all_snoc _ (command item) _ _ Ha) as Hsnoc.
  destruct (apply (simulation r1) (command item)) as [res s'] eqn:Happ. cbn in Hr, Hsim.
  destruct res as [[]|err]; cbn [is_ok] in Hrun.
  - apply IH with (logged := logged) (s1 := (apply s1 (command item)).2) in Hrun; cbn.
    + destruct Hrun as (Hc & Hl & Ho & Hf & Hh). split_and!; [done| |done| |].
      * rewrite len_app, len_cons, len_nil in Hl. lia.
      * rewrite Hf. by rewrite <-Hfr.
      * rewrite Hh. cbn. by rewrite Hh1.
    + rewrite Hsnoc. destruct (apply s1 (command item)). cbn in *. by subst.
    + done.
    + rewrite Hp1, Hq1. by rewrite <-(app_assoc done).
  - apply IH with (logged := logged) (s1 := s1) in Hrun; cbn.
    + destruct Hrun as (Hc & Hl & Ho & Hf & Hh). split_and!; [done|lia|done| |].
      * rewrite Hf. by rewrite <-Hfr.
      * rewrite Hh. cbn. by rewrite Hh1.
    + done.
    + apply apply_atomic in Happ. rewrite Hs1 in Happ. cbn in Happ. etransitivity; [exact Hs|by symmetry].
    + rewrite Hp1, Hq1. eapply once_sublist; [|exact Honce].
      apply sublist_app; [done|]. apply sublist_app; [done|]. by apply sublist_cons.
Qed.

(** ** The room *)

(** The room is in the state its log gives, its history is that of the log, and no command occurs twice
    in the log and the schedule. *)
Definition room_inv (d : Z) (s0 : S) (log : list (list Cmd)) (r : room) : Prop :=
  let h := r.(runtime).(history) in
  r.(delta) = d
  /\ (0 <= r.(finalized) <= r.(current) /\ 0 <= r.(config).(max_commands_per_tick))
  /\ len log = r.(current)
  /\ at_log d s0 log r.(simulation)
  /\ Forall (fun cs => len cs <= r.(config).(max_commands_per_tick)) log
  /\ Forall (fun i => 1 <= i.(sub_target)) r.(runtime).(receiver)
  /\ once (concat log ++ (command <$> r.(runtime).(pending))) r.(runtime).(sequences)
  /\ if r.(runtime).(initialized)
     then hist_dom r.(finalized) r.(current) h /\ hist_commands log h
          /\ hist_entries d s0 log (r.(current) + 1) h
     else r.(current) = 0 /\ h = ∅.

Lemma room_inv_core d s0 log r r' : core r' = core r -> room_inv d s0 log r -> room_inv d s0 log r'.
Proof. unfold core, room_inv. by intros [= -> -> -> -> -> ->]. Qed.

Lemma initialize_ok d s0 log r r' :
  Room_initialize sha256 r = (Ok (), r') -> room_inv d s0 log r ->
  room_inv d s0 log r' /\ r'.(runtime).(initialized) = true
  /\ (r'.(config), r'.(delta), r'.(current), r'.(finalized), r'.(runtime).(receiver))
     = (r.(config), r.(delta), r.(current), r.(finalized), r.(runtime).(receiver)).
Proof.
  intros Hrun Hinv. unfold Room_initialize in Hrun.
  destruct (initialized (runtime r)) eqn:Hi; [by injection Hrun as <-|].
  destruct (Room_capture _ _ _) as [[[n h]|] r1] eqn:Hcap; [|done]. injection Hrun as <-.
  apply capture_ok in Hcap as (Hcore & Hsn & bytes & Hb & ->). unfold core in Hcore.
  injection Hcore as Hc1 Hc2 Hc3 Hc4 Hc5 Hc6.
  unfold room_inv in *. rewrite Hi in Hinv. cbn. rewrite Hc1, Hc2, Hc3, Hc4, Hc5, Hc6.
  destruct Hinv as (Hd & Hfin & Hlen & Hat & Hmax & Hrecv & Honce & Hcur & Hh).
  change (Room_tick r 0) with (tick_at r.(delta) 0) in Hsn. rewrite Hd in Hsn. rewrite Hh, insert_empty.
  assert (Hlog : log = []) by (apply nil_length_inv; unfold len in Hlen; lia).
  split_and!; try done; try lia.
  - intros k. rewrite lookup_singleton_is_Some. lia.
  - intros k e Hk Hk1. rewrite lookup_singleton in Hk. case_decide; [lia|done].
  - intros k e Hk Hk1. rewrite lookup_singleton in Hk. case_decide; [|done]. injection Hk as <-. subst k log.
    exists (simulation r), bytes. done.
Qed.

(** How a tick may change the log: commands are added to ticks that are not final, none is taken away. *)
Definition amends (fin : Z) (log log' : list (list Cmd)) : Prop :=
  Forall2 prefix log log' /\ take (Z.to_nat fin) log' = take (Z.to_nat fin) log.

(** After receiving: the amended log, and checkpoints that still hold before the earliest late command. *)
Lemma drain_ok d s0 log r late_from r1 :
  Room_drain r = (late_from, r1) -> r.(runtime).(initialized) = true -> room_inv d s0 log r ->
  exists log', Forall2 prefix log log'
    /\ Forall (fun cs => len cs <= r.(config).(max_commands_per_tick)) log'
    /\ frame r1 = (r.(config), r.(delta), r.(current), r.(finalized), [], r1.(runtime).(pending),
                   r1.(runtime).(sequences), r1.(runtime).(next_order), true)
    /\ hist_dom r.(finalized) r.(current) r1.(runtime).(history) /\ hist_commands log' r1.(runtime).(history)
    /\ once (concat log' ++ (command <$> r1.(runtime).(pending))) r1.(runtime).(sequences)
    /\ match late_from with
       | None => log' = log /\ room_inv d s0 log r1
       | Some from =>
           1 <= from <= r.(current) /\ take (Z.to_nat (from - 1)) log' = take (Z.to_nat (from - 1)) log
           /\ hist_entries d s0 log' from r1.(runtime).(history)
       end.
Proof.
  unfold Room_drain. set (d1 := foldl _ _ _). intros [= Hl <-] Hi.
  intros (Hd & Hfin & Hlen & Hat & Hmax & Hrecv & Honce & Hhist). rewrite Hi in Hhist.
  destruct Hhist as (Hdom & Hcmd & Hent).
  destruct (drain_loop_inv r.(config) r.(finalized) r.(current) log r.(runtime).(history)
              r.(runtime).(receiver) log
              {| dr_pending := r.(runtime).(pending); dr_history := r.(runtime).(history);
                 dr_sequences := r.(runtime).(sequences); dr_order := r.(runtime).(next_order);
                 dr_late := None; dr_counters := r.(counters) |})
    as (log' & Hpre & Hmax' & Hdom' & Hcmd' & Honce' & Hlate); [lia|done|by split_and!|].
  fold d1 in Hdom', Hcmd', Honce', Hlate. rewrite Hl in Hlate. exists log'. cbn. unfold frame. cbn. rewrite Hi.
  refine (conj Hpre (conj Hmax' (conj eq_refl (conj Hdom' (conj Hcmd' (conj Honce' _)))))).
  destruct late_from as [from|].
  - destruct Hlate as (Hfrom & Htake & Hbefore). split_and!; [lia..|done|].
    intros n e Hn Hnf. rewrite Hbefore in Hn by done.
    destruct (Hent n e Hn ltac:(lia)) as (s & bytes & Hat1 & Hrest). exists s, bytes.
    replace (take (Z.to_nat n) log') with (take (Z.to_nat n) log); [done|].
    replace (Z.to_nat n) with (Z.to_nat n `min` Z.to_nat (from - 1))%nat by lia.
    by rewrite <-!take_take, Htake.
  - destruct Hlate as [-> Hh]. split; [done|]. unfold room_inv. cbn. rewrite Hh. rewrite Hh in Hcmd', Hdom'.
    split_and!; try done; lia.
Qed.

(** Receiving and, when commands were late, rolling back. *)
Lemma catch_up_ok d s0 log r r' :
  let '(late_from, r1) := Room_drain r in
  match late_from with
  | Some from => Room_resimulate sha256 r1 from r1.(current)
  | None => (Ok (), r1)
  end = (Ok (), r') ->
  r.(runtime).(initialized) = true -> room_inv d s0 log r ->
  exists log', amends r.(finalized) log log' /\ room_inv d s0 log' r'
    /\ (r'.(config), r'.(current), r'.(finalized), r'.(runtime).(initialized), r'.(runtime).(receiver))
       = (r.(config), r.(current), r.(finalized), true, []).
Proof.
  destruct (Room_drain r) as [late_from r1] eqn:Hdrain. intros Hrun Hi Hinv.
  destruct (drain_ok _ _ _ _ _ _ Hdrain Hi Hinv) as (log' & Hpre & Hmax & Hf1 & Hdom & Hcmd & Honce & Hlate).
  destruct Hinv as (Hd & Hfin & Hlen & _). exists log'. pose proof (Forall2_length _ _ _ Hpre) as Hlen'.
  injection Hf1 as Hc1 Hd1 Hcur1 Hfin1 Hrecv1 Hi1. destruct late_from as [from|].
  - destruct Hlate as (Hfrom & Htake & Hent).
    assert (Hbase : finalized r <= from - 1).
    { unfold Room_resimulate in Hrun. destruct (Z.ltb_spec from 1); [done|].
      destruct (history (runtime r1) !! (from - 1)) eqn:Hb; [|done]. apply (Hdom (from - 1)). eauto. }
    assert (Ham : take (Z.to_nat (finalized r)) log' = take (Z.to_nat (finalized r)) log).
    { replace (Z.to_nat (finalized r)) with (Z.to_nat (finalized r) `min` Z.to_nat (from - 1))%nat by lia.
      by rewrite <-!take_take, Htake. }
    apply (resimulate_ok d s0 log') in Hrun as (Hf & Hat' & Hcmd2 & Hent2 & Hdom2);
      [|congruence|unfold len in *; lia|lia|done|done].
    unfold frame in Hf. injection Hf as Hf1 Hf2 Hf3 Hf4 Hf5 Hf6 Hf7 Hf8 Hf9.
    unfold room_inv. rewrite Hf1, Hf2, Hf3, Hf4, Hf5, Hf6, Hf7, Hf9, Hc1, Hd1, Hcur1, Hfin1, Hrecv1, Hi1.
    split; [done|]. split; [|done]. rewrite Hcur1 in Hent2.
    split_and!; try done; try lia; [unfold len in *; lia|]. intros n. by rewrite Hdom2.
  - destruct Hlate as [-> Hinv1]. injection Hrun as <-. split; [by split|]. split; [done|].
    by rewrite Hc1, Hcur1, Hfin1, Hrecv1, Hi1.
Qed.

(** The record of a new tick. *)
Lemma hist_extend d s0 log lo cur h e :
  len log = cur -> lo <= cur + 1 -> 0 <= lo -> hist_dom lo cur h -> hist_commands log h ->
  hist_entries d s0 log (cur + 1) h -> entry_ok d s0 (log ++ [e.(commands)]) (cur + 1) e ->
  let h' := <[cur + 1 := e]> h in
  hist_dom lo (cur + 1) h' /\ hist_commands (log ++ [e.(commands)]) h'
  /\ hist_entries d s0 (log ++ [e.(commands)]) (cur + 1 + 1) h'.
Proof.
  intros Hlen Hlo Hlo0 Hdom Hcmd Hent He h'. unfold len in Hlen. unfold h'. split_and!.
  - intros n. destruct (decide (n = cur + 1)) as [->|Hne].
    + rewrite lookup_insert, decide_True by done. split; [lia|eauto].
    + rewrite lookup_insert_ne by done. rewrite (Hdom n). lia.
  - intros n e' Hn Hn1. destruct (decide (n = cur + 1)) as [->|Hne].
    + rewrite lookup_insert, decide_True in Hn by done. injection Hn as <-. cbn.
      rewrite lookup_app_r by lia. by replace (_ - _)%nat with 0%nat by lia.
    + rewrite lookup_insert_ne in Hn by done. apply lookup_app_l_Some. by apply Hcmd.
  - intros n e' Hn Hn1. destruct (decide (n = cur + 1)) as [->|Hne].
    + rewrite lookup_insert, decide_True in Hn by done. by injection Hn as <-.
    + rewrite lookup_insert_ne in Hn by done.
      assert (Hrange : lo <= n <= cur) by (apply Hdom; eauto).
      destruct (Hent n e' Hn ltac:(lia)) as (s & bs & Hat1 & Hrest). exists s, bs.
      by rewrite take_app_le by lia.
Qed.

Lemma advance_tick_ok d s0 log r t sn h r' :
  advance_tick sha256 r = (Ok (t, sn, h), r') -> r.(current) < u64_max -> room_inv d s0 log r ->
  exists log' cmds, amends r.(finalized) log log' /\ room_inv d s0 (log' ++ [cmds]) r'
    /\ (r'.(config), r'.(current), r'.(finalized), r'.(runtime).(receiver))
       = (r.(config), r.(current) + 1, r.(finalized), [])
    /\ t = tick_at d (r.(current) + 1).
Proof.
  intros Hrun Hmaxt Hinv. unfold advance_tick in Hrun.
  destruct (Room_initialize _ _) as [[[]|] r0] eqn:Hinit; [|done].
  apply (initialize_ok d s0 log) in Hinit as (Hinv0 & Hi0 & Hfr0); [|done].
  injection Hfr0 as Hcfg0 _ Hcur0 Hfin0 _. clear Hinv.
  pose proof (catch_up_ok d s0 log r0) as Hcatch. destruct (Room_drain r0) as [late_from r1].
  destruct (match late_from with Some _ => _ | None => _ end) as [[[]|] r2] eqn:Hc; [|done].
  destruct (Hcatch r2 eq_refl Hi0 Hinv0) as (log' & Ham & Hinv2 & Hfr2). clear Hcatch Hc Hinv0.
  injection Hfr2 as Hcfg2 Hcur2 Hfin2 Hi2 Hrecv2. rewrite Hfin0 in Ham.
  destruct Hinv2 as (Hd & Hfin & Hlen & Hat & Hmax & Hrecv & Honce & Hhist). rewrite Hi2 in Hhist.
  destruct Hhist as (Hdom & Hcmd & Hent).
  assert (Hwrap : wrap_u64 (current r2 + 1) = current r2 + 1).
  { unfold wrap_u64. apply Z.mod_small. unfold u64_max in Hmaxt. lia. }
  rewrite Hwrap in Hrun.
  destruct (apply_due _ _ _ _) as [cmds r3] eqn:Hdue.
  eapply (apply_due_ok r2.(simulation) _ _ r2 [] r2.(simulation) cmds r3 (concat log')) in Hdue
    as ((s2 & Ha & Hs2) & Hl & Honce3 & Hf3 & Hh3); [|done..].
  unfold frame in Hf3. cbn in Hf3. injection Hf3 as Hcfg3 Hd3 Hcur3 Hfin3 Hrecv3 Hq3 Ho3 Hi3.
  change (Room_tick r2 (current r2 + 1)) with (tick_at (delta r2) (current r2 + 1)) in Hrun. rewrite Hd in Hrun.
  destruct (step (simulation r3) _) as [[[]|] s4] eqn:Hst; [|done].
  destruct (Room_capture _ _ _) as [[[sn' h']|] r5] eqn:Hcap; [|done].
  injection Hrun as Ht Hsn Hh <-. subst t sn' h'.
  apply capture_ok in Hcap as (Hcore & Hsnap & bytes & Hb & ->).
  pose proof (core_observe (set_simulation r3 s4) (fun o => on_tick o (tick_at d (current r2 + 1)))) as Hobs.
  rewrite Hobs in Hcore. apply core_split in Hobs as (_ & Hobs & _). cbn in Hobs. rewrite Hobs in Hsnap, Hb.
  unfold core in Hcore. cbn in Hcore. injection Hcore as Hcfg5 Hd5 Hs5 Hr5 Hcur5 Hfin5.
  exists log', cmds. split; [done|]. split; [|split; [cbn; congruence|congruence]].
  assert (Hat' : at_log d s0 (log' ++ [cmds]) s4).
  { pose proof (step_respects s2 r3.(simulation) Hs2 _ (tick_at d (current r2 + 1)) eq_refl) as [Hr Hs4].
    rewrite Hst in Hr, Hs4. destruct (step s2 _) as [res s4'] eqn:Hst2. cbn in Hr, Hs4. subst res.
    eapply at_log_respects; [|exact Hs4]. eapply at_log_tick; [done|exact Ha|by rewrite Hlen]. }
  unfold room_inv. cbn. rewrite Hcfg5, Hd5, Hs5, Hr5, Hfin5, Hcfg3, Hd3, Hfin3, Hrecv3, Hh3, Hi3, Hi2.
  assert (Hlog : length log' = Z.to_nat (current r2)) by (unfold len in Hlen; lia).
  pose proof (hist_extend d s0 log' (finalized r2) (current r2) (history (runtime r2))
    {| commands := cmds; entry_snapshot := sn; hash := sha256 bytes |} Hlen ltac:(lia) ltac:(lia)
    Hdom Hcmd Hent) as (Hdom' & Hcmd' & Hent').
  { exists s4, bytes. by rewrite take_ge by (rewrite length_app; cbn; lia). }
  split_and!; [done|lia|lia|lia| |done| |done| |done..].
  - rewrite len_app, len_cons, len_nil. lia.
  - apply Forall_app. split; [done|]. apply Forall_singleton. rewrite len_nil in Hl. unfold len in *. lia.
  - rewrite concat_app. cbn. rewrite app_nil_r, <-app_assoc. done.
Qed.

(** ** The room as a state machine

    Submissions come from other tasks and can arrive between the phases of a tick. *)
Inductive phase : Type :=
| Idle
| Publishing (t : Tick) (sn : N) (h : list Z)
| Finalizing (t : Tick).

Inductive room_step : room * phase -> room * phase -> Prop :=
| step_try_submit_at r ph target c res r' :
    u64_ok target -> Room_try_submit_at r target c = (res, r') -> room_step (r, ph) (r', ph)
| step_submit_at r ph target c res r' :
    u64_ok target -> Room_submit_at r target c = (res, r') -> room_step (r, ph) (r', ph)
| step_tick r t sn h r' :
    r.(current) < u64_max -> advance_tick sha256 r = (Ok (t, sn, h), r') ->
    room_step (r, Idle) (r', Publishing t sn h)
| step_publish r t sn h : room_step (r, Publishing t sn h) (publish_tick r t sn h, Finalizing t)
| step_finalize r t : room_step (r, Finalizing t) (finalize_tick r t.(number), Idle)
| step_counters r ph k : room_step (r, ph) (set_counters r k, ph)
| step_running r ph b : room_step (r, ph) (set_running r b, ph)
| step_publisher r ph p : room_step (r, ph) (Room_with_publisher r p, ph).

(** A completed [advance] is a run of the machine. *)
Lemma advance_steps r nanos r' :
  r.(current) < u64_max -> Room_advance sha256 r nanos = (Ok (), r') -> rtc room_step (r, Idle) (r', Idle).
Proof.
  intros Hmax. unfold Room_advance. destruct (running r); [done|]. unfold Room_advance_one, Room_advance_inner.
  destruct (advance_tick _ r) as [[[[t sn] h]|] r1] eqn:Ht; [|done]. intros [= <-].
  eapply rtc_l; [by apply step_tick|]. eapply rtc_l; [apply step_publish|].
  eapply rtc_l; [apply step_finalize|]. apply rtc_once. apply step_counters.
Qed.

(** The specification: a log whose ticks become final.  A tick amends the ticks that are not final and adds
    one. *)
Inductive log_step : list (list Cmd) * Z -> list (list Cmd) * Z -> Prop :=
| log_tick log fin log' cmds : amends fin log log' -> log_step (log, fin) (log' ++ [cmds], fin)
| log_finalize log fin fin' : fin <= fin' <= len log -> log_step (log, fin) (log, fin').

Lemma prefix_log_refl (log : list (list Cmd)) : Forall2 prefix log log.
Proof. by apply Forall_Forall2_diag, Forall_true. Qed.

(** Final ticks do not change. *)
Lemma log_steps_final log fin log' fin' :
  rtc log_step (log, fin) (log', fin') -> fin <= len log ->
  fin <= fin' /\ take (Z.to_nat fin) log' = take (Z.to_nat fin) log.
Proof.
  intros Hrun. remember (log, fin) as st eqn:E. remember (log', fin') as st' eqn:E'.
  revert log fin E. induction Hrun as [st|st st1 st2 Hstep Hrun IH]; intros log fin -> Hlen.
  { injection E' as -> ->. done. }
  inversion Hstep as [? ? log1 cmds [Hpre Htake]|? ? fin1 Hfin]; subst; destruct (IH eq_refl _ _ eq_refl) as [Hle Heq].
  - apply Forall2_length in Hpre. rewrite len_app, len_cons, len_nil. unfold len in *. lia.
  - split; [done|]. rewrite Heq, take_app_le; [done|]. apply Forall2_length in Hpre. unfold len in Hlen. lia.
  - lia.
  - split; [lia|]. replace (Z.to_nat fin) with (Z.to_nat fin `min` Z.to_nat fin1)%nat by lia.
    by rewrite <-!take_take, Heq.
Qed.

Definition phase_inv (d : Z) (r : room) (ph : phase) : Prop :=
  let w := r.(config).(rollback_window_ticks) in
  0 <= w /\
  match ph with
  | Idle => r.(finalized) = saturating_sub r.(current) w
  | Publishing t _ _ | Finalizing t =>
      t = tick_at d r.(current) /\ 1 <= r.(current) /\ r.(finalized) = saturating_sub (r.(current) - 1) w
  end.

Lemma send_inv d s0 log r target c :
  1 <= target -> room_inv d s0 log r -> room_inv d s0 log (send r target c).
Proof.
  intros Ht (Hd & Hfin & Hlen & Hat & Hmax & Hrecv & Hrest). unfold room_inv, send. cbn.
  split_and!; try done; try lia; try apply Hrest. by apply Forall_app_2; [|apply Forall_singleton].
Qed.

Lemma validate_target (r : room) target c : Room_validate r target c = Ok () -> u64_ok target -> 1 <= target.
Proof. unfold Room_validate. intros Hv [Ht _]. destruct (Z.eqb_spec target 0); cbn in Hv; [done|lia]. Qed.

Lemma publish_core r t sn h : core (publish_tick r t sn h) = core r.
Proof.
  unfold publish_tick. destruct (negb _); [done|]. set (r1 := observe _ _).
  assert (Hr1 : core r1 = core r) by (unfold r1; by rewrite core_observe).
  destruct (publisher r1) as [p|]; [|done]. destruct (publish p _) as [[[]|] p']; by rewrite <-Hr1.
Qed.

Lemma finalize_inv d s0 log r t :
  room_inv d s0 log r -> phase_inv d r (Finalizing t) ->
  let r' := finalize_tick r t.(number) in
  room_inv d s0 log r' /\ phase_inv d r' Idle /\ r.(finalized) <= r'.(finalized) <= r.(current).
Proof.
  intros (Hd & Hfin & Hlen & Hat & Hmax & Hrecv & Honce & Hhist) (Hw & -> & Hcur & Hf). cbn [number tick_at].
  unfold finalize_tick. set (through := saturating_sub (current r) _).
  assert (Hth : finalized r <= through <= current r) by (unfold through, saturating_sub in *; lia).
  destruct (initialized (runtime r)) eqn:Hi; [|lia]. destruct Hhist as (Hdom & Hcmd & Hent).
  set (r1 := if (_ : bool) then _ else r).
  assert (Hr1 : (config r1, delta r1, simulation r1, runtime r1, current r1)
                = (config r, delta r, simulation r, runtime r, current r) /\ finalized r1 = through).
  { unfold r1. destruct (Z.ltb_spec (finalized r) through); [done|]. split; [done|lia]. }
  destruct Hr1 as [Hr1 Hf1]. injection Hr1 as Hc1 Hc2 Hc3 Hc4 Hc5. clearbody r1.
  unfold room_inv, phase_inv. cbn. rewrite Hc1, Hc2, Hc3, Hc4, Hc5, Hf1, Hi.
  split; [|split_and!; lia]. split_and!; try done; try lia.
  - intros n. transitivity (is_Some (history (runtime r) !! n) /\ through <= n).
    + split.
      * intros [e He%map_lookup_filter_Some]. split; [|apply He]. exists e. apply He.
      * intros [[e He] Hn]. exists e. by apply map_lookup_filter_Some.
    + rewrite (Hdom n). lia.
  - intros n e [He _]%map_lookup_filter_Some. by apply Hcmd.
  - intros n e [He _]%map_lookup_filter_Some. by apply Hent.
Qed.

(** A room at a phase is at a log. *)
Definition machine_inv (d : Z) (s0 : S) (log : list (list Cmd)) (st : room * phase) : Prop :=
  room_inv d s0 log st.1 /\ phase_inv d st.1 st.2.

Lemma machine_inv_core d s0 log r r' ph :
  core r' = core r -> machine_inv d s0 log (r, ph) -> machine_inv d s0 log (r', ph).
Proof.
  intros Hcore [Hinv Hph]. split; [by eapply room_inv_core|]. unfold core in Hcore.
  injection Hcore as Hc _ _ _ Hcur Hf. cbn in Hph |- *. unfold phase_inv in *. by rewrite Hc, Hcur, Hf.
Qed.

Lemma send_machine_inv d s0 log (r : room) ph target c k n :
  u64_ok target -> Room_validate r target c = Ok () -> machine_inv d s0 log (r, ph) ->
  machine_inv d s0 log (Realtime.count (send r target c) k n, ph).
Proof.
  intros Ht Hv [Hinv Hph]. apply (machine_inv_core _ _ _ (send r target c)); [done|].
  split; [|done]. apply send_inv; [|done]. by eapply validate_target.
Qed.

Lemma room_step_refines d s0 log r ph r' ph' :
  room_step (r, ph) (r', ph') -> machine_inv d s0 log (r, ph) ->
  exists log', machine_inv d s0 log' (r', ph') /\ rtc log_step (log, r.(finalized)) (log', r'.(finalized))
    /\ r'.(config) = r.(config).
Proof.
  intros Hstep Hinv.
  inversion Hstep as [? ? target c res ? Ht Hs|? ? target c res ? Ht Hs|? t sn h ? Hmax Hs|? t sn h|? t| | |];
    subst; cbn.
  - exists log. unfold Room_try_submit_at in Hs. destruct (Room_validate r target c) as [[]|] eqn:Hv;
      [|by injection Hs as <- <-; split_and!]. destruct (channel_full r); injection Hs as <- <-; split_and!; try done.
    by apply send_machine_inv.
  - exists log. unfold Room_submit_at in Hs. destruct (Room_validate r target c) as [[]|] eqn:Hv;
      [|by injection Hs as <- <-; split_and!]. destruct (channel_full r); injection Hs as <- <-; split_and!; try done.
    by apply send_machine_inv.
  - destruct Hinv as [Hinv [Hw Hfin]]. cbn in Hinv, Hfin.
    apply (advance_tick_ok d s0 log) in Hs as (log' & cmds & Ham & Hinv' & Hfr & ->); [|done..].
    injection Hfr as Hc Hcur Hf _. exists (log' ++ [cmds]). split; [split; [done|]|].
    + unfold phase_inv. cbn. rewrite Hc, Hcur, Hf. split_and!; [done|done|destruct Hinv as (_ & ? & _); lia|].
      by replace (current r + 1 - 1) with (current r) by lia.
    + split; [|done]. rewrite Hf. apply rtc_once. by constructor.
  - exists log. pose proof (publish_core r t sn h) as Hcore. split; [|by injection Hcore as -> _ _ _ _ ->].
    apply (machine_inv_core _ _ _ r); [done|]. exact Hinv.
  - destruct Hinv as [Hinv Hph]. destruct (finalize_inv d s0 log r t Hinv Hph) as (Hinv' & Hph' & Hle).
    exists log. split; [by split|]. split.
    + apply rtc_once. constructor. destruct Hinv as (_ & _ & -> & _). done.
    + unfold finalize_tick. by destruct (_ <? _).
  - exists log. split; [by apply (machine_inv_core _ _ _ r)|done].
  - exists log. split; [by apply (machine_inv_core _ _ _ r)|done].
  - exists log. split; [by apply (machine_inv_core _ _ _ r)|done].
Qed.

Lemma room_steps_refine d s0 log st st' :
  rtc room_step st st' -> machine_inv d s0 log st ->
  exists log', machine_inv d s0 log' st'
    /\ rtc log_step (log, st.1.(finalized)) (log', st'.1.(finalized))
    /\ st'.1.(config) = st.1.(config).
Proof.
  intros Hrun. revert log. induction Hrun as [st|[r ph] [r1 ph1] st2 Hstep Hrun IH]; intros log Hinv.
  { exists log. split; [done|]. split; [apply rtc_refl|done]. }
  destruct (room_step_refines _ _ _ _ _ _ _ Hstep Hinv) as (log1 & Hinv1 & Hlog1 & Hc1).
  destruct (IH log1 Hinv1) as (log2 & Hinv2 & Hlog2 & Hc2). exists log2. split; [done|].
  split; [by etransitivity|cbn in *; congruence].
Qed.

(** The machine widths of a configuration. *)
Definition RoomConfig_wf (c : RoomConfig) : Prop :=
  fits u32_max c.(Realtime.tick_rate) /\ u64_ok c.(Realtime.input_delay_ticks)
  /\ u64_ok c.(max_future_input_ticks)
  /\ fits usize_max c.(command_capacity) /\ fits usize_max c.(max_pending_commands)
  /\ fits usize_max c.(max_commands_per_tick) /\ u64_ok c.(snapshot_interval)
  /\ u64_ok c.(Realtime.rollback_window_ticks) /\ fits usize_max c.(max_snapshot_bytes)
  /\ 0 <= c.(publish_timeout).

Lemma new_room_inv name cfg s0 o r0 :
  RoomConfig_wf cfg -> Room_with_observer name cfg s0 o = Ok r0 ->
  machine_inv r0.(delta) s0 [] (r0, Idle) /\ r0.(finalized) = 0 /\ r0.(config) = cfg.
Proof.
  intros (_ & _ & _ & _ & _ & Hmax & _ & Hw & _) Hnew. unfold Room_with_observer in Hnew.
  destruct (RoomConfig_validate cfg) as [[]|]; [|done]. destruct (_ || _); [done|]. injection Hnew as <-.
  split; [|done]. split; [|split; [apply Hw|cbn; unfold saturating_sub, fits in *; lia]].
  unfold room_inv. cbn. split_and!; try done; try apply Hmax.
  - by exists s0.
  - split; [by apply NoDup_nil|by apply Forall_nil].
Qed.

(** C9: a realtime room implements its specification as long as its ticks succeed: in every run in which no
    tick so far has failed, whatever submissions arrive and whenever, late ones included, accepted or
    refused, and however many ticks are rolled back and resimulated, there is a log of the commands of
    each tick so far, grown by adding commands to ticks that are not final and never by taking one away,
    such that the room's simulation is in the state the plain simulation of the log from the initial state
    reaches, every retained checkpoint is the snapshot (and digest) of that simulation at its tick, and no
    command of a player occurs twice in it.  The simulation is deterministic, a command it refuses changes
    nothing, and it restores its snapshots ([SimulationLaws]).  After a failed tick nothing is claimed:
    [late_command_fails_tick] and [refused_late_command_loses_ticks] show how a tick fails and that the
    simulation can be left behind. *)
Theorem room_state_matches_log name cfg s0 o r0 r ph :
  RoomConfig_wf cfg -> Room_with_observer name cfg s0 o = Ok r0 -> rtc room_step (r0, Idle) (r, ph) ->
  exists log, rtc log_step ([], 0) (log, r.(finalized)) /\ len log = r.(current)
    /\ at_log r0.(delta) s0 log r.(simulation)
    /\ (forall n e, r.(runtime).(history) !! n = Some e -> entry_ok r0.(delta) s0 log n e)
    /\ NoDup (command_key <$> concat log).
Proof.
  intros Hwf Hnew Hrun. destruct (new_room_inv _ _ _ _ _ Hwf Hnew) as (Hinv0 & Hf0 & _).
  destruct (room_steps_refine _ _ _ _ _ Hrun Hinv0) as (log & [Hinv _] & Hlog & _).
  exists log. cbn in Hinv, Hlog. rewrite Hf0 in Hlog.
  destruct Hinv as (_ & _ & Hlen & Hat & _ & _ & [Hnd _] & Hhist). split_and!; try done.
  - intros n e He. destruct (initialized (runtime r)).
    + destruct Hhist as (Hdom & _ & Hent). apply Hent; [done|].
      assert (finalized r <= n <= current r) by (apply Hdom; eauto). lia.
    + destruct Hhist as [_ Hh]. by rewrite Hh, lookup_empty in He.
  - rewrite fmap_app in Hnd. by apply NoDup_app in Hnd as [? _].
Qed.

(** The past becomes final: the commands of the ticks up to the finalized tick of a room are the same in
    every later state of it, and the finalized tick trails the current tick by the rollback window. *)
Theorem finalized_ticks_fixed name cfg s0 o r0 r ph r' :
  RoomConfig_wf cfg -> Room_with_observer name cfg s0 o = Ok r0 ->
  rtc room_step (r0, Idle) (r, ph) -> rtc room_step (r, ph) (r', Idle) ->
  exists log log', at_log r0.(delta) s0 log r.(simulation) /\ at_log r0.(delta) s0 log' r'.(simulation)
    /\ len log = r.(current) /\ len log' = r'.(current)
    /\ take (Z.to_nat r.(finalized)) log' = take (Z.to_nat r.(finalized)) log
    /\ r'.(finalized) = saturating_sub r'.(current) cfg.(Realtime.rollback_window_ticks).
Proof.
  intros Hwf Hnew Hrun Hrun'. destruct (new_room_inv _ _ _ _ _ Hwf Hnew) as (Hinv0 & Hf0 & Hcfg).
  destruct (room_steps_refine _ _ _ _ _ Hrun Hinv0) as (log & Hinv & _ & Hc).
  destruct (room_steps_refine _ _ _ _ _ Hrun' Hinv) as (log' & [Hinv' [_ Hfin']] & Hlog & Hc').
  destruct Hinv as [Hinv _]. cbn in *. destruct Hinv as (_ & Hfin & Hlen & Hat & _).
  destruct Hinv' as (_ & _ & Hlen' & Hat' & _). exists log, log'.
  apply log_steps_final in Hlog as [_ Htake]; [|lia]. split_and!; try done.
  by rewrite Hfin', Hc', Hc, Hcfg.
Qed.

(** ** Only [run] changes the running flag *)

Lemma observe_running (r : room) f : (observe r f).(running) = r.(running).
Proof. unfold observe. destruct (observer r) as [o|]; [|done]. by destruct (f o) as [[] o']. Qed.

Lemma capture_running (r : room) t : (Room_capture sha256 r t).2.(running) = r.(running).
Proof. unfold Room_capture. by destruct (let? n := _ in _). Qed.

Lemma resimulate_tick_running (r : room) n : (resimulate_tick sha256 r n).2.(running) = r.(running).
Proof.
  unfold resimulate_tick. destruct (ok_or _ _) as [e|]; [|done].
  destruct (apply_all _ _) as [[]]; [|done]. destruct (step _ _) as [[] s2]; [|done].
  match goal with |- context [Room_capture sha256 ?q ?t] => pose proof (capture_running q t) as Hc end.
  destruct (Room_capture _ _ _) as [[[]|] r2]; [|done]. by destruct (ok_or _ _).
Qed.

Lemma resimulate_loop_running l : forall r : room, (resimulate_loop sha256 r l).2.(running) = r.(running).
Proof.
  induction l as [|n l IH]; intros r; cbn [resimulate_loop]; [done|].
  pose proof (resimulate_tick_running r n) as Ht. destruct (resimulate_tick _ _ _) as [[] r1]; [|done].
  by rewrite IH.
Qed.

Lemma resimulate_running (r : room) a b : (Room_resimulate sha256 r a b).2.(running) = r.(running).
Proof.
  unfold Room_resimulate. destruct (a <? 1); [done|]. destruct (ok_or _ _) as [e|]; [|done].
  destruct (Room_encode _ _ _); [|done]. destruct (negb _); [done|].
  destruct (restore _ _ _) as [[] s1]; [|done]. destruct (snapshot _ _); [|done].
  destruct (Room_encode _ _ _); [|done]. destruct (negb _); [done|].
  match goal with |- context [resimulate_loop sha256 ?q ?l] => pose proof (resimulate_loop_running l q) as Hl end.
  destruct (resimulate_loop _ _ _) as [[] r1]; [|done]. cbn [snd] in *. by rewrite observe_running.
Qed.

Lemma apply_due_running fuel n : forall (r : room) cs, (apply_due fuel n r cs).2.(running) = r.(running).
Proof.
  induction fuel as [|fuel IH]; intros r cs; cbn [apply_due]; [done|].
  destruct (pending (runtime r)) as [|item rest]; [done|]. destruct (_ <? _); [done|].
  destruct (apply _ _) as [[] s']; cbn [is_ok]; rewrite IH; cbn; by rewrite observe_running.
Qed.

Lemma advance_tick_running (r : room) : (advance_tick sha256 r).2.(running) = r.(running).
Proof.
  unfold advance_tick.
  assert (Hi : (Room_initialize sha256 r).2.(running) = r.(running)).
  { unfold Room_initialize. destruct (initialized (runtime r)); [done|].
    pose proof (capture_running r (Room_tick r 0)). by destruct (Room_capture _ _ _) as [[[]|] r1]. }
  destruct (Room_initialize _ _) as [[] r0]; [|done]. unfold Room_drain. set (d1 := foldl _ _ _).
  set (r1 := set_counters _ _).
  assert (Hr : match dr_late d1 with
               | Some from => Room_resimulate sha256 r1 from (current r1)
               | None => (Ok (), r1)
               end.2.(running) = running r1) by (destruct (dr_late d1); [apply resimulate_running|done]).
  destruct (match dr_late d1 with Some _ => _ | None => _ end) as [[] r2]; [|by rewrite <-Hi].
  pose proof (apply_due_running (Z.to_nat (max_commands_per_tick (config r2)))
    (wrap_u64 (current r2 + 1)) r2 []) as Hd.
  destruct (apply_due _ _ _ _) as [cmds r3]. cbn [snd] in *.
  destruct (step _ _) as [[] s2]; [|cbn; rewrite Hd, Hr; exact Hi].
  match goal with |- context [Room_capture sha256 ?q ?t] => pose proof (capture_running q t) as Hc end.
  rewrite observe_running in Hc. cbn in Hc.
  destruct (Room_capture _ _ _) as [[[]|] r5]; cbn in *; rewrite Hc, Hd, Hr; exact Hi.
Qed.

Lemma publish_running (r : room) t sn h : (publish_tick r t sn h).(running) = r.(running).
Proof.
  unfold publish_tick. destruct (negb _); [done|]. set (r1 := observe _ _).
  assert (Hr1 : running r1 = running r) by (unfold r1; by rewrite observe_running).
  destruct (publisher r1) as [p|]; [|done]. by destruct (publish p _) as [[[]|] p'].
Qed.

(** ** Rooms make progress *)

(** A simulation whose operations succeed, with snapshots of at most [limit] bytes; the encoding of a
    snapshot is the same whatever state encodes it. *)
Class TotalSimulation (limit : Z) : Prop := {
  apply_total (s : S) (c : Cmd) : exists s', apply (N:=N) s c = (Ok (), s');
  step_total (s : S) t : exists s', step (C:=C) (N:=N) s t = (Ok (), s');
  snapshot_total (s : S) t : exists n : N, snapshot (C:=C) s t = Ok n;
  encode_total (s : S) (n : N) :
    exists bytes, encode_snapshot (C:=C) s n = Ok bytes /\ len bytes <= limit;
  encode_stable (s s' : S) (n : N) : encode_snapshot (C:=C) s n = encode_snapshot (C:=C) s' n;
  restore_total (s : S) t (n : N) : exists s', restore (C:=C) s t n = (Ok (), s');
}.

Section progress.
Context (limit : Z) `{!TotalSimulation limit}.

Lemma room_encode_total (r : room) s n :
  r.(config).(max_snapshot_bytes) = limit ->
  exists bytes, Room_encode r s n = Ok bytes /\ encode_snapshot (C:=C) s n = Ok bytes.
Proof.
  intros Hl. destruct (encode_total s n) as (bytes & He & Hb). exists bytes. unfold Room_encode. rewrite He, Hl.
  by destruct (Z.ltb_spec limit (len bytes)); [lia|].
Qed.

Lemma capture_total (r : room) t :
  r.(config).(max_snapshot_bytes) = limit -> exists n h r', Room_capture sha256 r t = (Ok (n, h), r').
Proof.
  intros Hl. unfold Room_capture. destruct (snapshot_total (simulation r) t) as [n ->].
  destruct (room_encode_total r (simulation r) n Hl) as (bytes & -> & _). eauto.
Qed.

Lemma apply_all_total cs : forall s, exists s', apply_all (S:=S) (N:=N) s cs = (Ok (), s').
Proof.
  induction cs as [|c cs IH]; intros s; cbn [apply_all]; [eauto|].
  destruct (apply_total s c) as [s1 ->]. apply IH.
Qed.

Lemma resimulate_tick_total (r : room) n :
  r.(config).(max_snapshot_bytes) = limit -> is_Some (r.(runtime).(history) !! n) ->
  exists r', resimulate_tick sha256 r n = (Ok (), r').
Proof.
  intros Hl [e He]. unfold resimulate_tick. rewrite He. cbn [ok_or].
  destruct (apply_all_total (commands e) (simulation r)) as [s1 ->]. cbn [simulation set_simulation].
  match goal with |- context [step s1 ?t] => destruct (step_total s1 t) as [s2 ->] end.
  match goal with |- context [Room_capture sha256 ?q ?t] =>
    destruct (capture_total q t) as (sn & h & r2 & Hcap); [done|] end.
  rewrite Hcap. apply capture_ok in Hcap as [Hcore _]. apply core_split in Hcore as (_ & _ & Hh).
  cbn in Hh. rewrite Hh, He. cbn. eauto.
Qed.

Lemma resimulate_loop_total d s0 log count : forall (r : room) n,
  r.(config).(max_snapshot_bytes) = limit ->
  (forall k, n <= k < n + Z.of_nat count -> is_Some (r.(runtime).(history) !! k)) ->
  r.(delta) = d -> 1 <= n -> at_log d s0 (take (Z.to_nat (n - 1)) log) r.(simulation) ->
  hist_commands log r.(runtime).(history) -> hist_entries d s0 log n r.(runtime).(history) ->
  exists r', resimulate_loop sha256 r (seqZ n (Z.of_nat count)) = (Ok (), r').
Proof.
  induction count as [|count IH]; intros r n Hl Hh Hd Hn Hat Hcmd Hent; [cbn; eauto|].
  rewrite seqZ_cons by lia. cbn [resimulate_loop].
  destruct (resimulate_tick_total r n Hl (Hh n ltac:(lia))) as [r1 Hr1]. rewrite Hr1.
  apply (resimulate_tick_ok d s0 log) in Hr1 as (Hf & Hat1 & Hcmd1 & Hent1 & Hdom1); [|done..].
  unfold frame in Hf. injection Hf as Hc1 Hd1 _ _ _ _ _ _ _.
  replace (Z.pred (Z.of_nat (Datatypes.S count))) with (Z.of_nat count) by lia.
  replace (Z.succ n) with (n + 1) by lia. apply IH; [congruence| |congruence|lia| |done|done].
  - intros k Hk. rewrite Hdom1. apply Hh. lia.
  - by replace (n + 1 - 1) with n by lia.
Qed.

Lemma resimulate_total d s0 log (r : room) from :
  r.(config).(max_snapshot_bytes) = limit -> r.(delta) = d -> 1 <= from <= r.(current) ->
  (forall k, from - 1 <= k <= r.(current) -> is_Some (r.(runtime).(history) !! k)) ->
  hist_commands log r.(runtime).(history) -> hist_entries d s0 log from r.(runtime).(history) ->
  exists r', Room_resimulate sha256 r from r.(current) = (Ok (), r').
Proof.
  intros Hl Hd Hfrom Hh Hcmd Hent. unfold Room_resimulate. destruct (Z.ltb_spec from 1); [lia|].
  destruct (Hh (from - 1) ltac:(lia)) as [e He]. rewrite He. cbn [ok_or].
  destruct (Hent _ _ He ltac:(lia)) as (s & bytes & Hat & Hsn & Hb & Hhash).
  destruct (room_encode_total r (simulation r) (entry_snapshot e) Hl) as (b1 & -> & Hb1).
  rewrite (encode_stable _ s) in Hb1. assert (b1 = bytes) as -> by congruence.
  rewrite bool_decide_eq_true_2 by done. cbn [negb].
  change (Room_tick r (from - 1)) with (tick_at r.(delta) (from - 1)). rewrite Hd.
  destruct (restore_total (simulation r) (tick_at d (from - 1)) (entry_snapshot e)) as [s1 Hres].
  rewrite Hres. cbn [simulation set_simulation].
  change (Room_tick (set_simulation r s1) (from - 1)) with (tick_at r.(delta) (from - 1)). rewrite Hd.
  pose proof (restore_snapshot _ _ _ _ _ Hsn Hres) as Hs1.
  rewrite (snapshot_respects s1 s Hs1 _ _ eq_refl), Hsn.
  destruct (room_encode_total (set_simulation r s1) s1 (entry_snapshot e) Hl) as (b2 & -> & Hb2).
  rewrite (encode_stable _ s) in Hb2. assert (b2 = bytes) as -> by congruence.
  rewrite bool_decide_eq_true_2 by done. cbn [negb].
  replace (current r + 1 - from) with (Z.of_nat (Z.to_nat (current r + 1 - from))) by lia.
  destruct (resimulate_loop_total d s0 log (Z.to_nat (current r + 1 - from)) (set_simulation r s1) from)
    as [r1 ->]; [done| |done|lia| |done|done|by eauto].
  - intros k Hk. apply Hh. lia.
  - cbn. eapply at_log_respects; [exact Hat|by symmetry].
Qed.

Lemma drain_late_after lo cfg cur (l : list (Submitted (C:=C))) : forall d : drained (C:=C) (N:=N),
  Forall (fun i => lo < i.(sub_target)) l -> default (lo + 1) d.(dr_late) > lo ->
  default (lo + 1) (foldl (drain_one cfg cur) d l).(dr_late) > lo.
Proof.
  induction l as [|i l IH]; intros d Hl Hd; cbn [foldl]; [done|]. apply Forall_cons in Hl as [Hi Hl].
  apply IH; [done|]. unfold drain_one. destruct (_ <=? default 0 _); [done|].
  destruct (_ <=? cur); [|by destruct (_ <=? len _)]. destruct (_ !! _) as [e|]; [|done].
  destruct (_ <? _); [|done]. cbn. destruct (dr_late d); cbn in *; lia.
Qed.

(** A tick of an idle room succeeds when the commands waiting are above the finalized tick. *)
Lemma advance_tick_total d s0 log r :
  room_inv d s0 log r -> r.(config).(max_snapshot_bytes) = limit ->
  Forall (fun i => r.(finalized) < i.(sub_target)) r.(runtime).(receiver) ->
  exists t sn h r', advance_tick sha256 r = (Ok (t, sn, h), r').
Proof.
  intros Hinv Hl Hrecv. unfold advance_tick.
  assert (exists r0, Room_initialize sha256 r = (Ok (), r0)) as [r0 Hinit].
  { unfold Room_initialize. destruct (initialized (runtime r)); [eauto|].
    destruct (capture_total r (Room_tick r 0) Hl) as (n & h & r1 & ->). eauto. }
  rewrite Hinit. apply (initialize_ok d s0 log) in Hinit as (Hinv0 & Hi0 & Hfr0); [|done].
  injection Hfr0 as Hcfg0 Hd0 Hcur0 Hfin0 Hrecv0. rewrite <-Hfin0, <-Hrecv0 in Hrecv. rewrite <-Hcfg0 in Hl.
  pose proof (catch_up_ok d s0 log r0) as Hcatch. destruct (Room_drain r0) as [late_from r1] eqn:Hdrain.
  assert (exists r2, match late_from with
                     | Some from => Room_resimulate sha256 r1 from r1.(current)
                     | None => (Ok (), r1)
                     end = (Ok (), r2)) as [r2 Hr2].
  { destruct late_from as [from|]; [|eauto].
    destruct (drain_ok _ _ _ _ _ _ Hdrain Hi0 Hinv0) as (log' & _ & _ & Hf1 & Hdom & Hcmd & _ & Hfrom & _ & Hent).
    injection Hf1 as Hc1 Hd1 Hcur1 Hfin1 _ _. destruct Hinv0 as (Hd & _).
    assert (Hafter : from > finalized r0).
    { unfold Room_drain in Hdrain. injection Hdrain as Hlate _.
      pose proof (drain_late_after (finalized r0) (config r0) (current r0) _
        {| dr_pending := r0.(runtime).(pending); dr_history := r0.(runtime).(history);
           dr_sequences := r0.(runtime).(sequences); dr_order := r0.(runtime).(next_order);
           dr_late := None; dr_counters := r0.(counters) |} Hrecv) as Hgt.
      rewrite Hlate in Hgt. apply Hgt. cbn. lia. }
    apply (resimulate_total d s0 log'); [congruence|congruence|lia| |done|done].
    intros k Hk. apply Hdom. lia. }
  rewrite Hr2. destruct (Hcatch r2 Hr2 Hi0 Hinv0) as (log' & _ & Hinv2 & Hfr2).
  injection Hfr2 as Hcfg2 Hcur2 Hfin2 Hi2 _. destruct Hinv2 as (_ & _ & _ & _ & _ & _ & Honce & _).
  destruct (apply_due _ _ _ _) as [cmds r3] eqn:Hdue.
  eapply (apply_due_ok r2.(simulation) _ _ r2 [] r2.(simulation) cmds r3 (concat log')) in Hdue
    as (_ & _ & _ & Hf3 & _); [|done..].
  unfold frame in Hf3. cbn in Hf3. injection Hf3 as Hcfg3 _ _ _ _ _ _ _.
  match goal with |- context [step (simulation r3) ?t] => destruct (step_total (simulation r3) t) as [s2 ->] end.
  match goal with |- context [Room_capture sha256 ?q ?t] =>
    destruct (capture_total q t) as (sn & h & r5 & ->); [|eauto]; set (r4 := q) end.
  assert (Hc4 : config r4 = config r3).
  { pose proof (core_observe (set_simulation r3 s2)
      (fun o => on_tick o (Room_tick r2 (wrap_u64 (current r2 + 1))))) as Hobs.
    unfold core in Hobs. cbn in Hobs. by injection Hobs. }
  congruence.
Qed.

(** The calls another task makes on a room between its ticks, and ticks. *)
Inductive call : Type :=
| TrySubmitAt (target : Z) (c : Cmd)
| Advance (nanos : Z).

Definition run_call (r : room) (k : call) : Result unit * room :=
  match k with
  | TrySubmitAt target c => Room_try_submit_at r target c
  | Advance nanos => Room_advance sha256 r nanos
  end.

Definition run_calls (r : room) (ks : list call) : room := foldl (fun r k => (run_call r k).2) r ks.

Definition call_wf (k : call) : Prop :=
  match k with TrySubmitAt target _ => u64_ok target | Advance _ => True end.

(** The room between two ticks. *)
Definition idle_inv (d : Z) (s0 : S) (r : room) : Prop :=
  (exists log, machine_inv d s0 log (r, Idle)) /\ r.(config).(max_snapshot_bytes) = limit
  /\ r.(running) = false
  /\ Forall (fun i => r.(finalized) < i.(sub_target)) r.(runtime).(receiver).

Lemma idle_inv_call d s0 r k :
  call_wf k -> r.(current) < u64_max -> idle_inv d s0 r ->
  idle_inv d s0 (run_call r k).2 /\ (run_call r k).2.(current) <= r.(current) + 1
  /\ (if k is Advance _ then (run_call r k).1 = Ok () else True).
Proof.
  intros Hk Hcur ((log & Hinv) & Hl & Hrun & Hrecv). unfold idle_inv. destruct k as [target c|nanos]; cbn [run_call].
  - unfold Room_try_submit_at. destruct (Room_validate r target c) as [[]|] eqn:Hv; cbn [snd fst];
      [|split_and!; [by exists log|done|done|done|lia|done]].
    destruct (channel_full r); cbn [snd fst].
    + split_and!; [|done|done|done|cbn; lia|done]. exists log. by apply (machine_inv_core _ _ _ r).
    + split_and!; [|done|done| |cbn; lia|done].
      * exists log. by apply send_machine_inv.
      * cbn. apply Forall_app. split; [done|]. apply Forall_singleton. cbn.
        unfold Room_validate in Hv. destruct (_ || _); [done|].
        destruct Hinv as [(_ & Hfin & _) _]. cbn in Hfin.
        destruct (Z.leb_spec target (current r)); [|lia]. cbn in Hv.
        destruct (Z.leb_spec target (finalized r)); [|lia]. by rewrite orb_true_r in Hv.
  - destruct (advance_tick_total d s0 log r (proj1 Hinv) Hl Hrecv) as (t & sn & h & r1 & Ht).
    pose proof (advance_tick_running r) as Hrun1. rewrite Ht in Hrun1. cbn in Hrun1.
    destruct (room_step_refines d s0 log _ _ _ _ (step_tick r t sn h r1 Hcur Ht) Hinv) as (log1 & Hinv1 & _ & Hc1).
    destruct (room_step_refines d s0 log1 _ _ _ _ (step_publish r1 t sn h) Hinv1) as (log2 & Hinv2 & _ & Hc2).
    destruct (room_step_refines d s0 log2 _ _ _ _ (step_finalize _ t) Hinv2) as (log3 & Hinv3 & _ & Hc3).
    apply (advance_tick_ok d s0 log) in Ht as Htick; [|done|apply Hinv].
    destruct Htick as (_ & _ & _ & _ & Hfr & _). injection Hfr as _ Hcur1 _ Hrecv1.
    unfold Room_advance, Room_advance_one, Room_advance_inner. rewrite Hrun, Ht. cbn [fst snd is_ok].
    pose proof (publish_core r1 t sn h) as Hpub. injection Hpub as _ _ _ Hr Hcu _.
    split_and!; [|rewrite <-Hl, <-Hc1, <-Hc2, <-Hc3; done| | |cbn; unfold finalize_tick; destruct (_ <? _); cbn; lia|done].
    + exists log3. by apply (machine_inv_core _ _ _ (finalize_tick (publish_tick r1 t sn h) (number t))).
    + cbn. unfold finalize_tick. destruct (_ <? _); cbn; rewrite publish_running; congruence.
    + cbn. unfold finalize_tick. destruct (_ <? _); cbn; rewrite Hr, Hrecv1; by apply Forall_nil.
Qed.

Lemma run_calls_snoc r ks k : run_calls r (ks ++ [k]) = (run_call (run_calls r ks) k).2.
Proof. unfold run_calls. by rewrite foldl_app. Qed.

Lemma run_calls_inv d s0 r ks :
  Forall call_wf ks -> r.(current) + len ks < u64_max -> idle_inv d s0 r ->
  idle_inv d s0 (run_calls r ks) /\ (run_calls r ks).(current) <= r.(current) + len ks.
Proof.
  intros Hks Hn Hinv. revert Hks Hn. induction ks as [|k ks IH] using rev_ind; intros Hks Hn.
  { rewrite len_nil. cbn. split; [done|lia]. }
  rewrite len_app, len_cons, len_nil in *. apply Forall_app in Hks as [Hks Hk]. rewrite Forall_singleton in Hk.
  destruct IH as [IH1 IH2]; [done|lia|]. rewrite run_calls_snoc.
  destruct (idle_inv_call d s0 (run_calls r ks) k Hk ltac:(lia) IH1) as (H1 & H2 & _). split; [done|lia].
Qed.

(** Calls are runs of the machine. *)
Lemma run_calls_steps d s0 r ks :
  Forall call_wf ks -> r.(current) + len ks < u64_max -> idle_inv d s0 r ->
  rtc room_step (r, Idle) (run_calls r ks, Idle).
Proof.
  intros Hks Hn Hinv. revert Hks Hn. induction ks as [|k ks IH] using rev_ind; intros Hks Hn; [apply rtc_refl|].
  rewrite len_app, len_cons, len_nil in *. apply Forall_app in Hks as [Hks Hk]. rewrite Forall_singleton in Hk.
  specialize (IH Hks ltac:(lia)). rewrite run_calls_snoc. etransitivity; [exact IH|].
  destruct (run_calls_inv d s0 r ks Hks ltac:(lia) Hinv) as [Hi Hc].
  destruct (idle_inv_call d s0 (run_calls r ks) k Hk ltac:(lia) Hi) as (_ & _ & Hok).
  destruct k as [target c|nanos]; cbn [run_call] in *.
  - apply rtc_once. eapply (step_try_submit_at _ _ target c); [done|apply surjective_pairing].
  - apply (advance_steps _ nanos); [lia|]. rewrite <-Hok. apply surjective_pairing.
Qed.

Lemma new_room_idle name cfg s0 o r0 :
  RoomConfig_wf cfg -> cfg.(max_snapshot_bytes) = limit -> Room_with_observer name cfg s0 o = Ok r0 ->
  idle_inv r0.(delta) s0 r0 /\ r0.(current) = 0.
Proof.
  intros Hwf Hl Hnew. destruct (new_room_inv _ _ _ _ _ Hwf Hnew) as (Hinv0 & _ & Hcfg).
  assert (Hr0 : r0.(running) = false /\ r0.(current) = 0 /\ r0.(runtime).(receiver) = []).
  { unfold Room_with_observer in Hnew. destruct (RoomConfig_validate cfg); [|done].
    destruct (_ || _); [done|]. by injection Hnew as <-. }
  destruct Hr0 as (Hrun & Hcur & Hrecv). split; [|done].
  split_and!; [by exists []|congruence|done|]. rewrite Hrecv. by apply Forall_nil.
Qed.

(** Ticks succeed: with a simulation whose operations succeed and whose snapshots fit the limit, a room
    that is given commands between its ticks, on time or late, never fails a tick: every rollback finds
    its checkpoint, and the restored state passes both integrity checks.  (Commands that arrive in the
    middle of a tick are another matter: [late_command_fails_tick].) *)
Theorem advance_succeeds name cfg s0 o r0 ks nanos :
  RoomConfig_wf cfg -> cfg.(max_snapshot_bytes) = limit -> Room_with_observer name cfg s0 o = Ok r0 ->
  Forall call_wf ks -> len ks < u64_max ->
  (Room_advance sha256 (run_calls r0 ks) nanos).1 = Ok ().
Proof.
  intros Hwf Hl Hnew Hks Hn. destruct (new_room_idle _ _ _ _ _ Hwf Hl Hnew) as [Hidle Hcur].
  destruct (run_calls_inv (delta r0) s0 r0 ks Hks ltac:(lia) Hidle) as [Hinv Hle].
  apply (idle_inv_call _ _ _ (Advance nanos)) in Hinv as (_ & _ & Hok); [done|done|lia].
Qed.
End progress.
End rollback.
