(* ===== verification/RoomBounds.v ===== *)
(** * The memory of realtime rooms is bounded

    Bounds on the state of [Realtime] rooms that hold whatever the simulation does, failed ticks
    included. *)

From S2P Require Import Prelude Float64 CoreError Identity Replay Realtime Rollback.

Section bounds.
Context {S C N O P : Type} (sha256 : list Z -> list Z).
Context `{!AuthoritativeSimulation S C N} `{!RoomObserver O C N} `{!SnapshotPublisher P N}.

Abbreviation Cmd := (Command (C:=C)).
Abbreviation room := (Room (S:=S) (C:=C) (N:=N) (O:=O) (P:=P)).
Abbreviation entries := (gmap Z (TickEntry (C:=C) (N:=N))).

(** Every record is of a tick of the window and holds a bounded number of commands. *)
Definition records_bounded (max lo cur : Z) (h : entries) : Prop :=
  forall n e, h !! n = Some e -> len e.(commands) <= max /\ lo <= n <= cur.

Definition room_bounded (lo : Z) (r : room) : Prop :=
  let rt := r.(runtime) in
  len rt.(receiver) <= r.(config).(command_capacity)
  /\ len rt.(pending) <= r.(config).(max_pending_commands)
  /\ records_bounded r.(config).(max_commands_per_tick) lo r.(current) rt.(history)
  /\ (rt.(initialized) = false -> r.(current) = 0)
  /\ 0 <= lo <= r.(current) /\ 0 <= r.(config).(command_capacity)
  /\ 0 <= r.(config).(max_commands_per_tick).

Lemma bounded_core lo r r' : core r' = core r -> room_bounded lo r -> room_bounded lo r'.
Proof. unfold core, room_bounded. by intros [= -> _ _ -> -> _]. Qed.

Lemma capture_core (r : room) t : core (Room_capture sha256 r t).2 = core r.
Proof. unfold Room_capture. by destruct (let? n := _ in _). Qed.

Lemma records_insert max lo cur h n e :
  records_bounded max lo cur h -> len e.(commands) <= max -> lo <= n <= cur ->
  records_bounded max lo cur (<[n := e]> h).
Proof.
  intros Hh He Hn m e' Hm. destruct (decide (m = n)) as [->|Hne].
  - rewrite lookup_insert, decide_True in Hm by done. by injection Hm as <-.
  - rewrite lookup_insert_ne in Hm by done. by apply Hh.
Qed.

Lemma initialize_bounded lo r : room_bounded lo r -> room_bounded lo (Room_initialize sha256 r).2.
Proof.
  intros Hb. unfold Room_initialize. destruct (initialized (runtime r)) eqn:Hi; [done|].
  pose proof (capture_core r (Room_tick r 0)) as Hc. destruct (Room_capture _ _ _) as [[[n h]|] r1]; cbn [snd] in *;
    [|by eapply bounded_core]. apply (bounded_core _ _ _ Hc) in Hb.
  injection Hc as _ _ _ Hr _ _.
  destruct Hb as (H1 & H2 & H3 & H4 & H5 & H6 & H7). rewrite Hr in H4. specialize (H4 Hi).
  split_and!; cbn; try done; try lia. apply records_insert; [done|exact H7|lia].
Qed.

Definition drain_bounded (cfg : RoomConfig) (lo cur : Z) (d : drained (C:=C) (N:=N)) : Prop :=
  len d.(dr_pending) <= cfg.(max_pending_commands)
  /\ records_bounded cfg.(max_commands_per_tick) lo cur d.(dr_history).

Lemma drain_one_bounded cfg lo cur d i :
  drain_bounded cfg lo cur d -> drain_bounded cfg lo cur (drain_one cfg cur d i).
Proof.
  intros [Hp Hh]. unfold drain_one. destruct (_ <=? default 0 _); [done|]. destruct (_ <=? cur).
  - destruct (dr_history d !! sub_target i) as [e|] eqn:He; [|done].
    destruct (Z.ltb_spec (len (commands e)) (max_commands_per_tick cfg)); [|done].
    split; [done|]. cbn. destruct (Hh _ _ He) as [_ Hr]. apply records_insert; [done| |done].
    cbn. rewrite len_app, len_cons, len_nil. lia.
  - destruct (Z.leb_spec (max_pending_commands cfg) (len (dr_pending d))); [done|].
    split; [|done]. cbn. unfold len in *. rewrite (Permutation_length (insert_by_perm _ _ _)). cbn. lia.
Qed.

Lemma drain_room_bounded lo r : room_bounded lo r -> room_bounded lo (Room_drain r).2.
Proof.
  intros (H1 & H2 & H3 & H4 & H5 & H6 & H7). unfold Room_drain. cbn [snd]. set (d := foldl _ _ _).
  assert (Hd : drain_bounded r.(config) lo r.(current) d).
  { unfold d. assert (H0 : drain_bounded r.(config) lo r.(current)
      {| dr_pending := r.(runtime).(pending); dr_history := r.(runtime).(history);
         dr_sequences := r.(runtime).(sequences); dr_order := r.(runtime).(next_order);
         dr_late := None; dr_counters := r.(counters) |}) by done.
    revert H0. generalize r.(runtime).(receiver) as l. intros l. generalize (Build_drained (C:=C) (N:=N)
      r.(runtime).(pending) r.(runtime).(history) r.(runtime).(sequences) r.(runtime).(next_order) None
      r.(counters)).
    induction l as [|i l IH]; intros d0 H0; cbn [foldl]; [done|]. by apply IH, drain_one_bounded. }
  destruct Hd as [Hp Hh]. split_and!; cbn; try done; lia.
Qed.

Lemma bounded_simulation lo r s : room_bounded lo r -> room_bounded lo (set_simulation r s).
Proof. done. Qed.

Lemma resimulate_tick_bounded lo r n : room_bounded lo r -> room_bounded lo (resimulate_tick sha256 r n).2.
Proof.
  intros Hb. unfold resimulate_tick. destruct (history (runtime r) !! n) as [e|] eqn:He; cbn [ok_or]; [|done].
  destruct (apply_all _ _) as [[] s1]; [|done]. destruct (step _ _) as [[] s2]; [|done].
  match goal with |- context [Room_capture sha256 ?q ?t] => pose proof (capture_core q t) as Hc end.
  destruct (Room_capture _ _ _) as [[[sn h]|] r2]; cbn [snd] in *;
    (assert (Hb2 : room_bounded lo r2) by (by apply (bounded_core _ _ _ Hc), bounded_simulation)); [|done].
  injection Hc as _ _ _ Hr _ _. destruct (history (runtime r2) !! n) as [e2|] eqn:He2; cbn [ok_or]; [|done].
  destruct Hb2 as (H1 & H2 & H3 & H4 & H5 & H6 & H7). split_and!; cbn; try done; try lia.
  destruct (H3 _ _ He2) as [Hl Hn]. by apply records_insert.
Qed.

Lemma resimulate_bounded lo r a b : room_bounded lo r -> room_bounded lo (Room_resimulate sha256 r a b).2.
Proof.
  intros Hb. unfold Room_resimulate. destruct (a <? 1); [done|]. destruct (ok_or _ _) as [e|]; [|done].
  destruct (Room_encode _ _ _); [|done]. destruct (negb _); [done|].
  destruct (restore _ _ _) as [[] s1]; [|done]. destruct (snapshot _ _); [|done].
  destruct (Room_encode _ _ _); [|done]. destruct (negb _); [done|].
  assert (Hloop : forall l q, room_bounded lo q -> room_bounded lo (resimulate_loop sha256 q l).2).
  { induction l as [|n l IH]; intros q Hq; cbn [resimulate_loop]; [done|].
    pose proof (resimulate_tick_bounded lo q n Hq). destruct (resimulate_tick _ _ _) as [[] q1]; [|done]. by apply IH. }
  pose proof (Hloop (seqZ a (b + 1 - a)) (set_simulation r s1) Hb) as Hl.
  destruct (resimulate_loop _ _ _) as [[] r1]; [|done]. cbn [snd] in *.
  eapply bounded_core; [apply core_observe|]. exact Hl.
Qed.

Lemma apply_due_bounded lo n fuel : forall r cs,
  room_bounded lo r ->
  room_bounded lo (apply_due fuel n r cs).2
  /\ len (apply_due fuel n r cs).1 <= len cs + Z.of_nat fuel
  /\ (apply_due fuel n r cs).2.(config) = r.(config) /\ (apply_due fuel n r cs).2.(current) = r.(current)
  /\ (apply_due fuel n r cs).2.(runtime).(initialized) = r.(runtime).(initialized).
Proof.
  induction fuel as [|fuel IH]; intros r cs Hb; cbn [apply_due]; [cbn; split_and!; try done; lia|].
  destruct (pending (runtime r)) as [|item rest] eqn:Hp; [cbn; split_and!; try done; lia|].
  destruct (_ <? _); [cbn; split_and!; try done; lia|]. set (r1 := observe _ _).
  assert (Hc : core r1 = core (set_pending r rest)) by apply core_observe. clearbody r1.
  assert (Hb1 : room_bounded lo r1).
  { apply (bounded_core _ _ _ Hc). destruct Hb as (H1 & H2 & H3 & H4 & H5 & H6 & H7).
    rewrite Hp, len_cons in H2. split_and!; cbn; try done; lia. }
  injection Hc as Hc1 _ _ Hr1 Hcur1 _.
  destruct (apply (simulation r1) (command item)) as [res s'].
  destruct res as [[]|err]; cbn [is_ok].
  - destruct (IH (Realtime.count (set_simulation r1 s') applied 1) (cs ++ [command item]) Hb1)
      as (I1 & I2 & I3 & I4 & I5). rewrite len_app, len_cons, len_nil in I2.
    split; [done|]. split; [lia|]. rewrite I3, I4, I5. cbn. rewrite Hr1. cbn. done.
  - destruct (IH (Realtime.count (set_simulation r1 s') rejected 1) cs Hb1) as (I1 & I2 & I3 & I4 & I5).
    split; [done|]. split; [lia|]. rewrite I3, I4, I5. cbn. rewrite Hr1. cbn. done.
Qed.

Lemma bounded_history lo (r : room) n e :
  room_bounded lo r -> r.(runtime).(initialized) = true -> n = r.(current) + 1 ->
  len e.(commands) <= r.(config).(max_commands_per_tick) ->
  room_bounded lo (set_current (set_history r (<[n := e]> r.(runtime).(history))) n).
Proof.
  intros (H1 & H2 & H3 & H4 & H5 & H6 & H7) Hi -> He. split_and!; cbn; try done; try lia.
  - apply records_insert; [|done|lia]. intros m e' Hm. destruct (H3 _ _ Hm). lia.
  - congruence.
Qed.

(** The configuration, current tick and initialization of a room. *)
Definition clock (r : room) : RoomConfig * Z * bool :=
  (r.(config), r.(current), r.(runtime).(initialized)).

Lemma clock_core (r r' : room) : core r' = core r -> clock r' = clock r.
Proof. unfold core, clock. by intros [= -> _ _ -> -> _]. Qed.

Lemma resimulate_clock r a b : clock (Room_resimulate sha256 r a b).2 = clock r.
Proof.
  assert (Ht : forall n q, clock (resimulate_tick sha256 q n).2 = clock q).
  { intros n q. unfold resimulate_tick. destruct (ok_or _ _) as [e|]; [|done].
    destruct (apply_all _ _) as [[] s1]; [|done]. destruct (step _ _) as [[] s2]; [|done].
    match goal with |- context [Room_capture sha256 ?q ?t] => pose proof (capture_core q t) as Hc end.
    apply clock_core in Hc. destruct (Room_capture _ _ _) as [[[sn h]|] r2]; [|done].
    by destruct (ok_or _ _). }
  assert (Hloop : forall l q, clock (resimulate_loop sha256 q l).2 = clock q).
  { induction l as [|n l IH]; intros q; cbn [resimulate_loop]; [done|].
    specialize (Ht n q). destruct (resimulate_tick _ _ _) as [[] q1]; [|done]. by rewrite IH. }
  unfold Room_resimulate. destruct (a <? 1); [done|]. destruct (ok_or _ _) as [e|]; [|done].
  destruct (Room_encode _ _ _); [|done]. destruct (negb _); [done|].
  destruct (restore _ _ _) as [[] s1]; [|done]. destruct (snapshot _ _); [|done].
  destruct (Room_encode _ _ _); [|done]. destruct (negb _); [done|].
  specialize (Hloop (seqZ a (b + 1 - a)) (set_simulation r s1)).
  destruct (resimulate_loop _ _ _) as [[] r1]; [|done]. cbn [snd] in *.
  etransitivity; [apply clock_core, core_observe|]. exact Hloop.
Qed.

(** A tick, successful or not. *)
Lemma advance_tick_bounded lo r :
  r.(current) < u64_max -> room_bounded lo r ->
  let '(res, r') := advance_tick sha256 r in
  room_bounded lo r' /\ r'.(config) = r.(config)
  /\ match res with
     | Ok (t, _, _) => r'.(current) = r.(current) + 1 /\ t.(number) = r'.(current)
     | Err _ => r'.(current) = r.(current)
     end.
Proof.
  intros Hmax Hb. unfold advance_tick.
  pose proof (initialize_bounded lo r Hb) as Hb0.
  assert (Hi : (Room_initialize sha256 r).2.(config) = r.(config)
               /\ (Room_initialize sha256 r).2.(current) = r.(current)
               /\ (is_ok (Room_initialize sha256 r).1 = true ->
                   (Room_initialize sha256 r).2.(runtime).(initialized) = true)).
  { unfold Room_initialize. destruct (initialized (runtime r)) eqn:Hi; [done|].
    pose proof (capture_core r (Room_tick r 0)) as Hc. apply clock_core in Hc. injection Hc as Hc1 Hc2 _.
    by destruct (Room_capture _ _ _) as [[[n h]|] r1]. }
  destruct (Room_initialize _ _) as [[u|e] r0]; cbn [fst snd is_ok] in *; [|by destruct Hi as (? & ? & _)].
  destruct Hi as (Hc0 & Hcur0 & Hi0). specialize (Hi0 eq_refl).
  pose proof (drain_room_bounded lo r0 Hb0) as Hb1.
  assert (Hk1 : clock (Room_drain r0).2 = clock r0) by done.
  destruct (Room_drain r0) as [late_from r1]. cbn [snd] in *.
  assert (Hr2 : forall q, q = match late_from with
                              | Some from => Room_resimulate sha256 r1 from r1.(current)
                              | None => (Ok (), r1)
                              end -> room_bounded lo q.2 /\ clock q.2 = clock r1).
  { intros q ->. destruct late_from; [|done]. split; [by apply resimulate_bounded|apply resimulate_clock]. }
  destruct (match late_from with Some _ => _ | None => _ end) as [res2 r2].
  destruct (Hr2 _ eq_refl) as [Hb2 Hk2]. cbn [snd] in *. clear Hr2.
  rewrite Hk1 in Hk2. unfold clock in Hk2. injection Hk2 as Hc2 Hcur2 Hi2.
  destruct res2; [|split; [done|split; congruence]]. clear r1 Hb1 Hk1.
  assert (Hwrap : wrap_u64 (current r2 + 1) = current r2 + 1).
  { unfold wrap_u64. destruct Hb as (_ & _ & _ & _ & H5 & _). apply Z.mod_small. unfold u64_max in Hmax. lia. }
  rewrite Hwrap.
  destruct (apply_due_bounded lo (current r2 + 1) (Z.to_nat (max_commands_per_tick (config r2))) r2 [] Hb2)
    as (Hb3 & Hl3 & Hc3 & Hcur3 & Hi3).
  destruct (apply_due _ _ _ _) as [cmds r3]. cbn [fst snd] in *. rewrite len_nil in Hl3.
  destruct (step _ _) as [[] s4]; [|split; [done|cbn; split; congruence]].
  match goal with |- context [Room_capture sha256 ?q ?t] => pose proof (capture_core q t) as Hc; set (r4 := q) in * end.
  assert (Hcore4 : core r4 = core (set_simulation r3 s4)) by apply core_observe. rewrite Hcore4 in Hc.
  destruct (Room_capture _ _ _) as [[[sn h]|] r5]; cbn [snd] in *;
    (assert (Hb5 : room_bounded lo r5) by (by apply (bounded_core _ _ _ Hc), bounded_simulation));
    injection Hc as Hc5 _ _ Hr5 Hcur5 _; cbn in Hr5.
  - split; [|split; [cbn; congruence|cbn; split; [lia|done]]].
    apply (bounded_history lo r5); [done|congruence|congruence|].
    destruct Hb2 as (_ & _ & _ & _ & _ & _ & Hm). cbn. rewrite Hc5. cbn. rewrite Hc3. lia.
  - split; [done|]. split; congruence.
Qed.

(** ** Every run *)

(** The steps of a room, and ticks that fail. *)
Inductive any_step : room * phase (N:=N) -> room * phase (N:=N) -> Prop :=
| completed_step st st' : room_step sha256 st st' -> any_step st st'
| failed_tick r e r' :
    r.(current) < u64_max -> advance_tick sha256 r = (Err e, r') -> any_step (r, Idle) (r', Idle).

(** The oldest tick retained in a phase. *)
Definition oldest (r : room) (ph : phase (N:=N)) : Z :=
  saturating_sub (match ph with Idle => r.(current) | _ => r.(current) - 1 end)
    r.(config).(Realtime.rollback_window_ticks).

Definition bounds_inv (cfg : RoomConfig) (st : room * phase (N:=N)) : Prop :=
  room_bounded (oldest st.1 st.2) st.1 /\ st.1.(config) = cfg
  /\ match st.2 with
     | Idle => True
     | Publishing t _ _ | Finalizing t => t.(number) = st.1.(current)
     end.

Lemma bounds_inv_core cfg r r' ph : core r' = core r -> bounds_inv cfg (r, ph) -> bounds_inv cfg (r', ph).
Proof.
  intros Hc (Hb & Hcfg & Hn). unfold bounds_inv, oldest in *. cbn in *.
  pose proof (bounded_core _ _ _ Hc Hb) as Hb'. injection Hc as Hc1 _ _ _ Hc2 _. rewrite Hc1, Hc2.
  split_and!; try done; by apply Hb'.
Qed.

Lemma send_bounded cfg (r : room) ph target c n k :
  channel_full r = false -> bounds_inv cfg (r, ph) ->
  bounds_inv cfg (Realtime.count (send r target c) k n, ph).
Proof.
  unfold channel_full. intros Hfull%Z.leb_gt ((H1 & H2 & H3) & Hcfg & Hn). split; [|done]. cbn in *.
  split; [|split; [done|exact H3]]. cbn. rewrite len_app, len_cons, len_nil. lia.
Qed.

Lemma any_step_bounded cfg st st' :
  0 <= cfg.(Realtime.rollback_window_ticks) -> any_step st st' -> bounds_inv cfg st -> bounds_inv cfg st'.
Proof.
  intros Hw Hstep Hinv. destruct Hstep as [st st' Hstep|r e r' Hmax Ht].
  - inversion Hstep as [r ph target c res r' Ht Hs|r ph target c res r' Ht Hs|r t sn h r' Hmax Hs|r t sn h|r t| | |];
      subst.
    + unfold Room_try_submit_at in Hs. destruct (Room_validate r target c); [|by injection Hs as <- <-].
      destruct (channel_full r) eqn:Hf; injection Hs as <- <-; [done|by apply send_bounded].
    + unfold Room_submit_at in Hs. destruct (Room_validate r target c); [|by injection Hs as <- <-].
      destruct (channel_full r) eqn:Hf; injection Hs as <- <-; [done|by apply send_bounded].
    + destruct Hinv as (Hb & Hcfg & _). cbn in Hb, Hcfg. pose proof (advance_tick_bounded _ r Hmax Hb) as Ha.
      rewrite Hs in Ha. destruct Ha as (Hb' & Hcfg' & Hcur & Hn). split; [|cbn; split; [congruence|done]].
      unfold oldest in *. cbn in *. rewrite Hcur, Hcfg'.
      by replace (current r + 1 - 1) with (current r) by lia.
    + apply (bounds_inv_core _ r); [apply publish_core|done].
    + destruct Hinv as ((H1 & H2 & H3 & H4 & H5 & H6 & H7) & Hcfg & Hn). cbn in *. rewrite Hn.
      unfold finalize_tick. set (through := saturating_sub (current r) _).
      set (r1 := if (_ : bool) then _ else r).
      assert (Hr1 : (config r1, runtime r1, current r1) = (config r, runtime r, current r))
        by (unfold r1; by destruct (_ <? _)).
      injection Hr1 as Hc1 Hc2 Hc3. clearbody r1. unfold bounds_inv, oldest. cbn. rewrite Hc1, Hc3.
      split; [|done]. unfold room_bounded. cbn. rewrite Hc1, Hc2, Hc3. fold through.
      assert (Hth : 0 <= through <= current r) by (unfold through, saturating_sub; rewrite Hcfg; lia).
      split_and!; try done; try lia.
      intros n e [He Hle]%map_lookup_filter_Some. destruct (H3 _ _ He). split; [done|]. cbn in Hle. lia.
    + done.
    + done.
    + done.
  - destruct Hinv as (Hb & Hcfg & _). cbn in Hb, Hcfg. pose proof (advance_tick_bounded _ r Hmax Hb) as Ha.
    rewrite Ht in Ha. destruct Ha as (Hb' & Hcfg' & Hcur). split; [|cbn; split; [congruence|done]].
    unfold oldest in *. cbn in *. by rewrite Hcur, Hcfg'.
Qed.

(** A map whose keys lie in an interval is no larger than the interval. *)
Lemma interval_size {A} (m : gmap Z A) lo hi :
  lo <= hi + 1 -> (forall k v, m !! k = Some v -> lo <= k <= hi) -> Z.of_nat (size m) <= hi + 1 - lo.
Proof.
  intros Hle Hm. rewrite <-size_dom.
  assert (Hsub : dom m ⊆ list_to_set (seqZ lo (hi + 1 - lo))).
  { intros k [v Hv]%elem_of_dom. apply elem_of_list_to_set, elem_of_seqZ. specialize (Hm k v Hv). lia. }
  apply subseteq_size in Hsub. rewrite size_list_to_set in Hsub by apply NoDup_seqZ. rewrite length_seqZ in Hsub. lia.
Qed.

(** C36: a room's memory is bounded, whatever the simulation answers, failed ticks and submissions in the
    middle of a tick included: the commands waiting to be received, the commands scheduled, the commands of
    a retained tick and the number of retained ticks never exceed the configured limits. *)
Theorem room_memory_bounded name cfg s0 o r0 r ph :
  RoomConfig_wf cfg -> Room_with_observer name cfg s0 o = Ok r0 -> rtc any_step (r0, Idle) (r, ph) ->
  len r.(runtime).(receiver) <= cfg.(command_capacity)
  /\ len r.(runtime).(pending) <= cfg.(max_pending_commands)
  /\ (forall n e, r.(runtime).(history) !! n = Some e -> len e.(commands) <= cfg.(max_commands_per_tick))
  /\ Z.of_nat (size r.(runtime).(history)) <= cfg.(Realtime.rollback_window_ticks) + 2.
Proof.
  intros Hwf Hnew Hrun.
  assert (H0 : bounds_inv cfg (r0, Idle)).
  { unfold Room_with_observer in Hnew. destruct (RoomConfig_validate cfg) as [[]|]; [|done].
    destruct (_ || _); [done|]. injection Hnew as <-.
    destruct Hwf as (_ & _ & _ & [Hc _] & [Hp _] & [Hm _] & _ & [Hw _] & _). unfold bounds_inv, room_bounded. cbn.
    unfold oldest. cbn. split_and!; try done; unfold saturating_sub; try lia. }
  assert (Hw : 0 <= cfg.(Realtime.rollback_window_ticks)) by apply Hwf.
  remember (r0, Idle) as st eqn:E. remember (r, ph) as st' eqn:E'. clear E.
  assert (Hinv : bounds_inv cfg st').
  { induction Hrun as [st|st1 st2 st3 Hstep _ IH]; [done|]. apply IH; [done|]. by eapply any_step_bounded. }
  subst st'. destruct Hinv as ((H1 & H2 & H3 & H4 & H5 & H6 & H7) & Hcfg & _). cbn in *. rewrite Hcfg in *.
  split_and!; [done|done|by intros n e He; apply (H3 n e)|].
  etransitivity; [apply (interval_size _ (oldest r ph) (current r)); [lia|by intros k v Hk; apply (H3 k v)]|].
  unfold oldest, saturating_sub in *. rewrite Hcfg in *. destruct ph; lia.
Qed.
End bounds.
