(* ===== verification/RoomCases.v ===== *)
(** * Realtime rooms: runs

    Two small simulations, for the instances of the theorems on rooms, and how [run] ends.  [Adder]
    never fails; [Purse] refuses a command it cannot pay for. *)

From S2P Require Import Prelude Bytes Float64 CoreError Identity Replay Realtime Rollback RoomBounds.

(** ** [run] and the running flag *)

Section running.
Context {S C N O P : Type} (sha256 : list Z -> list Z).
Context `{!AuthoritativeSimulation S C N} `{!RoomObserver O C N} `{!SnapshotPublisher P N}.
Abbreviation room := (Room (S:=S) (C:=C) (N:=N) (O:=O) (P:=P)).

Lemma advance_one_running (r : room) nanos : (Room_advance_one sha256 r nanos).2.(running) = r.(running).
Proof.
  unfold Room_advance_one, Room_advance_inner. pose proof (advance_tick_running sha256 r) as Ht.
  destruct (advance_tick _ r) as [[[[t sn] h]|] r1]; [|done]. cbn [snd] in *. rewrite <-Ht.
  rewrite <-(publish_running r1 t sn h). unfold finalize_tick. cbn. by destruct (_ <? _).
Qed.

Lemma run_loop_running events : forall (r : room) res r',
  run_loop sha256 r events = (Some res, r') -> r.(running) = true -> r'.(running) = negb (is_ok res).
Proof.
  induction events as [|[nanos|flag] events IH]; intros r res r' Hrun Hr; cbn [run_loop] in Hrun; [done|..].
  - pose proof (advance_one_running r nanos) as Ha.
    destruct (Room_advance_one _ r nanos) as [[u|e] r1]; cbn in Ha.
    + apply (IH r1); [done|congruence].
    + injection Hrun as <- <-. cbn. congruence.
  - destruct (default true flag); [by injection Hrun as <- <-|]. by apply (IH r).
Qed.

(** Every call that would advance the room is refused, and changes nothing. *)
Definition blocked (r : room) : Prop :=
  (forall nanos, Room_advance sha256 r nanos = (Err (InvalidConfig "room is running"), r))
  /\ (forall events, Room_run sha256 r events = (Some (Err (InvalidConfig "room already running")), r)).

(** How [run] ends: on a shutdown it returns success and leaves the room free to be advanced or run
    again; when a tick fails it returns that error with the room still marked as running, so every later
    [advance] and [run] of the room is refused. *)
Theorem run_failure_blocks_room (r : room) events res r' :
  r.(running) = false -> Room_run sha256 r events = (Some res, r') ->
  match res with
  | Ok _ => r'.(running) = false
  | Err _ => blocked r'
  end.
Proof.
  unfold Room_run. intros -> Hrun. apply run_loop_running in Hrun; [|done]. destruct res; [done|].
  cbn in Hrun. unfold blocked, Room_advance, Room_run. by rewrite Hrun.
Qed.
End running.

(** ** Simulations *)

Definition no_digest (bytes : list Z) : list Z := bytes.

#[export] Instance silent_observer {C N} : RoomObserver unit C N := {|
  on_command := fun o _ _ => (Ok (), o); on_tick := fun o _ => (Ok (), o);
  on_snapshot := fun o _ _ _ => (Ok (), o); on_rollback := fun o _ _ => (Ok (), o) |}.

#[export] Instance silent_publisher {N} : SnapshotPublisher unit N := {|
  publish := fun p _ => (Some (Ok ()), p); force_keyframe := fun p => p |}.

Record Adder : Type := { total : Z; steps : Z }.

#[export] Instance Adder_simulation : AuthoritativeSimulation Adder Z (Z * Z) := {|
  apply := fun s c => (Ok (), {| total := s.(total) + c.(value); steps := s.(steps) |});
  step := fun s _ => (Ok (), {| total := s.(total) * 2; steps := s.(steps) + 1 |});
  snapshot := fun s _ => Ok (s.(total), s.(steps));
  encode_snapshot := fun _ n => Ok (put_be 8 n.1 ++ put_be 8 n.2);
  restore := fun _ _ n => (Ok (), {| total := n.1; steps := n.2 |}) |}.

#[export] Instance Adder_laws : SimulationLaws (S:=Adder) (C:=Z) (N:=Z * Z) eq.
Proof.
  split.
  - apply _.
  - intros s ? <- c ? <-. done.
  - intros s ? <- t ? <-. done.
  - intros s ? <- t ? <-. done.
  - intros s ? <- n ? <-. done.
  - done.
  - intros [a b] s1 s' t n. cbn. by intros [= <-] [= <-].
Qed.

#[export] Instance Adder_total : TotalSimulation (S:=Adder) (C:=Z) (N:=Z * Z) 16.
Proof.
  split; cbn; eauto.
  intros _ n. eexists. split; [done|]. unfold len. cbn. lia.
Qed.

(** A purse that gains a coin every tick; a command spends. *)
Record Purse : Type := { coins : Z }.

#[export] Instance Purse_simulation : AuthoritativeSimulation Purse Z Z := {|
  apply := fun s c =>
    if s.(coins) <? c.(value) then (Err (InvalidConfig "not enough coins"), s)
    else (Ok (), {| coins := s.(coins) - c.(value) |});
  step := fun s _ => (Ok (), {| coins := s.(coins) + 1 |});
  snapshot := fun s _ => Ok s.(coins);
  encode_snapshot := fun _ n => Ok (put_be 8 n);
  restore := fun _ _ n => (Ok (), {| coins := n |}) |}.

#[export] Instance Purse_laws : SimulationLaws (S:=Purse) (C:=Z) (N:=Z) eq.
Proof.
  split.
  - apply _.
  - intros s ? <- c ? <-. done.
  - intros s ? <- t ? <-. done.
  - intros s ? <- t ? <-. done.
  - intros s ? <- n ? <-. done.
  - intros [k] c e s'. cbn. destruct (k <? value c); [by intros [= <- <-]|done].
  - intros [k] s1 s' t n. cbn. by intros [= <-] [= <-].
Qed.

(** ** Runs *)

Definition case_config (window : Z) : RoomConfig :=
  {| Realtime.tick_rate := 30; Realtime.input_delay_ticks := 0; max_future_input_ticks := 10;
     command_capacity := 4; max_pending_commands := 4; max_commands_per_tick := 4; snapshot_interval := 1;
     Realtime.rollback_window_ticks := window; max_snapshot_bytes := 16; publish_timeout := 1000000 |}.

Lemma case_config_wf : RoomConfig_wf (case_config 2).
Proof. unfold RoomConfig_wf, fits, u32_max, usize_max, u64_max. cbn. lia. Qed.

Definition case_command (seq v : Z) : Command (C:=Z) :=
  {| player := {| region_id := 1; realm_id := 1; user_id := 7 |}; sequence := seq; value := v |}.

Abbreviation adder_room := (Room (S:=Adder) (C:=Z) (N:=Z * Z) (O:=unit) (P:=unit)).
Abbreviation purse_room := (Room (S:=Purse) (C:=Z) (N:=Z) (O:=unit) (P:=unit)).

(** Five ticks, a command for tick 4, which is past, and the tick that rolls back. *)
Definition case_calls : list (call (C:=Z)) :=
  [TrySubmitAt 1 (case_command 1 2); Advance 0; Advance 0; Advance 0; Advance 0; Advance 0;
   TrySubmitAt 4 (case_command 2 5)].

Lemma case_calls_wf : Forall call_wf case_calls.
Proof. unfold case_calls. repeat (apply Forall_cons; split; [cbn; unfold fits, u64_max; try done; lia|]). by apply Forall_nil. Qed.

Definition adder_new : Result adder_room :=
  Room_with_observer "case" (case_config 2) {| total := 0; steps := 0 |} (Some tt).

Definition case_room : adder_room :=
  match adder_new with
  | Ok r => r
  | Err _ => {| room_name := ""; config := case_config 0; delta := 0; simulation := {| total := 0; steps := 0 |};
                runtime := {| receiver := []; pending := []; history := ∅; sequences := ∅; next_order := 0;
                              initialized := false |};
                snapshots := None; finalizations := None; current := 0; finalized := 0; running := false;
                counters := Counters_default; observer := None; publisher := None |}
  end.

Lemma case_room_new : Room_with_observer "case" (case_config 2) {| total := 0; steps := 0 |} (Some tt) = Ok case_room.
Proof. vm_compute. reflexivity. Qed.

Lemma case_run :
  rtc (room_step no_digest) (case_room, Idle) (run_calls no_digest case_room (case_calls ++ [Advance 0]), Idle).
Proof.
  destruct (new_room_idle no_digest eq 16 _ _ _ _ _ case_config_wf eq_refl case_room_new) as [Hidle Hcur].
  eapply (run_calls_steps no_digest eq 16); [|by rewrite Hcur|exact Hidle].
  apply Forall_app. split; [apply case_calls_wf|]. by apply Forall_singleton.
Qed.

(** The late command is counted from tick 4 on. *)
Lemma room_state_matches_log_witness :
  let r := run_calls no_digest case_room (case_calls ++ [Advance 0]) in
  r.(simulation) = {| total := 2 * 2 ^ 6 + 5 * 2 ^ 3; steps := 6 |} /\ r.(counters) rollbacks = 1
  /\ exists log, len log = 6 /\ at_log eq case_room.(delta) {| total := 0; steps := 0 |} log r.(simulation).
Proof.
  split; [vm_compute; reflexivity|]. split; [vm_compute; reflexivity|].
  destruct (room_state_matches_log no_digest eq "case" (case_config 2) {| total := 0; steps := 0 |} (Some tt)
    case_room _ Idle case_config_wf case_room_new case_run) as (log & _ & Hlen & Hat & _).
  exists log. split; [rewrite Hlen; vm_compute; reflexivity|exact Hat].
Defined.

Lemma finalized_ticks_fixed_witness :
  let r := run_calls no_digest case_room (case_calls ++ [Advance 0]) in
  r.(finalized) = 4 /\
  exists log log', at_log eq case_room.(delta) {| total := 0; steps := 0 |} log r.(simulation)
    /\ at_log eq case_room.(delta) {| total := 0; steps := 0 |} log' r.(simulation)
    /\ take (Z.to_nat r.(finalized)) log' = take (Z.to_nat r.(finalized)) log.
Proof.
  split; [vm_compute; reflexivity|].
  destruct (finalized_ticks_fixed no_digest eq "case" (case_config 2) {| total := 0; steps := 0 |} (Some tt)
    case_room _ Idle _ case_config_wf case_room_new case_run (rtc_refl _ _))
    as (log & log' & H1 & H2 & _ & _ & H3 & _).
  exists log, log'. exact (conj H1 (conj H2 H3)).
Defined.

Lemma advance_succeeds_witness :
  (run_calls no_digest case_room case_calls).(runtime).(receiver) <> []
  /\ (Room_advance no_digest (run_calls no_digest case_room case_calls) 0).1 = Ok ().
Proof.
  split; [vm_compute; done|].
  exact (advance_succeeds no_digest eq 16 "case" (case_config 2) {| total := 0; steps := 0 |} (Some tt)
    case_room case_calls 0 case_config_wf eq_refl case_room_new case_calls_wf eq_refl).
Defined.

Lemma room_memory_bounded_witness :
  let r := run_calls no_digest case_room (case_calls ++ [Advance 0]) in
  size r.(runtime).(history) = 3%nat /\ Z.of_nat (size r.(runtime).(history)) <= 4.
Proof.
  split; [vm_compute; reflexivity|].
  apply (room_memory_bounded no_digest "case" (case_config 2) {| total := 0; steps := 0 |} (Some tt)
    case_room _ Idle case_config_wf case_room_new).
  apply (rtc_congruence (R:=room_step no_digest) id); [|exact case_run]. intros st st'. apply completed_step.
Defined.

Definition idle_ticks (n : nat) : list (call (C:=Z)) := repeat (Advance 0) n.

(** [room] with the outcome of a tick's first phase, and the rest of the tick. *)
Definition mid_tick (r : adder_room) (during : adder_room -> adder_room) : adder_room :=
  match advance_tick no_digest r with
  | (Ok (t, sn, h), r1) => finalize_tick (publish_tick (during r1) t sn h) t.(number)
  | (Err _, r1) => r1
  end.

Lemma mid_tick_steps (r : adder_room) target c :
  r.(current) < u64_max -> u64_ok target -> is_ok (advance_tick no_digest r).1 = true ->
  rtc (room_step no_digest) (r, Idle)
    (mid_tick r (fun r1 => (Room_try_submit_at r1 target c).2), Idle).
Proof.
  intros Hcur Ht Hok. unfold mid_tick. destruct (advance_tick _ r) as [[[[t sn] h]|] r1] eqn:Ha; [|done].
  eapply rtc_l; [by apply step_tick|].
  eapply rtc_l; [eapply (step_try_submit_at _ _ _ target c); [done|apply surjective_pairing]|].
  eapply rtc_l; [apply step_publish|]. apply rtc_once, step_finalize.
Qed.

(** A command that arrives in the middle of a tick can fail the next one.  The rollback window is two
    ticks and the room is in its sixth tick: a command for tick 4 is accepted, because tick 3 is still the
    finalized tick, but when the tick ends tick 4 becomes final and its predecessor's checkpoint is
    discarded, so the next tick fails with a rollback error although the simulation never fails. *)
Theorem late_command_fails_tick :
  let r5 := run_calls no_digest case_room (idle_ticks 5) in
  let submit := fun r1 : adder_room => Room_try_submit_at r1 4 (case_command 1 1) in
  let r6 := mid_tick r5 (fun r1 => (submit r1).2) in
  rtc (room_step no_digest) (case_room, Idle) (r6, Idle)
  /\ (submit (advance_tick no_digest r5).2).1 = Ok ()
  /\ (Room_advance no_digest r6 0).1 = Err (InvalidConfig "rollback window").
Proof.
  cbn zeta. split; [|split; vm_compute; reflexivity].
  destruct (new_room_idle no_digest eq 16 _ _ _ _ _ case_config_wf eq_refl case_room_new) as [Hidle Hcur].
  etransitivity.
  - eapply (run_calls_steps no_digest eq 16 _ _ _ (idle_ticks 5)); [by repeat constructor|by rewrite Hcur|exact Hidle].
  - apply mid_tick_steps; [vm_compute; reflexivity|by unfold fits, u64_max|vm_compute; reflexivity].
Qed.

(** A purse after three ticks, then a command to spend five coins at tick 2, when the purse holds one. *)
Definition purse_room0 : Result purse_room :=
  Room_with_observer "purse" (case_config 2) {| coins := 0 |} (Some tt).

Definition purse_after (calls : list (call (C:=Z))) : option (list bool * Z * Z) :=
  match purse_room0 with
  | Ok r =>
      let '(r, oks) := foldl (fun '(r, oks) k => let '(res, r) := run_call no_digest r k in (r, oks ++ [is_ok res]))
                         (r, []) calls in
      Some (oks, r.(current), r.(simulation).(coins))
  | Err _ => None
  end.

(** A late command the simulation refuses loses ticks.  A command refused in its own tick is counted and
    skipped, but one refused during a rollback fails the tick and leaves the simulation at the restored
    checkpoint while the room's clock stays: the room goes on from there, and its state misses the ticks
    that were rolled back. *)
Theorem refused_late_command_loses_ticks :
  purse_after (idle_ticks 3 ++ idle_ticks 1) = Some ([true; true; true; true], 4, 4)
  /\ purse_after (idle_ticks 2 ++ [TrySubmitAt 3 (case_command 1 5)] ++ idle_ticks 2)
     = Some ([true; true; true; true; true], 4, 4)
  /\ purse_after (idle_ticks 3 ++ [TrySubmitAt 2 (case_command 1 5)] ++ idle_ticks 2)
     = Some ([true; true; true; true; false; true], 4, 2).
Proof. vm_compute. done. Qed.

(** [run] on the room above: the tick fails, and so does everything after it. *)
Definition raced_room : adder_room :=
  mid_tick (run_calls no_digest case_room (idle_ticks 5))
    (fun r1 => (Room_try_submit_at r1 4 (case_command 1 1)).2).

Lemma run_failure_blocks_room_witness :
  let r' := (Room_run no_digest raced_room [TimerTick 0]).2 in
  (Room_run no_digest raced_room [TimerTick 0]).1 = Some (Err (InvalidConfig "rollback window"))
  /\ blocked no_digest r'.
Proof.
  assert (H : (Room_run no_digest raced_room [TimerTick 0]).1
              = Some (Err (InvalidConfig "rollback window"))) by (vm_compute; reflexivity).
  assert (Hr : raced_room.(running) = false) by (vm_compute; reflexivity).
  split; [exact H|].
  apply (run_failure_blocks_room no_digest raced_room [TimerTick 0] (Err (InvalidConfig "rollback window")) _ Hr). rewrite <-H. apply surjective_pairing.
Defined.

(** The tick rates that are accepted have a tick of at least a nanosecond. *)
Lemma room_delta_positive cfg :
  RoomConfig_validate cfg = Ok () ->
  exists d, from_secs_f64 (f64_div f64_one (f64_of_Z cfg.(Realtime.tick_rate))) = Some d /\ 0 < d.
Proof.
  unfold RoomConfig_validate. intros H. assert (Hr : 1 <= Realtime.tick_rate cfg <= 240).
  { destruct (Z.leb_spec 1 (Realtime.tick_rate cfg)); [|done].
    destruct (Z.leb_spec (Realtime.tick_rate cfg) 240); [lia|done]. }
  assert (Hall : forallb (fun rate => match from_secs_f64 (f64_div f64_one (f64_of_Z rate)) with
                                      | Some d => 0 <? d | None => false end) (seqZ 1 240) = true)
    by (vm_compute; reflexivity).
  rewrite forallb_forall in Hall. specialize (Hall (Realtime.tick_rate cfg)).
  rewrite <-list_elem_of_In, elem_of_seqZ in Hall. specialize (Hall ltac:(lia)).
  destruct (from_secs_f64 _) as [d|]; [|done]. exists d. split; [done|lia].
Qed.
