(* ===== verification/Presence.v ===== *)
(** * Online presence: [crates/elura-gateway/src/presence.rs], [crates/elura-core/src/push.rs]

    Session leases, the admission policy, the directory interface, its in-memory implementation and the
    resolver that routes pushes with it.  A [Uuid] is its 128-bit value.  [SystemTime::now] is an
    argument of the operations that read the clock; the mutex cannot be poisoned because nothing
    panics while it is held.  [HashMap] and [HashSet] iterate in an order of their own: lists built
    from them are in the order of [map_to_list] and [elements], and no theorem depends on it. *)

From Stdlib Require Import Ascii.
From S2P Require Import Prelude CoreError Identity.

(** ** Pushes *)

Inductive PushTarget : Type :=
| PushSession (id : Z)
| PushUser (user_id : Z)
| PushUsers (users : list Z)
| PushRealm
| PushTopic (topic : string)
| PushJoinTopic (session_id : Z) (topic : string)
| PushLeaveTopic (session_id : Z) (topic : string)
| PushDisconnect (id : Z).

Record PushRequest : Type := {
  push_region_id : Z;
  push_realm_id : Z;
  push_target : PushTarget;
  push_route : Z;
  push_sequence : Z;
  push_trace_id : string;
  push_payload : list Z;
}.

Definition is_topic_byte (b : ascii) : bool :=
  is_ascii_alphanumeric b || Ascii.eqb b "-"%char || Ascii.eqb b "_"%char || Ascii.eqb b "."%char || Ascii.eqb b ":"%char.

Definition valid_topic (topic : string) : bool :=
  negb (String.eqb topic "") && (string_len topic <=? 128) && string_forallb is_topic_byte topic.

Definition valid_target (target : PushTarget) : bool :=
  match target with
  | PushSession id | PushDisconnect id => negb (id =? 0)
  | PushUser _ | PushRealm => true
  | PushUsers users => negb (len users =? 0) && (len users <=? 1024)
  | PushTopic topic => valid_topic topic
  | PushJoinTopic session_id topic | PushLeaveTopic session_id topic =>
      negb (session_id =? 0) && valid_topic topic
  end.

Definition PushRequest_validate (self : PushRequest) : Result unit :=
  let control :=
    match self.(push_target) with
    | PushJoinTopic _ _ | PushLeaveTopic _ _ | PushDisconnect _ => true
    | _ => false
    end in
  if (self.(push_region_id) =? 0) || (self.(push_realm_id) =? 0)
     || (negb control && (self.(push_route) =? 0)) || (128 <? string_len self.(push_trace_id))
     || (1024 * 1024 <? len self.(push_payload)) || negb (valid_target self.(push_target)) then
    Err (InvalidConfig "invalid push")
  else Ok ().

Record PushReceipt : Type := {
  receipt_accepted : bool;
  delivered : Z;
  receipt_sequence : Z;
  receipt_trace_id : string;
}.

Definition PushReceipt_accepted (request : PushRequest) (delivered : Z) : PushReceipt :=
  {| receipt_accepted := true; delivered := delivered; receipt_sequence := request.(push_sequence);
     receipt_trace_id := request.(push_trace_id) |}.

(** ** Leases and policy *)

Record SessionLease : Type := {
  session_id : Z;
  gateway_id : string;
  identity : Identity;
  expires_at : Z;
}.

Record OnlineStats : Type := { session_count : Z; user_count : Z }.

Inductive DuplicateLoginMode : Type := AllowMultiple | RejectNew | KickExisting.

#[export] Instance DuplicateLoginMode_eq_dec : EqDecision DuplicateLoginMode.
Proof. solve_decision. Defined.

Record OnlineAdmissionPolicy : Type := {
  duplicate_login : DuplicateLoginMode;
  max_sessions : option Z;
}.

Definition OnlineAdmissionPolicy_new (mode : DuplicateLoginMode) (max : option Z) :
    Result OnlineAdmissionPolicy :=
  if bool_decide (max = Some 0) then Err (InvalidConfig "online realm capacity must be positive")
  else Ok {| duplicate_login := mode; max_sessions := max |}.

Inductive OnlineAdmission : Type :=
| Accepted (previous_session : option Z)
| Duplicate
| RealmFull.

(** [trait OnlineDirectory], the directory's state passed along. *)
Class OnlineDirectory (D : Type) := {
  acquire : D -> SessionLease -> OnlineAdmissionPolicy -> Result OnlineAdmission * D;
  renew : D -> SessionLease -> Result unit * D;
  unregister : D -> SessionLease -> Result unit * D;
  session : D -> Z -> Result (option SessionLease) * D;
  user_sessions : D -> Z -> Z -> Z -> Result (list SessionLease) * D;
  group_sessions : D -> string -> Result (list SessionLease) * D;
  track_group : D -> Z -> string -> bool -> Result unit * D;
}.

(** ** Resolution of push targets *)

Definition topic_group (topic : string) : string := ("topic:" +:+ topic)%string.

Section resolver.
Context {D : Type} `{!OnlineDirectory D}.

(** The loop over the users of a [Users] target. *)
Fixpoint users_gateways (d : D) (region realm : Z) (users : list Z) (gateways : gset string) :
    Result (gset string) * D :=
  match users with
  | [] => (Ok gateways, d)
  | user :: users =>
      let '(leases, d) := user_sessions d region realm user in
      let? leases := leases else d in
      users_gateways d region realm users (gateways ∪ list_to_set (gateway_id <$> leases))
  end.

Definition target_gateways (d : D) (request : PushRequest) : Result (gset string) * D :=
  match request.(push_target) with
  | PushRealm => (Ok ∅, d)
  | PushSession id | PushDisconnect id =>
      let '(lease, d) := session d id in
      let? lease := lease else d in
      (Ok (match lease with Some l => {[ l.(gateway_id) ]} | None => ∅ end), d)
  | PushUser user =>
      let '(leases, d) := user_sessions d request.(push_region_id) request.(push_realm_id) user in
      let? leases := leases else d in
      (Ok (list_to_set (gateway_id <$> leases)), d)
  | PushUsers users => users_gateways d request.(push_region_id) request.(push_realm_id) users ∅
  | PushTopic topic =>
      let '(leases, d) := group_sessions d (topic_group topic) in
      let? leases := leases else d in
      (Ok (list_to_set (gateway_id <$> leases)), d)
  | PushJoinTopic id topic | PushLeaveTopic id topic =>
      let join := match request.(push_target) with PushJoinTopic _ _ => true | _ => false end in
      let '(owner, d) := session d id in
      let? owner := owner else d in
      let '(tracked, d) := track_group d id (topic_group topic) join in
      let? _ := tracked else d in
      (Ok (match owner with Some l => {[ l.(gateway_id) ]} | None => ∅ end), d)
  end.

Definition resolve_gateways (d : D) (request : PushRequest) : Result (list string) * D :=
  let? _ := PushRequest_validate request else d in
  let '(gateways, d) := target_gateways d request in
  let? gateways := gateways else d in
  (Ok (sort_by String.leb (elements gateways)), d).
End resolver.

(** ** The in-memory directory *)

Definition user_key (i : Identity) : Z * Z * Z :=
  (i.(identity_region_id), i.(identity_realm_id), i.(identity_user_id)).
Definition realm_key (i : Identity) : Z * Z := (i.(identity_region_id), i.(identity_realm_id)).

Record MemoryState : Type := {
  sessions : gmap Z SessionLease;
  groups : gmap string (gset Z);
  single : gmap (Z * Z * Z) Z;
  capacity : gmap (Z * Z) (gset Z);
}.

Definition MemoryState_default : MemoryState :=
  {| sessions := ∅; groups := ∅; single := ∅; capacity := ∅ |}.

(** [retain] on a map of sets: each set keeps the live identifiers, and a set left empty goes. *)
Definition retain_live {K} `{Countable K} (live : gset Z) (m : gmap K (gset Z)) : gmap K (gset Z) :=
  filter (fun p => p.2 <> ∅) ((fun ids => filter (fun id => id ∈ live) ids) <$> m).

Definition purge (now : Z) (state : MemoryState) : MemoryState :=
  let sessions := filter (fun p => now < p.2.(expires_at)) state.(sessions) in
  let live := dom sessions in
  {| sessions := sessions;
     groups := retain_live live state.(groups);
     single := filter (fun p => p.2 ∈ live) state.(single);
     capacity := retain_live live state.(capacity) |}.

(** The slots of a realm, [entry(realm_key).or_default()]. *)
Definition slots_of (state : MemoryState) (realm : Z * Z) : gset Z := default ∅ (state.(capacity) !! realm).

Definition set_slots (state : MemoryState) (realm : Z * Z) (ids : gset Z) : MemoryState :=
  {| sessions := state.(sessions); groups := state.(groups); single := state.(single);
     capacity := <[realm := ids]> state.(capacity) |}.

Definition MemoryOnlineDirectory_acquire (now : Z) (state : MemoryState) (lease : SessionLease)
    (policy : OnlineAdmissionPolicy) : Result OnlineAdmission * MemoryState :=
  let? _ := Identity_validate lease.(identity) else state in
  let? policy := OnlineAdmissionPolicy_new policy.(duplicate_login) policy.(max_sessions) else state in
  let state := purge now state in
  let user := user_key lease.(identity) in
  let realm := realm_key lease.(identity) in
  let previous :=
    match state.(single) !! user with
    | Some id => if id =? lease.(session_id) then None else Some id
    | None => None
    end in
  if bool_decide (policy.(duplicate_login) = RejectNew) && bool_decide (is_Some previous) then
    (Ok Duplicate, state)
  else
    let slots := slots_of state realm in
    let state := set_slots state realm slots in
    let transfers_slot :=
      bool_decide (policy.(duplicate_login) = KickExisting)
      && match previous with Some id => bool_decide (id ∈ slots) | None => false end in
    let used := saturating_sub (Z.of_nat (size slots)) (if transfers_slot then 1 else 0) in
    if negb (bool_decide (lease.(session_id) ∈ slots))
       && match policy.(max_sessions) with Some maximum => maximum <=? used | None => false end then
      (Ok RealmFull, state)
    else
      let slots :=
        match previous with
        | Some id => if transfers_slot then slots ∖ {[id]} else slots
        | None => slots
        end in
      (Ok (Accepted (if bool_decide (policy.(duplicate_login) = KickExisting) then previous else None)),
       {| sessions := <[lease.(session_id) := lease]> state.(sessions);
          groups := state.(groups);
          single := match policy.(duplicate_login) with
                    | AllowMultiple => state.(single)
                    | RejectNew | KickExisting => <[user := lease.(session_id)]> state.(single)
                    end;
          capacity := <[realm := {[lease.(session_id)]} ∪ slots]> state.(capacity) |}).

Definition MemoryOnlineDirectory_renew (now : Z) (state : MemoryState) (lease : SessionLease) :
    Result unit * MemoryState :=
  let? _ := Identity_validate lease.(identity) else state in
  let state := purge now state in
  match state.(sessions) !! lease.(session_id) with
  | Some current =>
      if String.eqb current.(gateway_id) lease.(gateway_id) then
        (Ok (), {| sessions := <[lease.(session_id) := lease]> state.(sessions); groups := state.(groups);
                   single := state.(single); capacity := state.(capacity) |})
      else (Err SessionRevoked, state)
  | None => (Err SessionRevoked, state)
  end.

Definition MemoryOnlineDirectory_unregister (state : MemoryState) (lease : SessionLease) :
    Result unit * MemoryState :=
  match state.(sessions) !! lease.(session_id) with
  | Some current =>
      if String.eqb current.(gateway_id) lease.(gateway_id) then
        let id := lease.(session_id) in
        let user := user_key lease.(identity) in
        (Ok (), {| sessions := delete id state.(sessions);
                   groups := (fun ids => ids ∖ {[id]}) <$> state.(groups);
                   single := if bool_decide (state.(single) !! user = Some id)
                             then delete user state.(single) else state.(single);
                   capacity := alter (fun ids => ids ∖ {[id]}) (realm_key lease.(identity))
                                 state.(capacity) |})
      else (Ok (), state)
  | None => (Ok (), state)
  end.

Definition MemoryOnlineDirectory_session (now : Z) (state : MemoryState) (id : Z) :
    Result (option SessionLease) * MemoryState :=
  let state := purge now state in
  (Ok (state.(sessions) !! id), state).

Definition MemoryOnlineDirectory_user_sessions (now : Z) (state : MemoryState) (r m u : Z) :
    Result (list SessionLease) * MemoryState :=
  let state := purge now state in
  (Ok (filter (fun l => user_key l.(identity) = (r, m, u)) (map_to_list state.(sessions)).*2), state).

Definition MemoryOnlineDirectory_group_sessions (now : Z) (state : MemoryState) (group : string) :
    Result (list SessionLease) * MemoryState :=
  let state := purge now state in
  (Ok (omap (fun id => state.(sessions) !! id) (elements (default ∅ (state.(groups) !! group)))), state).

Definition MemoryOnlineDirectory_track_group (state : MemoryState) (id : Z) (group : string) (join : bool) :
    Result unit * MemoryState :=
  if String.eqb group "" then (Err (InvalidConfig "empty online group"), state)
  else
    (Ok (), {| sessions := state.(sessions);
               groups := if join then <[group := {[id]} ∪ default ∅ (state.(groups) !! group)]> state.(groups)
                         else alter (fun ids => ids ∖ {[id]}) group state.(groups);
               single := state.(single); capacity := state.(capacity) |}).

Definition MemoryOnlineDirectory_stats (now : Z) (state : MemoryState) (region realm : Z) :
    Result OnlineStats * MemoryState :=
  let state := purge now state in
  let live := filter (fun l => realm_key l.(identity) = (region, realm)) (map_to_list state.(sessions)).*2 in
  let user_ids : gset Z := list_to_set ((fun l => l.(identity).(identity_user_id)) <$> live) in
  (Ok {| session_count := len live; user_count := Z.of_nat (size user_ids) |}, state).

(** The directory as the resolver sees it, with one reading of the clock. *)
Definition MemoryOnlineDirectory_directory (now : Z) : OnlineDirectory MemoryState := {|
  acquire := MemoryOnlineDirectory_acquire now;
  renew := MemoryOnlineDirectory_renew now;
  unregister := MemoryOnlineDirectory_unregister;
  session := MemoryOnlineDirectory_session now;
  user_sessions := MemoryOnlineDirectory_user_sessions now;
  group_sessions := MemoryOnlineDirectory_group_sessions now;
  track_group := MemoryOnlineDirectory_track_group |}.

(** ** Runs of the directory *)

Inductive op : Type :=
| OpAcquire (now : Z) (lease : SessionLease) (policy : OnlineAdmissionPolicy)
| OpRenew (now : Z) (lease : SessionLease)
| OpUnregister (lease : SessionLease)
| OpQuery (now : Z)
| OpTrackGroup (id : Z) (group : string) (join : bool).

(** Every query (a session, the sessions of a user or of a group, statistics) purges and leaves the state
    purged. *)
Definition run_op (state : MemoryState) (o : op) : MemoryState :=
  match o with
  | OpAcquire now lease policy => (MemoryOnlineDirectory_acquire now state lease policy).2
  | OpRenew now lease => (MemoryOnlineDirectory_renew now state lease).2
  | OpUnregister lease => (MemoryOnlineDirectory_unregister state lease).2
  | OpQuery now => purge now state
  | OpTrackGroup id group join => (MemoryOnlineDirectory_track_group state id group join).2
  end.

Definition run_ops (ops : list op) : MemoryState := foldl run_op MemoryState_default ops.

Lemma run_ops_invariant (good : op -> Prop) (P : MemoryState -> Prop) ops :
  P MemoryState_default -> (forall s o, good o -> P s -> P (run_op s o)) -> Forall good ops -> P (run_ops ops).
Proof.
  intros H0 Hstep. unfold run_ops. revert H0. generalize MemoryState_default.
  induction ops as [|o ops IH]; intros s Hs Hall; cbn; [done|]. apply Forall_cons in Hall as [Ho Hall].
  apply IH; [by apply Hstep|done].
Qed.

Lemma retain_live_lookup {K} `{Countable K} live (m : gmap K (gset Z)) k ids :
  retain_live live m !! k = Some ids ->
  exists ids0, m !! k = Some ids0 /\ ids = filter (fun id => id ∈ live) ids0.
Proof.
  unfold retain_live. rewrite map_lookup_filter_Some, lookup_fmap_Some. naive_solver.
Qed.

(** ** Realm capacity *)

Definition slots_bounded (limit : Z) (state : MemoryState) : Prop :=
  forall realm ids, state.(capacity) !! realm = Some ids -> Z.of_nat (size ids) <= limit.

Lemma purge_slots_bounded limit now state : slots_bounded limit state -> slots_bounded limit (purge now state).
Proof.
  intros Hb realm ids. cbn. intros (ids0 & H0 & ->)%retain_live_lookup. specialize (Hb _ _ H0).
  assert (Hsub : filter (fun id => id ∈ dom (filter (fun p => now < p.2.(expires_at)) state.(sessions))) ids0 ⊆ ids0)
    by set_solver. apply subseteq_size in Hsub. lia.
Qed.

Lemma slots_of_bounded limit state realm :
  0 <= limit -> slots_bounded limit state -> Z.of_nat (size (slots_of state realm)) <= limit.
Proof.
  intros Hl Hb. unfold slots_of. destruct (capacity state !! realm) eqn:E; cbn; [by eapply Hb|].
  rewrite size_empty. lia.
Qed.

Lemma insert_slots_bounded limit state realm ids s g u :
  slots_bounded limit state -> Z.of_nat (size ids) <= limit ->
  slots_bounded limit {| sessions := s; groups := g; single := u; capacity := <[realm := ids]> state.(capacity) |}.
Proof.
  intros Hb Hi k ids'. cbn. destruct (decide (k = realm)) as [->|Hne].
  - rewrite lookup_insert, decide_True by done. by intros [= <-].
  - rewrite lookup_insert_ne by done. apply Hb.
Qed.

Definition within (limit : Z) (o : op) : Prop :=
  match o with
  | OpAcquire _ _ policy => exists maximum, policy.(max_sessions) = Some maximum /\ maximum <= limit
  | _ => True
  end.

Lemma acquire_slots_bounded limit now state lease policy maximum :
  policy.(max_sessions) = Some maximum -> maximum <= limit -> 0 <= limit -> slots_bounded limit state ->
  slots_bounded limit (MemoryOnlineDirectory_acquire now state lease policy).2.
Proof.
  intros Hm Hmax Hl Hb. unfold MemoryOnlineDirectory_acquire. destruct (Identity_validate _); [|done].
  unfold OnlineAdmissionPolicy_new. rewrite Hm. destruct (bool_decide (Some maximum = Some 0)); [done|].
  cbn [duplicate_login max_sessions].
  pose proof (purge_slots_bounded limit now state Hb) as Hp. set (st := purge now state) in *. clearbody st.
  set (previous := match single st !! _ with Some _ => _ | None => _ end). clearbody previous.
  destruct (_ && _); [done|]. set (realm := realm_key _). pose proof (slots_of_bounded limit st realm Hl Hp) as Hs.
  set (slots := slots_of st realm) in *. set (transfers := bool_decide (_ = KickExisting) && _).
  destruct (negb _ && _) eqn:Hfull; cbn [snd]; [by apply insert_slots_bounded|].
  apply (insert_slots_bounded limit (set_slots st realm slots)); [by apply insert_slots_bounded|].
  set (kept := match previous with Some _ => _ | None => _ end).
  assert (Hkept : kept ⊆ slots) by (intros x; unfold kept; repeat case_match; rewrite ?elem_of_difference; naive_solver).
  destruct (decide (session_id lease ∈ slots)) as [Hin|Hout].
  { assert (Hsub : {[session_id lease]} ∪ kept ⊆ slots) by set_solver. apply subseteq_size in Hsub. lia. }
  rewrite bool_decide_eq_false_2 in Hfull by done. cbn in Hfull. breflect.
  rewrite size_union, size_singleton by set_solver.
  enough (Z.of_nat (size kept) <= saturating_sub (Z.of_nat (size slots)) (if transfers then 1 else 0)) by lia.
  destruct transfers eqn:Ht; unfold transfers in Ht; [|apply subseteq_size in Hkept; unfold saturating_sub; lia].
  breflect. unfold kept. destruct previous as [id|]; [|done]. breflect.
  rewrite size_difference by set_solver. rewrite size_singleton. unfold saturating_sub. lia.
Qed.

Lemma run_op_slots_bounded limit state o :
  0 <= limit -> within limit o -> slots_bounded limit state -> slots_bounded limit (run_op state o).
Proof.
  intros Hl Ho Hb. destruct o as [now lease policy|now lease|lease|now|id group join]; cbn [run_op].
  - destruct Ho as (maximum & Hm & Hmax). by eapply acquire_slots_bounded.
  - unfold MemoryOnlineDirectory_renew. destruct (Identity_validate _); [|done].
    pose proof (purge_slots_bounded limit now state Hb) as Hp.
    destruct (_ !! _) as [current|]; [|done]. by destruct (String.eqb _ _).
  - unfold MemoryOnlineDirectory_unregister. destruct (_ !! _) as [current|]; [|done].
    destruct (String.eqb _ _); [|done]. cbn. intros k ids. cbn. rewrite lookup_alter_Some.
    intros [(_ & ids0 & H0 & ->)|[_ H0]]; [|by eapply Hb]. specialize (Hb _ _ H0).
    assert (Hsub : ids0 ∖ {[session_id lease]} ⊆ ids0) by set_solver. apply subseteq_size in Hsub. lia.
  - by apply purge_slots_bounded.
  - unfold MemoryOnlineDirectory_track_group. by destruct (String.eqb group "").
Qed.

(** Realm capacity is respected: whatever is acquired, renewed, unregistered, queried and joined, in any
    order and at any times, and whatever the duplicate-login modes, when every admission is asked with a
    limit of at most [limit] no realm ever has more than [limit] occupied slots. *)
Theorem realm_capacity_respected limit ops realm :
  0 <= limit -> Forall (within limit) ops -> Z.of_nat (size (slots_of (run_ops ops) realm)) <= limit.
Proof.
  intros Hl Hops. apply slots_of_bounded; [done|].
  apply (run_ops_invariant (within limit)); [|by intros; apply run_op_slots_bounded|done].
  intros k ids. cbn. by rewrite lookup_empty.
Qed.

Definition sample_identity (user : Z) : Identity :=
  {| account_id := 1; identity_user_id := user; identity_region_id := 3; identity_realm_id := 4; generation := 1 |}.
Definition sample_lease (id user until : Z) : SessionLease :=
  {| session_id := id; gateway_id := "gateway-a"; identity := sample_identity user; expires_at := until |}.

(** Two sessions for one slot: the second is refused while the first lives and admitted after. *)
Definition sample_policy : OnlineAdmissionPolicy := {| duplicate_login := RejectNew; max_sessions := Some 1 |}.
Definition sample_ops : list op :=
  [OpAcquire 0 (sample_lease 10 1 5) sample_policy; OpAcquire 1 (sample_lease 11 2 9) sample_policy;
   OpAcquire 6 (sample_lease 12 2 9) sample_policy].

Lemma realm_capacity_respected_witness :
  slots_of (run_ops sample_ops) (3, 4) = {[12]}
  /\ Z.of_nat (size (slots_of (run_ops sample_ops) (3, 4))) <= 1.
Proof.
  split; [vm_compute; reflexivity|]. apply (realm_capacity_respected 1 sample_ops (3, 4)); [lia|].
  repeat (apply Forall_cons; split; [by exists 1|]). by apply Forall_nil.
Defined.

(** ** One slot per user

    Sessions authenticate once, so the leases of a session carry one identity. *)
Section exclusive.
Context (ident : Z -> Identity).

Definition exclusive (o : op) : Prop :=
  match o with
  | OpAcquire _ lease policy =>
      lease.(identity) = ident lease.(session_id) /\ policy.(duplicate_login) <> AllowMultiple
  | OpRenew _ lease | OpUnregister lease => lease.(identity) = ident lease.(session_id)
  | _ => True
  end.

(** An occupied slot belongs to a live session, in its realm, which is the user's session. *)
Definition slots_owned (state : MemoryState) : Prop :=
  forall realm ids id, state.(capacity) !! realm = Some ids -> id ∈ ids ->
    is_Some (state.(sessions) !! id) /\ realm_key (ident id) = realm
    /\ state.(single) !! user_key (ident id) = Some id.

Lemma purge_slots_owned now state : slots_owned state -> slots_owned (purge now state).
Proof.
  intros Ho realm ids id. cbn. intros (ids0 & H0 & ->)%retain_live_lookup [Hlive Hin]%elem_of_filter.
  destruct (Ho _ _ _ H0 Hin) as (_ & Hr & Hs). split_and!; [by apply elem_of_dom|done|].
  by apply map_lookup_filter_Some.
Qed.

Lemma user_key_realm i j : user_key i = user_key j -> realm_key i = realm_key j.
Proof. unfold user_key, realm_key. by intros [= -> -> _]. Qed.

Lemma acquire_slots_owned now state lease policy :
  lease.(identity) = ident lease.(session_id) -> policy.(duplicate_login) <> AllowMultiple ->
  slots_owned state -> slots_owned (MemoryOnlineDirectory_acquire now state lease policy).2.
Proof.
  intros Hid Hmode Ho. unfold MemoryOnlineDirectory_acquire. destruct (Identity_validate _); [|done].
  unfold OnlineAdmissionPolicy_new. destruct (bool_decide (_ = Some 0)); [done|]. cbn [duplicate_login max_sessions].
  pose proof (purge_slots_owned now state Ho) as Hp. set (st := purge now state) in *. clearbody st.
  rewrite Hid. set (id := session_id lease) in *. set (user := user_key (ident id)). set (realm := realm_key (ident id)).
  set (previous := match single st !! user with Some _ => _ | None => _ end).
  destruct (_ && bool_decide (is_Some previous)) eqn:Hdup; [done|].
  assert (Hslots : forall j, j ∈ slots_of st realm ->
    is_Some (sessions st !! j) /\ realm_key (ident j) = realm /\ single st !! user_key (ident j) = Some j).
  { intros j Hj. unfold slots_of in Hj. destruct (capacity st !! realm) as [ids|] eqn:E; [by eapply Hp|]. set_solver. }
  assert (Hset : slots_owned (set_slots st realm (slots_of st realm))).
  { intros k ids j. cbn. destruct (decide (k = realm)) as [->|Hne].
    - rewrite lookup_insert, decide_True by done. intros [= <-]. apply Hslots.
    - rewrite lookup_insert_ne by done. apply Hp. }
  destruct (negb _ && _); [done|]. cbn [snd].
  assert (Hsingle : match duplicate_login policy with
                    | AllowMultiple => single st
                    | RejectNew | KickExisting => <[user:=id]> (single st)
                    end = <[user:=id]> (single st)) by (by destruct (duplicate_login policy)).
  cbn [set_slots single sessions capacity groups]. rewrite Hsingle, insert_insert, decide_True by done.
  (* another holder of a slot has another user *)
  assert (Hother : forall j k ids, capacity st !! k = Some ids -> j ∈ ids -> j <> id ->
    user_key (ident j) = user -> previous = Some j /\ k = realm).
  { intros j k ids Hk Hj Hne Hu. destruct (Hp _ _ _ Hk Hj) as (_ & Hr & Hs). rewrite Hu in Hs.
    split; [|rewrite <-Hr; by apply user_key_realm]. unfold previous. rewrite Hs.
    by destruct (Z.eqb_spec j id). }
  intros k ids j. cbn. intros Hk Hj. destruct (decide (j = id)) as [->|Hne].
  { rewrite !lookup_insert, !decide_True by done. split_and!; [done| |done].
    destruct (decide (k = realm)) as [->|Hkr]; [done|]. rewrite lookup_insert_ne in Hk by done.
    by destruct (Hp _ _ _ Hk Hj) as (_ & Hr & _). }
  assert (Hu : user_key (ident j) <> user -> is_Some (sessions st !! j) /\ realm_key (ident j) = k
                /\ single st !! user_key (ident j) = Some j ->
    is_Some (<[id:=lease]> (sessions st) !! j) /\ realm_key (ident j) = k
    /\ <[user:=id]> (single st) !! user_key (ident j) = Some j).
  { intros Hu (H1 & H2 & H3). by rewrite !lookup_insert_ne. }
  destruct (decide (k = realm)) as [->|Hkr].
  - rewrite lookup_insert, decide_True in Hk by done. injection Hk as <-.
    apply elem_of_union in Hj as [Hj%elem_of_singleton|Hj]; [done|].
    assert (Hj' : j ∈ slots_of st realm) by (repeat case_match; set_solver). apply Hu; [|by apply Hslots].
    intros Heq. unfold slots_of in Hj'. destruct (capacity st !! realm) as [ids|] eqn:E; [|set_solver].
    destruct (Hother j realm ids E Hj' Hne Heq) as [Hprev _]. rewrite Hprev in Hj, Hdup.
    destruct (duplicate_login policy); [done| |].
    + rewrite !bool_decide_eq_true_2 in Hdup by (done || eauto). done.
    + unfold slots_of in Hj. rewrite E in Hj. cbn in Hj, Hj'. rewrite !bool_decide_eq_true_2 in Hj by done.
      cbn in Hj. set_solver.
  - rewrite lookup_insert_ne in Hk by done. apply Hu; [|by eapply Hp].
    intros Heq. by destruct (Hother j k ids Hk Hj Hne Heq) as [_ ->].
Qed.

Lemma run_op_slots_owned state o : exclusive o -> slots_owned state -> slots_owned (run_op state o).
Proof.
  intros Hx Ho. destruct o as [now lease policy|now lease|lease|now|id group join]; cbn [run_op].
  - destruct Hx. by apply acquire_slots_owned.
  - unfold MemoryOnlineDirectory_renew. destruct (Identity_validate _); [|done].
    pose proof (purge_slots_owned now state Ho) as Hp.
    destruct (_ !! _) as [current|]; [|done]. destruct (String.eqb _ _); [|done]. cbn [snd].
    intros k ids j Hk Hj. destruct (Hp k ids j Hk Hj) as (H1 & H2 & H3). split; [|done].
    apply lookup_insert_is_Some'. by right.
  - cbn in Hx. unfold MemoryOnlineDirectory_unregister. destruct (_ !! _) as [current|]; [|done].
    destruct (String.eqb _ _); [|done]. cbn [snd]. intros k ids j. cbn. rewrite Hx, lookup_alter_Some.
    set (id := session_id lease). intros Hk Hj.
    assert (Hj' : exists ids0, capacity state !! k = Some ids0 /\ j ∈ ids0 /\ (k = realm_key (ident id) -> j <> id)).
    { destruct Hk as [(-> & ids0 & H0 & ->)|[Hne H0]]; [exists ids0; set_solver|exists ids; naive_solver]. }
    destruct Hj' as (ids0 & H0 & Hj0 & Hne). destruct (Ho _ _ _ H0 Hj0) as (H1 & H2 & H3).
    assert (Hji : j <> id) by (intros ->; by apply Hne).
    split_and!; [by rewrite lookup_delete_ne|done|]. destruct (bool_decide _) eqn:Hb; [|done]. breflect.
    rewrite lookup_delete_ne; [done|]. intros Heq. rewrite Heq in Hb. congruence.
  - by apply purge_slots_owned.
  - unfold MemoryOnlineDirectory_track_group. by destruct (String.eqb group "").
Qed.
End exclusive.

(** One slot per user: when every admission asks for exclusive logins (refusing the new session or kicking
    the existing one), no user ever occupies two slots, whatever the order and the times of admissions,
    renewals, unregistrations, expirations and queries; and whoever occupies a slot has a live lease. *)
Theorem one_slot_per_user ident ops realm realm' i j :
  Forall (exclusive ident) ops -> i ∈ slots_of (run_ops ops) realm -> j ∈ slots_of (run_ops ops) realm' ->
  is_Some ((run_ops ops).(sessions) !! i) /\ (user_key (ident i) = user_key (ident j) -> i = j).
Proof.
  intros Hops. assert (Ho : slots_owned ident (run_ops ops)).
  { apply (run_ops_invariant (exclusive ident)); [|by intros; apply run_op_slots_owned|done].
    intros k ids id. cbn. by rewrite lookup_empty. }
  assert (Hown : forall k id, id ∈ slots_of (run_ops ops) k ->
    is_Some ((run_ops ops).(sessions) !! id) /\ (run_ops ops).(single) !! user_key (ident id) = Some id).
  { intros k id Hid. unfold slots_of in Hid. destruct (capacity (run_ops ops) !! k) as [ids|] eqn:E; [|set_solver].
    by destruct (Ho _ _ _ E Hid) as (? & _ & ?). }
  intros [Hi Hsi]%Hown [_ Hsj]%Hown. split; [done|]. intros Hu. rewrite Hu in Hsi. congruence.
Qed.

(** The same user logs in from a second gateway, and kicks the first session. *)
Lemma one_slot_per_user_witness :
  let kick := {| duplicate_login := KickExisting; max_sessions := Some 1 |} in
  let ops := [OpAcquire 0 (sample_lease 10 1 5) kick; OpAcquire 1 (sample_lease 11 1 9) kick] in
  slots_of (run_ops ops) (3, 4) = {[11]} /\ is_Some ((run_ops ops).(sessions) !! 11).
Proof.
  cbn zeta. split; [vm_compute; reflexivity|].
  apply (one_slot_per_user (fun _ => sample_identity 1) _ (3, 4) (3, 4) 11 11).
  - repeat (apply Forall_cons; split; [done|]). by apply Forall_nil.
  - vm_compute. done.
  - vm_compute. done.
Defined.

(** ** Routing of pushes *)

(** The live leases a request is addressed to. *)
Definition addressed (now : Z) (state : MemoryState) (request : PushRequest) (id : Z) (lease : SessionLease) : Prop :=
  state.(sessions) !! id = Some lease /\ now < lease.(expires_at) /\
  let of_user u := user_key lease.(identity) = (request.(push_region_id), request.(push_realm_id), u) in
  match request.(push_target) with
  | PushSession i | PushDisconnect i | PushJoinTopic i _ | PushLeaveTopic i _ => id = i
  | PushUser u => of_user u
  | PushUsers us => exists u, u ∈ us /\ of_user u
  | PushTopic topic => exists ids, state.(groups) !! topic_group topic = Some ids /\ id ∈ ids
  | PushRealm => False
  end.

Lemma purge_sessions now state id lease :
  (purge now state).(sessions) !! id = Some lease
  <-> state.(sessions) !! id = Some lease /\ now < lease.(expires_at).
Proof. cbn. by rewrite map_lookup_filter_Some. Qed.

Lemma purge_twice now state id : (purge now (purge now state)).(sessions) !! id = (purge now state).(sessions) !! id.
Proof. apply option_eq. intros lease. rewrite !purge_sessions. naive_solver. Qed.

Lemma user_leases now state r m u leases state' :
  MemoryOnlineDirectory_user_sessions now state r m u = (Ok leases, state') ->
  state' = purge now state /\ forall lease, lease ∈ leases <->
    exists id, (purge now state).(sessions) !! id = Some lease /\ user_key lease.(identity) = (r, m, u).
Proof.
  intros [= <- <-]. split; [done|]. intros lease. rewrite list_elem_of_filter, list_elem_of_fmap. split.
  - intros [Hu ([id l] & -> & Hl)]. exists id. by apply elem_of_map_to_list in Hl.
  - intros (id & Hl & Hu). split; [done|]. exists (id, lease). by rewrite elem_of_map_to_list.
Qed.

Lemma users_gateways_spec now r m users : forall state seen,
  exists gateways state', users_gateways (D:=MemoryState) (OnlineDirectory0:=MemoryOnlineDirectory_directory now)
      state r m users seen = (Ok gateways, state')
    /\ forall g, g ∈ gateways <-> g ∈ seen \/ exists u id lease, u ∈ users
         /\ (purge now state).(sessions) !! id = Some lease
         /\ user_key lease.(identity) = (r, m, u) /\ lease.(gateway_id) = g.
Proof.
  induction users as [|u users IH]; intros state seen; cbn [users_gateways].
  { eexists _, _. split; [done|]. intros g. split; [by left|]. intros [?|(u & _ & _ & Hu & _)]; [done|set_solver]. }
  cbn [user_sessions MemoryOnlineDirectory_directory].
  destruct (MemoryOnlineDirectory_user_sessions now state r m u) as [[leases|] state1] eqn:Hu; [|done].
  apply user_leases in Hu as [-> Hl].
  destruct (IH (purge now state) (seen ∪ list_to_set (gateway_id <$> leases))) as (gs & state' & -> & Hg).
  eexists _, _. split; [done|]. intros g. rewrite Hg, elem_of_union, elem_of_list_to_set, list_elem_of_fmap.
  setoid_rewrite purge_twice. setoid_rewrite elem_of_cons. setoid_rewrite Hl. naive_solver.
Qed.

Lemma group_leases now state group :
  exists leases, MemoryOnlineDirectory_group_sessions now state group = (Ok leases, purge now state)
    /\ forall lease, lease ∈ leases <-> exists id ids, state.(groups) !! group = Some ids /\ id ∈ ids
         /\ (purge now state).(sessions) !! id = Some lease.
Proof.
  eexists. split; [done|]. intros lease. rewrite list_elem_of_omap. cbn [groups purge]. split.
  - intros (id & Hid & Hl). rewrite elem_of_elements in Hid. exists id.
    destruct (retain_live _ _ !! group) as [ids|] eqn:E; [|set_solver].
    apply retain_live_lookup in E as (ids0 & H0 & ->). exists ids0. set_solver.
  - intros (id & ids & Hg & Hid & Hl). exists id. split; [|done]. rewrite elem_of_elements.
    assert (Hlive : id ∈ filter (fun id => id ∈ dom (sessions (purge now state))) ids).
    { apply elem_of_filter. split; [|done]. apply elem_of_dom. eauto. }
    unfold retain_live. rewrite (map_lookup_filter_Some_2 _ _ _ (filter (fun id => id ∈ dom (sessions (purge now state))) ids)).
    + done.
    + apply lookup_fmap_Some. eauto.
    + cbn. set_solver.
Qed.

Lemma target_gateways_spec now state request :
  exists gateways state', target_gateways (D:=MemoryState)
      (OnlineDirectory0:=MemoryOnlineDirectory_directory now) state request = (Ok gateways, state')
    /\ forall g, g ∈ gateways <-> exists id lease, addressed now state request id lease /\ lease.(gateway_id) = g.
Proof.
  unfold target_gateways, addressed. setoid_rewrite (and_assoc (_ = Some _)). setoid_rewrite <-purge_sessions.
  destruct (push_target request) as [i|u|us| |topic|i topic|i topic|i];
    cbn [session user_sessions group_sessions track_group MemoryOnlineDirectory_directory
         MemoryOnlineDirectory_session].
  - eexists _, _. split; [done|]. intros g. destruct (sessions (purge now state) !! i) eqn:E; set_solver.
  - destruct (MemoryOnlineDirectory_user_sessions _ _ _ _ u) as [[leases|] state1] eqn:Hu; [|done].
    apply user_leases in Hu as [-> Hl]. eexists _, _. split; [done|]. intros g.
    rewrite elem_of_list_to_set, list_elem_of_fmap. setoid_rewrite Hl. naive_solver.
  - destruct (users_gateways_spec now (push_region_id request) (push_realm_id request) us state ∅)
      as (gs & state' & -> & Hg). eexists _, _. split; [done|]. intros g. rewrite Hg. set_solver.
  - eexists _, _. split; [done|]. intros g. set_solver.
  - destruct (group_leases now state (topic_group topic)) as (leases & -> & Hl). eexists _, _. split; [done|].
    intros g. rewrite elem_of_list_to_set, list_elem_of_fmap. setoid_rewrite Hl. naive_solver.
  - eexists _, _. split; [done|]. intros g. destruct (sessions (purge now state) !! i) eqn:E; set_solver.
  - eexists _, _. split; [done|]. intros g. destruct (sessions (purge now state) !! i) eqn:E; set_solver.
  - eexists _, _. split; [done|]. intros g. destruct (sessions (purge now state) !! i) eqn:E; set_solver.
Qed.

(** Pushes reach the right gateways: resolving a valid request against the in-memory directory succeeds and
    gives, sorted and without repetition, exactly the gateways that hold a live lease the request is
    addressed to (the session, the sessions of the users in the request's realm, the members of the
    topic); an expired lease never attracts a push. *)
Theorem push_routes_to_live_gateways now state request :
  PushRequest_validate request = Ok () ->
  exists gateways state', resolve_gateways (D:=MemoryState)
      (OnlineDirectory0:=MemoryOnlineDirectory_directory now) state request = (Ok gateways, state')
    /\ NoDup gateways /\ StronglySorted (fun a b => String.leb a b = true) gateways
    /\ forall g, g ∈ gateways <-> exists id lease, addressed now state request id lease /\ lease.(gateway_id) = g.
Proof.
  intros Hv. unfold resolve_gateways. rewrite Hv.
  destruct (target_gateways_spec now state request) as (gs & state' & -> & Hg). eexists _, _. split; [done|].
  split_and!.
  - rewrite sort_by_perm. apply NoDup_elements.
  - apply sort_by_sorted; [apply String.leb_total|].
    intros x y z Hxy Hyz. apply Is_true_eq_true. apply Is_true_eq_left in Hxy, Hyz.
    change (String.le x z). by transitivity y.
  - intros g. by rewrite elem_of_sort_by, elem_of_elements.
Qed.

(** The gateway of the only member of a topic. *)
Lemma push_routes_to_live_gateways_witness :
  let state := run_ops [OpAcquire 0 (sample_lease 10 1 5) sample_policy; OpTrackGroup 10 "topic:chat" true] in
  let request := {| push_region_id := 3; push_realm_id := 4; push_target := PushTopic "chat"; push_route := 7;
                    push_sequence := 1; push_trace_id := ""; push_payload := [] |} in
  resolve_gateways (D:=MemoryState) (OnlineDirectory0:=MemoryOnlineDirectory_directory 1) state request
    = (Ok ["gateway-a"], purge 1 state)
  /\ exists gateways, NoDup gateways /\ "gateway-a" ∈ gateways.
Proof.
  cbn zeta. split; [vm_compute; reflexivity|].
  destruct (push_routes_to_live_gateways 1
    (run_ops [OpAcquire 0 (sample_lease 10 1 5) sample_policy; OpTrackGroup 10 "topic:chat" true])
    {| push_region_id := 3; push_realm_id := 4; push_target := PushTopic "chat"; push_route := 7;
       push_sequence := 1; push_trace_id := ""; push_payload := [] |} ltac:(vm_compute; reflexivity))
    as (gs & st & _ & Hnd & _ & Hg).
  exists gs. split; [done|]. apply Hg. exists 10, (sample_lease 10 1 5). split; [|done].
  split_and!; [vm_compute; reflexivity|vm_compute; reflexivity|].
  cbn. exists {[10]}. split; [vm_compute; reflexivity|]. set_solver.
Defined.
