(* ===== verification/GatewayLimits.v ===== *)
(** * Session index and connection limits: [crates/elura-gateway/src/session_state.rs],
      [transport/limits.rs], [crates/elura-core/src/rate_limit.rs]

    The index of authenticated sessions by user, the limiter of connections per address and the
    per-key rate limiter with its token buckets.  A [Uuid] is its value; clock readings
    ([Instant::now], in nanoseconds) are arguments; [DefaultHasher] is a parameter.  The mutexes
    cannot be poisoned: nothing panics while they are held. *)

From S2P Require Import Prelude Float64 CoreError Identity Session.

(** ** The session index *)

Definition UserKey : Type := Z * Z * Z.

Definition identity_key (i : Identity) : UserKey :=
  (i.(identity_region_id), i.(identity_realm_id), i.(identity_user_id)).

Record SessionIndex : Type := {
  identities : gmap Z Identity;
  users : gmap UserKey (gset Z);
}.

Definition SessionIndex_default : SessionIndex := {| identities := ∅; users := ∅ |}.

Definition SessionIndex_remove_user (self : SessionIndex) (session_id : Z) (i : Identity) : SessionIndex :=
  let key := identity_key i in
  match self.(users) !! key with
  | Some ids =>
      let ids := ids ∖ {[session_id]} in
      {| identities := self.(identities);
         users := if bool_decide (ids = ∅) then delete key self.(users) else <[key := ids]> self.(users) |}
  | None => self
  end.

Definition SessionIndex_insert (self : SessionIndex) (session_id : Z) (i : Identity) : SessionIndex :=
  let previous := self.(identities) !! session_id in
  let self := {| identities := <[session_id := i]> self.(identities); users := self.(users) |} in
  let self :=
    match previous with
    | Some previous => SessionIndex_remove_user self session_id previous
    | None => self
    end in
  {| identities := self.(identities);
     users := <[identity_key i := {[session_id]} ∪ default ∅ (self.(users) !! identity_key i)]> self.(users) |}.

Definition SessionIndex_remove (self : SessionIndex) (session_id : Z) : option Identity * SessionIndex :=
  match self.(identities) !! session_id with
  | None => (None, self)
  | Some i =>
      (Some i, SessionIndex_remove_user
                 {| identities := delete session_id self.(identities); users := self.(users) |} session_id i)
  end.

(** ** Connections per address *)

Record ConnectionLimiter : Type := { limit : Z; counts : gmap IpAddr Z }.

Definition ConnectionLimiter_new (limit : Z) : ConnectionLimiter := {| limit := limit; counts := ∅ |}.

Definition ConnectionLimiter_try_enter (self : ConnectionLimiter) (ip : IpAddr) : Result unit * ConnectionLimiter :=
  let count := default 0 (self.(counts) !! ip) in
  if self.(limit) <=? count then
    (Err Unavailable, {| limit := self.(limit); counts := <[ip := count]> self.(counts) |})
  else (Ok (), {| limit := self.(limit); counts := <[ip := count + 1]> self.(counts) |}).

(** [Drop for ConnectionPermit]. *)
Definition ConnectionPermit_drop (self : ConnectionLimiter) (ip : IpAddr) : ConnectionLimiter :=
  match self.(counts) !! ip with
  | Some count =>
      let count := count - 1 in
      {| limit := self.(limit);
         counts := if count =? 0 then delete ip self.(counts) else <[ip := count]> self.(counts) |}
  | None => self
  end.

(** ** Token buckets *)

Record TokenBucket : Type := { rate : f64; bucket_capacity : f64; tokens : f64; updated_at : Z }.

Definition TokenBucket_new (rate_per_second burst now : Z) : TokenBucket :=
  let capacity := f64_of_Z (Z.max burst 1) in
  {| rate := f64_of_Z rate_per_second; bucket_capacity := capacity; tokens := capacity; updated_at := now |}.

(** [f64::min] of numbers that are not NaN. *)
Definition f64_min (x y : f64) : f64 := if f64_ltb y x then y else x.

Definition TokenBucket_allow_n (self : TokenBucket) (amount now : Z) : bool * TokenBucket :=
  if SFeqb self.(rate) (f64_of_Z 0) then (true, self)
  else
    let refilled :=
      f64_min
        (f64_add self.(tokens)
          (f64_mul (as_secs_f64 (saturating_sub now self.(updated_at))) self.(rate)))
        self.(bucket_capacity) in
    let with_tokens t :=
      {| rate := self.(rate); bucket_capacity := self.(bucket_capacity); tokens := t; updated_at := now |} in
    if f64_ltb refilled (f64_of_Z amount) then (false, with_tokens refilled)
    else (true, with_tokens (f64_sub refilled (f64_of_Z amount))).

Definition TokenBucket_allow (self : TokenBucket) (now : Z) : bool * TokenBucket :=
  TokenBucket_allow_n self 1 now.

(** ** Rate limits per key *)

Definition RATE_LIMIT_SHARDS : Z := 64.
Definition RATE_LIMIT_IDLE_TTL : Z := 300 * 1000000000.
Definition RATE_PRUNE_INTERVAL : Z := 256.

Record RateEntry : Type := { bucket : TokenBucket; entry_last_seen : Z }.

Section rate_limiter.
Context {K : Type} `{Countable K} (hash : K -> Z).

Record RateShard : Type := { rate_entries : gmap K RateEntry; rate_operations : Z }.

Record KeyedRateLimiter : Type := { limiter_rate : Z; limiter_burst : Z; rate_shards : list RateShard }.

Definition KeyedRateLimiter_new (rate burst : Z) : KeyedRateLimiter :=
  {| limiter_rate := rate; limiter_burst := burst;
     rate_shards := replicate (Z.to_nat RATE_LIMIT_SHARDS) {| rate_entries := ∅; rate_operations := 0 |} |}.

Definition rate_shard_index (self : KeyedRateLimiter) (key : K) : nat :=
  Z.to_nat (wrap_u64 (hash key) mod len self.(rate_shards)).

(** The part of [allow] under the shard's mutex. *)
Definition shard_allow (rate burst : Z) (shard : RateShard) (key : K) (now : Z) : bool * RateShard :=
  let operations := wrap_u64 (shard.(rate_operations) + 1) in
  let es :=
    if operations mod RATE_PRUNE_INTERVAL =? 0 then
      filter (fun p => saturating_sub now p.2.(entry_last_seen) < RATE_LIMIT_IDLE_TTL) shard.(rate_entries)
    else shard.(rate_entries) in
  let b :=
    match es !! key with
    | Some entry => entry.(bucket)
    | None => TokenBucket_new rate burst now
    end in
  let '(allowed, b) := TokenBucket_allow b now in
  (allowed, {| rate_entries := <[key := {| bucket := b; entry_last_seen := now |}]> es;
               rate_operations := operations |}).

Definition KeyedRateLimiter_allow (self : KeyedRateLimiter) (key : K) (now : Z) : bool * KeyedRateLimiter :=
  let i := rate_shard_index self key in
  match self.(rate_shards) !! i with
  | None => (false, self)
  | Some shard =>
      let '(allowed, shard) := shard_allow self.(limiter_rate) self.(limiter_burst) shard key now in
      (allowed, {| limiter_rate := self.(limiter_rate); limiter_burst := self.(limiter_burst);
                   rate_shards := <[i := shard]> self.(rate_shards) |})
  end.

(** The bucket a key has. *)
Definition bucket_of (self : KeyedRateLimiter) (key : K) : option RateEntry :=
  shard ← self.(rate_shards) !! rate_shard_index self key; shard.(rate_entries) !! key.
End rate_limiter.
Arguments RateShard K {_ _}. Arguments KeyedRateLimiter K {_ _}.

(** ** The index is consistent *)

Definition sessions_of (self : SessionIndex) (key : UserKey) : gset Z := default ∅ (self.(users) !! key).

(** The sessions of a user are those whose identity is the user's, and no user is kept without sessions. *)
Record index_ok (self : SessionIndex) : Prop := {
  index_exact : forall key sid, sid ∈ sessions_of self key
    <-> exists i, self.(identities) !! sid = Some i /\ identity_key i = key;
  index_tight : forall key, self.(users) !! key <> Some ∅;
}.

Lemma remove_user_sessions self sid i key :
  sessions_of (SessionIndex_remove_user self sid i) key
  = if decide (key = identity_key i) then sessions_of self key ∖ {[sid]} else sessions_of self key.
Proof.
  unfold SessionIndex_remove_user, sessions_of. destruct (users self !! identity_key i) as [ids|] eqn:E.
  - cbn. case_decide as Hk; [subst key|].
    + rewrite E. cbn. case_bool_decide as He.
      * rewrite lookup_delete, decide_True by done. by rewrite He.
      * by rewrite lookup_insert, decide_True.
    + case_bool_decide; [by rewrite lookup_delete_ne|by rewrite lookup_insert_ne].
  - case_decide as Hk; [|done]. subst key. rewrite E. cbn. set_solver.
Qed.

Lemma remove_user_tight self sid i :
  (forall key, self.(users) !! key <> Some ∅) -> forall key, (SessionIndex_remove_user self sid i).(users) !! key <> Some ∅.
Proof.
  intros Ht key. unfold SessionIndex_remove_user. destruct (users self !! identity_key i) as [ids|]; [|apply Ht].
  cbn. case_bool_decide as He; [rewrite lookup_delete|rewrite lookup_insert]; case_decide; [done|apply Ht|congruence|apply Ht].
Qed.

Lemma remove_user_identities self sid i : (SessionIndex_remove_user self sid i).(identities) = self.(identities).
Proof. unfold SessionIndex_remove_user. by destruct (users self !! _). Qed.

Lemma insert_index_ok self sid i : index_ok self -> index_ok (SessionIndex_insert self sid i).
Proof.
  intros [Hex Ht]. unfold SessionIndex_insert.
  set (self1 := match identities self !! sid with Some _ => _ | None => _ end).
  assert (Hids : identities self1 = <[sid := i]> (identities self)).
  { unfold self1. destruct (identities self !! sid); [by rewrite remove_user_identities|done]. }
  assert (Hs1 : forall key s, s ∈ sessions_of self1 key <-> s ∈ sessions_of self key /\ s <> sid).
  { intros key s. unfold self1. destruct (identities self !! sid) as [j|] eqn:Ej.
    - rewrite remove_user_sessions. change (sessions_of {| identities := _; users := users self |} key)
        with (sessions_of self key). case_decide as Hk; [set_solver|]. split; [|by intros []].
      intros Hin. split; [done|]. intros ->. apply Hk. apply Hex in Hin as (j' & Hj & <-). congruence.
    - change (sessions_of {| identities := _; users := users self |} key) with (sessions_of self key).
      split; [|by intros []]. intros Hin. split; [done|]. intros ->. apply Hex in Hin as (j & Hj & _). congruence. }
  assert (Ht1 : forall key, users self1 !! key <> Some ∅).
  { unfold self1. destruct (identities self !! sid); [by apply remove_user_tight|done]. }
  split; cbn.
  - intros key s. unfold sessions_of. cbn. rewrite Hids.
    destruct (decide (key = identity_key i)) as [->|Hk].
    + rewrite lookup_insert, decide_True by done. cbn. fold (sessions_of self1 (identity_key i)).
      rewrite elem_of_union, elem_of_singleton, Hs1, Hex.
      destruct (decide (s = sid)) as [->|Hne].
      * rewrite lookup_insert, decide_True by done. split; [by exists i|by left].
      * rewrite lookup_insert_ne by done. split; [by intros [?|[? _]]|by right].
    + rewrite lookup_insert_ne by done. fold (sessions_of self1 key). rewrite Hs1, Hex.
      destruct (decide (s = sid)) as [->|Hne].
      * rewrite lookup_insert, decide_True by done. split; [by intros [_ ?]|].
        intros (j & [= <-] & Hj). by destruct Hk.
      * rewrite lookup_insert_ne by done. split; [by intros [? _]|done].
  - intros key. destruct (decide (key = identity_key i)) as [->|Hk].
    + rewrite lookup_insert, decide_True by done. intros [= He]. set_solver.
    + by rewrite lookup_insert_ne.
Qed.

Lemma remove_index_ok self sid : index_ok self -> index_ok (SessionIndex_remove self sid).2.
Proof.
  intros [Hex Ht]. unfold SessionIndex_remove. destruct (identities self !! sid) as [i|] eqn:Ei; [|done]. cbn.
  split; [|by apply remove_user_tight].
  intros key s. rewrite remove_user_sessions, remove_user_identities. cbn.
  change (sessions_of {| identities := _; users := users self |} key) with (sessions_of self key).
  assert (Hother : s <> sid -> delete sid (identities self) !! s = identities self !! s)
    by (intros; by rewrite lookup_delete_ne).
  destruct (decide (s = sid)) as [->|Hne].
  - rewrite lookup_delete_eq. split.
    + case_decide as Hk; [set_solver|]. rewrite Hex. intros (j & Hj & Hkj). congruence.
    + by intros (j & Hj & _).
  - rewrite (Hother Hne), <-Hex. case_decide; set_solver.
Qed.

Inductive index_op : Type := IndexInsert (sid : Z) (i : Identity) | IndexRemove (sid : Z).

Definition run_index (self : SessionIndex) (o : index_op) : SessionIndex :=
  match o with
  | IndexInsert sid i => SessionIndex_insert self sid i
  | IndexRemove sid => (SessionIndex_remove self sid).2
  end.

(** The session index is consistent: after any insertions (of new sessions and of sessions inserted before)
    and removals, the sessions recorded for a user are exactly the sessions whose identity is that user's,
    and a user without sessions is not kept. *)
Theorem session_index_consistent ops key sid :
  let self := foldl run_index SessionIndex_default ops in
  (sid ∈ sessions_of self key <-> exists i, self.(identities) !! sid = Some i /\ identity_key i = key)
  /\ self.(users) !! key <> Some ∅.
Proof.
  assert (Hinv : forall l self, index_ok self -> index_ok (foldl run_index self l)).
  { induction l as [|[s i|s] l IH]; intros self Hs; cbn; [done|apply IH, insert_index_ok, Hs|].
    apply IH, remove_index_ok, Hs. }
  destruct (Hinv ops SessionIndex_default) as [Hex Ht]; [|by split].
  split; cbn.
  - intros k s. unfold sessions_of. cbn. rewrite lookup_empty. cbn. split; [set_solver|].
    intros (i & Hi & _). by rewrite lookup_empty in Hi.
  - intros k. by rewrite lookup_empty.
Qed.

(** ** The connection limit *)

(** The limiter with the addresses of the permits that are held. *)
Inductive limiter_step : ConnectionLimiter * list IpAddr -> ConnectionLimiter * list IpAddr -> Prop :=
| limiter_enter l held ip l' :
    ConnectionLimiter_try_enter l ip = (Ok (), l') -> limiter_step (l, held) (l', ip :: held)
| limiter_refuse l held ip e l' :
    ConnectionLimiter_try_enter l ip = (Err e, l') -> limiter_step (l, held) (l', held)
| limiter_drop l held held' ip :
    held ≡ₚ ip :: held' -> limiter_step (l, held) (ConnectionPermit_drop l ip, held').

Definition held_by (held : list IpAddr) (ip : IpAddr) : Z := len (filter (fun a => a = ip) held).

Lemma held_by_cons held ip a : held_by (ip :: held) a = held_by held a + (if decide (ip = a) then 1 else 0).
Proof. unfold held_by. rewrite filter_cons. case_decide; [rewrite len_cons|]; lia. Qed.

Lemma held_by_perm held held' a : held ≡ₚ held' -> held_by held a = held_by held' a.
Proof. intros Hp. unfold held_by, len. by rewrite Hp. Qed.

Definition limiter_inv (limit0 : Z) (st : ConnectionLimiter * list IpAddr) : Prop :=
  st.1.(limit) = limit0 /\ forall ip, default 0 (st.1.(counts) !! ip) = held_by st.2 ip
    /\ held_by st.2 ip <= Z.max limit0 0.

Lemma limiter_step_inv limit0 st st' : limiter_step st st' -> limiter_inv limit0 st -> limiter_inv limit0 st'.
Proof.
  intros Hstep [Hl Hinv]. destruct Hstep as [l held ip l' He|l held ip e l' He|l held held' ip Hp]; cbn in *.
  - unfold ConnectionLimiter_try_enter in He. destruct (Z.leb_spec (limit l) (default 0 (counts l !! ip))); [done|].
    injection He as <-. split; [done|]. intros a. cbn. rewrite held_by_cons. destruct (Hinv a) as [Ha Hle].
    case_decide as Hd; [subst a; rewrite lookup_insert, decide_True by done|rewrite lookup_insert_ne by done]; cbn; lia.
  - unfold ConnectionLimiter_try_enter in He. destruct (_ <=? _); [|done]. injection He as _ <-.
    split; [done|]. intros a. cbn. destruct (decide (a = ip)) as [->|Hne].
    + rewrite lookup_insert, decide_True by done. apply Hinv.
    + rewrite lookup_insert_ne by done. apply Hinv.
  - unfold ConnectionPermit_drop. setoid_rewrite (held_by_perm _ _ _ Hp) in Hinv.
    setoid_rewrite held_by_cons in Hinv.
    assert (Hpos : 0 <= held_by held' ip) by (unfold held_by, len; lia).
    destruct (Hinv ip) as [Hip _]. rewrite decide_True in Hip by done.
    destruct (counts l !! ip) as [n|] eqn:E; cbn in Hip; [|lia].
    split; [done|]. intros a. cbn. destruct (Hinv a) as [Ha Hle]. destruct (decide (ip = a)) as [<-|Hne].
    + rewrite E in Ha. cbn in Ha. split; [|lia].
      destruct (Z.eqb_spec (n - 1) 0); [rewrite lookup_delete|rewrite lookup_insert]; rewrite decide_True by done; cbn; lia.
    + split; [|lia].
      destruct (n - 1 =? 0); [rewrite lookup_delete_ne by done|rewrite lookup_insert_ne by done]; lia.
Qed.

(** Connections per address are limited: however connections arrive and go, the count kept for an address
    is the number of permits held for it, it never exceeds the limit, and a new connection is admitted
    exactly when fewer than the limit are held. *)
Theorem connection_limit_respected limit0 l held ip :
  0 <= limit0 -> rtc limiter_step (ConnectionLimiter_new limit0, []) (l, held) ->
  held_by held ip <= limit0 /\ default 0 (l.(counts) !! ip) = held_by held ip
  /\ (is_ok (ConnectionLimiter_try_enter l ip).1 = true <-> held_by held ip < limit0).
Proof.
  intros Hl Hrun. assert (Hinv : limiter_inv limit0 (l, held)).
  { remember (ConnectionLimiter_new limit0, @nil IpAddr) as st0 eqn:E0. remember (l, held) as st eqn:E.
    assert (H0 : limiter_inv limit0 st0).
    { subst. split; [done|]. intros a. cbn. rewrite lookup_empty. unfold held_by, len. cbn. lia. }
    clear E0 E. induction Hrun as [|st0 st1 st2 Hstep _ IH]; [done|]. by eapply IH, limiter_step_inv. }
  destruct Hinv as [Hlim Hinv]. cbn in Hlim, Hinv. destruct (Hinv ip) as [Hc Hle].
  split_and!; [lia|done|]. unfold ConnectionLimiter_try_enter. rewrite Hc, Hlim.
  destruct (Z.leb_spec limit0 (held_by held ip)); cbn; split; [done|lia|done|done].
Qed.

Lemma connection_limit_respected_witness :
  let l := (ConnectionLimiter_try_enter (ConnectionLimiter_new 1) (V4 1)).2 in
  (ConnectionLimiter_try_enter l (V4 1)).1 = Err Unavailable /\ held_by [V4 1] (V4 1) <= 1.
Proof.
  split; [vm_compute; reflexivity|].
  apply (connection_limit_respected 1 (ConnectionLimiter_try_enter (ConnectionLimiter_new 1) (V4 1)).2 [V4 1] (V4 1));
    [lia|]. apply rtc_once, limiter_enter. vm_compute. reflexivity.
Defined.

(** ** Rate limits are isolated *)

Section isolation.
Context {K : Type} `{Countable K} (hash : K -> Z).

(** Asking for one key leaves the buckets of the others, except that a key not seen for the idle time may be
    forgotten. *)
Lemma rate_limit_isolated (self : KeyedRateLimiter K) key other now :
  other <> key ->
  bucket_of hash (KeyedRateLimiter_allow hash self key now).2 other = bucket_of hash self other
  \/ exists e, bucket_of hash self other = Some e
       /\ RATE_LIMIT_IDLE_TTL <= saturating_sub now e.(entry_last_seen)
       /\ bucket_of hash (KeyedRateLimiter_allow hash self key now).2 other = None.
Proof.
  intros Hne. unfold KeyedRateLimiter_allow. set (i := rate_shard_index hash self key).
  destruct (rate_shards self !! i) as [shard|] eqn:Hs; [|by left].
  destruct (shard_allow _ _ shard key now) as [allowed shard'] eqn:Ha. cbn [snd].
  assert (Hidx : forall k, rate_shard_index hash {| limiter_rate := limiter_rate self;
      limiter_burst := limiter_burst self; rate_shards := <[i:=shard']> (rate_shards self) |} k
      = rate_shard_index hash self k).
  { intros k. unfold rate_shard_index. cbn. unfold len. by rewrite length_insert. }
  unfold bucket_of. rewrite Hidx. cbn [rate_shards].
  destruct (decide (rate_shard_index hash self other = i)) as [Hi|Hi];
    [|left; by rewrite list_lookup_insert_ne].
  rewrite Hi, Hs, list_lookup_insert_eq by (by eapply lookup_lt_Some). cbn.
  unfold shard_allow in Ha. set (es := if (_ : bool) then _ else _) in Ha.
  destruct (TokenBucket_allow _ now) as [a b]. injection Ha as _ <-. cbn. rewrite lookup_insert_ne by done.
  unfold es. destruct (_ =? 0); [|by left]. destruct (rate_entries shard !! other) as [e|] eqn:Ee.
  - destruct (decide (saturating_sub now (entry_last_seen e) < RATE_LIMIT_IDLE_TTL)) as [Hlt|Hge].
    + left. by apply map_lookup_filter_Some.
    + right. exists e. split; [done|]. split; [lia|]. apply map_lookup_filter_None. right. intros e' He'. cbn. congruence.
  - left. apply map_lookup_filter_None. by left.
Qed.
End isolation.

(** One request a second, one of burst. *)
Example rate_limit_sample :
  let l := KeyedRateLimiter_new (K:=Z) 1 1 in
  let '(a, l) := KeyedRateLimiter_allow (fun k => k) l 1 0 in
  let '(b, l) := KeyedRateLimiter_allow (fun k => k) l 1 500000000 in
  let '(c, l) := KeyedRateLimiter_allow (fun k => k) l 2 500000000 in
  let '(d, l) := KeyedRateLimiter_allow (fun k => k) l 1 1000000000 in
  (a, b, c, d) = (true, false, true, true).
Proof. vm_compute. reflexivity. Qed.
