(* ===== verification/GatewaySessions.v ===== *)
(** * The gateway's session table: [crates/elura-gateway/src/server.rs], [session_state.rs],
      [crates/elura-core/src/protocol/session_control.rs]

    The handles of the connected sessions, the index of the authenticated ones and the topics they
    joined, and the operations that reach sessions through them: delivery of pushes, session-control
    events (duplicate login, forced logout, account revocation) and the disconnections of a drain.
    A handle is the sending side of the session's push queue and of its disconnect flag; clones of a
    handle share both, so the model keeps them in the table.  The encoding of a control message
    ([prost]) is a parameter.  Statistics are not modelled. *)

From Stdlib Require Import Ascii.
From S2P Require Import Prelude Bytes CoreError CredentialStores Identity Session GatewayLimits Presence Frame.

(** ** Session-control messages *)

Inductive SessionControlAction : Type :=
  Unspecified | Kick | AccountVersionChanged | DuplicateLogin | ForceLogoutAction | ServerDraining.

#[export] Instance SessionControlAction_eq_dec : EqDecision SessionControlAction.
Proof. solve_decision. Defined.

(** [action as i32]. *)
Definition SessionControlAction_as_i32 (a : SessionControlAction) : Z :=
  match a with
  | Unspecified => 0 | Kick => 1 | AccountVersionChanged => 2 | DuplicateLogin => 3
  | ForceLogoutAction => 4 | ServerDraining => 5
  end.

(** The [TryFrom<i32>] derived for the enumeration. *)
Definition SessionControlAction_try_from (v : Z) : option SessionControlAction :=
  match v with
  | 0 => Some Unspecified | 1 => Some Kick | 2 => Some AccountVersionChanged
  | 3 => Some DuplicateLogin | 4 => Some ForceLogoutAction | 5 => Some ServerDraining | _ => None
  end.

Record SessionControl : Type := { action : Z; control_reason : string }.

Definition SessionControl_action_kind (self : SessionControl) : Result SessionControlAction :=
  let? a := ok_or (SessionControlAction_try_from self.(action))
              (InvalidConfig "unknown Session control action") in
  if bool_decide (a = Unspecified) then Err (InvalidConfig "Session control action is unspecified")
  else Ok a.

Definition SessionControl_validate (self : SessionControl) : Result unit :=
  let? _ := SessionControl_action_kind self in
  if 256 <? string_len self.(control_reason) then
    Err (InvalidConfig "Session control reason exceeds 256 bytes")
  else Ok ().

Definition SessionControl_new (a : SessionControlAction) (reason : string) : Result SessionControl :=
  let control := {| action := SessionControlAction_as_i32 a; control_reason := reason |} in
  let? _ := SessionControl_validate control in
  Ok control.

Section messages.
Context (encode_to_vec : SessionControl -> list Z) (decode : list Z -> option SessionControl).

Definition SessionControl_encode_frame_payload (self : SessionControl) : Result (list Z) :=
  let? _ := SessionControl_validate self in
  Ok (encode_to_vec self).

Definition SessionControl_decode_frame_payload (payload : list Z) : Result SessionControl :=
  let? control := ok_or (decode payload) (InvalidFrame "invalid Session control Protobuf payload") in
  let? _ := map_err (fun _ => InvalidFrame "invalid Session control Protobuf payload")
              (SessionControl_validate control) in
  Ok control.
End messages.

Definition ROUTE_AUTHENTICATE : Z := 1.
Definition ROUTE_HEARTBEAT : Z := 2.
Definition ROUTE_RECONNECT : Z := 3.
Definition ROUTE_SESSION_CONTROL : Z := 4.

(** ** Handles *)

(** The push queue with its capacity, and the disconnect flag.  A queue or a flag is closed once its
    receiver was dropped. *)
Record SessionHandle : Type := {
  pushes : list Frame;
  push_capacity : Z;
  push_open : bool;
  disconnect : bool;
  disconnect_open : bool;
  authenticated : bool;
}.

(** [mpsc::Sender::try_send]. *)
Definition try_send (h : SessionHandle) (f : Frame) : option SessionHandle :=
  if h.(push_open) && (len h.(pushes) <? h.(push_capacity)) then
    Some {| pushes := h.(pushes) ++ [f]; push_capacity := h.(push_capacity); push_open := h.(push_open);
            disconnect := h.(disconnect); disconnect_open := h.(disconnect_open);
            authenticated := h.(authenticated) |}
  else None.

(** [watch::Sender::send(true)]. *)
Definition send_disconnect (h : SessionHandle) : option SessionHandle :=
  if h.(disconnect_open) then
    Some {| pushes := h.(pushes); push_capacity := h.(push_capacity); push_open := h.(push_open);
            disconnect := true; disconnect_open := h.(disconnect_open);
            authenticated := h.(authenticated) |}
  else None.

Definition push_frame (route sequence : Z) (payload : list Z) : Frame :=
  {| kind := Push; flags := 0; route := route; request_id := 0; sequence := sequence; payload := payload |}.

(** [String::from_utf8_lossy] on bytes: valid characters are kept, and each maximal ill-formed part
    becomes U+FFFD.  [utf8_char l] is the length of the character at the front, or of the part to
    replace. *)
Definition continuation (b : Z) : bool := (128 <=? b) && (b <=? 191).

Definition utf8_char (l : list Z) : bool * nat :=
  let second lo hi := match l !! 1%nat with Some b => (lo <=? b) && (b <=? hi) | None => false end in
  let third := match l !! 2%nat with Some b => continuation b | None => false end in
  let fourth := match l !! 3%nat with Some b => continuation b | None => false end in
  let two lo hi := if second lo hi then (true, 2%nat) else (false, 1%nat) in
  let three lo hi :=
    if negb (second lo hi) then (false, 1%nat) else if third then (true, 3%nat) else (false, 2%nat) in
  let four lo hi :=
    if negb (second lo hi) then (false, 1%nat) else if negb third then (false, 2%nat)
    else if fourth then (true, 4%nat) else (false, 3%nat) in
  match l with
  | [] => (true, 1%nat)
  | b :: _ =>
      if b <? 128 then (true, 1%nat)
      else if (194 <=? b) && (b <=? 223) then two 128 191
      else if b =? 224 then three 160 191
      else if b =? 237 then three 128 159
      else if (225 <=? b) && (b <=? 239) then three 128 191
      else if b =? 240 then four 144 191
      else if (241 <=? b) && (b <=? 243) then four 128 191
      else if b =? 244 then four 128 143
      else (false, 1%nat)
  end.

(** One round per character: as much fuel as there are bytes. *)
Fixpoint utf8_lossy (fuel : nat) (l : list Z) : list Z :=
  match fuel, l with
  | _, [] | O, _ => []
  | Datatypes.S fuel, l =>
      let '(valid, n) := utf8_char l in
      (if valid then take n l else [239; 191; 189]) ++ utf8_lossy fuel (drop n l)
  end.

Fixpoint bytes_string (l : list Z) : string :=
  match l with
  | [] => EmptyString
  | b :: l => String (ascii_of_N (Z.to_N b)) (bytes_string l)
  end.

Definition from_utf8_lossy (l : list Z) : string := bytes_string (utf8_lossy (length l) l).

(** ** The server's tables

    The fields of [GatewayServer] that hold sessions, with the directory of [online]. *)

Record GatewayServer (D : Type) : Type := {
  handles : gmap Z SessionHandle;
  session_index : SessionIndex;
  topics : gmap string (gset Z);
  online : option D;
}.
Arguments handles {D}. Arguments session_index {D}. Arguments topics {D}. Arguments online {D}.
Arguments Build_GatewayServer {D}.

Section server.
Context (encode_to_vec : SessionControl -> list Z).

Definition enqueue_session_control (h : SessionHandle) (a : SessionControlAction) (reason : string) :
    Result unit * SessionHandle :=
  let? control := SessionControl_new a reason else h in
  let? payload := SessionControl_encode_frame_payload encode_to_vec control else h in
  match try_send h (push_frame ROUTE_SESSION_CONTROL 0 payload) with
  | Some h => (Ok (), h)
  | None => (Err QueueFull, h)
  end.

Definition disconnect_handle_with_action (h : SessionHandle) (a : SessionControlAction) (reason : string) :
    Result unit * SessionHandle :=
  let '(notification, h) := enqueue_session_control h a reason in
  let '(disconnected, h) :=
    match send_disconnect h with Some h => (Ok (), h) | None => (Err Unavailable, h) end in
  (match notification with Ok _ => disconnected | Err e => Err e end, h).

Definition disconnect_handle (h : SessionHandle) (reason : string) : Result unit * SessionHandle :=
  disconnect_handle_with_action h Kick reason.

Context {D : Type}.
Implicit Types g : GatewayServer D.

Definition set_handle g (id : Z) (h : SessionHandle) : GatewayServer D :=
  {| handles := <[id := h]> g.(handles); session_index := g.(session_index); topics := g.(topics);
     online := g.(online) |}.

Definition set_topics g (t : gmap string (gset Z)) : GatewayServer D :=
  {| handles := g.(handles); session_index := g.(session_index); topics := t; online := g.(online) |}.

(** The sessions of [ids] that have a handle. *)
Definition with_handle g (ids : list Z) : list Z := filter (fun id => is_Some (g.(handles) !! id)) ids.

(** The loop of [apply_session_control_local]: the first failure leaves the rest as they are. *)
Fixpoint disconnect_loop g (ids : list Z) (a : SessionControlAction) (reason : string) (delivered : Z) :
    Result Z * GatewayServer D :=
  match ids with
  | [] => (Ok delivered, g)
  | id :: ids =>
      match g.(handles) !! id with
      | None => disconnect_loop g ids a reason delivered
      | Some h =>
          let '(r, h) := disconnect_handle_with_action h a reason in
          let g := set_handle g id h in
          let? _ := r else g in
          disconnect_loop g ids a reason (delivered + 1)
      end
  end.

(** The sessions an event selects among those of its user. *)
Definition event_selects (e : SessionControlEvent) (id : Z) (i : Identity) : bool :=
  match e.(Session.kind) with
  | Login => negb (bool_decide (e.(keep_session_id) = Some id))
  | ForceLogout => match e.(Session.session_id) with None => true | Some target => target =? id end
  | VersionChanged => i.(generation) <? e.(event_generation)
  end.

Definition selected_sessions (index : SessionIndex) (e : SessionControlEvent) : list Z :=
  let candidates := sessions_of index (e.(event_region_id), e.(event_realm_id), e.(event_user_id)) in
  filter (fun id => match index.(identities) !! id with
                    | Some i => event_selects e id i
                    | None => false
                    end = true) (elements candidates).

Definition control_action (k : SessionControlKind) : SessionControlAction :=
  match k with
  | Login => DuplicateLogin
  | ForceLogout => ForceLogoutAction
  | VersionChanged => AccountVersionChanged
  end.

Definition apply_session_control_local g (e : SessionControlEvent) : Result Z * GatewayServer D :=
  let? _ := SessionControlEvent_validate e else g in
  let session_ids := selected_sessions g.(session_index) e in
  disconnect_loop g (with_handle g session_ids) (control_action e.(Session.kind)) e.(reason) 0.

(** What a cross-node transport answers to a publication, when there is one. *)
Definition publish_event (session_control : option (SessionControlEvent -> Result unit))
    (e : SessionControlEvent) : Result unit * list SessionControlEvent :=
  match session_control with
  | Some publish => (publish e, [e])
  | None => (Ok (), [])
  end.

(** The events handed to the transport are the third component. *)
Definition control_everywhere session_control g (e : SessionControlEvent) :
    Result Z * GatewayServer D * list SessionControlEvent :=
  match SessionControlEvent_validate e with
  | Err error => (Err error, g, [])
  | Ok _ =>
      match apply_session_control_local g e with
      | (Err error, g) => (Err error, g, [])
      | (Ok delivered, g) =>
          let '(published, events) := publish_event session_control e in
          (let? _ := published in Ok delivered, g, events)
      end
  end.

Definition force_logout session_control g (region realm user : Z) (reason : string) :
    Result Z * GatewayServer D * list SessionControlEvent :=
  control_everywhere session_control g
    {| Session.kind := ForceLogout; event_region_id := region; event_realm_id := realm;
       event_user_id := user; event_generation := 0; Session.session_id := None;
       keep_session_id := None; reason := reason |}.

Definition revoke_account_version session_control g (region realm user minimum_generation : Z) (reason : string) :
    Result Z * GatewayServer D * list SessionControlEvent :=
  match AccountVersionKey_new region realm user with
  | Err error => (Err error, g, [])
  | Ok _ =>
      if (minimum_generation =? 0) || trim_is_empty reason || (256 <? string_len reason) then
        (Err (InvalidConfig "account revocation requires a generation and reason"), g, [])
      else
        control_everywhere session_control g
          {| Session.kind := VersionChanged; event_region_id := region; event_realm_id := realm;
             event_user_id := user; event_generation := minimum_generation; Session.session_id := None;
             keep_session_id := None; reason := reason |}
  end.

(** ** Pushes *)

Definition push_session g (id route : Z) (payload : list Z) : Result unit * GatewayServer D :=
  let? h := ok_or (g.(handles) !! id) Unavailable else g in
  match try_send h (push_frame route 0 payload) with
  | Some h => (Ok (), set_handle g id h)
  | None => (Err QueueFull, g)
  end.

Definition in_realm (region realm : Z) (i : Identity) : bool :=
  (i.(identity_region_id) =? region) && (i.(identity_realm_id) =? realm).

Definition indexed_in (index : SessionIndex) (region realm id : Z) : bool :=
  match index.(identities) !! id with Some i => in_realm region realm i | None => false end.

Definition matching_sessions g (region realm : Z) (target : PushTarget) : list Z :=
  let index := g.(session_index) in
  match target with
  | PushSession id => if indexed_in index region realm id then [id] else []
  | PushUser user => elements (sessions_of index (region, realm, user))
  | PushUsers user_ids =>
      elements (foldl (fun acc user => acc ∪ sessions_of index (region, realm, user)) ∅ user_ids : gset Z)
  | PushTopic topic =>
      filter (fun id => indexed_in index region realm id = true) (elements (default ∅ (g.(topics) !! topic)))
  | PushRealm =>
      (filter (fun p => in_realm region realm p.2 = true) (map_to_list index.(identities))).*1
  | _ => []
  end.

Fixpoint push_loop g (ids : list Z) (f : Frame) (delivered : Z) : Result Z * GatewayServer D :=
  match ids with
  | [] => (Ok delivered, g)
  | id :: ids =>
      match g.(handles) !! id with
      | None => push_loop g ids f delivered
      | Some h =>
          match try_send h f with
          | None => (Err QueueFull, g)
          | Some h => push_loop (set_handle g id h) ids f (delivered + 1)
          end
      end
  end.

Context `{!OnlineDirectory D}.

Definition update_membership g (region realm id : Z) (group : string) (join : bool) :
    Result unit * GatewayServer D :=
  if String.eqb group "" || negb (indexed_in g.(session_index) region realm id) then (Err Unavailable, g)
  else
    let g := set_topics g
      (if join then <[group := {[id]} ∪ default ∅ (g.(topics) !! group)]> g.(topics)
       else match g.(topics) !! group with
            | Some ids =>
                let ids := ids ∖ {[id]} in
                if bool_decide (ids = ∅) then delete group g.(topics) else <[group := ids]> g.(topics)
            | None => g.(topics)
            end) in
    match g.(online) with
    | None => (Ok (), g)
    | Some d =>
        let '(r, d) := track_group d id (topic_group group) join in
        (r, {| handles := g.(handles); session_index := g.(session_index); topics := g.(topics);
               online := Some d |})
    end.

Definition deliver_inner g (request : PushRequest) : Result PushReceipt * GatewayServer D :=
  let? _ := PushRequest_validate request else g in
  match request.(push_target) with
  | PushJoinTopic id topic | PushLeaveTopic id topic =>
      let join := match request.(push_target) with PushJoinTopic _ _ => true | _ => false end in
      let '(r, g) := update_membership g request.(push_region_id) request.(push_realm_id) id topic join in
      let? _ := r else g in
      (Ok (PushReceipt_accepted request 0), g)
  | PushDisconnect id =>
      if negb (indexed_in g.(session_index) request.(push_region_id) request.(push_realm_id) id) then
        (Err Unavailable, g)
      else
        let? h := ok_or (g.(handles) !! id) Unavailable else g in
        let '(r, h) := disconnect_handle h (from_utf8_lossy request.(push_payload)) in
        let g := set_handle g id h in
        let? _ := r else g in
        (Ok (PushReceipt_accepted request 1), g)
  | target =>
      let ids := matching_sessions g request.(push_region_id) request.(push_realm_id) target in
      if len ids =? 0 then (Err Unavailable, g)
      else
        let '(r, g) := push_loop g (with_handle g ids)
          (push_frame request.(push_route) request.(push_sequence) request.(push_payload)) 0 in
        let? delivered := r else g in
        if delivered =? 0 then (Err Unavailable, g)
        else (Ok (PushReceipt_accepted request delivered), g)
  end.

(** ** Registration and cleanup by [ConnectionContext::serve] *)

Definition register_session g (id capacity : Z) : GatewayServer D :=
  set_handle g id {| pushes := []; push_capacity := capacity; push_open := true; disconnect := false;
                     disconnect_open := true; authenticated := false |}.

(** [retain]: the session leaves every topic, and a topic left empty goes. *)
Definition leave_topics (id : Z) (t : gmap string (gset Z)) : gmap string (gset Z) :=
  filter (fun p => p.2 <> ∅) ((fun ids => ids ∖ {[id]}) <$> t).

Definition unregister_session g (id : Z) : GatewayServer D :=
  {| handles := delete id g.(handles); session_index := (SessionIndex_remove g.(session_index) id).2;
     topics := leave_topics id g.(topics); online := g.(online) |}.

(** ** Drain *)

(** The two rounds of [drain]: first the anonymous sessions, at the deadline everybody. *)
Definition drain_round g (everybody : bool) (reason : string) : GatewayServer D :=
  {| handles :=
       (fun h => if everybody || negb h.(authenticated)
                 then (disconnect_handle_with_action h ServerDraining reason).2 else h) <$> g.(handles);
     session_index := g.(session_index); topics := g.(topics); online := g.(online) |}.
End server.

(** ** Who is reached *)

(** A push queue that takes another frame. *)
Definition has_room (h : SessionHandle) : bool := h.(push_open) && (len h.(pushes) <? h.(push_capacity)).

Section reach.
Context (encode_to_vec : SessionControl -> list Z) {D : Type}.
Implicit Types g : GatewayServer D.

Lemma with_handle_elem g ids id : id ∈ with_handle g ids <-> is_Some (g.(handles) !! id) /\ id ∈ ids.
Proof. unfold with_handle. by rewrite list_elem_of_filter. Qed.

(** The tables after a loop that updates one handle per identifier. *)
Definition updated g (ids : list Z) (f : SessionHandle -> SessionHandle) g' : Prop :=
  (forall id, g'.(handles) !! id = if decide (id ∈ ids) then f <$> g.(handles) !! id else g.(handles) !! id)
  /\ g'.(session_index) = g.(session_index) /\ g'.(topics) = g.(topics) /\ g'.(online) = g.(online).

Lemma updated_nil g f : updated g [] f g.
Proof. split; [|done]. intros id. by rewrite decide_False by apply not_elem_of_nil. Qed.

Lemma updated_cons g g' id ids f h :
  id ∉ ids -> g.(handles) !! id = Some h -> updated (set_handle g id (f h)) ids f g' -> updated g (id :: ids) f g'.
Proof.
  intros Hid Hh (Hl & Hi & Ht & Ho). split; [|by rewrite Hi, Ht, Ho].
  intros k. rewrite Hl. cbn [set_handle handles]. destruct (decide (k = id)) as [->|Hne].
  - rewrite decide_False by done. rewrite decide_True by left. by rewrite lookup_insert_eq, Hh.
  - rewrite lookup_insert_ne by done. destruct (decide (k ∈ ids)) as [Hk|Hk].
    + rewrite decide_True by (by right). done.
    + rewrite decide_False; [done|]. by intros [?|?]%elem_of_cons.
Qed.

Definition pushed (f : Frame) (h : SessionHandle) : SessionHandle := default h (try_send h f).

Lemma try_send_room h f : has_room h = true -> try_send h f = Some (pushed f h).
Proof. unfold pushed, has_room, try_send. by intros ->. Qed.

(** Every identifier has a handle whose queue takes a frame. *)
Definition roomy g (id : Z) : Prop := exists h, g.(handles) !! id = Some h /\ has_room h = true.

Lemma roomy_other g id h k : k <> id -> roomy (set_handle g id h) k <-> roomy g k.
Proof. intros Hne. unfold roomy. cbn. by rewrite lookup_insert_ne. Qed.

(** The loop serves the identifiers before the first one whose queue takes no frame, and fails there. *)
Lemma push_loop_splits ids f : forall g n,
  NoDup ids -> Forall (fun id => is_Some (g.(handles) !! id)) ids ->
  exists before after g', ids = before ++ after /\ Forall (roomy g) before
    /\ (forall id, head after = Some id -> ~ roomy g id)
    /\ push_loop g ids f n = (if len after =? 0 then Ok (n + len before) else Err QueueFull, g')
    /\ updated g before (pushed f) g'.
Proof.
  induction ids as [|id ids IH]; intros g n Hnd Hall.
  { exists [], [], g. cbn. rewrite len_nil, Z.add_0_r. split_and!; [done..|apply updated_nil]. }
  apply NoDup_cons in Hnd as [Hid Hnd]. apply Forall_cons in Hall as [[h Hh] Hall].
  cbn [push_loop]. rewrite Hh. destruct (has_room h) eqn:Hroom.
  - rewrite (try_send_room h f Hroom).
    assert (Hne : forall k, k ∈ ids -> k <> id) by (by intros k Hk ->).
    destruct (IH (set_handle g id (pushed f h)) (n + 1) Hnd) as (before & after & g' & -> & Hb & Ha & -> & Hu).
    { apply Forall_forall. intros k Hk. cbn. rewrite lookup_insert_ne by (symmetry; by apply Hne).
      by rewrite Forall_forall in Hall; apply Hall. }
    exists (id :: before), after, g'. split_and!; [done| | | |].
    + apply Forall_cons. split; [by exists h|]. rewrite Forall_forall in *. intros k Hk.
      apply (roomy_other g id (pushed f h)); [apply Hne; set_solver|by apply Hb].
    + intros k Hk. rewrite <- (roomy_other g id (pushed f h)); [by apply Ha|].
      apply Hne. destruct after; [done|]. injection Hk as ->. set_solver.
    + rewrite len_cons. case_match; [do 2 f_equal; lia|done].
    + by eapply updated_cons; [| |exact Hu]; [set_solver|].
  - exists [], (id :: ids), g. split_and!; [done|done| | |apply updated_nil].
    + intros k [= <-] (h' & Hh' & Hr). congruence.
    + unfold try_send. fold (has_room h). rewrite Hroom. rewrite len_cons.
      destruct (Z.eqb_spec (len ids + 1) 0); [pose proof (len_nonneg ids); lia|done].
Qed.

(** A handle told to disconnect with a notice. *)
Definition told (a : SessionControlAction) (reason : string) (h : SessionHandle) : SessionHandle :=
  (disconnect_handle_with_action encode_to_vec h a reason).2.

Lemma disconnect_with_room h a reason :
  a <> Unspecified -> string_len reason <= 256 -> has_room h = true -> h.(disconnect_open) = true ->
  disconnect_handle_with_action encode_to_vec h a reason = (Ok (), told a reason h)
  /\ (told a reason h).(disconnect) = true /\ (told a reason h).(authenticated) = h.(authenticated)
  /\ (told a reason h).(pushes) = h.(pushes)
       ++ [push_frame ROUTE_SESSION_CONTROL 0
             (encode_to_vec {| action := SessionControlAction_as_i32 a; control_reason := reason |})].
Proof.
  intros Ha Hr Hroom Hopen. unfold told, disconnect_handle_with_action, enqueue_session_control,
    SessionControl_new, SessionControl_encode_frame_payload.
  assert (Hv : SessionControl_validate {| action := SessionControlAction_as_i32 a; control_reason := reason |} = Ok ()).
  { unfold SessionControl_validate. destruct (Z.ltb_spec 256 (string_len reason)) as [|_]; [lia|].
    cbn [control_reason]. destruct (Z.ltb_spec 256 (string_len reason)); [lia|]. by destruct a. }
  rewrite Hv. cbn. rewrite Hv. cbn. rewrite try_send_room by done. unfold pushed, try_send.
  unfold has_room in Hroom. rewrite Hroom. cbn. unfold send_disconnect. cbn. by rewrite Hopen.
Qed.

(** A session that can be told. *)
Definition reachable g (id : Z) : Prop :=
  exists h, g.(handles) !! id = Some h /\ has_room h = true /\ h.(disconnect_open) = true.

Lemma disconnect_loop_all a reason ids : a <> Unspecified -> string_len reason <= 256 -> forall g n,
  NoDup ids -> Forall (reachable g) ids ->
  exists g', disconnect_loop encode_to_vec g ids a reason n = (Ok (n + len ids), g')
    /\ updated g ids (told a reason) g'.
Proof.
  intros Ha Hr. induction ids as [|id ids IH]; intros g n Hnd Hall.
  { exists g. cbn. rewrite len_nil. split; [by rewrite Z.add_0_r|apply updated_nil]. }
  apply NoDup_cons in Hnd as [Hid Hnd]. apply Forall_cons in Hall as [(h & Hh & Hroom & Hopen) Hall].
  cbn [disconnect_loop]. rewrite Hh. destruct (disconnect_with_room h a reason Ha Hr Hroom Hopen) as [-> _].
  destruct (IH (set_handle g id (told a reason h)) (n + 1) Hnd) as (g' & Hg' & Hu).
  { apply Forall_forall. intros k Hk. rewrite Forall_forall in Hall. destruct (Hall k Hk) as (hk & Hhk & Hrk).
    exists hk. split; [|done]. cbn. rewrite lookup_insert_ne; [done|]. by intros ->. }
  exists g'. rewrite Hg', len_cons. split; [do 2 f_equal; lia|]. by eapply updated_cons.
Qed.
End reach.

(** ** The tables agree *)

(** The steps that change the tables.  A session authenticates after it was registered; its writer takes
    frames off its queue. *)
Inductive gateway_op : Type :=
| GRegister (id capacity : Z)
| GAuthenticate (id : Z) (i : Identity)
| GUnregister (id : Z)
| GDeliver (request : PushRequest)
| GControl (e : SessionControlEvent)
| GPushSession (id route : Z) (payload : list Z)
| GDrain (everybody : bool) (reason : string)
| GWrite (id : Z).

Section runs.
Context (encode_to_vec : SessionControl -> list Z) {D : Type} `{!OnlineDirectory D}.
Implicit Types g : GatewayServer D.

(** [authenticated.store(true)] and the insertion into the index. *)
Definition mark_authenticated g (id : Z) (i : Identity) : GatewayServer D :=
  {| handles := alter (fun h => {| pushes := h.(pushes); push_capacity := h.(push_capacity);
       push_open := h.(push_open); disconnect := h.(disconnect); disconnect_open := h.(disconnect_open);
       authenticated := true |}) id g.(handles);
     session_index := SessionIndex_insert g.(session_index) id i; topics := g.(topics); online := g.(online) |}.

Definition gateway_step g (o : gateway_op) : GatewayServer D :=
  match o with
  | GRegister id capacity => if bool_decide (is_Some (g.(handles) !! id)) then g else register_session g id capacity
  | GAuthenticate id i => if bool_decide (is_Some (g.(handles) !! id)) then mark_authenticated g id i else g
  | GUnregister id => unregister_session g id
  | GDeliver request => (deliver_inner encode_to_vec g request).2
  | GControl e => (apply_session_control_local encode_to_vec g e).2
  | GPushSession id route payload => (push_session g id route payload).2
  | GDrain everybody reason => drain_round encode_to_vec g everybody reason
  | GWrite id =>
      {| handles := alter (fun h => {| pushes := drop 1 h.(pushes); push_capacity := h.(push_capacity);
           push_open := h.(push_open); disconnect := h.(disconnect); disconnect_open := h.(disconnect_open);
           authenticated := h.(authenticated) |}) id g.(handles);
         session_index := g.(session_index); topics := g.(topics); online := g.(online) |}
  end.

Definition gateway_init (online : option D) : GatewayServer D :=
  {| handles := ∅; session_index := SessionIndex_default; topics := ∅; online := online |}.

Definition gateway_run (online : option D) (ops : list gateway_op) : GatewayServer D :=
  foldl gateway_step (gateway_init online) ops.

(** The index is consistent, an indexed session is connected, and the members of a topic are indexed. *)
Record gateway_ok g : Prop := {
  gw_index : index_ok g.(session_index);
  gw_handles : forall id, is_Some (g.(session_index).(identities) !! id) -> is_Some (g.(handles) !! id);
  gw_topics : forall t ids id, g.(topics) !! t = Some ids -> id ∈ ids ->
    is_Some (g.(session_index).(identities) !! id);
}.

(** A step that only touches existing handles keeps the tables in agreement. *)
Lemma gateway_ok_handles g g' :
  gateway_ok g -> (forall id, is_Some (g.(handles) !! id) -> is_Some (g'.(handles) !! id)) ->
  g'.(session_index) = g.(session_index) -> g'.(topics) = g.(topics) -> gateway_ok g'.
Proof. intros [Hi Hh Ht] Hdom Hix Htop. split; rewrite ?Hix, ?Htop; eauto. Qed.

Lemma set_handle_dom g id h k : is_Some (g.(handles) !! k) -> is_Some ((set_handle g id h).(handles) !! k).
Proof. cbn. intros Hk. destruct (decide (k = id)) as [->|]; [rewrite lookup_insert_eq; eauto|by rewrite lookup_insert_ne]. Qed.

(** What the loops leave alone. *)
Definition only_handles g g' : Prop :=
  (forall id, is_Some (g.(handles) !! id) -> is_Some (g'.(handles) !! id))
  /\ g'.(session_index) = g.(session_index) /\ g'.(topics) = g.(topics).

Lemma only_handles_refl g : only_handles g g.
Proof. done. Qed.

Lemma only_handles_set g id h g' : only_handles (set_handle g id h) g' -> only_handles g g'.
Proof. intros (Hd & Hi & Ht). split; [|done]. intros k Hk. by apply Hd, set_handle_dom. Qed.

Lemma push_loop_only ids f : forall g n, only_handles g (push_loop g ids f n).2.
Proof.
  induction ids as [|id ids IH]; intros g n; [apply only_handles_refl|]. cbn [push_loop].
  destruct (handles g !! id) as [h|]; [|apply IH]. destruct (try_send h f) as [h'|]; [|apply only_handles_refl].
  by eapply only_handles_set, IH.
Qed.

Lemma disconnect_loop_only a reason ids : forall g n,
  only_handles g (disconnect_loop encode_to_vec g ids a reason n).2.
Proof.
  induction ids as [|id ids IH]; intros g n; [apply only_handles_refl|]. cbn [disconnect_loop].
  destruct (handles g !! id) as [h|]; [|apply IH].
  destruct (disconnect_handle_with_action _ h a reason) as [[[]|e] h'].
  - by eapply only_handles_set, IH.
  - apply (only_handles_set g id h'), only_handles_refl.
Qed.

Lemma only_handles_ok g g' : gateway_ok g -> only_handles g g' -> gateway_ok g'.
Proof. intros Hg (Hd & Hi & Ht). by eapply gateway_ok_handles. Qed.

Lemma apply_control_only g e : only_handles g (apply_session_control_local encode_to_vec g e).2.
Proof.
  unfold apply_session_control_local. destruct (SessionControlEvent_validate e); [|apply only_handles_refl].
  apply disconnect_loop_only.
Qed.

(** Joining and leaving a topic. *)
Lemma membership_ok g region realm id group join :
  gateway_ok g -> gateway_ok (update_membership g region realm id group join).2.
Proof.
  intros Hg. unfold update_membership.
  destruct (String.eqb group "") eqn:Hgroup; [done|].
  destruct (indexed_in (session_index g) region realm id) eqn:Hin; [|done]. cbn [negb orb].
  assert (Hid : is_Some (identities (session_index g) !! id)).
  { unfold indexed_in in Hin. destruct (identities (session_index g) !! id); [eauto|done]. }
  set (t := if join then _ else _).
  assert (Ht : gateway_ok (set_topics g t)).
  { destruct Hg as [Hi Hh Ht]. split; [done|done|]. intros k ids j Hk Hj. cbn in Hk. unfold t in Hk. destruct join.
    - destruct (decide (k = group)) as [->|Hne].
      + rewrite lookup_insert_eq in Hk. injection Hk as <-. apply elem_of_union in Hj as [->%elem_of_singleton|Hj]; [done|].
        destruct (topics g !! group) as [ids|] eqn:Ek; [|set_solver]. by apply (Ht group ids).
      + rewrite lookup_insert_ne in Hk by done. by apply (Ht k ids).
    - destruct (topics g !! group) as [ids0|] eqn:Eg; [|by apply (Ht k ids)].
      case_bool_decide; cbn zeta in Hk.
      + apply lookup_delete_Some in Hk as [_ Hk]. by apply (Ht k ids).
      + apply lookup_insert_Some in Hk as [[<- <-]|[_ Hk]]; [|by apply (Ht k ids)].
        apply (Ht group ids0); [done|]. set_solver. }
  destruct (online (set_topics g t)); [|done]. destruct (track_group _ _ _ _) as [r d'].
  by eapply (gateway_ok_handles (set_topics g t)).
Qed.

Lemma deliver_inner_ok g request : gateway_ok g -> gateway_ok (deliver_inner encode_to_vec g request).2.
Proof.
  intros Hg. unfold deliver_inner. destruct (PushRequest_validate request) as [[]|]; [|done].
  assert (Hpush : forall target, gateway_ok
    ((let ids := matching_sessions g (push_region_id request) (push_realm_id request) target in
      if len ids =? 0 then (Err Unavailable, g)
      else
        let '(r, g) := push_loop g (with_handle g ids)
          (push_frame request.(push_route) request.(push_sequence) request.(push_payload)) 0 in
        let? delivered := r else g in
        if delivered =? 0 then (Err Unavailable, g)
        else (Ok (PushReceipt_accepted request delivered), g)).2)).
  { intros target. cbn zeta. destruct (len _ =? 0); [done|].
    pose proof (push_loop_only (with_handle g (matching_sessions g (push_region_id request) (push_realm_id request) target))
      (push_frame request.(push_route) request.(push_sequence) request.(push_payload)) g 0) as Ho.
    destruct (push_loop _ _ _ _) as [[n|] g']; cbn in Ho; [|by eapply only_handles_ok].
    destruct (n =? 0); by eapply only_handles_ok. }
  assert (Hjoin : forall id topic join, gateway_ok
    ((let '(r, g) := update_membership g (push_region_id request) (push_realm_id request) id topic join in
      let? _ := r else g in (Ok (PushReceipt_accepted request 0), g)).2)).
  { intros id topic join. pose proof (membership_ok g (push_region_id request) (push_realm_id request) id topic join Hg) as Hm.
    by destruct (update_membership _ _ _ _ _ _) as [[[]|] g']. }
  destruct (push_target request) as [id|u|us| |t|id t|id t|id]; [apply Hpush..|apply Hjoin|apply Hjoin|].
  destruct (negb _); [done|]. destruct (handles g !! id) as [h|] eqn:Hh; [|done]. cbn [ok_or].
  destruct (disconnect_handle _ h _) as [[[]|] h']; eapply only_handles_ok; try done;
    apply (only_handles_set g id h'), only_handles_refl.
Qed.
Lemma insert_identities self sid i : (SessionIndex_insert self sid i).(identities) = <[sid := i]> self.(identities).
Proof. unfold SessionIndex_insert. cbn. destruct (identities self !! sid); [by rewrite remove_user_identities|done]. Qed.

Lemma remove_identities self sid : (SessionIndex_remove self sid).2.(identities) = delete sid self.(identities).
Proof.
  unfold SessionIndex_remove. destruct (identities self !! sid) eqn:E; cbn; [by rewrite remove_user_identities|].
  by rewrite delete_id.
Qed.

Lemma alter_dom (f : SessionHandle -> SessionHandle) (m : gmap Z SessionHandle) id k :
  is_Some (alter f id m !! k) <-> is_Some (m !! k).
Proof. by rewrite lookup_alter_is_Some. Qed.

Lemma unregister_ok g id : gateway_ok g -> gateway_ok (unregister_session g id).
Proof.
  intros [Hi Hh Ht]. split; cbn [unregister_session handles session_index topics].
  - by apply remove_index_ok.
  - intros k. rewrite remove_identities. intros [i [Hne Hk]%lookup_delete_Some].
    rewrite lookup_delete_ne by done. eauto.
  - intros t ids k Hk Hin. rewrite remove_identities. unfold leave_topics in Hk.
    apply map_lookup_filter_Some in Hk as [Hk _]. apply lookup_fmap_Some in Hk as (ids0 & <- & Hk).
    rewrite lookup_delete_ne by set_solver. apply (Ht t ids0); [done|]. set_solver.
Qed.

Lemma authenticate_ok g id i : is_Some (g.(handles) !! id) -> gateway_ok g -> gateway_ok (mark_authenticated g id i).
Proof.
  intros Hid [Hi Hh Ht]. split; cbn [mark_authenticated handles session_index topics].
  - by apply insert_index_ok.
  - intros k. rewrite insert_identities, alter_dom. intros Hk.
    destruct (decide (k = id)) as [->|]; [done|]. rewrite lookup_insert_ne in Hk by done. auto.
  - intros t ids k Hk Hin. rewrite insert_identities. destruct (decide (k = id)) as [->|].
    + rewrite lookup_insert_eq. eauto.
    + rewrite lookup_insert_ne by done. eauto.
Qed.

Lemma gateway_step_ok g o : gateway_ok g -> gateway_ok (gateway_step g o).
Proof.
  intros Hg. destruct o as [id c|id i|id|request|e|id r p|b reason|id]; cbn [gateway_step].
  - case_bool_decide; [done|]. eapply only_handles_ok; [done|].
    eapply only_handles_set, only_handles_refl.
  - case_bool_decide; [by apply authenticate_ok|done].
  - by apply unregister_ok.
  - by apply deliver_inner_ok.
  - eapply only_handles_ok; [done|apply apply_control_only].
  - unfold push_session. destruct (handles g !! id) as [h|]; [|done]. cbn [ok_or].
    destruct (try_send _ _) as [h'|]; [|done]. eapply only_handles_ok; [done|].
    eapply only_handles_set, only_handles_refl.
  - apply (gateway_ok_handles g); [done| |done|done]. intros k Hk. cbn. by rewrite lookup_fmap, fmap_is_Some.
  - apply (gateway_ok_handles g); [done| |done|done]. intros k Hk. cbn. by rewrite alter_dom.
Qed.

Lemma gateway_run_ok online ops : gateway_ok (gateway_run online ops).
Proof.
  unfold gateway_run. assert (H0 : gateway_ok (gateway_init online)).
  { split; cbn.
    - split; cbn; [|by intros]. intros key sid. unfold sessions_of. cbn. rewrite lookup_empty. cbn.
      split; [set_solver|]. intros (i & Hi & _). by rewrite lookup_empty in Hi.
    - intros id [i Hi]. by rewrite lookup_empty in Hi.
    - intros t ids id Hk. by rewrite lookup_empty in Hk. }
  revert H0. generalize (gateway_init online). induction ops as [|o ops IH]; intros g Hg; [done|].
  cbn [foldl]. by apply IH, gateway_step_ok.
Qed.

(** ** Pushes reach the sessions they are addressed to *)

(** The session [id] belongs to the realm and to the target of the request. *)
Definition addressed g (request : PushRequest) (id : Z) : Prop :=
  exists i, g.(session_index).(identities) !! id = Some i
    /\ in_realm request.(push_region_id) request.(push_realm_id) i = true
    /\ match request.(push_target) with
       | PushSession k => id = k
       | PushUser user => i.(identity_user_id) = user
       | PushUsers us => i.(identity_user_id) ∈ us
       | PushTopic t => id ∈ default ∅ (g.(topics) !! t)
       | PushRealm => True
       | _ => False
       end.

Lemma in_realm_true region realm i :
  in_realm region realm i = true <-> i.(identity_region_id) = region /\ i.(identity_realm_id) = realm.
Proof. unfold in_realm. rewrite andb_true_iff, !Z.eqb_eq. done. Qed.

Lemma users_union index region realm us : forall acc id,
  id ∈ foldl (fun acc user => acc ∪ sessions_of index (region, realm, user)) acc us
  <-> id ∈ acc \/ exists user, user ∈ us /\ id ∈ sessions_of index (region, realm, user).
Proof.
  induction us as [|u us IH]; intros acc id; cbn [foldl]; [|rewrite IH]; set_solver.
Qed.

Lemma indexed_in_true index region realm id :
  indexed_in index region realm id = true
  <-> exists i, index.(identities) !! id = Some i /\ in_realm region realm i = true.
Proof.
  unfold indexed_in. destruct (identities index !! id) as [i|]; [|naive_solver].
  split; [eauto|]. by intros (j & [= <-] & ?).
Qed.

Lemma sessions_of_spec g region realm user id : gateway_ok g ->
  id ∈ sessions_of g.(session_index) (region, realm, user)
  <-> exists i, g.(session_index).(identities) !! id = Some i /\ in_realm region realm i = true
        /\ i.(identity_user_id) = user.
Proof.
  intros Hg. rewrite (index_exact _ (gw_index g Hg)). unfold identity_key.
  split; intros (i & Hi & Hk); exists i; rewrite in_realm_true in *; naive_solver congruence.
Qed.

Lemma matching_addressed g request id : gateway_ok g ->
  id ∈ matching_sessions g request.(push_region_id) request.(push_realm_id) request.(push_target)
  <-> addressed g request id.
Proof.
  intros Hg. unfold matching_sessions, addressed. destruct (push_target request) as [k|u|us| |t|k t|k t|k].
  - destruct (indexed_in _ _ _ k) eqn:Hin.
    + apply indexed_in_true in Hin as (i & Hi & Hr). rewrite list_elem_of_singleton.
      split; [intros ->; eauto|]. by intros (j & _ & _ & ->).
    + split; [by intros ?%not_elem_of_nil|]. intros (i & Hi & Hr & ->).
      assert (indexed_in (session_index g) (push_region_id request) (push_realm_id request) k = true)
        by (apply indexed_in_true; eauto). congruence.
  - rewrite elem_of_elements. by apply sessions_of_spec.
  - rewrite elem_of_elements, users_union. split.
    + intros [?|(u & Hu & Hin)]; [set_solver|]. apply sessions_of_spec in Hin as (i & Hi & Hr & <-); eauto.
    + intros (i & Hi & Hr & Hu). right. exists i.(identity_user_id). split; [done|]. apply sessions_of_spec; eauto.
  - rewrite list_elem_of_fmap. split.
    + intros ([k i] & -> & [Hr Hin]%list_elem_of_filter). apply elem_of_map_to_list in Hin. eauto.
    + intros (i & Hi & Hr & _). exists (id, i). split; [done|]. apply list_elem_of_filter.
      split; [done|]. by apply elem_of_map_to_list.
  - rewrite list_elem_of_filter, elem_of_elements, indexed_in_true. naive_solver.
  - split; [by intros ?%not_elem_of_nil|naive_solver].
  - split; [by intros ?%not_elem_of_nil|naive_solver].
  - split; [by intros ?%not_elem_of_nil|naive_solver].
Qed.

Lemma matching_NoDup g region realm target : NoDup (matching_sessions g region realm target).
Proof.
  unfold matching_sessions. destruct target as [k|u|us| |t|k t|k t|k]; try apply NoDup_nil_2;
    try apply NoDup_elements.
  - destruct (indexed_in _ _ _ k); [apply NoDup_singleton|apply NoDup_nil_2].
  - apply NoDup_fmap_fst.
    + intros k i j [_ Hi]%list_elem_of_filter [_ Hj]%list_elem_of_filter.
      apply elem_of_map_to_list in Hi, Hj. congruence.
    + apply NoDup_filter, NoDup_map_to_list.
  - apply NoDup_filter, NoDup_elements.
Qed.
End runs.

(** Targets that carry a frame to sessions. *)
Definition is_delivery (t : PushTarget) : bool :=
  match t with
  | PushSession _ | PushUser _ | PushUsers _ | PushRealm | PushTopic _ => true
  | PushJoinTopic _ _ | PushLeaveTopic _ _ | PushDisconnect _ => false
  end.

Lemma deliver_push `{!OnlineDirectory D} encode_to_vec (g : GatewayServer D) request :
  PushRequest_validate request = Ok () -> is_delivery request.(push_target) = true ->
  deliver_inner encode_to_vec g request
  = let ids := matching_sessions g request.(push_region_id) request.(push_realm_id) request.(push_target) in
    if len ids =? 0 then (Err Unavailable, g)
    else
      let '(r, g) := push_loop g (with_handle g ids)
        (push_frame request.(push_route) request.(push_sequence) request.(push_payload)) 0 in
      let? delivered := r else g in
      if delivered =? 0 then (Err Unavailable, g)
      else (Ok (PushReceipt_accepted request delivered), g).
Proof. intros Hv Hd. unfold deliver_inner. rewrite Hv. by destruct (push_target request). Qed.

Lemma with_handle_all {D} (g : GatewayServer D) ids :
  Forall (fun id => is_Some (g.(handles) !! id)) ids -> with_handle g ids = ids.
Proof. apply filter_all. Qed.

(** C21: A push is delivered to the sessions it is addressed to.  In every state the gateway reaches by
    connecting, authenticating and closing sessions, joining topics, pushes and control events, a valid
    push to a session, a user, several users, a topic or the realm is served to the authenticated sessions
    of that realm that the target names, each once, in some order: its frame is appended to the queue of
    each of them up to the first whose queue takes no frame (it is full or closed), and to no other queue.
    When there is no such session, all of them have the frame and the receipt counts them, or the answer is
    [Unavailable] when the target names none; when there is one, the answer is [QueueFull], whatever was
    appended before it. *)
Theorem push_reaches_addressed (D : Type) (Dir : OnlineDirectory D) (encode_to_vec : SessionControl -> list Z)
  (online : option D) (ops : list gateway_op) (request : PushRequest)
  (Hvalid : PushRequest_validate request = Ok ()) (Hkind : is_delivery request.(push_target) = true) :
  let g := gateway_run encode_to_vec online ops in
  let frame := push_frame request.(push_route) request.(push_sequence) request.(push_payload) in
  exists reached rest g',
    NoDup (reached ++ rest) /\ (forall id, id ∈ reached ++ rest <-> addressed g request id)
    /\ Forall (roomy g) reached /\ (forall id, head rest = Some id -> ~ roomy g id)
    /\ deliver_inner encode_to_vec g request
       = (match reached, rest with
          | [], [] => Err Unavailable
          | _, [] => Ok (PushReceipt_accepted request (len reached))
          | _, _ :: _ => Err QueueFull
          end, g')
    /\ (forall id h, g.(handles) !! id = Some h -> exists h', g'.(handles) !! id = Some h'
          /\ (id ∈ reached -> h'.(pushes) = h.(pushes) ++ [frame]) /\ (id ∉ reached -> h' = h)).
Proof.
  intros g frame. pose proof (gateway_run_ok encode_to_vec online ops) as Hg. fold g in Hg.
  set (ids := matching_sessions g request.(push_region_id) request.(push_realm_id) request.(push_target)).
  assert (Hids : forall id, id ∈ ids <-> addressed g request id) by (intros; by apply matching_addressed).
  assert (Hnd : NoDup ids) by apply matching_NoDup.
  assert (Hall : Forall (fun id => is_Some (g.(handles) !! id)) ids).
  { apply Forall_forall. intros id (i & Hi & _)%Hids. apply (gw_handles g Hg id). by exists i. }
  destruct (push_loop_splits ids frame g 0 Hnd Hall) as (reached & rest & g' & Heq & Hroom & Hfull & Hloop & Hu & _).
  exists reached, rest, g'. rewrite <- Heq. split_and!; [done|done|done|done| |].
  - rewrite deliver_push by done. cbn zeta. fold ids frame. rewrite with_handle_all by done.
    rewrite Hloop, Z.add_0_l, Heq, len_app. pose proof (len_nonneg (tail reached)).
    pose proof (len_nonneg (tail rest)). assert (Hnone : reached = [] -> rest = [] -> g' = g).
    { intros -> ->. rewrite Heq in Hloop. by injection Hloop. }
    destruct reached, rest; cbn [tail] in *; rewrite ?len_cons, ?len_nil in *; [by rewrite Hnone|..];
      repeat case_match; simplify_eq; breflect; try lia; done.
  - intros id h Hh. rewrite Hu. case_decide as Hid; [|by exists h]. exists (pushed frame h). rewrite Hh.
    split_and!; [done| |done]. intros _. rewrite Forall_forall in Hroom. destruct (Hroom id Hid) as (h0 & Hh0 & Hr).
    rewrite Hh in Hh0. injection Hh0 as <-. unfold pushed, try_send. unfold has_room in Hr. by rewrite Hr.
Qed.

(** ** Session control reaches every session of the user *)

Lemma selected_spec {D} (g : GatewayServer D) e id : gateway_ok g ->
  id ∈ selected_sessions g.(session_index) e
  <-> exists i, g.(session_index).(identities) !! id = Some i
        /\ identity_key i = (e.(event_region_id), e.(event_realm_id), e.(event_user_id))
        /\ event_selects e id i = true.
Proof.
  intros Hg. unfold selected_sessions. rewrite list_elem_of_filter, elem_of_elements.
  rewrite (index_exact _ (gw_index g Hg)). split.
  - intros [Hsel (i & Hi & Hk)]. rewrite Hi in Hsel. eauto.
  - intros (i & Hi & Hk & Hsel). rewrite Hi. eauto.
Qed.

Lemma event_reason_bound e : SessionControlEvent_validate e = Ok () -> string_len e.(reason) <= 256.
Proof.
  unfold SessionControlEvent_validate. case_match eqn:E; [done|]. intros _. breflect. lia.
Qed.

Lemma control_action_specified k : control_action k <> Unspecified.
Proof. by destruct k. Qed.

(** A session-control event disconnects exactly the sessions it selects.  In every reachable state a
    valid event (a duplicate login, a forced logout, an account version change) sends its notice to, and
    sets the disconnect flag of, each session of its user that it selects (the other sessions on a login,
    the named one or all on a logout, the older generations on a version change), touches no other
    session, and returns their number, provided the selected sessions' queues have room. *)
Theorem session_control_disconnects (D : Type) (Dir : OnlineDirectory D) (encode_to_vec : SessionControl -> list Z)
  (online : option D) (ops : list gateway_op) (e : SessionControlEvent)
  (Hvalid : SessionControlEvent_validate e = Ok ())
  (Hroom : Forall (reachable (gateway_run encode_to_vec online ops))
     (selected_sessions (gateway_run encode_to_vec online ops).(session_index) e)) :
  let g := gateway_run encode_to_vec online ops in
  exists ids g',
    NoDup ids
    /\ (forall id, id ∈ ids <-> exists i, g.(session_index).(identities) !! id = Some i
          /\ identity_key i = (e.(event_region_id), e.(event_realm_id), e.(event_user_id))
          /\ event_selects e id i = true)
    /\ apply_session_control_local encode_to_vec g e = (Ok (len ids), g')
    /\ forall id h, g.(handles) !! id = Some h -> exists h', g'.(handles) !! id = Some h'
         /\ (id ∈ ids -> h'.(disconnect) = true
              /\ h'.(pushes) = h.(pushes) ++ [push_frame ROUTE_SESSION_CONTROL 0
                   (encode_to_vec {| action := SessionControlAction_as_i32 (control_action e.(Session.kind));
                                     control_reason := e.(reason) |})])
         /\ (id ∉ ids -> h' = h).
Proof.
  intros g. pose proof (gateway_run_ok encode_to_vec online ops) as Hg. fold g in Hg, Hroom.
  set (ids := selected_sessions g.(session_index) e) in *.
  assert (Hnd : NoDup ids) by apply NoDup_filter, NoDup_elements.
  unfold apply_session_control_local. rewrite Hvalid. cbn zeta. fold ids.
  rewrite with_handle_all by (eapply Forall_impl; [exact Hroom|]; intros id (h & -> & _); eauto).
  pose proof (control_action_specified e.(Session.kind)) as Ha. pose proof (event_reason_bound e Hvalid) as Hr.
  destruct (disconnect_loop_all encode_to_vec _ (reason e) ids Ha Hr g 0 Hnd Hroom) as (g' & Hloop & Hu & _).
  exists ids, g'. rewrite Hloop, Z.add_0_l. split_and!; [done|intros; by apply selected_spec|done|].
  intros id h Hh. rewrite Hu. case_decide as Hid; [|by exists h]. rewrite Hh.
  eexists. split; [done|]. split; [|done]. intros _. rewrite Forall_forall in Hroom.
  destruct (Hroom id Hid) as (h0 & Hh0 & Hr0 & Ho). rewrite Hh in Hh0. injection Hh0 as <-.
  by destruct (disconnect_with_room encode_to_vec h _ _ Ha Hr Hr0 Ho) as (_ & -> & _ & ->).
Qed.

(** ** A full queue stops the event *)

Lemma disconnect_ok_room encode_to_vec h a reason h' :
  disconnect_handle_with_action encode_to_vec h a reason = (Ok (), h') -> has_room h = true.
Proof.
  unfold disconnect_handle_with_action, enqueue_session_control, try_send. fold (has_room h).
  destruct (SessionControl_new a reason) as [c|]; [|by destruct (send_disconnect h)].
  destruct (SessionControl_encode_frame_payload _ c) as [p|]; [|by destruct (send_disconnect h)].
  destruct (has_room h); [done|]. by destruct (send_disconnect h).
Qed.

Lemma disconnect_loop_stops encode_to_vec {D} a reason ids : forall (g : GatewayServer D) n,
  NoDup ids -> Forall (fun id => is_Some (g.(handles) !! id)) ids ->
  Exists (fun id => exists h, g.(handles) !! id = Some h /\ has_room h = false) ids ->
  exists before id after e g', ids = before ++ id :: after
    /\ disconnect_loop encode_to_vec g ids a reason n = (Err e, g')
    /\ Forall (fun k => g'.(handles) !! k = g.(handles) !! k) after.
Proof.
  induction ids as [|id ids IH]; intros g n Hnd Hall Hex; [by apply Exists_nil in Hex|].
  apply NoDup_cons in Hnd as [Hid Hnd]. apply Forall_cons in Hall as [[h Hh] Hall].
  assert (Hne : forall h' k, k ∈ ids -> (set_handle g id h').(handles) !! k = g.(handles) !! k).
  { intros h' k Hk. cbn. rewrite lookup_insert_ne; [done|]. by intros ->. }
  cbn [disconnect_loop]. rewrite Hh. destruct (disconnect_handle_with_action _ h a reason) as [[[]|e] h'] eqn:Hd.
  - apply disconnect_ok_room in Hd. apply Exists_cons in Hex as [(h0 & Hh0 & Hfull)|Hex]; [congruence|].
    destruct (IH (set_handle g id h') (n + 1) Hnd) as (before & k & after & e & g' & -> & Hloop & Hafter).
    + rewrite Forall_forall in *. intros k Hk. rewrite Hne by done. auto.
    + rewrite Exists_exists in *. destruct Hex as (k & Hk & hk & Hhk). exists k. split; [done|].
      exists hk. by rewrite Hne.
    + exists (id :: before), k, after, e, g'. split_and!; [done|done|].
      rewrite Forall_forall in *. intros j Hj. rewrite Hafter by done. apply Hne. set_solver.
  - exists [], id, ids, e, (set_handle g id h'). split_and!; [done|done|].
    apply Forall_forall. intros k Hk. by apply Hne.
Qed.

(** One session whose push queue is full stops a forced logout.  When some session of the user has no
    room for the notice, the operation fails at the first such session: the sessions that come after it
    stay connected, and the event is not published to the other gateways. *)
Theorem full_queue_stops_logout (D : Type) (Dir : OnlineDirectory D) (encode_to_vec : SessionControl -> list Z)
  (online : option D) (ops : list gateway_op) (session_control : option (SessionControlEvent -> Result unit))
  (e : SessionControlEvent)
  (Hvalid : SessionControlEvent_validate e = Ok ())
  (Hfull : Exists (fun id => exists h, (gateway_run encode_to_vec online ops).(handles) !! id = Some h
                               /\ has_room h = false)
             (selected_sessions (gateway_run encode_to_vec online ops).(session_index) e)) :
  let g := gateway_run encode_to_vec online ops in
  exists before id after error g',
    selected_sessions g.(session_index) e = before ++ id :: after
    /\ control_everywhere encode_to_vec session_control g e = (Err error, g', [])
    /\ Forall (fun k => g'.(handles) !! k = g.(handles) !! k) after.
Proof.
  intros g. pose proof (gateway_run_ok encode_to_vec online ops) as Hg. fold g in Hg, Hfull.
  unfold control_everywhere, apply_session_control_local. rewrite Hvalid. cbn zeta.
  assert (Hall : Forall (fun id => is_Some (g.(handles) !! id)) (selected_sessions g.(session_index) e)).
  { apply Forall_forall. intros id (i & Hi & _)%selected_spec; [|done]. apply (gw_handles g Hg). eauto. }
  rewrite with_handle_all by done.
  assert (Hnd : NoDup (selected_sessions g.(session_index) e)) by apply NoDup_filter, NoDup_elements.
  destruct (disconnect_loop_stops encode_to_vec (control_action (Session.kind e)) (reason e) _ g 0 Hnd Hall Hfull) as (before & id & after & error & g' & Hids & -> & Hafter).
  by exists before, id, after, error, g'.
Qed.

(** ** Concrete gateways *)
Module GatewayExamples.

Definition user (sessions_of_user : Z) : Identity :=
  {| account_id := 1; identity_user_id := sessions_of_user; identity_region_id := 1; identity_realm_id := 1;
     generation := 1 |}.
Definition no_encoding (c : SessionControl) : list Z := [c.(action)].
Definition directory : OnlineDirectory MemoryState := MemoryOnlineDirectory_directory 0.

(** Sessions 11 and 12 of user 7, session 13 of user 8. *)
Definition connected (capacity : Z) : list gateway_op :=
  [GRegister 11 capacity; GRegister 12 capacity; GRegister 13 4;
   GAuthenticate 11 (user 7); GAuthenticate 12 (user 7); GAuthenticate 13 (user 8)].

Definition to_user (u : Z) : PushRequest :=
  {| push_region_id := 1; push_realm_id := 1; push_target := PushUser u; push_route := 200; push_sequence := 3;
     push_trace_id := ""; push_payload := [9] |}.

Definition logout (u : Z) : SessionControlEvent :=
  {| Session.kind := ForceLogout; event_region_id := 1; event_realm_id := 1; event_user_id := u;
     event_generation := 0; Session.session_id := None; keep_session_id := None; reason := "operator" |}.

Definition gateway (capacity : Z) : GatewayServer MemoryState :=
  Eval vm_compute in
    @gateway_run no_encoding MemoryState directory None (connected capacity).

(** Both sessions of the user have room: the receipt counts two. *)
Lemma push_reaches_addressed_witness :
  let g := @gateway_run no_encoding MemoryState directory None (connected 4) in
  let frame := push_frame 200 3 [9] in
  exists reached rest g',
    NoDup (reached ++ rest) /\ (forall id, id ∈ reached ++ rest <-> addressed g (to_user 7) id)
    /\ Forall (roomy g) reached /\ (forall id, head rest = Some id -> ~ roomy g id)
    /\ @deliver_inner no_encoding MemoryState directory g (to_user 7)
       = (match reached, rest with
          | [], [] => Err Unavailable
          | _, [] => Ok (PushReceipt_accepted (to_user 7) (len reached))
          | _, _ :: _ => Err QueueFull
          end, g')
    /\ (forall id h, g.(handles) !! id = Some h -> exists h', g'.(handles) !! id = Some h'
          /\ (id ∈ reached -> h'.(pushes) = h.(pushes) ++ [frame]) /\ (id ∉ reached -> h' = h)).
Proof.
  apply (push_reaches_addressed MemoryState directory no_encoding None (connected 4) (to_user 7)); reflexivity.
Defined.

Example push_counts_two :
  (@deliver_inner no_encoding MemoryState directory (gateway 4) (to_user 7)).1
  = Ok (PushReceipt_accepted (to_user 7) 2).
Proof. vm_compute. reflexivity. Qed.

(** Queues of one frame: the second push of the same frame is refused. *)
Example push_meets_full_queue :
  (@deliver_inner no_encoding MemoryState directory
     (@deliver_inner no_encoding MemoryState directory (gateway 1) (to_user 7)).2 (to_user 7)).1
  = Err QueueFull.
Proof. vm_compute. reflexivity. Qed.

Lemma session_control_disconnects_witness :
  exists ids g', NoDup ids
    /\ (forall id, id ∈ ids <-> exists i, (gateway 4).(session_index).(identities) !! id = Some i
          /\ identity_key i = (1, 1, 7) /\ event_selects (logout 7) id i = true)
    /\ apply_session_control_local no_encoding (gateway 4) (logout 7) = (Ok (len ids), g')
    /\ forall id h, (gateway 4).(handles) !! id = Some h -> exists h', g'.(handles) !! id = Some h'
         /\ (id ∈ ids -> h'.(disconnect) = true
              /\ h'.(pushes) = h.(pushes) ++ [push_frame ROUTE_SESSION_CONTROL 0 [4]])
         /\ (id ∉ ids -> h' = h).
Proof.
  apply (session_control_disconnects MemoryState directory no_encoding None (connected 4) (logout 7)).
  - reflexivity.
  - vm_compute. repeat constructor; eexists; (split; [reflexivity|split; reflexivity]).
Defined.

Lemma full_queue_stops_logout_witness :
  exists before id after error g',
    selected_sessions (gateway 0).(session_index) (logout 7) = before ++ id :: after
    /\ control_everywhere no_encoding (Some (fun _ => Ok ())) (gateway 0) (logout 7) = (Err error, g', [])
    /\ Forall (fun k => g'.(handles) !! k = (gateway 0).(handles) !! k) after.
Proof.
  apply (full_queue_stops_logout MemoryState directory no_encoding None (connected 0) (Some (fun _ => Ok ())) (logout 7)).
  - reflexivity.
  - vm_compute. apply Exists_cons_hd. eexists. split; reflexivity.
Defined.

(** One of the two sessions keeps running. *)
Example logout_leaves_session :
  let '(r, g, events) := force_logout no_encoding (Some (fun _ => Ok ())) (gateway 0) 1 1 7 "operator" in
  r = Err QueueFull /\ events = []
  /\ length (filter (fun p => p.2.(disconnect) = false) (map_to_list g.(handles))) = 2%nat.
Proof. vm_compute. done. Qed.

End GatewayExamples.
