(* ===== verification/GatewayConnection.v ===== *)
(** * A client connection's requests: [crates/elura-gateway/src/connection.rs], [client_protocol.rs],
      [interceptor.rs], [transport/admission.rs], [transport/account_version.rs]

    The requests a gateway serves for one session: authentication (ticket, admission, account version,
    presence slot, replay protection, session, index, duplicate logins), reconnection tickets,
    heartbeats and application routes.  The handler composes the components it calls in the code:
    [Tickets], [Presence], [Session], [GatewayLimits], [GatewaySessions], [Ownership].

    A login is three parts, [login_admit], [login_consume] and [login_complete]: the future of the
    handler can be dropped at the [await] between the first two.  No other request of the gateway runs
    between the parts of one login in [ConnectionContext_authenticate].  Clock
    readings, drawn identifiers and what the external services answer are arguments.  The expiry of a
    lease is an unbounded integer: the panic of a [SystemTime] beyond its range is not modelled.
    JSON is a parameter, as are the interceptors and the world behind them. *)

From Stdlib Require Import Ascii.
From S2P Require Import Prelude Bytes CoreError CredentialStores Identity Ownership GatewayLimits Presence Frame GatewaySessions Tickets Session.

(** ** Frames a client may send *)

Inductive ClientFrameAction : Type := ClientRequest | HeartbeatResponse.

#[export] Instance ClientFrameAction_eq_dec : EqDecision ClientFrameAction.
Proof. solve_decision. Defined.
#[export] Instance FrameKind_eq_dec : EqDecision FrameKind.
Proof. solve_decision. Defined.

Definition validate_client_frame (frame : Frame) (authenticated : bool) (pending_heartbeat : option Z) :
    Result ClientFrameAction :=
  if bool_decide (frame.(Frame.kind) = Response) && (frame.(route) =? ROUTE_HEARTBEAT) then
    if negb (frame.(request_id) =? default 0 pending_heartbeat) || negb (frame.(sequence) =? 0)
       || negb (len frame.(payload) =? 0) then
      Err (InvalidFrame "heartbeat response does not match an outstanding request")
    else Ok HeartbeatResponse
  else if negb (bool_decide (frame.(Frame.kind) = Request)) then
    Err (InvalidFrame "gateway accepts request frames and correlated heartbeat responses only")
  else if (frame.(route) <? FIRST_APPLICATION_ROUTE) && negb (frame.(sequence) =? 0) then
    Err (InvalidFrame "framework requests must have sequence zero")
  else
    let allowed :=
      if authenticated then
        (frame.(route) =? ROUTE_HEARTBEAT) || (frame.(route) =? ROUTE_RECONNECT)
        || (FIRST_APPLICATION_ROUTE <=? frame.(route))
      else frame.(route) =? ROUTE_AUTHENTICATE in
    if negb allowed then Err (InvalidFrame "route is not allowed in the current session state")
    else Ok ClientRequest.

(** ** Admission *)

Inductive AdmissionStage : Type := StageConnected | StageAuthenticated.

Record AdmissionRequest : Type := {
  stage : AdmissionStage;
  admission_remote_ip : IpAddr;
  admission_identity : option Identity;
}.

Definition AdmissionRequest_validate (self : AdmissionRequest) : Result unit :=
  match self.(stage), self.(admission_identity) with
  | StageConnected, None => Ok ()
  | StageAuthenticated, Some identity => Identity_validate identity
  | _, _ => Err (InvalidConfig "admission stage and identity do not match")
  end.

Record AdmissionRejection : Type := {
  rejection_code : string;
  rejection_reason : string;
  retry_after : option Z;
}.

Definition AdmissionRejection_new (code reason : string) (retry_after : option Z) : Result AdmissionRejection :=
  if String.eqb code "" || (64 <? string_len code)
     || negb (string_forallb (fun b => is_ascii_lowercase b || is_ascii_digit b || Ascii.eqb b "_"%char) code)
     || trim_is_empty reason || (256 <? string_len reason)
     || bool_decide (retry_after = Some 0) then
    Err (InvalidConfig "invalid admission rejection")
  else Ok {| rejection_code := code; rejection_reason := reason; retry_after := retry_after |}.

Inductive AdmissionDecision : Type := Allow | Deny (rejection : AdmissionRejection).

Record RealmAdmission : Type := { realms : gset (Z * Z) }.

Definition RealmAdmission_new (l : list (Z * Z)) : Result RealmAdmission :=
  let realms : gset (Z * Z) := list_to_set l in
  if bool_decide (realms = ∅) || existsb (fun p => (p.1 =? 0) || (p.2 =? 0)) (elements realms) then
    Err (InvalidConfig "Gateway realm allowlist cannot be empty or zero")
  else Ok {| realms := realms |}.

Definition RealmAdmission_admits (self : RealmAdmission) (request : AdmissionRequest) : Result AdmissionDecision :=
  match request.(stage) with
  | StageConnected => Ok Allow
  | StageAuthenticated =>
      let? i := ok_or request.(admission_identity)
                  (InvalidConfig "authenticated admission requires identity") in
      if negb (bool_decide ((i.(identity_region_id), i.(identity_realm_id)) ∈ self.(realms))) then
        let? rejection := AdmissionRejection_new "wrong_realm" "this Gateway does not serve the selected realm" None in
        Ok (Deny rejection)
      else Ok Allow
  end.

(** The controller's answer within the timeout, [None] when the timeout comes first. *)
Record AdmissionPolicy : Type := {
  controller : AdmissionRequest -> option (Result AdmissionDecision);
  admission_fail_open : bool;
}.

(** [u64::try_from(duration.as_millis()).unwrap_or(u64::MAX)]. *)
Definition saturating_millis (duration : Z) : Z := Z.min (duration / 1000000) u64_max.

Definition AdmissionPolicy_check (self : AdmissionPolicy) (request : AdmissionRequest) : Result unit :=
  let? _ := AdmissionRequest_validate request in
  match self.(controller) request with
  | Some (Ok Allow) => Ok ()
  | Some (Ok (Deny r)) =>
      Err (AdmissionDenied r.(rejection_code) r.(rejection_reason)
             (match r.(retry_after) with Some d => saturating_millis d | None => 0 end))
  | Some (Err e) => if negb self.(admission_fail_open) then Err e else Ok ()
  | None => if negb self.(admission_fail_open) then Err Timeout else Ok ()
  end.

(** ** Account versions *)

(** The store's answer within the timeout, [None] when the timeout comes first. *)
Record AccountVersionPolicy : Type := {
  current_version : AccountVersionKey -> option (Result (option Z));
  version_fail_open : bool;
  check_interval : Z;
}.

Definition AccountVersionKey_from_identity (i : Identity) : AccountVersionKey :=
  {| CredentialStores.region_id := i.(identity_region_id);
     CredentialStores.realm_id := i.(identity_realm_id);
     CredentialStores.user_id := i.(identity_user_id) |}.

Definition AccountVersionPolicy_check (self : AccountVersionPolicy) (identity : Identity) : Result unit :=
  let? _ := Identity_validate identity in
  match self.(current_version) (AccountVersionKey_from_identity identity) with
  | Some (Ok version) =>
      match version with
      | Some v => if negb (v =? 0) && (v =? identity.(generation)) then Ok () else Err SessionRevoked
      | None => Err SessionRevoked
      end
  | Some (Err e) => if self.(version_fail_open) then Ok () else Err e
  | None => if self.(version_fail_open) then Ok () else Err Timeout
  end.

(** ** Presence configuration: [crates/elura-gateway/src/builder.rs] *)

Record RealmCapacityLimit : Type := { limit_region_id : Z; limit_realm_id : Z; limit_max_sessions : Z }.

Record GatewayOnlineConfig : Type := {
  config_gateway_id : string;
  lease_ttl : Z;
  renew_interval : Z;
  config_duplicate_login : DuplicateLoginMode;
  realm_capacities : list RealmCapacityLimit;
  full_retry_after : Z;
}.

Definition limit_realm (l : RealmCapacityLimit) : Z * Z := (l.(limit_region_id), l.(limit_realm_id)).

(** The [any] over the limits, with the set of realms seen. *)
Fixpoint bad_capacities (seen : gset (Z * Z)) (l : list RealmCapacityLimit) : bool :=
  match l with
  | [] => false
  | limit :: l =>
      (limit.(limit_region_id) =? 0) || (limit.(limit_realm_id) =? 0) || (limit.(limit_max_sessions) =? 0)
      || bool_decide (limit_realm limit ∈ seen) || bad_capacities ({[limit_realm limit]} ∪ seen) l
  end.

Definition GatewayOnlineConfig_validate (self : GatewayOnlineConfig) : Result unit :=
  if trim_is_empty self.(config_gateway_id) || (self.(lease_ttl) =? 0) || (self.(renew_interval) =? 0)
     || (self.(lease_ttl) <=? self.(renew_interval)) || (self.(full_retry_after) =? 0) then
    Err (InvalidConfig "online config requires a Gateway ID, positive retry delay, and 0 < renew interval < TTL")
  else if bad_capacities ∅ self.(realm_capacities) then
    Err (InvalidConfig "realm capacities must be positive and unique")
  else Ok ().

Definition GatewayOnlineConfig_max_sessions (self : GatewayOnlineConfig) (region realm : Z) : option Z :=
  limit_max_sessions <$>
    find (fun l => (l.(limit_region_id) =? region) && (l.(limit_realm_id) =? realm)) self.(realm_capacities).

(** ** Interceptors *)

Record GatewayInterceptContext : Type := {
  context_identity : Identity;
  context_session_id : Z;
  context_remote_ip : IpAddr;
  context_trace_id : string;
  context_ownership : option Assignment;
}.

Record GatewayRequest : Type := { gateway_route : Z; gateway_request_id : Z; gateway_payload : list Z }.

Section interceptors.
Context {W : Type}.

(** What runs behind an interceptor: it changes the world and answers. *)
Definition Next : Type := W -> Result (list Z) * W.
Definition GatewayInterceptor : Type := GatewayInterceptContext -> GatewayRequest -> Next -> Next.

(** [GatewayNext::run], [run_interceptors]. *)
Fixpoint run_interceptors (interceptors : list GatewayInterceptor)
    (dispatch : GatewayInterceptContext -> GatewayRequest -> Next)
    (context : GatewayInterceptContext) (request : GatewayRequest) : Next :=
  match interceptors with
  | interceptor :: remaining =>
      interceptor context request (run_interceptors remaining dispatch context request)
  | [] => dispatch context request
  end.
End interceptors.
Arguments Next W : clear implicits.
Arguments GatewayInterceptor W : clear implicits.

(** ** The connection *)

Record ReconnectTicketResponse : Type := { reconnect_ticket : string; expires_in_seconds : Z }.
Record AuthenticateResponse : Type := {
  response_session_id : Z;
  response_identity : Identity;
  response_reconnect : ReconnectTicketResponse;
}.

(** The JSON of the requests and the responses. *)
Class ClientJson : Type := {
  ticket_request_from_slice : list Z -> result string string;
  authenticate_response_to_vec : AuthenticateResponse -> result string (list Z);
  reconnect_response_to_vec : ReconnectTicketResponse -> result string (list Z);
}.

Section connection.
Context `{!TicketCrypto, !ClientJson} {R : Type} `{!ReplayProtectionStore R}.
(** The directory as it answers at a reading of its clock. *)
Context {D : Type} (Dir : Z -> OnlineDirectory D).
Context {W : Type} (encode_to_vec : SessionControl -> list Z).

Record ConnectionContext : Type := {
  tickets : TicketService;
  online_config : GatewayOnlineConfig;
  admission : option AdmissionPolicy;
  account_versions : option AccountVersionPolicy;
  session_control : option (SessionControlEvent -> Result unit);
  push : option (PushRequest -> Result PushReceipt);
  ownership : option (Z * (Z -> Z -> Z -> Result Assignment));
  interceptors : list (GatewayInterceptor W);
  dispatch : GatewayInterceptContext -> GatewayRequest -> Next W;
}.

(** The tables, the stores, the session, what was sent to other gateways, and the world. *)
Record Node : Type := {
  server : GatewayServer D;
  replay : R;
  client : Session;
  published : list SessionControlEvent;
  forwarded : list PushRequest;
  world : W;
}.

(** The readings of the clocks and the values drawn while one request is handled. *)
Record Readings : Type := {
  at_validate : option Z;
  at_lease : Z;
  at_acquire : Z;
  at_reserve : option Z;
  at_session : Z;
  at_issue : option Z;
  drawn_nonce : list Z;
  drawn_trace_id : string;
}.

Definition with_server (n : Node) (g : GatewayServer D) : Node :=
  {| server := g; replay := n.(replay); client := n.(client); published := n.(published);
     forwarded := n.(forwarded); world := n.(world) |}.

Definition with_directory (g : GatewayServer D) (d : D) : GatewayServer D :=
  {| handles := g.(handles); session_index := g.(session_index); topics := g.(topics); online := Some d |}.

Definition ConnectionContext_check_admission (ctx : ConnectionContext) (request : AdmissionRequest) : Result unit :=
  match ctx.(admission) with Some policy => AdmissionPolicy_check policy request | None => Ok () end.

Definition ConnectionContext_lease (ctx : ConnectionContext) (g : GatewayServer D) (now id : Z) (i : Identity) :
    option SessionLease :=
  match g.(online) with
  | Some _ =>
      Some {| Presence.session_id := id; gateway_id := ctx.(online_config).(config_gateway_id);
              Presence.identity := i; Presence.expires_at := now + ctx.(online_config).(lease_ttl) |}
  | None => None
  end.

Definition ConnectionContext_admit_online (ctx : ConnectionContext) (g : GatewayServer D) (now now' id : Z)
    (i : Identity) : Result (list Z) * GatewayServer D :=
  match g.(online) with
  | None => (Ok [], g)
  | Some d =>
      let maximum :=
        GatewayOnlineConfig_max_sessions ctx.(online_config) i.(identity_region_id) i.(identity_realm_id) in
      let? policy := OnlineAdmissionPolicy_new ctx.(online_config).(config_duplicate_login) maximum else g in
      let? lease := ok_or (ConnectionContext_lease ctx g now id i) Unavailable else g in
      let '(admission, d) := @acquire D (Dir now') d lease policy in
      let g := with_directory g d in
      let? admission := admission else g in
      match admission with
      | Accepted previous => (Ok (option_list previous), g)
      | Duplicate => (Err DuplicateSession, g)
      | RealmFull =>
          (Err (AdmissionDenied "realm_full" "the selected realm is at capacity"
                  (saturating_millis ctx.(online_config).(full_retry_after))), g)
      end
  end.

Definition ConnectionContext_renew_lease (ctx : ConnectionContext) (g : GatewayServer D) (now now' id : Z)
    (i : Identity) : Result unit * GatewayServer D :=
  match g.(online) with
  | None => (Ok (), g)
  | Some d =>
      let? lease := ok_or (ConnectionContext_lease ctx g now id i) Unavailable else g in
      let '(r, d) := @renew D (Dir now') d lease in
      (r, with_directory g d)
  end.

Definition ConnectionContext_remove_online (ctx : ConnectionContext) (g : GatewayServer D) (now id : Z)
    (i : Identity) : GatewayServer D :=
  match g.(online), ConnectionContext_lease ctx g now id i with
  | Some d, Some lease => with_directory g (@unregister D (Dir now) d lease).2
  | _, _ => g
  end.

(** The loop of [kick_previous]: a local session is told, a remote one is told through its gateway. *)
Fixpoint kick_loop (ctx : ConnectionContext) (n : Node) (trace_id : string) (ids : list Z) (i : Identity) : Node :=
  match ids with
  | [] => n
  | id :: ids =>
      let n :=
        match n.(server).(handles) !! id with
        | Some h =>
            with_server n (set_handle n.(server) id (disconnect_handle encode_to_vec h "duplicate_login").2)
        | None =>
            match ctx.(push) with
            | Some _ =>
                {| server := n.(server); replay := n.(replay); client := n.(client); published := n.(published);
                   forwarded := n.(forwarded) ++
                     [{| push_region_id := i.(identity_region_id); push_realm_id := i.(identity_realm_id);
                         push_target := PushDisconnect id; push_route := 0; push_sequence := 0;
                         push_trace_id := trace_id;
                         push_payload := string_bytes "duplicate_login" |}];
                   world := n.(world) |}
            | None => n
            end
        end in
      kick_loop ctx n trace_id ids i
  end.

Definition ConnectionContext_kick_previous (ctx : ConnectionContext) (n : Node) (trace_id : string)
    (ids : list Z) (i : Identity) : Node :=
  if (len ids =? 0)
     || match n.(server).(online) with
        | None => true
        | Some _ => negb (bool_decide (ctx.(online_config).(config_duplicate_login) = KickExisting))
        end then n
  else kick_loop ctx n trace_id ids i.

(** *** Login *)

(** Up to and including [admit_online]: the claims and the sessions the login replaces. *)
Definition login_admit (ctx : ConnectionContext) (rd : Readings) (n : Node) (ticket : string) :
    Result (TicketClaims * list Z) * Node :=
  let? claims := TicketService_validate ctx.(tickets) rd.(at_validate) ticket else n in
  let pending := claims.(identity) in
  let? _ := ConnectionContext_check_admission ctx
              {| stage := StageAuthenticated; admission_remote_ip := n.(client).(remote_ip);
                 admission_identity := Some pending |} else n in
  let? _ := match ctx.(account_versions) with
            | Some policy => AccountVersionPolicy_check policy pending
            | None => Ok ()
            end else n in
  let '(previous, g) :=
    ConnectionContext_admit_online ctx n.(server) rd.(at_lease) rd.(at_acquire) n.(client).(id) pending in
  let n := with_server n g in
  let? previous := previous else n in
  (Ok (claims, previous), n).

(** The ticket is consumed; a failure gives the slot back. *)
Definition login_consume (ctx : ConnectionContext) (rd : Readings) (n : Node) (claims : TicketClaims) :
    Result TicketClaims * Node :=
  let '(consumed, store) := VerifiedTicket_consume claims n.(replay) rd.(at_reserve) in
  let n := {| server := n.(server); replay := store; client := n.(client); published := n.(published);
              forwarded := n.(forwarded); world := n.(world) |} in
  match consumed with
  | Ok claims => (Ok claims, n)
  | Err e =>
      (Err e, with_server n
         (ConnectionContext_remove_online ctx n.(server) rd.(at_lease) n.(client).(id) claims.(identity)))
  end.

(** The session is marked, indexed and announced, and the sessions it replaces are told. *)
Definition login_complete (ctx : ConnectionContext) (rd : Readings) (n : Node) (claims : TicketClaims)
    (previous : list Z) : Result unit * Node :=
  let i := claims.(identity) in
  let '(r, s) := Session_authenticate n.(client) rd.(at_session) i in
  let? _ := r else n in
  let event :=
    {| Session.kind := Session.Login; event_region_id := i.(identity_region_id);
       event_realm_id := i.(identity_realm_id); event_user_id := i.(identity_user_id);
       event_generation := i.(generation); Session.session_id := Some s.(id);
       keep_session_id := Some s.(id); reason := "new login" |} in
  let n :=
    {| server := mark_authenticated n.(server) s.(id) i; replay := n.(replay); client := s;
       published := n.(published) ++ match ctx.(session_control) with Some _ => [event] | None => [] end;
       forwarded := n.(forwarded); world := n.(world) |} in
  (Ok (), ConnectionContext_kick_previous ctx n rd.(drawn_trace_id) previous i).

Definition ConnectionContext_authenticate (ctx : ConnectionContext) (rd : Readings) (n : Node) (ticket : string) :
    Outcome (list Z) * Node :=
  match login_admit ctx rd n ticket with
  | (Err e, n) => (Returned (Err e), n)
  | (Ok (claims, previous), n) =>
      match login_consume ctx rd n claims with
      | (Err e, n) => (Returned (Err e), n)
      | (Ok claims, n) =>
          match login_complete ctx rd n claims previous with
          | (Err e, n) => (Returned (Err e), n)
          | (Ok _, n) =>
              match TicketService_issue_reconnect ctx.(tickets) rd.(at_issue) rd.(drawn_nonce) claims.(identity) with
              | Panicked => (Panicked, n)
              | Returned r =>
                  (Returned
                     (let? ticket := r in
                      map_err Serialization (authenticate_response_to_vec
                        {| response_session_id := n.(client).(id); response_identity := claims.(identity);
                           response_reconnect :=
                             {| reconnect_ticket := ticket;
                                expires_in_seconds := as_secs ctx.(tickets).(reconnect_ttl) |} |})), n)
              end
          end
      end
  end.

(** *** Reconnection tickets *)

Definition ConnectionContext_reconnect (ctx : ConnectionContext) (rd : Readings) (n : Node) (ticket : string) :
    Outcome (list Z) * Node :=
  if String.eqb ticket "" then (Returned (Err Authentication), n)
  else
    match Session_identity n.(client) with
    | None => (Returned (Err Authentication), n)
    | Some i =>
        match TicketService_validate ctx.(tickets) rd.(at_validate) ticket with
        | Err e => (Returned (Err e), n)
        | Ok claims =>
            if negb (bool_decide (claims.(Tickets.purpose) = Reconnect))
               || negb (bool_decide (claims.(identity) = i)) then (Returned (Err Authentication), n)
            else
              let '(consumed, store) := VerifiedTicket_consume claims n.(replay) rd.(at_reserve) in
              let n := {| server := n.(server); replay := store; client := n.(client);
                          published := n.(published); forwarded := n.(forwarded); world := n.(world) |} in
              match consumed with
              | Err e => (Returned (Err e), n)
              | Ok _ =>
                  match TicketService_issue_reconnect ctx.(tickets) rd.(at_issue) rd.(drawn_nonce) i with
                  | Panicked => (Panicked, n)
                  | Returned r =>
                      (Returned
                         (let? ticket := r in
                          map_err Serialization (reconnect_response_to_vec
                            {| reconnect_ticket := ticket;
                               expires_in_seconds := as_secs ctx.(tickets).(reconnect_ttl) |})), n)
                  end
              end
        end
    end.

(** *** Application routes *)

(** The shard of the player and its owner, which must answer for the same shard. *)
Definition resolve_ownership (ctx : ConnectionContext) (i : Identity) : Result (option Assignment) :=
  match ctx.(ownership) with
  | None => Ok None
  | Some (shard_count, resolver) =>
      let? shard := shard_for i.(identity_user_id) shard_count in
      let? a := resolver i.(identity_region_id) i.(identity_realm_id) shard in
      if negb (a.(Ownership.region_id) =? i.(identity_region_id))
         || negb (a.(Ownership.realm_id) =? i.(identity_realm_id))
         || negb (a.(shard_id) =? shard) then Err Unavailable
      else Ok (Some a)
  end.

Definition application_request (ctx : ConnectionContext) (rd : Readings) (n : Node) (frame : Frame) :
    Result (list Z) * Node :=
  let? i := ok_or (Session_identity n.(client)) Authentication else n in
  let? owner := resolve_ownership ctx i else n in
  let context :=
    {| context_identity := i; context_session_id := n.(client).(id); context_remote_ip := n.(client).(remote_ip);
       context_trace_id := rd.(drawn_trace_id); context_ownership := owner |} in
  let request :=
    {| gateway_route := frame.(route); gateway_request_id := frame.(request_id);
       gateway_payload := frame.(payload) |} in
  let '(r, w) := run_interceptors ctx.(interceptors) ctx.(dispatch) context request n.(world) in
  (r, {| server := n.(server); replay := n.(replay); client := n.(client); published := n.(published);
         forwarded := n.(forwarded); world := w |}).

(** *** [handle] *)

Definition ConnectionContext_handle (ctx : ConnectionContext) (rd : Readings) (n : Node) (frame : Frame) :
    Outcome (list Z) * Node :=
  if frame.(route) =? ROUTE_AUTHENTICATE then
    if bool_decide (is_Some (Session_identity n.(client))) then (Returned (Err Authentication), n)
    else
      match ticket_request_from_slice frame.(payload) with
      | Err e => (Returned (Err (Serialization e)), n)
      | Ok ticket => ConnectionContext_authenticate ctx rd n ticket
      end
  else if frame.(route) =? ROUTE_HEARTBEAT then (Returned (Ok []), n)
  else if frame.(route) =? ROUTE_RECONNECT then
    match ticket_request_from_slice frame.(payload) with
    | Err e => (Returned (Err (Serialization e)), n)
    | Ok ticket => ConnectionContext_reconnect ctx rd n ticket
    end
  else
    let '(r, n) := application_request ctx rd n frame in
    (Returned r, n).
End connection.

(** ** What a directory promises

    [occupies d id]: the session has a lease, a slot or the place of its user. *)
Class DirectoryLaws {D : Type} (Dir : Z -> OnlineDirectory D) : Type := {
  occupies : D -> Z -> Prop;
  leased : D -> Z -> Identity -> Prop;
  acquire_accepts now d lease policy previous d' :
    @acquire D (Dir now) d lease policy = (Ok (Accepted previous), d') ->
    leased d' lease.(Presence.session_id) lease.(Presence.identity);
  acquire_refuses now d lease policy r d' id :
    @acquire D (Dir now) d lease policy = (r, d') -> (forall previous, r <> Ok (Accepted previous)) ->
    ~ occupies d id -> ~ occupies d' id;
  acquire_reversible now now' d lease lease' policy previous d' :
    @acquire D (Dir now) d lease policy = (Ok (Accepted previous), d') ->
    ~ occupies d lease.(Presence.session_id) ->
    lease'.(Presence.session_id) = lease.(Presence.session_id) ->
    lease'.(gateway_id) = lease.(gateway_id) -> lease'.(Presence.identity) = lease.(Presence.identity) ->
    ~ occupies (@unregister D (Dir now') d' lease').2 lease.(Presence.session_id);
}.

Definition memory_occupies (d : MemoryState) (id : Z) : Prop :=
  is_Some (d.(sessions) !! id) \/ (exists realm, id ∈ slots_of d realm)
  \/ (exists user, d.(single) !! user = Some id).

Lemma purge_slots now d realm : slots_of (purge now d) realm ⊆ slots_of d realm.
Proof.
  unfold slots_of. cbn. destruct (retain_live _ _ !! realm) as [ids|] eqn:E; [|set_solver].
  apply retain_live_lookup in E as (ids0 & -> & ->). cbn. set_solver.
Qed.

Lemma purge_occupies now d id : memory_occupies (purge now d) id -> memory_occupies d id.
Proof.
  intros [[l Hl]|[[realm Hin]|[user Hu]]].
  - left. cbn in Hl. apply map_lookup_filter_Some in Hl as [Hl _]. eauto.
  - right. left. exists realm. by apply (purge_slots now).
  - right. right. exists user. cbn in Hu. by apply map_lookup_filter_Some in Hu as [Hu _].
Qed.

Lemma set_slots_same d realm id : memory_occupies (set_slots d realm (slots_of d realm)) id <-> memory_occupies d id.
Proof.
  unfold memory_occupies. cbn. apply or_iff_compat_l. apply or_iff_compat_r.
  assert (Hs : forall r, slots_of (set_slots d realm (slots_of d realm)) r = slots_of d r).
  { intros r. unfold slots_of at 1. cbn. destruct (decide (r = realm)) as [->|].
    - by rewrite lookup_insert_eq.
    - by rewrite lookup_insert_ne. }
  split; intros [r Hr]; exists r; by rewrite Hs in *.
Qed.

(** The branches of [acquire]: refused with the state purged, or accepted with the lease recorded. *)
Lemma memory_acquire_cases now d lease policy r d' :
  MemoryOnlineDirectory_acquire now d lease policy = (r, d') ->
  ((forall previous, r <> Ok (Accepted previous))
     /\ forall id, memory_occupies d' id -> memory_occupies d id)
  \/ (exists previous, r = Ok (Accepted previous)
     /\ d'.(sessions) !! lease.(Presence.session_id) = Some lease
     /\ (forall realm, lease.(Presence.session_id) ∈ slots_of d' realm ->
          realm = realm_key lease.(Presence.identity) \/ lease.(Presence.session_id) ∈ slots_of d realm)
     /\ (forall user, d'.(single) !! user = Some lease.(Presence.session_id) ->
          user = user_key lease.(Presence.identity) \/ d.(single) !! user = Some lease.(Presence.session_id))).
Proof.
  unfold MemoryOnlineDirectory_acquire.
  destruct (Identity_validate _) as [[]|]; [|intros [= <- <-]; by left].
  destruct (OnlineAdmissionPolicy_new _ _) as [pol|]; [|intros [= <- <-]; by left].
  pose proof (purge_occupies now d) as Hp. pose proof (purge_slots now d) as Hps.
  assert (Hpsing : forall user id, (purge now d).(single) !! user = Some id -> d.(single) !! user = Some id).
  { intros user id Hu. cbn in Hu. by apply map_lookup_filter_Some in Hu as [Hu _]. }
  set (st := purge now d) in *. clearbody st. cbn zeta.
  set (previous := match single st !! _ with Some _ => _ | None => _ end).
  destruct (_ && _); [intros [= <- <-]; left; split; [done|auto]|].
  set (realm0 := realm_key (Presence.identity lease)).
  set (transfers := bool_decide (_ = KickExisting) && _).
  destruct (negb _ && _).
  { intros [= <- <-]. left. split; [done|]. intros id. rewrite set_slots_same. auto. }
  intros [= <- <-]. right. eexists. split; [done|]. cbn [sessions single capacity slots_of]. split_and!.
  - by rewrite lookup_insert_eq.
  - intros realm. unfold slots_of at 1. cbn. destruct (decide (realm = realm0)) as [->|Hne]; [by left|].
    rewrite !lookup_insert_ne by done. intros Hin. right. apply Hps. done.
  - intros user. destruct (duplicate_login pol); [by intros ?%Hpsing; right| |];
      (destruct (decide (user = user_key (Presence.identity lease))) as [->|Hne]; [by left|]);
      (rewrite lookup_insert_ne by done; by intros ?%Hpsing; right).
Qed.

#[export, refine] Instance memory_directory_laws : DirectoryLaws MemoryOnlineDirectory_directory := {|
  occupies := memory_occupies;
  leased d id i := exists lease, d.(sessions) !! id = Some lease /\ lease.(Presence.identity) = i;
|}.
Proof.
  - intros now d lease policy previous d' Hacq. apply memory_acquire_cases in Hacq as [[Hne _]|(p & _ & Hl & _)].
    + by destruct (Hne previous).
    + by exists lease.
  - intros now d lease policy r d' id Hacq Hne Hd Hd'.
    apply memory_acquire_cases in Hacq as [[_ Hocc]|(p & -> & _)]; [by apply Hd, Hocc|by destruct (Hne p)].
  - intros now now' d lease lease' policy previous d' Hacq Hfree Hid Hgw Hident.
    apply memory_acquire_cases in Hacq as [[Hne _]|(p & _ & Hl & Hslots & Hsingle)]; [by destruct (Hne previous)|].
    cbn [unregister MemoryOnlineDirectory_directory]. unfold MemoryOnlineDirectory_unregister.
    rewrite Hid, Hl, Hgw, String.eqb_refl, Hident. cbn. set (id := Presence.session_id lease) in *.
    intros [[l Hl']|[[realm Hin]|[user Hu]]]; cbn in *.
    + by rewrite lookup_delete_eq in Hl'.
    + unfold slots_of in Hin. cbn in Hin. destruct (decide (realm = realm_key (Presence.identity lease))) as [->|Hne].
      * rewrite lookup_alter_eq in Hin. destruct (capacity d' !! _); cbn in Hin; set_solver.
      * rewrite lookup_alter_ne in Hin by done. fold (slots_of d' realm) in Hin.
        destruct (Hslots realm Hin) as [?|Hd]; [done|]. apply Hfree. right. left. eauto.
    + case_bool_decide as Hown.
      * apply lookup_delete_Some in Hu as [Hne Hu]. destruct (Hsingle user Hu) as [->|Hd]; [done|].
        apply Hfree. right. right. eauto.
      * destruct (Hsingle user Hu) as [->|Hd]; [done|]. apply Hfree. right. right. eauto.
Defined.

(** ** Logins *)

Section logins.
Context `{!TicketCrypto, !ClientJson} {R : Type} `{!ReplayProtectionStore R}.
Context {D : Type} (Dir : Z -> OnlineDirectory D) `{!DirectoryLaws Dir}.
Context {W : Type} (encode_to_vec : SessionControl -> list Z).
Implicit Types (ctx : ConnectionContext (W:=W)) (n : Node (R:=R) (D:=D) (W:=W)).

(** Only the directory differs. *)
Definition same_but_directory (g g' : GatewayServer D) : Prop :=
  g'.(handles) = g.(handles) /\ g'.(session_index) = g.(session_index) /\ g'.(topics) = g.(topics)
  /\ (is_Some g'.(online) <-> is_Some g.(online)).

(** The session occupies nothing in the directory. *)
Definition vacant (g : GatewayServer D) (id : Z) : Prop := forall d, g.(online) = Some d -> ~ occupies d id.

Lemma admit_online_spec ctx g now now' id i :
  match ConnectionContext_admit_online Dir ctx g now now' id i with
  | (Ok previous, g') =>
      same_but_directory g g' /\ (forall d', g'.(online) = Some d' -> leased d' id i)
      /\ forall now'', vacant g id -> vacant (ConnectionContext_remove_online Dir ctx g' now'' id i) id
  | (Err _, g') => same_but_directory g g' /\ (vacant g id -> vacant g' id)
  end.
Proof.
  unfold ConnectionContext_admit_online. destruct (online g) as [d|] eqn:Hd.
  2: { split_and!; [done|by rewrite Hd|]. intros now'' Hv. unfold ConnectionContext_remove_online. by rewrite Hd. }
  destruct (OnlineAdmissionPolicy_new _ _) as [pol|]; [|done].
  unfold ConnectionContext_lease. rewrite Hd. cbn [ok_or].
  set (lease := {| Presence.session_id := id |}).
  destruct (acquire d lease pol) as [r d'] eqn:Hacq.
  assert (Hsame : same_but_directory g (with_directory g d')).
  { split_and!; [done..|]. cbn. rewrite Hd. split; eauto. }
  assert (Hrefused : (forall previous, r <> Ok (Accepted previous)) -> vacant g id -> vacant (with_directory g d') id).
  { intros Hne Hv d0 [= <-]. eapply acquire_refuses; [exact Hacq|done|]. by apply Hv. }
  destruct r as [[previous| |]|e]; try (by split; [done|apply Hrefused]).
  split_and!; [done| |].
  - intros d0 [= <-]. exact (acquire_accepts now' d lease pol previous d' Hacq).
  - intros now'' Hv. unfold ConnectionContext_remove_online. cbn [with_directory online].
    unfold ConnectionContext_lease. cbn [with_directory online]. intros d0 [= <-].
    set (lease' := {| Presence.session_id := id |}).
    refine (acquire_reversible now' now'' d lease lease' pol previous d' Hacq _ eq_refl eq_refl eq_refl).
    by apply Hv.
Qed.

(** Telling a session leaves its authentication flag. *)
Lemma told_authenticated h reason :
  (disconnect_handle encode_to_vec h reason).2.(authenticated) = h.(authenticated).
Proof.
  unfold disconnect_handle, disconnect_handle_with_action, enqueue_session_control, try_send, send_disconnect.
  repeat case_match; simplify_eq/=; done.
Qed.

(** What telling the replaced sessions leaves alone. *)
Definition kick_keeps n n' : Prop :=
  n'.(client) = n.(client) /\ n'.(replay) = n.(replay) /\ n'.(world) = n.(world)
  /\ n'.(server).(session_index) = n.(server).(session_index) /\ n'.(server).(online) = n.(server).(online)
  /\ forall id, authenticated <$> n'.(server).(handles) !! id = authenticated <$> n.(server).(handles) !! id.

Lemma kick_loop_keeps ctx trace i ids : forall n, kick_keeps n (kick_loop encode_to_vec ctx n trace ids i).
Proof.
  induction ids as [|id ids IH]; intros n; [done|]. cbn [kick_loop].
  set (n1 := match handles (server n) !! id with Some _ => _ | None => _ end).
  assert (H1 : kick_keeps n n1).
  { unfold n1. destruct (handles (server n) !! id) as [h|] eqn:Hh; [|by destruct (push ctx)].
    split_and!; try done. intros k. cbn. destruct (decide (k = id)) as [->|Hne].
    - rewrite lookup_insert_eq, Hh. cbn. by rewrite told_authenticated.
    - by rewrite lookup_insert_ne. }
  destruct (IH n1) as (Hc & Hr & Hw & Hi & Ho & Ha), H1 as (Hc1 & Hr1 & Hw1 & Hi1 & Ho1 & Ha1).
  split_and!; [congruence..|]. intros k. by rewrite Ha, Ha1.
Qed.

Lemma kick_previous_keeps ctx n trace ids i :
  kick_keeps n (ConnectionContext_kick_previous encode_to_vec ctx n trace ids i).
Proof. unfold ConnectionContext_kick_previous. destruct (_ || _); [done|]. apply kick_loop_keeps. Qed.

Lemma validate_identity_ok s t token c :
  TicketService_validate s t token = Ok c -> Identity_validate c.(identity) = Ok ().
Proof.
  unfold TicketService_validate. intros Hv. repeat (case_match; simplify_eq/=; try discriminate Hv).
  match goal with u : () |- _ => by destruct u end.
Qed.

(** A login that was refused leaves the tables as they were and the session without a place. *)
Definition refused n n' : Prop :=
  n'.(client) = n.(client) /\ same_but_directory n.(server) n'.(server)
  /\ n'.(published) = n.(published) /\ n'.(forwarded) = n.(forwarded) /\ n'.(world) = n.(world)
  /\ vacant n'.(server) n.(client).(id).

(** What the directory answers to a login, where the gateway has one; without one every login has a place. *)
Definition directory_answer ctx (g : GatewayServer D) (now now' id : Z) (i : Identity) : Result OnlineAdmission :=
  match g.(online) with
  | None => Ok (Accepted None)
  | Some d =>
      let? policy := OnlineAdmissionPolicy_new ctx.(online_config).(config_duplicate_login)
        (GatewayOnlineConfig_max_sessions ctx.(online_config) i.(identity_region_id) i.(identity_realm_id)) in
      (@acquire D (Dir now') d
         {| Presence.session_id := id; gateway_id := ctx.(online_config).(config_gateway_id);
            Presence.identity := i; Presence.expires_at := now + ctx.(online_config).(lease_ttl) |} policy).1
  end.

(** The error with which an answer of the directory refuses the login. *)
Definition directory_refuses ctx (answer : Result OnlineAdmission) (e : Error) : Prop :=
  answer = Err e
  \/ (answer = Ok Duplicate /\ e = DuplicateSession)
  \/ (answer = Ok RealmFull
      /\ e = AdmissionDenied "realm_full" "the selected realm is at capacity"
               (saturating_millis ctx.(online_config).(full_retry_after))).

Definition admission_answer ctx n (i : Identity) : Result unit :=
  ConnectionContext_check_admission ctx
    {| stage := StageAuthenticated; admission_remote_ip := n.(client).(remote_ip); admission_identity := Some i |}.

Definition version_answer ctx (i : Identity) : Result unit :=
  match ctx.(account_versions) with Some policy => AccountVersionPolicy_check policy i | None => Ok () end.

Definition place_answer ctx (rd : Readings) n (i : Identity) : Result OnlineAdmission :=
  directory_answer ctx n.(server) rd.(at_lease) rd.(at_acquire) n.(client).(id) i.

Definition reservation (rd : Readings) n (claims : TicketClaims) : Result bool :=
  (reserve n.(replay) rd.(at_reserve) claims.(ticket_id) claims.(Tickets.expires_at)).1.

(** Every check of a login passes: the ticket is valid and carries [claims], the admission policy and the
    account version agree, the directory has a place, and the ticket was not used before. *)
Definition login_checks ctx (rd : Readings) n (ticket : string) (claims : TicketClaims) : Prop :=
  TicketService_validate ctx.(tickets) rd.(at_validate) ticket = Ok claims
  /\ admission_answer ctx n claims.(identity) = Ok ()
  /\ version_answer ctx claims.(identity) = Ok ()
  /\ (exists previous, place_answer ctx rd n claims.(identity) = Ok (Accepted previous))
  /\ reservation rd n claims = Ok true.

(** The first check that fails, and the error it gives. *)
Inductive login_refusal ctx (rd : Readings) n (ticket : string) : Error -> Prop :=
| refusal_ticket e : TicketService_validate ctx.(tickets) rd.(at_validate) ticket = Err e -> login_refusal ctx rd n ticket e
| refusal_admission claims e :
    TicketService_validate ctx.(tickets) rd.(at_validate) ticket = Ok claims ->
    admission_answer ctx n claims.(identity) = Err e -> login_refusal ctx rd n ticket e
| refusal_version claims e :
    TicketService_validate ctx.(tickets) rd.(at_validate) ticket = Ok claims ->
    admission_answer ctx n claims.(identity) = Ok () ->
    version_answer ctx claims.(identity) = Err e -> login_refusal ctx rd n ticket e
| refusal_place claims e :
    TicketService_validate ctx.(tickets) rd.(at_validate) ticket = Ok claims ->
    admission_answer ctx n claims.(identity) = Ok () -> version_answer ctx claims.(identity) = Ok () ->
    directory_refuses ctx (place_answer ctx rd n claims.(identity)) e -> login_refusal ctx rd n ticket e
| refusal_reservation claims previous e :
    TicketService_validate ctx.(tickets) rd.(at_validate) ticket = Ok claims ->
    admission_answer ctx n claims.(identity) = Ok () -> version_answer ctx claims.(identity) = Ok () ->
    place_answer ctx rd n claims.(identity) = Ok (Accepted previous) ->
    reservation rd n claims = Err e \/ (reservation rd n claims = Ok false /\ e = TicketReplayed) ->
    login_refusal ctx rd n ticket e.

(** A login fails a check or passes them all, not both. *)
Lemma refusal_not_checks ctx rd n ticket e claims :
  login_refusal ctx rd n ticket e -> ~ login_checks ctx rd n ticket claims.
Proof.
  intros Hr (Hval & Hadm & Hver & [p Hplace] & Hres).
  destruct Hr as [? ?|? ? ? ?|? ? ? ? ?|? ? ? ? ? Hd|? ? ? ? ? ? ? Hc]; simplify_eq; try congruence.
  - destruct Hd as [?|[[? _]|[? _]]]; congruence.
  - destruct Hc as [?|[? _]]; congruence.
Qed.

Lemma checks_unique ctx rd n ticket claims claims' :
  login_checks ctx rd n ticket claims -> login_checks ctx rd n ticket claims' -> claims = claims'.
Proof. intros [Hval _] [Hval' _]. congruence. Qed.

Lemma admit_online_answer ctx g now now' id i :
  match (ConnectionContext_admit_online Dir ctx g now now' id i).1 with
  | Ok _ => exists previous, directory_answer ctx g now now' id i = Ok (Accepted previous)
  | Err e => directory_refuses ctx (directory_answer ctx g now now' id i) e
  end.
Proof.
  unfold ConnectionContext_admit_online, directory_answer, ConnectionContext_lease, directory_refuses.
  destruct (online g) as [d|]; [|by eexists].
  destruct (OnlineAdmissionPolicy_new _ _) as [policy|]; [|by left]. cbn [ok_or].
  destruct (acquire d _ policy) as [[[previous| |]|e] d']; cbn; eauto 6.
Qed.

(** A login that passed every check. *)
Definition logged_in ctx (rd : Readings) n n' (ticket : string) (i : Identity) : Prop :=
  exists claims, login_checks ctx rd n ticket claims
    /\ claims.(identity) = i
    /\ n'.(server).(session_index).(identities) !! n.(client).(id) = Some i
    /\ authenticated <$> n'.(server).(handles) !! n.(client).(id) = Some true
    /\ forall d', n'.(server).(online) = Some d' -> leased d' n.(client).(id) i.

Lemma login_admit_spec ctx rd n ticket :
  vacant n.(server) n.(client).(id) ->
  match login_admit Dir ctx rd n ticket with
  | (Err e, n') => n'.(replay) = n.(replay) /\ refused n n' /\ login_refusal ctx rd n ticket e
  | (Ok (claims, previous), n') =>
      TicketService_validate ctx.(tickets) rd.(at_validate) ticket = Ok claims
      /\ admission_answer ctx n claims.(identity) = Ok () /\ version_answer ctx claims.(identity) = Ok ()
      /\ (exists p, place_answer ctx rd n claims.(identity) = Ok (Accepted p))
      /\ exists g, n' = with_server n g /\ same_but_directory n.(server) g
         /\ (forall d', g.(online) = Some d' -> leased d' n.(client).(id) claims.(identity))
         /\ forall now, vacant (ConnectionContext_remove_online Dir ctx g now n.(client).(id) claims.(identity)) n.(client).(id)
  end.
Proof.
  intros Hv. assert (Hsame : same_but_directory (server n) (server n)) by by split_and!.
  unfold login_admit. destruct (TicketService_validate _ _ _) as [claims|e] eqn:Hval.
  2: { split_and!; try done. by apply refusal_ticket. }
  fold (admission_answer ctx n claims.(identity)).
  destruct (admission_answer ctx n _) as [[]|e] eqn:Hadm.
  2: { split_and!; try done. by eapply refusal_admission. }
  fold (version_answer ctx claims.(identity)).
  destruct (version_answer ctx _) as [[]|e] eqn:Hver.
  2: { split_and!; try done. by eapply refusal_version. }
  pose proof (admit_online_spec ctx n.(server) rd.(at_lease) rd.(at_acquire) n.(client).(id) claims.(identity)) as Hon.
  pose proof (admit_online_answer ctx n.(server) rd.(at_lease) rd.(at_acquire) n.(client).(id) claims.(identity)) as Hans.
  destruct (ConnectionContext_admit_online _ _ _ _ _ _) as [[previous|e] g]; cbn [fst] in Hans.
  - destruct Hon as (Hg & Hl & Hrev). split_and!; [done..|].
    exists g. split_and!; [done|done..|]. intros now. by apply Hrev.
  - destruct Hon as (Hg & Hvac). split; [done|]. split.
    + split_and!; try done; cbn. by apply Hvac.
    + by eapply refusal_place.
Qed.

Lemma login_consume_spec ctx rd n claims :
  match login_consume Dir ctx rd n claims with
  | (Ok claims', n') =>
      claims' = claims /\ reservation rd n claims = Ok true
      /\ n'.(server) = n.(server) /\ n'.(client) = n.(client) /\ n'.(published) = n.(published)
      /\ n'.(forwarded) = n.(forwarded) /\ n'.(world) = n.(world)
  | (Err e, n') =>
      n'.(server) = ConnectionContext_remove_online Dir ctx n.(server) rd.(at_lease) n.(client).(id) claims.(identity)
      /\ n'.(client) = n.(client) /\ n'.(published) = n.(published)
      /\ n'.(forwarded) = n.(forwarded) /\ n'.(world) = n.(world)
      /\ (reservation rd n claims = Err e \/ (reservation rd n claims = Ok false /\ e = TicketReplayed))
  end.
Proof.
  unfold login_consume, VerifiedTicket_consume, reservation.
  destruct (reserve (replay n) _ _ _) as [[[]|e] store]; cbn; split_and!; auto.
Qed.

Lemma remove_online_same ctx g now id i : same_but_directory g (ConnectionContext_remove_online Dir ctx g now id i).
Proof.
  unfold ConnectionContext_remove_online, ConnectionContext_lease. destruct (online g) eqn:Hd; [|done].
  split_and!; [done..|]. cbn. rewrite Hd. split; eauto.
Qed.

Lemma same_but_directory_trans g g1 g2 :
  same_but_directory g g1 -> same_but_directory g1 g2 -> same_but_directory g g2.
Proof.
  intros (Hh & Hi & Ht & Ho) (Hh' & Hi' & Ht' & Ho'). split_and!; [congruence..|]. by rewrite Ho'.
Qed.

Lemma login_complete_spec ctx rd n claims previous :
  Identity_validate claims.(identity) = Ok () -> n.(client).(inner).(state) = Anonymous ->
  exists n', login_complete encode_to_vec ctx rd n claims previous = (Ok (), n')
    /\ Session_identity n'.(client) = Some claims.(identity) /\ n'.(client).(id) = n.(client).(id)
    /\ n'.(server).(session_index).(identities) !! n.(client).(id) = Some claims.(identity)
    /\ n'.(server).(online) = n.(server).(online)
    /\ (is_Some (n.(server).(handles) !! n.(client).(id)) ->
         authenticated <$> n'.(server).(handles) !! n.(client).(id) = Some true).
Proof.
  intros Hi Hst. unfold login_complete, Session_authenticate. rewrite Hi, Hst.
  rewrite bool_decide_eq_true_2 by done. cbn [negb]. cbv beta iota zeta.
  eexists. split; [done|].
  match goal with |- context [ConnectionContext_kick_previous _ _ ?m ?t ?ids ?i] =>
    destruct (kick_previous_keeps ctx m t ids i) as (-> & _ & _ & -> & -> & Ha) end.
  cbn [server client]. split_and!; [done|done| |done|].
  - unfold mark_authenticated. cbn [session_index]. rewrite insert_identities. by rewrite lookup_insert_eq.
  - intros [h Hh]. rewrite Ha. cbn. by rewrite lookup_alter_eq, Hh.
Qed.
(** What a login comes to. *)
Lemma login_cases ctx rd n ticket :
  n.(client).(inner).(state) = Anonymous -> Session_identity n.(client) = None ->
  is_Some (n.(server).(handles) !! n.(client).(id)) -> vacant n.(server) n.(client).(id) ->
  let '(out, n') := ConnectionContext_authenticate Dir encode_to_vec ctx rd n ticket in
  match Session_identity n'.(client) with
  | Some i => logged_in ctx rd n n' ticket i
  | None => exists e, out = Returned (Err e) /\ login_refusal ctx rd n ticket e /\ refused n n'
  end.
Proof.
  intros Hanonymous Hnone Hconnected Hvacant. unfold ConnectionContext_authenticate.
  pose proof (login_admit_spec ctx rd n ticket Hvacant) as Hadmit.
  destruct (login_admit Dir ctx rd n ticket) as [[[claims previous]|e] n1].
  2: { destruct Hadmit as (_ & Href & Hwhy). pose proof Href as [Hc _]. rewrite Hc, Hnone. by exists e. }
  destruct Hadmit as (Hval & Hadm & Hver & [place Hplace] & g & -> & Hg & Hleased & Hvac).
  pose proof (login_consume_spec ctx rd (with_server n g) claims) as Hcons.
  destruct (login_consume Dir ctx rd (with_server n g) claims) as [[claims'|e] n2].
  2: { destruct Hcons as (Hs & Hc & Hp & Hf & Hw & Hres). rewrite Hc. cbn [with_server client]. rewrite Hnone.
       exists e. split; [done|]. split; [by eapply refusal_reservation|]. split_and!; try done.
       - rewrite Hs. eapply same_but_directory_trans; [exact Hg|apply remove_online_same].
       - rewrite Hs. apply Hvac. }
  destruct Hcons as (-> & Hres & Hs & Hc & _). cbn [with_server client] in Hc.
  assert (Hst2 : n2.(client).(inner).(state) = Anonymous) by by rewrite Hc.
  destruct (login_complete_spec ctx rd n2 claims previous (validate_identity_ok _ _ _ _ Hval) Hst2)
    as (n3 & -> & Hid & Hid3 & Hix & Hon & Hau). rewrite Hc in *.
  assert (Hlogged : logged_in ctx rd n n3 ticket claims.(identity)).
  { exists claims. split; [split_and!; eauto|]. split_and!; try done.
    - apply Hau. rewrite Hs. cbn [with_server server]. destruct Hg as (-> & _). done.
    - intros d'. rewrite Hon, Hs. apply Hleased. }
  destruct (TicketService_issue_reconnect _ _ _ _) as [r|]; by rewrite Hid.
Qed.
End logins.

(** C2: A login authenticates the session exactly when every check passed.  For an anonymous, connected
    session that occupies no place in the directory, the session gets identity [i] if and only if the
    ticket is valid and names [i], the admission policy and the account version agree, the directory
    gives a place and the ticket was not used before.  It is then in the index under that identity, its
    handle is marked and it holds a lease.  Otherwise the answer is the error of the first check that
    failed, the session is still anonymous, the tables are as before, nothing was sent to other gateways
    or the world, and the session occupies no place in the directory. *)
Theorem login_outcome (Crypto : TicketCrypto) (Json : ClientJson) (R : Type) (Store : ReplayProtectionStore R)
  (D : Type) (Dir : Z -> OnlineDirectory D) (Laws : DirectoryLaws Dir) (W : Type)
  (encode_to_vec : SessionControl -> list Z) (ctx : ConnectionContext (W:=W)) (rd : Readings)
  (n : Node (R:=R) (D:=D) (W:=W)) (ticket : string)
  (Hanonymous : n.(client).(inner) .(state) = Anonymous) (Hnone : Session_identity n.(client) = None)
  (Hconnected : is_Some (n.(server).(handles) !! n.(client).(id)))
  (Hvacant : vacant Dir n.(server) n.(client).(id)) :
  let '(out, n') := ConnectionContext_authenticate Dir encode_to_vec ctx rd n ticket in
  (forall i, Session_identity n'.(client) = Some i
     <-> exists claims, login_checks Dir ctx rd n ticket claims /\ claims.(identity) = i)
  /\ match Session_identity n'.(client) with
     | Some i => logged_in Dir ctx rd n n' ticket i
     | None => exists e, out = Returned (Err e) /\ login_refusal Dir ctx rd n ticket e /\ refused Dir n n'
     end.
Proof.
  pose proof (login_cases Dir encode_to_vec ctx rd n ticket Hanonymous Hnone Hconnected Hvacant) as Hcases.
  destruct (ConnectionContext_authenticate Dir encode_to_vec ctx rd n ticket) as [out n'].
  split; [|exact Hcases]. intros i. destruct (Session_identity (client n')) as [i'|].
  - destruct Hcases as (claims & Hchecks & <- & _). split; [intros [= <-]; eauto|].
    intros (claims' & Hchecks' & <-). by rewrite (checks_unique Dir _ _ _ _ _ _ Hchecks Hchecks').
  - destruct Hcases as (e & _ & Href & _). split; [done|].
    intros (claims & Hchecks & _). by destruct (refusal_not_checks Dir _ _ _ _ _ _ Href Hchecks).
Qed.

(** ** A replayed ticket takes the place of the session it once opened *)

(** Replacing a session and giving the place back leaves the replaced session without one. *)
Lemma replaced_then_removed now d lease lease' s1 policy previous :
  policy.(duplicate_login) = KickExisting ->
  (purge now d).(single) !! user_key lease.(Presence.identity) = Some s1 -> s1 <> lease.(Presence.session_id) ->
  lease'.(Presence.session_id) = lease.(Presence.session_id) ->
  lease'.(gateway_id) = lease.(gateway_id) -> lease'.(Presence.identity) = lease.(Presence.identity) ->
  (MemoryOnlineDirectory_acquire now d lease policy).1 = Ok (Accepted previous) ->
  let d2 := (MemoryOnlineDirectory_unregister (MemoryOnlineDirectory_acquire now d lease policy).2 lease').2 in
  previous = Some s1
  /\ d2.(single) !! user_key lease.(Presence.identity) = None
  /\ s1 ∉ slots_of d2 (realm_key lease.(Presence.identity))
  /\ d2.(sessions) !! s1 = (purge now d).(sessions) !! s1.
Proof.
  intros Hkick Hs1 Hne Hid Hgw Hident. unfold MemoryOnlineDirectory_acquire, OnlineAdmissionPolicy_new.
  destruct (Identity_validate _) as [[]|]; [|done]. destruct (bool_decide (max_sessions policy = Some 0)); [done|].
  cbn [duplicate_login max_sessions]. rewrite Hkick, Hs1.
  destruct (Z.eqb_spec s1 (Presence.session_id lease)) as [|_]; [done|].
  rewrite (bool_decide_eq_false_2 (KickExisting = RejectNew)), (bool_decide_eq_true_2 (KickExisting = KickExisting)) by done.
  cbn [andb]. destruct (negb _ && _); [done|]. cbn [fst snd]. intros [= <-]. cbv zeta.
  set (st := purge now d) in *. unfold MemoryOnlineDirectory_unregister. rewrite Hid. cbn [sessions].
  rewrite lookup_insert_eq, Hgw, String.eqb_refl, Hident. cbn [snd single capacity sessions]. split_and!; [done|..].
  - rewrite lookup_insert_eq, bool_decide_eq_true_2 by done. by rewrite lookup_delete_eq.
  - unfold slots_of at 1. cbn [capacity]. rewrite lookup_alter_eq, lookup_insert_eq. cbn.
    case_bool_decide; set_solver.
  - rewrite lookup_delete_ne, lookup_insert_ne by done. done.
Qed.

(** A login that gets a place and whose ticket was used gives the place back. *)
Lemma replayed_login {R D W} `{!TicketCrypto, !ClientJson, !ReplayProtectionStore R} (Dir : Z -> OnlineDirectory D)
  (encode_to_vec : SessionControl -> list Z) (ctx : ConnectionContext (W:=W)) rd (n : Node (R:=R) (D:=D) (W:=W))
  ticket claims d previous :
  TicketService_validate ctx.(tickets) rd.(at_validate) ticket = Ok claims ->
  admission_answer ctx n claims.(identity) = Ok () -> version_answer ctx claims.(identity) = Ok () ->
  n.(server).(online) = Some d -> place_answer Dir ctx rd n claims.(identity) = Ok (Accepted previous) ->
  reservation rd n claims = Ok false ->
  exists policy, let lease := {| Presence.session_id := n.(client).(id);
      gateway_id := ctx.(online_config).(config_gateway_id); Presence.identity := claims.(identity);
      Presence.expires_at := rd.(at_lease) + ctx.(online_config).(lease_ttl) |} in
    policy.(duplicate_login) = ctx.(online_config).(config_duplicate_login)
    /\ (@acquire D (Dir rd.(at_acquire)) d lease policy).1 = Ok (Accepted previous)
    /\ let '(out, n') := ConnectionContext_authenticate Dir encode_to_vec ctx rd n ticket in
       out = Returned (Err TicketReplayed) /\ n'.(server).(handles) = n.(server).(handles)
       /\ n'.(server).(online)
          = Some (@unregister D (Dir rd.(at_lease)) (@acquire D (Dir rd.(at_acquire)) d lease policy).2 lease).2.
Proof.
  intros Hticket Hadm Hver Hd Hplace Hused. unfold place_answer, directory_answer in Hplace. rewrite Hd in Hplace.
  unfold ConnectionContext_authenticate, login_admit. rewrite Hticket. cbv zeta.
  fold (admission_answer ctx n claims.(identity)). rewrite Hadm. fold (version_answer ctx claims.(identity)). rewrite Hver.
  unfold ConnectionContext_admit_online, ConnectionContext_lease. rewrite Hd. cbv zeta.
  destruct (OnlineAdmissionPolicy_new _ _) as [policy|] eqn:Hpol; [|done]. exists policy. cbn [ok_or].
  split; [unfold OnlineAdmissionPolicy_new in Hpol; by case_match; simplify_eq/=|]. split; [done|].
  destruct (@acquire D (Dir (at_acquire rd)) d _ policy) as [answer d1]. cbn [fst] in Hplace. subst answer.
  cbv beta iota zeta. unfold login_consume, VerifiedTicket_consume. unfold reservation in Hused.
  cbn [with_server replay]. destruct (reserve (replay n) _ _ _) as [r store]. cbn [fst] in Hused. subst r. done.
Qed.

(** C40: A ticket that was already used evicts the session of its user.  On a gateway with the in-memory
    directory and the policy that replaces the existing session: when a ticket that has not expired is
    presented again, the admission policy and the account version let its user in, and the directory
    accepts the new session (the realm is within its limit), the answer is [TicketReplayed], but the
    directory has given the user's place to the refused session and then removed it: the session that was
    there keeps its connection and its lease, is not told, and no longer holds the place of its user or a
    slot of the realm. *)
Theorem replayed_ticket_evicts (Crypto : TicketCrypto) (Json : ClientJson) (R : Type)
  (Store : ReplayProtectionStore R) (W : Type) (encode_to_vec : SessionControl -> list Z)
  (ctx : ConnectionContext (W:=W)) (rd : Readings) (n : Node (R:=R) (D:=MemoryState) (W:=W)) (ticket : string)
  (claims : TicketClaims) (d : MemoryState) (first : Z)
  (Hticket : TicketService_validate ctx.(tickets) rd.(at_validate) ticket = Ok claims)
  (Hpolicy : ctx.(online_config).(config_duplicate_login) = KickExisting)
  (Hadmission : admission_answer ctx n claims.(identity) = Ok ())
  (Hversions : version_answer ctx claims.(identity) = Ok ())
  (Hdirectory : n.(server).(online) = Some d)
  (Hfirst : (purge rd.(at_acquire) d).(single) !! user_key claims.(identity) = Some first)
  (Hother : first <> n.(client).(id))
  (Hplace : exists previous,
     place_answer MemoryOnlineDirectory_directory ctx rd n claims.(identity) = Ok (Accepted previous))
  (Hused : reservation rd n claims = Ok false) :
  let '(out, n') := ConnectionContext_authenticate MemoryOnlineDirectory_directory encode_to_vec ctx rd n ticket in
  out = Returned (Err TicketReplayed)
  /\ n'.(server).(handles) = n.(server).(handles)
  /\ exists d', n'.(server).(online) = Some d'
     /\ d'.(sessions) !! first = (purge rd.(at_acquire) d).(sessions) !! first
     /\ d'.(single) !! user_key claims.(identity) = None
     /\ first ∉ slots_of d' (realm_key claims.(identity)).
Proof.
  destruct Hplace as [previous Hplace].
  destruct (replayed_login _ encode_to_vec _ _ _ _ _ _ _ Hticket Hadmission Hversions Hdirectory Hplace Hused)
    as (policy & Hkick & Hacq & Hout).
  destruct (ConnectionContext_authenticate _ _ _ _ _ _) as [out n']. destruct Hout as (-> & Hh & Hon).
  rewrite Hpolicy in Hkick. set (lease := {| Presence.session_id := id (client n) |}) in Hacq, Hon.
  destruct (replaced_then_removed rd.(at_acquire) d lease lease first policy previous Hkick Hfirst Hother
    eq_refl eq_refl eq_refl Hacq) as (_ & Hu & Hslots & Hl).
  split_and!; [done|done|]. eexists. split; [exact Hon|]. done.
Qed.

(** ** Concrete logins *)
Module LoginExamples.
Import HexCrypto.
#[local] Existing Instance hex_crypto.

#[local] Instance json : ClientJson := {|
  ticket_request_from_slice := fun l => if bool_decide (l = [1]) then Ok login_token else Err "unsupported";
  authenticate_response_to_vec := fun r => Ok [r.(response_session_id)];
  reconnect_response_to_vec := fun r => Ok [r.(expires_in_seconds)] |}.

Definition encoding (c : SessionControl) : list Z := [c.(action)].

Definition context : ConnectionContext (W:=unit) := {|
  tickets := accepting;
  online_config := {| config_gateway_id := "gateway-1"; lease_ttl := 30 * 1000000000;
    renew_interval := 10 * 1000000000; config_duplicate_login := KickExisting; realm_capacities := [];
    full_retry_after := 1000000000 |};
  admission := None; account_versions := None; session_control := None; push := None; ownership := None;
  interceptors := []; dispatch := fun _ _ w => (Ok [], w) |}.

(** The token is presented at second [t]. *)
Definition readings (t : Z) : Readings := {|
  at_validate := Some t; at_lease := t * 1000000000; at_acquire := t * 1000000000; at_reserve := Some t;
  at_session := t * 1000000000; at_issue := Some 1010; drawn_nonce := [8]; drawn_trace_id := "trace" |}.

(** Session [id] connects to the gateway. *)
Definition connect (g : GatewayServer MemoryState) (store : MemoryReplayProtectionStore) (id : Z) :
    Node (R:=MemoryReplayProtectionStore) (D:=MemoryState) (W:=unit) :=
  {| server := register_session g id 8; replay := store; client := Session_new 1000 id (V4 1);
     published := []; forwarded := []; world := tt |}.

Definition login (n : Node (R:=MemoryReplayProtectionStore) (D:=MemoryState) (W:=unit)) (t : Z) (ticket : string) :=
  ConnectionContext_authenticate (D:=MemoryState) MemoryOnlineDirectory_directory encoding context (readings t) n ticket.

Definition first_node := connect (gateway_init (Some MemoryState_default)) store0 21.
Definition after_first := (login first_node 1001 login_token).2.
Definition second_node := connect after_first.(server) after_first.(replay) 22.
Definition after_second := (login second_node 1002 login_token).2.
Definition third_node := connect after_second.(server) after_second.(replay) 23.
Definition after_third := (login third_node 1015 reconnect_token).2.

Lemma first_vacant : vacant MemoryOnlineDirectory_directory first_node.(server) first_node.(client).(id).
Proof.
  intros d [= <-] [[l Hl]|[[realm Hr]|[user Hu]]]; [done| |done]. unfold slots_of in Hr. cbn in Hr.
  rewrite lookup_empty in Hr. cbn in Hr. set_solver.
Qed.

Lemma login_outcome_witness :
  let '(out, n') := login first_node 1001 login_token in
  login_checks MemoryOnlineDirectory_directory context (readings 1001) first_node login_token login_claims
  /\ Session_identity n'.(client) = Some player
  /\ logged_in MemoryOnlineDirectory_directory context (readings 1001) first_node n' login_token player.
Proof.
  pose proof (login_outcome hex_crypto json MemoryReplayProtectionStore memory_replay_store MemoryState
    MemoryOnlineDirectory_directory memory_directory_laws unit encoding context (readings 1001) first_node login_token
    eq_refl eq_refl ltac:(vm_compute; eauto) first_vacant) as H.
  fold (login first_node 1001 login_token) in H. destruct (login first_node 1001 login_token) as [out n'].
  destruct H as [Hiff Hcases].
  assert (Hchecks : login_checks MemoryOnlineDirectory_directory context (readings 1001) first_node login_token login_claims).
  { unfold login_checks. split_and!; [vm_compute; reflexivity..| |vm_compute; reflexivity]. exists None. vm_compute. reflexivity. }
  assert (Hid : Session_identity n'.(client) = Some player) by (apply Hiff; by exists login_claims).
  rewrite Hid in Hcases. by split_and!.
Defined.

(** The second login of the same ticket is refused, and the refusal says why. *)
Example second_login_refused :
  login_refusal MemoryOnlineDirectory_directory context (readings 1002) second_node login_token TicketReplayed.
Proof.
  apply (refusal_reservation _ _ _ _ _ login_claims (Some 21)); [vm_compute; reflexivity..|].
  right. vm_compute. done.
Qed.

(** The first login succeeds. *)
Example first_login : Session_identity after_first.(client) = Some player.
Proof. vm_compute. reflexivity. Qed.

Definition directory_of (n : Node (R:=MemoryReplayProtectionStore) (D:=MemoryState) (W:=unit)) : MemoryState :=
  default MemoryState_default n.(server).(online).

(** A gateway that serves one realm, of one session, and knows the current version of every account. *)
Definition context_limited : ConnectionContext (W:=unit) := {|
  tickets := accepting;
  online_config := {| config_gateway_id := "gateway-1"; lease_ttl := 30 * 1000000000;
    renew_interval := 10 * 1000000000; config_duplicate_login := KickExisting;
    realm_capacities := [{| limit_region_id := 1; limit_realm_id := 1; limit_max_sessions := 1 |}];
    full_retry_after := 1000000000 |};
  admission := Some {| controller := fun r => Some (RealmAdmission_admits {| realms := {[(1, 1)]} |} r);
                       admission_fail_open := false |};
  account_versions := Some {| current_version := fun _ => Some (Ok (Some 1)); version_fail_open := false;
                              check_interval := 1000000000 |};
  session_control := None; push := None; ownership := None;
  interceptors := []; dispatch := fun _ _ w => (Ok [], w) |}.

Lemma replayed_ticket_evicts_witness :
  let '(out, n') := ConnectionContext_authenticate (D:=MemoryState) MemoryOnlineDirectory_directory encoding
                      context_limited (readings 1002) second_node login_token in
  out = Returned (Err TicketReplayed)
  /\ n'.(server).(handles) = second_node.(server).(handles)
  /\ exists d', n'.(server).(online) = Some d'
     /\ d'.(sessions) !! 21 = (purge (1002 * 1000000000) (directory_of after_first)).(sessions) !! 21
     /\ d'.(single) !! user_key player = None /\ 21 ∉ slots_of d' (realm_key player).
Proof.
  apply (replayed_ticket_evicts hex_crypto json MemoryReplayProtectionStore memory_replay_store unit encoding
    context_limited (readings 1002) second_node login_token login_claims (directory_of after_first) 21);
    [vm_compute; done..| |vm_compute; done]. exists (Some 21). vm_compute. reflexivity.
Defined.

(** After the replay the next login of the same user replaces nobody: two sessions of one user are
    connected and authenticated, and the first was not told. *)
Example two_sessions_after_replay :
  Session_identity after_third.(client) = Some player
  /\ sessions_of after_third.(server).(session_index) (identity_key player) = {[21; 23]}
  /\ disconnect <$> after_third.(server).(handles) !! 21 = Some false.
Proof. vm_compute. done. Qed.

(** Without the replay the first session is told. *)
Example one_session_without_replay :
  let n := (login (connect after_first.(server) after_first.(replay) 23) 1015 reconnect_token).2 in
  Session_identity n.(client) = Some player /\ disconnect <$> n.(server).(handles) !! 21 = Some true.
Proof. vm_compute. done. Qed.

End LoginExamples.
