(* ===== verification/GatewayLoop.v ===== *)
(** * The life of a connection: [crates/elura-gateway/src/connection.rs] ([ConnectionContext::serve]),
      [config.rs]

    The loop that serves one session: the events [tokio::select!] waits for, the limits on protocol
    violations and request rates, heartbeats, account-version checks, the requests themselves, and the
    cleanup when the loop ends.  The order of events is any order in which they are enabled.  A request
    runs to its end, or its future is dropped at one of its [await]s by the handler timeout or by a
    disconnection ([interrupted]).  Instants are nanoseconds; response and push queues are bounded
    channels whose writer may take frames at any time.  Statistics and observers are not modelled; a
    panicking handler ends the task and is not modelled further. *)

From stdpp Require Import pretty.
From S2P Require Import Prelude Bytes Float64 CoreError CredentialStores Identity GatewayLimits Presence Frame GatewaySessions Tickets Session GatewayConnection.

(** ** Configuration *)

Record RouteRateLimit : Type := { requests_per_second : Z; route_burst : Z }.

(** The limits and durations of [GatewayConfig]; the ticket key, the process settings and the routing are
    not needed here. *)
Record GatewayConfig : Type := {
  max_connections : Z;
  max_connections_per_ip : Z;
  config_max_payload : Z;
  request_rate : Z;
  request_burst : Z;
  inbound_byte_rate : Z;
  inbound_byte_burst : Z;
  ip_request_rate : Z;
  ip_request_burst : Z;
  max_rate_limit_violations : Z;
  max_protocol_violations : Z;
  route_rate_limits : gmap Z RouteRateLimit;
  inbound_queue : Z;
  response_queue : Z;
  push_queue : Z;
  idle_timeout : Z;
  authentication_timeout : Z;
  handler_timeout : Z;
  write_timeout : Z;
  heartbeat_interval : Z;
  shutdown_timeout : Z;
  readiness_timeout : Z;
  config_login_ttl : Z;
  config_reconnect_ttl : Z;
}.

Definition invalid {A} (message : string) : Result A := Err (InvalidConfig message).

Definition positive (value : Z) (name : string) : Result unit :=
  if value =? 0 then invalid (name +:+ " must be positive") else Ok ().

(** A sequence of checks, the first failure returned. *)
Fixpoint all_positive (l : list (string * Z)) : Result unit :=
  match l with
  | [] => Ok ()
  | (name, value) :: l => let? _ := positive value name in all_positive l
  end.

Fixpoint check_routes (l : list (Z * RouteRateLimit)) : Result unit :=
  match l with
  | [] => Ok ()
  | (route, limit) :: l =>
      if route =? 0 then invalid "route_rate_limits cannot contain route 0"
      else if (limit.(requests_per_second) =? 0) || (limit.(route_burst) =? 0) then
        invalid ("route_rate_limits[" +:+ pretty route +:+ "] must have a positive rate and burst")
      else check_routes l
  end.

(** [routing] is the outcome of [world_routing.validate()]. *)
Definition GatewayConfig_validate (self : GatewayConfig) (routing : Result unit) : Result unit :=
  let? _ := all_positive
    [("max_connections", self.(max_connections)); ("max_connections_per_ip", self.(max_connections_per_ip));
     ("max_payload", self.(config_max_payload)); ("request_rate", self.(request_rate));
     ("request_burst", self.(request_burst)); ("inbound_byte_rate", self.(inbound_byte_rate));
     ("inbound_byte_burst", self.(inbound_byte_burst));
     ("max_rate_limit_violations", self.(max_rate_limit_violations));
     ("max_protocol_violations", self.(max_protocol_violations)); ("inbound_queue", self.(inbound_queue));
     ("response_queue", self.(response_queue)); ("push_queue", self.(push_queue))]%string in
  let? minimum_burst := ok_or (checked_add usize_max self.(config_max_payload) HEADER_LEN)
                          (InvalidConfig "max_payload is too large") in
  if self.(inbound_byte_burst) <? minimum_burst then
    invalid "inbound_byte_burst must fit one maximum-sized frame"
  else if xorb (self.(ip_request_rate) =? 0) (self.(ip_request_burst) =? 0) then
    invalid "ip_request_rate and ip_request_burst must both be zero or both be positive"
  else
    let? _ := all_positive
      [("idle_timeout", self.(idle_timeout)); ("authentication_timeout", self.(authentication_timeout));
       ("handler_timeout", self.(handler_timeout)); ("write_timeout", self.(write_timeout));
       ("heartbeat_interval", self.(heartbeat_interval)); ("shutdown_timeout", self.(shutdown_timeout));
       ("readiness_timeout", self.(readiness_timeout))]%string in
    let? _ := check_routes (map_to_list self.(route_rate_limits)) in
    if self.(config_login_ttl) =? 0 then invalid "ticket.login_ttl must be positive"
    else if self.(config_reconnect_ttl) =? 0 then invalid "ticket.reconnect_ttl must be positive"
    else routing.

Definition GatewayConfig_default : GatewayConfig := {|
  max_connections := 10000; max_connections_per_ip := 100; config_max_payload := Z.shiftl 1 20;
  request_rate := 200; request_burst := 400; inbound_byte_rate := Z.shiftl 8 20;
  inbound_byte_burst := Z.shiftl 2 20; ip_request_rate := 2000; ip_request_burst := 4000;
  max_rate_limit_violations := 20; max_protocol_violations := 3;
  route_rate_limits := {[ROUTE_AUTHENTICATE := {| requests_per_second := 5; route_burst := 5 |}]};
  inbound_queue := 64; response_queue := 64; push_queue := 64; idle_timeout := 90 * 1000000000;
  authentication_timeout := 10 * 1000000000; handler_timeout := 5 * 1000000000;
  write_timeout := 10 * 1000000000; heartbeat_interval := 30 * 1000000000;
  shutdown_timeout := 10 * 1000000000; readiness_timeout := 2 * 1000000000;
  config_login_ttl := 60 * 1000000000; config_reconnect_ttl := 30 * 60 * 1000000000 |}.

(** ** The loop *)

Section serve.
Context `{!TicketCrypto, !ClientJson} {R : Type} `{!ReplayProtectionStore R}.
Context {D : Type} (Dir : Z -> OnlineDirectory D).
Context {W : Type} (encode_to_vec : SessionControl -> list Z).
(** [ErrorEnvelope::to_bytes] and the hash of the limiter per address. *)
Context (envelope_bytes : ErrorEnvelope -> list Z) (hash : IpAddr -> Z).

(** The local variables of [serve], the shared limiter and the rest of the gateway. *)
Record Connection : Type := {
  node : Node (R:=R) (D:=D) (W:=W);
  limiter : TokenBucket;
  byte_limiter : TokenBucket;
  route_limiters : gmap Z TokenBucket;
  ip_requests : option (KeyedRateLimiter IpAddr);
  rate_limit_violations : Z;
  rate_limit_notified : bool;
  protocol_violations : Z;
  authentication_deadline : Z;
  idle_deadline : Z;
  heartbeat_request_id : Z;
  pending_heartbeat : option Z;
  version_checked_at : option Z;
  lease_valid_until : option Z;
  responses : list Frame;
}.

Definition Connection_new (config : GatewayConfig) (n : Node (R:=R) (D:=D) (W:=W))
    (ip : option (KeyedRateLimiter IpAddr)) (now : Z) : Connection :=
  {| node := n;
     limiter := TokenBucket_new config.(request_rate) config.(request_burst) now;
     byte_limiter := TokenBucket_new config.(inbound_byte_rate) config.(inbound_byte_burst) now;
     route_limiters :=
       (fun l => TokenBucket_new l.(requests_per_second) l.(route_burst) now) <$> config.(route_rate_limits);
     ip_requests := ip; rate_limit_violations := 0; rate_limit_notified := false; protocol_violations := 0;
     authentication_deadline := now + config.(authentication_timeout);
     idle_deadline := now + config.(idle_timeout);
     heartbeat_request_id := u64_max; pending_heartbeat := None; version_checked_at := None;
     lease_valid_until := None; responses := [] |}.

Definition with_node (c : Connection) (n : Node (R:=R) (D:=D) (W:=W)) : Connection :=
  {| node := n; limiter := c.(limiter); byte_limiter := c.(byte_limiter); route_limiters := c.(route_limiters);
     ip_requests := c.(ip_requests); rate_limit_violations := c.(rate_limit_violations);
     rate_limit_notified := c.(rate_limit_notified); protocol_violations := c.(protocol_violations);
     authentication_deadline := c.(authentication_deadline); idle_deadline := c.(idle_deadline);
     heartbeat_request_id := c.(heartbeat_request_id); pending_heartbeat := c.(pending_heartbeat);
     version_checked_at := c.(version_checked_at); lease_valid_until := c.(lease_valid_until);
     responses := c.(responses) |}.

Definition with_responses (c : Connection) (l : list Frame) : Connection :=
  {| node := c.(node); limiter := c.(limiter); byte_limiter := c.(byte_limiter);
     route_limiters := c.(route_limiters); ip_requests := c.(ip_requests);
     rate_limit_violations := c.(rate_limit_violations); rate_limit_notified := c.(rate_limit_notified);
     protocol_violations := c.(protocol_violations); authentication_deadline := c.(authentication_deadline);
     idle_deadline := c.(idle_deadline); heartbeat_request_id := c.(heartbeat_request_id);
     pending_heartbeat := c.(pending_heartbeat); version_checked_at := c.(version_checked_at);
     lease_valid_until := c.(lease_valid_until); responses := l |}.

Definition with_protocol (c : Connection) (violations : Z) : Connection :=
  {| node := c.(node); limiter := c.(limiter); byte_limiter := c.(byte_limiter);
     route_limiters := c.(route_limiters); ip_requests := c.(ip_requests);
     rate_limit_violations := c.(rate_limit_violations); rate_limit_notified := c.(rate_limit_notified);
     protocol_violations := violations; authentication_deadline := c.(authentication_deadline);
     idle_deadline := c.(idle_deadline); heartbeat_request_id := c.(heartbeat_request_id);
     pending_heartbeat := c.(pending_heartbeat); version_checked_at := c.(version_checked_at);
     lease_valid_until := c.(lease_valid_until); responses := c.(responses) |}.

Definition with_rate (c : Connection) (violations : Z) (notified : bool) : Connection :=
  {| node := c.(node); limiter := c.(limiter); byte_limiter := c.(byte_limiter);
     route_limiters := c.(route_limiters); ip_requests := c.(ip_requests);
     rate_limit_violations := violations; rate_limit_notified := notified;
     protocol_violations := c.(protocol_violations); authentication_deadline := c.(authentication_deadline);
     idle_deadline := c.(idle_deadline); heartbeat_request_id := c.(heartbeat_request_id);
     pending_heartbeat := c.(pending_heartbeat); version_checked_at := c.(version_checked_at);
     lease_valid_until := c.(lease_valid_until); responses := c.(responses) |}.

Definition with_heartbeat (c : Connection) (next : Z) (pending : option Z) : Connection :=
  {| node := c.(node); limiter := c.(limiter); byte_limiter := c.(byte_limiter);
     route_limiters := c.(route_limiters); ip_requests := c.(ip_requests);
     rate_limit_violations := c.(rate_limit_violations); rate_limit_notified := c.(rate_limit_notified);
     protocol_violations := c.(protocol_violations); authentication_deadline := c.(authentication_deadline);
     idle_deadline := c.(idle_deadline); heartbeat_request_id := next; pending_heartbeat := pending;
     version_checked_at := c.(version_checked_at); lease_valid_until := c.(lease_valid_until);
     responses := c.(responses) |}.

Definition with_checks (c : Connection) (idle : Z) (version lease : option Z) : Connection :=
  {| node := c.(node); limiter := c.(limiter); byte_limiter := c.(byte_limiter);
     route_limiters := c.(route_limiters); ip_requests := c.(ip_requests);
     rate_limit_violations := c.(rate_limit_violations); rate_limit_notified := c.(rate_limit_notified);
     protocol_violations := c.(protocol_violations); authentication_deadline := c.(authentication_deadline);
     idle_deadline := idle; heartbeat_request_id := c.(heartbeat_request_id);
     pending_heartbeat := c.(pending_heartbeat); version_checked_at := version; lease_valid_until := lease;
     responses := c.(responses) |}.

(** [response_tx.try_send(frame).map_err(|_| Error::QueueFull)]; [open] is whether the writer lives. *)
Definition respond (config : GatewayConfig) (c : Connection) (open : bool) (f : Frame) : Result Connection :=
  if open && (len c.(responses) <? config.(response_queue)) then
    Ok (with_responses c (c.(responses) ++ [f]))
  else Err QueueFull.

Definition error_response (request : Frame) (error : Error) : Frame :=
  Frame_error request (envelope_bytes (ErrorEnvelope_from error)).

Definition lease_safety_deadline (ctx : ConnectionContext (W:=W)) (g : GatewayServer D) (now : Z) : option Z :=
  match g.(online) with
  | Some _ => Some (now + saturating_sub ctx.(online_config).(lease_ttl) ctx.(online_config).(renew_interval))
  | None => None
  end.

(** What is left of the connection: it goes on, or the loop ends with a result. *)
Inductive LoopResult : Type :=
| Continue (c : Connection)
| Break (r : Result unit) (c : Connection).

(** The [?] operator on a response inside the loop. *)
Definition or_break (c : Connection) (r : Result Connection) (k : Connection -> LoopResult) : LoopResult :=
  match r with Ok c' => k c' | Err e => Break (Err e) c end.

(** *** A frame that violates the protocol *)

Definition protocol_violation (config : GatewayConfig) (c : Connection) (open : bool) (frame : Frame) (error : Error) :
    LoopResult :=
  let c := with_protocol c (saturating_add u32_max c.(protocol_violations) 1) in
  let ended c :=
    if config.(max_protocol_violations) <=? c.(protocol_violations) then Break (Err error) c else Continue c in
  if bool_decide (frame.(Frame.kind) = Request) then
    or_break c (respond config c open (error_response frame error)) ended
  else ended c.

(** *** Rate limits *)

(** [u32::try_from(HEADER_LEN.saturating_add(len)).unwrap_or(u32::MAX)]. *)
Definition frame_bytes (frame : Frame) : Z := Z.min (saturating_add usize_max HEADER_LEN (len frame.(payload))) u32_max.

(** The request limiter is asked only when the route's limiter allows. *)
Definition rate_limits (c : Connection) (frame : Frame) (now : Z) : bool * Connection :=
  let '(route_allowed, routes) :=
    match c.(route_limiters) !! frame.(route) with
    | Some b => let '(allowed, b) := TokenBucket_allow b now in (allowed, <[frame.(route) := b]> c.(route_limiters))
    | None => (true, c.(route_limiters))
    end in
  let '(byte_allowed, bytes) := TokenBucket_allow_n c.(byte_limiter) (frame_bytes frame) now in
  let '(ip_allowed, ip) :=
    match c.(ip_requests) with
    | Some l =>
        let '(allowed, l) := KeyedRateLimiter_allow hash l c.(node).(client).(remote_ip) now in (allowed, Some l)
    | None => (true, None)
    end in
  let '(request_allowed, requests) :=
    if route_allowed then TokenBucket_allow c.(limiter) now else (true, c.(limiter)) in
  (route_allowed && request_allowed && byte_allowed && ip_allowed,
   {| node := c.(node); limiter := requests; byte_limiter := bytes; route_limiters := routes; ip_requests := ip;
      rate_limit_violations := c.(rate_limit_violations); rate_limit_notified := c.(rate_limit_notified);
      protocol_violations := c.(protocol_violations); authentication_deadline := c.(authentication_deadline);
      idle_deadline := c.(idle_deadline); heartbeat_request_id := c.(heartbeat_request_id);
      pending_heartbeat := c.(pending_heartbeat); version_checked_at := c.(version_checked_at);
      lease_valid_until := c.(lease_valid_until); responses := c.(responses) |}).

Definition rate_limited (config : GatewayConfig) (c : Connection) (open : bool) (frame : Frame) : LoopResult :=
  let c := with_rate c (saturating_add u32_max c.(rate_limit_violations) 1) c.(rate_limit_notified) in
  let ended c :=
    if config.(max_rate_limit_violations) <=? c.(rate_limit_violations) then Break (Err RateLimited) c
    else Continue c in
  if negb c.(rate_limit_notified) then
    or_break c (respond config c open (error_response frame RateLimited))
      (fun c => ended (with_rate c c.(rate_limit_violations) true))
  else ended c.

(** *** Account versions *)

(** The periodic check; a failure tells the client and ends the loop. *)
Definition version_check (ctx : ConnectionContext (W:=W)) (c : Connection) (now : Z) : LoopResult :=
  match Session_identity c.(node).(client), ctx.(account_versions) with
  | Some i, Some policy =>
      let due := match c.(version_checked_at) with
                 | Some checked => policy.(check_interval) <=? saturating_sub now checked
                 | None => true
                 end in
      if due then
        let c := with_checks c c.(idle_deadline) (Some now) c.(lease_valid_until) in
        match AccountVersionPolicy_check policy i with
        | Ok _ => Continue c
        | Err e =>
            let id := c.(node).(client).(id) in
            match c.(node).(server).(handles) !! id with
            | Some h =>
                let '(queued, h) := enqueue_session_control encode_to_vec h AccountVersionChanged
                  "account version changed or unavailable" in
                let c := with_node c (with_server c.(node) (set_handle c.(node).(server) id h)) in
                match queued with Ok _ => Break (Err e) c | Err queue_error => Break (Err queue_error) c end
            | None => Break (Err QueueFull) c
            end
        end
      else Continue c
  | _, _ => Continue c
  end.

(** *** The request *)

(** How the handler's future ended. *)
Inductive Handled : Type :=
| Finished (rd : Readings)
| TimedOut (n : Node (R:=R) (D:=D) (W:=W))
| Disconnected (n : Node (R:=R) (D:=D) (W:=W)).

(** Where a request can be dropped: before it did anything; at the [await] of the replay store, with or
    without the reservation made; while the login is announced; at the store of a reconnection; inside an
    application request. *)
Inductive interrupted (ctx : ConnectionContext (W:=W)) (rd : Readings) (n : Node (R:=R) (D:=D) (W:=W))
    (frame : Frame) : Node (R:=R) (D:=D) (W:=W) -> Prop :=
| interrupted_before : interrupted ctx rd n frame n
| interrupted_admitted ticket claims previous n' :
    frame.(route) = ROUTE_AUTHENTICATE -> Session_identity n.(client) = None ->
    ticket_request_from_slice frame.(payload) = Ok ticket ->
    login_admit Dir ctx rd n ticket = (Ok (claims, previous), n') ->
    interrupted ctx rd n frame n'
| interrupted_reserved ticket claims previous n1 store reserved :
    frame.(route) = ROUTE_AUTHENTICATE -> Session_identity n.(client) = None ->
    ticket_request_from_slice frame.(payload) = Ok ticket ->
    login_admit Dir ctx rd n ticket = (Ok (claims, previous), n1) ->
    VerifiedTicket_consume claims n1.(replay) rd.(at_reserve) = (reserved, store) ->
    interrupted ctx rd n frame
      {| server := n1.(server); replay := store; client := n1.(client); published := n1.(published);
         forwarded := n1.(forwarded); world := n1.(world) |}
| interrupted_announcing ticket claims previous told n1 n2 n' :
    frame.(route) = ROUTE_AUTHENTICATE -> Session_identity n.(client) = None ->
    ticket_request_from_slice frame.(payload) = Ok ticket ->
    login_admit Dir ctx rd n ticket = (Ok (claims, previous), n1) ->
    login_consume Dir ctx rd n1 claims = (Ok claims, n2) -> told `prefix_of` previous ->
    login_complete encode_to_vec ctx rd n2 claims told = (Ok (), n') ->
    interrupted ctx rd n frame n'
| interrupted_reconnecting claims store reserved :
    frame.(route) = ROUTE_RECONNECT -> is_Some (Session_identity n.(client)) ->
    VerifiedTicket_consume claims n.(replay) rd.(at_reserve) = (reserved, store) ->
    interrupted ctx rd n frame
      {| server := n.(server); replay := store; client := n.(client); published := n.(published);
         forwarded := n.(forwarded); world := n.(world) |}
| interrupted_application w :
    frame.(route) <> ROUTE_AUTHENTICATE -> is_Some (Session_identity n.(client)) ->
    interrupted ctx rd n frame
      {| server := n.(server); replay := n.(replay); client := n.(client); published := n.(published);
         forwarded := n.(forwarded); world := w |}.

(** [None] when the handler panics. *)
Definition run_request (config : GatewayConfig) (ctx : ConnectionContext (W:=W)) (c : Connection) (open : bool)
    (frame : Frame) (handled : Handled) (now : Z) : option LoopResult :=
  let was_authenticated := bool_decide (is_Some (Session_identity c.(node).(client))) in
  let answer (n : Node (R:=R) (D:=D) (W:=W)) (response : Frame) :=
    let c := with_node c n in
    or_break c (respond config c open response) (fun c =>
      Continue
        (if negb was_authenticated && bool_decide (is_Some (Session_identity n.(client))) then
           with_checks c c.(idle_deadline) (Some now) (lease_safety_deadline ctx n.(server) now)
         else c)) in
  match handled with
  | Disconnected n => Some (Break (Ok ()) (with_node c n))
  | TimedOut n => Some (answer n (error_response frame Timeout))
  | Finished rd =>
      match ConnectionContext_handle Dir encode_to_vec ctx rd c.(node) frame with
      | (Panicked, _) => None
      | (Returned (Ok payload), n) => Some (answer n (Frame_response frame payload))
      | (Returned (Err e), n) => Some (answer n (error_response frame e))
      end
  end.

(** *** A frame from the client *)

(** [session.touch()]. *)
Definition touched (n : Node (R:=R) (D:=D) (W:=W)) (now : Z) : Node (R:=R) (D:=D) (W:=W) :=
  {| server := n.(server); replay := n.(replay); client := Session_touch n.(client) now;
     published := n.(published); forwarded := n.(forwarded); world := n.(world) |}.

Definition frame_event (config : GatewayConfig) (ctx : ConnectionContext (W:=W)) (c : Connection) (open : bool)
    (frame : Frame) (now : Z) (handled : Handled) : option LoopResult :=
  match validate_client_frame frame (bool_decide (is_Some (Session_identity c.(node).(client)))) c.(pending_heartbeat) with
  | Err error => Some (protocol_violation config c open frame error)
  | Ok action =>
      let c := with_protocol c 0 in
      let c := with_checks c (now + config.(idle_timeout)) c.(version_checked_at) c.(lease_valid_until) in
      let c := with_node c (touched c.(node) now) in
      match action with
      | HeartbeatResponse => Some (Continue (with_heartbeat c c.(heartbeat_request_id) None))
      | ClientRequest =>
          let '(allowed, c) := rate_limits c frame now in
          if negb allowed then Some (rate_limited config c open frame)
          else
            let violations := saturating_sub c.(rate_limit_violations) 1 in
            let c := with_rate c violations (if violations =? 0 then false else c.(rate_limit_notified)) in
            match version_check ctx c now with
            | Break r c => Some (Break r c)
            | Continue c => run_request config ctx c open frame handled now
            end
      end
  end.

(** *** The other events *)

Definition heartbeat_event (config : GatewayConfig) (c : Connection) (open : bool) : LoopResult :=
  match c.(pending_heartbeat) with
  | Some _ => Continue c
  | None =>
      let request_id := c.(heartbeat_request_id) in
      let c := with_heartbeat c (Z.max (saturating_sub request_id 1) 1) None in
      match Frame_request ROUTE_HEARTBEAT request_id [] with
      | Err e => Break (Err e) c
      | Ok f =>
          or_break c (respond config c open f) (fun c =>
            Continue (with_heartbeat c c.(heartbeat_request_id) (Some request_id)))
      end
  end.

(** The directory answers the renewal at [at_renew]; the loop reads the clock at [now]. *)
Definition renewal_event (ctx : ConnectionContext (W:=W)) (c : Connection) (at_lease at_renew now : Z) : LoopResult :=
  match Session_identity c.(node).(client) with
  | None => Continue c
  | Some i =>
      let '(r, g) := ConnectionContext_renew_lease Dir ctx c.(node).(server) at_lease at_renew c.(node).(client).(id) i in
      let c := with_node c (with_server c.(node) g) in
      match r with
      | Ok _ => Continue (with_checks c c.(idle_deadline) c.(version_checked_at) (lease_safety_deadline ctx g now))
      | Err _ =>
          if match c.(lease_valid_until) with Some deadline => deadline <=? now | None => false end
          then Break (Err Unavailable) c else Continue c
      end
  end.

Inductive Event : Type :=
| EvDisconnect
| EvRenewal (at_lease at_renew now : Z)
| EvAuthenticationDeadline (now : Z)
| EvHeartbeat
| EvIdle (now : Z)
| EvInboundClosed
| EvInboundError (e : Error)
| EvFrame (frame : Frame) (now : Z) (handled : Handled)
| EvWrite.

(** When an event can happen. *)
Inductive enabled (ctx : ConnectionContext (W:=W)) (c : Connection) : Event -> Prop :=
| enabled_disconnect : enabled ctx c EvDisconnect
| enabled_renewal l r now : is_Some c.(node).(server).(online) -> enabled ctx c (EvRenewal l r now)
| enabled_authentication now :
    Session_identity c.(node).(client) = None -> c.(authentication_deadline) <= now ->
    enabled ctx c (EvAuthenticationDeadline now)
| enabled_heartbeat : enabled ctx c EvHeartbeat
| enabled_idle now : c.(idle_deadline) <= now -> enabled ctx c (EvIdle now)
| enabled_closed : enabled ctx c EvInboundClosed
| enabled_error e : enabled ctx c (EvInboundError e)
| enabled_finished frame now rd : enabled ctx c (EvFrame frame now (Finished rd))
| enabled_timed_out frame now rd n :
    interrupted ctx rd (touched c.(node) now) frame n ->
    enabled ctx c (EvFrame frame now (TimedOut n))
| enabled_disconnected frame now rd n :
    interrupted ctx rd (touched c.(node) now) frame n ->
    enabled ctx c (EvFrame frame now (Disconnected n))
| enabled_write : enabled ctx c EvWrite.

(** One turn of the loop; [None] when the handler panics.  [EvWrite] is the writer taking a response. *)
Definition loop_step (config : GatewayConfig) (ctx : ConnectionContext (W:=W)) (c : Connection) (open : bool)
    (e : Event) : option LoopResult :=
  match e with
  | EvDisconnect | EvInboundClosed => Some (Break (Ok ()) c)
  | EvRenewal at_lease at_renew now => Some (renewal_event ctx c at_lease at_renew now)
  | EvAuthenticationDeadline _ => Some (Break (Err Authentication) c)
  | EvHeartbeat => Some (heartbeat_event config c open)
  | EvIdle _ => Some (Break (Err Timeout) c)
  | EvInboundError e => Some (Break (Err e) c)
  | EvFrame frame now handled => frame_event config ctx c open frame now handled
  | EvWrite => Some (Continue (with_responses c (drop 1 c.(responses))))
  end.

(** *** Start and end of [serve] *)

(** The admission of a connection, before it is registered. *)
Definition serve_start (config : GatewayConfig) (ctx : ConnectionContext (W:=W)) (g : GatewayServer D) (replay : R)
    (w : W) (ip_requests : option (KeyedRateLimiter IpAddr)) (ip : IpAddr) (now_system new_v4 now : Z) :
    Result Connection :=
  let session := Session_new now_system new_v4 ip in
  let? _ := ConnectionContext_check_admission ctx
              {| stage := StageConnected; admission_remote_ip := ip; admission_identity := None |} in
  Ok (Connection_new config
        {| server := register_session g new_v4 config.(push_queue); replay := replay; client := session;
           published := []; forwarded := []; world := w |} ip_requests now).

(** The cleanup; [removed] is whether the removal from the directory, which is given 200 milliseconds, took
    effect. *)
Definition serve_end (ctx : ConnectionContext (W:=W)) (c : Connection) (now : Z) (removed : bool) :
    Node (R:=R) (D:=D) (W:=W) :=
  let n := c.(node) in
  let g :=
    match Session_identity n.(client) with
    | Some i => if removed then ConnectionContext_remove_online Dir ctx n.(server) now n.(client).(id) i else n.(server)
    | None => n.(server)
    end in
  {| server := unregister_session g n.(client).(id); replay := n.(replay);
     client := Session_close n.(client) now; published := n.(published); forwarded := n.(forwarded);
     world := n.(world) |}.
End serve.

(** ** Bounds of a connection *)

(** The widths of the fields used below. *)
Definition config_typed (config : GatewayConfig) : Prop :=
  0 <= config.(max_protocol_violations) <= u32_max /\ 0 <= config.(max_rate_limit_violations) <= u32_max
  /\ 0 <= config.(response_queue).

Lemma all_positive_ok l name value : all_positive l = Ok () -> (name, value) ∈ l -> value <> 0.
Proof.
  induction l as [|[n v] l IH]; intros Hall Hin; [by apply not_elem_of_nil in Hin|].
  cbn in Hall. unfold positive in Hall. destruct (Z.eqb_spec v 0) as [|Hv]; [done|].
  apply elem_of_cons in Hin as [[= -> ->]|Hin]; [done|]. by apply IH.
Qed.

Lemma config_limits config routing : config_typed config -> GatewayConfig_validate config routing = Ok () ->
  1 <= config.(max_protocol_violations) <= u32_max /\ 1 <= config.(max_rate_limit_violations) <= u32_max
  /\ 1 <= config.(response_queue).
Proof.
  intros (Hp & Hr & Hq). unfold GatewayConfig_validate.
  destruct (all_positive [("max_connections"%string, _); _; _; _; _; _; _; _; _; _; _; _]) as [[]|] eqn:Hall; [|done].
  intros _.
  pose proof (all_positive_ok _ "max_protocol_violations" config.(max_protocol_violations) Hall ltac:(set_solver)).
  pose proof (all_positive_ok _ "max_rate_limit_violations" config.(max_rate_limit_violations) Hall ltac:(set_solver)).
  pose proof (all_positive_ok _ "response_queue" config.(response_queue) Hall ltac:(set_solver)). lia.
Qed.

Section bounds.
Context `{!TicketCrypto, !ClientJson} {R : Type} `{!ReplayProtectionStore R}.
Context {D : Type} (Dir : Z -> OnlineDirectory D).
Context {W : Type} (encode_to_vec : SessionControl -> list Z).
Context (envelope_bytes : ErrorEnvelope -> list Z) (hash : IpAddr -> Z).
Context (config : GatewayConfig) (ctx : ConnectionContext (W:=W)).
Implicit Types c : Connection (R:=R) (D:=D) (W:=W).

Record loop_ok c : Prop := {
  ok_protocol : 0 <= c.(protocol_violations) < config.(max_protocol_violations);
  ok_rate : 0 <= c.(rate_limit_violations) < config.(max_rate_limit_violations);
  ok_responses : len c.(responses) <= config.(response_queue);
  ok_heartbeat : 1 <= c.(heartbeat_request_id) <= u64_max;
  ok_pending : forall r, c.(pending_heartbeat) = Some r -> 1 <= r <= u64_max;
}.

(** The counters and queues of the loop. *)
Definition counts c : Z * Z * list Frame * Z * option Z :=
  (c.(protocol_violations), c.(rate_limit_violations), c.(responses), c.(heartbeat_request_id), c.(pending_heartbeat)).

Lemma counts_ok c c' : counts c' = counts c -> loop_ok c -> loop_ok c'.
Proof. unfold counts. intros [= H1 H2 H3 H4 H5] [? ? ? ? ?]. split; rewrite ?H1, ?H2, ?H3, ?H4, ?H5; done. Qed.

Lemma respond_ok c open f c' :
  respond config c open f = Ok c' -> loop_ok c -> loop_ok c'
  /\ c' = with_responses c (c.(responses) ++ [f]).
Proof.
  unfold respond. destruct (_ && _) eqn:E; [|done]. breflect. intros [= <-] [? ? ? ? ?]. split; [|done].
  split; cbn [protocol_violations rate_limit_violations responses heartbeat_request_id pending_heartbeat with_responses];
    try done. rewrite len_app, len_cons, len_nil. lia.
Qed.

Context (Htyped : config_typed config) (Hlimits : 1 <= config.(max_protocol_violations) <= u32_max
  /\ 1 <= config.(max_rate_limit_violations) <= u32_max /\ 1 <= config.(response_queue)).

(** A result that keeps the bounds. *)
Definition result_ok (r : LoopResult (R:=R) (D:=D) (W:=W)) : Prop :=
  match r with Continue c => loop_ok c | Break _ _ => True end.

Lemma protocol_violation_ok c open frame error :
  loop_ok c -> result_ok (protocol_violation envelope_bytes config c open frame error).
Proof.
  intros Hc. unfold protocol_violation. cbv zeta.
  assert (Hv : saturating_add u32_max (protocol_violations c) 1 = protocol_violations c + 1).
  { destruct Hc. apply saturating_add_exact. lia. }
  rewrite Hv.
  assert (Hend : forall c', protocol_violations c' = protocol_violations c + 1 -> rate_limit_violations c' = rate_limit_violations c ->
    len (responses c') <= config.(response_queue) -> heartbeat_request_id c' = heartbeat_request_id c ->
    pending_heartbeat c' = pending_heartbeat c ->
    result_ok (if max_protocol_violations config <=? protocol_violations c' then Break (Err error) c' else Continue c')).
  { intros c' H1 H2 H3 H4 H5. destruct (Z.leb_spec (max_protocol_violations config) (protocol_violations c')); [done|].
    destruct Hc. split; rewrite ?H2, ?H4, ?H5; try done; lia. }
  destruct (bool_decide _).
  - unfold or_break, respond. destruct (_ && _) eqn:E; [|done]. breflect. apply Hend; try done.
    cbn [responses with_responses with_protocol] in *. rewrite len_app, len_cons, len_nil. lia.
  - apply Hend; try done. apply Hc.
Qed.

Lemma rate_limits_counts c frame now : counts (rate_limits hash c frame now).2 = counts c /\ (rate_limits hash c frame now).2.(node) = c.(node).
Proof. unfold rate_limits. repeat case_match; done. Qed.

Lemma rate_limited_ok c open frame : loop_ok c -> result_ok (rate_limited envelope_bytes config c open frame).
Proof.
  intros Hc. unfold rate_limited. cbv zeta.
  assert (Hv : saturating_add u32_max (rate_limit_violations c) 1 = rate_limit_violations c + 1).
  { destruct Hc. apply saturating_add_exact. lia. }
  rewrite Hv.
  assert (Hend : forall c', rate_limit_violations c' = rate_limit_violations c + 1 -> protocol_violations c' = protocol_violations c ->
    len (responses c') <= config.(response_queue) -> heartbeat_request_id c' = heartbeat_request_id c ->
    pending_heartbeat c' = pending_heartbeat c ->
    result_ok (if max_rate_limit_violations config <=? rate_limit_violations c' then Break (Err RateLimited) c' else Continue c')).
  { intros c' H1 H2 H3 H4 H5. destruct (Z.leb_spec (max_rate_limit_violations config) (rate_limit_violations c')); [done|].
    destruct Hc. split; rewrite ?H2, ?H4, ?H5; try done; lia. }
  destruct (negb _).
  - unfold or_break, respond. destruct (_ && _) eqn:E; [|done]. breflect. apply Hend; try done.
    cbn [responses with_responses with_rate] in *. rewrite len_app, len_cons, len_nil. lia.
  - apply Hend; try done. apply Hc.
Qed.

Lemma version_check_counts c now :
  match version_check encode_to_vec ctx c now with
  | Continue c' => counts c' = counts c /\ c'.(node) = c.(node)
  | Break _ c' => c'.(node).(client) = c.(node).(client) /\ c'.(node).(world) = c.(node).(world)
  end.
Proof.
  unfold version_check. destruct (Session_identity _) as [i|]; [|done].
  destruct (account_versions ctx) as [policy|]; [|done]. cbv zeta. destruct (if version_checked_at c then _ else _); [|done].
  destruct (AccountVersionPolicy_check policy i); [done|]. cbn [node with_checks].
  destruct (handles _ !! _) as [h|]; [|done]. destruct (enqueue_session_control _ _ _ _) as [[[]|] h']; done.
Qed.

Lemma run_request_ok c open frame handled now r :
  run_request Dir encode_to_vec envelope_bytes config ctx c open frame handled now = Some r ->
  loop_ok c -> result_ok r.
Proof.
  intros Hr Hc.
  assert (Hanswer : forall n f, result_ok
    (or_break (with_node c n) (respond config (with_node c n) open f) (fun c0 =>
      Continue (if negb (bool_decide (is_Some (Session_identity c.(node).(client))))
                   && bool_decide (is_Some (Session_identity n.(client)))
                then with_checks c0 c0.(idle_deadline) (Some now) (lease_safety_deadline ctx n.(server) now) else c0)))).
  { intros n f. unfold or_break. destruct (respond _ _ _ _) as [c'|] eqn:Hres; [|done].
    assert (Hn : loop_ok (with_node c n)) by by apply (counts_ok c).
    apply respond_ok in Hres as [Hok _]; [|done].
    destruct (_ && _); [|done]. by apply (counts_ok c'). }
  unfold run_request in Hr. cbv zeta in Hr. destruct handled as [rd|n|n].
  - destruct (ConnectionContext_handle _ _ _ _ _ _) as [[[p|e]|] n]; [|  |done]; injection Hr as <-; apply Hanswer.
  - injection Hr as <-. apply Hanswer.
  - by injection Hr as <-.
Qed.

Lemma frame_event_ok c open frame now handled r :
  frame_event Dir encode_to_vec envelope_bytes hash config ctx c open frame now handled = Some r ->
  loop_ok c -> result_ok r.
Proof.
  intros Hr Hc. unfold frame_event in Hr.
  destruct (validate_client_frame _ _ _) as [action|error].
  2: { injection Hr as <-. by apply protocol_violation_ok. }
  cbv zeta in Hr. set (c1 := with_node (with_checks _ _ _ _) _) in Hr.
  assert (Hc1 : loop_ok c1).
  { destruct Hc. split; try done. cbn. lia. }
  clearbody c1. destruct action.
  2: { injection Hr as <-. destruct Hc1. split; try done. }
  destruct (rate_limits_counts c1 frame now) as [Hcounts _].
  destruct (rate_limits hash c1 frame now) as [allowed c2]. cbn [snd] in Hcounts.
  assert (Hc2 : loop_ok c2) by by apply (counts_ok c1). clear Hcounts.
  destruct allowed; cbn [negb] in Hr.
  2: { injection Hr as <-. by apply rate_limited_ok. }
  set (c3 := with_rate c2 _ _) in Hr.
  assert (Hc3 : loop_ok c3).
  { destruct Hc2. split; try done. cbn. unfold saturating_sub. lia. }
  clearbody c3. pose proof (version_check_counts c3 now) as Hver.
  destruct (version_check encode_to_vec ctx c3 now) as [c4|r4 c4]; [|by injection Hr as <-].
  destruct Hver as [Hcounts _]. eapply run_request_ok; [exact Hr|]. by apply (counts_ok c3).
Qed.

Lemma heartbeat_event_ok c open : loop_ok c -> result_ok (heartbeat_event config c open).
Proof.
  intros Hc. unfold heartbeat_event. destruct (pending_heartbeat c) eqn:Hp; [done|]. cbv zeta.
  destruct (Frame_request _ _ _) as [f|]; [|done]. unfold or_break.
  destruct (respond _ _ _ _) as [c'|] eqn:Hres; [|done].
  apply respond_ok in Hres as [Hok ->].
  - destruct Hok, Hc. split; try done. cbn. by intros r [= <-].
  - destruct Hc. split; try done. cbn. unfold saturating_sub. lia.
Qed.

Lemma renewal_event_ok c l r now : loop_ok c -> result_ok (renewal_event Dir ctx c l r now).
Proof.
  intros Hc. unfold renewal_event. destruct (Session_identity _) as [i|]; [|done].
  destruct (ConnectionContext_renew_lease _ _ _ _ _ _ _) as [[[]|] g]; cbn zeta.
  - by apply (counts_ok c).
  - destruct (match _ with Some _ => _ | None => _ end); [done|]. by apply (counts_ok c).
Qed.

Lemma loop_step_ok c open e r :
  loop_step Dir encode_to_vec envelope_bytes hash config ctx c open e = Some r -> loop_ok c -> result_ok r.
Proof.
  intros Hr Hc. destruct e; cbn [loop_step] in Hr; try (by injection Hr as <-).
  - injection Hr as <-. by apply renewal_event_ok.
  - injection Hr as <-. by apply heartbeat_event_ok.
  - by eapply frame_event_ok.
  - injection Hr as <-. destruct Hc. split; try done. cbn. unfold len in *. rewrite length_drop. lia.
Qed.
End bounds.

(** ** Runs of a connection *)

Section runs.
Context `{!TicketCrypto, !ClientJson} {R : Type} `{!ReplayProtectionStore R}.
Context {D : Type} (Dir : Z -> OnlineDirectory D).
Context {W : Type} (encode_to_vec : SessionControl -> list Z).
Context (envelope_bytes : ErrorEnvelope -> list Z) (hash : IpAddr -> Z).
Context (config : GatewayConfig) (ctx : ConnectionContext (W:=W)).
Implicit Types (c : Connection (R:=R) (D:=D) (W:=W)) (n : Node (R:=R) (D:=D) (W:=W)).

(** Turns of the loop that go on, and anything the rest of the gateway does in between: other sessions
    change the tables, the stores and the world, never the session of this connection. *)
Inductive serving c0 : Connection (R:=R) (D:=D) (W:=W) -> Prop :=
| serving_start : serving c0 c0
| serving_turn c c' open e :
    serving c0 c -> enabled Dir encode_to_vec ctx c e ->
    loop_step Dir encode_to_vec envelope_bytes hash config ctx c open e = Some (Continue c') -> serving c0 c'
| serving_others c n ip :
    serving c0 c -> n.(client) = c.(node).(client) ->
    serving c0 (with_node
      {| node := c.(node); limiter := c.(limiter); byte_limiter := c.(byte_limiter);
         route_limiters := c.(route_limiters); ip_requests := ip;
         rate_limit_violations := c.(rate_limit_violations); rate_limit_notified := c.(rate_limit_notified);
         protocol_violations := c.(protocol_violations); authentication_deadline := c.(authentication_deadline);
         idle_deadline := c.(idle_deadline); heartbeat_request_id := c.(heartbeat_request_id);
         pending_heartbeat := c.(pending_heartbeat); version_checked_at := c.(version_checked_at);
         lease_valid_until := c.(lease_valid_until); responses := c.(responses) |} n).

(** *** What a turn does to the session *)

(** The session stays what it was, or a login set the identity of a ticket its service accepted. *)
Definition identity_kept (s s' : Session) : Prop :=
  s'.(id) = s.(id)
  /\ (Session_identity s' = Session_identity s
      \/ (Session_identity s = None /\ exists clock ticket claims,
            TicketService_validate ctx.(tickets) clock ticket = Ok claims
            /\ Session_identity s' = Some claims.(identity))).

Lemma login_admit_client rd n ticket : (login_admit Dir ctx rd n ticket).2.(client) = n.(client)
  /\ (login_admit Dir ctx rd n ticket).2.(world) = n.(world).
Proof. unfold login_admit. repeat case_match; simplify_eq/=; done. Qed.

Lemma login_admit_valid rd n ticket claims previous n' :
  login_admit Dir ctx rd n ticket = (Ok (claims, previous), n') ->
  TicketService_validate ctx.(tickets) rd.(at_validate) ticket = Ok claims.
Proof. unfold login_admit. intros H1. repeat case_match; simplify_eq/=; done. Qed.

Lemma login_consume_client rd n claims :
  (login_consume Dir ctx rd n claims).2.(client) = n.(client)
  /\ (login_consume Dir ctx rd n claims).2.(world) = n.(world)
  /\ forall claims', (login_consume Dir ctx rd n claims).1 = Ok claims' -> claims' = claims.
Proof.
  pose proof (login_consume_spec Dir ctx rd n claims) as Hs.
  destruct (login_consume Dir ctx rd n claims) as [[claims'|] n']; cbn; naive_solver.
Qed.

Lemma login_complete_client rd n claims previous :
  let '(r, n') := login_complete encode_to_vec ctx rd n claims previous in
  n'.(world) = n.(world)
  /\ match r with
     | Ok _ => n'.(client).(id) = n.(client).(id) /\ Session_identity n'.(client) = Some claims.(identity)
     | Err _ => n'.(client) = n.(client)
     end.
Proof.
  unfold login_complete, Session_authenticate. destruct (Identity_validate _) as [[]|]; [|done].
  destruct (negb _); [done|]. cbv beta iota zeta.
  match goal with |- context [ConnectionContext_kick_previous _ _ ?m ?t ?ids ?i] =>
    destruct (kick_previous_keeps encode_to_vec ctx m t ids i) as (-> & _ & -> & _) end. done.
Qed.

Lemma authenticate_client rd n ticket :
  Session_identity n.(client) = None ->
  let n' := (ConnectionContext_authenticate Dir encode_to_vec ctx rd n ticket).2 in
  identity_kept n.(client) n'.(client) /\ n'.(world) = n.(world).
Proof.
  intros Hnone. unfold ConnectionContext_authenticate.
  destruct (login_admit_client rd n ticket) as [Hc Hw]. pose proof (login_admit_valid rd n ticket) as Hval.
  destruct (login_admit Dir ctx rd n ticket) as [[[claims previous]|e] n1]; cbn [snd] in *.
  2: { rewrite Hc. split; [by split; [|left]|done]. }
  destruct (login_consume_client rd n1 claims) as (Hc2 & Hw2 & Hcl).
  destruct (login_consume Dir ctx rd n1 claims) as [[claims'|e] n2]; cbn [fst snd] in *.
  2: { rewrite Hc2, Hc. split; [by split; [|left]|congruence]. }
  rewrite (Hcl claims' eq_refl) in *. pose proof (login_complete_client rd n2 claims previous) as Hcomp.
  destruct (login_complete _ _ _ _ _ _) as [[[]|e] n3]; cbn [fst snd] in *.
  2: { destruct Hcomp as [Hw3 ->]. rewrite Hc2, Hc. split; [by split; [|left]|congruence]. }
  destruct Hcomp as (Hw3 & Hid & Hident).
  assert (Hkept : identity_kept n.(client) n3.(client)).
  { split; [congruence|]. right. split; [done|]. exists rd.(at_validate), ticket, claims.
    split; [by eapply Hval|done]. }
  destruct (TicketService_issue_reconnect _ _ _ _); (split; [done|]); cbn [snd]; congruence.
Qed.

Lemma reconnect_client rd n ticket :
  let n' := (ConnectionContext_reconnect ctx rd n ticket).2 in
  n'.(client) = n.(client) /\ n'.(world) = n.(world).
Proof. unfold ConnectionContext_reconnect. repeat case_match; simplify_eq/=; done. Qed.

Lemma application_client rd n frame :
  let n' := (application_request ctx rd n frame).2 in
  n'.(client) = n.(client) /\ (Session_identity n.(client) = None -> n'.(world) = n.(world)).
Proof.
  unfold application_request. destruct (Session_identity (client n)) as [i|]; [|done]. cbn [ok_or].
  destruct (resolve_ownership ctx i) as [owner|]; [|done]. cbv zeta.
  destruct (run_interceptors _ _ _ _ _) as [r w]. done.
Qed.

(** A handler keeps the session but for a login, and an anonymous session never reaches the world. *)
Lemma handle_client rd n frame :
  let n' := (ConnectionContext_handle Dir encode_to_vec ctx rd n frame).2 in
  identity_kept n.(client) n'.(client) /\ (Session_identity n.(client) = None -> n'.(world) = n.(world)).
Proof.
  assert (Hrefl : identity_kept n.(client) n.(client)) by by split; [|left].
  unfold ConnectionContext_handle. destruct (route frame =? ROUTE_AUTHENTICATE).
  { case_bool_decide as Hid; [done|]. apply eq_None_not_Some in Hid.
    destruct (ticket_request_from_slice _); [|done]. destruct (authenticate_client rd n a Hid) as [? ?]. by split. }
  destruct (route frame =? ROUTE_HEARTBEAT); [done|]. destruct (route frame =? ROUTE_RECONNECT).
  { destruct (ticket_request_from_slice _); [|done]. destruct (reconnect_client rd n a) as [-> ->]. done. }
  destruct (application_client rd n frame) as [Hc Hw]. destruct (application_request ctx rd n frame) as [r n'].
  cbn in *. rewrite Hc. done.
Qed.

Lemma interrupted_client rd n frame n' :
  interrupted Dir encode_to_vec ctx rd n frame n' ->
  identity_kept n.(client) n'.(client) /\ (Session_identity n.(client) = None -> n'.(world) = n.(world)).
Proof.
  assert (Hrefl : identity_kept n.(client) n.(client)) by by split; [|left].
  intros [|ticket claims previous n1 Hr Hnone Hreq Hadmit|ticket claims previous n1 store reserved Hr Hnone Hreq Hadmit Hcons
         |ticket claims previous told n1 n2 n3 Hr Hnone Hreq Hadmit Hcons Htold Hcomp|claims store reserved Hr Hid Hcons
         |w Hr Hid]; try (by split).
  - destruct (login_admit_client rd n ticket) as [Hc Hw]. rewrite Hadmit in Hc, Hw. cbn in *. by rewrite Hc.
  - destruct (login_admit_client rd n ticket) as [Hc Hw]. rewrite Hadmit in Hc, Hw. cbn in *. by rewrite Hc.
  - destruct (login_admit_client rd n ticket) as [Hc Hw]. rewrite Hadmit in Hc, Hw. cbn in *.
    destruct (login_consume_client rd n1 claims) as (Hc2 & Hw2 & _). rewrite Hcons in Hc2, Hw2. cbn in *.
    pose proof (login_complete_client rd n2 claims told) as Hl. rewrite Hcomp in Hl. destruct Hl as (Hw3 & Hid & Hident).
    split; [|congruence]. split; [congruence|]. right. split; [done|]. exists rd.(at_validate), ticket, claims.
    split; [by eapply login_admit_valid|done].
  - split; [done|]. intros Hnone. rewrite Hnone in Hid. by destruct Hid.
Qed.

(** The connection after a turn. *)
Definition after (r : LoopResult (R:=R) (D:=D) (W:=W)) : Connection (R:=R) (D:=D) (W:=W) :=
  match r with Continue c => c | Break _ c => c end.

Definition turn_keeps c c' : Prop :=
  identity_kept c.(node).(client) c'.(node).(client)
  /\ (Session_identity c.(node).(client) = None -> c'.(node).(world) = c.(node).(world)).

Lemma turn_keeps_same c c' : c'.(node).(client) = c.(node).(client) -> c'.(node).(world) = c.(node).(world) -> turn_keeps c c'.
Proof. intros Hc Hw. split; [|done]. rewrite Hc. by split; [|left]. Qed.

Lemma or_break_node c r k :
  (forall c', r = Ok c' -> c'.(node) = c.(node) /\ (after (k c')).(node) = c.(node)) ->
  (after (or_break c r k)).(node) = c.(node).
Proof. intros Hk. unfold or_break. destruct r as [c'|]; [|done]. by destruct (Hk c' eq_refl). Qed.

Lemma respond_node c open f c' : respond config c open f = Ok c' -> c'.(node) = c.(node).
Proof. unfold respond. destruct (_ && _); [|done]. by intros [= <-]. Qed.

Lemma protocol_violation_node c open frame error :
  (after (protocol_violation envelope_bytes config c open frame error)).(node) = c.(node).
Proof.
  unfold protocol_violation. cbv zeta. destruct (bool_decide _).
  - set (c1 := with_protocol c _). change (node c) with (node c1). apply or_break_node.
    intros c' Hc'%respond_node. split; [done|]. by destruct (_ <=? _).
  - by destruct (_ <=? _).
Qed.

Lemma rate_limited_node c open frame :
  (after (rate_limited envelope_bytes config c open frame)).(node) = c.(node).
Proof.
  unfold rate_limited. cbv zeta. destruct (negb _).
  - set (c1 := with_rate c _ _). change (node c) with (node c1). apply or_break_node.
    intros c' Hc'%respond_node. split; [done|]. by destruct (_ <=? _).
  - by destruct (_ <=? _).
Qed.

Lemma heartbeat_event_node c open : (after (heartbeat_event config c open)).(node) = c.(node).
Proof.
  unfold heartbeat_event. destruct (pending_heartbeat c); [done|]. cbv zeta.
  destruct (Frame_request _ _ _); [|done]. set (c1 := with_heartbeat c _ _). change (node c) with (node c1).
  apply or_break_node. intros c' Hc'%respond_node. by split.
Qed.

Lemma run_request_node c open frame handled now r :
  run_request Dir encode_to_vec envelope_bytes config ctx c open frame handled now = Some r ->
  match handled with
  | Finished rd => (after r).(node) = (ConnectionContext_handle Dir encode_to_vec ctx rd c.(node) frame).2
  | TimedOut n | Disconnected n => (after r).(node) = n
  end.
Proof.
  assert (Hanswer : forall n f, (after
    (or_break (with_node c n) (respond config (with_node c n) open f) (fun c0 =>
      Continue (if negb (bool_decide (is_Some (Session_identity c.(node).(client))))
                   && bool_decide (is_Some (Session_identity n.(client)))
                then with_checks c0 c0.(idle_deadline) (Some now) (lease_safety_deadline ctx n.(server) now) else c0)))).(node) = n).
  { intros n f. change n with (with_node c n).(node) at 5. apply or_break_node.
    intros c' Hc'%respond_node. split; [done|]. by destruct (_ && _). }
  unfold run_request. cbv zeta. destruct handled as [rd|n|n].
  - destruct (ConnectionContext_handle _ _ _ _ _ _) as [[[p|e]|] n]; intros [= <-]; apply Hanswer.
  - intros [= <-]. apply Hanswer.
  - by intros [= <-].
Qed.

Lemma frame_event_keeps c open frame now handled r :
  enabled Dir encode_to_vec ctx c (EvFrame frame now handled) ->
  frame_event Dir encode_to_vec envelope_bytes hash config ctx c open frame now handled = Some r ->
  turn_keeps c (after r).
Proof.
  intros Hen. unfold frame_event. destruct (validate_client_frame _ _ _) as [action|error].
  2: { intros [= <-]. apply turn_keeps_same; by rewrite protocol_violation_node. }
  cbv zeta. set (c1 := with_node (with_checks _ _ _ _) _).
  assert (H1 : node c1 = touched (node c) now) by done. clearbody c1.
  destruct action; [|intros [= <-]; split; cbn; rewrite H1; [by split; [|left]|done]].
  destruct (rate_limits_counts hash c1 frame now) as [_ H2].
  destruct (rate_limits hash c1 frame now) as [allowed c2]. cbn [snd] in H2.
  destruct allowed; cbn [negb].
  2: { intros [= <-]. split; rewrite rate_limited_node, H2, H1; [by split; [|left]|done]. }
  set (c3 := with_rate c2 _ _). assert (H3 : node c3 = touched (node c) now) by (cbn; by rewrite H2). clearbody c3.
  pose proof (version_check_counts encode_to_vec ctx c3 now) as Hver.
  destruct (version_check encode_to_vec ctx c3 now) as [c4|r4 c4].
  2: { intros [= <-]. destruct Hver as [Hc Hw]. rewrite H3 in Hc, Hw. split; cbn [after]; [rewrite Hc; by split; [|left]|done]. }
  destruct Hver as [_ Hver]. rewrite H3 in Hver. intros Hr%run_request_node.
  assert (Htouch : forall n', identity_kept (touched c.(node) now).(client) n'.(client)
      /\ (Session_identity (touched c.(node) now).(client) = None -> n'.(world) = (touched c.(node) now).(world)) ->
      (after r).(node) = n' -> turn_keeps c (after r)).
  { intros n' [Hk Hw] Hn. split; by rewrite Hn. }
  inversion Hen; subst; eapply Htouch; try exact Hr.
  - rewrite Hver. apply handle_client.
  - by eapply interrupted_client.
  - by eapply interrupted_client.
Qed.

Lemma loop_step_keeps c open e r :
  enabled Dir encode_to_vec ctx c e ->
  loop_step Dir encode_to_vec envelope_bytes hash config ctx c open e = Some r -> turn_keeps c (after r).
Proof.
  intros Hen. destruct e; cbn [loop_step]; try (intros [= <-]; by apply turn_keeps_same).
  - intros [= <-]. unfold renewal_event. destruct (Session_identity _) as [i|] eqn:Hi; [|by apply turn_keeps_same].
    destruct (ConnectionContext_renew_lease _ _ _ _ _ _ _) as [[[]|] g]; [by apply turn_keeps_same|].
    destruct (match _ with Some _ => _ | None => _ end); by apply turn_keeps_same.
  - intros [= <-]. apply turn_keeps_same; by rewrite heartbeat_event_node.
  - by apply frame_event_keeps.
Qed.

Lemma serving_identity c0 c : serving c0 c ->
  c.(node).(client).(id) = c0.(node).(client).(id)
  /\ forall i, Session_identity c0.(node).(client) = Some i -> Session_identity c.(node).(client) = Some i.
Proof.
  induction 1 as [|c c' open e Hs [Hid IH] Hen Hstep|c n ip Hs [Hid IH] Hc]; [done| |].
  - apply loop_step_keeps in Hstep as [[Hid' Hident] _]; [|done]. cbn [after] in *. split; [congruence|].
    intros i Hi. specialize (IH i Hi). destruct Hident as [->|[Hnone _]]; [done|congruence].
  - cbn. rewrite Hc. done.
Qed.

Lemma serving_ok c0 c :
  config_typed config ->
  1 <= config.(max_protocol_violations) <= u32_max /\ 1 <= config.(max_rate_limit_violations) <= u32_max
    /\ 1 <= config.(response_queue) ->
  serving c0 c -> loop_ok config c0 -> loop_ok config c.
Proof.
  intros Ht Hl Hs Hc0. induction Hs as [|c c' open e Hs IH Hen Hstep|c n ip Hs IH Hc]; [done| |].
  - eapply loop_step_ok in Hstep; eauto.
  - destruct IH. by split.
Qed.
End runs.

(** The limits of a connection hold for as long as it is served.  With a valid configuration, through
    any order of frames, heartbeats, renewals, interrupted requests and activity of other sessions: a
    connection that goes on has fewer consecutive protocol violations and fewer rate-limit violations
    than the configured limits, never queues more responses than configured, its heartbeat identifiers
    are non-zero, and an identity it once got never changes. *)
Theorem connection_limits_hold (Crypto : TicketCrypto) (Json : ClientJson) (R : Type) (Store : ReplayProtectionStore R)
  (D : Type) (Dir : Z -> OnlineDirectory D) (W : Type) (encode_to_vec : SessionControl -> list Z)
  (envelope_bytes : ErrorEnvelope -> list Z) (hash : IpAddr -> Z) (config : GatewayConfig)
  (ctx : ConnectionContext (W:=W)) (routing : Result unit) (g : GatewayServer D) (store : R) (w : W)
  (ips : option (KeyedRateLimiter IpAddr)) (ip : IpAddr) (now_system new_v4 now : Z)
  (c0 c c' : Connection (R:=R) (D:=D) (W:=W))
  (Htyped : config_typed config) (Hvalid : GatewayConfig_validate config routing = Ok ())
  (Hstart : serve_start config ctx g store w ips ip now_system new_v4 now = Ok c0)
  (Hserving : serving Dir encode_to_vec envelope_bytes hash config ctx c0 c)
  (Hlater : serving Dir encode_to_vec envelope_bytes hash config ctx c c') :
  loop_ok config c
  /\ (forall i, Session_identity c.(node).(client) = Some i -> Session_identity c'.(node).(client) = Some i).
Proof.
  pose proof (config_limits config routing Htyped Hvalid) as Hl. split.
  - eapply serving_ok; [done|done|exact Hserving|]. revert Hstart. unfold serve_start.
    destruct (ConnectionContext_check_admission _ _); [|done]. intros [= <-].
    split; cbn; try (unfold len; cbn; unfold u64_max); try lia. done.
  - by eapply serving_identity.
Qed.

(** C22: An anonymous session does not reach the world.  Whatever an unauthenticated client sends, and
    however its requests are interrupted, a turn of its connection leaves the world as it was, and the
    session is still anonymous afterwards or has the identity of a ticket the service accepted. *)
Theorem anonymous_cannot_reach_world (Crypto : TicketCrypto) (Json : ClientJson) (R : Type)
  (Store : ReplayProtectionStore R) (D : Type) (Dir : Z -> OnlineDirectory D) (W : Type)
  (encode_to_vec : SessionControl -> list Z) (envelope_bytes : ErrorEnvelope -> list Z) (hash : IpAddr -> Z)
  (config : GatewayConfig) (ctx : ConnectionContext (W:=W)) (c : Connection (R:=R) (D:=D) (W:=W))
  (open : bool) (e : Event) (r : LoopResult)
  (Hanonymous : Session_identity c.(node).(client) = None)
  (Henabled : enabled Dir encode_to_vec ctx c e)
  (Hstep : loop_step Dir encode_to_vec envelope_bytes hash config ctx c open e = Some r) :
  (after r).(node).(world) = c.(node).(world)
  /\ (Session_identity (after r).(node).(client) = None
      \/ exists clock ticket claims, TicketService_validate ctx.(tickets) clock ticket = Ok claims
           /\ Session_identity (after r).(node).(client) = Some claims.(identity)).
Proof.
  destruct (loop_step_keeps Dir encode_to_vec envelope_bytes hash config ctx c open e r Henabled Hstep) as [[_ Hid] Hw].
  split; [by apply Hw|]. destruct Hid as [->|[_ Hlogin]]; [by left|by right].
Qed.


(** ** Violations end a connection *)

Section flood.
Context `{!TicketCrypto, !ClientJson} {R : Type} `{!ReplayProtectionStore R}.
Context {D : Type} (Dir : Z -> OnlineDirectory D).
Context {W : Type} (encode_to_vec : SessionControl -> list Z).
Context (envelope_bytes : ErrorEnvelope -> list Z) (hash : IpAddr -> Z).
Context (config : GatewayConfig) (ctx : ConnectionContext (W:=W)).
Implicit Types (c : Connection (R:=R) (D:=D) (W:=W)).

(** A frame as it arrives: with the moment, whether the writer lives and how a request would end. *)
Record Arrival : Type := {
  arrived : Frame;
  arrived_at : Z;
  writer_open : bool;
  arrived_handled : Handled (R:=R) (D:=D) (W:=W);
}.

(** Consecutive frames, until the loop ends. *)
Fixpoint feed c (l : list Arrival) : option LoopResult :=
  match l with
  | [] => Some (Continue c)
  | a :: l =>
      match loop_step Dir encode_to_vec envelope_bytes hash config ctx c a.(writer_open)
              (EvFrame a.(arrived) a.(arrived_at) a.(arrived_handled)) with
      | Some (Continue c) => feed c l
      | r => r
      end
  end.

(** The protocol does not allow the frame in the state of the session. *)
Definition violates c (f : Frame) : Prop :=
  is_ok (validate_client_frame f (bool_decide (is_Some (Session_identity c.(node).(client)))) c.(pending_heartbeat)) = false.

Lemma violation_counts c open f e c' : loop_ok config c -> config.(max_protocol_violations) <= u32_max ->
  protocol_violation envelope_bytes config c open f e = Continue c' ->
  c'.(node) = c.(node) /\ c'.(pending_heartbeat) = c.(pending_heartbeat)
  /\ c'.(protocol_violations) = c.(protocol_violations) + 1.
Proof.
  intros Hc Hmax. unfold protocol_violation. cbv zeta.
  rewrite saturating_add_exact by (destruct Hc; lia).
  destruct (bool_decide _); [unfold or_break, respond; destruct (_ && _); [|done]|];
    (destruct (_ <=? _); [done|]; by intros [= <-]).
Qed.

Lemma violation_ends c open f e : 0 <= c.(protocol_violations) -> config.(max_protocol_violations) <= u32_max ->
  config.(max_protocol_violations) <= c.(protocol_violations) + 1 ->
  exists error c', protocol_violation envelope_bytes config c open f e = Break (Err error) c'.
Proof.
  intros Hnn Hu Hmax. unfold protocol_violation. cbv zeta.
  assert (Hend : forall c', protocol_violations c' = saturating_add u32_max (protocol_violations c) 1 ->
    (max_protocol_violations config <=? protocol_violations c') = true).
  { intros c' ->. apply Z.leb_le. unfold saturating_add. lia. }
  destruct (bool_decide _).
  - unfold or_break, respond. destruct (_ && _); [|by eauto]. rewrite Hend by done. by eauto.
  - rewrite Hend by done. by eauto.
Qed.

Lemma feed_violations l : forall c,
  1 <= config.(max_protocol_violations) <= u32_max /\ 1 <= config.(max_rate_limit_violations) <= u32_max
    /\ 1 <= config.(response_queue) ->
  loop_ok config c -> Forall (fun a => violates c a.(arrived)) l ->
  config.(max_protocol_violations) <= c.(protocol_violations) + len l ->
  exists e c', feed c l = Some (Break (Err e) c').
Proof.
  induction l as [|a l IH]; intros c Hl Hc Hall Hlen.
  { destruct Hc. rewrite len_nil in Hlen. lia. }
  apply Forall_cons in Hall as [Ha Hall]. cbn [feed loop_step]. unfold frame_event.
  unfold violates in Ha at 1. destruct (validate_client_frame _ _ _) as [|error]; [done|].
  destruct (protocol_violation envelope_bytes config c (writer_open a) (arrived a) error) as [c1|[[]|e] c1] eqn:Hv.
  - pose proof (violation_counts _ _ _ _ _ Hc ltac:(lia) Hv) as (Hn & Hp & Hpv).
    pose proof (protocol_violation_ok envelope_bytes config Hl c (writer_open a) (arrived a) error Hc) as Hok.
    rewrite Hv in Hok. apply (IH c1); [done|exact Hok| |rewrite Hpv; rewrite len_cons in Hlen; lia].
    eapply Forall_impl; [exact Hall|]. intros a' Ha'. unfold violates in *. by rewrite Hn, Hp.
  - exfalso. revert Hv. unfold protocol_violation, or_break. cbv zeta. repeat case_match; done.
  - eauto.
Qed.
End flood.

(** A client that violates the protocol is disconnected.  In any state of a served connection, as many
    consecutive frames that the protocol does not allow as the configured limit end the connection with an
    error, at the latest at the last of them. *)
Theorem violations_end_connection (Crypto : TicketCrypto) (Json : ClientJson) (R : Type)
  (Store : ReplayProtectionStore R) (D : Type) (Dir : Z -> OnlineDirectory D) (W : Type)
  (encode_to_vec : SessionControl -> list Z) (envelope_bytes : ErrorEnvelope -> list Z) (hash : IpAddr -> Z)
  (config : GatewayConfig) (ctx : ConnectionContext (W:=W)) (routing : Result unit)
  (c : Connection (R:=R) (D:=D) (W:=W)) (l : list Arrival)
  (Htyped : config_typed config) (Hvalid : GatewayConfig_validate config routing = Ok ())
  (Hserved : loop_ok config c) (Hbad : Forall (fun a => violates c a.(arrived)) l)
  (Hmany : config.(max_protocol_violations) <= len l) :
  exists e c', feed Dir encode_to_vec envelope_bytes hash config ctx c l = Some (Break (Err e) c').
Proof.
  apply feed_violations; [by eapply config_limits|done|done|]. destruct Hserved. lia.
Qed.

(** ** An interrupted login keeps its place *)

(** The loop ends without an error only when the request was dropped. *)
Lemma disconnected_node `{!TicketCrypto, !ClientJson} {R} `{!ReplayProtectionStore R} {D} (Dir : Z -> OnlineDirectory D)
  {W} encode_to_vec envelope_bytes hash config (ctx : ConnectionContext (W:=W))
  (c c' : Connection (R:=R) (D:=D) (W:=W)) open frame now n :
  loop_step Dir encode_to_vec envelope_bytes hash config ctx c open (EvFrame frame now (Disconnected n))
  = Some (Break (Ok ()) c') -> c'.(node) = n.
Proof.
  cbn [loop_step]. unfold frame_event. destruct (validate_client_frame _ _ _) as [action|error].
  2: { unfold protocol_violation, or_break. cbv zeta. repeat case_match; done. }
  cbv zeta. destruct action; [|done]. destruct (rate_limits hash _ frame now) as [[] c2]; cbn [negb].
  2: { unfold rate_limited, or_break. cbv zeta. repeat case_match; done. }
  destruct (version_check _ _ _ _) as [c4|r4 c4] eqn:Hv.
  { cbn. by intros [= <-]. }
  intros [= -> ->]. exfalso. revert Hv. unfold version_check. cbv zeta. repeat case_match; done.
Qed.

(** A login that is interrupted while the ticket is being consumed keeps its place in the directory.
    The session is anonymous, so the cleanup at the end of the connection does not remove the lease: the
    connection is gone from the tables and the directory still has the user online with it. *)
Theorem interrupted_login_keeps_place (Crypto : TicketCrypto) (Json : ClientJson) (R : Type)
  (Store : ReplayProtectionStore R) (D : Type) (Dir : Z -> OnlineDirectory D) (Laws : DirectoryLaws Dir) (W : Type)
  (encode_to_vec : SessionControl -> list Z) (envelope_bytes : ErrorEnvelope -> list Z) (hash : IpAddr -> Z)
  (config : GatewayConfig) (ctx : ConnectionContext (W:=W)) (c c' : Connection (R:=R) (D:=D) (W:=W))
  (rd : Readings) (frame : Frame) (ticket : string) (claims : TicketClaims) (previous : list Z)
  (n : Node (R:=R) (D:=D) (W:=W)) (open : bool) (now later : Z)
  (Hanonymous : Session_identity c.(node).(client) = None) (Honline : is_Some c.(node).(server).(online))
  (Hroute : frame.(route) = ROUTE_AUTHENTICATE) (Hrequest : ticket_request_from_slice frame.(payload) = Ok ticket)
  (Hadmit : login_admit Dir ctx rd (touched c.(node) now) ticket = (Ok (claims, previous), n))
  (Hended : loop_step Dir encode_to_vec envelope_bytes hash config ctx c open (EvFrame frame now (Disconnected n))
            = Some (Break (Ok ()) c')) :
  enabled Dir encode_to_vec ctx c (EvFrame frame now (Disconnected n))
  /\ let n' := serve_end Dir ctx c' later true in
     n'.(server).(handles) !! c.(node).(client).(id) = None
     /\ n'.(server).(session_index).(identities) !! c.(node).(client).(id) = None
     /\ exists d', n'.(server).(online) = Some d' /\ leased d' c.(node).(client).(id) claims.(identity).
Proof.
  apply disconnected_node in Hended as Hhandled.
  split; [by eapply enabled_disconnected, interrupted_admitted|].
  destruct (login_admit_client Dir ctx rd (touched (node c) now) ticket) as [Hclient _].
  rewrite Hadmit in Hclient. cbn [snd touched client] in Hclient.
  assert (Hnone : Session_identity n.(client) = None) by by rewrite Hclient.
  assert (Hid : n.(client).(id) = c.(node).(client).(id)) by by rewrite Hclient.
  cbv zeta. unfold serve_end. rewrite Hhandled, Hnone. cbn [server unregister_session handles session_index online].
  rewrite Hid, remove_identities, !lookup_delete_eq. split_and!; [done|done|].
  unfold login_admit in Hadmit. destruct (TicketService_validate _ _ _) as [cl|]; [|done].
  destruct (ConnectionContext_check_admission _ _); [|done].
  destruct (match account_versions ctx with Some _ => _ | None => _ end); [|done].
  pose proof (admit_online_spec Dir ctx (server (touched (node c) now)) (at_lease rd) (at_acquire rd)
    (id (client (touched (node c) now))) (identity cl)) as Hon.
  destruct (ConnectionContext_admit_online _ _ _ _ _ _ _) as [[prev|] g]; [|done].
  injection Hadmit as <- <- <-. destruct Hon as ((_ & _ & _ & Hsome) & Hleased & _).
  cbn [with_server server]. destruct (proj2 Hsome Honline) as [d' Hd']. exists d'. split; [done|]. by apply Hleased.
Qed.

(** ** Concrete connections *)
Module LoopExamples.
Import HexCrypto LoginExamples.
#[local] Existing Instance hex_crypto.
#[local] Existing Instance json.

Definition envelope (e : ErrorEnvelope) : list Z := [string_len e.(CoreError.code)].
Definition hash_ip (ip : IpAddr) : Z := match ip with V4 b | V6 b => b end.
Definition config : GatewayConfig := GatewayConfig_default.

(** The default configuration is valid. *)
Example default_config_valid : GatewayConfig_validate config (Ok ()) = Ok ().
Proof. vm_compute. reflexivity. Qed.

Definition ConnectionExample : Type := Connection (R:=MemoryReplayProtectionStore) (D:=MemoryState) (W:=unit).

Definition start : Result ConnectionExample :=
  serve_start config context (gateway_init (Some MemoryState_default)) store0 tt
    (Some (KeyedRateLimiter_new 2000 4000)) (V4 7) 1000 21 (1001 * 1000000000).

Definition served : ConnectionExample :=
  Connection_new config
    {| server := register_session (gateway_init (Some MemoryState_default)) 21 64; replay := store0;
       client := Session_new 1000 21 (V4 7); published := []; forwarded := []; world := tt |}
    (Some (KeyedRateLimiter_new 2000 4000)) (1001 * 1000000000).

Definition step (c : ConnectionExample) (e : Event) : option LoopResult :=
  loop_step MemoryOnlineDirectory_directory encoding envelope hash_ip config context c true e.

Definition continued (r : option (LoopResult (R:=MemoryReplayProtectionStore) (D:=MemoryState) (W:=unit))) : ConnectionExample :=
  match r with Some (Continue c) => c | Some (Break _ c) => c | None => served end.

Definition beaten : ConnectionExample := continued (step served EvHeartbeat).

Definition login_frame : Frame :=
  {| Frame.kind := Request; flags := 0; route := ROUTE_AUTHENTICATE; request_id := 5; sequence := 0; payload := [1] |}.
Definition push_frame_in : Frame :=
  {| Frame.kind := Push; flags := 0; route := 200; request_id := 0; sequence := 0; payload := [] |}.

Definition logged : option LoopResult :=
  step served (EvFrame login_frame (1002 * 1000000000) (Finished (readings 1002))).

(** The login frame authenticates the session and answers it. *)
Example login_frame_authenticates :
  match logged with
  | Some (Continue c) => Session_identity c.(node).(client) = Some player
      /\ (Frame.kind <$> c.(responses)) = [Response]
  | _ => False
  end.
Proof. vm_compute. done. Qed.

Lemma connection_limits_hold_witness :
  loop_ok config beaten
  /\ (forall i, Session_identity beaten.(node).(client) = Some i -> Session_identity beaten.(node).(client) = Some i).
Proof.
  apply (connection_limits_hold hex_crypto json MemoryReplayProtectionStore memory_replay_store MemoryState
    MemoryOnlineDirectory_directory unit encoding envelope hash_ip config context (Ok ())
    (gateway_init (Some MemoryState_default)) store0 tt (Some (KeyedRateLimiter_new 2000 4000)) (V4 7) 1000 21
    (1001 * 1000000000) served beaten beaten).
  - vm_compute. repeat split; discriminate.
  - exact default_config_valid.
  - reflexivity.
  - apply (serving_turn _ _ _ _ _ _ served served beaten true EvHeartbeat); [apply serving_start|apply enabled_heartbeat|].
    reflexivity.
  - apply serving_start.
Defined.

Lemma anonymous_cannot_reach_world_witness :
  exists r, logged = Some r /\ (after r).(node).(world) = tt
    /\ (Session_identity (after r).(node).(client) = None
        \/ exists clock ticket claims, TicketService_validate context.(tickets) clock ticket = Ok claims
             /\ Session_identity (after r).(node).(client) = Some claims.(identity)).
Proof.
  destruct logged as [r|] eqn:Hr.
  - exists r. split; [reflexivity|].
    apply (anonymous_cannot_reach_world hex_crypto json MemoryReplayProtectionStore memory_replay_store MemoryState
      MemoryOnlineDirectory_directory unit encoding envelope hash_ip config context served true
      (EvFrame login_frame (1002 * 1000000000) (Finished (readings 1002))) r).
    + reflexivity.
    + apply enabled_finished.
    + exact Hr.
  - exfalso. vm_compute in Hr. discriminate Hr.
Defined.

Lemma violations_end_connection_witness :
  let a := {| arrived := push_frame_in; arrived_at := 0; writer_open := true;
              arrived_handled := Finished (R:=MemoryReplayProtectionStore) (D:=MemoryState) (W:=unit) (readings 1002) |} in
  exists e c', feed MemoryOnlineDirectory_directory encoding envelope hash_ip config context beaten [a; a; a]
    = Some (Break (Err e) c').
Proof.
  intros a. apply (violations_end_connection hex_crypto json MemoryReplayProtectionStore memory_replay_store
    MemoryState MemoryOnlineDirectory_directory unit encoding envelope hash_ip config context (Ok ()) beaten [a; a; a]).
  - vm_compute. repeat split; discriminate.
  - exact default_config_valid.
  - split.
    + vm_compute. split; [discriminate|reflexivity].
    + vm_compute. split; [discriminate|reflexivity].
    + vm_compute. discriminate.
    + vm_compute. split; discriminate.
    + change (pending_heartbeat beaten) with (Some u64_max). intros r [= <-]. vm_compute. split; discriminate.
  - repeat constructor.
  - vm_compute. discriminate.
Defined.

(** The login of [served] stopped at the replay store. *)
Definition stopped := (login_admit MemoryOnlineDirectory_directory context (readings 1002)
  (touched served.(node) (1002 * 1000000000)) login_token).2.
Definition dropped : ConnectionExample :=
  continued (step served (EvFrame login_frame (1002 * 1000000000) (Disconnected stopped))).

Lemma interrupted_login_keeps_place_witness :
  enabled MemoryOnlineDirectory_directory encoding context served
    (EvFrame login_frame (1002 * 1000000000) (Disconnected stopped))
  /\ let n' := serve_end MemoryOnlineDirectory_directory context dropped 0 true in
     n'.(server).(handles) !! 21 = None
     /\ n'.(server).(session_index).(identities) !! 21 = None
     /\ exists d', n'.(server).(online) = Some d'
          /\ leased (Dir:=MemoryOnlineDirectory_directory) d' 21 login_claims.(identity).
Proof.
  apply (interrupted_login_keeps_place hex_crypto json MemoryReplayProtectionStore memory_replay_store MemoryState
    MemoryOnlineDirectory_directory memory_directory_laws unit encoding envelope hash_ip config context served dropped
    (readings 1002) login_frame login_token login_claims [] stopped true (1002 * 1000000000) 0).
  - reflexivity.
  - vm_compute. eauto.
  - reflexivity.
  - vm_compute. reflexivity.
  - vm_compute. reflexivity.
  - vm_compute. reflexivity.
Defined.

End LoopExamples.
