(* ===== verification/Protection.v ===== *)
(** * Backend protection: [crates/elura-gateway/src/protection.rs]

    The concurrency limit and circuit breaker in front of a backend.  An [execute] is three steps, between
    which others run: admission ([acquire], at the moment its wait for a slot ends), completion
    ([complete]) and the drop of the permit; a cancelled call skips the completion.  The semaphore is
    the number of slots taken; clock readings, in nanoseconds, are arguments. *)

From S2P Require Import Prelude CoreError.

Record ProtectionConfig : Type := {
  max_concurrent : Z;
  queue_timeout : Z;
  failure_threshold : Z;
  open_timeout : Z;
  half_open_max : Z;
}.

Definition ProtectionConfig_default : ProtectionConfig :=
  {| max_concurrent := 1024; queue_timeout := 10000000; failure_threshold := 5;
     open_timeout := 5000000000; half_open_max := 1 |}.

Inductive CircuitState : Type := Closed | Open | HalfOpen.

#[export] Instance CircuitState_eq_dec : EqDecision CircuitState.
Proof. solve_decision. Defined.

Record ProtectionStats : Type := {
  stats_active : Z;
  stats_accepted : Z;
  stats_rejected_concurrency : Z;
  stats_rejected_circuit : Z;
  transient_failures : Z;
  stats_opened : Z;
  stats_circuit : CircuitState;
}.

Record Circuit : Type := { state : CircuitState; fails : Z; until : option Z; half : Z }.

Record BackendProtector : Type := {
  config : ProtectionConfig;
  taken : Z;
  circuit : Circuit;
  active : Z;
  accepted : Z;
  rejected_concurrency : Z;
  rejected_circuit : Z;
  failures : Z;
  opened : Z;
}.

Record Permit : Type := { probe : bool }.

Definition BackendProtector_new (config : ProtectionConfig) : Result BackendProtector :=
  if (config.(max_concurrent) =? 0) || (config.(failure_threshold) =? 0) || (config.(open_timeout) =? 0)
     || (config.(half_open_max) =? 0) then
    Err (InvalidConfig "backend protection")
  else
    Ok {| config := config; taken := 0;
          circuit := {| state := Closed; fails := 0; until := None; half := 0 |};
          active := 0; accepted := 0; rejected_concurrency := 0; rejected_circuit := 0; failures := 0;
          opened := 0 |}.

Definition set_circuit (self : BackendProtector) (c : Circuit) : BackendProtector :=
  {| config := self.(config); taken := self.(taken); circuit := c; active := self.(active);
     accepted := self.(accepted); rejected_concurrency := self.(rejected_concurrency);
     rejected_circuit := self.(rejected_circuit); failures := self.(failures); opened := self.(opened) |}.

(** The admission decision under the circuit's mutex: whether the call may go, and whether as a probe. *)
Definition admission (cfg : ProtectionConfig) (c : Circuit) (now : Z) : bool * bool * Circuit :=
  let c :=
    if bool_decide (c.(state) = Open) && match c.(until) with Some v => v <=? now | None => false end then
      {| state := HalfOpen; fails := c.(fails); until := c.(until); half := 0 |}
    else c in
  if bool_decide (c.(state) = HalfOpen) && (c.(half) <? cfg.(half_open_max)) then
    (true, true, {| state := c.(state); fails := c.(fails); until := c.(until); half := c.(half) + 1 |})
  else (bool_decide (c.(state) = Closed), false, c).

Definition BackendProtector_acquire (self : BackendProtector) (now : Z) : Result Permit * BackendProtector :=
  if self.(config).(max_concurrent) <=? self.(taken) then
    (Err QueueFull,
     {| config := self.(config); taken := self.(taken); circuit := self.(circuit); active := self.(active);
        accepted := self.(accepted); rejected_concurrency := wrap_u64 (self.(rejected_concurrency) + 1);
        rejected_circuit := self.(rejected_circuit); failures := self.(failures); opened := self.(opened) |})
  else
    let '(allowed, is_probe, c) := admission self.(config) self.(circuit) now in
    if negb allowed then
      (Err Unavailable,
       {| config := self.(config); taken := self.(taken); circuit := c; active := self.(active);
          accepted := self.(accepted); rejected_concurrency := self.(rejected_concurrency);
          rejected_circuit := wrap_u64 (self.(rejected_circuit) + 1); failures := self.(failures);
          opened := self.(opened) |})
    else
      (Ok {| probe := is_probe |},
       {| config := self.(config); taken := self.(taken) + 1; circuit := c; active := self.(active) + 1;
          accepted := wrap_u64 (self.(accepted) + 1); rejected_concurrency := self.(rejected_concurrency);
          rejected_circuit := self.(rejected_circuit); failures := self.(failures);
          opened := self.(opened) |}).

Definition BackendProtector_complete (self : BackendProtector) (p : Permit) (failed : bool) (now : Z) :
    BackendProtector :=
  let c := self.(circuit) in
  if failed then
    let fails := c.(fails) + 1 in
    let trips := p.(probe) || (self.(config).(failure_threshold) <=? fails) in
    {| config := self.(config); taken := self.(taken);
       circuit := if trips
                  then {| state := Open; fails := 0; until := Some (now + self.(config).(open_timeout)); half := 0 |}
                  else {| state := c.(state); fails := fails; until := c.(until); half := c.(half) |};
       active := self.(active); accepted := self.(accepted);
       rejected_concurrency := self.(rejected_concurrency); rejected_circuit := self.(rejected_circuit);
       failures := wrap_u64 (self.(failures) + 1);
       opened := if trips then wrap_u64 (self.(opened) + 1) else self.(opened) |}
  else
    set_circuit self
      (if bool_decide (c.(state) = HalfOpen) then {| state := Closed; fails := 0; until := None; half := 0 |}
       else {| state := c.(state); fails := 0; until := c.(until); half := c.(half) |}).

(** [Drop for Permit], and of the slot it holds. *)
Definition Permit_drop (self : BackendProtector) (p : Permit) : BackendProtector :=
  let c := self.(circuit) in
  {| config := self.(config); taken := self.(taken) - 1;
     circuit := if p.(probe)
                then {| state := c.(state); fails := c.(fails); until := c.(until);
                        half := saturating_sub c.(half) 1 |}
                else c;
     active := self.(active) - 1; accepted := self.(accepted);
     rejected_concurrency := self.(rejected_concurrency); rejected_circuit := self.(rejected_circuit);
     failures := self.(failures); opened := self.(opened) |}.

(** [execute] when no other call runs in between: [backend] is the call's outcome. *)
Definition BackendProtector_execute {A} (self : BackendProtector) (backend : Result A) (transient : Error -> bool)
    (now now' : Z) : Result A * BackendProtector :=
  let '(permit, self) := BackendProtector_acquire self now in
  let? p := permit else self in
  let failed := match backend with Err e => transient e | Ok _ => false end in
  (backend, Permit_drop (BackendProtector_complete self p failed now') p).

Definition BackendProtector_stats (self : BackendProtector) : ProtectionStats :=
  {| stats_active := self.(active); stats_accepted := self.(accepted);
     stats_rejected_concurrency := self.(rejected_concurrency);
     stats_rejected_circuit := self.(rejected_circuit); transient_failures := self.(failures);
     stats_opened := self.(opened); stats_circuit := self.(circuit).(state) |}.

(** ** Concurrent calls *)

(** A call in flight: its permit, and whether it has completed (its permit is about to be dropped). *)
Record Call : Type := { permit : Permit; completed : bool }.

(** The protector with the calls in flight. *)
Inductive call_step : BackendProtector * list Call -> BackendProtector * list Call -> Prop :=
| call_admit self calls now p self' :
    BackendProtector_acquire self now = (Ok p, self') ->
    call_step (self, calls) (self', {| permit := p; completed := false |} :: calls)
| call_refuse self calls now e self' :
    BackendProtector_acquire self now = (Err e, self') -> call_step (self, calls) (self', calls)
| call_complete self calls calls' p failed now :
    calls ≡ₚ {| permit := p; completed := false |} :: calls' ->
    call_step (self, calls)
      (BackendProtector_complete self p failed now, {| permit := p; completed := true |} :: calls')
| call_drop self calls calls' c :
    calls ≡ₚ c :: calls' -> call_step (self, calls) (Permit_drop self c.(permit), calls').

Definition protector_inv (cfg : ProtectionConfig) (st : BackendProtector * list Call) : Prop :=
  let c := st.1.(circuit) in
  st.1.(config) = cfg /\ st.1.(taken) = len st.2 /\ st.1.(active) = len st.2
  /\ len st.2 <= cfg.(max_concurrent) /\ 0 <= c.(fails) < cfg.(failure_threshold)
  /\ 0 <= c.(half) <= cfg.(half_open_max) /\ (c.(state) = Open -> is_Some c.(until)).

Lemma admission_inv cfg c now allowed is_probe c' :
  admission cfg c now = (allowed, is_probe, c') -> 0 < cfg.(half_open_max) ->
  0 <= c.(half) <= cfg.(half_open_max) -> (c.(state) = Open -> is_Some c.(until)) ->
  c'.(fails) = c.(fails) /\ 0 <= c'.(half) <= cfg.(half_open_max) /\ (c'.(state) = Open -> is_Some c'.(until)).
Proof.
  unfold admission. set (c1 := if (_ : bool) then _ else c). intros Ha Hm Hh Hu.
  assert (Hc1 : fails c1 = fails c /\ 0 <= half c1 <= half_open_max cfg /\ (state c1 = Open -> is_Some (until c1))).
  { unfold c1. destruct (_ && _); cbn; split_and!; try done; lia. }
  clearbody c1. destruct Hc1 as (H1 & H2 & H3). destruct (_ && (half c1 <? _)) eqn:E; injection Ha as <- <- <-; [|done].
  apply andb_prop in E as [_ E]. cbn. split_and!; [done|lia|lia|done].
Qed.

Lemma acquire_inv cfg self calls now res self' :
  BackendProtector_acquire self now = (res, self') -> 0 < cfg.(half_open_max) ->
  protector_inv cfg (self, calls) ->
  protector_inv cfg (self', match res with Ok p => {| permit := p; completed := false |} :: calls | Err _ => calls end).
Proof.
  intros Ha Hm (Hc & Ht & Hact & Hlen & Hf & Hh & Hu). cbn in *. unfold BackendProtector_acquire in Ha.
  rewrite Hc in Ha. destruct (Z.leb_spec (max_concurrent cfg) (taken self)); [by injection Ha as <- <-|].
  destruct (admission cfg (circuit self) now) as [[allowed is_probe] c] eqn:Ead.
  apply admission_inv in Ead as (H1 & H2 & H3); [|done..].
  destruct (negb allowed); injection Ha as <- <-; unfold protector_inv; cbn; rewrite ?len_cons, H1;
    split_and!; try done; lia.
Qed.

Lemma call_step_inv cfg st st' :
  0 < cfg.(failure_threshold) -> 0 < cfg.(half_open_max) ->
  call_step st st' -> protector_inv cfg st -> protector_inv cfg st'.
Proof.
  intros Hft Hhm Hstep Hinv.
  destruct Hstep as [self calls now p self' Ha|self calls now e self' Ha|self calls calls' p failed now Hp
                    |self calls calls' c Hp].
  - by apply (acquire_inv cfg self calls now (Ok p) self').
  - by apply (acquire_inv cfg self calls now (Err e) self').
  - destruct Hinv as (Hc & Ht & Hact & Hlen & Hf & Hh & Hu). cbn in *.
    assert (Hl : len ({| permit := p; completed := true |} :: calls') = len calls).
    { unfold len. rewrite Hp. done. }
    unfold protector_inv, BackendProtector_complete. cbn [fst snd]. rewrite Hl.
    destruct failed; cbn; rewrite Hc.
    + destruct (probe p || _) eqn:Etrip; cbn; [split_and!; try done; lia|].
      apply orb_false_elim in Etrip as [_ Etrip%Z.leb_gt]. split_and!; try done; lia.
    + case_bool_decide; cbn; split_and!; try done; lia.
  - destruct Hinv as (Hc & Ht & Hact & Hlen & Hf & Hh & Hu). cbn in *.
    assert (Hl : len calls = len calls' + 1).
    { unfold len. rewrite Hp. cbn. lia. }
    unfold protector_inv, Permit_drop. cbn. destruct (probe (permit c)); cbn; split_and!; try done;
      unfold saturating_sub; lia.
Qed.

(** Calls to a backend are limited: however calls are admitted, refused, completed and cancelled, no more
    than the configured number is in flight, the active counter is exactly their number, the count of
    failures stays below the threshold (so it cannot overflow), and an open circuit has a time to reopen
    at. *)
Theorem backend_calls_limited cfg p0 self calls :
  0 <= cfg.(max_concurrent) -> 0 <= cfg.(failure_threshold) -> 0 <= cfg.(half_open_max) ->
  BackendProtector_new cfg = Ok p0 -> rtc call_step (p0, []) (self, calls) ->
  len calls <= cfg.(max_concurrent) /\ self.(active) = len calls
  /\ 0 <= self.(circuit).(fails) < cfg.(failure_threshold)
  /\ (self.(circuit).(state) = Open -> is_Some self.(circuit).(until)).
Proof.
  intros H1 H2 H3 Hnew Hrun. unfold BackendProtector_new in Hnew.
  destruct (Z.eqb_spec (max_concurrent cfg) 0); [done|]. destruct (Z.eqb_spec (failure_threshold cfg) 0); [done|].
  destruct (open_timeout cfg =? 0); [done|]. destruct (Z.eqb_spec (half_open_max cfg) 0); [done|].
  injection Hnew as Hp0. assert (Hinv : protector_inv cfg (self, calls)).
  { remember (p0, @nil Call) as st0 eqn:E0. remember (self, calls) as st eqn:E.
    assert (H0 : protector_inv cfg st0).
    { subst. unfold protector_inv. cbn. unfold len. cbn. split_and!; try done; lia. }
    clear E E0. induction Hrun as [|st0 st1 st2 Hstep _ IH]; [done|]. apply IH, (call_step_inv cfg st0); [lia|lia|done..]. }
  destruct Hinv as (_ & _ & Hact & Hlen & Hf & _ & Hu). done.
Qed.

Definition sample_protection : ProtectionConfig :=
  {| max_concurrent := 10; queue_timeout := 0; failure_threshold := 1; open_timeout := 1; half_open_max := 2 |}.

Definition sample_protector : BackendProtector :=
  {| config := sample_protection; taken := 0;
     circuit := {| state := Closed; fails := 0; until := None; half := 0 |};
     active := 0; accepted := 0; rejected_concurrency := 0; rejected_circuit := 0; failures := 0; opened := 0 |}.

Lemma backend_calls_limited_witness :
  exists self, rtc call_step (sample_protector, []) (self, [{| permit := {| probe := false |}; completed := false |}])
    /\ self.(active) = 1.
Proof.
  exists (BackendProtector_acquire sample_protector 0).2.
  assert (Hrun : rtc call_step (sample_protector, [])
    ((BackendProtector_acquire sample_protector 0).2, [{| permit := {| probe := false |}; completed := false |}])).
  { apply rtc_once, (call_admit _ _ 0). vm_compute. reflexivity. }
  split; [exact Hrun|].
  apply (backend_calls_limited sample_protection sample_protector _ _ ltac:(done) ltac:(done) ltac:(done) eq_refl Hrun).
Defined.

(** The states of the run below. *)
Definition direct : Permit := {| probe := false |}.
Definition probing : Permit := {| probe := true |}.
Definition flying (p : Permit) : Call := {| permit := p; completed := false |}.
Definition landed (p : Permit) : Call := {| permit := p; completed := true |}.
Definition probe_states : list BackendProtector :=
  Eval vm_compute in
    let p1 := (BackendProtector_acquire sample_protector 0).2 in
    let p2 := BackendProtector_complete p1 direct true 0 in
    let p3 := Permit_drop p2 direct in
    let p4 := (BackendProtector_acquire p3 1).2 in
    let p5 := (BackendProtector_acquire p4 1).2 in
    let p6 := BackendProtector_complete p5 probing true 1 in
    let p7 := Permit_drop p6 probing in
    let p8 := (BackendProtector_acquire p7 2).2 in
    let p9 := Permit_drop p8 probing in
    let p10 := (BackendProtector_acquire p9 2).2 in
    let p11 := (BackendProtector_acquire p10 2).2 in
    [p1; p2; p3; p4; p5; p6; p7; p8; p9; p10; p11].
Definition probe_state (n : nat) : BackendProtector := default sample_protector (probe_states !! n).

(** The probe limit of a half-open circuit can be exceeded.  With at most two probes allowed, two probes are
    admitted; the first fails and the circuit opens again, which resets the count of probes while the
    second is still in flight; when the circuit is half open again and a third probe is admitted, the
    second's drop takes the third off the count, and two more are admitted: three probes run at once. *)
Theorem probe_limit_exceeded :
  exists self calls, rtc call_step (sample_protector, []) (self, calls)
    /\ self.(circuit).(state) = HalfOpen
    /\ sample_protection.(half_open_max) = 2
    /\ len (filter (fun c => c.(permit).(probe) = true /\ c.(completed) = false) calls) = 3.
Proof.
  exists (probe_state 10), [flying probing; flying probing; flying probing].
  split; [|split_and!; vm_compute; reflexivity].
  eapply (rtc_l _ _ (probe_state 0, [flying direct])); [by apply (call_admit _ _ 0)|].
  eapply (rtc_l _ _ (probe_state 1, [landed direct])); [by apply (call_complete (probe_state 0) [flying direct] [] direct true 0)|].
  eapply (rtc_l _ _ (probe_state 2, [])); [by apply (call_drop (probe_state 1) [landed direct] [] (landed direct))|].
  eapply (rtc_l _ _ (probe_state 3, [flying probing])); [by apply (call_admit _ _ 1)|].
  eapply (rtc_l _ _ (probe_state 4, [flying probing; flying probing])); [by apply (call_admit _ _ 1)|].
  eapply (rtc_l _ _ (probe_state 5, [landed probing; flying probing]));
    [by apply (call_complete (probe_state 4) [flying probing; flying probing] [flying probing] probing true 1)|].
  eapply (rtc_l _ _ (probe_state 6, [flying probing])); [by apply (call_drop (probe_state 5) [landed probing; flying probing] [flying probing] (landed probing))|].
  eapply (rtc_l _ _ (probe_state 7, [flying probing; flying probing])); [by apply (call_admit _ _ 2)|].
  eapply (rtc_l _ _ (probe_state 8, [flying probing])); [by apply (call_drop (probe_state 7) [flying probing; flying probing] [flying probing] (flying probing))|].
  eapply (rtc_l _ _ (probe_state 9, [flying probing; flying probing])); [by apply (call_admit _ _ 2)|].
  apply rtc_once. by apply (call_admit _ _ 2).
Qed.

(** ** Opening and recovery *)

(** Calls one after another that all fail with a transient error. *)
Definition fail_at {A} (e : Error) (transient : Error -> bool) (self : BackendProtector) (nows : list Z) :
    BackendProtector :=
  foldl (fun self now => (BackendProtector_execute (A:=A) self (Err e) transient now now).2) self nows.

Definition quiet (cfg : ProtectionConfig) (self : BackendProtector) (c : Circuit) : Prop :=
  self.(config) = cfg /\ self.(taken) = 0 /\ self.(circuit) = c.

Lemma admission_closed cfg k u h now :
  admission cfg {| state := Closed; fails := k; until := u; half := h |} now
  = (true, false, {| state := Closed; fails := k; until := u; half := h |}).
Proof. reflexivity. Qed.

Lemma admission_open cfg k v h now :
  0 < cfg.(half_open_max) ->
  admission cfg {| state := Open; fails := k; until := Some v; half := h |} now
  = if v <=? now then (true, true, {| state := HalfOpen; fails := k; until := Some v; half := 1 |})
    else (false, false, {| state := Open; fails := k; until := Some v; half := h |}).
Proof.
  intros Hh. unfold admission. cbn [state until]. change (bool_decide (Open = Open)) with true.
  destruct (v <=? now); [|reflexivity]. cbn [andb state half fails until].
  change (bool_decide (HalfOpen = HalfOpen)) with true. by destruct (Z.ltb_spec 0 (half_open_max cfg)); [|lia].
Qed.

Lemma fail_once {A} cfg self k e transient now :
  0 < cfg.(max_concurrent) -> transient e = true ->
  quiet cfg self {| state := Closed; fails := k; until := None; half := 0 |} ->
  quiet cfg (BackendProtector_execute (A:=A) self (Err e) transient now now).2
    (if cfg.(failure_threshold) <=? k + 1
     then {| state := Open; fails := 0; until := Some (now + cfg.(open_timeout)); half := 0 |}
     else {| state := Closed; fails := k + 1; until := None; half := 0 |}).
Proof.
  intros Hm Ht (Hc & Htk & Hcirc). unfold BackendProtector_execute, BackendProtector_acquire.
  rewrite Hc, Htk, Hcirc. destruct (Z.leb_spec (max_concurrent cfg) 0); [lia|]. rewrite admission_closed. cbn. rewrite Ht. cbn.
  split_and!; cbn; [done|lia|]. done.
Qed.

Lemma fail_many {A} cfg e transient nows : forall self k,
  0 < cfg.(max_concurrent) -> transient e = true -> k + len nows < cfg.(failure_threshold) ->
  quiet cfg self {| state := Closed; fails := k; until := None; half := 0 |} ->
  quiet cfg (fail_at (A:=A) e transient self nows)
    {| state := Closed; fails := k + len nows; until := None; half := 0 |}.
Proof.
  induction nows as [|now nows IH]; intros self k Hm Ht Hk Hq.
  { rewrite len_nil, Z.add_0_r. done. }
  rewrite len_cons in *. unfold fail_at. cbn [foldl]. pose proof (len_nonneg nows).
  apply (fail_once (A:=A) cfg self k e transient now) in Hq; [|done..].
  destruct (Z.leb_spec (failure_threshold cfg) (k + 1)); [lia|].
  apply IH in Hq; [|done|done|lia]. by replace (k + (len nows + 1)) with (k + 1 + len nows) by lia.
Qed.

(** The circuit breaker opens and recovers: after as many transient failures in a row as the threshold,
    every call before the open time is over is refused as unavailable without reaching the backend, and the
    first call after it is let through as a probe whose success closes the circuit again. *)
Theorem breaker_opens_and_recovers {A} cfg p0 e transient nows last_now :
  BackendProtector_new cfg = Ok p0 -> 0 <= cfg.(max_concurrent) -> 0 < cfg.(half_open_max) ->
  transient e = true -> len nows + 1 = cfg.(failure_threshold) ->
  let p := fail_at (A:=A) e transient p0 (nows ++ [last_now]) in
  let reopen := last_now + cfg.(open_timeout) in
  p.(circuit).(state) = Open
  /\ (forall (backend : Result A) now now', now < reopen ->
        (BackendProtector_execute p backend transient now now').1 = Err Unavailable
        /\ (BackendProtector_execute p backend transient now now').2.(circuit) = p.(circuit))
  /\ (forall (a : A) now now', reopen <= now ->
        (BackendProtector_execute p (Ok a) transient now now').1 = Ok a
        /\ (BackendProtector_execute p (Ok a) transient now now').2.(circuit)
           = {| state := Closed; fails := 0; until := None; half := 0 |}).
Proof.
  intros Hnew Hmax Hhalf Ht Hlen. unfold BackendProtector_new in Hnew.
  destruct (Z.eqb_spec (max_concurrent cfg) 0); [done|]. destruct (_ || _); [done|]. injection Hnew as <-.
  set (p0 := Build_BackendProtector _ _ _ _ _ _ _ _ _).
  assert (Hq : quiet cfg (fail_at (A:=A) e transient p0 (nows ++ [last_now]))
    {| state := Open; fails := 0; until := Some (last_now + open_timeout cfg); half := 0 |}).
  { unfold fail_at. rewrite foldl_app. cbn [foldl].
    pose proof (fail_many (A:=A) cfg e transient nows p0 0 ltac:(lia) Ht ltac:(lia) ltac:(done)) as Hm.
    apply (fail_once (A:=A) cfg _ _ e transient last_now) in Hm; [|lia|done].
    destruct (Z.leb_spec (failure_threshold cfg) (0 + len nows + 1)); [exact Hm|lia]. }
  cbn zeta. set (p := fail_at _ _ _ _) in *. clearbody p. destruct Hq as (Hc & Htk & Hcirc).
  rewrite Hcirc. split; [done|].
  unfold BackendProtector_execute, BackendProtector_acquire. rewrite Hc, Htk, Hcirc.
  destruct (Z.leb_spec (max_concurrent cfg) 0); [lia|]. split.
  - intros backend now now' Hnow. rewrite admission_open by done.
    by destruct (Z.leb_spec (last_now + open_timeout cfg) now); [lia|].
  - intros a now now' Hnow. rewrite admission_open by done.
    by destruct (Z.leb_spec (last_now + open_timeout cfg) now); [|lia].
Qed.

Lemma breaker_opens_and_recovers_witness :
  (fail_at (A:=unit) Unavailable (fun _ => true) sample_protector ([] ++ [5])).(circuit).(state) = Open.
Proof.
  apply (breaker_opens_and_recovers (A:=unit) sample_protection sample_protector Unavailable (fun _ => true) [] 5
    eq_refl ltac:(done) ltac:(done) eq_refl eq_refl).
Defined.
