(* ===== verification/KeyedExecutor.v ===== *)
(** * Per-player execution: [crates/elura-world/src/keyed.rs]

    The executor that serialises operations on a player, and the tasks that use it.  A task that calls
    [execute] clones the [Arc] of the player's lock, waits for the lock, runs its operation and drops
    the clone, also when it is cancelled.  An [Arc] is named by the number of its allocation and its
    strong count is the number of clones: the table's and the tasks'.  [DefaultHasher] is a
    parameter. *)

From S2P Require Import Prelude CoreError Identity.

Definition EXECUTOR_SHARDS : Z := 64.
Definition LOCKS_PER_SHARD : Z := 1024.
Definition LOCK_IDLE_TTL : Z := 60 * 1000000000.
Definition PRUNE_INTERVAL : Z := 256.

Record CachedLock : Type := { lock : nat; last_seen : Z }.

Record LockShard : Type := { entries : gmap PlayerKey CachedLock; operations : Z }.

Record KeyedExecutor : Type := { shards : list LockShard }.

Definition KeyedExecutor_default : KeyedExecutor :=
  {| shards := replicate (Z.to_nat EXECUTOR_SHARDS) {| entries := ∅; operations := 0 |} |}.

Section executor.
Context (hash : PlayerKey -> Z).

Definition shard_index (self : KeyedExecutor) (key : PlayerKey) : nat :=
  Z.to_nat (wrap_u64 (hash key) mod len self.(shards)).

(** A task inside [execute]: its key, the lock it cloned, and whether it holds the guard. *)
Record Task : Type := { task_key : PlayerKey; task_lock : nat; running : bool }.

(** [Arc::strong_count] of a lock in the table. *)
Definition strong_count (tasks : gmap nat Task) (l : nat) : Z :=
  1 + Z.of_nat (size (filter (fun p => p.2.(task_lock) = l) tasks)).

Definition evict_oldest_unlocked (tasks : gmap nat Task) (es : gmap PlayerKey CachedLock) :
    gmap PlayerKey CachedLock :=
  match min_by_key (fun p => p.2.(last_seen))
          (filter (fun p => strong_count tasks p.2.(lock) = 1) (map_to_list es)) with
  | Some (key, _) => delete key es
  | None => es
  end.

(** The block of [execute] under the shard's mutex; [fresh] names the allocation of a new lock. *)
Definition cached_lock (tasks : gmap nat Task) (shard : LockShard) (key : PlayerKey) (now : Z) (fresh : nat) :
    nat * LockShard :=
  let operations := wrap_u64 (shard.(operations) + 1) in
  let es :=
    if operations mod PRUNE_INTERVAL =? 0 then
      filter (fun p => 1 < strong_count tasks p.2.(lock) \/ saturating_sub now p.2.(last_seen) < LOCK_IDLE_TTL)
        shard.(entries)
    else shard.(entries) in
  match es !! key with
  | Some entry =>
      (entry.(lock), {| entries := <[key := {| lock := entry.(lock); last_seen := now |}]> es;
                        operations := operations |})
  | None =>
      let es := if LOCKS_PER_SHARD <=? Z.of_nat (size es) then evict_oldest_unlocked tasks es else es in
      (fresh, {| entries := <[key := {| lock := fresh; last_seen := now |}]> es; operations := operations |})
  end.

(** The executor with its tasks. *)
Record World : Type := { executor : KeyedExecutor; tasks : gmap nat Task; allocated : nat }.

Definition World_default : World :=
  {| executor := KeyedExecutor_default; tasks := ∅; allocated := 0 |}.

(** Task [id] calls [execute key]. *)
Definition enter (w : World) (id : nat) (key : PlayerKey) (now : Z) : World :=
  let i := shard_index w.(executor) key in
  match w.(executor).(shards) !! i with
  | None => w
  | Some shard =>
      let '(l, shard) := cached_lock w.(tasks) shard key now w.(allocated) in
      {| executor := {| shards := <[i := shard]> w.(executor).(shards) |};
         tasks := <[id := {| task_key := key; task_lock := l; running := false |}]> w.(tasks);
         allocated := S w.(allocated) |}
  end.

(** The task waits its turn until no other holds the guard, and then runs its operation. *)
Definition may_run (w : World) (t : Task) : Prop :=
  forall id u, w.(tasks) !! id = Some u -> u.(running) = true -> u.(task_lock) <> t.(task_lock).

Definition start (w : World) (id : nat) (t : Task) : World :=
  {| executor := w.(executor);
     tasks := <[id := {| task_key := t.(task_key); task_lock := t.(task_lock); running := true |}]> w.(tasks);
     allocated := w.(allocated) |}.

(** The operation has finished, or the task is cancelled. *)
Definition leave (w : World) (id : nat) : World :=
  {| executor := w.(executor); tasks := delete id w.(tasks); allocated := w.(allocated) |}.

Inductive world_step : World -> World -> Prop :=
| step_enter w id key now : w.(tasks) !! id = None -> world_step w (enter w id key now)
| step_start w id t :
    w.(tasks) !! id = Some t -> t.(running) = false -> may_run w t -> world_step w (start w id t)
| step_leave w id : world_step w (leave w id).

(** ** A lock in use stays in the table *)

(** The lock of a player in the table. *)
Definition lock_of (w : World) (key : PlayerKey) : option nat :=
  shard ← w.(executor).(shards) !! shard_index w.(executor) key;
  lock <$> shard.(entries) !! key.

Record world_inv (w : World) : Prop := {
  inv_shards : len w.(executor).(shards) = EXECUTOR_SHARDS;
  inv_tasks : forall id t, w.(tasks) !! id = Some t -> lock_of w t.(task_key) = Some t.(task_lock);
  inv_distinct : forall k k' l, lock_of w k = Some l -> lock_of w k' = Some l -> k = k';
  inv_allocated : forall k l, lock_of w k = Some l -> (l < w.(allocated))%nat;
  inv_running : forall i j t u, w.(tasks) !! i = Some t -> w.(tasks) !! j = Some u ->
    t.(running) = true -> u.(running) = true -> t.(task_lock) = u.(task_lock) -> i = j;
}.

Lemma strong_count_used ts id t :
  ts !! id = Some t -> 1 < strong_count ts t.(task_lock).
Proof.
  intros Ht. unfold strong_count.
  assert (Hin : filter (fun p => p.2.(task_lock) = t.(task_lock)) ts !! id = Some t)
    by by apply map_lookup_filter_Some.
  destruct (size _) eqn:E; [|lia]. apply map_size_empty_inv in E. by rewrite E, lookup_empty in Hin.
Qed.

Lemma min_by_key_elem {A} (key : A -> Z) l x : min_by_key key l = Some x -> x ∈ l.
Proof.
  revert x. induction l as [|y l IH]; intros x; cbn; [done|].
  destruct (min_by_key key l) as [z|]; [|intros [= ->]; left].
  destruct (key y <=? key z); intros [= ->]; [left|right; by apply IH].
Qed.

(** What [cached_lock] does to the locks of a shard: locks in use stay, no lock changes hands, and the caller
    gets the lock of its key. *)
Lemma cached_lock_spec ts shard key now fresh l shard' :
  cached_lock ts shard key now fresh = (l, shard') ->
  lock <$> shard'.(entries) !! key = Some l
  /\ (lock <$> shard.(entries) !! key = Some l \/ l = fresh)
  /\ (forall k, k <> key -> lock <$> shard'.(entries) !! k = lock <$> shard.(entries) !! k
        \/ shard'.(entries) !! k = None)
  /\ (forall k e, shard.(entries) !! k = Some e -> 1 < strong_count ts e.(lock) ->
        lock <$> shard'.(entries) !! k = Some e.(lock)).
Proof.
  unfold cached_lock. set (es := if (_ : bool) then _ else _).
  assert (Hes : forall k, es !! k = shard.(entries) !! k \/ es !! k = None).
  { intros k. unfold es. destruct (_ =? 0); [|by left]. destruct (filter _ _ !! k) as [e|] eqn:E; [|by right].
    apply map_lookup_filter_Some in E as [E _]. by left. }
  assert (Hused : forall k e, shard.(entries) !! k = Some e -> 1 < strong_count ts e.(lock) -> es !! k = Some e).
  { intros k e He Hu. unfold es. destruct (_ =? 0); [|done]. apply map_lookup_filter_Some. auto. }
  clearbody es. destruct (es !! key) as [entry|] eqn:Ekey.
  - intros [= <- <-]. cbn. rewrite lookup_insert, decide_True by done.
    assert (Horig : shard.(entries) !! key = Some entry) by (destruct (Hes key); congruence).
    rewrite Horig. split_and!; [done|by left| |].
    + intros k Hk. rewrite lookup_insert_ne by done. destruct (Hes k) as [->| ->]; auto.
    + intros k e He Hu. destruct (decide (k = key)) as [->|Hne].
      * rewrite lookup_insert, decide_True by done. cbn. congruence.
      * rewrite lookup_insert_ne by done. by rewrite (Hused k e He Hu).
  - set (es' := if (_ : bool) then _ else es). intros [= <- <-]. cbn. rewrite lookup_insert, decide_True by done.
    assert (Hes' : forall k, es' !! k = es !! k \/ (es' !! k = None /\ exists e, es !! k = Some e
                                                      /\ strong_count ts e.(lock) = 1)).
    { intros k. unfold es'. destruct (_ <=? _); [|by left]. unfold evict_oldest_unlocked.
      destruct (min_by_key _ _) as [[k0 e0]|] eqn:Emin; [|by left].
      apply min_by_key_elem, list_elem_of_filter in Emin as [Hc He0%elem_of_map_to_list]. cbn in Hc.
      destruct (decide (k = k0)) as [->|Hne].
      - right. rewrite lookup_delete, decide_True by done. eauto.
      - left. by rewrite lookup_delete_ne. }
    clearbody es'. split_and!; [done|by right| |].
    + intros k Hk. rewrite lookup_insert_ne by done. destruct (Hes' k) as [->|[-> _]]; [|by right].
      destruct (Hes k) as [->| ->]; auto.
    + intros k e He Hu. pose proof (Hused k e He Hu) as Hk. destruct (decide (k = key)) as [->|Hne]; [congruence|].
      rewrite lookup_insert_ne by done. destruct (Hes' k) as [->|[_ (e' & He' & Hc)]]; [by rewrite Hk|].
      assert (e' = e) as -> by congruence. lia.
Qed.

Lemma shard_index_range (e : KeyedExecutor) key : len e.(shards) = EXECUTOR_SHARDS ->
  (shard_index e key < length e.(shards))%nat.
Proof.
  intros Hl. unfold shard_index. rewrite Hl. unfold len in Hl.
  pose proof (Z.mod_pos_bound (wrap_u64 (hash key)) EXECUTOR_SHARDS ltac:(done)). lia.
Qed.

Lemma enter_spec w id key now :
  world_inv w ->
  exists l, let w' := enter w id key now in
  w'.(tasks) = <[id := {| task_key := key; task_lock := l; running := false |}]> w.(tasks)
  /\ len w'.(executor).(shards) = EXECUTOR_SHARDS /\ w'.(allocated) = S w.(allocated)
  /\ lock_of w' key = Some l /\ (lock_of w key = Some l \/ l = w.(allocated))
  /\ (forall k, k <> key -> lock_of w' k = lock_of w k \/ lock_of w' k = None)
  /\ (forall j t, w.(tasks) !! j = Some t -> lock_of w' t.(task_key) = Some t.(task_lock)).
Proof.
  intros [Hlen Htasks Hdist Halloc Hrun]. pose proof (shard_index_range w.(executor) key Hlen) as Hi.
  unfold enter, lock_of. set (i := shard_index (executor w) key) in *.
  destruct (lookup_lt_is_Some_2 _ _ Hi) as [shard Hs]. rewrite Hs.
  destruct (cached_lock _ _ _ _ _) as [l shard'] eqn:Hc.
  apply cached_lock_spec in Hc as (Hkey & Horig & Hother & Hused). exists l. cbn.
  assert (Hidx : forall k, shard_index {| shards := <[i:=shard']> (shards (executor w)) |} k
                           = shard_index (executor w) k).
  { intros k. unfold shard_index. cbn. unfold len. by rewrite length_insert. }
  assert (Hlook : forall k, (shard0 ← <[i:=shard']> (shards (executor w)) !! shard_index (executor w) k;
                             lock <$> entries shard0 !! k)
                  = if decide (shard_index (executor w) k = i) then lock <$> entries shard' !! k
                    else lock_of w k).
  { intros k. case_decide as Hk; [rewrite Hk, list_lookup_insert_eq by done; done|].
    rewrite list_lookup_insert_ne by done. done. }
  assert (Hwas : forall k, shard_index (executor w) k = i -> lock_of w k = lock <$> entries shard !! k).
  { intros k Hk. unfold lock_of. by rewrite Hk, Hs. }
  split_and!; [done|unfold len in *; by rewrite length_insert|done| | | |].
  - rewrite Hidx, Hlook. fold i. by rewrite decide_True.
  - done.
  - intros k Hk. rewrite Hidx, Hlook. fold (lock_of w k). case_decide as Hki; [|by left].
    rewrite (Hwas k Hki). destruct (Hother k Hk) as [->| ->]; auto.
  - intros j t Ht. rewrite Hidx, Hlook. case_decide as Hki; [|by eapply Htasks].
    pose proof (Htasks j t Ht) as Hl. rewrite (Hwas _ Hki) in Hl.
    destruct (entries shard !! task_key t) as [e|] eqn:He; [|done]. injection Hl as Hl.
    rewrite <-Hl. apply (Hused _ _ He). rewrite Hl. by eapply strong_count_used.
Qed.

Lemma world_step_inv w w' : world_step w w' -> world_inv w -> world_inv w'.
Proof.
  intros Hstep Hinv. destruct Hstep as [w id key now Hfree|w id t Ht Hwait Hmay|w id].
  - destruct (enter_spec w id key now Hinv) as (l & Htasks & Hlen & Halloc & Hkey & Horig & Hother & Hused).
    destruct Hinv as [_ Htk Hdist Hal Hrun]. split; rewrite ?Htasks, ?Halloc; [done| | | |].
    + intros j t Hj. destruct (decide (j = id)) as [->|Hne].
      * rewrite lookup_insert, decide_True in Hj by done. by injection Hj as <-.
      * rewrite lookup_insert_ne in Hj by done. by eapply Hused.
    + assert (Hfrom : forall k l0, lock_of (enter w id key now) k = Some l0 ->
        lock_of w k = Some l0 \/ (k = key /\ l0 = allocated w)).
      { intros k l0 Hk. destruct (decide (k = key)) as [->|Hne].
        - rewrite Hkey in Hk. injection Hk as <-. naive_solver.
        - left. destruct (Hother k Hne); congruence. }
      intros k k' l0 [Hk|[-> ->]]%Hfrom [Hk'|[-> Hl']]%Hfrom; [by eapply Hdist|..|done].
      * subst l0. apply Hal in Hk. lia.
      * apply Hal in Hk'. lia.
    + intros k l0 Hk. destruct (decide (k = key)) as [->|Hne].
      * rewrite Hkey in Hk. injection Hk as <-. destruct Horig as [Ho| ->]; [|lia]. apply Hal in Ho. lia.
      * destruct (Hother k Hne) as [Heq|Hn]; [|congruence]. rewrite Heq in Hk. apply Hal in Hk. lia.
    + intros i j t u Hi Hj Hri Hrj Hl.
      destruct (decide (i = id)) as [->|Hi']; [rewrite lookup_insert, decide_True in Hi by done; by injection Hi as <-|].
      destruct (decide (j = id)) as [->|Hj']; [rewrite lookup_insert, decide_True in Hj by done; by injection Hj as <-|].
      rewrite lookup_insert_ne in Hi, Hj by done. by eapply Hrun.
  - destruct Hinv as [Hlen Htk Hdist Hal Hrun]. split; [done| |done|done|]; cbn.
    + intros j u Hj. destruct (decide (j = id)) as [->|Hne].
      * rewrite lookup_insert, decide_True in Hj by done. injection Hj as <-. cbn. by apply (Htk id t).
      * rewrite lookup_insert_ne in Hj by done. by eapply Htk.
    + assert (Hothers : forall j u, j <> id -> <[id := {| task_key := task_key t; task_lock := task_lock t;
                          running := true |}]> (tasks w) !! j = Some u -> tasks w !! j = Some u).
      { intros j u Hne Hj. by rewrite lookup_insert_ne in Hj. }
      intros i j a b Hi Hj Hra Hrb Hl.
      destruct (decide (i = id)) as [->|Hi'], (decide (j = id)) as [->|Hj']; [done|..].
      * rewrite lookup_insert, decide_True in Hi by done. injection Hi as <-. cbn in Hl.
        exfalso. by eapply (Hmay j b (Hothers _ _ Hj' Hj)).
      * rewrite lookup_insert, decide_True in Hj by done. injection Hj as <-. cbn in Hl.
        exfalso. by eapply (Hmay i a (Hothers _ _ Hi' Hi)).
      * eapply Hrun; eauto.
  - destruct Hinv as [Hlen Htk Hdist Hal Hrun]. split; [done| |done|done|]; cbn.
    + intros j u [_ Hj]%lookup_delete_Some. by eapply Htk.
    + intros i j a b [_ Hi]%lookup_delete_Some [_ Hj]%lookup_delete_Some. by eapply Hrun.
Qed.

Lemma world_default_inv : world_inv World_default.
Proof.
  assert (Hnone : forall k, lock_of World_default k = None).
  { intros k. unfold lock_of. destruct (_ !! _) as [s|] eqn:E; [|done].
    apply lookup_replicate in E as [-> _]. done. }
  split; cbn; [done|by intros id t|..].
  - intros k k' l Hk. by rewrite Hnone in Hk.
  - intros k l Hk. by rewrite Hnone in Hk.
  - by intros i j t u Hi.
Qed.

(** C20: operations on a player never overlap, and players never wait for each other: whatever tasks enter, run,
    finish and are cancelled, with locks pruned and evicted on the way, at most one task at a time runs an
    operation of a given player, and a task that waits can run as soon as no operation of its own player
    is running. *)
Theorem keyed_execution_exclusive w :
  rtc world_step World_default w ->
  (forall i j t u, w.(tasks) !! i = Some t -> w.(tasks) !! j = Some u ->
     t.(running) = true -> u.(running) = true -> t.(task_key) = u.(task_key) -> i = j)
  /\ (forall i t, w.(tasks) !! i = Some t -> t.(running) = false ->
       (forall j u, w.(tasks) !! j = Some u -> u.(running) = true -> u.(task_key) <> t.(task_key)) ->
       world_step w (start w i t)).
Proof.
  intros Hrun. assert (Hinv : world_inv w).
  { remember World_default as w0 eqn:E. assert (H0 : world_inv w0) by (subst; apply world_default_inv). clear E.
    induction Hrun as [|w0 w1 w2 Hstep _ IH]; [done|]. by apply IH, (world_step_inv w0). }
  destruct Hinv as [_ Htk Hdist _ Hr]. split.
  - intros i j t u Hi Hj Hri Hrj Hk. eapply Hr; try done.
    pose proof (Htk _ _ Hi) as Hli. pose proof (Htk _ _ Hj) as Hlj. rewrite Hk in Hli. congruence.
  - intros i t Hi Hw Hfree. apply step_start; [done|done|]. intros j u Hj Hu Hl.
    apply (Hfree j u Hj Hu). eapply Hdist; [by apply (Htk j)|]. rewrite Hl. by apply (Htk i).
Qed.
End executor.

(** Two tasks of one player: the second waits for the first. *)
Definition sample_key : PlayerKey := {| region_id := 1; realm_id := 1; user_id := 7 |}.
Definition sample_world : World :=
  let w := enter (fun _ => 3) (enter (fun _ => 3) World_default 0 sample_key 10) 1 sample_key 20 in
  start w 0 {| task_key := sample_key; task_lock := 0; running := false |}.

Lemma keyed_execution_exclusive_witness :
  sample_world.(tasks) !! 0%nat = Some {| task_key := sample_key; task_lock := 0; running := true |}
  /\ sample_world.(tasks) !! 1%nat = Some {| task_key := sample_key; task_lock := 0; running := false |}
  /\ (forall i j t u, sample_world.(tasks) !! i = Some t -> sample_world.(tasks) !! j = Some u ->
         t.(running) = true -> u.(running) = true -> t.(task_key) = u.(task_key) -> i = j).
Proof.
  split; [vm_compute; reflexivity|]. split; [vm_compute; reflexivity|].
  apply (keyed_execution_exclusive (fun _ => 3) sample_world).
  eapply rtc_l; [by apply (step_enter _ _ 0 sample_key 10)|].
  eapply rtc_l; [apply (step_enter _ _ 1 sample_key 20); vm_compute; reflexivity|].
  apply rtc_once, step_start; [vm_compute; reflexivity|done|].
  intros j u Hj Hu Hl. assert (Hall : map_Forall (fun _ v => v.(running) = false)
    (tasks (enter (fun _ => 3) (enter (fun _ => 3) World_default 0 sample_key 10) 1 sample_key 20))).
  { match goal with |- map_Forall _ ?m => replace m with
      (<[1%nat := {| task_key := sample_key; task_lock := 0; running := false |}]>
        (<[0%nat := {| task_key := sample_key; task_lock := 0; running := false |}]> (∅ : gmap nat Task)))
      by (vm_compute; reflexivity) end.
    by apply map_Forall_insert_2, map_Forall_insert_2, map_Forall_empty. }
  rewrite (Hall j u Hj) in Hu. done.
Defined.
