(* ===== verification/PlayerCache.v ===== *)
(** * The player cache: [crates/elura-world/src/player/cache.rs]

    Entries with a version, an expiry and the number of their last access; a queue of accesses from which
    the least recently used entries are evicted; and the coalescing of loads.  Each definition below
    is the part of an operation that runs under the lock of the entries, with the access number it
    draws; [Instant::now], in nanoseconds, is an argument. *)

From S2P Require Import Prelude CoreError Identity.

Record PlayerSnapshot (T : Type) : Type := { value : T; version : Z }.
Arguments value {T}. Arguments version {T}.

Record PlayerCacheConfig : Type := { ttl : Z; max_entries : Z }.

Definition PlayerCacheConfig_default : PlayerCacheConfig :=
  {| ttl := 60 * 1000000000; max_entries := 10000 |}.

Record PlayerCacheStats : Type := {
  stats_hits : Z;
  stats_misses : Z;
  stats_loads : Z;
  stats_evictions : Z;
}.

Section cache.
Context {T : Type}.

Record Entry : Type := { snapshot : PlayerSnapshot T; expires_at : Z; access : Z }.

Record PlayerCache : Type := {
  config : PlayerCacheConfig;
  entries : gmap PlayerKey Entry;
  order : list (PlayerKey * Z);
  clock : Z;
  hits : Z;
  misses : Z;
  load_count : Z;
  evictions : Z;
}.

Definition PlayerCache_new (config : PlayerCacheConfig) : Result PlayerCache :=
  if (config.(ttl) =? 0) || (config.(max_entries) =? 0) then
    Err (InvalidConfig "invalid player cache limits")
  else
    Ok {| config := config; entries := ∅; order := []; clock := 0; hits := 0; misses := 0;
          load_count := 0; evictions := 0 |}.

Definition with_entries (self : PlayerCache) (es : gmap PlayerKey Entry) : PlayerCache :=
  {| config := self.(config); entries := es; order := self.(order); clock := self.(clock);
     hits := self.(hits); misses := self.(misses); load_count := self.(load_count);
     evictions := self.(evictions) |}.

Definition with_order (self : PlayerCache) (o : list (PlayerKey * Z)) : PlayerCache :=
  {| config := self.(config); entries := self.(entries); order := o; clock := self.(clock);
     hits := self.(hits); misses := self.(misses); load_count := self.(load_count);
     evictions := self.(evictions) |}.

(** [clock.fetch_add(1)]. *)
Definition draw_access (self : PlayerCache) : Z * PlayerCache :=
  (self.(clock),
   {| config := self.(config); entries := self.(entries); order := self.(order);
      clock := wrap_u64 (self.(clock) + 1); hits := self.(hits); misses := self.(misses);
      load_count := self.(load_count); evictions := self.(evictions) |}).

(** The access number of every entry, oldest first. *)
Definition current_order (es : gmap PlayerKey Entry) : list (PlayerKey * Z) :=
  sort_by_key snd ((fun p => (p.1, p.2.(access))) <$> map_to_list es).

Definition record_access (self : PlayerCache) (player : PlayerKey) (access : Z) : PlayerCache :=
  let o := self.(order) ++ [(player, access)] in
  with_order self
    (if saturating_mul usize_max self.(config).(max_entries) 4 <? len o
     then current_order self.(entries) else o).

Definition PlayerCache_lookup (self : PlayerCache) (player : PlayerKey) (now : Z) :
    option (PlayerSnapshot T) * PlayerCache :=
  let '(number, self) := draw_access self in
  match self.(entries) !! player with
  | None => (None, self)
  | Some entry =>
      if entry.(expires_at) <=? now then (None, with_entries self (delete player self.(entries)))
      else
        let entry' := {| snapshot := entry.(snapshot); expires_at := entry.(expires_at); access := number |} in
        (Some entry.(snapshot),
         record_access (with_entries self (<[player := entry']> self.(entries))) player number)
  end.

(** The eviction loop: the queue left, the entries left, and how many were evicted. *)
Fixpoint evict (max : Z) (es : gmap PlayerKey Entry) (o : list (PlayerKey * Z)) (evicted : Z) :
    gmap PlayerKey Entry * list (PlayerKey * Z) * Z :=
  match o with
  | [] => (es, [], evicted)
  | (oldest, number) :: rest =>
      if Z.of_nat (size es) <=? max then (es, o, evicted)
      else
        match es !! oldest with
        | Some entry =>
            if entry.(access) =? number then evict max (delete oldest es) rest (wrap_u64 (evicted + 1))
            else evict max es rest evicted
        | None => evict max es rest evicted
        end
  end.

Definition PlayerCache_store (self : PlayerCache) (player : PlayerKey) (s : PlayerSnapshot T) (now : Z) :
    Result unit * PlayerCache :=
  let? _ := PlayerKey_validate player else self in
  let '(number, self) := draw_access self in
  if match self.(entries) !! player with
     | Some current => s.(version) <? current.(snapshot).(version)
     | None => false
     end then
    (Err (InvalidConfig "stale player snapshot"), self)
  else
    let entry := {| snapshot := s; expires_at := now + self.(config).(ttl); access := number |} in
    let self := record_access (with_entries self (<[player := entry]> self.(entries))) player number in
    let '(es, o, evicted) := evict self.(config).(max_entries) self.(entries) self.(order) self.(evictions) in
    (Ok (), {| config := self.(config); entries := es; order := o; clock := self.(clock); hits := self.(hits);
               misses := self.(misses); load_count := self.(load_count); evictions := evicted |}).

Definition PlayerCache_invalidate (self : PlayerCache) (player : PlayerKey) (minimum_version : Z) :
    bool * PlayerCache :=
  match self.(entries) !! player with
  | Some entry =>
      if (minimum_version =? 0) || (entry.(snapshot).(version) <? minimum_version)
      then (true, with_entries self (delete player self.(entries)))
      else (false, self)
  | None => (false, self)
  end.

Definition PlayerCache_len (self : PlayerCache) (now : Z) : Z * PlayerCache :=
  let es := filter (fun p => now < p.2.(expires_at)) self.(entries) in
  (Z.of_nat (size es), with_entries self es).

Definition PlayerCache_is_empty (self : PlayerCache) (now : Z) : bool * PlayerCache :=
  let '(n, self) := PlayerCache_len self now in (n =? 0, self).

Definition PlayerCache_stats (self : PlayerCache) : PlayerCacheStats :=
  {| stats_hits := self.(hits); stats_misses := self.(misses); stats_loads := self.(load_count);
     stats_evictions := self.(evictions) |}.

Definition count_hit (self : PlayerCache) : PlayerCache :=
  {| config := self.(config); entries := self.(entries); order := self.(order); clock := self.(clock);
     hits := wrap_u64 (self.(hits) + 1); misses := self.(misses); load_count := self.(load_count);
     evictions := self.(evictions) |}.
Definition count_miss (self : PlayerCache) : PlayerCache :=
  {| config := self.(config); entries := self.(entries); order := self.(order); clock := self.(clock);
     hits := self.(hits); misses := wrap_u64 (self.(misses) + 1); load_count := self.(load_count);
     evictions := self.(evictions) |}.
Definition count_load (self : PlayerCache) : PlayerCache :=
  {| config := self.(config); entries := self.(entries); order := self.(order); clock := self.(clock);
     hits := self.(hits); misses := self.(misses); load_count := wrap_u64 (self.(load_count) + 1);
     evictions := self.(evictions) |}.

(** [load] by a task alone: the clock is read for the first lookup, for the one under the load lock and for
    the store. *)
Definition PlayerCache_load (self : PlayerCache) (player : PlayerKey)
    (loader : PlayerKey -> Result (PlayerSnapshot T)) (t1 t2 t3 : Z) :
    Result (PlayerSnapshot T) * PlayerCache :=
  let? _ := PlayerKey_validate player else self in
  let '(found, self) := PlayerCache_lookup self player t1 in
  match found with
  | Some s => (Ok s, count_hit self)
  | None =>
      let '(found, self) := PlayerCache_lookup (count_miss self) player t2 in
      match found with
      | Some s => (Ok s, self)
      | None =>
          let self := count_load self in
          let? loaded := loader player else self in
          let '(stored, self) := PlayerCache_store self player loaded t3 in
          let? _ := stored else self in
          (Ok loaded, self)
      end
  end.

(** ** The queue covers the entries *)

(** The queue lists accesses in order, the last access of every entry among them. *)
Record cache_inv (self : PlayerCache) : Prop := {
  cache_positive : 0 < self.(config).(max_entries) <= usize_max;
  cache_clock : 0 <= self.(clock);
  cache_order : increasing snd self.(order) /\ Forall (fun p => p.2 < self.(clock)) self.(order);
  cache_covered : forall k e, self.(entries) !! k = Some e -> (k, e.(access)) ∈ self.(order);
  cache_size : Z.of_nat (size self.(entries)) <= self.(config).(max_entries);
  cache_queue : len self.(order) <= self.(config).(max_entries) * 4;
}.

Definition covered (es : gmap PlayerKey Entry) (o : list (PlayerKey * Z)) : Prop :=
  forall k e, es !! k = Some e -> (k, e.(access)) ∈ o.

Lemma covered_distinct es o k k' e e' :
  increasing snd o -> covered es o -> es !! k = Some e -> es !! k' = Some e' -> e.(access) = e'.(access) -> k = k'.
Proof.
  intros Hinc Hc Hk Hk' Ha. pose proof (Hc k e Hk) as H1. pose proof (Hc k' e' Hk') as H2.
  assert (Heq : (k, access e) = (k', access e')) by (by eapply increasing_key_inj). by injection Heq.
Qed.

(** The eviction loop leaves at most [max] entries: when one is too many, the one with the oldest access
    goes. *)
Lemma evict_spec max o : forall es n es' o' n',
  evict max es o n = (es', o', n') -> 0 <= max -> increasing snd o -> covered es o ->
  Z.of_nat (size es) <= max + 1 ->
  Z.of_nat (size es') <= max /\ covered es' o' /\ o' `suffix_of` o
  /\ (es' = es \/ exists k e, es !! k = Some e /\ es' = delete k es /\ Z.of_nat (size es) = max + 1
       /\ forall k' e', es !! k' = Some e' -> e.(access) <= e'.(access)).
Proof.
  induction o as [|[oldest number] rest IH]; intros es n es' o' n' Hev Hmax Hinc Hc Hsize; cbn [evict] in Hev.
  { injection Hev as <- <- <-. assert (es = ∅) as ->.
    { apply map_empty. intros k. destruct (es !! k) as [e|] eqn:E; [|done]. apply Hc in E. set_solver. }
    rewrite map_size_empty. split_and!; [lia|done|done|by left]. }
  destruct (Z.leb_spec (Z.of_nat (size es)) max) as [Hle|Hgt].
  { injection Hev as <- <- <-. split_and!; [done..|by left]. }
  apply increasing_cons in Hinc as [Hhead Hinc]. rewrite Forall_forall in Hhead. cbn in Hhead.
  assert (Hskip : (forall e, es !! oldest = Some e -> e.(access) <> number) -> covered es rest).
  { intros Hne k e Hk. pose proof (Hc k e Hk) as Hin. apply elem_of_cons in Hin as [Heq|Hin]; [|done].
    injection Heq as -> Ha. by destruct (Hne e Hk Ha). }
  destruct (es !! oldest) as [entry|] eqn:Eo; [destruct (Z.eqb_spec (access entry) number) as [Ha|Ha]|].
  - assert (Hc' : covered (delete oldest es) rest).
    { intros k e [Hne Hk]%lookup_delete_Some. pose proof (Hc k e Hk) as Hin.
      apply elem_of_cons in Hin as [Heq|Hin]; [|done]. by injection Heq. }
    assert (Hs : Z.of_nat (size (delete oldest es)) = Z.of_nat (size es) - 1).
    { rewrite map_size_delete, Eo. assert (size es <> 0%nat); [|lia]. intros E0%map_size_empty_inv.
      by rewrite E0, lookup_empty in Eo. }
    assert (Hstop : forall o0 m, evict max (delete oldest es) o0 m = (delete oldest es, o0, m)).
    { intros o0 m. destruct o0 as [|[k0 n0] o0]; [done|]. cbn.
      by destruct (Z.leb_spec (Z.of_nat (size (delete oldest es))) max); [|lia]. }
    rewrite Hstop in Hev. injection Hev as <- <- <-. split_and!; [lia|done|by apply suffix_cons_r|].
    right. exists oldest, entry. split_and!; [done|done|lia|]. intros k' e' Hk'.
    pose proof (Hc k' e' Hk') as Hin. apply elem_of_cons in Hin as [Heq|Hin].
    + injection Heq as -> ->. lia.
    + specialize (Hhead _ Hin). cbn in Hhead. lia.
  - apply IH in Hev as (H1 & H2 & H3 & H4); [|done|done|apply Hskip; intros e [= <-]; done|done].
    split_and!; [done|done|by apply suffix_cons_r|done].
  - apply IH in Hev as (H1 & H2 & H3 & H4); [|done|done|apply Hskip; done|done].
    split_and!; [done|done|by apply suffix_cons_r|done].
Qed.

Lemma current_order_spec es o :
  increasing snd o -> covered es o ->
  increasing snd (current_order es) /\ covered es (current_order es)
  /\ (forall p, p ∈ current_order es -> p ∈ o) /\ len (current_order es) = Z.of_nat (size es).
Proof.
  intros Hinc Hc. unfold current_order. split_and!.
  - apply sort_by_key_increasing. rewrite <-list_fmap_compose. apply NoDup_fmap_2_strong; [|apply NoDup_map_to_list].
    intros [k e] [k' e'] Hk%elem_of_map_to_list Hk'%elem_of_map_to_list Ha. cbn in Ha.
    assert (k = k') as <- by (by eapply covered_distinct). congruence.
  - intros k e Hk. unfold sort_by_key. rewrite elem_of_sort_by. apply list_elem_of_fmap.
    exists (k, e). by rewrite elem_of_map_to_list.
  - intros p. unfold sort_by_key. rewrite elem_of_sort_by, list_elem_of_fmap.
    intros ([k e] & -> & Hk%elem_of_map_to_list). by apply Hc.
  - unfold len, sort_by_key. rewrite length_sort_by, length_fmap, length_map_to_list. done.
Qed.

(** Recording an access keeps the queue in order, over the entries and short. *)
Lemma record_access_spec self player number :
  0 < self.(config).(max_entries) <= usize_max ->
  increasing snd self.(order) -> Forall (fun p => p.2 < number) self.(order) ->
  covered self.(entries) (self.(order) ++ [(player, number)]) ->
  Z.of_nat (size self.(entries)) <= self.(config).(max_entries) + 1 ->
  let o := (record_access self player number).(order) in
  increasing snd o /\ Forall (fun p => p.2 <= number) o /\ covered self.(entries) o
  /\ len o <= self.(config).(max_entries) * 4.
Proof.
  intros Hmax Hinc Hlt Hc Hsize. unfold record_access. cbn. set (o := order self ++ [_]) in *.
  assert (Hinc' : increasing snd o) by (by apply increasing_snoc).
  assert (Hle : Forall (fun p => p.2 <= number) o).
  { apply Forall_app. split; [|by apply Forall_singleton]. eapply Forall_impl; [exact Hlt|]. cbn. lia. }
  destruct (Z.ltb_spec (saturating_mul usize_max (max_entries (config self)) 4) (len o)) as [Hlong|Hshort].
  - destruct (current_order_spec (entries self) o Hinc' Hc) as (H1 & H2 & H3 & H4). split_and!; [done| |done|lia].
    rewrite Forall_forall in *. intros p Hp. by apply Hle, H3.
  - split_and!; [done|done|done|]. unfold saturating_mul in Hshort. lia.
Qed.

(** ** Operations keep the invariant *)

Lemma draw_access_inv self :
  cache_inv self -> self.(clock) < u64_max ->
  cache_inv (draw_access self).2 /\ (draw_access self).2.(clock) = self.(clock) + 1.
Proof.
  intros [Hp Hc [Hi Hl] Hcov Hs Hq] Hmax.
  assert (Hw : wrap_u64 (clock self + 1) = clock self + 1).
  { unfold wrap_u64. apply Z.mod_small. unfold u64_max in Hmax. lia. }
  split; [|exact Hw]. split; cbn; rewrite ?Hw; try done; try lia. split; [done|].
  eapply Forall_impl; [exact Hl|]. cbn. lia.
Qed.

(** Entries that go take nothing from the invariant. *)
Lemma fewer_entries_inv self es :
  cache_inv self -> (forall k e, es !! k = Some e -> self.(entries) !! k = Some e) -> cache_inv (with_entries self es).
Proof.
  intros [Hp Hc Ho Hcov Hs Hq] Hsub. split; cbn; try done.
  - intros k e Hk. by apply Hcov, Hsub.
  - assert (Hle : es ⊆ entries self) by (by apply map_subseteq_spec). apply map_subseteq_size in Hle. lia.
Qed.

(** A new or updated entry with the access number just drawn. *)
Lemma touch_spec self player e :
  cache_inv self -> self.(clock) < u64_max -> e.(access) = self.(clock) ->
  let self1 := with_entries (draw_access self).2 (<[player := e]> self.(entries)) in
  let self2 := record_access self1 player self.(clock) in
  increasing snd self2.(order) /\ Forall (fun p => p.2 <= self.(clock)) self2.(order)
  /\ covered (<[player := e]> self.(entries)) self2.(order)
  /\ len self2.(order) <= self.(config).(max_entries) * 4
  /\ Z.of_nat (size (<[player := e]> self.(entries))) <= self.(config).(max_entries) + 1.
Proof.
  intros [Hp Hc [Hi Hl] Hcov Hs Hq] Hmax Ha. cbn zeta.
  assert (Hsize : Z.of_nat (size (<[player := e]> self.(entries))) <= self.(config).(max_entries) + 1).
  { rewrite map_size_insert. destruct (entries self !! player); cbn; lia. }
  assert (Hcov' : covered (<[player := e]> self.(entries)) (self.(order) ++ [(player, self.(clock))])).
  { intros k e' [[<- <-]|[_ Hk]]%lookup_insert_Some; apply elem_of_app; [right|left; by apply Hcov].
    rewrite Ha. apply list_elem_of_singleton. done. }
  destruct (record_access_spec (with_entries (draw_access self).2 (<[player := e]> self.(entries))) player self.(clock))
    as (H1 & H2 & H3 & H4); [done..|]. by split_and!.
Qed.

Lemma lookup_inv self player now :
  cache_inv self -> self.(clock) < u64_max ->
  cache_inv (PlayerCache_lookup self player now).2
  /\ (PlayerCache_lookup self player now).2.(clock) = self.(clock) + 1
  /\ (PlayerCache_lookup self player now).2.(config) = self.(config).
Proof.
  intros Hinv Hmax. destruct (draw_access_inv self Hinv Hmax) as [Hd Hclk]. unfold PlayerCache_lookup. cbn.
  destruct (entries self !! player) as [entry|] eqn:E; [|done].
  destruct (_ <=? now); cbn.
  { split; [|done]. apply fewer_entries_inv; [done|]. by intros k e [_ Hk]%lookup_delete_Some. }
  split; [|done]. set (e := Build_Entry _ _ _).
  destruct (touch_spec self player e Hinv Hmax eq_refl) as (H1 & H2 & H3 & H4 & H5).
  destruct Hinv as [Hp Hc _ _ Hs _]. cbn in Hclk. split; cbn; rewrite ?Hclk; try done; try lia.
  - split; [exact H1|]. eapply Forall_impl; [exact H2|]. cbn. lia.
  - rewrite map_size_insert, E. done.
Qed.

(** What a store that is not refused does. *)
Lemma store_spec self player s now res self' :
  PlayerCache_store self player s now = (res, self') -> cache_inv self -> self.(clock) < u64_max ->
  cache_inv self' /\ self'.(clock) <= self.(clock) + 1 /\ self'.(config) = self.(config)
  /\ match res with
     | Err _ => self'.(entries) = self.(entries)
     | Ok _ =>
         let e := {| snapshot := s; expires_at := now + self.(config).(ttl); access := self.(clock) |} in
         self'.(entries) !! player = Some e
         /\ (self'.(entries) = <[player := e]> self.(entries)
             \/ exists k old, k <> player /\ self.(entries) !! k = Some old
                  /\ self'.(entries) = delete k (<[player := e]> self.(entries))
                  /\ self.(entries) !! player = None
                  /\ Z.of_nat (size self.(entries)) = self.(config).(max_entries)
                  /\ forall k' e', self.(entries) !! k' = Some e' -> old.(access) <= e'.(access))
     end.
Proof.
  intros Hst Hinv Hmax. unfold PlayerCache_store in Hst.
  destruct (PlayerKey_validate player); [|injection Hst as <- <-; split_and!; [done|lia|done|done]].
  destruct (draw_access_inv self Hinv Hmax) as [Hd Hclk]. cbn [draw_access fst snd] in Hst.
  destruct (match _ !! player with Some _ => _ | None => _ end).
  { injection Hst as <- <-. split; [exact Hd|]. cbn in Hclk. cbn. rewrite Hclk. split_and!; [lia|done|done]. }
  set (e := Build_Entry s _ _) in Hst. cbn [entries with_entries] in Hst.
  destruct (touch_spec self player e Hinv Hmax eq_refl) as (H1 & H2 & H3 & H4 & H5).
  set (self2 := record_access _ _ _) in Hst, H1, H2, H3, H4.
  change (entries self2) with (<[player := e]> (entries self)) in Hst.
  change (config self2) with (config self) in Hst. change (clock self2) with (wrap_u64 (clock self + 1)) in Hst.
  destruct Hinv as [Hp Hc [_ Hbefore] Hcov Hs _]. cbn in Hclk. rewrite Hclk in Hst.
  destruct (evict _ _ _ _) as [[es o] evicted] eqn:Hev. injection Hst as <- <-.
  apply evict_spec in Hev as (E1 & E2 & [skipped Hsuf] & E4); [|lia|exact H1|exact H3|exact H5].
  rewrite Hsuf in H1, H2. cbn.
  refine (conj _ (conj _ (conj eq_refl _))); [|lia|].
  { split; cbn; try done; try lia.
    - split; [by eapply increasing_app_r|]. apply Forall_app in H2 as [_ H2]. eapply Forall_impl; [exact H2|]. cbn. lia.
    - rewrite Hsuf, len_app in H4. pose proof (len_nonneg skipped). lia. }
  destruct E4 as [->|(k & old & Hk & -> & Hfull & Hmin)].
  { rewrite lookup_insert, decide_True by done. split; [done|by left]. }
  assert (Hold : forall k' e', entries self !! k' = Some e' -> access e' < clock self).
  { intros k' e' Hk'. apply Hcov in Hk'. rewrite Forall_forall in Hbefore. by apply (Hbefore _ Hk'). }
  rewrite map_size_insert in Hfull. destruct (entries self !! player) as [old0|] eqn:Epl; [cbn in Hfull; lia|].
  cbn in Hfull. assert (Hne : k <> player).
  { intros ->. rewrite lookup_insert, decide_True in Hk by done. injection Hk as <-.
    destruct (map_choose (entries self)) as (k' & e' & Hk'); [intros E0; rewrite E0, map_size_empty in Hfull; lia|].
    assert (Hkp : k' <> player) by congruence. specialize (Hold k' e' Hk').
    specialize (Hmin k' e'). rewrite lookup_insert_ne in Hmin by done. specialize (Hmin Hk'). cbn in Hmin. lia. }
  rewrite lookup_insert_ne in Hk by done.
  split; [by rewrite lookup_delete_ne, lookup_insert, decide_True|]. right. exists k, old.
  split_and!; [done..|lia|]. intros k' e' Hk'. apply (Hmin k'). rewrite lookup_insert_ne; [done|congruence].
Qed.

(** ** Runs *)

Inductive cache_op : Type :=
| OpLookup (player : PlayerKey) (now : Z)
| OpStore (player : PlayerKey) (s : PlayerSnapshot T) (now : Z)
| OpInvalidate (player : PlayerKey) (minimum_version : Z)
| OpLen (now : Z).

Definition run_op (self : PlayerCache) (o : cache_op) : PlayerCache :=
  match o with
  | OpLookup player now => (PlayerCache_lookup self player now).2
  | OpStore player s now => (PlayerCache_store self player s now).2
  | OpInvalidate player v => (PlayerCache_invalidate self player v).2
  | OpLen now => (PlayerCache_len self now).2
  end.

Lemma run_op_inv self o :
  cache_inv self -> self.(clock) < u64_max ->
  cache_inv (run_op self o) /\ (run_op self o).(clock) <= self.(clock) + 1
  /\ (run_op self o).(config) = self.(config).
Proof.
  intros Hinv Hmax. destruct o as [player now|player s now|player v|now]; cbn [run_op].
  - destruct (lookup_inv self player now Hinv Hmax) as (H1 & H2 & H3). split_and!; [done|lia|done].
  - destruct (PlayerCache_store self player s now) as [res self'] eqn:Hst.
    destruct (store_spec _ _ _ _ _ _ Hst Hinv Hmax) as (H1 & H2 & H3 & _). split_and!; done.
  - unfold PlayerCache_invalidate. destruct (_ !! _) as [entry|]; [|split_and!; [done|cbn; lia|done]].
    destruct (_ || _); [|split_and!; [done|cbn; lia|done]]. split_and!; [|cbn; lia|done].
    apply fewer_entries_inv; [done|]. by intros k e [_ Hk]%lookup_delete_Some.
  - split_and!; [|cbn; lia|done]. apply fewer_entries_inv; [done|]. by intros k e [Hk _]%map_lookup_filter_Some.
Qed.

Lemma run_ops_inv cfg c0 ops :
  PlayerCache_new cfg = Ok c0 -> 0 <= cfg.(max_entries) <= usize_max -> len ops < u64_max ->
  let c := foldl run_op c0 ops in
  cache_inv c /\ c.(clock) <= len ops /\ c.(config) = cfg.
Proof.
  intros Hnew Hcfg Hlen. unfold PlayerCache_new in Hnew.
  destruct (Z.eqb_spec (max_entries cfg) 0); [by rewrite orb_true_r in Hnew|]. destruct (_ || _); [done|].
  injection Hnew as Hc0. assert (H0 : cache_inv c0 /\ c0.(clock) = 0 /\ c0.(config) = cfg).
  { subst c0. split; [|done]. split; cbn; try done; try lia.
    - split; [apply increasing_nil|by apply Forall_nil].
    - rewrite map_size_empty. lia.
    - unfold len. cbn. lia. }
  destruct H0 as (Hinv & Hclk & Hc). cbn zeta. revert Hlen. induction ops as [|o ops IH] using rev_ind; intros Hlen.
  { cbn. unfold len. cbn. split_and!; [done|lia|done]. }
  rewrite len_app, len_cons, len_nil in *. destruct IH as (I1 & I2 & I3); [lia|]. rewrite foldl_app. cbn [foldl].
  destruct (run_op_inv _ o I1 ltac:(lia)) as (J1 & J2 & J3). split_and!; [done|lia|congruence].
Qed.

(** The cache is bounded: whatever is looked up, stored, invalidated and expired, it never holds more than
    the configured number of players, and its queue of accesses never more than four times as many. *)
Theorem player_cache_bounded cfg c0 ops :
  PlayerCache_new cfg = Ok c0 -> 0 <= cfg.(max_entries) <= usize_max -> len ops < u64_max ->
  let c := foldl run_op c0 ops in
  Z.of_nat (size c.(entries)) <= cfg.(max_entries) /\ len c.(order) <= cfg.(max_entries) * 4.
Proof.
  intros Hnew Hcfg Hlen. destruct (run_ops_inv cfg c0 ops Hnew Hcfg Hlen) as ([_ _ _ _ Hs Hq] & _ & Hc).
  rewrite Hc in Hs, Hq. done.
Qed.

(** The cache evicts the least recently used player: in any state of the cache, storing a snapshot that is
    not older than the cached one puts it in the cache with its expiry, and takes at most one other player
    out, only when a new player comes into a full cache, and then one whose last access is the oldest of
    all; an older snapshot is refused and changes no entry. *)
Theorem player_cache_store cfg c0 ops player s now :
  PlayerCache_new cfg = Ok c0 -> 0 <= cfg.(max_entries) <= usize_max -> len ops < u64_max ->
  PlayerKey_validate player = Ok () ->
  let c := foldl run_op c0 ops in
  let '(res, c') := PlayerCache_store c player s now in
  match c.(entries) !! player with
  | Some cached => (version s < version cached.(snapshot)) <-> is_ok res = false
  | None => res = Ok ()
  end
  /\ match res with
     | Err _ => c'.(entries) = c.(entries)
     | Ok _ =>
         let e := {| snapshot := s; expires_at := now + cfg.(ttl); access := c.(clock) |} in
         c'.(entries) !! player = Some e
         /\ (c'.(entries) = <[player := e]> c.(entries)
             \/ exists k old, k <> player /\ c.(entries) !! k = Some old
                  /\ c'.(entries) = delete k (<[player := e]> c.(entries))
                  /\ c.(entries) !! player = None
                  /\ Z.of_nat (size c.(entries)) = cfg.(max_entries)
                  /\ forall k' e', c.(entries) !! k' = Some e' -> old.(access) <= e'.(access))
     end.
Proof.
  intros Hnew Hcfg Hlen Hv. destruct (run_ops_inv cfg c0 ops Hnew Hcfg Hlen) as (Hinv & Hclk & Hc).
  cbn zeta. set (c := foldl run_op c0 ops) in *. clearbody c.
  destruct (PlayerCache_store c player s now) as [res c'] eqn:Hst. split.
  - clear Hinv. unfold PlayerCache_store in Hst. rewrite Hv in Hst. cbn in Hst.
    destruct (entries c !! player) as [cached|].
    + destruct (Z.ltb_spec (version s) (version (snapshot cached))); [by injection Hst as <- _|].
      destruct (evict _ _ _ _) as [[es o] n]. injection Hst as <- _. cbn. split; [lia|done].
    + destruct (evict _ _ _ _) as [[es o] n]. by injection Hst as <- _.
  - destruct (store_spec _ _ _ _ _ _ Hst Hinv ltac:(lia)) as (_ & _ & _ & Hres). by rewrite Hc in Hres.
Qed.
End cache.
Arguments PlayerCache T : clear implicits.

(** ** A run *)

Definition sample_player (user : Z) : PlayerKey := {| region_id := 1; realm_id := 1; user_id := user |}.
Definition sample_snapshot (v : Z) : PlayerSnapshot Z := {| value := v; version := v |}.
Definition sample_config : PlayerCacheConfig := {| ttl := 100; max_entries := 2 |}.
Definition sample_cache : PlayerCache Z :=
  {| config := sample_config; entries := ∅; order := []; clock := 0; hits := 0; misses := 0;
     load_count := 0; evictions := 0 |}.

(** Two players, the first looked up again: the second is the one to go. *)
Definition sample_ops : list cache_op :=
  [OpStore (sample_player 1) (sample_snapshot 1) 0; OpStore (sample_player 2) (sample_snapshot 1) 1;
   OpLookup (sample_player 1) 2].

Lemma player_cache_bounded_witness :
  let c := foldl run_op sample_cache (sample_ops ++ [OpStore (sample_player 3) (sample_snapshot 1) 3]) in
  c.(evictions) = 1 /\ Z.of_nat (size c.(entries)) <= 2.
Proof.
  split; [vm_compute; reflexivity|].
  apply (player_cache_bounded sample_config sample_cache
    (sample_ops ++ [OpStore (sample_player 3) (sample_snapshot 1) 3]) eq_refl); [|done]. done.
Defined.

Lemma player_cache_store_witness :
  let c := foldl run_op sample_cache sample_ops in
  (PlayerCache_store c (sample_player 3) (sample_snapshot 1) 3).2.(entries) !! sample_player 2 = None
  /\ let '(res, c') := PlayerCache_store c (sample_player 3) (sample_snapshot 1) 3 in
     match c.(entries) !! sample_player 3 with
     | Some cached => (1 < version cached.(snapshot)) <-> is_ok res = false
     | None => res = Ok ()
     end.
Proof.
  cbn zeta. split; [vm_compute; reflexivity|].
  pose proof (player_cache_store sample_config sample_cache sample_ops (sample_player 3) (sample_snapshot 1) 3
    eq_refl ltac:(done) ltac:(done) eq_refl) as H. cbn zeta in H.
  destruct (PlayerCache_store (foldl run_op sample_cache sample_ops) (sample_player 3) (sample_snapshot 1) 3) as [res c'].
  exact (proj1 H).
Defined.

(** ** Coalescing of loads

    The tasks that load a player.  [LoadTable] holds the [Weak] of the player's lock; a lock is alive
    while some task holds its [Arc], and its strong count is their number.  [LoadGuard::drop] reads
    the strong count before it takes the lock of the table. *)

Inductive load_phase : Type :=
| Waiting
| Loading
| Dropping
| Removing.

Record loader : Type := { loader_lock : nat; loader_phase : load_phase }.

Record LoadTable : Type := { weak : option nat; loaders : gmap nat loader; locks_made : nat }.

Definition LoadTable_default : LoadTable := {| weak := None; loaders := ∅; locks_made := 0 |}.

Definition lock_count (self : LoadTable) (l : nat) : nat :=
  size (filter (fun p => p.2.(loader_lock) = l) self.(loaders)).

Definition set_loader (self : LoadTable) (id : nat) (t : loader) : LoadTable :=
  {| weak := self.(weak); loaders := <[id := t]> self.(loaders); locks_made := self.(locks_made) |}.

(** [load_lock]: the live lock of the table, or a new one. *)
Definition load_lock (self : LoadTable) (id : nat) : LoadTable :=
  let fresh :=
    {| weak := Some self.(locks_made);
       loaders := <[id := {| loader_lock := self.(locks_made); loader_phase := Waiting |}]> self.(loaders);
       locks_made := S self.(locks_made) |} in
  match self.(weak) with
  | Some l =>
      if (0 <? lock_count self l)%nat then set_loader self id {| loader_lock := l; loader_phase := Waiting |}
      else fresh
  | None => fresh
  end.

(** The read of the strong count in [LoadGuard::drop]. *)
Definition guard_check (self : LoadTable) (id l : nat) : LoadTable :=
  if (lock_count self l =? 1)%nat then set_loader self id {| loader_lock := l; loader_phase := Removing |}
  else {| weak := self.(weak); loaders := delete id self.(loaders); locks_made := self.(locks_made) |}.

(** The rest of [LoadGuard::drop]. *)
Definition guard_remove (self : LoadTable) (id l : nat) : LoadTable :=
  {| weak := if bool_decide (self.(weak) = Some l) then None else self.(weak);
     loaders := delete id self.(loaders); locks_made := self.(locks_made) |}.

Inductive load_step : LoadTable -> LoadTable -> Prop :=
| load_enter t id : t.(loaders) !! id = None -> load_step t (load_lock t id)
| load_begin t id l :
    t.(loaders) !! id = Some {| loader_lock := l; loader_phase := Waiting |} ->
    map_Forall (fun _ u => ~ (u.(loader_lock) = l /\ u.(loader_phase) = Loading)) t.(loaders) ->
    load_step t (set_loader t id {| loader_lock := l; loader_phase := Loading |})
| load_end t id l :
    t.(loaders) !! id = Some {| loader_lock := l; loader_phase := Loading |} ->
    load_step t (set_loader t id {| loader_lock := l; loader_phase := Dropping |})
| load_check t id l :
    t.(loaders) !! id = Some {| loader_lock := l; loader_phase := Dropping |} -> load_step t (guard_check t id l)
| load_remove t id l :
    t.(loaders) !! id = Some {| loader_lock := l; loader_phase := Removing |} -> load_step t (guard_remove t id l).

(** After a load that stored nothing, two later tasks can load the player at the same time: the second gets the
    first's lock between the first's check of the strong count and its removal of the lock from the
    table, so a third makes a new lock. *)
Lemma loads_can_overlap :
  exists t, rtc load_step LoadTable_default t
    /\ t.(loaders) !! 2%nat = Some {| loader_lock := 0; loader_phase := Loading |}
    /\ t.(loaders) !! 3%nat = Some {| loader_lock := 1; loader_phase := Loading |}.
Proof.
  set (at_ := fun l ph => {| loader_lock := l; loader_phase := ph |}).
  set (st := fun w ls n => {| weak := w; loaders := list_to_map ls; locks_made := n |}).
  exists (st (Some 1%nat) [(3, at_ 1 Loading); (2, at_ 0 Loading)]%nat 2%nat).
  split; [|split; vm_compute; reflexivity].
  eapply (rtc_l _ _ (st (Some 0%nat) [(1, at_ 0 Waiting)]%nat 1%nat)); [exact (load_enter LoadTable_default 1%nat eq_refl)|].
  eapply (rtc_l _ _ (st (Some 0%nat) [(1, at_ 0 Loading)]%nat 1%nat)).
  { apply (load_begin (st (Some 0%nat) [(1, at_ 0 Waiting)]%nat 1%nat) 1 0); [done|].
    apply map_Forall_insert_2; [by intros []|apply map_Forall_empty]. }
  eapply (rtc_l _ _ (st (Some 0%nat) [(1, at_ 0 Dropping)]%nat 1%nat));
    [by apply (load_end (st (Some 0%nat) [(1, at_ 0 Loading)]%nat 1%nat) 1 0)|].
  eapply (rtc_l _ _ (st (Some 0%nat) [(1, at_ 0 Removing)]%nat 1%nat));
    [by apply (load_check (st (Some 0%nat) [(1, at_ 0 Dropping)]%nat 1%nat) 1 0)|].
  eapply (rtc_l _ _ (st (Some 0%nat) [(2, at_ 0 Waiting); (1, at_ 0 Removing)]%nat 1%nat));
    [by apply (load_enter (st (Some 0%nat) [(1, at_ 0 Removing)]%nat 1%nat) 2)|].
  eapply (rtc_l _ _ (st None [(2, at_ 0 Waiting)]%nat 1%nat));
    [by apply (load_remove (st (Some 0%nat) [(2, at_ 0 Waiting); (1, at_ 0 Removing)]%nat 1%nat) 1 0)|].
  eapply (rtc_l _ _ (st (Some 1%nat) [(3, at_ 1 Waiting); (2, at_ 0 Waiting)]%nat 2%nat));
    [by apply (load_enter (st None [(2, at_ 0 Waiting)]%nat 1%nat) 3)|].
  eapply (rtc_l _ _ (st (Some 1%nat) [(3, at_ 1 Waiting); (2, at_ 0 Loading)]%nat 2%nat)).
  { apply (load_begin (st (Some 1%nat) [(3, at_ 1 Waiting); (2, at_ 0 Waiting)]%nat 2%nat) 2 0); [done|].
    apply map_Forall_insert_2; [by intros []|]. apply map_Forall_insert_2; [by intros []|apply map_Forall_empty]. }
  apply rtc_once. apply (load_begin (st (Some 1%nat) [(3, at_ 1 Waiting); (2, at_ 0 Loading)]%nat 2%nat) 3 1); [done|].
  apply map_Forall_insert_2; [by intros []|]. apply map_Forall_insert_2; [by intros [Hl _]|apply map_Forall_empty].
Qed.
