(* ===== verification/ServiceMessages.v ===== *)
(** * Messages between services: [crates/elura-core/src/gateway_world.rs],
    [crates/elura-core/src/realm_gateway.rs], [crates/elura-runtime/src/security/auth.rs]

    The request a gateway submits to a world, the command that travels, its Protobuf message and the
    conversions between them; the shared token that authorises internal calls; the directory of public
    gateway endpoints.  A [Duration] is its nanoseconds.  [prost] (the Protobuf encoding) and [uuid] (the
    text of an identifier) are parameters, with their round trips as laws. *)

From Stdlib Require Import Ascii.
From stdpp Require Import pretty.
From S2P Require Import Prelude Bytes CoreError Identity Ownership.

(** ** Commands *)

Record WorldRequest : Type := {
  request_identity : Identity;
  request_session_id : Z;
  request_trace_id : string;
  request_route : Z;
  world_request_id : Z;
  request_payload : list Z;
  request_ownership : option Assignment;
  request_timeout : Z;
}.

Record WorldCommand : Type := {
  authorization : option string;
  command_identity : Identity;
  command_session_id : string;
  command_trace_id : string;
  command_request_id : Z;
  command_payload : list Z;
  command_shard_id : option Z;
  owner_id : option string;
  owner_epoch : option Z;
  command_timeout : Z;
}.

Record GatewayWorldIdentity : Type := {
  wire_account_id : Z;
  wire_user_id : Z;
  wire_region_id : Z;
  wire_realm_id : Z;
  wire_generation : Z;
}.

Record GatewayWorldCommand : Type := {
  wire_identity : option GatewayWorldIdentity;
  wire_session_id : string;
  wire_trace_id : string;
  wire_request_id : Z;
  wire_payload : list Z;
  wire_authorization : option string;
  wire_shard_id : option Z;
  wire_owner_id : option string;
  wire_owner_epoch : option Z;
  timeout_millis : Z;
}.

Definition nanos_per_milli : Z := 1000000.

(** [Duration::as_millis] and [Duration::from_millis]. *)
Definition as_millis (d : Z) : Z := d / nanos_per_milli.
Definition from_millis (ms : Z) : Z := ms * nanos_per_milli.

Definition GatewayWorldIdentity_from (i : Identity) : GatewayWorldIdentity :=
  {| wire_account_id := i.(account_id); wire_user_id := i.(identity_user_id);
     wire_region_id := i.(identity_region_id); wire_realm_id := i.(identity_realm_id);
     wire_generation := i.(generation) |}.

Definition Identity_from (i : GatewayWorldIdentity) : Identity :=
  {| account_id := i.(wire_account_id); identity_user_id := i.(wire_user_id);
     identity_region_id := i.(wire_region_id); identity_realm_id := i.(wire_realm_id);
     generation := i.(wire_generation) |}.

Definition GatewayWorldCommand_from (c : WorldCommand) : GatewayWorldCommand :=
  {| wire_identity := Some (GatewayWorldIdentity_from c.(command_identity));
     wire_session_id := c.(command_session_id);
     wire_trace_id := c.(command_trace_id);
     wire_request_id := c.(command_request_id);
     wire_payload := c.(command_payload);
     wire_authorization := c.(authorization);
     wire_shard_id := c.(command_shard_id);
     wire_owner_id := c.(owner_id);
     wire_owner_epoch := c.(owner_epoch);
     timeout_millis :=
       (let ms := as_millis c.(command_timeout) in if ms <=? u64_max then ms else u64_max) |}.

Definition WorldCommand_try_from (c : GatewayWorldCommand) : Result WorldCommand :=
  if c.(timeout_millis) =? 0 then Err (InvalidFrame "Gateway-to-World timeout is zero")
  else
    let? i := ok_or c.(wire_identity) (InvalidFrame "missing Gateway-to-World identity") in
    Ok {| authorization := c.(wire_authorization);
          command_identity := Identity_from i;
          command_session_id := c.(wire_session_id);
          command_trace_id := c.(wire_trace_id);
          command_request_id := c.(wire_request_id);
          command_payload := c.(wire_payload);
          command_shard_id := c.(wire_shard_id);
          owner_id := c.(wire_owner_id);
          owner_epoch := c.(wire_owner_epoch);
          command_timeout := from_millis c.(timeout_millis) |}.

(** The Protobuf encoding of the command. *)
Class CommandProtobuf : Type := {
  encode_to_vec : GatewayWorldCommand -> list Z;
  decode : list Z -> option GatewayWorldCommand;
}.

(** The text of an identifier. *)
Class UuidText : Type := {
  uuid_to_string : Z -> string;
  uuid_parse_str : string -> option Z;
}.

Section wire.
Context `{!CommandProtobuf}.

Definition encode_frame_payload (self : GatewayWorldCommand) : list Z := encode_to_vec self.

Definition decode_frame_payload (input : list Z) : Result GatewayWorldCommand :=
  ok_or (decode input) (InvalidFrame "invalid Gateway-to-World Protobuf command").
End wire.

(** ** The internal token *)

Definition MIN_TOKEN_BYTES : Z := 32.
Definition MAX_TOKEN_BYTES : Z := 4096.

Record InternalToken : Type := { token : string }.

Definition InternalToken_new (token : string) : Result InternalToken :=
  if negb ((MIN_TOKEN_BYTES <=? string_len token) && (string_len token <=? MAX_TOKEN_BYTES)) then
    Err (InvalidConfig ("internal token must contain " +:+ pretty MIN_TOKEN_BYTES +:+ "..="
                        +:+ pretty MAX_TOKEN_BYTES +:+ " bytes"))
  else Ok {| token := token |}.

Definition InternalToken_expose (self : InternalToken) : string := self.(token).

(** [ct_eq] of the bytes, a comparison whose answer is equality. *)
Definition InternalToken_authorizes (self : InternalToken) (candidate : string) : bool :=
  bool_decide (string_bytes self.(token) = string_bytes candidate).

(** ** Public endpoints *)

Inductive GatewayEndpointTransport : Type := Tcp | Ws | Wss | Quic.

Record RealmGatewayEndpoint : Type := {
  endpoint_region_id : Z;
  endpoint_realm_id : Z;
  endpoint_transport : GatewayEndpointTransport;
  host : string;
  port : Z;
  path : string;
}.

(** [str::starts_with] of one ASCII character. *)
Definition starts_with (c : ascii) (s : string) : bool :=
  match s with String a _ => Ascii.eqb a c | EmptyString => false end.

Definition RealmGatewayEndpoint_validate (self : RealmGatewayEndpoint) : Result unit :=
  if (self.(endpoint_region_id) =? 0) || (self.(endpoint_realm_id) =? 0) || trim_is_empty self.(host)
     || any_whitespace (string_bytes self.(host)) || (self.(port) =? 0) then
    Err (InvalidConfig "invalid public Gateway endpoint")
  else
    match self.(endpoint_transport) with
    | Tcp | Quic =>
        if negb (String.eqb self.(path) "") then
          Err (InvalidConfig "TCP and QUIC Gateway endpoints cannot have a path")
        else Ok ()
    | Ws | Wss =>
        if negb (starts_with "/" self.(path)) then
          Err (InvalidConfig "WebSocket Gateway endpoint path must start with /")
        else Ok ()
    end.

Definition RealmGatewayEndpoint_address (self : RealmGatewayEndpoint) : Result string :=
  let? _ := RealmGatewayEndpoint_validate self in
  let authority := self.(host) +:+ ":" +:+ pretty self.(port) in
  match self.(endpoint_transport) with
  | Tcp => Ok authority
  | Ws => Ok ("ws://" +:+ authority +:+ self.(path))
  | Wss => Ok ("wss://" +:+ authority +:+ self.(path))
  | Quic => Ok ("quic://" +:+ authority)
  end.

Record RealmGatewayDirectory : Type := { endpoints : gmap (Z * Z) RealmGatewayEndpoint }.

Definition endpoint_key (e : RealmGatewayEndpoint) : Z * Z := (e.(endpoint_region_id), e.(endpoint_realm_id)).

(** The loop of [RealmGatewayDirectory::replace]. *)
Fixpoint collect_endpoints (next : gmap (Z * Z) RealmGatewayEndpoint) (l : list RealmGatewayEndpoint) :
    Result (gmap (Z * Z) RealmGatewayEndpoint) :=
  match l with
  | [] => Ok next
  | e :: l =>
      let? _ := RealmGatewayEndpoint_validate e in
      if bool_decide (is_Some (next !! endpoint_key e)) then
        Err (InvalidConfig "duplicate realm Gateway endpoint")
      else collect_endpoints (<[endpoint_key e := e]> next) l
  end.

Definition RealmGatewayDirectory_replace (self : RealmGatewayDirectory) (l : list RealmGatewayEndpoint) :
    Result unit * RealmGatewayDirectory :=
  let? next := collect_endpoints ∅ l else self in
  (Ok (), {| endpoints := next |}).

Definition RealmGatewayDirectory_resolve (self : RealmGatewayDirectory) (region realm : Z) :
    Result RealmGatewayEndpoint :=
  ok_or (self.(endpoints) !! (region, realm)) Unavailable.

(** ** Laws of the encodings *)

(** The values a command's fields can hold. *)
Record command_ok (c : GatewayWorldCommand) : Prop := {
  command_request_fits : u64_ok c.(wire_request_id);
  command_timeout_fits : u64_ok c.(timeout_millis);
  command_payload_bytes : bytes_ok c.(wire_payload);
  command_shard_fits : forall s, c.(wire_shard_id) = Some s -> fits u32_max s;
  command_epoch_fits : forall e, c.(wire_owner_epoch) = Some e -> u64_ok e;
  command_identity_fits : forall i, c.(wire_identity) = Some i ->
    Z.abs i.(wire_account_id) <= 9223372036854775807 /\ Z.abs i.(wire_user_id) <= 9223372036854775807 /\
    fits u32_max i.(wire_region_id) /\ fits u32_max i.(wire_realm_id) /\ u64_ok i.(wire_generation);
}.

Class CommandProtobufLaws `{!CommandProtobuf} : Prop := {
  encode_bytes c : command_ok c -> bytes_ok (encode_to_vec c);
  decode_encode c : command_ok c -> decode (encode_to_vec c) = Some c;
}.

Class UuidTextLaws `{!UuidText} : Prop := {
  parse_to_string id : fits u128_max id -> uuid_parse_str (uuid_to_string id) = Some id;
}.

(** ** What travels *)

(** The timeout a command arrives with: whole milliseconds. *)
Definition wire_timeout (d : Z) : Z := from_millis (Z.min (as_millis d) u64_max).

Definition with_timeout (c : WorldCommand) (t : Z) : WorldCommand :=
  {| authorization := c.(authorization); command_identity := c.(command_identity);
     command_session_id := c.(command_session_id); command_trace_id := c.(command_trace_id);
     command_request_id := c.(command_request_id); command_payload := c.(command_payload);
     command_shard_id := c.(command_shard_id); owner_id := c.(owner_id); owner_epoch := c.(owner_epoch);
     command_timeout := t |}.

Lemma identity_wire_round_trip i : Identity_from (GatewayWorldIdentity_from i) = i.
Proof. by destruct i. Qed.

Lemma timeout_millis_from c :
  (GatewayWorldCommand_from c).(timeout_millis) = Z.min (as_millis c.(command_timeout)) u64_max.
Proof. cbn. destruct (Z.leb_spec (as_millis c.(command_timeout)) u64_max); lia. Qed.

(** The message of a command reads back as the command with its timeout in whole milliseconds, and is
    refused when less than one is left. *)
Lemma command_message_round_trip c :
  WorldCommand_try_from (GatewayWorldCommand_from c) =
    if as_millis c.(command_timeout) =? 0 then Err (InvalidFrame "Gateway-to-World timeout is zero")
    else Ok (with_timeout c (wire_timeout c.(command_timeout))).
Proof.
  unfold WorldCommand_try_from. rewrite timeout_millis_from.
  destruct (Z.eqb_spec (as_millis c.(command_timeout)) 0) as [->|Hne]; [done|].
  destruct (Z.eqb_spec (Z.min (as_millis c.(command_timeout)) u64_max) 0); [unfold u64_max in *; lia|].
  cbn -[Z.min]. rewrite identity_wire_round_trip. unfold with_timeout, wire_timeout. do 2 f_equal.
Qed.

Lemma wire_timeout_le d : 0 <= d -> wire_timeout d <= d.
Proof.
  intros Hd. unfold wire_timeout, from_millis, as_millis, nanos_per_milli.
  pose proof (Z.div_mod d 1000000). pose proof (Z.mod_pos_bound d 1000000). lia.
Qed.

(** A whole number of milliseconds arrives as it left. *)
Lemma wire_timeout_exact ms : 0 <= ms <= u64_max -> wire_timeout (from_millis ms) = from_millis ms.
Proof.
  intros Hms. unfold wire_timeout, as_millis, from_millis, nanos_per_milli. rewrite Z.div_mul by lia. lia.
Qed.

(** ** Tokens authorise themselves and nothing else *)

Lemma string_bytes_inj s : forall s', string_bytes s = string_bytes s' -> s = s'.
Proof.
  induction s as [|b s IH]; intros [|b' s']; cbn; intros H; simplify_eq/=; [done|].
  f_equal; [|by apply IH].
  rewrite <- (Ascii.ascii_N_embedding b), <- (Ascii.ascii_N_embedding b'). f_equal. lia.
Qed.

Lemma authorizes_spec t candidate : InternalToken_authorizes t candidate = true <-> candidate = t.(token).
Proof.
  unfold InternalToken_authorizes. rewrite bool_decide_eq_true. split; [|by intros ->].
  intros H. by apply string_bytes_inj in H.
Qed.

(** The empty token, which stands for no token at all, is never accepted. *)
Lemma absent_token_refused s t : InternalToken_new s = Ok t -> InternalToken_authorizes t "" = false.
Proof.
  unfold InternalToken_new. destruct s as [|b s]; [done|]. destruct (negb _); [done|]. intros [= <-].
  by apply bool_decide_eq_false.
Qed.

(** ** The endpoint directory *)

Lemma collect_endpoints_spec l : forall next next',
  collect_endpoints next l = Ok next' ->
  (forall k e, next' !! k = Some e <-> next !! k = Some e \/ (e ∈ l /\ endpoint_key e = k)) /\
  (forall e, e ∈ l -> RealmGatewayEndpoint_validate e = Ok () /\ next !! endpoint_key e = None).
Proof.
  induction l as [|x l IH]; intros next next' H; cbn in H.
  { simplify_eq. split; [set_solver|set_solver]. }
  destruct (RealmGatewayEndpoint_validate x) as [[]|] eqn:Hv; [|done]. case_bool_decide as Hx; [done|].
  apply eq_None_not_Some in Hx. apply IH in H as [Hlook Hall]. split.
  - intros k e. rewrite Hlook, elem_of_cons. destruct (decide (k = endpoint_key x)) as [->|Hk].
    + rewrite lookup_insert_eq. rewrite Hx. split.
      * intros [[= <-]|[Hin He]]; [by right; split; [left|]|]. right. by split; [right|].
      * intros [?|[[->|Hin] He]]; [done|by left|]. right. done.
    + rewrite lookup_insert_ne by done. naive_solver.
  - intros e [->|Hin]%elem_of_cons; [done|]. destruct (Hall e Hin) as [? Hn]. split; [done|].
    destruct (decide (endpoint_key x = endpoint_key e)) as [Heq|Hne]; [by rewrite Heq, lookup_insert_eq in Hn|].
    by rewrite lookup_insert_ne in Hn.
Qed.

(** After a replacement a realm resolves to the endpoint that was given for it, a failed replacement
    leaves the directory as it was, and every endpoint a client is given has an address. *)
Lemma replaced_endpoints_resolve self l self' :
  RealmGatewayDirectory_replace self l = (Ok (), self') ->
  (forall region realm e, RealmGatewayDirectory_resolve self' region realm = Ok e <->
     e ∈ l /\ endpoint_key e = (region, realm)) /\
  (forall region realm e, RealmGatewayDirectory_resolve self' region realm = Ok e ->
     is_ok (RealmGatewayEndpoint_address e) = true).
Proof.
  unfold RealmGatewayDirectory_replace. destruct (collect_endpoints ∅ l) as [next|] eqn:E; [|done].
  intros [= <-]. apply collect_endpoints_spec in E as [Hlook Hall].
  assert (Hres : forall region realm e,
    RealmGatewayDirectory_resolve {| endpoints := next |} region realm = Ok e <->
    e ∈ l /\ endpoint_key e = (region, realm)).
  { intros region realm e. unfold RealmGatewayDirectory_resolve. cbn. split.
    - destruct (next !! (region, realm)) eqn:El; cbn; [|done]. intros [= ->].
      apply Hlook in El as [?|?]; [by rewrite lookup_empty in *|done].
    - intros H. by rewrite (proj2 (Hlook _ e) (or_intror H)). }
  split; [done|]. intros region realm e He. apply Hres in He as [Hin _]. destruct (Hall e Hin) as [Hv _].
  unfold RealmGatewayEndpoint_address. rewrite Hv. by destruct (endpoint_transport e).
Qed.

Lemma failed_endpoints_kept self l e self' :
  RealmGatewayDirectory_replace self l = (Err e, self') -> self' = self.
Proof. unfold RealmGatewayDirectory_replace. destruct (collect_endpoints ∅ l); by intros [=]. Qed.

(** ** Encodings that satisfy the laws *)

Module SampleEncodings.
Fixpoint pos_bits (p : positive) : list Z :=
  match p with xH => [] | xO p => 0 :: pos_bits p | xI p => 1 :: pos_bits p end.

Fixpoint bits_pos (l : list Z) : positive :=
  match l with [] => xH | b :: l => if b =? 0 then xO (bits_pos l) else xI (bits_pos l) end.

Lemma bits_pos_bits p : bits_pos (pos_bits p) = p.
Proof. induction p; cbn; by rewrite ?IHp. Qed.

Lemma pos_bits_bytes p : bytes_ok (pos_bits p).
Proof. induction p; cbn; [constructor; [cbv; split; congruence|done]..|constructor]. Qed.

Fixpoint bits_string (l : list Z) : string :=
  match l with [] => EmptyString | b :: l => String (if b =? 0 then "0"%char else "1"%char) (bits_string l) end.

Fixpoint string_bits (s : string) : list Z :=
  match s with EmptyString => [] | String c s => (if Ascii.eqb c "0" then 0 else 1) :: string_bits s end.

Lemma string_bits_string p : string_bits (bits_string (pos_bits p)) = pos_bits p.
Proof. induction p; cbn; by rewrite ?IHp. Qed.

Definition wire_tuple (c : GatewayWorldCommand) :=
  ((fun i => (i.(wire_account_id), i.(wire_user_id), i.(wire_region_id), i.(wire_realm_id), i.(wire_generation)))
     <$> c.(wire_identity),
   (c.(wire_session_id), c.(wire_trace_id), c.(wire_request_id), c.(wire_payload), c.(wire_authorization)),
   (c.(wire_shard_id), c.(wire_owner_id), c.(wire_owner_epoch), c.(timeout_millis))).

Definition tuple_wire '(i, (session, trace, request, payload, auth), (shard, owner, epoch, ms)) :
    GatewayWorldCommand :=
  {| wire_identity :=
       (fun '(a, u, g, r, n) =>
          {| wire_account_id := a; wire_user_id := u; wire_region_id := g; wire_realm_id := r;
             wire_generation := n |}) <$> i;
     wire_session_id := session; wire_trace_id := trace; wire_request_id := request; wire_payload := payload;
     wire_authorization := auth; wire_shard_id := shard; wire_owner_id := owner; wire_owner_epoch := epoch;
     timeout_millis := ms |}.

Definition command_protobuf : CommandProtobuf :=
  {| encode_to_vec := fun c => pos_bits (countable.encode (wire_tuple c));
     decode := fun l => tuple_wire <$> countable.decode (bits_pos l) |}.

Definition uuid_text : UuidText :=
  {| uuid_to_string := fun id => bits_string (pos_bits (countable.encode id));
     uuid_parse_str := fun s => countable.decode (bits_pos (string_bits s)) |}.

Lemma command_protobuf_laws : @CommandProtobufLaws command_protobuf.
Proof.
  split; intros c _; cbn; [apply pos_bits_bytes|]. rewrite bits_pos_bits, countable.decode_encode. cbn.
  destruct c as [[[]|] ? ? ? ? ? ? ? ? ?]; done.
Qed.

Lemma uuid_text_laws : @UuidTextLaws uuid_text.
Proof. split. intros id _. cbn. by rewrite string_bits_string, bits_pos_bits, countable.decode_encode. Qed.
End SampleEncodings.
