(* ===== verification/Futures.v ===== *)
(** * Asynchronous computations

    What the services use of Rust's futures and of [tokio]: a computation runs until it returns, panics
    or awaits; at an await it can be resumed or dropped, and dropping runs the destructors of the guards
    it holds.  [timeout] drops a computation that is not ready by its deadline, [catch_unwind] turns a
    panic into a value.  Every poll has its time, in nanoseconds.  Between two polls other tasks may
    change the shared state: [holds] is a weakest precondition for the three ways a computation can
    end, whatever the others do within a relation. *)

From S2P Require Import Prelude CoreError.

Section futures.
Context {St : Type}.

(** A computation that has been polled.  [Pending wait dropped resume]: it awaits something that takes
    [wait]; [dropped] is the effect of its destructors should it be dropped there. *)
Inductive Future (A : Type) : Type :=
| Ready (a : A)
| Panicking
| Pending (wait : Z) (dropped : St -> St) (resume : Z -> St -> Future A * St).
Arguments Ready {A} _.
Arguments Panicking {A}.
Arguments Pending {A} _ _ _.

(** An [async] block: nothing happens before its first poll. *)
Definition Async (A : Type) : Type := Z -> St -> Future A * St.

Definition ret {A} (a : A) : Async A := fun _ s => (Ready a, s).
Definition panic {A} : Async A := fun _ s => (Panicking, s).
(** [Instant::now]. *)
Definition instant_now : Async Z := fun now s => (Ready now, s).
(** An access to the shared state without an await. *)
Definition access {A} (f : St -> A * St) : Async A := fun _ s => let '(a, s) := f s in (Ready a, s).
Definition modify (f : St -> St) : Async unit := access (fun s => ((), f s)).
(** An await of [wait] that owns nothing. *)
Definition sleep (wait : Z) : Async unit := fun _ s => (Pending wait id (fun _ s => (Ready (), s)), s).

Fixpoint bind_future {A B} (f : Future A) (k : A -> Async B) (now : Z) (s : St) : Future B * St :=
  match f with
  | Ready a => k a now s
  | Panicking => (Panicking, s)
  | Pending wait dropped resume =>
      (Pending wait dropped (fun now s => let '(f, s) := resume now s in bind_future f k now s), s)
  end.

Definition bind {A B} (c : Async A) (k : A -> Async B) : Async B :=
  fun now s => let '(f, s) := c now s in bind_future f k now s.

(** A computation that runs while a guard is alive: the guard's destructor runs when the computation
    panics or is dropped, after the destructors of what it holds itself.  What happens to the guard when
    the computation returns is the business of the code that follows. *)
Fixpoint guard_future {A} (on_drop : St -> St) (f : Future A) (s : St) : Future A * St :=
  match f with
  | Ready a => (Ready a, s)
  | Panicking => (Panicking, on_drop s)
  | Pending wait dropped resume =>
      (Pending wait (fun s => on_drop (dropped s))
         (fun now s => let '(f, s) := resume now s in guard_future on_drop f s), s)
  end.

Definition guarded {A} (on_drop : St -> St) (c : Async A) : Async A :=
  fun now s => let '(f, s) := c now s in guard_future on_drop f s.

(** [AssertUnwindSafe(c).catch_unwind()]. *)
Fixpoint catch_future {A} (f : Future A) : Future (option A) :=
  match f with
  | Ready a => Ready (Some a)
  | Panicking => Ready None
  | Pending wait dropped resume =>
      Pending wait dropped (fun now s => let '(f, s) := resume now s in (catch_future f, s))
  end.

Definition catch_unwind {A} (c : Async A) : Async (option A) :=
  fun now s => let '(f, s) := c now s in (catch_future f, s).

(** [tokio::time::timeout]: the computation is polled before the deadline is looked at, so it is ready
    when it becomes ready by then; otherwise it is dropped at the deadline. *)
Fixpoint timeout_future {A} (deadline : Z) (f : Future A) (now : Z) (s : St) : Future (option A) * St :=
  match f with
  | Ready a => (Ready (Some a), s)
  | Panicking => (Panicking, s)
  | Pending wait dropped resume =>
      let resumed now s := let '(f, s) := resume now s in timeout_future deadline f now s in
      if now + wait <=? deadline then (Pending wait dropped resumed, s)
      else
        (Pending (deadline - now) dropped
           (fun now' s => if now + wait <=? now' then resumed now' s else (Ready None, dropped s)), s)
  end.

Definition timeout {A} (limit : Z) (c : Async A) : Async (option A) :=
  fun now s => let '(f, s) := c now s in timeout_future (now + limit) f now s.

(** ** Running to the end *)

(** How a computation ends. *)
Inductive Ended (A : Type) : Type :=
| Finished (a : A)
| Unwound
| Dropped.
Arguments Finished {A} _.
Arguments Unwound {A}.
Arguments Dropped {A}.

(** The run of a computation that is dropped at [until] if it has not ended; the others act on the state
    before each poll. *)
Fixpoint run_future {A} (others : Z -> St -> St) (until : Z) (f : Future A) (now : Z) (s : St) : Ended A * St :=
  match f with
  | Ready a => (Finished a, s)
  | Panicking => (Unwound, s)
  | Pending wait dropped resume =>
      let now := now + Z.max 0 wait in
      if now <=? until then
        let '(f, s) := resume now (others now s) in run_future others until f now s
      else (Dropped, dropped (others until s))
  end.

Definition run {A} (others : Z -> St -> St) (until : Z) (c : Async A) (now : Z) (s : St) : Ended A * St :=
  let '(f, s) := c now s in run_future others until f now s.

(** ** Weakest preconditions *)

(** What holds at the end of a computation, by the way it ends. *)
Record Post (A : Type) : Type := {
  returns : A -> St -> Prop;
  unwinds : St -> Prop;
  drops : St -> Prop;
}.
Arguments returns {A} _ _ _.
Arguments unwinds {A} _ _.
Arguments drops {A} _ _.

Context (rely : St -> St -> Prop).

Fixpoint holds {A} (Q : Post A) (f : Future A) (s : St) : Prop :=
  match f with
  | Ready a => Q.(returns) a s
  | Panicking => Q.(unwinds) s
  | Pending _ dropped resume =>
      forall s', rely s s' ->
        Q.(drops) (dropped s') /\ forall now, let '(f, s'') := resume now s' in holds Q f s''
  end.

(** The computation [c], polled first in [s], ends as [Q] says. *)
Definition wp {A} (Q : Post A) (c : Async A) (s : St) : Prop :=
  forall now, let '(f, s') := c now s in holds Q f s'.

Definition implies {A} (Q Q' : Post A) : Prop :=
  (forall a s, Q.(returns) a s -> Q'.(returns) a s) /\
  (forall s, Q.(unwinds) s -> Q'.(unwinds) s) /\ (forall s, Q.(drops) s -> Q'.(drops) s).

Lemma future_ind {A} (P : Future A -> Prop) :
  (forall a, P (Ready a)) -> P Panicking ->
  (forall wait dropped resume, (forall now s, P (resume now s).1) -> P (Pending wait dropped resume)) ->
  forall f, P f.
Proof.
  intros Hr Hu Hp. fix IH 1. intros [a| |wait dropped resume]; [apply Hr|apply Hu|].
  apply Hp. intros now s. destruct (resume now s) as [f s']. apply IH.
Qed.

Lemma holds_mono {A} (Q Q' : Post A) (f : Future A) : implies Q Q' -> forall s, holds Q f s -> holds Q' f s.
Proof.
  intros (Hr & Hu & Hd). induction f as [a| |wait dropped resume IH] using future_ind; cbn; intros s H; [auto..|].
  intros s' Hs. destruct (H s' Hs) as [H1 H2]. split; [auto|]. intros now. specialize (H2 now).
  specialize (IH now s'). destruct (resume now s') as [f s'']. auto.
Qed.

Lemma wp_mono {A} (Q Q' : Post A) (c : Async A) s : implies Q Q' -> wp Q c s -> wp Q' c s.
Proof. intros HQ H now. specialize (H now). destruct (c now s). by eapply holds_mono. Qed.

Lemma holds_bind {A B} (Q : Post B) (f : Future A) (k : A -> Async B) : forall now s,
  holds {| returns := fun a => wp Q (k a); unwinds := Q.(unwinds); drops := Q.(drops) |} f s ->
  let '(f', s') := bind_future f k now s in holds Q f' s'.
Proof.
  induction f as [a| |wait dropped resume IH] using future_ind; cbn; intros now s H; [apply H|done|].
  intros s' Hs. destruct (H s' Hs) as [H1 H2]. split; [done|]. intros now'. specialize (H2 now').
  specialize (IH now' s'). destruct (resume now' s') as [f s'']. by apply IH.
Qed.

Lemma wp_bind {A B} (Q : Post B) (c : Async A) (k : A -> Async B) s :
  wp {| returns := fun a => wp Q (k a); unwinds := Q.(unwinds); drops := Q.(drops) |} c s ->
  wp Q (bind c k) s.
Proof.
  intros H now. unfold bind. specialize (H now). destruct (c now s) as [f s'].
  pose proof (holds_bind Q f k now s' H). by destruct (bind_future f k now s').
Qed.

Lemma holds_guard {A} (Q : Post A) on_drop (f : Future A) : forall s,
  holds {| returns := Q.(returns); unwinds := fun s => Q.(unwinds) (on_drop s);
           drops := fun s => Q.(drops) (on_drop s) |} f s ->
  let '(f', s') := guard_future on_drop f s in holds Q f' s'.
Proof.
  induction f as [a| |wait dropped resume IH] using future_ind; cbn; intros s H; [done..|].
  intros s' Hs. destruct (H s' Hs) as [H1 H2]. split; [done|]. intros now. specialize (H2 now).
  specialize (IH now s'). destruct (resume now s') as [f s'']. by apply IH.
Qed.

Lemma wp_guarded {A} (Q : Post A) on_drop (c : Async A) s :
  wp {| returns := Q.(returns); unwinds := fun s => Q.(unwinds) (on_drop s);
        drops := fun s => Q.(drops) (on_drop s) |} c s ->
  wp Q (guarded on_drop c) s.
Proof.
  intros H now. unfold guarded. specialize (H now). destruct (c now s) as [f s'].
  pose proof (holds_guard Q on_drop f s' H). by destruct (guard_future on_drop f s').
Qed.

Lemma holds_catch {A} (Q : Post (option A)) (f : Future A) : forall s,
  holds {| returns := fun a => Q.(returns) (Some a); unwinds := Q.(returns) None; drops := Q.(drops) |} f s ->
  holds Q (catch_future f) s.
Proof.
  induction f as [a| |wait dropped resume IH] using future_ind; cbn; intros s H; [done..|].
  intros s' Hs. destruct (H s' Hs) as [H1 H2]. split; [done|]. intros now. specialize (H2 now).
  specialize (IH now s'). destruct (resume now s') as [f s'']. by apply IH.
Qed.

Lemma wp_catch_unwind {A} (Q : Post (option A)) (c : Async A) s :
  wp {| returns := fun a => Q.(returns) (Some a); unwinds := Q.(returns) None; drops := Q.(drops) |} c s ->
  wp Q (catch_unwind c) s.
Proof.
  intros H now. unfold catch_unwind. specialize (H now). destruct (c now s) as [f s']. by apply holds_catch.
Qed.

(** A computation under a timeout returns what it returns, or it is dropped and the timeout returns. *)
Lemma holds_timeout {A} (Q : Post (option A)) deadline (f : Future A) : forall now s,
  holds {| returns := fun a => Q.(returns) (Some a); unwinds := Q.(unwinds);
           drops := fun s => Q.(drops) s /\ Q.(returns) None s |} f s ->
  let '(f', s') := timeout_future deadline f now s in holds Q f' s'.
Proof.
  induction f as [a| |wait dropped resume IH] using future_ind; cbn; intros now s H; [done..|].
  assert (Hres : forall s' now', rely s s' ->
    let '(f', s'') := (let '(f, s) := resume now' s' in timeout_future deadline f now' s) in holds Q f' s'').
  { intros s' now' Hs. destruct (H s' Hs) as [_ H2]. specialize (H2 now'). specialize (IH now' s').
    destruct (resume now' s') as [f s'']. by apply IH. }
  destruct (now + wait <=? deadline); cbn; intros s' Hs; destruct (H s' Hs) as [[Hd Hn] _];
    (split; [done|]); intros now'; [by apply Hres|].
  destruct (now + wait <=? now'); [by apply Hres|done].
Qed.

Lemma wp_timeout {A} (Q : Post (option A)) limit (c : Async A) s :
  wp {| returns := fun a => Q.(returns) (Some a); unwinds := Q.(unwinds);
        drops := fun s => Q.(drops) s /\ Q.(returns) None s |} c s ->
  wp Q (timeout limit c) s.
Proof.
  intros H now. unfold timeout. specialize (H now). destruct (c now s) as [f s'].
  pose proof (holds_timeout Q (now + limit) f now s' H). by destruct (timeout_future (now + limit) f now s').
Qed.

Lemma wp_ret {A} (Q : Post A) a s : Q.(returns) a s -> wp Q (ret a) s.
Proof. intros H now. apply H. Qed.

Lemma wp_access {A} (Q : Post A) (g : St -> A * St) s :
  Q.(returns) (g s).1 (g s).2 -> wp Q (access g) s.
Proof. intros H now. unfold access. by destruct (g s). Qed.

Lemma wp_modify (Q : Post unit) (g : St -> St) s : Q.(returns) () (g s) -> wp Q (modify g) s.
Proof. exact (wp_access Q (fun s => ((), g s)) s). Qed.

Lemma wp_now (Q : Post Z) s : (forall now, Q.(returns) now s) -> wp Q instant_now s.
Proof. intros H now. apply H. Qed.

Lemma wp_sleep (Q : Post unit) wait s :
  (forall s', rely s s' -> Q.(drops) s' /\ Q.(returns) () s') -> wp Q (sleep wait) s.
Proof. intros H now s' Hs. split; [by apply H|]. intros now'. by apply H. Qed.

(** A computation that holds up under every schedule holds up under the one that runs it. *)
Lemma holds_run {A} (Q : Post A) others until (f : Future A) :
  (forall now s, rely s (others now s)) -> forall now s, holds Q f s ->
  match run_future others until f now s with
  | (Finished a, s') => Q.(returns) a s'
  | (Unwound, s') => Q.(unwinds) s'
  | (Dropped, s') => Q.(drops) s'
  end.
Proof.
  intros Hothers. induction f as [a| |wait dropped resume IH] using future_ind; cbn; intros now s H; [done..|].
  set (t := now + Z.max 0 wait). destruct (t <=? until).
  - destruct (H _ (Hothers t s)) as [_ H2]. specialize (H2 t). specialize (IH t (others t s)).
    destruct (resume t (others t s)) as [f s'']. by apply IH.
  - by apply (H _ (Hothers until s)).
Qed.

Lemma wp_run {A} (Q : Post A) others until (c : Async A) now s :
  (forall now s, rely s (others now s)) -> wp Q c s ->
  match run others until c now s with
  | (Finished a, s') => Q.(returns) a s'
  | (Unwound, s') => Q.(unwinds) s'
  | (Dropped, s') => Q.(drops) s'
  end.
Proof.
  intros Hothers H. unfold run. specialize (H now). destruct (c now s) as [f s']. by apply holds_run.
Qed.
End futures.
Arguments Future St A : clear implicits.
Arguments Async St A : clear implicits.
Arguments Post St A : clear implicits.
Arguments Ready {St A} _.
Arguments Panicking {St A}.
Arguments Pending {St A} _ _ _.
Arguments Finished {A} _.
Arguments Unwound {A}.
Arguments Dropped {A}.
Arguments returns {St A} _ _ _.
Arguments unwinds {St A} _ _.
Arguments drops {St A} _ _.

(** ** Equivalence

    Two computations that do the same at every poll, whatever the state. *)
Section equivalence.
Context {St : Type}.

Fixpoint future_equiv {A} (f f' : Future St A) : Prop :=
  match f, f' with
  | Ready a, Ready a' => a = a'
  | Panicking, Panicking => True
  | Pending wait dropped resume, Pending wait' dropped' resume' =>
      wait = wait' /\ (forall s, dropped s = dropped' s) /\
      forall now s,
        match resume now s, resume' now s with (f, t), (f', t') => t = t' /\ future_equiv f f' end
  | _, _ => False
  end.

#[global] Instance async_equiv {A} : Equiv (Async St A) := fun c c' =>
  forall now s, match c now s, c' now s with (f, t), (f', t') => t = t' /\ future_equiv f f' end.

Lemma future_equiv_refl {A} (f : Future St A) : future_equiv f f.
Proof.
  induction f as [a| |wait dropped resume IH] using future_ind; cbn; [done..|].
  do 2 (split; [done|]). intros now s. specialize (IH now s). by destruct (resume now s).
Qed.

Lemma future_equiv_sym {A} (f : Future St A) : forall f', future_equiv f f' -> future_equiv f' f.
Proof.
  induction f as [a| |wait dropped resume IH] using future_ind; intros [a'| |wait' dropped' resume']; cbn; try done.
  intros (-> & Hd & Hr). split; [done|]. split; [done|]. intros now s. specialize (Hr now s). specialize (IH now s).
  destruct (resume now s) as [f t], (resume' now s) as [f' t']. destruct Hr as [-> Hf]. split; [done|]. by apply IH.
Qed.

Lemma future_equiv_trans {A} (f : Future St A) : forall f' f'',
  future_equiv f f' -> future_equiv f' f'' -> future_equiv f f''.
Proof.
  induction f as [a| |wait dropped resume IH] using future_ind;
    intros [a'| |wait' dropped' resume'] [a''| |wait'' dropped'' resume'']; cbn; try done; [by intros -> ->|].
  intros (-> & Hd & Hr) (-> & Hd' & Hr'). split; [done|]. split; [congruence|]. intros now s.
  specialize (Hr now s). specialize (Hr' now s). specialize (IH now s).
  destruct (resume now s) as [f t], (resume' now s) as [f' t'], (resume'' now s) as [f'' t''].
  destruct Hr as [-> Hf], Hr' as [-> Hf']. split; [done|]. by eapply IH.
Qed.

#[global] Instance async_equivalence {A} : Equivalence (≡@{Async St A}).
Proof.
  split.
  - intros c now s. destruct (c now s). split; [done|]. apply future_equiv_refl.
  - intros c c' H now s. specialize (H now s). destruct (c now s), (c' now s). destruct H as [-> H].
    split; [done|]. by apply future_equiv_sym.
  - intros c c' c'' H H' now s. specialize (H now s). specialize (H' now s).
    destruct (c now s), (c' now s), (c'' now s). destruct H as [-> H], H' as [-> H'].
    split; [done|]. by eapply future_equiv_trans.
Qed.

Lemma bind_future_equiv {A B} (k k' : A -> Async St B) (f : Future St A) : (forall a, k a ≡ k' a) ->
  forall f' now s, future_equiv f f' ->
  match bind_future f k now s, bind_future f' k' now s with (g, t), (g', t') => t = t' /\ future_equiv g g' end.
Proof.
  intros Hk. induction f as [a| |wait dropped resume IH] using future_ind;
    intros [a'| |wait' dropped' resume'] now s; cbn; try done; [intros ->; apply Hk|].
  intros (-> & Hd & Hr). split; [done|]. do 2 (split; [done|]). intros now' s'. specialize (Hr now' s').
  specialize (IH now' s'). destruct (resume now' s') as [f t], (resume' now' s') as [f' t'].
  destruct Hr as [-> Hf]. by apply IH.
Qed.

#[global] Instance bind_proper {A B} :
  Proper ((≡) ==> pointwise_relation A (≡) ==> (≡)) (@bind St A B).
Proof.
  intros c c' Hc k k' Hk now s. unfold bind. specialize (Hc now s).
  destruct (c now s) as [f t], (c' now s) as [f' t']. destruct Hc as [-> Hf].
  by apply bind_future_equiv.
Qed.

Lemma bind_future_assoc {A B C} (k : A -> Async St B) (h : B -> Async St C) (f : Future St A) : forall now s,
  match (let '(g, t) := bind_future f k now s in bind_future g h now t), bind_future f (fun a => bind (k a) h) now s
  with (g, t), (g', t') => t = t' /\ future_equiv g g' end.
Proof.
  induction f as [a| |wait dropped resume IH] using future_ind; intros now s; cbn.
  - unfold bind. destruct (k a now s) as [g t]. destruct (bind_future g h now t).
    split; [done|]. apply future_equiv_refl.
  - done.
  - do 3 (split; [done|]). intros now' s'. specialize (IH now' s').
    destruct (resume now' s') as [f t]. apply IH.
Qed.

Lemma bind_assoc {A B C} (c : Async St A) (k : A -> Async St B) (h : B -> Async St C) :
  bind (bind c k) h ≡ bind c (fun a => bind (k a) h).
Proof.
  intros now s. unfold bind at 1 2 3. destruct (c now s) as [f t].
  pose proof (bind_future_assoc k h f now t) as H. destruct (bind_future f k now t) as [g u]. apply H.
Qed.

Lemma ret_bind {A B} (a : A) (k : A -> Async St B) : bind (ret a) k ≡ k a.
Proof. intros now s. cbn. destruct (k a now s). split; [done|]. apply future_equiv_refl. Qed.

(** Equivalent computations run alike. *)
Lemma run_future_equiv {A} others until (f : Future St A) : forall f' now s,
  future_equiv f f' -> run_future others until f now s = run_future others until f' now s.
Proof.
  induction f as [a| |wait dropped resume IH] using future_ind;
    intros [a'| |wait' dropped' resume'] now s; cbn; try done; [by intros ->|].
  intros (-> & Hd & Hr). set (t := now + Z.max 0 wait'). destruct (t <=? until); [|by rewrite Hd].
  specialize (Hr t (others t s)). specialize (IH t (others t s)).
  destruct (resume t (others t s)) as [f u], (resume' t (others t s)) as [f' u']. destruct Hr as [-> Hf].
  by apply IH.
Qed.

Lemma run_equiv {A} others until (c c' : Async St A) now s :
  c ≡ c' -> run others until c now s = run others until c' now s.
Proof.
  intros H. unfold run. specialize (H now s). destruct (c now s) as [f t], (c' now s) as [f' t'].
  destruct H as [-> Hf]. by apply run_future_equiv.
Qed.
End equivalence.

Notation "'let!' x ':=' c 'in' k" := (bind c (fun x => k))
  (at level 10, x pattern, c at level 100, k at level 200) : rust_scope.
(** [?] on an awaited result. *)
Notation "'let!?' x ':=' c 'in' k" :=
  (bind c (fun r => match r with Ok x => k | Err e => ret (Err e) end))
  (at level 10, x pattern, c at level 100, k at level 200) : rust_scope.
