(* ===== verification/WorldRuntime.v ===== *)
(** * The world runtime: [crates/elura-world/src/{runtime,middleware,context,module,stats,config,routes,handler}.rs]

    Routes, modules and middleware are collected by a builder; the runtime built from it executes a
    command through the middleware of its route under a timeout, one command of a player at a time.
    Handlers, middleware, modules, the transaction factory and the push transport are the application's:
    they are asynchronous computations ([Futures]) on the state all tasks of the process share.  That
    state is the application's own, the statistics, and what the unit-of-work middleware does: the
    transactions that handles still hold, the rollbacks it has spawned, and the log of its calls.
    Iteration over a [HashMap] is in the order of [map_to_list]. *)

From stdpp Require Import pretty.
From S2P Require Import Prelude Bytes CoreError Identity Session Frame Presence ServiceMessages Futures.

(** ** Configuration *)

Record WorldConfig : Type := {
  listen : SocketAddr;
  max_payload : Z;
  max_connections : Z;
  max_in_flight_per_connection : Z;
  tls_handshake_timeout : Z;
  handler_timeout : Z;
  discovery_drain_delay : Z;
  shutdown_timeout : Z;
  internal_token : option string;
}.

Definition seconds (n : Z) : Z := n * 1000000000.

Definition WorldConfig_default : WorldConfig :=
  {| listen := {| addr_ip := V4 0x7F000001; addr_port := 18000 |};
     max_payload := Z.shiftl 1 20;
     max_connections := 1024;
     max_in_flight_per_connection := 64;
     tls_handshake_timeout := seconds 5;
     handler_timeout := seconds 5;
     discovery_drain_delay := seconds 2;
     shutdown_timeout := seconds 10;
     internal_token := None |}.

Definition WorldConfig_validate (self : WorldConfig) : Result unit :=
  if (self.(max_connections) =? 0) || (self.(max_in_flight_per_connection) =? 0)
     || (4096 <? self.(max_in_flight_per_connection)) || (self.(max_payload) =? 0)
     || (self.(tls_handshake_timeout) =? 0) || (self.(handler_timeout) =? 0)
     || (self.(shutdown_timeout) =? 0) then
    Err (InvalidConfig "world limits must be positive")
  else Ok ().

(** ** Statistics *)

Record WorldStats : Type := {
  commands : Z;
  active : Z;
  succeeded : Z;
  business_failures : Z;
  internal_failures : Z;
  timeouts : Z;
  panics : Z;
  duration_nanos : Z;
  latency_buckets : list Z;
}.

Definition WorldStats_default : WorldStats :=
  {| commands := 0; active := 0; succeeded := 0; business_failures := 0; internal_failures := 0;
     timeouts := 0; panics := 0; duration_nanos := 0; latency_buckets := replicate 6 0 |}.

(** [fetch_add] and [fetch_sub] of an [AtomicI64]. *)
Definition wrap_i64 (n : Z) : Z := (n + 9223372036854775808) mod 18446744073709551616 - 9223372036854775808.

Definition WorldStats_begin (self : WorldStats) : WorldStats :=
  {| commands := wrap_u64 (self.(commands) + 1); active := wrap_i64 (self.(active) + 1);
     succeeded := self.(succeeded); business_failures := self.(business_failures);
     internal_failures := self.(internal_failures); timeouts := self.(timeouts); panics := self.(panics);
     duration_nanos := self.(duration_nanos); latency_buckets := self.(latency_buckets) |}.

(** [Drop for CommandTimer]. *)
Definition CommandTimer_drop (self : WorldStats) : WorldStats :=
  {| commands := self.(commands); active := wrap_i64 (self.(active) - 1);
     succeeded := self.(succeeded); business_failures := self.(business_failures);
     internal_failures := self.(internal_failures); timeouts := self.(timeouts); panics := self.(panics);
     duration_nanos := self.(duration_nanos); latency_buckets := self.(latency_buckets) |}.

Definition WorldStats_panic (self : WorldStats) : WorldStats :=
  {| commands := self.(commands); active := self.(active);
     succeeded := self.(succeeded); business_failures := self.(business_failures);
     internal_failures := self.(internal_failures); timeouts := self.(timeouts);
     panics := wrap_u64 (self.(panics) + 1);
     duration_nanos := self.(duration_nanos); latency_buckets := self.(latency_buckets) |}.

Definition latency_limits : list Z := from_millis <$> [1; 5; 10; 50; 100].

Fixpoint position (limits : list Z) (elapsed : Z) : nat :=
  match limits with
  | [] => 0
  | limit :: limits => if elapsed <=? limit then 0 else S (position limits elapsed)
  end.

(** [finish] takes the timer, which is dropped when it returns.  [elapsed.as_nanos() as u64] truncates. *)
Definition WorldStats_finish {A} (self : WorldStats) (elapsed : Z) (result : Result A) : WorldStats :=
  let bump (on : bool) (n : Z) := if on then wrap_u64 (n + 1) else n in
  let business := match result with Err (Business _ _ _) => true | _ => false end in
  let timed_out := match result with Err Timeout => true | _ => false end in
  CommandTimer_drop
    {| commands := self.(commands); active := self.(active);
       succeeded := bump (is_ok result) self.(succeeded);
       business_failures := bump business self.(business_failures);
       internal_failures := bump (negb (is_ok result || business || timed_out)) self.(internal_failures);
       timeouts := bump timed_out self.(timeouts);
       panics := self.(panics);
       duration_nanos := wrap_u64 (self.(duration_nanos) + wrap_u64 elapsed);
       latency_buckets := alter (fun n => wrap_u64 (n + 1)) (position latency_limits elapsed)
                            self.(latency_buckets) |}.

(** ** The shared state *)

Inductive TxEvent : Type :=
| TxBegan (tx : Z)
| TxCommitting (tx : Z)
| TxCommitted (tx : Z)
| TxRollingBack (tx : Z)
| TxRolledBack (tx : Z).

(** The tasks the unit of work spawns when it is dropped: [SharedRollback] takes the transaction out of
    its handle first, [OwnedRollback] owns it (or nothing). *)
Inductive Spawned : Type :=
| SharedRollback (tx : Z)
| OwnedRollback (tx : option Z).

#[export] Instance TxEvent_eq_dec : EqDecision TxEvent.
Proof. solve_decision. Defined.
#[export] Instance Spawned_eq_dec : EqDecision Spawned.
Proof. solve_decision. Defined.

Record Shared (App : Type) : Type := {
  app : App;
  stats : WorldStats;
  next_tx : Z;
  held : gset Z;
  spawned : list Spawned;
  tx_log : list TxEvent;
}.
Arguments app {App} _.
Arguments stats {App} _.
Arguments next_tx {App} _.
Arguments held {App} _.
Arguments spawned {App} _.
Arguments tx_log {App} _.

Record RouteInfo : Type := { route_id : Z; route_name : string }.

Section runtime.
Context {App Any : Type}.

Definition Shared_new (a : App) : Shared App :=
  {| app := a; stats := WorldStats_default; next_tx := 0; held := ∅; spawned := []; tx_log := [] |}.

Definition with_app (s : Shared App) (a : App) : Shared App :=
  {| app := a; stats := s.(stats); next_tx := s.(next_tx); held := s.(held); spawned := s.(spawned);
     tx_log := s.(tx_log) |}.

Definition with_stats (f : WorldStats -> WorldStats) (s : Shared App) : Shared App :=
  {| app := s.(app); stats := f s.(stats); next_tx := s.(next_tx); held := s.(held);
     spawned := s.(spawned); tx_log := s.(tx_log) |}.

(** A computation of the application on its own state. *)
Fixpoint lift_future {A} (f : Future App A) : Future (Shared App) A :=
  match f with
  | Ready a => Ready a
  | Panicking => Panicking
  | Pending wait dropped resume =>
      Pending wait (fun s => with_app s (dropped s.(app)))
        (fun now s => let '(f, a) := resume now s.(app) in (lift_future f, with_app s a))
  end.

Definition lift {A} (c : Async App A) : Async (Shared App) A :=
  fun now s => let '(f, a) := c now s.(app) in (lift_future f, with_app s a).

(** ** Contexts *)

Definition PushTransport : Type := PushRequest -> Async (Shared App) (Result PushReceipt).

Record WorldContext : Type := {
  ctx_identity : Identity;
  ctx_session_id : Z;
  ctx_trace_id : string;
  ctx_route : Z;
  ctx_request_id : Z;
  ctx_shard_id : option Z;
  ctx_owner_id : option string;
  ctx_owner_epoch : option Z;
  pusher : option PushTransport;
  transaction : option Z;
  values : gmap Z Any;
}.

Definition WorldContext_with_pusher (self : WorldContext) (p : option PushTransport) : WorldContext :=
  {| ctx_identity := self.(ctx_identity); ctx_session_id := self.(ctx_session_id);
     ctx_trace_id := self.(ctx_trace_id); ctx_route := self.(ctx_route);
     ctx_request_id := self.(ctx_request_id); ctx_shard_id := self.(ctx_shard_id);
     ctx_owner_id := self.(ctx_owner_id); ctx_owner_epoch := self.(ctx_owner_epoch);
     pusher := p; transaction := self.(transaction); values := self.(values) |}.

Definition WorldContext_with_transaction (self : WorldContext) (tx : Z) : WorldContext :=
  {| ctx_identity := self.(ctx_identity); ctx_session_id := self.(ctx_session_id);
     ctx_trace_id := self.(ctx_trace_id); ctx_route := self.(ctx_route);
     ctx_request_id := self.(ctx_request_id); ctx_shard_id := self.(ctx_shard_id);
     ctx_owner_id := self.(ctx_owner_id); ctx_owner_epoch := self.(ctx_owner_epoch);
     pusher := self.(pusher); transaction := Some tx; values := self.(values) |}.

(** Typed values: [into] and [downcast] are the coercions of a type to and from [dyn Any]. *)
Record ContextKey (T : Type) : Type := {
  key_id : Z;
  key_name : string;
  into : T -> Any;
  downcast : Any -> option T;
}.
Arguments key_id {T} _.
Arguments key_name {T} _.
Arguments into {T} _ _.
Arguments downcast {T} _ _.

(** The second component is [NEXT_CONTEXT_KEY]. *)
Definition ContextKey_new {T} (into : T -> Any) (downcast : Any -> option T) (name : string) (next : Z) :
    Result (ContextKey T) * Z :=
  if trim_is_empty name then (Err (InvalidConfig "World context key name is empty"), next)
  else (Ok {| key_id := next; key_name := name; into := into; downcast := downcast |}, wrap_u64 (next + 1)).

Definition WorldContext_with_value {T} (self : WorldContext) (key : ContextKey T) (value : T) : WorldContext :=
  {| ctx_identity := self.(ctx_identity); ctx_session_id := self.(ctx_session_id);
     ctx_trace_id := self.(ctx_trace_id); ctx_route := self.(ctx_route);
     ctx_request_id := self.(ctx_request_id); ctx_shard_id := self.(ctx_shard_id);
     ctx_owner_id := self.(ctx_owner_id); ctx_owner_epoch := self.(ctx_owner_epoch);
     pusher := self.(pusher); transaction := self.(transaction);
     values := <[key.(key_id) := key.(into) value]> self.(values) |}.

Definition WorldContext_value {T} (self : WorldContext) (key : ContextKey T) : option T :=
  self.(values) !! key.(key_id) ≫= key.(downcast).

(** [context.transaction::<T>()]: [lock_wait] is how long others hold the lock, [is_T] whether the
    transaction has the type asked for.  The answer is the transaction under its lock. *)
Definition TransactionHandle_lock (lock_wait : Z) (is_T : Z -> bool) (handle : Z) : Async (Shared App) (Result Z) :=
  let! _ := sleep lock_wait in
  access (fun s =>
    (if bool_decide (handle ∈ s.(held)) then
       if is_T handle then Ok handle else Err (InvalidConfig "unexpected transaction type")
     else Err Unavailable, s)).

Definition WorldContext_transaction (self : WorldContext) (lock_wait : Z) (is_T : Z -> bool) :
    Async (Shared App) (Result Z) :=
  match self.(transaction) with
  | None => ret (Err Unavailable)
  | Some handle => TransactionHandle_lock lock_wait is_T handle
  end.

(** *** Pushes *)

Definition WorldContext_publish (self : WorldContext) (target : PushTarget) (route sequence : Z)
    (payload : list Z) : Async (Shared App) (Result PushReceipt) :=
  match self.(pusher) with
  | None => ret (Err Unavailable)
  | Some pusher =>
      pusher {| push_region_id := self.(ctx_identity).(identity_region_id);
                push_realm_id := self.(ctx_identity).(identity_realm_id);
                push_target := target; push_route := route; push_sequence := sequence;
                push_trace_id := self.(ctx_trace_id); push_payload := payload |}
  end.

(** [trait Event]: its route and the encoding of its message. *)
Record Event : Type := { event_id : Z; Message : Type; message_encode : Message -> list Z }.

Definition publish_event (self : WorldContext) (E : Event) (target : PushTarget) (sequence : Z)
    (message : E.(Message)) : Async (Shared App) (Result PushReceipt) :=
  if E.(event_id) <? FIRST_APPLICATION_ROUTE then
    ret (Err (InvalidConfig ("event route " +:+ pretty E.(event_id) +:+ " is reserved")))
  else WorldContext_publish self target E.(event_id) sequence (E.(message_encode) message).

Definition push_session (self : WorldContext) (E : Event) (message : E.(Message)) :=
  publish_event self E (PushSession self.(ctx_session_id)) 0 message.
Definition push_user (self : WorldContext) (E : Event) (message : E.(Message)) :=
  publish_event self E (PushUser self.(ctx_identity).(identity_user_id)) 0 message.
Definition push_users (self : WorldContext) (users : list Z) (E : Event) (message : E.(Message)) :=
  publish_event self E (PushUsers users) 0 message.
Definition push_realm (self : WorldContext) (E : Event) (message : E.(Message)) :=
  publish_event self E PushRealm 0 message.
Definition push_topic (self : WorldContext) (topic : string) (E : Event) (message : E.(Message)) :=
  publish_event self E (PushTopic topic) 0 message.
Definition push_sequenced (self : WorldContext) (target : PushTarget) (E : Event) (sequence : Z)
    (message : E.(Message)) := publish_event self E target sequence message.
Definition join_topic (self : WorldContext) (topic : string) :=
  WorldContext_publish self (PushJoinTopic self.(ctx_session_id) topic) 0 0 [].
Definition leave_topic (self : WorldContext) (topic : string) :=
  WorldContext_publish self (PushLeaveTopic self.(ctx_session_id) topic) 0 0 [].

(** ** Handlers and middleware *)

Definition WorldHandler : Type := WorldContext -> list Z -> Async (Shared App) (Result (list Z)).
(** The rest of the chain is a handler. *)
Definition WorldMiddleware : Type := WorldContext -> list Z -> WorldHandler -> Async (Shared App) (Result (list Z)).

(** [Next::run]. *)
Fixpoint Next_run (middleware : list WorldMiddleware) (handler : WorldHandler) : WorldHandler :=
  fun context payload =>
    match middleware with
    | m :: remaining => m context payload (Next_run remaining handler)
    | [] => handler context payload
    end.

Definition LoggingMiddleware : WorldMiddleware := fun context payload next => next context payload.

(** ** The unit of work *)

(** [TransactionFactory::begin], [WorldTransaction::commit] and [rollback].  A transaction is the number
    it was begun under. *)
Record TransactionFactory : Type := {
  begin : WorldContext -> Z -> Async App (Result unit);
  commit : Z -> Async App (Result unit);
  rollback : Z -> Async App (Result unit);
}.

Definition draw_tx (s : Shared App) : Z * Shared App :=
  (s.(next_tx),
   {| app := s.(app); stats := s.(stats); next_tx := s.(next_tx) + 1; held := s.(held);
      spawned := s.(spawned); tx_log := s.(tx_log) |}).

Definition log_event (e : TxEvent) (s : Shared App) : Shared App :=
  {| app := s.(app); stats := s.(stats); next_tx := s.(next_tx); held := s.(held);
     spawned := s.(spawned); tx_log := s.(tx_log) ++ [e] |}.

Definition spawn (t : Spawned) (s : Shared App) : Shared App :=
  {| app := s.(app); stats := s.(stats); next_tx := s.(next_tx); held := s.(held);
     spawned := s.(spawned) ++ [t]; tx_log := s.(tx_log) |}.

(** The handle that holds the transaction. *)
Definition hold_tx (tx : Z) (s : Shared App) : Shared App :=
  {| app := s.(app); stats := s.(stats); next_tx := s.(next_tx); held := {[tx]} ∪ s.(held);
     spawned := s.(spawned); tx_log := s.(tx_log) |}.

Definition take_tx (tx : Z) (s : Shared App) : bool * Shared App :=
  (bool_decide (tx ∈ s.(held)),
   {| app := s.(app); stats := s.(stats); next_tx := s.(next_tx); held := s.(held) ∖ {[tx]};
      spawned := s.(spawned); tx_log := s.(tx_log) |}).

(** A call of the transaction, with what it answers when it succeeds. *)
Definition call_tx (calling done : TxEvent) (c : Async App (Result unit)) : Async (Shared App) (Result unit) :=
  let! _ := modify (log_event calling) in
  let!? _ := lift c in
  let! _ := modify (log_event done) in
  ret (Ok ()).

(** [Drop for SharedRollbackOnDrop] while armed, and [Drop for RollbackOnDrop]. *)
Definition SharedRollbackOnDrop_drop (tx : Z) : Shared App -> Shared App := spawn (SharedRollback tx).
Definition RollbackOnDrop_drop (tx : option Z) : Shared App -> Shared App := spawn (OwnedRollback tx).

(** The free function [rollback]: an error is only reported. *)
Definition rollback_task (f : TransactionFactory) (tx : option Z) : Async (Shared App) unit :=
  match tx with
  | None => ret ()
  | Some tx => let! _ := call_tx (TxRollingBack tx) (TxRolledBack tx) (f.(rollback) tx) in ret ()
  end.

(** What a spawned task does when it runs; [lock_wait] is how long the handle's lock is held. *)
Definition run_spawned (f : TransactionFactory) (lock_wait : Z) (t : Spawned) : Async (Shared App) unit :=
  match t with
  | OwnedRollback tx => rollback_task f tx
  | SharedRollback tx =>
      let! _ := sleep lock_wait in
      let! present := access (take_tx tx) in
      rollback_task f (if present then Some tx else None)
  end.

(** The [match result] at the end of the middleware: [RollbackOnDrop] owns the transaction. *)
Definition complete_tx (f : TransactionFactory) (tx : Z) (result : Result (list Z)) :
    Async (Shared App) (Result (list Z)) :=
  match result with
  | Ok payload =>
      let! committed := guarded (RollbackOnDrop_drop (Some tx))
        (call_tx (TxCommitting tx) (TxCommitted tx) (f.(commit) tx)) in
      match committed with
      | Err e => let! _ := modify (RollbackOnDrop_drop (Some tx)) in ret (Err e)
      | Ok _ => let! _ := modify (RollbackOnDrop_drop None) in ret (Ok payload)
      end
  | Err error =>
      let! rolled_back := guarded (RollbackOnDrop_drop (Some tx))
        (call_tx (TxRollingBack tx) (TxRolledBack tx) (f.(rollback) tx)) in
      match rolled_back with
      | Err e => let! _ := modify (RollbackOnDrop_drop (Some tx)) in ret (Err e)
      | Ok _ => let! _ := modify (RollbackOnDrop_drop None) in ret (Err error)
      end
  end.

(** The middleware with the number its transaction gets. *)
Definition unit_of_work (f : TransactionFactory) (lock_wait tx : Z) : WorldMiddleware :=
  fun context payload next =>
    let!? _ := lift (f.(begin) context tx) in
    let! _ := modify (fun s => hold_tx tx (log_event (TxBegan tx) s)) in
    let! result := guarded (SharedRollbackOnDrop_drop tx) (next (WorldContext_with_transaction context tx) payload) in
    let! present := guarded (SharedRollbackOnDrop_drop tx) (let! _ := sleep lock_wait in access (take_tx tx)) in
    if negb present then
      let! _ := modify (SharedRollbackOnDrop_drop tx) in
      ret (Err (Internal "transaction was removed before completion"))
    else complete_tx f tx result.

(** [lock_wait] is how long the handle's lock is held when the chain has returned. *)
Definition UnitOfWorkMiddleware (f : TransactionFactory) (lock_wait : Z) : WorldMiddleware :=
  fun context payload next =>
    let! tx := access draw_tx in
    unit_of_work f lock_wait tx context payload next.

(** ** The builder *)

(** [trait Route], with the encodings of its messages. *)
Record Route : Type := {
  route_ID : Z;
  route_NAME : string;
  Request : Type;
  Response : Type;
  request_decode : list Z -> option Request;
  response_encode : Response -> list Z;
}.

(** What a module asks of its registry. *)
Inductive Registration : Type :=
| RegisterRaw (route : Z) (handler : WorldHandler)
| RegisterRoute (E : Route) (handler : WorldContext -> E.(Request) -> Async (Shared App) (Result E.(Response)))
| RegisterMiddleware (m : WorldMiddleware)
| RegisterRouteMiddleware (route : Z) (m : WorldMiddleware).

(** [WorldModule::register]: calls of the registry, each depending on the outcomes of the earlier ones. *)
Inductive RegistryProgram : Type :=
| RegistryDone (r : Result unit)
| RegistryCall (c : Registration) (k : Result unit -> RegistryProgram).

Record WorldModule : Type := {
  module_name : string;
  module_register : RegistryProgram;
  module_start : Async (Shared App) (Result unit);
  module_stop : Async (Shared App) (Result unit);
}.

Record WorldBuilder : Type := {
  builder_config : WorldConfig;
  handlers : gmap Z WorldHandler;
  route_names : gmap Z string;
  middleware : list WorldMiddleware;
  route_middleware : gmap Z (list WorldMiddleware);
  modules : list WorldModule;
  module_names : gset string;
  builder_pusher : option PushTransport;
}.

Definition WorldBuilder_new (config : WorldConfig) : Result WorldBuilder :=
  let? _ := WorldConfig_validate config in
  Ok {| builder_config := config; handlers := ∅; route_names := ∅; middleware := []; route_middleware := ∅;
        modules := []; module_names := ∅; builder_pusher := None |}.

Definition with_push_transport (self : WorldBuilder) (p : PushTransport) : WorldBuilder :=
  {| builder_config := self.(builder_config); handlers := self.(handlers); route_names := self.(route_names);
     middleware := self.(middleware); route_middleware := self.(route_middleware); modules := self.(modules);
     module_names := self.(module_names); builder_pusher := Some p |}.

(** The fields a registration changes. *)
Definition with_registrations (self : WorldBuilder) (h : gmap Z WorldHandler) (names : gmap Z string)
    (m : list WorldMiddleware) (rm : gmap Z (list WorldMiddleware)) : WorldBuilder :=
  {| builder_config := self.(builder_config); handlers := h; route_names := names;
     middleware := m; route_middleware := rm; modules := self.(modules);
     module_names := self.(module_names); builder_pusher := self.(builder_pusher) |}.

Definition register_raw (self : WorldBuilder) (route : Z) (handler : WorldHandler) : Result unit * WorldBuilder :=
  if route <? FIRST_APPLICATION_ROUTE then
    (Err (InvalidConfig ("route " +:+ pretty route +:+ " is reserved")), self)
  else if bool_decide (is_Some (self.(handlers) !! route)) then (Err (DuplicateRoute route), self)
  else
    (Ok (), with_registrations self (<[route := handler]> self.(handlers)) self.(route_names)
              self.(middleware) self.(route_middleware)).

(** The byte handler of a typed one. *)
Definition typed_handler (E : Route)
    (handler : WorldContext -> E.(Request) -> Async (Shared App) (Result E.(Response))) : WorldHandler :=
  fun context payload =>
    match E.(request_decode) payload with
    | None => ret (Err (Error_business "INVALID_PAYLOAD" "invalid Protobuf payload"))
    | Some request =>
        let!? response := handler context request in
        ret (Ok (E.(response_encode) response))
    end.

Definition register (self : WorldBuilder) (E : Route)
    (handler : WorldContext -> E.(Request) -> Async (Shared App) (Result E.(Response))) :
    Result unit * WorldBuilder :=
  if E.(route_ID) <? FIRST_APPLICATION_ROUTE then
    (Err (InvalidConfig ("route " +:+ pretty E.(route_ID) +:+ " is reserved")), self)
  else if bool_decide (is_Some (self.(handlers) !! E.(route_ID))) then (Err (DuplicateRoute E.(route_ID)), self)
  else if trim_is_empty E.(route_NAME) then
    (Err (InvalidConfig "World route name must not be empty"), self)
  else if bool_decide (E.(route_NAME) ∈ (map_to_list self.(route_names)).*2) then
    (Err (InvalidConfig ("duplicate World route name " +:+ E.(route_NAME))), self)
  else
    let '(r, self) := register_raw self E.(route_ID) (typed_handler E handler) in
    let? _ := r else self in
    (Ok (), with_registrations self self.(handlers) (<[E.(route_ID) := E.(route_NAME)]> self.(route_names))
              self.(middleware) self.(route_middleware)).

Definition use_middleware (self : WorldBuilder) (m : WorldMiddleware) : Result unit * WorldBuilder :=
  (Ok (), with_registrations self self.(handlers) self.(route_names) (self.(middleware) ++ [m])
            self.(route_middleware)).

Definition use_route_middleware_raw (self : WorldBuilder) (route : Z) (m : WorldMiddleware) :
    Result unit * WorldBuilder :=
  (Ok (), with_registrations self self.(handlers) self.(route_names) self.(middleware)
            (<[route := default [] (self.(route_middleware) !! route) ++ [m]]> self.(route_middleware))).

(** [WorldModuleRegistry]: each call is passed to the builder. *)
Definition registry_call (self : WorldBuilder) (c : Registration) : Result unit * WorldBuilder :=
  match c with
  | RegisterRaw route handler => register_raw self route handler
  | RegisterRoute E handler => register self E handler
  | RegisterMiddleware m => use_middleware self m
  | RegisterRouteMiddleware route m => use_route_middleware_raw self route m
  end.

Fixpoint run_registry (p : RegistryProgram) (self : WorldBuilder) : Result unit * WorldBuilder :=
  match p with
  | RegistryDone r => (r, self)
  | RegistryCall c k => let '(r, self) := registry_call self c in run_registry (k r) self
  end.

Definition install (self : WorldBuilder) (m : WorldModule) : Result unit * WorldBuilder :=
  let name := trim m.(module_name) in
  if String.eqb name "" then (Err (InvalidConfig "world module name is empty"), self)
  else if bool_decide (name ∈ self.(module_names)) then
    (Err (InvalidConfig ("duplicate world module " +:+ name)), self)
  else
    let h := self.(handlers) in
    let names := self.(route_names) in
    let middleware_count := length self.(middleware) in
    let rm := self.(route_middleware) in
    let '(r, self) := run_registry m.(module_register) self in
    match r with
    | Err error => (Err error, with_registrations self h names (take middleware_count self.(middleware)) rm)
    | Ok _ =>
        (Ok (),
         {| builder_config := self.(builder_config); handlers := self.(handlers);
            route_names := self.(route_names); middleware := self.(middleware);
            route_middleware := self.(route_middleware); modules := self.(modules) ++ [m];
            module_names := {[name]} ∪ self.(module_names); builder_pusher := self.(builder_pusher) |})
    end.

(** ** The runtime *)

Record WorldRuntime : Type := {
  runtime_handlers : gmap Z WorldHandler;
  middleware_by_route : gmap Z (list WorldMiddleware);
  runtime_pusher : option PushTransport;
  runtime_handler_timeout : Z;
  routes : list Z;
  route_info : list RouteInfo;
}.

(** [build], up to [WorldServer::from_parts]. *)
Definition build (self : WorldBuilder) : Result (WorldConfig * WorldRuntime * list WorldModule) :=
  let routes := merge_sort Z.le (map_to_list self.(handlers)).*1 in
  if (len routes =? 0) then Err (InvalidConfig "world requires at least one route")
  else
    match find (fun route => bool_decide (self.(handlers) !! route = None)) (map_to_list self.(route_middleware)).*1 with
    | Some route => Err (RouteNotFound route)
    | None =>
        Ok (self.(builder_config),
            {| runtime_handlers := self.(handlers);
               middleware_by_route :=
                 list_to_map ((fun route =>
                   (route, self.(middleware) ++ default [] (self.(route_middleware) !! route))) <$> routes);
               runtime_pusher := self.(builder_pusher);
               runtime_handler_timeout := self.(builder_config).(handler_timeout);
               routes := routes;
               route_info := (fun id => {| route_id := id; route_name := default "" (self.(route_names) !! id) |})
                               <$> routes |},
            self.(modules))
    end.

Definition execute_serial (self : WorldRuntime) (context : WorldContext) (payload : list Z) (limit : Z) :
    Async (Shared App) (Result (list Z)) :=
  match self.(runtime_handlers) !! context.(ctx_route), self.(middleware_by_route) !! context.(ctx_route) with
  | Some handler, Some chain =>
      let! response := timeout limit (catch_unwind (Next_run chain handler context payload)) in
      match response with
      | None => ret (Err Timeout)
      | Some None =>
          let! _ := modify (with_stats WorldStats_panic) in
          ret (Err (Internal "world handler panicked"))
      | Some (Some result) => ret result
      end
  | _, _ => ret (Err (RouteNotFound context.(ctx_route)))
  end.

Context `{!UuidText} (lock_wait : PlayerKey -> Z).

(** [KeyedExecutor::execute]: the computation runs once the player's lock is free. *)
Definition keyed_execute {A} (player : PlayerKey) (c : Async (Shared App) A) : Async (Shared App) A :=
  let! _ := sleep (lock_wait player) in c.

Definition execute_inner (self : WorldRuntime) (route request_id : Z) (command : WorldCommand) :
    Async (Shared App) (Result (list Z)) :=
  match uuid_parse_str command.(command_session_id) with
  | None => ret (Err (InvalidFrame "invalid World session ID"))
  | Some session_id =>
      let limit := Z.min command.(command_timeout) self.(runtime_handler_timeout) in
      if limit =? 0 then ret (Err Timeout)
      else
        let context := WorldContext_with_pusher
          {| ctx_identity := command.(command_identity); ctx_session_id := session_id;
             ctx_trace_id := command.(command_trace_id); ctx_route := route; ctx_request_id := request_id;
             ctx_shard_id := command.(command_shard_id); ctx_owner_id := command.(owner_id);
             ctx_owner_epoch := command.(owner_epoch); pusher := None; transaction := None; values := ∅ |}
          self.(runtime_pusher) in
        keyed_execute (Identity_player_key context.(ctx_identity))
          (execute_serial self context command.(command_payload) limit)
  end.

Definition execute (self : WorldRuntime) (route request_id : Z) (command : WorldCommand) :
    Async (Shared App) (Result (list Z)) :=
  let! _ := modify (with_stats WorldStats_begin) in
  let! started := instant_now in
  let! result := guarded (with_stats CommandTimer_drop) (execute_inner self route request_id command) in
  let! now := instant_now in
  let! _ := modify (with_stats (fun st => WorldStats_finish st (saturating_sub now started) result)) in
  ret result.
End runtime.

(** ** Each transaction is decided once

    What the shared state says of the transaction [tx]: the events of its life, whether its handle still
    holds it, and the rollbacks spawned for it. *)
Section transactions.
Context {App Any : Type}.
Implicit Types s : Shared App.

Definition event_tx (e : TxEvent) : Z :=
  match e with
  | TxBegan tx | TxCommitting tx | TxCommitted tx | TxRollingBack tx | TxRolledBack tx => tx
  end.
Definition spawned_tx (t : Spawned) : option Z :=
  match t with SharedRollback tx => Some tx | OwnedRollback tx => tx end.

Definition events (tx : Z) s : list TxEvent := filter (fun e => event_tx e = tx) s.(tx_log).
Definition tasks (tx : Z) s : list Spawned := filter (fun t => spawned_tx t = Some tx) s.(spawned).

(** [tx] has these events and tasks, and its handle holds it or not; later transactions have other
    numbers. *)
Definition view (tx : Z) (es : list TxEvent) (h : bool) (ts : list Spawned) s : Prop :=
  events tx s = es /\ bool_decide (tx ∈ s.(held)) = h /\ tasks tx s = ts /\ tx < s.(next_tx).

(** A step that has nothing to do with [tx]. *)
Definition keeps (tx : Z) s s' : Prop := forall es h ts, view tx es h ts s -> view tx es h ts s'.

(** A computation that has nothing to do with [tx], wherever it ends, as long as nobody else has. *)
Definition respects {A} (tx : Z) (c : Async (Shared App) A) : Prop :=
  forall es h ts s, view tx es h ts s ->
    wp (keeps tx) {| returns := fun _ => view tx es h ts; unwinds := view tx es h ts; drops := view tx es h ts |} c s.

Lemma keeps_refl tx s : keeps tx s s.
Proof. by intros es h ts. Qed.

Lemma filter_snoc {A} (P : A -> Prop) `{!forall x, Decision (P x)} l x :
  filter P (l ++ [x]) = if bool_decide (P x) then filter P l ++ [x] else filter P l.
Proof.
  rewrite filter_app. destruct (decide (P x)).
  - rewrite bool_decide_eq_true_2 by done. by rewrite filter_cons_True.
  - rewrite bool_decide_eq_false_2 by done. rewrite filter_cons_False by done. by rewrite filter_nil, app_nil_r.
Qed.

Lemma view_log tx es h ts s e : view tx es h ts s ->
  view tx (if bool_decide (event_tx e = tx) then es ++ [e] else es) h ts (log_event e s).
Proof. intros (He & Hh & Ht & Hn). split; [|done]. unfold events in *. cbn. by rewrite filter_snoc, He. Qed.

Lemma view_spawn tx es h ts s t : view tx es h ts s ->
  view tx es h (if bool_decide (spawned_tx t = Some tx) then ts ++ [t] else ts) (spawn t s).
Proof.
  intros (He & Hh & Ht & Hn). do 2 (split; [done|]). split; [|done].
  unfold tasks in *. cbn. by rewrite filter_snoc, Ht.
Qed.

Lemma view_app tx es h ts s a : view tx es h ts s -> view tx es h ts (with_app s a).
Proof. done. Qed.

Lemma view_stats tx es h ts s f : view tx es h ts s -> view tx es h ts (with_stats f s).
Proof. done. Qed.

Lemma view_draw tx es h ts s : view tx es h ts s -> view tx es h ts (draw_tx s).2.
Proof. intros (He & Hh & Ht & Hn). repeat split; try done. cbn. lia. Qed.

Lemma view_hold tx es h ts s tx' : view tx es h ts s ->
  view tx es (bool_decide (tx = tx') || h) ts (hold_tx tx' s).
Proof.
  intros (He & Hh & Ht & Hn). repeat split; try done. cbn. rewrite <- Hh.
  destruct (decide (tx = tx')) as [->|Hne].
  - rewrite !bool_decide_eq_true_2 by set_solver. done.
  - rewrite (bool_decide_eq_false_2 (tx = tx')) by done. cbn. apply bool_decide_ext. set_solver.
Qed.

Lemma view_take tx es h ts s tx' : view tx es h ts s ->
  view tx es (negb (bool_decide (tx = tx')) && h) ts (take_tx tx' s).2.
Proof.
  intros (He & Hh & Ht & Hn). repeat split; try done. cbn. rewrite <- Hh.
  destruct (decide (tx = tx')) as [->|Hne].
  - rewrite (bool_decide_eq_true_2 (tx' = tx')) by done. apply bool_decide_eq_false. set_solver.
  - rewrite (bool_decide_eq_false_2 (tx = tx')) by done. cbn. apply bool_decide_ext. set_solver.
Qed.

(** The application's own computations touch no transaction's record. *)
Lemma lift_holds {A} tx (f : Future App A) es h ts : forall s, view tx es h ts s ->
  holds (keeps tx) {| returns := fun _ => view tx es h ts; unwinds := view tx es h ts; drops := view tx es h ts |}
    (lift_future f) s.
Proof.
  induction f as [a| |wait dropped resume IH] using future_ind; cbn; intros s Hv; [done..|].
  intros s' Hs. specialize (Hs _ _ _ Hv). split; [by apply view_app|]. intros now. specialize (IH now s'.(app)).
  destruct (resume now s'.(app)) as [f a]. by apply IH, view_app.
Qed.

Lemma lift_respects {A} tx (c : Async App A) : respects tx (lift c).
Proof.
  intros es h ts s Hv now. unfold lift. pose proof (lift_holds tx (c now s.(app)).1 es h ts) as H.
  destruct (c now s.(app)) as [f a]. by apply H, view_app.
Qed.

Lemma ret_respects {A} tx (a : A) : respects tx (ret a).
Proof. intros es h ts s Hv. by apply wp_ret. Qed.

Lemma access_respects {A} tx (g : Shared App -> A * Shared App) :
  (forall s, keeps tx s (g s).2) -> respects tx (access g).
Proof. intros Hg es h ts s Hv. apply wp_access. by apply Hg. Qed.

Lemma modify_respects tx (g : Shared App -> Shared App) : (forall s, keeps tx s (g s)) -> respects tx (modify g).
Proof. intros Hg es h ts s Hv. apply wp_modify. by apply Hg. Qed.

Lemma sleep_respects tx wait : respects tx (sleep wait).
Proof. intros es h ts s Hv. apply wp_sleep. intros s' Hs. by split; apply Hs. Qed.

Lemma bind_respects {A B} tx (c : Async (Shared App) A) (k : A -> Async (Shared App) B) :
  respects tx c -> (forall a, respects tx (k a)) -> respects tx (bind c k).
Proof.
  intros Hc Hk es h ts s Hv. apply wp_bind. eapply wp_mono; [|by apply Hc].
  split; [|done]. intros a s' Hv'. by apply Hk.
Qed.

Lemma guarded_respects {A} tx on_drop (c : Async (Shared App) A) :
  (forall s, keeps tx s (on_drop s)) -> respects tx c -> respects tx (guarded on_drop c).
Proof.
  intros Hd Hc es h ts s Hv. apply wp_guarded. eapply wp_mono; [|by apply Hc].
  split; [done|]. by split; intros s' Hv'; apply Hd.
Qed.

Lemma timeout_respects {A} tx limit (c : Async (Shared App) A) : respects tx c -> respects tx (timeout limit c).
Proof. intros Hc es h ts s Hv. apply wp_timeout. eapply wp_mono; [|by apply Hc]. done. Qed.

Lemma catch_respects {A} tx (c : Async (Shared App) A) : respects tx c -> respects tx (catch_unwind c).
Proof. intros Hc es h ts s Hv. apply wp_catch_unwind. eapply wp_mono; [|by apply Hc]. done. Qed.

(** A step on another transaction. *)
Lemma log_keeps tx e s : event_tx e <> tx -> keeps tx s (log_event e s).
Proof. intros He es h ts Hv. apply (view_log _ _ _ _ _ e) in Hv. by rewrite bool_decide_eq_false_2 in Hv. Qed.

Lemma spawn_keeps tx t s : spawned_tx t <> Some tx -> keeps tx s (spawn t s).
Proof. intros He es h ts Hv. apply (view_spawn _ _ _ _ _ t) in Hv. by rewrite bool_decide_eq_false_2 in Hv. Qed.

Lemma take_keeps tx tx' s : tx' <> tx -> keeps tx s (take_tx tx' s).2.
Proof.
  intros He es h ts Hv. apply (view_take _ _ _ _ _ tx') in Hv. by rewrite bool_decide_eq_false_2 in Hv by done.
Qed.

Lemma begun_keeps tx tx' s : tx' <> tx -> keeps tx s (hold_tx tx' (log_event (TxBegan tx') s)).
Proof.
  intros He es h ts Hv. apply (view_log _ _ _ _ _ (TxBegan tx')) in Hv.
  rewrite bool_decide_eq_false_2 in Hv by done. apply (view_hold _ _ _ _ _ tx') in Hv.
  by rewrite bool_decide_eq_false_2 in Hv by done.
Qed.

Lemma call_respects tx calling done (c : Async App (Result unit)) :
  event_tx calling <> tx -> event_tx done <> tx -> respects tx (call_tx calling done c).
Proof.
  intros H1 H2. apply bind_respects; [by apply modify_respects; intros; apply log_keeps|]. intros _.
  apply bind_respects; [apply lift_respects|]. intros [u|e]; [|apply ret_respects].
  apply bind_respects; [by apply modify_respects; intros; apply log_keeps|]. intros _. apply ret_respects.
Qed.

(** *** The fates of a transaction *)

Definition not_begun (tx : Z) s : Prop := view tx [] false [] s.

Definition committed (tx : Z) s : Prop :=
  view tx [TxBegan tx; TxCommitting tx; TxCommitted tx] false [] s.

(** It was not committed, and its rollback was called or is the work of a spawned task. *)
Definition to_roll_back (tx : Z) s : Prop :=
  exists es h ts, view tx es h ts s /\ TxBegan tx ∈ es /\ TxCommitted tx ∉ es /\
    (TxRollingBack tx ∈ es \/ OwnedRollback (Some tx) ∈ ts \/ (SharedRollback tx ∈ ts /\ h = true)).

Definition abandoned (tx : Z) s : Prop := not_begun tx s \/ to_roll_back tx s.

(** A unit of work on [tx] ends with the transaction committed when it answers [Ok], and abandoned
    otherwise. *)
Definition decided (tx : Z) : Post (Shared App) (Result (list Z)) :=
  {| returns := fun r s => if is_ok r then committed tx s else abandoned tx s;
     unwinds := abandoned tx; drops := abandoned tx |}.

Lemma view_log_own tx es h ts s e : event_tx e = tx -> view tx es h ts s -> view tx (es ++ [e]) h ts (log_event e s).
Proof. intros He Hv. apply (view_log _ _ _ _ _ e) in Hv. by rewrite bool_decide_eq_true_2 in Hv. Qed.

Lemma view_spawn_own tx es h ts s t :
  spawned_tx t = Some tx -> view tx es h ts s -> view tx es h (ts ++ [t]) (spawn t s).
Proof. intros He Hv. apply (view_spawn _ _ _ _ _ t) in Hv. by rewrite bool_decide_eq_true_2 in Hv. Qed.

(** Dropping the guard of a transaction its handle holds, and of one the middleware owns. *)
Lemma shared_drop tx es ts s : TxBegan tx ∈ es -> TxCommitted tx ∉ es ->
  view tx es true ts s -> abandoned tx (SharedRollbackOnDrop_drop tx s).
Proof.
  intros Hb Hc Hv. right. exists es, true, (ts ++ [SharedRollback tx]).
  split; [by apply view_spawn_own|]. do 2 (split; [done|]). right. right. split; [set_solver|done].
Qed.

Lemma owned_drop tx es h ts s : TxBegan tx ∈ es -> TxCommitted tx ∉ es ->
  view tx es h ts s -> abandoned tx (RollbackOnDrop_drop (Some tx) s).
Proof.
  intros Hb Hc Hv. right. exists es, h, (ts ++ [OwnedRollback (Some tx)]).
  split; [by apply view_spawn_own|]. do 2 (split; [done|]). right. left. set_solver.
Qed.

(** A call of the transaction: it is logged before, and after when it succeeds. *)
Lemma wp_call tx es calling done (c : Async App (Result unit)) s (Q : Post (Shared App) (Result unit)) :
  event_tx calling = tx -> event_tx done = tx ->
  view tx es false [] s ->
  (forall s, view tx (es ++ [calling; done]) false [] s -> Q.(returns) (Ok ()) s) ->
  (forall e s, view tx (es ++ [calling]) false [] s -> Q.(returns) (Err e) s) ->
  (forall s, view tx (es ++ [calling]) false [] s -> Q.(unwinds) s /\ Q.(drops) s) ->
  wp (keeps tx) Q (call_tx calling done c) s.
Proof.
  intros H1 H2 Hv Hok Herr Hend. apply wp_bind, wp_modify. cbn. apply (view_log_own _ _ _ _ _ calling) in Hv; [|done].
  apply wp_bind. eapply wp_mono; [|by apply lift_respects].
  split; [|by split; intros s' Hs'; apply Hend].
  intros [[]|e] s' Hs'; cbn; [|by apply wp_ret, Herr].
  apply wp_bind, wp_modify, wp_ret, Hok.
  apply (view_log_own _ _ _ _ _ done) in Hs'; [|done]. by rewrite <- app_assoc in Hs'.
Qed.

Lemma complete_tx_decides (f : @TransactionFactory App Any) (tx : Z) result s :
  view tx [TxBegan tx] false [] s -> wp (keeps tx) (decided tx) (complete_tx f tx result) s.
Proof.
  intros Hv. destruct result as [p|error];
    (apply wp_bind, wp_guarded; eapply (wp_call tx [TxBegan tx]); [done..| | |]; cbn).
  1: intros s' Hs'; apply wp_bind, wp_modify, wp_ret; cbn; by apply spawn_keeps.
  3: { intros s' Hs'. apply wp_bind, wp_modify, wp_ret. cbn. right.
       eexists _, _, _. split; [by apply spawn_keeps|]. split; [set_solver|]. split; [set_solver|]. left. set_solver. }
  all: intros *; intros Hs'; try (apply wp_bind, wp_modify, wp_ret; cbn); try split;
    eapply owned_drop; try done; set_solver.
Qed.

(** The middleware decides its transaction, whatever the chain behind it does with others. *)
Lemma unit_of_work_decides f lock_wait (context : @WorldContext App Any) payload next s :
  let tx := s.(next_tx) in
  events tx s = [] -> tx ∉ s.(held) -> tasks tx s = [] ->
  (forall context payload, respects tx (next context payload)) ->
  wp (keeps tx) (decided tx) (UnitOfWorkMiddleware f lock_wait context payload next) s.
Proof.
  intros tx He Hh Ht Hnext. apply wp_bind, wp_access. cbn -[draw_tx].
  set (s1 := (draw_tx s).2). assert (Hv : view tx [] false [] s1).
  { split; [done|]. split; [by apply bool_decide_eq_false|]. split; [done|]. cbn. unfold tx. lia. }
  change (draw_tx s).1 with tx. clearbody s1. clearbody tx. clear He Hh Ht. apply wp_bind.
  eapply wp_mono; [|by apply lift_respects]. split; [|by split; intros s' Hs'; left].
  intros [[]|e] s2 Hs2; cbn; [|by apply wp_ret; left].
  apply wp_bind, wp_modify. cbn.
  assert (Hb : view tx [TxBegan tx] true [] (hold_tx tx (log_event (TxBegan tx) s2))).
  { apply (view_log_own _ _ _ _ _ (TxBegan tx)) in Hs2; [|done]. apply (view_hold _ _ _ _ _ tx) in Hs2.
    by rewrite bool_decide_eq_true_2 in Hs2. }
  apply wp_bind, wp_guarded. eapply wp_mono; [|by apply Hnext].
  split; [|split; intros s' Hs'; eapply shared_drop; try done; set_solver].
  cbn. intros result s3 Hs3. apply wp_bind, wp_guarded, wp_bind, wp_sleep. cbn. intros s4 Hk.
  apply Hk in Hs3. split; [eapply shared_drop; try done; set_solver|].
  apply wp_access. cbn -[take_tx].
  assert (Htake : (take_tx tx s4).1 = true) by apply Hs3. rewrite Htake. cbn [negb].
  apply (view_take _ _ _ _ _ tx) in Hs3. rewrite bool_decide_eq_true_2 in Hs3 by done. cbn [negb andb] in Hs3.
  by apply complete_tx_decides.
Qed.

(** Another unit of work around a chain that leaves [tx] alone leaves it alone. *)
Lemma complete_tx_respects (f : @TransactionFactory App Any) tx tx' result :
  tx' <> tx -> respects tx (complete_tx f tx' result).
Proof.
  intros Hne.
  assert (Hspawn : forall t (r : Result (list Z)), spawned_tx t <> Some tx ->
    respects tx (let! _ := modify (spawn t) in ret r)).
  { intros t r Ht. apply bind_respects; [by apply modify_respects; intros; apply spawn_keeps|]. intros _.
    apply ret_respects. }
  destruct result; (apply bind_respects;
    [apply guarded_respects; [intros; apply spawn_keeps; cbn; congruence|by apply call_respects]|]);
    intros [[]|?e]; apply Hspawn; cbn; congruence.
Qed.

Lemma unit_of_work_respects tx f lock_wait (context : @WorldContext App Any) payload next :
  (forall context payload, respects tx (next context payload)) ->
  respects tx (UnitOfWorkMiddleware f lock_wait context payload next).
Proof.
  intros Hnext es h ts s Hv. apply wp_bind, wp_access. cbn -[draw_tx].
  assert (Hne : (draw_tx s).1 <> tx) by (destruct Hv as (_ & _ & _ & Hn); cbn; lia).
  apply view_draw in Hv. revert es h ts Hv. generalize (draw_tx s).2. revert Hne. generalize (draw_tx s).1.
  intros tx' Hne s1 es h ts. revert es h ts s1.
  assert (Hdrop : forall s, keeps tx s (SharedRollbackOnDrop_drop tx' s))
    by (intros; apply spawn_keeps; cbn; congruence).
  apply bind_respects; [apply lift_respects|]. intros [[]|e]; [|apply ret_respects].
  apply bind_respects; [by apply modify_respects; intros; apply begun_keeps|]. intros _.
  apply bind_respects; [by apply guarded_respects|]. intros result.
  apply bind_respects.
  { apply guarded_respects; [done|]. apply bind_respects; [apply sleep_respects|]. intros _.
    apply access_respects. intros. by apply take_keeps. }
  intros [|]; cbn [negb]; [by apply complete_tx_respects|].
  apply bind_respects; [by apply modify_respects|]. intros _. apply ret_respects.
Qed.

(** A spawned task calls the rollback of its transaction. *)
Lemma spawned_task_rolls_back f (tx : Z) es h ts s lock_wait t :
  view tx es h ts s -> t = OwnedRollback (Some tx) \/ (t = SharedRollback tx /\ h = true) ->
  wp (keeps tx)
    {| returns := fun _ s => TxRollingBack tx ∈ events tx s;
       unwinds := fun s => TxRollingBack tx ∈ events tx s;
       drops := fun s => TxRollingBack tx ∈ events tx s \/ (t = SharedRollback tx /\ view tx es h ts s) |}
    (@run_spawned App Any f lock_wait t) s.
Proof.
  intros Hv Ht.
  assert (Hcall : forall es h s, view tx es h ts s ->
    wp (keeps tx)
      {| returns := fun _ s => TxRollingBack tx ∈ events tx s;
         unwinds := fun s => TxRollingBack tx ∈ events tx s;
         drops := fun s => TxRollingBack tx ∈ events tx s |} (rollback_task f (Some tx)) s).
  { clear. intros es h s Hv. apply wp_bind. apply wp_bind, wp_modify. cbn.
    apply (view_log_own _ _ _ _ _ (TxRollingBack tx)) in Hv; [|done].
    assert (Hin : forall s, view tx (es ++ [TxRollingBack tx]) h ts s -> TxRollingBack tx ∈ events tx s).
    { intros s' (-> & _). set_solver. }
    apply wp_bind. eapply wp_mono; [|by apply lift_respects]. split; [|by split].
    intros [[]|e] s' Hs'; cbn; [|apply wp_ret; cbn; by apply wp_ret, Hin].
    apply wp_bind, wp_modify, wp_ret, wp_ret. cbn -[events].
    apply (view_log_own _ _ _ _ _ (TxRolledBack tx)) in Hs'; [|done]. destruct Hs' as (-> & _). set_solver. }
  destruct Ht as [->|[-> ->]]; cbn.
  - eapply wp_mono; [|by apply (Hcall es h)]. split; [done|]. split; [done|]. by left.
  - apply wp_bind, wp_sleep. cbn. intros s' Hk. apply Hk in Hv as Hv'. split; [by right|].
    apply wp_bind, wp_access. cbn -[take_tx]. assert (Htake : (take_tx tx s').1 = true) by apply Hv'.
    rewrite Htake. apply (view_take _ _ _ _ _ tx) in Hv'.
    eapply wp_mono; [|by eapply Hcall]. split; [done|]. split; [done|]. by left.
Qed.
End transactions.

(** ** What the builder guarantees *)

Section builders.
Context {App Any : Type}.
Implicit Types b : @WorldBuilder App Any.

Record builder_ok b : Prop := {
  handlers_application : forall r h, b.(handlers) !! r = Some h -> FIRST_APPLICATION_ROUTE <= r;
  names_registered : forall r n, b.(route_names) !! r = Some n ->
    is_Some (b.(handlers) !! r) /\ trim_is_empty n = false;
  names_unique : forall r r' n, b.(route_names) !! r = Some n -> b.(route_names) !! r' = Some n -> r = r';
  modules_named : b.(module_names) = list_to_set ((fun m => trim m.(module_name)) <$> b.(modules));
  modules_unique : NoDup ((fun m => trim m.(module_name)) <$> b.(modules));
  modules_nonempty : "" ∉ b.(module_names);
}.

(** What a registration cannot change, and the middleware it can only add to. *)
Definition extends b b' : Prop :=
  b'.(builder_config) = b.(builder_config) /\ b'.(modules) = b.(modules) /\
  b'.(module_names) = b.(module_names) /\ b'.(builder_pusher) = b.(builder_pusher) /\
  exists m, b'.(middleware) = b.(middleware) ++ m.

Lemma extends_refl b : extends b b.
Proof. repeat split; try done. exists []. by rewrite app_nil_r. Qed.

Lemma extends_trans b1 b2 b3 : extends b1 b2 -> extends b2 b3 -> extends b1 b3.
Proof.
  intros (? & ? & ? & ? & m & Hm) (? & ? & ? & ? & m' & Hm'). do 4 (split; [congruence|]).
  exists (m ++ m'). by rewrite Hm', Hm, app_assoc.
Qed.

Lemma register_raw_extends b r h : extends b (register_raw b r h).2.
Proof.
  unfold register_raw. repeat case_match; try apply extends_refl.
  repeat split; try done. exists []. by rewrite app_nil_r.
Qed.

Lemma registry_call_extends b c : extends b (registry_call b c).2.
Proof.
  destruct c as [r h|E h|m|r m]; cbn; [apply register_raw_extends|..].
  - unfold register. pose proof (register_raw_extends b E.(route_ID) (typed_handler E h)) as Hraw.
    destruct (register_raw b E.(route_ID) (typed_handler E h)) as [[u|e] b']; cbn in Hraw;
      repeat (destruct (_ : bool); [apply extends_refl|]); done.
  - repeat split; try done. by exists [m].
  - repeat split; try done. exists []. by rewrite app_nil_r.
Qed.

Lemma run_registry_extends p : forall b, extends b (run_registry p b).2.
Proof.
  induction p as [r|c k IH]; intros b; cbn; [apply extends_refl|].
  pose proof (registry_call_extends b c) as H. destruct (registry_call b c) as [r b'].
  eapply extends_trans; [exact H|apply IH].
Qed.

(** A module whose registration fails leaves no trace: every route, name and middleware it added is gone. *)
Lemma failed_install_unchanged b m e b' : install b m = (Err e, b') -> b' = b.
Proof.
  unfold install. destruct (String.eqb _ ""); [by intros [= _ <-]|]. case_bool_decide; [by intros [= _ <-]|].
  pose proof (run_registry_extends m.(module_register) b) as Hx.
  destruct (run_registry m.(module_register) b) as [[u|e'] b1]; [by intros [=]|]. intros [= <- <-].
  destruct Hx as (Hc & Hm & Hn & Hp & mw & Hmw). cbn in Hc, Hm, Hn, Hp, Hmw.
  unfold with_registrations. rewrite Hc, Hm, Hn, Hp, Hmw, take_app_length. by destruct b.
Qed.

(** *** The invariant *)

Lemma with_middleware_ok b m rm :
  builder_ok b -> builder_ok (with_registrations b b.(handlers) b.(route_names) m rm).
Proof. intros []. by split. Qed.

Lemma register_raw_ok b r h : builder_ok b -> builder_ok (register_raw b r h).2.
Proof.
  intros Hok. unfold register_raw. destruct (Z.ltb_spec r FIRST_APPLICATION_ROUTE); [done|].
  case_bool_decide as Hd; [done|]. destruct Hok. split; cbn; try done.
  - intros r' h'. destruct (decide (r' = r)) as [->|Hne]; [lia|]. rewrite lookup_insert_ne by done. eauto.
  - intros r' n Hr'. apply names_registered0 in Hr' as [Hs ?]. split; [|done].
    destruct (decide (r' = r)) as [->|Hne]; [by rewrite lookup_insert_eq|]. by rewrite lookup_insert_ne.
Qed.

Lemma register_ok b E h : builder_ok b -> builder_ok (register b E h).2.
Proof.
  intros Hok. unfold register. destruct (Z.ltb_spec (route_ID E) FIRST_APPLICATION_ROUTE) as [Hr|Hr]; [done|].
  case_bool_decide as Hd; [done|]. destruct (trim_is_empty (route_NAME E)) eqn:Ht; [done|].
  case_bool_decide as Hn; [done|]. pose proof (register_raw_ok b E.(route_ID) (typed_handler E h) Hok) as Hraw.
  unfold register_raw in *. apply Z.ltb_ge in Hr. rewrite Hr, bool_decide_eq_false_2 in * by done.
  cbn in Hraw |- *. destruct Hraw as [H1 H2 H3 H4 H5 H6]. cbn in *.
  assert (Hnew : forall r, b.(route_names) !! r <> Some E.(route_NAME)).
  { intros r Hl. apply Hn, list_elem_of_fmap. exists (r, E.(route_NAME)).
    split; [done|]. by apply elem_of_map_to_list. }
  assert (Hno : b.(route_names) !! E.(route_ID) = None).
  { destruct (b.(route_names) !! E.(route_ID)) eqn:El; [|done]. destruct Hok as [_ Hreg _ _ _ _].
    apply Hreg in El as [? _]. done. }
  split; cbn; try done.
  - intros r n. destruct (decide (r = E.(route_ID))) as [->|Hne].
    + rewrite !lookup_insert_eq. intros [= <-]. by split.
    + rewrite lookup_insert_ne by done. apply H2.
  - intros r r' n. destruct (decide (r = E.(route_ID))) as [->|Hne], (decide (r' = E.(route_ID))) as [->|Hne'];
      rewrite ?lookup_insert_eq, ?lookup_insert_ne by done; try done; [| |apply H3].
    + intros [= <-] Hl. by apply Hnew in Hl.
    + intros Hl [= <-]. by apply Hnew in Hl.
Qed.

Lemma registry_call_ok b c : builder_ok b -> builder_ok (registry_call b c).2.
Proof.
  intros Hok. destruct c; cbn; [by apply register_raw_ok|by apply register_ok|by apply with_middleware_ok..].
Qed.

Lemma run_registry_ok p : forall b, builder_ok b -> builder_ok (run_registry p b).2.
Proof.
  induction p as [r|c k IH]; intros b Hok; cbn; [done|].
  pose proof (registry_call_ok b c Hok) as H. destruct (registry_call b c) as [r b']. by apply IH.
Qed.

Lemma install_ok b m : builder_ok b -> builder_ok (install b m).2.
Proof.
  intros Hok. destruct (install b m) as [[[]|e] b'] eqn:E; [|by apply failed_install_unchanged in E as ->].
  revert E. unfold install. destruct (String.eqb_spec (trim m.(module_name)) "") as [|Hne]; [done|].
  case_bool_decide as Hnew; [done|]. pose proof (run_registry_ok m.(module_register) b Hok) as H.
  pose proof (run_registry_extends m.(module_register) b) as Hx.
  destruct (run_registry m.(module_register) b) as [[u|e] b1]; [|done]. intros [= <-].
  destruct Hx as (_ & Hm & Hnames & _). cbn in H, Hm, Hnames. destruct H as [H1 H2 H3 H4 H5 H6].
  rewrite <- Hnames in Hnew. split; cbn; try done; rewrite ?fmap_app; cbn.
  - rewrite H4, list_to_set_app_L. cbn. set_solver.
  - apply NoDup_app. split; [done|]. split; [|apply NoDup_singleton].
    intros x Hx ->%list_elem_of_singleton. apply Hnew. rewrite H4. by apply elem_of_list_to_set.
  - set_solver.
Qed.

(** The operations of a builder. *)
Inductive builder_op : Type :=
| BRegister (c : @Registration App Any)
| BInstall (m : @WorldModule App Any)
| BPushTransport (p : @PushTransport App).

Definition builder_apply (b : WorldBuilder) (op : builder_op) : WorldBuilder :=
  match op with
  | BRegister c => (registry_call b c).2
  | BInstall m => (install b m).2
  | BPushTransport p => with_push_transport b p
  end.

Lemma reached_builder_ok config b0 ops :
  WorldBuilder_new config = Ok b0 -> builder_ok (foldl builder_apply b0 ops).
Proof.
  unfold WorldBuilder_new. destruct (WorldConfig_validate config); [|done]. intros [= <-].
  match goal with |- builder_ok (foldl _ ?b _) => assert (Hok : builder_ok b) end.
  { split; cbn; try done; apply NoDup_nil_2. }
  revert Hok. match goal with |- builder_ok ?b -> _ => generalize b end. clear.
  induction ops as [|op ops IH]; intros b Hok; cbn; [done|]. apply IH.
  destruct op; cbn; [by apply registry_call_ok|by apply install_ok|]. by destruct Hok.
Qed.
End builders.

(** ** The built world *)

(** The table of a runtime: its routes are sorted, without duplicates and outside the reserved range;
    each has a handler and its chain, nothing else has; each has one entry of information, and no two
    share a name. *)
Record runtime_ok {App Any} (b : @WorldBuilder App Any) (rt : WorldRuntime) : Prop := {
  routes_nonempty : rt.(routes) <> [];
  routes_sorted : StronglySorted Z.lt rt.(routes);
  routes_application : forall r, r ∈ rt.(routes) -> FIRST_APPLICATION_ROUTE <= r;
  routes_handled : forall r, is_Some (rt.(runtime_handlers) !! r) <-> r ∈ rt.(routes);
  routes_chained : forall r, rt.(middleware_by_route) !! r =
    if bool_decide (r ∈ rt.(routes))
    then Some (b.(middleware) ++ default [] (b.(route_middleware) !! r)) else None;
  route_middleware_used : forall r, is_Some (b.(route_middleware) !! r) -> r ∈ rt.(routes);
  info_routes : route_id <$> rt.(route_info) = rt.(routes);
  info_unique : forall i j, i ∈ rt.(route_info) -> j ∈ rt.(route_info) ->
    i.(route_name) = j.(route_name) -> i.(route_name) <> "" -> i = j;
}.

Lemma sorted_keys {A} (m : gmap Z A) :
  StronglySorted Z.lt (merge_sort Z.le (map_to_list m).*1) /\
  forall k, k ∈ merge_sort Z.le (map_to_list m).*1 <-> is_Some (m !! k).
Proof.
  split.
  - pose proof (StronglySorted_merge_sort Z.le (map_to_list m).*1) as Hs.
    assert (Hnd : NoDup (merge_sort Z.le (map_to_list m).*1)).
    { rewrite merge_sort_Permutation. apply NoDup_fst_map_to_list. }
    revert Hs Hnd. induction (merge_sort Z.le (map_to_list m).*1) as [|k l IH]; intros Hs Hnd; [constructor|].
    apply StronglySorted_inv in Hs as [Hs Hall]. apply NoDup_cons in Hnd as [Hk Hnd]. constructor; [by apply IH|].
    rewrite Forall_forall in Hall |- *. intros x Hx. specialize (Hall x Hx).
    assert (x <> k) by (by intros ->). lia.
  - intros k. rewrite merge_sort_Permutation, list_elem_of_fmap. split.
    + intros ([k' v] & -> & Hin). apply elem_of_map_to_list in Hin. by exists v.
    + intros [v Hv]. exists (k, v). split; [done|]. by apply elem_of_map_to_list.
Qed.

Lemma find_none {A} (p : A -> bool) l : find p l = None -> forall x, x ∈ l -> p x = false.
Proof. induction l as [|y l IH]; cbn; intros H x Hx; [set_solver|]. case_match; [done|]. set_solver. Qed.

Lemma chains_lookup {A} (f : Z -> A) (l : list Z) r : NoDup l ->
  (list_to_map ((fun k => (k, f k)) <$> l) : gmap Z A) !! r = if bool_decide (r ∈ l) then Some (f r) else None.
Proof.
  intros Hnd. case_bool_decide as Hin.
  - apply elem_of_list_to_map.
    + by rewrite <- list_fmap_compose, list_fmap_id.
    + apply list_elem_of_fmap. by exists r.
  - apply not_elem_of_list_to_map. by rewrite <- list_fmap_compose, list_fmap_id.
Qed.

Lemma sorted_lt_nodup l : StronglySorted Z.lt l -> NoDup l.
Proof.
  induction 1 as [|k l Hs IH Hall]; constructor; [|done]. rewrite Forall_forall in Hall. intros Hin.
  specialize (Hall k Hin). lia.
Qed.

(** C30: however an application assembles a world — routes, typed routes, middleware, modules that fail
    half-way included, in any order — a build that succeeds gives a well-formed table: the sorted, unique,
    non-empty list of its routes, none of them reserved, each with its handler and the global middleware
    followed by its own, named at most once; every installed module has its own name; and a command for
    any other route answers that the route is not found without running anything. *)
Theorem built_world_well_formed {App Any} (config : WorldConfig) (b0 : @WorldBuilder App Any)
  (ops : list builder_op) (config' : WorldConfig) (rt : WorldRuntime) (ms : list WorldModule)
  (Hnew : WorldBuilder_new config = Ok b0)
  (Hbuild : build (foldl builder_apply b0 ops) = Ok (config', rt, ms)) :
  runtime_ok (foldl builder_apply b0 ops) rt /\
  NoDup ((fun m => trim m.(module_name)) <$> ms) /\
  (forall context payload limit, context.(ctx_route) ∉ rt.(routes) ->
     execute_serial rt context payload limit = ret (Err (RouteNotFound context.(ctx_route)))).
Proof.
  apply (reached_builder_ok config b0 ops) in Hnew as Hok. revert Hbuild Hok.
  generalize (foldl builder_apply b0 ops). intros b Hbuild Hok. unfold build in Hbuild.
  destruct (sorted_keys b.(handlers)) as [Hsorted Hkeys]. apply sorted_lt_nodup in Hsorted as Hnd.
  revert Hsorted Hkeys Hnd Hbuild. generalize (merge_sort Z.le (map_to_list b.(handlers)).*1). intros rs Hsorted Hkeys Hnd.
  destruct (Z.eqb_spec (len rs) 0) as [|Hne]; [done|].
  destruct (find _ _) as [r|] eqn:Hf; [done|]. intros [= <- <- <-]. destruct Hok as [H1 H2 H3 H4 H5 H6].
  split; [|split; [done|]].
  - split; cbn; try done.
    + by intros ->.
    + intros r Hr. apply Hkeys in Hr as [h Hh]. by apply H1 in Hh.
    + intros r. by rewrite chains_lookup.
    + intros r [m Hm]. apply Hkeys. pose proof (find_none _ _ Hf r) as Hr. cbn in Hr.
      destruct (b.(handlers) !! r) eqn:El; [done|]. rewrite bool_decide_eq_true_2 in Hr by done.
      enough (true = false) by done. apply Hr, list_elem_of_fmap. exists (r, m). split; [done|]. by apply elem_of_map_to_list.
    + by rewrite <- list_fmap_compose, list_fmap_id.
    + intros i j (r & -> & Hr)%list_elem_of_fmap (r' & -> & Hr')%list_elem_of_fmap. cbn.
      destruct (b.(route_names) !! r) as [n|] eqn:En; cbn; [|done].
      destruct (b.(route_names) !! r') as [n'|] eqn:En'; cbn; [|by intros ->].
      intros -> _. by rewrite (H3 r r' n' En En').
  - intros context payload limit Hr. unfold execute_serial. cbn.
    destruct (b.(handlers) !! context.(ctx_route)) eqn:El; [|done].
    exfalso. apply Hr, Hkeys. by rewrite El.
Qed.

Section atomic.
Context {App Any : Type}.

(** Under a timeout and with panics caught, the decision stands: only an [Ok] answer has committed. *)
Lemma execute_serial_decides (self : @WorldRuntime App Any) f lock_wait handler rest context payload limit s :
  let tx := s.(next_tx) in
  self.(runtime_handlers) !! context.(ctx_route) = Some handler ->
  self.(middleware_by_route) !! context.(ctx_route) = Some (UnitOfWorkMiddleware f lock_wait :: rest) ->
  (forall context payload, respects tx (Next_run rest handler context payload)) ->
  events tx s = [] -> tx ∉ s.(held) -> tasks tx s = [] ->
  wp (keeps tx) (decided tx) (execute_serial self context payload limit) s.
Proof.
  intros tx Hh Hm Hrest He Hheld Ht. unfold execute_serial. rewrite Hh, Hm.
  apply wp_bind, wp_timeout, wp_catch_unwind. cbn [Next_run].
  eapply wp_mono; [|by apply unit_of_work_decides]. split; [|split]; cbn.
  - intros r s' Hs'. by apply wp_ret.
  - intros s' Hs'. apply wp_bind, wp_modify, wp_ret. cbn.
    destruct Hs' as [Hs'|(es & h & ts & Hv & Hrb)]; [left|right; exists es, h, ts; split; [|done]]; by apply view_stats.
  - intros s' Hs'. split; [done|]. by apply wp_ret.
Qed.
End atomic.

(** C6: a command that runs in a unit of work is all or nothing, whatever the handler does — return an
    error, panic, run past its timeout — whenever the request is dropped, and whatever other tasks do
    meanwhile: if the client is answered [Ok] its transaction began and was committed, exactly once, and is
    not rolled back; in every other case it never began, or it was not committed and its rollback has been
    called or is the work of a spawned task (an error in [commit] or [rollback] included). *)
Theorem unit_of_work_all_or_nothing {App Any} (self : @WorldRuntime App Any) (f : TransactionFactory)
  (lock_wait : Z) (handler : WorldHandler) (rest : list WorldMiddleware) (context : WorldContext)
  (payload : list Z) (limit : Z) (others : Z -> Shared App -> Shared App) (until now : Z) (s : Shared App)
  (Hhandler : self.(runtime_handlers) !! context.(ctx_route) = Some handler)
  (Hchain : self.(middleware_by_route) !! context.(ctx_route) = Some (UnitOfWorkMiddleware f lock_wait :: rest))
  (Hrest : forall context payload, respects s.(next_tx) (Next_run rest handler context payload))
  (Hothers : forall now s', keeps s.(next_tx) s' (others now s'))
  (Hfresh : events s.(next_tx) s = [] /\ s.(next_tx) ∉ s.(held) /\ tasks s.(next_tx) s = []) :
  match run others until (execute_serial self context payload limit) now s with
  | (Finished (Ok _), s') => committed s.(next_tx) s'
  | (_, s') => abandoned s.(next_tx) s'
  end.
Proof.
  destruct Hfresh as (He & Hh & Ht).
  pose proof (execute_serial_decides self f lock_wait handler rest context payload limit s
    Hhandler Hchain Hrest He Hh Ht) as H.
  apply (wp_run _ _ others until _ now) in H; [|done].
  destruct (run others until (execute_serial self context payload limit) now s) as [[[p|e]| |] s']; exact H.
Qed.

(** ** Samples *)

Module Sample.
(** The application keeps a list of numbers; a transaction logs what it commits. *)
Abbreviation db := (list Z).

Definition factory : @TransactionFactory db unit :=
  {| begin := fun _ _ => ret (Ok ());
     commit := fun tx => let! _ := modify (fun d => d ++ [tx]) in ret (Ok ());
     rollback := fun _ => ret (Ok ()) |}.

(** Waits for as many nanoseconds as the payload says, then answers it. *)
Definition slow : @WorldHandler db unit :=
  fun _ payload => lift (let! _ := sleep (hd 0 payload) in ret (Ok payload)).

Definition crashing : @WorldHandler db unit := fun _ _ => lift panic.

Definition world_module (name : string) (p : @RegistryProgram db unit) : WorldModule :=
  {| module_name := name; module_register := p; module_start := ret (Ok ()); module_stop := ret (Ok ()) |}.

Definition good : WorldModule :=
  world_module " good " (RegistryCall (RegisterRaw 101 crashing) (fun r => RegistryDone r)).
(** Registers a route and its middleware, then one that is taken. *)
Definition bad : WorldModule :=
  world_module "bad" (RegistryCall (RegisterRaw 102 slow) (fun _ =>
    RegistryCall (RegisterRouteMiddleware 102 LoggingMiddleware) (fun _ =>
      RegistryCall (RegisterRaw 100 slow) (fun r => RegistryDone r)))).

Definition ops : list (@builder_op db unit) :=
  [BRegister (RegisterRaw 100 slow); BRegister (RegisterMiddleware (UnitOfWorkMiddleware factory 1));
   BInstall bad; BInstall good; BInstall good].

Definition empty_builder : @WorldBuilder db unit :=
  {| builder_config := WorldConfig_default; handlers := ∅; route_names := ∅; middleware := [];
     route_middleware := ∅; modules := []; module_names := ∅; builder_pusher := None |}.
Definition builder : @WorldBuilder db unit := foldl builder_apply empty_builder ops.

Definition runtime : @WorldRuntime db unit :=
  match build builder with
  | Ok (_, rt, _) => rt
  | Err _ =>
      {| runtime_handlers := ∅; middleware_by_route := ∅; runtime_pusher := None;
         runtime_handler_timeout := 0; routes := []; route_info := [] |}
  end.

Definition player : Identity :=
  {| account_id := 1; identity_user_id := 7; identity_region_id := 1; identity_realm_id := 1; generation := 1 |}.

Definition context (route : Z) : @WorldContext db unit :=
  {| ctx_identity := player; ctx_session_id := 9; ctx_trace_id := "trace"; ctx_route := route;
     ctx_request_id := 1; ctx_shard_id := None; ctx_owner_id := None; ctx_owner_epoch := None;
     pusher := None; transaction := None; values := ∅ |}.

(** What one command does to the database, its log and its tasks, and how it ends. *)
Definition outcome (route : Z) (payload : list Z) (limit : Z) : Ended (Result (list Z)) * (db * list TxEvent * list Spawned) :=
  let '(r, s) := run (fun _ s => s) 1000 (execute_serial runtime (context route) payload limit) 0 (Shared_new []) in
  (r, (s.(app), s.(tx_log), s.(spawned))).

Example routes_of_sample : runtime.(routes) = [100; 101].
Proof. vm_compute. reflexivity. Qed.

Example commits : outcome 100 [5] 10 =
  (Finished (Ok [5]), ([0], [TxBegan 0; TxCommitting 0; TxCommitted 0], [OwnedRollback None])).
Proof. vm_compute. reflexivity. Qed.

Example times_out : outcome 100 [50] 10 = (Finished (Err Timeout), ([], [TxBegan 0], [SharedRollback 0])).
Proof. vm_compute. reflexivity. Qed.

Example panics_in_handler : outcome 101 [] 10 =
  (Finished (Err (Internal "world handler panicked")), ([], [TxBegan 0], [SharedRollback 0])).
Proof. vm_compute. reflexivity. Qed.
End Sample.

Lemma built_world_well_formed_witness :
  exists rt ms,
    build Sample.builder = Ok (WorldConfig_default, rt, ms) /\ runtime_ok Sample.builder rt /\
    NoDup ((fun m => trim m.(module_name)) <$> ms) /\
    execute_serial rt (Sample.context 102) [] 1 = ret (Err (RouteNotFound 102)).
Proof.
  destruct (build Sample.builder) as [[[c rt] ms]|e] eqn:E; [|exfalso; vm_compute in E; discriminate E].
  assert (Hc : c = WorldConfig_default).
  { apply (f_equal (fun r => match r with Ok (c, _, _) => c | Err _ => c end)) in E. vm_compute in E. by rewrite <- E. }
  assert (Hr : rt = Sample.runtime) by (unfold Sample.runtime; by rewrite E).
  destruct (built_world_well_formed WorldConfig_default Sample.empty_builder Sample.ops c rt ms eq_refl E)
    as (H1 & H2 & H3).
  exists rt, ms. subst c. split; [done|]. split; [done|]. split; [done|].
  apply (H3 (Sample.context 102)). rewrite Hr. apply (bool_decide_unpack _). vm_compute. exact I.
Defined.

Lemma unit_of_work_all_or_nothing_witness :
  match run (fun _ s => s) 1000 (execute_serial Sample.runtime (Sample.context 100) [5] 10) 0 (Shared_new []) with
  | (Finished (Ok _), s') => committed 0 s'
  | (_, s') => abandoned 0 s'
  end.
Proof.
  refine (unit_of_work_all_or_nothing Sample.runtime Sample.factory 1 Sample.slow []
    (Sample.context 100) [5] 10 (fun _ s => s) 1000 0 (Shared_new []) _ _ _ _ _).
  - reflexivity.
  - reflexivity.
  - intros context payload. apply lift_respects.
  - intros now s. apply keeps_refl.
  - split; [reflexivity|]. split; [intros H; vm_compute in H; discriminate H|reflexivity].
Defined.
