(* ===== verification/WorldServer.v ===== *)
(** * The world server: [crates/elura-world/src/{server,world}.rs]

    What a world does with a command that reaches it — from a frame of an internal connection or from a
    gateway in the same process —, the assembly of a server from the application's registrations, the
    connection loop, and the order of startup and shutdown.  The ownership resolver, the JSON of an error
    envelope and the parser of a listen address are parameters; TLS is not modelled. *)

From stdpp Require Import pretty.
From S2P Require Import Prelude Bytes CoreError Identity Ownership Session Frame Presence ServiceMessages Futures WorldRuntime.

Section server.
Context {App Any : Type} `{!UuidText, !CommandProtobuf} (lock_wait : PlayerKey -> Z).
Context (envelope_bytes : ErrorEnvelope -> list Z).

Record WorldOwnership : Type := {
  instance : string;
  ownership_shards : Z;
  resolver : Z -> Z -> Z -> Async (Shared App) (Result Assignment);
}.

(** ** Commands *)

(** The assignment differs from the one the command was routed with. *)
Definition stale_assignment (current : Assignment) (command : WorldCommand) (shard : Z) (instance : string) : bool :=
  negb (current.(Ownership.region_id) =? command.(command_identity).(identity_region_id))
  || negb (current.(Ownership.realm_id) =? command.(command_identity).(identity_realm_id))
  || negb (current.(shard_id) =? shard)
  || negb (String.eqb current.(world_id) instance)
  || negb (bool_decide (Some current.(epoch) = command.(owner_epoch))).

Definition validate_ownership (command : WorldCommand) (ownership : option WorldOwnership) :
    Async (Shared App) (Result unit) :=
  match ownership with
  | None => ret (Ok ())
  | Some owner =>
      match shard_for command.(command_identity).(identity_user_id) owner.(ownership_shards) with
      | Err e => ret (Err e)
      | Ok shard =>
          if negb (bool_decide (command.(command_shard_id) = Some shard))
             || negb (bool_decide (command.(owner_id) = Some owner.(instance)))
             || match command.(owner_epoch) with Some epoch => epoch =? 0 | None => true end then
            ret (Err Unavailable)
          else
            let!? current := owner.(resolver) command.(command_identity).(identity_region_id)
                               command.(command_identity).(identity_realm_id) shard in
            if stale_assignment current command shard owner.(instance) then ret (Err Unavailable)
            else ret (Ok ())
      end
  end.

(** The command of a request: what both kinds of client build from it. *)
Definition command_of (authorization : option string) (request : WorldRequest) : WorldCommand :=
  {| authorization := authorization;
     command_identity := request.(request_identity);
     command_session_id := uuid_to_string request.(request_session_id);
     command_trace_id := request.(request_trace_id);
     command_request_id := request.(world_request_id);
     command_payload := request.(request_payload);
     command_shard_id := shard_id <$> request.(request_ownership);
     owner_id := world_id <$> request.(request_ownership);
     owner_epoch := epoch <$> request.(request_ownership);
     command_timeout := request.(request_timeout) |}.

Record InProcessWorldClient : Type := {
  client_runtime : @WorldRuntime App Any;
  client_ownership : option WorldOwnership;
}.

(** [ready] is the server's flag when the call reads it. *)
Definition InProcessWorldClient_command (self : InProcessWorldClient) (ready : bool) (request : WorldRequest) :
    Async (Shared App) (Result (list Z)) :=
  if request.(world_request_id) =? 0 then ret (Err (InvalidFrame "World command request ID is zero"))
  else if negb ready then ret (Err Unavailable)
  else
    match Identity_validate request.(request_identity) with
    | Err e => ret (Err e)
    | Ok _ =>
        let command := command_of None request in
        let!? _ := validate_ownership command self.(client_ownership) in
        execute lock_wait self.(client_runtime) request.(request_route) request.(world_request_id) command
    end.

Definition InProcessWorldClient_readiness (ready : bool) : Result unit := if ready then Ok () else Err Unavailable.

Definition error_payload (error : Error) : list Z := envelope_bytes (ErrorEnvelope_from error).

(** The [async] block of [execute_world_frame]. *)
Definition world_frame_result (frame : Frame) (runtime : @WorldRuntime App Any)
    (ownership : option WorldOwnership) (authorization : option InternalToken) :
    Async (Shared App) (Result (list Z)) :=
  match (let? message := decode_frame_payload frame.(payload) in WorldCommand_try_from message) with
  | Err e => ret (Err e)
  | Ok command =>
      if command.(command_request_id) =? 0 then ret (Err (InvalidFrame "World command request ID is zero"))
      else if match authorization with
              | Some expected =>
                  negb (InternalToken_authorizes expected (default "" command.(ServiceMessages.authorization)))
              | None => false
              end then ret (Err Authentication)
      else
        match Identity_validate command.(command_identity) with
        | Err e => ret (Err e)
        | Ok _ =>
            let!? _ := validate_ownership command ownership in
            execute lock_wait runtime frame.(route) command.(command_request_id) command
        end
  end.

Definition execute_world_frame (frame : Frame) (runtime : @WorldRuntime App Any)
    (ownership : option WorldOwnership) (authorization : option InternalToken) : Async (Shared App) Frame :=
  let! result := world_frame_result frame runtime ownership authorization in
  ret (match result with
       | Ok payload => Frame_response frame payload
       | Err error => Frame_error frame (error_payload error)
       end).

(** ** Assembly *)

(** [IpAddr::is_unspecified]. *)
Definition is_unspecified (a : IpAddr) : bool := match a with V4 bits | V6 bits => bits =? 0 end.

Definition listeners_conflict (left right : SocketAddr) : bool :=
  (left.(addr_port) =? right.(addr_port))
  && (bool_decide (left.(addr_ip) = right.(addr_ip)) || is_unspecified left.(addr_ip) || is_unspecified right.(addr_ip)).

Record WorldServer : Type := {
  server_config : WorldConfig;
  server_runtime : @WorldRuntime App Any;
  server_modules : list (@WorldModule App Any);
  server_ownership : option WorldOwnership;
  server_authorization : option InternalToken;
  admin_listen : option SocketAddr;
  server_http : list SocketAddr;
}.

Definition from_parts (config : WorldConfig) (runtime : @WorldRuntime App Any)
    (modules : list (@WorldModule App Any)) : WorldServer :=
  {| server_config := config; server_runtime := runtime; server_modules := modules; server_ownership := None;
     server_authorization := None; admin_listen := None; server_http := [] |}.

Definition configure_process (self : WorldServer) : Result WorldServer :=
  match self.(server_config).(internal_token) with
  | None => Ok self
  | Some token =>
      let? t := InternalToken_new token in
      Ok {| server_config := self.(server_config); server_runtime := self.(server_runtime);
            server_modules := self.(server_modules); server_ownership := self.(server_ownership);
            server_authorization := Some t; admin_listen := self.(admin_listen);
            server_http := self.(server_http) |}
  end.

Definition with_ownership (self : WorldServer) (owner : WorldOwnership) : Result WorldServer :=
  if String.eqb owner.(instance) "" || (owner.(ownership_shards) =? 0) then
    Err (InvalidConfig "World ownership")
  else
    Ok {| server_config := self.(server_config); server_runtime := self.(server_runtime);
          server_modules := self.(server_modules); server_ownership := Some owner;
          server_authorization := self.(server_authorization); admin_listen := self.(admin_listen);
          server_http := self.(server_http) |}.

Context (parse_addr : string -> option SocketAddr).

Definition add_http (self : WorldServer) (listen : string) : Result WorldServer :=
  let? addr := ok_or (parse_addr listen) (InvalidConfig ("invalid HTTP listen address " +:+ listen)) in
  Ok {| server_config := self.(server_config); server_runtime := self.(server_runtime);
        server_modules := self.(server_modules); server_ownership := self.(server_ownership);
        server_authorization := self.(server_authorization); admin_listen := self.(admin_listen);
        server_http := self.(server_http) ++ [addr] |}.

Fixpoint add_https (self : WorldServer) (l : list string) : Result WorldServer :=
  match l with
  | [] => Ok self
  | listen :: l => let? self := add_http self listen in add_https self l
  end.

Definition server_listeners (self : WorldServer) : list (string * SocketAddr) :=
  ("world", self.(server_config).(listen))
  :: match self.(admin_listen) with Some a => [("admin", a)] | None => [] end
  ++ ((fun a => ("http", a)) <$> self.(server_http)).

(** The first pair of listeners that conflict. *)
Fixpoint find_conflict (l : list (string * SocketAddr)) : option (string * string * Z) :=
  match l with
  | [] => None
  | (left_name, l_addr) :: l =>
      match find (fun r => listeners_conflict l_addr r.2) l with
      | Some (right_name, _) => Some (left_name, right_name, l_addr.(addr_port))
      | None => find_conflict l
      end
  end.

Definition validate_listeners (self : WorldServer) : Result unit :=
  match find_conflict (server_listeners self) with
  | Some (left_name, right_name, port) =>
      Err (InvalidConfig (left_name +:+ " and " +:+ right_name +:+ " listeners conflict at port " +:+ pretty port))
  | None => Ok ()
  end.

(** [World], the application's assembly: the first error is kept and the builder dropped. *)
Record World : Type := {
  world_builder : option (@WorldBuilder App Any);
  world_error : option Error;
  world_ownership : option WorldOwnership;
  world_http : list string;
}.

Definition World_new (config : WorldConfig) : World :=
  match WorldBuilder_new config with
  | Ok builder =>
      {| world_builder := Some builder; world_error := None; world_ownership := None; world_http := [] |}
  | Err error =>
      {| world_builder := None; world_error := Some error; world_ownership := None; world_http := [] |}
  end.

Definition World_record (self : World) (error : Error) : World :=
  match self.(world_error) with
  | None =>
      {| world_builder := None; world_error := Some error; world_ownership := self.(world_ownership);
         world_http := self.(world_http) |}
  | Some _ => self
  end.

(** [route], [route_raw], [middleware], [route_middleware] and [install]: an operation of the builder, if
    there still is one. *)
Definition World_with (self : World)
    (op : @WorldBuilder App Any -> Result unit * @WorldBuilder App Any) : World :=
  match self.(world_builder) with
  | None => self
  | Some builder =>
      let '(r, builder) := op builder in
      let self := {| world_builder := Some builder; world_error := self.(world_error);
                     world_ownership := self.(world_ownership); world_http := self.(world_http) |} in
      match r with Err error => World_record self error | Ok _ => self end
  end.

Inductive world_op : Type :=
| WRegister (c : @Registration App Any)
| WInstall (m : @WorldModule App Any)
| WPushTransport (p : @PushTransport App)
| WOwnership (owner : WorldOwnership)
| WHttp (listen : string).

Definition World_apply (self : World) (op : world_op) : World :=
  match op with
  | WRegister c => World_with self (fun b => registry_call b c)
  | WInstall m => World_with self (fun b => install b m)
  | WPushTransport p => World_with self (fun b => (Ok (), with_push_transport b p))
  | WOwnership owner =>
      {| world_builder := self.(world_builder); world_error := self.(world_error);
         world_ownership := Some owner; world_http := self.(world_http) |}
  | WHttp listen =>
      {| world_builder := self.(world_builder); world_error := self.(world_error);
         world_ownership := self.(world_ownership); world_http := self.(world_http) ++ [listen] |}
  end.

Definition World_build (self : World) : Result WorldServer :=
  match self.(world_error) with
  | Some error => Err error
  | None =>
      let? builder := ok_or self.(world_builder) (Internal "World builder is unavailable") in
      let? (config, runtime, modules) := build builder in
      let? server := configure_process (from_parts config runtime modules) in
      let? server := match self.(world_ownership) with
                     | Some owner => with_ownership server owner
                     | None => Ok server
                     end in
      let? server := add_https server self.(world_http) in
      let? _ := validate_listeners server in
      Ok server
  end.
End server.

(** ** A world runs only what it owns *)

Section ownership.
Context {App Any : Type} `{!UuidText, !CommandProtobuf} (lock_wait : PlayerKey -> Z).
Context (envelope_bytes : ErrorEnvelope -> list Z).

(** A world that looks its shards up in a table. *)
Definition owner_by (instance : string) (shards : Z) (table : Z -> Z -> Z -> Result Assignment) :
    @WorldOwnership App :=
  {| instance := instance; ownership_shards := shards;
     resolver := fun region realm shard => ret (table region realm shard) |}.

(** The table says, now, that [instance] owns the shard of the command's player under the epoch the
    command was routed with. *)
Definition owned_by (instance : string) (shards : Z) (table : Z -> Z -> Z -> Result Assignment)
    (c : WorldCommand) : Prop :=
  exists shard a,
    shard_for c.(command_identity).(identity_user_id) shards = Ok shard /\
    c.(command_shard_id) = Some shard /\ c.(owner_id) = Some instance /\
    table c.(command_identity).(identity_region_id) c.(command_identity).(identity_realm_id) shard = Ok a /\
    a.(Ownership.region_id) = c.(command_identity).(identity_region_id) /\
    a.(Ownership.realm_id) = c.(command_identity).(identity_realm_id) /\
    a.(shard_id) = shard /\ a.(world_id) = instance /\ c.(owner_epoch) = Some a.(epoch) /\ a.(epoch) <> 0.

Lemma validate_ownership_spec instance0 shards table c :
  (validate_ownership c (Some (owner_by instance0 shards table)) ≡ ret (Ok ()) /\ owned_by instance0 shards table c) \/
  exists e, validate_ownership c (Some (owner_by instance0 shards table)) ≡ ret (Err e).
Proof.
  unfold validate_ownership. cbn [owner_by instance ownership_shards resolver].
  destruct (shard_for _ shards) as [shard|e] eqn:Hs; [|right; by exists e].
  destruct (negb _ || negb _ || _) eqn:Hc; [right; by exists Unavailable|]. breflect.
  destruct (table _ _ shard) as [a|e] eqn:Ht; [|right; exists e; by rewrite ret_bind].
  destruct (stale_assignment a c shard instance0) eqn:Ha.
  { right. exists Unavailable. rewrite ret_bind. cbn. by rewrite Ha. }
  left. split; [rewrite ret_bind; cbn; by rewrite Ha|]. unfold stale_assignment in Ha. breflect.
  destruct (String.eqb_spec a.(world_id) instance0) as [Hw|]; [|done].
  exists shard, a. split_and!; try done. intros He.
  destruct c.(owner_epoch) as [ep|]; [|done]. simplify_eq. by breflect.
Qed.

(** A frame is refused without running anything, or its sender knows the token, its player is valid and
    the world owns the player's shard. *)
Lemma refused_or_owned secret tok instance0 shards table frame (rt : @WorldRuntime App Any) :
  InternalToken_new secret = Ok tok ->
  (exists e, world_frame_result lock_wait frame rt (Some (owner_by instance0 shards table)) (Some tok) ≡ ret (Err e)) \/
  (exists message c,
     decode_frame_payload frame.(payload) = Ok message /\ WorldCommand_try_from message = Ok c /\
     c.(authorization) = Some secret /\ Identity_validate c.(command_identity) = Ok () /\
     owned_by instance0 shards table c /\
     world_frame_result lock_wait frame rt (Some (owner_by instance0 shards table)) (Some tok)
       ≡ execute lock_wait rt frame.(route) c.(command_request_id) c).
Proof.
  intros Htok. unfold world_frame_result.
  destruct (decode_frame_payload frame.(payload)) as [message|e]; [|left; by exists e].
  destruct (WorldCommand_try_from message) as [c|e] eqn:Hm; [|left; by exists e].
  destruct (command_request_id c =? 0); [left; by eexists|].
  destruct (InternalToken_authorizes tok (default "" c.(authorization))) eqn:Ha; cbn [negb]; [|left; by eexists].
  destruct (Identity_validate c.(command_identity)) as [[]|e] eqn:Hi; [|left; by exists e].
  destruct (validate_ownership_spec instance0 shards table c) as [[Hv Ho]|[e Hv]];
    [|left; exists e; by rewrite Hv, ret_bind].
  right. exists message, c. do 2 (split; [done|]). split; [|do 2 (split; [done|]); by rewrite Hv, ret_bind].
  destruct c.(authorization) as [a|] eqn:Hauth; cbn in Ha; [|by rewrite (absent_token_refused secret) in Ha].
  apply authorizes_spec in Ha as ->. f_equal. revert Htok. unfold InternalToken_new.
  destruct (negb _); [done|]. by intros [= <-].
Qed.
End ownership.

(** C4: a world behind an internal token and an ownership table runs a command only for a sender that knows
    the token, for a valid player, and only while the table says that this world owns the player's shard
    under the epoch the gateway routed the command with; any other frame is answered with an error and
    changes nothing, whatever else happens at the time.  Of two worlds that consult the same table at most
    one runs a given command. *)
Theorem world_runs_only_owned_commands {App Any} `{!UuidText, !CommandProtobuf} (lock_wait : PlayerKey -> Z)
  (envelope_bytes : ErrorEnvelope -> list Z) (secret : string) (tok : InternalToken) (instance : string) (shards : Z)
  (table : Z -> Z -> Z -> Result Assignment) (frame : Frame) (rt : @WorldRuntime App Any)
  (others : Z -> Shared App -> Shared App) (until now : Z) (s : Shared App)
  (Htoken : InternalToken_new secret = Ok tok) :
  let '(ended, s') := run others until
    (execute_world_frame lock_wait envelope_bytes frame rt (Some (owner_by instance shards table)) (Some tok)) now s in
  (s' = s /\ exists e, ended = Finished (Frame_error frame (error_payload envelope_bytes e))) \/
  (exists message c,
     decode_frame_payload frame.(payload) = Ok message /\ WorldCommand_try_from message = Ok c /\
     c.(authorization) = Some secret /\ Identity_validate c.(command_identity) = Ok () /\
     owned_by instance shards table c /\
     (forall instance', instance' <> instance -> ~ owned_by instance' shards table c)).
Proof.
  destruct (run _ _ _ _ _) as [ended s'] eqn:E. unfold execute_world_frame in E.
  destruct (refused_or_owned lock_wait secret tok instance shards table frame rt Htoken)
    as [[e He]|(message & c & H1 & H2 & H3 & H4 & H5 & _)].
  - left. erewrite run_equiv in E by (rewrite He, ret_bind; reflexivity). cbn in E. simplify_eq. eauto.
  - right. exists message, c. do 5 (split; [done|]).
    intros instance' Hne (? & ? & _ & _ & Ho & _). destruct H5 as (? & ? & _ & _ & Ho' & _). congruence.
Qed.

(** ** Samples *)

Module SampleWorld.
#[local] Existing Instance SampleEncodings.command_protobuf.
#[local] Existing Instance SampleEncodings.uuid_text.

Definition secret : string := "0123456789abcdef0123456789abcdef".

Definition assignment : Assignment :=
  {| Ownership.region_id := 1; Ownership.realm_id := 1; shard_id := 0; world_id := "world-a"; epoch := 3 |}.

(** The table has one shard. *)
Definition table (region realm shard : Z) : Result Assignment :=
  if (region =? 1) && (realm =? 1) && (shard =? 0) then Ok assignment else Err Unavailable.

Definition request : WorldRequest :=
  {| request_identity := Sample.player; request_session_id := 9; request_trace_id := "trace";
     request_route := 100; world_request_id := 1; request_payload := [5];
     request_ownership := Some assignment; request_timeout := from_millis 1000 |}.

Definition frame (token : option string) : Frame :=
  {| Frame.kind := Frame.Request; flags := 0; route := 100; request_id := 1; sequence := 0;
     payload := encode_frame_payload (GatewayWorldCommand_from (command_of token request)) |}.

Definition envelope (e : ErrorEnvelope) : list Z := string_bytes e.(code).

(** The answer of the world [instance] to the frame, and what its database holds then. *)
Definition answer (instance : string) (token : option string) : Ended Frame * list Z :=
  let '(r, s) := run (fun _ s => s) 1000000 (execute_world_frame (fun _ => 0) envelope (frame token) Sample.runtime
    (Some (owner_by instance 1 table)) (Some {| token := secret |})) 0 (Shared_new []) in
  (r, s.(app)).

Example owner_answers :
  answer "world-a" (Some secret) = (Finished (Frame_response (frame (Some secret)) [5]), [0]).
Proof. vm_compute. reflexivity. Qed.

Example stranger_refused :
  answer "world-a" None = (Finished (Frame_error (frame None) (envelope (ErrorEnvelope_from Authentication))), []).
Proof. vm_compute. reflexivity. Qed.

Example other_world_refuses :
  answer "world-b" (Some secret)
  = (Finished (Frame_error (frame (Some secret)) (envelope (ErrorEnvelope_from Unavailable))), []).
Proof. vm_compute. reflexivity. Qed.
End SampleWorld.

Lemma world_runs_only_owned_commands_witness :
  let '(ended, s') := run (fun _ s => s) 1000000
    (@execute_world_frame _ _ SampleEncodings.uuid_text SampleEncodings.command_protobuf (fun _ => 0)
       SampleWorld.envelope (SampleWorld.frame None) Sample.runtime
       (Some (owner_by "world-a" 1 SampleWorld.table)) (Some {| token := SampleWorld.secret |})) 0 (Shared_new []) in
  (s' = Shared_new [] /\ exists e, ended = Finished (Frame_error (SampleWorld.frame None)
     (error_payload SampleWorld.envelope e))) \/
  (exists message c,
     @decode_frame_payload SampleEncodings.command_protobuf (SampleWorld.frame None).(payload) = Ok message /\
     WorldCommand_try_from message = Ok c /\
     c.(authorization) = Some SampleWorld.secret /\ Identity_validate c.(command_identity) = Ok () /\
     owned_by "world-a" 1 SampleWorld.table c /\
     (forall instance', instance' <> "world-a" -> ~ owned_by instance' 1 SampleWorld.table c)).
Proof.
  refine (@world_runs_only_owned_commands _ _ SampleEncodings.uuid_text SampleEncodings.command_protobuf
    (fun _ => 0) SampleWorld.envelope SampleWorld.secret {| token := SampleWorld.secret |} "world-a" 1
    SampleWorld.table (SampleWorld.frame None) Sample.runtime (fun _ s => s) 1000000 0 (Shared_new []) _).
  reflexivity.
Defined.
