(* ===== verification/WorldLifecycle.v ===== *)
(** * The life of a world server: [crates/elura-world/src/server.rs], [crates/elura-world/src/registration.rs]

    Startup and shutdown as the sequence of their effects: what a module, the registrar and the listener
    answer when they are called is an argument.  The accept loop and the loop of one internal connection
    are step relations: which branch of a [select!] runs, when a frame arrives and when a request
    completes are the environment's choice. *)

From Stdlib Require Import Ascii.
From stdpp Require Import pretty.
From S2P Require Import Prelude Bytes CoreError Session Frame WorldRuntime.

(** ** Registration *)

Record WorldRegistration : Type := {
  registration_world_id : string;
  registration_region_id : Z;
  registration_realm_id : Z;
  registration_route : Z;
  address : string;
}.

Definition is_world_id_byte (b : Ascii.ascii) : bool :=
  is_ascii_alphanumeric b || Ascii.eqb b "-"%char || Ascii.eqb b "_"%char || Ascii.eqb b "."%char.

(** [str::rsplit_once(':')]. *)
Fixpoint rsplit_colon (s : string) : option (string * string) :=
  match s with
  | EmptyString => None
  | String c s =>
      match rsplit_colon s with
      | Some (host, port) => Some (String c host, port)
      | None => if Ascii.eqb c ":"%char then Some (EmptyString, s) else None
      end
  end.

Definition parse_u16 : string -> option Z := parse_unsigned 65535.

(** [parse_addr] is [str::parse::<SocketAddr>]. *)
Definition WorldRegistration_validate (parse_addr : string -> option SocketAddr) (self : WorldRegistration) :
    Result unit :=
  let valid_id :=
    negb (String.eqb self.(registration_world_id) "")
    && string_forallb is_world_id_byte self.(registration_world_id) in
  let unspecified_address :=
    match parse_addr self.(address) with
    | Some a => match a.(addr_ip) with V4 bits | V6 bits => bits =? 0 end
    | None => false
    end in
  let valid_address :=
    match rsplit_colon self.(address) with
    | Some (host, port) =>
        negb (String.eqb host "") && match parse_u16 port with Some p => 0 <? p | None => false end
    | None => false
    end in
  if negb valid_id || (self.(registration_region_id) =? 0) || (self.(registration_realm_id) =? 0)
     || negb valid_address || unspecified_address then
    Err (InvalidConfig "invalid World registration")
  else Ok ().

(** ** Startup and shutdown *)

(** What the calls of a module's [start] and [stop] answer. *)
Record ModuleCalls : Type := { calls_name : string; start_answer : Result unit; stop_answer : Result unit }.

(** What the calls of the registrar answer; [renewal] is what its renewal loop returns once it is stopped or
    fails. *)
Record RegistrarCalls : Type := {
  register_answer : Result unit;
  renewal_answer : Result unit;
  unregister_answer : Result unit;
}.

Inductive LifeEvent : Type :=
| Bound
| Started (index : nat)
| Stopped (index : nat)
| Registered
| SetReady (ready : bool)
| RenewalStopped
| Unregistered
| DrainDelay
| HttpShutdown
| ListenerShutdown.

Definition start_error (m : ModuleCalls) (error : Error) : Error :=
  Internal ("start World module " +:+ m.(calls_name) +:+ ": " +:+ Error_display error).
Definition stop_error (m : ModuleCalls) (error : Error) : Error :=
  Internal ("stop World module " +:+ m.(calls_name) +:+ ": " +:+ Error_display error).

(** [stop_modules]: the modules below [count], from the last to the first; the first error is kept. *)
Fixpoint stop_loop (modules : list ModuleCalls) (count : nat) (first : option Error) : option Error * list LifeEvent :=
  match count with
  | O => (first, [])
  | S index =>
      let first :=
        match modules !! index with
        | Some m =>
            match m.(stop_answer), first with
            | Err error, None => Some (stop_error m error)
            | _, _ => first
            end
        | None => first
        end in
      let '(first, trace) := stop_loop modules index first in
      (first, Stopped index :: trace)
  end.

Definition stop_modules (modules : list ModuleCalls) (count : nat) : Result unit * list LifeEvent :=
  let '(first, trace) := stop_loop modules count None in
  (match first with Some error => Err error | None => Ok () end, trace).

(** The loop of [start_modules] from [index] on. *)
Fixpoint start_loop (modules : list ModuleCalls) (index : nat) (rest : list ModuleCalls) :
    Result nat * list LifeEvent :=
  match rest with
  | [] => (Ok (length modules), [])
  | m :: rest =>
      match m.(start_answer) with
      | Err error =>
          let '(_, trace) := stop_modules modules index in
          (Err (start_error m error), Started index :: trace)
      | Ok _ =>
          let '(r, trace) := start_loop modules (S index) rest in
          (r, Started index :: trace)
      end
  end.

Definition start_modules (modules : list ModuleCalls) : Result nat * list LifeEvent :=
  start_loop modules 0 modules.

(** How the [select!] of [serve_core] ends: the listener failed, the renewal failed, or shutdown was asked. *)
Inductive ServeEnd : Type :=
| ListenerEnded (r : Result unit)
| RenewalEnded (r : Result unit)
| ShutdownAsked.

(** [Result::and]. *)
Definition result_and (a b : Result unit) : Result unit := match a with Ok _ => b | Err e => Err e end.

(** [serve_core]: [bind] is what binding the listener answers, [drained] what the listener returns once it
    is shut down, [http] whether an HTTP server is to be told. *)
Definition serve_core (config : WorldConfig) (modules : list ModuleCalls) (registrar : option RegistrarCalls)
    (bind : Result unit) (ended : ServeEnd) (drained : Result unit) (http : bool) : Result unit * list LifeEvent :=
  match bind with
  | Err e => (Err e, [])
  | Ok _ =>
      let '(started, t1) := start_modules modules in
      match started with
      | Err e => (Err e, Bound :: t1)
      | Ok started =>
          match registrar with
          | Some {| register_answer := Err error |} =>
              let '(_, t2) := stop_modules modules started in
              (Err error, Bound :: t1 ++ Registered :: t2)
          | _ =>
              let t2 := match registrar with Some _ => [Registered] | None => [] end in
              let serve_result := match ended with ListenerEnded r => Some r | _ => None end in
              let renewal_result :=
                match ended with
                | RenewalEnded r => r
                | _ => match registrar with Some r => r.(renewal_answer) | None => Ok () end
                end in
              let unregister := match registrar with Some r => r.(unregister_answer) | None => Ok () end in
              let t3 := [SetReady false; RenewalStopped]
                        ++ match registrar with Some _ => [Unregistered] | None => [] end in
              let '(serve_result, t4) :=
                match serve_result with
                | Some r => (r, [])
                | None =>
                    (drained,
                     (if config.(discovery_drain_delay) =? 0 then [] else [DrainDelay])
                     ++ (if http then [HttpShutdown] else []) ++ [ListenerShutdown])
                end in
              let '(stop, t5) := stop_modules modules started in
              (result_and (result_and (result_and serve_result renewal_result) unregister) stop,
               Bound :: t1 ++ t2 ++ [SetReady true] ++ t3 ++ t4 ++ t5)
          end
      end
  end.

(** [serve_in_process_core]. *)
Definition serve_in_process_core (modules : list ModuleCalls) (registrar : option RegistrarCalls) (http : bool) :
    Result unit * list LifeEvent :=
  match registrar with
  | Some _ => (Err (InvalidConfig "in-process World cannot publish a network registration"), [])
  | None =>
      let '(started, t1) := start_modules modules in
      match started with
      | Err e => (Err e, t1)
      | Ok started =>
          let '(stop, t2) := stop_modules modules started in
          (stop, t1 ++ [SetReady true; SetReady false] ++ (if http then [HttpShutdown] else []) ++ t2)
      end
  end.

(** [renew_registration], over what its [select!] sees: a tick whose renewal answers, or a change of the
    shutdown flag ([None]: the sender is gone).  [None] when the events run out. *)
Inductive RenewEvent : Type := Tick (renewed : Result unit) | ShutdownChanged (flag : option bool).

Fixpoint renewal_loop (events : list RenewEvent) : option (Result unit) :=
  match events with
  | [] => None
  | Tick (Err e) :: _ => Some (Err e)
  | Tick (Ok _) :: events => renewal_loop events
  | ShutdownChanged flag :: events =>
      match flag with None | Some true => Some (Ok ()) | Some false => renewal_loop events end
  end.

Definition renew_registration (renew_interval : Z) (events : list RenewEvent) : option (Result unit) :=
  if renew_interval =? 0 then
    Some (Err (InvalidConfig "World registration renewal interval must be positive"))
  else renewal_loop events.

(** [supervise] over the outcomes of its tasks in the order they end: the first error is kept, and every
    task is told to stop as soon as one has ended.  [inr] is the message of a panic. *)
Fixpoint supervise_loop (completed : list (Result unit + string)) (first_error : option Error) : Result unit :=
  match completed with
  | [] => match first_error with Some e => Err e | None => Ok () end
  | c :: completed =>
      supervise_loop completed
        (match c, first_error with
         | inl (Err error), None => Some error
         | inr error, None => Some (Internal ("World service task panicked: " +:+ error))
         | _, _ => first_error
         end)
  end.

Definition supervise (completed : list (Result unit + string)) : Result unit := supervise_loop completed None.

(** ** One internal connection *)

(** [received] are the request frames taken from the source, [sent] the responses with the requests they
    answer, [crashed] the requests whose task panicked: what the peer can see of the loop. *)
Record ServiceConnection : Type := {
  input_open : bool;
  terminal : Result unit;
  requests : list Frame;
  returned : option (Result unit);
  received : list Frame;
  sent : list (Frame * Frame);
  crashed : list Frame;
}.

(** The branches of the [select!].  A completed request has its result, or panicked; [send] is what sending
    the response answers. *)
Inductive ConnectionEvent : Type :=
| EvShutdown (flag : option bool)
| EvFrame (frame : option (Result Frame))
| EvCompleted (index : nat) (result : option (Result (list Z))) (send : Result unit).

Definition ServiceConnection_new (shutdown : bool) : ServiceConnection :=
  {| input_open := negb shutdown; terminal := Ok (); requests := []; returned := if shutdown then Some (Ok ()) else None;
     received := []; sent := []; crashed := [] |}.

(** The head of the loop. *)
Definition settle (c : ServiceConnection) : ServiceConnection :=
  match c.(returned) with
  | Some _ => c
  | None =>
      {| input_open := c.(input_open); terminal := c.(terminal); requests := c.(requests);
         returned := if negb c.(input_open) && (len c.(requests) =? 0) then Some c.(terminal) else None;
         received := c.(received); sent := c.(sent); crashed := c.(crashed) |}
  end.

Section connection.
Context (envelope_bytes : ErrorEnvelope -> list Z) (max_in_flight : Z).

Definition response_frame (frame : Frame) (result : Result (list Z)) : Frame :=
  match result with
  | Ok payload => Frame_response frame payload
  | Err error => Frame_error frame (envelope_bytes (ErrorEnvelope_from error))
  end.

(** One turn of the loop; [None] when the branch is not enabled. *)
Definition serve_connection_turn (c : ServiceConnection) (e : ConnectionEvent) : option ServiceConnection :=
  match c.(returned), e with
  | Some _, _ => None
  | None, EvShutdown flag =>
      if c.(input_open) then
        Some (settle {| input_open := match flag with None | Some true => false | Some false => true end;
                        terminal := c.(terminal); requests := c.(requests); returned := None;
                        received := c.(received); sent := c.(sent); crashed := c.(crashed) |})
      else None
  | None, EvFrame frame =>
      if c.(input_open) && (len c.(requests) <? max_in_flight) then
        match frame with
        | Some (Err e) =>
            Some {| input_open := c.(input_open); terminal := c.(terminal); requests := c.(requests);
                    returned := Some (Err e); received := c.(received); sent := c.(sent);
                    crashed := c.(crashed) |}
        | None =>
            Some (settle {| input_open := false; terminal := c.(terminal); requests := c.(requests);
                            returned := None; received := c.(received); sent := c.(sent);
                            crashed := c.(crashed) |})
        | Some (Ok frame) =>
            match frame.(Frame.kind) with
            | Frame.Request =>
                Some (settle {| input_open := true; terminal := c.(terminal);
                                requests := c.(requests) ++ [frame]; returned := None;
                                received := c.(received) ++ [frame]; sent := c.(sent);
                                crashed := c.(crashed) |})
            | _ =>
                Some (settle {| input_open := false;
                                terminal := Err (InvalidFrame "world accepts request frames only");
                                requests := c.(requests); returned := None; received := c.(received);
                                sent := c.(sent); crashed := c.(crashed) |})
            end
        end
      else None
  | None, EvCompleted index result send =>
      match c.(requests) !! index with
      | None => None
      | Some frame =>
          let rest := delete index c.(requests) in
          match result, send with
          | Some result, Ok _ =>
              Some (settle {| input_open := c.(input_open); terminal := c.(terminal); requests := rest;
                              returned := None; received := c.(received);
                              sent := c.(sent) ++ [(frame, response_frame frame result)];
                              crashed := c.(crashed) |})
          | Some result, Err e =>
              Some {| input_open := c.(input_open); terminal := c.(terminal); requests := rest;
                      returned := Some (Err e); received := c.(received); sent := c.(sent);
                      crashed := c.(crashed) |}
          | None, _ =>
              Some (settle {| input_open := false;
                              terminal := Err (Internal "World request task panicked"); requests := rest;
                              returned := None; received := c.(received); sent := c.(sent);
                              crashed := c.(crashed) ++ [frame] |})
          end
      end
  end.

Fixpoint serve_connection (c : ServiceConnection) (events : list ConnectionEvent) : option ServiceConnection :=
  match events with
  | [] => Some c
  | e :: events => c ← serve_connection_turn c e; serve_connection c events
  end.
End connection.

(** ** The accept loop *)

(** [permits] are the free places, [connections] the tasks that hold the others. *)
Record Listener : Type := { permits : Z; connections : Z; accepting : bool; refused : Z }.

Definition Listener_new (config : WorldConfig) (shutdown : bool) : Listener :=
  {| permits := config.(max_connections); connections := 0; accepting := negb shutdown; refused := 0 |}.

Inductive ListenEvent : Type := Accepted | Joined | ListenShutdown (flag : option bool).

Definition serve_inner_turn (l : Listener) (e : ListenEvent) : option Listener :=
  match e with
  | ListenShutdown flag =>
      if l.(accepting) then
        Some {| permits := l.(permits); connections := l.(connections);
                accepting := match flag with None | Some true => false | Some false => true end;
                refused := l.(refused) |}
      else None
  | Accepted =>
      if l.(accepting) then
        if l.(permits) =? 0 then
          Some {| permits := l.(permits); connections := l.(connections); accepting := true;
                  refused := l.(refused) + 1 |}
        else
          Some {| permits := l.(permits) - 1; connections := l.(connections) + 1; accepting := true;
                  refused := l.(refused) |}
      else None
  | Joined =>
      if l.(connections) =? 0 then None
      else
        Some {| permits := l.(permits) + 1; connections := l.(connections) - 1; accepting := l.(accepting);
                refused := l.(refused) |}
  end.

(** ** What the connection guarantees *)

Section answers.
Context (envelope_bytes : ErrorEnvelope -> list Z) (max_in_flight : Z).

(** Every request is in flight, answered or crashed, or was lost with the connection. *)
Record connection_inv (c : ServiceConnection) : Prop := {
  in_flight_bounded : len c.(requests) <= Z.max 0 max_in_flight;
  accounted : exists lost, c.(received) ≡ₚ c.(requests) ++ c.(sent).*1 ++ c.(crashed) ++ lost /\
    (lost <> [] -> exists e, c.(returned) = Some (Err e));
  answers_correlate : Forall (fun p => exists r, p.2 = response_frame envelope_bytes p.1 r) c.(sent);
  only_requests : Forall (fun f => f.(Frame.kind) = Frame.Request) c.(received);
  crash_reported : c.(crashed) <> [] -> exists e, c.(terminal) = Err e;
  clean_end : c.(returned) = Some (Ok ()) -> c.(requests) = [] /\ c.(terminal) = Ok ();
}.

Lemma connection_new_inv shutdown : connection_inv (ServiceConnection_new shutdown).
Proof. split; cbn; try done; [unfold len; cbn; lia|]. exists []. by split. Qed.

Lemma settle_inv c : c.(returned) = None -> connection_inv c -> connection_inv (settle c).
Proof.
  intros Hr [H1 (lost & Hp & Hl) H3 H4 H5 H6]. unfold settle. rewrite Hr.
  assert (lost = []) as ->.
  { destruct lost as [|f l]; [done|]. destruct Hl as [e He]; [done|]. congruence. }
  destruct (negb _ && _) eqn:E; split; cbn; try done; try (by exists []).
  intros [= Ht]. breflect. split; [|done]. destruct c.(requests); [done|]. unfold len in *. cbn in *. lia.
Qed.

Lemma completed_permutation (c : ServiceConnection) index frame :
  c.(requests) !! index = Some frame -> c.(requests) ≡ₚ frame :: delete index c.(requests).
Proof. apply delete_Permutation. Qed.

Lemma turn_inv c e c' :
  connection_inv c -> serve_connection_turn envelope_bytes max_in_flight c e = Some c' -> connection_inv c'.
Proof.
  intros [H1 (lost & Hp & Hl) H3 H4 H5 H6]. unfold serve_connection_turn.
  destruct c.(returned) as [r|] eqn:Hr; [done|].
  assert (lost = []) as -> by (destruct lost; [done|by destruct Hl]). rewrite app_nil_r in Hp. clear Hl H6.
  destruct e as [flag|frame|index result send].
  - destruct c.(input_open); [|done]. intros [= <-]. apply settle_inv; [done|].
    split; cbn; try done. exists []. by rewrite app_nil_r.
  - destruct (c.(input_open) && _) eqn:Eg; [|done]. breflect.
    destruct frame as [[f|e]|]; intros Hc.
    + destruct f.(Frame.kind) eqn:Hk; simplify_eq; apply settle_inv; try done;
        split; cbn; try done; try (exists []; by rewrite app_nil_r); try (by eexists).
      * rewrite len_app, len_cons, len_nil. lia.
      * exists []. rewrite app_nil_r. split; [|done]. rewrite Hp. solve_Permutation.
      * apply Forall_app. split; [done|]. by apply Forall_singleton.
    + simplify_eq. split; cbn; try done. exists []. by rewrite app_nil_r.
    + simplify_eq. apply settle_inv; [done|]. split; cbn; try done. exists []. by rewrite app_nil_r.
  - destruct (c.(requests) !! index) as [frame|] eqn:El; [|done].
    pose proof (completed_permutation c index frame El) as Hd. rewrite Hd in Hp.
    assert (Hlen : len (delete index c.(requests)) <= Z.max 0 max_in_flight).
    { apply Permutation_length in Hd. cbn in Hd. unfold len in *. lia. }
    destruct result as [result|]; [destruct send as [[]|e]|]; intros [= <-]; [apply settle_inv; [done|]| |
      apply settle_inv; [done|]]; split; cbn; try done.
    + exists []. rewrite app_nil_r, fmap_app. split; [|done]. rewrite Hp. cbn. solve_Permutation.
    + apply Forall_app. split; [done|]. apply Forall_singleton. by exists result.
    + exists [frame]. split; [|by eexists]. rewrite Hp. solve_Permutation.
    + exists []. split; [|done]. rewrite Hp. solve_Permutation.
    + by eexists.
Qed.

Lemma serve_connection_inv events : forall c c',
  connection_inv c -> serve_connection envelope_bytes max_in_flight c events = Some c' -> connection_inv c'.
Proof.
  induction events as [|e events IH]; intros c c' Hc; cbn; [by intros [= <-]|].
  destruct (serve_connection_turn envelope_bytes max_in_flight c e) as [c1|] eqn:E; cbn; [|done].
  intros H. eapply IH; [|exact H]. by eapply turn_inv.
Qed.
End answers.

(** C34: an internal connection of a world, whatever its peer sends, in whatever order its requests finish,
    fail or panic, and whenever shutdown is asked: no more requests are in flight than configured; every
    response is the response or the error frame of a request that was received, no request has two; and
    when the loop returns [Ok] every request it received has been answered. *)
Theorem world_connection_answers (envelope_bytes : ErrorEnvelope -> list Z) (max_in_flight : Z) (shutdown : bool)
  (events : list ConnectionEvent) (c : ServiceConnection) (Hlimit : 0 < max_in_flight)
  (Hrun : serve_connection envelope_bytes max_in_flight (ServiceConnection_new shutdown) events = Some c) :
  len c.(requests) <= max_in_flight /\
  (exists rest, c.(received) ≡ₚ c.(sent).*1 ++ rest) /\
  (forall request response, (request, response) ∈ c.(sent) ->
     request.(Frame.kind) = Frame.Request /\ response.(request_id) = request.(request_id) /\
     response.(route) = request.(route)) /\
  (c.(returned) = Some (Ok ()) -> c.(requests) = [] /\ c.(received) ≡ₚ c.(sent).*1).
Proof.
  apply serve_connection_inv in Hrun as [H1 (lost & Hp & Hl) H3 H4 H5 H6]; [|apply connection_new_inv].
  split; [lia|]. split; [exists (c.(requests) ++ c.(crashed) ++ lost); rewrite Hp; solve_Permutation|]. split.
  - intros request response Hin. rewrite Forall_forall in H3. rewrite Forall_forall in H4. split.
    + apply H4. rewrite Hp, !elem_of_app. right. left. apply list_elem_of_fmap. by exists (request, response).
    + destruct (H3 _ Hin) as [r Hr]. cbn in Hr. subst response. by destruct r.
  - intros Hend. destruct (H6 Hend) as [Hreq Hterm]. split; [done|].
    assert (c.(crashed) = []) as Hcr.
    { destruct c.(crashed); [done|]. destruct H5 as [e He]; [done|]. congruence. }
    assert (lost = []) as Hlost.
    { destruct lost; [done|]. destruct Hl as [e He]; [done|]. congruence. }
    by rewrite Hp, Hreq, Hcr, Hlost, !app_nil_r.
Qed.

(** ** What startup and shutdown guarantee *)

Lemma stop_loop_trace modules count : forall first,
  (stop_loop modules count first).2 = Stopped <$> reverse (seq 0 count).
Proof.
  induction count as [|n IH]; intros first; cbn [stop_loop]; [done|].
  match goal with |- context [stop_loop modules n ?f] => specialize (IH f); destruct (stop_loop modules n f) as [r t] end.
  cbn [snd] in IH |- *. by rewrite seq_S, reverse_snoc, fmap_cons, IH.
Qed.

Lemma stop_modules_trace modules count : (stop_modules modules count).2 = Stopped <$> reverse (seq 0 count).
Proof.
  unfold stop_modules. pose proof (stop_loop_trace modules count None) as H.
  by destruct (stop_loop modules count None).
Qed.

(** An error that was kept is not replaced. *)
Lemma stop_loop_keeps modules count : forall e, (stop_loop modules count (Some e)).1 = Some e.
Proof.
  induction count as [|n IH]; intros e; cbn [stop_loop]; [done|].
  assert (Hf : (match modules !! n with
                | Some m => match m.(stop_answer), Some e with
                            | Err error, None => Some (stop_error m error) | _, _ => Some e end
                | None => Some e end) = Some e) by (by repeat case_match).
  rewrite Hf. specialize (IH e). by destruct (stop_loop modules n (Some e)).
Qed.

(** Stopping answers [Ok] exactly when every module does; all are stopped in any case. *)
Lemma stop_modules_ok modules count :
  (stop_modules modules count).1 = Ok () <->
  forall i m, (i < count)%nat -> modules !! i = Some m -> is_ok m.(stop_answer) = true.
Proof.
  unfold stop_modules. induction count as [|n IH]; cbn [stop_loop]; [split; [lia|done]|].
  destruct (modules !! n) as [m|] eqn:Em; [destruct (m.(stop_answer)) as [[]|e] eqn:Ea|].
  2: { pose proof (stop_loop_keeps modules n (stop_error m e)) as Hk. clear IH.
       destruct (stop_loop modules n (Some _)) as [r t]. cbn in Hk |- *. subst r. split; [done|]. intros H. specialize (H n m). rewrite Ea in H.
       discriminate H; [lia|done]. }
  all: destruct (stop_loop modules n None) as [r t]; cbn in IH |- *; rewrite IH; split; intros H i m' Hi Hm';
    [destruct (decide (i = n)) as [->|]; [simplify_eq; by rewrite ?Ea|apply (H i); [lia|done]]|eauto with lia].
Qed.

Lemma start_loop_trace modules rest : forall index,
  modules = take index modules ++ rest -> (index <= length modules)%nat ->
  match start_loop modules index rest with
  | (Ok n, t) => n = length modules /\ t = Started <$> seq index (length rest) /\
      Forall (fun m => is_ok m.(start_answer) = true) rest
  | (Err e, t) => exists k m, rest !! k = Some m /\ is_ok m.(start_answer) = false /\
      Forall (fun m => is_ok m.(start_answer) = true) (take k rest) /\
      t = (Started <$> seq index (S k)) ++ (Stopped <$> reverse (seq 0 (index + k)))
  end.
Proof.
  induction rest as [|m rest IH]; intros index Hm Hi; cbn [start_loop]; [by split|].
  destruct m.(start_answer) as [[]|e] eqn:Ea.
  - assert (Hlt : (index < length modules)%nat).
    { apply (f_equal length) in Hm. rewrite length_app, length_take in Hm. cbn in Hm. lia. }
    specialize (IH (S index)). destruct (start_loop modules (S index) rest) as [[n|e] t].
    + destruct IH as (-> & -> & Hall); [|lia|].
      * rewrite (take_S_r _ _ m); [by rewrite <- app_assoc|]. rewrite Hm, lookup_app_r;
          rewrite length_take; [|lia]. by replace (index - _)%nat with 0%nat by lia.
      * split; [done|]. split; [done|]. constructor; [by rewrite Ea|done].
    + destruct IH as (k & m' & Hk & Hf & Hall & ->); [|lia|].
      * rewrite (take_S_r _ _ m); [by rewrite <- app_assoc|]. rewrite Hm, lookup_app_r;
          rewrite length_take; [|lia]. by replace (index - _)%nat with 0%nat by lia.
      * exists (S k), m'. split; [done|]. split; [done|]. split; [constructor; [by rewrite Ea|done]|].
        cbn. by replace (index + S k)%nat with (S (index + k))%nat by lia.
  - pose proof (stop_modules_trace modules index) as Ht. destruct (stop_modules modules index) as [r t].
    cbn in Ht. subst t. exists 0%nat, m. rewrite Ea. split; [done|]. split; [done|]. split; [by constructor|].
    by rewrite Nat.add_0_r.
Qed.

Definition start_ok (modules : list ModuleCalls) (i : nat) : Prop :=
  exists m, modules !! i = Some m /\ m.(start_answer) = Ok ().

#[export] Instance start_ok_dec modules i : Decision (start_ok modules i).
Proof.
  destruct (modules !! i) as [m|] eqn:E; [destruct m.(start_answer) as [[]|e] eqn:Ea|].
  - left. by exists m.
  - right. intros (m' & Hm & Ho). congruence.
  - right. intros (m' & Hm & Ho). congruence.
Defined.

Definition started_index (e : LifeEvent) : option nat := match e with Started i => Some i | _ => None end.
Definition stopped_index (e : LifeEvent) : option nat := match e with Stopped i => Some i | _ => None end.

Lemma start_ok_all modules k :
  Forall (fun m => is_ok m.(start_answer) = true) (take k modules) -> (k <= length modules)%nat ->
  filter (start_ok modules) (seq 0 k) = seq 0 k.
Proof.
  intros Hall Hk. apply filter_all, Forall_forall. intros i [_ Hi]%elem_of_seq.
  destruct (lookup_lt_is_Some_2 modules i ltac:(lia)) as [m Hm]. exists m. split; [done|].
  rewrite Forall_forall in Hall. specialize (Hall m). destruct m.(start_answer) as [[]|e]; [done|].
  discriminate Hall. apply list_elem_of_lookup. exists i. by rewrite lookup_take_lt by lia.
Qed.

Lemma start_modules_trace modules :
  match start_modules modules with
  | (Ok n, t) => n = length modules /\ t = Started <$> seq 0 n /\
      filter (start_ok modules) (seq 0 n) = seq 0 n
  | (Err e, t) => exists k,
      t = (Started <$> seq 0 (S k)) ++ (Stopped <$> reverse (seq 0 k)) /\
      filter (start_ok modules) (seq 0 (S k)) = seq 0 k
  end.
Proof.
  unfold start_modules. pose proof (start_loop_trace modules modules 0 eq_refl ltac:(lia)) as H.
  destruct (start_loop modules 0 modules) as [[n|e] t].
  - destruct H as (-> & -> & Hall). do 2 (split; [done|]). apply start_ok_all; [|done]. by rewrite take_ge.
  - destruct H as (k & m & Hk & Hf & Hall & ->). exists k. split; [done|]. apply lookup_lt_Some in Hk as Hlt.
    rewrite seq_S, filter_app, start_ok_all by (done || lia). rewrite filter_cons_False, filter_nil, app_nil_r; [done|].
    intros (m' & Hm' & Ho). cbn in Hm'. simplify_eq. by rewrite Ho in Hf.
Qed.

Lemma omap_started l : omap started_index (Started <$> l) = l /\ omap stopped_index (Started <$> l) = [].
Proof. induction l as [|i l [IH1 IH2]]; cbn; [done|]. by rewrite IH1, IH2. Qed.

Lemma omap_stopped l : omap started_index (Stopped <$> l) = [] /\ omap stopped_index (Stopped <$> l) = l.
Proof. induction l as [|i l [IH1 IH2]]; cbn; [done|]. by rewrite IH1, IH2. Qed.

(** Every occurrence of [y] comes after one of [x]. *)
Definition precedes (x y : LifeEvent) (t : list LifeEvent) : Prop :=
  forall pre post, t = pre ++ y :: post -> x ∈ pre.

Lemma precedes_notin x y t : y ∉ t -> precedes x y t.
Proof. intros Hy pre post ->. set_solver. Qed.

Lemma precedes_app x y a b : y ∉ a -> x ∈ a \/ precedes x y b -> precedes x y (a ++ b).
Proof.
  intros Hy Hx pre post E. destruct (app_eq_inv _ _ _ _ E) as [(k & -> & Hk)|(k & -> & Hk)].
  - destruct k as [|z k]; [|cbn in Hk; simplify_eq; set_solver].
    cbn in Hk. subst b. destruct Hx as [Hx|Hx]; [set_solver|]. specialize (Hx [] post eq_refl). set_solver.
  - destruct Hx as [Hx|Hx]; [set_solver|]. apply elem_of_app. right. by eapply Hx.
Qed.

Lemma precedes_cons x y z t : z <> y -> x = z \/ precedes x y t -> precedes x y (z :: t).
Proof. intros Hz Hx. apply (precedes_app x y [z] t); set_solver. Qed.

(** The trace of a server that got as far as being ready. *)
Definition ready_trace (config : WorldConfig) (n : nat) (registered : bool) (ended : ServeEnd) (http : bool) :
    list LifeEvent :=
  Bound :: (Started <$> seq 0 n) ++ (if registered then [Registered] else [])
  ++ [SetReady true; SetReady false; RenewalStopped] ++ (if registered then [Unregistered] else [])
  ++ match ended with
     | ListenerEnded _ => []
     | _ => (if config.(discovery_drain_delay) =? 0 then [] else [DrainDelay])
            ++ (if http then [HttpShutdown] else []) ++ [ListenerShutdown]
     end
  ++ (Stopped <$> reverse (seq 0 n)).

(** The server fails to start, with every module it had started stopped again, or it becomes ready. *)
Lemma serve_core_trace config modules registrar bind ended drained http :
  let '(r, t) := serve_core config modules registrar bind ended drained http in
  (is_ok r = false /\ SetReady true ∉ t /\ ListenerShutdown ∉ t /\
     omap stopped_index t = reverse (filter (start_ok modules) (omap started_index t))) \/
  (t = ready_trace config (length modules) (bool_decide (is_Some registrar)) ended http /\
     filter (start_ok modules) (seq 0 (length modules)) = seq 0 (length modules)).
Proof.
  unfold serve_core. destruct bind as [[]|e]; [|left; cbn; split_and!; set_solver].
  pose proof (start_modules_trace modules) as Hs. destruct (start_modules modules) as [[n|e] t1].
  - destruct Hs as (-> & -> & Hf). pose proof (stop_modules_trace modules (length modules)) as Ht.
    destruct (stop_modules modules (length modules)) as [stop t2]. cbn [snd] in Ht. subst t2.
    destruct registrar as [[[[]|e] renew unreg]|]; [destruct ended; right; (split; [|done])| |
      destruct ended; right; (split; [|done])]; try (unfold ready_trace; cbn; by rewrite <- ?app_assoc).
    left. cbn. rewrite !omap_app. cbn. destruct (omap_started (seq 0 (length modules))) as [-> ->].
    destruct (omap_stopped (reverse (seq 0 (length modules)))) as [-> ->]. rewrite app_nil_r, Hf.
    split_and!; set_solver.
  - left. destruct Hs as (k & -> & Hf). split; [done|]. cbn -[seq]. rewrite !omap_app.
    destruct (omap_started (seq 0 (S k))) as [-> ->].
    destruct (omap_stopped (reverse (seq 0 k))) as [-> ->]. rewrite app_nil_r, Hf. split_and!; set_solver.
Qed.

Lemma ready_trace_ordered config n registered ended http x y :
  x = SetReady false /\ (y = Unregistered \/ y = ListenerShutdown \/ exists i, y = Stopped i) \/
  registered = true /\ x = Unregistered /\ y = ListenerShutdown \/
  (match ended with ListenerEnded _ => False | _ => x = ListenerShutdown end) /\ (exists i, y = Stopped i) ->
  precedes x y (ready_trace config n registered ended http).
Proof.
  intros H. unfold ready_trace.
  assert (Hy : y <> Bound /\ y <> Registered /\ y <> SetReady true /\ y <> SetReady false /\ y <> RenewalStopped /\
    y <> DrainDelay /\ y <> HttpShutdown /\ forall i, y <> Started i) by (destruct ended; naive_solver).
  destruct Hy as (H1 & H2 & H3 & H4 & H5 & H6 & H7 & H8).
  apply precedes_cons; [done|right]. apply precedes_app; [set_solver|right].
  apply precedes_app; [destruct registered; set_solver|right].
  apply precedes_app; [set_solver|]. destruct H as [[-> _]|H]; [left; set_solver|right].
  destruct H as [(-> & -> & ->)|[Hx [i ->]]]; [apply precedes_app; set_solver|].
  apply precedes_app; [destruct registered; set_solver|right].
  assert (Hd : forall d h : list LifeEvent, d = [] \/ d = [DrainDelay] -> h = [] \/ h = [HttpShutdown] ->
    precedes ListenerShutdown (Stopped i) ((d ++ h ++ [ListenerShutdown]) ++ (Stopped <$> reverse (seq 0 n)))).
  { intros d h Hd Hh. apply precedes_app; [|left; set_solver]. destruct Hd as [->| ->], Hh as [->| ->]; set_solver. }
  destruct ended; [done|..]; subst x; apply Hd; by case_match; auto.
Qed.

Lemma ready_trace_indices config n registered ended http :
  omap started_index (ready_trace config n registered ended http) = seq 0 n /\
  omap stopped_index (ready_trace config n registered ended http) = reverse (seq 0 n).
Proof.
  set (mid := (if registered then [Registered] else [])
    ++ [SetReady true; SetReady false; RenewalStopped] ++ (if registered then [Unregistered] else [])
    ++ match ended with
       | ListenerEnded _ => []
       | _ => (if config.(discovery_drain_delay) =? 0 then [] else [DrainDelay])
              ++ (if http then [HttpShutdown] else []) ++ [ListenerShutdown]
       end).
  assert (Hmid : omap started_index mid = [] /\ omap stopped_index mid = []).
  { unfold mid. by destruct registered, ended, (config.(discovery_drain_delay) =? 0), http. }
  assert (E : ready_trace config n registered ended http
    = [Bound] ++ (Started <$> seq 0 n) ++ mid ++ (Stopped <$> reverse (seq 0 n))).
  { unfold ready_trace, mid. by rewrite <- !app_assoc. }
  rewrite E, !omap_app. destruct Hmid as [-> ->], (omap_started (seq 0 n)) as [-> ->],
    (omap_stopped (reverse (seq 0 n))) as [-> ->]. by rewrite app_nil_r.
Qed.

(** However a world server is started and however it ends — a module that fails to start, a listener or
    a registration that fails, a shutdown — every module whose start succeeded is stopped exactly once, in
    the reverse of the order they were started in, and no other is.  A server that had become ready first
    withdraws readiness, then its registration, then closes the listener, and stops its modules last; one
    that never became ready reports an error. *)
Theorem world_stops_in_order (config : WorldConfig) (modules : list ModuleCalls) (registrar : option RegistrarCalls)
  (bind : Result unit) (ended : ServeEnd) (drained : Result unit) (http : bool) :
  let '(r, t) := serve_core config modules registrar bind ended drained http in
  omap stopped_index t = reverse (filter (start_ok modules) (omap started_index t)) /\
  (SetReady true ∉ t -> is_ok r = false) /\
  (SetReady true ∈ t ->
     precedes (SetReady false) Unregistered t /\
     (registrar <> None -> precedes Unregistered ListenerShutdown t) /\
     precedes (SetReady false) ListenerShutdown t /\
     forall i, precedes (SetReady false) (Stopped i) t /\
       match ended with ListenerEnded _ => True | _ => precedes ListenerShutdown (Stopped i) t end).
Proof.
  pose proof (serve_core_trace config modules registrar bind ended drained http) as H.
  destruct (serve_core config modules registrar bind ended drained http) as [r t].
  destruct H as [(Hr & Hready & Hl & Ho)|[-> Hf]]; [by split_and!|].
  split; [|split].
  - destruct (ready_trace_indices config (length modules) (bool_decide (is_Some registrar)) ended http) as [-> ->].
    by rewrite Hf.
  - intros Hn. exfalso. apply Hn. unfold ready_trace. set_solver.
  - intros _. split_and!; [..|intros i; split]; try (intros Hreg); try (apply ready_trace_ordered; naive_solver).
    + apply ready_trace_ordered. right. left. split; [|done]. apply bool_decide_eq_true. by destruct registrar.
    + destruct ended; [done|..]; apply ready_trace_ordered; right; right; (split; [done|by eexists]).
Qed.

(** ** The accept loop keeps to its places *)

Fixpoint serve_inner (l : Listener) (events : list ListenEvent) : option Listener :=
  match events with
  | [] => Some l
  | e :: events => l ← serve_inner_turn l e; serve_inner l events
  end.

Lemma serve_inner_bounded config shutdown events l :
  0 <= config.(max_connections) -> serve_inner (Listener_new config shutdown) events = Some l ->
  0 <= l.(connections) <= config.(max_connections).
Proof.
  intros Hmax. enough (Hinv : forall l0, 0 <= l0.(permits) -> 0 <= l0.(connections) ->
    l0.(permits) + l0.(connections) = config.(max_connections) -> serve_inner l0 events = Some l ->
    0 <= l.(connections) <= config.(max_connections)) by (apply Hinv; cbn; lia).
  induction events as [|e events IH]; intros l0 Hp Hc Hs; cbn; [intros [= <-]; lia|].
  destruct (serve_inner_turn l0 e) as [l1|] eqn:E; cbn; [|done]. apply IH; unfold serve_inner_turn in E;
    repeat case_match; simplify_eq/=; breflect; lia.
Qed.

(** Renewal stops at the first failure, or when it is told to. *)
Lemma renewal_fails_first events e :
  renewal_loop events = Some (Err e) <->
  exists pre post, events = pre ++ Tick (Err e) :: post /\
    Forall (fun ev => ev = Tick (Ok ()) \/ ev = ShutdownChanged (Some false)) pre.
Proof.
  induction events as [|ev events IH]; cbn.
  - split; [done|]. intros (pre & post & E & _). by destruct pre.
  - split.
    + destruct ev as [[[]|e']|[[]|]]; try done.
      * intros (pre & post & -> & Hp)%IH. exists (Tick (Ok ()) :: pre), post. split; [done|]. constructor; auto.
      * intros [= ->]. by exists [], events.
      * intros (pre & post & -> & Hp)%IH. exists (ShutdownChanged (Some false) :: pre), post.
        split; [done|]. constructor; auto.
    + intros (pre & post & E & Hp). destruct Hp as [|ev' pre Hev Hp]; simplify_eq/=; [done|].
      destruct Hev as [-> | ->]; apply IH; eauto.
Qed.

(** The outcome of a supervised server is [Ok] exactly when every task's is. *)
Lemma supervise_ok completed : supervise completed = Ok () <-> Forall (fun c => c = inl (Ok ())) completed.
Proof.
  assert (Hkeep : forall l e, supervise_loop l (Some e) = Err e).
  { induction l as [|c l IH]; intros e; cbn; [done|]. by destruct c as [[[]|]|]. }
  unfold supervise. induction completed as [|c l IH]; cbn; [done|]. rewrite Forall_cons.
  destruct c as [[[]|e]|m]; rewrite ?Hkeep; naive_solver.
Qed.

(** ** Samples *)

Definition sample_request (id : Z) : Frame :=
  {| Frame.kind := Frame.Request; flags := 0; route := 100; request_id := id; sequence := 0; payload := [] |}.

(** Two requests, answered in the other order, the second with an error; then the peer closes. *)
Definition sample_events : list ConnectionEvent :=
  [EvFrame (Some (Ok (sample_request 1))); EvFrame (Some (Ok (sample_request 2)));
   EvCompleted 1 (Some (Err Timeout)) (Ok ()); EvCompleted 0 (Some (Ok [7])) (Ok ()); EvFrame None].

Definition sample_envelope (e : ErrorEnvelope) : list Z := string_bytes e.(code).

Definition sample_connection : ServiceConnection :=
  default (ServiceConnection_new true)
    (serve_connection sample_envelope 2 (ServiceConnection_new false) sample_events).

Lemma world_connection_answers_witness :
  sample_connection.(returned) = Some (Ok ()) /\ len sample_connection.(sent) = 2 /\
  len sample_connection.(requests) <= 2 /\
  (exists rest, sample_connection.(received) ≡ₚ sample_connection.(sent).*1 ++ rest) /\
  (forall request response, (request, response) ∈ sample_connection.(sent) ->
     request.(Frame.kind) = Frame.Request /\ response.(request_id) = request.(request_id) /\
     response.(route) = request.(route)) /\
  (sample_connection.(returned) = Some (Ok ()) ->
     sample_connection.(requests) = [] /\ sample_connection.(received) ≡ₚ sample_connection.(sent).*1).
Proof.
  split; [reflexivity|]. split; [reflexivity|].
  apply (world_connection_answers sample_envelope 2 false sample_events sample_connection); [lia|].
  vm_compute. reflexivity.
Defined.
