(* ===== verification/WorldRouting.v ===== *)
(** * Routing to worlds: [crates/elura-gateway/src/{routing,discovery}.rs]

    The targets discovery publishes for a route, the choice of one of them for a player, and the cache of
    connection pools.  SHA-256 is a parameter; iteration over a [HashMap] is in the order of [map_to_list].
    The locks cannot be poisoned because nothing panics while one is held. *)

From S2P Require Import Prelude Bytes CoreError Session Ownership.

(** ** Discovery *)

Record GatewayWorldRoutingConfig : Type := { config_pool_size : Z; config_max_in_flight : Z }.

Definition GatewayWorldRoutingConfig_default : GatewayWorldRoutingConfig :=
  {| config_pool_size := 1; config_max_in_flight := 64 |}.

Definition GatewayWorldRoutingConfig_validate (self : GatewayWorldRoutingConfig) : Result unit :=
  if (self.(config_pool_size) =? 0) || (1024 <? self.(config_pool_size))
     || (self.(config_max_in_flight) =? 0) || (4096 <? self.(config_max_in_flight)) then
    Err (InvalidConfig "invalid Gateway World routing limits")
  else Ok ().

Record WorldRouteTarget : Type := { target_world_id : string; target_address : SocketAddr }.

#[export] Instance WorldRouteTarget_eq_dec : EqDecision WorldRouteTarget.
Proof. solve_decision. Defined.

Definition WorldRouteTarget_validate (self : WorldRouteTarget) : Result unit :=
  if trim_is_empty self.(target_world_id) || (self.(target_address).(addr_port) =? 0) then
    Err (InvalidConfig "invalid World route target")
  else Ok ().

(** ** The directory *)

(** [RouteKey]: region, realm and route. *)
Abbreviation RouteKey := (Z * Z * Z)%type.

Record MemoryWorldRouteDirectory : Type := { targets : gmap RouteKey (list WorldRouteTarget) }.

Definition MemoryWorldRouteDirectory_new : MemoryWorldRouteDirectory := {| targets := ∅ |}.

(** The loop over the targets, with the identities and the addresses seen. *)
Fixpoint check_targets (identities : gset string) (addresses : gset SocketAddr) (l : list WorldRouteTarget) :
    Result unit :=
  match l with
  | [] => Ok ()
  | t :: l =>
      let? _ := WorldRouteTarget_validate t in
      if bool_decide (t.(target_world_id) ∈ identities) || bool_decide (t.(target_address) ∈ addresses) then
        Err (InvalidConfig "duplicate World route target")
      else check_targets ({[t.(target_world_id)]} ∪ identities) ({[t.(target_address)]} ∪ addresses) l
  end.

Definition set_targets (self : MemoryWorldRouteDirectory) (region_id realm_id route : Z)
    (l : list WorldRouteTarget) : Result unit * MemoryWorldRouteDirectory :=
  if (region_id =? 0) || (realm_id =? 0) then
    (Err (InvalidConfig "World route region and realm must be positive"), self)
  else
    match l with
    | [] => (Ok (), {| targets := delete (region_id, realm_id, route) self.(targets) |})
    | _ =>
        let? _ := check_targets ∅ ∅ l else self in
        (Ok (), {| targets := <[(region_id, realm_id, route) := l]> self.(targets) |})
    end.

Definition resolve_targets (self : MemoryWorldRouteDirectory) (region_id realm_id route : Z) :
    Result (list WorldRouteTarget) :=
  let found :=
    match self.(targets) !! (region_id, realm_id, route) with
    | Some l => Some l
    | None => self.(targets) !! (region_id, realm_id, 0)
    end in
  ok_or (match found with Some [] => None | found => found end) Unavailable.

Definition directory_readiness (self : MemoryWorldRouteDirectory) : Result unit :=
  if existsb (fun l => negb (len l =? 0)) (map_to_list self.(targets)).*2 then Ok () else Err Unavailable.

(** ** The choice of a target *)

(** [Iterator::max_by_key]: the last of the elements with the greatest key. *)
Fixpoint max_by_key {A} (key : A -> Z) (l : list A) (best : option A) : option A :=
  match l with
  | [] => best
  | x :: l =>
      max_by_key key l (match best with Some b => if key b <=? key x then Some x else Some b | None => Some x end)
  end.

Section selection.
Context (sha256 : list Z -> list Z).

(** The first eight bytes of the digest of the player and the world.  An [i64] has its two's complement. *)
Definition target_score (user_id : Z) (t : WorldRouteTarget) : Z :=
  be_value (take 8 (sha256 (put_be 8 user_id ++ string_bytes t.(target_world_id)))).

Definition select_target (l : list WorldRouteTarget) (ownership : option Assignment) (user_id : Z) :
    Result WorldRouteTarget :=
  match ownership with
  | Some a => ok_or (find (fun t => String.eqb t.(target_world_id) a.(world_id)) l) Unavailable
  | None => ok_or (max_by_key (target_score user_id) l None) Unavailable
  end.
End selection.

(** ** The connection pools *)

Definition WORLD_CONNECTION_IN_FLIGHT : Z := 64.
Definition ROUTE_CLIENT_CACHE_CAPACITY : Z := 1024.

Definition validate_world_connection_in_flight (limit : Z) : Result unit :=
  if negb ((1 <=? limit) && (limit <=? 4096)) then
    Err (InvalidConfig "World connection in-flight limit must be in 1..=4096")
  else Ok ().

(** A [TcpWorldClient] is known by the number it was created under. *)
Record CachedClient : Type := { client : nat; access : Z }.

Record RouteWorldClient : Type := {
  route_max_payload : Z;
  pool_size : Z;
  max_in_flight : Z;
  clients : gmap (string * SocketAddr) CachedClient;
  client_clock : Z;
}.

Definition RouteWorldClient_new (max_payload pool_size : Z) : Result RouteWorldClient :=
  if (max_payload =? 0) || (pool_size =? 0) || (1024 <? pool_size) then
    Err (InvalidConfig "invalid Route World client")
  else
    Ok {| route_max_payload := max_payload; pool_size := pool_size; max_in_flight := WORLD_CONNECTION_IN_FLIGHT;
          clients := ∅; client_clock := 0 |}.

Definition with_max_in_flight_per_connection (self : RouteWorldClient) (limit : Z) : Result RouteWorldClient :=
  let? _ := validate_world_connection_in_flight limit in
  Ok {| route_max_payload := self.(route_max_payload); pool_size := self.(pool_size); max_in_flight := limit;
        clients := self.(clients); client_clock := self.(client_clock) |}.

Definition with_clients (self : RouteWorldClient) (c : gmap (string * SocketAddr) CachedClient) : RouteWorldClient :=
  {| route_max_payload := self.(route_max_payload); pool_size := self.(pool_size);
     max_in_flight := self.(max_in_flight); clients := c; client_clock := self.(client_clock) |}.

Definition client_key (t : WorldRouteTarget) : string * SocketAddr := (t.(target_world_id), t.(target_address)).

(** [client_clock.fetch_add(1)]. *)
Definition tick_clock (self : RouteWorldClient) : Z * RouteWorldClient :=
  (self.(client_clock),
   {| route_max_payload := self.(route_max_payload); pool_size := self.(pool_size);
      max_in_flight := self.(max_in_flight); clients := self.(clients);
      client_clock := wrap_u64 (self.(client_clock) + 1) |}).

(** A cached client, touched, under the write lock. *)
Definition touch_client (self : RouteWorldClient) (key : string * SocketAddr) (now : Z) :
    option nat * RouteWorldClient :=
  match self.(clients) !! key with
  | Some cached =>
      (Some cached.(client), with_clients self (<[key := {| client := cached.(client); access := now |}]> self.(clients)))
  | None => (None, self)
  end.

(** [min_by_key(access)]: the first of the entries with the least access. *)
Fixpoint oldest_client (l : list ((string * SocketAddr) * CachedClient))
    (best : option ((string * SocketAddr) * CachedClient)) : option ((string * SocketAddr) * CachedClient) :=
  match l with
  | [] => best
  | x :: l =>
      oldest_client l (match best with
                       | Some b => if x.2.(access) <? b.2.(access) then Some x else Some b
                       | None => Some x
                       end)
  end.

(** The second write lock of [client]: somebody else may have created the pool meanwhile. *)
Definition insert_client (self : RouteWorldClient) (key : string * SocketAddr) (now : Z) (fresh : nat) :
    nat * RouteWorldClient :=
  match touch_client self key now with
  | (Some c, self) => (c, self)
  | (None, self) =>
      let kept :=
        if ROUTE_CLIENT_CACHE_CAPACITY <=? Z.of_nat (size self.(clients)) then
          match oldest_client (map_to_list self.(clients)) None with
          | Some (oldest, _) => delete oldest self.(clients)
          | None => self.(clients)
          end
        else self.(clients) in
      (fresh, with_clients self (<[key := {| client := fresh; access := now |}]> kept))
  end.

(** The validations of [TcpWorldClient::with_pool_size] and [with_max_in_flight_per_connection]. *)
Definition new_pool (self : RouteWorldClient) : Result unit :=
  if (self.(pool_size) =? 0) || (1024 <? self.(pool_size)) then
    Err (InvalidConfig "world connection pool must be in 1..=1024")
  else validate_world_connection_in_flight self.(max_in_flight).

(** [client], when [between] is what other tasks do to the cache between its two critical sections. *)
Definition RouteWorldClient_client (self : RouteWorldClient) (t : WorldRouteTarget) (fresh : nat)
    (between : RouteWorldClient -> RouteWorldClient) : Result nat * RouteWorldClient :=
  let '(now, self) := tick_clock self in
  match touch_client self (client_key t) now with
  | (Some c, self) => (Ok c, self)
  | (None, self) =>
      let? _ := new_pool self else self in
      let '(c, self) := insert_client (between self) (client_key t) now fresh in
      (Ok c, self)
  end.

(** ** The directory holds what discovery published *)

(** Targets a gateway can tell apart. *)
Record targets_ok (l : list WorldRouteTarget) : Prop := {
  targets_valid : Forall (fun t => WorldRouteTarget_validate t = Ok ()) l;
  identities_unique : NoDup (target_world_id <$> l);
  addresses_unique : NoDup (target_address <$> l);
}.

Lemma check_targets_spec l : forall ids addrs, check_targets ids addrs l = Ok () <->
  targets_ok l /\ (forall t, t ∈ l -> t.(target_world_id) ∉ ids /\ t.(target_address) ∉ addrs).
Proof.
  induction l as [|t l IH]; intros ids addrs; cbn.
  { split; [|done]. intros _. split; [split; constructor|set_solver]. }
  destruct (WorldRouteTarget_validate t) as [[]|e] eqn:Hv.
  2: { split; [done|]. intros [[Hall _ _] _]. apply Forall_cons in Hall as [Hv' _]. congruence. }
  destruct (_ || _) eqn:Hd.
  { split; [done|]. intros [_ Hnew]. apply orb_true_iff in Hd as [Hd|Hd]; apply bool_decide_eq_true in Hd;
      destruct (Hnew t) as [? ?]; set_solver. }
  breflect. rewrite IH. split.
  - intros [[Hall Hi Ha] Hnew]. split; [split|].
    + by constructor.
    + rewrite fmap_cons. constructor; [|done]. intros (t' & E & Hin)%list_elem_of_fmap.
      destruct (Hnew t' Hin) as [? _]. set_solver.
    + rewrite fmap_cons. constructor; [|done]. intros (t' & E & Hin)%list_elem_of_fmap.
      destruct (Hnew t' Hin) as [_ ?]. set_solver.
    + intros t' [->|Hin]%elem_of_cons; [done|]. destruct (Hnew t' Hin). set_solver.
  - intros [[Hall Hi Ha] Hnew]. apply Forall_cons in Hall as [_ Hall].
    rewrite fmap_cons in Hi. rewrite fmap_cons in Ha. apply NoDup_cons in Hi as [Hi Hi']. apply NoDup_cons in Ha as [Ha Ha'].
    split; [by split|]. intros t' Hin. destruct (Hnew t') as [H1 H2]; [by right|]. split.
    + intros [E%elem_of_singleton|?]%elem_of_union; [|done]. apply Hi, list_elem_of_fmap. by exists t'.
    + intros [E%elem_of_singleton|?]%elem_of_union; [|done]. apply Ha, list_elem_of_fmap. by exists t'.
Qed.

Definition directory_ok (d : MemoryWorldRouteDirectory) : Prop :=
  forall key l, d.(targets) !! key = Some l -> l <> [] /\ targets_ok l.

Lemma set_targets_ok d region realm route l : directory_ok d -> directory_ok (set_targets d region realm route l).2.
Proof.
  intros Hd. unfold set_targets. destruct (_ || _); [done|]. destruct l as [|t l].
  - intros key l'. cbn. rewrite lookup_delete_Some. intros [_ Hl]. by eapply Hd.
  - destruct (check_targets ∅ ∅ (t :: l)) as [[]|e] eqn:E; [|done]. apply check_targets_spec in E as [Hok _].
    intros key l'. cbn. rewrite lookup_insert_Some. intros [[<- <-]|[_ Hl]]; [by split|by eapply Hd].
Qed.

(** What discovery published for a route is what the route resolves to; a route without targets of its own
    has those of its realm; a refused update changes nothing. *)
Lemma resolve_set_targets d region realm route l d' :
  set_targets d region realm route l = (Ok (), d') -> l <> [] ->
  resolve_targets d' region realm route = Ok l /\
  (forall route', route <> 0 -> route' <> route -> resolve_targets d' region realm route' = resolve_targets d region realm route').
Proof.
  unfold set_targets. destruct (_ || _); [done|]. destruct l as [|t l]; [done|].
  destruct (check_targets ∅ ∅ (t :: l)); [|done]. intros [= <-] _. unfold resolve_targets. cbn. split.
  - by rewrite lookup_insert_eq.
  - intros route' Hz Hne. by rewrite !lookup_insert_ne by congruence.
Qed.

(** ** Few players move *)

Section stability.
Context {A : Type} (key : A -> Z).

Definition better (best : option A) (x : A) : option A :=
  match best with Some b => if key b <=? key x then Some x else Some b | None => Some x end.

Lemma max_by_key_step l : forall best x,
  max_by_key key l (better best x) = Some x \/ max_by_key key l (better best x) = max_by_key key l best.
Proof.
  assert (H : forall l best x, (forall b, best = Some b -> key b <= key x) ->
    max_by_key key l (Some x) = Some x \/ max_by_key key l (Some x) = max_by_key key l best).
  { induction l0 as [|y l0 IH]; intros best x Hle; cbn; [by left|].
    destruct (Z.leb_spec (key x) (key y)) as [Hxy|Hxy].
    - right. f_equal. destruct best as [b|]; [|done]. specialize (Hle b eq_refl).
      by rewrite (proj2 (Z.leb_le (key b) (key y))) by lia.
    - apply IH. intros b Hb. destruct best as [b0|]; [specialize (Hle b0 eq_refl)|]; repeat case_match;
        simplify_eq; lia. }
  intros best x. unfold better. destruct best as [b|]; [destruct (Z.leb_spec (key b) (key x))|];
    [|by right|]; apply H; intros b' Hb'; simplify_eq; done.
Qed.

Lemma max_by_key_app l1 l2 : forall best,
  max_by_key key (l1 ++ l2) best = max_by_key key l2 (max_by_key key l1 best).
Proof. induction l1 as [|x l1 IH]; intros best; cbn; [done|]. apply IH. Qed.

Lemma max_by_key_insert l1 x l2 :
  max_by_key key (l1 ++ x :: l2) None = Some x \/
  max_by_key key (l1 ++ x :: l2) None = max_by_key key (l1 ++ l2) None.
Proof. rewrite !max_by_key_app. apply (max_by_key_step l2 (max_by_key key l1 None) x). Qed.

Lemma max_by_key_In l : forall best r, max_by_key key l best = Some r -> best = Some r \/ r ∈ l.
Proof.
  induction l as [|x l IH]; intros best r; cbn; [auto|]. intros [E|E]%IH; [|set_solver].
  destruct best as [b|]; [|set_solver]. destruct (key b <=? key x); set_solver.
Qed.

Lemma max_by_key_some l x : exists r, max_by_key key (x :: l) None = Some r.
Proof.
  cbn. generalize x. induction l as [|y l IH]; intros z; cbn; [by eexists|]. case_match; apply IH.
Qed.
End stability.

(** A world that joins or leaves the targets of a route moves only its own players.  With the targets
    [l1 ++ x :: l2] and [l1 ++ l2] — wherever [x] stands — a player is sent to [x] or to the same target in
    both; a non-empty list always gives one of its members; and a request whose shard has an owner goes to
    the owner's target, or nowhere. *)
Theorem world_selection_stable (sha256 : list Z -> list Z) (l1 l2 : list WorldRouteTarget) (x : WorldRouteTarget)
  (user_id : Z) :
  (select_target sha256 (l1 ++ x :: l2) None user_id = Ok x \/
   select_target sha256 (l1 ++ x :: l2) None user_id = select_target sha256 (l1 ++ l2) None user_id) /\
  (exists t, select_target sha256 (l1 ++ x :: l2) None user_id = Ok t /\ t ∈ l1 ++ x :: l2) /\
  (forall a t, select_target sha256 (l1 ++ x :: l2) (Some a) user_id = Ok t ->
     t ∈ l1 ++ x :: l2 /\ t.(target_world_id) = a.(world_id)).
Proof.
  unfold select_target. split_and!.
  - destruct (max_by_key_insert (target_score sha256 user_id) l1 x l2) as [->| ->]; auto.
  - destruct (l1 ++ x :: l2) as [|t l] eqn:E; [by destruct l1|].
    destruct (max_by_key_some (target_score sha256 user_id) l t) as [r Hr]. exists r. rewrite Hr. split; [done|].
    by apply max_by_key_In in Hr as [?|?].
  - intros a t. destruct (find _ _) as [t'|] eqn:E; [|done]. intros [= ->]. apply find_some in E as [Hin He].
    split; [by apply list_elem_of_In|]. by apply String.eqb_eq in He.
Qed.

(** ** The cache of pools *)

Lemma oldest_client_In l : forall best o, oldest_client l best = Some o -> best = Some o \/ o ∈ l.
Proof.
  induction l as [|x l IH]; intros best o; cbn; [auto|]. intros [E|E]%IH; [|set_solver].
  destruct best as [b|]; [|set_solver]. destruct (_ <? _); set_solver.
Qed.

Lemma oldest_client_some l : forall b, exists o, oldest_client l (Some b) = Some o.
Proof. induction l as [|x l IH]; intros b; cbn; [by eexists|]. case_match; apply IH. Qed.

(** The cache never holds more than its capacity, and a pool that was just used is found again. *)
Lemma insert_client_bounded self key now fresh :
  Z.of_nat (size self.(clients)) <= ROUTE_CLIENT_CACHE_CAPACITY ->
  let '(c, self') := insert_client self key now fresh in
  Z.of_nat (size self'.(clients)) <= ROUTE_CLIENT_CACHE_CAPACITY /\
  self'.(clients) !! key = Some {| client := c; access := now |} /\
  (forall old, self.(clients) !! key = Some old -> c = old.(client)).
Proof.
  intros Hs. unfold insert_client, touch_client. destruct (self.(clients) !! key) as [cached|] eqn:El; cbn -[Z.leb Z.of_nat].
  - rewrite map_size_insert_Some by (by exists cached). rewrite lookup_insert_eq.
    split; [done|]. split; [done|]. by intros old [= <-].
  - split; [|split; [by rewrite lookup_insert_eq|done]].
    destruct (Z.leb_spec ROUTE_CLIENT_CACHE_CAPACITY (Z.of_nat (size self.(clients)))) as [Hfull|Hroom].
    + destruct (map_to_list self.(clients)) as [|b l] eqn:Em.
      { apply (f_equal length) in Em. rewrite length_map_to_list in Em. cbn in Em.
        unfold ROUTE_CLIENT_CACHE_CAPACITY in *. lia. }
      cbn [oldest_client]. destruct (oldest_client_some l b) as [[o co] Ho]. rewrite Ho.
      assert (Hin : self.(clients) !! o = Some co).
      { apply elem_of_map_to_list. rewrite Em. apply oldest_client_In in Ho as [[= ->]|?]; set_solver. }
      rewrite map_size_insert_None.
      * rewrite map_size_delete_Some by (by exists co). unfold ROUTE_CLIENT_CACHE_CAPACITY in *. lia.
      * rewrite lookup_delete_ne; [done|]. intros ->. congruence.
    + rewrite map_size_insert_None by done. lia.
Qed.

Lemma client_reused self t fresh fresh' between c self' :
  RouteWorldClient_client self t fresh between = (Ok c, self') ->
  forall between', (RouteWorldClient_client self' t fresh' between').1 = Ok c.
Proof.
  intros H between'. unfold RouteWorldClient_client in *.
  assert (Hin : exists a, self'.(clients) !! client_key t = Some {| client := c; access := a |}).
  { destruct (tick_clock self) as [now s1]. unfold touch_client in H.
    destruct (s1.(clients) !! client_key t) as [cached|] eqn:El.
    - simplify_eq. cbn. rewrite lookup_insert_eq. by eexists.
    - destruct (new_pool s1); [|done]. destruct (insert_client (between s1) (client_key t) now fresh) as [c' s2] eqn:Ei.
      simplify_eq. unfold insert_client, touch_client in Ei.
      destruct (clients (between s1) !! client_key t); simplify_eq; cbn; rewrite lookup_insert_eq; by eexists. }
  destruct Hin as [a Ha]. cbn. unfold touch_client. cbn. by rewrite Ha.
Qed.
