(* ===== verification/WorldClient.v ===== *)
(** * Calling a world: [crates/elura-gateway/src/world_client.rs], [crates/elura-gateway/src/connection.rs] (dispatch)

    The client a gateway calls worlds with: the frame of a request, and the worker that multiplexes the
    requests of one connection, answers its callers and gives up on them at their deadlines.  The worker
    is a step machine: when requests arrive, what the network does and when a timer fires are the
    environment's choice.  A caller is known by the transport number of its request.  Both ends together
    ([WorldLifecycle] has the other one) form the link of the last section. *)

From S2P Require Import Prelude Bytes CoreError Identity Ownership Session Frame Protection Presence ServiceMessages Futures WorldRuntime WorldServer WorldLifecycle.

(** ** The client *)

Record TcpWorldClient : Type := {
  pool : list (option nat);
  next_slot : Z;
  transport_request_id : Z;
  tcp_authorization : option InternalToken;
}.

Definition with_pool_size (pool_size : Z) : Result TcpWorldClient :=
  if (pool_size =? 0) || (1024 <? pool_size) then
    Err (InvalidConfig "world connection pool must be in 1..=1024")
  else
    Ok {| pool := replicate (Z.to_nat pool_size) None; next_slot := 0; transport_request_id := 1;
          tcp_authorization := None |}.

(** [next_transport_request_id]: the loop retries until its exchange succeeds, which is one step. *)
Definition next_transport_request_id (self : TcpWorldClient) : Z * TcpWorldClient :=
  let current := self.(transport_request_id) in
  (current,
   {| pool := self.(pool); next_slot := self.(next_slot);
      transport_request_id := if current =? u64_max then 1 else current + 1;
      tcp_authorization := self.(tcp_authorization) |}).

(** [next.fetch_add(1) % pool.len()]. *)
Definition take_slot (self : TcpWorldClient) : Z * TcpWorldClient :=
  (self.(next_slot) mod len self.(pool),
   {| pool := self.(pool); next_slot := wrap_u64 (self.(next_slot) + 1);
      transport_request_id := self.(transport_request_id); tcp_authorization := self.(tcp_authorization) |}).

(** The channel of a slot: [closed] says which channels' workers are gone, [fresh] is the one a new worker
    would get. *)
Definition connection_sender (self : TcpWorldClient) (slot : nat) (closed : nat -> bool) (fresh : nat) :
    nat * TcpWorldClient :=
  match self.(pool) !! slot with
  | Some (Some sender) =>
      if closed sender then
        (fresh, {| pool := <[slot := Some fresh]> self.(pool); next_slot := self.(next_slot);
                   transport_request_id := self.(transport_request_id);
                   tcp_authorization := self.(tcp_authorization) |})
      else (sender, self)
  | _ =>
      (fresh, {| pool := <[slot := Some fresh]> self.(pool); next_slot := self.(next_slot);
                 transport_request_id := self.(transport_request_id);
                 tcp_authorization := self.(tcp_authorization) |})
  end.

Definition invalidate_connection_sender (self : TcpWorldClient) (slot : nat) (sender : nat) : TcpWorldClient :=
  if bool_decide (self.(pool) !! slot = Some (Some sender)) then
    {| pool := <[slot := None]> self.(pool); next_slot := self.(next_slot);
       transport_request_id := self.(transport_request_id); tcp_authorization := self.(tcp_authorization) |}
  else self.

Section client.
Context `{!UuidText, !CommandProtobuf}.

(** The frame of a request. *)
Definition command_frame (authorization : option InternalToken) (transport_id : Z) (request : WorldRequest) :
    Result Frame :=
  Frame_request request.(request_route) transport_id
    (encode_frame_payload
       (GatewayWorldCommand_from (command_of (InternalToken_expose <$> authorization) request))).

(** [command], up to the channel: the slot, the frame and the client afterwards. *)
Definition TcpWorldClient_prepare (self : TcpWorldClient) (request : WorldRequest) :
    Result (Z * Frame) * TcpWorldClient :=
  let '(slot, self) := take_slot self in
  let '(id, self) := next_transport_request_id self in
  let? frame := command_frame self.(tcp_authorization) id request else self in
  (Ok (slot, frame), self).

(** What a response frame says to the caller; [parse] reads the JSON of an envelope. *)
Definition completion_result (parse : list Z -> option ErrorEnvelope) (response : Frame) : Result (list Z) :=
  match response.(Frame.kind) with
  | Frame.Response => Ok response.(payload)
  | Frame.ErrorKind =>
      match ErrorEnvelope_from_slice parse response.(payload) with
      | Ok envelope => Err (ErrorEnvelope_into_error envelope)
      | Err error => Err error
      end
  | _ => Err (InvalidFrame "unexpected World response")
  end.

(** [WorldDispatch::dispatch], with the client's [command] as it answers at its call, [now] the reading of
    the clock and the protector's clock readings before and after. *)
Record GatewayCall : Type := {
  call_identity : Identity;
  call_session_id : Z;
  call_trace_id : string;
  call_route : Z;
  call_request_id : Z;
  call_payload : list Z;
  call_ownership : option Assignment;
}.

Definition dispatch_request (deadline now : Z) (call : GatewayCall) : WorldRequest :=
  {| request_identity := call.(call_identity); request_session_id := call.(call_session_id);
     request_trace_id := call.(call_trace_id); request_route := call.(call_route);
     world_request_id := call.(call_request_id); request_payload := call.(call_payload);
     request_ownership := call.(call_ownership);
     request_timeout := Z.max (saturating_sub deadline now) (from_millis 1) |}.

Definition is_transient (error : Error) : bool :=
  match error with Unavailable | Timeout | Io _ => true | _ => false end.

Definition WorldDispatch_dispatch (command : WorldRequest -> Result (list Z)) (protector : option BackendProtector)
    (deadline now before after : Z) (call : GatewayCall) : Result (list Z) * option BackendProtector :=
  let result := command (dispatch_request deadline now call) in
  match protector with
  | Some p =>
      let '(r, p) := BackendProtector_execute p result is_transient before after in (r, Some p)
  | None => (result, None)
  end.
End client.

(** ** The worker of one connection *)

(** [waiting]: the caller has not been answered. *)
Record PendingWorldResponse : Type := { waiting : bool; deadline : Z }.

Record WorldWorker : Type := {
  pending : gmap Z PendingWorldResponse;
  worker_open : bool;
  connected : bool;
  accepted : list Frame;
  written : list Frame;
  answers : list (Z * Result (list Z));
}.

(** A connection just made; the request it was made for is the first to arrive. *)
Definition WorldWorker_new : WorldWorker :=
  {| pending := ∅; worker_open := true; connected := true; accepted := []; written := []; answers := [] |}.

Definition has_active_world_requests (p : gmap Z PendingWorldResponse) : bool :=
  existsb (fun r => r.(waiting)) (map_to_list p).*2.

(** The callers that wait. *)
Definition active_ids (p : gmap Z PendingWorldResponse) : list Z :=
  (filter (fun r => r.2.(waiting) = true) (map_to_list p)).*1.

(** [fail_world_requests], and the end of the connection. *)
Definition fail_world_requests (w : WorldWorker) : WorldWorker :=
  {| pending := ∅; worker_open := w.(worker_open); connected := false; accepted := w.(accepted);
     written := w.(written);
     answers := w.(answers) ++ ((fun id => (id, Err Unavailable)) <$> active_ids w.(pending)) |}.

Definition disconnect (w : WorldWorker) : WorldWorker :=
  {| pending := w.(pending); worker_open := w.(worker_open); connected := false; accepted := w.(accepted);
     written := w.(written); answers := w.(answers) |}.

Definition answer_caller (w : WorldWorker) (id : Z) (r : Result (list Z)) : WorldWorker :=
  {| pending := w.(pending); worker_open := w.(worker_open); connected := w.(connected);
     accepted := w.(accepted); written := w.(written); answers := w.(answers) ++ [(id, r)] |}.

Definition with_pending (w : WorldWorker) (p : gmap Z PendingWorldResponse) : WorldWorker :=
  {| pending := p; worker_open := w.(worker_open); connected := w.(connected); accepted := w.(accepted);
     written := w.(written); answers := w.(answers) |}.

(** [if !pending.is_empty() && !has_active_world_requests(&pending) { break; }] *)
Definition drop_if_idle (w : WorldWorker) : WorldWorker :=
  if negb (size w.(pending) =? 0)%nat && negb (has_active_world_requests w.(pending)) then disconnect w else w.

(** The head of the loop: a worker nobody can call any more ends with its last caller. *)
Definition return_if_done (w : WorldWorker) : WorldWorker :=
  if negb w.(worker_open) && negb (has_active_world_requests w.(pending)) then disconnect w else w.

(** The callers whose deadline has passed are told so; their requests stay in the table. *)
Definition expired (now : Z) (p : gmap Z PendingWorldResponse) : list Z :=
  (filter (fun r => r.2.(waiting) = true /\ r.2.(deadline) <= now) (map_to_list p)).*1.

Definition expire (now : Z) (w : WorldWorker) : WorldWorker :=
  {| pending := (fun r => if r.(deadline) <=? now then {| waiting := false; deadline := r.(deadline) |} else r)
                  <$> w.(pending);
     worker_open := w.(worker_open); connected := w.(connected); accepted := w.(accepted);
     written := w.(written);
     answers := w.(answers) ++ ((fun id => (id, Err Timeout)) <$> expired now w.(pending)) |}.

(** What the [select!] sees: a request with its deadline, the time it is taken up and whether its frame
    could be written; the end of the callers; a frame of the world, or the end of the connection; the
    timer. *)
Inductive WorkerEvent : Type :=
| WRequest (frame : Frame) (until now : Z) (wrote : bool)
| WCallersGone
| WResponse (frame : option Frame)
| WTimer (now : Z).

(** The request a connection is made for: [connect] is what connecting answers, [None] when the request's
    deadline comes first.  [Ok] is a connection; an error is the caller's answer. *)
Definition worker_connect (until now : Z) (connect : option (Result unit)) : Result unit :=
  if saturating_sub until now =? 0 then Err Timeout
  else match connect with Some (Ok _) => Ok () | Some (Err error) => Err error | None => Err Timeout end.

Section worker.
Context (parse : list Z -> option ErrorEnvelope) (max_in_flight : Z).

Definition take_request (w : WorldWorker) (frame : Frame) : WorldWorker :=
  {| pending := w.(pending); worker_open := w.(worker_open); connected := w.(connected);
     accepted := w.(accepted) ++ [frame]; written := w.(written); answers := w.(answers) |}.

Definition write_request (w : WorldWorker) (frame : Frame) (until : Z) : WorldWorker :=
  {| pending := <[frame.(request_id) := {| waiting := true; deadline := until |}]> w.(pending);
     worker_open := w.(worker_open); connected := w.(connected); accepted := w.(accepted);
     written := w.(written) ++ [frame]; answers := w.(answers) |}.

(** One turn of the loop; [None] when the branch is not enabled. *)
Definition worker_turn (w : WorldWorker) (e : WorkerEvent) : option WorldWorker :=
  if negb w.(connected) then None
  else
    match e with
    | WRequest frame until now wrote =>
        if w.(worker_open) && (Z.of_nat (size w.(pending)) <? max_in_flight) then
          let w := take_request w frame in
          if saturating_sub until now =? 0 then Some (answer_caller w frame.(request_id) (Err Timeout))
          else if wrote then Some (write_request w frame until)
          else Some (fail_world_requests (answer_caller w frame.(request_id) (Err Unavailable)))
        else None
    | WCallersGone =>
        if w.(worker_open) then
          Some (return_if_done
                  {| pending := w.(pending); worker_open := false; connected := w.(connected);
                     accepted := w.(accepted); written := w.(written); answers := w.(answers) |})
        else None
    | WResponse None => Some (fail_world_requests w)
    | WResponse (Some response) =>
        match w.(pending) !! response.(request_id) with
        | None => Some (fail_world_requests w)
        | Some completion =>
            let w := with_pending w (delete response.(request_id) w.(pending)) in
            let w := if completion.(waiting)
                     then answer_caller w response.(request_id) (completion_result parse response) else w in
            Some (return_if_done (drop_if_idle w))
        end
    | WTimer now => Some (return_if_done (drop_if_idle (expire now w)))
    end.

Fixpoint worker_run (w : WorldWorker) (events : list WorkerEvent) : option WorldWorker :=
  match events with
  | [] => Some w
  | e :: events => w ← worker_turn w e; worker_run w events
  end.
End worker.

(** ** Every caller is answered once *)

Section pending.
Implicit Types p : gmap Z PendingWorldResponse.

Lemma active_ids_insert p id until : p !! id = None ->
  active_ids (<[id := {| waiting := true; deadline := until |}]> p) ≡ₚ id :: active_ids p.
Proof. intros Hn. unfold active_ids. rewrite map_to_list_insert by done. by rewrite filter_cons_True. Qed.

Lemma active_ids_delete p id r : p !! id = Some r ->
  active_ids p ≡ₚ (if r.(waiting) then [id] else []) ++ active_ids (delete id p).
Proof.
  intros Hl. unfold active_ids. rewrite <- (map_to_list_delete p id r) by done.
  destruct r.(waiting) eqn:Hw; [by rewrite filter_cons_True|]. rewrite filter_cons_False by (cbn; congruence). done.
Qed.

Lemma active_ids_empty : active_ids ∅ = [].
Proof. unfold active_ids. by rewrite map_to_list_empty. Qed.

Lemma expire_active now p :
  active_ids p ≡ₚ expired now p ++ active_ids
    ((fun r => if r.(deadline) <=? now then {| waiting := false; deadline := r.(deadline) |} else r) <$> p).
Proof.
  unfold active_ids, expired. rewrite map_to_list_fmap. induction (map_to_list p) as [|[id r] l IH]; [done|].
  rewrite fmap_cons, !filter_cons. destruct r as [[] d]; cbn [prod_map fst snd waiting deadline];
    destruct (Z.leb_spec d now); cbn [waiting]; repeat case_decide; try lia; try naive_solver;
    rewrite ?fmap_cons; cbn [fst]; rewrite ?IH; try done; solve_Permutation.
Qed.

Lemma has_active_spec p : has_active_world_requests p = false <-> active_ids p = [].
Proof.
  unfold has_active_world_requests, active_ids. induction (map_to_list p) as [|[id r] l IH]; [done|].
  rewrite filter_cons, fmap_cons. cbn [existsb snd]. destruct r.(waiting) eqn:Hw; case_decide; done || congruence.
Qed.
End pending.

Definition request_ids (l : list Frame) : list Z := request_id <$> l.

(** Every request taken up is answered or waits, not both; what waits was written; nobody waits on a
    connection that is gone. *)
Record worker_inv (w : WorldWorker) : Prop := {
  ids_unique : NoDup (request_ids w.(accepted));
  answered_or_active : request_ids w.(accepted) ≡ₚ w.(answers).*1 ++ active_ids w.(pending);
  pending_written : forall id r, w.(pending) !! id = Some r -> id ∈ request_ids w.(written);
  written_accepted : forall f, f ∈ w.(written) -> f ∈ w.(accepted);
  gone_idle : w.(connected) = false -> active_ids w.(pending) = [];
}.

Lemma worker_new_inv : worker_inv WorldWorker_new.
Proof. split; cbn; try done. constructor. Qed.

Lemma fail_inv w : worker_inv w -> worker_inv (fail_world_requests w).
Proof.
  intros [H1 H2 H3 H4 H5]. split; cbn; try done.
  rewrite fmap_app, <- list_fmap_compose, list_fmap_id, active_ids_empty, app_nil_r. done.
Qed.

Lemma disconnect_inv w : worker_inv w -> has_active_world_requests w.(pending) = false -> worker_inv (disconnect w).
Proof. intros [H1 H2 H3 H4 H5] Hi. split; cbn; try done. intros _. by apply has_active_spec. Qed.

Lemma drop_if_idle_inv w : worker_inv w -> worker_inv (drop_if_idle w).
Proof. intros Hw. unfold drop_if_idle. destruct (_ && _) eqn:E; [|done]. breflect. by apply disconnect_inv. Qed.

Lemma return_if_done_inv w : worker_inv w -> worker_inv (return_if_done w).
Proof. intros Hw. unfold return_if_done. destruct (_ && _) eqn:E; [|done]. breflect. by apply disconnect_inv. Qed.

Lemma expire_inv now w : worker_inv w -> worker_inv (expire now w).
Proof.
  intros [H1 H2 H3 H4 H5]. pose proof (expire_active now w.(pending)) as He. split; cbn; try done.
  - rewrite fmap_app, <- list_fmap_compose, list_fmap_id, H2, He. solve_Permutation.
  - intros id r. rewrite lookup_fmap_Some. intros (r' & _ & Hr'). by eapply H3.
  - intros Hc. specialize (H5 Hc). rewrite H5 in He. by apply Permutation_nil, app_eq_nil in He as [_ ?].
Qed.

Section turns.
Context (parse : list Z -> option ErrorEnvelope) (max_in_flight : Z).

Lemma request_inv w frame : worker_inv w -> frame.(request_id) ∉ request_ids w.(accepted) ->
  w.(pending) !! frame.(request_id) = None /\
  (forall r, worker_inv (answer_caller (take_request w frame) frame.(request_id) r)) /\
  (forall until, w.(connected) = true -> worker_inv (write_request (take_request w frame) frame until)).
Proof.
  intros [H1 H2 H3 H4 H5] Hnew.
  assert (Hn : w.(pending) !! frame.(request_id) = None).
  { destruct (w.(pending) !! frame.(request_id)) as [r|] eqn:El; [|done]. apply H3 in El.
    apply list_elem_of_fmap in El as (f & Hf & Hin). exfalso. apply Hnew. apply list_elem_of_fmap. eauto. }
  assert (Hnd : NoDup (request_ids (w.(accepted) ++ [frame]))).
  { unfold request_ids in *. rewrite fmap_app. apply NoDup_app. split; [done|]. split; [|apply NoDup_singleton].
    intros x Hx ->%list_elem_of_singleton. done. }
  split; [done|]. split.
  - intros r. split; cbn; try done.
    + unfold request_ids in *. rewrite !fmap_app, H2. cbn. solve_Permutation.
    + intros f Hf. apply elem_of_app. left. by apply H4.
  - intros t Hc. split; cbn; try done.
    + unfold request_ids in *. rewrite fmap_app, H2, active_ids_insert by done. cbn. solve_Permutation.
    + intros id r. unfold request_ids. rewrite lookup_insert_Some, fmap_app.
      intros [[<- _]|[_ Hl]]; apply elem_of_app; [right; set_solver|left; by eapply H3].
    + intros f [Hf|Hf]%elem_of_app; apply elem_of_app; [left; by apply H4|by right].
    + rewrite Hc. done.
Qed.

Lemma worker_turn_inv w e w' :
  worker_inv w -> (forall f until now wrote, e = WRequest f until now wrote -> f.(request_id) ∉ request_ids w.(accepted)) ->
  worker_turn parse max_in_flight w e = Some w' -> worker_inv w'.
Proof.
  intros Hw Hnew. unfold worker_turn. destruct w.(connected) eqn:Hc; [|done]. cbn [negb].
  destruct e as [frame until now wrote| |[response|]|now].
  - destruct (_ && _); [|done]. destruct (request_inv w frame Hw (Hnew _ _ _ _ eq_refl)) as (_ & Ha & Hr).
    destruct (_ =? 0); [by intros [= <-]|]. destruct wrote; intros [= <-]; [by apply Hr|by apply fail_inv].
  - destruct w.(worker_open); [|done]. intros [= <-]. apply return_if_done_inv. by destruct Hw.
  - destruct (w.(pending) !! response.(request_id)) as [completion|] eqn:El; intros [= <-]; [|by apply fail_inv].
    apply return_if_done_inv, drop_if_idle_inv. pose proof (active_ids_delete _ _ _ El) as Hd.
    destruct Hw as [H1 H2 H3 H4 H5]. rewrite Hd in H2. destruct completion.(waiting); split; cbn; try done.
    + rewrite H2, fmap_app. cbn. solve_Permutation.
    + intros id r. rewrite lookup_delete_Some. intros [_ Hl]. by eapply H3.
    + by rewrite Hc.
    + intros id r. rewrite lookup_delete_Some. intros [_ Hl]. by eapply H3.
    + by rewrite Hc.
  - intros [= <-]. by apply fail_inv.
  - intros [= <-]. by apply return_if_done_inv, drop_if_idle_inv, expire_inv.
Qed.
End turns.

(** What one turn adds to the answers: an expiry, a failure of the connection, or the response that came. *)
Section answers.
Context (parse : list Z -> option ErrorEnvelope) (max_in_flight : Z).

Definition answer_of (e : WorkerEvent) (w : WorldWorker) (a : Z * Result (list Z)) : Prop :=
  a.2 = Err Timeout \/ a.2 = Err Unavailable \/
  exists f, e = WResponse (Some f) /\ f.(request_id) = a.1 /\ a.2 = completion_result parse f /\
    is_Some (w.(pending) !! a.1).

Lemma answers_unchanged w : (drop_if_idle w).(answers) = w.(answers) /\ (return_if_done w).(answers) = w.(answers).
Proof. unfold drop_if_idle, return_if_done. split; by destruct (_ && _). Qed.

Lemma worker_turn_answers w e w' : worker_turn parse max_in_flight w e = Some w' ->
  exists new, w'.(answers) = w.(answers) ++ new /\ Forall (answer_of e w) new.
Proof.
  assert (Hall : forall (r : Result (list Z)) l, r = Err Timeout \/ r = Err Unavailable ->
    Forall (answer_of e w) ((fun id => (id, r)) <$> l)).
  { intros r l Hr. apply Forall_fmap, Forall_true. intros id. unfold answer_of. cbn. naive_solver. }
  unfold worker_turn. destruct w.(connected); [|done]. cbn [negb].
  destruct e as [frame until now wrote| |[response|]|now].
  - destruct (_ && _); [|done]. destruct (_ =? 0); [|destruct wrote]; intros [= <-]; cbn.
    + exists [(frame.(request_id), Err Timeout)]. split; [done|]. constructor; [by left|done].
    + exists []. by rewrite app_nil_r.
    + eexists ((frame.(request_id), Err Unavailable) :: _). rewrite <- app_assoc. split; [done|].
      constructor; [by right; left|]. apply Hall. auto.
  - destruct w.(worker_open); [|done]. intros [= <-]. rewrite (proj2 (answers_unchanged _)). exists [].
    by rewrite app_nil_r.
  - destruct (w.(pending) !! response.(request_id)) as [c|] eqn:El; intros [= <-]; [|by eexists; split; [|apply Hall; auto]].
    rewrite (proj2 (answers_unchanged _)), (proj1 (answers_unchanged _)). destruct c.(waiting); cbn.
    + eexists [_]. split; [done|]. constructor; [|done]. right. right. exists response. cbn. split_and!; try done.
    + exists []. by rewrite app_nil_r.
  - intros [= <-]. eexists. split; [done|]. apply Hall. auto.
  - intros [= <-]. rewrite (proj2 (answers_unchanged _)), (proj1 (answers_unchanged _)). eexists.
    split; [done|]. apply Hall. auto.
Qed.

Lemma worker_turn_written w e w' : worker_turn parse max_in_flight w e = Some w' ->
  exists new, w'.(written) = w.(written) ++ new /\
    (forall f, f ∈ new -> exists until now, e = WRequest f until now true).
Proof.
  assert (Hw : forall w, (drop_if_idle w).(written) = w.(written) /\ (return_if_done w).(written) = w.(written)).
  { intros w0. unfold drop_if_idle, return_if_done. split; by destruct (_ && _). }
  unfold worker_turn. destruct w.(connected); [|done]. cbn [negb].
  destruct e as [frame until now wrote| |[response|]|now]; intros H.
  - destruct (_ && _); [|done]. destruct (_ =? 0); [|destruct wrote]; simplify_eq; cbn.
    + exists []. rewrite app_nil_r. set_solver.
    + exists [frame]. split; [done|]. intros f ->%list_elem_of_singleton. eauto.
    + exists []. rewrite app_nil_r. set_solver.
  - destruct w.(worker_open); [|done]. simplify_eq. exists []. rewrite (proj2 (Hw _)), app_nil_r. set_solver.
  - exists []. rewrite app_nil_r. split; [|set_solver]. destruct (w.(pending) !! _) as [c|]; simplify_eq; [|done].
    rewrite (proj2 (Hw _)), (proj1 (Hw _)). by destruct c.(waiting).
  - simplify_eq. exists []. rewrite app_nil_r. set_solver.
  - simplify_eq. exists []. rewrite (proj2 (Hw _)), (proj1 (Hw _)), app_nil_r. set_solver.
Qed.

(** The callers of a worker: no answer is given twice, and once the connection is gone nobody waits. *)
Lemma worker_answers_once w : worker_inv w ->
  NoDup w.(answers).*1 /\ (forall id r, (id, r) ∈ w.(answers) -> id ∈ request_ids w.(accepted)) /\
  (w.(connected) = false -> forall f, f ∈ w.(accepted) -> exists r, (f.(request_id), r) ∈ w.(answers)).
Proof.
  intros [H1 H2 H3 H4 H5]. rewrite H2 in H1. apply NoDup_app in H1 as (Hnd & _ & _). split_and!; [done|..].
  - intros id r Hin. rewrite H2. apply elem_of_app. left. apply list_elem_of_fmap. by exists (id, r).
  - intros Hc f Hf. rewrite (H5 Hc), app_nil_r in H2.
    assert (Hin : f.(request_id) ∈ w.(answers).*1) by (rewrite <- H2; apply list_elem_of_fmap; eauto).
    apply list_elem_of_fmap in Hin as ([id r] & -> & Hin). by exists r.
Qed.
End answers.

(** ** Both ends *)

(** A worker, a world's connection, and what is under way in both directions. *)
Record Link : Type := { near : WorldWorker; far : ServiceConnection; up : list Frame; down : list Frame }.

Definition Link_new : Link :=
  {| near := WorldWorker_new; far := ServiceConnection_new false; up := []; down := [] |}.

Section link.
Context (parse : list Z -> option ErrorEnvelope) (envelope_bytes : ErrorEnvelope -> list Z).
Context (near_limit far_limit : Z) (executes : Frame -> Result (list Z) -> Prop).

(** [executes f r]: the world's execution of the frame [f] gave [r].  The transport numbers are new, as
    [next_transport_request_id] hands them out; either end may time out, fail or stop at any moment. *)
Inductive link_step (l : Link) : Link -> Prop :=
| link_client e w new :
    (forall f, e <> WResponse (Some f)) ->
    (forall f t now wrote, e = WRequest f t now wrote -> f.(request_id) ∉ request_ids l.(near).(accepted)) ->
    worker_turn parse near_limit l.(near) e = Some w -> w.(written) = l.(near).(written) ++ new ->
    link_step l {| near := w; far := l.(far); up := l.(up) ++ new; down := l.(down) |}
| link_request f rest c :
    l.(up) = f :: rest -> serve_connection_turn envelope_bytes far_limit l.(far) (EvFrame (Some (Ok f))) = Some c ->
    link_step l {| near := l.(near); far := c; up := rest; down := l.(down) |}
| link_executed i f r c :
    l.(far).(requests) !! i = Some f -> executes f r ->
    serve_connection_turn envelope_bytes far_limit l.(far) (EvCompleted i (Some r) (Ok ())) = Some c ->
    link_step l {| near := l.(near); far := c; up := l.(up); down := l.(down) ++ [response_frame envelope_bytes f r] |}
| link_far e c :
    match e with EvFrame (Some (Ok _)) | EvCompleted _ (Some _) (Ok _) => False | _ => True end ->
    serve_connection_turn envelope_bytes far_limit l.(far) e = Some c ->
    link_step l {| near := l.(near); far := c; up := l.(up); down := l.(down) |}
| link_response f rest w :
    l.(down) = f :: rest -> worker_turn parse near_limit l.(near) (WResponse (Some f)) = Some w ->
    link_step l {| near := w; far := l.(far); up := l.(up); down := rest |}.

(** The answer is the caller's own: its frame was written and executed. *)
Definition own_answer (w : WorldWorker) (a : Z * Result (list Z)) : Prop :=
  a.2 = Err Timeout \/ a.2 = Err Unavailable \/
  exists f r, f ∈ w.(written) /\ f.(request_id) = a.1 /\ executes f r /\
    a.2 = completion_result parse (response_frame envelope_bytes f r).

Record link_inv (l : Link) : Prop := {
  near_inv : worker_inv l.(near);
  up_written : forall f, f ∈ l.(up) -> f ∈ l.(near).(written);
  requests_written : forall f, f ∈ l.(far).(requests) -> f ∈ l.(near).(written);
  down_executed : forall g, g ∈ l.(down) -> exists f r, f ∈ l.(near).(written) /\ executes f r /\
    g = response_frame envelope_bytes f r;
  answers_own : Forall (own_answer l.(near)) l.(near).(answers);
}.

Lemma own_answer_mono w w' new : w'.(written) = w.(written) ++ new ->
  Forall (own_answer w) w.(answers) -> Forall (own_answer w') w.(answers).
Proof.
  intros Hw Hall. eapply Forall_impl; [exact Hall|]. intros a [?|[?|(f & r & Hf & Hrest)]]; [by left|by right; left|].
  right. right. exists f, r. rewrite Hw. split; [set_solver|done].
Qed.

(** The frames in flight after a turn of the far end were in flight, or are the one that arrived. *)
Lemma far_requests c e c' f : serve_connection_turn envelope_bytes far_limit c e = Some c' -> f ∈ c'.(requests) ->
  f ∈ c.(requests) \/ e = EvFrame (Some (Ok f)).
Proof.
  assert (Hs : forall c, (settle c).(requests) = c.(requests)) by (intros c0; unfold settle; by destruct c0.(returned)).
  unfold serve_connection_turn. destruct c.(returned); [done|]. destruct e as [flag|frame|i r s].
  - destruct c.(input_open); [|done]. intros [= <-]. rewrite Hs. by left.
  - destruct (_ && _); [|done]. destruct frame as [[g|e]|]; [destruct g.(Frame.kind)|..]; intros [= <-]; rewrite ?Hs;
      cbn; rewrite ?elem_of_app, ?list_elem_of_singleton; naive_solver.
  - destruct (c.(requests) !! i) as [g|] eqn:El; [|done]. apply delete_Permutation in El.
    destruct r, s; intros [= <-]; rewrite ?Hs; cbn; intros Hin; left; rewrite El; by right.
Qed.

Lemma world_link_step_inv l l' : link_inv l -> link_step l l' -> link_inv l'.
Proof.
  intros [H1 H2 H3 H4 H5] Hstep. destruct Hstep as [e w new He Hfresh Hturn Hnew|f rest c Hup Hturn|i f r c Hl Hex Hturn
    |e c He Hturn|f rest w Hdown Hturn].
  - pose proof (worker_turn_answers _ _ _ _ _ Hturn) as (na & Hna & Hall). split; cbn.
    + by eapply worker_turn_inv.
    + intros f [Hf|Hf]%elem_of_app; rewrite Hnew; set_solver.
    + intros f Hf. rewrite Hnew. set_solver.
    + intros g Hg. destruct (H4 g Hg) as (f & r & Hf & ? & ?). exists f, r. rewrite Hnew. set_solver.
    + rewrite Hna. apply Forall_app. split; [by eapply own_answer_mono|]. eapply Forall_impl; [exact Hall|].
      intros a [?|[?|(f & -> & _)]]; [by left|by right; left|by destruct (He f)].
  - rewrite Hup in H2. split; cbn; try done; [set_solver|].
    intros g Hg. destruct (far_requests _ _ _ _ Hturn Hg) as [?|[= ->]]; [by apply H3|set_solver].
  - split; cbn; try done.
    + intros g Hg. destruct (far_requests _ _ _ _ Hturn Hg) as [?|[=]]. by apply H3.
    + intros g [Hg| ->%list_elem_of_singleton]%elem_of_app; [by apply H4|]. exists f, r. split; [|done].
      apply H3, list_elem_of_lookup. eauto.
  - split; cbn; try done. intros g Hg. destruct (far_requests _ _ _ _ Hturn Hg) as [?| ->]; [by apply H3|done].
  - pose proof (worker_turn_answers _ _ _ _ _ Hturn) as (na & Hna & Hall).
    pose proof (worker_turn_written _ _ _ _ _ Hturn) as (nw & Hnw & Hnone).
    assert (nw = []) as ->. { destruct nw as [|g nw]; [done|]. destruct (Hnone g) as (? & ? & ?); [set_solver|done]. }
    rewrite app_nil_r in Hnw. rewrite Hdown in H4. split; cbn; try (rewrite Hnw; try done).
    + eapply worker_turn_inv; [done| |done]. by intros.
    + intros g Hg. apply H4. set_solver.
    + rewrite Hna. apply Forall_app. split; [by eapply (own_answer_mono _ _ []); [rewrite app_nil_r|]|].
      eapply Forall_impl; [exact Hall|]. intros a [?|[?|(g & [= <-] & Hid & Ha & _)]]; [by left|by right; left|].
      right. right. destruct (H4 f) as (f0 & r & Hf0 & Hex & ->); [set_solver|].
      exists f0, r. rewrite Hnw. split_and!; try done. rewrite <- Hid. by destruct r.
Qed.
End link.

(** C14: the answer a caller of a world gets is its own.  With any number of requests multiplexed over a
    connection, whatever order the world executes them in, and with timeouts, failures and shutdown on
    either side: no caller is answered twice; an answer that is not a timeout or a failure of the
    connection is the outcome of executing the caller's own frame, the only one with its number; and when
    the connection is gone every caller has its answer. *)
Theorem world_link_answers_own_command (parse : list Z -> option ErrorEnvelope) (envelope_bytes : ErrorEnvelope -> list Z)
  (near_limit far_limit : Z) (executes : Frame -> Result (list Z) -> Prop) (l : Link)
  (Hreach : rtc (link_step parse envelope_bytes near_limit far_limit executes) Link_new l) :
  NoDup l.(near).(answers).*1 /\
  (forall id answer, (id, answer) ∈ l.(near).(answers) ->
     answer = Err Timeout \/ answer = Err Unavailable \/
     exists f r, f ∈ l.(near).(accepted) /\ f.(request_id) = id /\ executes f r /\
       answer = completion_result parse (response_frame envelope_bytes f r) /\
       (forall f', f' ∈ l.(near).(accepted) -> f'.(request_id) = id -> f' = f)) /\
  (l.(near).(connected) = false -> forall f, f ∈ l.(near).(accepted) ->
     exists answer, (f.(request_id), answer) ∈ l.(near).(answers)).
Proof.
  assert (Hinv : link_inv parse envelope_bytes executes l).
  { remember Link_new as l0 eqn:E0. assert (Hl0 : link_inv parse envelope_bytes executes l0).
    { subst l0. split; cbn; try set_solver. apply worker_new_inv. }
    clear E0. induction Hreach as [|l1 l2 l3 Hstep _ IH]; [done|]. by eapply IH, world_link_step_inv. }
  destruct Hinv as [Hw _ _ _ Hown]. destruct (worker_answers_once _ Hw) as (Hnd & Hsub & Hgone).
  split; [done|]. split; [|done]. intros id answer Hin. rewrite Forall_forall in Hown.
  destruct (Hown _ Hin) as [?|[?|(f & r & Hf & Hid & Hex & Ha)]]; [by left|by right; left|].
  right. right. exists f, r. destruct Hw as [Huniq _ _ Hacc _]. split_and!; auto.
  intros f' Hf' Hid'. apply list_elem_of_lookup in Hf' as [i Hi]. apply Hacc, list_elem_of_lookup in Hf as [j Hj].
  assert (i = j) as ->; [|congruence].
  apply (NoDup_lookup (request_ids l.(near).(accepted)) _ _ id Huniq); unfold request_ids;
    rewrite list_lookup_fmap; [rewrite Hi|rewrite Hj]; cbn in *; congruence.
Qed.

(** ** A remote world behaves as one in the same process *)

(** What is left of an error that crosses a process boundary. *)
Definition remote_error (error : Error) : Error :=
  if envelope_fields_ok (ErrorEnvelope_from error) then ErrorEnvelope_into_error (ErrorEnvelope_from error)
  else InvalidFrame "invalid error envelope fields".

Definition remote_result (r : Result (list Z)) : Result (list Z) := map_err remote_error r.

Definition with_request_timeout (r : WorldRequest) (t : Z) : WorldRequest :=
  {| request_identity := r.(request_identity); request_session_id := r.(request_session_id);
     request_trace_id := r.(request_trace_id); request_route := r.(request_route);
     world_request_id := r.(world_request_id); request_payload := r.(request_payload);
     request_ownership := r.(request_ownership); request_timeout := t |}.

Lemma completion_of_response parse envelope_bytes f r :
  (forall e, parse (envelope_bytes e) = Some e) ->
  completion_result parse (response_frame envelope_bytes f r) = remote_result r.
Proof.
  intros Hp. destruct r as [p|e]; [done|]. cbn. unfold ErrorEnvelope_from_slice, remote_error. rewrite Hp. cbn.
  by destruct (envelope_fields_ok (ErrorEnvelope_from e)).
Qed.

Section remote.
Context {App Any : Type} `{!UuidText, !CommandProtobuf, !CommandProtobufLaws} (lock_wait : PlayerKey -> Z).

(** The world reads from the frame of a request what the client in its own process would hand it. *)
Lemma remote_frame_result client_token server_token transport_id request frame
    (rt : @WorldRuntime App Any) (owner : option (@WorldOwnership App)) :
  command_frame client_token transport_id request = Ok frame ->
  command_ok (GatewayWorldCommand_from (command_of (InternalToken_expose <$> client_token) request)) ->
  server_token = None \/ server_token = client_token ->
  as_millis request.(request_timeout) <> 0 ->
  world_frame_result lock_wait frame rt owner server_token =
  InProcessWorldClient_command lock_wait {| client_runtime := rt; client_ownership := owner |} true
    (with_request_timeout request (wire_timeout request.(request_timeout))).
Proof.
  intros Hframe Hok Htok Hms. unfold command_frame, Frame_request in Hframe.
  destruct (request_route request =? 0); [done|]. destruct (transport_id =? 0); [done|]. simplify_eq.
  unfold world_frame_result, decode_frame_payload, encode_frame_payload. cbn [payload route].
  rewrite decode_encode by done. cbn [ok_or]. rewrite command_message_round_trip.
  cbn [command_of command_timeout]. rewrite (proj2 (Z.eqb_neq _ _) Hms). unfold InProcessWorldClient_command.
  cbn [with_timeout with_request_timeout command_of command_request_id world_request_id authorization
       request_identity command_identity].
  destruct (world_request_id request =? 0); [done|].
  assert (Hauth : match server_token with
    | Some expected => negb (InternalToken_authorizes expected (default "" (InternalToken_expose <$> client_token)))
    | None => false end = false).
  { destruct Htok as [->| ->]; [done|]. destruct client_token as [t|]; [|done]. cbn.
    apply negb_false_iff. by apply authorizes_spec. }
  rewrite Hauth. done.
Qed.
End remote.

(** C12: a world reached over the network is the world in the same process.  For a request of at least a
    millisecond, the frame the client builds, executed by a world that expects the client's token, and the
    response read back, do at every step exactly what the in-process client of that world does — the same
    checks, the same handler on the same state, the same waits — with the timeout in whole milliseconds and
    an error in its public form. *)
Theorem remote_world_equals_in_process {App Any} `{!UuidText, !CommandProtobuf, !CommandProtobufLaws}
  (lock_wait : PlayerKey -> Z) (parse : list Z -> option ErrorEnvelope) (envelope_bytes : ErrorEnvelope -> list Z)
  (client_token server_token : option InternalToken) (transport_id : Z) (request : WorldRequest) (frame : Frame)
  (rt : @WorldRuntime App Any) (owner : option (@WorldOwnership App))
  (Hjson : forall e, parse (envelope_bytes e) = Some e)
  (Hframe : command_frame client_token transport_id request = Ok frame)
  (Hfields : command_ok (GatewayWorldCommand_from (command_of (InternalToken_expose <$> client_token) request)))
  (Htoken : server_token = None \/ server_token = client_token)
  (Htimeout : from_millis 1 <= request.(request_timeout)) :
  (let! response := execute_world_frame lock_wait envelope_bytes frame rt owner server_token in
   ret (completion_result parse response))
  ≡ (let! result := InProcessWorldClient_command lock_wait {| client_runtime := rt; client_ownership := owner |} true
                      (with_request_timeout request (wire_timeout request.(request_timeout))) in
     ret (remote_result result)).
Proof.
  unfold execute_world_frame. erewrite remote_frame_result by
    (done || (unfold as_millis, from_millis, nanos_per_milli in *; nia || (intros E; apply Z.div_small_iff in E; lia))).
  rewrite bind_assoc. apply bind_proper; [done|]. intros r. rewrite ret_bind.
  change (match r with Ok payload => _ | Err error => _ end) with (response_frame envelope_bytes frame r).
  by rewrite completion_of_response.
Qed.

(** ** Transport numbers *)

Fixpoint draw_ids (n : nat) (self : TcpWorldClient) : list Z :=
  match n with
  | O => []
  | S n => let '(id, self) := next_transport_request_id self in id :: draw_ids n self
  end.

(** The numbers are never zero, and none comes back before all the others have been used. *)
Lemma draw_ids_nth n : forall self k, 1 <= self.(transport_request_id) <= u64_max -> (k < n)%nat ->
  draw_ids n self !! k = Some ((self.(transport_request_id) - 1 + Z.of_nat k) mod u64_max + 1).
Proof.
  induction n as [|n IH]; intros self k Hid Hk; [lia|]. cbn [draw_ids next_transport_request_id].
  destruct k as [|k]; cbn [lookup list_lookup].
  - f_equal. rewrite Z.add_0_r, Z.mod_small by lia. lia.
  - rewrite IH; cbn [transport_request_id]; [|destruct (Z.eqb_spec self.(transport_request_id) u64_max);
      unfold u64_max in *; lia|lia].
    do 2 f_equal. destruct (Z.eqb_spec self.(transport_request_id) u64_max) as [->|Hne].
    + replace (u64_max - 1 + Z.of_nat (S k)) with (Z.of_nat k + 1 * u64_max) by lia. rewrite Z.mod_add by done.
      reflexivity.
    + f_equal. lia.
Qed.

Lemma transport_ids_unique n self : 1 <= self.(transport_request_id) <= u64_max -> Z.of_nat n <= u64_max ->
  NoDup (draw_ids n self).
Proof.
  intros Hid Hn. apply NoDup_alt. intros i j x Hi Hj.
  assert (Hlen : length (draw_ids n self) = n).
  { clear. revert self. induction n as [|n IH]; intros self; cbn; [done|]. by rewrite IH. }
  apply lookup_lt_Some in Hi as Hi', Hj as Hj'. rewrite draw_ids_nth in Hi by (done || lia).
  rewrite draw_ids_nth in Hj by (done || lia). simplify_eq.
  assert (Hm : (self.(transport_request_id) - 1 + Z.of_nat i) mod u64_max
             = (self.(transport_request_id) - 1 + Z.of_nat j) mod u64_max) by lia.
  rewrite !Z.mod_eq in Hm by done. unfold u64_max in *. nia.
Qed.

(** ** An application's error code can be taken for a failure of the world

    The codes of the framework are not kept apart from those of the application: an error of a handler
    whose code reads [timeout] or [unavailable] reaches the gateway as a timeout or an unavailable world,
    and counts against its circuit; in the same process it does not. *)
Lemma business_code_counts_as_failure message retryable :
  remote_error (Business "timeout" message retryable) =
    (if string_len message <=? 1024 then Timeout else InvalidFrame "invalid error envelope fields") /\
  is_transient Timeout = true /\ is_transient (Business "timeout" message retryable) = false.
Proof.
  split; [|done]. unfold remote_error.
  assert (Hc : public_code "timeout" = "TIMEOUT") by (vm_compute; reflexivity).
  destruct (error_envelope_public (Business "timeout" message retryable)) as [Hf _]. rewrite Hf.
  cbn [ErrorEnvelope_from]. rewrite Hc. by destruct (string_len _ <=? 1024).
Qed.

(** ** Samples *)

Module SampleLink.
(** An envelope as the bits of its fields. *)
Definition envelope_bytes (e : ErrorEnvelope) : list Z :=
  SampleEncodings.pos_bits (countable.encode (e.(code), e.(message), e.(retryable), e.(retry_after_ms))).

Definition parse (l : list Z) : option ErrorEnvelope :=
  (fun '(c, m, r, ms) => {| code := c; message := m; retryable := r; retry_after_ms := ms |})
  <$> countable.decode (SampleEncodings.bits_pos l).

Lemma parse_envelope e : parse (envelope_bytes e) = Some e.
Proof.
  unfold parse, envelope_bytes. rewrite SampleEncodings.bits_pos_bits, countable.decode_encode. by destruct e.
Qed.

Definition request_frame (id : Z) : Frame :=
  {| Frame.kind := Frame.Request; flags := 0; route := 100; request_id := id; sequence := 0; payload := [id] |}.

(** A world that answers the payload. *)
Definition echoes (f : Frame) (r : Result (list Z)) : Prop := r = Ok f.(payload).

Abbreviation step := (link_step parse envelope_bytes 4 4 echoes).

Definition near_after (events : list WorkerEvent) : WorldWorker :=
  default WorldWorker_new (worker_run parse 4 WorldWorker_new events).
Definition far_after (events : list ConnectionEvent) : ServiceConnection :=
  default (ServiceConnection_new true) (serve_connection envelope_bytes 4 (ServiceConnection_new false) events).

Definition asked : list WorkerEvent := [WRequest (request_frame 1) 50 0 true; WRequest (request_frame 2) 50 0 true].
Definition arrived : list ConnectionEvent :=
  [EvFrame (Some (Ok (request_frame 1))); EvFrame (Some (Ok (request_frame 2)))].
Definition answer_to (id : Z) : Frame := response_frame envelope_bytes (request_frame id) (Ok [id]).

(** The second request is executed first. *)
Definition final : Link :=
  {| near := near_after (asked ++ [WResponse (Some (answer_to 2)); WResponse (Some (answer_to 1))]);
     far := far_after (arrived ++ [EvCompleted 1 (Some (Ok [2])) (Ok ()); EvCompleted 0 (Some (Ok [1])) (Ok ())]);
     up := []; down := [] |}.

Lemma final_reached : rtc step Link_new final.
Proof.
  eapply rtc_l.
  { eapply (link_client _ _ _ _ _ _ (WRequest (request_frame 1) 50 0 true) (near_after (take 1 asked)) [request_frame 1]);
      [done|intros; simplify_eq; set_solver|reflexivity..]. }
  eapply rtc_l.
  { eapply (link_client _ _ _ _ _ _ (WRequest (request_frame 2) 50 0 true) (near_after asked) [request_frame 2]);
      [done|intros f t now wrote [= <- <- <- <-]; refine (bool_decide_unpack _ _); vm_compute; exact I|reflexivity..]. }
  eapply rtc_l; [eapply (link_request _ _ _ _ _ _ (request_frame 1) _ (far_after (take 1 arrived))); reflexivity|].
  eapply rtc_l; [eapply (link_request _ _ _ _ _ _ (request_frame 2) _ (far_after arrived)); reflexivity|].
  eapply rtc_l.
  { eapply (link_executed _ _ _ _ _ _ 1 (request_frame 2) (Ok [2])
      (far_after (arrived ++ [EvCompleted 1 (Some (Ok [2])) (Ok ())]))); reflexivity. }
  eapply rtc_l.
  { eapply (link_executed _ _ _ _ _ _ 0 (request_frame 1) (Ok [1]) final.(far)); reflexivity. }
  eapply rtc_l.
  { eapply (link_response _ _ _ _ _ _ (answer_to 2) [answer_to 1] (near_after (asked ++ [WResponse (Some (answer_to 2))])));
      reflexivity. }
  eapply rtc_l; [eapply (link_response _ _ _ _ _ _ (answer_to 1) [] final.(near)); reflexivity|].
  constructor.
Qed.

Example final_answers : final.(near).(answers) = [(2, Ok [2]); (1, Ok [1])].
Proof. reflexivity. Qed.

Definition client_token : option InternalToken := Some {| token := SampleWorld.secret |}.
End SampleLink.

Lemma world_link_answers_own_command_witness :
  SampleLink.final.(near).(answers) = [(2, Ok [2]); (1, Ok [1])] /\
  NoDup SampleLink.final.(near).(answers).*1.
Proof.
  split; [reflexivity|].
  exact (proj1 (world_link_answers_own_command SampleLink.parse SampleLink.envelope_bytes 4 4 SampleLink.echoes
    SampleLink.final SampleLink.final_reached)).
Defined.

Lemma remote_world_equals_in_process_witness :
  exists frame,
    @command_frame SampleEncodings.uuid_text SampleEncodings.command_protobuf SampleLink.client_token 1
      SampleWorld.request = Ok frame /\
    (let! response := @execute_world_frame _ _ SampleEncodings.uuid_text SampleEncodings.command_protobuf
       (fun _ => 0) SampleLink.envelope_bytes frame Sample.runtime
       (Some (owner_by "world-a" 1 SampleWorld.table)) SampleLink.client_token in
     ret (completion_result SampleLink.parse response))
    ≡ (let! result := @InProcessWorldClient_command _ _ SampleEncodings.uuid_text (fun _ => 0)
         {| client_runtime := Sample.runtime; client_ownership := Some (owner_by "world-a" 1 SampleWorld.table) |} true
         (with_request_timeout SampleWorld.request (wire_timeout SampleWorld.request.(request_timeout))) in
       ret (remote_result result)).
Proof.
  eexists. split; [reflexivity|].
  refine (@remote_world_equals_in_process _ _ SampleEncodings.uuid_text SampleEncodings.command_protobuf
    SampleEncodings.command_protobuf_laws (fun _ => 0) SampleLink.parse SampleLink.envelope_bytes
    SampleLink.client_token SampleLink.client_token 1 SampleWorld.request _ Sample.runtime _
    SampleLink.parse_envelope _ _ _ _).
  - reflexivity.
  - split; cbn.
    + cbv. split; congruence.
    + cbv. split; congruence.
    + constructor; [cbv; split; congruence|constructor].
    + intros s [= <-]. cbv. split; congruence.
    + intros e [= <-]. cbv. split; congruence.
    + intros i [= <-]. cbv. repeat split; congruence.
  - right. reflexivity.
  - cbv. congruence.
Defined.
