(* ===== verification/Concurrency.v ===== *)
(** * Concurrent computations

    What the services use of [tokio] and [futures_util] to run computations side by side:
    [FuturesUnordered] polls the members of a pool in any order, and a [select!] drops the branch that
    loses.  Every interleaving is the choice of a schedule.  [obeys] is a rely-guarantee logic for such
    computations: whatever the others do within a preorder [R], each poll and each drop of the
    computation stays within [R] too, and its result is as promised. *)

From S2P Require Import Prelude CoreError Futures.

Section combinators.
Context {St : Type}.

(** A computation that has not been polled. *)
Definition unpolled {A} (c : Async St A) : Future St A := Pending 0 id c.

(** The rest of a computation that has been polled. *)
Definition resumed {A} (f : Future St A) : Async St A := fun _ s => (f, s).

(** Dropping a computation. *)
Definition drop_future {A} (f : Future St A) (s : St) : St :=
  match f with Pending _ dropped _ => dropped s | _ => s end.

Definition drop_pool {A} (pool : list (Future St A)) (s : St) : St := foldl (fun s f => drop_future f s) s pool.

(** One poll: what is left of the computation. *)
Definition poll_once {A} (f : Future St A) : Async St (Future St A) :=
  match f with
  | Ready a => ret (Ready a)
  | Panicking => panic
  | Pending wait dropped resume => fun _ s =>
      (Pending wait dropped
         (fun now s => match resume now s with (Panicking, s) => (Panicking, s) | (f, s) => (Ready f, s) end), s)
  end.

(** [FuturesUnordered] drained by [next]: each number of the schedule polls that member of the pool; what
    is left then runs one member after another.  The results are in the order of completion. *)
Fixpoint sequentially {A} (pool : list (Future St A)) (done : list A) : Async St (list A) :=
  match pool with
  | [] => ret done
  | f :: pool => bind (guarded (drop_pool pool) (resumed f)) (fun a => sequentially pool (done ++ [a]))
  end.

Fixpoint unordered {A} (schedule : list nat) (pool : list (Future St A)) (done : list A) : Async St (list A) :=
  match schedule with
  | [] => sequentially pool done
  | i :: schedule =>
      match pool !! i with
      | None => unordered schedule pool done
      | Some f =>
          bind (guarded (drop_pool (delete i pool)) (poll_once f)) (fun f' =>
            match f' with
            | Ready a => unordered schedule (delete i pool) (done ++ [a])
            | _ => unordered schedule (<[i := f']> pool) done
            end)
      end
  end.

(** A branch of a [select!] that is dropped after [n] polls unless it is ready by then. *)
Fixpoint cut_future {A} (n : nat) (f : Future St A) (s : St) : Future St (option A) * St :=
  match f with
  | Ready a => (Ready (Some a), s)
  | Panicking => (Panicking, s)
  | Pending wait dropped resume =>
      (Pending wait dropped
         (match n with
          | O => fun _ s => (Ready None, dropped s)
          | S n => fun now s => let '(f, s) := resume now s in cut_future n f s
          end), s)
  end.

Definition cut {A} (n : nat) (c : Async St A) : Async St (option A) :=
  match n with
  | O => ret None
  | S n => fun now s => let '(f, s) := c now s in cut_future n f s
  end.
End combinators.

(** ** Rely and guarantee *)
Section rely_guarantee.
Context {St : Type} (R : St -> St -> Prop) `{!PreOrder R}.

(** [P] holds now and whatever the others do. *)
Definition henceforth (P : St -> Prop) (s : St) : Prop := forall s', R s s' -> P s'.

Lemma henceforth_later (P : St -> Prop) s s' : R s s' -> henceforth P s -> henceforth P s'.
Proof. intros Hs H t Ht. apply H. by trans s'. Qed.

Lemma henceforth_now (P : St -> Prop) s : henceforth P s -> P s.
Proof. intros H. by apply H. Qed.

Fixpoint obeys_future {A} (Q : A -> St -> Prop) (f : Future St A) (s : St) : Prop :=
  match f with
  | Ready a => Q a s
  | Panicking => True
  | Pending _ dropped resume => forall s', R s s' ->
      R s' (dropped s') /\ forall now, let '(f, s'') := resume now s' in R s' s'' /\ obeys_future Q f s''
  end.

(** From [s], or any state the others reach from it. *)
Definition obeys {A} (Q : A -> St -> Prop) (c : Async St A) (s : St) : Prop :=
  forall s', R s s' -> forall now, let '(f, s'') := c now s' in R s' s'' /\ obeys_future Q f s''.

Lemma obeys_future_later {A} (Q : A -> St -> Prop) (f : Future St A) s s' :
  (forall a, f = Ready a -> Q a s -> Q a s') -> R s s' -> obeys_future Q f s -> obeys_future Q f s'.
Proof.
  destruct f as [a| |wait dropped resume]; cbn; [by auto..|].
  intros _ Hs H t Ht. apply H. by trans s'.
Qed.

Lemma obeys_later {A} (Q : A -> St -> Prop) (c : Async St A) s s' : R s s' -> obeys Q c s -> obeys Q c s'.
Proof. intros Hs H t Ht. apply H. by trans s'. Qed.

Lemma obeys_future_mono {A} (Q Q' : A -> St -> Prop) (f : Future St A) s0 : (forall a s, R s0 s -> Q a s -> Q' a s) ->
  forall s, R s0 s -> obeys_future Q f s -> obeys_future Q' f s.
Proof.
  intros HQ. induction f as [a| |wait dropped resume IH] using future_ind; cbn; [by auto..|].
  intros s Hs H s' Hs'. destruct (H s' Hs') as [H1 H2]. split; [done|]. intros now. specialize (H2 now).
  specialize (IH now s'). destruct (resume now s') as [f s'']. destruct H2 as [H2 H3]. split; [done|].
  apply IH; [|done]. trans s; [done|]. by trans s'.
Qed.

Lemma obeys_mono {A} (Q Q' : A -> St -> Prop) (c : Async St A) s :
  (forall a s', R s s' -> Q a s' -> Q' a s') -> obeys Q c s -> obeys Q' c s.
Proof.
  intros HQ H s' Hs now. specialize (H s' Hs now). destruct (c now s') as [f s'']. destruct H as [H1 H2].
  split; [done|]. eapply (obeys_future_mono Q Q' f s); [done| |done]. by trans s'.
Qed.

Lemma obeys_bind_future {A B} (Q : B -> St -> Prop) (k : A -> Async St B) (f : Future St A) : forall now s,
  obeys_future (fun a s => obeys Q (k a) s) f s ->
  let '(g, t) := bind_future f k now s in R s t /\ obeys_future Q g t.
Proof.
  induction f as [a| |wait dropped resume IH] using future_ind; cbn; intros now s H.
  - by apply H.
  - done.
  - split; [done|]. intros s' Hs. destruct (H s' Hs) as [H1 H2]. split; [done|]. intros now'.
    specialize (H2 now'). specialize (IH now' s'). destruct (resume now' s') as [f s'']. destruct H2 as [H2 H3].
    cbn in IH. specialize (IH now' s'' H3). destruct (bind_future f k now' s'') as [g t]. destruct IH as [H4 H5].
    split; [by trans s''|done].
Qed.

Lemma obeys_bind {A B} (Q : B -> St -> Prop) (c : Async St A) (k : A -> Async St B) s :
  obeys (fun a s => obeys Q (k a) s) c s -> obeys Q (bind c k) s.
Proof.
  intros H s' Hs now. unfold bind. specialize (H s' Hs now). destruct (c now s') as [f s'']. destruct H as [H1 H2].
  pose proof (obeys_bind_future Q k f now s'' H2) as H3. destruct (bind_future f k now s'') as [g t].
  destruct H3. split; [by trans s''|done].
Qed.

Lemma obeys_ret {A} (Q : A -> St -> Prop) a s : henceforth (Q a) s -> obeys Q (ret a) s.
Proof. intros H s' Hs now. cbn. split; [done|]. by apply H. Qed.

Lemma obeys_panic {A} (Q : A -> St -> Prop) s : obeys Q panic s.
Proof. intros s' Hs now. by split. Qed.

Lemma obeys_now (Q : Z -> St -> Prop) s : (forall now s', R s s' -> Q now s') -> obeys Q instant_now s.
Proof. intros H s' Hs now. cbn. split; [done|]. by apply H. Qed.

Lemma obeys_access {A} (Q : A -> St -> Prop) (g : St -> A * St) s :
  (forall s', R s s' -> R s' (g s').2 /\ Q (g s').1 (g s').2) -> obeys Q (access g) s.
Proof. intros H s' Hs now. specialize (H s' Hs). unfold access. by destruct (g s'). Qed.

Lemma obeys_modify (Q : unit -> St -> Prop) (g : St -> St) s :
  (forall s', R s s' -> R s' (g s') /\ Q () (g s')) -> obeys Q (modify g) s.
Proof. exact (obeys_access Q (fun s => ((), g s)) s). Qed.

Lemma obeys_sleep (Q : unit -> St -> Prop) wait s : henceforth (Q ()) s -> obeys Q (sleep wait) s.
Proof.
  intros H s' Hs now. cbn. split; [done|]. intros t Ht. split; [done|]. intros _. split; [done|].
  apply H. by trans s'.
Qed.

Lemma obeys_resumed {A} (Q : A -> St -> Prop) (f : Future St A) s :
  (forall a s', R s s' -> Q a s -> Q a s') -> obeys_future Q f s -> obeys Q (resumed f) s.
Proof.
  intros Hst H s' Hs now. cbn. split; [done|]. eapply obeys_future_later; [|done|done].
  intros a _. by apply Hst.
Qed.

Lemma obeys_guard_future {A} (Q : A -> St -> Prop) on_drop (f : Future St A) :
  forall s, henceforth (fun s => R s (on_drop s)) s -> obeys_future Q f s ->
  let '(g, t) := guard_future on_drop f s in R s t /\ obeys_future Q g t.
Proof.
  induction f as [a| |wait dropped resume IH] using future_ind; cbn; intros s Hd H;
    [by auto|by split; [apply (henceforth_now (fun s => R s (on_drop s)))|]|].
  split; [done|]. intros s' Hs. destruct (H s' Hs) as [H1 H2].
  split; [trans (dropped s'); [done|]; apply Hd; by trans s'|]. intros now.
  specialize (H2 now). specialize (IH now s'). destruct (resume now s') as [f s'']. destruct H2 as [H2 H3].
  assert (Hd' : henceforth (fun s => R s (on_drop s)) s'') by (eapply henceforth_later; [|done]; by trans s').
  cbn in IH. specialize (IH s'' Hd' H3). destruct (guard_future on_drop f s'') as [g t]. destruct IH.
  split; [by trans s''|done].
Qed.

Lemma obeys_guarded {A} (Q : A -> St -> Prop) on_drop (c : Async St A) s :
  henceforth (fun s => R s (on_drop s)) s -> obeys Q c s -> obeys Q (guarded on_drop c) s.
Proof.
  intros Hd H s' Hs now. unfold guarded. specialize (H s' Hs now). destruct (c now s') as [f s''].
  destruct H as [H1 H2].
  assert (Hd' : henceforth (fun s => R s (on_drop s)) s'') by (eapply henceforth_later; [|done]; by trans s').
  pose proof (obeys_guard_future Q on_drop f s'' Hd' H2) as H3.
  destruct (guard_future on_drop f s'') as [g t]. destruct H3. split; [by trans s''|done].
Qed.

Lemma obeys_timeout_future {A} (Q : option A -> St -> Prop) deadline (f : Future St A) : forall now s,
  henceforth (Q None) s -> obeys_future (fun a => Q (Some a)) f s ->
  let '(g, t) := timeout_future deadline f now s in R s t /\ obeys_future Q g t.
Proof.
  induction f as [a| |wait dropped resume IH] using future_ind; cbn; intros now s HN H; [by auto..|].
  assert (Hres : forall s' now', R s s' ->
    let '(g, t) := (let '(f, s) := resume now' s' in timeout_future deadline f now' s) in R s' t /\ obeys_future Q g t).
  { intros s' now' Hs. destruct (H s' Hs) as [_ H2]. specialize (H2 now'). specialize (IH now' s').
    destruct (resume now' s') as [f s'']. destruct H2 as [H2 H3]. cbn in IH.
    assert (HN' : henceforth (Q None) s'') by (eapply henceforth_later; [|done]; by trans s').
    specialize (IH now' s'' HN' H3). destruct (timeout_future deadline f now' s''). destruct IH.
    split; [by trans s''|done]. }
  destruct (now + wait <=? deadline); cbn; (split; [done|]); intros s' Hs; destruct (H s' Hs) as [Hd _];
    (split; [done|]); intros now'; [by apply Hres|].
  destruct (now + wait <=? now'); [by apply Hres|]. split; [done|]. apply HN. by trans s'.
Qed.

Lemma obeys_timeout {A} (Q : option A -> St -> Prop) limit (c : Async St A) s :
  henceforth (Q None) s -> obeys (fun a => Q (Some a)) c s -> obeys Q (timeout limit c) s.
Proof.
  intros HN H s' Hs now. unfold timeout. specialize (H s' Hs now). destruct (c now s') as [f s''].
  destruct H as [H1 H2].
  assert (HN' : henceforth (Q None) s'') by (eapply henceforth_later; [|done]; by trans s').
  pose proof (obeys_timeout_future Q (now + limit) f now s'' HN' H2) as H3.
  destruct (timeout_future (now + limit) f now s''). destruct H3. split; [by trans s''|done].
Qed.

Lemma obeys_cut_future {A} (Q : option A -> St -> Prop) n : forall (f : Future St A) s,
  henceforth (Q None) s -> obeys_future (fun a => Q (Some a)) f s ->
  let '(g, t) := cut_future n f s in R s t /\ obeys_future Q g t.
Proof.
  induction n as [|n IH]; intros [a| |wait dropped resume] s HN H; cbn in *; try done;
    (split; [done|]); intros s' Hs; destruct (H s' Hs) as [Hd Hr]; (split; [done|]); intros now.
  - split; [done|]. apply HN. by trans s'.
  - specialize (Hr now). destruct (resume now s') as [f s'']. destruct Hr as [H2 H3].
    assert (HN' : henceforth (Q None) s'') by (eapply henceforth_later; [|done]; by trans s').
    specialize (IH f s'' HN' H3). destruct (cut_future n f s''). destruct IH. split; [by trans s''|done].
Qed.

Lemma obeys_cut {A} (Q : option A -> St -> Prop) n (c : Async St A) s :
  henceforth (Q None) s -> obeys (fun a => Q (Some a)) c s -> obeys Q (cut n c) s.
Proof.
  intros HN H. destruct n as [|n]; cbn [cut]; [by apply obeys_ret|].
  intros s' Hs now. specialize (H s' Hs now). destruct (c now s') as [f s'']. destruct H as [H1 H2].
  assert (HN' : henceforth (Q None) s'') by (eapply henceforth_later; [|done]; by trans s').
  pose proof (obeys_cut_future Q n f s'' HN' H2) as H3.
  destruct (cut_future n f s''). destruct H3. split; [by trans s''|done].
Qed.

(** The members of a pool, each of which keeps to [R] from now on. *)
Definition member {A} (f : Future St A) (s : St) : Prop := obeys_future (fun _ _ => True) f s.

Lemma member_later {A} (f : Future St A) s s' : R s s' -> member f s -> member f s'.
Proof. by apply obeys_future_later. Qed.

Lemma members_later {A} (pool : list (Future St A)) s s' :
  R s s' -> Forall (fun f => member f s) pool -> Forall (fun f => member f s') pool.
Proof. intros Hs H. eapply Forall_impl; [exact H|]. intros f. by apply member_later. Qed.

Lemma drop_member {A} (f : Future St A) s : member f s -> R s (drop_future f s).
Proof. destruct f; cbn; [done..|]. intros H. by apply H. Qed.

Lemma drop_members {A} (pool : list (Future St A)) : forall s,
  Forall (fun f => member f s) pool -> R s (drop_pool pool s).
Proof.
  induction pool as [|f pool IH]; intros s H; cbn; [done|]. apply Forall_cons in H as [Hf H].
  pose proof (drop_member f s Hf). trans (drop_future f s); [done|]. apply IH. by eapply members_later.
Qed.

Lemma drop_members_later {A} (pool : list (Future St A)) s :
  Forall (fun f => member f s) pool -> henceforth (fun s => R s (drop_pool pool s)) s.
Proof. intros H s' Hs. apply drop_members. by eapply members_later. Qed.

Lemma unpolled_member {A} (c : Async St A) s : obeys (fun _ _ => True) c s -> member (unpolled c) s.
Proof. intros H s' Hs. split; [done|]. intros now. by apply H. Qed.

Lemma obeys_poll_once {A} (f : Future St A) s : member f s -> obeys (fun f' s' => member f' s') (poll_once f) s.
Proof.
  destruct f as [a| |wait dropped resume]; intros H.
  - apply obeys_ret. by intros s' _.
  - apply obeys_panic.
  - intros s' Hs now. cbn. split; [done|]. intros t Ht. destruct (H t) as [Hd Hr]; [by trans s'|].
    split; [done|]. intros now'. specialize (Hr now'). by destruct (resume now' t) as [[] u].
Qed.

Lemma obeys_sequentially {A} (pool : list (Future St A)) : forall (done : list A) s,
  Forall (fun f => member f s) pool -> obeys (fun _ _ => True) (sequentially pool done) s.
Proof.
  induction pool as [|f pool IH]; intros done s H; cbn [sequentially]; [by apply obeys_ret|].
  apply Forall_cons in H as [Hf H]. apply obeys_bind, obeys_guarded; [by apply drop_members_later|].
  apply (obeys_mono (fun _ _ => True)); [|by apply obeys_resumed].
  intros a s' Hs _. apply IH. by eapply members_later.
Qed.

Lemma obeys_unordered {A} schedule : forall (pool : list (Future St A)) (done : list A) s,
  Forall (fun f => member f s) pool -> obeys (fun _ _ => True) (unordered schedule pool done) s.
Proof.
  induction schedule as [|i schedule IH]; intros pool done s H; cbn [unordered]; [by apply obeys_sequentially|].
  destruct (pool !! i) as [f|] eqn:Hi; [|by apply IH].
  apply obeys_bind, obeys_guarded; [apply drop_members_later; by apply Forall_delete|].
  apply (obeys_mono (fun f' s' => member f' s')); [|apply obeys_poll_once; by apply (Forall_lookup_1 _ _ i f H)].
  intros f' s' Hs Hf'. assert (H' : Forall (fun f => member f s') pool) by by eapply members_later.
  destruct f'; apply IH; first [by apply Forall_delete|by apply Forall_insert].
Qed.

(** A computation that keeps to [R] under every schedule does so when it is run. *)
Lemma obeys_run_future {A} (Q : A -> St -> Prop) others until (f : Future St A) :
  (forall now s, R s (others now s)) -> forall now s, obeys_future Q f s ->
  match run_future others until f now s with
  | (Finished a, s') => R s s' /\ Q a s'
  | (_, s') => R s s'
  end.
Proof.
  intros Ho. induction f as [a| |wait dropped resume IH] using future_ind; cbn; intros now s H; [done..|].
  set (t := now + Z.max 0 wait). destruct (t <=? until).
  - destruct (H _ (Ho t s)) as [_ H2]. specialize (H2 t). specialize (IH t (others t s)).
    pose proof (Ho t s). destruct (resume t (others t s)) as [f u]. destruct H2 as [H2 H3].
    specialize (IH t u H3). cbn in IH. assert (R s u) by by trans (others t s).
    destruct (run_future others until f t u) as [[] v]; [destruct IH; split; [|done]| |]; by trans u.
  - trans (others until s); [apply Ho|]. by apply H.
Qed.

Lemma obeys_run {A} (Q : A -> St -> Prop) others until (c : Async St A) now s :
  (forall now s, R s (others now s)) -> obeys Q c s ->
  match run others until c now s with
  | (Finished a, s') => R s s' /\ Q a s'
  | (_, s') => R s s'
  end.
Proof.
  intros Ho H. unfold run. destruct (c now s) as [f s'] eqn:Hc.
  assert (H' := H s (reflexivity s) now). rewrite Hc in H'. destruct H' as [H1 H2].
  pose proof (obeys_run_future Q others until f Ho now s' H2) as H3.
  destruct (run_future others until f now s') as [[] v]; [destruct H3; split; [|done]| |]; by trans s'.
Qed.
End rely_guarantee.

(** ** Runs that take no time

    A computation polled until it is ready at one instant; one that waits is dropped. *)
Section instant.
Context {St : Type}.

Definition instantly {A} (c : Async St A) (now : Z) (s : St) : Ended A * St := run (fun _ s => s) now c now s.

Definition then_ended {A B} (e : Ended A * St) (k : A -> St -> Ended B * St) : Ended B * St :=
  match e with
  | (Finished a, s) => k a s
  | (Unwound, s) => (Unwound, s)
  | (Dropped, s) => (Dropped, s)
  end.

Lemma instantly_bind_future {A B} (k : A -> Async St B) (f : Future St A) now : forall s,
  (let '(g, t) := bind_future f k now s in run_future (fun _ s => s) now g now t)
  = then_ended (run_future (fun _ s => s) now f now s) (fun a s => instantly (k a) now s).
Proof.
  induction f as [a| |wait dropped resume IH] using future_ind; intros s; cbn; [done..|].
  destruct (Z.leb_spec (now + Z.max 0 wait) now) as [Hw|]; [|done].
  replace (now + Z.max 0 wait) with now by lia. specialize (IH now s).
  destruct (resume now s) as [f t]. apply IH.
Qed.

Lemma instantly_bind {A B} (c : Async St A) (k : A -> Async St B) now s :
  instantly (bind c k) now s = then_ended (instantly c now s) (fun a s => instantly (k a) now s).
Proof.
  unfold instantly at 1 2, run, bind. destruct (c now s) as [f t].
  pose proof (instantly_bind_future k f now t) as H. destruct (bind_future f k now t). exact H.
Qed.

(** A member of a pool that is ready when it is polled. *)
Lemma instantly_poll {A} g (c : Async St A) now s a s' :
  c now s = (Ready a, s') -> instantly (guarded g (poll_once (unpolled c))) now s = (Finished (Ready a), s').
Proof.
  intros Hc. unfold instantly, run. cbn.
  by rewrite Z.add_0_r, Z.leb_refl, Hc.
Qed.

Lemma instantly_resumed {A} g (c : Async St A) now s a s' :
  c now s = (Ready a, s') -> instantly (guarded g (resumed (unpolled c))) now s = (Finished a, s').
Proof.
  intros Hc. unfold instantly, run. cbn.
  by rewrite Z.add_0_r, Z.leb_refl, Hc.
Qed.

(** A pool whose members are ready when polled, in any order: a property of the remaining members and the
    state that every member keeps holds of the empty pool at the end. *)
Context {A M : Type} (task : M -> Async St A) (now : Z) (Q : A -> Prop) (P : list M -> St -> Prop).
Context (Htask : forall pre m post s, P (pre ++ m :: post) s ->
  exists a s', task m now s = (Ready a, s') /\ Q a /\ P (pre ++ post) s').

Notation pool_of ms := ((fun m => unpolled (task m)) <$> ms).

Lemma instantly_sequentially ms : forall (done : list A) s, P ms s -> Forall Q done -> exists results s',
  instantly (sequentially (pool_of ms) done) now s = (Finished results, s') /\ Forall Q results /\ P [] s'.
Proof.
  induction ms as [|m ms IH]; intros done s HP HQ; cbn [fmap list_fmap sequentially]; [by exists done, s|].
  destruct (Htask [] m ms s HP) as (a & s' & Ha & Hq & HP'). rewrite instantly_bind.
  erewrite instantly_resumed by exact Ha. apply IH; [done|]. apply Forall_app. auto.
Qed.

Lemma instantly_unordered schedule : forall ms (done : list A) s, P ms s -> Forall Q done -> exists results s',
  instantly (unordered schedule (pool_of ms) done) now s = (Finished results, s') /\ Forall Q results /\ P [] s'.
Proof.
  induction schedule as [|i schedule IH]; intros ms done s HP HQ; cbn [unordered]; [by apply instantly_sequentially|].
  rewrite list_lookup_fmap. destruct (ms !! i) as [m|] eqn:Hi; cbn [fmap option_fmap option_map]; [|by apply IH].
  rewrite <-(take_drop_middle ms i m Hi) in HP. destruct (Htask _ _ _ _ HP) as (a & s' & Ha & Hq & HP').
  rewrite instantly_bind. erewrite instantly_poll by exact Ha. cbn [then_ended].
  rewrite <-list_fmap_delete, delete_take_drop. apply IH; [done|]. apply Forall_app. auto.
Qed.
End instant.
