(* ===== verification/OutboxDispatcher.v ===== *)
(** * The outbox dispatcher: [crates/elura-runtime/src/outbox.rs]

    The worker that takes events out of an outbox and hands each to the application's handler: a batch is
    leased, its deliveries are processed side by side, each lease is renewed while its handler runs, and
    the result acknowledges, retries or dead-letters the event.  The store, the idempotency store and the
    handler are interfaces, as in the code; the in-memory stores implement the first two.  Times are
    nanoseconds; the clock is the time of the poll.  What the environment decides is explicit: the order
    in which a batch's futures are polled, the renewals between two polls of a delivery, and when the
    shutdown signal changes. *)

From S2P Require Import Prelude Bytes CoreError Outbox Futures Concurrency.

(** ** Interfaces *)

(** [OutboxStore], the operations a dispatcher calls. *)
Class OutboxStore (St : Type) := {
  store_acquire : string -> Z -> Z -> Async St (Result (list OutboxDelivery));
  store_renew : OutboxDelivery -> Z -> Async St (Result unit);
  store_ack : OutboxDelivery -> Async St (Result unit);
  store_retry : OutboxDelivery -> Z -> string -> Async St (Result unit);
  store_dead_letter : OutboxDelivery -> string -> Async St (Result unit);
}.

Class EventHandler (St : Type) := handle : OutboxEvent -> Async St (Result unit).

Record IdempotencyStore (St : Type) := {
  seen : Z -> Async St (Result bool);
  mark : Z -> Z -> Async St (Result unit);
}.
Arguments seen {St} _ _.
Arguments mark {St} _ _ _.

(** ** Settings and counters *)

Record DispatcherConfig (St : Type) := {
  worker_id : string;
  batch_size : Z;
  lease : Z;
  poll_interval : Z;
  processing_timeout : Z;
  max_attempts : Z;
  initial_backoff : Z;
  max_backoff : Z;
  idempotency_ttl : Z;
  idempotency : option (IdempotencyStore St);
}.
Arguments worker_id {St} _.
Arguments batch_size {St} _.
Arguments lease {St} _.
Arguments poll_interval {St} _.
Arguments processing_timeout {St} _.
Arguments max_attempts {St} _.
Arguments initial_backoff {St} _.
Arguments max_backoff {St} _.
Arguments idempotency_ttl {St} _.
Arguments idempotency {St} _.

Definition DispatcherConfig_default {St} : DispatcherConfig St :=
  {| worker_id := "outbox-worker"; batch_size := 32; lease := 30 * 1000000000;
     poll_interval := 500 * 1000000; processing_timeout := 30 * 1000000000; max_attempts := 10;
     initial_backoff := 1 * 1000000000; max_backoff := 60 * 1000000000;
     idempotency_ttl := 3600 * 1000000000; idempotency := None |}.

Definition DispatcherConfig_validate {St} (self : DispatcherConfig St) : Result unit :=
  if trim_is_empty self.(worker_id) || (128 <? string_len self.(worker_id)) || (self.(batch_size) =? 0)
     || (4096 <? self.(batch_size)) || (self.(lease) =? 0) || (self.(poll_interval) =? 0)
     || (self.(processing_timeout) =? 0) || (self.(max_attempts) =? 0) || (self.(initial_backoff) =? 0)
     || (self.(max_backoff) <? self.(initial_backoff)) || (self.(idempotency_ttl) =? 0) then
    Err (InvalidConfig "invalid outbox dispatcher")
  else Ok ().

Record DispatcherStats : Type := {
  claimed : Z;
  completed_count : Z;
  retried : Z;
  dead_lettered : Z;
  duplicates : Z;
  failures : Z;
}.

Definition AtomicStats_default : DispatcherStats :=
  {| claimed := 0; completed_count := 0; retried := 0; dead_lettered := 0; duplicates := 0; failures := 0 |}.

(** [fetch_add(1)] on each counter. *)
Definition fetch_add (n : Z) : Z := wrap_u64 (n + 1).
Definition add_claimed (st : DispatcherStats) : DispatcherStats :=
  {| claimed := fetch_add st.(claimed); completed_count := st.(completed_count); retried := st.(retried);
     dead_lettered := st.(dead_lettered); duplicates := st.(duplicates); failures := st.(failures) |}.
Definition add_completed (st : DispatcherStats) : DispatcherStats :=
  {| claimed := st.(claimed); completed_count := fetch_add st.(completed_count); retried := st.(retried);
     dead_lettered := st.(dead_lettered); duplicates := st.(duplicates); failures := st.(failures) |}.
Definition add_retried (st : DispatcherStats) : DispatcherStats :=
  {| claimed := st.(claimed); completed_count := st.(completed_count); retried := fetch_add st.(retried);
     dead_lettered := st.(dead_lettered); duplicates := st.(duplicates); failures := st.(failures) |}.
Definition add_dead_lettered (st : DispatcherStats) : DispatcherStats :=
  {| claimed := st.(claimed); completed_count := st.(completed_count); retried := st.(retried);
     dead_lettered := fetch_add st.(dead_lettered); duplicates := st.(duplicates); failures := st.(failures) |}.
Definition add_duplicates (st : DispatcherStats) : DispatcherStats :=
  {| claimed := st.(claimed); completed_count := st.(completed_count); retried := st.(retried);
     dead_lettered := st.(dead_lettered); duplicates := fetch_add st.(duplicates); failures := st.(failures) |}.
Definition add_failures (st : DispatcherStats) : DispatcherStats :=
  {| claimed := st.(claimed); completed_count := st.(completed_count); retried := st.(retried);
     dead_lettered := st.(dead_lettered); duplicates := st.(duplicates); failures := fetch_add st.(failures) |}.

(** The shared state holds the dispatcher's counters. *)
Class Counters (St : Type) := {
  stats : St -> DispatcherStats;
  count : (DispatcherStats -> DispatcherStats) -> St -> St;
}.

(** The longest [Duration]. *)
Definition DURATION_MAX : Z := u64_max * 1000000000 + 999999999.

(** What the environment decides in one round of [run]: whether shutdown is requested at its start, the
    poll of the batch before which the signal changes and what it changes to ([None]: the sender is
    gone), the order of polls in the batch, the renewals before each poll of each delivery, and a change
    of the signal while the dispatcher is idle. *)
Record Round : Type := {
  requested : bool;
  changed : option (nat * option bool);
  schedule : list nat;
  ticks : nat -> nat -> nat;
  idle_changed : option (option bool);
}.

(** A signal that ends [run]: the sender is gone or requests shutdown. *)
Definition stops (signal : option bool) : bool := match signal with None => true | Some v => v end.

(** ** The dispatcher *)
Section Dispatcher.
Context {St : Type} `{!OutboxStore St, !EventHandler St, !Counters St} (config : DispatcherConfig St).

Definition Dispatcher_backoff (attempt : Z) : Z :=
  let shift := saturating_sub attempt 1 in
  let multiplier := if shift <? 32 then Z.shiftl 1 shift else u32_max in
  Z.min (saturating_mul DURATION_MAX config.(initial_backoff) multiplier) config.(max_backoff).

(** The part of [finish_delivery] that follows the handler. *)
Definition settle (delivery : OutboxDelivery) (result : Result unit) : Async St (Result unit) :=
  let already_processed := match result with Err AlreadyProcessed => true | _ => false end in
  if is_ok result || already_processed then
    let!? _ :=
      match config.(idempotency) with
      | None => ret (Ok ())
      | Some idempotency =>
          let! now := instant_now in
          match SystemTime_add now config.(idempotency_ttl) with
          | None => panic
          | Some expires_at => idempotency.(mark) delivery.(event).(id) expires_at
          end
      end in
    let!? _ := store_ack delivery in
    let! _ := modify (count add_completed) in
    ret (Ok ())
  else
    match result with
    | Ok _ => ret (Ok ())
    | Err error =>
        let! _ := modify (count add_failures) in
        if config.(max_attempts) <=? delivery.(attempt) then
          let!? _ := store_dead_letter delivery (Error_display error) in
          let! _ := modify (count add_dead_lettered) in
          ret (Ok ())
        else
          let! now := instant_now in
          match SystemTime_add now (Dispatcher_backoff delivery.(attempt)) with
          | None => panic
          | Some available_at =>
              let!? _ := store_retry delivery available_at (Error_display error) in
              let! _ := modify (count add_retried) in
              ret (Ok ())
          end
    end.

Definition Dispatcher_finish_delivery (delivery : OutboxDelivery) : Async St (Result unit) :=
  let! _ := modify (count add_claimed) in
  let!? duplicate :=
    match config.(idempotency) with
    | None => ret (Ok false)
    | Some idempotency => idempotency.(seen) delivery.(event).(id)
    end in
  if duplicate : bool then
    let!? _ := store_ack delivery in
    let! _ := modify (count add_duplicates) in
    ret (Ok ())
  else
    let! result := timeout config.(processing_timeout) (handle delivery.(event)) in
    settle delivery (default (Err Timeout) result).

(** [n] times round the loop by its renewal branch. *)
Definition renewal_interval : Z := Z.max (config.(lease) / 3) 1000000.

Fixpoint renewals (delivery : OutboxDelivery) (n : nat) : Async St (Result unit) :=
  match n with
  | O => ret (Ok ())
  | S n =>
      let! _ := sleep renewal_interval in
      let!? _ := store_renew delivery config.(lease) in
      renewals delivery n
  end.

(** The loop over the delivery's future; a renewal that fails drops it. *)
Fixpoint renewing (delivery : OutboxDelivery) (ticks : nat -> nat) (k : nat) (process : Future St (Result unit)) :
    Async St (Result unit) :=
  fun now s =>
    match process with
    | Ready result => (Ready result, s)
    | Panicking => (Panicking, s)
    | Pending wait dropped resume =>
        bind (guarded dropped (renewals delivery (ticks k))) (fun renewed =>
          match renewed with
          | Err e => let! _ := modify dropped in ret (Err e)
          | Ok _ => fun now' s =>
              (Pending (Z.max 0 (now + wait - now')) dropped
                 (fun now s => let '(process, s) := resume now s in renewing delivery ticks (S k) process now s), s)
          end) now s
    end.

Definition Dispatcher_process_delivery (ticks : nat -> nat) (delivery : OutboxDelivery) : Async St (Result unit) :=
  fun now s =>
    let '(process, s) := Dispatcher_finish_delivery delivery now s in
    renewing delivery ticks 0 process now s.

Definition first_error (results : list (Result unit)) : option Error :=
  head (omap (fun r => match r with Err e => Some e | Ok _ => None end) results).

Definition Dispatcher_run_once (schedule : list nat) (ticks : nat -> nat -> nat) : Async St (Result Z) :=
  let!? deliveries := store_acquire config.(worker_id) config.(batch_size) config.(lease) in
  let pending := imap (fun i delivery => unpolled (Dispatcher_process_delivery (ticks i) delivery)) deliveries in
  let! results := unordered schedule pending [] in
  ret (match first_error results with None => Ok (len deliveries) | Some e => Err e end).

(** [None]: still running when the rounds are over. *)
Fixpoint Dispatcher_run (rounds : list Round) : Async St (option (Result unit)) :=
  match rounds with
  | [] => ret None
  | round :: rounds =>
      if round.(requested) then ret (Some (Ok ()))
      else
        let run_once := Dispatcher_run_once round.(schedule) round.(ticks) in
        let! result :=
          match round.(changed) with
          | None => let! result := run_once in ret (inr result)
          | Some (polls, signal) => let! result := cut polls run_once in
              ret (match result with Some result => inr result | None => inl signal end)
          end in
        match result with
        | inl signal => if stops signal then ret (Some (Ok ())) else Dispatcher_run rounds
        | inr (Err e) => ret (Some (Err e))
        | inr (Ok n) =>
            if n =? 0 then
              match round.(idle_changed) with
              | Some signal => if stops signal then ret (Some (Ok ())) else Dispatcher_run rounds
              | None => let! _ := sleep config.(poll_interval) in Dispatcher_run rounds
              end
            else Dispatcher_run rounds
        end
  end.
End Dispatcher.

Record Dispatcher (St : Type) := {
  store : OutboxStore St;
  handler : EventHandler St;
  config : DispatcherConfig St;
}.

Definition Dispatcher_new {St} (store : OutboxStore St) (handler : EventHandler St) (config : DispatcherConfig St) :
    Result (Dispatcher St) :=
  let? _ := DispatcherConfig_validate config in
  Ok {| store := store; handler := handler; config := config |}.

(** ** The in-memory stores *)

(** [MemoryIdempotencyStore]: the completed events with their expirations, and the mutex. *)
Record MemoryIdempotencyStore : Type := {
  seen_until : gmap Z Z;
  seen_poisoned : bool;
}.

Definition MemoryIdempotencyStore_default : MemoryIdempotencyStore :=
  {| seen_until := ∅; seen_poisoned := false |}.

Definition MemoryIdempotencyStore_seen (self : MemoryIdempotencyStore) (now i : Z) :
    Result bool * MemoryIdempotencyStore :=
  if self.(seen_poisoned) then (Err (Internal "idempotency lock poisoned"), self)
  else
    let kept := filter (fun p => now < p.2) self.(seen_until) in
    (Ok (bool_decide (is_Some (kept !! i))), {| seen_until := kept; seen_poisoned := false |}).

Definition MemoryIdempotencyStore_mark (self : MemoryIdempotencyStore) (i expires_at : Z) :
    Result unit * MemoryIdempotencyStore :=
  if self.(seen_poisoned) then (Err (Internal "idempotency lock poisoned"), self)
  else (Ok (), {| seen_until := <[i := expires_at]> self.(seen_until); seen_poisoned := false |}).

(** A process with a dispatcher over the in-memory stores; [business] is what the handler acts on. *)
Record Node (B : Type) : Type := {
  outbox : MemoryOutbox;
  idempotent : MemoryIdempotencyStore;
  counters : DispatcherStats;
  business : B;
}.
Arguments outbox {B} _.
Arguments idempotent {B} _.
Arguments counters {B} _.
Arguments business {B} _.

Section Memory.
Context {B : Type} (new_v4 : Z -> nat -> Z).

Definition set_outbox (s : Node B) (o : MemoryOutbox) : Node B :=
  {| outbox := o; idempotent := s.(idempotent); counters := s.(counters); business := s.(business) |}.
Definition set_idempotent (s : Node B) (m : MemoryIdempotencyStore) : Node B :=
  {| outbox := s.(outbox); idempotent := m; counters := s.(counters); business := s.(business) |}.

#[export] Instance node_counters : Counters (Node B) := {
  stats := counters;
  count f s := {| outbox := s.(outbox); idempotent := s.(idempotent); counters := f s.(counters);
                  business := s.(business) |};
}.

(** A call on the outbox at the time of the poll. *)
Definition outbox_call {A} (f : Z -> MemoryOutbox -> Outcome A * MemoryOutbox) : Async (Node B) (Result A) :=
  fun now s =>
    match f now s.(outbox) with
    | (Returned r, o) => (Ready r, set_outbox s o)
    | (Panicked, o) => (Panicking, set_outbox s o)
    end.
Definition returned {A} (r : Result A * MemoryOutbox) : Outcome A * MemoryOutbox := (Returned r.1, r.2).

(** [new_v4] gives the tokens drawn by the acquisition at a time. *)
#[export] Instance memory_outbox_store : OutboxStore (Node B) := {
  store_acquire w limit lease := outbox_call (fun now o => MemoryOutbox_acquire o now (new_v4 now) w limit lease);
  store_renew d lease := outbox_call (fun now o => MemoryOutbox_renew o now now d lease);
  store_ack d := outbox_call (fun now o => returned (MemoryOutbox_ack o now d));
  store_retry d available_at reason :=
    outbox_call (fun now o => returned (MemoryOutbox_retry o now now d available_at reason));
  store_dead_letter d reason := outbox_call (fun now o => returned (MemoryOutbox_dead_letter o now now d reason));
}.

Definition memory_idempotency : IdempotencyStore (Node B) := {|
  seen i := fun now s =>
    let '(r, m) := MemoryIdempotencyStore_seen s.(idempotent) now i in (Ready r, set_idempotent s m);
  mark i expires_at := fun _ s =>
    let '(r, m) := MemoryIdempotencyStore_mark s.(idempotent) i expires_at in (Ready r, set_idempotent s m);
|}.
End Memory.

(** ** The dispatcher against the interfaces

    [R] bounds what the parts of the system do to the shared state, [valid] is its invariant and
    [applied s i] says that the effect of event [i] has been applied.  An event may be acknowledged or
    recorded as seen only when its effect has been applied, and only then does a handler report success. *)
Class DeliveryContract {St} `{!OutboxStore St, !Counters St} (R : St -> St -> Prop) (valid : St -> Prop)
    (applied : St -> Z -> Prop) := {
  contract_preorder :: PreOrder R;
  valid_stable s s' : R s s' -> valid s -> valid s';
  applied_stable s s' i : R s s' -> applied s i -> applied s' i;
  acquire_obeys w limit lease s : obeys R (fun _ _ => True) (store_acquire w limit lease) s;
  renew_obeys d lease s : obeys R (fun _ _ => True) (store_renew d lease) s;
  retry_obeys d t reason s : obeys R (fun _ _ => True) (store_retry d t reason) s;
  dead_letter_obeys d reason s : obeys R (fun _ _ => True) (store_dead_letter d reason) s;
  ack_obeys d s : applied s d.(event).(id) -> obeys R (fun _ _ => True) (store_ack d) s;
  count_obeys f s : R s (count f s);
}.

Class IdempotencyContract {St} (R : St -> St -> Prop) (valid : St -> Prop) (applied : St -> Z -> Prop)
    (store : IdempotencyStore St) := {
  seen_obeys i s : valid s -> obeys R (fun r s' => r = Ok true -> applied s' i) (store.(seen) i) s;
  mark_obeys i t s : applied s i -> obeys R (fun _ _ => True) (store.(mark) i t) s;
}.

(** A result that lets the dispatcher acknowledge. *)
Definition succeeded (r : Result unit) : Prop := r = Ok () \/ r = Err AlreadyProcessed.

Class HandlerContract {St} `{!EventHandler St} (R : St -> St -> Prop) (valid : St -> Prop)
    (applied : St -> Z -> Prop) :=
  handle_obeys e s : valid s -> obeys R (fun r s' => succeeded r -> applied s' e.(id)) (handle e) s.

Section Client.
Context {St : Type} `{!OutboxStore St, !EventHandler St, !Counters St} (R : St -> St -> Prop)
  (valid : St -> Prop) (applied : St -> Z -> Prop)
  `{!DeliveryContract R valid applied, !HandlerContract R valid applied}
  (config : DispatcherConfig St).
Context (Hidempotency : forall store, config.(idempotency) = Some store -> IdempotencyContract R valid applied store).

#[local] Instance contract_rely : PreOrder R := contract_preorder (valid := valid) (applied := applied).
Notation keeps := (obeys R (fun _ _ => True)).

Lemma keeps_ret {A} (a : A) s : keeps (ret a) s.
Proof. apply (obeys_ret R). by intros s' _. Qed.

Lemma keeps_try {A C} (c : Async St (Result A)) (k : A -> Async St (Result C)) s :
  keeps c s -> (forall a s', R s s' -> keeps (k a) s') ->
  keeps (bind c (fun r => match r with Ok a => k a | Err e => ret (Err e) end)) s.
Proof.
  intros Hc Hk. eapply (obeys_bind R). eapply (obeys_mono R); [|exact Hc].
  intros [a|e] s' Hs _; [by apply Hk|apply keeps_ret].
Qed.

Lemma keeps_then {A C} (c : Async St A) (k : A -> Async St C) s :
  keeps c s -> (forall a s', R s s' -> keeps (k a) s') -> keeps (bind c k) s.
Proof.
  intros Hc Hk. eapply (obeys_bind R). eapply (obeys_mono R); [|exact Hc].
  intros a s' Hs _. by apply Hk.
Qed.

Lemma keeps_now {A} (k : Z -> Async St A) s :
  (forall now s', R s s' -> keeps (k now) s') -> keeps (bind instant_now k) s.
Proof. intros Hk. apply keeps_then; [|done]. by apply (obeys_now R). Qed.

Lemma keeps_count {A} f (k : unit -> Async St A) s :
  (forall s', R s s' -> keeps (k ()) s') -> keeps (bind (modify (count f)) k) s.
Proof.
  intros Hk. apply keeps_then; [|intros [] s' Hs; by apply Hk].
  apply (obeys_modify R). intros s' _. split; [apply count_obeys|done].
Qed.

Lemma settle_keeps d r s : (succeeded r -> applied s d.(event).(id)) -> keeps (settle config d r) s.
Proof.
  intros Hr. unfold settle. destruct (is_ok r || _) eqn:Hok.
  - assert (Ha : applied s d.(event).(id)).
    { apply Hr. unfold succeeded. destruct r as [[]|[]]; try done; by auto. }
    apply keeps_try.
    + destruct (idempotency config) as [store|] eqn:Hi; [|apply keeps_ret].
      apply keeps_now. intros now s' Hs.
      destruct (SystemTime_add _ _); [|apply (obeys_panic R)].
      apply (mark_obeys (IdempotencyContract := Hidempotency _ eq_refl)). by eapply applied_stable.
    + intros _ s' Hs. apply keeps_try; [apply ack_obeys; by eapply applied_stable|].
      intros _ s'' _. apply keeps_count. intros. apply keeps_ret.
  - destruct r as [|e]; [apply keeps_ret|]. apply keeps_count. intros s' _. destruct (_ <=? _).
    + apply keeps_try; [apply dead_letter_obeys|]. intros _ s'' _. apply keeps_count. intros. apply keeps_ret.
    + apply keeps_now. intros now s'' _.
      destruct (SystemTime_add _ _); [|apply (obeys_panic R)].
      apply keeps_try; [apply retry_obeys|]. intros _ s3 _. apply keeps_count. intros. apply keeps_ret.
Qed.

Lemma finish_delivery_keeps d s : valid s -> keeps (Dispatcher_finish_delivery config d) s.
Proof.
  intros Hv. apply keeps_count. intros s1 Hs1. eapply (obeys_bind R).
  apply (obeys_mono R (fun r s' => r = Ok true -> applied s' d.(event).(id))).
  2: { destruct (idempotency config) as [store|] eqn:Hi; [|by apply (obeys_ret R)].
       apply (seen_obeys (IdempotencyContract := Hidempotency _ eq_refl)). by eapply valid_stable. }
  intros [[]|e] s' Hs' Hseen; [| |apply keeps_ret].
  - apply keeps_try; [apply ack_obeys; by apply Hseen|]. intros _ s'' _. apply keeps_count. intros. apply keeps_ret.
  - eapply (obeys_bind R).
    eapply (obeys_mono R (fun r s' => succeeded (default (Err Timeout) r) -> applied s' d.(event).(id))).
    + intros r s'' _ Hr. by apply settle_keeps.
    + apply (obeys_timeout R); [intros s'' _ [|]; done|]. apply handle_obeys.
      eapply valid_stable; [|exact Hv]. by trans s1.
Qed.

Lemma renewals_keeps d n : forall s, keeps (renewals config d n) s.
Proof.
  induction n as [|n IH]; intros s; cbn [renewals]; [apply keeps_ret|].
  apply keeps_then; [by apply (obeys_sleep R)|]. intros _ s' _.
  apply keeps_try; [apply renew_obeys|]. intros. apply IH.
Qed.

Lemma renewing_keeps d ticks (f : Future St (Result unit)) :
  forall k s, member R f s -> keeps (renewing config d ticks k f) s.
Proof.
  induction f as [r| |wait dropped resume IH] using future_ind; intros k s H s' Hs now; cbn [renewing]; [done..|].
  assert (Hd : forall t, R s t -> R t (dropped t)) by (intros t Ht; by apply H).
  refine (keeps_then _ _ s _ _ s' Hs now).
  - apply (obeys_guarded R); [exact Hd|apply renewals_keeps].
  - intros [_|e] s1 Hs1.
    + intros s2 Hs2 now2. split; [done|]. intros s3 Hs3.
      assert (R s s3) by (trans s2; [by trans s1|done]). destruct (H s3) as [Hd3 Hr]; [done|]. split; [done|].
      intros now3. specialize (Hr now3). specialize (IH now3 s3). destruct (resume now3 s3) as [f s4].
      destruct Hr as [Hs4 Hf]. cbn [fst] in IH. specialize (IH (S k) s4 Hf s4 (reflexivity s4) now3).
      destruct (renewing config d ticks (S k) f now3 s4). destruct IH. split; [by trans s4|done].
    + apply keeps_then; [|intros; apply keeps_ret]. apply (obeys_modify R). intros s2 Hs2. split; [|done].
      apply Hd. by trans s1.
Qed.

Lemma process_delivery_keeps d ticks s : valid s -> keeps (Dispatcher_process_delivery config ticks d) s.
Proof.
  intros Hv s' Hs now. unfold Dispatcher_process_delivery.
  pose proof (finish_delivery_keeps d s' (valid_stable _ _ Hs Hv) s' (reflexivity s') now) as H.
  destruct (Dispatcher_finish_delivery config d now s') as [f s'']. destruct H as [H1 H2].
  pose proof (renewing_keeps d ticks f 0 s'' H2 s'' (reflexivity s'') now) as H3.
  destruct (renewing config d ticks 0 f now s''). destruct H3. split; [by trans s''|done].
Qed.

Lemma run_once_keeps schedule ticks s : valid s -> keeps (Dispatcher_run_once config schedule ticks) s.
Proof.
  intros Hv. apply keeps_try; [apply acquire_obeys|]. intros ds s' Hs. apply keeps_then; [|intros; apply keeps_ret].
  apply (obeys_unordered R), Forall_forall. intros f (i & d & -> & Hi)%elem_of_lookup_imap.
  apply (unpolled_member R), process_delivery_keeps. by eapply valid_stable.
Qed.

Lemma dispatcher_run_keeps rounds : forall s, valid s -> keeps (Dispatcher_run config rounds) s.
Proof.
  induction rounds as [|round rounds IH]; intros s Hv; cbn [Dispatcher_run]; [apply keeps_ret|].
  destruct (requested round); [apply keeps_ret|]. apply keeps_then.
  - destruct (changed round) as [[polls signal]|]; (apply keeps_then; [|intros; apply keeps_ret]);
      [|by apply run_once_keeps]. apply (obeys_cut R); [by intros s' _|by apply run_once_keeps].
  - intros r s' Hs. apply (valid_stable _ _ Hs) in Hv.
    destruct r as [signal|[n|e]]; [destruct (stops signal); [apply keeps_ret|by apply IH]| |apply keeps_ret].
    destruct (n =? 0); [|by apply IH]. destruct (idle_changed round) as [signal|].
    + destruct (stops signal); [apply keeps_ret|by apply IH].
    + apply keeps_then; [by apply (obeys_sleep R)|]. intros _ s'' Hs'. apply IH. by eapply valid_stable.
Qed.
End Client.

(** ** The in-memory stores keep the contract *)
Section Safety.
Context {B : Type} (new_v4 : Z -> nat -> Z) (applied : B -> Z -> Prop).

(** Every acknowledged event, and every event recorded as seen, has had its effect. *)
Definition effects_applied (s : Node B) : Prop :=
  outbox_ok s.(outbox).(state)
  /\ (forall i, is_Some (s.(outbox).(state).(completed) !! i) -> applied s.(business) i)
  /\ (forall i, is_Some (s.(idempotent).(seen_until) !! i) -> applied s.(business) i).

Definition node_rely (s s' : Node B) : Prop :=
  (effects_applied s -> effects_applied s') /\ forall i, applied s.(business) i -> applied s'.(business) i.

#[export] Instance node_rely_preorder : PreOrder node_rely.
Proof. split; [by intros s|]. intros s1 s2 s3 [H1 H1'] [H2 H2']. split; auto. Qed.

(** Only an acknowledgement completes an event. *)
Lemma step_completes o c i :
  outbox_ok o.(state) -> is_Some ((Outbox.step o c).2.(state).(completed) !! i) ->
  is_Some (o.(state).(completed) !! i) \/ exists now d, c = Ack now d /\ d.(event).(id) = i.
Proof.
  intros Hok [e He]. destruct (step_follows o c Hok i) as (L & L' & HL & HL' & Hlc & _).
  assert (exists e', L' = Done e') as [e' ->].
  { unfold life in HL'. rewrite He in HL'. destruct (active _ !! _), (dead _ !! _); simplify_eq. eauto. }
  inversion Hlc; subst.
  - left. unfold life in HL.
    destruct (o.(state).(active) !! i), (o.(state).(dead) !! i), (o.(state).(completed) !! i); first [done|by eexists].
  - right. eauto.
Qed.

(** A call on the outbox keeps to the relation when it acknowledges only events whose effect is applied. *)
Lemma outbox_call_obeys {A} (f : Z -> MemoryOutbox -> Outcome A * MemoryOutbox) s :
  (forall now o, exists c, (f now o).2 = (Outbox.step o c).2
     /\ forall now' d, c = Ack now' d -> applied s.(business) d.(event).(id)) ->
  obeys node_rely (fun _ _ => True) (outbox_call f) s.
Proof.
  intros Hf s' Hs now. unfold outbox_call. destruct (Hf now s'.(outbox)) as (c & Hc & Hd).
  assert (Hr : node_rely s' (set_outbox s' (f now s'.(outbox)).2)).
  { split; [|done]. intros (Hok & Hcomp & Hseen). split_and!; cbn; [|intros i Hi|done]; rewrite Hc in *.
    - eapply follows_ok, step_follows, Hok.
    - destruct (step_completes _ _ _ Hok Hi) as [?|(now' & d & Hack & <-)]; [by apply Hcomp|].
      apply Hs. by eapply Hd. }
  destruct (f now s'.(outbox)) as [[r|] o]; cbn in *; auto.
Qed.

#[export] Instance memory_delivery_contract :
  DeliveryContract (OutboxStore0 := memory_outbox_store new_v4) node_rely effects_applied
    (fun s i => applied s.(business) i).
Proof.
  split.
  - apply _.
  - by intros s s' [H _].
  - intros s s' i [_ H]. apply H.
  - intros. apply outbox_call_obeys. intros now o. exists (Acquire now (new_v4 now) w limit lease0).
    split; [|done]. cbn. by destruct (MemoryOutbox_acquire _ _ _ _ _ _) as [[[]|] o'].
  - intros. apply outbox_call_obeys. intros now o. by exists (Renew now now d lease0).
  - intros. apply outbox_call_obeys. intros now o. by exists (Retry now now d t reason).
  - intros. apply outbox_call_obeys. intros now o. by exists (DeadLetterDelivery now now d reason).
  - intros. apply outbox_call_obeys. intros now o. exists (Ack now d). split; [done|]. by intros now' d' [= _ <-].
  - by intros f s.
Qed.

#[export] Instance memory_idempotency_contract :
  IdempotencyContract node_rely effects_applied (fun s i => applied s.(business) i) memory_idempotency.
Proof.
  split.
  - intros i s Hv s' Hs now. cbn. unfold MemoryIdempotencyStore_seen.
    destruct (seen_poisoned _); cbn; [by split; [split|]|].
    set (kept := filter _ _). assert (Hk : forall j, is_Some (kept !! j) -> is_Some (seen_until (idempotent s') !! j)).
    { intros j [t Ht]. apply map_lookup_filter_Some in Ht as [Ht _]. eauto. }
    split; [split; [|done]|].
    + intros (Hok & Hc & Hseen). split_and!; [done..|]. intros j Hj. by apply Hseen, Hk.
    + intros [= Hi%bool_decide_eq_true]. destruct Hs as [Hs _]. destruct (Hs Hv) as (_ & _ & Hseen). by apply Hseen, Hk.
  - intros i t s Ha s' [_ Hs] now. cbn. unfold MemoryIdempotencyStore_mark.
    destruct (seen_poisoned _); cbn; [by split; [split|]|]. split; [split; [|done]|done].
    intros (Hok & Hc & Hseen). split_and!; [done..|]. cbn. intros j Hj.
    destruct (decide (j = i)) as [->|]; [by apply Hs|]. rewrite lookup_insert_ne in Hj by done. by apply Hseen.
Qed.
End Safety.

(** C3: The dispatcher acknowledges only what has been handled.  Let a handler report success ([Ok], or
    [AlreadyProcessed]) only when it has applied the effect of its event.  Then whatever the settings, with
    the idempotency store or without, and however the polls of a batch, the lease renewals, the handler
    timeouts, the shutdown signal and the other users of the stores interleave, at every end of the
    dispatcher (it returns, panics or is dropped halfway) each completed event of the outbox, and each
    event recorded as seen, has had its effect applied. *)
Theorem dispatcher_acknowledges_only_handled {B} (new_v4 : Z -> nat -> Z) (applied : B -> Z -> Prop)
    (handler : EventHandler (Node B)) (config : DispatcherConfig (Node B)) (rounds : list Round)
    (others : Z -> Node B -> Node B) (until now : Z) (s : Node B)
  (Hhandler : forall e s, effects_applied applied s ->
     obeys (node_rely applied) (fun r s' => succeeded r -> applied s'.(business) e.(id)) (handler e) s)
  (Hconfig : config.(idempotency) = None \/ config.(idempotency) = Some memory_idempotency)
  (Hothers : forall t s, node_rely applied s (others t s))
  (Hinit : effects_applied applied s) :
  let store := memory_outbox_store new_v4 in
  effects_applied applied (run others until (Dispatcher_run config rounds) now s).2.
Proof.
  intros store. assert (Hh : HandlerContract (node_rely applied) (effects_applied applied)
    (fun s i => applied s.(business) i)) by exact Hhandler.
  assert (H : obeys (node_rely applied) (fun _ _ => True) (Dispatcher_run config rounds) s).
  { apply (dispatcher_run_keeps _ (effects_applied applied) (fun s i => applied s.(business) i)); [|done].
    intros st Hst. destruct Hconfig as [Hc|Hc]; rewrite Hc in Hst; [done|]. injection Hst as <-. apply _. }
  pose proof (obeys_run _ _ others until _ now s Hothers H) as Hr.
  destruct (run others until _ now s) as [[r| |] s']; [destruct Hr as [Hr _]| |]; by apply Hr.
Qed.

(** ** Witness: a handler that records its events *)

Definition recorded (b : gset Z) (i : Z) : Prop := i ∈ b.

Definition recording_handler : EventHandler (Node (gset Z)) := fun e =>
  let! _ := sleep 5 in
  access (fun s => (Ok (), {| outbox := s.(outbox); idempotent := s.(idempotent); counters := s.(counters);
                              business := {[ e.(id) ]} ∪ s.(business) |})).

Definition mail_node : Node (gset Z) :=
  {| outbox := (MemoryOutbox_append MemoryOutbox_new mail).2; idempotent := MemoryIdempotencyStore_default;
     counters := AtomicStats_default; business := ∅ |}.

Definition recording_config : DispatcherConfig (Node (gset Z)) :=
  {| worker_id := "one"; batch_size := 4; lease := 3000000000; poll_interval := 500; processing_timeout := 100;
     max_attempts := 3; initial_backoff := 10; max_backoff := 60; idempotency_ttl := 1000;
     idempotency := Some memory_idempotency |}.

(** A round in which the lease is renewed once before the handler finishes. *)
Definition quiet_round : Round :=
  {| requested := false; changed := None; schedule := [0%nat]; ticks := fun _ _ => 1%nat; idle_changed := None |}.

Lemma recording_obeys e s :
  obeys (node_rely recorded) (fun r s' => succeeded r -> recorded s'.(business) e.(id)) (recording_handler e) s.
Proof.
  apply (obeys_bind (node_rely recorded)), (obeys_sleep (node_rely recorded)). intros s1 _.
  apply (obeys_access (node_rely recorded)). intros s2 _. unfold recorded. cbn. split; [split; cbn|set_solver].
  - intros (Hok & Hc & Hs). split_and!; cbn; [done|..]; intros i Hi; apply elem_of_union_r; [by apply Hc|by apply Hs].
  - set_solver.
Qed.

Lemma mail_node_applied : effects_applied recorded mail_node.
Proof.
  split_and!.
  - pose proof (append_follows MemoryOutbox_new mail empty_ok) as H. by apply follows_ok in H.
  - intros i Hi. vm_compute in Hi. by destruct Hi.
  - intros i Hi. vm_compute in Hi. by destruct Hi.
Qed.

Lemma dispatcher_acknowledges_only_handled_witness :
  let store := memory_outbox_store (fun _ _ => 7) in
  let handler := recording_handler in
  let s := (run (fun _ s => s) 10000000000 (Dispatcher_run recording_config [quiet_round]) 100 mail_node).2 in
  is_Some (s.(outbox).(state).(completed) !! 1) /\ effects_applied recorded s.
Proof.
  cbn zeta. split; [vm_compute; by eexists|].
  apply (dispatcher_acknowledges_only_handled (fun _ _ => 7) recorded recording_handler).
  - intros e s _. apply recording_obeys.
  - right. reflexivity.
  - intros t s. reflexivity.
  - apply mail_node_applied.
Defined.

(** ** Events that keep failing *)
Section Failing.
Context {B : Type} (new_v4 : Z -> nat -> Z) (config : DispatcherConfig (Node B)) (error : Error).

(** A handler that fails at once. *)
#[local] Instance failing_handler : EventHandler (Node B) := fun _ => ret (Err error).
#[local] Instance failing_store : OutboxStore (Node B) := memory_outbox_store new_v4.

Context (Hidempotency : config.(idempotency) = None) (Herror : error <> AlreadyProcessed).
Context (Hvalid : DispatcherConfig_validate config = Ok ()).
Context (Hlease : 0 <= config.(lease)) (Hbatch : 0 <= config.(batch_size)).
Context (Hattempts : 0 <= config.(max_attempts) <= u32_max) (Hinitial : 0 <= config.(initial_backoff)).

Lemma backoff_bounds attempt : 0 <= attempt -> 0 <= Dispatcher_backoff config attempt <= config.(max_backoff).
Proof.
  intros Ha. unfold Dispatcher_backoff, saturating_mul, DURATION_MAX, saturating_sub, u64_max, u32_max.
  assert (Hm : 0 <= config.(max_backoff)).
  { unfold DispatcherConfig_validate in Hvalid. destruct (_ || _) eqn:Hb; [done|]. breflect. lia. }
  assert (0 <= (if Z.max (attempt - 1) 0 <? 32 then Z.shiftl 1 (Z.max (attempt - 1) 0) else 4294967295)).
  { destruct (_ <? _); [|lia]. apply Z.shiftl_nonneg. lia. }
  nia.
Qed.

(** What is left of an event whose delivery failed. *)
Definition after_failure (now : Z) (d : OutboxDelivery) (entry : Entry) (st : State) : State :=
  if config.(max_attempts) <=? d.(attempt) then
    {| active := delete d.(event).(id) st.(active);
       dead := <[entry.(entry_event).(id) :=
                 {| dead_event := entry.(entry_event); dead_attempt := entry.(entry_attempt);
                    reason := Error_display error; failed_at := now |}]> st.(dead);
       completed := st.(completed) |}
  else
    set_active st (<[d.(event).(id) :=
      Outbox.retried entry (Z.max (now + Dispatcher_backoff config d.(attempt)) now) (Error_display error)]> st.(active)).

Lemma failing_delivery ticks d now s entry :
  s.(outbox).(poisoned) = false -> s.(outbox).(state).(active) !! d.(event).(id) = Some entry ->
  Outbox.holds d now entry -> 0 <= d.(attempt) -> now + config.(max_backoff) <= SYSTEM_TIME_MAX ->
  string_len (Error_display error) <= 4096 ->
  exists s', Dispatcher_process_delivery config ticks d now s = (Ready (Ok ()), s')
    /\ s'.(outbox) = set_state s.(outbox) (after_failure now d entry s.(outbox).(state)).
Proof.
  intros Hp Ha Hh Hat Htime Hlen. pose proof (backoff_bounds d.(attempt) Hat) as Hb.
  assert (Hl : MemoryOutbox_leased s.(outbox).(state) d now = Ok entry) by by apply leased_spec.
  assert (Hr : validate_failure_reason (Error_display error) = Ok ()).
  { unfold validate_failure_reason. by destruct (Z.ltb_spec 4096 (string_len (Error_display error))); [lia|]. }
  assert (Hadd : SystemTime_add now (Dispatcher_backoff config d.(attempt))
                 = Some (now + Dispatcher_backoff config d.(attempt))).
  { apply checked_add_Some. split; [done|lia]. }
  unfold Dispatcher_process_delivery, Dispatcher_finish_delivery, settle, after_failure. rewrite Hidempotency.
  assert (He : match error with AlreadyProcessed => true | _ => false end = false) by by destruct error.
  cbn. rewrite He. cbn. destruct (config.(max_attempts) <=? d.(attempt)); cbn.
  - unfold outbox_call, returned, MemoryOutbox_dead_letter, MemoryOutbox_lock. cbn. rewrite Hr, Hp, Hl. cbn.
    rewrite Ha. cbn. eexists. by split.
  - rewrite Hadd. unfold outbox_call, returned, MemoryOutbox_retry, MemoryOutbox_lock. cbn. rewrite Hr, Hp, Hl. cbn.
    eexists. by split.
Qed.

(** An error whose text is longer than the store accepts: the delivery fails, the event is neither retried
    nor dead-lettered, whatever the attempt. *)
Lemma long_error_is_not_recorded ticks d now s :
  4096 < string_len (Error_display error) -> 0 <= d.(attempt) -> now + config.(max_backoff) <= SYSTEM_TIME_MAX ->
  exists s', Dispatcher_process_delivery config ticks d now s
      = (Ready (Err (InvalidConfig "outbox failure reason exceeds limit")), s')
    /\ s'.(outbox) = s.(outbox).
Proof.
  intros Hlen Hat Htime. pose proof (backoff_bounds d.(attempt) Hat) as Hb.
  assert (Hr : validate_failure_reason (Error_display error) = Err (InvalidConfig "outbox failure reason exceeds limit")).
  { unfold validate_failure_reason. by destruct (Z.ltb_spec 4096 (string_len (Error_display error))); [|lia]. }
  assert (Hadd : SystemTime_add now (Dispatcher_backoff config d.(attempt))
                 = Some (now + Dispatcher_backoff config d.(attempt))).
  { apply checked_add_Some. split; [done|lia]. }
  unfold Dispatcher_process_delivery, Dispatcher_finish_delivery, settle. rewrite Hidempotency.
  assert (He : match error with AlreadyProcessed => true | _ => false end = false) by by destruct error.
  cbn. rewrite He. cbn. destruct (config.(max_attempts) <=? d.(attempt)); cbn.
  - unfold outbox_call, returned, MemoryOutbox_dead_letter. cbn. rewrite Hr. cbn. eexists. by split.
  - rewrite Hadd. unfold outbox_call, returned, MemoryOutbox_retry. cbn. rewrite Hr. cbn. eexists. by split.
Qed.
(** An active event that the next batch takes: not leased, available, with at least [low] attempts. *)
Definition due (low now : Z) (entry : Entry) : Prop :=
  low <= entry.(entry_attempt) < config.(max_attempts)
  /\ entry.(entry_event).(available_at) <= now /\ entry.(entry_lease_until) = None.

Definition dead_with (st : State) (i : Z) : Prop :=
  exists letter, st.(dead) !! i = Some letter /\ letter.(reason) = Error_display error
    /\ config.(max_attempts) <= letter.(dead_attempt).

Notation delivery_id m := (m.2.(event).(id)).

(** The state during a batch at [now], of which the members [ms] have not been processed; [D] are the
    events under observation. *)
Record batch_inv (D : gset Z) (low now : Z) (ms : list ((nat -> nat) * OutboxDelivery)) (s : Node B) : Prop := {
  batch_live : s.(outbox).(poisoned) = false;
  batch_ok : outbox_ok s.(outbox).(state);
  batch_fits : Z.of_nat (size s.(outbox).(state).(active)) <= config.(batch_size);
  batch_nodup : NoDup ((fun m => delivery_id m) <$> ms);
  batch_leased m : m ∈ ms -> exists entry, s.(outbox).(state).(active) !! delivery_id m = Some entry
    /\ Outbox.holds m.2 now entry /\ entry.(entry_attempt) = m.2.(attempt) /\ 0 <= m.2.(attempt)
    /\ (m.2.(attempt) < config.(max_attempts) -> low < m.2.(attempt));
  batch_rest i entry : s.(outbox).(state).(active) !! i = Some entry ->
    i ∈ (fun m => delivery_id m) <$> ms \/ due (low + 1) (now + config.(max_backoff)) entry;
  batch_kept i : i ∈ D -> is_Some (s.(outbox).(state).(active) !! i) \/ dead_with s.(outbox).(state) i;
}.

Lemma after_failure_ok now d entry st :
  outbox_ok st -> st.(active) !! d.(event).(id) = Some entry -> Outbox.holds d now entry ->
  outbox_ok (after_failure now d entry st).
Proof.
  intros Hok Ha Hh. destruct (ok_active _ _ _ Hok Ha) as [HL Hid].
  pose proof (proj1 (life_Live _ _ _) HL) as (_ & Hd & Hc). unfold after_failure. destruct (_ <=? _).
  - intros i. unfold life. cbn. rewrite Hid. destruct (decide (i = d.(event).(id))) as [->|Hi].
    + rewrite lookup_delete_eq, lookup_insert_eq, Hc. eexists. split; [done|]. by intros e [= <-].
    + rewrite lookup_delete_ne, lookup_insert_ne by done. apply Hok.
  - eapply follows_ok, (update_follows (Retry now now d
      (now + Dispatcher_backoff config d.(attempt)) (Error_display error))); [done|done| |done].
    by apply life_retry.
Qed.

Lemma batch_step D low now pre m post s :
  0 <= low -> now + config.(max_backoff) <= SYSTEM_TIME_MAX -> string_len (Error_display error) <= 4096 ->
  batch_inv D low now (pre ++ m :: post) s ->
  exists r s', Dispatcher_process_delivery config m.1 m.2 now s = (Ready r, s') /\ r = Ok ()
    /\ batch_inv D low now (pre ++ post) s'.
Proof.
  intros Hlow Htime Hlen [Hp Hok Hsize Hnd Hleased Hrest Hkept].
  destruct (Hleased m) as (entry & Ha & Hh & Hat & Hpos & Hprog); [set_solver|].
  destruct (failing_delivery m.1 m.2 now s entry) as (s' & Hrun & Hs'); [done..|].
  exists (Ok ()), s'. split_and!; [done|done|]. pose proof (backoff_bounds _ Hpos) as Hb.
  destruct (ok_active _ _ _ Hok Ha) as [_ Hid].
  rewrite fmap_app, fmap_cons in Hnd. pose proof (Permutation_middle (((fun m => delivery_id m) <$> pre))
    ((fun m => delivery_id m) <$> post) (delivery_id m)) as Hperm.
  rewrite <-Hperm, <-fmap_app in Hnd. apply NoDup_cons in Hnd as [Hnot Hnd].
  assert (Hother : forall i, i <> delivery_id m ->
    (after_failure now m.2 entry s.(outbox).(state)).(active) !! i = s.(outbox).(state).(active) !! i
    /\ (after_failure now m.2 entry s.(outbox).(state)).(dead) !! i = s.(outbox).(state).(dead) !! i).
  { intros i Hi. unfold after_failure. destruct (_ <=? _); cbn; split;
      rewrite ?lookup_delete_ne, ?lookup_insert_ne by congruence; done. }
  split; rewrite ?Hs'; cbn.
  - done.
  - by apply after_failure_ok.
  - unfold after_failure. destruct (_ <=? _); cbn.
    + rewrite map_size_delete_Some by eauto. lia.
    + rewrite map_size_insert_Some by eauto. done.
  - done.
  - intros m' Hm'. destruct (Hleased m') as (entry' & Ha' & H'); [set_solver|]. exists entry'. split; [|done].
    destruct (decide (delivery_id m' = delivery_id m)) as [Heq|Hne]; [|by rewrite (proj1 (Hother _ Hne))].
    destruct Hnot. apply list_elem_of_fmap. by exists m'.
  - intros i entry' Hi. destruct (decide (i = delivery_id m)) as [->|Hne].
    + right. revert Hi. unfold after_failure, due. destruct (Z.leb_spec config.(max_attempts) m.2.(attempt)); cbn.
      * by rewrite lookup_delete_eq.
      * rewrite lookup_insert_eq. intros [= <-]. cbn. rewrite Hat. specialize (Hprog ltac:(lia)). split_and!; [lia..|done].
    + rewrite (proj1 (Hother _ Hne)) in Hi. destruct (Hrest _ _ Hi) as [Hin|]; [|by right]. left. set_solver.
  - intros i Hi. destruct (decide (i = delivery_id m)) as [->|Hne].
    + unfold after_failure, dead_with. destruct (Z.leb_spec config.(max_attempts) m.2.(attempt)); cbn.
      * right. rewrite Hid, lookup_insert_eq. eexists. split_and!; [done|done|]. cbn. by rewrite Hat.
      * left. rewrite lookup_insert_eq. by eexists.
    + unfold dead_with. rewrite (proj1 (Hother _ Hne)), (proj2 (Hother _ Hne)). by apply Hkept.
Qed.
(** The state before a batch at [now]. *)
Record round_inv (D : gset Z) (low now : Z) (s : Node B) : Prop := {
  round_live : s.(outbox).(poisoned) = false;
  round_ok : outbox_ok s.(outbox).(state);
  round_fits : Z.of_nat (size s.(outbox).(state).(active)) <= config.(batch_size);
  round_due i entry : s.(outbox).(state).(active) !! i = Some entry -> due low now entry;
  round_kept i : i ∈ D -> is_Some (s.(outbox).(state).(active) !! i) \/ dead_with s.(outbox).(state) i;
}.

Lemma due_acquirable low now entry : due low now entry -> acquirable now entry = true.
Proof. intros (_ & Ha & Hl). unfold acquirable. rewrite Hl, andb_true_r. by apply Z.leb_le. Qed.

(** A batch that has room takes every event that can be acquired. *)
Lemma acquire_ids_all st limit now i entry :
  Z.of_nat (size st.(active)) <= limit -> st.(active) !! i = Some entry -> acquirable now entry = true ->
  i ∈ acquire_ids st limit now.
Proof.
  intros Hsize Ha Hacq. rewrite acquire_ids_candidates, take_ge.
  - apply list_elem_of_fmap. exists (i, entry). split; [done|]. by apply elem_of_candidates.
  - unfold candidates. rewrite length_sort_by. etrans; [apply length_filter|]. rewrite length_map_to_list. lia.
Qed.

Lemma config_parts :
  trim_is_empty config.(worker_id) = false /\ string_len config.(worker_id) <= 128
  /\ 0 < config.(batch_size) <= 4096 /\ 0 < config.(lease).
Proof.
  unfold DispatcherConfig_validate in Hvalid. destruct (_ || _) eqn:Hb; [done|]. breflect.
  split_and!; [done|lia..].
Qed.

(** The batch as it is leased. *)
Lemma batch_start D low now s ds o' ticks :
  0 <= low -> now + config.(lease) <= SYSTEM_TIME_MAX -> round_inv D low now s ->
  MemoryOutbox_acquire s.(outbox) now (new_v4 now) config.(worker_id) config.(batch_size) config.(lease)
    = (Returned (Ok ds), o') ->
  batch_inv D low now (imap (fun i d => (ticks i, d)) ds) (set_outbox s o').
Proof.
  intros Hlow Htime [Hp Hok Hfits Hdue Hkept] Hacq. pose proof config_parts as (_ & _ & _ & Hpos).
  pose proof (acquire_delivered_ids _ _ _ _ _ _ _ _ Hok Hacq) as Hids.
  pose proof (acquire_follows s.(outbox) now (new_v4 now) config.(worker_id) config.(batch_size) config.(lease) Hok) as Hf.
  assert (Hdel := fun d => acquire_delivered _ _ _ _ _ _ _ _ d Hok Hacq).
  assert (Hc := acquire_cases s.(outbox) now (new_v4 now) config.(worker_id) config.(batch_size) config.(lease)).
  cbn zeta in Hc. rewrite Hacq in Hc, Hf. destruct Hc as (m' & Ho' & _ & Hout & Hin).
  assert (Hm : (fun m => delivery_id m) <$> imap (fun i d => (ticks i, d)) ds
               = acquire_ids s.(outbox).(state) config.(batch_size) now).
  { rewrite <-Hids, fmap_imap. exact (imap_const (fun d => d.(event).(id)) ds). }
  assert (Hdom : forall i, is_Some (m' !! i) <-> is_Some (s.(outbox).(state).(active) !! i)).
  { intros i. destruct (decide (i ∈ acquire_ids s.(outbox).(state) config.(batch_size) now)) as [Hi|Hi].
    - apply list_elem_of_lookup in Hi as [k Hk]. destruct (Hin k i Hk) as (entry & u & _ & -> & _ & ->). by split; eexists.
    - by rewrite Hout. }
  split; cbn; subst o'; cbn.
  - done.
  - by apply follows_ok in Hf.
  - replace (size m') with (size s.(outbox).(state).(active)); [done|]. rewrite <-!size_dom. f_equal.
    apply set_eq. intros i. by rewrite !elem_of_dom, Hdom.
  - rewrite Hm. apply acquire_ids_nodup.
  - intros m (k & d & -> & Hk)%elem_of_lookup_imap. cbn.
    destruct (Hdel d) as (entry & j & u & Ha & _ & Hu & Hd & Hl); [by eapply list_elem_of_lookup_2|].
    apply checked_add_Some in Hu as [-> _]. exists (lease_of entry config.(worker_id) d.(token) (now + config.(lease))).
    destruct (Hdue _ _ Ha) as ((H1 & H2) & _). unfold saturating_add in *.
    split_and!; [done| |by rewrite Hd| |]; rewrite Hd; cbn; unfold saturating_add; [|width; lia..].
    split_and!; [done..|]. eexists. split; [done|]. lia.
  - intros i entry Hi. left. rewrite Hm. destruct (proj1 (Hdom i) (mk_is_Some _ _ Hi)) as [entry0 Ha].
    eapply acquire_ids_all; [done|done|]. by eapply due_acquirable, Hdue.
  - intros i Hi. rewrite Hdom. unfold dead_with. cbn. by apply Hkept.
Qed.

Lemma failing_round D low now s schedule ticks :
  0 <= low -> now + config.(lease) <= SYSTEM_TIME_MAX -> now + config.(max_backoff) <= SYSTEM_TIME_MAX ->
  string_len (Error_display error) <= 4096 -> round_inv D low now s ->
  exists n s', instantly (Dispatcher_run_once config schedule ticks) now s = (Finished (Ok n), s')
    /\ round_inv D (low + 1) (now + config.(max_backoff)) s'.
Proof.
  intros Hlow Htime Htime' Hlen Hs. pose proof config_parts as (Hw & Hwl & Hb & Hl).
  destruct (acquire_returns s.(outbox) now (new_v4 now) config.(worker_id) config.(batch_size) config.(lease)
    (now + config.(lease))) as (ds & o' & Hacq); [done|done|done|lia|by apply checked_add_Some|apply Hs|].
  pose proof (batch_start D low now s ds o' ticks Hlow Htime Hs Hacq) as Hstart.
  unfold Dispatcher_run_once. rewrite instantly_bind. unfold instantly at 1, run, store_acquire. cbn.
  unfold outbox_call. rewrite Hacq. cbn [run_future then_ended]. rewrite instantly_bind.
  replace (imap _ ds) with ((fun m => unpolled (Dispatcher_process_delivery config m.1 m.2)) <$>
    imap (fun i d => (ticks i, d)) ds) by by rewrite fmap_imap.
  destruct (instantly_unordered (fun m => Dispatcher_process_delivery config m.1 m.2) now (fun r => r = Ok ())
    (batch_inv D low now) (fun pre m post s => batch_step D low now pre m post s Hlow Htime' Hlen)
    schedule _ [] _ Hstart (Forall_nil_2 _)) as (results & s' & Hrun & Hok & [Hp' Hok' Hf' _ _ Hr' Hk']).
  rewrite Hrun. cbn [then_ended]. replace (first_error results) with (@None Error).
  - eexists _, s'. split; [done|]. split; [done..| |done]. intros i entry Hi. by destruct (Hr' i entry Hi) as [[]%elem_of_nil|].
  - clear -Hok. unfold first_error. induction Hok as [|r rs -> _ IH]; [done|]. exact IH.
Qed.

Lemma round_inv_later D low t t' s : t <= t' -> round_inv D low t s -> round_inv D low t' s.
Proof.
  intros Ht [Hp Hok Hf Hd Hk]. split; [done..| |done]. intros i entry Hi.
  destruct (Hd i entry Hi) as (? & ? & ?). split; [done|]. split; [lia|done].
Qed.

(** The batches at the given times, each with its order of polls and its renewals. *)
Definition run_batches (batches : list (Z * list nat * (nat -> nat -> nat))) (s : Node B) : Node B :=
  foldl (fun s '(t, schedule, ticks) => (instantly (Dispatcher_run_once config schedule ticks) t s).2) s batches.

(** Each batch comes when the backoff of the one before is over. *)
Fixpoint spaced (t : Z) (batches : list (Z * list nat * (nat -> nat -> nat))) : Prop :=
  match batches with
  | [] => True
  | b :: batches =>
      t <= b.1.1 /\ b.1.1 + config.(lease) <= SYSTEM_TIME_MAX /\ b.1.1 + config.(max_backoff) <= SYSTEM_TIME_MAX
      /\ spaced (b.1.1 + config.(max_backoff)) batches
  end.

Lemma failing_batches D batches : forall low t s,
  0 <= low -> string_len (Error_display error) <= 4096 -> spaced t batches -> round_inv D low t s ->
  exists t', round_inv D (low + len batches) t' (run_batches batches s).
Proof.
  induction batches as [|[[t0 schedule] ticks] batches IH]; intros low t s Hlow Hlen Hsp Hs.
  - exists t. by rewrite len_nil, Z.add_0_r.
  - destruct Hsp as (Ht & Hl & Hb & Hsp). cbn in *.
    destruct (failing_round D low t0 s schedule ticks Hlow Hl Hb Hlen (round_inv_later _ _ _ _ _ Ht Hs)) as (n & s' & Hr & Hs').
    destruct (IH (low + 1) _ s' ltac:(lia) Hlen Hsp Hs') as [t' H']. exists t'.
    unfold run_batches. cbn [foldl]. rewrite Hr. cbn [snd]. rewrite len_cons.
    replace (low + (len batches + 1)) with (low + 1 + len batches) by lia. exact H'.
Qed.
End Failing.

(** C31: An event that keeps failing is dead-lettered after [max_attempts] batches.  With valid settings and
    no idempotency store, let the handler fail at once with an error (other than [AlreadyProcessed]) whose
    text the store accepts, at most 4096 bytes, and let the outbox hold at most
    [batch_size] active events, none leased and all available at [t].  After [max_attempts] batches, each
    begun when the longest backoff of the one before is over, and whatever the order of polls in each, the
    outbox has no active event left: every one of them is a dead letter with that error and at least
    [max_attempts] attempts. *)
Theorem failing_events_dead_letter {B} (new_v4 : Z -> nat -> Z) (config : DispatcherConfig (Node B)) (error : Error)
    (batches : list (Z * list nat * (nat -> nat -> nat))) (t : Z) (s : Node B)
  (Hconfig : DispatcherConfig_validate config = Ok () /\ config.(idempotency) = None)
  (Hranges : 0 <= config.(lease) /\ 0 <= config.(batch_size) /\ 0 <= config.(max_attempts) <= u32_max
     /\ 0 <= config.(initial_backoff))
  (Herror : error <> AlreadyProcessed /\ string_len (Error_display error) <= 4096)
  (Hbatches : len batches = config.(max_attempts) /\ spaced config t batches)
  (Hstore : outbox_ok s.(outbox).(state) /\ s.(outbox).(poisoned) = false
     /\ Z.of_nat (size s.(outbox).(state).(active)) <= config.(batch_size)
     /\ forall i entry, s.(outbox).(state).(active) !! i = Some entry -> due config 0 t entry) :
  let s' := run_batches new_v4 config error batches s in
  s'.(outbox).(state).(active) = ∅
  /\ forall i, is_Some (s.(outbox).(state).(active) !! i) -> dead_with config error s'.(outbox).(state) i.
Proof.
  intros s'. destruct Hconfig as [Hv Hi], Hranges as (Hl & Hb & Hm & Hini), Herror as [He Hlen],
    Hbatches as [Hn Hsp], Hstore as (Hok & Hp & Hf & Hd).
  destruct (failing_batches new_v4 config error Hi He Hv Hl Hb Hm Hini (dom s.(outbox).(state).(active)) batches 0 t s)
    as (t' & [_ _ _ Hdue Hkept]); [lia|done|done| |].
  { split; [done..|]. intros i Hin. left. by apply elem_of_dom. }
  rewrite Hn in Hdue. assert (Hempty : s'.(outbox).(state).(active) = ∅).
  { apply map_empty. intros i. destruct (_ !! i) as [entry|] eqn:Hi'; [|done].
    destruct (Hdue i entry Hi') as ((H1 & H2) & _). lia. }
  split; [done|]. intros i [entry Hin]. destruct (Hkept i) as [Hs|]; [by eapply elem_of_dom_2| |done].
  fold s' in Hs. rewrite Hempty, lookup_empty in Hs. by destruct Hs.
Qed.

Definition failing_config : DispatcherConfig (Node unit) :=
  {| worker_id := "one"; batch_size := 4; lease := 3000; poll_interval := 500; processing_timeout := 100;
     max_attempts := 3; initial_backoff := 10; max_backoff := 60; idempotency_ttl := 1000; idempotency := None |}.

Definition failing_node : Node unit :=
  {| outbox := (MemoryOutbox_append MemoryOutbox_new mail).2; idempotent := MemoryIdempotencyStore_default;
     counters := AtomicStats_default; business := () |}.

Lemma failing_events_dead_letter_witness :
  let batch t := (t, [0%nat], fun _ _ => 0%nat) in
  let s' := run_batches (fun t _ => t) failing_config (Internal "down") [batch 100; batch 200; batch 300] failing_node in
  s'.(outbox).(state).(active) = ∅ /\ dead_with failing_config (Internal "down") s'.(outbox).(state) 1.
Proof.
  cbn zeta. destruct (failing_events_dead_letter (fun t _ => t) failing_config (Internal "down")
    [(100, [0%nat], fun _ _ => 0%nat); (200, [0%nat], fun _ _ => 0%nat); (300, [0%nat], fun _ _ => 0%nat)] 100 failing_node)
    as [H1 H2].
  - split; reflexivity.
  - cbn. unfold u32_max. lia.
  - split; [discriminate|vm_compute; discriminate].
  - split; [reflexivity|]. cbn. unfold SYSTEM_TIME_MAX. lia.
  - split_and!; [|reflexivity|vm_compute; discriminate|].
    + pose proof (append_follows MemoryOutbox_new mail empty_ok) as H. by apply follows_ok in H.
    + intros i entry Hi. vm_compute in Hi. destruct i as [|[]|]; try discriminate Hi. injection Hi as <-.
      vm_compute. split_and!; congruence.
  - split; [exact H1|]. apply H2. vm_compute. by eexists.
Defined.
