(* ===== verification/GatewayDrain.v ===== *)
(** * Draining a gateway: [crates/elura-gateway/src/transport/drain.rs]

    The controller that lets a gateway stop: sessions enter and leave, [begin] turns new ones away and
    [wait_empty] waits for the last to leave.  Any number of threads run its methods; a step is one access
    to an atomic or one call of the [Notify], and a thread's position is the point of its method it has
    reached.  [Notify::notify_waiters] wakes every [Notified] created before it.  Read-modify-write
    operations and loads act on memory at once; the [Release] store of [begin] may stay invisible to other
    threads for a while, as nothing orders it with [begin]'s later loads of the other atomic. *)

From S2P Require Import Prelude.

Record DrainController : Type := {
  draining : bool;    (* what other threads load *)
  stored : bool;      (* what has been stored *)
  active : Z;
  changed : Z;        (* calls of [notify_waiters] so far *)
}.

Definition DrainController_default : DrainController :=
  {| draining := false; stored := false; active := 0; changed := 0 |}.

Definition set_stored (c : DrainController) : DrainController :=
  {| draining := c.(draining); stored := true; active := c.(active); changed := c.(changed) |}.
Definition set_active (c : DrainController) (n : Z) : DrainController :=
  {| draining := c.(draining); stored := c.(stored); active := n; changed := c.(changed) |}.
Definition notify_waiters (c : DrainController) : DrainController :=
  {| draining := c.(draining); stored := c.(stored); active := c.(active); changed := c.(changed) + 1 |}.

(** The store of [begin] reaches the other threads. *)
Definition publish (c : DrainController) : DrainController :=
  {| draining := c.(stored); stored := c.(stored); active := c.(active); changed := c.(changed) |}.

Inductive Thread : Type :=
(* [enter], then the session and [leave] *)
| Entering | Adding | Rechecking | InSession | Leaving (admitted : bool) | LeaveNotifying (admitted : bool) | Left | Refused
(* [begin] *)
| Beginning | BeginNotifying | Begun
(* [wait_empty] *)
| Checking | Subscribing | RecheckingEmpty (seen : Z) | Awaiting (seen : Z) | Empty.

#[export] Instance Thread_eq_dec : EqDecision Thread.
Proof. solve_decision. Defined.

(** [fetch_sub] of [leave]: the last session out notifies. *)
Definition leave_sub (c : DrainController) (admitted : bool) : DrainController * Thread :=
  let previous := c.(active) in
  let c := set_active c (wrap_u64 (previous - 1)) in
  (c, if previous =? 1 then LeaveNotifying admitted else if admitted then Left else Refused).

Definition enter_step (c : DrainController) (t : Thread) : option (DrainController * Thread) :=
  match t with
  | Entering => Some (c, if c.(draining) then Refused else Adding)
  | Adding => Some (set_active c (wrap_u64 (c.(active) + 1)), Rechecking)
  | Rechecking => Some (c, if c.(draining) then Leaving false else InSession)
  | _ => None
  end.

(** The drop of an [ActiveSession], and [leave]. *)
Definition leave_step (c : DrainController) (t : Thread) : option (DrainController * Thread) :=
  match t with
  | InSession => Some (c, Leaving true)
  | Leaving admitted => Some (leave_sub c admitted)
  | LeaveNotifying admitted => Some (notify_waiters c, if admitted then Left else Refused)
  | _ => None
  end.

Definition begin_step (c : DrainController) (t : Thread) : option (DrainController * Thread) :=
  match t with
  | Beginning => Some (set_stored c, BeginNotifying)
  | BeginNotifying => Some (notify_waiters c, Begun)
  | _ => None
  end.

(** [None] for a waiter that has not been woken. *)
Definition wait_empty_step (c : DrainController) (t : Thread) : option (DrainController * Thread) :=
  match t with
  | Checking => Some (c, if c.(active) =? 0 then Empty else Subscribing)
  | Subscribing => Some (c, RecheckingEmpty c.(changed))
  | RecheckingEmpty seen => Some (c, if c.(active) =? 0 then Empty else Awaiting seen)
  | Awaiting seen => if seen <? c.(changed) then Some (c, Checking) else None
  | _ => None
  end.

Definition thread_step (c : DrainController) (t : Thread) : option (DrainController * Thread) :=
  match t with
  | Entering | Adding | Rechecking => enter_step c t
  | InSession | Leaving _ | LeaveNotifying _ => leave_step c t
  | Beginning | BeginNotifying => begin_step c t
  | Checking | Subscribing | RecheckingEmpty _ | Awaiting _ => wait_empty_step c t
  | Left | Refused | Begun | Empty => None
  end.

Record System : Type := { controller : DrainController; threads : list Thread }.

Inductive step : System -> System -> Prop :=
| step_publish c ts : step {| controller := c; threads := ts |} {| controller := publish c; threads := ts |}
| step_thread c ts i t c' t' :
    ts !! i = Some t -> thread_step c t = Some (c', t') ->
    step {| controller := c; threads := ts |} {| controller := c'; threads := <[i := t']> ts |}.

Notation steps := (rtc step).

(** Threads that have not run yet. *)
Definition fresh (t : Thread) : bool :=
  match t with Entering | Beginning | Checking => true | _ => false end.

Definition initial (ts : list Thread) : System := {| controller := DrainController_default; threads := ts |}.

(** A thread between its [fetch_add] and its [fetch_sub]. *)
Definition inside (t : Thread) : bool :=
  match t with Rechecking | InSession | Leaving _ => true | _ => false end.

Definition is_admitted (t : Thread) : bool :=
  match t with InSession | Leaving true => true | _ => false end.

Definition count_inside (ts : list Thread) : Z := len (filter (fun t => inside t = true) ts).

(** ** Counting the sessions *)

Lemma count_inside_app ts ts' : count_inside (ts ++ ts') = count_inside ts + count_inside ts'.
Proof. unfold count_inside. by rewrite filter_app, len_app. Qed.

Lemma count_inside_cons t ts : count_inside (t :: ts) = Z.b2z (inside t) + count_inside ts.
Proof.
  unfold count_inside. rewrite filter_cons. destruct (inside t) eqn:Hi; case_decide; try done.
  rewrite len_cons. cbn. lia.
Qed.

Lemma count_inside_bounds ts : 0 <= count_inside ts <= len ts.
Proof. unfold count_inside, len. pose proof (length_filter (fun t => inside t = true) ts). lia. Qed.

Lemma count_inside_insert ts i t t' :
  ts !! i = Some t -> count_inside (<[i := t']> ts) = count_inside ts - Z.b2z (inside t) + Z.b2z (inside t').
Proof.
  intros Hi. rewrite <-(take_drop_middle ts i t Hi) at 2. rewrite insert_take_drop by by eapply lookup_lt_Some.
  rewrite !count_inside_app, !count_inside_cons. lia.
Qed.

Lemma count_inside_in ts t : t ∈ ts -> inside t = true -> 0 < count_inside ts.
Proof.
  intros [i Hi]%list_elem_of_lookup Ht. rewrite <-(take_drop_middle ts i t Hi).
  rewrite count_inside_app, count_inside_cons, Ht. pose proof (count_inside_bounds (take i ts)).
  pose proof (count_inside_bounds (drop (S i) ts)). cbn. lia.
Qed.

Lemma count_inside_zero ts : (forall t, t ∈ ts -> inside t = false) -> count_inside ts = 0.
Proof.
  intros H. unfold count_inside. rewrite filter_none; [done|]. apply Forall_forall. intros t Ht. by rewrite (H t Ht).
Qed.

(** ** The invariant *)

(** The [notify_waiters] calls a waiter has seen when it subscribed. *)
Definition subscribed (t : Thread) : option Z :=
  match t with RecheckingEmpty seen | Awaiting seen => Some seen | _ => None end.

Record drain_inv (s : System) : Prop := {
  inv_threads : len s.(threads) <= u64_max;
  inv_active : s.(controller).(active) = count_inside s.(threads);
  inv_stored : s.(controller).(draining) = true -> s.(controller).(stored) = true;
  inv_subscribed t seen : t ∈ s.(threads) -> subscribed t = Some seen -> seen <= s.(controller).(changed);
  inv_woken seen : Awaiting seen ∈ s.(threads) ->
    seen < s.(controller).(changed) \/ 0 < s.(controller).(active)
    \/ exists admitted, LeaveNotifying admitted ∈ s.(threads);
}.

Lemma elem_of_insert_other (ts : list Thread) i (t t' u : Thread) : ts !! i = Some t -> u ∈ <[i := t']> ts -> u = t' \/ u ∈ ts.
Proof.
  intros Hi [j Hj]%list_elem_of_lookup. destruct (decide (j = i)) as [->|Hne].
  - rewrite list_lookup_insert_eq in Hj by by eapply lookup_lt_Some. left. congruence.
  - rewrite list_lookup_insert_ne in Hj by done. right. by eapply list_elem_of_lookup_2.
Qed.

Lemma elem_of_insert_new (ts : list Thread) i (t t' : Thread) : ts !! i = Some t -> t' ∈ <[i := t']> ts.
Proof.
  intros Hi. apply (list_elem_of_lookup_2 _ i). apply list_lookup_insert_eq. by eapply lookup_lt_Some.
Qed.

Lemma elem_of_insert_kept (ts : list Thread) i (t t' u : Thread) : ts !! i = Some t -> u ∈ ts -> u <> t -> u ∈ <[i := t']> ts.
Proof.
  intros Hi [j Hj]%list_elem_of_lookup Hne. apply (list_elem_of_lookup_2 _ j).
  rewrite list_lookup_insert_ne; [done|]. congruence.
Qed.

(** What one step of a thread does to the counters. *)
Lemma thread_step_counts c t c' t' :
  thread_step c t = Some (c', t') -> (inside t = true -> 0 < c.(active)) -> 0 <= c.(active) <= u64_max ->
  (inside t = false -> c.(active) < u64_max) ->
  c'.(active) = c.(active) - Z.b2z (inside t) + Z.b2z (inside t')
  /\ c.(changed) <= c'.(changed) /\ c'.(draining) = c.(draining) /\ (c.(stored) = true -> c'.(stored) = true).
Proof.
  intros Hs Hin Hpos Hmax. destruct t; cbn in Hs; unfold leave_sub in Hs; repeat case_match; simplify_eq; cbn in *;
    try (split_and!; solve [done|lia]).
  all: try specialize (Hmax eq_refl); try specialize (Hin eq_refl); unfold wrap_u64, u64_max in *;
    rewrite Z.mod_small by lia; split_and!; solve [done|lia].
Qed.

Lemma initial_inv ts : forallb fresh ts = true -> len ts <= u64_max -> drain_inv (initial ts).
Proof.
  intros Hf Hlen. assert (Hfresh : forall t, t ∈ ts -> fresh t = true).
  { intros t Ht. apply (proj1 (forallb_forall fresh ts) Hf). by apply list_elem_of_In. }
  split; cbn.
  - done.
  - symmetry. apply count_inside_zero. intros t Ht. specialize (Hfresh t Ht). by destruct t.
  - done.
  - intros t seen Ht Hs. specialize (Hfresh t Ht). by destruct t.
  - intros seen Ht. by specialize (Hfresh _ Ht).
Qed.

(** An awaiting thread that is not awaiting before the step has just seen a session inside. *)
Lemma step_awaiting c t c' seen :
  thread_step c t = Some (c', Awaiting seen) -> t = RecheckingEmpty seen /\ c' = c /\ c.(active) <> 0.
Proof.
  destruct t; cbn; unfold leave_sub; intros Hs; repeat case_match; simplify_eq; breflect; done.
Qed.

Lemma step_subscribed c t c' t' seen :
  thread_step c t = Some (c', t') -> subscribed t' = Some seen -> subscribed t = Some seen \/ seen = c'.(changed).
Proof.
  destruct t; cbn; unfold leave_sub; intros Hs Hsub; repeat case_match; simplify_eq; cbn in *; simplify_eq; auto.
Qed.

(** The last session to leave notifies. *)
Lemma step_emptied c t c' t' :
  thread_step c t = Some (c', t') -> c'.(active) = c.(active) - Z.b2z (inside t) + Z.b2z (inside t') ->
  0 < c.(active) -> c'.(active) <= 0 -> exists admitted, t' = LeaveNotifying admitted.
Proof.
  intros Hs Ha' Ha Hc.
  destruct t; cbn in Hs; unfold leave_sub in Hs; repeat case_match; simplify_eq; cbn in *; try lia; [eauto|..];
    breflect; lia.
Qed.

Lemma step_inv s s' : step s s' -> drain_inv s -> drain_inv s'.
Proof.
  intros [c ts|c ts i t c' t' Hi Hs] [Hlen Hact Hst Hsub Hwok]; cbn in *; [by split|].
  assert (Ht : t ∈ ts) by by eapply list_elem_of_lookup_2. pose proof (count_inside_bounds ts) as Hb.
  destruct (thread_step_counts c t c' t' Hs) as (Ha' & Hc' & Hd' & Hs').
  { intros Hin. rewrite Hact. by eapply count_inside_in. }
  { lia. }
  { intros Hout. rewrite Hact. rewrite <-(take_drop_middle ts i t Hi), len_app, len_cons in Hlen.
    rewrite <-(take_drop_middle ts i t Hi), count_inside_app, count_inside_cons, Hout. cbn.
    pose proof (count_inside_bounds (take i ts)). pose proof (count_inside_bounds (drop (S i) ts)). lia. }
  assert (Hact' : c'.(active) = count_inside (<[i := t']> ts)) by (rewrite (count_inside_insert ts i t t' Hi); lia).
  split; cbn.
  - unfold len in *. by rewrite length_insert.
  - done.
  - rewrite Hd'. auto.
  - intros u seen Hu Hsu. destruct (elem_of_insert_other ts i t t' u Hi Hu) as [->|Hin].
    + destruct (step_subscribed c t c' t' seen Hs Hsu) as [Hold| ->]; [|lia]. specialize (Hsub t seen Ht Hold). lia.
    + specialize (Hsub u seen Hin Hsu). lia.
  - intros seen Hu. destruct (elem_of_insert_other ts i t t' _ Hi Hu) as [<-|Hin].
    + apply step_awaiting in Hs as (-> & -> & Hne). right. left. rewrite Hact in *. lia.
    + destruct (Hwok seen Hin) as [?|[?|[admitted Hn]]]; [left; lia| |].
      * destruct (Z.lt_ge_cases 0 c'.(active)); [by auto|].
        destruct (step_emptied c t c' t' Hs Ha') as [admitted ->]; [done|done|]. right. right. exists admitted.
        by eapply elem_of_insert_new.
      * destruct (decide (LeaveNotifying admitted = t)) as [<-|Hne].
        { injection Hs as <- <-. specialize (Hsub _ seen Hin eq_refl). left. cbn. lia. }
        right. right. exists admitted. by eapply elem_of_insert_kept.
Qed.

Lemma steps_inv s s' : steps s s' -> drain_inv s -> drain_inv s'.
Proof. induction 1; [done|]. intros Hs. by eauto using step_inv. Qed.

(** ** No session after the gateway is empty *)

(** New sessions are turned away and none is admitted. *)
Definition closed (s : System) : Prop :=
  s.(controller).(draining) = true /\ forall t, t ∈ s.(threads) -> is_admitted t = false.

Lemma step_draining c t c' t' : thread_step c t = Some (c', t') -> c'.(draining) = c.(draining).
Proof. destruct t; cbn; unfold leave_sub; intros Hs; repeat case_match; by simplify_eq. Qed.

Lemma step_admitted c t c' t' :
  thread_step c t = Some (c', t') -> is_admitted t' = true -> is_admitted t = true \/ c.(draining) = false.
Proof.
  destruct t; cbn; unfold leave_sub; intros Hs Ht; repeat case_match; simplify_eq; cbn in *; auto; done.
Qed.

Lemma step_closed s s' : step s s' -> drain_inv s -> closed s -> closed s'.
Proof.
  intros [c ts|c ts i t c' t' Hi Hs] Hinv [Hd Hno]; cbn in *.
  - split; cbn; [by apply Hinv|done].
  - split; cbn; [by rewrite (step_draining _ _ _ _ Hs)|]. intros u Hu.
    destruct (elem_of_insert_other ts i t t' u Hi Hu) as [->|Hin]; [|by apply Hno].
    destruct (is_admitted t') eqn:Ht'; [|done].
    destruct (step_admitted _ _ _ _ Hs Ht') as [Ht|]; [|congruence].
    rewrite (Hno t) in Ht; [done|]. by eapply list_elem_of_lookup_2.
Qed.

Lemma steps_closed s s' : steps s s' -> drain_inv s -> closed s -> closed s'.
Proof. induction 1; [done|]. eauto using step_inv, step_closed. Qed.

Lemma inside_admitted t : inside t = false -> is_admitted t = false.
Proof. by destruct t as [| | | | [] | | | | | | | | | | |]. Qed.

(** A waiter that returns has seen no session inside. *)
Lemma step_empty c t c' : thread_step c t = Some (c', Empty) -> c' = c /\ c.(active) = 0.
Proof. destruct t; cbn; unfold leave_sub; intros Hs; repeat case_match; simplify_eq; breflect; done. Qed.

Lemma wait_closes s s' w :
  steps s s' -> drain_inv s -> s.(controller).(draining) = true -> s.(threads) !! w <> Some Empty ->
  s'.(threads) !! w = Some Empty -> closed s'.
Proof.
  induction 1 as [s|s s1 s' Hstep Hsteps IH]; intros Hinv Hd Hne Hw; [done|].
  pose proof (step_inv _ _ Hstep Hinv) as Hinv1. destruct (decide (s1.(threads) !! w = Some Empty)) as [Hw1|Hw1].
  - eapply steps_closed; [done|done|]. destruct Hstep as [c ts|c ts i t c' t' Hi Hs]; cbn in *; [done|].
    assert (i = w) as ->. { destruct (decide (i = w)); [done|]. by rewrite list_lookup_insert_ne in Hw1. }
    rewrite list_lookup_insert_eq in Hw1 by by eapply lookup_lt_Some. injection Hw1 as ->.
    apply step_empty in Hs as [-> Hz]. split; [done|]. cbn. intros u Hu. apply inside_admitted.
    destruct (inside u) eqn:Hin; [|done]. pose proof (count_inside_in _ _ Hu Hin) as Hpos.
    destruct Hinv1 as [_ Ha _ _ _]. cbn in Ha. lia.
  - apply IH; [done| |done|done]. destruct Hstep as [c ts|c ts i t c' t' Hi Hs]; cbn in *; [by apply Hinv|].
    by rewrite (step_draining _ _ _ _ Hs).
Qed.

(** C32: A drained gateway has no session and admits none.  Let any number of threads enter and leave
    sessions, begin draining and wait, in any interleaving of their accesses to the atomics.  If a call of
    [wait_empty] begins when the draining flag is visible, then from the moment it returns no session is
    admitted or alive, although entering threads may still be between their two checks. *)
Theorem drained_gateway_has_no_session (ts : list Thread) (s1 s2 s3 : System) (w : nat)
  (Hthreads : forallb fresh ts = true /\ len ts <= u64_max)
  (Hvisible : steps (initial ts) s1 /\ s1.(controller).(draining) = true)
  (Hbegins : s1.(threads) !! w = Some Checking)
  (Hreturns : steps s1 s2 /\ s2.(threads) !! w = Some Empty)
  (Hlater : steps s2 s3) :
  forall t, t ∈ s3.(threads) -> is_admitted t = false.
Proof.
  destruct Hthreads as [Hf Hl], Hvisible as [Hs1 Hd], Hreturns as [Hs2 Hw].
  pose proof (steps_inv _ _ Hs1 (initial_inv ts Hf Hl)) as Hinv1.
  pose proof (steps_inv _ _ Hs2 Hinv1) as Hinv2.
  apply (steps_closed s2 s3 Hlater Hinv2). eapply (wait_closes s1 s2 w); [done|done|done| |done].
  by rewrite Hbegins.
Qed.

(** ** Waiters are woken *)

Definition waiting (t : Thread) : bool :=
  match t with Checking | Subscribing | RecheckingEmpty _ | Awaiting _ => true | _ => false end.

(** The methods have returned and the sessions have been dropped. *)
Definition finished (t : Thread) : bool :=
  match t with Left | Refused | Begun | Empty => true | _ => false end.

(** A thread runs alone. *)
Fixpoint run_thread (n : nat) (c : DrainController) (t : Thread) : DrainController * Thread :=
  match n with
  | O => (c, t)
  | S n => match thread_step c t with Some (c, t) => run_thread n c t | None => (c, t) end
  end.

Lemma run_thread_steps n : forall c ts i t,
  ts !! i = Some t ->
  steps {| controller := c; threads := ts |}
    {| controller := (run_thread n c t).1; threads := <[i := (run_thread n c t).2]> ts |}.
Proof.
  induction n as [|n IH]; intros c ts i t Hi; cbn [run_thread].
  - cbn. by rewrite list_insert_id.
  - destruct (thread_step c t) as [[c' t']|] eqn:Hs; [|cbn; by rewrite list_insert_id].
    eapply rtc_l; [by eapply step_thread|].
    pose proof (IH c' (<[i := t']> ts) i t') as H. rewrite list_insert_insert_eq in H. apply H.
    apply list_lookup_insert_eq. by eapply lookup_lt_Some.
Qed.

(** C33: No wake-up is lost.  In every reachable state in which all calls of [enter] and [begin] have
    returned and all sessions have been dropped, every caller of [wait_empty], wherever it stands in its
    loop, returns within two more of its own steps: one that awaits has been notified since it subscribed. *)
Theorem drain_waiters_return (ts : list Thread) (s : System) (w : nat) (t : Thread)
  (Hthreads : forallb fresh ts = true /\ len ts <= u64_max)
  (Hreached : steps (initial ts) s)
  (Hquiet : forall u, u ∈ s.(threads) -> waiting u = true \/ finished u = true)
  (Hwaiter : s.(threads) !! w = Some t /\ waiting t = true) :
  run_thread 2 s.(controller) t = (s.(controller), Empty).
Proof.
  destruct Hthreads as [Hf Hl], Hwaiter as [Hw Ht].
  destruct (steps_inv _ _ Hreached (initial_inv ts Hf Hl)) as [_ Ha _ _ Hwok].
  assert (Hz : s.(controller).(active) = 0).
  { rewrite Ha. apply count_inside_zero. intros u Hu. by destruct (Hquiet u Hu), u. }
  assert (Hnone : forall admitted, LeaveNotifying admitted ∉ s.(threads)).
  { intros admitted Hu. by destruct (Hquiet _ Hu). }
  destruct t; try done; cbn; rewrite ?Hz; cbn; rewrite ?Hz; try done.
  destruct (Hwok seen) as [Hlt|[?|[admitted Hu]]]; [by eapply list_elem_of_lookup_2| |lia|by destruct (Hnone admitted)].
  destruct (Z.ltb_spec seen s.(controller).(changed)); [|lia]. cbn. by rewrite Hz.
Qed.

(** ** The flag must be visible

    [begin] stores with [Release] and [wait_empty] loads another atomic with [Acquire]: no ordering makes the
    store visible first.  A waiter that begins after [begin] has returned can return while an entering
    thread still loads the old flag, and the session is admitted. *)
Lemma unpublished_begin_admits_session :
  exists s, steps (initial [Beginning; Checking; Entering]) s
    /\ s.(threads) = [Begun; Empty; InSession].
Proof.
  eexists. split.
  - do 2 (eapply rtc_l; [eapply (step_thread _ _ 0); reflexivity|]).
    eapply rtc_l; [eapply (step_thread _ _ 1); reflexivity|].
    do 3 (eapply rtc_l; [eapply (step_thread _ _ 2); reflexivity|]). apply rtc_refl.
  - reflexivity.
Qed.

(** ** Witnesses: a session leaves, the gateway drains, another is refused *)

Definition drain_threads : list Thread := [Entering; Beginning; Checking; Entering].

(** Runs the thread [i] for [n] steps. *)
Definition advance (s : System) (p : nat * nat) : System :=
  match s.(threads) !! p.1 with
  | None => s
  | Some t => let '(c, t) := run_thread p.2 s.(controller) t in {| controller := c; threads := <[p.1 := t]> s.(threads) |}
  end.

Lemma advance_is_steps s p : steps s (advance s p).
Proof.
  unfold advance. destruct s as [c ts]. cbn. destruct (ts !! p.1) as [t|] eqn:Hi; [|done].
  pose proof (run_thread_steps p.2 c ts p.1 t Hi) as H. by destruct (run_thread p.2 c t).
Qed.

Lemma advances_steps ps : forall s, steps s (foldl advance s ps).
Proof. induction ps as [|p ps IH]; intros s; cbn; [done|]. etrans; [apply advance_is_steps|apply IH]. Qed.

Definition published (s : System) : System := {| controller := publish s.(controller); threads := s.(threads) |}.

Lemma published_step s : step s (published s).
Proof. destruct s. apply step_publish. Qed.

Definition drained : System :=
  let s := foldl advance (initial drain_threads) [(0, 3); (3, 1); (1, 2)]%nat in
  published s.

Lemma drained_reached : steps (initial drain_threads) drained.
Proof.
  eapply rtc_r; [apply advances_steps|]. apply published_step.
Qed.

Lemma drained_gateway_has_no_session_witness :
  let s2 := foldl advance drained [(2, 3); (0, 3); (2, 2)]%nat in
  let s3 := advance s2 (3, 4)%nat in
  s3.(threads) = [Left; Begun; Empty; Refused] /\ forall t, t ∈ s3.(threads) -> is_admitted t = false.
Proof.
  cbn zeta. split; [reflexivity|].
  apply (drained_gateway_has_no_session drain_threads drained (foldl advance drained [(2, 3); (0, 3); (2, 2)]%nat) _ 2).
  - split; [reflexivity|vm_compute; discriminate].
  - split; [exact drained_reached|reflexivity].
  - reflexivity.
  - split; [apply advances_steps|reflexivity].
  - apply advance_is_steps.
Defined.

Lemma drain_waiters_return_witness :
  let s := foldl advance drained [(2, 3); (0, 3); (3, 4)]%nat in
  s.(threads) !! 2%nat = Some (Awaiting 1) /\ run_thread 2 s.(controller) (Awaiting 1) = (s.(controller), Empty).
Proof.
  cbn zeta. split; [reflexivity|].
  apply (drain_waiters_return drain_threads (foldl advance drained [(2, 3); (0, 3); (3, 4)]%nat) 2).
  - split; [reflexivity|vm_compute; discriminate].
  - etrans; [exact drained_reached|apply advances_steps].
  - intros u Hu. vm_compute in Hu. repeat (apply elem_of_cons in Hu as [-> | Hu]; [by vm_compute; auto|]).
    by apply elem_of_nil in Hu.
  - split; reflexivity.
Defined.
