(* ===== verification/WorldScene.v ===== *)
(** * Scenes: [crates/elura-world/src/scene.rs]

    The actor-style runtime of stateful scenes: a registry of live scenes, one task with a bounded mailbox
    per scene, and the operations that spawn, call, stop and shut down.  Any number of callers run the
    operations; a step is one access to shared state (an atomic, the registry under its lock, a channel) or
    one event of a scene's task.  What the application's hooks and commands do is the environment's: each
    ends in an outcome of [guarded] and leaves some scene behind.  A caller is its position in its
    operation; a [oneshot] between a caller and a scene's task is a slot keyed by the two.  The erasure of a
    command's output to [Any] and back is the identity. *)

From S2P Require Import Prelude CoreError.

Record SceneRuntimeConfig : Type := {
  mailbox_capacity : Z;
  handler_timeout : Z;
  tick_interval : option Z;
  shutdown_timeout : Z;
}.

Definition SceneRuntimeConfig_default : SceneRuntimeConfig :=
  {| mailbox_capacity := 64; handler_timeout := 5 * 1000000000; tick_interval := None;
     shutdown_timeout := 10 * 1000000000 |}.

Definition SceneRuntimeConfig_validate (self : SceneRuntimeConfig) : Result unit :=
  if (self.(mailbox_capacity) =? 0) || (self.(handler_timeout) =? 0) || (self.(shutdown_timeout) =? 0)
     || match self.(tick_interval) with Some interval => interval =? 0 | None => false end then
    Err (InvalidConfig "scene runtime limits must be positive")
  else Ok ().

Inductive SceneError : Type :=
| SceneAlreadyExists | SceneNotFound | SceneRuntimeClosed | SceneQueueFull | SceneUnavailable | SceneTimeout
| SceneHandler (error : Error) | ScenePanicked | SceneInternal (message : string).

Definition SceneResult (A : Type) : Type := result SceneError A.

Definition SceneError_display (self : SceneError) : string :=
  match self with
  | SceneAlreadyExists => "scene already exists"
  | SceneNotFound => "scene was not found"
  | SceneRuntimeClosed => "scene runtime is closed"
  | SceneQueueFull => "scene command queue is full"
  | SceneUnavailable => "scene is unavailable"
  | SceneTimeout => "scene operation timed out"
  | SceneHandler error => "scene handler failed: " ++ Error_display error
  | ScenePanicked => "scene handler panicked"
  | SceneInternal message => "scene runtime invariant failed: " ++ message
  end.

Definition Error_from_scene (error : SceneError) : Error :=
  match error with
  | SceneAlreadyExists => Error_business "SCENE_ALREADY_EXISTS" "scene already exists"
  | SceneNotFound => Error_business "SCENE_NOT_FOUND" "scene was not found"
  | SceneRuntimeClosed | SceneUnavailable => Unavailable
  | SceneQueueFull => QueueFull
  | SceneTimeout => Timeout
  | SceneHandler error => error
  | ScenePanicked => Internal "scene handler panicked"
  | SceneInternal message => Internal message
  end.

(** [guarded]: how a hook or a command ends under its deadline. *)
Inductive Guarded (A : Type) : Type :=
| Completed (r : Result A)
| TimedOut
| Panicked.
Arguments Completed {A} _.
Arguments TimedOut {A}.
Arguments Panicked {A}.

(** What a caller is told. *)
Definition guarded_result {A} (g : Guarded A) : SceneResult A :=
  match g with
  | Completed (Ok a) => Ok a
  | Completed (Err e) => Err (SceneHandler e)
  | TimedOut => Err SceneTimeout
  | Panicked => Err ScenePanicked
  end.

Section Scenes.
Context {S Id Cmd Out : Type} `{Countable Id} (scene_id : S -> Id).

(** ** The task of a scene *)

(** Where [run_scene] stands.  [Stopping] and [Ending] carry the callers of [stop] and [shutdown] whose
    response it holds; the done flag is set from [Ending] on, the receivers are dropped at [Gone]. *)
Inductive Phase : Type :=
| Starting
| Idle
| Executing (caller : nat) (command : Cmd)
| Ticking
| Stopping (response : option nat)
| Ending (response : option (nat * SceneResult unit))
| Gone.

Record Actor : Type := {
  scene : S;
  phase : Phase;
  commands : list (nat * Cmd);        (* the mailbox: callers and their commands *)
  control : list nat;                 (* the callers of [Control::Stop] *)
  starter : nat;                      (* the caller of [spawn] *)
  commands_open : bool;
  control_open : bool;
  accepted : list (nat * Cmd);        (* history: every command the mailbox took *)
  executed : list (nat * Cmd * Guarded Out);  (* history: every command that ran *)
}.

Definition done (a : Actor) : bool := match a.(phase) with Ending _ | Gone => true | _ => false end.
Definition receiving (a : Actor) : bool := match a.(phase) with Gone => false | _ => true end.

Definition with_phase (a : Actor) (p : Phase) : Actor :=
  {| scene := a.(scene); phase := p; commands := a.(commands); control := a.(control); starter := a.(starter);
     commands_open := a.(commands_open); control_open := a.(control_open); accepted := a.(accepted);
     executed := a.(executed) |}.
Definition with_scene (a : Actor) (s : S) : Actor :=
  {| scene := s; phase := a.(phase); commands := a.(commands); control := a.(control); starter := a.(starter);
     commands_open := a.(commands_open); control_open := a.(control_open); accepted := a.(accepted);
     executed := a.(executed) |}.
Definition with_commands (a : Actor) (l : list (nat * Cmd)) : Actor :=
  {| scene := a.(scene); phase := a.(phase); commands := l; control := a.(control); starter := a.(starter);
     commands_open := a.(commands_open); control_open := a.(control_open); accepted := a.(accepted);
     executed := a.(executed) |}.
Definition with_control (a : Actor) (l : list nat) : Actor :=
  {| scene := a.(scene); phase := a.(phase); commands := a.(commands); control := l; starter := a.(starter);
     commands_open := a.(commands_open); control_open := a.(control_open); accepted := a.(accepted);
     executed := a.(executed) |}.
Definition with_executed (a : Actor) (l : list (nat * Cmd * Guarded Out)) : Actor :=
  {| scene := a.(scene); phase := a.(phase); commands := a.(commands); control := a.(control);
     starter := a.(starter); commands_open := a.(commands_open); control_open := a.(control_open);
     accepted := a.(accepted); executed := l |}.
Definition close_commands (a : Actor) : Actor :=
  {| scene := a.(scene); phase := a.(phase); commands := a.(commands); control := a.(control);
     starter := a.(starter); commands_open := false; control_open := a.(control_open);
     accepted := a.(accepted); executed := a.(executed) |}.
Definition close_control (a : Actor) : Actor :=
  {| scene := a.(scene); phase := a.(phase); commands := a.(commands); control := a.(control);
     starter := a.(starter); commands_open := a.(commands_open); control_open := false;
     accepted := a.(accepted); executed := a.(executed) |}.

Definition Actor_new (s : S) (starter : nat) : Actor :=
  {| scene := s; phase := Starting; commands := []; control := []; starter := starter; commands_open := true;
     control_open := true; accepted := []; executed := [] |}.

(** A [oneshot]: a value, or [None] when its sender was dropped. *)
Definition Reply : Type := option (SceneResult (option Out)).

(** The reply to a command that ran. *)
Definition command_reply (g : Guarded Out) : SceneResult (option Out) :=
  match guarded_result g with Ok out => Ok (Some out) | Err error => Err error end.

Definition unit_reply (r : SceneResult unit) : Reply :=
  Some (match r with Ok _ => Ok None | Err e => Err e end).

(** What the task of a scene does next, and what the environment decides about it. *)
Inductive SceneEvent : Type :=
| Started (g : Guarded unit) (s : S)
| TakeStop | ControlClosed | TakeCommand | CommandsClosed
| CommandEnds (g : Guarded Out) (s : S)
| Tick
| TickEnds (g : Guarded unit) (s : S)
| LoopEnds
| Stopped (g : Guarded unit) (s : S)
| Finish.

(** One event of [run_scene]: the actor after it and the replies it sends.  [orphan] says that no handle of
    the scene is left, which closes its channels. *)
Definition run_scene_step (config : SceneRuntimeConfig) (orphan : bool) (a : Actor) (e : SceneEvent) :
    option (Actor * list (nat * Reply)) :=
  match a.(phase), e with
  | Starting, Started g s =>
      match guarded_result g with
      | Ok _ => Some (with_phase (with_scene a s) Idle, [(a.(starter), unit_reply (Ok ()))])
      | Err error => Some (with_phase (with_scene a s) (Ending None), [(a.(starter), unit_reply (Err error))])
      end
  | Idle, TakeStop =>
      match a.(control) with
      | response :: control =>
          if a.(control_open) then Some (with_phase (with_control a control) (Stopping (Some response)), []) else None
      | [] => None
      end
  | Idle, ControlClosed =>
      if a.(control_open) && orphan && bool_decide (a.(control) = []) then Some (close_control a, []) else None
  | Idle, TakeCommand =>
      match a.(commands) with
      | (caller, command) :: commands =>
          if a.(commands_open) then Some (with_phase (with_commands a commands) (Executing caller command), [])
          else None
      | [] => None
      end
  | Idle, CommandsClosed =>
      if a.(commands_open) && orphan && bool_decide (a.(commands) = []) then Some (close_commands a, []) else None
  | Executing caller command, CommandEnds g s =>
      let a := with_executed (with_scene a s) (a.(executed) ++ [(caller, command, g)]) in
      let terminate := match g with Panicked => true | _ => false end in
      Some (with_phase a (if terminate then Stopping None else Idle),
            [(caller, Some (command_reply g))])
  | Idle, Tick =>
      match config.(tick_interval) with
      | Some _ => if a.(commands_open) || a.(control_open) then Some (with_phase a Ticking, []) else None
      | None => None
      end
  | Ticking, TickEnds g s =>
      let terminate := match g with Completed (Ok _) => false | _ => true end in
      Some (with_phase (with_scene a s) (if terminate then Stopping None else Idle), [])
  | Idle, LoopEnds =>
      if negb a.(commands_open) && negb a.(control_open) then Some (with_phase a (Stopping None), []) else None
  | Stopping response, Stopped g s =>
      Some (with_phase (with_scene a s) (Ending ((fun r => (r, guarded_result g)) <$> response)), [])
  | Ending response, Finish =>
      (* the response of [stop], then the receivers and what is left in them are dropped *)
      Some (with_phase (with_control (with_commands a []) []) Gone,
            match response with Some (caller, r) => [(caller, unit_reply r)] | None => [] end
            ++ ((fun p => (p.1, None)) <$> a.(commands)) ++ ((fun caller => (caller, None)) <$> a.(control)))
  | _, _ => None
  end.

(** ** The registry and its callers *)

(** Where a caller stands in its operation; an actor is named by its number, which stands for the identity
    of its done flag. *)
Inductive Caller : Type :=
| Spawn (s : S)                                   (* before the first check *)
| SpawnChecked (s : S)
| SpawnWaiting (id : Id) (actor : nat)
| SpawnFailed (id : Id) (actor : nat) (error : SceneError)   (* before [remove_if_current] *)
| Call (id : Id) (command : Cmd)
| CallChecked (id : Id) (command : Cmd)
| CallSending (actor : nat) (command : Cmd)
| CallWaiting (actor : nat)
| Stop (id : Id)
| StopRemoved (actor : nat)
| StopSending (actor : nat)
| StopWaiting (actor : nat)
| Shutdown
| ShutdownClosing
| ShutdownSending (actors sent : list nat)
| ShutdownWaiting (sent : list nat) (first_error : option SceneError)
| Returned (r : SceneResult (option Out))
| Cancelled.

Record SceneRuntime : Type := {
  config : SceneRuntimeConfig;
  scenes : gmap Id nat;
  closing : bool;
  actors : list Actor;
  replies : gmap (nat * nat) Reply;       (* by caller and actor *)
  callers : list Caller;
}.

Definition SceneRuntime_new (config : SceneRuntimeConfig) (callers : list Caller) : Result SceneRuntime :=
  let? _ := SceneRuntimeConfig_validate config in
  Ok {| config := config; scenes := ∅; closing := false; actors := []; replies := ∅; callers := callers |}.

Definition set_scenes (r : SceneRuntime) (m : gmap Id nat) : SceneRuntime :=
  {| config := r.(config); scenes := m; closing := r.(closing); actors := r.(actors); replies := r.(replies);
     callers := r.(callers) |}.
Definition set_closing (r : SceneRuntime) : SceneRuntime :=
  {| config := r.(config); scenes := r.(scenes); closing := true; actors := r.(actors); replies := r.(replies);
     callers := r.(callers) |}.
Definition set_actors (r : SceneRuntime) (l : list Actor) : SceneRuntime :=
  {| config := r.(config); scenes := r.(scenes); closing := r.(closing); actors := l; replies := r.(replies);
     callers := r.(callers) |}.
Definition set_caller (r : SceneRuntime) (i : nat) (c : Caller) : SceneRuntime :=
  {| config := r.(config); scenes := r.(scenes); closing := r.(closing); actors := r.(actors);
     replies := r.(replies); callers := <[i := c]> r.(callers) |}.
Definition add_replies (r : SceneRuntime) (actor : nat) (l : list (nat * Reply)) : SceneRuntime :=
  {| config := r.(config); scenes := r.(scenes); closing := r.(closing); actors := r.(actors);
     replies := foldl (fun m p => <[(p.1, actor) := p.2]> m) r.(replies) l; callers := r.(callers) |}.

(** The done flag behind a handle. *)
Definition actor_done (r : SceneRuntime) (actor : nat) : bool :=
  match r.(actors) !! actor with Some a => done a | None => true end.

Definition SceneRuntime_contains (r : SceneRuntime) (id : Id) : bool :=
  match r.(scenes) !! id with Some actor => negb (actor_done r actor) | None => false end.

Definition SceneRuntime_len (r : SceneRuntime) : Z :=
  Z.of_nat (size (filter (fun p => actor_done r p.2 = false) r.(scenes))).

Definition SceneRuntime_is_empty (r : SceneRuntime) : bool := SceneRuntime_len r =? 0.

Definition with_sent (a : Actor) (i : nat) (command : Cmd) : Actor :=
  {| scene := a.(scene); phase := a.(phase); commands := a.(commands) ++ [(i, command)]; control := a.(control);
     starter := a.(starter); commands_open := a.(commands_open); control_open := a.(control_open);
     accepted := a.(accepted) ++ [(i, command)]; executed := a.(executed) |}.

(** [try_send] into a mailbox. *)
Definition try_send (r : SceneRuntime) (i actor : nat) (command : Cmd) : SceneResult SceneRuntime :=
  match r.(actors) !! actor with
  | Some a =>
      if negb (receiving a) then Err SceneUnavailable
      else if r.(config).(mailbox_capacity) <=? len a.(commands) then Err SceneQueueFull
      else
        Ok (set_actors r (<[actor := with_sent a i command]> r.(actors)))
  | None => Err SceneUnavailable
  end.

(** [control.send]. *)
Definition send_stop (r : SceneRuntime) (i actor : nat) : option SceneRuntime :=
  match r.(actors) !! actor with
  | Some a =>
      if receiving a then Some (set_actors r (<[actor := with_control a (a.(control) ++ [i])]> r.(actors)))
      else None
  | None => None
  end.

(** The lookup of [handle], under the lock. *)
Definition SceneRuntime_handle (r : SceneRuntime) (id : Id) : SceneResult nat * SceneRuntime :=
  match r.(scenes) !! id with
  | None => (Err SceneNotFound, r)
  | Some actor =>
      if actor_done r actor then (Err SceneUnavailable, set_scenes r (delete id r.(scenes))) else (Ok actor, r)
  end.

Definition SceneRuntime_remove_if_current (r : SceneRuntime) (id : Id) (expected : nat) : SceneRuntime :=
  if bool_decide (r.(scenes) !! id = Some expected) then set_scenes r (delete id r.(scenes)) else r.

Definition spawn_step (r : SceneRuntime) (i : nat) (c : Caller) : option SceneRuntime :=
  match c with
  | Spawn s => Some (set_caller r i (if r.(closing) then Returned (Err SceneRuntimeClosed) else SpawnChecked s))
  | SpawnChecked s =>
      if r.(closing) then Some (set_caller r i (Returned (Err SceneRuntimeClosed)))
      else
        let id := scene_id s in
        if SceneRuntime_contains r id then Some (set_caller r i (Returned (Err SceneAlreadyExists)))
        else
          let actor := length r.(actors) in
          let r := set_scenes r (<[id := actor]> r.(scenes)) in
          let r := set_actors r (r.(actors) ++ [Actor_new s i]) in
          Some (set_caller r i (SpawnWaiting id actor))
  | SpawnWaiting id actor =>
      match r.(replies) !! (i, actor) with
      | None => None
      | Some (Some (Ok _)) => Some (set_caller r i (Returned (Ok None)))
      | Some (Some (Err error)) => Some (set_caller r i (SpawnFailed id actor error))
      | Some None => Some (set_caller r i (SpawnFailed id actor SceneUnavailable))
      end
  | SpawnFailed id actor error =>
      Some (set_caller (SceneRuntime_remove_if_current r id actor) i (Returned (Err error)))
  | _ => None
  end.

Definition call_step (r : SceneRuntime) (i : nat) (c : Caller) : option SceneRuntime :=
  match c with
  | Call id command =>
      Some (set_caller r i (if r.(closing) then Returned (Err SceneRuntimeClosed) else CallChecked id command))
  | CallChecked id command =>
      match SceneRuntime_handle r id with
      | (Err error, r) => Some (set_caller r i (Returned (Err error)))
      | (Ok actor, r) => Some (set_caller r i (CallSending actor command))
      end
  | CallSending actor command =>
      match try_send r i actor command with
      | Ok r => Some (set_caller r i (CallWaiting actor))
      | Err error => Some (set_caller r i (Returned (Err error)))
      end
  | CallWaiting actor =>
      match r.(replies) !! (i, actor) with
      | None => None
      | Some (Some result) => Some (set_caller r i (Returned result))
      | Some None => Some (set_caller r i (Returned (Err SceneUnavailable)))
      end
  | _ => None
  end.

Definition stop_step (r : SceneRuntime) (i : nat) (c : Caller) : option SceneRuntime :=
  match c with
  | Stop id =>
      match r.(scenes) !! id with
      | None => Some (set_caller r i (Returned (Err SceneNotFound)))
      | Some actor => Some (set_caller (set_scenes r (delete id r.(scenes))) i (StopRemoved actor))
      end
  | StopRemoved actor =>
      Some (set_caller r i (if actor_done r actor then Returned (Err SceneNotFound) else StopSending actor))
  | StopSending actor =>
      match send_stop r i actor with
      | Some r => Some (set_caller r i (StopWaiting actor))
      | None => Some (set_caller r i (Returned (Err SceneUnavailable)))
      end
  | StopWaiting actor =>
      match r.(replies) !! (i, actor) with
      | None => None
      | Some (Some result) => Some (set_caller r i (Returned result))
      | Some None => Some (set_caller r i (Returned (Err SceneUnavailable)))
      end
  | _ => None
  end.

Definition reply_error (reply : Reply) : option SceneError :=
  match reply with Some (Ok _) => None | Some (Err error) => Some error | None => Some SceneUnavailable end.

Definition shutdown_step (r : SceneRuntime) (i : nat) (c : Caller) : option SceneRuntime :=
  match c with
  | Shutdown =>
      Some (if r.(closing) then set_caller r i (Returned (Ok None)) else set_caller (set_closing r) i ShutdownClosing)
  | ShutdownClosing =>
      let actors := filter (fun actor => actor_done r actor = false) (snd <$> map_to_list r.(scenes)) in
      Some (set_caller (set_scenes r ∅) i (ShutdownSending actors []))
  | ShutdownSending [] sent => Some (set_caller r i (ShutdownWaiting sent None))
  | ShutdownSending (actor :: actors) sent =>
      match send_stop r i actor with
      | Some r => Some (set_caller r i (ShutdownSending actors (sent ++ [actor])))
      | None => Some (set_caller r i (ShutdownSending actors sent))
      end
  | ShutdownWaiting [] first_error =>
      Some (set_caller r i (Returned (match first_error with None => Ok None | Some error => Err error end)))
  | ShutdownWaiting (actor :: sent) first_error =>
      match r.(replies) !! (i, actor) with
      | None => None
      | Some reply =>
          Some (set_caller r i (ShutdownWaiting sent
            (match first_error with None => reply_error reply | Some error => Some error end)))
      end
  | _ => None
  end.

Definition caller_step (r : SceneRuntime) (i : nat) (c : Caller) : option SceneRuntime :=
  match c with
  | Spawn _ | SpawnChecked _ | SpawnWaiting _ _ | SpawnFailed _ _ _ => spawn_step r i c
  | Call _ _ | CallChecked _ _ | CallSending _ _ | CallWaiting _ => call_step r i c
  | Stop _ | StopRemoved _ | StopSending _ | StopWaiting _ => stop_step r i c
  | Shutdown | ShutdownClosing | ShutdownSending _ _ | ShutdownWaiting _ _ => shutdown_step r i c
  | Returned _ | Cancelled => None
  end.

(** The operations that await under a timeout. *)
Definition timed (c : Caller) : bool :=
  match c with StopWaiting _ | ShutdownWaiting _ _ => true | _ => false end.

(** The operations that can be dropped at an await. *)
Definition awaiting (c : Caller) : bool :=
  match c with SpawnWaiting _ _ | CallWaiting _ | StopWaiting _ | ShutdownWaiting _ _ => true | _ => false end.

(** A caller that owns a handle of the scene. *)
Definition owns (actor : nat) (c : Caller) : bool :=
  match c with
  | SpawnWaiting _ a | SpawnFailed _ a _ | CallSending a _ | CallWaiting a | StopRemoved a | StopSending a
  | StopWaiting a => bool_decide (a = actor)
  | ShutdownSending actors _ => bool_decide (actor ∈ actors)
  | _ => false
  end.

Definition orphan (r : SceneRuntime) (actor : nat) : bool :=
  negb (existsb (fun p => bool_decide (p.2 = actor)) (map_to_list r.(scenes)))
  && negb (existsb (owns actor) r.(callers)).

Inductive step : SceneRuntime -> SceneRuntime -> Prop :=
| step_caller r i c r' : r.(callers) !! i = Some c -> caller_step r i c = Some r' -> step r r'
| step_timeout r i c :
    r.(callers) !! i = Some c -> timed c = true -> step r (set_caller r i (Returned (Err SceneTimeout)))
| step_cancel r i c : r.(callers) !! i = Some c -> awaiting c = true -> step r (set_caller r i Cancelled)
| step_scene r actor a e a' out :
    r.(actors) !! actor = Some a -> run_scene_step r.(config) (orphan r actor) a e = Some (a', out) ->
    step r (add_replies (set_actors r (<[actor := a']> r.(actors))) actor out).

Notation steps := (rtc step).

(** ** Histories of the mailbox *)

Definition in_progress (a : Actor) : list (nat * Cmd) :=
  match a.(phase) with Executing caller command => [(caller, command)] | _ => [] end.

(** The commands that ran or run, in order. *)
Definition ran (a : Actor) : list (nat * Cmd) := (fst <$> a.(executed)) ++ in_progress a.

(** First in, first out: what the mailbox took has run, runs, waits or, once the scene is gone, was dropped. *)
Definition mailbox_ok (capacity : Z) (a : Actor) : Prop :=
  len a.(commands) <= capacity /\ (receiving a = false -> a.(commands) = []) /\
  exists dropped, a.(accepted) = ran a ++ a.(commands) ++ dropped /\ (receiving a = true -> dropped = []).

(** The callers of [stop] and [shutdown] a scene will answer. *)
Definition stop_callers (a : Actor) : list nat :=
  a.(control) ++ match a.(phase) with Stopping (Some i) | Ending (Some (i, _)) => [i] | _ => [] end.

(** The cases of [run_scene_step]. *)
Ltac scene_cases Hs a e :=
  let Hp := fresh "Hp" in
  unfold run_scene_step in Hs; destruct (phase a) eqn:Hp, e; try discriminate Hs; repeat case_match; simplify_eq;
  unfold ran, in_progress, receiving, stop_callers in *; cbn in *; rewrite ?Hp in *.

Lemma scene_step_history cfg orph a e a' out :
  run_scene_step cfg orph a e = Some (a', out) ->
  a'.(accepted) = a.(accepted) /\ a'.(starter) = a.(starter)
  /\ a.(executed) `prefix_of` a'.(executed) /\ len a'.(commands) <= len a.(commands)
  /\ (receiving a' = true -> ran a' ++ a'.(commands) = ran a ++ a.(commands))
  /\ (receiving a' = false -> ran a' = ran a /\ a'.(commands) = [])
  /\ receiving a = true /\ stop_callers a' ⊆ stop_callers a.
Proof.
  intros Hs. scene_cases Hs a e; split_and!; try done; try (rewrite ?fmap_app; cbn; rewrite <-?(assoc_L (++)); done);
    try (by apply prefix_app_r); try set_solver; try (by apply len_nonneg).
  all: rewrite ?len_cons; try lia.
  - match goal with H : control a = _ |- _ => rewrite H end. set_solver.
  - by destruct response.
Qed.

Lemma scene_step_mailbox capacity cfg orph a e a' out :
  run_scene_step cfg orph a e = Some (a', out) -> mailbox_ok capacity a -> mailbox_ok capacity a'.
Proof.
  intros Hs (Hlen & _ & dropped & Hacc & Hdr).
  destruct (scene_step_history _ _ _ _ _ _ Hs) as (Ha & _ & _ & Hl & Hr & Hg & Hrec & _). specialize (Hdr Hrec). subst.
  split; [lia|]. split; [intros H'; by apply Hg|]. destruct (receiving a') eqn:Hr'.
  - exists []. split; [|done]. rewrite Ha, Hacc, !app_nil_r. symmetry. by apply Hr.
  - destruct (Hg eq_refl) as [-> ->]. exists a.(commands). rewrite Ha, Hacc, app_nil_r. by split.
Qed.

(** Whom an event answers: the spawner, a caller of [stop], a caller whose command has just run, or a caller
    whose command was dropped with the mailbox. *)
Lemma scene_step_replies cfg orph a e a' out j reply :
  run_scene_step cfg orph a e = Some (a', out) -> (j, reply) ∈ out ->
  j = a.(starter) \/ j ∈ stop_callers a
  \/ (exists c g, (j, c, g) ∈ a'.(executed) /\ reply = Some (command_reply g))
  \/ (reply = None /\ receiving a' = false /\ exists c, (j, c) ∈ a.(commands)).
Proof.
  intros Hs Hj. scene_cases Hs a e; try (by apply elem_of_nil in Hj).
  all: try (apply list_elem_of_singleton in Hj; simplify_eq; first [by auto|right; right; left;
            eexists _, _; split; [apply elem_of_app; right; by apply list_elem_of_singleton|done]]).
  all: try (apply elem_of_cons in Hj as [Hj|Hj]; [simplify_eq; right; left; set_solver|]).
  all: apply elem_of_app in Hj as [([i c] & ? & Hin)%list_elem_of_fmap|(i & ? & Hin)%list_elem_of_fmap]; simplify_eq/=.
  all: first [right; right; right; by eauto|right; left; set_solver].
Qed.

Lemma ran_accepted capacity a p : mailbox_ok capacity a -> p ∈ ran a ++ a.(commands) -> p ∈ a.(accepted).
Proof. intros (_ & _ & dropped & -> & _) Hp. rewrite (assoc_L (++)). apply elem_of_app. by left. Qed.

(** ** The invariant *)

(** The operations the callers begin with. *)
Context (cs : list Caller).

Definition opening (c : Caller) : bool :=
  match c with Spawn _ | Call _ _ | Stop _ | Shutdown => true | _ => false end.

(** The command of a caller of [call]. *)
Definition called (i : nat) : option Cmd := match cs !! i with Some (Call _ command) => Some command | _ => None end.

(** The callers of [spawn], and those of [stop] and [shutdown]. *)
Definition spawns (i : nat) : bool := match cs !! i with Some (Spawn _) => true | _ => false end.
Definition stops (i : nat) : bool := match cs !! i with Some (Stop _) | Some Shutdown => true | _ => false end.

Lemma spawns_not_called i : spawns i = true -> called i = None.
Proof. unfold spawns, called. by destruct (cs !! i) as [[]|]. Qed.

Lemma stops_not_called i : stops i = true -> called i = None.
Proof. unfold stops, called. by destruct (cs !! i) as [[]|]. Qed.

Lemma spawns_not_stops i : spawns i = true -> stops i = false.
Proof. unfold spawns, stops. by destruct (cs !! i) as [[]|]. Qed.

Definition position_ok (c0 c : Caller) : Prop :=
  match c0, c with
  | _, Returned _ | _, Cancelled => opening c0 = true
  | Call _ command, (Call _ command' | CallChecked _ command' | CallSending _ command') => command' = command
  | Call _ _, CallWaiting _ => True
  | Spawn _, (Spawn _ | SpawnChecked _ | SpawnWaiting _ _ | SpawnFailed _ _ _) => True
  | Stop _, (Stop _ | StopRemoved _ | StopSending _ | StopWaiting _) => True
  | Shutdown, (Shutdown | ShutdownClosing | ShutdownSending _ _ | ShutdownWaiting _ _) => True
  | _, _ => False
  end.

(** A caller whose command may have been sent. *)
Definition sent (c : Caller) : bool := match c with CallWaiting _ | Returned _ | Cancelled => true | _ => false end.

Definition refused (res : SceneResult (option Out)) : Prop :=
  res = Err SceneRuntimeClosed \/ res = Err SceneNotFound \/ res = Err SceneUnavailable \/ res = Err SceneQueueFull.

(** The command ran and this is its result, or it was refused and neither ran nor will run. *)
Definition settled (r : SceneRuntime) (i : nat) (command : Cmd) (res : SceneResult (option Out)) : Prop :=
  (exists x a g, r.(actors) !! x = Some a /\ (i, command, g) ∈ a.(executed) /\ res = command_reply g)
  \/ (refused res /\ forall x a, r.(actors) !! x = Some a -> i ∉ (ran a ++ a.(commands)).*1).

Record scene_inv (r : SceneRuntime) : Prop := {
  inv_capacity : 0 <= r.(config).(mailbox_capacity);
  inv_mailbox x a : r.(actors) !! x = Some a -> mailbox_ok r.(config).(mailbox_capacity) a;
  inv_position i c : r.(callers) !! i = Some c -> exists c0, cs !! i = Some c0 /\ position_ok c0 c;
  inv_nodup x a : r.(actors) !! x = Some a -> NoDup a.(accepted).*1;
  inv_accepted x a i c : r.(actors) !! x = Some a -> (i, c) ∈ a.(accepted) ->
    called i = Some c /\ exists p, r.(callers) !! i = Some p /\ sent p = true;
  inv_one x y a b i c d : r.(actors) !! x = Some a -> r.(actors) !! y = Some b ->
    (i, c) ∈ a.(accepted) -> (i, d) ∈ b.(accepted) -> x = y;
  inv_kinds x a : r.(actors) !! x = Some a ->
    spawns a.(starter) = true /\ forall i, i ∈ stop_callers a -> stops i = true;
  inv_replies i x reply command : called i = Some command -> r.(replies) !! (i, x) = Some reply ->
    exists a, r.(actors) !! x = Some a /\
      ((exists g, (i, command, g) ∈ a.(executed) /\ reply = Some (command_reply g))
       \/ (reply = None /\ receiving a = false /\ i ∉ (ran a).*1 /\ exists c, (i, c) ∈ a.(accepted)));
  inv_returned i command res : called i = Some command -> r.(callers) !! i = Some (Returned res) ->
    settled r i command res;
}.

Lemma inv_set_scenes r m : scene_inv r -> scene_inv (set_scenes r m).
Proof. by intros []; split. Qed.

Lemma inv_set_closing r : scene_inv r -> scene_inv (set_closing r).
Proof. by intros []; split. Qed.

(** A caller moves and nothing else. *)
Lemma inv_set_caller r i c c' :
  scene_inv r -> r.(callers) !! i = Some c ->
  (forall c0, cs !! i = Some c0 -> position_ok c0 c -> position_ok c0 c') ->
  (sent c = true -> sent c' = true) ->
  (forall command res, called i = Some command -> c' = Returned res -> settled r i command res) ->
  scene_inv (set_caller r i c').
Proof.
  intros [Hcap Hm Hp Hn Ha Ho Hk Hr Ht] Hi Hpos Hsent Hres.
  assert (Hlt : (i < length r.(callers))%nat) by by eapply lookup_lt_Some.
  split; try done; cbn.
  - intros j p Hj. destruct (decide (j = i)) as [->|].
    + rewrite list_lookup_insert_eq in Hj by done. simplify_eq. destruct (Hp i c Hi) as (c0 & Hc0 & Hok). eauto.
    + rewrite list_lookup_insert_ne in Hj by done. by apply Hp.
  - intros x a j d Hx Hj. destruct (Ha x a j d Hx Hj) as (Hc & p & Hpj & Hs). split; [done|].
    destruct (decide (j = i)) as [->|]; [|rewrite list_lookup_insert_ne by done; eauto].
    exists c'. rewrite list_lookup_insert_eq by done. simplify_eq. auto.
  - intros j command res Hc Hj. destruct (decide (j = i)) as [->|].
    + rewrite list_lookup_insert_eq in Hj by done. simplify_eq. by apply Hres.
    + rewrite list_lookup_insert_ne in Hj by done. by apply Ht.
Qed.

Lemma lookup_insert_actor (l : list Actor) x y a b :
  <[x := a]> l !! y = Some b -> (y = x /\ b = a) \/ (y <> x /\ l !! y = Some b).
Proof. intros [(-> & <- & _)|[? ?]]%list_lookup_insert_Some; auto. Qed.

(** Histories only grow: what is settled stays settled, unless the caller's own command is sent. *)
Lemma settled_grows r r' i command res :
  (forall x a, r.(actors) !! x = Some a -> exists a', r'.(actors) !! x = Some a' /\ a.(executed) `prefix_of` a'.(executed)) ->
  (forall x a', r'.(actors) !! x = Some a' -> i ∈ (ran a' ++ a'.(commands)).*1 ->
     exists a, r.(actors) !! x = Some a /\ i ∈ (ran a ++ a.(commands)).*1) ->
  settled r i command res -> settled r' i command res.
Proof.
  intros Hup Hdown [(x & a & g & Hx & Hin & ->)|[Href Hno]]; [left|right].
  - destruct (Hup x a Hx) as (a' & Hx' & [k Hk]). exists x, a', g. split_and!; [done| |done]. rewrite Hk. set_solver.
  - split; [done|]. intros x a' Hx' Hi. destruct (Hdown x a' Hx' Hi) as (a & Hx & Hi'). by apply (Hno x a Hx).
Qed.

(** A new scene. *)
Lemma inv_add_actor r sc i : scene_inv r -> spawns i = true -> scene_inv (set_actors r (r.(actors) ++ [Actor_new sc i])).
Proof.
  intros [Hcap Hm Hp Hn Ha Ho Hk Hr Ht] Hi.
  assert (Hx : forall x a, (r.(actors) ++ [Actor_new sc i]) !! x = Some a -> r.(actors) !! x = Some a \/ a = Actor_new sc i).
  { intros x a [Hx|[_ Hx]]%lookup_app_Some; [by left|]. right. by apply list_lookup_singleton_Some in Hx as [_ <-]. }
  assert (Hold : forall x a, r.(actors) !! x = Some a -> (r.(actors) ++ [Actor_new sc i]) !! x = Some a).
  { intros x a Hx'. by apply lookup_app_l_Some. }
  split; cbn; try done.
  - intros x a [Hxa| ->]%Hx; [by eapply Hm|]. split; [done|]. split; [done|]. by exists [].
  - intros x a [Hxa| ->]%Hx; [by eapply Hn|constructor].
  - intros x a j c [Hxa| ->]%Hx Hj; [by eapply Ha|by apply elem_of_nil in Hj].
  - intros x y a b j c d [Hxa| ->]%Hx [Hyb| ->]%Hx Hj Hj'; try (by apply elem_of_nil in Hj); try (by apply elem_of_nil in Hj').
    by eapply Ho.
  - intros x a [Hxa| ->]%Hx; [by eapply Hk|]. split; [done|]. by intros j ?%elem_of_nil.
  - intros j x reply command Hc Hj. destruct (Hr j x reply command Hc Hj) as (a & Hxa & H'). eauto.
  - intros j command res Hc Hj. eapply (settled_grows r); [| |by apply Ht].
    + intros x a Hxa. exists a. by split; [apply Hold|].
    + intros x a [Hxa| ->]%Hx Hin; [eauto|by apply elem_of_nil in Hin].
Qed.

(** An actor changes without a reply: a scene is asked to stop. *)
Lemma inv_stop_actor r x a i :
  scene_inv r -> r.(actors) !! x = Some a -> stops i = true ->
  scene_inv (set_actors r (<[x := with_control a (a.(control) ++ [i])]> r.(actors))).
Proof.
  intros [Hcap Hm Hp Hn Ha Ho Hk Hr Ht] Hxa Hi. set (a' := with_control a _).
  assert (Hlt : (x < length r.(actors))%nat) by by eapply lookup_lt_Some.
  assert (Hback : forall y b, <[x := a']> r.(actors) !! y = Some b -> exists b0, r.(actors) !! y = Some b0
    /\ b.(accepted) = b0.(accepted) /\ b.(executed) = b0.(executed) /\ ran b = ran b0 /\ b.(commands) = b0.(commands)
    /\ receiving b = receiving b0 /\ b.(starter) = b0.(starter)
    /\ (forall j, j ∈ stop_callers b -> j ∈ stop_callers b0 \/ j = i)).
  { intros y b [[-> ->]|[_ Hy]]%lookup_insert_actor; [exists a|exists b; split_and!; auto].
    split_and!; [done..|]. intros j. unfold stop_callers, a'. cbn. rewrite !elem_of_app, list_elem_of_singleton. tauto. }
  assert (Hforth : forall y b, r.(actors) !! y = Some b -> exists b', <[x := a']> r.(actors) !! y = Some b'
    /\ b'.(accepted) = b.(accepted) /\ b'.(executed) = b.(executed) /\ ran b' = ran b /\ receiving b' = receiving b).
  { intros y b Hy. destruct (decide (y = x)) as [->|]; simplify_eq.
    - exists a'. by rewrite list_lookup_insert_eq.
    - exists b. by rewrite list_lookup_insert_ne. }
  split; cbn; try done.
  - intros y b Hy. destruct (Hback y b Hy) as (b0 & Hy0 & E1 & E2 & E3 & E4 & E5 & _). unfold mailbox_ok.
    rewrite E1, E3, E4, E5. by eapply Hm.
  - intros y b Hy. destruct (Hback y b Hy) as (b0 & Hy0 & -> & _). by eapply Hn.
  - intros y b j c Hy. destruct (Hback y b Hy) as (b0 & Hy0 & -> & _). by eapply Ha.
  - intros y z b d j e f Hy Hz. destruct (Hback y b Hy) as (b0 & Hy0 & -> & _), (Hback z d Hz) as (d0 & Hz0 & -> & _).
    by eapply Ho.
  - intros y b Hy. destruct (Hback y b Hy) as (b0 & Hy0 & _ & _ & _ & _ & _ & -> & Hs). destruct (Hk y b0 Hy0) as [H1 H2].
    split; [done|]. intros j Hj. destruct (Hs j Hj) as [?| ->]; auto.
  - intros j y reply command Hc Hj. destruct (Hr j y reply command Hc Hj) as (b & Hy & Hcase).
    destruct (Hforth y b Hy) as (b' & Hy' & E1 & E2 & E3 & E4). exists b'. rewrite E1, E2, E3, E4. done.
  - intros j command res Hc Hj. eapply (settled_grows r); [| |by apply Ht].
    + intros y b Hy. destruct (Hforth y b Hy) as (b' & Hy' & _ & E2 & _). exists b'. by rewrite E2.
    + cbn. intros y b Hy. destruct (Hback y b Hy) as (b0 & Hy0 & _ & _ & E3 & E4 & _). rewrite E3, E4. eauto.
Qed.

(** A caller that has not sent its command appears in no mailbox. *)
Lemma unsent_nowhere r i c x a :
  scene_inv r -> r.(callers) !! i = Some c -> sent c = false -> r.(actors) !! x = Some a -> i ∉ a.(accepted).*1.
Proof.
  intros Hinv Hi Hs Hx ([j d] & -> & Hin)%list_elem_of_fmap. cbn in *.
  destruct (inv_accepted r Hinv x a _ d Hx Hin) as (_ & p & Hp & Hs'). congruence.
Qed.

Lemma ran_in_accepted r x a i :
  scene_inv r -> r.(actors) !! x = Some a -> i ∈ (ran a ++ a.(commands)).*1 -> i ∈ a.(accepted).*1.
Proof.
  intros Hinv Hx (p & -> & Hp)%list_elem_of_fmap. apply list_elem_of_fmap. exists p. split; [done|].
  eapply ran_accepted; [by eapply inv_mailbox|done].
Qed.

(** A call whose command was not sent can be refused. *)
Lemma unsent_settled r i c command res :
  scene_inv r -> r.(callers) !! i = Some c -> sent c = false -> refused res -> settled r i command res.
Proof.
  intros Hinv Hi Hs Href. right. split; [done|]. intros x a Hx Hin.
  eapply unsent_nowhere; [done..|]. by eapply ran_in_accepted.
Qed.

Lemma sent_mailbox capacity a i command :
  mailbox_ok capacity a -> receiving a = true -> len a.(commands) < capacity -> mailbox_ok capacity (with_sent a i command).
Proof.
  intros (Hl & Hg & dropped & Hacc & Hdr) Hrec Hlt. specialize (Hdr Hrec). subst dropped.
  split; cbn; [rewrite len_app, len_cons, len_nil; lia|]. unfold receiving, ran, in_progress in *. cbn.
  split; [intros; by destruct (phase a)|]. exists []. split; [|done].
  rewrite Hacc, !app_nil_r. by rewrite <-!(assoc_L (++)).
Qed.

Section Send.
Context (r : SceneRuntime) (i x : nat) (command : Cmd) (a : Actor).
Context (Hinv : scene_inv r) (Hi : r.(callers) !! i = Some (CallSending x command)) (Hxa : r.(actors) !! x = Some a).
Notation actors' := (<[x := with_sent a i command]> r.(actors)).

Lemma sent_accepted y b j c :
  actors' !! y = Some b -> (j, c) ∈ b.(accepted) ->
  (j = i /\ c = command /\ y = x) \/ (j <> i /\ exists b0, r.(actors) !! y = Some b0 /\ (j, c) ∈ b0.(accepted)).
Proof.
  intros Hy Hj.
  assert (Hcase : (j = i /\ c = command /\ y = x) \/ exists b0, r.(actors) !! y = Some b0 /\ (j, c) ∈ b0.(accepted)).
  { apply lookup_insert_actor in Hy as [[-> ->]|[_ Hy]]; [|eauto]. cbn in Hj. set_solver. }
  destruct Hcase as [?|(b0 & Hy0 & Hj0)]; [by left|right]. split; [|eauto]. intros ->.
  apply (unsent_nowhere r i _ y b0 Hinv Hi eq_refl Hy0). apply list_elem_of_fmap. by exists (i, c).
Qed.

Lemma sent_called : called i = Some command.
Proof.
  destruct (inv_position r Hinv i _ Hi) as (c0 & Hc0 & Hpos). unfold called. rewrite Hc0.
  destruct c0; try done. cbn in Hpos. by subst.
Qed.

Lemma sent_settled r' j d res :
  r'.(actors) = actors' -> j <> i -> settled r j d res -> settled r' j d res.
Proof.
  intros Hact Hji. assert (Hlt : (x < length r.(actors))%nat) by by eapply lookup_lt_Some.
  apply settled_grows; rewrite Hact.
  - intros y b Hy. destruct (decide (y = x)) as [->|]; [|exists b; by rewrite list_lookup_insert_ne].
    exists (with_sent a i command). rewrite list_lookup_insert_eq by done. by simplify_eq.
  - intros y b [[-> ->]|[_ Hy]]%lookup_insert_actor Hin; [|eauto]. exists a. split; [done|].
    unfold ran, in_progress in *. cbn in Hin. rewrite (assoc_L (++)), fmap_app, elem_of_app in Hin. cbn in Hin.
    rewrite list_elem_of_singleton in Hin. naive_solver.
Qed.
End Send.

(** A command is sent. *)
Lemma inv_try_send r i x command r' :
  scene_inv r -> r.(callers) !! i = Some (CallSending x command) -> try_send r i x command = Ok r' ->
  scene_inv (set_caller r' i (CallWaiting x)).
Proof.
  intros Hinv Hi Hsend. unfold try_send in Hsend. destruct (r.(actors) !! x) as [a|] eqn:Hxa; [|done].
  destruct (receiving a) eqn:Hrec; [|done]. cbn in Hsend.
  destruct (Z.leb_spec (mailbox_capacity (config r)) (len a.(commands))); [done|]. injection Hsend as <-.
  pose proof (sent_accepted r i x command a Hinv Hi Hxa) as Hadd. pose proof (sent_called r i x command Hinv Hi) as Hcall.
  pose proof (sent_settled r i x command a Hxa) as Hset.
  assert (Hun := unsent_nowhere r i _ x a Hinv Hi eq_refl Hxa).
  assert (Hlt : (x < length r.(actors))%nat) by by eapply lookup_lt_Some.
  assert (Hci : (i < length r.(callers))%nat) by by eapply lookup_lt_Some.
  destruct Hinv as [Hcap Hm Hp Hn Ha Ho Hk Hr Ht].
  split; cbn; try done.
  - intros y b [[-> ->]|[_ Hy]]%lookup_insert_actor; [apply sent_mailbox; [by eapply Hm|done|lia]|by eapply Hm].
  - intros j p Hj. destruct (decide (j = i)) as [->|].
    + rewrite list_lookup_insert_eq in Hj by done. simplify_eq. destruct (Hp i _ Hi) as (c0 & Hc0 & Hok).
      exists c0. split; [done|]. by destruct c0.
    + rewrite list_lookup_insert_ne in Hj by done. by apply Hp.
  - intros y b [[-> ->]|[_ Hy]]%lookup_insert_actor; [|by eapply Hn]. cbn. rewrite fmap_app. apply NoDup_app.
    split_and!; [by eapply Hn| |apply NoDup_singleton]. intros j Hj Hj'%list_elem_of_singleton. cbn in Hj'. by subst.
  - intros y b j c Hy Hj. destruct (Hadd y b j c Hy Hj) as [(-> & -> & ->)|(Hne & b0 & Hy0 & Hj0)].
    + split; [done|]. exists (CallWaiting x). by rewrite list_lookup_insert_eq.
    + destruct (Ha y b0 j c Hy0 Hj0) as (Hc & p & Hpj & Hs). split; [done|]. exists p. by rewrite list_lookup_insert_ne.
  - intros y z b d j e f Hy Hz Hj Hj'.
    destruct (Hadd y b j e Hy Hj) as [(-> & -> & ->)|(? & b0 & Hy0 & Hb0)],
      (Hadd z d _ f Hz Hj') as [(? & -> & ->)|(? & d0 & Hz0 & Hd0)]; try done. by eapply Ho.
  - intros y b [[-> ->]|[_ Hy]]%lookup_insert_actor; [|by eapply Hk]. by apply (Hk x a).
  - intros j y reply d Hc Hj. destruct (Hr j y reply d Hc Hj) as (b & Hy & Hcase).
    destruct (decide (y = x)) as [->|]; [|exists b; by rewrite list_lookup_insert_ne].
    rewrite Hxa in Hy. injection Hy as <-. exists (with_sent a i command). rewrite list_lookup_insert_eq by done.
    split; [done|]. destruct Hcase as [?|(-> & H1 & H2 & c' & H3)]; [by left|congruence].
  - intros j d res Hc Hj. assert (j <> i) as Hji. { intros ->. by rewrite list_lookup_insert_eq in Hj. }
    rewrite list_lookup_insert_ne in Hj by done. apply Hset; [done|done|by apply Ht].
Qed.

Lemma add_replies_lookup r x l i y reply :
  (add_replies r x l).(replies) !! (i, y) = Some reply -> (y = x /\ (i, reply) ∈ l) \/ r.(replies) !! (i, y) = Some reply.
Proof.
  cbn. generalize r.(replies). induction l as [|[j v] l IH]; intros m; cbn; [by right|].
  intros [[-> Hin]|Hm]%IH; [left; set_solver|]. destruct (decide ((j, x) = (i, y))) as [[= -> ->]|Hne].
  - rewrite lookup_insert_eq in Hm. simplify_eq. left. set_solver.
  - rewrite lookup_insert_ne in Hm by done. by right.
Qed.

(** The commands that ran or wait after an event did so before. *)
Lemma scene_step_ran cfg orph a e a' out p :
  run_scene_step cfg orph a e = Some (a', out) -> p ∈ ran a' ++ a'.(commands) -> p ∈ ran a ++ a.(commands).
Proof.
  intros Hs Hp. destruct (scene_step_history _ _ _ _ _ _ Hs) as (_ & _ & _ & _ & Hr & Hg & _).
  destruct (receiving a'); [by rewrite <-Hr|]. destruct (Hg eq_refl) as [E1 E2]. rewrite E1, E2, app_nil_r in Hp. set_solver.
Qed.

(** The reply an event sends to a caller of [call]. *)
Lemma scene_step_answers r x a e a' out j command reply :
  scene_inv r -> r.(actors) !! x = Some a -> run_scene_step r.(config) (orphan r x) a e = Some (a', out) ->
  called j = Some command -> (j, reply) ∈ out ->
  (exists g, (j, command, g) ∈ a'.(executed) /\ reply = Some (command_reply g))
  \/ (reply = None /\ receiving a' = false /\ j ∉ (ran a').*1 /\ exists c, (j, c) ∈ a'.(accepted)).
Proof.
  intros Hinv Hx Hs Hc Hout. destruct (inv_kinds r Hinv x a Hx) as [Hst Hsc].
  pose proof (inv_mailbox r Hinv x a Hx) as Hmail.
  destruct (scene_step_history _ _ _ _ _ _ Hs) as (Hacc & _ & _ & _ & _ & Hg & Hrec & _).
  destruct (scene_step_replies _ _ _ _ _ _ _ _ Hs Hout) as [->|[Hj|[(c & g & Hin & ->)|(-> & Hr & c & Hin)]]].
  - by rewrite (spawns_not_called _ Hst) in Hc.
  - by rewrite (stops_not_called _ (Hsc j Hj)) in Hc.
  - left. exists g. split; [|done]. assert (called j = Some c) as Hc'; [|congruence].
    apply (inv_accepted r Hinv x a j c Hx). eapply ran_accepted; [done|]. eapply scene_step_ran; [done|].
    unfold ran. rewrite <-(assoc_L (++)). apply elem_of_app. left. apply list_elem_of_fmap. by exists (j, c, g).
  - right. destruct (Hg Hr) as [E1 _]. destruct Hmail as (_ & _ & dropped & Ha & _).
    pose proof (inv_nodup r Hinv x a Hx) as Hnd. rewrite Ha, fmap_app in Hnd. apply NoDup_app in Hnd as (_ & Hdis & _).
    split_and!; [done|done| |].
    + rewrite E1. intros Hran. apply (Hdis j Hran). apply list_elem_of_fmap. exists (j, c). split; [done|]. set_solver.
    + exists c. rewrite Hacc, Ha. set_solver.
Qed.

Lemma inv_scene_step r x a e a' out :
  scene_inv r -> r.(actors) !! x = Some a -> run_scene_step r.(config) (orphan r x) a e = Some (a', out) ->
  scene_inv (add_replies (set_actors r (<[x := a']> r.(actors))) x out).
Proof.
  intros Hinv Hx Hs. assert (Hans := fun j command reply => scene_step_answers r x a e a' out j command reply Hinv Hx Hs).
  assert (Hran := fun p => scene_step_ran _ _ _ _ _ _ p Hs).
  destruct (scene_step_history _ _ _ _ _ _ Hs) as (Hacc & Hst & Hex & _ & _ & _ & Hrec & Hsc).
  assert (Hlt : (x < length r.(actors))%nat) by by eapply lookup_lt_Some.
  destruct Hinv as [Hcap Hm Hp Hn Ha Ho Hk Hr Ht].
  assert (Hback : forall y b, <[x := a']> r.(actors) !! y = Some b ->
    exists b0, r.(actors) !! y = Some b0 /\ b.(accepted) = b0.(accepted)).
  { intros y b [[-> ->]|[_ Hy]]%lookup_insert_actor; eauto. }
  split; try done.
  - cbn. intros y b [[-> ->]|[_ Hy]]%lookup_insert_actor; [eapply scene_step_mailbox; [done|]|]; by eapply Hm.
  - cbn. intros y b (b0 & Hy & ->)%Hback. by eapply Hn.
  - cbn. intros y b j c (b0 & Hy & ->)%Hback. by eapply Ha.
  - cbn. intros y z b d j e' f (b0 & Hy & ->)%Hback (d0 & Hz & ->)%Hback. by eapply Ho.
  - cbn. intros y b [[-> ->]|[_ Hy]]%lookup_insert_actor; [|by eapply Hk]. rewrite Hst. destruct (Hk x a Hx) as [H1 H2].
    split; [done|]. intros j Hj. by apply H2, Hsc.
  - intros j y reply command Hc [[-> Hout]|Hold]%add_replies_lookup; cbn.
    + exists a'. rewrite list_lookup_insert_eq by done. split; [done|]. by apply Hans.
    + destruct (Hr j y reply command Hc Hold) as (b & Hy & Hcase). cbn in *.
      destruct (decide (y = x)) as [->|]; [|exists b; by rewrite list_lookup_insert_ne].
      simplify_eq. exists a'. rewrite list_lookup_insert_eq by done. split; [done|].
      destruct Hcase as [(g & Hin & ->)|(_ & Hg & _)]; [|congruence]. left. exists g. split; [|done].
      destruct Hex as [k ->]. set_solver.
  - intros j command res Hc Hj. eapply (settled_grows r); [| |by apply Ht]; cbn.
    + intros y b Hy. destruct (decide (y = x)) as [->|]; [|exists b; by rewrite list_lookup_insert_ne].
      simplify_eq. exists a'. by rewrite list_lookup_insert_eq.
    + intros y b [[-> ->]|[_ Hy]]%lookup_insert_actor Hin; [|eauto]. exists a. split; [done|].
      apply list_elem_of_fmap in Hin as (p & -> & Hin). apply list_elem_of_fmap. eauto.
Qed.

(** The positions of [call]. *)
Definition calling (c : Caller) : bool :=
  match c with Call _ _ | CallChecked _ _ | CallSending _ _ | CallWaiting _ => true | _ => false end.

Definition active (c : Caller) : bool := match c with Returned _ | Cancelled => false | _ => true end.

Lemma not_calling r i c : scene_inv r -> r.(callers) !! i = Some c -> active c = true -> calling c = false -> called i = None.
Proof.
  intros Hinv Hi Hact Hc. destruct (inv_position r Hinv i c Hi) as (c0 & Hc0 & Hpos). unfold called. rewrite Hc0.
  by destruct c0, c.
Qed.

Definition spawning (c : Caller) : bool :=
  match c with Spawn _ | SpawnChecked _ | SpawnWaiting _ _ | SpawnFailed _ _ _ => true | _ => false end.
Definition stopping (c : Caller) : bool :=
  match c with
  | Stop _ | StopRemoved _ | StopSending _ | StopWaiting _
  | Shutdown | ShutdownClosing | ShutdownSending _ _ | ShutdownWaiting _ _ => true
  | _ => false
  end.

Lemma spawning_spawns r i c : scene_inv r -> r.(callers) !! i = Some c -> spawning c = true -> spawns i = true.
Proof.
  intros Hinv Hi Hc. destruct (inv_position r Hinv i c Hi) as (c0 & Hc0 & Hpos). unfold spawns. rewrite Hc0.
  by destruct c0, c.
Qed.

Lemma stopping_stops r i c : scene_inv r -> r.(callers) !! i = Some c -> stopping c = true -> stops i = true.
Proof.
  intros Hinv Hi Hc. destruct (inv_position r Hinv i c Hi) as (c0 & Hc0 & Hpos). unfold stops. rewrite Hc0.
  by destruct c0, c.
Qed.

(** A caller of another operation moves within it. *)
Lemma inv_move_other r i c c' :
  scene_inv r -> r.(callers) !! i = Some c -> active c = true -> calling c = false ->
  (forall c0, position_ok c0 c -> position_ok c0 c') -> scene_inv (set_caller r i c').
Proof.
  intros Hinv Hi Hact Hc Hpos. pose proof (not_calling r i c Hinv Hi Hact Hc) as Hnone.
  eapply inv_set_caller; [done|done|by auto| |congruence]. by destruct c.
Qed.

(** A caller of [call] that has not sent its command moves. *)
Lemma inv_move_call r i c c' :
  scene_inv r -> r.(callers) !! i = Some c -> sent c = false -> (forall c0, position_ok c0 c -> position_ok c0 c') ->
  (forall res, c' = Returned res -> refused res) -> scene_inv (set_caller r i c').
Proof.
  intros Hinv Hi Hs Hpos Href. eapply inv_set_caller; [done|done|by auto|congruence|].
  intros command res _ ->. eapply unsent_settled; [done..|]. by apply Href.
Qed.

Ltac by_position := let H := fresh in intros [] H; cbn in *; by subst.

Lemma inv_spawn_step r i c r' :
  scene_inv r -> r.(callers) !! i = Some c -> spawn_step r i c = Some r' -> scene_inv r'.
Proof.
  intros Hinv Hi Hs. destruct c; try discriminate Hs; cbn in Hs; unfold SceneRuntime_handle, SceneRuntime_remove_if_current in *.
  - injection Hs as <-. eapply inv_move_other; [done|done|done|done|]. destruct (closing r); by_position.
  - destruct (closing r); [injection Hs as <-; eapply inv_move_other; [done..|by_position]|].
    destruct (SceneRuntime_contains _ _); injection Hs as <-; [eapply inv_move_other; [done..|by_position]|].
    eapply inv_move_other; [|done|done|done|by_position]. apply (inv_add_actor (set_scenes r _)); [by apply inv_set_scenes|].
    by eapply (spawning_spawns r).
  - destruct (replies r !! _) as [[[]|]|]; simplify_eq; (eapply inv_move_other; [done..|by_position]).
  - injection Hs as <-. eapply inv_move_other; [|by case_bool_decide|done|done|by_position].
    case_bool_decide; [by apply inv_set_scenes|done].
Qed.

Lemma inv_send_stop r i x c r' :
  scene_inv r -> r.(callers) !! i = Some c -> stopping c = true -> send_stop r i x = Some r' ->
  scene_inv r' /\ r'.(callers) = r.(callers).
Proof.
  intros Hinv Hi Hc Hs. unfold send_stop in Hs. destruct (actors r !! x) as [a|] eqn:Hx; [|done].
  destruct (receiving a); [|done]. injection Hs as <-. split; [|done].
  apply inv_stop_actor; [done|done|]. by eapply stopping_stops.
Qed.

Lemma inv_stop_step r i c r' :
  scene_inv r -> r.(callers) !! i = Some c -> stop_step r i c = Some r' -> scene_inv r'.
Proof.
  intros Hinv Hi Hs. destruct c; try discriminate Hs; cbn in Hs; unfold SceneRuntime_handle, SceneRuntime_remove_if_current in *.
  - destruct (scenes r !! _); injection Hs as <-; [|eapply inv_move_other; [done..|by_position]].
    eapply inv_move_other; [by apply inv_set_scenes|done..|by_position].
  - injection Hs as <-. eapply inv_move_other; [done..|]. destruct (actor_done _ _); by_position.
  - destruct (send_stop r i _) as [r1|] eqn:Hsend; injection Hs as <-; [|eapply inv_move_other; [done..|by_position]].
    destruct (inv_send_stop r i _ _ r1 Hinv Hi eq_refl Hsend) as [Hinv1 Hc1].
    eapply inv_move_other; [done|by rewrite Hc1|done|done|by_position].
  - destruct (replies r !! _) as [[]|]; simplify_eq; (eapply inv_move_other; [done..|by_position]).
Qed.

Lemma inv_shutdown_step r i c r' :
  scene_inv r -> r.(callers) !! i = Some c -> shutdown_step r i c = Some r' -> scene_inv r'.
Proof.
  intros Hinv Hi Hs. destruct c as [| | | | | | | | | | | | | |[|x actors] sent0|[|x sent0] first_error| |];
    try discriminate Hs; cbn in Hs.
  - injection Hs as <-. destruct (closing r); [eapply inv_move_other; [done..|by_position]|].
    eapply inv_move_other; [by apply inv_set_closing|done..|by_position].
  - injection Hs as <-. eapply inv_move_other; [by apply inv_set_scenes|done..|by_position].
  - injection Hs as <-. eapply inv_move_other; [done..|by_position].
  - destruct (send_stop r i x) as [r1|] eqn:Hsend; injection Hs as <-; [|eapply inv_move_other; [done..|by_position]].
    destruct (inv_send_stop r i _ _ r1 Hinv Hi eq_refl Hsend) as [Hinv1 Hc1].
    eapply inv_move_other; [done|by rewrite Hc1|done|done|by_position].
  - injection Hs as <-. eapply inv_move_other; [done..|by_position].
  - destruct (replies r !! _); simplify_eq. eapply inv_move_other; [done..|by_position].
Qed.

Lemma try_send_refused r i x command error : try_send r i x command = Err error -> refused (Err error).
Proof. unfold try_send, refused. intros Hs. repeat case_match; simplify_eq; auto. Qed.

Lemma inv_call_step r i c r' :
  scene_inv r -> r.(callers) !! i = Some c -> call_step r i c = Some r' -> scene_inv r'.
Proof.
  intros Hinv Hi Hs. destruct c; try discriminate Hs; cbn in Hs; unfold SceneRuntime_handle, SceneRuntime_remove_if_current in *.
  - injection Hs as <-. eapply inv_move_call; [done|done|done| |]; destruct (closing r); try by_position; try done.
    intros res [= <-]. unfold refused. auto.
  - destruct (scenes r !! _) as [x|]; [|injection Hs as <-].
    + destruct (actor_done _ _); injection Hs as <-; [|eapply inv_move_call; [done..|by_position|done]].
      eapply inv_move_call; [by apply inv_set_scenes|done|done|by_position|]. intros res [= <-]. unfold refused. auto.
    + eapply inv_move_call; [done..|by_position|]. intros res [= <-]. unfold refused. auto.
  - destruct (try_send r i _ _) as [r1|error] eqn:Hsend; injection Hs as <-; [by eapply inv_try_send|].
    eapply inv_move_call; [done..|by_position|]. intros res [= <-]. by eapply try_send_refused.
  - assert (Hset : forall reply command, called i = Some command -> r.(replies) !! (i, actor) = Some reply ->
      settled r i command (default (Err SceneUnavailable) reply)).
    { intros reply command Hc Hrep. destruct (inv_replies r Hinv i actor reply command Hc Hrep) as (a & Hx & Hcase).
      destruct Hcase as [(g & Hin & ->)|(-> & Hrec & Hno & d & Hin)]; [left; by exists actor, a, g|].
      right. split; [unfold refused; auto|]. intros y b Hy Hran.
      pose proof (ran_in_accepted r y b i Hinv Hy Hran) as Hb. apply list_elem_of_fmap in Hb as ([j e] & Hj & Hb). cbn in Hj. subst j.
      assert (y = actor) as -> by by eapply (inv_one r Hinv). simplify_eq.
      destruct (inv_mailbox r Hinv actor a Hx) as (_ & Hg & _). rewrite (Hg Hrec), app_nil_r in Hran. done. }
    destruct (replies r !! (i, actor)) as [[res|]|] eqn:Hrep; simplify_eq;
      (eapply inv_set_caller; [done|done|intros c0 _ Hp; by destruct c0|done|]); intros command res' Hc [= <-]; by apply (Hset _ command Hc eq_refl).
Qed.

Lemma inv_step r r' : step r r' -> scene_inv r -> scene_inv r'.
Proof.
  intros [r0 i c r1 Hi Hs|r0 i c Hi Ht|r0 i c Hi Hc|r0 x a e a' out Hx Hs] Hinv.
  - destruct c; cbn in Hs; try discriminate Hs;
      first [by eapply inv_spawn_step|by eapply inv_call_step|by eapply inv_stop_step|by eapply inv_shutdown_step].
  - destruct c; try discriminate Ht; (eapply inv_move_other; [done..|by_position]).
  - eapply inv_set_caller; [done|done| |done|done]. intros c0 _ Hp. by destruct c0, c.
  - by eapply inv_scene_step.
Qed.

Lemma inv_steps r r' : steps r r' -> scene_inv r -> scene_inv r'.
Proof. induction 1; [done|]. eauto using inv_step. Qed.

Lemma inv_new cfg r : forallb opening cs = true -> 0 <= cfg.(mailbox_capacity) ->
  SceneRuntime_new cfg cs = Ok r -> scene_inv r.
Proof.
  intros Hop Hcap Hnew. unfold SceneRuntime_new in Hnew. destruct (SceneRuntimeConfig_validate cfg); [|done].
  injection Hnew as <-. assert (Hall : forall i c, cs !! i = Some c -> opening c = true).
  { intros i c Hi. apply (proj1 (forallb_forall opening cs) Hop). apply list_elem_of_In. by eapply list_elem_of_lookup_2. }
  split; cbn; try done.
  - intros i c Hi. exists c. split; [done|]. specialize (Hall i c Hi). by destruct c.
  - intros i command res _ Hi. by specialize (Hall i _ Hi).
Qed.

(** ** No scene is left behind *)

(** The operation holds the scene and is about to ask it to stop. *)
Definition holds_stop (x : nat) (c : Caller) : bool :=
  match c with
  | StopRemoved y | StopSending y => bool_decide (y = x)
  | ShutdownSending actors _ => bool_decide (x ∈ actors)
  | _ => false
  end.

(** A [shutdown] past the swap of the closing flag, and past the emptying of the registry. *)
Definition swapped (c : Caller) : bool :=
  match c with ShutdownClosing | ShutdownSending _ _ | ShutdownWaiting _ _ => true | _ => false end.
Definition taken (c : Caller) : bool :=
  match c with ShutdownSending _ _ | ShutdownWaiting _ _ => true | _ => false end.

(** A live scene is registered, has been asked to stop, is stopping, or an operation is about to ask it. *)
Definition covered (r : SceneRuntime) (x : nat) (a : Actor) : Prop :=
  (exists id, r.(scenes) !! id = Some x) \/ a.(control) <> [] \/ (exists response, a.(phase) = Stopping response)
  \/ exists i c, r.(callers) !! i = Some c /\ holds_stop x c = true.

Definition gone (r : SceneRuntime) (x : nat) : Prop := exists a, r.(actors) !! x = Some a /\ done a = true.

Record registry_inv (r : SceneRuntime) : Prop := {
  reg_covered x a : r.(actors) !! x = Some a -> done a = false -> covered r x a;
  reg_spawned i x reply : spawns i = true -> r.(replies) !! (i, x) = Some reply ->
    reply = Some (Ok None) \/ gone r x;
  reg_failed i id x e : r.(callers) !! i = Some (SpawnFailed id x e) -> gone r x;
  reg_swapped i c : r.(callers) !! i = Some c -> swapped c = true -> r.(closing) = true;
  reg_single i j c d : r.(callers) !! i = Some c -> r.(callers) !! j = Some d ->
    swapped c = true -> swapped d = true -> i = j;
  reg_taken i c : r.(callers) !! i = Some c -> taken c = true -> r.(scenes) = ∅;
}.

Lemma gone_actor_done r x a : r.(actors) !! x = Some a -> actor_done r x = done a.
Proof. intros Hx. unfold actor_done. by rewrite Hx. Qed.

Lemma gone_insert r x y a a' :
  r.(actors) !! x = Some a -> (done a = true -> done a' = true) -> gone r y ->
  gone (set_actors r (<[x := a']> r.(actors))) y.
Proof.
  intros Hx Hd (b & Hy & Hb). assert (Hlt : (x < length r.(actors))%nat) by by eapply lookup_lt_Some.
  destruct (decide (y = x)) as [->|]; simplify_eq.
  - exists a'. cbn. rewrite list_lookup_insert_eq by done. auto.
  - exists b. cbn. by rewrite list_lookup_insert_ne.
Qed.

(** A caller moves and nothing else. *)
Lemma reg_set_caller r i c c' :
  registry_inv r -> r.(callers) !! i = Some c ->
  (forall x a, r.(actors) !! x = Some a -> done a = false -> holds_stop x c = true -> covered (set_caller r i c') x a) ->
  (forall id x e, c' = SpawnFailed id x e -> gone r x) ->
  (swapped c' = true -> swapped c = true) -> (taken c' = true -> r.(scenes) = ∅) ->
  registry_inv (set_caller r i c').
Proof.
  intros [Hc Hs Hf Hw H1 Ht] Hi Hcov Hfail Hsw Htk.
  assert (Hlt : (i < length r.(callers))%nat) by by eapply lookup_lt_Some.
  assert (Hcase : forall j d, <[i := c']> r.(callers) !! j = Some d -> (j = i /\ d = c') \/ (j <> i /\ r.(callers) !! j = Some d)).
  { intros j d [(-> & <- & _)|[? ?]]%list_lookup_insert_Some; auto. }
  split; cbn; try done.
  - intros x a Hx Hl. destruct (Hc x a Hx Hl) as [?|[?|[?|(j & d & Hj & Hh)]]]; [by left|by right; left|by right; right; left|].
    destruct (decide (j = i)) as [->|Hne]; [simplify_eq; by apply Hcov|]. right. right. right. exists j, d.
    cbn. by rewrite list_lookup_insert_ne.
  - intros j id x e [[-> <-]|[_ Hj]]%Hcase; [by eapply Hfail|by eapply Hf].
  - intros j d [[-> ->]|[_ Hj]]%Hcase Hd; [eapply (Hw i); [done|by auto]|by eapply Hw].
  - intros j k d e [[-> ->]|[? Hj]]%Hcase [[-> ->]|[? Hk]]%Hcase Hd He; try done;
      [eapply (H1 i k)|eapply (H1 j i)|eapply (H1 j k)]; eauto.
  - intros j d [[-> ->]|[_ Hj]]%Hcase Hd; [by auto|by eapply Ht].
Qed.

(** The common case: the caller holds nothing. *)
Lemma reg_move r i c c' :
  registry_inv r -> r.(callers) !! i = Some c -> (forall x, holds_stop x c = false) ->
  (forall id x e, c' = SpawnFailed id x e -> gone r x) ->
  (swapped c' = true -> swapped c = true) -> (taken c' = true -> r.(scenes) = ∅) ->
  registry_inv (set_caller r i c').
Proof. intros Hr Hi Hno. apply reg_set_caller with (c := c); [done|done|]. intros x a _ _ Hh. by rewrite Hno in Hh. Qed.

(** An entry of the registry is replaced or deleted that no live scene needs. *)
Lemma reg_set_scenes r m :
  registry_inv r ->
  (forall id x a, r.(scenes) !! id = Some x -> r.(actors) !! x = Some a -> done a = false -> exists id', m !! id' = Some x) ->
  (r.(scenes) = ∅ -> m = ∅) -> registry_inv (set_scenes r m).
Proof.
  intros [Hc Hs Hf Hw H1 Ht] Hm He. split; cbn; try done.
  - intros x a Hx Hl. destruct (Hc x a Hx Hl) as [[id Hid]|?]; [|by right]. left. by eapply Hm.
  - intros j d Hj Hd. apply He. by eapply Ht.
Qed.

Lemma reg_delete_done r id x :
  registry_inv r -> r.(scenes) !! id = Some x -> actor_done r x = true -> registry_inv (set_scenes r (delete id r.(scenes))).
Proof.
  intros Hr Hid Hd. apply reg_set_scenes; [done| |].
  - intros id' y a Hy Ha Hl. exists id'. destruct (decide (id' = id)) as [->|]; [|by rewrite lookup_delete_ne].
    simplify_eq. rewrite (gone_actor_done _ _ _ Ha) in Hd. congruence.
  - intros He. by rewrite He, lookup_empty in Hid.
Qed.

(** A scene is registered. *)
Lemma reg_add_actor r id sc i :
  registry_inv r -> r.(closing) = false -> SceneRuntime_contains r id = false ->
  registry_inv (set_actors (set_scenes r (<[id := length r.(actors)]> r.(scenes))) (r.(actors) ++ [Actor_new sc i])).
Proof.
  intros [Hc Hs Hf Hw H1 Ht] Hcl Hno.
  assert (Hgone : forall x, gone r x -> gone (set_actors (set_scenes r (<[id := length r.(actors)]> r.(scenes))) (r.(actors) ++ [Actor_new sc i])) x).
  { intros x (a & Hx & Hd). exists a. cbn. split; [by apply lookup_app_l_Some|done]. }
  split; cbn; try done.
  - intros x a [Hx|[Hge Hx]]%lookup_app_Some Hl.
    + destruct (Hc x a Hx Hl) as [[id' Hid]|?]; [|by right]. left. exists id'. cbn.
      destruct (decide (id' = id)) as [->|]; [|by rewrite lookup_insert_ne].
      unfold SceneRuntime_contains in Hno. rewrite Hid, (gone_actor_done _ _ _ Hx), Hl in Hno. done.
    + left. exists id. cbn. apply list_lookup_singleton_Some in Hx as [Hz _]. rewrite lookup_insert_eq. f_equal. lia.
  - intros j x reply Hj Hr. destruct (Hs j x reply Hj Hr); auto.
  - intros j id' x e Hj. apply Hgone. by eapply Hf.
  - intros j d Hj Hd. assert (swapped d = true) as Hd' by by destruct d. rewrite (Hw j d Hj Hd') in Hcl. done.
Qed.

(** Scenes leave the registry for an operation that will ask them to stop. *)
Lemma reg_unregister r i c c' m :
  registry_inv r -> r.(callers) !! i = Some c -> (forall x, holds_stop x c = false) ->
  (forall id x a, r.(scenes) !! id = Some x -> r.(actors) !! x = Some a -> done a = false ->
     (exists id', m !! id' = Some x) \/ holds_stop x c' = true) ->
  (r.(scenes) = ∅ -> m = ∅) -> (forall id x e, c' <> SpawnFailed id x e) ->
  (swapped c' = true -> swapped c = true) -> (taken c' = true -> m = ∅) ->
  registry_inv (set_caller (set_scenes r m) i c').
Proof.
  intros [Hc Hs Hf Hw H1 Ht] Hi Hno Hm He Hfail Hsw Htk.
  assert (Hlt : (i < length r.(callers))%nat) by by eapply lookup_lt_Some.
  assert (Hcase : forall j d, <[i := c']> r.(callers) !! j = Some d -> (j = i /\ d = c') \/ (j <> i /\ r.(callers) !! j = Some d)).
  { intros j d [(-> & <- & _)|[? ?]]%list_lookup_insert_Some; auto. }
  split; cbn; try done.
  - intros x a Hx Hl. destruct (Hc x a Hx Hl) as [[id Hid]|[?|[?|(j & d & Hj & Hh)]]]; [|by right; left|by right; right; left|].
    + destruct (Hm id x a Hid Hx Hl) as [?|?]; [by left|]. right. right. right. exists i, c'. cbn. by rewrite list_lookup_insert_eq.
    + right. right. right. exists j, d. cbn. rewrite list_lookup_insert_ne; [done|]. intros ->. simplify_eq. by rewrite Hno in Hh.
  - intros j id x e [[-> <-]|[_ Hj]]%Hcase; [by destruct (Hfail id x e)|by eapply Hf].
  - intros j d [[-> ->]|[_ Hj]]%Hcase Hd; [eapply (Hw i); [done|by auto]|by eapply Hw].
  - intros j k d e [[-> ->]|[? Hj]]%Hcase [[-> ->]|[? Hk]]%Hcase Hd Hd'; try done;
      [eapply (H1 i k)|eapply (H1 j i)|eapply (H1 j k)]; eauto.
  - intros j d [[-> ->]|[_ Hj]]%Hcase Hd; [by auto|]. apply He. by eapply Ht.
Qed.

(** A scene is asked to stop. *)
Lemma reg_send_stop r i x r' :
  registry_inv r -> send_stop r i x = Some r' ->
  registry_inv r' /\ r'.(callers) = r.(callers) /\ r'.(scenes) = r.(scenes)
  /\ (forall a, r'.(actors) !! x = Some a -> a.(control) <> []).
Proof.
  intros [Hc Hs Hf Hw H1 Ht] Hsend. unfold send_stop in Hsend. destruct (actors r !! x) as [a|] eqn:Hx; [|done].
  destruct (receiving a); [|done]. injection Hsend as <-.
  assert (Hlt : (x < length r.(actors))%nat) by by eapply lookup_lt_Some.
  set (a' := with_control a _). assert (Hgone := fun y => gone_insert r x y a a' Hx (fun H => H)).
  assert (Hne : a'.(control) <> []) by (cbn; by destruct (control a)).
  split_and!; [|done|done|]; [split; cbn; try done|].
  - intros y b [[-> ->]|[_ Hy]]%lookup_insert_actor Hl; [by right; left|]. by apply Hc.
  - intros j y reply Hj Hr. destruct (Hs j y reply Hj Hr); auto.
  - intros j id y e Hj. apply Hgone. by eapply Hf.
  - intros b. cbn. rewrite list_lookup_insert_eq by done. by intros [= <-].
Qed.

(** A scene that cannot be asked is no longer live. *)
Lemma send_stop_none r i x a : send_stop r i x = None -> r.(actors) !! x = Some a -> done a = true.
Proof. unfold send_stop, receiving, done. intros Hs Hx. rewrite Hx in Hs. by destruct (phase a). Qed.

Lemma scene_step_live cfg orph a e a' out :
  run_scene_step cfg orph a e = Some (a', out) -> done a' = false ->
  done a = false /\ (a.(control) <> [] -> a'.(control) <> [] \/ exists response, a'.(phase) = Stopping response)
  /\ forall response, a.(phase) <> Stopping response.
Proof.
  intros Hs Hl. unfold done in *. scene_cases Hs a e; split_and!; try done; try (by intros; left); try (by intros; right; eexists).
Qed.

Lemma scene_step_spawner cfg orph a e a' out j reply :
  run_scene_step cfg orph a e = Some (a', out) -> (j, reply) ∈ out ->
  reply = Some (Ok None) \/ done a' = true \/ j ∈ (ran a ++ a.(commands)).*1.
Proof.
  intros Hs Hj. unfold done. scene_cases Hs a e; try (by apply elem_of_nil in Hj); try (by auto);
    apply list_elem_of_singleton in Hj; simplify_eq; first [by auto|right; right; rewrite !fmap_app; set_solver].
Qed.

Ltac moves := eapply reg_move; [done|done|done|done|done|done].

Lemma reg_spawn_step r i c r' :
  scene_inv r -> registry_inv r -> r.(callers) !! i = Some c -> spawn_step r i c = Some r' -> registry_inv r'.
Proof.
  intros Hinv Hreg Hi Hs. destruct c; try discriminate Hs; cbn in Hs; unfold SceneRuntime_handle, SceneRuntime_remove_if_current in *.
  - injection Hs as <-. destruct (closing r); moves.
  - destruct (closing r) eqn:Hcl; [injection Hs as <-; moves|].
    destruct (SceneRuntime_contains _ _) eqn:Hno; injection Hs as <-; [moves|].
    pose proof (reg_add_actor r (scene_id s) s i Hreg Hcl Hno) as Hreg'. moves.
  - pose proof (spawning_spawns r i _ Hinv Hi eq_refl) as Hsp.
    assert (Hg : forall reply, r.(replies) !! (i, actor) = Some reply -> reply <> Some (Ok None) -> gone r actor).
    { intros reply Hr Hne. by destruct (reg_spawned r Hreg i actor reply Hsp Hr). }
    destruct (replies r !! _) as [[[]|]|] eqn:Hr; simplify_eq; [moves| |];
      (eapply reg_move; [done|done|done| |done|done]); intros id' x err [= _ <- _]; by eapply Hg.
  - injection Hs as <-. destruct (reg_failed r Hreg i id actor error Hi) as (a & Hx & Hd).
    case_bool_decide as Hcur; [|moves]. assert (Hreg' := reg_delete_done r id actor Hreg Hcur).
    rewrite (gone_actor_done _ _ _ Hx) in Hreg'. specialize (Hreg' Hd). moves.
Qed.

Lemma reg_call_step r i c r' :
  registry_inv r -> r.(callers) !! i = Some c -> call_step r i c = Some r' -> registry_inv r'.
Proof.
  intros Hreg Hi Hs. destruct c; try discriminate Hs; cbn in Hs; unfold SceneRuntime_handle, SceneRuntime_remove_if_current in *.
  - injection Hs as <-. destruct (closing r); moves.
  - destruct (scenes r !! id) as [x|] eqn:Hid; [|injection Hs as <-; moves].
    destruct (actor_done r x) eqn:Hd; injection Hs as <-; [|moves].
    pose proof (reg_delete_done r id x Hreg Hid Hd) as Hreg'. moves.
  - destruct (try_send r i _ _) as [r1|error] eqn:Hsend; injection Hs as <-; [|moves].
    unfold try_send in Hsend. destruct (actors r !! actor) as [a|] eqn:Hx; [|done]. repeat case_match; simplify_eq.
    assert (Hlt : (actor < length r.(actors))%nat) by by eapply lookup_lt_Some.
    assert (Hreg' : registry_inv (set_actors r (<[actor := with_sent a i command]> r.(actors)))); [|moves].
    assert (Hgone := fun y => gone_insert r actor y a (with_sent a i command) Hx (fun H => H)).
    destruct Hreg as [Hc Hsp Hf Hw H1' Ht]. split; cbn; try done.
    + intros y b [[-> ->]|[_ Hy]]%lookup_insert_actor Hl; [exact (Hc actor a Hx Hl)|exact (Hc y b Hy Hl)].
    + intros j y reply Hj Hr. destruct (Hsp j y reply Hj Hr); auto.
    + intros j id y e Hj. apply Hgone. by eapply Hf.
  - destruct (replies r !! _) as [[]|]; simplify_eq; moves.
Qed.

Lemma reg_stop_step r i c r' :
  registry_inv r -> r.(callers) !! i = Some c -> stop_step r i c = Some r' -> registry_inv r'.
Proof.
  intros Hreg Hi Hs. destruct c; try discriminate Hs; cbn in Hs; unfold SceneRuntime_handle, SceneRuntime_remove_if_current in *.
  - destruct (scenes r !! id) as [x|] eqn:Hid; injection Hs as <-; [|moves].
    eapply reg_unregister; [done|done|done| | |done|done|done].
    + intros id' y a Hy Hya Hl. destruct (decide (id' = id)) as [->|]; [|left; exists id'; by rewrite lookup_delete_ne].
      simplify_eq. right. cbn. by case_bool_decide.
    + intros He. by rewrite He, lookup_empty in Hid.
  - injection Hs as <-. eapply reg_set_caller; [done|done| | | |]; destruct (actor_done r actor) eqn:Hd; try done.
    + cbn. intros x a Hx Hl Hh. case_bool_decide; [|done]. subst. rewrite (gone_actor_done _ _ _ Hx) in Hd. congruence.
    + cbn. intros x a Hx Hl Hh. right. right. right. exists i, (StopSending actor). cbn.
      rewrite list_lookup_insert_eq by by eapply lookup_lt_Some. done.
  - destruct (send_stop r i actor) as [r1|] eqn:Hsend; injection Hs as <-.
    + destruct (reg_send_stop r i actor r1 Hreg Hsend) as (Hreg1 & Hc1 & _ & Hctl). rewrite <-Hc1 in Hi.
      eapply reg_set_caller; [done|done| |done|done|done]. intros x a Hx Hl Hh. cbn in Hh. case_bool_decide; [|done]. subst.
      right. left. by apply Hctl.
    + eapply reg_set_caller; [done|done| |done|done|done]. intros x a Hx Hl Hh. cbn in Hh. case_bool_decide; [|done]. subst.
      by rewrite (send_stop_none r i x a Hsend Hx) in Hl.
  - destruct (replies r !! _) as [[]|]; simplify_eq; moves.
Qed.

Lemma reg_shutdown_step r i c r' :
  registry_inv r -> r.(callers) !! i = Some c -> shutdown_step r i c = Some r' -> registry_inv r'.
Proof.
  intros Hreg Hi Hs. pose proof (reg_taken r Hreg i c Hi) as Htk.
  assert (Hlt : (i < length r.(callers))%nat) by by eapply lookup_lt_Some.
  destruct c as [| | | | | | | | | | | | | |[|x actors] sent0|[|x sent0] first_error| |]; try discriminate Hs; cbn in Hs.
  - injection Hs as <-. destruct (closing r) eqn:Hcl; [moves|]. destruct Hreg as [Hc Hsp Hf Hw H1 Ht].
    assert (Hnone : forall j d, r.(callers) !! j = Some d -> swapped d = false).
    { intros j d Hj. destruct (swapped d) eqn:Hd; [|done]. by rewrite (Hw j d Hj Hd) in Hcl. }
    assert (Hcase : forall j d, <[i := ShutdownClosing]> r.(callers) !! j = Some d -> swapped d = true -> j = i /\ d = ShutdownClosing).
    { intros j d [(-> & <- & _)|[_ Hj]]%list_lookup_insert_Some Hd; [done|]. by rewrite (Hnone j d Hj) in Hd. }
    split; cbn; try done.
    + intros y a Hy Hl. destruct (Hc y a Hy Hl) as [?|[?|[?|(j & d & Hj & Hh)]]]; [by left|by right; left|by right; right; left|].
      right. right. right. exists j, d. cbn. rewrite list_lookup_insert_ne; [done|]. intros <-. by simplify_eq.
    + intros j id y e [(-> & [=] & _)|[_ Hj]]%list_lookup_insert_Some. by eapply Hf.
    + intros j k d e Hj Hk Hd He. destruct (Hcase j d Hj Hd), (Hcase k e Hk He). congruence.
    + intros j d Hj Hd. destruct (Hcase j d Hj) as [_ ->]; [by destruct d|done].
  - injection Hs as <-. eapply reg_unregister; [done|done|done| |done|done|done|done].
    intros id y a Hy Hya Hl. right. cbn. case_bool_decide as Hin; [done|]. destruct Hin. apply list_elem_of_filter.
    split; [by rewrite (gone_actor_done _ _ _ Hya)|]. apply list_elem_of_fmap. exists (id, y). by rewrite elem_of_map_to_list.
  - injection Hs as <-. eapply reg_move; [done|done|done|done|done|by intros _; apply Htk].
  - destruct (send_stop r i x) as [r1|] eqn:Hsend; injection Hs as <-.
    + destruct (reg_send_stop r i x r1 Hreg Hsend) as (Hreg1 & Hc1 & Hs1 & Hctl). rewrite <-Hc1 in Hi, Hlt.
      eapply reg_set_caller; [done|done| |done|done|intros _; rewrite Hs1; by apply Htk].
      intros y a Hy Hl Hh. cbn in Hh. case_bool_decide as Hin; [|done]. apply elem_of_cons in Hin as [->|Hin]; [right; left; by apply Hctl|].
      right. right. right. exists i, (ShutdownSending actors (sent0 ++ [x])). cbn. rewrite list_lookup_insert_eq by done.
      by rewrite bool_decide_eq_true_2.
    + eapply reg_set_caller; [done|done| |done|done|by intros _; apply Htk].
      intros y a Hy Hl Hh. cbn in Hh. case_bool_decide as Hin; [|done]. apply elem_of_cons in Hin as [->|Hin].
      { by rewrite (send_stop_none r i x a Hsend Hy) in Hl. }
      right. right. right. exists i, (ShutdownSending actors sent0). cbn. rewrite list_lookup_insert_eq by done.
      by rewrite bool_decide_eq_true_2.
  - injection Hs as <-. moves.
  - destruct (replies r !! _); simplify_eq. eapply reg_move; [done|done|done|done|done|by intros _; apply Htk].
Qed.

Lemma reg_scene_step r x a e a' out :
  scene_inv r -> registry_inv r -> r.(actors) !! x = Some a ->
  run_scene_step r.(config) (orphan r x) a e = Some (a', out) ->
  registry_inv (add_replies (set_actors r (<[x := a']> r.(actors))) x out).
Proof.
  intros Hinv [Hc Hsp Hf Hw H1 Ht] Hx Hs. pose proof (scene_step_live _ _ _ _ _ _ Hs) as Hlive.
  assert (Hgone := fun y => gone_insert r x y a a' Hx). assert (Hd : done a = true -> done a' = true).
  { intros Hda. destruct (done a') eqn:Hda'; [done|]. destruct (Hlive eq_refl) as [? _]. congruence. }
  assert (Hlt : (x < length r.(actors))%nat) by by eapply lookup_lt_Some.
  split; try done.
  - cbn. intros y b [[-> ->]|[_ Hy]]%lookup_insert_actor Hl; [|exact (Hc y b Hy Hl)].
    destruct (Hlive Hl) as (Hla & Hctl & Hst). destruct (Hc x a Hx Hla) as [?|[Hk|[[resp Hp]|?]]].
    + by left.
    + right. destruct (Hctl Hk) as [?|?]; auto.
    + by destruct (Hst resp).
    + by right; right; right.
  - intros j y reply Hj [[-> Hout]|Hold]%add_replies_lookup.
    + destruct (scene_step_spawner _ _ _ _ _ _ _ _ Hs Hout) as [?|[Hd'|Hran]]; [by left| |].
      * right. exists a'. cbn. by rewrite list_lookup_insert_eq.
      * apply (ran_in_accepted r x a j Hinv Hx) in Hran. apply list_elem_of_fmap in Hran as ([j' c] & -> & Hin).
        destruct (inv_accepted r Hinv x a _ c Hx Hin) as [Hcalled _]. cbn in *. by rewrite (spawns_not_called _ Hj) in Hcalled.
    + destruct (Hsp j y reply Hj Hold) as [?|?]; [by left|]. right. by apply Hgone.
  - intros j id y err Hj. apply Hgone; [done|]. by eapply Hf.
Qed.

Lemma reg_step r r' : step r r' -> scene_inv r -> registry_inv r -> registry_inv r'.
Proof.
  intros [r0 i c r1 Hi Hs|r0 i c Hi Ht|r0 i c Hi Hc|r0 x a e a' out Hx Hs] Hinv Hreg.
  - destruct c; cbn in Hs; try discriminate Hs;
      first [by eapply reg_spawn_step|by eapply reg_call_step|by eapply reg_stop_step|by eapply reg_shutdown_step].
  - destruct c; try discriminate Ht; moves.
  - destruct c; try discriminate Hc; moves.
  - by eapply reg_scene_step.
Qed.

Lemma reg_steps r r' : steps r r' -> scene_inv r -> registry_inv r -> registry_inv r'.
Proof. induction 1; [done|]. eauto using inv_step, reg_step. Qed.

Lemma reg_new cfg r : forallb opening cs = true -> SceneRuntime_new cfg cs = Ok r -> registry_inv r.
Proof.
  intros Hop Hnew. unfold SceneRuntime_new in Hnew. destruct (SceneRuntimeConfig_validate cfg); [|done].
  injection Hnew as <-. assert (Hall : forall i c, cs !! i = Some c -> opening c = true).
  { intros i c Hi. apply (proj1 (forallb_forall opening cs) Hop). apply list_elem_of_In. by eapply list_elem_of_lookup_2. }
  split; cbn; try done.
  - intros i id x e Hi. by specialize (Hall i _ Hi).
  - intros i c Hi Hc. specialize (Hall i c Hi). by destruct c.
  - intros i j c d Hi _ Hc _. specialize (Hall i c Hi). by destruct c.
Qed.

(** *** After a shutdown *)

Definition shut (r : SceneRuntime) : Prop :=
  r.(closing) = true /\ r.(scenes) = ∅
  /\ forall i c, r.(callers) !! i = Some c -> swapped c = true -> exists sent first_error, c = ShutdownWaiting sent first_error.

(** What a step of a closed runtime leaves as it is. *)
Lemma shut_step r r' : step r r' -> shut r -> shut r' /\ length r'.(actors) = length r.(actors).
Proof.
  intros Hstep (Hcl & Hsc & Hw).
  assert (Hmove : forall (r1 : SceneRuntime) i c', r1.(callers) = r.(callers) -> r1.(closing) = true -> r1.(scenes) = ∅ ->
    length r1.(actors) = length r.(actors) ->
    (swapped c' = true -> exists sent first_error, c' = ShutdownWaiting sent first_error) ->
    shut (set_caller r1 i c') /\ length (set_caller r1 i c').(actors) = length r.(actors)).
  { intros r1 i c' E1 E2 E3 E4 Hc'. split; [|done]. split_and!; [done|done|]. cbn. rewrite E1.
    intros j d [(-> & <- & _)|[_ Hj]]%list_lookup_insert_Some; [done|]. by eapply Hw. }
  assert (Htry : forall i x command r1, try_send r i x command = Ok r1 ->
    r1.(callers) = r.(callers) /\ r1.(closing) = true /\ r1.(scenes) = ∅ /\ length r1.(actors) = length r.(actors)).
  { intros i x command r1 Hs. unfold try_send in Hs. repeat case_match; simplify_eq. split_and!; [done..|]. apply length_insert. }
  assert (Hsend : forall i x r1, send_stop r i x = Some r1 ->
    r1.(callers) = r.(callers) /\ r1.(closing) = true /\ r1.(scenes) = ∅ /\ length r1.(actors) = length r.(actors)).
  { intros i x r1 Hs. unfold send_stop in Hs. repeat case_match; simplify_eq. split_and!; [done..|]. apply length_insert. }
  destruct Hstep as [r0 i c r1 Hi Hs|r0 i c Hi Ht|r0 i c Hi Hc|r0 x a e a' out Hx Hs].
  - destruct (swapped c) eqn:Hsw.
    + destruct (Hw i c Hi Hsw) as (snt & err & ->). destruct snt as [|y snt]; cbn in Hs; [simplify_eq; by apply Hmove|].
      destruct (replies r0 !! _); simplify_eq. apply Hmove; eauto.
    + destruct c; try discriminate Hsw; try discriminate Hs; cbn in Hs;
        unfold SceneRuntime_handle, SceneRuntime_remove_if_current in *; rewrite ?Hcl, ?Hsc, ?lookup_empty in Hs; simplify_eq;
        repeat case_match; simplify_eq; try (by apply Hmove).
      * destruct (Htry i actor command _ ltac:(eassumption)) as (E1 & E2 & E3 & E4). by apply Hmove.
      * destruct (Hsend i actor _ ltac:(eassumption)) as (E1 & E2 & E3 & E4). by apply Hmove.
  - by apply Hmove.
  - by apply Hmove.
  - cbn. split; [done|]. apply length_insert.
Qed.

Lemma shut_steps r r' : steps r r' -> shut r -> shut r' /\ length r'.(actors) = length r.(actors).
Proof.
  induction 1 as [|r r1 r2 Hs _ IH]; intros Hshut; [done|]. destruct (shut_step _ _ Hs Hshut) as [H1 E1].
  destruct (IH H1) as [H2 E2]. split; [done|congruence].
Qed.

Lemma shutdown_shuts r i snt err :
  registry_inv r -> r.(callers) !! i = Some (ShutdownWaiting snt err) -> shut r.
Proof.
  intros Hreg Hi. split_and!; [by eapply reg_swapped|by eapply reg_taken|].
  intros j c Hj Hc. assert (j = i) as -> by (eapply reg_single; eauto). simplify_eq. eauto.
Qed.
End Scenes.

(** C7: A call to a scene runs once, in order, or not at all.  For any callers spawning, calling, stopping and
    shutting down in any interleaving, with hooks and commands that succeed, fail, panic or time out, and calls
    that are dropped: every scene runs the commands its mailbox took one at a time, first in first out, and
    never holds more than its capacity; the command of a call runs at most once, in one scene; and when the
    call returns, either its command ran and the result is what that run produced (its output, its error,
    the timeout or the panic), or the call was refused (closed, not found, full, unavailable) and the command
    neither ran nor is waiting to. *)
Theorem scene_calls_run_once {S Id Cmd Out} `{Countable Id} (scene_id : S -> Id) (config : SceneRuntimeConfig)
    (cs : list (Caller (S := S) (Id := Id) (Cmd := Cmd) (Out := Out))) (r0 r : SceneRuntime) (i : nat) (id : Id)
    (command : Cmd)
  (Hnew : SceneRuntime_new config cs = Ok r0 /\ 0 <= config.(mailbox_capacity))
  (Hcallers : forallb opening cs = true /\ cs !! i = Some (Call id command))
  (Hreached : rtc (step scene_id) r0 r) :
  (forall x a, r.(actors) !! x = Some a -> mailbox_ok r.(WorldScene.config).(mailbox_capacity) a /\ NoDup (ran a).*1)
  /\ (forall x y a b, r.(actors) !! x = Some a -> r.(actors) !! y = Some b ->
        i ∈ (ran a).*1 -> i ∈ (ran b).*1 -> x = y)
  /\ (forall res, r.(callers) !! i = Some (Returned res) -> settled r i command res).
Proof.
  destruct Hnew as [Hnew Hcap], Hcallers as [Hop Hi].
  pose proof (inv_steps scene_id cs _ _ Hreached (inv_new cs config r0 Hop Hcap Hnew)) as Hinv.
  assert (Hacc : forall x a, r.(actors) !! x = Some a -> (ran a).*1 `prefix_of` a.(accepted).*1).
  { intros x a Hx. destruct (inv_mailbox cs r Hinv x a Hx) as (_ & _ & dropped & -> & _).
    rewrite fmap_app. by apply prefix_app_r. }
  split_and!.
  - intros x a Hx. split; [by eapply inv_mailbox|]. destruct (Hacc x a Hx) as [k Hk].
    pose proof (inv_nodup cs r Hinv x a Hx) as Hnd. rewrite Hk in Hnd. by apply NoDup_app in Hnd as [? _].
  - intros x y a b Hx Hy Hin Hin'. destruct (Hacc x a Hx) as [k Hk], (Hacc y b Hy) as [l Hl].
    assert (i ∈ a.(accepted).*1) as ([j c] & -> & Hc)%list_elem_of_fmap by (rewrite Hk; apply elem_of_app; by left).
    assert (j ∈ b.(accepted).*1) as ([j' d] & Hj & Hd)%list_elem_of_fmap by (rewrite Hl; apply elem_of_app; by left).
    cbn in Hj. subst j'. by eapply (inv_one cs r Hinv).
  - intros res. apply (inv_returned cs r Hinv). unfold called. by rewrite Hi.
Qed.

(** C35: A shutdown leaves no scene behind.  Once a [shutdown] waits for its scenes, then from that moment on,
    whatever the other callers do, the registry stays empty, no scene is started any more, and every scene
    that is still live has been asked to stop, is stopping, or is in the hands of a [stop] that is about to ask
    it: no interleaving of spawns, stops and the shutdown lets a scene escape. *)
Theorem shutdown_leaves_no_scene {S Id Cmd Out} `{Countable Id} (scene_id : S -> Id) (config : SceneRuntimeConfig)
    (cs : list (Caller (S := S) (Id := Id) (Cmd := Cmd) (Out := Out))) (r0 r1 r2 : SceneRuntime) (i : nat)
    (waiting : list nat) (first_error : option SceneError)
  (Hnew : SceneRuntime_new config cs = Ok r0 /\ 0 <= config.(mailbox_capacity))
  (Hcallers : forallb opening cs = true)
  (Hwaits : rtc (step scene_id) r0 r1 /\ r1.(callers) !! i = Some (ShutdownWaiting waiting first_error))
  (Hlater : rtc (step scene_id) r1 r2) :
  r2.(scenes) = ∅ /\ length r2.(actors) = length r1.(actors)
  /\ forall x a, r2.(actors) !! x = Some a -> done a = false ->
       a.(control) <> [] \/ (exists response, a.(phase) = Stopping response)
       \/ exists j, r2.(callers) !! j = Some (StopRemoved x) \/ r2.(callers) !! j = Some (StopSending x).
Proof.
  destruct Hnew as [Hnew Hcap], Hwaits as [Hr1 Hi].
  pose proof (inv_new cs config r0 Hcallers Hcap Hnew) as Hinv0. pose proof (reg_new cs config r0 Hcallers Hnew) as Hreg0.
  pose proof (inv_steps scene_id cs _ _ Hr1 Hinv0) as Hinv1. pose proof (reg_steps scene_id cs _ _ Hr1 Hinv0 Hreg0) as Hreg1.
  pose proof (reg_steps scene_id cs _ _ Hlater Hinv1 Hreg1) as Hreg2.
  destruct (shut_steps scene_id _ _ Hlater (shutdown_shuts cs r1 i waiting first_error Hreg1 Hi)) as [(Hcl & Hsc & Hw) Hlen].
  split_and!; [done|done|]. intros x a Hx Hl.
  destruct (reg_covered cs r2 Hreg2 x a Hx Hl) as [[id Hid]|[?|[?|(j & c & Hj & Hh)]]]; [|by left|by right; left|].
  - by rewrite Hsc, lookup_empty in Hid.
  - right. right. exists j. destruct c; try discriminate Hh; cbn in Hh; case_bool_decide; try done; subst; auto.
    destruct (Hw j _ Hj eq_refl) as (? & ? & [=]).
Qed.

(** ** Examples

    Scenes are counters identified by a number; a command adds to the counter and returns it. *)
Module SceneExamples.
Definition scene_of (s : Z * Z) : Z := s.1.

Definition Runtime : Type := SceneRuntime (S := Z * Z) (Id := Z) (Cmd := Z) (Out := Z).
Definition Operation : Type := Caller (S := Z * Z) (Id := Z) (Cmd := Z) (Out := Z).

(** A step of the caller [i], or an event of the scene [x]. *)
Inductive Move : Type :=
| Next (i : nat)
| SceneDoes (x : nat) (e : SceneEvent (S := Z * Z) (Out := Z)).

Definition move (r : Runtime) (m : Move) : Runtime :=
  match m with
  | Next i =>
      match r.(callers) !! i with
      | Some c => default r (caller_step scene_of r i c)
      | None => r
      end
  | SceneDoes x e =>
      match r.(actors) !! x with
      | Some a =>
          match run_scene_step r.(config) (orphan r x) a e with
          | Some (a', out) => add_replies (set_actors r (<[x := a']> r.(actors))) x out
          | None => r
          end
      | None => r
      end
  end.

Lemma move_steps ms : forall r, rtc (step scene_of) r (foldl move r ms).
Proof.
  induction ms as [|m ms IH]; intros r; cbn; [done|]. etrans; [|apply IH]. destruct m as [i|x e]; cbn.
  - destruct (callers r !! i) as [c|] eqn:Hi; [|done]. destruct (caller_step scene_of r i c) as [r'|] eqn:Hs; cbn; [|done].
    by eapply rtc_once, step_caller.
  - destruct (actors r !! x) as [a|] eqn:Hx; [|done].
    destruct (run_scene_step _ _ a e) as [[a' out]|] eqn:Hs; [|done]. by eapply rtc_once, step_scene.
Qed.

Definition ok {A} (a : A) : Guarded A := Completed (Ok a).

Definition runtime (cs : list Operation) : Runtime :=
  {| config := SceneRuntimeConfig_default; scenes := ∅; closing := false; actors := []; replies := ∅; callers := cs |}.

Definition players : list Operation := [Spawn (7, 0); Call 7 5; Shutdown].

(** The scene 7 starts, adds 5, and a shutdown asks it to stop. *)
Definition session : Runtime :=
  foldl move (runtime players)
    [Next 0; Next 0; SceneDoes 0 (Started (ok ()) (7, 0)); Next 0; Next 1; Next 1; Next 1;
     SceneDoes 0 TakeCommand; SceneDoes 0 (CommandEnds (ok 5) (7, 5)); Next 1; Next 2; Next 2; Next 2; Next 2].

Lemma scene_calls_run_once_witness :
  session.(callers) !! 1%nat = Some (Returned (Ok (Some 5))) /\ settled session 1 5 (Ok (Some 5)).
Proof.
  split; [vm_compute; reflexivity|].
  apply (scene_calls_run_once scene_of SceneRuntimeConfig_default players (runtime players) session 1 7 5).
  - split; [reflexivity|vm_compute; discriminate].
  - split; reflexivity.
  - apply move_steps.
  - vm_compute. reflexivity.
Defined.

Lemma shutdown_leaves_no_scene_witness :
  let later := foldl move session [SceneDoes 0 TakeStop; SceneDoes 0 (Stopped (ok ()) (7, 5))] in
  later.(scenes) = ∅ /\ length later.(actors) = 1%nat.
Proof.
  cbn zeta.
  destruct (shutdown_leaves_no_scene scene_of SceneRuntimeConfig_default players (runtime players) session
    (foldl move session [SceneDoes 0 TakeStop; SceneDoes 0 (Stopped (ok ()) (7, 5))]) 2 [0%nat] None) as (H1 & H2 & _).
  - split; [reflexivity|vm_compute; discriminate].
  - reflexivity.
  - split; [apply move_steps|vm_compute; reflexivity].
  - apply move_steps.
  - split; [exact H1|rewrite H2; vm_compute; reflexivity].
Defined.

(** A stopped scene is unregistered before its task has ended: a new scene with its identifier is accepted
    while the old one still executes a command. *)
Lemma two_live_scenes_of_one_id :
  let r := foldl move (runtime [Spawn (7, 0); Call 7 5; Stop 7; Spawn (7, 0)])
    [Next 0; Next 0; SceneDoes 0 (Started (ok ()) (7, 0)); Next 0; Next 1; Next 1; Next 1;
     SceneDoes 0 TakeCommand; Next 2; Next 2; Next 2; Next 3; Next 3; SceneDoes 1 (Started (ok ()) (7, 0)); Next 3] in
  r.(callers) !! 3%nat = Some (Returned (Ok None))
  /\ phase <$> r.(actors) = [Executing 1 5; Idle] /\ scene_of ∘ scene <$> r.(actors) = [7; 7].
Proof. vm_compute. done. Qed.
End SceneExamples.
