(* ===== verification/PlayerSync.v ===== *)
(** * Player cache synchronisation: [player/invalidation.rs] and [player/loader.rs] of [elura-world]

    Every world keeps a cache of players; a world that commits a new state of a player stores it and
    publishes an invalidation, which the others apply to their caches.  The bus is an adapter: [publish]
    yields the message that is given to it, and what it delivers is the environment's.  The second half puts
    worlds, database and a bus that reorders, repeats and loses messages together and says when the caches
    agree with the database. *)

From S2P Require Import Prelude CoreError Identity Futures WorldRuntime PlayerCache.

Definition INVALIDATION_SCHEMA_VERSION : Z := 2.

Record PlayerInvalidation : Type := {
  schema_version : Z;
  namespace : string;
  player : PlayerKey;
  minimum_version : Z;
  source_id : string;
}.

#[export] Instance PlayerInvalidation_eq_dec : EqDecision PlayerInvalidation.
Proof. solve_decision. Defined.

Definition PlayerInvalidation_validate (self : PlayerInvalidation) : Result unit :=
  if negb (self.(schema_version) =? INVALIDATION_SCHEMA_VERSION) || String.eqb self.(namespace) ""
     || negb (is_ok (PlayerKey_validate self.(player))) || String.eqb self.(source_id) "" then
    Err (InvalidConfig "invalid player cache invalidation")
  else Ok ().

Section Synchronizer.
Context {T : Type}.

(** [PlayerCacheSynchronizer]; the bus is outside. *)
Record PlayerCacheSynchronizer : Type := {
  cache : PlayerCache T;
  sync_namespace : string;
  sync_source_id : string;
}.

Definition with_cache (self : PlayerCacheSynchronizer) (c : PlayerCache T) : PlayerCacheSynchronizer :=
  {| cache := c; sync_namespace := self.(sync_namespace); sync_source_id := self.(sync_source_id) |}.

Definition PlayerCacheSynchronizer_new (cache : PlayerCache T) (namespace source_id : string) :
    Result PlayerCacheSynchronizer :=
  if String.eqb namespace "" || String.eqb source_id "" then
    Err (InvalidConfig "player cache namespace and source ID are required")
  else Ok {| cache := cache; sync_namespace := namespace; sync_source_id := source_id |}.

(** The message a synchronizer publishes. *)
Definition invalidation (self : PlayerCacheSynchronizer) (player : PlayerKey) (minimum_version : Z) :
    PlayerInvalidation :=
  {| schema_version := INVALIDATION_SCHEMA_VERSION; namespace := self.(sync_namespace); player := player;
     minimum_version := minimum_version; source_id := self.(sync_source_id) |}.

(** [Ok]: the message handed to the bus, whose answer is the caller's. *)
Definition PlayerCacheSynchronizer_store_committed (self : PlayerCacheSynchronizer) (player : PlayerKey)
    (snapshot : PlayerSnapshot T) (now : Z) : Result PlayerInvalidation * PlayerCacheSynchronizer :=
  let '(stored, c) := PlayerCache_store self.(cache) player snapshot now in
  let self := with_cache self c in
  let? _ := stored else self in
  (Ok (invalidation self player snapshot.(version)), self).

Definition PlayerCacheSynchronizer_delete_committed (self : PlayerCacheSynchronizer) (player : PlayerKey) :
    Result PlayerInvalidation * PlayerCacheSynchronizer :=
  let? _ := PlayerKey_validate player else self in
  let '(_, c) := PlayerCache_invalidate self.(cache) player 0 in
  let self := with_cache self c in
  (Ok (invalidation self player 0), self).

Definition PlayerCacheSynchronizer_handle (self : PlayerCacheSynchronizer) (msg : PlayerInvalidation) :
    PlayerCacheSynchronizer :=
  if is_ok (PlayerInvalidation_validate msg) && String.eqb msg.(namespace) self.(sync_namespace)
     && negb (String.eqb msg.(source_id) self.(sync_source_id)) then
    with_cache self (PlayerCache_invalidate self.(cache) msg.(player) msg.(minimum_version)).2
  else self.

(** [CachedPlayerLoader::load]: through the cache, with the source behind it. *)
Definition CachedPlayerLoader_load (self : PlayerCacheSynchronizer)
    (source : PlayerKey -> Result (PlayerSnapshot T)) (player : PlayerKey) (t1 t2 t3 : Z) :
    Result (PlayerSnapshot T) * PlayerCacheSynchronizer :=
  let '(r, c) := PlayerCache_load self.(cache) player source t1 t2 t3 in (r, with_cache self c).
End Synchronizer.
Arguments PlayerCacheSynchronizer : clear implicits.

(** [PlayerStateMiddleware]: the state of the player is in the context of the rest of the chain; a player that
    cannot be loaded ends the command. *)
Section Middleware.
Context {App Any T : Type}.

(** [PlayerLoader]. *)
Definition PlayerLoader : Type := WorldContext (App := App) (Any := Any) -> PlayerKey -> Async (Shared App) (Result (PlayerSnapshot T)).

Definition PlayerStateMiddleware (key : ContextKey (Any := Any) (PlayerSnapshot T)) (loader : PlayerLoader) :
    WorldMiddleware (App := App) (Any := Any) :=
  fun context payload next =>
    let!? snapshot := loader context (Identity_player_key context.(ctx_identity)) in
    next (WorldContext_with_value context key snapshot) payload.
End Middleware.

(** ** What the operations do to the entries *)
Section Entries.
Context {T : Type}.
Implicit Types (c : PlayerCache T) (p : PlayerKey).

Lemma evict_subset max o : forall (es : gmap PlayerKey (@Entry T)) n, (evict max es o n).1.1 ⊆ es.
Proof.
  induction o as [|[oldest number] o IH]; intros es n; cbn [evict fst]; [done|].
  destruct (_ <=? _); [done|]. destruct (es !! oldest) as [e|]; [|apply IH].
  destruct (_ =? _); [|apply IH]. etrans; [apply IH|apply delete_subseteq].
Qed.

Lemma record_access_entries c p n : (record_access c p n).(entries) = c.(entries).
Proof. done. Qed.

Lemma store_cases c p s now r c' :
  PlayerCache_store c p s now = (r, c') ->
  (r <> Ok () /\ c'.(entries) = c.(entries)
   /\ (PlayerKey_validate p <> Ok ()
       \/ exists e, c.(entries) !! p = Some e /\ s.(version) < e.(snapshot).(version)))
  \/ (r = Ok () /\ exists e, e.(snapshot) = s /\ c'.(entries) ⊆ <[p := e]> c.(entries)).
Proof.
  unfold PlayerCache_store. destruct (PlayerKey_validate p) as [[]|]; [|intros [= <- <-]; by left; split_and!; [| |left]]. cbn.
  destruct (match _ with Some _ => _ | None => _ end) eqn:Hstale.
  { intros [= <- <-]. left. split_and!; [done|done|]. right. destruct (entries c !! p) as [e|]; [|done].
    exists e. breflect. auto. }
  match goal with
  | |- context [evict ?max ?es ?o ?n] => pose proof (evict_subset max o es n) as Hsub; destruct (evict max es o n) as [[es' o'] n']
  end.
  intros [= <- <-]. right. split; [done|]. eexists. by split; [|exact Hsub].
Qed.

(** What is cached after a store was cached, or is what was stored. *)
Lemma store_entries c p s now r c' q e :
  PlayerCache_store c p s now = (r, c') -> c'.(entries) !! q = Some e ->
  c.(entries) !! q = Some e \/ (q = p /\ e.(snapshot) = s).
Proof.
  intros [(_ & -> & _)|(_ & e0 & He0 & Hsub)]%store_cases Hq; [by left|].
  pose proof (lookup_weaken _ _ _ _ Hq Hsub) as Hin.
  apply lookup_insert_Some in Hin as [[-> <-]|[_ Hin]]; auto.
Qed.

(** A store that is not refused replaces the entry. *)
Lemma store_replaces c p s now c' e :
  PlayerCache_store c p s now = (Ok (), c') -> c'.(entries) !! p = Some e -> e.(snapshot) = s.
Proof.
  intros [(Hr & _)|(_ & e0 & He0 & Hsub)]%store_cases Hq; [done|].
  pose proof (lookup_weaken _ _ _ _ Hq Hsub) as Hin. rewrite lookup_insert_eq in Hin. by injection Hin as <-.
Qed.

Lemma invalidate_entries c p minimum q e :
  (PlayerCache_invalidate c p minimum).2.(entries) !! q = Some e ->
  c.(entries) !! q = Some e /\ (q = p -> minimum <> 0 /\ minimum <= e.(snapshot).(version)).
Proof.
  unfold PlayerCache_invalidate. destruct (c.(entries) !! p) as [e0|] eqn:Hp; cbn.
  - destruct (_ || _) eqn:Hb; cbn.
    + intros [Hne Hq]%lookup_delete_Some. by split.
    + intros Hq. split; [done|]. intros ->. simplify_eq. breflect. lia.
  - intros Hq. split; [done|]. intros ->. by rewrite Hp in Hq.
Qed.

Lemma lookup_entries c p now found c' q e :
  PlayerCache_lookup c p now = (found, c') -> c'.(entries) !! q = Some e ->
  exists e0, c.(entries) !! q = Some e0 /\ e0.(snapshot) = e.(snapshot).
Proof.
  unfold PlayerCache_lookup. cbn. destruct (c.(entries) !! p) as [e0|] eqn:Hp; [|intros [= _ <-]; cbn; eauto].
  destruct (_ <=? _); intros [= _ <-]; cbn.
  - intros [_ Hq]%lookup_delete_Some. eauto.
  - intros [[-> <-]|[_ Hq]]%lookup_insert_Some; eauto.
Qed.

(** What is cached after a load was cached, or is what the source returned. *)
Lemma load_entries c p source t1 t2 t3 r c' q e :
  PlayerCache_load c p source t1 t2 t3 = (r, c') -> c'.(entries) !! q = Some e ->
  (exists e0, c.(entries) !! q = Some e0 /\ e0.(snapshot) = e.(snapshot))
  \/ (q = p /\ source p = Ok e.(snapshot)).
Proof.
  unfold PlayerCache_load. destruct (PlayerKey_validate p); [|intros [= _ <-]; eauto].
  destruct (PlayerCache_lookup c p t1) as [found1 c1] eqn:H1. destruct found1; [intros [= _ <-] Hq; left; by eapply lookup_entries|].
  destruct (PlayerCache_lookup (count_miss c1) p t2) as [found2 c2] eqn:H2.
  assert (Hback : forall q e, c2.(entries) !! q = Some e -> exists e0, c.(entries) !! q = Some e0 /\ e0.(snapshot) = e.(snapshot)).
  { intros q' e' Hq'. destruct (lookup_entries _ _ _ _ _ _ _ H2 Hq') as (e1 & Hq1 & E1).
    destruct (lookup_entries _ _ _ _ _ _ _ H1 Hq1) as (e0 & Hq0 & E0). exists e0. split; [done|congruence]. }
  destruct found2; [intros [= _ <-] Hq; left; by apply Hback|].
  destruct (source p) as [loaded|] eqn:Hs; [|intros [= _ <-] Hq; left; by apply Hback].
  destruct (PlayerCache_store (count_load c2) p loaded t3) as [stored c3] eqn:H3.
  assert (Hgoal : forall q e, c3.(entries) !! q = Some e ->
    (exists e0, c.(entries) !! q = Some e0 /\ e0.(snapshot) = e.(snapshot)) \/ (q = p /\ loaded = e.(snapshot))).
  { intros q' e' Hq'. destruct (store_entries _ _ _ _ _ _ _ _ H3 Hq') as [Hq2|[-> <-]]; [left; by apply Hback|by right]. }
  destruct stored; intros [= _ <-] Hq; (destruct (Hgoal _ _ Hq) as [?|[-> ->]]; [by left|by right]).
Qed.
End Entries.

Lemma elem_of_delete_other {A} (l : list A) k y x : l !! k = Some y -> x ∈ l -> x <> y -> x ∈ delete k l.
Proof.
  intros Hk [j Hj]%list_elem_of_lookup Hne. rewrite delete_take_drop. apply elem_of_app.
  destruct (decide (j < k)%nat); [left|right].
  - apply (list_elem_of_lookup_2 _ j). by rewrite lookup_take_lt.
  - assert (j <> k) by congruence. apply (list_elem_of_lookup_2 _ (j - S k)). rewrite lookup_drop.
    by replace (S k + (j - S k))%nat with j by lia.
Qed.

(** ** A fleet of worlds

    Worlds with their synchronizers, the database, the invalidations the bus has not delivered yet, the
    ones it has lost, and the commits whose [store_committed] or [delete_committed] has not run yet. *)
Section Fleet.
Context {T : Type}.

(** The row of a player: the highest version ever committed, and the state unless it was deleted. *)
Record Row : Type := { top : Z; current : option (PlayerSnapshot T) }.

Record Fleet : Type := {
  worlds : list (PlayerCacheSynchronizer T);
  database : gmap PlayerKey Row;
  committing : gmap PlayerKey nat;              (* by the world that committed *)
  mail : list (nat * PlayerInvalidation);       (* by addressee *)
  lost : list (nat * PlayerInvalidation);       (* given to the bus and never delivered *)
}.

Definition source_of (f : Fleet) (p : PlayerKey) : Result (PlayerSnapshot T) :=
  match database f !! p with
  | Some {| current := Some s |} => Ok s
  | _ => Err (Error_business "PLAYER_NOT_FOUND" "player was not found")
  end.

Definition set_world (f : Fleet) (n : nat) (w : PlayerCacheSynchronizer T) : Fleet :=
  {| worlds := <[n := w]> f.(worlds); database := f.(database); committing := f.(committing); mail := f.(mail); lost := f.(lost) |}.

Definition broadcast (f : Fleet) (msg : PlayerInvalidation) : list (nat * PlayerInvalidation) :=
  (fun n => (n, msg)) <$> seq 0 (length f.(worlds)).

Inductive fleet_step : Fleet -> Fleet -> Prop :=
(** A transaction of the world [n] commits a newer state, or deletes the player; the world owns the player
    until it has told the others. *)
| commit_state f n p s :
    f.(committing) !! p = None -> is_Some (f.(worlds) !! n) -> PlayerKey_validate p = Ok () ->
    (forall row, f.(database) !! p = Some row -> row.(top) < s.(version)) -> 0 < s.(version) ->
    fleet_step f {| worlds := f.(worlds); database := <[p := {| top := s.(version); current := Some s |}]> f.(database);
                    committing := <[p := n]> f.(committing); mail := f.(mail); lost := f.(lost) |}
| commit_delete f n p row :
    f.(committing) !! p = None -> is_Some (f.(worlds) !! n) -> PlayerKey_validate p = Ok () ->
    f.(database) !! p = Some row ->
    fleet_step f {| worlds := f.(worlds);
                    database := <[p := {| top := row.(top); current := None |}]> f.(database);
                    committing := <[p := n]> f.(committing); mail := f.(mail); lost := f.(lost) |}
| publish_state f n p w row s now msg w' :
    f.(committing) !! p = Some n -> f.(worlds) !! n = Some w -> f.(database) !! p = Some row ->
    row.(current) = Some s -> PlayerCacheSynchronizer_store_committed w p s now = (Ok msg, w') ->
    fleet_step f {| worlds := <[n := w']> f.(worlds); database := f.(database);
                    committing := delete p f.(committing); mail := f.(mail) ++ broadcast f msg;
                    lost := f.(lost) |}
| publish_delete f n p w row msg w' :
    f.(committing) !! p = Some n -> f.(worlds) !! n = Some w -> f.(database) !! p = Some row ->
    row.(current) = None -> PlayerCacheSynchronizer_delete_committed w p = (Ok msg, w') ->
    fleet_step f {| worlds := <[n := w']> f.(worlds); database := f.(database);
                    committing := delete p f.(committing); mail := f.(mail) ++ broadcast f msg;
                    lost := f.(lost) |}
(** The bus delivers in any order, and may deliver a message again. *)
| deliver f k n msg w again :
    f.(mail) !! k = Some (n, msg) -> f.(worlds) !! n = Some w ->
    fleet_step f {| worlds := <[n := PlayerCacheSynchronizer_handle w msg]> f.(worlds); database := f.(database);
                    committing := f.(committing); mail := if again : bool then f.(mail) else delete k f.(mail);
                    lost := f.(lost) |}
(** The bus loses a message: the addressee was not connected when it was published, or the call of [publish]
    failed, which the world that committed learns from its answer after its own cache was changed. *)
| lose f k n msg :
    f.(mail) !! k = Some (n, msg) ->
    fleet_step f {| worlds := f.(worlds); database := f.(database); committing := f.(committing);
                    mail := delete k f.(mail); lost := (n, msg) :: f.(lost) |}
| load f n w p t1 t2 t3 :
    f.(worlds) !! n = Some w ->
    fleet_step f (set_world f n (CachedPlayerLoader_load w (source_of f) p t1 t2 t3).2).

(** The worlds of one fleet: one namespace, distinct names. *)
Definition one_fleet (f : Fleet) : Prop :=
  (forall n w, f.(worlds) !! n = Some w -> exists ns, sync_namespace w = ns /\ ns <> "" /\ sync_source_id w <> "")
  /\ (forall n m w v, f.(worlds) !! n = Some w -> f.(worlds) !! m = Some v ->
        sync_namespace w = sync_namespace v /\ (sync_source_id w = sync_source_id v -> n = m)).

(** The invalidation, when the world [w] handles it, removes the entry. *)
Definition removes (w : PlayerCacheSynchronizer T) (p : PlayerKey) (e : @Entry T) (msg : PlayerInvalidation) : Prop :=
  msg.(player) = p /\ PlayerInvalidation_validate msg = Ok () /\ msg.(namespace) = w.(sync_namespace)
  /\ msg.(source_id) <> w.(sync_source_id)
  /\ (msg.(minimum_version) = 0 \/ e.(snapshot).(version) < msg.(minimum_version)).

(** A cached state is the one in the database, or an invalidation that removes it is on its way or was lost,
    or a world has committed a change of the player and will send one. *)
Definition fresh_or_told (f : Fleet) (n : nat) (w : PlayerCacheSynchronizer T) (p : PlayerKey) (e : @Entry T) : Prop :=
  exists row, f.(database) !! p = Some row /\ e.(snapshot).(version) <= row.(top) /\
    (row.(current) = Some e.(snapshot)
     \/ (exists msg, ((n, msg) ∈ f.(mail) \/ (n, msg) ∈ f.(lost)) /\ removes w p e msg)
     \/ (is_Some (f.(committing) !! p) /\ (row.(current) = None \/ e.(snapshot).(version) < row.(top)))).

Record coherent (f : Fleet) : Prop := {
  coherent_fleet : one_fleet f;
  coherent_entries n w p e : f.(worlds) !! n = Some w -> w.(cache).(entries) !! p = Some e -> fresh_or_told f n w p e;
  coherent_committing p n : f.(committing) !! p = Some n -> PlayerKey_validate p = Ok () /\ is_Some (f.(database) !! p);
  coherent_rows p row s : f.(database) !! p = Some row -> row.(current) = Some s -> s.(version) = row.(top);
}.

(** A world changes its cache only: what it caches afterwards it cached before, or is what the database has. *)
Lemma coherent_world f n w w' :
  coherent f -> f.(worlds) !! n = Some w -> sync_namespace w' = sync_namespace w -> sync_source_id w' = sync_source_id w ->
  (forall p e, w'.(cache).(entries) !! p = Some e ->
     (exists e0, w.(cache).(entries) !! p = Some e0 /\ e0.(snapshot) = e.(snapshot))
     \/ source_of f p = Ok e.(snapshot)) ->
  coherent (set_world f n w').
Proof.
  intros [Hfl He Hcm Hr] Hn Hns Hid Hback.
  assert (Hlook : forall m v, <[n := w']> f.(worlds) !! m = Some v ->
    exists v0, f.(worlds) !! m = Some v0 /\ sync_namespace v = sync_namespace v0 /\ sync_source_id v = sync_source_id v0).
  { intros m v [(-> & <- & _)|[_ Hm]]%list_lookup_insert_Some; eauto. }
  split; cbn; try done.
  - destruct Hfl as [H1 H2]. split; cbn.
    + intros m v (v0 & Hm & -> & ->)%Hlook. eauto.
    + intros m k v u (v0 & Hm & -> & ->)%Hlook (u0 & Hk & -> & ->)%Hlook. by apply H2.
  - intros m v p e Hm Hp. destruct (decide (m = n)) as [->|Hne].
    + rewrite list_lookup_insert_eq in Hm by by eapply lookup_lt_Some. injection Hm as <-.
      destruct (Hback p e Hp) as [(e0 & Hp0 & Es)|Hsrc].
      * destruct (He n w p e0 Hn Hp0) as (row & Hrow & Hv & Hcase). exists row. rewrite <-Es. split_and!; [done|done|].
        destruct Hcase as [?|[(msg & Hin & Hrm)|?]]; [by left| |by right; right]. right. left. exists msg. split; [done|].
        unfold removes in *. by rewrite Hns, Hid, <-Es.
      * unfold source_of in Hsrc. destruct (database f !! p) as [row|] eqn:Hrow; [|done]. destruct row as [t [s|]] eqn:Erow; [|done].
        injection Hsrc as ->. eexists. split_and!; [done| |by left]. cbn. by rewrite (Hr p row _ ltac:(by rewrite Erow) ltac:(by rewrite Erow)), Erow.
    + rewrite list_lookup_insert_ne in Hm by done. exact (He m v p e Hm Hp).
Qed.

(** The row of one player changes, and a world will tell the others. *)
Lemma coherent_commit f n p row' :
  coherent f -> PlayerKey_validate p = Ok () ->
  (forall row, f.(database) !! p = Some row -> row.(top) <= row'.(top)) ->
  (forall s, row'.(current) = Some s -> s.(version) = row'.(top)) ->
  (forall row, f.(database) !! p = Some row -> row'.(current) = None \/ row.(top) < row'.(top)) ->
  coherent {| worlds := f.(worlds); database := <[p := row']> f.(database); committing := <[p := n]> f.(committing);
              mail := f.(mail); lost := f.(lost) |}.
Proof.
  intros [Hfl He Hcm Hr] Hv Hle Hcur Hnew. split; cbn.
  - done.
  - intros m v q e Hm Hq. destruct (He m v q e Hm Hq) as (row & Hrow & Hver & Hcase). destruct (decide (q = p)) as [->|Hne].
    + exists row'. cbn. rewrite !lookup_insert_eq. specialize (Hle row Hrow). split_and!; [done|lia|].
      right. right. split; [by eexists|]. destruct (Hnew row Hrow); [by left|]. right. lia.
    + exists row. cbn. rewrite !lookup_insert_ne by done. done.
  - intros q m. rewrite !lookup_insert_Some. intros [[<- <-]|[Hne Hq]].
    + split; [done|]. by rewrite lookup_insert_eq.
    + rewrite lookup_insert_ne by done. by eapply Hcm.
  - intros q row s0. rewrite lookup_insert_Some. intros [[<- <-]|[_ Hq]]; [by apply Hcur|by eapply Hr].
Qed.

(** The others are told. *)
Lemma coherent_publish f n p w row msg :
  coherent f -> f.(committing) !! p = Some n -> f.(worlds) !! n = Some w -> f.(database) !! p = Some row ->
  msg.(player) = p -> PlayerInvalidation_validate msg = Ok () -> msg.(namespace) = w.(sync_namespace) ->
  msg.(source_id) = w.(sync_source_id) ->
  msg.(minimum_version) = (match row.(current) with Some s => s.(version) | None => 0 end) ->
  (forall e, w.(cache).(entries) !! p = Some e -> row.(current) = Some e.(snapshot)) ->
  coherent {| worlds := f.(worlds); database := f.(database); committing := delete p f.(committing);
              mail := f.(mail) ++ broadcast f msg;
                    lost := f.(lost) |}.
Proof.
  intros [Hfl He Hcm Hr] Hp Hn Hrow Hmp Hmv Hmn Hms Hmin Hown. split; cbn; try done.
  - intros m v q e Hm Hq. destruct (He m v q e Hm Hq) as (row0 & Hrow0 & Hver & Hcase). exists row0. split_and!; [done|done|].
    destruct Hcase as [?|[(msg' & Hin & Hrm)|(Hcom & Hold)]]; [by left| |].
    { right. left. exists msg'. split; [|done]. cbn. rewrite elem_of_app. tauto. }
    destruct (decide (q = p)) as [->|Hne]; [|right; right; cbn; by rewrite lookup_delete_ne]. simplify_eq.
    destruct (decide (m = n)) as [->|Hmn']; [simplify_eq; left; by apply Hown|].
    right. left. exists msg. split.
    + left. apply elem_of_app. right. apply list_elem_of_fmap. exists m. split; [done|]. apply elem_of_seq.
      apply lookup_lt_Some in Hm. lia.
    + destruct (proj2 Hfl n m w v Hn Hm) as [Ens Esrc]. split_and!; [done|done|congruence| |].
      * rewrite Hms. intros E. by destruct Hmn'; symmetry; apply Esrc.
      * rewrite Hmin. destruct (current row) as [s|] eqn:Hcur; [|by left]. right. destruct Hold as [?|?]; [done|].
        by rewrite (Hr _ row s Hrow Hcur).
  - intros q m [_ Hq]%lookup_delete_Some. by eapply Hcm.
Qed.

Lemma sent_invalidation_valid (w : PlayerCacheSynchronizer T) p minimum :
  PlayerKey_validate p = Ok () -> sync_namespace w <> "" -> sync_source_id w <> "" ->
  PlayerInvalidation_validate (invalidation w p minimum) = Ok ().
Proof.
  intros Hv Hns Hid. unfold PlayerInvalidation_validate. cbn. rewrite Hv. cbn.
  apply String.eqb_neq in Hns, Hid. by rewrite Hns, Hid.
Qed.

Lemma handle_entries (w : PlayerCacheSynchronizer T) msg p e :
  (PlayerCacheSynchronizer_handle w msg).(cache).(entries) !! p = Some e ->
  w.(cache).(entries) !! p = Some e /\ ~ removes w p e msg.
Proof.
  unfold PlayerCacheSynchronizer_handle. destruct (_ && _) eqn:Hb.
  - intros [Hp Hmin]%invalidate_entries. split; [done|]. intros (Hpl & _ & _ & _ & Hrm). destruct (Hmin (eq_sym Hpl)). lia.
  - intros Hp. split; [done|]. intros (_ & Hval & Hns & Hid & _). rewrite Hval, Hns, String.eqb_refl in Hb. cbn in Hb.
    apply negb_false_iff, String.eqb_eq in Hb. done.
Qed.

Lemma coherent_deliver f k n msg w again :
  coherent f -> f.(mail) !! k = Some (n, msg) -> f.(worlds) !! n = Some w ->
  coherent {| worlds := <[n := PlayerCacheSynchronizer_handle w msg]> f.(worlds); database := f.(database);
              committing := f.(committing); mail := if again : bool then f.(mail) else delete k f.(mail);
                    lost := f.(lost) |}.
Proof.
  intros Hcoh Hk Hn. assert (Hsame : sync_namespace (PlayerCacheSynchronizer_handle w msg) = sync_namespace w
    /\ sync_source_id (PlayerCacheSynchronizer_handle w msg) = sync_source_id w).
  { unfold PlayerCacheSynchronizer_handle. by destruct (_ && _). }
  destruct Hsame as [Hns Hid].
  pose proof (coherent_world f n w (PlayerCacheSynchronizer_handle w msg) Hcoh Hn Hns Hid) as Hw.
  destruct Hw as [Hfl He Hcm Hr]; [intros p e [Hp _]%handle_entries; left; eauto|]. split; cbn; try done.
  intros m v p e Hm Hp. destruct (He m v p e Hm Hp) as (row & Hrow & Hver & Hcase). exists row. split_and!; [done|done|].
  destruct Hcase as [?|[(msg' & Hin & Hrm)|?]]; [by left| |by right; right]. right. left. exists msg'. split; [|done].
  cbn in Hin |- *. destruct again; [done|]. destruct Hin as [Hin|Hin]; [left|by right].
  apply (elem_of_delete_other _ k (n, msg)); [done..|]. intros [= -> ->].
  rewrite list_lookup_insert_eq in Hm by by eapply lookup_lt_Some. injection Hm as <-.
  apply handle_entries in Hp as [_ Hno]. destruct Hno. unfold removes in *. by rewrite <-Hns, <-Hid.
Qed.

(** A lost message stays on record. *)
Lemma coherent_lose f k n msg :
  coherent f -> f.(mail) !! k = Some (n, msg) ->
  coherent {| worlds := f.(worlds); database := f.(database); committing := f.(committing);
              mail := delete k f.(mail); lost := (n, msg) :: f.(lost) |}.
Proof.
  intros [Hfl He Hcm Hr] Hk. split; cbn; try done.
  intros m v p e Hm Hp. destruct (He m v p e Hm Hp) as (row & Hrow & Hver & Hcase). exists row. split_and!; [done|done|].
  destruct Hcase as [?|[(msg' & Hin & Hrm)|?]]; [by left| |by right; right]. right. left. exists msg'. split; [|done].
  cbn. rewrite elem_of_cons. destruct (decide ((m, msg') = (n, msg))) as [->|Hne]; [by right; left|].
  destruct Hin as [Hin|Hin]; [left|by right; right]. by apply (elem_of_delete_other _ k (n, msg)).
Qed.

(** The world that committed a state can always store and announce it. *)
Lemma store_committed_succeeds f n p w row s now :
  coherent f -> f.(committing) !! p = Some n -> f.(worlds) !! n = Some w -> f.(database) !! p = Some row ->
  row.(current) = Some s ->
  exists w', PlayerCacheSynchronizer_store_committed w p s now = (Ok (invalidation w p s.(version)), w').
Proof.
  intros Hcoh Hp Hn Hrow Hcur. destruct Hcoh as [_ He Hcm Hr]. unfold PlayerCacheSynchronizer_store_committed.
  destruct (PlayerCache_store (cache w) p s now) as [stored c] eqn:Hst.
  destruct (store_cases _ _ _ _ _ _ Hst) as [(_ & _ & Hwhy)|(-> & _)]; [|by eexists].
  exfalso. destruct Hwhy as [Hv|(e & Hin & Hlt)]; [by destruct Hv; apply (Hcm p n)|].
  destruct (He n w p e Hn Hin) as (row0 & Hrow0 & Hver & _). simplify_eq. rewrite (Hr p row s Hrow Hcur) in Hlt. lia.
Qed.

Lemma coherent_step f f' : fleet_step f f' -> coherent f -> coherent f'.
Proof.
  intros Hs Hcoh. destruct Hs as [f n p s Hp Hn Hv Hnew Hpos|f n p row Hp Hn Hv Hrow|f n p w row s now msg w' Hp Hn Hrow Hcur Hst
    |f n p w row msg w' Hp Hn Hrow Hcur Hst|f k n msg w again Hk Hn|f k n msg Hk|f n w p t1 t2 t3 Hn].
  - apply (coherent_commit f n p {| top := s.(version); current := Some s |} Hcoh Hv); cbn.
    + intros row Hrow. specialize (Hnew row Hrow). lia.
    + by intros s0 [= ->].
    + intros row Hrow. right. by apply Hnew.
  - apply (coherent_commit f n p {| top := row.(top); current := None |} Hcoh Hv); cbn.
    + intros row0 Hrow0. simplify_eq. lia.
    + done.
    + by left.
  - destruct (store_committed_succeeds f n p w row s now Hcoh Hp Hn Hrow Hcur) as [w1 Hst1].
    rewrite Hst in Hst1. injection Hst1 as -> <-. pose proof (proj1 (coherent_fleet f Hcoh) n w Hn) as (ns & Hns & Hne & Hid).
    unfold PlayerCacheSynchronizer_store_committed in Hst.
    destruct (PlayerCache_store (cache w) p s now) as [[[]|] c] eqn:Hstore; [|done]. injection Hst as <-.
    assert (Hw : coherent (set_world f n (with_cache w c))).
    { apply (coherent_world f n w); [done..|]. intros q e Hq0. destruct (store_entries _ _ _ _ _ _ q e Hstore Hq0) as [Hq|[-> Hq]]; [left; eauto|right].
      unfold source_of. rewrite Hrow. destruct row as [t cur]. cbn in Hcur. subst cur. by rewrite Hq. }
    apply (coherent_publish (set_world f n (with_cache w c)) n p (with_cache w c) row (invalidation w p s.(version))) in Hw; cbn; try done.
    + unfold broadcast in *. cbn in Hw. by rewrite length_insert in Hw.
    + by rewrite list_lookup_insert_eq by by eapply lookup_lt_Some.
    + apply sent_invalidation_valid; [by apply (coherent_committing f Hcoh p n)|congruence|done].
    + by rewrite Hcur.
    + intros e Hin. rewrite Hcur. f_equal. symmetry. by eapply store_replaces.
  - pose proof (proj1 (coherent_fleet f Hcoh) n w Hn) as (ns & Hns & Hne & Hid).
    pose proof (coherent_committing f Hcoh p n Hp) as [Hv _].
    unfold PlayerCacheSynchronizer_delete_committed in Hst. rewrite Hv in Hst.
    pose proof (invalidate_entries (cache w) p 0) as Hinval. destruct (PlayerCache_invalidate (cache w) p 0) as [b c].
    injection Hst as <- <-. cbn in Hinval.
    assert (Hw : coherent (set_world f n (with_cache w c))).
    { apply (coherent_world f n w); [done..|]. intros q e [Hq _]%Hinval. left; eauto. }
    apply (coherent_publish (set_world f n (with_cache w c)) n p (with_cache w c) row (invalidation w p 0)) in Hw; cbn; try done.
    + unfold broadcast in *. cbn in Hw. by rewrite length_insert in Hw.
    + by rewrite list_lookup_insert_eq by by eapply lookup_lt_Some.
    + apply (sent_invalidation_valid w); [done|congruence|done].
    + by rewrite Hcur.
    + intros e [_ Hmin]%Hinval. by destruct (Hmin eq_refl).
  - by apply coherent_deliver.
  - by apply coherent_lose.
  - apply (coherent_world f n w); [done|done|..]; unfold CachedPlayerLoader_load;
      destruct (PlayerCache_load (cache w) p (source_of f) t1 t2 t3) as [r c] eqn:Hload; [done|done|]. cbn.
    intros q e Hq. destruct (load_entries _ _ _ _ _ _ _ _ _ _ Hload Hq) as [?|[-> ?]]; auto.
Qed.
End Fleet.

(** A fleet before its first commit. *)
Definition started {T} (f : Fleet (T := T)) : Prop :=
  one_fleet f /\ f.(database) = ∅ /\ f.(committing) = ∅ /\ f.(mail) = [] /\ f.(lost) = []
  /\ forall n w, f.(worlds) !! n = Some w -> w.(cache).(entries) = ∅.

Lemma started_coherent {T} (f : Fleet (T := T)) : started f -> coherent f.
Proof.
  intros (Hfl & Hdb & Hcm & Hm & _ & He). split; [done|..].
  - intros n w p e Hn Hp. by rewrite (He n w Hn), lookup_empty in Hp.
  - intros p n Hp. by rewrite Hcm, lookup_empty in Hp.
  - intros p row s Hp. by rewrite Hdb, lookup_empty in Hp.
Qed.

(** C37: Player caches agree with the database once they have been told.  Worlds commit newer states and
    deletions of players, store and announce them, handle invalidations that arrive in any order, more
    than once or never (the bus may lose any message, and a publication may fail), and load players through
    their caches.  When the commits of a player do not overlap and a load reads and stores at one time, then
    at every moment a cached state is the one in the database, or an invalidation that removes it is on its
    way to that world or was lost on its way, or a world has yet to announce a commit of that player.  So
    when nothing is under way, every cached state is the one in the database, unless an invalidation that
    would have removed it from that cache was lost. *)
Theorem player_caches_converge {T} (f0 f : Fleet (T := T))
  (Hstart : started f0) (Hreached : rtc fleet_step f0 f) :
  (forall n w p e, f.(worlds) !! n = Some w -> w.(cache).(entries) !! p = Some e -> fresh_or_told f n w p e)
  /\ (f.(mail) = [] -> f.(committing) = ∅ ->
      forall n w p e, f.(worlds) !! n = Some w -> w.(cache).(entries) !! p = Some e ->
      (exists msg, (n, msg) ∈ f.(lost) /\ removes w p e msg) \/ source_of f p = Ok e.(snapshot)).
Proof.
  assert (Hcoh : coherent f).
  { apply started_coherent in Hstart. induction Hreached; [done|]. eauto using coherent_step. }
  split; [apply Hcoh|]. intros Hm Hc n w p e Hn Hp.
  destruct (coherent_entries f Hcoh n w p e Hn Hp) as (row & Hrow & _ & [Hcur|[(msg & Hin & Hrm)|([m Hcom] & _)]]).
  - right. unfold source_of. rewrite Hrow. destruct row as [t cur]. cbn in Hcur. by rewrite Hcur.
  - rewrite Hm in Hin. destruct Hin as [Hin|Hin]; [by apply elem_of_nil in Hin|]. left. eauto.
  - by rewrite Hc, lookup_empty in Hcom.
Qed.

(** ** Examples *)
Module SyncExamples.
Definition empty_cache : PlayerCache Z :=
  {| config := sample_config; entries := ∅; order := []; clock := 0; hits := 0; misses := 0; load_count := 0;
     evictions := 0 |}.
Definition world (id : string) : PlayerCacheSynchronizer Z :=
  {| cache := empty_cache; sync_namespace := "players"; sync_source_id := id |}.
Definition p7 : PlayerKey := sample_player 7.

Definition new_fleet : Fleet (T := Z) :=
  {| worlds := [world "a"; world "b"]; database := ∅; committing := ∅; mail := []; lost := [] |}.

Definition committed : Fleet (T := Z) :=
  {| worlds := [world "a"; world "b"]; database := {[p7 := {| top := 1; current := Some (sample_snapshot 1) |}]};
     committing := {[p7 := 0%nat]}; mail := []; lost := [] |}.
Definition stored : PlayerCacheSynchronizer Z :=
  (PlayerCacheSynchronizer_store_committed (world "a") p7 (sample_snapshot 1) 10).2.
Definition announcement : PlayerInvalidation := invalidation (world "a") p7 1.
Definition announced : Fleet (T := Z) :=
  {| worlds := [stored; world "b"]; database := committed.(database); committing := delete p7 committed.(committing);
     mail := [] ++ [(0%nat, announcement); (1%nat, announcement)]; lost := [] |}.
Definition quiet : Fleet (T := Z) :=
  {| worlds := [stored; world "b"]; database := committed.(database); committing := delete p7 committed.(committing);
     mail := []; lost := [] |}.
Definition loaded : PlayerCacheSynchronizer Z :=
  (CachedPlayerLoader_load (world "b") (source_of quiet) p7 20 21 22).2.

Lemma quiet_reached : rtc fleet_step new_fleet (set_world quiet 1 loaded).
Proof.
  eapply rtc_l; [|eapply rtc_l; [|eapply rtc_l; [|eapply rtc_l; [|apply rtc_once]]]].
  - apply (commit_state new_fleet 0 p7 (sample_snapshot 1)); [done|by eexists|vm_compute; done| |vm_compute; done].
    intros row Hrow. by vm_compute in Hrow.
  - apply (publish_state committed 0 p7 (world "a") {| top := 1; current := Some (sample_snapshot 1) |} (sample_snapshot 1) 10
      announcement stored); vm_compute; done.
  - apply (deliver announced 0 0 announcement stored false); done.
  - match goal with |- fleet_step ?f _ => apply (deliver f 0 1 announcement (world "b") false); done end.
  - match goal with |- fleet_step ?f _ => apply (load f 1 (world "b") p7 20 21 22); done end.
Qed.

Lemma new_fleet_started : started new_fleet.
Proof.
  split_and!; [|done..|].
  - split.
    + intros n w Hn. exists "players". destruct n as [|[|n]]; cbn in Hn; by simplify_eq.
    + intros n m w v Hn Hm. destruct n as [|[|n]], m as [|[|m]]; cbn in Hn, Hm; by simplify_eq.
  - intros n w Hn. destruct n as [|[|n]]; cbn in Hn; by simplify_eq.
Qed.

Lemma player_caches_converge_witness :
  match loaded.(cache).(entries) !! p7 with
  | Some e => source_of (set_world quiet 1 loaded) p7 = Ok e.(snapshot)
  | None => False
  end.
Proof.
  destruct (entries (cache loaded) !! p7) as [e|] eqn:He; [|by vm_compute in He].
  destruct (proj2 (player_caches_converge new_fleet (set_world quiet 1 loaded) new_fleet_started quiet_reached) eq_refl
           ltac:(done) 1%nat loaded p7 e eq_refl He) as [(msg & Hin & _)|Hsrc]; [|exact Hsrc].
  by apply elem_of_nil in Hin.
Defined.

Definition newer_announcement : PlayerInvalidation := invalidation (world "a") p7 2.

(** Version 2 is committed and announced by the first world, and the bus loses both copies: nothing is under
    way, and the second world still has version 1. *)
Definition behind : Fleet (T := Z) := set_world quiet 1 loaded.
Definition committed2 : Fleet (T := Z) :=
  {| worlds := behind.(worlds); database := <[p7 := {| top := 2; current := Some (sample_snapshot 2) |}]> behind.(database);
     committing := <[p7 := 0%nat]> behind.(committing); mail := []; lost := [] |}.
Definition stored2 : PlayerCacheSynchronizer Z :=
  (PlayerCacheSynchronizer_store_committed stored p7 (sample_snapshot 2) 50).2.
Definition stale : Fleet (T := Z) :=
  {| worlds := [stored2; loaded]; database := committed2.(database);
     committing := delete p7 committed2.(committing); mail := [];
     lost := [(1%nat, newer_announcement); (0%nat, newer_announcement)] |}.

Example lost_invalidation_leaves_stale :
  rtc fleet_step new_fleet stale
  /\ match loaded.(cache).(entries) !! p7 with
     | Some e => e.(snapshot) = sample_snapshot 1 /\ source_of stale p7 = Ok (sample_snapshot 2)
     | None => False
     end.
Proof.
  split; [|vm_compute; done]. etrans; [exact quiet_reached|].
  eapply rtc_l; [|eapply rtc_l; [|eapply rtc_l; [|apply rtc_once]]].
  - apply (commit_state behind 0 p7 (sample_snapshot 2)); [vm_compute; done|by eexists|vm_compute; done| |vm_compute; done].
    intros row Hrow. vm_compute in Hrow. injection Hrow as <-. done.
  - apply (publish_state committed2 0 p7 stored {| top := 2; current := Some (sample_snapshot 2) |} (sample_snapshot 2) 50
      newer_announcement stored2); vm_compute; done.
  - match goal with |- fleet_step ?f _ => apply (lose f 0 0 newer_announcement); done end.
  - match goal with |- fleet_step ?f _ => apply (lose f 0 1 newer_announcement); done end.
Qed.

(** A cache does not remember an invalidation.  The second world misses and reads version 1; before it stores
    what it read, version 2 is committed elsewhere and the invalidation is handled; version 1 is then stored
    and served. *)
Lemma handled_invalidation_is_forgotten :
  let '(miss, c1) := PlayerCache_lookup empty_cache p7 20 in
  let reading := with_cache (world "b") c1 in
  let told := PlayerCacheSynchronizer_handle reading newer_announcement in
  let '(stored, c2) := PlayerCache_store told.(cache) p7 (sample_snapshot 1) 30 in
  miss = None /\ stored = Ok () /\ (PlayerCache_lookup c2 p7 40).1 = Some (sample_snapshot 1).
Proof. vm_compute. done. Qed.
End SyncExamples.
