(* ===== verification/Principals.v ===== *)
(** * Accounts and external identities: [crates/elura-core/src/identity.rs], [crates/elura-providers/src/error.rs]

    Names of identity providers, identities a provider has proven, the account they belong to, and the
    errors of providers. *)

From Stdlib Require Import Ascii.
From S2P Require Import Prelude Bytes CoreError.

(** [IdentityValidationError]: its message. *)
Definition IdentityValidationError : Type := string.

(** ** Provider names *)

Definition ProviderName : Type := string.

Definition to_ascii_lowercase (b : ascii) : ascii :=
  if is_ascii_uppercase b then ascii_of_N (N_of_ascii b + 32) else b.

Definition is_provider_byte (b : ascii) : bool :=
  is_ascii_lowercase b || is_ascii_digit b || Ascii.eqb b "_"%char || Ascii.eqb b "-"%char.

(** The first byte exists and is a lower-case letter. *)
Definition starts_lowercase (s : string) : bool :=
  match s with String b _ => is_ascii_lowercase b | EmptyString => false end.

Definition ProviderName_parse (value : string) : result IdentityValidationError ProviderName :=
  let normalized := string_map to_ascii_lowercase (trim value) in
  if negb ((1 <=? string_len normalized) && (string_len normalized <=? 32))
     || negb (starts_lowercase normalized) || negb (string_forallb is_provider_byte normalized) then
    Err "invalid provider name"
  else Ok normalized.

(** ** Identities and accounts *)

Record VerifiedIdentity : Type := {
  provider : ProviderName;
  subject : string;
  union_id : option string;
  attributes : gmap string string;
}.

#[export] Instance VerifiedIdentity_eq_dec : EqDecision VerifiedIdentity.
Proof. solve_decision. Defined.

Definition attribute_bad (entry : string * string) : bool :=
  String.eqb entry.1 "" || (128 <? string_len entry.1) || (2048 <? string_len entry.2).

Definition VerifiedIdentity_validate (self : VerifiedIdentity) : result IdentityValidationError unit :=
  if trim_is_empty self.(subject) || (512 <? string_len self.(subject))
     || match self.(union_id) with Some value => 512 <? string_len value | None => false end
     || (64 <? Z.of_nat (size self.(attributes)))
     || existsb attribute_bad (map_to_list self.(attributes)) then
    Err "invalid verified identity"
  else Ok ().

Record Principal : Type := {
  principal_account_id : Z;
  principal_generation : Z;
}.

#[export] Instance Principal_eq_dec : EqDecision Principal.
Proof. solve_decision. Defined.

Definition Principal_validate (self : Principal) : result IdentityValidationError unit :=
  if (self.(principal_account_id) <=? 0) || (self.(principal_generation) =? 0) then
    Err "invalid account principal"
  else Ok ().

(** [trait IdentityBindingStore]: the application's store [B] of bindings. *)
Class IdentityBindingStore (B : Type) : Type := {
  find_account : B -> VerifiedIdentity -> Result (option Principal) * B;
  create_account : B -> VerifiedIdentity -> Result Principal * B;
  link : B -> Principal -> VerifiedIdentity -> Result unit * B;
}.

(** [trait PasswordCredentialStore]. *)
Class PasswordCredentialStore (B : Type) : Type := {
  find_password_hash : B -> string -> Result (option string) * B;
  create_password_account : B -> string -> string -> Result Principal * B;
}.

(** ** Errors of providers *)

Inductive ProviderError : Type :=
| PConfig (message : string)
| PInvalidRequest (message : string)
| PUnknownProvider (name : string)
| PInvalidCredentials
| PUnavailable
| PRateLimited (retry_after : option Z)
| PRejected (message : string)
| PInvalidSignature
| PAlreadyProcessed
| PInvalidResponse (message : string)
| PUnsupported.

Abbreviation ProviderResult := (result ProviderError).

Definition ProviderError_code (self : ProviderError) : string :=
  match self with
  | PConfig _ => "provider_config"
  | PInvalidRequest _ => "invalid_request"
  | PUnknownProvider _ => "unknown_provider"
  | PInvalidCredentials => "invalid_credentials"
  | PUnavailable => "provider_unavailable"
  | PRateLimited _ => "provider_rate_limited"
  | PRejected _ => "provider_rejected"
  | PInvalidSignature => "invalid_signature"
  | PAlreadyProcessed => "already_processed"
  | PInvalidResponse _ => "invalid_provider_response"
  | PUnsupported => "unsupported_operation"
  end.

Definition ProviderError_is_retryable (self : ProviderError) : bool :=
  match self with PUnavailable | PRateLimited _ => true | _ => false end.

Definition ProviderError_retry_after (self : ProviderError) : option Z :=
  match self with PRateLimited retry_after => retry_after | _ => None end.

(** [impl fmt::Display for ProviderError]; [debug] prints a [Duration] as [{:?}] does. *)
Definition ProviderError_display (debug : Z -> string) (self : ProviderError) : string :=
  match self with
  | PConfig message => "invalid provider configuration: " +:+ message
  | PInvalidRequest message => "invalid provider request: " +:+ message
  | PUnknownProvider name => "unknown provider: " +:+ name
  | PInvalidCredentials => "invalid credentials"
  | PUnavailable => "upstream provider unavailable"
  | PRateLimited (Some delay) => "upstream provider rate limited the request; retry after " +:+ debug delay
  | PRateLimited None => "upstream provider rate limited the request"
  | PRejected message => "provider rejected request: " +:+ message
  | PInvalidSignature => "invalid callback signature"
  | PAlreadyProcessed => "callback was already processed"
  | PInvalidResponse message => "invalid provider response: " +:+ message
  | PUnsupported => "unsupported provider operation"
  end.

(** [impl From<IdentityValidationError> for ProviderError]. *)
Definition ProviderError_from (error : IdentityValidationError) : ProviderError := PInvalidRequest error.

(** ** Normal names

    A parsed name parses to itself: the registry may compare a name with its parse. *)
Lemma provider_byte_range b : is_provider_byte b = true -> 33 <= byte_of b <= 122.
Proof.
  unfold is_provider_byte, is_ascii_lowercase, is_ascii_digit, byte_of.
  intros [[[H|H]%orb_prop|H]%orb_prop|H]%orb_prop; breflect; try lia;
    apply Ascii.eqb_eq in H as ->; cbn; lia.
Qed.

Lemma plain_not_white a : 33 <= byte_of a <= 122 ->
  whitespace1 (byte_of a) = false /\ (forall b, whitespace2 (byte_of a) b = false)
  /\ forall b c, whitespace3 (byte_of a) b c = false.
Proof.
  intros Ha. unfold whitespace1, whitespace2, whitespace3. split_and!.
  - apply orb_false_iff. split; [apply andb_false_iff; right; apply Z.leb_gt; lia|apply Z.eqb_neq; lia].
  - intros b. by destruct (Z.eqb_spec (byte_of a) 0xC2); [lia|].
  - intros b c. destruct (Z.eqb_spec (byte_of a) 0xE1); [lia|]. destruct (Z.eqb_spec (byte_of a) 0xE2); [lia|].
    by destruct (Z.eqb_spec (byte_of a) 0xE3); [lia|].
Qed.

Lemma trim_plain s : string_forallb is_provider_byte s = true -> trim s = s.
Proof.
  intros Hs. unfold trim. assert (Hstart : trim_start s = s).
  { destruct s as [|a s]; [done|]. cbn in Hs. apply andb_prop in Hs as [Ha _].
    destruct (plain_not_white a (provider_byte_range a Ha)) as (W1 & W2 & W3).
    cbn [trim_start]. rewrite W1. destruct s as [|b s]; [done|]. rewrite W2. destruct s as [|c s]; [done|]. by rewrite W3. }
  rewrite Hstart. clear Hstart. induction s as [|a s IH]; [done|]. cbn in Hs. apply andb_prop in Hs as [Ha Hs].
  destruct (plain_not_white a (provider_byte_range a Ha)) as (W1 & W2 & W3).
  cbn [trim_end]. unfold trim_is_empty. cbn [string_bytes blank]. fold (byte_of a). rewrite W1.
  destruct (string_bytes s) as [|b l]; [by rewrite IH|]. rewrite W2. destruct l; [by rewrite IH|]. rewrite W3. cbn. by rewrite IH.
Qed.

Lemma parsed_name_normal s n : ProviderName_parse s = Ok n -> ProviderName_parse n = Ok n.
Proof.
  unfold ProviderName_parse at 1. destruct (_ || _) eqn:Hb; [done|]. intros [= Hn]. rewrite Hn in Hb.
  apply orb_false_elim in Hb as [Hb Hall]. apply orb_false_elim in Hb as [Hlen Hfirst].
  pose proof Hall as Hplain. apply negb_false_iff in Hplain.
  unfold ProviderName_parse. rewrite (trim_plain n Hplain).
  rewrite (string_map_id is_provider_byte); [by rewrite Hlen, Hfirst, Hall|intros b Hb|done].
  unfold to_ascii_lowercase. destruct (is_ascii_uppercase b) eqn:Hu; [|done]. exfalso. clear - Hb Hu.
  unfold is_provider_byte, is_ascii_uppercase, is_ascii_lowercase, is_ascii_digit in *. breflect.
  destruct Hb as [[[Hb|Hb]%orb_prop|Hb]%orb_prop|Hb]; breflect; try lia; apply Ascii.eqb_eq in Hb as ->; cbn in *; lia.
Qed.
