(* ===== verification/HttpTokens.v ===== *)
(** * HTTP tokens: [crates/elura-core/src/http_auth.rs]

    Access tokens, which are reusable, and refresh tokens, which are used once and rotated.  They are
    signed like tickets; HMAC and Base64 are those of [Tickets], the JSON of the claims is a parameter of
    its own.  Clock readings (seconds, [None] before the epoch) and drawn nonces are arguments; a reading is
    below [2 ^ 63], so that adding 30 or a lifetime cannot overflow. *)

From Stdlib Require Import Ascii.
From S2P Require Import Prelude Bytes CoreError Principals Tickets.

Definition MAX_ACCESS_TTL : Z := 60 * 60 * 1000000000.
Definition MAX_REFRESH_TTL : Z := 90 * 24 * 60 * 60 * 1000000000.
Definition MAX_SCOPES : Z := 64.
Definition MAX_SCOPE_BYTES : Z := 64.

Inductive HttpTokenPurpose : Type := Access | Refresh.

#[export] Instance HttpTokenPurpose_eq_dec : EqDecision HttpTokenPurpose.
Proof. solve_decision. Defined.

Record HttpTokenClaims : Type := {
  issuer : string;
  audience : string;
  token_id : string;
  issued_at : Z;
  expires_at : Z;
  purpose : HttpTokenPurpose;
  principal : Principal;
  scopes : list string;
}.

#[export] Instance HttpTokenClaims_eq_dec : EqDecision HttpTokenClaims.
Proof. solve_decision. Defined.

(** [candidate.cmp(scope)], as the sign of an integer. *)
Definition compare_scope (scope candidate : string) : Z :=
  match String.compare candidate scope with Lt => -1 | Eq => 0 | Gt => 1 end.

(** [binary_search_by] with that comparison is [binary_search_by_key] of its sign. *)
Definition HttpTokenClaims_has_scope (self : HttpTokenClaims) (scope : string) : bool :=
  is_ok (binary_search_by_key (compare_scope scope) self.(scopes) 0).

Record HttpTokenPair : Type := {
  access_token : string;
  access_expires_in_seconds : Z;
  refresh_token : string;
  refresh_expires_in_seconds : Z;
}.

(** ** Scopes *)

Definition is_scope_byte (b : ascii) : bool :=
  is_ascii_lowercase b || is_ascii_digit b
  || Ascii.eqb b ":" || Ascii.eqb b "_" || Ascii.eqb b "-" || Ascii.eqb b "." || Ascii.eqb b "*".

(** [slice::windows(2)]. *)
Definition windows2 {A} (l : list A) : list (A * A) := zip l (tail l).

Definition scope_bad (scope : string) : bool :=
  String.eqb scope "" || (MAX_SCOPE_BYTES <? string_len scope) || negb (string_forallb is_scope_byte scope).

Definition validate_normalized_scopes (scopes : list string) : Result unit :=
  if (MAX_SCOPES <? len scopes) || existsb (fun pair => String.leb pair.2 pair.1) (windows2 scopes)
     || existsb scope_bad scopes then
    Err Authentication
  else Ok ().

(** [Vec::dedup] removes the elements equal to the one before them. *)
Fixpoint dedup_after (previous : string) (l : list string) : list string :=
  match l with
  | [] => []
  | x :: l => if String.eqb previous x then dedup_after previous l else x :: dedup_after x l
  end.

Definition dedup (l : list string) : list string :=
  match l with [] => [] | x :: l => x :: dedup_after x l end.

(** Equal strings cannot be told apart, so the unstable sort is the stable one. *)
Definition normalize_scopes (scopes : list string) : Result (list string) :=
  let scopes := dedup (sort_by String.leb scopes) in
  let? _ := validate_normalized_scopes scopes in
  Ok scopes.

(** ** The service *)

Record HttpTokenService : Type := {
  keys : list (list Z);
  service_issuer : string;
  service_audience : string;
  access_ttl : Z;
  refresh_ttl : Z;
}.

Definition HttpTokenService_new_rotating (primary_key : list Z) (previous_keys : list (list Z))
    (issuer audience : string) (access_ttl refresh_ttl : Z) : Result HttpTokenService :=
  let keys := primary_key :: previous_keys in
  if existsb (fun key => len key <? 32) keys || (16 <? len keys) || trim_is_empty issuer || trim_is_empty audience
     || (access_ttl =? 0) || (MAX_ACCESS_TTL <? access_ttl) || (refresh_ttl =? 0) || (MAX_REFRESH_TTL <? refresh_ttl)
     || (refresh_ttl <=? access_ttl) then
    Err (InvalidConfig "HTTP token keys must be >=32 bytes, contain at most 16 keys, names must be non-empty, and 0 < access TTL < refresh TTL within supported limits")
  else Ok {| keys := keys; service_issuer := issuer; service_audience := audience;
             access_ttl := access_ttl; refresh_ttl := refresh_ttl |}.

Definition HttpTokenService_new (key : list Z) (issuer audience : string) (access_ttl refresh_ttl : Z) :
    Result HttpTokenService :=
  HttpTokenService_new_rotating key [] issuer audience access_ttl refresh_ttl.

Definition unix_time (clock : option Z) : Result Z :=
  ok_or clock (Internal "system clock is before unix epoch").

(** The loop over the keys: every key is tried, [valid] collects the comparisons. *)
Fixpoint try_keys {E} (sign : list Z -> list Z -> result E (list Z)) (keys : list (list Z))
    (payload signature : list Z) (valid : Z) : result E Z :=
  match keys with
  | [] => Ok valid
  | key :: keys =>
      let? expected := sign key payload in
      try_keys sign keys payload signature (Z.lor valid (if bool_decide (signature = expected) then 1 else 0))
  end.

(** The JSON of the claims. *)
Class HttpClaimsJson : Type := {
  http_claims_to_vec : HttpTokenClaims -> result string (list Z);
  http_claims_from_slice : list Z -> result string HttpTokenClaims;
}.

Section service.
Context `{!TicketCrypto, !HttpClaimsJson}.

Definition sign (key payload : list Z) : Result (list Z) :=
  ok_or (hmac_sha256 key payload) (InvalidConfig "invalid HTTP token key").

(** The claims of a new token. *)
Definition new_claims (self : HttpTokenService) (now : Z) (nonce : list Z) (principal : Principal)
    (scopes : list string) (purpose : HttpTokenPurpose) (ttl : Z) : HttpTokenClaims :=
  {| issuer := self.(service_issuer); audience := self.(service_audience); token_id := base64_encode nonce;
     issued_at := now; expires_at := now + as_secs ttl; purpose := purpose; principal := principal;
     scopes := scopes |}.

(** [self.keys[0]] panics on a service without keys, which [new_rotating] never makes. *)
Definition HttpTokenService_issue_for (self : HttpTokenService) (clock : option Z) (nonce : list Z)
    (principal : Principal) (scopes : list string) (purpose : HttpTokenPurpose) (ttl : Z) : Outcome string :=
  match
    (let? now := unix_time clock in
     map_err Serialization (http_claims_to_vec (new_claims self now nonce principal scopes purpose ttl)))
  with
  | Err e => Returned (Err e)
  | Ok bytes =>
      let payload := base64_encode bytes in
      match self.(keys) with
      | [] => Panicked
      | key :: _ =>
          Returned
            (let? signature := sign key (string_bytes payload) in
             Ok (payload +:+ "." +:+ base64_encode signature))
      end
  end.

(** What a call draws: the clock and the nonce of each token. *)
Record Drawn : Type := {
  access_clock : option Z;
  access_nonce : list Z;
  refresh_clock : option Z;
  refresh_nonce : list Z;
}.

Definition HttpTokenService_issue (self : HttpTokenService) (drawn : Drawn) (principal : Principal)
    (scopes : list string) : Outcome HttpTokenPair :=
  match
    (let? _ := map_err (fun _ => Authentication) (Principal_validate principal) in normalize_scopes scopes)
  with
  | Err e => Returned (Err e)
  | Ok scopes =>
      match HttpTokenService_issue_for self drawn.(access_clock) drawn.(access_nonce) principal scopes Access
              self.(access_ttl) with
      | Panicked => Panicked
      | Returned (Err e) => Returned (Err e)
      | Returned (Ok access) =>
          match HttpTokenService_issue_for self drawn.(refresh_clock) drawn.(refresh_nonce) principal scopes Refresh
                  self.(refresh_ttl) with
          | Panicked => Panicked
          | Returned (Err e) => Returned (Err e)
          | Returned (Ok refresh) =>
              Returned (Ok {| access_token := access; access_expires_in_seconds := as_secs self.(access_ttl);
                              refresh_token := refresh; refresh_expires_in_seconds := as_secs self.(refresh_ttl) |})
          end
      end
  end.

Definition lifetime_of (self : HttpTokenService) (purpose : HttpTokenPurpose) : Z :=
  match purpose with Access => self.(access_ttl) | Refresh => self.(refresh_ttl) end.

Definition HttpTokenService_validate (self : HttpTokenService) (clock : option Z) (token : string) :
    Result HttpTokenClaims :=
  let? (payload, signature) := ok_or (split_once "." token) Authentication in
  if (8192 <? string_len payload) || (128 <? string_len signature) then Err Authentication else
  let? signature := ok_or (base64_decode signature) Authentication in
  let? valid := try_keys sign self.(keys) (string_bytes payload) signature 0 in
  if negb (valid =? 1) then Err Authentication else
  let? decoded := ok_or (base64_decode payload) Authentication in
  let? claims := map_err (fun _ => Authentication) (http_claims_from_slice decoded) in
  let? now := unix_time clock in
  let maximum_lifetime := as_secs (lifetime_of self claims.(purpose)) in
  if negb (String.eqb claims.(issuer) self.(service_issuer))
     || negb (String.eqb claims.(audience) self.(service_audience))
     || (now + 30 <? claims.(issued_at))
     || (claims.(expires_at) <=? claims.(issued_at))
     || (maximum_lifetime <? claims.(expires_at) - claims.(issued_at))
     || (claims.(expires_at) <=? now) then Err TicketExpired else
  let? _ := map_err (fun _ => Authentication) (Principal_validate claims.(principal)) in
  let? _ := validate_normalized_scopes claims.(scopes) in
  Ok claims.

Definition HttpTokenService_verify_access (self : HttpTokenService) (clock : option Z) (token : string) :
    Result HttpTokenClaims :=
  let? claims := HttpTokenService_validate self clock token in
  if negb (bool_decide (claims.(purpose) = Access)) then Err Authentication else Ok claims.

(** [clock] is read by the service and [store_clock] by the store; [drawn] is for the new pair. *)
Definition HttpTokenService_rotate_refresh {R} `{!ReplayProtectionStore R} (self : HttpTokenService)
    (clock store_clock : option Z) (drawn : Drawn) (token : string) (replay : R) : Outcome HttpTokenPair * R :=
  match HttpTokenService_validate self clock token with
  | Err e => (Returned (Err e), replay)
  | Ok claims =>
      if negb (bool_decide (claims.(purpose) = Refresh)) then (Returned (Err Authentication), replay) else
      match reserve replay store_clock claims.(token_id) claims.(expires_at) with
      | (Err e, replay) => (Returned (Err e), replay)
      | (Ok reserved, replay) =>
          if negb reserved then (Returned (Err TicketReplayed), replay)
          else (HttpTokenService_issue self drawn claims.(principal) claims.(scopes), replay)
      end
  end.
End service.

(** ** Scopes *)

Definition string_lt (a b : string) : Prop := String.compare a b = Lt.

Lemma string_lt_le a b : string_lt a b -> String.leb a b = true.
Proof. unfold string_lt, String.leb. by intros ->. Qed.

Lemma not_leb_lt a b : String.leb b a = false <-> string_lt a b.
Proof.
  unfold string_lt, String.leb. rewrite (String.compare_antisym b a). by destruct (String.compare a b).
Qed.

Lemma string_compare_refl a : String.compare a a = Eq.
Proof. pose proof (String.compare_antisym a a) as H. by destruct (String.compare a a). Qed.

Lemma string_leb_trans a b c : String.leb a b = true -> String.leb b c = true -> String.leb a c = true.
Proof.
  intros Hab Hbc. assert (Hle : String.le a c).
  { transitivity b; unfold String.le; [by rewrite Hab|by rewrite Hbc]. }
  unfold String.le in Hle. by destruct (String.leb a c).
Qed.

Lemma string_lt_trans a b c : string_lt a b -> string_lt b c -> string_lt a c.
Proof.
  rewrite <-!not_leb_lt. intros Hab Hbc. destruct (String.leb c a) eqn:Hca; [|done].
  assert (Hba : String.leb b a = true); [|congruence]. apply string_leb_trans with c; [|done].
  apply string_lt_le. by apply not_leb_lt.
Qed.

Lemma windows_sorted l :
  existsb (fun pair => String.leb pair.2 pair.1) (windows2 l) = false <-> StronglySorted string_lt l.
Proof.
  induction l as [|a l IH]; [by split; constructor|]. destruct l as [|b l]; [split; repeat constructor|].
  change (windows2 (a :: b :: l)) with ((a, b) :: windows2 (b :: l)). cbn [existsb fst snd].
  rewrite orb_false_iff, IH, not_leb_lt. split.
  - intros [Hab Hl]. constructor; [done|]. constructor; [done|]. apply StronglySorted_inv in Hl as [_ Hb].
    eapply Forall_impl; [exact Hb|]. intros c. by apply string_lt_trans.
  - intros [Hl Hall]%StronglySorted_inv. split; [|done]. by apply Forall_cons in Hall as [? _].
Qed.

(** What [validate_normalized_scopes] accepts. *)
Definition normal_scopes (l : list string) : Prop :=
  len l <= MAX_SCOPES /\ StronglySorted string_lt l /\ Forall (fun s => scope_bad s = false) l.

Lemma validate_scopes_spec l : validate_normalized_scopes l = Ok () <-> normal_scopes l.
Proof.
  unfold validate_normalized_scopes, normal_scopes. rewrite <-windows_sorted.
  assert (Hbad : existsb scope_bad l = false <-> Forall (fun s => scope_bad s = false) l).
  { induction l as [|x l IH]; [by split; constructor|]. cbn. by rewrite orb_false_iff, Forall_cons, IH. }
  rewrite <-Hbad. destruct (Z.ltb_spec MAX_SCOPES (len l)); cbn; [split; [done|]; lia|].
  destruct (existsb _ (windows2 l)); cbn; [split; [done|]; by intros (_ & ? & _)|].
  destruct (existsb scope_bad l); split; try done. by intros (_ & _ & ?).
Qed.

Lemma elem_of_dedup_after x l : forall previous, x ∈ previous :: dedup_after previous l <-> x ∈ previous :: l.
Proof.
  induction l as [|y l IH]; intros previous; cbn [dedup_after]; [done|]. specialize (IH previous) as IHp. specialize (IH y).
  destruct (String.eqb_spec previous y) as [->|]; set_solver.
Qed.

Lemma elem_of_dedup x l : x ∈ dedup l <-> x ∈ l.
Proof. destruct l as [|y l]; [done|]. apply elem_of_dedup_after. Qed.

Lemma dedup_after_sorted l : forall previous,
  StronglySorted (fun a b => String.leb a b = true) (previous :: l) ->
  StronglySorted string_lt (previous :: dedup_after previous l).
Proof.
  induction l as [|x l IH]; intros previous Hs; [repeat constructor|]. cbn [dedup_after].
  apply StronglySorted_inv in Hs as [Hl Hall]. apply Forall_cons in Hall as [Hx Hall].
  destruct (String.eqb_spec previous x) as [->|Hne].
  - by apply IH.
  - specialize (IH x Hl). constructor; [done|]. constructor.
    + unfold string_lt. unfold String.leb in Hx. destruct (String.compare previous x) eqn:E; [|done..].
      by apply String.compare_eq_iff in E.
    + apply StronglySorted_inv in IH as [_ IH]. eapply Forall_impl; [exact IH|]. intros y Hy.
      apply string_lt_trans with x; [|done]. unfold string_lt. unfold String.leb in Hx.
      destruct (String.compare previous x) eqn:E; [|done..]. by apply String.compare_eq_iff in E.
Qed.

Lemma dedup_sorted l : StronglySorted (fun a b => String.leb a b = true) l -> StronglySorted string_lt (dedup l).
Proof. destruct l as [|x l]; [constructor|]. apply dedup_after_sorted. Qed.

Lemma dedup_after_id l : forall previous, StronglySorted string_lt (previous :: l) -> dedup_after previous l = l.
Proof.
  induction l as [|x l IH]; intros previous Hs; [done|]. apply StronglySorted_inv in Hs as [Hl Hall].
  apply Forall_cons in Hall as [Hx _]. cbn [dedup_after]. destruct (String.eqb_spec previous x) as [->|].
  - unfold string_lt in Hx. by rewrite string_compare_refl in Hx.
  - f_equal. by apply IH.
Qed.

(** Normalisation keeps the scopes, once each and in order; it succeeds when there are at most 64 of them
    and each is well formed. *)
Lemma normalize_scopes_spec l :
  let out := dedup (sort_by String.leb l) in
  StronglySorted string_lt out /\ (forall s, s ∈ out <-> s ∈ l)
  /\ normalize_scopes l = if (len out <=? MAX_SCOPES) && forallb (fun s => negb (scope_bad s)) l
                          then Ok out else Err Authentication.
Proof.
  intros out. assert (Hsorted : StronglySorted string_lt out).
  { apply dedup_sorted, sort_by_sorted; [apply String.leb_total|apply string_leb_trans]. }
  assert (Hin : forall s, s ∈ out <-> s ∈ l).
  { intros s. unfold out. by rewrite elem_of_dedup, elem_of_sort_by. }
  split_and!; [done|done|]. unfold normalize_scopes. fold out.
  pose proof (validate_scopes_spec out) as Hv. destruct (validate_normalized_scopes out) as [[]|e] eqn:E.
  - destruct (proj1 Hv eq_refl) as (Hlen & _ & Hok). rewrite (proj2 (Z.leb_le _ _) Hlen). cbn [andb].
    rewrite (proj2 (forallb_forall _ l)); [done|]. intros s Hs. apply negb_true_iff.
    rewrite Forall_forall in Hok. apply Hok, Hin. by apply list_elem_of_In.
  - assert (He : e = Authentication).
    { unfold validate_normalized_scopes in E. destruct (_ || _); [by injection E|done]. }
    subst e. destruct (_ && _) eqn:Hb; [|done]. exfalso. apply andb_prop in Hb as [Hlen Hok].
    assert (Err Authentication = Ok ()); [|done]. apply Hv. split_and!; [by apply Z.leb_le|done|].
    apply Forall_forall. intros s Hs. rewrite forallb_forall in Hok. apply negb_true_iff, Hok, list_elem_of_In. by apply Hin.
Qed.

Lemma normalize_normal l : normal_scopes l -> normalize_scopes l = Ok l.
Proof.
  intros Hn. pose proof Hn as (_ & Hs & _). unfold normalize_scopes.
  rewrite sort_by_id by (eapply StronglySorted_weaken; [|exact Hs]; intros a b; apply string_lt_le).
  assert (Hd : dedup l = l) by (destruct l; [done|]; cbn; f_equal; by apply dedup_after_id).
  rewrite Hd. apply validate_scopes_spec in Hn as ->. done.
Qed.

(** On normal scopes the binary search finds exactly what was granted. *)
Lemma has_scope_spec c scope : StronglySorted string_lt c.(scopes) ->
  HttpTokenClaims_has_scope c scope = bool_decide (scope ∈ c.(scopes)).
Proof.
  intros Hs. unfold HttpTokenClaims_has_scope, binary_search_by_key. generalize (scopes c), Hs. clear. intros l Hs.
  destruct (length l) as [|n] eqn:Hlen.
  { apply nil_length_inv in Hlen as ->. symmetry. apply bool_decide_eq_false, not_elem_of_nil. }
  rewrite <-Hlen. set (base := binary_search_loop _ _ _ _ _).
  assert (Hbase : (base < length l)%nat).
  { unfold base. rewrite <-(length_fmap (compare_scope scope) l). apply binary_search_loop_range; rewrite length_fmap; lia. }
  apply lookup_lt_is_Some in Hbase as [x Hx]. rewrite Hx. cbn.
  assert (Hzero : forall y, compare_scope scope y = 0 <-> y = scope).
  { intros y. unfold compare_scope. split; [|intros ->; by rewrite string_compare_refl].
    destruct (String.compare y scope) eqn:E; [|done..]. intros _. by apply String.compare_eq_iff. }
  symmetry. destruct (Z.eqb_spec (compare_scope scope x) 0) as [Heq|Hne].
  - apply bool_decide_eq_true. apply Hzero in Heq as <-. by eapply list_elem_of_lookup_2.
  - apply bool_decide_eq_false. intros [i Hi]%list_elem_of_lookup. apply Hne, Hzero.
    assert (base = i) as Hb; [|rewrite Hb in Hx; congruence]. unfold base.
    assert (Hord : forall j k a b, l !! j = Some a -> l !! k = Some b -> (j < k)%nat -> string_lt a b).
    { clear - Hs. induction Hs as [|z l Hs IH Hall]; intros [|j] [|k] a b Ha Hb Hjk; cbn in *; try done; try lia; simplify_eq.
      - rewrite Forall_forall in Hall. by eapply Hall, list_elem_of_lookup_2.
      - eapply IH; eauto; lia. }
    apply binary_search_loop_finds; rewrite ?length_fmap; try lia.
    + intros j z Hj Hji. apply list_lookup_fmap_Some in Hj as (y & -> & Hy). unfold compare_scope.
      by rewrite (Hord _ _ _ _ Hy Hi Hji).
    + intros j z Hj Hji. apply list_lookup_fmap_Some in Hj as (y & -> & Hy). unfold compare_scope.
      rewrite String.compare_antisym. by rewrite (Hord _ _ _ _ Hi Hy Hji).
    + rewrite list_lookup_fmap, Hi. cbn. f_equal. by apply Hzero.
    + apply lookup_lt_Some in Hi. lia.
Qed.

(** ** Signatures *)

(** The loop finds whether some key made the signature, when every key can sign. *)
Lemma try_keys_spec {E} (sgn : list Z -> list Z -> result E (list Z)) ks payload signature :
  (forall key, exists mac, sgn key payload = Ok mac) ->
  exists valid, try_keys sgn ks payload signature 0 = Ok valid
    /\ (valid = 1 <-> exists key, key ∈ ks /\ sgn key payload = Ok signature).
Proof.
  intros Htotal. assert (Hloop : forall v, v = 0 \/ v = 1 -> exists valid, try_keys sgn ks payload signature v = Ok valid
    /\ (valid = 0 \/ valid = 1) /\ (valid = 1 <-> v = 1 \/ exists key, key ∈ ks /\ sgn key payload = Ok signature)).
  { induction ks as [|key ks IH]; intros v Hv; cbn [try_keys].
    - exists v. split_and!; [done|done|]. split; [by left|]. intros [?|(key & Hin & _)]; [done|]. by apply not_elem_of_nil in Hin.
    - destruct (Htotal key) as [mac Hmac]. rewrite Hmac.
      destruct (IH (Z.lor v (if bool_decide (signature = mac) then 1 else 0))) as (valid & -> & H01 & Hiff).
      { destruct Hv as [-> | ->]; case_bool_decide; auto. }
      exists valid. split_and!; [done|done|]. rewrite Hiff. split.
      + intros [H1|(k & Hk & Hs)]; [|right; exists k; split; [by right|done]].
        case_bool_decide as Hsig; [right; exists key; split; [by left|by rewrite Hsig]|left]. by destruct Hv as [-> | ->].
      + intros [->|(k & [->|Hk]%elem_of_cons & Hs)]; [left; by case_bool_decide| |right; eauto].
        left. rewrite bool_decide_eq_true_2 by congruence. by destruct Hv as [-> | ->]. }
  destruct (Hloop 0 ltac:(auto)) as (valid & Hv & _ & Hiff). exists valid. split; [done|]. rewrite Hiff.
  split; [by intros [?|?]|by right].
Qed.

Class HttpClaimsJsonLaws `{!HttpClaimsJson} : Prop :=
  http_claims_json : json_law http_claims_to_vec http_claims_from_slice.

Definition same_fleet (a b : HttpTokenService) : Prop :=
  a.(service_issuer) = b.(service_issuer) /\ a.(service_audience) = b.(service_audience)
  /\ a.(access_ttl) = b.(access_ttl) /\ a.(refresh_ttl) = b.(refresh_ttl)
  /\ forall key rest, a.(keys) = key :: rest -> key ∈ b.(keys).

Section tokens.
Context `{!TicketCrypto, !TicketCryptoLaws, !HttpClaimsJson, !HttpClaimsJsonLaws}.

Lemma http_sign_total key payload : exists mac, sign key payload = Ok mac /\ bytes_ok mac /\ len mac = 32.
Proof. destruct (hmac_total key payload) as (mac & Hmac & Hbytes). exists mac. unfold sign. by rewrite Hmac. Qed.

(** A token signed by one of the keys reaches the checks of its claims. *)
Lemma http_validate_signed s t bytes mac key c :
  http_claims_to_vec c = Ok bytes -> key ∈ s.(keys) ->
  sign key (string_bytes (base64_encode bytes)) = Ok mac ->
  string_len (base64_encode bytes) <= 8192 -> Principal_validate c.(principal) = Ok () -> normal_scopes c.(scopes) ->
  c.(issuer) = s.(service_issuer) -> c.(audience) = s.(service_audience) ->
  c.(expires_at) = c.(issued_at) + as_secs (lifetime_of s c.(purpose)) ->
  HttpTokenService_validate s (Some t) (base64_encode bytes +:+ "." +:+ base64_encode mac)
  = if accepted_at c.(issued_at) (as_secs (lifetime_of s c.(purpose))) t then Ok c else Err TicketExpired.
Proof.
  intros Hj Hin Hsign Hlen Hp Hn Hiss Haud Hexp. destruct (http_claims_json c bytes Hj) as [Hbytes Hslice].
  destruct (http_sign_total key (string_bytes (base64_encode bytes))) as (mac' & Hmac' & Hok & Hmlen).
  rewrite Hsign in Hmac'. injection Hmac' as <-. pose proof (base64_length mac) as Hml.
  unfold HttpTokenService_validate. rewrite split_once_no_dot by apply base64_no_dot. cbn [ok_or].
  destruct (Z.ltb_spec 8192 (string_len (base64_encode bytes))); [lia|].
  destruct (Z.ltb_spec 128 (string_len (base64_encode mac))); [lia|]. cbn [orb].
  rewrite !base64_round_trip by done. cbn [ok_or].
  destruct (try_keys_spec sign s.(keys) (string_bytes (base64_encode bytes)) mac) as (valid & -> & Hvalid).
  { intros k. destruct (http_sign_total k (string_bytes (base64_encode bytes))) as (m & Hm & _). eauto. }
  rewrite (proj2 Hvalid) by eauto. cbn [Z.eqb negb Pos.eqb]. rewrite Hslice. cbn [map_err unix_time ok_or].
  rewrite Hiss, Haud, !String.eqb_refl, Hp. cbn [negb orb map_err].
  apply validate_scopes_spec in Hn as ->. rewrite Hexp. set (secs := as_secs _). unfold accepted_at.
  replace (issued_at c + secs - issued_at c) with secs by lia. rewrite Z.ltb_irrefl.
  destruct (Z.ltb_spec (t + 30) (issued_at c)), (Z.leb_spec (issued_at c - 30) t); try lia; cbn; [by rewrite andb_false_r|].
  destruct (Z.leb_spec (issued_at c + secs) (issued_at c)), (Z.ltb_spec 0 secs); try lia; cbn; [done|].
  by destruct (Z.leb_spec (issued_at c + secs) t), (Z.ltb_spec t (issued_at c + secs)); try lia.
Qed.

(** The claims of the two tokens of a pair. *)
Definition pair_claims (s : HttpTokenService) (now : Z) (nonce : list Z) (p : Principal) (granted : list string)
    (purpose : HttpTokenPurpose) : HttpTokenClaims :=
  new_claims s now nonce p granted purpose (lifetime_of s purpose).

Lemma http_issue_for_inv s clock nonce p granted purpose ttl token :
  HttpTokenService_issue_for s clock nonce p granted purpose ttl = Returned (Ok token) ->
  exists now key rest bytes mac, clock = Some now /\ s.(keys) = key :: rest
    /\ http_claims_to_vec (new_claims s now nonce p granted purpose ttl) = Ok bytes
    /\ sign key (string_bytes (base64_encode bytes)) = Ok mac
    /\ token = base64_encode bytes +:+ "." +:+ base64_encode mac.
Proof.
  unfold HttpTokenService_issue_for. destruct clock as [now|]; [|done]. cbn.
  destruct (http_claims_to_vec _) as [bytes|] eqn:Hj; [|done]. cbn. destruct (keys s) as [|key rest] eqn:Hk; [done|].
  destruct (sign key _) as [mac|] eqn:Hmac; [|done]. intros [= <-]. exists now, key, rest, bytes, mac. done.
Qed.

(** What a call of [issue] makes. *)
Lemma http_issue_inv s drawn p l pair :
  HttpTokenService_issue s drawn p l = Returned (Ok pair) ->
  exists granted, Principal_validate p = Ok () /\ normalize_scopes l = Ok granted
    /\ HttpTokenService_issue_for s drawn.(access_clock) drawn.(access_nonce) p granted Access s.(access_ttl)
       = Returned (Ok pair.(access_token))
    /\ HttpTokenService_issue_for s drawn.(refresh_clock) drawn.(refresh_nonce) p granted Refresh s.(refresh_ttl)
       = Returned (Ok pair.(refresh_token)).
Proof.
  unfold HttpTokenService_issue. destruct (Principal_validate p) as [[]|]; [|done]. cbn.
  destruct (normalize_scopes l) as [granted|]; [|done].
  destruct (HttpTokenService_issue_for s _ _ p granted Access _) as [[access|]|] eqn:Ha; [|done..].
  destruct (HttpTokenService_issue_for s _ _ p granted Refresh _) as [[refresh|]|] eqn:Hr; [|done..].
  intros [= <-]. exists granted. done.
Qed.

Lemma normalize_scopes_inv l granted :
  normalize_scopes l = Ok granted -> normal_scopes granted /\ forall s, s ∈ granted <-> s ∈ l.
Proof.
  intros Hn. destruct (normalize_scopes_spec l) as (_ & Hin & _). unfold normalize_scopes in Hn.
  destruct (validate_normalized_scopes _) as [[]|] eqn:Hv; [|done]. injection Hn as <-.
  split; [by apply validate_scopes_spec|done].
Qed.

Lemma same_fleet_lifetime_of a b purpose : same_fleet a b -> lifetime_of a purpose = lifetime_of b purpose.
Proof. intros (_ & _ & Ha & Hr & _). by destruct purpose. Qed.

(** How a service of the fleet reads a token another one issued. *)
Lemma http_issued_validates a b clock nonce p granted purpose token t :
  same_fleet a b -> Principal_validate p = Ok () -> normal_scopes granted -> string_len token <= 8192 ->
  HttpTokenService_issue_for a clock nonce p granted purpose (lifetime_of a purpose) = Returned (Ok token) ->
  exists now, clock = Some now /\
  HttpTokenService_validate b (Some t) token
  = if accepted_at now (as_secs (lifetime_of a purpose)) t then Ok (pair_claims a now nonce p granted purpose)
    else Err TicketExpired.
Proof.
  intros Hfleet Hp Hn Hlen Hissue.
  apply http_issue_for_inv in Hissue as (now & key & rest & bytes & mac & -> & Hkeys & Hj & Hsign & ->).
  exists now. split; [done|]. pose proof (same_fleet_lifetime_of a b purpose Hfleet) as Hl.
  destruct Hfleet as (Hiss & Haud & _ & _ & Hin). rewrite string_len_app in Hlen.
  rewrite (http_validate_signed b t bytes mac key _ Hj (Hin _ _ Hkeys) Hsign); cbn; try done.
  - unfold pair_claims; by rewrite Hl.
  - unfold string_len in *. lia.
  - by rewrite Hl.
Qed.
End tokens.

(** The scopes are normalised, so a login for the granted scopes and one for the scopes of its claims agree. *)
Lemma issue_normalized `{!TicketCrypto, !HttpClaimsJson} s drawn p l norm :
  normalize_scopes l = Ok norm -> HttpTokenService_issue s drawn p norm = HttpTokenService_issue s drawn p l.
Proof.
  intros Hnorm. pose proof (normalize_scopes_inv _ _ Hnorm) as [Hn _]. unfold HttpTokenService_issue.
  by rewrite (normalize_normal norm Hn), Hnorm.
Qed.

(** C25: A login over HTTP keeps its account and permissions.  The pair a service issues, where neither
    token is longer than 8192 bytes, works at every service of the fleet that knows the signing key.  The
    access token is accepted, as an access token only, from 30 seconds before it was issued until its whole
    seconds have passed, and names the account and exactly the scopes that were granted; a rotation refuses
    it and leaves the store alone.  The refresh token is never accepted as an access token.  Over the same
    kind of window, measured from when it was issued, a rotation accepts it: it reserves the token's
    identifier until its expiry, answers [TicketReplayed] when the store had it, passes on the error when the
    store fails, and otherwise answers as a login of the same account with the same scopes would; outside
    that window it answers [TicketExpired] and leaves the store alone. *)
Theorem http_login_keeps_grant (Crypto : TicketCrypto) (Laws : TicketCryptoLaws) (Json : HttpClaimsJson)
  (JsonLaws : HttpClaimsJsonLaws) (a b : HttpTokenService) (drawn : Drawn) (p : Principal) (granted : list string)
  (pair : HttpTokenPair) (now : Z)
  (Hfleet : same_fleet a b) (Hissue : HttpTokenService_issue a drawn p granted = Returned (Ok pair))
  (Hnow : drawn.(access_clock) = Some now)
  (Hsize : string_len pair.(access_token) <= 8192 /\ string_len pair.(refresh_token) <= 8192) :
  (exists claims, claims.(principal) = p
     /\ (forall scope, HttpTokenClaims_has_scope claims scope = bool_decide (scope ∈ granted))
     /\ forall t, HttpTokenService_verify_access b (Some t) pair.(access_token)
          = if accepted_at now (as_secs a.(access_ttl)) t then Ok claims else Err TicketExpired)
  /\ (forall t, is_ok (HttpTokenService_verify_access b (Some t) pair.(refresh_token)) = false)
  /\ (forall (R : Type) (Store : ReplayProtectionStore R) (store : R) t ts redrawn,
        is_ok (match (HttpTokenService_rotate_refresh b (Some t) ts redrawn pair.(access_token) store).1 with
               | Returned r => r
               | Panicked => Err Authentication
               end) = false
        /\ (HttpTokenService_rotate_refresh b (Some t) ts redrawn pair.(access_token) store).2 = store)
  /\ exists issued, drawn.(refresh_clock) = Some issued
     /\ forall (R : Type) (Store : ReplayProtectionStore R) (store : R) t ts redrawn,
          HttpTokenService_rotate_refresh b (Some t) ts redrawn pair.(refresh_token) store
          = if accepted_at issued (as_secs a.(refresh_ttl)) t then
              match reserve store ts (base64_encode drawn.(refresh_nonce)) (issued + as_secs a.(refresh_ttl)) with
              | (Ok true, store) => (HttpTokenService_issue b redrawn p granted, store)
              | (Ok false, store) => (Returned (Err TicketReplayed), store)
              | (Err e, store) => (Returned (Err e), store)
              end
            else (Returned (Err TicketExpired), store).
Proof.
  destruct Hsize as [Hla Hlr]. apply http_issue_inv in Hissue as (norm & Hp & Hnorm & Ha & Hr).
  pose proof (normalize_scopes_inv _ _ Hnorm) as [Hn Hin].
  assert (Haccess : forall t, HttpTokenService_validate b (Some t) pair.(access_token)
    = if accepted_at now (as_secs a.(access_ttl)) t then Ok (pair_claims a now drawn.(access_nonce) p norm Access) else Err TicketExpired).
  { intros t. destruct (http_issued_validates a b _ _ p norm Access _ t Hfleet Hp Hn Hla Ha) as (now' & Hn' & Hv).
    rewrite Hnow in Hn'. by injection Hn' as <-. }
  destruct (http_issued_validates a b _ _ p norm Refresh _ 0 Hfleet Hp Hn Hlr Hr) as (issued & Hissued & _).
  assert (Hrefresh : forall t, HttpTokenService_validate b (Some t) pair.(refresh_token)
    = if accepted_at issued (as_secs a.(refresh_ttl)) t then Ok (pair_claims a issued drawn.(refresh_nonce) p norm Refresh) else Err TicketExpired).
  { intros t. destruct (http_issued_validates a b _ _ p norm Refresh _ t Hfleet Hp Hn Hlr Hr) as (now' & Hn' & Hv).
    rewrite Hissued in Hn'. by injection Hn' as <-. }
  split_and!.
  - exists (pair_claims a now drawn.(access_nonce) p norm Access). split_and!; [done| |].
    + intros scope. rewrite has_scope_spec by apply Hn. cbn. apply bool_decide_ext, Hin.
    + intros t. unfold HttpTokenService_verify_access. rewrite Haccess. by destruct (accepted_at _ _ _).
  - intros t. unfold HttpTokenService_verify_access. rewrite Hrefresh. by destruct (accepted_at _ _ _).
  - intros R Store store t ts redrawn. unfold HttpTokenService_rotate_refresh. rewrite Haccess. by destruct (accepted_at _ _ _).
  - exists issued. split; [done|]. intros R Store store t ts redrawn. unfold HttpTokenService_rotate_refresh.
    rewrite Hrefresh. destruct (accepted_at _ _ _); [|done]. cbn [pair_claims new_claims principal scopes].
    rewrite (issue_normalized b redrawn p granted norm Hnorm). cbn. by destruct (reserve _ _ _ _) as [[[]|] store'].
Qed.

(** ** A refresh token is used once *)

(** The calls that reach the shared store: rotations by any service, and other reservations. *)
Inductive HttpStoreCall : Type :=
| CallRotate (service : HttpTokenService) (clock store_clock : option Z) (drawn : Drawn) (token : string)
| CallOther (store_clock : option Z) (key : string) (expires_at : Z).

Definition http_call_clock (c : HttpStoreCall) : option Z :=
  match c with CallRotate _ _ t _ _ | CallOther t _ _ => t end.

Section rotation.
Context `{!TicketCrypto, !HttpClaimsJson} {R : Type} `{!ReplayProtectionStore R}.

Definition http_call (s : R) (c : HttpStoreCall) : R :=
  match c with
  | CallRotate service clock store_clock drawn token =>
      (HttpTokenService_rotate_refresh service clock store_clock drawn token s).2
  | CallOther store_clock key e => (reserve s store_clock key e).2
  end.

(** Every service reads the same claims off a token. *)
Lemma http_claims_agree a b ta tb token ca cb :
  HttpTokenService_validate a ta token = Ok ca -> HttpTokenService_validate b tb token = Ok cb -> ca = cb.
Proof.
  assert (Hread : forall s t c, HttpTokenService_validate s t token = Ok c ->
    (let? (payload, _) := ok_or (split_once "." token) Authentication in
     let? decoded := ok_or (base64_decode payload) Authentication in
     map_err (fun _ => Authentication) (http_claims_from_slice decoded)) = Ok c).
  { intros s t c. unfold HttpTokenService_validate. intros Hv.
    destruct (ok_or (split_once "." token) _) as [[payload signature]|]; [|done].
    destruct (_ || _); [done|]. destruct (ok_or (base64_decode signature) _); [|done].
    destruct (try_keys _ _ _ _ _); [|done]. destruct (negb _); [done|].
    destruct (ok_or (base64_decode payload) _); [|done]. destruct (map_err _ _); [|done].
    destruct (unix_time t); [|done]. destruct (_ || _); [done|]. destruct (map_err _ (Principal_validate _)); [|done].
    by destruct (validate_normalized_scopes _). }
  intros Ha%Hread Hb%Hread. congruence.
Qed.

Lemma rotated_inv service clock store_clock drawn token s pair s' :
  HttpTokenService_rotate_refresh service clock store_clock drawn token s = (Returned (Ok pair), s') ->
  exists c, HttpTokenService_validate service clock token = Ok c /\ c.(purpose) = Refresh
    /\ reserve s store_clock c.(token_id) c.(expires_at) = (Ok true, s').
Proof.
  unfold HttpTokenService_rotate_refresh. destruct (HttpTokenService_validate _ _ _) as [c|]; [|done].
  destruct (bool_decide _) eqn:Hp; [|done]. cbn. breflect.
  destruct (reserve _ _ _ _) as [[[]|] s0] eqn:Hr; [|done..]. cbn. intros [= _ <-]. eauto.
Qed.

Context `{!ReplayProtectionLaws R}.

Lemma http_call_keeps s c key e :
  held s key e -> (forall t, http_call_clock c = Some t -> t < e) -> held (http_call s c) key e.
Proof.
  intros Hs Ht. destruct c as [service clock t drawn token|t k' e']; cbn [http_call http_call_clock] in *; [|by apply held_kept].
  unfold HttpTokenService_rotate_refresh. destruct (HttpTokenService_validate _ _ _) as [c|]; [|done].
  destruct (negb _); [done|]. pose proof (held_kept s key e t c.(token_id) c.(expires_at) Hs Ht) as Hk.
  by destruct (reserve _ _ _ _) as [[[]|] s0].
Qed.

Lemma http_calls_keep l : forall s key e,
  held s key e -> Forall (fun c => forall t, http_call_clock c = Some t -> t < e) l -> held (foldl http_call s l) key e.
Proof.
  induction l as [|c l IH]; intros s key e Hs Hl; [done|]. apply Forall_cons in Hl as [Hc Hl].
  cbn [foldl]. apply IH; [|done]. by apply http_call_keeps.
Qed.
End rotation.

(** A refresh token is rotated once: after a rotation, whatever the services of the fleet rotate and whatever
    else is reserved in the shared store, the same token is refused by every service, provided the clock of
    the store does not run back past the second attempt. *)
Theorem refresh_rotated_once (Crypto : TicketCrypto) (Json : HttpClaimsJson) (R : Type)
  (Store : ReplayProtectionStore R) (Laws : ReplayProtectionLaws R) (s s1 : R) (a b : HttpTokenService)
  (ta tsa tb : option Z) (tsb : Z) (drawn drawn' : Drawn) (token : string) (pair pair' : HttpTokenPair)
  (between : list HttpStoreCall)
  (Hfirst : HttpTokenService_rotate_refresh a ta tsa drawn token s = (Returned (Ok pair), s1))
  (Hclock : Forall (fun c => forall t, http_call_clock c = Some t -> t <= tsb) between) :
  (HttpTokenService_rotate_refresh b tb (Some tsb) drawn' token (foldl http_call s1 between)).1 <> Returned (Ok pair').
Proof.
  intros Hsecond. destruct (HttpTokenService_rotate_refresh b _ _ _ _ _) as [out s2] eqn:Hrot. cbn in Hsecond. subst out.
  apply rotated_inv in Hfirst as (c & Hva & _ & Hra), Hrot as (c' & Hvb & _ & Hrb).
  pose proof (http_claims_agree _ _ _ _ _ _ _ Hva Hvb) as <-.
  apply reserve_granted in Hra as (t1 & _ & _ & Hheld).
  pose proof Hrb as Hrb'. apply reserve_granted in Hrb' as (t2 & [= <-] & Hlt & _).
  assert (Hkept : held (foldl http_call s1 between) c.(token_id) c.(expires_at)).
  { apply http_calls_keep; [done|]. eapply Forall_impl; [exact Hclock|]. cbn. intros k Hk t Ht. specialize (Hk t Ht). lia. }
  apply (held_refuses _ _ _ tsb c.(expires_at) Hkept Hlt). by rewrite Hrb.
Qed.

(** ** A concrete instance *)
Module HttpExamples.

Definition account : Principal := {| principal_account_id := 1; principal_generation := 1 |}.
Definition service : HttpTokenService :=
  {| keys := [replicate 32 1]; service_issuer := "auth"; service_audience := "api";
     access_ttl := 600 * 1000000000; refresh_ttl := 86400 * 1000000000 |}.
Definition rotated_service : HttpTokenService :=
  {| keys := [replicate 32 2; replicate 32 1]; service_issuer := "auth"; service_audience := "api";
     access_ttl := 600 * 1000000000; refresh_ttl := 86400 * 1000000000 |}.

(** Claims for the account with the scope [game:connect], encoded by purpose and time. *)
Definition claims_at (nonce now : Z) (purpose : HttpTokenPurpose) : HttpTokenClaims :=
  {| issuer := "auth"; audience := "api"; token_id := HexCrypto.hex_encode [nonce]; issued_at := now;
     expires_at := now + match purpose with Access => 600 | Refresh => 86400 end; purpose := purpose;
     principal := account; scopes := ["game:connect"] |}.

Definition known : list HttpTokenClaims :=
  [claims_at 1 1000 Access; claims_at 2 1000 Refresh; claims_at 3 1500 Access; claims_at 4 1500 Refresh].

Definition to_vec (c : HttpTokenClaims) : result string (list Z) :=
  match list_find (fun k => k = c) known with Some (i, _) => Ok [Z.of_nat i] | None => Err "unsupported" end.
Definition from_slice (l : list Z) : result string HttpTokenClaims :=
  match l with [i] => ok_or (known !! Z.to_nat i) "unsupported" | _ => Err "unsupported" end.

#[local] Instance known_json : HttpClaimsJson :=
  {| http_claims_to_vec := to_vec; http_claims_from_slice := from_slice |}.

#[local] Instance known_json_laws : HttpClaimsJsonLaws.
Proof.
  intros c bytes. cbn. unfold to_vec. destruct (list_find _ known) as [[i k]|] eqn:Hf; [|done].
  intros [= <-]. apply list_find_Some in Hf as (Hi & -> & _). split.
  - apply Forall_singleton. unfold byte_ok. apply lookup_lt_Some in Hi. cbn in Hi. lia.
  - unfold from_slice. by rewrite Nat2Z.id, Hi.
Qed.

#[local] Existing Instance HexCrypto.hex_crypto.

Definition drawn1 : Drawn := {| access_clock := Some 1000; access_nonce := [1]; refresh_clock := Some 1000; refresh_nonce := [2] |}.
Definition drawn2 : Drawn := {| access_clock := Some 1500; access_nonce := [3]; refresh_clock := Some 1500; refresh_nonce := [4] |}.

Definition pair_of (o : Outcome HttpTokenPair) : HttpTokenPair :=
  match o with
  | Returned (Ok p) => p
  | _ => {| access_token := ""; access_expires_in_seconds := 0; refresh_token := ""; refresh_expires_in_seconds := 0 |}
  end.
Definition first_pair : HttpTokenPair :=
  Eval vm_compute in pair_of (HttpTokenService_issue service drawn1 account ["game:connect"; "game:connect"]).

Lemma http_login_keeps_grant_witness :
  (exists claims, claims.(principal) = account /\ HttpTokenClaims_has_scope claims "game:connect" = true
    /\ HttpTokenService_verify_access rotated_service (Some 1200) first_pair.(access_token) = Ok claims)
  /\ (HttpTokenService_rotate_refresh rotated_service (Some 1500) (Some 1500) drawn2 first_pair.(refresh_token)
        HexCrypto.store0).1
     = HttpTokenService_issue rotated_service drawn2 account ["game:connect"; "game:connect"].
Proof.
  destruct (http_login_keeps_grant HexCrypto.hex_crypto HexCrypto.hex_laws known_json known_json_laws service rotated_service
    drawn1 account ["game:connect"; "game:connect"] first_pair 1000)
    as ((claims & Hp & Hs & Hv) & _ & _ & issued & [= <-] & Hrotate).
  - split_and!; try done. cbn. intros key rest [= <- <-]. right. left.
  - vm_compute. reflexivity.
  - done.
  - split; vm_compute; discriminate.
  - split.
    + exists claims. split_and!; [done|by rewrite Hs; vm_compute|by rewrite Hv; vm_compute].
    + rewrite Hrotate. vm_compute. reflexivity.
Defined.

Definition store0 : CredentialStores.MemoryReplayProtectionStore := HexCrypto.store0.
Definition store1 : CredentialStores.MemoryReplayProtectionStore :=
  (HttpTokenService_rotate_refresh rotated_service (Some 1500) (Some 1500) drawn2 first_pair.(refresh_token) store0).2.

(** The rotation succeeds, and the replay of the token is refused. *)
Example refresh_rotates :
  is_ok (match (HttpTokenService_rotate_refresh rotated_service (Some 1500) (Some 1500) drawn2 first_pair.(refresh_token) store0).1
         with Returned r => r | Panicked => Err Authentication end) = true
  /\ (HttpTokenService_rotate_refresh service (Some 1501) (Some 1501) drawn2 first_pair.(refresh_token) store1).1
     = Returned (Err TicketReplayed).
Proof. vm_compute. done. Qed.
End HttpExamples.
