(* ===== verification/IdentityProviders.v ===== *)
(** * Identity providers: [crates/elura-providers/src/identity/{registry,guest}.rs]

    The registry of identity providers, the service that binds what they prove to accounts, and the provider
    of guests.  A provider is an object of the application or of this crate: a record of its methods over the
    state [W] they share (what they call outside, their stores).  [serde_json] is a parameter: a credential is
    a [Value], and what [to_value] makes of the caller's credential is an argument.  The lock of the registry
    cannot be poisoned, since nothing panics while it is held. *)

From Stdlib Require Import Ascii.
From S2P Require Import Prelude Bytes CoreError CredentialStores Principals Tickets HttpTokens.

Inductive IdentityRegistrationMode : Type := Unsupported | BindingStore | ProviderManaged.

Record IdentityProviderCapabilities : Type := {
  can_link : bool;
  registration : IdentityRegistrationMode;
}.

Definition IdentityProviderCapabilities_default : IdentityProviderCapabilities :=
  {| can_link := false; registration := Unsupported |}.

Section Registry.
Context {W Value : Type}.

(** [trait IdentityProvider]. *)
Record IdentityProvider : Type := {
  name : string;
  capabilities : IdentityProviderCapabilities;
  authenticate : W -> Value -> ProviderResult VerifiedIdentity * W;
  authenticate_link : W -> Value -> ProviderResult VerifiedIdentity * W;
  register_account : W -> Value -> ProviderResult Principal * W;
}.

(** A provider that keeps the default methods of the trait. *)
Definition provider_with_defaults (name : string)
    (authenticate : W -> Value -> ProviderResult VerifiedIdentity * W) : IdentityProvider :=
  {| name := name; capabilities := IdentityProviderCapabilities_default; authenticate := authenticate;
     authenticate_link := authenticate; register_account := fun w _ => (Err PUnsupported, w) |}.

Definition IdentityRegistry : Type := gmap ProviderName IdentityProvider.

Definition IdentityRegistry_register_arc (self : IdentityRegistry) (provider : IdentityProvider) :
    ProviderResult unit * IdentityRegistry :=
  let raw_name := provider.(name) in
  let? name := map_err (fun e => PConfig ("invalid provider name: " +:+ e)) (ProviderName_parse raw_name) else self in
  if negb (String.eqb name raw_name) then
    (Err (PConfig ("provider name must be normalized: " +:+ raw_name)), self)
  else if bool_decide (is_Some (self !! name)) then (Err (PConfig ("duplicate provider " +:+ name)), self)
  else (Ok (), <[name := provider]> self).

(** The loop of [build]; a factory is what calling it gives. *)
Fixpoint build_loop (registry : IdentityRegistry) (enabled : list string)
    (factories : gmap string (ProviderResult IdentityProvider)) : ProviderResult IdentityRegistry :=
  match enabled with
  | [] => Ok registry
  | value :: enabled =>
      let? name := map_err (fun e => PConfig ("invalid enabled provider: " +:+ e)) (ProviderName_parse value) in
      let? factory := ok_or (factories !! name) (PConfig ("provider " +:+ name +:+ " has no factory")) in
      let? provider := factory in
      match IdentityRegistry_register_arc registry provider with
      | (Err e, _) => Err e
      | (Ok _, registry) => build_loop registry enabled factories
      end
  end.

Definition IdentityRegistry_build (enabled : list string) (factories : gmap string (ProviderResult IdentityProvider)) :
    ProviderResult IdentityRegistry :=
  let? registry := build_loop ∅ enabled factories in
  match enabled with
  | [] => Err (PConfig "at least one identity provider is required")
  | _ => Ok registry
  end.

Definition IdentityRegistry_provider (self : IdentityRegistry) (value : string) : ProviderResult IdentityProvider :=
  let? name := map_err ProviderError_from (ProviderName_parse value) in
  ok_or (self !! name) (PUnknownProvider name).

#[export] Instance string_ord : Ord string := String.leb.

Definition IdentityRegistry_providers (self : IdentityRegistry) :
    list (ProviderName * IdentityProviderCapabilities) :=
  (fun entry => (entry.1, entry.2.(capabilities))) <$> btree_iter self.

(** ** The service *)

Definition encode_credential (encoded : result string Value) : ProviderResult Value :=
  map_err (fun error => PInvalidRequest ("invalid credential: " +:+ error)) encoded.

Definition normalize_identity (provider_name : string) (identity : VerifiedIdentity) : ProviderResult VerifiedIdentity :=
  let identity :=
    {| provider := identity.(provider); subject := trim identity.(subject);
       union_id := match identity.(union_id) with
                   | Some value => if String.eqb (trim value) "" then None else Some (trim value)
                   | None => None
                   end;
       attributes := identity.(attributes) |} in
  if negb (String.eqb identity.(provider) provider_name) then Err (PInvalidResponse "provider identity mismatch") else
  let? _ := map_err PInvalidResponse (VerifiedIdentity_validate identity) in
  Ok identity.

Definition binding_error (error : Error) : ProviderError :=
  match error with
  | Authentication => PInvalidCredentials
  | RateLimited => PRateLimited None
  | CoreError.Unavailable | Timeout | Io _ => PUnavailable
  | _ => PRejected "identity binding operation failed"
  end.

Definition IdentityRegistry_authenticate (self : IdentityRegistry) (value : string) (credential : result string Value)
    (w : W) : ProviderResult VerifiedIdentity * W :=
  let? provider := IdentityRegistry_provider self value else w in
  let? credential := encode_credential credential else w in
  let '(proven, w) := provider.(authenticate) w credential in
  let? identity := proven else w in
  (normalize_identity provider.(name) identity, w).

(** [W] holds the bindings too. *)
Context `{!IdentityBindingStore W}.

Definition checked_principal (principal : Principal) : ProviderResult Principal :=
  let? _ := map_err PInvalidResponse (Principal_validate principal) in
  Ok principal.

Definition IdentityService_login (registry : IdentityRegistry) (value : string) (credential : result string Value) (w : W) :
    ProviderResult Principal * W :=
  let '(proven, w) := IdentityRegistry_authenticate registry value credential w in
  let? identity := proven else w in
  let '(found, w) := find_account w identity in
  let? found := map_err binding_error found else w in
  let? principal := ok_or found PInvalidCredentials else w in
  (checked_principal principal, w).

Definition IdentityService_register (registry : IdentityRegistry) (value : string) (credential : result string Value) (w : W) :
    ProviderResult Principal * W :=
  let? provider := IdentityRegistry_provider registry value else w in
  let? credential := encode_credential credential else w in
  match provider.(capabilities).(registration) with
  | Unsupported => (Err PUnsupported, w)
  | BindingStore =>
      let '(proven, w) := provider.(authenticate) w credential in
      let? identity := proven else w in
      let? identity := normalize_identity provider.(name) identity else w in
      let '(created, w) := create_account w identity in
      let? principal := map_err binding_error created else w in
      (checked_principal principal, w)
  | ProviderManaged =>
      let '(created, w) := provider.(register_account) w credential in
      let? principal := created else w in
      (checked_principal principal, w)
  end.

Definition IdentityService_link (registry : IdentityRegistry) (principal : Principal) (value : string)
    (credential : result string Value) (w : W) : ProviderResult unit * W :=
  let? _ := map_err PInvalidRequest (Principal_validate principal) else w in
  let? provider := IdentityRegistry_provider registry value else w in
  if negb provider.(capabilities).(can_link) then (Err PUnsupported, w) else
  let? credential := encode_credential credential else w in
  let '(proven, w) := provider.(authenticate_link) w credential in
  let? identity := proven else w in
  let? identity := normalize_identity provider.(name) identity else w in
  let '(linked, w) := link w principal identity in
  (map_err binding_error linked, w).
End Registry.
Arguments IdentityProvider : clear implicits.
Arguments IdentityRegistry : clear implicits.

(** ** Guests *)

Record GuestClaims : Type := {
  guest_subject : string;
  guest_issued_at : Z;
  guest_expires_at : Z;
  guest_nonce : string;
}.

Class GuestJson : Type := {
  guest_to_vec : GuestClaims -> result string (list Z);
  guest_from_slice : list Z -> result string GuestClaims;
}.

(** [GuestProvider]: its secrets. *)
Definition GuestProvider : Type := list (list Z).

Definition GuestProvider_new_rotating (primary : list Z) (previous : list (list Z)) : ProviderResult GuestProvider :=
  let secrets := primary :: previous in
  if (16 <? len secrets) || existsb (fun secret => len secret <? 32) secrets then
    Err (PConfig "guest secrets must be >=32 bytes and at most 16 keys")
  else Ok secrets.

Definition GuestProvider_new (secret : list Z) : ProviderResult GuestProvider := GuestProvider_new_rotating secret [].

Definition guest_unix_time (clock : option Z) : ProviderResult Z := ok_or clock PUnavailable.

Section Guest.
Context `{!TicketCrypto, !GuestJson}.

Definition guest_sign (secret message : list Z) : ProviderResult (list Z) :=
  ok_or (hmac_sha256 secret message) (PConfig "invalid guest secret").

(** [self.secrets[0]] panics on a provider without secrets, which [new_rotating] never makes; [None] then. *)
Definition GuestProvider_issue (self : GuestProvider) (clock : option Z) (nonce : list Z) (subject : string) (ttl : Z) :
    option (ProviderResult string) :=
  let subject := trim subject in
  if String.eqb subject "" || (256 <? string_len subject) || (ttl =? 0) || (86400 * 1000000000 <? ttl) then
    Some (Err (PConfig "invalid guest subject or ttl"))
  else
    match
      (let? now := guest_unix_time clock in
       map_err (fun _ => PUnavailable)
         (guest_to_vec {| guest_subject := subject; guest_issued_at := now; guest_expires_at := now + as_secs ttl;
                          guest_nonce := base64_encode nonce |}))
    with
    | Err e => Some (Err e)
    | Ok bytes =>
        let payload := base64_encode bytes in
        match self with
        | [] => None
        | secret :: _ =>
            Some (let? signature := guest_sign secret (string_bytes payload) in
                  Ok (payload +:+ "." +:+ base64_encode signature))
        end
    end.

Definition GuestProvider_verify (self : GuestProvider) (clock : option Z) (token : string) : ProviderResult string :=
  if 8192 <? string_len token then Err PInvalidCredentials else
  let? (payload, signature) := ok_or (split_once "." token) PInvalidCredentials in
  let? signature := ok_or (base64_decode signature) PInvalidCredentials in
  let? valid := try_keys guest_sign self (string_bytes payload) signature 0 in
  if negb (valid =? 1) then Err PInvalidCredentials else
  let? decoded := ok_or (base64_decode payload) PInvalidCredentials in
  if 4096 <? len decoded then Err PInvalidCredentials else
  let? claims := map_err (fun _ => PInvalidCredentials) (guest_from_slice decoded) in
  let? now := guest_unix_time clock in
  if trim_is_empty claims.(guest_subject) || (256 <? string_len claims.(guest_subject))
     || String.eqb claims.(guest_nonce) "" || (now <? claims.(guest_issued_at)) || (claims.(guest_expires_at) <=? now) then
    Err PInvalidCredentials
  else Ok (trim claims.(guest_subject)).

(** [impl IdentityProvider for GuestProvider]; [from_value] decodes the credential to its token. *)
Definition GuestProvider_authenticate {Value} (from_value : Value -> option string) (self : GuestProvider)
    (clock : option Z) (credential : Value) : ProviderResult VerifiedIdentity :=
  let? token := ok_or (from_value credential) PInvalidCredentials in
  let? parsed := map_err ProviderError_from (ProviderName_parse "guest") in
  let? subject := GuestProvider_verify self clock (trim token) in
  Ok {| provider := parsed; subject := subject; union_id := None; attributes := ∅ |}.
End Guest.

(** ** The registry keeps providers under their names *)

(** Every provider is registered under its own, normal name. *)
Definition well_named {W Value} (registry : IdentityRegistry W Value) : Prop :=
  map_Forall (fun n p => p.(name) = n /\ ProviderName_parse n = Ok n) registry.

Lemma register_well_named {W Value} (registry : IdentityRegistry W Value) p r registry' :
  well_named registry -> IdentityRegistry_register_arc registry p = (r, registry') -> well_named registry'.
Proof.
  intros Hw. unfold IdentityRegistry_register_arc. destruct (ProviderName_parse (name p)) as [n|] eqn:Hn; [|by intros [= _ <-]]. cbn.
  destruct (String.eqb_spec n (name p)) as [->|]; [|by intros [= _ <-]]. cbn.
  case_bool_decide; [by intros [= _ <-]|]. intros [= _ <-]. by apply (map_Forall_insert_2 (M := gmap string)).
Qed.

Lemma build_well_named {W Value} enabled factories (registry : IdentityRegistry W Value) :
  IdentityRegistry_build enabled factories = Ok registry -> well_named registry.
Proof.
  unfold IdentityRegistry_build. destruct (build_loop ∅ enabled factories) as [r|] eqn:Hloop; [|done].
  intros Hr. assert (r = registry) as <- by (destruct enabled; [done|by injection Hr]). clear Hr.
  assert (Hempty : well_named (∅ : IdentityRegistry W Value)) by apply (map_Forall_empty (M := gmap string)).
  revert Hempty Hloop. generalize (∅ : IdentityRegistry W Value) as r0. induction enabled as [|value enabled IH]; intros r0 Hr0; cbn [build_loop].
  { by intros [= <-]. }
  destruct (ProviderName_parse value) as [n|]; [|done]; cbn. destruct (ok_or (factories !! n) _) as [[p|]|]; [|done..].
  destruct (IdentityRegistry_register_arc r0 p) as [[[]|] r1] eqn:Hreg; [|done].
  apply IH. by eapply register_well_named.
Qed.

(** An identity that passes is the provider's own. *)
Lemma normalize_identity_inv n i i' :
  normalize_identity n i = Ok i' ->
  i'.(provider) = n /\ i.(provider) = n /\ i'.(subject) = trim i.(subject) /\ VerifiedIdentity_validate i' = Ok ().
Proof.
  unfold normalize_identity. cbn. destruct (String.eqb_spec (provider i) n) as [->|]; [|done]. cbn.
  destruct (VerifiedIdentity_validate _) as [[]|] eqn:Hv; [|done]. cbn. intros [= <-]. done.
Qed.

(** A login gives the account the bindings have for an identity that the provider registered under that name
    has proven from the credential; no provider can vouch for the identities of another. *)
Lemma identity_login_sound {W Value} `{!IdentityBindingStore W} (registry : IdentityRegistry W Value) value credential w p w' :
  well_named registry -> IdentityService_login registry value credential w = (Ok p, w') ->
  exists n prov v proven identity w1,
    ProviderName_parse value = Ok n /\ registry !! n = Some prov /\ credential = Ok v
    /\ prov.(authenticate) w v = (Ok proven, w1) /\ normalize_identity n proven = Ok identity
    /\ identity.(provider) = n /\ find_account w1 identity = (Ok (Some p), w') /\ Principal_validate p = Ok ().
Proof.
  intros Hw. unfold IdentityService_login, IdentityRegistry_authenticate, IdentityRegistry_provider.
  destruct (ProviderName_parse value) as [n|] eqn:Hn; [|done]. cbn. destruct (registry !! n) as [prov|] eqn:Hprov; [|done]. cbn.
  destruct credential as [v|]; [|done]. cbn. destruct (authenticate prov w v) as [[proven|] w1] eqn:Hauth; [|done].
  destruct (Hw n prov Hprov) as [Hname _]. rewrite Hname.
  destruct (normalize_identity n proven) as [identity|] eqn:Hid; [|done].
  destruct (find_account w1 identity) as [[[q|]|] w2] eqn:Hfind; [|done..]. cbn. unfold checked_principal.
  destruct (Principal_validate q) as [[]|] eqn:Hq; [|done]. cbn. intros [= -> ->].
  exists n, prov, v, proven, identity, w1. pose proof (normalize_identity_inv _ _ _ Hid) as (? & _). done.
Qed.

(** ** Trimming twice *)

Lemma blank_app l k : blank l = true -> blank k = true -> blank (l ++ k) = true.
Proof.
  revert l. assert (H : forall n l, (length l <= n)%nat -> blank l = true -> blank k = true -> blank (l ++ k) = true);
    [|intros l; by apply (H (length l))].
  induction n as [|n IH]; intros l Hn Hl Hk; [by destruct l; cbn in Hn; [|lia]|].
  destruct l as [|a l]; [done|]. cbn in Hl, Hn |- *. destruct (whitespace1 a); [apply IH; auto; lia|].
  destruct l as [|b l]; [done|]. cbn. destruct (whitespace2 a b); [apply IH; auto; cbn in Hn; lia|].
  destruct l as [|c l]; [done|]. cbn. apply andb_prop in Hl as [-> Hl]. apply IH; auto. cbn in Hn. lia.
Qed.

Lemma string_bytes_app s r : string_bytes (s +:+ r) = string_bytes s ++ string_bytes r.
Proof. induction s as [|a s IH]; [done|]. change (String a s +:+ r) with (String a (s +:+ r)). cbn. by rewrite IH. Qed.

Lemma trim_end_split s : exists r, s = trim_end s +:+ r /\ trim_is_empty r = true.
Proof.
  induction s as [|a s IH]; [by exists EmptyString|]. cbn [trim_end]. destruct (trim_is_empty (String a s)) eqn:He.
  - by exists (String a s).
  - destruct IH as (r & Hs & Hr). exists r. split; [|done]. change (String a s = String a (trim_end s +:+ r)). by rewrite <-Hs.
Qed.

Lemma trim_end_idem s : trim_end (trim_end s) = trim_end s.
Proof.
  induction s as [|a s IH]; [done|]. cbn [trim_end]. destruct (trim_is_empty (String a s)) eqn:He; [done|]. cbn [trim_end].
  destruct (trim_is_empty (String a (trim_end s))) eqn:He'; [|by rewrite IH].
  destruct (trim_end_split s) as (r & Hs & Hr). unfold trim_is_empty in *. rewrite Hs in He.
  change (String a (trim_end s +:+ r)) with (String a (trim_end s) +:+ r) in He.
  rewrite string_bytes_app, blank_app in He; done.
Qed.

Lemma trim_start_idem s : trim_start (trim_start s) = trim_start s.
Proof.
  assert (H : forall n s, (String.length s <= n)%nat -> trim_start (trim_start s) = trim_start s); [|by apply (H (String.length s))].
  clear s. induction n as [|n IH]; intros s Hn; [by destruct s; cbn in Hn; [|lia]|].
  destruct s as [|a s]; [done|]. cbn in Hn |- *. destruct (whitespace1 (byte_of a)) eqn:W1; [apply IH; lia|].
  destruct s as [|b s]; [cbn; by rewrite W1|]. destruct (whitespace2 (byte_of a) (byte_of b)) eqn:W2; [apply IH; cbn in Hn; lia|].
  destruct s as [|c s]; [cbn; by rewrite W1, W2|].
  destruct (whitespace3 (byte_of a) (byte_of b) (byte_of c)) eqn:W3; [apply IH; cbn in Hn; lia|]. cbn. by rewrite W1, W2, W3.
Qed.

(** A string that does not start with white space does not after its end is trimmed. *)
Lemma trim_start_prefix s r : trim_start (s +:+ r) = s +:+ r -> trim_start s = s.
Proof.
  assert (Hlen : forall s, (String.length (trim_start s) <= String.length s)%nat).
  { assert (H : forall n s, (String.length s <= n)%nat -> (String.length (trim_start s) <= String.length s)%nat); [|intros x; by apply (H (String.length x))].
    induction n as [|n IH]; intros x Hn; [by destruct x; cbn in Hn; [|lia]|]. destruct x as [|a x]; [done|]. cbn in Hn |- *.
    destruct (whitespace1 _); [specialize (IH x); lia|]. destruct x as [|b x]; [done|]. cbn in Hn.
    destruct (whitespace2 _ _); [specialize (IH x); cbn; lia|]. destruct x as [|c x]; [done|]. cbn in Hn.
    destruct (whitespace3 _ _ _); [specialize (IH x); cbn; lia|done]. }
  destruct s as [|a s]; [done|]. change (String a s +:+ r) with (String a (s +:+ r)). cbn [trim_start].
  destruct (whitespace1 (byte_of a)). { intros E. specialize (Hlen (s +:+ r)). rewrite E in Hlen. cbn in Hlen. lia. }
  destruct s as [|b s]; [done|]. change (String b s +:+ r) with (String b (s +:+ r)). cbv iota beta.
  destruct (whitespace2 (byte_of a) (byte_of b)). { intros E. specialize (Hlen (s +:+ r)). rewrite E in Hlen. cbn in Hlen. lia. }
  destruct s as [|c s]; [done|]. change (String c s +:+ r) with (String c (s +:+ r)). cbv iota beta.
  destruct (whitespace3 (byte_of a) (byte_of b) (byte_of c)); [|done].
  intros E. specialize (Hlen (s +:+ r)). rewrite E in Hlen. cbn in Hlen. lia.
Qed.

Lemma trim_idem s : trim (trim s) = trim s.
Proof.
  unfold trim. destruct (trim_end_split (trim_start s)) as (r & Hs & _).
  rewrite (trim_start_prefix (trim_end (trim_start s)) r); [apply trim_end_idem|]. rewrite <-Hs. apply trim_start_idem.
Qed.

Lemma trim_not_blank s : trim s <> "" -> trim_is_empty (trim s) = false.
Proof.
  intros Hne. destruct (trim_is_empty (trim s)) eqn:He; [|done]. destruct Hne. unfold trim in *.
  rewrite <-trim_end_idem. destruct (trim_end (trim_start s)); [done|]. cbn [trim_end]. by rewrite He.
Qed.

(** ** Guests *)

Class GuestJsonLaws `{!GuestJson} : Prop := guest_json : json_law guest_to_vec guest_from_slice.

(** A guest token authenticates its subject, at every provider that knows the secret, from the second it was
    issued until its whole seconds have passed. *)
Lemma guest_token_window `{!TicketCrypto, !TicketCryptoLaws, !GuestJson, !GuestJsonLaws} (a b : GuestProvider) secret rest
    now nonce s ttl token t :
  a = secret :: rest -> secret ∈ b -> base64_encode nonce <> "" -> trim s <> "" ->
  GuestProvider_issue a (Some now) nonce s ttl = Some (Ok token) -> string_len token <= 4096 ->
  (forall l, len l <= string_len (base64_encode l)) ->
  GuestProvider_verify b (Some t) token
  = if (now <=? t) && (t <? now + as_secs ttl) then Ok (trim s) else Err PInvalidCredentials.
Proof.
  intros -> Hin Hnonce Hs Hissue Hlen Hgrow. unfold GuestProvider_issue in Hissue. destruct (_ || _) eqn:Hb; [done|].
  cbn in Hissue. destruct (guest_to_vec _) as [bytes|] eqn:Hj; [|done]. cbn in Hissue.
  destruct (guest_sign secret _) as [mac|] eqn:Hmac; [|done]. injection Hissue as <-.
  destruct (guest_json _ _ Hj) as [Hbytes Hslice]. destruct (hmac_total secret (string_bytes (base64_encode bytes))) as (m & Hm & Hok & Hml).
  unfold guest_sign in Hmac. rewrite Hm in Hmac. injection Hmac as <-. pose proof (string_len_app (base64_encode bytes) ("." +:+ base64_encode m)) as Happ.
  specialize (Hgrow bytes). assert (0 <= string_len ("." +:+ base64_encode m)) by (unfold string_len; lia).
  unfold GuestProvider_verify. destruct (Z.ltb_spec 8192 (string_len (base64_encode bytes +:+ "." +:+ base64_encode m))); [lia|].
  rewrite split_once_no_dot by apply base64_no_dot. cbn [ok_or]. rewrite !base64_round_trip by done. cbn [ok_or].
  destruct (try_keys_spec guest_sign b (string_bytes (base64_encode bytes)) m) as (valid & -> & Hvalid).
  { intros k. unfold guest_sign. destruct (hmac_total k (string_bytes (base64_encode bytes))) as (mk & -> & _). by exists mk. }
  rewrite (proj2 Hvalid) by (exists secret; split; [done|]; unfold guest_sign; by rewrite Hm). cbn [Z.eqb negb Pos.eqb].
  destruct (Z.ltb_spec 4096 (len bytes)); [lia|]. rewrite Hslice. cbn [map_err guest_unix_time ok_or guest_subject guest_issued_at guest_expires_at guest_nonce].
  breflect. rewrite trim_idem. apply String.eqb_neq in Hnonce. rewrite Hnonce. destruct (Z.ltb_spec 256 (string_len (trim s))); [lia|].
  rewrite (trim_not_blank s Hs). cbn [orb negb].
  destruct (Z.ltb_spec t now), (Z.leb_spec now t); try lia; cbn; [done|].
  by destruct (Z.leb_spec (now + as_secs ttl) t), (Z.ltb_spec t (now + as_secs ttl)); try lia.
Qed.
