(* ===== verification/OtpService.v ===== *)
(** * One-time passwords and phones: [crates/elura-providers/src/otp/mod.rs], [crates/elura-providers/src/identity/phone.rs]

    The service that issues codes to phones and verifies them against a store of their digests, and the
    identity provider that logs a phone in.  HMAC-SHA-256 is that of [Tickets]; [hex] prints bytes.  The number
    drawn for a code, the answer of the sender and the clock are arguments; the store is an interface, which
    [CredentialStores] implements in memory. *)

From Stdlib Require Import Ascii.
From S2P Require Import Prelude Bytes CoreError CredentialStores Principals Tickets IdentityProviders.

(** [trait OtpStore]. *)
Class OtpStore (S : Type) : Type := {
  otp_create : S -> Z -> OtpRecord -> Z -> Z -> Outcome OtpCreateResult * S;
  otp_verify_and_consume : S -> Z -> OtpRecord -> Z -> Result OtpVerifyResult * S;
  otp_delete : S -> string -> string -> Result unit * S;
}.

#[export] Instance memory_otp_store : OtpStore MemoryOtpStore := {|
  otp_create := MemoryOtpStore_create;
  otp_verify_and_consume := MemoryOtpStore_verify_and_consume;
  otp_delete := MemoryOtpStore_delete;
|}.

Class HexText : Type := hex_text : list Z -> string.

Record OtpConfig : Type := {
  digits : Z;
  ttl : Z;
  cooldown : Z;
  max_attempts : Z;
}.

Definition OtpConfig_default : OtpConfig :=
  {| digits := 6; ttl := 300 * 1000000000; cooldown := 60 * 1000000000; max_attempts := 5 |}.

Record OtpService : Type := {
  config : OtpConfig;
  secret : list Z;
}.

Record OtpChallenge : Type := {
  challenge : string;
  expires_in : Z;
}.

Definition OtpService_new (config : OtpConfig) (secret : list Z) : ProviderResult OtpService :=
  if negb ((4 <=? config.(digits)) && (config.(digits) <=? 10)) || (config.(ttl) =? 0) || (config.(cooldown) =? 0)
     || (config.(max_attempts) =? 0) || (len secret <? 32) then
    Err (PConfig "invalid OTP config")
  else Ok {| config := config; secret := secret |}.

Definition phone_digits (phone : string) : bool :=
  match phone with
  | String b rest => Ascii.eqb b "+"%char && string_forallb is_ascii_digit rest
  | EmptyString => false
  end.

Definition valid (phone purpose : string) : ProviderResult unit :=
  if (string_len phone <? 8) || (16 <? string_len phone) || negb (phone_digits phone) || String.eqb purpose "" then
    Err PInvalidCredentials
  else Ok ().

Definition store_error (_ : Error) : ProviderError := PUnavailable.

(** [format!("{:0width$}", n)]: decimal, with zeros in front. *)
Definition digit (n : Z) : ascii := ascii_of_N (Z.to_N (48 + n mod 10)).

Fixpoint padded (width : nat) (n : Z) (rest : string) : string :=
  match width with
  | O => rest
  | S width => padded width (n / 10) (String (digit n) rest)
  end.

Definition code_text (width n : Z) : string := padded (Z.to_nat width) n "".

Section Service.
Context `{!TicketCrypto, !HexText} {St : Type} `{!OtpStore St}.

Definition OtpService_digest (self : OtpService) (phone purpose code : string) : ProviderResult (list Z) :=
  ok_or (hmac_sha256 self.(secret)
           (string_bytes phone ++ [0] ++ string_bytes purpose ++ [0] ++ string_bytes code))
    (PConfig "OTP secret").

Definition OtpService_subject_key (self : OtpService) (phone purpose : string) : ProviderResult string :=
  let? mac := ok_or (hmac_sha256 self.(secret)
                       (string_bytes "subject" ++ [0] ++ string_bytes phone ++ [0] ++ string_bytes purpose))
                (PConfig "OTP secret") in
  Ok (hex_text mac).

(** [drawn] is below [10 ^ digits]; [now] is the clock of the store and [sent] the answer of the sender;
    [None] where the store panics. *)
Definition OtpService_issue (self : OtpService) (now drawn : Z) (sent : ProviderResult unit) (phone purpose : string)
    (store : St) : option (ProviderResult OtpChallenge) * St :=
  match
    (let? _ := valid phone purpose in
     let? subject_key := OtpService_subject_key self phone purpose in
     let? code_digest := OtpService_digest self phone purpose (code_text self.(config).(digits) drawn) in
     Ok {| subject_key := subject_key; CredentialStores.purpose := purpose; code_digest := code_digest |})
  with
  | Err e => (Some (Err e), store)
  | Ok record =>
      match otp_create store now record self.(config).(ttl) self.(config).(cooldown) with
      | (Panicked, store) => (None, store)
      | (Returned (Err e), store) => (Some (Err (store_error e)), store)
      | (Returned (Ok Cooldown), store) => (Some (Err (PRejected "OTP resend limited")), store)
      | (Returned (Ok Stored), store) =>
          match sent with
          | Err e => (Some (Err e), (otp_delete store record.(subject_key) purpose).2)
          | Ok _ => (Some (Ok {| challenge := record.(subject_key); expires_in := self.(config).(ttl) |}), store)
          end
      end
  end.

Definition OtpService_verify (self : OtpService) (now : Z) (store : St) (challenge_id phone code purpose : string) :
    ProviderResult unit * St :=
  let? _ := valid phone purpose else store in
  let? subject_key := OtpService_subject_key self phone purpose else store in
  if negb (String.eqb challenge_id subject_key) then (Err PInvalidCredentials, store) else
  if negb (string_len code =? self.(config).(digits)) || negb (string_forallb is_ascii_digit code) then
    (Err PInvalidCredentials, store) else
  let? code_digest := OtpService_digest self phone purpose code else store in
  let '(result, store) :=
    otp_verify_and_consume store now {| subject_key := subject_key; CredentialStores.purpose := purpose; code_digest := code_digest |}
      self.(config).(max_attempts) in
  let? result := map_err store_error result else store in
  match result with Valid => (Ok (), store) | _ => (Err PInvalidCredentials, store) end.
End Service.

(** ** Phones *)

Record PhoneCredential : Type := {
  phone : string;
  challenge_id : string;
  code : string;
}.

(** [str::replace([' ', '-'], "")]. *)
Fixpoint strip_separators (s : string) : string :=
  match s with
  | EmptyString => EmptyString
  | String b s => if Ascii.eqb b " "%char || Ascii.eqb b "-"%char then strip_separators s else String b (strip_separators s)
  end.

Definition normalize_phone (value : string) : ProviderResult string :=
  let phone := strip_separators (trim value) in
  if negb ((8 <=? string_len phone) && (string_len phone <=? 16)) || negb (phone_digits phone) then Err PInvalidCredentials
  else Ok phone.

Section Phone.
Context {W Value : Type} (from_value : Value -> option PhoneCredential)
  (verifier : W -> string -> string -> string -> string -> ProviderResult unit * W).

Definition PhoneProvider_verify (purpose : string) (w : W) (credential : Value) : ProviderResult VerifiedIdentity * W :=
  let? credential := ok_or (from_value credential) PInvalidCredentials else w in
  let? phone := normalize_phone credential.(phone) else w in
  if trim_is_empty credential.(challenge_id) || (256 <? string_len credential.(challenge_id))
     || trim_is_empty credential.(code) then (Err PInvalidCredentials, w) else
  let '(verified, w) := verifier w (trim credential.(challenge_id)) phone (trim credential.(code)) purpose in
  let? _ := verified else w in
  let? parsed := map_err ProviderError_from (ProviderName_parse "phone") else w in
  (Ok {| provider := parsed; subject := phone; union_id := None; attributes := ∅ |}, w).

Definition PhoneProvider : IdentityProvider W Value :=
  {| name := "phone"; capabilities := {| can_link := true; registration := BindingStore |};
     authenticate := PhoneProvider_verify "login"; authenticate_link := PhoneProvider_verify "bind_phone";
     register_account := fun w _ => (Err PUnsupported, w) |}.
End Phone.

(** ** What is outstanding was sent

    The calls of a service on its in-memory store, each with whether it succeeded. *)
Inductive OtpOp : Type :=
| IssueOp (now drawn : Z) (sent : ProviderResult unit) (phone purpose : string)
| VerifyOp (now : Z) (challenge_id phone code purpose : string).

Section Trace.
Context `{!TicketCrypto, !TicketCryptoLaws, !HexText} (service : OtpService).

Definition op_step (s : MemoryOtpStore) (op : OtpOp) : bool * MemoryOtpStore :=
  match op with
  | IssueOp now drawn sent phone purpose =>
      let '(r, s) := OtpService_issue service now drawn sent phone purpose s in
      (match r with Some (Ok _) => true | _ => false end, s)
  | VerifyOp now challenge_id phone code purpose =>
      let '(r, s) := OtpService_verify service now s challenge_id phone code purpose in (is_ok r, s)
  end.

Inductive otp_run : list (OtpOp * bool) -> MemoryOtpStore -> Prop :=
| otp_run_start : otp_run [] {| entries := ∅; cooldowns := ∅ |}
| otp_run_step trace s op : otp_run trace s -> otp_run (trace ++ [(op, (op_step s op).1)]) (op_step s op).2.

(** The challenge an operation is about. *)
Definition op_key (op : OtpOp) : option (string * string) :=
  match op with
  | IssueOp _ _ _ phone purpose | VerifyOp _ _ phone _ purpose =>
      match OtpService_subject_key service phone purpose with Ok k => Some (k, purpose) | Err _ => None end
  end.

(** A verification that names the challenge and gives a well-formed code. *)
Definition is_guess (key : string * string) (op : OtpOp) : bool :=
  match op with
  | VerifyOp _ challenge_id phone code purpose =>
      is_ok (valid phone purpose) && bool_decide (op_key op = Some key) && String.eqb challenge_id key.1
      && (string_len code =? service.(config).(digits)) && string_forallb is_ascii_digit code
  | IssueOp _ _ _ _ _ => false
  end.

Definition failures (key : string * string) (trace : list (OtpOp * bool)) : Z :=
  len (filter (fun p => p.2 = false /\ is_guess key p.1 = true) trace).

Lemma failures_snoc key trace op b :
  failures key (trace ++ [(op, b)]) = failures key trace + (if negb b && is_guess key op then 1 else 0).
Proof.
  unfold failures. rewrite filter_app, len_app, filter_cons, filter_nil. cbn [fst snd].
  destruct b, (is_guess key op); case_decide as Hd; cbn; try (destruct Hd as [Hd1 Hd2]); try done; try lia; by destruct Hd.
Qed.

Lemma subject_key_total phone purpose : exists k, OtpService_subject_key service phone purpose = Ok k.
Proof.
  unfold OtpService_subject_key. destruct (hmac_total service.(secret)
    (string_bytes "subject" ++ [0] ++ string_bytes phone ++ [0] ++ string_bytes purpose)) as (mac & -> & _). cbn. eauto.
Qed.

Lemma digest_total phone purpose code : exists d, OtpService_digest service phone purpose code = Ok d /\ len d = 32.
Proof.
  unfold OtpService_digest. destruct (hmac_total service.(secret)
    (string_bytes phone ++ [0] ++ string_bytes purpose ++ [0] ++ string_bytes code)) as (mac & -> & _ & Hl). cbn. eauto.
Qed.

Definition record_of (key : string * string) (d : list Z) : OtpRecord :=
  {| subject_key := key.1; CredentialStores.purpose := key.2; code_digest := d |}.

(** Issuing leaves the challenges as they are, or replaces the one of the phone, or deletes it when it could
    not be sent. *)
Lemma issue_step_cases now drawn sent phone purpose s k :
  OtpService_subject_key service phone purpose = Ok k ->
  match op_step s (IssueOp now drawn sent phone purpose) with
  | (true, s') => sent = Ok () /\ exists d,
      OtpService_digest service phone purpose (code_text service.(config).(digits) drawn) = Ok d
      /\ OtpRecord_validate (record_of (k, purpose) d) = Ok () /\ valid phone purpose = Ok ()
      /\ s'.(entries) = <[(k, purpose) := {| digest := d; CredentialStores.expires_at := now + service.(config).(ttl); attempts := 0 |}]> s.(entries)
  | (false, s') => s'.(entries) = s.(entries) \/ s'.(entries) = delete (k, purpose) s.(entries)
  end.
Proof.
  intros Hk. unfold op_step, OtpService_issue. destruct (valid phone purpose) as [[]|]; [|by left]. rewrite Hk.
  destruct (digest_total phone purpose (code_text service.(config).(digits) drawn)) as (d & Hd & _). rewrite Hd.
  cbn [otp_create memory_otp_store subject_key]. unfold MemoryOtpStore_create. fold (record_of (k, purpose) d).
  change {| subject_key := k; CredentialStores.purpose := purpose; code_digest := d |} with (record_of (k, purpose) d).
  destruct (OtpRecord_validate (record_of (k, purpose) d)) as [[]|] eqn:Hv; [|by left].
  unfold create_cooldown. case_bool_decide; [by left|]. destruct (SystemTime_add now (cooldown _)); [|by left].
  unfold create_entry. destruct (SystemTime_add now (ttl _)) as [t|] eqn:Ht; [|by left].
  unfold SystemTime_add in Ht. apply checked_add_Some in Ht as [-> _].
  destruct sent as [[]|e]; cbn.
  - split; [done|]. exists d. done.
  - right. change (k, purpose) with (otp_key (record_of (k, purpose) d)). cbn. by rewrite delete_insert_eq.
Qed.

Lemma record_validate_digest key d d' :
  len d = 32 -> len d' = 32 -> OtpRecord_validate (record_of key d) = OtpRecord_validate (record_of key d').
Proof. intros Hd Hd'. unfold OtpRecord_validate. cbn. by rewrite Hd, Hd'. Qed.

(** Verifying touches the challenge it names only: success consumes it; a wrong code counts. *)
Lemma verify_step_cases now ch phone code purpose s k :
  OtpService_subject_key service phone purpose = Ok k ->
  let op := VerifyOp now ch phone code purpose in
  match op_step s op with
  | (true, s') => is_guess (k, purpose) op = true /\ exists e d, s.(entries) !! (k, purpose) = Some e
      /\ OtpService_digest service phone purpose code = Ok d /\ e.(digest) = d /\ now < e.(CredentialStores.expires_at)
      /\ s'.(entries) = delete (k, purpose) s.(entries)
  | (false, s') =>
      s'.(entries) = delete (k, purpose) s.(entries)
      \/ (s'.(entries) = s.(entries) /\ (is_guess (k, purpose) op = false \/ s.(entries) !! (k, purpose) = None
            \/ forall d, len d = 32 -> OtpRecord_validate (record_of (k, purpose) d) <> Ok ()))
      \/ (is_guess (k, purpose) op = true /\ exists e, s.(entries) !! (k, purpose) = Some e
          /\ e.(attempts) + 1 < service.(config).(max_attempts)
          /\ s'.(entries) = <[(k, purpose) := {| digest := e.(digest); CredentialStores.expires_at := e.(CredentialStores.expires_at);
                                                 attempts := e.(attempts) + 1 |}]> s.(entries))
  end.
Proof.
  intros Hk op. unfold op. cbn [op_step]. unfold OtpService_verify.
  assert (Hguess : is_guess (k, purpose) op = is_ok (valid phone purpose) && String.eqb ch k
    && (string_len code =? service.(config).(digits)) && string_forallb is_ascii_digit code).
  { unfold is_guess, op, op_key. rewrite Hk, bool_decide_eq_true_2 by done. by rewrite andb_true_r. }
  fold op. rewrite Hguess. destruct (valid phone purpose) as [[]|]; [|right; left; auto]. rewrite Hk. cbn [is_ok andb].
  destruct (String.eqb ch k); [|right; left; auto]. cbn [negb andb].
  destruct (string_len code =? _); [|right; left; auto]. destruct (string_forallb is_ascii_digit code); [|right; left; auto].
  destruct (digest_total phone purpose code) as (d & Hd & Hdl). rewrite Hd. cbn [negb orb andb otp_verify_and_consume memory_otp_store].
  unfold MemoryOtpStore_verify_and_consume. fold (record_of (k, purpose) d).
  change {| subject_key := k; CredentialStores.purpose := purpose; code_digest := d |} with (record_of (k, purpose) d).
  destruct (OtpRecord_validate (record_of (k, purpose) d)) as [[]|] eqn:Hv.
  2:{ right; left. split; [done|]. right; right. intros d' Hd'. rewrite (record_validate_digest _ d' d); [by rewrite Hv|done|done]. }
  change (otp_key (record_of (k, purpose) d)) with (k, purpose).
  destruct (entries s !! (k, purpose)) as [e|] eqn:He; [|right; left; auto].
  destruct (Z.leb_spec (CredentialStores.expires_at e) now); [by left|].
  case_bool_decide as Hdig; [by split; [|exists e, d]|]. cbn.
  destruct (Z.leb_spec (max_attempts (config service)) (attempts e + 1)); [by left|]. right; right. split; [done|]. by exists e.
Qed.
(** The challenge was issued and sent, nothing has replaced or used it since, and the wrong codes given for it
    are counted. *)
Definition issued_entry (trace : list (OtpOp * bool)) (key : string * string) (e : CredentialStores.Entry) : Prop :=
  exists before now drawn phone purpose after,
    trace = before ++ (IssueOp now drawn (Ok ()) phone purpose, true) :: after
    /\ op_key (IssueOp now drawn (Ok ()) phone purpose) = Some key
    /\ OtpService_digest service phone purpose (code_text service.(config).(digits) drawn) = Ok e.(digest)
    /\ e.(CredentialStores.expires_at) = now + service.(config).(ttl)
    /\ (forall op, (op, true) ∈ after -> op_key op <> Some key)
    /\ e.(attempts) = failures key after /\ e.(attempts) < service.(config).(max_attempts)
    /\ OtpRecord_validate (record_of key e.(digest)) = Ok ().

(** The last operation is not about the challenge. *)
Lemma issued_kept trace key e op b :
  issued_entry trace key e -> (b = true -> op_key op <> Some key) -> negb b && is_guess key op = false ->
  issued_entry (trace ++ [(op, b)]) key e.
Proof.
  intros (before & now & drawn & phone & purpose & after & -> & Hk & Hd & He & Hq & Ha & Hm & Hv) Hb Hg.
  exists before, now, drawn, phone, purpose, (after ++ [(op, b)]). split_and!; try done.
  - by rewrite <-app_assoc.
  - intros op' [Hin|[= -> <-]%list_elem_of_singleton]%elem_of_app; [by apply Hq|by apply Hb].
  - rewrite failures_snoc, Hg. lia.
Qed.

(** The last operation was a wrong code for it. *)
Lemma issued_missed trace key e op :
  issued_entry trace key e -> is_guess key op = true -> e.(attempts) + 1 < service.(config).(max_attempts) ->
  issued_entry (trace ++ [(op, false)]) key
    {| digest := e.(digest); CredentialStores.expires_at := e.(CredentialStores.expires_at); attempts := e.(attempts) + 1 |}.
Proof.
  intros (before & now & drawn & phone & purpose & after & -> & Hk & Hd & He & Hq & Ha & Hm & Hv) Hg Hlt.
  exists before, now, drawn, phone, purpose, (after ++ [(op, false)]). cbn. split_and!; try done.
  - by rewrite <-app_assoc.
  - intros op' [Hin|[= ]%list_elem_of_singleton]%elem_of_app. by apply Hq.
  - rewrite failures_snoc, Hg. cbn. lia.
Qed.

Lemma guess_key key op : is_guess key op = true -> op_key op = Some key.
Proof. destruct op; cbn [is_guess]; [done|]. intros H'. breflect. done. Qed.

Lemma outstanding_issued trace s :
  0 < service.(config).(max_attempts) -> otp_run trace s ->
  forall key e, s.(entries) !! key = Some e -> issued_entry trace key e.
Proof.
  intros Hmax. induction 1 as [|trace s op Hrun IH]; intros key e He; [done|].
  assert (Hother : forall k, op_key op = Some k -> k <> key -> issued_entry trace key e ->
    issued_entry (trace ++ [(op, (op_step s op).1)]) key e).
  { intros k Hk Hne Hold. apply issued_kept; [done|congruence|]. apply andb_false_iff. right.
    destruct (is_guess key op) eqn:Hg; [|done]. apply guess_key in Hg. congruence. }
  destruct op as [now drawn sent phone purpose|now ch phone code purpose];
    destruct (subject_key_total phone purpose) as [k Hk].
  - assert (Hkey : op_key (IssueOp now drawn sent phone purpose) = Some (k, purpose)) by (cbn; by rewrite Hk).
    pose proof (issue_step_cases now drawn sent phone purpose s k Hk) as Hcase.
    destruct (op_step s (IssueOp now drawn sent phone purpose)) as [[] s']; cbn [fst snd] in *.
    + destruct Hcase as (-> & d & Hd & Hv & Hval & Hent). rewrite Hent in He.
      apply lookup_insert_Some in He as [[<- <-]|[Hne He]]; [|by apply (Hother (k, purpose)); auto].
      exists trace, now, drawn, phone, purpose, []. split_and!; try done. intros op Hin. by apply not_elem_of_nil in Hin.
    + destruct Hcase as [Hent|Hent]; rewrite Hent in He.
      * apply issued_kept; [by apply IH|done|done].
      * apply lookup_delete_Some in He as [Hne He]. by apply (Hother (k, purpose)); auto.
  - assert (Hkey : op_key (VerifyOp now ch phone code purpose) = Some (k, purpose)) by (cbn; by rewrite Hk).
    pose proof (verify_step_cases now ch phone code purpose s k Hk) as Hcase. cbv zeta in Hcase.
    destruct (op_step s (VerifyOp now ch phone code purpose)) as [[] s']; cbn [fst snd] in *.
    + destruct Hcase as (_ & e0 & d & _ & _ & _ & _ & Hent). rewrite Hent in He.
      apply lookup_delete_Some in He as [Hne He]. by apply (Hother (k, purpose)); auto.
    + destruct Hcase as [Hent|[(Hent & Hwhy)|(Hg & e0 & He0 & Hlt & Hent)]]; rewrite Hent in He.
      * apply lookup_delete_Some in He as [Hne He]. by apply (Hother (k, purpose)); auto.
      * destruct (decide ((k, purpose) = key)) as [<-|Hne]; [|by apply (Hother (k, purpose)); auto].
        apply issued_kept; [by apply IH|done|]. cbn [negb andb].
        destruct Hwhy as [?|[Hno|Hbad]]; [done|congruence|]. exfalso.
        destruct (IH _ _ He) as (before & t & n & ph & pu & after & _ & _ & Hd & _ & _ & _ & _ & Hv).
        destruct (digest_total ph pu (code_text (digits (config service)) n)) as (d & Hd' & Hlen). rewrite Hd in Hd'.
        injection Hd' as <-. exact (Hbad _ Hlen Hv).
      * apply lookup_insert_Some in He as [[<- <-]|[Hne He]]; [|by apply (Hother (k, purpose)); auto].
        apply issued_missed; auto.
Qed.
End Trace.

(** C18: A phone logs in only with the code that was sent to it.  When the phone provider accepts a credential,
    the code is the one the service last issued and sent to that phone for that purpose (a login, or binding
    the phone), less than the time to live ago; since then nothing has succeeded for it, neither a
    verification nor another issue, and fewer than [max_attempts] wrong codes were given; and it is consumed.
    The MACs of the phones and codes that occur are assumed not to collide. *)
Theorem phone_login_proves_code (Crypto : TicketCrypto) (Laws : TicketCryptoLaws) (Hex : HexText) {Value : Type}
  (from_value : Value -> option PhoneCredential) (cfg : OtpConfig) (key : list Z) (service : OtpService)
  (trace : list (OtpOp * bool)) (s s' : MemoryOtpStore) (purpose : string) (now : Z) (credential : Value)
  (cred : PhoneCredential) (identity : VerifiedIdentity)
  (Hnew : OtpService_new cfg key = Ok service) (Hpos : 0 <= cfg.(max_attempts)) (Hrun : otp_run service trace s)
  (Hcred : from_value credential = Some cred)
  (Hlogin : PhoneProvider_verify from_value (OtpService_verify service now) purpose s credential = (Ok identity, s'))
  (Hphones : forall t drawn sent ph b, (IssueOp t drawn sent ph purpose, b) ∈ trace ->
     OtpService_subject_key service ph purpose = OtpService_subject_key service identity.(subject) purpose ->
     ph = identity.(subject))
  (Hcodes : forall t drawn sent b, (IssueOp t drawn sent identity.(subject) purpose, b) ∈ trace ->
     OtpService_digest service identity.(subject) purpose (code_text cfg.(digits) drawn)
     = OtpService_digest service identity.(subject) purpose (trim cred.(code)) ->
     code_text cfg.(digits) drawn = trim cred.(code)) :
  exists before t drawn after challenge,
    trace = before ++ (IssueOp t drawn (Ok ()) identity.(subject) purpose, true) :: after
    /\ trim cred.(code) = code_text cfg.(digits) drawn /\ now < t + cfg.(ttl)
    /\ normalize_phone cred.(phone) = Ok identity.(subject) /\ identity.(provider) = "phone"
    /\ OtpService_subject_key service identity.(subject) purpose = Ok challenge
    /\ (forall op, (op, true) ∈ after -> op_key service op <> Some (challenge, purpose))
    /\ failures service (challenge, purpose) after < cfg.(max_attempts)
    /\ s'.(entries) !! (challenge, purpose) = None.
Proof.
  assert (Hcfg : service.(config) = cfg /\ 0 < service.(config).(max_attempts)).
  { revert Hnew. unfold OtpService_new. destruct (_ || _) eqn:Hb; [done|]. intros [= <-]. cbn. breflect. split; [done|]. lia. }
  destruct Hcfg as [<- Hmax]. unfold PhoneProvider_verify in Hlogin. rewrite Hcred in Hlogin. cbn [ok_or] in Hlogin.
  destruct (normalize_phone (phone cred)) as [ph|] eqn:Hph; [|done]. destruct (_ || _); [done|].
  destruct (OtpService_verify service now s _ ph _ purpose) as [[[]|] s1] eqn:Hver; [|done].
  assert (Hlogin' : (Ok {| provider := "phone"; subject := ph; union_id := None; attributes := ∅ |}, s1) = (Ok identity, s')) by exact Hlogin.
  injection Hlogin' as <- <-. clear Hlogin. cbn [subject provider] in *.
  destruct (subject_key_total service ph purpose) as [k Hk].
  pose proof (verify_step_cases service now (trim (challenge_id cred)) ph (trim (code cred)) purpose s k Hk) as Hcase.
  cbn [op_step] in Hcase. rewrite Hver in Hcase. destruct Hcase as (_ & e & d & He & Hd & Hed & Hnow & Hent).
  destruct (outstanding_issued service trace s Hmax Hrun _ _ He) as (before & t & n & ph' & pu & after & -> & Hkey & Hdig & Hexp & Hq & Ha & Hlt & _).
  cbn [op_key] in Hkey. destruct (OtpService_subject_key service ph' pu) as [k'|] eqn:Hk'; [|done]. injection Hkey as -> ->.
  assert (Hin : (IssueOp t n (Ok ()) ph' purpose, true) ∈ before ++ (IssueOp t n (Ok ()) ph' purpose, true) :: after) by set_solver.
  assert (ph' = ph) as ->. { eapply Hphones; [exact Hin|]. by rewrite Hk', Hk. }
  exists before, t, n, after, k. split_and!; try done.
  - symmetry. eapply Hcodes; [exact Hin|]. by rewrite Hdig, Hd, Hed.
  - by rewrite <-Hexp.
  - lia.
  - rewrite Hent. apply lookup_delete_eq.
Qed.

(** ** A concrete login *)
Module OtpExamples.
#[local] Existing Instance HexCrypto.hex_crypto.
#[local] Existing Instance HexCrypto.hex_laws.
#[local] Instance hex_printer : HexText := HexCrypto.hex_encode.

Definition sample : OtpService := {| config := OtpConfig_default; secret := replicate 32 7 |}.
Definition sample_phone : string := "+15551234567".
Definition sample_key : string :=
  Eval vm_compute in match OtpService_subject_key sample sample_phone "login" with Ok k => k | Err _ => "" end.

Definition sample_issue : OtpOp := IssueOp 1000 42 (Ok ()) sample_phone "login".
Definition sample_miss : OtpOp := VerifyOp 2000 sample_key sample_phone "000099" "login".
Definition sample_start : MemoryOtpStore := {| entries := ∅; cooldowns := ∅ |}.
Definition sample_issued : MemoryOtpStore := (op_step sample sample_start sample_issue).2.
Definition sample_missed : MemoryOtpStore := (op_step sample sample_issued sample_miss).2.
Definition sample_trace : list (OtpOp * bool) := [(sample_issue, true); (sample_miss, false)].

Definition sample_credential : PhoneCredential :=
  {| phone := " +1 555-123-4567"; challenge_id := sample_key; code := "000042 " |}.
Definition sample_identity : VerifiedIdentity :=
  {| provider := "phone"; subject := sample_phone; union_id := None; attributes := ∅ |}.

Lemma sample_run : otp_run sample sample_trace sample_missed.
Proof.
  change sample_trace with (([] ++ [(sample_issue, (op_step sample sample_start sample_issue).1)])
    ++ [(sample_miss, (op_step sample sample_issued sample_miss).1)]).
  apply otp_run_step. apply otp_run_step. constructor.
Qed.

Lemma phone_login_proves_code_witness :
  exists before t drawn after challenge,
    sample_trace = before ++ (IssueOp t drawn (Ok ()) sample_phone "login", true) :: after
    /\ "000042" = code_text 6 drawn /\ failures sample (challenge, "login") after < 5.
Proof.
  destruct (phone_login_proves_code HexCrypto.hex_crypto HexCrypto.hex_laws hex_printer Some OtpConfig_default (replicate 32 7) sample
    sample_trace sample_missed
    (PhoneProvider_verify Some (OtpService_verify sample 3000) "login" sample_missed sample_credential).2
    "login" 3000 sample_credential sample_credential sample_identity)
    as (before & t & drawn & after & challenge & Htr & Hc & _ & _ & _ & _ & _ & Hf & _).
  - reflexivity.
  - done.
  - exact sample_run.
  - reflexivity.
  - vm_compute. reflexivity.
  - intros t drawn sent ph b [[= -> -> -> -> ->]|[[= ]|[]%elem_of_nil]%elem_of_cons]%elem_of_cons _. done.
  - intros t drawn sent b [[= -> -> -> ->]|[[= ]|[]%elem_of_nil]%elem_of_cons]%elem_of_cons _. vm_compute. reflexivity.
  - exists before, t, drawn, after, challenge. done.
Defined.
End OtpExamples.
