(* ===== verification/HttpAuth.v ===== *)
(** * HTTP authentication: [crates/elura-gateway/src/http_auth.rs], [crates/elura-gateway/src/http_auth/identity.rs]

    The endpoints that log a user in, renew the login and exchange it for a ticket of the gateway, the
    bearer authentication before the protected ones, and the backend that asks the identity providers.
    The HTTP library is outside: a request is its decoded body and the text of its authorization header, a
    response its status, its body and whether it carries the bearer challenge.  Clock readings and nonces are
    arguments; [None] is a panic, which only a service without keys can cause. *)

From Stdlib Require Import Ascii.
From S2P Require Import Prelude Bytes CoreError Identity Principals Tickets HttpTokens IdentityProviders.

Definition GAME_CONNECT_SCOPE : string := "game:connect".

Record HttpLoginGrant : Type := {
  grant_principal : Principal;
  grant_scopes : list string;
}.

Record GameSessionTicketRequest : Type := {
  request_user_id : Z;
  request_region_id : Z;
  request_realm_id : Z;
}.

Definition GameSessionTicketRequest_validate (self : GameSessionTicketRequest) : Result unit :=
  if (self.(request_user_id) <=? 0) || (self.(request_region_id) =? 0) || (self.(request_realm_id) =? 0) then
    Err Authentication
  else Ok ().

(** [trait HttpLoginBackend]. *)
Class HttpLoginBackend (B Value : Type) : Type := {
  backend_login : B -> string -> Value -> Result HttpLoginGrant * B;
  backend_game_identity : B -> Principal -> GameSessionTicketRequest -> Result Identity * B;
}.

Record HttpLoginRequest (Value : Type) : Type := {
  login_provider : string;
  login_credential : Value;
  login_game : option GameSessionTicketRequest;
}.
Arguments login_provider {Value} _.
Arguments login_credential {Value} _.
Arguments login_game {Value} _.

Record GatewaySessionTicket : Type := {
  ticket : string;
  expires_in_seconds : Z;
}.

Record HttpLoginResponse : Type := {
  response_account_id : Z;
  response_generation : Z;
  response_tokens : HttpTokenPair;
  response_gateway : option GatewaySessionTicket;
}.

(** ** Responses *)

Record HttpAuthErrorResponse : Type := {
  error_code : string;
  error_message : string;
  error_retryable : bool;
}.

Record Response (A : Type) : Type := {
  status : Z;
  body : result HttpAuthErrorResponse A;
  bearer_challenge : bool;
}.
Arguments status {A} _.
Arguments body {A} _.
Arguments bearer_challenge {A} _.

Definition OK : Z := 200.
Definition UNAUTHORIZED : Z := 401.
Definition FORBIDDEN : Z := 403.
Definition TOO_MANY_REQUESTS : Z := 429.
Definition INTERNAL_SERVER_ERROR : Z := 500.
Definition SERVICE_UNAVAILABLE : Z := 503.

Definition ok_response {A} (a : A) : Response A := {| status := OK; body := Ok a; bearer_challenge := false |}.

Definition error_response {A} (status : Z) (code message : string) (retryable : bool) : Response A :=
  {| status := status; body := Err {| error_code := code; error_message := message; error_retryable := retryable |};
     bearer_challenge := false |}.

Definition auth_error_response {A} (status : Z) (code message : string) : Response A :=
  {| status := status; body := Err {| error_code := code; error_message := message; error_retryable := false |};
     bearer_challenge := status =? UNAUTHORIZED |}.

Definition api_error {A} (error : Error) : Response A :=
  match error with
  | Authentication | TicketExpired | TicketReplayed | SessionRevoked =>
      auth_error_response UNAUTHORIZED "UNAUTHENTICATED" "authentication failed"
  | RateLimited => error_response TOO_MANY_REQUESTS "RATE_LIMITED" "request rate exceeded" true
  | Business code message retryable => error_response FORBIDDEN code message retryable
  | CoreError.Unavailable | Timeout | Io _ => error_response SERVICE_UNAVAILABLE "UNAVAILABLE" "service is unavailable" true
  | _ => error_response INTERNAL_SERVER_ERROR "INTERNAL" "internal error" false
  end.

(** [HttpAuthRejection]: status, code and message. *)
Record HttpAuthRejection : Type := {
  rejection_status : Z;
  rejection_code : string;
  rejection_message : string;
}.

Definition HttpAuthRejection_unauthenticated : HttpAuthRejection :=
  {| rejection_status := UNAUTHORIZED; rejection_code := "UNAUTHENTICATED"; rejection_message := "authentication failed" |}.

Definition HttpAuthRejection_forbidden : HttpAuthRejection :=
  {| rejection_status := FORBIDDEN; rejection_code := "FORBIDDEN"; rejection_message := "permission denied" |}.

Definition HttpAuthRejection_into_response {A} (self : HttpAuthRejection) : Response A :=
  auth_error_response self.(rejection_status) self.(rejection_code) self.(rejection_message).

(** ** Bearer authentication *)

Definition is_ascii_whitespace (b : ascii) : bool :=
  let n := byte_of b in (n =? 32) || (n =? 9) || (n =? 10) || (n =? 12) || (n =? 13).

Definition eq_ignore_ascii_case (a b : string) : bool :=
  String.eqb (string_map to_ascii_lowercase a) (string_map to_ascii_lowercase b).

Definition AuthenticatedHttp_require_scope (claims : HttpTokenClaims) (scope : string) : result HttpAuthRejection unit :=
  if HttpTokenClaims_has_scope claims scope then Ok () else Err HttpAuthRejection_forbidden.

(** [AuthenticatedHttp::from_request_parts]: the claims the middleware left in the extensions. *)
Definition AuthenticatedHttp_from_request_parts (extension : option HttpTokenClaims) : result HttpAuthRejection HttpTokenClaims :=
  ok_or extension HttpAuthRejection_unauthenticated.

Section Api.
Context `{!TicketCrypto, !HttpClaimsJson}.

(** [authorization] is the header when it is present and visible ASCII. *)
Definition HttpBearerAuth_authenticate (tokens : HttpTokenService) (clock : option Z) (authorization : option string) :
    result HttpAuthRejection HttpTokenClaims :=
  let? value := ok_or authorization HttpAuthRejection_unauthenticated in
  let? (scheme, token) := ok_or (split_once " " value) HttpAuthRejection_unauthenticated in
  if negb (eq_ignore_ascii_case scheme "bearer") || String.eqb token ""
     || negb (string_forallb (fun b => negb (is_ascii_whitespace b)) token) then
    Err HttpAuthRejection_unauthenticated
  else map_err (fun _ => HttpAuthRejection_unauthenticated) (HttpTokenService_verify_access tokens clock token).

(** [next] is the rest of the chain on the request with the claims in its extensions. *)
Definition require_bearer {A St} (tokens : HttpTokenService) (clock : option Z) (authorization : option string)
    (next : option HttpTokenClaims -> St -> option (Response A) * St) (s : St) : option (Response A) * St :=
  match HttpBearerAuth_authenticate tokens clock authorization with
  | Ok claims => next (Some claims) s
  | Err rejection => (Some (HttpAuthRejection_into_response rejection), s)
  end.

(** ** The endpoints *)

Record HttpAuthApi : Type := {
  tokens : HttpTokenService;
  tickets : TicketService;
}.

Section Endpoints.
Context {B Value R : Type} `{!HttpLoginBackend B Value, !ReplayProtectionStore R} (api : HttpAuthApi).

(** A response of a call that may panic. *)
Definition respond {A} (out : Outcome A) : option (Response A) :=
  match out with
  | Returned (Ok a) => Some (ok_response a)
  | Returned (Err e) => Some (api_error e)
  | Panicked => None
  end.

Definition identity_mismatch (identity : Identity) (claims : HttpTokenClaims) (request : GameSessionTicketRequest) : bool :=
  negb (identity.(account_id) =? claims.(HttpTokens.principal).(principal_account_id))
  || negb (identity.(generation) =? claims.(HttpTokens.principal).(principal_generation))
  || negb (identity.(identity_user_id) =? request.(request_user_id))
  || negb (identity.(identity_region_id) =? request.(request_region_id))
  || negb (identity.(identity_realm_id) =? request.(request_realm_id)).

Definition issue_gateway_ticket (clock : option Z) (nonce : list Z) (claims : HttpTokenClaims)
    (request : GameSessionTicketRequest) (b : B) : Outcome GatewaySessionTicket * B :=
  match GameSessionTicketRequest_validate request with
  | Err e => (Returned (Err e), b)
  | Ok _ =>
      if negb (HttpTokenClaims_has_scope claims GAME_CONNECT_SCOPE) then
        (Returned (Err (Business "forbidden" "permission denied" false)), b)
      else
        match backend_game_identity b claims.(HttpTokens.principal) request with
        | (Err e, b) => (Returned (Err e), b)
        | (Ok identity, b) =>
            match Identity_validate identity with
            | Err e => (Returned (Err e), b)
            | Ok _ =>
                if identity_mismatch identity claims request then (Returned (Err Authentication), b)
                else
                  match TicketService_issue_login api.(tickets) clock nonce identity with
                  | Panicked => (Panicked, b)
                  | Returned (Err e) => (Returned (Err e), b)
                  | Returned (Ok token) =>
                      (Returned (Ok {| ticket := token; expires_in_seconds := as_secs api.(tickets).(login_ttl) |}), b)
                  end
            end
        end
  end.

(** What a login draws: the tokens, and the clock and nonce of the ticket, with the clock of the check
    between them. *)
Record LoginDraws : Type := {
  login_drawn : Drawn;
  verify_clock : option Z;
  ticket_clock : option Z;
  ticket_nonce : list Z;
}.

(** The ticket of a login that selected a player. *)
Definition login_gateway (draws : LoginDraws) (issued : HttpTokenPair) (game : option GameSessionTicketRequest) (b : B) :
    Outcome (option GatewaySessionTicket) * B :=
  match game with
  | None => (Returned (Ok None), b)
  | Some selection =>
      match HttpTokenService_verify_access api.(tokens) draws.(verify_clock) issued.(access_token) with
      | Err e => (Returned (Err e), b)
      | Ok claims =>
          match issue_gateway_ticket draws.(ticket_clock) draws.(ticket_nonce) claims selection b with
          | (Returned (Ok t), b) => (Returned (Ok (Some t)), b)
          | (Returned (Err e), b) => (Returned (Err e), b)
          | (Panicked, b) => (Panicked, b)
          end
      end
  end.

Definition login (draws : LoginDraws) (request : HttpLoginRequest Value) (b : B) : option (Response HttpLoginResponse) * B :=
  let provider := trim request.(login_provider) in
  if String.eqb provider "" || (32 <? string_len provider) then (Some (api_error Authentication), b) else
  match backend_login b provider request.(login_credential) with
  | (Err error, b) => (Some (api_error error), b)
  | (Ok grant, b) =>
      if negb (is_ok (Principal_validate grant.(grant_principal))) then (Some (api_error Authentication), b) else
      match HttpTokenService_issue api.(tokens) draws.(login_drawn) grant.(grant_principal) grant.(grant_scopes) with
      | Panicked => (None, b)
      | Returned (Err error) => (Some (api_error error), b)
      | Returned (Ok issued) =>
          match login_gateway draws issued request.(login_game) b with
          | (Panicked, b) => (None, b)
          | (Returned (Err error), b) => (Some (api_error error), b)
          | (Returned (Ok gateway), b) =>
              (Some (ok_response
                 {| response_account_id := grant.(grant_principal).(principal_account_id);
                    response_generation := grant.(grant_principal).(principal_generation);
                    response_tokens := issued; response_gateway := gateway |}), b)
          end
      end
  end.

Definition refresh (clock store_clock : option Z) (drawn : Drawn) (token : string) (replay : R) :
    option (Response HttpTokenPair) * R :=
  if String.eqb token "" then (Some (api_error Authentication), replay) else
  let '(out, replay) := HttpTokenService_rotate_refresh api.(tokens) clock store_clock drawn token replay in
  (respond out, replay).

Definition issue_session_ticket (clock : option Z) (nonce : list Z) (extension : option HttpTokenClaims)
    (request : GameSessionTicketRequest) (b : B) : option (Response GatewaySessionTicket) * B :=
  match AuthenticatedHttp_from_request_parts extension with
  | Err rejection => (Some (HttpAuthRejection_into_response rejection), b)
  | Ok claims =>
      let '(out, b) := issue_gateway_ticket clock nonce claims request b in (respond out, b)
  end.

(** The route [/elura/auth/session-ticket]: the endpoint behind [require_bearer]. *)
Definition session_ticket_route (bearer_clock clock : option Z) (nonce : list Z) (authorization : option string)
    (request : GameSessionTicketRequest) (b : B) : option (Response GatewaySessionTicket) * B :=
  require_bearer api.(tokens) bearer_clock authorization
    (fun extension b => issue_session_ticket clock nonce extension request b) b.
End Endpoints.
End Api.

(** ** The backend of identity providers *)

(** [trait IdentityHttpPolicy]. *)
Class IdentityHttpPolicy (W : Type) : Type := {
  login_scopes : W -> Principal -> string -> Result (list string) * W;
  policy_game_identity : W -> Principal -> GameSessionTicketRequest -> Result Identity * W;
}.

Definition map_provider_error (error : ProviderError) : Error :=
  match error with
  | PUnavailable => CoreError.Unavailable
  | PRateLimited _ => RateLimited
  | PConfig _ | PInvalidResponse _ => Internal "identity provider operation failed"
  | PInvalidRequest _ | PUnknownProvider _ | PInvalidCredentials | PRejected _ | PInvalidSignature | PAlreadyProcessed
  | PUnsupported => Authentication
  end.

Section Backend.
Context {W Value : Type} `{!IdentityBindingStore W, !IdentityHttpPolicy W} (identities : IdentityRegistry W Value).

(** A [Value] encodes to itself. *)
Definition IdentityHttpBackend_login (w : W) (provider : string) (credential : Value) : Result HttpLoginGrant * W :=
  let '(found, w) := IdentityService_login identities provider (Ok credential) w in
  let? principal := map_err map_provider_error found else w in
  let '(scopes, w) := login_scopes w principal provider in
  let? scopes := scopes else w in
  (Ok {| grant_principal := principal; grant_scopes := scopes |}, w).

#[local] Instance IdentityHttpBackend : HttpLoginBackend W Value := {|
  backend_login := IdentityHttpBackend_login;
  backend_game_identity := policy_game_identity;
|}.
End Backend.

(** ** What the endpoints hand out *)

Section Tickets.
Context `{!TicketCrypto, !TicketCryptoLaws, !HttpClaimsJson} {B Value : Type} `{!HttpLoginBackend B Value}.

(** The ticket is for a player the backend resolved for the account of the claims and the selection of the
    request, and every gateway of the fleet takes it for that player while it is valid. *)
Definition admits (api : HttpAuthApi) (claims : HttpTokenClaims) (request : GameSessionTicketRequest) (b b' : B)
    (now : Z) (t : GatewaySessionTicket) : Prop :=
  exists identity,
    backend_game_identity b claims.(HttpTokens.principal) request = (Ok identity, b')
    /\ Identity_validate identity = Ok ()
    /\ identity.(account_id) = claims.(HttpTokens.principal).(principal_account_id)
    /\ identity.(generation) = claims.(HttpTokens.principal).(principal_generation)
    /\ Identity_player_key identity = {| region_id := request.(request_region_id); realm_id := request.(request_realm_id);
                                         user_id := request.(request_user_id) |}
    /\ t.(expires_in_seconds) = as_secs api.(tickets).(login_ttl)
    /\ (string_len t.(ticket) <= 4096 -> forall gateway, Tickets.same_fleet api.(tickets) gateway ->
          forall at_, exists c, Tickets.identity c = identity /\ Tickets.purpose c = Login
          /\ TicketService_validate gateway (Some at_) t.(ticket)
             = if accepted_at now t.(expires_in_seconds) at_ then Ok c else Err TicketExpired).

Lemma split_once_joins c s l r : split_once c s = Some (l, r) -> s = l +:+ String c r.
Proof.
  revert l. induction s as [|b s IH]; intros l; [done|]. cbn. destruct (Ascii.eqb_spec b c) as [->|]; [by intros [= <- ->]|].
  destruct (split_once c s) as [[l' r']|]; [|done]. intros [= <- ->]. change (String b s = String b (l' +:+ String c r)). f_equal. by apply IH.
Qed.

Lemma issued_ticket_admits api clock nonce claims request b b' t :
  issue_gateway_ticket api clock nonce claims request b = (Returned (Ok t), b') ->
  HttpTokenClaims_has_scope claims GAME_CONNECT_SCOPE = true
  /\ exists now, clock = Some now /\ admits api claims request b b' now t.
Proof.
  unfold issue_gateway_ticket. destruct (GameSessionTicketRequest_validate request) as [[]|]; [|done].
  destruct (HttpTokenClaims_has_scope claims GAME_CONNECT_SCOPE); [|done]. cbn [negb].
  destruct (backend_game_identity b _ request) as [[identity|] b1] eqn:Hback; [|done].
  destruct (Identity_validate identity) as [[]|] eqn:Hvalid; [|done].
  destruct (identity_mismatch identity claims request) eqn:Hmatch; [done|].
  destruct (TicketService_issue_login _ clock nonce identity) as [[token|]|] eqn:Hissue; [|done..]. intros [= <- <-].
  split; [done|]. destruct clock as [now|]; [|by unfold TicketService_issue_login, TicketService_issue_for in Hissue; rewrite Hvalid in Hissue].
  exists now. split; [done|]. exists identity. unfold identity_mismatch in Hmatch. breflect. cbn [ticket expires_in_seconds].
  split_and!; try done.
  - unfold Identity_player_key. by f_equal.
  - intros Hlen gateway Hfleet at_. exists (Tickets.new_claims api.(tickets) now nonce identity Login api.(tickets).(login_ttl)).
    split_and!; [done|done|]. exact (issued_validates api.(tickets) gateway Login now nonce identity token at_ Hfleet Hissue Hlen).
Qed.

(** No response carries a ticket or tokens and an error status at once. *)
Lemma http_respond_ok {A} (out : Outcome A) r : respond out = Some r -> r.(status) = OK -> exists a, out = Returned (Ok a) /\ r = ok_response a.
Proof.
  destruct out as [[a|e]|]; cbn; intros [= <-]; [by exists a|]. by destruct e.
Qed.

Lemma api_error_status {A} e : (api_error (A := A) e).(status) <> OK.
Proof. by destruct e. Qed.
End Tickets.

(** C16: An HTTP login reaches the game only through the checks of both sides.  When the session-ticket endpoint
    answers 200, the request carried a bearer token that is a valid access token of the fleet with the scope
    [game:connect], and the ticket is for the player the backend resolved for the account of that token and for
    the region, realm and user the request selected, with the generation of the token; every gateway of the
    fleet accepts that ticket for exactly that player from 30 seconds before it was issued until its lifetime
    has passed, and never otherwise.  When the login endpoint answers 200, the backend accepted the credential,
    the tokens are for the account it named, and the ticket, if a player was selected, is as above for that
    account.  Without a valid bearer token the backend is not asked. *)
Theorem http_ticket_admits_player (Crypto : TicketCrypto) (Laws : TicketCryptoLaws) (Json : HttpClaimsJson)
  {B Value : Type} (Backend : HttpLoginBackend B Value) (api : HttpAuthApi) :
  (forall bearer_clock clock nonce authorization request b r b',
     session_ticket_route api bearer_clock clock nonce authorization request b = (Some r, b') ->
     (r.(status) = OK ->
        exists scheme token claims now t,
          authorization = Some (scheme +:+ " " +:+ token) /\ eq_ignore_ascii_case scheme "bearer" = true
          /\ HttpTokenService_verify_access api.(tokens) bearer_clock token = Ok claims
          /\ HttpTokenClaims_has_scope claims GAME_CONNECT_SCOPE = true
          /\ clock = Some now /\ r.(body) = Ok t /\ admits api claims request b b' now t)
     /\ (HttpBearerAuth_authenticate api.(tokens) bearer_clock authorization = Err HttpAuthRejection_unauthenticated ->
        r.(status) = UNAUTHORIZED /\ r.(bearer_challenge) = true /\ b' = b))
  /\ (forall draws (request : HttpLoginRequest Value) b r b',
     login api draws request b = (Some r, b') -> r.(status) = OK ->
     exists grant b1 answer,
       backend_login b (trim request.(login_provider)) request.(login_credential) = (Ok grant, b1)
       /\ r.(body) = Ok answer
       /\ answer.(response_account_id) = grant.(grant_principal).(principal_account_id)
       /\ HttpTokenService_issue api.(tokens) draws.(login_drawn) grant.(grant_principal) grant.(grant_scopes)
          = Returned (Ok answer.(response_tokens))
       /\ match request.(login_game), answer.(response_gateway) with
          | None, None => b' = b1
          | Some selection, Some t => exists claims now,
              HttpTokenService_verify_access api.(tokens) draws.(verify_clock) answer.(response_tokens).(access_token) = Ok claims
              /\ HttpTokenClaims_has_scope claims GAME_CONNECT_SCOPE = true /\ draws.(ticket_clock) = Some now
              /\ admits api claims selection b1 b' now t
          | _, _ => False
          end).
Proof.
  split.
  - intros bc clock nonce auth request b r b' Hroute. unfold session_ticket_route, require_bearer in Hroute. split.
    + intros Hok. destruct (HttpBearerAuth_authenticate _ bc auth) as [claims|rej] eqn:Hauth.
      * unfold issue_session_ticket in Hroute. cbn [AuthenticatedHttp_from_request_parts ok_or] in Hroute.
        destruct (issue_gateway_ticket api clock nonce claims request b) as [out b1] eqn:Hissue. injection Hroute as Hr <-.
        destruct (http_respond_ok out r Hr Hok) as (t & -> & ->). apply issued_ticket_admits in Hissue as (Hscope & now & -> & Had).
        unfold HttpBearerAuth_authenticate in Hauth. destruct auth as [value|]; [|done]. cbn in Hauth.
        destruct (split_once " " value) as [[scheme token]|] eqn:Hsplit; [|done]. cbn in Hauth.
        destruct (_ || _) eqn:Hb; [done|]. breflect.
        destruct (HttpTokenService_verify_access _ bc token) as [c|] eqn:Hver; [|done]. injection Hauth as ->.
        exists scheme, token, claims, now, t. split_and!; try done. f_equal. by apply split_once_joins.
      * injection Hroute as <- <-. exfalso. revert Hauth. unfold HttpBearerAuth_authenticate. destruct auth as [value|]; [|intros [= <-]; done].
        cbn. destruct (split_once " " value) as [[scheme token]|]; [|intros [= <-]; done]. cbn. destruct (_ || _); [intros [= <-]; done|].
        destruct (HttpTokenService_verify_access _ _ _); [done|]. by intros [= <-].
    + intros Hno. rewrite Hno in Hroute. by injection Hroute as <- <-.
  - intros draws request b r b' Hlogin Hok. unfold login in Hlogin.
    destruct (_ || _); [by injection Hlogin as <- _|].
    destruct (backend_login b _ _) as [[grant|e] b1] eqn:Hback; [|injection Hlogin as <- _; by apply api_error_status in Hok].
    destruct (negb _); [by injection Hlogin as <- _|].
    destruct (HttpTokenService_issue _ _ _ _) as [[issued|e]|] eqn:Hissue; [|injection Hlogin as <- _; by apply api_error_status in Hok|done].
    destruct (login_gateway api draws issued (login_game request) b1) as [[[gateway|e]|] b2] eqn:Hgw;
      [|injection Hlogin as <- _; by apply api_error_status in Hok|done].
    injection Hlogin as <- <-. exists grant, b1. eexists. split_and!; [done|done|done|done|]. cbn [response_gateway response_tokens].
    unfold login_gateway in Hgw. destruct (login_game request) as [selection|]; [|by injection Hgw as <- <-].
    destruct (HttpTokenService_verify_access _ _ _) as [claims|] eqn:Hver; [|done].
    destruct (issue_gateway_ticket api _ _ claims selection b1) as [[[t|]|] b3] eqn:Ht; [|done..]. injection Hgw as <- <-.
    apply issued_ticket_admits in Ht as (Hscope & now & Hnow & Had). exists claims, now. done.
Qed.

(** ** A login that reaches the gateway *)
Module HttpAuthExamples.
#[local] Existing Instance HexCrypto.hex_crypto.
#[local] Existing Instance HttpExamples.known_json.

(** One user, whose credential is always right, and the player of the ticket examples. *)
#[local] Instance one_user : HttpLoginBackend unit unit := {|
  backend_login b _ _ := (Ok {| grant_principal := HttpExamples.account; grant_scopes := ["game:connect"] |}, b);
  backend_game_identity b _ _ := (Ok HexCrypto.player, b);
|}.

Definition sample_api : HttpAuthApi := {| tokens := HttpExamples.service; tickets := HexCrypto.issuing |}.
Definition selection : GameSessionTicketRequest :=
  {| request_user_id := 2; request_region_id := 1; request_realm_id := 1 |}.
Definition sample_authorization : string := "bearer " +:+ HttpExamples.first_pair.(access_token).
Definition sample_ticket : GatewaySessionTicket := {| ticket := HexCrypto.login_token; expires_in_seconds := 60 |}.

Lemma http_ticket_admits_player_witness :
  exists claims, HttpTokenClaims_has_scope claims GAME_CONNECT_SCOPE = true
    /\ admits sample_api claims selection tt tt 1000 sample_ticket.
Proof.
  destruct (http_ticket_admits_player HexCrypto.hex_crypto HexCrypto.hex_laws HttpExamples.known_json one_user sample_api) as [Hroute _].
  destruct (Hroute (Some 1100) (Some 1000) [7] (Some sample_authorization) selection tt (ok_response sample_ticket) tt) as [Hok _].
  - vm_compute. reflexivity.
  - destruct (Hok eq_refl) as (scheme & token & claims & now & t & _ & _ & _ & Hs & Hnow & Ht & Had).
    injection Hnow as <-. injection Ht as <-. exists claims. exact (conj Hs Had).
Defined.

(** A token without the scope is forbidden, a refresh token is not accepted. *)
Example refresh_token_is_no_bearer :
  (session_ticket_route sample_api (Some 1100) (Some 1000) [7] (Some ("Bearer " +:+ HttpExamples.first_pair.(refresh_token))) selection tt).1
  = Some (auth_error_response UNAUTHORIZED "UNAUTHENTICATED" "authentication failed").
Proof. vm_compute. reflexivity. Qed.
End HttpAuthExamples.
