(* ===== verification/Payments.v ===== *)
(** * Payments: [crates/elura-providers/src/payment/mod.rs]

    Amounts, checkouts, refunds, purchases and callback events with their limits, the registry of payment
    providers and the verifier that accepts each callback event once.  A provider is a record of its methods
    over the state [W] they share; [serde_json] and the HTTP types are parameters.  Times are nanoseconds since
    the epoch, [ProviderResult] is that of [Principals].  The lock of the registry cannot be poisoned, since
    nothing panics while it is held. *)

From Stdlib Require Import Ascii.
From S2P Require Import Prelude Bytes CoreError Principals Tickets IdentityProviders.

Record Money : Type := {
  currency : string;
  minor_units : Z;
}.

(** [chars().all(is_ascii_uppercase)]: a byte of another character is none. *)
Definition Money_is_valid (self : Money) : bool :=
  (string_len self.(currency) =? 3) && string_forallb is_ascii_uppercase self.(currency) && (0 <? self.(minor_units)).

Definition Money_validate (self : Money) : ProviderResult unit :=
  if negb (Money_is_valid self) then
    Err (PInvalidRequest "money must use a three-letter uppercase currency and positive minor units")
  else Ok ().

Definition Money_new (currency : string) (minor_units : Z) : ProviderResult Money :=
  let value := {| currency := currency; minor_units := minor_units |} in
  let? _ := Money_validate value in
  Ok value.

Definition Money_validate_response (self : Money) : ProviderResult unit :=
  if negb (Money_is_valid self) then Err (PInvalidResponse "invalid money") else Ok ().

Inductive PaymentStatus : Type := Pending | Succeeded | Failed | Closed | Refunded.

(** An identifier that is blank or longer than 512 bytes. *)
Definition bad_id (value : string) : bool := trim_is_empty value || (512 <? string_len value).

Definition optional_bad_id (value : option string) : bool :=
  match value with Some value => bad_id value | None => false end.

Section Payments.
Context {W Value : Type} (to_vec : Value -> result string (list Z)) (null : Value) (is_null : Value -> bool).

(** ** Checkouts *)

Record CheckoutRequest : Type := {
  merchant_order_id : string;
  amount : Money;
  checkout_subject : string;
  product_id : option string;
  quantity : Z;
  metadata : gmap string string;
  options : Value;
}.

Definition CheckoutRequest_new (merchant_order_id : string) (amount : Money) (subject : string) : CheckoutRequest :=
  {| merchant_order_id := merchant_order_id; amount := amount; checkout_subject := subject; product_id := None;
     quantity := 1; metadata := ∅; options := null |}.

Definition CheckoutRequest_validate (self : CheckoutRequest) : ProviderResult unit :=
  let? _ := Money_validate self.(amount) in
  let? encoded := map_err PInvalidRequest (to_vec self.(options)) in
  if bad_id self.(merchant_order_id) || bad_id self.(checkout_subject) || optional_bad_id self.(product_id)
     || (self.(quantity) =? 0) || (64 <? Z.of_nat (size self.(metadata)))
     || existsb attribute_bad (map_to_list self.(metadata)) || (16 * 1024 <? len encoded) then
    Err (PInvalidRequest "checkout request exceeds common limits")
  else Ok ().

(** [decode] is [serde_json::from_value] at the options type of the provider. *)
Definition CheckoutRequest_provider_options {T} (decode : Value -> result string T) (self : CheckoutRequest) :
    ProviderResult T :=
  map_err (fun error => PInvalidRequest ("invalid checkout options: " +:+ error)) (decode self.(options)).

Definition CheckoutRequest_provider_options_or_default {T} (decode : Value -> result string T) (default : T)
    (self : CheckoutRequest) : ProviderResult T :=
  if is_null self.(options) then Ok default else CheckoutRequest_provider_options decode self.

Definition CheckoutRequest_with_provider_options (self : CheckoutRequest) (encoded : result string Value) :
    ProviderResult CheckoutRequest :=
  let? options := map_err (fun error => PInvalidRequest ("invalid checkout options: " +:+ error)) encoded in
  Ok {| merchant_order_id := self.(merchant_order_id); amount := self.(amount);
        checkout_subject := self.(checkout_subject); product_id := self.(product_id); quantity := self.(quantity);
        metadata := self.(metadata); options := options |}.

Inductive ClientPayload : Type :=
| AppParameters (value : string)
| Json (value : Value)
| RedirectUrl (value : string)
| QrCode (value : string)
| Opaque (content_type payload_body : string).

Context (payload_to_vec : ClientPayload -> result string (list Z)).

Record CheckoutResult : Type := {
  provider_order_id : option string;
  client_payload : ClientPayload;
  checkout_expires_at : option Z;
}.

Definition CheckoutResult_validate_response (self : CheckoutResult) : ProviderResult unit :=
  let? encoded := map_err (fun _ => PInvalidResponse "invalid client payload") (payload_to_vec self.(client_payload)) in
  if optional_bad_id self.(provider_order_id) || (64 * 1024 <? len encoded) then
    Err (PInvalidResponse "invalid checkout result")
  else Ok ().

(** ** Callbacks *)

Record NotificationRequest : Type := {
  method : string;
  path : string;
  query_text : string;
  headers : list (string * list Z);
  notification_body : list Z;
}.

Definition NotificationRequest_validate (self : NotificationRequest) : ProviderResult unit :=
  if (16 <? string_len self.(method)) || (2048 <? string_len self.(path)) || (8192 <? string_len self.(query_text))
     || (64 <? len self.(headers))
     || existsb (fun header => (128 <? string_len header.1) || (4096 <? len header.2)) self.(headers)
     || (1024 * 1024 <? len self.(notification_body)) then
    Err (PInvalidRequest "payment notification exceeds limits")
  else Ok ().

Record PaymentEvent : Type := {
  event_id : string;
  event_merchant_order_id : string;
  event_provider_order_id : string;
  original_provider_order_id : option string;
  payer_id : option string;
  event_product_id : option string;
  event_quantity : Z;
  event_status : PaymentStatus;
  event_amount : Money;
  environment : option string;
  occurred_at : option Z;
}.

Definition PaymentEvent_validate_response (self : PaymentEvent) : ProviderResult unit :=
  if bad_id self.(event_id) || bad_id self.(event_merchant_order_id) || bad_id self.(event_provider_order_id)
     || (self.(event_quantity) =? 0) then
    Err (PInvalidResponse "invalid payment callback event")
  else Money_validate_response self.(event_amount).

(** ** Queries, refunds, purchases *)

Inductive PaymentLookup : Type :=
| MerchantOrderId (id : string)
| ProviderOrderId (id : string).

Definition PaymentLookup_value (self : PaymentLookup) : ProviderResult string :=
  let value := match self with MerchantOrderId value | ProviderOrderId value => trim value end in
  if String.eqb value "" || (512 <? string_len value) then
    Err (PInvalidRequest "payment lookup ID must contain 1..=512 bytes")
  else Ok value.

Record Payment : Type := {
  payment_merchant_order_id : string;
  payment_provider_order_id : option string;
  payment_status : PaymentStatus;
  payment_amount : option Money;
  payment_payer_id : option string;
  paid_at : option Z;
}.

Definition Payment_validate_response (self : Payment) : ProviderResult unit :=
  if bad_id self.(payment_merchant_order_id) || optional_bad_id self.(payment_provider_order_id) then
    Err (PInvalidResponse "invalid payment")
  else match self.(payment_amount) with Some amount => Money_validate_response amount | None => Ok () end.

Record RefundRequest : Type := {
  refund_payment : PaymentLookup;
  merchant_refund_id : string;
  refund_amount : Money;
  reason : option string;
}.

Definition RefundRequest_validate (self : RefundRequest) : ProviderResult unit :=
  let? _ := PaymentLookup_value self.(refund_payment) in
  let? _ := Money_validate self.(refund_amount) in
  if bad_id self.(merchant_refund_id)
     || match self.(reason) with Some value => 1024 <? string_len value | None => false end then
    Err (PInvalidRequest "invalid refund request")
  else Ok ().

Record Refund : Type := {
  refund_merchant_id : string;
  provider_refund_id : string;
  refund_status : PaymentStatus;
}.

Definition Refund_validate_response (self : Refund) : ProviderResult unit :=
  if bad_id self.(refund_merchant_id) || bad_id self.(provider_refund_id) then Err (PInvalidResponse "invalid refund")
  else Ok ().

Record PurchaseRequest : Type := {
  purchase_order_id : string;
  purchase_product_id : option string;
  purchase_token : string;
}.

Definition PurchaseRequest_validate (self : PurchaseRequest) : ProviderResult unit :=
  if bad_id self.(purchase_order_id) || optional_bad_id self.(purchase_product_id)
     || trim_is_empty self.(purchase_token) || (64 * 1024 <? string_len self.(purchase_token)) then
    Err (PInvalidRequest "invalid purchase request")
  else Ok ().

Record Purchase : Type := {
  purchased_order_id : string;
  purchased_provider_id : string;
  purchased_original_id : option string;
  purchased_product_id : string;
  app_account_token : option string;
  purchased_quantity : Z;
  purchased_status : PaymentStatus;
  purchased_amount : Money;
  purchased_environment : string;
  storefront : string;
  purchased_at : option Z;
}.

Definition Purchase_validate_response (self : Purchase) : ProviderResult unit :=
  if trim_is_empty self.(purchased_order_id) || trim_is_empty self.(purchased_provider_id)
     || trim_is_empty self.(purchased_product_id) || (self.(purchased_quantity) =? 0) then
    Err (PInvalidResponse "invalid purchase")
  else Money_validate_response self.(purchased_amount).

(** ** Providers *)

Record PaymentCapabilities : Type := {
  can_checkout : bool;
  can_query : bool;
  can_notification : bool;
  can_refund : bool;
  can_purchase : bool;
}.

Definition PaymentCapabilities_any (self : PaymentCapabilities) : bool :=
  self.(can_checkout) || self.(can_query) || self.(can_notification) || self.(can_refund) || self.(can_purchase).

(** [trait PaymentProvider]. *)
Record PaymentProvider : Type := {
  payment_name : string;
  payment_capabilities : PaymentCapabilities;
  create : W -> CheckoutRequest -> ProviderResult CheckoutResult * W;
  query : W -> PaymentLookup -> ProviderResult Payment * W;
  verify_notification : W -> NotificationRequest -> ProviderResult PaymentEvent * W;
  refund : W -> RefundRequest -> ProviderResult Refund * W;
  verify_purchase : W -> PurchaseRequest -> ProviderResult Purchase * W;
}.

Record PaymentNotificationVerifier : Type := {
  verifier_provider : PaymentProvider;
  replay_ttl : Z;
}.

Definition PaymentNotificationVerifier_new (provider : PaymentProvider) (replay_ttl : Z) :
    ProviderResult PaymentNotificationVerifier :=
  if replay_ttl =? 0 then Err (PConfig "payment callback replay TTL must be positive")
  else if negb provider.(payment_capabilities).(can_notification) then Err PUnsupported
  else Ok {| verifier_provider := provider; replay_ttl := replay_ttl |}.

Definition replay_key (provider_name event_id : string) : string :=
  "payment:" +:+ provider_name +:+ ":" +:+ event_id.

(** [now + replay_ttl] in whole seconds since the epoch, [None] before it or beyond the range of times. *)
Definition replay_expiry (now replay_ttl : Z) : option Z :=
  match SystemTime_add now replay_ttl with
  | Some time => if time <? 0 then None else Some (time / 1000000000)
  | None => None
  end.

Definition PaymentNotificationVerifier_verify {R} `{!ReplayProtectionStore R} (self : PaymentNotificationVerifier)
    (now : Z) (store_clock : option Z) (request : NotificationRequest) (w : W) (replay : R) :
    ProviderResult PaymentEvent * W * R :=
  match NotificationRequest_validate request with
  | Err e => (Err e, w, replay)
  | Ok _ =>
      match self.(verifier_provider).(verify_notification) w request with
      | (Err e, w) => (Err e, w, replay)
      | (Ok event, w) =>
          match PaymentEvent_validate_response event with
          | Err e => (Err e, w, replay)
          | Ok _ =>
              match replay_expiry now self.(replay_ttl) with
              | None => (Err PUnavailable, w, replay)
              | Some expires_at =>
                  match reserve replay store_clock (replay_key self.(verifier_provider).(payment_name) event.(event_id)) expires_at with
                  | (Err _, replay) => (Err PUnavailable, w, replay)
                  | (Ok fresh, replay) => ((if fresh : bool then Ok event else Err PAlreadyProcessed), w, replay)
                  end
              end
          end
      end
  end.

(** ** The registry *)

Definition PaymentRegistry : Type := gmap ProviderName PaymentProvider.

Definition PaymentRegistry_register_arc (self : PaymentRegistry) (provider : PaymentProvider) :
    ProviderResult unit * PaymentRegistry :=
  let raw_name := provider.(payment_name) in
  let? name := map_err (fun e => PConfig ("invalid payment provider name: " +:+ e)) (ProviderName_parse raw_name) else self in
  if negb (String.eqb name raw_name) || negb (PaymentCapabilities_any provider.(payment_capabilities)) then
    (Err (PConfig ("invalid payment provider " +:+ raw_name)), self)
  else if bool_decide (is_Some (self !! name)) then (Err (PConfig ("duplicate payment provider " +:+ name)), self)
  else (Ok (), <[name := provider]> self).

(** The loop of [build]; a factory is what calling it gives. *)
Fixpoint payment_build_loop (registry : PaymentRegistry) (enabled : list string)
    (factories : gmap string (ProviderResult PaymentProvider)) : ProviderResult PaymentRegistry :=
  match enabled with
  | [] => Ok registry
  | value :: enabled =>
      let? name := map_err (fun e => PConfig ("invalid payment provider: " +:+ e)) (ProviderName_parse value) in
      let? factory := ok_or (factories !! name) (PConfig ("payment provider " +:+ name +:+ " has no factory")) in
      let? provider := factory in
      match PaymentRegistry_register_arc registry provider with
      | (Err e, _) => Err e
      | (Ok _, registry) => payment_build_loop registry enabled factories
      end
  end.

Definition PaymentRegistry_build (enabled : list string) (factories : gmap string (ProviderResult PaymentProvider)) :
    ProviderResult PaymentRegistry :=
  let? registry := payment_build_loop ∅ enabled factories in
  match enabled with
  | [] => Err (PConfig "at least one payment provider is required")
  | _ => Ok registry
  end.

Definition PaymentRegistry_provider (self : PaymentRegistry) (value : string) : ProviderResult PaymentProvider :=
  let? name := map_err ProviderError_from (ProviderName_parse value) in
  ok_or (self !! name) (PUnknownProvider name).

Definition PaymentRegistry_checkout (self : PaymentRegistry) (value : string) (request : CheckoutRequest) (w : W) :
    ProviderResult CheckoutResult * W :=
  let? _ := CheckoutRequest_validate request else w in
  let? provider := PaymentRegistry_provider self value else w in
  if negb provider.(payment_capabilities).(can_checkout) then (Err PUnsupported, w) else
  let '(created, w) := provider.(create) w request in
  let? result := created else w in
  let? _ := CheckoutResult_validate_response result else w in
  (Ok result, w).

Definition PaymentRegistry_query (self : PaymentRegistry) (value : string) (lookup : PaymentLookup) (w : W) :
    ProviderResult Payment * W :=
  let? _ := PaymentLookup_value lookup else w in
  let? provider := PaymentRegistry_provider self value else w in
  if negb provider.(payment_capabilities).(can_query) then (Err PUnsupported, w) else
  let '(found, w) := provider.(query) w lookup in
  let? payment := found else w in
  let? _ := Payment_validate_response payment else w in
  (Ok payment, w).

Definition PaymentRegistry_refund (self : PaymentRegistry) (value : string) (request : RefundRequest) (w : W) :
    ProviderResult Refund * W :=
  let? _ := RefundRequest_validate request else w in
  let? provider := PaymentRegistry_provider self value else w in
  if negb provider.(payment_capabilities).(can_refund) then (Err PUnsupported, w) else
  let '(refunded, w) := provider.(refund) w request in
  let? result := refunded else w in
  let? _ := Refund_validate_response result else w in
  (Ok result, w).

Definition PaymentRegistry_verify_purchase (self : PaymentRegistry) (value : string) (request : PurchaseRequest) (w : W) :
    ProviderResult Purchase * W :=
  let? _ := PurchaseRequest_validate request else w in
  let? provider := PaymentRegistry_provider self value else w in
  if negb provider.(payment_capabilities).(can_purchase) then (Err PUnsupported, w) else
  let '(verified, w) := provider.(verify_purchase) w request in
  let? purchase := verified else w in
  let? _ := Purchase_validate_response purchase else w in
  (Ok purchase, w).

Definition PaymentRegistry_notification_verifier (self : PaymentRegistry) (value : string) (replay_ttl : Z) :
    ProviderResult PaymentNotificationVerifier :=
  let? provider := PaymentRegistry_provider self value in
  if negb provider.(payment_capabilities).(can_notification) then Err PUnsupported
  else PaymentNotificationVerifier_new provider replay_ttl.

Definition PaymentRegistry_providers (self : PaymentRegistry) : list (ProviderName * PaymentCapabilities) :=
  (fun entry => (entry.1, entry.2.(payment_capabilities))) <$> btree_iter self.
End Payments.
Arguments PaymentProvider : clear implicits.
Arguments PaymentRegistry : clear implicits.
Arguments PaymentNotificationVerifier : clear implicits.

(** ** Times on the wire

    [optional_unix_millis]: a time is its milliseconds since the epoch. *)
Definition serialize_millis (value : option Z) : option (option Z) :=
  match value with
  | None => Some None
  | Some time =>
      if time <? 0 then None
      else let millis := time / 1000000 in if millis <=? u64_max then Some (Some millis) else None
  end.

Definition deserialize_millis (value : option Z) : option Z := (fun millis => millis * 1000000) <$> value.

Lemma millis_round_trip t millis :
  serialize_millis (Some t) = Some (Some millis) -> deserialize_millis (Some millis) = Some (t - t mod 1000000).
Proof.
  unfold serialize_millis, deserialize_millis. destruct (Z.ltb_spec t 0); [done|]. destruct (_ <=? _); [|done].
  intros [= <-]. cbn. f_equal. pose proof (Z.div_mod t 1000000). lia.
Qed.

(** ** Each event is accepted once *)

(** The name of a provider has no colon, so the key of an event is its own. *)
Lemma replay_key_inj n n' e e' :
  ProviderName_parse n = Ok n -> ProviderName_parse n' = Ok n' -> replay_key n e = replay_key n' e' -> n = n' /\ e = e'.
Proof.
  assert (Hplain : forall n, ProviderName_parse n = Ok n -> string_forallb is_provider_byte n = true).
  { intros m. unfold ProviderName_parse. destruct (_ || _) eqn:Hb; [done|]. intros [= Hm]. rewrite Hm in Hb. breflect. done. }
  intros Hn%Hplain Hn'%Hplain. unfold replay_key.
  assert (Hcancel : forall p x y, p +:+ x = p +:+ y -> x = y).
  { induction p as [|a p IH]; [done|]. intros x y E. apply IH. by injection E. }
  intros E%Hcancel. revert n' Hn' E. induction n as [|a n IH]; intros [|a' n'] Hn' E.
  - split; [done|]. by injection E.
  - cbn in Hn'. apply andb_prop in Hn' as [Ha _]. injection E as <- _. done.
  - cbn in Hn. apply andb_prop in Hn as [Ha _]. injection E as -> _. done.
  - cbn in Hn, Hn'. apply andb_prop in Hn as [_ Hn], Hn' as [_ Hn']. injection E as <- E.
    destruct (IH Hn n' Hn' E) as [-> ->]. done.
Qed.

Section Once.
Context {W Value : Type}.

(** Every provider is registered under its own, normal name. *)
Definition payments_well_named (registry : PaymentRegistry W Value) : Prop :=
  map_Forall (fun n p => p.(payment_name) = n /\ ProviderName_parse n = Ok n) registry.

Lemma payment_register_well_named (registry : PaymentRegistry W Value) p r registry' :
  payments_well_named registry -> PaymentRegistry_register_arc registry p = (r, registry') -> payments_well_named registry'.
Proof.
  intros Hw. unfold PaymentRegistry_register_arc. destruct (ProviderName_parse (payment_name p)) as [n|] eqn:Hn; [|by intros [= _ <-]]. cbn.
  destruct (String.eqb_spec n (payment_name p)) as [->|]; [|by intros [= _ <-]]. cbn.
  destruct (negb _); [by intros [= _ <-]|].
  case_bool_decide; [by intros [= _ <-]|]. intros [= _ <-]. by apply (map_Forall_insert_2 (M := gmap string)).
Qed.

Lemma payment_build_well_named enabled factories (registry : PaymentRegistry W Value) :
  PaymentRegistry_build enabled factories = Ok registry -> payments_well_named registry.
Proof.
  unfold PaymentRegistry_build. destruct (payment_build_loop ∅ enabled factories) as [r|] eqn:Hloop; [|done].
  intros Hr. assert (r = registry) as <- by (destruct enabled; [done|by injection Hr]). clear Hr.
  assert (Hempty : payments_well_named (∅ : PaymentRegistry W Value)) by apply (map_Forall_empty (M := gmap string)).
  revert Hempty Hloop. generalize (∅ : PaymentRegistry W Value) as r0. induction enabled as [|value enabled IH]; intros r0 Hr0; cbn [payment_build_loop].
  { by intros [= <-]. }
  destruct (ProviderName_parse value) as [n|]; [|done]; cbn. destruct (ok_or (factories !! n) _) as [[p|]|]; [|done..].
  destruct (PaymentRegistry_register_arc r0 p) as [[[]|] r1] eqn:Hreg; [|done].
  apply IH. by eapply payment_register_well_named.
Qed.

Lemma verifier_named (registry : PaymentRegistry W Value) value ttl v :
  payments_well_named registry -> PaymentRegistry_notification_verifier registry value ttl = Ok v ->
  ProviderName_parse v.(verifier_provider).(payment_name) = Ok v.(verifier_provider).(payment_name)
  /\ v.(replay_ttl) = ttl.
Proof.
  intros Hw. unfold PaymentRegistry_notification_verifier, PaymentRegistry_provider.
  destruct (ProviderName_parse value) as [n|]; [|done]. cbn. destruct (registry !! n) as [p|] eqn:Hp; [|done]. cbn.
  destruct (negb _) eqn:Hcap; [done|]. unfold PaymentNotificationVerifier_new. destruct (_ =? _); [done|]. rewrite Hcap.
  intros [= <-]. cbn. destruct (Hw n p Hp) as [-> ?]. done.
Qed.

Context {R : Type} `{!ReplayProtectionStore R}.

(** What reaches the shared store between two callbacks: callbacks of any provider, and other reservations. *)
Inductive PaymentCall : Type :=
| CallVerifyPayment (verifier : PaymentNotificationVerifier W Value) (now : Z) (store_clock : option Z) (request : NotificationRequest)
| CallReserveOther (store_clock : option Z) (key : string) (expires_at : Z).

Definition payment_call_clock (c : PaymentCall) : option Z :=
  match c with CallVerifyPayment _ _ t _ | CallReserveOther t _ _ => t end.

Definition payment_call (s : W * R) (c : PaymentCall) : W * R :=
  match c with
  | CallVerifyPayment v now t request =>
      let '(_, w, r) := PaymentNotificationVerifier_verify v now t request s.1 s.2 in (w, r)
  | CallReserveOther t key e => (s.1, (reserve s.2 t key e).2)
  end.

Lemma verified_event_inv (v : PaymentNotificationVerifier W Value) now t request w r event w' r' :
  PaymentNotificationVerifier_verify v now t request w r = (Ok event, w', r') ->
  v.(verifier_provider).(verify_notification) w request = (Ok event, w')
  /\ PaymentEvent_validate_response event = Ok ()
  /\ exists e, replay_expiry now v.(replay_ttl) = Some e
     /\ reserve r t (replay_key v.(verifier_provider).(payment_name) event.(event_id)) e = (Ok true, r').
Proof.
  unfold PaymentNotificationVerifier_verify. destruct (NotificationRequest_validate request); [|done].
  destruct (verify_notification _ w request) as [[ev|] w1]; [|done].
  destruct (PaymentEvent_validate_response ev) as [[]|] eqn:Hv; [|done].
  destruct (replay_expiry _ _) as [e|]; [|done]. destruct (reserve _ _ _ _) as [[[]|] r1] eqn:Hres; [|done..].
  intros [= <- <- <-]. split_and!; [done|done|]. by exists e.
Qed.

Context `{!ReplayProtectionLaws R}.

Lemma payment_call_keeps s c key e :
  held s.2 key e -> (forall t, payment_call_clock c = Some t -> t < e) -> held (payment_call s c).2 key e.
Proof.
  intros Hs Ht. destruct c as [v now t request|t k' e']; cbn [payment_call payment_call_clock] in *; [|by apply held_kept].
  unfold PaymentNotificationVerifier_verify. destruct (NotificationRequest_validate request); [|done].
  destruct (verify_notification _ s.1 request) as [[ev|] w1]; [|done].
  destruct (PaymentEvent_validate_response ev); [|done]. destruct (replay_expiry _ _) as [e1|]; [|done].
  pose proof (held_kept s.2 key e t (replay_key v.(verifier_provider).(payment_name) ev.(event_id)) e1 Hs Ht) as Hk.
  by destruct (reserve _ _ _ _) as [[[]|] r1].
Qed.

Lemma payment_calls_keep l : forall s key e,
  held s.2 key e -> Forall (fun c => forall t, payment_call_clock c = Some t -> t < e) l -> held (foldl payment_call s l).2 key e.
Proof.
  induction l as [|c l IH]; intros s key e Hs Hl; [done|]. apply Forall_cons in Hl as [Hc Hl].
  cbn [foldl]. apply IH; [|done]. by apply payment_call_keeps.
Qed.
End Once.

(** C17: A payment event is accepted once.  Let the verifiers come from a registry that was built, and share
    one replay store.  After an event was accepted, whatever callbacks of whatever providers arrive and
    whatever else is reserved, an event with the same identifier from the same provider is accepted again only
    after the replay window of the first has ended; what is accepted is what the provider has verified and
    passes the checks (a positive amount, identifiers, a quantity); and the window of an event never blocks
    another one, of the same or another provider, since their keys differ. *)
Theorem payment_event_accepted_once {W Value R : Type} (Store : ReplayProtectionStore R) (Laws : ReplayProtectionLaws R)
  (enabled : list string) (factories : gmap string (ProviderResult (PaymentProvider W Value)))
  (registry : PaymentRegistry W Value) (n1 n2 : string) (ttl1 ttl2 : Z) (v1 v2 : PaymentNotificationVerifier W Value)
  (now1 now2 : Z) (ts1 : option Z) (ts2 : Z) (request1 request2 : NotificationRequest) (w w1 w2 : W) (s s1 s2 : R)
  (event1 event2 : PaymentEvent) (between : list (PaymentCall (W := W) (Value := Value)))
  (Hbuild : PaymentRegistry_build enabled factories = Ok registry)
  (Hv1 : PaymentRegistry_notification_verifier registry n1 ttl1 = Ok v1)
  (Hv2 : PaymentRegistry_notification_verifier registry n2 ttl2 = Ok v2)
  (Hfirst : PaymentNotificationVerifier_verify v1 now1 ts1 request1 w s = (Ok event1, w1, s1))
  (Hclock : Forall (fun c => forall t, payment_call_clock c = Some t -> t <= ts2) between)
  (Hsecond : PaymentNotificationVerifier_verify v2 now2 (Some ts2) request2
               (foldl payment_call (w1, s1) between).1 (foldl payment_call (w1, s1) between).2 = (Ok event2, w2, s2)) :
  let key v (event : PaymentEvent) := replay_key v.(verifier_provider).(payment_name) event.(event_id) in
  ((v1.(verifier_provider).(payment_name), event1.(event_id)) = (v2.(verifier_provider).(payment_name), event2.(event_id)) ->
     (now1 + ttl1) / 1000000000 <= ts2)
  /\ ((v1.(verifier_provider).(payment_name), event1.(event_id)) <> (v2.(verifier_provider).(payment_name), event2.(event_id)) ->
     key v1 event1 <> key v2 event2)
  /\ v1.(verifier_provider).(verify_notification) w request1 = (Ok event1, w1)
  /\ 0 < event1.(event_amount).(minor_units) /\ bad_id event1.(event_id) = false.
Proof.
  pose proof (payment_build_well_named _ _ _ Hbuild) as Hw.
  destruct (verifier_named _ _ _ _ Hw Hv1) as [Hp1 Httl], (verifier_named _ _ _ _ Hw Hv2) as [Hp2 _].
  apply verified_event_inv in Hfirst as (Hver & Hval & e1 & He1 & Hr1), Hsecond as (_ & _ & e2 & _ & Hr2).
  apply reserve_granted in Hr1 as (t1 & _ & _ & Hheld). cbv zeta. split_and!; [..|done| |].
  - intros [= Hname Hid]. unfold replay_expiry in He1. rewrite Httl in He1.
    destruct (SystemTime_add now1 ttl1) as [time|] eqn:Hadd; [|done]. unfold SystemTime_add in Hadd.
    apply checked_add_Some in Hadd as [-> _]. destruct (_ <? 0); [done|]. injection He1 as <-.
    set (e1 := (now1 + ttl1) / 1000000000) in *. destruct (Z.le_gt_cases e1 ts2) as [|Hlt]; [done|]. exfalso.
    assert (Hkept : held (foldl payment_call (w1, s1) between).2 (replay_key (payment_name (verifier_provider v1)) (event_id event1)) e1).
    { apply payment_calls_keep; [done|]. eapply Forall_impl; [exact Hclock|]. cbn. intros c Hc t Ht. specialize (Hc t Ht). lia. }
    rewrite Hname, Hid in Hkept. apply (held_refuses _ _ _ ts2 e2 Hkept Hlt). by rewrite Hr2.
  - intros Hne Heq. apply Hne. destruct (replay_key_inj _ _ _ _ Hp1 Hp2 Heq) as [-> ->]. done.
  - revert Hval. unfold PaymentEvent_validate_response, Money_validate_response, Money_is_valid.
    destruct (_ || _); [done|]. destruct (negb _) eqn:Hb; [done|]. intros _. breflect. lia.
  - revert Hval. unfold PaymentEvent_validate_response. destruct (bad_id (event_id event1)); done.
Qed.

(** ** A concrete provider *)
Module PaymentExamples.

(** Callbacks whose body is the number of the event. *)
Definition sample_event (n : Z) : PaymentEvent :=
  {| event_id := if n =? 1 then "evt-1" else "evt-2"; event_merchant_order_id := "order-1"; event_provider_order_id := "p-1";
     original_provider_order_id := None; payer_id := None; event_product_id := None; event_quantity := 1;
     event_status := Succeeded; event_amount := {| currency := "EUR"; minor_units := 499 |}; environment := None;
     occurred_at := None |}.

Definition sample_provider : PaymentProvider unit unit :=
  {| payment_name := "shop";
     payment_capabilities := {| can_checkout := false; can_query := false; can_notification := true; can_refund := false; can_purchase := false |};
     create := fun w _ => (Err PUnsupported, w); query := fun w _ => (Err PUnsupported, w);
     verify_notification := fun w request =>
       (match request.(notification_body) with [n] => Ok (sample_event n) | _ => Err PInvalidSignature end, w);
     refund := fun w _ => (Err PUnsupported, w); verify_purchase := fun w _ => (Err PUnsupported, w) |}.

Definition callback (n : Z) : NotificationRequest :=
  {| method := "POST"; path := "/pay"; query_text := ""; headers := []; notification_body := [n] |}.

Definition sample_registry : PaymentRegistry unit unit := {[ "shop" := sample_provider ]}.
Definition sample_verifier : PaymentNotificationVerifier unit unit :=
  {| verifier_provider := sample_provider; replay_ttl := 60 * 1000000000 |}.
Definition verify_at (t n : Z) (s : CredentialStores.MemoryReplayProtectionStore) :=
  PaymentNotificationVerifier_verify sample_verifier (t * 1000000000) (Some t) (callback n) tt s.
Definition store1 : CredentialStores.MemoryReplayProtectionStore := (verify_at 100 1 HexCrypto.store0).2.

Lemma payment_event_accepted_once_witness :
  (100 * 1000000000 + 60 * 1000000000) / 1000000000 <= 160 /\ 0 < minor_units (event_amount (sample_event 1)).
Proof.
  pose (replayed := [CallVerifyPayment sample_verifier (110 * 1000000000) (Some 110) (callback 1)]).
  destruct (payment_event_accepted_once memory_replay_store memory_replay_laws [" Shop "] {[ "shop" := Ok sample_provider ]}
    sample_registry "shop" "SHOP" (60 * 1000000000) (60 * 1000000000) sample_verifier sample_verifier
    (100 * 1000000000) (160 * 1000000000) (Some 100) 160 (callback 1) (callback 1) tt tt tt HexCrypto.store0 store1
    (verify_at 160 1 store1).2 (sample_event 1) (sample_event 1) replayed) as (Hsame & _ & _ & Hpos & _).
  - vm_compute. reflexivity.
  - vm_compute. reflexivity.
  - vm_compute. reflexivity.
  - vm_compute. reflexivity.
  - repeat constructor. intros t [= <-]. lia.
  - vm_compute. reflexivity.
  - split; [by apply Hsame|done].
Defined.

(** The replayed callback is refused, another event is not. *)
Example replayed_callback_refused :
  (verify_at 110 1 store1).1.1 = Err PAlreadyProcessed /\ is_ok (verify_at 110 2 store1).1.1 = true.
Proof. vm_compute. done. Qed.
End PaymentExamples.
