(* ===== verification/AreaOfInterest.v ===== *)
(** * Area of interest: [crates/elura-aoi/src/lib.rs]

    Entities in a sparse grid of square cells, circular queries and the changes of visibility when an entity
    moves.  Coordinates are binary64, computed as the code does, rounding included.  The order in which a hash
    set is iterated is that of [elements]; the theorems do not depend on it. *)

From S2P Require Import Prelude Float64.

Record Point2 : Type := { x : f64; y : f64 }.

Inductive AoiError : Type :=
| InvalidConfig (message : string)
| InvalidPosition
| InvalidRadius
| AlreadyExists
| NotFound
| QueryTooLarge (cells maximum : Z).

Abbreviation AoiResult := (result AoiError).

Definition Point2_validate (self : Point2) : AoiResult unit :=
  if f64_is_finite self.(x) && f64_is_finite self.(y) then Ok () else Err InvalidPosition.

Definition Point2_distance_squared (self other : Point2) : f64 :=
  let dx := f64_sub self.(x) other.(x) in
  let dy := f64_sub self.(y) other.(y) in
  f64_mul_add dx dx (f64_mul dy dy).

Record AoiConfig : Type := {
  cell_size : f64;
  max_query_cells : Z;
}.

Definition AoiConfig_default : AoiConfig := {| cell_size := f64_of_Z 32; max_query_cells := 4096 |}.

Definition AoiConfig_validate (self : AoiConfig) : AoiResult unit :=
  if negb (f64_is_finite self.(cell_size)) || f64_leb self.(cell_size) f64_zero then
    Err (InvalidConfig "cell_size must be finite and positive")
  else if self.(max_query_cells) =? 0 then Err (InvalidConfig "max_query_cells must be positive")
  else Ok ().

Record Cell : Type := { cell_x : Z; cell_y : Z }.

#[export] Instance Cell_eq_dec : EqDecision Cell.
Proof. solve_decision. Defined.

#[export] Instance Cell_countable : Countable Cell.
Proof.
  refine (inj_countable' (fun c => (c.(cell_x), c.(cell_y))) (fun '(a, b) => {| cell_x := a; cell_y := b |}) _). by intros [].
Defined.

Definition i32_min : Z := -2147483648.
Definition i32_max : Z := 2147483647.

(** [AoiGrid::cell]. *)
Definition cell (config : AoiConfig) (position : Point2) : AoiResult Cell :=
  let? _ := Point2_validate position in
  let cx := f64_floor (f64_div position.(x) config.(cell_size)) in
  let cy := f64_floor (f64_div position.(y) config.(cell_size)) in
  if f64_ltb cx (f64_of_Z i32_min) || f64_ltb (f64_of_Z i32_max) cx
     || f64_ltb cy (f64_of_Z i32_min) || f64_ltb (f64_of_Z i32_max) cy then
    Err InvalidPosition
  else Ok {| cell_x := f64_as i32_min i32_max cx; cell_y := f64_as i32_min i32_max cy |}.

Record VisibilityDelta (K : Type) : Type := {
  entered : list K;
  left : list K;
}.
Arguments entered {K} _.
Arguments left {K} _.

Section Grid.
Context {K : Type} `{Countable K}.

Record AoiGrid : Type := {
  config : AoiConfig;
  positions : gmap K Point2;
  cells : gmap Cell (gset K);
}.

Definition AoiGrid_new (config : AoiConfig) : AoiResult AoiGrid :=
  let? _ := AoiConfig_validate config in
  Ok {| config := config; positions := ∅; cells := ∅ |}.

Definition AoiGrid_len (self : AoiGrid) : Z := Z.of_nat (size self.(positions)).
Definition AoiGrid_is_empty (self : AoiGrid) : bool := bool_decide (self.(positions) = ∅).
Definition AoiGrid_position (self : AoiGrid) (entity : K) : option Point2 := self.(positions) !! entity.
Definition AoiGrid_entities (self : AoiGrid) : list (K * Point2) := map_to_list self.(positions).

(** [self.cells.entry(cell).or_default().insert(entity)]. *)
Definition add_to_cell (m : gmap Cell (gset K)) (c : Cell) (entity : K) : gmap Cell (gset K) :=
  <[c := {[entity]} ∪ default ∅ (m !! c)]> m.

Definition remove_from_cell (m : gmap Cell (gset K)) (c : Cell) (entity : K) : gmap Cell (gset K) :=
  match m !! c with
  | Some entities =>
      let entities := entities ∖ {[entity]} in
      if bool_decide (entities = ∅) then delete c m else <[c := entities]> m
  | None => m
  end.

Definition AoiGrid_insert (self : AoiGrid) (entity : K) (position : Point2) : AoiResult unit * AoiGrid :=
  if bool_decide (is_Some (self.(positions) !! entity)) then (Err AlreadyExists, self) else
  let? c := cell self.(config) position else self in
  (Ok (), {| config := self.(config); positions := <[entity := position]> self.(positions);
             cells := add_to_cell self.(cells) c entity |}).

Definition AoiGrid_move_entity (self : AoiGrid) (entity : K) (position : Point2) : AoiResult Point2 * AoiGrid :=
  let? previous := ok_or (self.(positions) !! entity) NotFound else self in
  let? new_cell := cell self.(config) position else self in
  let? previous_cell := cell self.(config) previous else self in
  let cells :=
    if bool_decide (previous_cell = new_cell) then self.(cells)
    else add_to_cell (remove_from_cell self.(cells) previous_cell entity) new_cell entity in
  (Ok previous, {| config := self.(config); positions := <[entity := position]> self.(positions); cells := cells |}).

Definition AoiGrid_upsert (self : AoiGrid) (entity : K) (position : Point2) : AoiResult (option Point2) * AoiGrid :=
  match self.(positions) !! entity with
  | Some previous =>
      let '(r, self) := AoiGrid_move_entity self entity position in
      let? _ := r else self in
      (Ok (Some previous), self)
  | None =>
      let '(r, self) := AoiGrid_insert self entity position in
      let? _ := r else self in
      (Ok None, self)
  end.

(** The entity leaves the map of positions before its cell is computed. *)
Definition AoiGrid_remove (self : AoiGrid) (entity : K) : AoiResult Point2 * AoiGrid :=
  let? position := ok_or (self.(positions) !! entity) NotFound else self in
  let self := {| config := self.(config); positions := delete entity self.(positions); cells := self.(cells) |} in
  let? c := cell self.(config) position else self in
  (Ok position, {| config := self.(config); positions := self.(positions);
                   cells := remove_from_cell self.(cells) c entity |}).

(** [minimum..=maximum]. *)
Definition inclusive (minimum maximum : Z) : list Z := seqZ minimum (maximum - minimum + 1).

(** The number of cells of a query, [None] where it does not fit. *)
Definition query_cells (minimum maximum : Cell) : option Z :=
  let width := maximum.(cell_x) - minimum.(cell_x) + 1 in
  let height := maximum.(cell_y) - minimum.(cell_y) + 1 in
  if (width <? 0) || (height <? 0) then None
  else if width * height <=? usize_max then Some (width * height) else None.

(** The entities of one cell within the circle. *)
Definition scan_cell (self : AoiGrid) (center : Point2) (radius_squared : f64) (c : Cell) : list K :=
  match self.(cells) !! c with
  | None => []
  | Some entities =>
      omap (fun entity =>
        match self.(positions) !! entity with
        | None => None
        | Some position =>
            if f64_leb (Point2_distance_squared center position) radius_squared then Some entity else None
        end) (elements entities)
  end.

(** The corner cells of the square around the circle. *)
Definition query_box (config : AoiConfig) (center : Point2) (radius : f64) : AoiResult (Cell * Cell) :=
  let? _ := Point2_validate center in
  if negb (f64_is_finite radius) || f64_ltb radius f64_zero then Err InvalidRadius else
  let minimum := {| x := f64_sub center.(x) radius; y := f64_sub center.(y) radius |} in
  let maximum := {| x := f64_add center.(x) radius; y := f64_add center.(y) radius |} in
  let? minimum_cell := cell config minimum in
  let? maximum_cell := cell config maximum in
  let? cells := ok_or (query_cells minimum_cell maximum_cell) (QueryTooLarge usize_max config.(max_query_cells)) in
  if config.(max_query_cells) <? cells then Err (QueryTooLarge cells config.(max_query_cells)) else
  Ok (minimum_cell, maximum_cell).

Definition AoiGrid_query (self : AoiGrid) (center : Point2) (radius : f64) : AoiResult (list K) :=
  let? (minimum, maximum) := query_box self.(config) center radius in
  let radius_squared := f64_mul radius radius in
  Ok (cx ← inclusive minimum.(cell_x) maximum.(cell_x);
      cy ← inclusive minimum.(cell_y) maximum.(cell_y);
      scan_cell self center radius_squared {| cell_x := cx; cell_y := cy |}).

Definition others (entity : K) (l : list K) : list K := filter (fun candidate => candidate <> entity) l.

Definition AoiGrid_visible_to (self : AoiGrid) (entity : K) (radius : f64) : AoiResult (list K) :=
  let? position := ok_or (self.(positions) !! entity) NotFound in
  let? found := AoiGrid_query self position radius in
  Ok (others entity found).

Definition AoiGrid_relocate (self : AoiGrid) (entity : K) (position : Point2) (radius : f64) :
    AoiResult (VisibilityDelta K) * AoiGrid :=
  let? previous := ok_or (self.(positions) !! entity) NotFound else self in
  let? _ := Point2_validate position else self in
  let? before := AoiGrid_query self previous radius else self in
  let? after := AoiGrid_query self position radius else self in
  let before : gset K := list_to_set (others entity before) in
  let after : gset K := list_to_set (others entity after) in
  let '(moved, self) := AoiGrid_move_entity self entity position in
  let? _ := moved else self in
  (Ok {| entered := elements (after ∖ before); left := elements (before ∖ after) |}, self).
End Grid.
Arguments AoiGrid K {_ _}.

(** ** The grid is determined by the positions *)
Section Invariant.
Context {K : Type} `{Countable K}.
Implicit Types (g : AoiGrid K) (k e : K) (m : gmap Cell (gset K)).

Definition in_cell (m : gmap Cell (gset K)) (c : Cell) (k : K) : Prop := exists s, m !! c = Some s /\ k ∈ s.

(** Every entity is in the cell of its position and in no other, and no cell is empty. *)
Record indexed (config : AoiConfig) (ps : gmap K Point2) (m : gmap Cell (gset K)) : Prop := {
  indexed_cells c k : in_cell m c k <-> exists p, ps !! k = Some p /\ cell config p = Ok c;
  indexed_nonempty c s : m !! c = Some s -> s <> ∅;
  indexed_positions k p : ps !! k = Some p -> exists c, cell config p = Ok c;
}.

Definition well_indexed g : Prop := indexed g.(config) g.(positions) g.(cells).

Lemma in_add_to_cell m c e c' k : in_cell (add_to_cell m c e) c' k <-> in_cell m c' k \/ (c' = c /\ k = e).
Proof.
  unfold in_cell, add_to_cell. split.
  - intros (s & [[<- <-]|[Hne Hs]]%lookup_insert_Some & Hk); [|left; eauto]. apply elem_of_union in Hk as [Hk|Hk]; [right; set_solver|].
    left. destruct (m !! c) as [s|]; [eauto|]. by apply elem_of_empty in Hk.
  - intros [(s & Hs & Hk)|[-> ->]].
    + destruct (decide (c' = c)) as [->|Hne]; [|exists s; by rewrite lookup_insert_ne].
      eexists. rewrite lookup_insert_eq. split; [done|]. rewrite Hs. cbn. set_solver.
    + eexists. rewrite lookup_insert_eq. split; [done|]. set_solver.
Qed.

Lemma in_remove_from_cell m c e c' k : in_cell (remove_from_cell m c e) c' k <-> in_cell m c' k /\ (c' = c -> k <> e).
Proof.
  unfold in_cell, remove_from_cell. destruct (m !! c) as [s|] eqn:Hc.
  - case_bool_decide as Hs.
    + split.
      * intros (s' & [Hne Hs']%lookup_delete_Some & Hk). split; [eauto|congruence].
      * intros [(s' & Hs' & Hk) Hne]. exists s'. split; [|done]. apply lookup_delete_Some. split; [|done].
        intros <-. simplify_eq. apply (not_elem_of_empty (C := gset K) k). rewrite <-Hs. set_solver.
    + split.
      * intros (s' & [[<- <-]|[Hne Hs']]%lookup_insert_Some & Hk); [|split; [eauto|congruence]]. split; [exists s; set_solver|set_solver].
      * intros [(s' & Hs' & Hk) Hne]. destruct (decide (c' = c)) as [->|Hne'].
        -- simplify_eq. eexists. rewrite lookup_insert_eq. split; [done|]. set_solver.
        -- exists s'. by rewrite lookup_insert_ne.
  - split; [intros (s & Hs & Hk); split; [eauto|congruence]|intros [(s & Hs & Hk) _]; eauto].
Qed.

Lemma add_nonempty m c e : (forall c s, m !! c = Some s -> s <> ∅) -> forall c' s, add_to_cell m c e !! c' = Some s -> s <> ∅.
Proof. unfold add_to_cell. intros Hm c' s [[<- <-]|[_ Hs]]%lookup_insert_Some; [set_solver|eauto]. Qed.

Lemma remove_nonempty m c e : (forall c s, m !! c = Some s -> s <> ∅) -> forall c' s, remove_from_cell m c e !! c' = Some s -> s <> ∅.
Proof.
  intros Hm c' s. unfold remove_from_cell. destruct (m !! c) as [s0|]; [|apply Hm].
  case_bool_decide; [intros [_ Hs]%lookup_delete_Some; eauto|]. intros [[<- <-]|[_ Hs]]%lookup_insert_Some; eauto.
Qed.

Lemma insert_indexed g e p r g' : well_indexed g -> AoiGrid_insert g e p = (r, g') -> well_indexed g'.
Proof.
  intros [Hc Hne Hp]. unfold AoiGrid_insert. case_bool_decide as Hin; [by intros [= _ <-]|]. apply eq_None_not_Some in Hin.
  destruct (cell (config g) p) as [c|] eqn:Hcell; [|by intros [= _ <-]]. intros [= _ <-]. split; cbn.
  - intros c' k. rewrite in_add_to_cell, Hc. split.
    + intros [(q & Hq & Hqc)|[-> ->]]; [|exists p; by rewrite lookup_insert_eq].
      exists q. rewrite lookup_insert_ne by congruence. done.
    + intros (q & [[<- <-]|[Hne' Hq]]%lookup_insert_Some & Hqc); [right; split; congruence|left; eauto].
  - by apply add_nonempty.
  - intros k q [[<- <-]|[_ Hq]]%lookup_insert_Some; eauto.
Qed.

(** Moving keeps the index, and the only other change is the position. *)
Lemma move_indexed g e p r g' : well_indexed g -> AoiGrid_move_entity g e p = (r, g') -> well_indexed g'.
Proof.
  intros [Hc Hne Hp]. unfold AoiGrid_move_entity. destruct (positions g !! e) as [q|] eqn:He; [|by intros [= _ <-]]. cbn.
  destruct (cell (config g) p) as [c|] eqn:Hcell; [|by intros [= _ <-]].
  destruct (cell (config g) q) as [c0|] eqn:Hcell0; [|by intros [= _ <-]]. intros [= _ <-].
  assert (Hin : forall m, (forall c' k, in_cell m c' k <-> (k <> e /\ in_cell (cells g) c' k) \/ (k = e /\ c' = c)) ->
    forall c' k, in_cell m c' k <-> exists p', <[e := p]> (positions g) !! k = Some p' /\ cell (config g) p' = Ok c').
  { intros m Hm c' k. rewrite Hm, Hc. split.
    - intros [(Hk & q' & Hq' & Hc')|[-> ->]]; [exists q'; by rewrite lookup_insert_ne|exists p; by rewrite lookup_insert_eq].
    - intros (q' & [[<- <-]|[Hk Hq']]%lookup_insert_Some & Hc'); [right; split; congruence|left; eauto]. }
  assert (Hold : forall c', in_cell (cells g) c' e <-> c' = c0).
  { intros c'. rewrite Hc. split; [intros (q' & Hq' & Hc'); congruence|intros ->; eauto]. }
  split; cbn.
  - apply Hin. intros c' k. case_bool_decide as Hsame.
    + subst c0. split; [|intros [[_ ?]|[-> ->]]; [done|by apply Hold]].
      intros Hk. destruct (decide (k = e)) as [->|]; [right; split; [done|by apply Hold]|by left].
    + rewrite in_add_to_cell, in_remove_from_cell. split.
      * intros [[Hk Hne']|[-> ->]]; [|by right]. left. split; [|done]. intros ->. apply Hold in Hk as ->. by apply Hne'.
      * intros [[Hk Hin']|[-> ->]]; [|by right]. left. split; [done|]. done.
  - case_bool_decide; [done|]. by apply add_nonempty, remove_nonempty.
  - intros k q' [[<- <-]|[_ Hq]]%lookup_insert_Some; eauto.
Qed.

Lemma remove_indexed g e r g' : well_indexed g -> AoiGrid_remove g e = (r, g') -> well_indexed g'.
Proof.
  intros [Hc Hne Hp]. unfold AoiGrid_remove. destruct (positions g !! e) as [q|] eqn:He; [|by intros [= _ <-]]. cbn.
  destruct (Hp e q He) as [c Hcell]. rewrite Hcell. intros [= _ <-]. split; cbn.
  - intros c' k. rewrite in_remove_from_cell, Hc. split.
    + intros [(q' & Hq' & Hc') Hne']. exists q'. split; [|done]. apply lookup_delete_Some. split; [|done].
      intros <-. simplify_eq. apply Hne'; congruence.
    + intros (q' & [Hk Hq']%lookup_delete_Some & Hc'). split; [eauto|congruence].
  - by apply remove_nonempty.
  - intros k q' [_ Hq]%lookup_delete_Some. eauto.
Qed.
End Invariant.

(** ** Queries *)
Section Queries.
Context {K : Type} `{Countable K}.
Implicit Types (g : AoiGrid K) (k : K) (ps : gmap K Point2).

Definition in_box (box : Cell * Cell) (c : Cell) : Prop :=
  box.1.(cell_x) <= c.(cell_x) <= box.2.(cell_x) /\ box.1.(cell_y) <= c.(cell_y) <= box.2.(cell_y).

(** What a scan of all positions would find: the entities whose cell is in the square of the query and whose
    distance, as computed, is within the radius. *)
Definition found (config : AoiConfig) ps (box : Cell * Cell) (center : Point2) (radius : f64) k : Prop :=
  exists p c, ps !! k = Some p /\ cell config p = Ok c /\ in_box box c
    /\ f64_leb (Point2_distance_squared center p) (f64_mul radius radius) = true.

Lemma omap_keep_nodup (f : K -> option K) (l : list K) :
  (forall k k', f k = Some k' -> k' = k) -> NoDup l -> NoDup (omap f l).
Proof.
  intros Hf. induction 1 as [|k l Hk Hl IH]; [by apply NoDup_nil_2|]. cbn. destruct (f k) as [k'|] eqn:E; [|done].
  apply Hf in E as ->. apply NoDup_cons. split; [|done]. intros (j & Hj & E)%list_elem_of_omap. by apply Hf in E as ->.
Qed.

Lemma elem_of_scan g center r2 c k : well_indexed g ->
  k ∈ scan_cell g center r2 c <->
  exists p, g.(positions) !! k = Some p /\ cell g.(config) p = Ok c /\ f64_leb (Point2_distance_squared center p) r2 = true.
Proof.
  intros Hg. unfold scan_cell. destruct (cells g !! c) as [s|] eqn:Hc.
  - rewrite list_elem_of_omap. split.
    + intros (j & Hj%elem_of_elements & E). destruct (positions g !! j) as [p|] eqn:Hp; [|done]. destruct (f64_leb _ _) eqn:Hd; [|done].
      injection E as ->. exists p. split_and!; [done| |done].
      destruct (proj1 (indexed_cells _ _ _ Hg c k) ltac:(by exists s)) as (p' & Hp' & Hcell). congruence.
    + intros (p & Hp & Hcell & Hd). exists k. rewrite Hp, Hd. split; [|done]. apply elem_of_elements.
      destruct (proj2 (indexed_cells _ _ _ Hg c k) ltac:(by exists p)) as (s' & Hs' & Hk). congruence.
  - split; [intros Hk; by apply not_elem_of_nil in Hk|]. intros (p & Hp & Hcell & _).
    destruct (proj2 (indexed_cells _ _ _ Hg c k) ltac:(by exists p)) as (s' & Hs' & _). congruence.
Qed.

Lemma scan_nodup g center r2 c : NoDup (scan_cell g center r2 c).
Proof.
  unfold scan_cell. destruct (cells g !! c) as [s|]; [|by apply NoDup_nil_2]. apply omap_keep_nodup; [|apply NoDup_elements].
  intros k k'. destruct (positions g !! k); [|done]. by destruct (f64_leb _ _); [intros [= ->]|].
Qed.

Lemma elem_of_inclusive a b z : z ∈ inclusive a b <-> a <= z <= b.
Proof. unfold inclusive. rewrite elem_of_seqZ. lia. Qed.

Lemma query_spec g center radius : well_indexed g ->
  match query_box g.(config) center radius, AoiGrid_query g center radius with
  | Err e, Err e' => e = e'
  | Ok box, Ok l => NoDup l /\ forall k, k ∈ l <-> found g.(config) g.(positions) box center radius k
  | _, _ => False
  end.
Proof.
  intros Hg. unfold AoiGrid_query. destruct (query_box _ center radius) as [[lo hi]|]; [|done]. split.
  - apply NoDup_bind; [| |apply NoDup_seqZ].
    + intros a b k _ _ (ca & Hka & _)%list_elem_of_bind (cb & Hkb & _)%list_elem_of_bind.
      apply elem_of_scan in Hka as (p & Hp & Hc & _), Hkb as (p' & Hp' & Hc' & _); [|done..]. simplify_eq. congruence.
    + intros a _. apply NoDup_bind; [| |apply NoDup_seqZ]; [|intros; apply scan_nodup].
      intros b b' k _ _ Hk Hk'. apply elem_of_scan in Hk as (p & Hp & Hc & _), Hk' as (p' & Hp' & Hc' & _); [|done..]. simplify_eq. congruence.
  - intros k. rewrite list_elem_of_bind. unfold found, in_box. cbn [fst snd]. split.
    + intros (a & (b & Hk & Hb%elem_of_inclusive)%list_elem_of_bind & Ha%elem_of_inclusive).
      apply elem_of_scan in Hk as (p & Hp & Hc & Hd); [|done]. eexists p, _. split_and!; eauto; cbn; lia.
    + intros (p & [a b] & Hp & Hc & [Ha Hb] & Hd). cbn in Ha, Hb. exists a. rewrite elem_of_inclusive. split; [|done].
      apply list_elem_of_bind. exists b. rewrite elem_of_inclusive. split; [|done]. apply elem_of_scan; eauto.
Qed.

(** The scan is bounded by the configuration. *)
Lemma query_box_bounded config center radius lo hi :
  query_box config center radius = Ok (lo, hi) ->
  len (inclusive lo.(cell_x) hi.(cell_x)) * len (inclusive lo.(cell_y) hi.(cell_y)) <= Z.max 0 config.(max_query_cells).
Proof.
  unfold query_box. destruct (Point2_validate center) as [[]|]; [|done]. destruct (_ || _); [done|].
  destruct (cell config {| x := f64_sub _ _; y := _ |}) as [a|]; [|done].
  destruct (cell config {| x := f64_add _ _; y := _ |}) as [b|]; [|done].
  destruct (query_cells a b) as [n|] eqn:Hn; [|done]. cbn. destruct (Z.ltb_spec (max_query_cells config) n) as [|Hle]; [done|].
  intros [= <- <-]. unfold query_cells in Hn. destruct (_ || _) eqn:Hb; [done|]. destruct (_ <=? _); [|done]. injection Hn as <-.
  breflect. unfold inclusive, len. rewrite !length_seqZ, !Z2Nat.id by lia. lia.
Qed.

(** ** Operations *)
Inductive AoiOp : Type :=
| OpInsert (k : K) (p : Point2)
| OpUpsert (k : K) (p : Point2)
| OpMove (k : K) (p : Point2)
| OpRelocate (k : K) (p : Point2) (radius : f64)
| OpRemove (k : K).

Definition aoi_step g (op : AoiOp) : AoiGrid K :=
  match op with
  | OpInsert k p => (AoiGrid_insert g k p).2
  | OpUpsert k p => (AoiGrid_upsert g k p).2
  | OpMove k p => (AoiGrid_move_entity g k p).2
  | OpRelocate k p radius => (AoiGrid_relocate g k p radius).2
  | OpRemove k => (AoiGrid_remove g k).2
  end.

(** What the operations promise, on positions alone. *)
Definition positions_step (config : AoiConfig) ps (op : AoiOp) : gmap K Point2 :=
  match op with
  | OpInsert k p => if bool_decide (is_Some (ps !! k)) || negb (is_ok (cell config p)) then ps else <[k := p]> ps
  | OpUpsert k p => if is_ok (cell config p) then <[k := p]> ps else ps
  | OpMove k p => if bool_decide (is_Some (ps !! k)) && is_ok (cell config p) then <[k := p]> ps else ps
  | OpRelocate k p radius =>
      match ps !! k with
      | Some q => if is_ok (query_box config q radius) && is_ok (query_box config p radius) && is_ok (cell config p)
                  then <[k := p]> ps else ps
      | None => ps
      end
  | OpRemove k => delete k ps
  end.

Lemma move_positions g k p : well_indexed g ->
  (AoiGrid_move_entity g k p).2.(config) = g.(config)
  /\ (AoiGrid_move_entity g k p).2.(positions) = positions_step g.(config) g.(positions) (OpMove k p)
  /\ (AoiGrid_move_entity g k p).1
     = match g.(positions) !! k with
       | Some q => match cell g.(config) p with Ok _ => Ok q | Err e => Err e end
       | None => Err NotFound
       end.
Proof.
  intros Hg. unfold AoiGrid_move_entity. cbn [positions_step]. destruct (positions g !! k) as [q|] eqn:Hk; cbn [ok_or].
  - rewrite bool_decide_eq_true_2 by done. destruct (indexed_positions _ _ _ Hg k q Hk) as [c Hc].
    destruct (cell (config g) p) as [c'|]; [|done]. by rewrite Hc.
  - by rewrite bool_decide_eq_false_2 by (by intros []).
Qed.

Lemma query_ok g center radius : well_indexed g -> is_ok (AoiGrid_query g center radius) = is_ok (query_box g.(config) center radius).
Proof.
  intros Hg. pose proof (query_spec g center radius Hg) as Hq. destruct (query_box _ _ _), (AoiGrid_query _ _ _); try done.
Qed.

Lemma box_valid config p radius : is_ok (query_box config p radius) = true -> Point2_validate p = Ok ().
Proof. unfold query_box. by destruct (Point2_validate p) as [[]|]. Qed.

(** [relocate] reports the difference of what is visible before and after, other entities only. *)
Definition delta_of (config : AoiConfig) ps k q p radius (d : VisibilityDelta K) : Prop :=
  exists before after, query_box config q radius = Ok before /\ query_box config p radius = Ok after
  /\ NoDup d.(entered) /\ NoDup d.(left)
  /\ (forall j, j ∈ d.(entered) <-> j <> k /\ found config ps after p radius j /\ ~ found config ps before q radius j)
  /\ (forall j, j ∈ d.(left) <-> j <> k /\ found config ps before q radius j /\ ~ found config ps after p radius j).

Lemma relocate_spec g k p radius : well_indexed g ->
  let '(r, g') := AoiGrid_relocate g k p radius in
  well_indexed g' /\ g'.(config) = g.(config)
  /\ g'.(positions) = positions_step g.(config) g.(positions) (OpRelocate k p radius)
  /\ forall d, r = Ok d -> exists q, g.(positions) !! k = Some q /\ delta_of g.(config) g.(positions) k q p radius d.
Proof.
  intros Hg. unfold AoiGrid_relocate. cbn [positions_step]. destruct (positions g !! k) as [q|] eqn:Hk; [|by split_and!]. cbn [ok_or].
  pose proof (query_spec g q radius Hg) as Hb. pose proof (query_spec g p radius Hg) as Ha.
  pose proof (box_valid g.(config) p radius) as Hval.
  destruct (query_box (config g) q radius) as [before|] eqn:Eb, (AoiGrid_query g q radius) as [bl|]; try done.
  2:{ destruct (Point2_validate p); by split_and!. }
  destruct (query_box (config g) p radius) as [after|] eqn:Ea, (AoiGrid_query g p radius) as [al|]; try done.
  2:{ destruct (Point2_validate p); by split_and!. }
  rewrite Hval by done. cbn [is_ok andb]. destruct Hb as [_ Hb], Ha as [_ Ha].
  destruct (move_positions g k p Hg) as (Hcfg & Hpos & Hres).
  destruct (AoiGrid_move_entity g k p) as [moved g'] eqn:Hm. cbn [fst snd] in *.
  pose proof (move_indexed _ _ _ _ _ Hg Hm) as Hg'. cbn [positions_step] in Hpos. rewrite Hk in Hpos, Hres.
  rewrite bool_decide_eq_true_2 in Hpos by done. cbn [andb] in Hpos.
  destruct moved as [q'|]; [|split_and!; try done].
  split_and!; try done. intros d [= <-]. exists q. split; [done|]. exists before, after. cbn.
  split_and!; [done|done|apply NoDup_elements|apply NoDup_elements|..]; intros j; rewrite elem_of_elements, elem_of_difference, !elem_of_list_to_set;
    unfold others; rewrite !list_elem_of_filter, Ha, Hb; naive_solver.
Qed.

Lemma aoi_step_refines g op : well_indexed g ->
  well_indexed (aoi_step g op) /\ (aoi_step g op).(config) = g.(config)
  /\ (aoi_step g op).(positions) = positions_step g.(config) g.(positions) op.
Proof.
  intros Hg. assert (Hins : forall k p, well_indexed (AoiGrid_insert g k p).2 /\ (AoiGrid_insert g k p).2.(config) = g.(config)
    /\ (AoiGrid_insert g k p).2.(positions) = positions_step g.(config) g.(positions) (OpInsert k p)).
  { intros k p. split; [destruct (AoiGrid_insert g k p) eqn:E; by eapply insert_indexed|].
    unfold AoiGrid_insert. cbn. case_bool_decide; [done|]. by destruct (cell (config g) p). }
  assert (Hmove : forall k p, well_indexed (AoiGrid_move_entity g k p).2).
  { intros k p. destruct (AoiGrid_move_entity g k p) eqn:E. by eapply move_indexed. }
  destruct op as [k p|k p|k p|k p radius|k]; cbn [aoi_step].
  - apply Hins.
  - unfold AoiGrid_upsert. cbn [positions_step]. destruct (positions g !! k) as [q|] eqn:Hk.
    + destruct (move_positions g k p Hg) as (Hcfg & Hpos & _). specialize (Hmove k p).
      destruct (AoiGrid_move_entity g k p) as [[]  g']; cbn in *; rewrite Hpos, Hk, bool_decide_eq_true_2 by done; done.
    + specialize (Hins k p). cbn [positions_step] in Hins. rewrite Hk, bool_decide_eq_false_2 in Hins by (by intros []).
      destruct (AoiGrid_insert g k p) as [[] g']; cbn in *; destruct Hins as (? & ? & Hp); split_and!; try done; rewrite Hp; by destruct (is_ok _).
  - destruct (move_positions g k p Hg) as (Hcfg & Hpos & _). done.
  - pose proof (relocate_spec g k p radius Hg) as Hr. destruct (AoiGrid_relocate g k p radius) as [r g']. by destruct Hr as (? & ? & ? & _).
  - destruct (AoiGrid_remove g k) as [r g'] eqn:E. pose proof (remove_indexed _ _ _ _ Hg E) as Hg'. split; [done|].
    revert E. unfold AoiGrid_remove. cbn [positions_step snd]. destruct (positions g !! k) as [q|] eqn:Hk; cbn.
    + destruct (indexed_positions _ _ _ Hg k q Hk) as [c ->]. by intros [= _ <-].
    + intros [= _ <-]. by rewrite delete_id.
Qed.

Lemma new_indexed config g : AoiGrid_new config = Ok g -> well_indexed g /\ g.(AreaOfInterest.config) = config /\ g.(positions) = ∅.
Proof.
  unfold AoiGrid_new. destruct (AoiConfig_validate config); [|done]. intros [= <-]. split; [|done]. split; cbn; [|done|done].
  intros c k. split; [by intros (s & Hs & _)|by intros (p & Hp & _)].
Qed.

Lemma size_of_list (l : list Cell) : (size (list_to_set l : gset Cell) <= length l)%nat.
Proof.
  induction l as [|c l IH]; [done|]. rewrite list_to_set_cons, size_union_alt, size_singleton. cbn.
  pose proof (subseteq_size (list_to_set l ∖ {[c]} : gset Cell) (list_to_set l) ltac:(set_solver)). lia.
Qed.

(** There are no more cells than entities. *)
Lemma cells_bounded g : well_indexed g -> (size g.(cells) <= size g.(positions))%nat.
Proof.
  intros Hg. pose (all := (fun kp => match cell g.(config) kp.2 with Ok c => c | Err _ => {| cell_x := 0; cell_y := 0 |} end)
                          <$> map_to_list g.(positions)).
  assert (Hsub : dom g.(cells) ⊆ list_to_set all).
  { intros c [s Hs]%elem_of_dom. destruct (set_choose_L s (indexed_nonempty _ _ _ Hg c s Hs)) as [k Hk].
    destruct (proj1 (indexed_cells _ _ _ Hg c k) ltac:(by exists s)) as (p & Hp & Hc).
    apply elem_of_list_to_set, list_elem_of_fmap. exists (k, p). cbn. rewrite Hc. split; [done|]. by apply elem_of_map_to_list. }
  apply subseteq_size in Hsub. rewrite size_dom in Hsub. etrans; [exact Hsub|].
  etrans; [apply size_of_list|]. unfold all. rewrite length_fmap, length_map_to_list. done.
Qed.
End Queries.

(** C24: The grid answers as a scan of the positions would.  After any operations on a new grid, failing ones
    included, the positions are those the operations promise; a query fails exactly when its square is invalid
    or has more cells than allowed, and otherwise returns, once each, exactly the entities whose cell is in the
    square around the circle and whose computed distance is within the radius, though it scans only the cells
    of the square, at most [max_query_cells]; [relocate] reports exactly the entities that came into and went
    out of view, and the index holds no more cells than entities. *)
Theorem aoi_refines_positions {K : Type} `{Countable K} (c : AoiConfig) (g0 : AoiGrid K) (ops : list AoiOp)
  (Hnew : AoiGrid_new c = Ok g0) :
  let g := foldl aoi_step g0 ops in
  g.(positions) = foldl (positions_step c) ∅ ops
  /\ (size g.(cells) <= size g.(positions))%nat
  /\ (forall center radius,
        match query_box c center radius, AoiGrid_query g center radius with
        | Err e, Err e' => e = e'
        | Ok (lo, hi), Ok l =>
            NoDup l /\ (forall k, k ∈ l <-> found c g.(positions) (lo, hi) center radius k)
            /\ len (inclusive lo.(cell_x) hi.(cell_x)) * len (inclusive lo.(cell_y) hi.(cell_y)) <= Z.max 0 c.(max_query_cells)
        | _, _ => False
        end)
  /\ (forall k p radius d, (AoiGrid_relocate g k p radius).1 = Ok d ->
        exists q, g.(positions) !! k = Some q /\ delta_of c g.(positions) k q p radius d).
Proof.
  destruct (new_indexed c g0 Hnew) as (Hg0 & Hc & Hp0).
  assert (Hrun : forall g, well_indexed g -> g.(config) = c ->
    well_indexed (foldl aoi_step g ops) /\ (foldl aoi_step g ops).(config) = c
    /\ (foldl aoi_step g ops).(positions) = foldl (positions_step c) g.(positions) ops).
  { induction ops as [|op ops IH]; intros g Hg Hcg; [done|]. cbn [foldl].
    destruct (aoi_step_refines g op Hg) as (Hs & Hcs & Hps). rewrite Hcg in Hcs, Hps. rewrite <-Hps. by apply IH. }
  intros g. destruct (Hrun g0 Hg0 Hc) as (Hg & Hcg & Hpos). fold g in Hg, Hcg, Hpos. rewrite Hp0 in Hpos. split_and!.
  - done.
  - by apply cells_bounded.
  - intros center radius. pose proof (query_spec g center radius Hg) as Hq. rewrite Hcg in Hq.
    destruct (query_box c center radius) as [[lo hi]|] eqn:Hbox, (AoiGrid_query g center radius); try done.
    destruct Hq as [Hnd Hin]. split_and!; [done|done|]. by eapply query_box_bounded.
  - intros k p radius d Hr. pose proof (relocate_spec g k p radius Hg) as Hs. rewrite Hcg in Hs.
    destruct (AoiGrid_relocate g k p radius) as [r g']. cbn in Hr. subst r. destruct Hs as (_ & _ & _ & Hd). by apply Hd.
Qed.

(** ** A concrete grid *)
Module AoiExamples.
Definition at_ (a b : Z) : Point2 := {| x := f64_of_Z a; y := f64_of_Z b |}.
Definition grid0 : AoiGrid Z :=
  {| config := AoiConfig_default; positions := ∅; cells := ∅ |}.
Definition sample_ops : list (AoiOp (K := Z)) :=
  [OpInsert 1 (at_ 0 0); OpInsert 2 (at_ 40 0); OpInsert 3 (at_ (-50) (-50)); OpInsert 1 (at_ 9 9);
   OpMove 3 (at_ 5 5); OpUpsert 4 (at_ 300 300); OpRemove 4].
Definition grid : AoiGrid Z := foldl aoi_step grid0 sample_ops.

Lemma aoi_refines_positions_witness :
  grid.(positions) = {[1 := at_ 0 0; 2 := at_ 40 0; 3 := at_ 5 5]}
  /\ forall k, k ∈ [3; 1; 2] <-> found AoiConfig_default grid.(positions) ({| cell_x := -2; cell_y := -2 |}, {| cell_x := 1; cell_y := 1 |})
                                  (at_ 0 0) (f64_of_Z 50) k.
Proof.
  destruct (aoi_refines_positions AoiConfig_default grid0 sample_ops eq_refl) as (Hp & _ & Hq & _). split.
  - transitivity (foldl (positions_step AoiConfig_default) ∅ sample_ops); [exact Hp|]. apply map_eq. vm_compute. reflexivity.
  - specialize (Hq (at_ 0 0) (f64_of_Z 50)).
    assert (Hbox : query_box AoiConfig_default (at_ 0 0) (f64_of_Z 50) = Ok ({| cell_x := -2; cell_y := -2 |}, {| cell_x := 1; cell_y := 1 |}))
      by (vm_compute; reflexivity).
    assert (Hres : AoiGrid_query (foldl aoi_step grid0 sample_ops) (at_ 0 0) (f64_of_Z 50) = Ok [3; 1; 2]) by (vm_compute; reflexivity).
    rewrite Hbox, Hres in Hq. destruct Hq as (_ & Hin & _). exact Hin.
Defined.
End AoiExamples.
