(* ===== verification/NetSim.v ===== *)
(** * Network simulation: [crates/elura-net-sim/src/lib.rs]

    A one-way link that delays, jitters, loses, duplicates and reorders packets from a seeded generator.
    Durations are nanoseconds.  [BinaryHeap] is the list of its elements in the order it pops them, by deadline
    and then by number; numbers are distinct until they saturate, after [2 ^ 64 - 1] packets. *)

From S2P Require Import Prelude Float64.

Definition DURATION_MAX : Z := u64_max * 1000000000 + 999999999.

(** [Duration::saturating_add]. *)
Definition duration_add (a b : Z) : Z := saturating_add DURATION_MAX a b.

Inductive NetSimError : Type :=
| InvalidConfig (message : string)
| TimeMovedBackwards.

Abbreviation NetSimResult := (result NetSimError).

Record NetSimConfig : Type := {
  latency : Z;
  jitter : Z;
  loss_rate : f64;
  duplicate_rate : f64;
  reorder_rate : f64;
  max_reorder_delay : Z;
  bandwidth_bytes_per_second : Z;
  max_queued_packets : Z;
  seed : Z;
}.

Definition NetSimConfig_default : NetSimConfig :=
  {| latency := 0; jitter := 0; loss_rate := f64_zero; duplicate_rate := f64_zero; reorder_rate := f64_zero;
     max_reorder_delay := 100 * 1000000; bandwidth_bytes_per_second := 0; max_queued_packets := 4096; seed := 1 |}.

Definition probability_bad (p : f64) : bool :=
  negb (f64_is_finite p) || negb (f64_leb f64_zero p && f64_leb p f64_one).

Definition NetSimConfig_validate (self : NetSimConfig) : NetSimResult unit :=
  if existsb probability_bad [self.(loss_rate); self.(duplicate_rate); self.(reorder_rate)] then
    Err (InvalidConfig "packet probabilities must be within 0.0..=1.0")
  else if self.(max_queued_packets) =? 0 then Err (InvalidConfig "maximum queued packets must be positive")
  else if f64_ltb f64_zero self.(reorder_rate) && (self.(max_reorder_delay) =? 0) then
    Err (InvalidConfig "reordering delay must be positive when reordering is enabled")
  else Ok ().

Inductive SendOutcome : Type :=
| DroppedByLoss
| DroppedByQueue
| Queued (copies first_delivery : Z).

Record NetSimStats : Type := {
  packets_sent : Z;
  packets_lost : Z;
  packets_queue_dropped : Z;
  duplicate_copies : Z;
  reordered_copies : Z;
  packets_delivered : Z;
  bytes_queued : Z;
  bytes_delivered : Z;
  bandwidth_delay_nanos : Z;
}.

Definition NetSimStats_default : NetSimStats :=
  {| packets_sent := 0; packets_lost := 0; packets_queue_dropped := 0; duplicate_copies := 0; reordered_copies := 0;
     packets_delivered := 0; bytes_queued := 0; bytes_delivered := 0; bandwidth_delay_nanos := 0 |}.

(** ** The generator *)

(** [DeterministicRandom]: its state. *)
Definition DeterministicRandom_new (seed : Z) : Z := if seed =? 0 then 0x9e3779b97f4a7c15 else seed.

Definition DeterministicRandom_next (state : Z) : Z :=
  let value := Z.lxor state (wrap_u64 (Z.shiftl state 13)) in
  let value := Z.lxor value (Z.shiftr value 7) in
  Z.lxor value (wrap_u64 (Z.shiftl value 17)).

Definition DeterministicRandom_unit (state : Z) : f64 * Z :=
  let state := DeterministicRandom_next state in (f64_div (f64_of_Z state) (f64_of_Z u64_max), state).

(** A certain or impossible event draws nothing. *)
Definition DeterministicRandom_chance (state : Z) (probability : f64) : bool * Z :=
  if f64_leb f64_one probability then (true, state)
  else if f64_ltb f64_zero probability then
    let '(u, state) := DeterministicRandom_unit state in (f64_ltb u probability, state)
  else (false, state).

(** ** Durations *)

Definition duration_from_nanos (nanos : Z) : Z := if u64_max <? nanos / 1000000000 then DURATION_MAX else nanos.

Definition serialization_duration (bytes bytes_per_second : Z) : Z :=
  if (bytes_per_second =? 0) || (bytes =? 0) then 0
  else duration_from_nanos
         (saturating_add u128_max (saturating_mul u128_max bytes 1000000000) (saturating_sub bytes_per_second 1)
          / bytes_per_second).

Definition scale_duration (duration : Z) (factor : f64) : Z :=
  duration_from_nanos (f64_as 0 u128_max (f64_mul (f64_of_Z duration) (f64_clamp factor f64_zero f64_one))).

Definition jittered_delay (latency jitter state : Z) : Z * Z :=
  if jitter =? 0 then (latency, state)
  else
    let '(u, state) := DeterministicRandom_unit state in
    let signed := f64_sub (f64_mul u (f64_of_Z 2)) f64_one in
    let magnitude := scale_duration jitter (f64_abs signed) in
    ((if f64_is_sign_negative signed then saturating_sub latency magnitude else duration_add latency magnitude), state).

(** ** The link *)
Section Link.
Context {T : Type}.

Record Scheduled : Type := {
  deliver_at : Z;
  order : Z;
  bytes : Z;
  payload : T;
}.

Record DeliveredPacket : Type := {
  delivered_payload : T;
  delivered_bytes : Z;
  delivered_at : Z;
}.

(** [Ord for Scheduled], reversed: what the heap pops first. *)
Definition scheduled_leb (a b : Scheduled) : bool :=
  (a.(deliver_at) <? b.(deliver_at)) || ((a.(deliver_at) =? b.(deliver_at)) && (a.(order) <=? b.(order))).

Record SimulatedLink : Type := {
  config : NetSimConfig;
  queue : list Scheduled;
  random : Z;
  next_order : Z;
  transmit_available_at : Z;
  last_time : Z;
  stats : NetSimStats;
}.

Definition SimulatedLink_new (config : NetSimConfig) : NetSimResult SimulatedLink :=
  let? _ := NetSimConfig_validate config in
  Ok {| config := config; queue := []; random := DeterministicRandom_new config.(seed); next_order := 0;
        transmit_available_at := 0; last_time := 0; stats := NetSimStats_default |}.

Definition with_stats (self : SimulatedLink) (s : NetSimStats) : SimulatedLink :=
  {| config := self.(config); queue := self.(queue); random := self.(random); next_order := self.(next_order);
     transmit_available_at := self.(transmit_available_at); last_time := self.(last_time); stats := s |}.

Definition with_random (self : SimulatedLink) (r : Z) : SimulatedLink :=
  {| config := self.(config); queue := self.(queue); random := r; next_order := self.(next_order);
     transmit_available_at := self.(transmit_available_at); last_time := self.(last_time); stats := self.(stats) |}.

Definition validate_time (self : SimulatedLink) (now : Z) : NetSimResult unit * SimulatedLink :=
  if now <? self.(last_time) then (Err TimeMovedBackwards, self)
  else (Ok (), {| config := self.(config); queue := self.(queue); random := self.(random); next_order := self.(next_order);
                  transmit_available_at := self.(transmit_available_at); last_time := now; stats := self.(stats) |}).

Definition to_delivered (s : Scheduled) : DeliveredPacket :=
  {| delivered_payload := s.(payload); delivered_bytes := s.(bytes); delivered_at := s.(deliver_at) |}.

Definition count_delivered (s : NetSimStats) (packet : Scheduled) : NetSimStats :=
  {| packets_sent := s.(packets_sent); packets_lost := s.(packets_lost); packets_queue_dropped := s.(packets_queue_dropped);
     duplicate_copies := s.(duplicate_copies); reordered_copies := s.(reordered_copies);
     packets_delivered := saturating_add u64_max s.(packets_delivered) 1; bytes_queued := s.(bytes_queued);
     bytes_delivered := saturating_add u64_max s.(bytes_delivered) packet.(bytes);
     bandwidth_delay_nanos := s.(bandwidth_delay_nanos) |}.

(** The loop of [receive]. *)
Fixpoint receive_loop (now : Z) (q : list Scheduled) (s : NetSimStats) : list DeliveredPacket * list Scheduled * NetSimStats :=
  match q with
  | [] => ([], [], s)
  | scheduled :: rest =>
      if scheduled.(deliver_at) <=? now then
        let '(delivered, q, s) := receive_loop now rest (count_delivered s scheduled) in
        (to_delivered scheduled :: delivered, q, s)
      else ([], q, s)
  end.

Definition SimulatedLink_receive (self : SimulatedLink) (now : Z) : NetSimResult (list DeliveredPacket) * SimulatedLink :=
  let '(r, self) := validate_time self now in
  let? _ := r else self in
  let '(delivered, q, s) := receive_loop now self.(queue) self.(stats) in
  (Ok delivered,
   {| config := self.(config); queue := q; random := self.(random); next_order := self.(next_order);
      transmit_available_at := self.(transmit_available_at); last_time := self.(last_time); stats := s |}).

Definition SimulatedLink_next_delivery (self : SimulatedLink) : option Z := deliver_at <$> head self.(queue).
Definition SimulatedLink_queued_packets (self : SimulatedLink) : Z := len self.(queue).

Definition set_stats (s : NetSimStats) (sent lost dropped duplicates reordered queued delay : Z) : NetSimStats :=
  {| packets_sent := saturating_add u64_max s.(packets_sent) sent; packets_lost := saturating_add u64_max s.(packets_lost) lost;
     packets_queue_dropped := saturating_add u64_max s.(packets_queue_dropped) dropped;
     duplicate_copies := saturating_add u64_max s.(duplicate_copies) duplicates;
     reordered_copies := saturating_add u64_max s.(reordered_copies) reordered;
     packets_delivered := s.(packets_delivered); bytes_queued := saturating_add u64_max s.(bytes_queued) queued;
     bytes_delivered := s.(bytes_delivered); bandwidth_delay_nanos := saturating_add u128_max s.(bandwidth_delay_nanos) delay |}.

(** One round of the loop of [send]: the copy that is scheduled, and the link with it in the queue. *)
Definition send_copy (self : SimulatedLink) (now size : Z) (value : T) (copy : Z) : Scheduled * SimulatedLink :=
  let transmission_start := Z.max now self.(transmit_available_at) in
  let bandwidth_delay := saturating_sub transmission_start now in
  let available := duration_add transmission_start
                     (serialization_duration size self.(config).(bandwidth_bytes_per_second)) in
  let '(propagation, r) := jittered_delay self.(config).(latency) self.(config).(jitter) self.(random) in
  let '(reordered, r) := DeterministicRandom_chance r self.(config).(reorder_rate) in
  let '(propagation, r) :=
    if reordered : bool then
      let '(u, r) := DeterministicRandom_unit r in
      (duration_add propagation (scale_duration self.(config).(max_reorder_delay) u), r)
    else (propagation, r) in
  let scheduled :=
    {| deliver_at := duration_add (duration_add available propagation) copy;
       order := saturating_add u64_max self.(next_order) 1; bytes := size; payload := value |} in
  (scheduled,
   {| config := self.(config); queue := insert_by scheduled_leb scheduled self.(queue); random := r;
      next_order := scheduled.(order); transmit_available_at := available; last_time := self.(last_time);
      stats := set_stats self.(stats) 0 0 0 0 (if reordered : bool then 1 else 0) 0 bandwidth_delay |}).

(** [send], with the copies it scheduled. *)
Definition send_inner (self : SimulatedLink) (now size : Z) (value : T) :
    NetSimResult SendOutcome * list Scheduled * SimulatedLink :=
  let '(r, self) := validate_time self now in
  match r with
  | Err e => (Err e, [], self)
  | Ok _ =>
      let self := with_stats self (set_stats self.(stats) 1 0 0 0 0 0 0) in
      let '(lost, r) := DeterministicRandom_chance self.(random) self.(config).(loss_rate) in
      let self := with_random self r in
      if lost then (Ok DroppedByLoss, [], with_stats self (set_stats self.(stats) 0 1 0 0 0 0 0)) else
      let '(duplicated, r) := DeterministicRandom_chance self.(random) self.(config).(duplicate_rate) in
      let self := with_random self r in
      let copies := 1 + (if duplicated : bool then 1 else 0) in
      if self.(config).(max_queued_packets) <? saturating_add usize_max (len self.(queue)) copies then
        (Ok DroppedByQueue, [], with_stats self (set_stats self.(stats) 0 0 1 0 0 0 0))
      else
        let '(first, self) := send_copy self now size value 0 in
        let '(scheduled, self) :=
          if duplicated : bool then let '(second, self) := send_copy self now size value 1 in ([first; second], self)
          else ([first], self) in
        let first_delivery := foldr Z.min first.(deliver_at) (deliver_at <$> scheduled) in
        (Ok (Queued copies first_delivery), scheduled,
         with_stats self (set_stats self.(stats) 0 0 0 (if duplicated : bool then 1 else 0) 0
           (saturating_mul u64_max size copies) 0))
  end.

Definition SimulatedLink_send (self : SimulatedLink) (now size : Z) (value : T) : NetSimResult SendOutcome * SimulatedLink :=
  let '(r, _, self) := send_inner self now size value in (r, self).
End Link.
Arguments Scheduled : clear implicits.
Arguments DeliveredPacket : clear implicits.
Arguments SimulatedLink : clear implicits.

(** ** Runs of a link *)
Section Runs.
Context {T : Type}.
Implicit Types (l : SimulatedLink T) (s : Scheduled T).

Inductive LinkOp : Type :=
| OpSend (now size : Z) (value : T)
| OpReceive (now : Z).

Definition op_time (op : LinkOp) : Z := match op with OpSend now _ _ | OpReceive now => now end.

(** What a run of the link has done: the copies it accepted with the time they were sent, what it delivered,
    and how many sends it accepted. *)
Record History : Type := {
  link : SimulatedLink T;
  accepted : list (Z * Scheduled T);
  delivered : list (DeliveredPacket T);
  accepted_sends : Z;
}.

Definition history_step (h : History) (op : LinkOp) : History :=
  match op with
  | OpSend now size value =>
      let '(r, copies, l) := send_inner h.(link) now size value in
      {| link := l; accepted := h.(accepted) ++ ((fun s => (now, s)) <$> copies); delivered := h.(delivered);
         accepted_sends := h.(accepted_sends) + match r with Ok (Queued _ _) => 1 | _ => 0 end |}
  | OpReceive now =>
      let '(r, l) := SimulatedLink_receive h.(link) now in
      {| link := l; accepted := h.(accepted);
         delivered := h.(delivered) ++ match r with Ok packets => packets | Err _ => [] end;
         accepted_sends := h.(accepted_sends) |}
  end.

Definition popped_before s s' : Prop := scheduled_leb s s' = true.

Lemma scheduled_leb_total s s' : scheduled_leb s s' = true \/ scheduled_leb s' s = true.
Proof. unfold scheduled_leb. lia. Qed.

Lemma scheduled_leb_trans s s' s'' : scheduled_leb s s' = true -> scheduled_leb s' s'' = true -> scheduled_leb s s'' = true.
Proof. unfold scheduled_leb. intros Ha Hb. apply orb_true_iff in Ha, Hb. apply orb_true_iff. rewrite andb_true_iff in *. lia. Qed.

Lemma scheduled_leb_deadline s s' : scheduled_leb s s' = true -> s.(deliver_at) <= s'.(deliver_at).
Proof. unfold scheduled_leb. intros H. apply orb_true_iff in H. rewrite andb_true_iff in H. lia. Qed.

(** The heap releases exactly the packets that are due, in its order. *)
Lemma receive_loop_spec now : forall q st packets q' st',
  StronglySorted popped_before q -> receive_loop now q st = (packets, q', st') ->
  exists due, q = due ++ q' /\ packets = to_delivered <$> due /\ Forall (fun s => s.(deliver_at) <= now) due
    /\ Forall (fun s => now < s.(deliver_at)) q'
    /\ (st.(packets_delivered) + len due <= u64_max -> st'.(packets_delivered) = st.(packets_delivered) + len due)
    /\ st'.(packets_sent) = st.(packets_sent) /\ st'.(packets_lost) = st.(packets_lost)
    /\ st'.(packets_queue_dropped) = st.(packets_queue_dropped).
Proof.
  induction q as [|s q IH]; intros st packets q' st' Hs; cbn [receive_loop].
  { intros [= <- <- <-]. exists []. rewrite len_nil. split_and!; try done. lia. }
  apply StronglySorted_inv in Hs as [Hq Hall]. destruct (Z.leb_spec (deliver_at s) now) as [Hdue|Hlate].
  - destruct (receive_loop now q (count_delivered st s)) as [[packets1 q1] st1] eqn:Hrec. intros [= <- <- <-].
    destruct (IH _ _ _ _ Hq Hrec) as (due & -> & -> & Hd & Hl & Hcount & H1 & H2 & H3). exists (s :: due).
    split_and!; try done; [by constructor|]. rewrite len_cons. cbn in Hcount. intros Hle. unfold saturating_add in Hcount.
    pose proof (len_nonneg due). rewrite Z.min_l in Hcount by lia. rewrite Hcount; lia.
  - intros [= <- <- <-]. exists []. rewrite len_nil. split_and!; try done; [|lia].
    constructor; [done|]. eapply Forall_impl; [exact Hall|]. intros s' Hs'%scheduled_leb_deadline. lia.
Qed.

(** A copy is due no earlier than it was sent, and joins the queue. *)
Lemma send_copy_spec l now size value copy s l' :
  0 <= now <= DURATION_MAX -> 0 <= copy -> 0 <= size -> 0 <= l.(config).(latency) -> 0 <= l.(config).(bandwidth_bytes_per_second) ->
  0 <= l.(config).(jitter) -> 0 <= l.(config).(max_reorder_delay) ->
  send_copy l now size value copy = (s, l') ->
  now <= s.(deliver_at) /\ s.(payload) = value /\ s.(bytes) = size /\ l'.(queue) ≡ₚ s :: l.(queue)
  /\ (StronglySorted popped_before l.(queue) -> StronglySorted popped_before l'.(queue))
  /\ l'.(config) = l.(config) /\ l'.(last_time) = l.(last_time)
  /\ exists n d, l'.(stats) = set_stats l.(stats) 0 0 0 0 n 0 d.
Proof.
  intros Hnow Hcopy Hsize Hlat Hbw Hjit Hmax. unfold send_copy.
  assert (Hfrom : forall n, 0 <= n -> 0 <= duration_from_nanos n).
  { intros n Hn. unfold duration_from_nanos, DURATION_MAX, u64_max. by destruct (_ <? _); [lia|]. }
  assert (Hser : 0 <= serialization_duration size l.(config).(bandwidth_bytes_per_second)).
  { unfold serialization_duration. destruct (_ || _) eqn:Hb; [lia|]. breflect. apply Hfrom, Z.div_pos; [|lia].
    unfold saturating_add, saturating_mul, saturating_sub, u128_max. lia. }
  assert (Has : forall f, 0 <= f64_as 0 u128_max f).
  { intros f. unfold f64_as, u128_max. destruct f as [| [] | | ]; lia. }
  assert (Hscale : forall d f, 0 <= scale_duration d f) by (intros; unfold scale_duration; apply Hfrom, Has).
  assert (Hadd : forall a b, 0 <= a -> 0 <= b -> 0 <= duration_add a b /\ (a <= DURATION_MAX -> a <= duration_add a b)).
  { intros a b Ha Hb. unfold duration_add, saturating_add, DURATION_MAX, u64_max in *. lia. }
  destruct (jittered_delay _ _ _) as [prop r1] eqn:Hj. destruct (DeterministicRandom_chance r1 _) as [reordered r2].
  assert (Hprop : 0 <= prop).
  { revert Hj. unfold jittered_delay. destruct (_ =? 0); [by intros [= <- _]|]. destruct (DeterministicRandom_unit _) as [u r].
    intros [= <- _]. destruct (f64_is_sign_negative _); [unfold saturating_sub; lia|]. by apply Hadd. }
  destruct (if reordered then _ else _) as [prop' r3] eqn:Hp.
  assert (Hprop' : 0 <= prop').
  { revert Hp. destruct reordered; [|by intros [= <- _]]. destruct (DeterministicRandom_unit r2) as [u r]. intros [= <- _]. by apply Hadd. }
  intros [= <- <-]. cbn. split_and!; try done.
  - set (start := Z.max now _). set (available := duration_add start _).
    assert (Hav : 0 <= available /\ now <= available).
    { unfold available, duration_add, saturating_add, DURATION_MAX, u64_max in *. unfold start. lia. }
    unfold duration_add, saturating_add, DURATION_MAX, u64_max in *. lia.
  - apply insert_by_perm.
  - intros Hs. apply insert_by_sorted; [apply scheduled_leb_total|apply scheduled_leb_trans|done].
  - eauto.
Qed.

(** The values the fields of a configuration can have; the bound on the queue is one that memory lets it reach,
    short of the maximum, where the saturating sum of [send] would not see the queue full. *)
Definition config_fits (c : NetSimConfig) : Prop :=
  0 <= c.(latency) /\ 0 <= c.(bandwidth_bytes_per_second) /\ 0 <= c.(jitter) /\ 0 <= c.(max_reorder_delay)
  /\ 0 <= c.(max_queued_packets) < usize_max.

(** The counters a send changes, while they are small. *)
Definition counted (st st' : NetSimStats) (sent lost dropped : Z) : Prop :=
  st.(packets_sent) + 1 <= u64_max -> st.(packets_lost) + 1 <= u64_max -> st.(packets_queue_dropped) + 1 <= u64_max ->
  st.(packets_delivered) <= u64_max ->
  st'.(packets_sent) = st.(packets_sent) + sent /\ st'.(packets_lost) = st.(packets_lost) + lost
  /\ st'.(packets_queue_dropped) = st.(packets_queue_dropped) + dropped /\ st'.(packets_delivered) = st.(packets_delivered).

(** A send that is not refused schedules as many copies as it says, at most two, or counts the loss. *)
Lemma send_inner_spec l now size value r copies l' :
  config_fits l.(config) -> 0 <= now <= DURATION_MAX -> 0 <= size ->
  send_inner l now size value = (r, copies, l') ->
  (r = Err TimeMovedBackwards /\ copies = [] /\ l' = l)
  \/ (l.(last_time) <= now /\ l'.(last_time) = now /\ l'.(config) = l.(config) /\ l'.(queue) ≡ₚ copies ++ l.(queue)
     /\ (StronglySorted popped_before l.(queue) -> StronglySorted popped_before l'.(queue))
     /\ Forall (fun s => now <= s.(deliver_at) /\ s.(payload) = value /\ s.(bytes) = size) copies
     /\ (copies = [] \/ len l'.(queue) <= l.(config).(max_queued_packets))
     /\ match r with
        | Err _ => False
        | Ok DroppedByLoss => copies = [] /\ counted l.(stats) l'.(stats) 1 1 0
        | Ok DroppedByQueue => copies = [] /\ counted l.(stats) l'.(stats) 1 0 1
        | Ok (Queued n first) => 1 <= n <= 2 /\ n = len copies /\ counted l.(stats) l'.(stats) 1 0 0
            /\ Forall (fun s => first <= s.(deliver_at)) copies /\ first ∈ deliver_at <$> copies
        end).
Proof.
  intros Hc Hnow Hsize. unfold send_inner, validate_time. destruct (Z.ltb_spec now (last_time l)) as [Hlt|Hle].
  { intros [= <- <- <-]. by left. }
  intros Hsend. right. cbn [with_stats with_random config queue random stats last_time] in Hsend.
  destruct (DeterministicRandom_chance (random l) _) as [lost r1]. destruct lost.
  { injection Hsend as <- <- <-. cbn. split_and!; try done; [by left|]. intros ? ? ? ?. cbn. unfold saturating_add. lia. }
  destruct (DeterministicRandom_chance r1 _) as [duplicated r2].
  destruct (Z.ltb_spec (max_queued_packets (config l)) (saturating_add usize_max (len (queue l)) (1 + (if duplicated then 1 else 0)))) as [Hfull|Hroom].
  { injection Hsend as <- <- <-. cbn. split_and!; try done; [by left|]. intros ? ? ? ?. cbn. unfold saturating_add. lia. }
  destruct Hc as (Hlat & Hbw & Hjit & Hmax & Hq0 & Hq1).
  match type of Hsend with context [send_copy ?l0 now size value 0] => set (l0' := l0) in *; destruct (send_copy l0' now size value 0) as [first l1] eqn:H1 end.
  destruct (send_copy_spec l0' now size value 0 first l1 Hnow ltac:(lia) Hsize Hlat Hbw Hjit Hmax H1)
    as (Hd1 & Hv1 & Hb1 & Hperm1 & Hsort1 & Hc1 & Ht1 & n1 & d1 & Hst1).
  change (config l0') with (config l) in Hc1. change (queue l0') with (queue l) in *. change (last_time l0') with now in Ht1.
  destruct duplicated.
  - destruct (send_copy l1 now size value 1) as [second l2] eqn:H2. rewrite <-Hc1 in Hlat, Hbw, Hjit, Hmax.
    destruct (send_copy_spec l1 now size value 1 second l2 Hnow ltac:(lia) Hsize Hlat Hbw Hjit Hmax H2)
      as (Hd2 & Hv2 & Hb2 & Hperm2 & Hsort2 & Hc2 & Ht2 & n2 & d2 & Hst2).
    injection Hsend as <- <- <-. cbn [last_time config queue stats with_stats].
    assert (Hq : queue l2 ≡ₚ [first; second] ++ queue l). { rewrite Hperm2, Hperm1. apply perm_swap. }
    split_and!; try done; try congruence.
    + auto.
    + by repeat constructor.
    + right. unfold len in *. rewrite Hq. cbn in *. unfold saturating_add in Hroom. lia.
    + rewrite Hst2, Hst1. intros ? ? ? ?. cbn. unfold saturating_add. lia.
    + repeat constructor; cbn; lia.
    + cbn. rewrite Z.min_id || idtac. destruct (Z.min_spec (deliver_at second) (deliver_at first)) as [[_ E]|[_ E]]; cbn in *.
      all: set_unfold; lia.
  - injection Hsend as <- <- <-. cbn [last_time config queue stats with_stats].
    split_and!; try done; try congruence.
    + auto.
    + right. unfold len in *. rewrite Hperm1. cbn in *. unfold saturating_add in Hroom. lia.
    + rewrite Hst1. intros ? ? ? ?. cbn. unfold saturating_add. lia.
    + repeat constructor; cbn; lia.
    + cbn. set_unfold. lia.
Qed.

Definition op_fits (op : LinkOp) : Prop :=
  0 <= op_time op <= DURATION_MAX /\ match op with OpSend _ size _ => 0 <= size | OpReceive _ => True end.

Definition history_start l : History := {| link := l; accepted := []; delivered := []; accepted_sends := 0 |}.
Definition run_link l (ops : list LinkOp) : History := fold_left history_step ops (history_start l).

Definition no_later (d d' : DeliveredPacket T) : Prop := d.(delivered_at) <= d'.(delivered_at).

(** What every run of at most [n] operations keeps. *)
Record history_ok (cfg : NetSimConfig) (n : Z) (h : History) : Prop := {
  ok_same : h.(link).(config) = cfg;
  ok_config : config_fits h.(link).(config);
  ok_heap : StronglySorted popped_before h.(link).(queue);
  ok_bound : len h.(link).(queue) <= h.(link).(config).(max_queued_packets);
  ok_conserved : h.(delivered) ++ (to_delivered <$> h.(link).(queue)) ≡ₚ to_delivered <$> h.(accepted).*2;
  ok_causal : Forall (fun e => e.1 <= e.2.(deliver_at)) h.(accepted);
  ok_order : StronglySorted no_later h.(delivered);
  ok_past : Forall (fun d => d.(delivered_at) <= h.(link).(last_time)) h.(delivered);
  ok_ahead : Forall (fun d => Forall (fun s => d.(delivered_at) <= s.(deliver_at)) h.(link).(queue)) h.(delivered);
  ok_sent : h.(link).(stats).(packets_sent)
            = h.(link).(stats).(packets_lost) + h.(link).(stats).(packets_queue_dropped) + h.(accepted_sends);
  ok_counted : h.(link).(stats).(packets_delivered) = len h.(delivered);
  ok_copies : len h.(accepted) <= 2 * h.(accepted_sends);
  ok_small : 0 <= h.(link).(stats).(packets_lost) /\ 0 <= h.(link).(stats).(packets_queue_dropped)
             /\ h.(link).(stats).(packets_sent) <= n;
}.

Lemma strongly_sorted_app {A} (R : A -> A -> Prop) (xs ys : list A) :
  StronglySorted R xs -> StronglySorted R ys -> Forall (fun x => Forall (R x) ys) xs -> StronglySorted R (xs ++ ys).
Proof.
  intros Hxs Hys. induction Hxs as [|x xs Hxs IH Hx]; intros Hall; [done|]. apply Forall_cons in Hall as [Hxy Hall].
  cbn. constructor; [auto|]. by apply Forall_app.
Qed.

Lemma len_delivered_accepted cfg n h : history_ok cfg n h -> len h.(delivered) + len h.(link).(queue) = len h.(accepted).
Proof. intros Hok. pose proof (Permutation_length (ok_conserved _ _ _ Hok)) as E. unfold len. rewrite length_app, !length_fmap in E. lia. Qed.

Lemma stamped_snd (now : Z) (copies : list (Scheduled T)) : ((fun s => (now, s)) <$> copies).*2 = copies.
Proof. induction copies; cbn; congruence. Qed.

Lemma history_send cfg n h now size value :
  2 * (n + 1) <= u64_max -> op_fits (OpSend now size value) -> history_ok cfg n h ->
  history_ok cfg (n + 1) (history_step h (OpSend now size value)).
Proof.
  intros Hn [Ht Hsize] Hok. cbn [op_time] in Ht. pose proof (len_delivered_accepted _ _ _ Hok) as Hlen. destruct Hok. cbn [history_step].
  destruct (send_inner (link h) now size value) as [[r copies] l'] eqn:Hs.
  destruct (send_inner_spec _ _ _ _ _ _ _ ok_config0 Ht Hsize Hs)
    as [(-> & -> & ->)|(Hle & Hlast & Hc & Hperm & Hsort & Hcopies & Hbound & Hr)].
  { rewrite app_nil_r, Z.add_0_r. constructor; cbn; try done. lia. }
  pose proof (len_nonneg (queue (link h))) as Hq.
  assert (Hst : exists lost dropped, counted (stats (link h)) (stats l') 1 lost dropped /\ 0 <= lost /\ 0 <= dropped
    /\ lost + dropped + match r with Ok (Queued _ _) => 1 | _ => 0 end = 1
    /\ len copies <= 2 * match r with Ok (Queued _ _) => 1 | _ => 0 end).
  { destruct r as [[| |k first]|]; [destruct Hr as [-> Hr]; exists 1, 0|destruct Hr as [-> Hr]; exists 0, 1| |done].
    3: destruct Hr as (? & Hk & Hr & _); exists 0, 0.
    all: (split; [done|]); unfold len in *; cbn in *; lia. }
  destruct Hst as (lost & dropped & Hst & Hl0 & Hd0 & Hsum & Hcp). destruct ok_small0 as (Hs1 & Hs2 & Hs3).
  pose proof (len_nonneg (accepted h)).
  destruct Hst as (E1 & E2 & E3 & E4); [lia..|].
  constructor; cbn; rewrite ?Hc; auto.
  - destruct Hbound as [->|Hb]; [|done]. cbn in Hperm. unfold len. by rewrite Hperm.
  - rewrite !fmap_app, stamped_snd, Hperm, fmap_app, <-ok_conserved0. solve_Permutation.
  - apply Forall_app. split; [done|]. apply Forall_fmap. eapply Forall_impl; [exact Hcopies|]. cbn. tauto.
  - eapply Forall_impl; [exact ok_past0|]. cbn. lia.
  - rewrite Forall_forall in ok_past0. apply Forall_forall. intros d Hd. rewrite Hperm. apply Forall_app. split.
    + eapply Forall_impl; [exact Hcopies|]. intros s (Hs' & _). specialize (ok_past0 _ Hd). cbn in *. lia.
    + rewrite Forall_forall in ok_ahead0. by apply ok_ahead0.
  - lia.
  - lia.
  - rewrite len_app. unfold len in *. rewrite length_fmap. lia.
  - lia.
Qed.

Lemma due_sorted (due : list (Scheduled T)) : StronglySorted popped_before due -> StronglySorted no_later (to_delivered <$> due).
Proof.
  induction 1 as [|s due Hs IH Hall]; cbn; constructor; [done|]. apply Forall_fmap. eapply Forall_impl; [exact Hall|].
  intros s'. apply scheduled_leb_deadline.
Qed.

Lemma strongly_sorted_split {A} (R : A -> A -> Prop) (xs ys : list A) :
  StronglySorted R (xs ++ ys) -> StronglySorted R xs /\ StronglySorted R ys /\ Forall (fun x => Forall (R x) ys) xs.
Proof.
  induction xs as [|x xs IH]; cbn; intros Hs; [split_and!; [constructor|done|constructor]|].
  apply StronglySorted_inv in Hs as [Hs Hall]. destruct (IH Hs) as (? & ? & ?). apply Forall_app in Hall as [? ?].
  by split_and!; [constructor| |constructor].
Qed.

Lemma history_receive cfg n h now :
  2 * (n + 1) <= u64_max -> history_ok cfg n h -> history_ok cfg (n + 1) (history_step h (OpReceive now)).
Proof.
  intros Hn Hok. pose proof (len_delivered_accepted _ _ _ Hok) as Hlen. destruct Hok. destruct ok_small0 as (Hs1 & Hs2 & Hs3).
  cbn [history_step]. unfold SimulatedLink_receive, validate_time. destruct (Z.ltb_spec now (last_time (link h))) as [Hlt|Hle].
  { cbn. rewrite app_nil_r. constructor; cbn; try done. lia. }
  cbn. destruct (receive_loop now _ _) as [[packets q'] st'] eqn:Hr.
  destruct (receive_loop_spec now _ _ _ _ _ ok_heap0 Hr) as (due & Hq & -> & Hdue & Hlate & Hcount & E1 & E2 & E3).
  rewrite Hq in *. apply strongly_sorted_split in ok_heap0 as (Hsd & Hsq & Hdq).
  rewrite len_app in *. pose proof (len_nonneg q'). pose proof (len_nonneg (accepted h)).
  assert (Hall : Forall (fun d => Forall (fun s => d.(delivered_at) <= s.(deliver_at)) due
    /\ Forall (fun s => d.(delivered_at) <= s.(deliver_at)) q') (delivered h)).
  { eapply Forall_impl; [exact ok_ahead0|]. intros d. apply Forall_app. }
  constructor; cbn; try done; rewrite ?E1, ?E2, ?E3; try lia.
  - pose proof (len_nonneg due). lia.
  - by rewrite <-app_assoc, <-fmap_app.
  - apply strongly_sorted_app; [done|by apply due_sorted|]. eapply Forall_impl; [exact Hall|]. intros d [Hd _]. by apply Forall_fmap.
  - apply Forall_app. split; [eapply Forall_impl; [exact ok_past0|]; cbn; lia|]. by apply Forall_fmap.
  - apply Forall_app. split; [eapply Forall_impl; [exact Hall|]; by intros d [_ Hd]|]. apply Forall_fmap.
    eapply Forall_impl; [exact Hdq|]. intros s Hs. eapply Forall_impl; [exact Hs|]. intros s'. apply scheduled_leb_deadline.
  - rewrite len_app. unfold len in *. rewrite length_fmap. lia.
Qed.

Lemma history_run cfg n : forall ops h,
  Forall op_fits ops -> 2 * (n + len ops) <= u64_max -> history_ok cfg n h -> history_ok cfg (n + len ops) (fold_left history_step ops h).
Proof.
  intros ops. revert n. induction ops as [|op ops IH]; intros n h Hops Hn Hok; [by rewrite len_nil, Z.add_0_r|].
  apply Forall_cons in Hops as [Hop Hops]. rewrite len_cons in *. pose proof (len_nonneg ops). cbn [fold_left].
  replace (n + (len ops + 1)) with (n + 1 + len ops) by lia. apply IH; [done|lia|].
  destruct op; [apply history_send|apply history_receive]; auto; lia.
Qed.

Lemma history_start_ok cfg l : SimulatedLink_new cfg = Ok l -> config_fits cfg -> history_ok cfg 0 (history_start l).
Proof.
  unfold SimulatedLink_new. destruct (NetSimConfig_validate cfg); [|done]. intros [= <-] Hc.
  constructor; cbn; try done; try constructor; try lia. apply Hc.
Qed.

(** C38: A simulated link loses nothing it accepted and invents nothing: after any sends and receives, with any
    times and sizes, what it delivered and what still waits is exactly the copies that sends scheduled; packets come
    out in the order of their deadlines, none before it was sent; the queue never exceeds its bound; the counters
    account for every send as lost, refused or accepted and for every delivery; and a receive leaves nothing due. *)
Theorem simulated_link_conserves cfg l ops :
  SimulatedLink_new cfg = Ok l -> config_fits cfg -> Forall op_fits ops -> 2 * len ops <= u64_max ->
  let h := run_link l ops in
  h.(delivered) ++ (to_delivered <$> h.(link).(queue)) ≡ₚ to_delivered <$> h.(accepted).*2
  /\ Forall (fun e => e.1 <= e.2.(deliver_at)) h.(accepted) /\ StronglySorted no_later h.(delivered)
  /\ SimulatedLink_queued_packets h.(link) <= cfg.(max_queued_packets)
  /\ h.(link).(stats).(packets_sent)
     = h.(link).(stats).(packets_lost) + h.(link).(stats).(packets_queue_dropped) + h.(accepted_sends)
  /\ h.(link).(stats).(packets_delivered) = len h.(delivered)
  /\ forall now packets l', SimulatedLink_receive h.(link) now = (Ok packets, l') ->
       Forall (fun s => now < s.(deliver_at)) l'.(queue).
Proof.
  intros Hnew Hc Hops Hn h. pose proof (history_run cfg 0 ops _ Hops Hn (history_start_ok _ _ Hnew Hc)) as Hok.
  fold (run_link l ops) in Hok. fold h in Hok.
  destruct Hok as [Hsame _ Hheap Hbound Hcons Hcausal Horder _ _ Hsent Hcounted _ _].
  split_and!; try done.
  - by rewrite <-Hsame.
  - intros now packets l'. unfold SimulatedLink_receive, validate_time. destruct (now <? _); [done|]. cbn.
    destruct (receive_loop now _ _) as [[ps q'] st'] eqn:Hr. intros [= <- <-].
    by destruct (receive_loop_spec now _ _ _ _ _ Hheap Hr) as (due & _ & _ & _ & Hlate & _).
Qed.
End Runs.

Module NetSimExamples.
(** A slow link that duplicates every packet and holds three. *)
Definition slow : NetSimConfig :=
  {| latency := 10; jitter := 4; loss_rate := f64_zero; duplicate_rate := f64_one; reorder_rate := f64_zero;
     max_reorder_delay := 0; bandwidth_bytes_per_second := 1000000000; max_queued_packets := 3; seed := 7 |}.

Definition slow_link : SimulatedLink Z :=
  {| config := slow; queue := []; random := 7; next_order := 0; transmit_available_at := 0; last_time := 0;
     stats := NetSimStats_default |}.

Definition slow_run : list (@LinkOp Z) := [OpSend 0 5 1; OpSend 1 5 2; OpReceive 100; OpSend 50 5 3; OpSend 100 5 4].

(** The first packet arrives twice, the second finds the queue full, the third is sent in the past, and the copies
    of the fourth wait. *)
Lemma simulated_link_conserves_witness :
  let h := run_link slow_link slow_run in
  (delivered_payload <$> h.(delivered)) = [1; 1] /\ len h.(link).(queue) = 2
  /\ h.(delivered) ++ (to_delivered <$> h.(link).(queue)) ≡ₚ to_delivered <$> h.(accepted).*2.
Proof.
  split_and!; [by vm_compute..|].
  refine (proj1 (simulated_link_conserves slow slow_link slow_run _ _ _ _)).
  - vm_compute. reflexivity.
  - unfold config_fits. vm_compute. split_and!; congruence || done.
  - repeat constructor; vm_compute; done.
  - vm_compute. done.
Defined.
End NetSimExamples.
