(* ===== verification/Float64Facts.v ===== *)
(** * Facts about binary64

    Rounding gives canonical numbers, comparisons of canonical numbers are those of their values, and the
    conversions from and to integers are monotone.  A value is counted in units of [2 ^ -1074], the least
    positive number, so that it is an integer. *)

From S2P Require Import Prelude Float64.

Definition valid (x : f64) : Prop := valid_binary 53 1024 x = true.
Definition is_nan (x : f64) : bool := match x with S754_nan => true | _ => false end.

(** ** Digits *)

Lemma digits_spec m : 2 ^ (Z.pos (digits2_pos m) - 1) <= Z.pos m < 2 ^ Z.pos (digits2_pos m).
Proof.
  induction m as [m IH|m IH|]; cbn [digits2_pos]; [| |lia].
  all: rewrite Pos2Z.inj_succ; replace (Z.succ _ - 1) with (Z.pos (digits2_pos m) - 1 + 1) by lia.
  all: rewrite Z.pow_succ_r, Z.pow_add_r by lia; lia.
Qed.

Lemma digits_unique m d : 1 <= d -> 2 ^ (d - 1) <= Z.pos m < 2 ^ d -> Z.pos (digits2_pos m) = d.
Proof.
  intros Hd [Hlo Hhi]. pose proof (digits_spec m) as [Hlo' Hhi'].
  assert (d - 1 < Z.pos (digits2_pos m)) by (apply (Z.pow_lt_mono_r_iff 2); lia).
  assert (Z.pos (digits2_pos m) - 1 < d) by (apply (Z.pow_lt_mono_r_iff 2); lia). lia.
Qed.

Lemma digits_le m d : 0 <= d -> Z.pos m < 2 ^ d -> Z.pos (digits2_pos m) <= d.
Proof.
  intros Hd Hm. pose proof (digits_spec m) as [Hlo _].
  assert (Z.pos (digits2_pos m) - 1 < d) by (apply (Z.pow_lt_mono_r_iff 2); lia). lia.
Qed.

(** ** Shifts *)

Lemma shr_1_half r : 0 <= shr_m r -> shr_m (shr_1 r) = shr_m r / 2.
Proof. rewrite <-Z.div2_div. destruct r as [[|[p|p|]|p] b c]; cbn; intros H; done. Qed.

Lemma shr_iter p : forall r, 0 <= shr_m r -> shr_m (iter_pos shr_1 p r) = shr_m r / 2 ^ Z.pos p.
Proof.
  induction p as [p IH|p IH|]; intros r Hr; cbn [iter_pos].
  - assert (Hh : 0 <= shr_m (shr_1 r)) by (rewrite shr_1_half by done; apply Z.div_pos; lia).
    rewrite !IH; [|done|rewrite IH by done; apply Z.div_pos; lia]. rewrite shr_1_half by done.
    rewrite !Z.div_div by lia. f_equal. rewrite <-!Z.pow_add_r, <-(Z.pow_1_r 2) at 1 by lia. rewrite <-!Z.pow_add_r by lia. f_equal. lia.
  - rewrite !IH; [|done|rewrite IH by done; apply Z.div_pos; lia]. rewrite Z.div_div by lia. f_equal.
    rewrite <-Z.pow_add_r by lia. f_equal. lia.
  - rewrite shr_1_half by done. done.
Qed.

(** ** Rounding *)

Abbreviation fexp64 := (fexp 53 1024).

Lemma fexp64_eq x : fexp64 x = Z.max (x - 53) (-1074).
Proof. done. Qed.

Lemma shr_record_m m l : shr_m (shr_record_of_loc m l) = m.
Proof. by destruct l as [|[]]. Qed.

(** Shifting to the exponent of the format divides the significand. *)
Lemma shr_fexp_spec m e l mrs e' : 0 <= m -> shr_fexp 53 1024 m e l = (mrs, e') ->
  e' = Z.max e (fexp64 (Zdigits2 m + e)) /\ shr_m mrs = m / 2 ^ (e' - e) /\ (l = loc_Exact -> loc_of_shr_record mrs = loc_Exact \/ e < e').
Proof.
  intros Hm. unfold shr_fexp, shr. set (n := fexp64 _ - e).
  destruct n as [|p|p] eqn:Hn; intros [= <- <-]; unfold n in Hn.
  1,3: replace (Z.max e _) with e by lia; rewrite Z.sub_diag, Z.div_1_r, shr_record_m; split_and!; try done; intros ->; by left.
  replace (Z.max e _) with (e + Z.pos p) by lia. replace (e + Z.pos p - e) with (Z.pos p) by lia.
  rewrite shr_iter by (by rewrite shr_record_m). rewrite shr_record_m. split_and!; try done. right. lia.
Qed.

Lemma shr_iter_exact p : forall r, 0 <= shr_m r -> loc_of_shr_record r = loc_Exact -> shr_m r mod 2 ^ Z.pos p = 0 ->
  loc_of_shr_record (iter_pos shr_1 p r) = loc_Exact.
Proof.
  assert (H1 : forall r, 0 <= shr_m r -> loc_of_shr_record r = loc_Exact -> shr_m r mod 2 = 0 -> loc_of_shr_record (shr_1 r) = loc_Exact).
  { intros [m [] []] Hm; try done. cbn [shr_m] in *. intros _ Hmod. destruct m as [|[q|q|]|q]; rewrite Zmod_even in Hmod; done. }
  assert (Hd : forall m k, 0 < k -> m mod 2 ^ (1 + k) = 0 -> m mod 2 = 0 /\ (m / 2) mod 2 ^ k = 0).
  { intros m k Hk. rewrite Z.pow_add_r, Z.pow_1_r by lia. rewrite Z.rem_mul_r by lia. pose proof (Z.mod_pos_bound m 2 ltac:(lia)).
    pose proof (Z.mod_pos_bound (m / 2) (2 ^ k) ltac:(apply Z.pow_pos_nonneg; lia)).
    generalize dependent ((m / 2) mod 2 ^ k). generalize dependent (m mod 2). lia. }
  assert (Hd2 : forall m k, 0 < k -> m mod 2 ^ (k + k) = 0 -> m mod 2 ^ k = 0 /\ (m / 2 ^ k) mod 2 ^ k = 0).
  { intros m k Hk. rewrite Z.pow_add_r by lia. assert (0 < 2 ^ k) by (apply Z.pow_pos_nonneg; lia). rewrite Z.rem_mul_r by lia.
    pose proof (Z.mod_pos_bound m (2 ^ k) ltac:(lia)). pose proof (Z.mod_pos_bound (m / 2 ^ k) (2 ^ k) ltac:(lia)).
    generalize dependent ((m / 2 ^ k) mod 2 ^ k). generalize dependent (m mod 2 ^ k). nia. }
  induction p as [p IH|p IH|]; intros r Hr Hl Hm; cbn [iter_pos].
  - replace (Z.pos p~1) with (1 + (Z.pos p + Z.pos p)) in Hm by lia.
    apply Hd in Hm as [Hm0 Hm]; [|lia]. apply Hd2 in Hm as [Hm1 Hm2]; [|lia].
    assert (0 <= shr_m (shr_1 r)) by (rewrite shr_1_half by done; apply Z.div_pos; lia).
    assert (0 <= shr_m (shr_1 r) / 2 ^ Z.pos p) by (apply Z.div_pos; [lia|apply Z.pow_pos_nonneg; lia]).
    apply IH; rewrite ?shr_iter; rewrite ?shr_1_half in *; auto. apply IH; rewrite ?shr_1_half; auto.
  - replace (Z.pos p~0) with (Z.pos p + Z.pos p) in Hm by lia. apply Hd2 in Hm as [Hm1 Hm2]; [|lia].
    assert (0 <= shr_m r / 2 ^ Z.pos p) by (apply Z.div_pos; [lia|apply Z.pow_pos_nonneg; lia]).
    apply IH; rewrite ?shr_iter; auto.
  - by apply H1.
Qed.

(** Where no bit is lost the shifted significand is exact. *)
Lemma shr_fexp_exact m e mrs e' : 0 <= m -> shr_fexp 53 1024 m e loc_Exact = (mrs, e') -> m mod 2 ^ (e' - e) = 0 ->
  loc_of_shr_record mrs = loc_Exact.
Proof.
  intros Hm. unfold shr_fexp, shr. set (n := fexp64 _ - e).
  destruct n as [|p|p]; intros [= <- <-] Hmod; try done. apply shr_iter_exact; try done.
  by replace (e + Z.pos p - e) with (Z.pos p) in Hmod by lia.
Qed.

Lemma round_nearest_cases m l : round_nearest_even m l = m \/ round_nearest_even m l = m + 1.
Proof. destruct l as [|[]]; cbn; auto. destruct (Z.even m); auto. Qed.

Lemma quotient_bits m e e' : 0 <= m -> e <= Z.max (Zdigits2 m + e - 53) (-1074) ->
  e' = Z.max e (Z.max (Zdigits2 m + e - 53) (-1074)) ->
  0 <= m / 2 ^ (e' - e) < 2 ^ 53 /\ (e' = -1074 \/ 2 ^ 52 <= m / 2 ^ (e' - e)).
Proof.
  destruct m as [|m|]; try lia; intros _ Ha He'; cbn [Zdigits2] in *.
  { rewrite Z.div_0_l by (apply Z.pow_nonzero; lia). lia. }
  pose proof (digits_spec m) as [Hlo Hhi].
  set (d := Z.pos (digits2_pos m)) in *. assert (Hk : 0 <= e' - e) by lia. assert (0 < 2 ^ (e' - e)) by (apply Z.pow_pos_nonneg; lia).
  split; [split; [apply Z.div_pos; lia|]|].
  - apply Z.div_lt_upper_bound; [lia|]. rewrite <-Z.pow_add_r by lia. apply (Z.lt_le_trans _ _ _ Hhi). apply Z.pow_le_mono_r; lia.
  - destruct (Z.le_gt_cases (d + e - 53) (-1074)); [left; lia|right]. apply Z.div_le_lower_bound; [lia|].
    rewrite <-Z.pow_add_r by lia. replace (e' - e + 52) with (d - 1) by lia. done.
Qed.

(** The result of rounding: an integral significand [r] at the exponent [e'] of the format, cut off or one more,
    kept canonical. *)
Lemma round_aux_spec s m e l :
  0 <= m -> e <= fexp64 (Zdigits2 m + e) ->
  exists r e', e' = Z.max e (fexp64 (Zdigits2 m + e)) /\ (r = m / 2 ^ (e' - e) \/ r = m / 2 ^ (e' - e) + 1)
    /\ (l = loc_Exact -> m mod 2 ^ (e' - e) = 0 -> r = m / 2 ^ (e' - e))
    /\ match binary_round_aux 53 1024 s m e l with
       | S754_zero s' => s' = s /\ r = 0
       | S754_finite s' m' e2 => s' = s /\ bounded 53 1024 m' e2 = true /\ Z.pos m' * 2 ^ (e2 + 1074) = r * 2 ^ (e' + 1074)
       | S754_infinity s' => s' = s /\ 971 <= e'
       | S754_nan => False
       end.
Proof.
  intros Hm Halign. unfold binary_round_aux. destruct (shr_fexp 53 1024 m e l) as [mrs e'] eqn:Hs.
  destruct (shr_fexp_spec _ _ _ _ _ Hm Hs) as (He' & Hq & _).
  set (r := round_nearest_even (shr_m mrs) (loc_of_shr_record mrs)).
  assert (Hr : r = m / 2 ^ (e' - e) \/ r = m / 2 ^ (e' - e) + 1) by (rewrite <-Hq; apply round_nearest_cases).
  assert (Hlow : -1074 <= e') by (rewrite fexp64_eq in He'; lia).
  assert (Hexact : l = loc_Exact -> m mod 2 ^ (e' - e) = 0 -> r = m / 2 ^ (e' - e)).
  { intros -> Hmod. unfold r. by rewrite (shr_fexp_exact _ _ _ _ Hm Hs Hmod), Hq. }
  assert (Hbits : 0 <= m / 2 ^ (e' - e) < 2 ^ 53 /\ (e' = -1074 \/ 2 ^ 52 <= m / 2 ^ (e' - e))).
  { rewrite fexp64_eq in *. by apply quotient_bits. }
  exists r, e'. split_and!; try done. clear Hexact. set (q := m / 2 ^ (e' - e)) in *. clearbody q r.
  destruct (shr_fexp 53 1024 r e' loc_Exact) as [mrs2 e2] eqn:Hs2.
  assert (Hr0 : 0 <= r) by lia. destruct (shr_fexp_spec _ _ _ _ _ Hr0 Hs2) as (He2 & Hq2 & _). rewrite fexp64_eq in He2.
  assert (Hcase : r = 0 \/ (0 < r < 2 ^ 53 /\ (e' = -1074 \/ 2 ^ 52 <= r)) \/ r = 2 ^ 53) by lia.
  destruct Hcase as [H0|[[Hpos Hnorm]|Htop]].
  - rewrite Hq2, H0, Z.div_0_l by (apply Z.pow_nonzero; lia). done.
  - destruct r as [|m'|]; [lia| |lia]. cbn [Zdigits2] in *. pose proof (digits_le m' 53 ltac:(lia) ltac:(lia)).
    assert (Hcanon : Z.max (Z.pos (digits2_pos m') + e' - 53) (-1074) = e').
    { destruct Hnorm as [->|Hn]; [lia|]. rewrite (digits_unique m' 53) by lia. lia. }
    assert (Hsame : e2 = e') by lia.
    rewrite Hsame, Z.sub_diag, Z.div_1_r in Hq2. rewrite Hq2, Hsame. destruct (Z.leb_spec e' (1024 - 53)); [|split; [done|lia]].
    split_and!; try done. unfold bounded, canonical_mantissa. rewrite fexp64_eq.
    apply andb_true_iff. split; [apply Z.eqb_eq|apply Z.leb_le]; lia.
  - rewrite Htop in He2, Hq2. change (Zdigits2 (2 ^ 53)) with 54 in He2. replace (e2 - e') with 1 in Hq2 by lia.
    change (2 ^ 53 / 2 ^ 1) with 4503599627370496 in Hq2. rewrite Hq2. destruct (Z.leb_spec e2 (1024 - 53)); [|split; [done|lia]].
    split_and!; try done.
    + unfold bounded, canonical_mantissa. rewrite fexp64_eq. change (Z.pos (digits2_pos _)) with 53.
      apply andb_true_iff. split; [apply Z.eqb_eq|apply Z.leb_le]; lia.
    + rewrite Htop. replace (e2 + 1074) with (1 + (e' + 1074)) by lia. rewrite Z.pow_add_r by lia. lia.
Qed.

Lemma shl_iter m d : Z.pos (Pos.iter xO m d) = Z.pos m * 2 ^ Z.pos d.
Proof.
  induction d as [|d IH] using Pos.peano_ind; [cbn; lia|]. rewrite Pos.iter_succ, Pos2Z.inj_succ, Z.pow_succ_r by lia.
  change (Z.pos (Pos.iter xO m d)~0) with (2 * Z.pos (Pos.iter xO m d)). lia.
Qed.

(** [binary_round] aligns before it rounds: the significand and the exponent it rounds at. *)
Lemma binary_round_aligned s m e :
  exists mz ez, binary_round 53 1024 s m e = binary_round_aux 53 1024 s (Z.pos mz) ez loc_Exact
    /\ ez = Z.min e (fexp64 (Z.pos (digits2_pos m) + e)) /\ Z.pos mz = Z.pos m * 2 ^ (e - ez)
    /\ Z.pos (digits2_pos mz) + ez = Z.pos (digits2_pos m) + e.
Proof.
  unfold binary_round, shl_align. set (n := fexp64 _ - e). destruct n as [|d|d] eqn:Hn; unfold n in Hn.
  1,2: exists m, e; split_and!; try done; [lia|rewrite Z.sub_diag; lia].
  exists (Pos.iter xO m d), (fexp64 (Z.pos (digits2_pos m) + e)). split_and!; try done; [lia| |].
  - rewrite shl_iter. f_equal. f_equal. lia.
  - rewrite (digits_unique _ (Z.pos (digits2_pos m) + Z.pos d)); [lia|lia|]. rewrite shl_iter.
    pose proof (digits_spec m). assert (0 < 2 ^ Z.pos d) by lia.
    replace (Z.pos (digits2_pos m) + Z.pos d - 1) with (Z.pos (digits2_pos m) - 1 + Z.pos d) by lia.
    rewrite !Z.pow_add_r by lia. nia.
Qed.

Lemma binary_round_valid s m e : valid (binary_round 53 1024 s m e) /\ is_nan (binary_round 53 1024 s m e) = false.
Proof.
  destruct (binary_round_aligned s m e) as (mz & ez & -> & Hez & _ & Hd).
  destruct (round_aux_spec s (Z.pos mz) ez loc_Exact) as (r & e' & _ & _ & _ & Hres); [lia|cbn [Zdigits2]; rewrite Hd; lia|].
  unfold valid. destruct (binary_round_aux _ _ _ _ _ _); try done. by destruct Hres as (_ & ? & _).
Qed.

Lemma binary_normalize_valid m e s : valid (binary_normalize 53 1024 m e s) /\ is_nan (binary_normalize 53 1024 m e s) = false.
Proof. destruct m; cbn; [done|apply binary_round_valid..]. Qed.

Lemma f64_of_Z_valid n : valid (f64_of_Z n).
Proof. apply binary_normalize_valid. Qed.

Lemma f64_sub_valid x y : valid x -> valid y -> valid (f64_sub x y).
Proof.
  destruct x as [[]|[]| |sx mx ex], y as [[]|[]| |sy my ey]; cbn; intros Hx Hy; try done. apply binary_normalize_valid.
Qed.

Lemma f64_sub_number x y : f64_is_finite x = true -> f64_is_finite y = true -> is_nan (f64_sub x y) = false.
Proof.
  destruct x as [[]|[]| |sx mx ex], y as [[]|[]| |sy my ey]; cbn; intros Hx Hy; try done. apply binary_normalize_valid.
Qed.

Lemma round_aux_number s m e l : 0 <= m -> is_nan (binary_round_aux 53 1024 s m e l) = false.
Proof.
  intros Hm. unfold binary_round_aux. destruct (shr_fexp 53 1024 m e l) as [mrs e'] eqn:Hs.
  destruct (shr_fexp_spec _ _ _ _ _ Hm Hs) as (He' & Hq & _).
  assert (Hr : 0 <= round_nearest_even (shr_m mrs) (loc_of_shr_record mrs)).
  { assert (0 <= shr_m mrs) by (rewrite Hq; apply Z.div_pos; [lia|apply Z.pow_pos_nonneg; rewrite ?He'; lia]).
    destruct (round_nearest_cases (shr_m mrs) (loc_of_shr_record mrs)); lia. }
  destruct (shr_fexp 53 1024 _ e' loc_Exact) as [mrs2 e2] eqn:Hs2.
  destruct (shr_fexp_spec _ _ _ _ _ Hr Hs2) as (He2 & Hq2 & _).
  assert (0 <= shr_m mrs2) by (rewrite Hq2; apply Z.div_pos; [lia|apply Z.pow_pos_nonneg; rewrite ?He2; lia]).
  destruct (shr_m mrs2); [done|by destruct (_ <=? _)|lia].
Qed.

Lemma round_aux_valid s m e l : 0 <= m -> e <= fexp64 (Zdigits2 m + e) -> valid (binary_round_aux 53 1024 s m e l).
Proof.
  intros Hm Ha. destruct (round_aux_spec s m e l Hm Ha) as (r & e' & _ & _ & _ & Hres).
  unfold valid. destruct (binary_round_aux _ _ _ _ _ _); try done. by destruct Hres as (_ & ? & _).
Qed.

Lemma f64_add_valid x y : valid x -> valid y -> valid (f64_add x y).
Proof.
  destruct x as [[]|[]| |sx mx ex], y as [[]|[]| |sy my ey]; cbn; intros Hx Hy; try done. apply binary_normalize_valid.
Qed.

Lemma bounded_range m e : bounded 53 1024 m e = true ->
  -1074 <= e /\ Z.pos m < 2 ^ 53 /\ (e = -1074 \/ 2 ^ 52 <= Z.pos m).
Proof.
  unfold bounded, canonical_mantissa. rewrite fexp64_eq. intros [Hc%Z.eqb_eq He%Z.leb_le]%andb_true_iff.
  pose proof (digits_spec m) as [Hlo Hhi]. assert (Hd : Z.pos (digits2_pos m) <= 53) by lia. split_and!; [lia| |].
  - apply (Z.lt_le_trans _ _ _ Hhi). apply Z.pow_le_mono_r; lia.
  - destruct (Z.eq_dec e (-1074)); [by left|right]. replace 52 with (Z.pos (digits2_pos m) - 1) by lia. done.
Qed.

Lemma f64_mul_valid x y : valid x -> valid y -> valid (f64_mul x y).
Proof.
  destruct x as [[]|[]| |sx mx ex], y as [[]|[]| |sy my ey]; cbn -[binary_round_aux]; intros Hx Hy; try done.
  apply bounded_range in Hx as (Hex & _ & Hmx), Hy as (Hey & _ & Hmy). apply round_aux_valid; [lia|]. rewrite fexp64_eq.
  cbn [Zdigits2]. destruct (Z.le_gt_cases (2 ^ 52) (Z.pos (mx * my))) as [Hbig|Hsmall]; [|nia].
  pose proof (digits_spec (mx * my)) as [_ Hhi].
  assert (52 < Z.pos (digits2_pos (mx * my))) by (apply (Z.pow_lt_mono_r_iff 2); lia). lia.
Qed.

Lemma f64_div_valid x y : valid x -> valid y -> valid (f64_div x y).
Proof.
  destruct x as [[]|[]| |sx mx ex], y as [[]|[]| |sy my ey]; cbn -[binary_round_aux SFdiv_core_binary]; intros Hx Hy; try done.
  unfold SFdiv_core_binary. cbv zeta. cbn [Zdigits2]. set (e' := Z.min _ _).
  set (num := match _ with Z0 => _ | Zpos _ => _ | Zneg _ => _ end).
  assert (Hnum : num = Z.pos mx * 2 ^ (ex - ey - e')).
  { unfold num. destruct (ex - ey - e') as [|n|n] eqn:Hn; [lia|apply Z.shiftl_mul_pow2; lia|unfold e' in Hn; lia]. }
  pose proof (Z_div_mod num (Z.pos my) ltac:(lia)) as Hdiv. destruct (Z.div_eucl num (Z.pos my)) as [q r].
  destruct Hdiv as [Hq Hr]. assert (Hs : 0 <= ex - ey - e') by (unfold e'; lia).
  assert (0 < 2 ^ (ex - ey - e')) by (apply Z.pow_pos_nonneg; lia).
  assert (Hq0 : 0 <= q) by nia. apply round_aux_valid; [done|].
  assert (Hd : q < 2 ^ Zdigits2 q /\ 0 <= Zdigits2 q) by (destruct q as [|q|]; [cbn; lia|pose proof (digits_spec q); cbn [Zdigits2]; lia|lia]).
  pose proof (digits_spec mx) as [Hx1 _]. pose proof (digits_spec my) as [_ Hy2].
  assert (Hcmp : Z.pos (digits2_pos mx) - 1 + (ex - ey - e') < Zdigits2 q + Z.pos (digits2_pos my)).
  { apply (Z.pow_lt_mono_r_iff 2); [lia..|]. rewrite !Z.pow_add_r by lia. apply (Z.le_lt_trans _ num); [rewrite Hnum; nia|].
    rewrite Hq. clear Hnum. apply (Z.lt_le_trans _ (Z.pos my * (q + 1))); [lia|]. nia. }
  clear Hq Hnum num. unfold e' in *. rewrite !fexp64_eq in *. lia.
Qed.

Lemma f64_div_number x s m e : is_nan x = false -> is_nan (f64_div x (S754_finite s m e)) = false.
Proof.
  destruct x as [| | |sx mx ex]; cbn; intros Hx; try done. unfold SFdiv_core_binary. cbv zeta.
  set (num := match _ with Z0 => _ | Zpos _ => _ | Zneg _ => _ end).
  assert (Hnum : 0 <= num).
  { unfold num. destruct (_ - _ - _); try lia. apply Z.shiftl_nonneg. lia. }
  pose proof (Z_div_mod num (Z.pos m) ltac:(lia)) as Hdiv. destruct (Z.div_eucl num (Z.pos m)) as [q r].
  apply round_aux_number. destruct Hdiv as [Hn Hr]. nia.
Qed.

(** ** Values *)

(** The numbers that are neither negative nor infinite, and their value in units of [2 ^ -1074]. *)
Definition nonneg (x : f64) : Prop :=
  valid x /\ match x with S754_zero _ | S754_finite false _ _ => True | _ => False end.

Definition units (x : f64) : Z :=
  match x with S754_finite _ m e => Z.pos m * 2 ^ (e + 1074) | _ => 0 end.

Definition unit_one : Z := 2 ^ 1074.

Lemma unit_one_pos : 0 < unit_one.
Proof. unfold unit_one. lia. Qed.

Lemma units_compare m e m' e' : bounded 53 1024 m e = true -> bounded 53 1024 m' e' = true ->
  match Z.compare e e' with Lt => Lt | Gt => Gt | Eq => Pos.compare_cont Eq m m' end
  = Z.compare (Z.pos m * 2 ^ (e + 1074)) (Z.pos m' * 2 ^ (e' + 1074)).
Proof.
  assert (Hlt : forall m e m' e', bounded 53 1024 m e = true -> bounded 53 1024 m' e' = true -> e < e' ->
    Z.pos m * 2 ^ (e + 1074) < Z.pos m' * 2 ^ (e' + 1074)).
  { clear. intros m e m' e' (He & Hm & _)%bounded_range (He' & _ & [?|Hm'])%bounded_range Hlt; [lia|].
    replace (e' + 1074) with ((e' - e - 1) + 1 + (e + 1074)) by lia. rewrite (Z.pow_add_r 2 (e' - e - 1 + 1)), (Z.pow_add_r 2 (e' - e - 1)) by lia.
    assert (0 < 2 ^ (e + 1074)) by (apply Z.pow_pos_nonneg; lia). assert (0 < 2 ^ (e' - e - 1)) by (apply Z.pow_pos_nonneg; lia).
    rewrite Z.pow_1_r, !Z.mul_assoc. apply Z.mul_lt_mono_pos_r; [done|]. nia. }
  intros Hb Hb'. destruct (Z.compare_spec e e') as [->|Hc|Hc].
  - apply bounded_range in Hb as [He _]. assert (0 < 2 ^ (e' + 1074)) by (apply Z.pow_pos_nonneg; lia).
    change (Pos.compare_cont Eq m m') with (Z.compare (Z.pos m) (Z.pos m')). apply Zmult_compare_compat_r. lia.
  - symmetry. apply Z.compare_lt_iff. auto.
  - symmetry. apply Z.compare_gt_iff. auto.
Qed.

Lemma nonneg_compare x y : nonneg x -> nonneg y -> SFcompare x y = Some (Z.compare (units x) (units y)).
Proof.
  intros [Hx Hx'] [Hy Hy']. assert (Hp : forall m e, bounded 53 1024 m e = true -> 0 < Z.pos m * 2 ^ (e + 1074)).
  { intros m e (He & _)%bounded_range. assert (0 < 2 ^ (e + 1074)) by (apply Z.pow_pos_nonneg; lia). lia. }
  destruct x as [| | |[] m e], y as [| | |[] m' e']; try done; cbn -[Z.compare Z.mul Z.pow].
  - f_equal. symmetry. apply Z.compare_lt_iff. by apply Hp.
  - f_equal. symmetry. apply Z.compare_gt_iff. by apply Hp.
  - f_equal. by apply units_compare.
Qed.

Lemma nonneg_ltb x y : nonneg x -> nonneg y -> f64_ltb x y = (units x <? units y).
Proof. intros Hx Hy. unfold f64_ltb, SFltb, Z.ltb. rewrite nonneg_compare by done. done. Qed.

Lemma nonneg_leb x y : nonneg x -> nonneg y -> f64_leb x y = (units x <=? units y).
Proof. intros Hx Hy. unfold f64_leb, SFleb, Z.leb. rewrite nonneg_compare by done. by destruct (_ ?= _). Qed.

(** ** Conversion from integers *)

(** [f64_of_Z a]: [a] cut to 53 bits or one more in the last of them, and [a] where no bit is lost. *)
Lemma of_Z_spec a : 0 < a < 2 ^ 900 ->
  nonneg (f64_of_Z a)
  /\ exists k r, k = Z.max 0 (Zdigits2 a - 53) /\ units (f64_of_Z a) = r * 2 ^ k * unit_one
       /\ (r = a / 2 ^ k \/ r = a / 2 ^ k + 1) /\ (a mod 2 ^ k = 0 -> r = a / 2 ^ k)
       /\ (0 < k -> 2 ^ 52 <= a / 2 ^ k).
Proof.
  intros [Ha Hmax]. destruct a as [|a|]; try lia. unfold f64_of_Z, binary_normalize. cbn [Zdigits2].
  set (d := Z.pos (digits2_pos a)). pose proof (digits_le a 900 ltac:(lia) Hmax) as Hd. fold d in Hd. assert (Hd1 : 1 <= d) by (unfold d; lia).
  destruct (binary_round_aligned false a 0) as (mz & ez & -> & Hez & Hmz & Hdz). rewrite Z.add_0_r, fexp64_eq in *. fold d in Hez, Hdz.
  destruct (round_aux_spec false (Z.pos mz) ez loc_Exact) as (r & e' & He' & Hr & Hex & Hres);
    [lia|cbn [Zdigits2]; rewrite fexp64_eq; lia|]. cbn [Zdigits2] in He'. rewrite Hdz, fexp64_eq in He'.
  assert (He'd : e' = d - 53) by lia. pose proof (digits_spec a) as [Hlo _]. fold d in Hlo.
  assert (Hk : exists k r', k = Z.max 0 (d - 53) /\ r * 2 ^ (e' + 1074) = r' * 2 ^ k * unit_one
    /\ (r' = Z.pos a / 2 ^ k \/ r' = Z.pos a / 2 ^ k + 1) /\ (Z.pos a mod 2 ^ k = 0 -> r' = Z.pos a / 2 ^ k)
    /\ (0 < k -> 2 ^ 52 <= Z.pos a / 2 ^ k) /\ 0 < r).
  { destruct (Z.le_gt_cases 53 d) as [Hge|Hlt].
    - assert (ez = 0) as -> by lia. rewrite Z.sub_0_r, Z.pow_0_r, Z.mul_1_r in *. injection Hmz as ->.
      assert (Hq : 2 ^ 52 <= Z.pos a / 2 ^ e').
      { apply Z.div_le_lower_bound; [apply Z.pow_pos_nonneg; lia|]. rewrite <-Z.pow_add_r by lia. by replace (e' + 52) with (d - 1) by lia. }
      exists e', r. split_and!; auto; try lia. unfold unit_one. rewrite Z.pow_add_r by lia. lia.
    - assert (ez = e') as -> by lia. rewrite Z.sub_diag, Z.div_1_r, Z.mod_1_r in *. specialize (Hex eq_refl eq_refl).
      exists 0, (Z.pos a). rewrite Z.pow_0_r, Z.div_1_r. split_and!; auto; try lia.
      rewrite Hex, Hmz, Z.mul_1_r, <-Z.mul_assoc, <-Z.pow_add_r by lia. unfold unit_one. f_equal. f_equal. lia. }
  destruct Hk as (k & r' & Hk & Hu & Hr' & Hex' & Hbig & Hrpos).
  destruct (binary_round_aux _ _ _ _ _ _) as [s0|s0| |s0 m' e2]; [lia|lia|done|]. destruct Hres as (-> & Hb & Hv).
  split; [by split|]. exists k, r'. cbn [units]. rewrite Hv, Hu. auto.
Qed.

Lemma nonneg_units_nonneg x : nonneg x -> 0 <= units x.
Proof. intros _. destruct x as [| | |s m e]; cbn [units]; lia. Qed.

(** A number above what an integer is rounded to is not below the integer, and the other way round. *)
Lemma of_Z_below a x : 0 < a < 2 ^ 900 -> nonneg x -> units (f64_of_Z a) < units x -> a * unit_one <= units x.
Proof.
  intros Ha Hx. destruct (of_Z_spec a Ha) as (_ & k & r & Hk & -> & Hr & _ & Hbig). intros Hlt.
  pose proof unit_one_pos as Hu. assert (Hpk : 0 < 2 ^ k) by (apply Z.pow_pos_nonneg; lia).
  pose proof (Z.div_mod a (2 ^ k) ltac:(lia)) as Hdiv. pose proof (Z.mod_pos_bound a (2 ^ k) Hpk) as Hmod.
  destruct Hr as [->| ->]; [|nia]. destruct (Z.eq_dec k 0) as [->|Hk0]; [rewrite Z.pow_0_r, Z.div_1_r, Z.mul_1_r in Hlt; lia|].
  specialize (Hbig ltac:(lia)). set (q := a / 2 ^ k) in *.
  assert (Hx' : exists n, units x = n * (2 ^ k * unit_one)).
  { destruct x as [| | |[] m e]; try (by destruct Hx); [exists 0; done|]. destruct Hx as [(He & Hm & _)%bounded_range _].
    cbn [units] in *. destruct (Z.le_gt_cases k e) as [Hle|Hgt].
    - exists (Z.pos m * 2 ^ (e - k)). unfold unit_one. rewrite <-Z.mul_assoc, <-!Z.pow_add_r by lia. f_equal. f_equal. lia.
    - exfalso. assert (Hp : 2 ^ (e + 1074) <= 2 ^ (k - 1 + 1074)) by (apply Z.pow_le_mono_r; lia).
      assert (Hp2 : 2 ^ k * unit_one = 2 * 2 ^ (k - 1 + 1074)).
      { unfold unit_one. rewrite <-Z.pow_add_r, <-Z.pow_succ_r by lia. f_equal; lia. }
      rewrite <-Z.mul_assoc, Hp2 in Hlt. assert (0 < 2 ^ (e + 1074)) by (apply Z.pow_pos_nonneg; lia). nia. }
  destruct Hx' as [n Hn]. clearbody q. rewrite Hn, <-Z.mul_assoc in Hlt. apply Z.mul_lt_mono_pos_r in Hlt; [|lia].
  rewrite Hn, Z.mul_assoc. apply Z.mul_le_mono_nonneg_r; [lia|]. nia.
Qed.

Lemma of_Z_above a x : 0 < a < 2 ^ 900 -> nonneg x -> units x < units (f64_of_Z a) -> units x <= a * unit_one.
Proof.
  intros Ha Hx. destruct (of_Z_spec a Ha) as (_ & k & r & Hk & -> & Hr & Hex & Hbig). intros Hlt.
  pose proof unit_one_pos as Hu. assert (Hpk : 0 < 2 ^ k) by (apply Z.pow_pos_nonneg; lia).
  pose proof (Z.div_mod a (2 ^ k) ltac:(lia)) as Hdiv. pose proof (Z.mod_pos_bound a (2 ^ k) Hpk) as Hmod.
  destruct Hr as [->| ->]; [clear Hex; nia|]. set (q := a / 2 ^ k) in *.
  destruct (Z.eq_dec k 0) as [Hk0|Hk0].
  { exfalso. subst k. rewrite Hk0, Z.pow_0_r, Z.mod_1_r in Hex. unfold q in Hex. rewrite Hk0, Z.pow_0_r in Hex. specialize (Hex eq_refl). lia. }
  clear Hex. specialize (Hbig ltac:(lia)).
  assert (units x <= q * (2 ^ k * unit_one)); [|nia].
  destruct x as [| | |[] m e]; try (by destruct Hx); [cbn [units]; nia|]. destruct Hx as [(He & Hm & _)%bounded_range _].
  cbn [units] in *. destruct (Z.le_gt_cases k e) as [Hle|Hgt].
  - assert (Hn : Z.pos m * 2 ^ (e + 1074) = Z.pos m * 2 ^ (e - k) * (2 ^ k * unit_one)).
    { unfold unit_one. rewrite <-Z.mul_assoc, <-!Z.pow_add_r by lia. f_equal. f_equal. lia. }
    rewrite Hn in *. rewrite <-(Z.mul_assoc (q + 1)) in Hlt. apply Z.mul_lt_mono_pos_r in Hlt; [|lia].
    apply Z.mul_le_mono_nonneg_r; lia.
  - assert (Hp : 2 ^ (e + 1074) <= 2 ^ (k - 1 + 1074)) by (apply Z.pow_le_mono_r; lia).
    assert (Hp2 : 2 ^ k * unit_one = 2 * 2 ^ (k - 1 + 1074)).
    { unfold unit_one. rewrite <-Z.pow_add_r, <-Z.pow_succ_r by lia. f_equal; lia. }
    rewrite Hp2. assert (0 < 2 ^ (e + 1074)) by (apply Z.pow_pos_nonneg; lia). nia.
Qed.

Lemma of_Z_exact q k : 0 < q < 2 ^ 53 -> 0 <= k <= 800 ->
  nonneg (f64_of_Z (q * 2 ^ k)) /\ units (f64_of_Z (q * 2 ^ k)) = q * 2 ^ k * unit_one.
Proof.
  intros Hq Hk. assert (Hpk : 0 < 2 ^ k) by (apply Z.pow_pos_nonneg; lia).
  assert (Hhi : q * 2 ^ k < 2 ^ (53 + k)) by (rewrite Z.pow_add_r by lia; nia).
  assert (Ha : 0 < q * 2 ^ k < 2 ^ 900).
  { split; [nia|]. apply (Z.lt_le_trans _ _ _ Hhi). apply Z.pow_le_mono_r; lia. }
  destruct (of_Z_spec _ Ha) as (Hn & j & r & Hj & -> & _ & Hex & _). split; [done|].
  assert (Hd : Zdigits2 (q * 2 ^ k) <= 53 + k).
  { destruct (q * 2 ^ k) as [|a|]; try lia. apply digits_le; lia. }
  assert (Hmod : (q * 2 ^ k) mod 2 ^ j = 0).
  { replace k with (k - j + j) by lia. rewrite Z.pow_add_r, Z.mul_assoc by lia. apply Z.mod_mul, Z.pow_nonzero; lia. }
  rewrite (Hex Hmod). f_equal. rewrite Z.mul_comm. symmetry. apply Z.div_exact; [apply Z.pow_nonzero; lia|done].
Qed.

(** The cast of a number whose value is an integer gives the integer. *)
Lemma as_integer high x n : nonneg x -> units x = n * unit_one -> 0 <= n <= high -> f64_as 0 high x = n.
Proof.
  intros Hx Hu Hn. pose proof unit_one_pos. destruct x as [| | |[] m e]; try (by destruct Hx); cbn [units f64_as] in *; [nia|].
  destruct Hx as [(He & _)%bounded_range _]. unfold trunc_Z, floor_Z, f64_signed. destruct (Z.leb_spec 0 e).
  - rewrite Z.pow_add_r, Z.mul_assoc in Hu by lia. fold unit_one in Hu. apply Z.mul_cancel_r in Hu; lia.
  - assert (Hm : Z.pos m = n * 2 ^ (- e)).
    { apply (Z.mul_cancel_r _ _ (2 ^ (e + 1074))); [apply Z.pow_nonzero; lia|]. rewrite Hu, <-Z.mul_assoc, <-Z.pow_add_r by lia.
      unfold unit_one. do 2 f_equal. lia. }
    rewrite Hm, Z.div_mul by (apply Z.pow_nonzero; lia). lia.
Qed.

(** The integer part of a value [m * 2 ^ e] with [0 <= e], or with a negative exponent. *)
Lemma units_integer m e : 0 <= e -> Z.pos m * 2 ^ (e + 1074) = Z.pos m * 2 ^ e * unit_one.
Proof. intros He. unfold unit_one. rewrite Z.pow_add_r by lia. lia. Qed.

Lemma units_fraction e : -1074 <= e < 0 ->
  unit_one = 2 ^ (- e) * 2 ^ (e + 1074) /\ 0 < 2 ^ (e + 1074) /\ 2 <= 2 ^ (- e).
Proof.
  intros He. split_and!.
  - unfold unit_one. rewrite <-Z.pow_add_r by lia. f_equal. lia.
  - apply Z.pow_pos_nonneg; lia.
  - change 2 with (2 ^ 1) at 1. apply Z.pow_le_mono_r; lia.
Qed.

Lemma floor_as high x : nonneg x -> units x / unit_one <= high -> high < 2 ^ 800 -> f64_as 0 high (f64_floor x) = units x / unit_one.
Proof.
  intros Hx Hle Hhigh. pose proof unit_one_pos. destruct x as [| | |[] m e]; try (by destruct Hx).
  destruct Hx as [(He & Hm & _)%bounded_range _]. cbn [units f64_floor] in *. unfold floor_Z, f64_signed.
  destruct (Z.leb_spec 0 e) as [Hpos|Hneg].
  - rewrite units_integer, Z.div_mul in * by lia. fold (f64_of_Z (Z.pos m * 2 ^ e)).
    assert (e <= 800). { apply Z.lt_le_incl. apply (Z.pow_lt_mono_r_iff 2); [lia..|]. nia. }
    destruct (of_Z_exact (Z.pos m) e) as [Hn Hu]; [lia..|]. apply as_integer; try done. nia.
  - destruct (units_fraction e ltac:(lia)) as (Hone & Hpe & Hne). rewrite Hone, Z.div_mul_cancel_r in * by lia.
    set (n := Z.pos m / 2 ^ (- e)) in *. assert (Hn : 0 <= n < 2 ^ 53).
    { split; [apply Z.div_pos; lia|]. apply Z.div_lt_upper_bound; nia. }
    clearbody n. fold (f64_of_Z n). destruct (Z.eq_dec n 0) as [->|Hn0]; [done|].
    destruct (of_Z_exact n 0) as [Hv Hu]; [lia..|]. rewrite Z.pow_0_r, Z.mul_1_r in *. apply as_integer; [done|done|lia].
Qed.

Lemma ceil_as high x : nonneg x -> - (- units x / unit_one) <= high -> high < 2 ^ 800 ->
  f64_as 0 high (f64_ceil x) = - (- units x / unit_one).
Proof.
  intros Hx Hle Hhigh. pose proof unit_one_pos. destruct x as [| | |[] m e]; try (by destruct Hx).
  destruct Hx as [(He & Hm & _)%bounded_range _]. cbn [units f64_ceil] in *. unfold ceil_Z, floor_Z, f64_signed. cbn [negb].
  change (Z.neg m) with (- Z.pos m).
  destruct (Z.leb_spec 0 e) as [Hpos|Hneg].
  - assert (Hc : - (- (Z.pos m * 2 ^ (e + 1074)) / unit_one) = Z.pos m * 2 ^ e).
    { rewrite units_integer, <-Z.mul_opp_l, Z.div_mul by lia. lia. }
    rewrite Hc in *. replace (- (- Z.pos m * 2 ^ e)) with (Z.pos m * 2 ^ e) by lia. fold (f64_of_Z (Z.pos m * 2 ^ e)).
    assert (e <= 800). { apply Z.lt_le_incl. apply (Z.pow_lt_mono_r_iff 2); [lia..|]. nia. }
    destruct (of_Z_exact (Z.pos m) e) as [Hn Hu]; [lia..|]. apply as_integer; try done. nia.
  - destruct (units_fraction e ltac:(lia)) as (Hone & Hpe & Hne). rewrite Hone, <-Z.mul_opp_l, Z.div_mul_cancel_r in * by lia.
    set (n := - (- Z.pos m / 2 ^ (- e))) in *. assert (Hn : 0 <= n < 2 ^ 53).
    { unfold n. split; [assert (- Z.pos m / 2 ^ (- e) <= 0) by (apply Z.div_le_upper_bound; lia); lia|].
      assert (- Z.pos m <= - Z.pos m / 2 ^ (- e)); [|lia]. apply Z.div_le_lower_bound; nia. }
    clearbody n. fold (f64_of_Z n). destruct (Z.eq_dec n 0) as [->|Hn0]; [done|].
    destruct (of_Z_exact n 0) as [Hv Hu]; [lia..|]. rewrite Z.pow_0_r, Z.mul_1_r in *. apply as_integer; [done|done|lia].
Qed.

(** ** Bounds *)

Lemma compare_swap x y : is_nan x = false -> is_nan y = false ->
  exists c, SFcompare x y = Some c /\ SFcompare y x = Some (CompOpp c).
Proof.
  assert (Hm : forall m e m' e', match Z.compare e' e with Lt => Lt | Gt => Gt | Eq => Pos.compare_cont Eq m' m end
    = CompOpp match Z.compare e e' with Lt => Lt | Gt => Gt | Eq => Pos.compare_cont Eq m m' end).
  { intros m e m' e'. rewrite (Z.compare_antisym e e'). destruct (Z.compare e e'); cbn; try done. apply Pos.compare_antisym. }
  assert (Hn : forall m e m' e', match Z.compare e' e with Lt => Gt | Gt => Lt | Eq => CompOpp (Pos.compare_cont Eq m' m) end
    = CompOpp match Z.compare e e' with Lt => Gt | Gt => Lt | Eq => CompOpp (Pos.compare_cont Eq m m') end).
  { intros m e m' e'. rewrite (Z.compare_antisym e e'). destruct (Z.compare e e'); cbn; try done. f_equal. apply Pos.compare_antisym. }
  destruct x as [[]|[]| |[] m e], y as [[]|[]| |[] m' e']; cbn; intros Hx Hy; try done;
    (eexists; split; [reflexivity|]); first [reflexivity|f_equal; apply Hm|f_equal; apply Hn].
Qed.

Lemma ltb_false_leb x y : is_nan x = false -> is_nan y = false -> f64_ltb x y = false -> f64_leb y x = true.
Proof.
  intros Hx Hy. destruct (compare_swap x y Hx Hy) as (c & Hc & Hc'). unfold f64_ltb, f64_leb, SFltb, SFleb.
  rewrite Hc, Hc'. by destruct c.
Qed.

Lemma f64_leb_refl x : is_nan x = false -> f64_leb x x = true.
Proof.
  intros Hx. unfold f64_leb, SFleb. destruct x as [[]|[]| |[] m e]; cbn; try done.
  all: rewrite Z.compare_refl; change (Pos.compare_cont Eq m m) with (Pos.compare m m); by rewrite Pos.compare_refl.
Qed.

(** A clamped number is within the bounds. *)
Lemma clamp_within x low high : is_nan x = false -> is_nan low = false -> is_nan high = false -> f64_leb low high = true ->
  f64_leb low (f64_clamp x low high) = true /\ f64_leb (f64_clamp x low high) high = true.
Proof.
  intros Hx Hl Hh Hle. unfold f64_clamp. set (x' := if f64_ltb x low then low else x).
  assert (Hx' : is_nan x' = false /\ f64_leb low x' = true).
  { unfold x'. destruct (f64_ltb x low) eqn:Hlt; (split; [done|]); [by apply f64_leb_refl|by apply ltb_false_leb]. }
  destruct Hx' as [Hn Hlow]. destruct (f64_ltb high x') eqn:Hlt; [split; [done|by apply f64_leb_refl]|].
  split; [done|by apply ltb_false_leb].
Qed.

Lemma max_zero x : valid x -> nonneg (f64_max x f64_zero) \/ f64_max x f64_zero = S754_infinity false.
Proof. destruct x as [[]|[]| |[] m e]; intros Hx; cbn; (by right) || (left; by split). Qed.

Lemma nonneg_finite x : nonneg x -> f64_is_finite x = true.
Proof. destruct x as [| | |[] m e]; by intros [_ ?]. Qed.

Lemma of_Z_finite a : 0 < a < 2 ^ 900 -> exists m e, f64_of_Z a = S754_finite false m e.
Proof.
  intros Ha. destruct (of_Z_spec a Ha) as ([_ Hn] & k & r & Hk & Hu & Hr & _ & Hbig). pose proof unit_one_pos.
  destruct (f64_of_Z a) as [| | |[] m e]; try done; [exfalso|eauto]. cbn [units] in Hu.
  assert (0 < 2 ^ k) by (apply Z.pow_pos_nonneg; lia). assert (0 < r); [|nia].
  destruct (Z.eq_dec k 0) as [->|]; [rewrite Z.pow_0_r, Z.div_1_r in Hr; lia|]. specialize (Hbig ltac:(lia)). lia.
Qed.
