(* ===== verification/TickSync.v ===== *)
(** * Tick synchronisation: [crates/elura-netcode/src/tick_sync.rs]

    The estimator a client keeps of the server's tick, from probes that measure the round trip.  Durations are
    nanoseconds. *)

From S2P Require Import Prelude Float64 Float64Facts NetcodeInput.

Record TickSyncConfig : Type := {
  tick_rate : Z;
  input_delay_ticks : Z;
  smoothing : f64;
  max_round_trip_time : Z;
  max_offset_correction_ticks : f64;
}.

Definition TickSyncConfig_default : TickSyncConfig :=
  {| tick_rate := 30; input_delay_ticks := 2; smoothing := f64_div (f64_of_Z 1) (f64_of_Z 5);
     max_round_trip_time := 2 * 1000000000; max_offset_correction_ticks := f64_of_Z 4 |}.

Definition TickSyncConfig_validate (self : TickSyncConfig) : NetcodeResult unit :=
  if negb ((1 <=? self.(tick_rate)) && (self.(tick_rate) <=? 240)) then Err (InvalidConfig "Tick rate must be within 1..=240")
  else if negb (f64_is_finite self.(smoothing)) || f64_leb self.(smoothing) f64_zero || f64_ltb f64_one self.(smoothing) then
    Err (InvalidConfig "Tick smoothing must be within 0.0..=1.0")
  else if self.(max_round_trip_time) =? 0 then Err (InvalidConfig "maximum round-trip time must be positive")
  else if negb (f64_is_finite self.(max_offset_correction_ticks)) || f64_leb self.(max_offset_correction_ticks) f64_zero then
    Err (InvalidConfig "maximum Tick correction must be finite and positive")
  else Ok ().

Record TickSyncRequest : Type := {
  request_sequence : Z;
  request_client_sent_at : Z;
}.

Record TickSyncResponse : Type := {
  sequence : Z;
  client_sent_at : Z;
  server_received_at : Z;
  server_sent_at : Z;
  server_tick : Z;
}.

Record TickSyncSample : Type := {
  local_tick : f64;
  sample_server_tick : Z;
  sample_client_sent_at : Z;
  client_received_at : Z;
  server_processing_time : Z;
}.

(** [Duration::checked_sub]. *)
Definition checked_sub (a b : Z) : option Z := if a <? b then None else Some (a - b).

Definition TickSyncResponse_sample (self : TickSyncResponse) (request : TickSyncRequest) (client_received_at : Z)
    (local_tick : f64) : NetcodeResult TickSyncSample :=
  if negb (self.(sequence) =? request.(request_sequence)) || negb (self.(client_sent_at) =? request.(request_client_sent_at)) then
    Err (InvalidSample "Tick response does not match its request")
  else
    let? server_processing_time :=
      ok_or (checked_sub self.(server_sent_at) self.(server_received_at)) (InvalidSample "server send time precedes receive time") in
    Ok {| local_tick := local_tick; sample_server_tick := self.(server_tick);
          sample_client_sent_at := request.(request_client_sent_at); client_received_at := client_received_at;
          server_processing_time := server_processing_time |}.

Record TickSyncReport : Type := {
  round_trip_time : Z;
  network_round_trip_time : Z;
  one_way_delay : Z;
  raw_offset_ticks : f64;
  report_offset_ticks : f64;
  estimated_server_tick : f64;
  recommended_input_tick : Z;
}.

Record TickSynchronizer : Type := {
  config : TickSyncConfig;
  offset_ticks : f64;
  smoothed_network_rtt_seconds : f64;
  samples : Z;
}.

Definition TickSynchronizer_new (config : TickSyncConfig) : NetcodeResult TickSynchronizer :=
  let? _ := TickSyncConfig_validate config in
  Ok {| config := config; offset_ticks := f64_zero; smoothed_network_rtt_seconds := f64_zero; samples := 0 |}.

Definition TickSynchronizer_estimate_server_tick (self : TickSynchronizer) (local_tick : f64) : f64 :=
  if negb (f64_is_finite local_tick) then f64_zero else f64_max (f64_add local_tick self.(offset_ticks)) f64_zero.

Definition TickSynchronizer_recommended_input_tick (self : TickSynchronizer) (local_tick : f64) : Z :=
  let estimated := f64_floor (TickSynchronizer_estimate_server_tick self local_tick) in
  let current := if f64_leb (f64_of_Z u64_max) estimated then u64_max else f64_as 0 u64_max estimated in
  saturating_add u64_max (saturating_add u64_max current self.(config).(input_delay_ticks)) 1.

(** The offset after a sample that is not the first. *)
Definition corrected_offset (self : TickSynchronizer) (raw_offset_ticks : f64) : f64 :=
  let correction := f64_clamp (f64_sub raw_offset_ticks self.(offset_ticks))
                      (f64_neg self.(config).(max_offset_correction_ticks)) self.(config).(max_offset_correction_ticks) in
  f64_add self.(offset_ticks) (f64_mul correction self.(config).(smoothing)).

(** [observe]; [None] where the conversion of the delay to a duration panics. *)
Definition TickSynchronizer_observe (self : TickSynchronizer) (sample : TickSyncSample) :
    option (NetcodeResult TickSyncReport) * TickSynchronizer :=
  if negb (f64_is_finite sample.(local_tick)) || f64_ltb sample.(local_tick) f64_zero then
    (Some (Err (InvalidSample "local Tick must be finite and non-negative")), self)
  else
    match checked_sub sample.(client_received_at) sample.(sample_client_sent_at) with
    | None => (Some (Err (InvalidSample "client receive time precedes send time")), self)
    | Some round_trip_time =>
        match checked_sub round_trip_time sample.(server_processing_time) with
        | None => (Some (Err (InvalidSample "server processing exceeds total round-trip time")), self)
        | Some network_round_trip_time =>
            if self.(config).(max_round_trip_time) <? network_round_trip_time then
              (Some (Err (InvalidSample "network round-trip time exceeds the configured maximum")), self)
            else
              let network_seconds := as_secs_f64 network_round_trip_time in
              let one_way_seconds := f64_div network_seconds (f64_of_Z 2) in
              let estimated_server_tick :=
                f64_add (f64_of_Z sample.(sample_server_tick)) (f64_mul one_way_seconds (f64_of_Z self.(config).(tick_rate))) in
              let raw_offset_ticks := f64_sub estimated_server_tick sample.(local_tick) in
              let self' :=
                {| config := self.(config);
                   offset_ticks := if self.(samples) =? 0 then raw_offset_ticks else corrected_offset self raw_offset_ticks;
                   smoothed_network_rtt_seconds :=
                     if self.(samples) =? 0 then network_seconds
                     else f64_add self.(smoothed_network_rtt_seconds)
                            (f64_mul (f64_sub network_seconds self.(smoothed_network_rtt_seconds)) self.(config).(smoothing));
                   samples := saturating_add u64_max self.(samples) 1 |} in
              match from_secs_f64 one_way_seconds with
              | None => (None, self')
              | Some one_way_delay =>
                  (Some (Ok {| round_trip_time := round_trip_time; network_round_trip_time := network_round_trip_time;
                               one_way_delay := one_way_delay; raw_offset_ticks := raw_offset_ticks;
                               report_offset_ticks := self'.(offset_ticks);
                               estimated_server_tick := TickSynchronizer_estimate_server_tick self' sample.(local_tick);
                               recommended_input_tick := TickSynchronizer_recommended_input_tick self' sample.(local_tick) |}),
                   self')
              end
        end
    end.

(** [None] before the first sample, [Some None] where the conversion panics. *)
Definition TickSynchronizer_network_round_trip_time (self : TickSynchronizer) : option (option Z) :=
  if 0 <? self.(samples) then Some (from_secs_f64 (f64_max self.(smoothed_network_rtt_seconds) f64_zero)) else None.

(** ** Properties *)

Lemma neg_clamp_valid x c : valid x -> valid c -> valid (f64_clamp x (f64_neg c) c).
Proof. intros Hx Hc. unfold f64_clamp. destruct (f64_ltb x _), (f64_ltb c _); try done; by destruct c. Qed.

(** The estimate is a number of the format, never negative. *)
Lemma estimate_nonneg self t : valid t -> valid self.(offset_ticks) ->
  nonneg (TickSynchronizer_estimate_server_tick self t) \/ TickSynchronizer_estimate_server_tick self t = S754_infinity false.
Proof.
  intros Ht Ho. unfold TickSynchronizer_estimate_server_tick. destruct (negb _); [left; by split|]. by apply max_zero, f64_add_valid.
Qed.

(** An accepted sample keeps the offset a number of the format; a refused one changes nothing. *)
Theorem observe_sound self sample r self' :
  valid self.(config).(smoothing) -> valid self.(config).(max_offset_correction_ticks) ->
  valid sample.(local_tick) -> valid self.(offset_ticks) ->
  TickSynchronizer_observe self sample = (r, self') ->
  self'.(config) = self.(config) /\ valid self'.(offset_ticks)
  /\ match r with
     | Some (Err _) => self' = self
     | _ => self'.(samples) = saturating_add u64_max self.(samples) 1
     end
  /\ match r with
     | Some (Ok report) =>
         report.(network_round_trip_time) <= self.(config).(max_round_trip_time)
         /\ report.(estimated_server_tick) = TickSynchronizer_estimate_server_tick self' sample.(local_tick)
         /\ (self.(samples) = 0 -> report.(report_offset_ticks) = report.(raw_offset_ticks))
     | _ => True
     end.
Proof.
  intros Hs Hm Ht Ho. unfold TickSynchronizer_observe. destruct (_ || _); [by intros [= <- <-]|].
  destruct (checked_sub (client_received_at sample) _) as [rtt|]; [|by intros [= <- <-]].
  destruct (checked_sub rtt _) as [net|]; [|by intros [= <- <-]].
  destruct (Z.ltb_spec (max_round_trip_time (config self)) net) as [|Hle]; [by intros [= <- <-]|]. cbv zeta.
  set (raw := f64_sub _ (local_tick sample)).
  assert (Hraw : valid raw).
  { apply f64_sub_valid; [|done]. apply f64_add_valid; [apply f64_of_Z_valid|]. apply f64_mul_valid; [|apply f64_of_Z_valid].
    apply f64_div_valid; [|apply f64_of_Z_valid]. apply f64_add_valid; [apply f64_of_Z_valid|]. apply f64_div_valid; apply f64_of_Z_valid. }
  assert (Hoff : valid (if samples self =? 0 then raw else corrected_offset self raw)).
  { destruct (_ =? 0); [done|]. apply f64_add_valid; [done|]. apply f64_mul_valid; [|done]. apply neg_clamp_valid; [by apply f64_sub_valid|done]. }
  destruct (from_secs_f64 _); intros [= <- <-]; cbn [config offset_ticks samples]; split_and!; try done.
  cbn [report_offset_ticks raw_offset_ticks offset_ticks]. by intros ->.
Qed.

(** The tick recommended for an input is past the estimated tick of the server by the configured delay, and never
    wraps, where the estimate is a tick. *)
Theorem recommended_tick_ahead self t :
  let estimate := TickSynchronizer_estimate_server_tick self t in
  let tick := TickSynchronizer_recommended_input_tick self t in
  valid t -> valid self.(offset_ticks) -> 0 <= self.(config).(input_delay_ticks) ->
  f64_is_finite estimate = true -> units estimate <= u64_max * unit_one ->
  tick <= u64_max /\ (tick < u64_max -> units estimate < (tick - self.(config).(input_delay_ticks)) * unit_one
                                        /\ (tick - self.(config).(input_delay_ticks) - 1) * unit_one <= units estimate).
Proof.
  intros estimate tick Ht Ho Hd Hf Hle. unfold tick, TickSynchronizer_recommended_input_tick, saturating_add. split; [lia|].
  fold estimate. destruct (estimate_nonneg self t Ht Ho) as [Hn|Hinf]; [fold estimate in Hn|unfold estimate in Hf; by rewrite Hinf in Hf].
  pose proof unit_one_pos as Hone. assert (Hfl : units estimate / unit_one <= u64_max) by (apply Z.div_le_upper_bound; lia).
  destruct (f64_leb _ _); [lia|]. rewrite (floor_as u64_max estimate Hn Hfl) by (vm_compute; done).
  pose proof (Z.div_mod (units estimate) unit_one ltac:(lia)). pose proof (Z.mod_pos_bound (units estimate) unit_one Hone).
  set (q := units estimate / unit_one) in *. clearbody q. intros Htick.
  replace (Z.min (Z.min (q + _) u64_max + 1) u64_max) with (q + input_delay_ticks (config self) + 1) by lia. nia.
Qed.

Example tick_sync_example :
  let sync := {| config := TickSyncConfig_default; offset_ticks := f64_zero; smoothed_network_rtt_seconds := f64_zero; samples := 0 |} in
  let sample := {| local_tick := f64_of_Z 10; sample_server_tick := 100; sample_client_sent_at := 0;
                   client_received_at := 200000000; server_processing_time := 0 |} in
  match TickSynchronizer_observe sync sample with
  | (Some (Ok report), sync) =>
      report.(report_offset_ticks) = f64_of_Z 93 /\ report.(one_way_delay) = 100000000 /\ report.(recommended_input_tick) = 106
      /\ sync.(samples) = 1
  | _ => False
  end.
Proof. vm_compute. done. Qed.
