(* ===== verification/Interpolation.v ===== *)
(** * Interpolation of remote states: [crates/elura-netcode/src/interpolation.rs]

    The buffer of authoritative states a client renders from: it keeps the newest ticks in order, adapts the
    delay it renders with to the arrivals, and selects the two states around a point in time.  Durations are
    nanoseconds.  The search in a [VecDeque] whose keys increase strictly has one answer, that of the search in
    the list. *)

From S2P Require Import Prelude Float64 Float64Facts NetcodeInput.

Record InterpolationConfig : Type := {
  tick_rate : Z;
  capacity : Z;
  base_delay_ticks : f64;
  min_delay_ticks : f64;
  max_delay_ticks : f64;
  smoothing : f64;
  jitter_multiplier : f64;
  late_sample_penalty_ticks : f64;
  max_adjustment_per_sample_ticks : f64;
}.

Definition InterpolationConfig_default : InterpolationConfig :=
  {| tick_rate := 30; capacity := 128; base_delay_ticks := f64_of_Z 2; min_delay_ticks := f64_of_Z 1;
     max_delay_ticks := f64_of_Z 8; smoothing := f64_div (f64_of_Z 1) (f64_of_Z 10); jitter_multiplier := f64_of_Z 2;
     late_sample_penalty_ticks := f64_of_Z 2; max_adjustment_per_sample_ticks := f64_div (f64_of_Z 1) (f64_of_Z 4) |}.

Definition delay_values (self : InterpolationConfig) : list f64 :=
  [self.(base_delay_ticks); self.(min_delay_ticks); self.(max_delay_ticks); self.(smoothing); self.(jitter_multiplier);
   self.(late_sample_penalty_ticks); self.(max_adjustment_per_sample_ticks)].

Definition InterpolationConfig_validate (self : InterpolationConfig) : NetcodeResult unit :=
  if negb ((1 <=? self.(tick_rate)) && (self.(tick_rate) <=? 240)) || (self.(capacity) <? 2) then
    Err (InvalidConfig "interpolation Tick rate or capacity is invalid")
  else if existsb (fun value => negb (f64_is_finite value) || f64_ltb value f64_zero) (delay_values self)
          || f64_leb self.(smoothing) f64_zero || f64_ltb f64_one self.(smoothing)
          || f64_ltb self.(base_delay_ticks) self.(min_delay_ticks)
          || f64_ltb self.(max_delay_ticks) self.(base_delay_ticks)
          || f64_eqb self.(max_adjustment_per_sample_ticks) f64_zero then
    Err (InvalidConfig "interpolation delay parameters are invalid")
  else Ok ().

Inductive InterpolationInsert : Type := Newest | Late | Replaced.

Record InterpolationStats : Type := {
  stat_jitter_ticks : f64;
  late_sample_pressure : f64;
  stat_delay_ticks : f64;
  stat_late_samples : Z;
  stat_replaced_samples : Z;
}.

Section Buffer.
Context {S : Type}.

Record InterpolationSample : Type := {
  render_tick : f64;
  previous_tick : Z;
  previous : S;
  next_tick : Z;
  next : S;
  alpha : f64;
  holding_newest : bool;
}.

Record InterpolationBuffer : Type := {
  config : InterpolationConfig;
  states : list (Z * S);
  last_arrival : option Z;
  last_newest : option (Z * Z);
  jitter_ticks : f64;
  late_pressure : f64;
  delay_ticks : f64;
  late_samples : Z;
  replaced_samples : Z;
}.

Definition InterpolationBuffer_new (config : InterpolationConfig) : NetcodeResult InterpolationBuffer :=
  let? _ := InterpolationConfig_validate config in
  Ok {| config := config; states := []; last_arrival := None; last_newest := None; jitter_ticks := f64_zero;
        late_pressure := f64_zero; delay_ticks := config.(base_delay_ticks); late_samples := 0; replaced_samples := 0 |}.

(** The smoothed jitter after the arrival of a newest state. *)
Definition newest_jitter (self : InterpolationBuffer) (tick arrived_at : Z) : f64 :=
  match self.(last_newest) with
  | Some (previous_tick, previous_arrival) =>
      let tick_gap := saturating_sub tick previous_tick in
      if 0 <? tick_gap then
        let rate := f64_of_Z self.(config).(tick_rate) in
        let actual := as_secs_f64 (saturating_sub arrived_at previous_arrival) in
        let expected := f64_div (f64_of_Z tick_gap) rate in
        let variation_ticks := f64_mul (f64_abs (f64_sub actual expected)) rate in
        f64_add self.(jitter_ticks) (f64_mul (f64_sub variation_ticks self.(jitter_ticks)) self.(config).(smoothing))
      else self.(jitter_ticks)
  | None => self.(jitter_ticks)
  end.

(** The delay after an arrival with the given jitter and pressure. *)
Definition adapted_delay (self : InterpolationBuffer) (jitter pressure : f64) : f64 :=
  let c := self.(config) in
  let target_delay :=
    f64_clamp (f64_add (f64_add c.(base_delay_ticks) (f64_mul jitter c.(jitter_multiplier)))
                 (f64_mul pressure c.(late_sample_penalty_ticks)))
      c.(min_delay_ticks) c.(max_delay_ticks) in
  let adjustment := f64_clamp (f64_sub target_delay self.(delay_ticks))
                      (f64_neg c.(max_adjustment_per_sample_ticks)) c.(max_adjustment_per_sample_ticks) in
  f64_add self.(delay_ticks) adjustment.

(** [pop_front] of a buffer above its capacity. *)
Definition pop_excess (capacity : Z) (l : list (Z * S)) : list (Z * S) := if capacity <? len l then tail l else l.

Definition InterpolationBuffer_insert (self : InterpolationBuffer) (tick : Z) (state : S) (arrived_at : Z) :
    NetcodeResult InterpolationInsert * InterpolationBuffer :=
  if tick =? 0 then (Err (InvalidInput "interpolation state Tick must be positive"), self)
  else if match self.(last_arrival) with Some last => arrived_at <? last | None => false end then
    (Err (InvalidSample "interpolation arrival time moved backwards"), self)
  else
    let newest := fst <$> last self.(states) in
    let state_index := binary_search_by_key fst self.(states) tick in
    let disposition :=
      match state_index with
      | Ok _ => Replaced
      | Err _ => if match newest with Some newest => tick <? newest | None => false end then Late else Newest
      end in
    let late_pressure :=
      f64_add self.(late_pressure)
        (f64_mul (f64_sub (f64_of_Z match disposition with Late => 1 | _ => 0 end) self.(late_pressure)) self.(config).(smoothing)) in
    let jitter_ticks := match disposition with Newest => newest_jitter self tick arrived_at | _ => self.(jitter_ticks) end in
    (Ok disposition,
     {| config := self.(config);
        states := pop_excess self.(config).(capacity)
                    match state_index with
                    | Ok index => <[index := (tick, state)]> self.(states)
                    | Err index => take index self.(states) ++ (tick, state) :: drop index self.(states)
                    end;
        last_arrival := Some arrived_at;
        last_newest := match disposition with Newest => Some (tick, arrived_at) | _ => self.(last_newest) end;
        jitter_ticks := jitter_ticks; late_pressure := late_pressure; delay_ticks := adapted_delay self jitter_ticks late_pressure;
        late_samples := match disposition with Late => saturating_add u64_max self.(late_samples) 1 | _ => self.(late_samples) end;
        replaced_samples :=
          match disposition with Replaced => saturating_add u64_max self.(replaced_samples) 1 | _ => self.(replaced_samples) end |}).

(** A sample that holds one state. *)
Definition hold (render_tick : f64) (entry : Z * S) (holding_newest : bool) : InterpolationSample :=
  {| render_tick := render_tick; previous_tick := entry.1; previous := entry.2; next_tick := entry.1; next := entry.2;
     alpha := f64_zero; holding_newest := holding_newest |}.

(** The blend factor of two states. *)
Definition blend (render_tick : f64) (previous_tick next_tick : Z) : f64 :=
  let span := saturating_sub next_tick previous_tick in
  if span =? 0 then f64_zero
  else f64_clamp (f64_div (f64_sub render_tick (f64_of_Z previous_tick)) (f64_of_Z span)) f64_zero f64_one.

(** [sample]; [None] where an index is out of range or falls below zero and the code panics. *)
Definition InterpolationBuffer_sample (self : InterpolationBuffer) (estimated_server_tick : f64) :
    option (NetcodeResult InterpolationSample) :=
  if negb (f64_is_finite estimated_server_tick) || f64_ltb estimated_server_tick f64_zero then
    Some (Err (InvalidSample "estimated server Tick must be finite and non-negative"))
  else
    match head self.(states), last self.(states) with
    | Some oldest, Some newest =>
        let render_tick := f64_max (f64_sub estimated_server_tick self.(delay_ticks)) f64_zero in
        if f64_leb render_tick (f64_of_Z oldest.1) then Some (Ok (hold render_tick oldest false))
        else if f64_leb (f64_of_Z newest.1) render_tick then
          Some (Ok (hold render_tick newest (f64_ltb (f64_of_Z newest.1) render_tick)))
        else
          let previous_bound := f64_as 0 u64_max (f64_floor render_tick) in
          let next_bound := f64_as 0 u64_max (f64_ceil render_tick) in
          let previous_index :=
            match binary_search_by_key fst self.(states) previous_bound with
            | Ok index => Some index
            | Err O => None
            | Err (Datatypes.S index) => Some index
            end in
          let next_index := match binary_search_by_key fst self.(states) next_bound with Ok index | Err index => index end in
          match previous_index ≫= (fun index => self.(states) !! index), self.(states) !! next_index with
          | Some (previous_tick, previous), Some (next_tick, next) =>
              Some (Ok {| render_tick := render_tick; previous_tick := previous_tick; previous := previous;
                          next_tick := next_tick; next := next; alpha := blend render_tick previous_tick next_tick;
                          holding_newest := false |})
          | _, _ => None
          end
    | _, _ => Some (Err InterpolationBufferEmpty)
    end.

Definition InterpolationBuffer_stats (self : InterpolationBuffer) : InterpolationStats :=
  {| stat_jitter_ticks := self.(jitter_ticks); late_sample_pressure := self.(late_pressure);
     stat_delay_ticks := self.(delay_ticks); stat_late_samples := self.(late_samples);
     stat_replaced_samples := self.(replaced_samples) |}.

Definition InterpolationBuffer_len (self : InterpolationBuffer) : Z := len self.(states).
Definition InterpolationBuffer_is_empty (self : InterpolationBuffer) : bool := match self.(states) with [] => true | _ => false end.

Definition InterpolationBuffer_reset (self : InterpolationBuffer) : InterpolationBuffer :=
  {| config := self.(config); states := []; last_arrival := None; last_newest := None; jitter_ticks := f64_zero;
     late_pressure := f64_zero; delay_ticks := self.(config).(base_delay_ticks); late_samples := 0; replaced_samples := 0 |}.
End Buffer.
Arguments InterpolationSample : clear implicits.
Arguments InterpolationBuffer : clear implicits.

(** ** What the buffer holds *)
Section Contents.
Context {S : Type}.
Implicit Types (l : list (Z * S)) (m : gmap Z S) (b : InterpolationBuffer S).

Definition place l (tick : Z) (state : S) : list (Z * S) :=
  match binary_search_by_key fst l tick with
  | Ok index => <[index := (tick, state)]> l
  | Err index => take index l ++ (tick, state) :: drop index l
  end.

Lemma place_replaced l tick state i x : increasing fst l -> l !! i = Some x -> x.1 = tick ->
  increasing fst (<[i := (tick, state)]> l)
  /\ (forall p, p ∈ <[i := (tick, state)]> l <-> p = (tick, state) \/ (p ∈ l /\ p.1 <> tick)).
Proof.
  intros Hinc Hi Hx. split.
  - rewrite increasing_fmap, list_fmap_insert, list_insert_id, <-increasing_fmap; [done|]. by rewrite list_lookup_fmap, Hi, <-Hx.
  - intros p. rewrite !list_elem_of_lookup. split.
    + intros [j Hj]. destruct (decide (j = i)) as [->|Hne].
      * rewrite list_lookup_insert_eq in Hj by (by eapply lookup_lt_Some). left. congruence.
      * rewrite list_lookup_insert_ne in Hj by done. right. split; [eauto|]. intros Hp.
        destruct (Nat.lt_total j i) as [Hlt|[?|Hlt]]; [|done|].
        -- pose proof (increasing_lookup fst l j i p x Hinc Hj Hi Hlt). lia.
        -- pose proof (increasing_lookup fst l i j x p Hinc Hi Hj Hlt). lia.
    + intros [->|[[j Hj] Hp]]; [exists i; apply list_lookup_insert_eq; by eapply lookup_lt_Some|].
      exists j. rewrite list_lookup_insert_ne; [done|]. intros ->. congruence.
Qed.

Lemma place_inserted l tick (state : S) i : increasing fst l -> binary_search_by_key fst l tick = Err i ->
  increasing fst (take i l ++ (tick, state) :: drop i l)
  /\ (forall p, p ∈ take i l ++ (tick, state) :: drop i l <-> p = (tick, state) \/ (p ∈ l /\ p.1 <> tick))
  /\ len (take i l ++ (tick, state) :: drop i l) = len l + 1.
Proof.
  intros Hinc Hs. destruct (binary_search_by_key_position fst l tick i Hinc Hs) as [Hi Hpos].
  assert (Htake : forall p, p ∈ take i l -> p.1 < tick).
  { intros p (j & Hj & Hlt)%elem_of_take. by apply (Hpos j). }
  assert (Hdrop : forall p, p ∈ drop i l -> tick < p.1).
  { intros p (j & Hj)%list_elem_of_lookup. rewrite lookup_drop in Hj. apply (Hpos _ _ Hj). lia. }
  split_and!.
  - unfold increasing. apply StronglySorted_app. split_and!.
    + intros p p' Hp [->|Hp']%elem_of_cons; cbn; [auto|]. specialize (Htake _ Hp). specialize (Hdrop _ Hp'). lia.
    + apply (increasing_app_l fst _ (drop i l)). by rewrite take_drop.
    + apply increasing_cons. split; [by apply Forall_forall|by apply (increasing_drop fst)].
  - intros p. rewrite elem_of_app, elem_of_cons. rewrite <-(take_drop i l) at 3. rewrite elem_of_app. split.
    + intros [Hp|[Hp|Hp]]; [right|by left|right]; (split; [auto|]); [specialize (Htake _ Hp)|specialize (Hdrop _ Hp)]; lia.
    + intros [->|[[Hp|Hp] _]]; auto.
  - rewrite len_app, len_cons. rewrite <-(take_drop i l) at 3. rewrite len_app. lia.
Qed.

Lemma place_spec l tick state : increasing fst l ->
  increasing fst (place l tick state)
  /\ (forall p, p ∈ place l tick state <-> p = (tick, state) \/ (p ∈ l /\ p.1 <> tick))
  /\ (len (place l tick state) = len l + 1
      \/ (len (place l tick state) = len l /\ exists s, (tick, s) ∈ l)).
Proof.
  intros Hinc. unfold place. pose proof (binary_search_by_key_spec fst l tick Hinc) as Hs.
  destruct (binary_search_by_key fst l tick) as [i|i] eqn:E.
  - destruct Hs as (x & Hi & Hx). destruct (place_replaced l tick state i x Hinc Hi Hx). split_and!; try done.
    right. unfold len. rewrite length_insert. split; [done|]. exists x.2. apply list_elem_of_lookup. exists i. rewrite Hi, <-Hx. by destruct x.
  - destruct (place_inserted l tick state i Hinc E) as (? & ? & ?). auto.
Qed.

(** The newest ticks of the states received, each with the state received last. *)
Record holds_newest (cap : Z) m l : Prop := {
  held_order : increasing fst l;
  held_bound : len l <= cap;
  held_last : forall t s, (t, s) ∈ l -> m !! t = Some s;
  held_newest : forall t s, m !! t = Some s -> (t, s) ∈ l \/ (len l = cap /\ Forall (fun p => t < p.1) l);
}.

Lemma placed_holds cap m l tick state : 2 <= cap -> holds_newest cap m l ->
  holds_newest cap (<[tick := state]> m) (pop_excess cap (place l tick state)).
Proof.
  intros Hcap [Hinc Hb Hlast Hnew]. destruct (place_spec l tick state Hinc) as (Hinc' & Hel & Hlen).
  set (l' := place l tick state) in *. clearbody l'.
  assert (Hl' : forall t s, (t, s) ∈ l' -> <[tick := state]> m !! t = Some s).
  { intros t s Hp. apply Hel in Hp as [[= -> ->]|[Hp Hne]]; [apply lookup_insert_eq|]. rewrite lookup_insert_ne by done. auto. }
  assert (Hm' : forall t s, <[tick := state]> m !! t = Some s ->
    (t, s) ∈ l' \/ (len l = cap /\ t <> tick /\ Forall (fun p => t < p.1) l)).
  { intros t s [[<- <-]|[Hne Hm]]%lookup_insert_Some; [left; apply Hel; by left|].
    destruct (Hnew t s Hm) as [Hp|[Hc Hall]]; [left; apply Hel; by right|by right]. }
  unfold pop_excess. destruct (Z.ltb_spec cap (len l')) as [Hover|Hfit].
  - destruct l' as [|p l']; [rewrite len_nil in Hover; lia|]. cbn [tail]. apply increasing_cons in Hinc' as [Hp Hinc'].
    rewrite len_cons in *. assert (Hfull : len l' = cap) by lia. constructor; [done|lia| |].
    + intros t s Ht. apply Hl'. by right.
    + intros t s [Ht|(Hc & Hne & Hall)]%Hm'.
      * apply elem_of_cons in Ht as [<-|Ht]; [|by left]. right. by split.
      * right. split; [done|]. apply Forall_forall. intros p' Hp'. rewrite Forall_forall in Hp, Hall.
        destruct (Hel p') as [Hp'' _]. destruct Hp'' as [->|[Hin _]]; [by right| |by apply Hall]. cbn.
        destruct (Hel p) as [Hp1 _]. destruct Hp1 as [->|[Hin _]]; [by left|specialize (Hp _ Hp'); cbn in Hp; lia|].
        specialize (Hp _ Hp'). specialize (Hall _ Hin). cbn in *. lia.
  - constructor; [done|done|done|]. intros t s [Ht|(Hc & Hne & Hall)]%Hm'; [by left|]. right.
    destruct Hlen as [Hlen|(Hlen & s' & Hs')]; [lia|]. split; [lia|]. rewrite Forall_forall in Hall. apply Forall_forall.
    intros p Hp. apply Hel in Hp as [->|[Hp _]]; [apply (Hall _ Hs')|by apply Hall].
Qed.

(** ** Well-formed buffers *)

Definition config_valid (c : InterpolationConfig) : Prop := Forall valid (delay_values c) /\ 2 <= c.(capacity).

Record buffer_ok m b : Prop := {
  ok_config : config_valid b.(config);
  ok_held : holds_newest b.(config).(capacity) m b.(states);
  ok_ticks : forall t s, m !! t = Some s -> 0 < t <= u64_max;
  ok_floats : valid b.(jitter_ticks) /\ valid b.(late_pressure) /\ valid b.(delay_ticks);
}.

Lemma clamp_valid x low high : valid x -> valid low -> valid high -> valid (f64_clamp x low high).
Proof. intros. unfold f64_clamp. destruct (f64_ltb x low), (f64_ltb high _); done. Qed.

Lemma as_secs_valid n : valid (as_secs_f64 n).
Proof. apply f64_add_valid; [apply f64_of_Z_valid|]. apply f64_div_valid; apply f64_of_Z_valid. Qed.

Lemma abs_valid x : valid x -> valid (f64_abs x).
Proof. by destruct x. Qed.

Lemma neg_valid x : valid x -> valid (f64_neg x).
Proof. by destruct x. Qed.

Lemma newest_jitter_valid b tick arrived_at : config_valid b.(config) -> valid b.(jitter_ticks) -> valid (newest_jitter b tick arrived_at).
Proof.
  intros [Hc _] Hj. assert (Hs : valid b.(config).(smoothing)) by (repeat (apply Forall_cons in Hc as [? Hc]); done).
  unfold newest_jitter. destruct (last_newest b) as [[pt pa]|]; [|done]. destruct (0 <? _); [|done]. cbv zeta.
  apply f64_add_valid; [done|]. apply f64_mul_valid; [|done]. apply f64_sub_valid; [|done]. apply f64_mul_valid; [|apply f64_of_Z_valid].
  apply abs_valid, f64_sub_valid; [apply as_secs_valid|]. apply f64_div_valid; apply f64_of_Z_valid.
Qed.

Lemma adapted_delay_valid b jitter pressure : config_valid b.(config) -> valid jitter -> valid pressure -> valid b.(delay_ticks) ->
  valid (adapted_delay b jitter pressure).
Proof.
  intros [Hc _] Hj Hp Hd. repeat (apply Forall_cons in Hc as [? Hc]). unfold adapted_delay. cbv zeta.
  apply f64_add_valid; [done|]. apply clamp_valid; [|by apply neg_valid|done]. apply f64_sub_valid; [|done].
  apply clamp_valid; [|done|done]. repeat (apply f64_add_valid || apply f64_mul_valid); done.
Qed.

Definition received m (entry : Z * S * Z) (r : NetcodeResult InterpolationInsert) : gmap Z S :=
  match r with Ok _ => <[entry.1.1 := entry.1.2]> m | Err _ => m end.

Lemma insert_ok m b tick state arrived_at r b' : 0 <= tick <= u64_max -> buffer_ok m b ->
  InterpolationBuffer_insert b tick state arrived_at = (r, b') ->
  buffer_ok (received m (tick, state, arrived_at) r) b' /\ b'.(config) = b.(config).
Proof.
  intros Ht Hok. unfold InterpolationBuffer_insert. destruct (Z.eqb_spec tick 0) as [|Hpos]; [by intros [= <- <-]|].
  destruct (match last_arrival b with Some _ => _ | None => _ end); [by intros [= <- <-]|].
  intros [= <- <-]. destruct Hok as [Hc Hheld Hticks (Hj & Hp & Hd)]. cbn [received fst snd]. split; [|done].
  set (disposition := match binary_search_by_key fst (states b) tick with Ok _ => Replaced | Err _ => _ end).
  assert (Hsmooth : valid b.(config).(smoothing)).
  { destruct Hc as [Hc _]. repeat (apply Forall_cons in Hc as [? Hc]). done. }
  assert (Hjitter : valid match disposition with Newest => newest_jitter b tick arrived_at | _ => jitter_ticks b end).
  { destruct disposition; try done. by apply newest_jitter_valid. }
  constructor; cbn [config states jitter_ticks late_pressure delay_ticks]; [done| | |].
  - apply placed_holds; [apply Hc|done].
  - intros t s [[<- _]|[_ Hm]]%lookup_insert_Some; [lia|eauto].
  - assert (Hpress : forall z, valid (f64_add (late_pressure b) (f64_mul (f64_sub (f64_of_Z z) (late_pressure b)) (smoothing (config b))))).
    { intros z. apply f64_add_valid; [done|]. apply f64_mul_valid; [|done]. apply f64_sub_valid; [apply f64_of_Z_valid|done]. }
    split_and!; [done|done|]. by apply adapted_delay_valid.
Qed.

(** ** Selection *)

Lemma search_below l target oldest : increasing fst l -> head l = Some oldest -> oldest.1 <= target ->
  exists i p, match binary_search_by_key fst l target with Ok i => Some i | Err O => None | Err (Datatypes.S i) => Some i end = Some i
    /\ l !! i = Some p /\ p.1 <= target /\ forall p', p' ∈ l -> p'.1 <= target -> p'.1 <= p.1.
Proof.
  intros Hinc Hhead Hle. pose proof (binary_search_by_key_spec fst l target Hinc) as Hs.
  destruct (binary_search_by_key fst l target) as [i|i] eqn:E.
  - destruct Hs as (p & Hp & Heq). exists i, p. split_and!; try done; [lia|]. intros p' _ Hp'. lia.
  - destruct (binary_search_by_key_position fst l target i Hinc E) as [Hi Hpos]. destruct i as [|i].
    { destruct l as [|o l]; [done|]. injection Hhead as ->. destruct (Hpos 0%nat oldest eq_refl) as [_ H]. specialize (H ltac:(lia)). lia. }
    destruct (lookup_lt_is_Some_2 l i ltac:(lia)) as [p Hp]. exists i, p. destruct (Hpos i p Hp) as [H _]. split_and!; try done; [specialize (H ltac:(lia)); lia|].
    intros p' (j & Hj)%list_elem_of_lookup Hp'. destruct (decide (j = i)) as [->|Hne]; [assert (p = p') by congruence; subst; lia|].
    destruct (Nat.lt_total j i) as [Hlt|[?|Hlt]]; [|done|destruct (Hpos j p' Hj) as [_ H']; specialize (H' ltac:(lia)); lia].
    pose proof (increasing_lookup fst l j i p' p Hinc Hj Hp Hlt). lia.
Qed.

Lemma search_above l target newest : increasing fst l -> last l = Some newest -> target <= newest.1 ->
  exists i p, match binary_search_by_key fst l target with Ok i | Err i => i end = i
    /\ l !! i = Some p /\ target <= p.1 /\ forall p', p' ∈ l -> target <= p'.1 -> p.1 <= p'.1.
Proof.
  intros Hinc Hlast Hle. pose proof (binary_search_by_key_spec fst l target Hinc) as Hs.
  destruct (binary_search_by_key fst l target) as [i|i] eqn:E.
  - destruct Hs as (p & Hp & Heq). exists i, p. split_and!; try done; [lia|]. intros p' _ Hp'. lia.
  - destruct (binary_search_by_key_position fst l target i Hinc E) as [Hi Hpos]. rewrite last_lookup in Hlast.
    assert (Hin : (i < length l)%nat).
    { destruct (decide (i = length l)) as [->|]; [|lia]. pose proof (lookup_lt_Some _ _ _ Hlast).
      destruct (Hpos _ _ Hlast) as [Hlt _]. specialize (Hlt ltac:(lia)). lia. }
    destruct (lookup_lt_is_Some_2 l i Hin) as [p Hp]. exists i, p. destruct (Hpos i p Hp) as [_ H]. split_and!; try done; [specialize (H ltac:(lia)); lia|].
    intros p' (j & Hj)%list_elem_of_lookup Hp'. destruct (decide (j = i)) as [->|Hne]; [assert (p = p') by congruence; subst; lia|].
    destruct (Nat.lt_total j i) as [Hlt|[?|Hlt]]; [destruct (Hpos j p' Hj) as [H' _]; specialize (H' ltac:(lia)); lia|done|].
    pose proof (increasing_lookup fst l i j p p' Hinc Hp Hj Hlt). lia.
Qed.

Lemma blend_within render t t' : nonneg render -> 0 < t <= u64_max -> 0 < t' <= u64_max ->
  f64_leb f64_zero (blend render t t') = true /\ f64_leb (blend render t t') f64_one = true.
Proof.
  intros Hr Ht Ht'. unfold blend. cbv zeta. destruct (Z.eqb_spec (saturating_sub t' t) 0) as [|Hspan]; [by split|].
  assert (Hu : u64_max < 2 ^ 900) by (vm_compute; done).
  destruct (of_Z_finite (saturating_sub t' t)) as (m & e & ->); [unfold saturating_sub in *; lia|].
  apply clamp_within; [|done..]. apply f64_div_number, f64_sub_number; [by apply nonneg_finite|].
  apply nonneg_finite, of_Z_spec. lia.
Qed.

(** The render tick lies between the two selected states, or outside of all and the nearest is held. *)
Definition selected l (smp : InterpolationSample S) : Prop :=
  (smp.(previous_tick), smp.(previous)) ∈ l /\ (smp.(next_tick), smp.(next)) ∈ l /\ smp.(previous_tick) <= smp.(next_tick)
  /\ (forall p, p ∈ l -> p.1 <= smp.(previous_tick) \/ smp.(next_tick) <= p.1)
  /\ f64_leb f64_zero smp.(alpha) = true /\ f64_leb smp.(alpha) f64_one = true
  /\ ((smp.(previous_tick) * unit_one <= units smp.(render_tick) <= smp.(next_tick) * unit_one /\ smp.(holding_newest) = false)
      \/ (smp.(previous_tick) = smp.(next_tick)
          /\ (((forall p, p ∈ l -> smp.(next_tick) <= p.1) /\ f64_leb smp.(render_tick) (f64_of_Z smp.(next_tick)) = true
               /\ smp.(holding_newest) = false)
              \/ ((forall p, p ∈ l -> p.1 <= smp.(previous_tick)) /\ f64_leb (f64_of_Z smp.(previous_tick)) smp.(render_tick) = true
                  /\ smp.(holding_newest) = f64_ltb (f64_of_Z smp.(previous_tick)) smp.(render_tick))))).

Lemma not_leb_nonneg x y : nonneg x -> nonneg y -> f64_leb x y = false -> units y < units x.
Proof. intros Hx Hy. rewrite nonneg_leb by done. lia. Qed.

Lemma sample_spec m b est : buffer_ok m b -> b.(states) <> [] -> valid est -> f64_is_finite est = true ->
  f64_ltb est f64_zero = false -> exists smp, InterpolationBuffer_sample b est = Some (Ok smp) /\ selected b.(states) smp.
Proof.
  intros [Hc [Hinc _ Hm _] Hticks (_ & _ & Hd)] Hne Hv Hf Hlt. unfold InterpolationBuffer_sample. rewrite Hf, Hlt. cbn [negb orb].
  assert (Hrange : forall p, p ∈ b.(states) -> 0 < p.1 <= u64_max).
  { intros [t s] Hp. by apply (Hticks t s), Hm. }
  destruct (head b.(states)) as [oldest|] eqn:Hhead; [|by destruct (states b)].
  destruct (last b.(states)) as [newest|] eqn:Hlast; [|by apply last_None in Hlast].
  assert (Ho : oldest ∈ b.(states)) by (destruct (states b); [done|]; injection Hhead as ->; left).
  assert (Hn : newest ∈ b.(states)) by (by apply last_Some_elem_of).
  assert (Hfirst : forall p, p ∈ b.(states) -> oldest.1 <= p.1).
  { destruct (states b) as [|o l]; [done|]. injection Hhead as ->. apply increasing_cons in Hinc as [Hall _]. rewrite Forall_forall in Hall.
    intros p [->|Hp]%elem_of_cons; [done|]. specialize (Hall _ Hp). lia. }
  assert (Hend : forall p, p ∈ b.(states) -> p.1 <= newest.1) by (intros p Hp; by apply (increasing_last fst (states b))).
  cbv zeta. set (render := f64_max (f64_sub est (delay_ticks b)) f64_zero).
  destruct (f64_leb render (f64_of_Z oldest.1)) eqn:Hleo.
  { eexists. split; [done|]. unfold selected, hold. cbn [previous_tick previous next_tick next alpha render_tick holding_newest].
    rewrite <-surjective_pairing. split_and!; try done. { intros p Hp. right. auto. } right. split; [done|]. left. auto. }
  destruct (f64_leb (f64_of_Z newest.1) render) eqn:Hlen.
  { eexists. split; [done|]. unfold selected, hold. cbn [previous_tick previous next_tick next alpha render_tick holding_newest].
    rewrite <-surjective_pairing. split_and!; try done. { intros p Hp. left. auto. } right. split; [done|]. right. auto. }
  destruct (Hrange _ Ho) as [Ho0 Ho1], (Hrange _ Hn) as [Hn0 Hn1]. assert (Hu : u64_max < 2 ^ 800) by (vm_compute; done).
  assert (Hbig : 2 ^ 800 < 2 ^ 900) by (vm_compute; done).
  assert (Hrender : nonneg render).
  { destruct (max_zero (f64_sub est (delay_ticks b))) as [?|Hinf]; [by apply f64_sub_valid|done|]. exfalso.
    destruct (of_Z_finite newest.1) as (mm & e & E); [lia|]. unfold render in Hlen. by rewrite E, Hinf in Hlen. }
  destruct (of_Z_spec oldest.1 ltac:(lia)) as [Hoz _]. destruct (of_Z_spec newest.1 ltac:(lia)) as [Hnz _].
  apply not_leb_nonneg in Hleo; [|done..]. apply not_leb_nonneg in Hlen; [|done..].
  apply of_Z_below in Hleo; [|lia|done]. apply of_Z_above in Hlen; [|lia|done]. pose proof unit_one_pos as Hone.
  assert (Hfl : oldest.1 <= units render / unit_one <= newest.1).
  { split; [apply Z.div_le_lower_bound; lia|]. apply Z.div_le_upper_bound; lia. }
  assert (Hcl : units render / unit_one <= - (- units render / unit_one) <= newest.1
    /\ - (- units render / unit_one) <= units render / unit_one + 1
    /\ units render / unit_one * unit_one <= units render <= - (- units render / unit_one) * unit_one).
  { pose proof (Z.div_mod (units render) unit_one ltac:(lia)). pose proof (Z.mod_pos_bound (units render) unit_one Hone).
    pose proof (Z.div_mod (- units render) unit_one ltac:(lia)). pose proof (Z.mod_pos_bound (- units render) unit_one Hone).
    assert (- newest.1 <= - units render / unit_one) by (apply Z.div_le_lower_bound; lia). nia. }
  destruct Hcl as ([Hcl1 Hcl2] & Hcl3 & Hval).
  rewrite (floor_as u64_max render Hrender ltac:(lia) Hu), (ceil_as u64_max render Hrender ltac:(lia) Hu).
  set (fl := units render / unit_one) in *. set (ce := - (- units render / unit_one)) in *. clearbody fl ce.
  destruct (search_below (states b) fl oldest Hinc Hhead ltac:(lia)) as (i & [t s] & -> & Hi & Hti & Hmaxi).
  destruct (search_above (states b) ce newest Hinc Hlast ltac:(lia)) as (j & [t' s'] & -> & Hj & Htj & Hminj).
  cbn [mbind option_bind]. rewrite Hi, Hj. eexists. split; [done|].
  unfold selected. cbn [previous_tick previous next_tick next alpha render_tick holding_newest fst] in *.
  assert (Hin : (t, s) ∈ states b) by (by eapply list_elem_of_lookup_2).
  assert (Hin' : (t', s') ∈ states b) by (by eapply list_elem_of_lookup_2).
  destruct (blend_within render t t' Hrender (Hrange _ Hin) (Hrange _ Hin')) as [Ha0 Ha1].
  split_and!; try done; [lia| |].
  - intros p Hp. destruct (Z.le_gt_cases p.1 fl); [left; by apply Hmaxi|right]. apply Hminj; [done|lia].
  - left. split; [nia|done].
Qed.

(** ** Runs *)

(** The buffer and the states it accepted after an arrival. *)
Definition arrive (bm : InterpolationBuffer S * gmap Z S) (entry : Z * S * Z) : InterpolationBuffer S * gmap Z S :=
  let '(r, b) := InterpolationBuffer_insert bm.1 entry.1.1 entry.1.2 entry.2 in (b, received bm.2 entry r).

Lemma arrivals_ok entries : forall b m, Forall (fun e => 0 <= e.1.1 <= u64_max) entries -> buffer_ok m b ->
  let '(b', m') := foldl arrive (b, m) entries in buffer_ok m' b' /\ b'.(config) = b.(config).
Proof.
  induction entries as [|[[t s] at_] entries IH]; intros b m Hall Hok; [done|]. apply Forall_cons in Hall as [Ht Hall].
  cbn [foldl]. unfold arrive at 2. cbn [fst snd] in *. destruct (InterpolationBuffer_insert b t s at_) as [r b1] eqn:E.
  destruct (insert_ok m b t s at_ r b1 Ht Hok E) as [Hok1 Hc1]. specialize (IH b1 (received m (t, s, at_) r) Hall Hok1).
  destruct (foldl arrive _ entries) as [b2 m2]. destruct IH as [? Hc2]. split; [done|congruence].
Qed.

Lemma new_ok cfg b : InterpolationBuffer_new cfg = Ok b -> Forall valid (delay_values cfg) -> buffer_ok ∅ b /\ b.(config) = cfg.
Proof.
  unfold InterpolationBuffer_new. destruct (InterpolationConfig_validate cfg) as [[]|] eqn:Hv; [|done]. intros [= <-] Hf. split; [|done].
  assert (Hcap : 2 <= cfg.(capacity)).
  { revert Hv. unfold InterpolationConfig_validate. destruct (_ || _) eqn:E; [done|]. apply orb_false_iff in E as [_ E]. lia. }
  constructor; cbn; [done| |done|].
  - constructor; [apply increasing_nil|rewrite ?len_nil; lia|by intros ? ? ?%elem_of_nil|done].
  - split_and!; try done. by apply Forall_cons in Hf as [? _].
Qed.
End Contents.

(** C28: An interpolation buffer renders from the newest states.  After any arrivals, in any order and with
    duplicates, it holds the newest ticks it accepted, as many as its capacity, in order, each with the state received
    last; and for every finite point in time it answers, without failing: the two states it selects are neighbours,
    the rendered tick lies between them and the blend factor in the unit interval, or it lies outside of the buffer
    and the nearest state is held.  The comparisons are those of binary64, where ticks beyond [2 ^ 53] are rounded. *)
Theorem interpolation_brackets {S : Type} (cfg : InterpolationConfig) (b0 b : InterpolationBuffer S)
    (arrivals : list (Z * S * Z)) (m : gmap Z S) (est : f64) :
  InterpolationBuffer_new cfg = Ok b0 -> Forall valid (delay_values cfg) ->
  Forall (fun e => 0 <= e.1.1 <= u64_max) arrivals -> foldl arrive (b0, ∅) arrivals = (b, m) ->
  valid est -> f64_is_finite est = true -> f64_ltb est f64_zero = false ->
  holds_newest cfg.(capacity) m b.(states)
  /\ (m = ∅ -> InterpolationBuffer_sample b est = Some (Err InterpolationBufferEmpty))
  /\ (m <> ∅ -> exists smp, InterpolationBuffer_sample b est = Some (Ok smp) /\ selected b.(states) smp
        /\ smp.(render_tick) = f64_max (f64_sub est b.(delay_ticks)) f64_zero).
Proof.
  intros Hnew Hcfg Harr Hrun Hv Hf Hpos. destruct (new_ok cfg b0 Hnew Hcfg) as [Hok0 Hc0].
  pose proof (arrivals_ok arrivals b0 ∅ Harr Hok0) as Hok. rewrite Hrun in Hok. destruct Hok as [Hok Hc]. rewrite Hc0 in Hc.
  pose proof (ok_held _ _ Hok) as Hheld. rewrite Hc in Hheld. split_and!; [done| |].
  - intros ->. assert (Hnil : b.(states) = []).
    { destruct (states b) as [|[t s] l] eqn:E; [done|]. pose proof (held_last _ _ _ Hheld t s ltac:(left)). set_solver. }
    unfold InterpolationBuffer_sample. rewrite Hf, Hpos, Hnil. done.
  - intros Hm. assert (Hne : b.(states) <> []).
    { apply map_choose in Hm as (t & s & Hts). destruct (held_newest _ _ _ Hheld t s Hts) as [Hin|[Hl _]].
      - intros E. rewrite E in Hin. set_solver.
      - intros E. rewrite E, len_nil in Hl. destruct (ok_config _ _ Hok) as [_ Hcap]. rewrite Hc in Hcap. lia. }
    destruct (sample_spec m b est Hok Hne Hv Hf Hpos) as (smp & Hs & Hsel). exists smp. split_and!; try done.
    revert Hs. unfold InterpolationBuffer_sample. rewrite Hf, Hpos. cbn [negb orb].
    destruct (head (states b)), (last (states b)); try done. cbv zeta. repeat case_match; by intros [= <-].
Qed.

Module InterpolationExamples.
Definition buffer0 : InterpolationBuffer Z :=
  {| config := InterpolationConfig_default; states := []; last_arrival := None; last_newest := None; jitter_ticks := f64_zero;
     late_pressure := f64_zero; delay_ticks := f64_of_Z 2; late_samples := 0; replaced_samples := 0 |}.

(** Ticks 10 and 12 arrive, then 11 late, then 12 again with another state. *)
Definition sample_arrivals : list (Z * Z * Z) := [(10, 100, 0); (12, 120, 66666666); (11, 110, 70000000); (12, 121, 80000000)].
Definition sample_buffer : InterpolationBuffer Z := (foldl arrive (buffer0, ∅) sample_arrivals).1.
Definition sample_received : gmap Z Z := (foldl arrive (buffer0, ∅) sample_arrivals).2.
Definition sample_time : f64 := f64_div (f64_of_Z 27) (f64_of_Z 2).

(** At 13.5 less the delay it renders between 11 and 12, with the state received last for 12. *)
Lemma interpolation_brackets_witness :
  sample_buffer.(states) = [(10, 100); (11, 110); (12, 121)]
  /\ exists smp, InterpolationBuffer_sample sample_buffer sample_time = Some (Ok smp) /\ selected sample_buffer.(states) smp
     /\ smp.(previous_tick) = 11 /\ smp.(next) = 121.
Proof.
  split; [by vm_compute|].
  destruct (interpolation_brackets InterpolationConfig_default buffer0 sample_buffer sample_arrivals sample_received sample_time)
    as (_ & _ & Hs).
  - by vm_compute.
  - repeat constructor.
  - repeat constructor; vm_compute; done.
  - by vm_compute.
  - by vm_compute.
  - by vm_compute.
  - by vm_compute.
  - destruct Hs as (smp & Hs & Hsel & _); [intros E; vm_compute in E; discriminate|]. exists smp. split_and!; [done|done|..].
    all: vm_compute in Hs; injection Hs as <-; done.
Defined.
End InterpolationExamples.
