(* ===== verification/ClientProtocol.v ===== *)
(** * The protocol of the client SDK: [examples/tiny-network-game/sdk/rust/crates/elura-protocol/src/lib.rs]

    A second, standalone implementation of the ELR2 protocol, for clients: frames, their codec, the messages of the
    framework and session control.  JSON and protobuf are third-party codecs and parameters. *)

From Stdlib Require Import Ascii.
From S2P Require Import Prelude Bytes CoreError Frame.

Definition ELR2_MAGIC : Z := 0x454c5232.
Definition ELR2_VERSION : Z := 2.
Definition ELR2_HEADER_LENGTH : Z := 28.
Definition SDK_DEFAULT_MAX_PAYLOAD : Z := Z.shiftl 1 20.
Definition ABSOLUTE_MAX_PAYLOAD : Z := Z.shiftl 64 20.

(** [EluraRoutes]. *)
Definition AUTHENTICATE : Z := 1.
Definition HEARTBEAT : Z := 2.
Definition RENEW_RECONNECT_TICKET : Z := 3.
Definition SESSION_CONTROL : Z := 4.
Definition FIRST_APPLICATION : Z := 100.

Inductive FrameKind : Type := Request | Response | Push | ErrorKind.

#[export] Instance FrameKind_eq_dec : EqDecision FrameKind.
Proof. solve_decision. Defined.

Definition FrameKind_as_u8 (k : FrameKind) : Z := match k with Request => 1 | Response => 2 | Push => 3 | ErrorKind => 4 end.

(** [Elr2ProtocolError]: its message. *)
Definition Elr2ProtocolError : Type := string.

Abbreviation ProtocolResult := (result Elr2ProtocolError).

Definition FrameKind_try_from (value : Z) : ProtocolResult FrameKind :=
  if value =? 1 then Ok Request
  else if value =? 2 then Ok Response
  else if value =? 3 then Ok Push
  else if value =? 4 then Ok ErrorKind
  else Err "unknown frame kind".

Record Elr2Frame : Type := {
  kind : FrameKind;
  flags : Z;
  route : Z;
  request_id : Z;
  sequence : Z;
  payload : list Z;
}.

(** ** Codec *)

Definition validate_limit (max_payload : Z) : ProtocolResult unit :=
  if (max_payload =? 0) || (ABSOLUTE_MAX_PAYLOAD <? max_payload) then Err "max payload must be in 1..=64MiB" else Ok ().

Definition Elr2Codec_validate (frame : Elr2Frame) (max_payload : Z) : ProtocolResult unit :=
  let? _ := validate_limit max_payload in
  if max_payload <? len frame.(payload) then Err "payload is too large"
  else if negb (frame.(flags) =? 0) then Err "unsupported frame flags"
  else if frame.(route) =? 0 then Err "route must be non-zero"
  else if bool_decide (frame.(kind) = Push) then
    if negb (frame.(request_id) =? 0) then Err "push request id must be zero" else Ok ()
  else if frame.(request_id) =? 0 then Err "request id must be non-zero" else Ok ().

(** [Elr2Codec]: its payload limit. *)
Definition Elr2Codec : Type := Z.

Definition Elr2Codec_new (max_payload : Z) : ProtocolResult Elr2Codec :=
  let? _ := validate_limit max_payload in Ok max_payload.

Definition Elr2Codec_default : Elr2Codec := SDK_DEFAULT_MAX_PAYLOAD.

Definition write_frame (frame : Elr2Frame) (output : list Z) : list Z :=
  output ++ put_be 4 ELR2_MAGIC ++ put_be 2 ELR2_VERSION ++ put_be 1 (FrameKind_as_u8 frame.(kind)) ++ put_be 1 frame.(flags)
    ++ put_be 4 frame.(route) ++ put_be 8 frame.(request_id) ++ put_be 4 frame.(sequence) ++ put_be 4 (len frame.(payload))
    ++ frame.(payload).

Definition Elr2Codec_encode_with_limit (frame : Elr2Frame) (max_payload : Z) : ProtocolResult (list Z) :=
  let? _ := Elr2Codec_validate frame max_payload in Ok (write_frame frame []).

Definition Elr2Codec_encode (frame : Elr2Frame) : ProtocolResult (list Z) :=
  Elr2Codec_encode_with_limit frame SDK_DEFAULT_MAX_PAYLOAD.

(** [from_be_bytes] of the [n] bytes of a message that start at an offset. *)
Definition be_at (offset n : nat) (message : list Z) : Z := be_value (take n (drop offset message)).

Definition validate_header (header : list Z) (max_payload : Z) : ProtocolResult unit :=
  let? _ := validate_limit max_payload in
  if len header <? ELR2_HEADER_LENGTH then Err "incomplete Elura frame"
  else if negb (be_at 0 4 header =? ELR2_MAGIC) then Err "invalid Elura magic"
  else if negb (be_at 4 2 header =? ELR2_VERSION) then Err "unsupported Elura version"
  else
    let? _ := FrameKind_try_from (be_at 6 1 header) in
    if max_payload <? be_at 24 4 header then Err "Elura payload is too large" else Ok ().

Definition decode_bytes (message : list Z) (max_payload : Z) : ProtocolResult Elr2Frame :=
  let? _ := validate_header message max_payload in
  if negb (len message =? ELR2_HEADER_LENGTH + be_at 24 4 message) then Err "Elura message must contain exactly one frame"
  else
    let? kind := FrameKind_try_from (be_at 6 1 message) in
    let frame :=
      {| kind := kind; flags := be_at 7 1 message; route := be_at 8 4 message; request_id := be_at 12 8 message;
         sequence := be_at 20 4 message; payload := drop (Z.to_nat ELR2_HEADER_LENGTH) message |} in
    let? _ := Elr2Codec_validate frame max_payload in Ok frame.

Definition Elr2Codec_decode_with_limit (message : list Z) (max_payload : Z) : ProtocolResult Elr2Frame :=
  decode_bytes message max_payload.

Definition Elr2Codec_decode (message : list Z) : ProtocolResult Elr2Frame :=
  Elr2Codec_decode_with_limit message SDK_DEFAULT_MAX_PAYLOAD.

(** [protocol_io_error]: an [io::Error] of kind [InvalidData] carries the error. *)
Definition protocol_io_error (error : Elr2ProtocolError) : Elr2ProtocolError := error.

(** [Decoder::decode], with what is left of the buffer; [reserve] only affects allocation. *)
Definition Elr2Codec_decode_stream (self : Elr2Codec) (source : list Z) : ProtocolResult (option Elr2Frame) * list Z :=
  if len source <? ELR2_HEADER_LENGTH then (Ok None, source)
  else
    let? _ := map_err protocol_io_error (validate_header (take (Z.to_nat ELR2_HEADER_LENGTH) source) self) else source in
    let total := ELR2_HEADER_LENGTH + be_at 24 4 source in
    if len source <? total then (Ok None, source)
    else
      let message := take (Z.to_nat total) source in
      let source := drop (Z.to_nat total) source in
      let? frame := map_err protocol_io_error (decode_bytes message self) else source in
      (Ok (Some frame), source).

(** [Encoder::encode]. *)
Definition Elr2Codec_encode_stream (self : Elr2Codec) (frame : Elr2Frame) (destination : list Z) : ProtocolResult unit * list Z :=
  let? _ := map_err protocol_io_error (Elr2Codec_validate frame self) else destination in
  (Ok (), write_frame frame destination).

(** ** Frames *)

Definition Elr2Frame_create (kind : FrameKind) (route request_id sequence : Z) (payload : list Z) : ProtocolResult Elr2Frame :=
  let frame := {| kind := kind; flags := 0; route := route; request_id := request_id; sequence := sequence; payload := payload |} in
  let? _ := Elr2Codec_validate frame ABSOLUTE_MAX_PAYLOAD in Ok frame.

Definition Elr2Frame_request_with_sequence (route request_id sequence : Z) (payload : list Z) : ProtocolResult Elr2Frame :=
  Elr2Frame_create Request route request_id sequence payload.

Definition Elr2Frame_request (route request_id : Z) (payload : list Z) : ProtocolResult Elr2Frame :=
  Elr2Frame_request_with_sequence route request_id 0 payload.

Definition Elr2Frame_from_request (kind : FrameKind) (request : Elr2Frame) (payload : list Z) : ProtocolResult Elr2Frame :=
  if negb (bool_decide (request.(ClientProtocol.kind) = Request)) then Err "response source must be a request frame"
  else Elr2Frame_create kind request.(route) request.(request_id) request.(sequence) payload.

Definition Elr2Frame_response (request : Elr2Frame) (payload : list Z) : ProtocolResult Elr2Frame :=
  Elr2Frame_from_request Response request payload.

Definition Elr2Frame_error (request : Elr2Frame) (payload : list Z) : ProtocolResult Elr2Frame :=
  Elr2Frame_from_request ErrorKind request payload.

Definition Elr2Frame_push_with_sequence (route sequence : Z) (payload : list Z) : ProtocolResult Elr2Frame :=
  Elr2Frame_create Push route 0 sequence payload.

Definition Elr2Frame_push (route : Z) (payload : list Z) : ProtocolResult Elr2Frame := Elr2Frame_push_with_sequence route 0 payload.

(** ** Messages *)

Record SdkIdentity : Type := {
  account_id : Z;
  user_id : Z;
  region_id : Z;
  realm_id : Z;
  generation : Z;
}.

Record ReconnectTicketResponse : Type := {
  ticket : string;
  expires_in_seconds : Z;
}.

Record AuthenticateResponse : Type := {
  session_id : string;
  identity : SdkIdentity;
  reconnect : ReconnectTicketResponse;
}.

Record SdkErrorEnvelope : Type := {
  envelope_code : string;
  envelope_message : string;
  envelope_retryable : bool;
  retry_after_ms : option Z;
}.

(** [serde_json] on the messages, with the text of its errors; a request for authentication or for a new ticket is
    its ticket. *)
Class SdkJson : Type := {
  authenticate_request_to_vec : string -> result string (list Z);
  renewal_request_to_vec : string -> result string (list Z);
  authenticate_response_from_slice : list Z -> result string AuthenticateResponse;
  reconnect_response_from_slice : list Z -> result string ReconnectTicketResponse;
  error_envelope_from_slice : list Z -> result string SdkErrorEnvelope;
}.

Definition json_error (error : string) : Elr2ProtocolError := "invalid Elura JSON payload: " +:+ error.

Definition json_request (route request_id : Z) (encoded : result string (list Z)) : ProtocolResult Elr2Frame :=
  let? payload := map_err json_error encoded in Elr2Frame_request route request_id payload.

Definition decode_json {A} (decoded : result string A) : ProtocolResult A := map_err json_error decoded.

Definition require_response (frame : Elr2Frame) (expected : Z) (description : string) : ProtocolResult unit :=
  if negb (bool_decide (frame.(kind) = Response)) || negb (frame.(route) =? expected) then
    Err ("expected a " +:+ description +:+ " response frame")
  else Ok ().

Definition validate_reconnect_ticket (response : ReconnectTicketResponse) : ProtocolResult unit :=
  if String.eqb response.(ticket) "" || (response.(expires_in_seconds) =? 0) then Err "invalid reconnect ticket fields" else Ok ().

Definition validate_authentication_response (response : AuthenticateResponse) : ProtocolResult unit :=
  if String.eqb response.(session_id) "" || (response.(identity).(account_id) <=? 0) || (response.(identity).(user_id) <=? 0)
     || (response.(identity).(region_id) =? 0) || (response.(identity).(realm_id) =? 0)
     || (response.(identity).(generation) =? 0) then Err "invalid authentication response fields"
  else validate_reconnect_ticket response.(reconnect).

Definition code_byte (b : ascii) : bool := is_ascii_uppercase b || is_ascii_digit b || Ascii.eqb b "_"%char.

Definition validate_error_envelope (envelope : SdkErrorEnvelope) : ProtocolResult unit :=
  let valid_code :=
    negb (String.eqb envelope.(envelope_code) "") && (string_len envelope.(envelope_code) <=? 64)
    && string_forallb code_byte envelope.(envelope_code) in
  if negb valid_code || (1024 <? string_len envelope.(envelope_message))
     || bool_decide (envelope.(retry_after_ms) = Some 0) then Err "invalid error envelope fields"
  else Ok ().

Section Messages.
Context `{!SdkJson}.

Definition EluraProtocol_authenticate (request_id : Z) (ticket : string) : ProtocolResult Elr2Frame :=
  json_request AUTHENTICATE request_id (authenticate_request_to_vec ticket).

Definition EluraProtocol_renew_reconnect_ticket (request_id : Z) (ticket : string) : ProtocolResult Elr2Frame :=
  json_request RENEW_RECONNECT_TICKET request_id (renewal_request_to_vec ticket).

Definition EluraProtocol_heartbeat_response (request : Elr2Frame) : ProtocolResult Elr2Frame :=
  if negb (bool_decide (request.(kind) = Request)) || negb (request.(route) =? HEARTBEAT) || negb (request.(sequence) =? 0)
     || negb (len request.(payload) =? 0) then Err "invalid heartbeat request"
  else Elr2Frame_response request [].

Definition EluraProtocol_decode_authenticate (frame : Elr2Frame) : ProtocolResult AuthenticateResponse :=
  let? _ := require_response frame AUTHENTICATE "authentication" in
  let? response := decode_json (authenticate_response_from_slice frame.(payload)) in
  let? _ := validate_authentication_response response in Ok response.

Definition EluraProtocol_decode_reconnect_ticket (frame : Elr2Frame) : ProtocolResult ReconnectTicketResponse :=
  let? _ := require_response frame RENEW_RECONNECT_TICKET "reconnect ticket renewal" in
  let? response := decode_json (reconnect_response_from_slice frame.(payload)) in
  let? _ := validate_reconnect_ticket response in Ok response.

Definition EluraProtocol_decode_error (frame : Elr2Frame) : ProtocolResult SdkErrorEnvelope :=
  if negb (bool_decide (frame.(kind) = ErrorKind)) then Err "expected an error frame"
  else
    let? envelope := decode_json (error_envelope_from_slice frame.(payload)) in
    let? _ := validate_error_envelope envelope in Ok envelope.
End Messages.

Definition route_allowed (frame : Elr2Frame) (authenticated : bool) : bool :=
  if authenticated then
    (frame.(route) =? HEARTBEAT) || (frame.(route) =? RENEW_RECONNECT_TICKET) || (FIRST_APPLICATION <=? frame.(route))
  else frame.(route) =? AUTHENTICATE.

Definition EluraProtocol_validate_client_frame (frame : Elr2Frame) (authenticated : bool) (pending_heartbeat : option Z) :
    ProtocolResult unit :=
  let? _ := Elr2Codec_validate frame SDK_DEFAULT_MAX_PAYLOAD in
  if bool_decide (frame.(kind) = Response) && (frame.(route) =? HEARTBEAT) then
    if negb (bool_decide (pending_heartbeat = Some frame.(request_id))) || negb (frame.(sequence) =? 0)
       || negb (len frame.(payload) =? 0) then Err "heartbeat response does not match an outstanding request"
    else Ok ()
  else if negb (bool_decide (frame.(kind) = Request)) then
    Err "the Elura endpoint accepts request frames and heartbeat responses only"
  else if (frame.(route) <? FIRST_APPLICATION) && negb (frame.(sequence) =? 0) then
    Err "framework requests must have sequence zero"
  else if negb (route_allowed frame authenticated) then Err "route is not allowed in the current session state"
  else Ok ().

(** ** Session control *)

Inductive SessionControlAction : Type := Kick | AccountVersionChanged | DuplicateLogin | ForceLogout | ServerDraining.

#[export] Instance SessionControlAction_eq_dec : EqDecision SessionControlAction.
Proof. solve_decision. Defined.

Definition action_as_i32 (a : SessionControlAction) : Z :=
  match a with Kick => 1 | AccountVersionChanged => 2 | DuplicateLogin => 3 | ForceLogout => 4 | ServerDraining => 5 end.

(** [SessionControlAction::try_from], which the enumeration derives. *)
Definition action_try_from (value : Z) : option SessionControlAction :=
  if value =? 1 then Some Kick else if value =? 2 then Some AccountVersionChanged else if value =? 3 then Some DuplicateLogin
  else if value =? 4 then Some ForceLogout else if value =? 5 then Some ServerDraining else None.

Record SessionControl : Type := {
  action : SessionControlAction;
  reason : string;
}.

Record SessionControlWire : Type := {
  wire_action : Z;
  wire_reason : string;
}.

(** [prost] on [SessionControlWire]. *)
Class SdkProst : Type := {
  control_encode_to_vec : SessionControlWire -> list Z;
  control_decode : list Z -> result string SessionControlWire;
}.

Section Control.
Context `{!SdkProst}.

Definition SessionControlCodec_encode (control : SessionControl) : ProtocolResult (list Z) :=
  if 256 <? string_len control.(reason) then Err "Session Control reason exceeds 256 bytes"
  else Ok (control_encode_to_vec {| wire_action := action_as_i32 control.(action); wire_reason := control.(reason) |}).

Definition SessionControlCodec_decode (payload : list Z) : ProtocolResult SessionControl :=
  let? wire := map_err (fun error => "invalid Session Control protobuf: " +:+ error) (control_decode payload) in
  let? action := ok_or (action_try_from wire.(wire_action)) "unknown Session Control action" in
  if 256 <? string_len wire.(wire_reason) then Err "Session Control reason exceeds 256 bytes"
  else Ok {| action := action; reason := wire.(wire_reason) |}.

Lemma session_control_round_trip control bytes :
  (forall w, control_decode (control_encode_to_vec w) = Ok w) ->
  SessionControlCodec_encode control = Ok bytes -> SessionControlCodec_decode bytes = Ok control.
Proof.
  intros Hprost. unfold SessionControlCodec_encode, SessionControlCodec_decode. destruct (256 <? string_len (reason control)) eqn:E; [done|].
  intros [= <-]. rewrite Hprost. cbn. destruct control as [[] r]; cbn in *; by rewrite E.
Qed.
End Control.

(** ** Agreement with the framework's codec *)

Definition framework_kind (k : FrameKind) : Frame.FrameKind :=
  match k with Request => Frame.Request | Response => Frame.Response | Push => Frame.Push | ErrorKind => Frame.ErrorKind end.

(** The frame of the framework with the same fields. *)
Definition framework_frame (f : Elr2Frame) : Frame :=
  {| Frame.kind := framework_kind f.(kind); Frame.flags := f.(flags); Frame.route := f.(route);
     Frame.request_id := f.(request_id); Frame.sequence := f.(sequence); Frame.payload := f.(payload) |}.

(** Both accept with values that correspond, or both refuse. *)
Definition agree {E E' A B} (R : A -> B -> Prop) (x : result E A) (y : result E' B) : Prop :=
  match x, y with Ok a, Ok b => R a b | Err _, Err _ => True | _, _ => False end.

Definition limit_ok (m : Z) : Prop := 0 < m <= 67108864.

Lemma limit_valid m : limit_ok m -> validate_limit m = Ok ().
Proof.
  intros Hm. unfold validate_limit. change ABSOLUTE_MAX_PAYLOAD with 67108864. unfold limit_ok in Hm.
  destruct (Z.eqb_spec m 0), (Z.ltb_spec 67108864 m); try lia. done.
Qed.

Lemma validate_agrees f m : limit_ok m ->
  agree eq (Elr2Codec_validate f m) (Frame_validate (framework_frame f) m).
Proof.
  intros Hm. unfold Elr2Codec_validate, Frame_validate. rewrite limit_valid by done. cbn [framework_frame Frame.payload Frame.flags Frame.route Frame.kind Frame.request_id].
  destruct (m <? _); [done|]. destruct (negb _); [done|]. destruct (route f =? 0); [done|].
  destruct (kind f); cbn; destruct (request_id f =? 0); done.
Qed.

Lemma write_frame_wire f output : write_frame f output = output ++ wire (framework_frame f).
Proof.
  unfold write_frame, wire, header_bytes. cbn [framework_frame Frame.payload Frame.flags Frame.route Frame.kind Frame.request_id Frame.sequence].
  rewrite <-!app_assoc. by destruct (kind f).
Qed.

Lemma be_at_take offset n k l : (offset + n <= k)%nat -> be_at offset n (take k l) = be_at offset n l.
Proof. intros Hk. unfold be_at. by rewrite skipn_firstn_comm, take_take, Nat.min_l by lia. Qed.

Lemma kind_agrees v : agree (fun k k' => k' = framework_kind k) (FrameKind_try_from v) (Frame.FrameKind_try_from v).
Proof. unfold FrameKind_try_from, Frame.FrameKind_try_from. repeat (case_match; [done|]). done. Qed.

(** The header fields at their offsets. *)
Lemma read_header_at c source :
  read_header c source =
  (if negb (be_at 0 4 source =? MAGIC) then Err (InvalidData "invalid Elura magic")
   else if negb (be_at 4 2 source =? VERSION) then Err (InvalidData "unsupported Elura version")
   else
     let? kind := map_err InvalidDataFrom (Frame.FrameKind_try_from (be_at 6 1 source)) in
     if c.(max_payload) <? be_at 24 4 source then Err (InvalidData "Elura payload is too large")
     else Ok {| h_kind := kind; h_flags := be_at 7 1 source; h_route := be_at 8 4 source; h_request_id := be_at 12 8 source;
                h_sequence := be_at 20 4 source; h_payload_len := be_at 24 4 source |}).
Proof. unfold read_header, be_at, get_be. by rewrite !drop_drop, drop_0. Qed.

(** Whatever is decoded from bytes corresponds: both decoders read the same header and payload. *)
Lemma header_agrees m source : limit_ok m -> ELR2_HEADER_LENGTH <= len source ->
  match validate_header source m, read_header {| max_payload := m |} source with
  | Ok _, Ok h => exists k, FrameKind_try_from (be_at 6 1 source) = Ok k /\ h.(h_kind) = framework_kind k
      /\ h.(h_flags) = be_at 7 1 source /\ h.(h_route) = be_at 8 4 source /\ h.(h_request_id) = be_at 12 8 source
      /\ h.(h_sequence) = be_at 20 4 source /\ h.(h_payload_len) = be_at 24 4 source
  | Err _, Err _ => True
  | _, _ => False
  end.
Proof.
  intros Hm Hlen. unfold validate_header. rewrite limit_valid, read_header_at by done.
  destruct (Z.ltb_spec (len source) ELR2_HEADER_LENGTH); [lia|]. change ELR2_MAGIC with MAGIC. change ELR2_VERSION with VERSION.
  destruct (negb _); [done|]. destruct (negb _); [done|]. pose proof (kind_agrees (be_at 6 1 source)) as Hk.
  destruct (FrameKind_try_from _) as [k|], (Frame.FrameKind_try_from _) as [k'|]; cbn [agree map_err] in *; try done.
  cbn [max_payload]. destruct (m <? _); [done|]. exists k. done.
Qed.

(** The frame a message of exactly one frame decodes to. *)
Lemma decode_agrees m message : limit_ok m ->
  agree (fun f f' => f' = framework_frame f) (decode_bytes message m) (FrameCodec_decode_message {| max_payload := m |} message).
Proof.
  intros Hm. unfold decode_bytes, FrameCodec_decode_message. change HEADER_LEN with ELR2_HEADER_LENGTH.
  destruct (Z.ltb_spec (len message) ELR2_HEADER_LENGTH) as [Hlt|Hge].
  { unfold validate_header. rewrite limit_valid by done. destruct (Z.ltb_spec (len message) ELR2_HEADER_LENGTH); [done|lia]. }
  pose proof (header_agrees m message Hm Hge) as Hh. destruct (validate_header message m), (read_header _ message) as [h|]; try done.
  destruct Hh as (k & Hk & H1 & H2 & H3 & H4 & H5 & H6). rewrite H6, Hk. destruct (negb _); [done|].
  match goal with |- context [Elr2Codec_validate ?f m] => pose proof (validate_agrees f m Hm) as Hv; set (frame := f) in * end.
  replace (frame_of h (drop (Z.to_nat ELR2_HEADER_LENGTH) message)) with (framework_frame frame)
    by (unfold frame_of, framework_frame, frame; cbn; congruence).
  cbn [max_payload]. destruct (Elr2Codec_validate frame m), (Frame_validate _ m); cbn in *; done.
Qed.

Lemma validate_header_take k source m : (28 <= k)%nat -> (k <= length source)%nat -> limit_ok m ->
  validate_header (take k source) m = validate_header source m.
Proof.
  intros Hk Hl Hm. unfold validate_header. rewrite !limit_valid, !be_at_take by (done || lia).
  unfold len. rewrite length_take, Nat.min_l by lia. change ELR2_HEADER_LENGTH with 28.
  destruct (Z.ltb_spec (Z.of_nat k) 28), (Z.ltb_spec (Z.of_nat (length source)) 28); try lia. done.
Qed.

Lemma stream_agrees m source : limit_ok m -> bytes_ok source ->
  let '(r, rest) := Elr2Codec_decode_stream m source in
  let '(r', rest') := FrameCodec_decode {| max_payload := m |} source in
  rest = rest' /\ agree (fun f f' => f' = framework_frame <$> f) r r'.
Proof.
  intros Hm Hok. unfold Elr2Codec_decode_stream, FrameCodec_decode. change HEADER_LEN with ELR2_HEADER_LENGTH.
  destruct (Z.ltb_spec (len source) ELR2_HEADER_LENGTH) as [|Hge]; [done|]. change ELR2_HEADER_LENGTH with 28 in *.
  assert (Hl : (28 <= length source)%nat) by (unfold len in Hge; lia).
  rewrite (validate_header_take 28) by (done || lia). pose proof (header_agrees m source Hm Hge) as Hh.
  destruct (validate_header source m) as [[]|] eqn:Hvh, (read_header _ source) as [h|]; cbn [map_err]; try done.
  destruct Hh as (k & Hk & H1 & H2 & H3 & H4 & H5 & H6). rewrite H6.
  assert (Hp : 0 <= be_at 24 4 source) by (apply be_value_range, Forall_take, Forall_drop, Hok).
  destruct (Z.ltb_spec (len source) (28 + be_at 24 4 source)) as [|Htotal]; [done|].
  set (p := be_at 24 4 source) in *. set (n := Z.to_nat (28 + p)). assert (Hn : n = (28 + Z.to_nat p)%nat) by (unfold n; lia).
  assert (Hnl : (n <= length source)%nat) by (unfold len in Htotal; lia).
  unfold decode_bytes. rewrite (validate_header_take n), Hvh, !be_at_take by (done || lia).
  change ELR2_HEADER_LENGTH with 28. fold p. assert (Hlen : len (take n source) = 28 + p) by (unfold len; rewrite length_take; lia).
  rewrite Hlen, Z.eqb_refl, Hk. cbn [negb].
  match goal with |- context [Elr2Codec_validate ?f m] => pose proof (validate_agrees f m Hm) as Hv; set (frame := f) in * end.
  replace (frame_of h _) with (framework_frame frame).
  2: { unfold frame_of, framework_frame, frame. cbn. rewrite skipn_firstn_comm, Hn. replace (28 + _ - _)%nat with (Z.to_nat p) by lia. congruence. }
  rewrite drop_drop. replace (Z.to_nat 28 + Z.to_nat p)%nat with n by lia.
  cbn [max_payload]. destruct (Elr2Codec_validate frame m), (Frame_validate _ m); cbn in *; done.
Qed.

(** C27: The client SDK and the framework speak one protocol.  Under every payload limit the two implementations of
    the codec accept and refuse the same frames and the same bytes: they write the same encoding, the stream decoders
    wait for the same bytes, consume the same bytes and yield the same frame, and the message decoders agree; so what
    a client sends the framework reads back, whatever follows it. *)
Theorem client_codec_agrees (m : Z) (f : Elr2Frame) (dest source message rest : list Z) :
  limit_ok m -> bytes_ok source -> frame_ok (framework_frame f) ->
  let c := {| max_payload := m |} in
  (let '(r, out) := Elr2Codec_encode_stream m f dest in
   let '(r', out') := FrameCodec_encode c (framework_frame f) dest in out = out' /\ agree eq r r')
  /\ (let '(r, remaining) := Elr2Codec_decode_stream m source in
      let '(r', remaining') := FrameCodec_decode c source in remaining = remaining' /\ agree (fun f f' => f' = framework_frame <$> f) r r')
  /\ agree (fun f f' => f' = framework_frame f) (Elr2Codec_decode_with_limit message m) (FrameCodec_decode_message c message)
  /\ (forall bytes, Elr2Codec_encode_with_limit f m = Ok bytes ->
        FrameCodec_decode c (bytes ++ rest) = (Ok (Some (framework_frame f)), rest)).
Proof.
  intros Hm Hok Hf c. pose proof (validate_agrees f m Hm) as Hv. split_and!.
  - rewrite encode_wire. unfold Elr2Codec_encode_stream. rewrite write_frame_wire. cbn [c max_payload].
    destruct (Elr2Codec_validate f m) as [[]|], (Frame_validate _ m) as [[]|]; done.
  - by apply stream_agrees.
  - by apply decode_agrees.
  - intros bytes. unfold Elr2Codec_encode_with_limit. destruct (Elr2Codec_validate f m) as [[]|]; [|done]. intros [= <-].
    rewrite write_frame_wire. cbn [app]. apply decode_wire; [done|done|]. cbn [c max_payload].
    by destruct (Frame_validate _ m) as [[]|].
Qed.

Module ProtocolExamples.
Definition request : Elr2Frame :=
  {| kind := Request; flags := 0; route := 100; request_id := 7; sequence := 0; payload := [1; 2; 3] |}.

(** A request, followed by the beginning of the next frame. *)
Lemma client_codec_agrees_witness :
  FrameCodec_decode {| max_payload := 1024 |} (write_frame request [] ++ [69; 76]) = (Ok (Some (framework_frame request)), [69; 76]).
Proof.
  refine (proj2 (proj2 (proj2 (client_codec_agrees 1024 request [] [] [] [69; 76] _ _ _))) (write_frame request []) _).
  - unfold limit_ok. lia.
  - constructor.
  - constructor; cbn; unfold fits, u8_max, u32_max, u64_ok, fits, u64_max; try lia. repeat constructor; unfold byte_ok; lia.
  - vm_compute. reflexivity.
Defined.
End ProtocolExamples.
