(* ===== verification/ClientDriver.v ===== *)
(** * The client of the SDK: [examples/tiny-network-game/sdk/rust/crates/elura-client/src/lib.rs]

    The task that owns the connection of a client: it sends requests and matches the responses, renews the ticket for
    reconnecting, reconnects with growing delays and tells the application what happened.  The task handles one event
    at a time, to its end; what the network does meanwhile (whether a write succeeds, what connecting yields) and the
    readings of the clock are arguments.  An operation of the application is a token, and what is sent on its
    one-shot channel is logged.  Times are nanoseconds; [None] is a panic of the task, where a time is out of range. *)

From S2P Require Import Prelude Bytes CoreError Float64 ClientProtocol.

Record ClientConfig : Type := {
  connect_timeout : Z;
  request_timeout : Z;
  reconnect_renewal_margin : Z;
  automatic_reconnect : bool;
  reconnect_initial_delay : Z;
  reconnect_max_delay : Z;
  reconnect_max_attempts : option Z;
  reconnect_jitter_percent : Z;
  max_payload : Z;
  max_in_flight_requests : Z;
  command_capacity : Z;
  event_capacity : Z;
  tcp_nodelay : bool;
}.

Definition ClientConfig_default : ClientConfig :=
  {| connect_timeout := 5 * 1000000000; request_timeout := 10 * 1000000000; reconnect_renewal_margin := 30 * 1000000000;
     automatic_reconnect := true; reconnect_initial_delay := 250 * 1000000; reconnect_max_delay := 10 * 1000000000;
     reconnect_max_attempts := Some 8; reconnect_jitter_percent := 20; max_payload := SDK_DEFAULT_MAX_PAYLOAD;
     max_in_flight_requests := 1024; command_capacity := 64; event_capacity := 64; tcp_nodelay := true |}.

Inductive ConnectionState : Type := Connected | Reconnecting | ReauthenticationNeeded | Disconnected | ClosedState.

#[export] Instance ConnectionState_eq_dec : EqDecision ConnectionState.
Proof. solve_decision. Defined.

(** [ClientError]; the text of an input-output error is left out. *)
Inductive ClientError : Type :=
| Configuration (message : string)
| Transport
| Protocol (error : Elr2ProtocolError)
| Server (error : SdkErrorEnvelope)
| ConnectTimeout
| RequestTimeout
| RequestInterrupted
| ReauthenticationRequired
| ReconnectExhausted
| TooManyInFlight
| NotConnected (state : ConnectionState)
| Closed
| UnexpectedFrame (message : string).

Abbreviation ClientResult := (result ClientError).

Definition ClientConfig_validate (self : ClientConfig) : ClientResult unit :=
  if (self.(connect_timeout) =? 0) || (self.(request_timeout) =? 0) || (self.(reconnect_renewal_margin) =? 0)
     || (self.(reconnect_initial_delay) =? 0) || (self.(reconnect_max_delay) <? self.(reconnect_initial_delay))
     || bool_decide (self.(reconnect_max_attempts) = Some 0) || (100 <? self.(reconnect_jitter_percent))
     || (self.(max_in_flight_requests) =? 0) || (self.(command_capacity) =? 0) || (self.(event_capacity) =? 0) then
    Err (Configuration "client timeouts, reconnect limits, and capacities must be positive")
  else
    let? _ := map_err Protocol (Elr2Codec_new self.(max_payload)) in Ok ().

Inductive ClientEvent : Type :=
| PushEvent (frame : Elr2Frame)
| SessionControlEvent (control : SessionControl)
| DisconnectedEvent
| ReconnectingEvent (attempt delay : Z)
| ReconnectedEvent
| ReauthenticationRequiredEvent
| ReconnectExhaustedEvent.

Record SessionSnapshot : Type := {
  snapshot_authentication : AuthenticateResponse;
  reconnect_expires_at : Z;
}.

(** An operation of the application that waits on a one-shot channel. *)
Definition Token : Type := Z.

Inductive PendingKind : Type :=
| Application (response : Token)
| Renewal (response : option Token).

Record Pending : Type := {
  pending_route : Z;
  deadline : Z;
  pending_kind : PendingKind;
}.

Inductive Command : Type :=
| RequestCommand (route : Z) (payload : list Z) (response : Token)
| RenewCommand (response : Token)
| ReconnectCommand (response : Token)
| ReauthenticateCommand (ticket : string) (response : Token)
| CloseCommand (response : Token).

Definition command_token (c : Command) : Token :=
  match c with
  | RequestCommand _ _ t | RenewCommand t | ReconnectCommand t | ReauthenticateCommand _ t | CloseCommand t => t
  end.

(** What is sent on a one-shot channel. *)
Inductive Answer : Type :=
| FrameAnswer (result : ClientResult Elr2Frame)
| TicketAnswer (result : ClientResult ReconnectTicketResponse)
| AuthenticationAnswer (result : ClientResult AuthenticateResponse)
| CloseAnswer (result : ClientResult unit).

Inductive PendingFailure : Type := Interrupted | TimedOut | FailedReauthentication | FailedExhausted | FailedClosed.

Definition PendingFailure_into_error (self : PendingFailure) : ClientError :=
  match self with
  | Interrupted => RequestInterrupted
  | TimedOut => RequestTimeout
  | FailedReauthentication => ReauthenticationRequired
  | FailedExhausted => ReconnectExhausted
  | FailedClosed => Closed
  end.

(** ** Times *)

(** [Duration::mul_f64] as [from_secs_f64] of the product; [None] where it panics. *)
Definition mul_f64 (duration : Z) (factor : f64) : option Z := from_secs_f64 (f64_mul factor (as_secs_f64 duration)).

Definition DURATION_LIMIT : Z := u64_max * 1000000000 + 999999999.

(** The generator of [reconnect_delay]. *)
Definition split_mix (seed attempt : Z) : Z :=
  let mixed := wrap_u64 (seed + wrapping_mul_u64 attempt 0x9e3779b97f4a7c15) in
  let mixed := wrapping_mul_u64 (Z.lxor mixed (Z.shiftr mixed 30)) 0xbf58476d1ce4e5b9 in
  let mixed := wrapping_mul_u64 (Z.lxor mixed (Z.shiftr mixed 27)) 0x94d049bb133111eb in
  Z.lxor mixed (Z.shiftr mixed 31).

Definition reconnect_delay (config : ClientConfig) (attempt seed : Z) : option Z :=
  let exponent := Z.min (saturating_sub attempt 1) 31 in
  let base := Z.min (saturating_mul DURATION_LIMIT config.(reconnect_initial_delay) (Z.shiftl 1 exponent)) config.(reconnect_max_delay) in
  if config.(reconnect_jitter_percent) =? 0 then Some base
  else
    let jitter := config.(reconnect_jitter_percent) in
    let factor := 100 - jitter + split_mix seed attempt mod (saturating_mul u64_max jitter 2 + 1) in
    (fun d => Z.min d config.(reconnect_max_delay)) <$> mul_f64 base (f64_div (f64_of_Z factor) (f64_of_Z 100)).

Definition session_snapshot (now : Z) (authentication : AuthenticateResponse) : option SessionSnapshot :=
  (fun t => {| snapshot_authentication := authentication; reconnect_expires_at := t |})
    <$> SystemTime_add now (authentication.(reconnect).(expires_in_seconds) * 1000000000).

Definition renewal_time (snapshot : SessionSnapshot) (configured_margin : Z) : Z :=
  let ttl := snapshot.(snapshot_authentication).(reconnect).(expires_in_seconds) * 1000000000 in
  snapshot.(reconnect_expires_at) - Z.min configured_margin (ttl / 2).

(** ** Errors and events *)

Definition is_connection_loss (error : ClientError) : bool :=
  match error with Transport | ConnectTimeout | RequestTimeout | Closed => true | _ => false end.

Definition requires_reauthentication (error : SdkErrorEnvelope) : bool :=
  String.eqb error.(envelope_code) "UNAUTHENTICATED" || String.eqb error.(envelope_code) "SESSION_REVOKED".

Definition decode_event `{!SdkProst} (frame : Elr2Frame) : ClientResult ClientEvent :=
  if frame.(route) =? SESSION_CONTROL then
    let? control := map_err Protocol (SessionControlCodec_decode frame.(payload)) in Ok (SessionControlEvent control)
  else Ok (PushEvent frame).

(** ** Authentication *)

(** What one read of the connection yields while it authenticates, and whether the answer to a heartbeat is sent. *)
Record Incoming : Type := {
  received : option (result unit Elr2Frame);
  reply_sent : bool;
}.

(** What the network does to a connection attempt: the connection ([None] when the time runs out), the socket option,
    the write of the request and what is read before the time runs out. *)
Record Attempt : Type := {
  connected : option (result unit unit);
  nodelay_set : bool;
  request_sent : bool;
  incoming : list Incoming;
}.

Section Sdk.
Context `{!SdkJson, !SdkProst}.

(** The loop of [authenticate_connection]: the result, [None] when the time runs out first, and the events. *)
Fixpoint authenticate_loop (id : Z) (incoming : list Incoming) : option (ClientResult AuthenticateResponse) * list ClientEvent :=
  match incoming with
  | [] => (None, [])
  | i :: incoming =>
      match i.(received) with
      | None => (Some (Err Closed), [])
      | Some (Err _) => (Some (Err Transport), [])
      | Some (Ok frame) =>
          if bool_decide (frame.(kind) = Request) && (frame.(route) =? HEARTBEAT) then
            match EluraProtocol_heartbeat_response frame with
            | Err error => (Some (Err (Protocol error)), [])
            | Ok _ => if i.(reply_sent) then authenticate_loop id incoming else (Some (Err Transport), [])
            end
          else if bool_decide (frame.(kind) = Push) then
            match decode_event frame with
            | Err error => (Some (Err error), [])
            | Ok event => let '(r, events) := authenticate_loop id incoming in (r, event :: events)
            end
          else if negb (frame.(request_id) =? id) || negb (frame.(route) =? AUTHENTICATE) then
            (Some (Err (UnexpectedFrame "authentication response does not match its request")), [])
          else
            match frame.(kind) with
            | Response => (Some (map_err Protocol (EluraProtocol_decode_authenticate frame)), [])
            | ErrorKind =>
                (Some match EluraProtocol_decode_error frame with Ok e => Err (Server e) | Err error => Err (Protocol error) end, [])
            | _ => (Some (Err (UnexpectedFrame "expected authentication response or error")), [])
            end
      end
  end.

(** The encoder of the connection, with its limit, refuses a frame it cannot send. *)
Definition authenticate_connection (limit : Z) (attempt : Attempt) (request : Elr2Frame) :
    option (ClientResult AuthenticateResponse) * list ClientEvent :=
  if attempt.(request_sent) && is_ok (Elr2Codec_validate request limit) then authenticate_loop request.(request_id) attempt.(incoming)
  else (Some (Err Transport), []).

Definition next_id (id : Z) : Z := default 1 (checked_add u64_max id 1).

(** [open_and_authenticate]: the result, the events and the next request identifier. *)
Definition open_and_authenticate (attempt : Attempt) (ticket : string) (config : ClientConfig) (next_request_id : Z) :
    ClientResult AuthenticateResponse * list ClientEvent * Z :=
  match attempt.(connected) with
  | None => (Err ConnectTimeout, [], next_request_id)
  | Some (Err _) => (Err Transport, [], next_request_id)
  | Some (Ok _) =>
      if negb attempt.(nodelay_set) then (Err Transport, [], next_request_id)
      else
        match Elr2Codec_new config.(max_payload) with
        | Err error => (Err (Protocol error), [], next_request_id)
        | Ok _ =>
            match EluraProtocol_authenticate next_request_id ticket with
            | Err error => (Err (Protocol error), [], next_id next_request_id)
            | Ok request =>
                let '(r, events) := authenticate_connection config.(max_payload) attempt request in
                (default (Err RequestTimeout) r, events, next_id next_request_id)
            end
        end
  end.

(** ** The driver *)

Record Driver : Type := {
  address : string;
  config : ClientConfig;
  connection : bool;
  authentication : AuthenticateResponse;
  reconnect_renew_at : Z;
  reconnect_at : option Z;
  reconnect_attempt : Z;
  reconnect_seed : Z;
  next_request_id : Z;
  pending : gmap Z Pending;
  state : ConnectionState;
  session : option SessionSnapshot;
  events : list ClientEvent;
  answers : list (Token * Answer);
  sent : list (option Token * Elr2Frame);
}.

Definition with_connection (self : Driver) (c : bool) : Driver :=
  {| address := self.(address); config := self.(config); connection := c; authentication :=
     self.(authentication); reconnect_renew_at := self.(reconnect_renew_at); reconnect_at :=
     self.(reconnect_at); reconnect_attempt := self.(reconnect_attempt); reconnect_seed :=
     self.(reconnect_seed); next_request_id := self.(next_request_id); pending := self.(pending); state :=
     self.(state); session := self.(session); events := self.(events); answers := self.(answers); sent :=
     self.(sent) |}.

Definition with_authentication (self : Driver) (a : AuthenticateResponse) : Driver :=
  {| address := self.(address); config := self.(config); connection := self.(connection); authentication := a;
     reconnect_renew_at := self.(reconnect_renew_at); reconnect_at := self.(reconnect_at); reconnect_attempt
     := self.(reconnect_attempt); reconnect_seed := self.(reconnect_seed); next_request_id :=
     self.(next_request_id); pending := self.(pending); state := self.(state); session := self.(session);
     events := self.(events); answers := self.(answers); sent := self.(sent) |}.

Definition with_renew_at (self : Driver) (t : Z) : Driver :=
  {| address := self.(address); config := self.(config); connection := self.(connection); authentication :=
     self.(authentication); reconnect_renew_at := t; reconnect_at := self.(reconnect_at); reconnect_attempt :=
     self.(reconnect_attempt); reconnect_seed := self.(reconnect_seed); next_request_id :=
     self.(next_request_id); pending := self.(pending); state := self.(state); session := self.(session);
     events := self.(events); answers := self.(answers); sent := self.(sent) |}.

Definition with_reconnect (self : Driver) (t : option Z) (attempt : Z) : Driver :=
  {| address := self.(address); config := self.(config); connection := self.(connection); authentication :=
     self.(authentication); reconnect_renew_at := self.(reconnect_renew_at); reconnect_at := t;
     reconnect_attempt := attempt; reconnect_seed := self.(reconnect_seed); next_request_id :=
     self.(next_request_id); pending := self.(pending); state := self.(state); session := self.(session);
     events := self.(events); answers := self.(answers); sent := self.(sent) |}.

Definition with_seed (self : Driver) (s : Z) : Driver :=
  {| address := self.(address); config := self.(config); connection := self.(connection); authentication :=
     self.(authentication); reconnect_renew_at := self.(reconnect_renew_at); reconnect_at :=
     self.(reconnect_at); reconnect_attempt := self.(reconnect_attempt); reconnect_seed := s; next_request_id
     := self.(next_request_id); pending := self.(pending); state := self.(state); session := self.(session);
     events := self.(events); answers := self.(answers); sent := self.(sent) |}.

Definition with_next_id (self : Driver) (id : Z) : Driver :=
  {| address := self.(address); config := self.(config); connection := self.(connection); authentication :=
     self.(authentication); reconnect_renew_at := self.(reconnect_renew_at); reconnect_at :=
     self.(reconnect_at); reconnect_attempt := self.(reconnect_attempt); reconnect_seed :=
     self.(reconnect_seed); next_request_id := id; pending := self.(pending); state := self.(state); session
     := self.(session); events := self.(events); answers := self.(answers); sent := self.(sent) |}.

Definition with_pending (self : Driver) (p : gmap Z Pending) : Driver :=
  {| address := self.(address); config := self.(config); connection := self.(connection); authentication :=
     self.(authentication); reconnect_renew_at := self.(reconnect_renew_at); reconnect_at :=
     self.(reconnect_at); reconnect_attempt := self.(reconnect_attempt); reconnect_seed :=
     self.(reconnect_seed); next_request_id := self.(next_request_id); pending := p; state := self.(state);
     session := self.(session); events := self.(events); answers := self.(answers); sent := self.(sent) |}.

(** [state.send_replace], [session.send_replace]. *)
Definition set_state (self : Driver) (s : ConnectionState) : Driver :=
  {| address := self.(address); config := self.(config); connection := self.(connection); authentication :=
     self.(authentication); reconnect_renew_at := self.(reconnect_renew_at); reconnect_at :=
     self.(reconnect_at); reconnect_attempt := self.(reconnect_attempt); reconnect_seed :=
     self.(reconnect_seed); next_request_id := self.(next_request_id); pending := self.(pending); state := s;
     session := self.(session); events := self.(events); answers := self.(answers); sent := self.(sent) |}.

Definition set_session (self : Driver) (s : option SessionSnapshot) : Driver :=
  {| address := self.(address); config := self.(config); connection := self.(connection); authentication :=
     self.(authentication); reconnect_renew_at := self.(reconnect_renew_at); reconnect_at :=
     self.(reconnect_at); reconnect_attempt := self.(reconnect_attempt); reconnect_seed :=
     self.(reconnect_seed); next_request_id := self.(next_request_id); pending := self.(pending); state :=
     self.(state); session := s; events := self.(events); answers := self.(answers); sent := self.(sent) |}.

Definition emit (self : Driver) (event : ClientEvent) : Driver :=
  {| address := self.(address); config := self.(config); connection := self.(connection); authentication :=
     self.(authentication); reconnect_renew_at := self.(reconnect_renew_at); reconnect_at :=
     self.(reconnect_at); reconnect_attempt := self.(reconnect_attempt); reconnect_seed :=
     self.(reconnect_seed); next_request_id := self.(next_request_id); pending := self.(pending); state :=
     self.(state); session := self.(session); events := self.(events) ++ [event]; answers := self.(answers);
     sent := self.(sent) |}.

(** What is sent on the channels of callers. *)
Definition reply (self : Driver) (l : list (Token * Answer)) : Driver :=
  {| address := self.(address); config := self.(config); connection := self.(connection); authentication :=
     self.(authentication); reconnect_renew_at := self.(reconnect_renew_at); reconnect_at :=
     self.(reconnect_at); reconnect_attempt := self.(reconnect_attempt); reconnect_seed :=
     self.(reconnect_seed); next_request_id := self.(next_request_id); pending := self.(pending); state :=
     self.(state); session := self.(session); events := self.(events); answers := self.(answers) ++ l; sent :=
     self.(sent) |}.

(** What was written to the connection, with the operation it was for. *)
Definition log_sent (self : Driver) (frame : option Token * Elr2Frame) : Driver :=
  {| address := self.(address); config := self.(config); connection := self.(connection); authentication :=
     self.(authentication); reconnect_renew_at := self.(reconnect_renew_at); reconnect_at :=
     self.(reconnect_at); reconnect_attempt := self.(reconnect_attempt); reconnect_seed :=
     self.(reconnect_seed); next_request_id := self.(next_request_id); pending := self.(pending); state :=
     self.(state); session := self.(session); events := self.(events); answers := self.(answers); sent :=
     self.(sent) ++ [frame] |}.


(** What happens around one event: whether writes to the connection succeed, what a connection attempt meets, what
    closing yields, and the readings of the clock, in order. *)
Record Env : Type := {
  write_ok : bool;
  attempt : Attempt;
  close_result : ClientResult unit;
  now : Z;
  later : Z;
}.

Variable seed_of : string -> string -> Z.

(** [complete_pending]. *)
Definition complete_pending (p : Pending) (failure : PendingFailure) : list (Token * Answer) :=
  match p.(pending_kind) with
  | Application t => [(t, FrameAnswer (Err (PendingFailure_into_error failure)))]
  | Renewal (Some t) => [(t, TicketAnswer (Err (PendingFailure_into_error failure)))]
  | Renewal None => []
  end.

Definition failure_of (error : ClientError) : PendingFailure :=
  match error with
  | RequestInterrupted => Interrupted
  | RequestTimeout => TimedOut
  | ReauthenticationRequired => FailedReauthentication
  | ReconnectExhausted => FailedExhausted
  | _ => FailedClosed
  end.

(** [fail_pending]; the order in which the map is drained is not specified. *)
Definition fail_pending (self : Driver) (error : ClientError) : Driver :=
  with_pending (reply self (map_to_list self.(pending) ≫= (fun e => complete_pending e.2 (failure_of error)))) ∅.

Definition has_pending_renewal (self : Driver) : bool :=
  existsb (fun e => match e.2.(pending_kind) with Renewal _ => true | _ => false end) (map_to_list self.(pending)).

(** [pending.insert]: an entry that is overwritten drops its channel. *)
Definition insert_pending (self : Driver) (id : Z) (p : Pending) : Driver :=
  let self := match self.(pending) !! id with Some old => reply self (complete_pending old FailedClosed) | None => self end in
  with_pending self (<[id := p]> self.(pending)).

Definition not_connected_error (self : Driver) : ClientError :=
  match self.(state) with
  | ReauthenticationNeeded => ReauthenticationRequired
  | ClosedState => Closed
  | s => NotConnected s
  end.

Definition take_request_id (self : Driver) : Z * Driver :=
  (self.(next_request_id), with_next_id self (next_id self.(next_request_id))).

Definition send_frame (self : Driver) (write_ok : bool) (owner : option Token) (frame : Elr2Frame) : ClientResult unit * Driver :=
  if negb self.(connection) then (Err (NotConnected self.(state)), self)
  else if write_ok && is_ok (Elr2Codec_validate frame self.(config).(max_payload)) then (Ok (), log_sent self (owner, frame))
  else (Err Transport, self).

Definition publish_session (self : Driver) (now : Z) : option Driver :=
  snapshot ← session_snapshot now self.(authentication);
  Some (set_session (with_renew_at self (renewal_time snapshot self.(config).(reconnect_renewal_margin))) (Some snapshot)).

Definition require_reauthentication (self : Driver) : Driver :=
  let self := with_reconnect (with_connection self false) None self.(reconnect_attempt) in
  let self := fail_pending self ReauthenticationRequired in
  emit (set_state (set_session self None) ReauthenticationNeeded) ReauthenticationRequiredEvent.

Definition schedule_reconnect (self : Driver) (now attempt : Z) : option Driver :=
  let self := set_state self Reconnecting in
  delay ← reconnect_delay self.(config) attempt self.(reconnect_seed);
  at_ ← SystemTime_add now delay;
  Some (emit (with_reconnect self (Some at_) attempt) (ReconnectingEvent attempt delay)).

Definition connection_lost (self : Driver) (now : Z) : option Driver :=
  let self := fail_pending (with_connection self false) RequestInterrupted in
  let self := if bool_decide (self.(state) = Connected) then emit self DisconnectedEvent else self in
  if self.(config).(automatic_reconnect) then schedule_reconnect self now 1
  else Some (with_reconnect (set_state self Disconnected) None self.(reconnect_attempt)).

Definition disconnect_for_reconnect (self : Driver) : Driver :=
  let self := fail_pending (with_connection self false) RequestInterrupted in
  set_state (with_reconnect self None self.(reconnect_attempt)) Reconnecting.

Definition emit_all (self : Driver) (l : list ClientEvent) : Driver := foldl emit self l.

Definition connect_with_ticket (self : Driver) (env : Env) (ticket : string) : option (ClientResult AuthenticateResponse * Driver) :=
  let '(r, events, id) := open_and_authenticate env.(attempt) ticket self.(config) self.(next_request_id) in
  let self := with_next_id (emit_all self events) id in
  match r with
  | Ok authentication =>
      let self := with_authentication (with_connection self true) authentication in
      let self := with_seed self (seed_of self.(address) authentication.(session_id)) in
      self ← publish_session (with_reconnect self None 0) env.(now);
      Some (Ok authentication, emit (set_state self Connected) ReconnectedEvent)
  | Err (Server error) =>
      if requires_reauthentication error then Some (Err ReauthenticationRequired, require_reauthentication self)
      else Some (Err (Server error), self)
  | Err error => Some (Err error, self)
  end.

(** The result, and whether the renewal was taken into the map of pending requests; where the request cannot be
    built, the channel is dropped. *)
Definition start_renewal (self : Driver) (env_write : bool) (now : Z) (response : option Token) : option (ClientResult unit * Driver) :=
  let '(id, self) := take_request_id self in
  match EluraProtocol_renew_reconnect_ticket id self.(authentication).(reconnect).(ticket) with
  | Err error =>
      Some (Err (Protocol error), reply self (match response with Some t => [(t, TicketAnswer (Err Closed))] | None => [] end))
  | Ok frame =>
      deadline ← SystemTime_add now self.(config).(request_timeout);
      let p := {| pending_route := RENEW_RECONNECT_TICKET; deadline := deadline; pending_kind := Renewal response |} in
      let self := insert_pending self id p in
      match send_frame self env_write None frame with
      | (Ok _, self) => Some (Ok (), self)
      | (Err error, self) =>
          let self := reply self (match self.(pending) !! id with Some p => complete_pending p Interrupted | None => [] end) in
          Some (Err error, with_pending self (delete id self.(pending)))
      end
  end.

Definition finish_renewal (self : Driver) (now : Z) (frame : Elr2Frame) : option (ClientResult ReconnectTicketResponse * Driver) :=
  if bool_decide (frame.(kind) = ErrorKind) then
    match EluraProtocol_decode_error frame with
    | Err error => Some (Err (Protocol error), self)
    | Ok error =>
        if requires_reauthentication error then Some (Err ReauthenticationRequired, require_reauthentication self)
        else Some (Err (Server error), self)
    end
  else
    match EluraProtocol_decode_reconnect_ticket frame with
    | Err error => Some (Err (Protocol error), self)
    | Ok ticket =>
        let a := self.(authentication) in
        let self := with_authentication self {| session_id := a.(session_id); identity := a.(identity); reconnect := ticket |} in
        self ← publish_session self now; Some (Ok ticket, self)
    end.

Definition handle_request (self : Driver) (env : Env) (route : Z) (payload : list Z) (response : Token) : option Driver :=
  if negb (bool_decide (self.(state) = Connected)) then Some (reply self [(response, FrameAnswer (Err (not_connected_error self)))])
  else if self.(config).(max_in_flight_requests) <=? Z.of_nat (size self.(pending)) then
    Some (reply self [(response, FrameAnswer (Err TooManyInFlight))])
  else
    let '(id, self) := take_request_id self in
    match Elr2Frame_request route id payload with
    | Err error => Some (reply self [(response, FrameAnswer (Err (Protocol error)))])
    | Ok frame =>
        match send_frame self env.(write_ok) (Some response) frame with
        | (Ok _, self) =>
            deadline ← SystemTime_add env.(now) self.(config).(request_timeout);
            Some (insert_pending self id {| pending_route := route; deadline := deadline; pending_kind := Application response |})
        | (Err _, self) => connection_lost (reply self [(response, FrameAnswer (Err RequestInterrupted))]) env.(now)
        end
    end.

(** [handle_command], with whether the task keeps running. *)
Definition handle_command (self : Driver) (env : Env) (command : Command) : option (bool * Driver) :=
  match command with
  | RequestCommand route payload response => self ← handle_request self env route payload response; Some (true, self)
  | RenewCommand response =>
      if negb (bool_decide (self.(state) = Connected)) then
        Some (true, reply self [(response, TicketAnswer (Err (not_connected_error self)))])
      else if has_pending_renewal self then
        Some (true, reply self [(response, TicketAnswer (Err (Configuration "reconnect-ticket renewal is already in flight")))])
      else
        r ← start_renewal self env.(write_ok) env.(now) (Some response);
        match r with
        | (Ok _, self) => Some (true, self)
        | (Err error, self) =>
            self ← connection_lost self env.(later);
            Some (true, if is_connection_loss error then self else require_reauthentication self)
        end
  | ReconnectCommand response =>
      let self := disconnect_for_reconnect self in
      r ← connect_with_ticket self env self.(authentication).(reconnect).(ticket);
      let '(result, self) := r in
      self ← (if is_ok result || bool_decide (self.(state) = ReauthenticationNeeded) then Some self
              else if self.(config).(automatic_reconnect) then schedule_reconnect self env.(later) 1
              else Some (set_state self Disconnected));
      Some (true, reply self [(response, AuthenticationAnswer result)])
  | ReauthenticateCommand ticket response =>
      let self := disconnect_for_reconnect self in
      r ← connect_with_ticket self env ticket;
      let '(result, self) := r in
      let self := if is_ok result || bool_decide (self.(state) = ReauthenticationNeeded) then self else set_state self Disconnected in
      Some (true, reply self [(response, AuthenticationAnswer result)])
  | CloseCommand response =>
      let result := if self.(connection) then env.(close_result) else Ok () in
      Some (false, reply self [(response, CloseAnswer result)])
  end.

Definition apply_event_state (self : Driver) (event : ClientEvent) : Driver :=
  match event with
  | SessionControlEvent control =>
      if bool_decide (control.(action) = ServerDraining) then self else require_reauthentication self
  | _ => self
  end.

(** A frame that answers the pending request of its identifier. *)
Definition handle_answer (self : Driver) (env : Env) (frame : Elr2Frame) (p : Pending) : option Driver :=
  if negb (frame.(route) =? p.(pending_route)) then
    let l := match p.(pending_kind) with
             | Application t => [(t, FrameAnswer (Err (UnexpectedFrame "response route does not match its request")))]
             | Renewal (Some t) => [(t, TicketAnswer (Err RequestInterrupted))]
             | Renewal None => []
             end in
    connection_lost (reply self l) env.(now)
  else
    match p.(pending_kind) with
    | Application t =>
        let '(result, self) :=
          match frame.(kind) with
          | Response => (Ok frame, self)
          | ErrorKind =>
              match EluraProtocol_decode_error frame with
              | Err error => (Err (Protocol error), self)
              | Ok error =>
                  if requires_reauthentication error then (Err ReauthenticationRequired, require_reauthentication self)
                  else (Err (Server error), self)
              end
          | _ => (Err (UnexpectedFrame "expected response or error frame"), self)
          end in
        Some (reply self [(t, FrameAnswer result)])
    | Renewal response =>
        r ← finish_renewal self env.(now) frame;
        let '(result, self) := r in
        self ← (if negb (is_ok result) && negb (bool_decide (self.(state) = ReauthenticationNeeded)) then
                  with_renew_at self <$> SystemTime_add env.(later) self.(config).(reconnect_initial_delay)
                else Some self);
        Some (reply self (match response with Some t => [(t, TicketAnswer result)] | None => [] end))
    end.

Definition handle_frame (self : Driver) (env : Env) (received : option (result unit Elr2Frame)) : option Driver :=
  match received with
  | Some (Ok frame) =>
      if bool_decide (frame.(kind) = Request) && (frame.(route) =? HEARTBEAT) then
        match EluraProtocol_heartbeat_response frame with
        | Ok response =>
            match send_frame self env.(write_ok) None response with
            | (Ok _, self) => Some self
            | (Err _, self) => connection_lost self env.(now)
            end
        | Err _ => connection_lost self env.(now)
        end
      else if bool_decide (frame.(kind) = Push) then
        match decode_event frame with
        | Ok event => Some (apply_event_state (emit self event) event)
        | Err _ => connection_lost self env.(now)
        end
      else
        match self.(pending) !! frame.(request_id) with
        | None => connection_lost self env.(now)
        | Some p => handle_answer (with_pending self (delete frame.(request_id) self.(pending))) env frame p
        end
  | Some (Err _) | None => connection_lost self env.(now)
  end.

Definition try_automatic_reconnect (self : Driver) (env : Env) : option Driver :=
  r ← connect_with_ticket self env self.(authentication).(reconnect).(ticket);
  let '(result, self) := r in
  if is_ok result || bool_decide (self.(state) = ReauthenticationNeeded) then Some self
  else
    let attempt := saturating_add u32_max self.(reconnect_attempt) 1 in
    if match self.(config).(reconnect_max_attempts) with Some maximum => maximum <? attempt | None => false end then
      Some (emit (set_state (with_reconnect self None attempt) Disconnected) ReconnectExhaustedEvent)
    else
      delay ← reconnect_delay self.(config) attempt self.(reconnect_seed);
      at_ ← SystemTime_add env.(later) delay;
      Some (emit (with_reconnect self (Some at_) attempt) (ReconnectingEvent attempt delay)).

(** The overdue request with the earliest deadline; the map gives any of several. *)
Definition overdue (self : Driver) (now : Z) : option Z :=
  fst <$> min_by_key (fun e => e.2.(deadline)) (filter (fun e => e.2.(deadline) <= now) (map_to_list self.(pending))).

(** [handle_timer] reads the clock first, then where it sends or reconnects. *)
Definition handle_timer (self : Driver) (env : Env) (at_ : Z) : option Driver :=
  if negb self.(connection) then
    if match self.(reconnect_at) with Some t => t <=? at_ | None => false end then try_automatic_reconnect self env else Some self
  else
    match overdue self at_ with
    | Some id =>
        let self := reply self (match self.(pending) !! id with Some p => complete_pending p TimedOut | None => [] end) in
        connection_lost (with_pending self (delete id self.(pending))) env.(later)
    | None =>
        if (self.(reconnect_renew_at) <=? at_) && negb (has_pending_renewal self) then
          r ← start_renewal self env.(write_ok) env.(now) None;
          match r with
          | (Ok _, self) => Some self
          | (Err _, self) => connection_lost self env.(later)
          end
        else Some self
    end.

Definition finish (self : Driver) : Driver :=
  set_session (set_state (fail_pending (with_connection self false) Closed) ClosedState) None.

(** [next_timer], where the clock reads [now]. *)
Definition next_timer (self : Driver) (now : Z) : option Z :=
  if negb self.(connection) then
    match self.(reconnect_at) with Some t => Some t | None => SystemTime_add now (86400 * 1000000000) end
  else Some (foldr Z.min self.(reconnect_renew_at) ((fun e => e.2.(deadline)) <$> map_to_list self.(pending))).

(** One turn of [run]: what [select!] yields. *)
Inductive DriverAction : Type :=
| CommandAction (command : option Command)
| FrameAction (frame : option (result unit Elr2Frame))
| TimerAction (at_ : Z).

(** A turn, with whether the task goes on; frames are read only from a connection. *)
Definition run_turn (self : Driver) (env : Env) (action : DriverAction) : option (bool * Driver) :=
  r ← match action with
      | CommandAction (Some command) => handle_command self env command
      | CommandAction None => Some (false, self)
      | FrameAction frame => if self.(connection) then pair true <$> handle_frame self env frame else Some (true, self)
      | TimerAction at_ => pair true <$> handle_timer self env at_
      end;
  Some (if r.1 : bool then r else (false, finish r.2)).

(** [connect_with_config], to the driver it spawns. *)
Definition connect_with_config (address ticket : string) (config : ClientConfig) (attempt : Attempt) (now : Z) :
    option (ClientResult Driver) :=
  match ClientConfig_validate config with
  | Err error => Some (Err error)
  | Ok _ =>
      let '(r, events, id) := open_and_authenticate attempt ticket config 1 in
      match r with
      | Err error => Some (Err error)
      | Ok authentication =>
          snapshot ← session_snapshot now authentication;
          Some (Ok {| address := address; config := config; connection := true; authentication := authentication;
                      reconnect_renew_at := renewal_time snapshot config.(reconnect_renewal_margin); reconnect_at := None;
                      reconnect_attempt := 0; reconnect_seed := seed_of address authentication.(session_id);
                      next_request_id := id; pending := ∅; state := Connected; session := Some snapshot; events := events;
                      answers := []; sent := [] |})
      end
  end.

(** [authentication], [reconnect_ticket_valid_for]: what the client shows of the session. *)
Definition EluraClient_authentication (self : Driver) : option AuthenticateResponse := snapshot_authentication <$> self.(session).
Definition EluraClient_reconnect_ticket_valid_for (self : Driver) (now : Z) : option Z :=
  (fun snapshot => saturating_sub snapshot.(reconnect_expires_at) now) <$> self.(session).

(** The check [request] makes before it hands the command to the task. *)
Definition request_command (route : Z) (payload : list Z) (response : Token) : ClientResult Command :=
  if route <? FIRST_APPLICATION then Err (Configuration "application route must be at least 100")
  else Ok (RequestCommand route payload response).

(** ** Invariants *)

(** The operation that waits for a pending request. *)
Definition waiting (p : Pending) : list Token :=
  match p.(pending_kind) with Application t => [t] | Renewal (Some t) => [t] | Renewal None => [] end.

Definition is_application (e : Z * Pending) : Prop := exists t, e.2.(pending_kind) = Application t.

#[local] Instance is_application_dec e : Decision (is_application e).
Proof. destruct e as [i [r d [t|o]]]; [left; by exists t|right; by intros [t Ht]]. Defined.

Definition is_renewal (e : Z * Pending) : Prop := ~ is_application e.

#[local] Instance is_renewal_dec e : Decision (is_renewal e).
Proof. unfold is_renewal. apply _. Defined.

(** Every operation is answered, pending or still to be dealt with; successful answers belong to the request they
    answer; the requests in flight are bounded. *)
Record accounted (cmds : list Command) (out : list Token) (max : Z) (sent : list (option Token * Elr2Frame))
    (p : gmap Z Pending) (ans : list (Token * Answer)) : Prop := {
  acc_tokens : ans.*1 ++ (map_to_list p ≫= fun e => waiting e.2) ++ out ≡ₚ command_token <$> cmds;
  acc_answers : forall t f, (t, FrameAnswer (Ok f)) ∈ ans ->
    f.(kind) = Response /\ exists q, (Some t, q) ∈ sent /\ q.(request_id) = f.(request_id) /\ q.(route) = f.(route);
  acc_pending : forall id e t, p !! id = Some e -> e.(pending_kind) = Application t ->
    exists q, (Some t, q) ∈ sent /\ q.(request_id) = id /\ q.(route) = e.(pending_route);
  acc_sent : forall t q, (Some t, q) ∈ sent -> q.(kind) = Request /\ RequestCommand q.(route) q.(payload) t ∈ cmds;
  acc_bound : Z.of_nat (size (filter is_application p)) <= max /\ (size (filter is_renewal p) <= 1)%nat;
}.

Definition driver_accounted cmds out d : Prop :=
  accounted cmds out d.(config).(max_in_flight_requests) d.(sent) d.(pending) d.(answers).

Lemma accounted_reply cmds out max sent p ans l : accounted cmds (l.*1 ++ out) max sent p ans ->
  (forall t f, (t, FrameAnswer (Ok f)) ∈ l ->
    f.(kind) = Response /\ exists q, (Some t, q) ∈ sent /\ q.(request_id) = f.(request_id) /\ q.(route) = f.(route)) ->
  accounted cmds out max sent p (ans ++ l).
Proof.
  intros [Ht Ha Hp Hs Hb] Hl. constructor; try done.
  - rewrite <-Ht, fmap_app. solve_Permutation.
  - intros t f [Hin|Hin]%elem_of_app; eauto.
Qed.

Lemma complete_tokens p failure : (complete_pending p failure).*1 = waiting p.
Proof. unfold complete_pending, waiting. by destruct (pending_kind p) as [|[]]. Qed.

Lemma complete_no_frame p failure t f : (t, FrameAnswer (Ok f)) ∈ complete_pending p failure -> False.
Proof. unfold complete_pending. destruct (pending_kind p) as [|[]]; set_solver. Qed.

Lemma accounted_remove cmds out max sent p ans id e : accounted cmds out max sent p ans -> p !! id = Some e ->
  accounted cmds (waiting e ++ out) max sent (delete id p) ans.
Proof.
  intros [Ht Ha Hp Hs [Hb1 Hb2]] He. constructor; try done.
  - rewrite <-Ht. rewrite <-(map_to_list_delete p id e He). cbn. solve_Permutation.
  - intros id' e' t [_ He']%lookup_delete_Some. by apply Hp.
  - rewrite !map_filter_delete. split; [etrans; [|exact Hb1]; apply inj_le|etrans; [|exact Hb2]]; apply map_subseteq_size, delete_subseteq.
Qed.

Lemma accounted_fail cmds out max sent p ans failure : accounted cmds out max sent p ans ->
  accounted cmds out max sent ∅ (ans ++ (map_to_list p ≫= fun e => complete_pending e.2 failure)).
Proof.
  intros [Ht Ha Hp Hs Hb]. constructor.
  - rewrite <-Ht, map_to_list_empty, fmap_app. cbn. rewrite <-app_assoc. apply Permutation_app_head, Permutation_app_tail.
    generalize (map_to_list p). clear. intros l. induction l as [|e l IH]; [done|]. cbn. rewrite fmap_app, complete_tokens. by apply Permutation_app_head.
  - intros t f [Hin|Hin]%elem_of_app; [eauto|]. apply list_elem_of_bind in Hin as (e & Hin & _). by apply complete_no_frame in Hin.
  - intros id e t He. by rewrite lookup_empty in He.
  - done.
  - rewrite !map_filter_empty, !map_size_empty. pose proof (Nat2Z.is_nonneg (size (filter is_application p))). lia.
Qed.

Lemma accounted_insert cmds out max sent p ans id e : accounted cmds (waiting e ++ out) max sent p ans -> p !! id = None ->
  (forall t, e.(pending_kind) = Application t -> Z.of_nat (size p) + 1 <= max
     /\ exists q, (Some t, q) ∈ sent /\ q.(request_id) = id /\ q.(route) = e.(pending_route)) ->
  (forall o, e.(pending_kind) = Renewal o -> filter is_renewal p = ∅) ->
  accounted cmds out max sent (<[id := e]> p) ans.
Proof.
  intros [Ht Ha Hp Hs [Hb1 Hb2]] Hid Happ Hren. constructor; try done.
  - rewrite <-Ht, map_to_list_insert by done. cbn. solve_Permutation.
  - intros id' e' t [[<- <-]|[_ He']]%lookup_insert_Some Ht'; [by apply Happ|by apply (Hp _ _ _ He')].
  - destruct (pending_kind e) as [t|o] eqn:Hk.
    + rewrite map_filter_insert_True by (by exists t). destruct (Happ t eq_refl) as [Hmax _].
      rewrite map_filter_insert_False by (intros Hr; apply Hr; by exists t).
      rewrite (delete_id p id Hid). split; [|done].
      rewrite map_size_insert_None by (apply map_lookup_filter_None; by left).
      pose proof (map_subseteq_size (filter is_application p) p (map_filter_subseteq _ _)). lia.
    + rewrite map_filter_insert_False by (intros [t Ht']; cbn in Ht'; congruence). rewrite (delete_id p id Hid). split; [done|].
      rewrite map_filter_insert_True by (intros [t Ht']; cbn in Ht'; congruence). rewrite (Hren o eq_refl), map_size_insert_None by done.
      by rewrite map_size_empty.
Qed.

Lemma insert_pending_ok cmds out d id e : driver_accounted cmds (waiting e ++ out) d ->
  (forall t, e.(pending_kind) = Application t -> Z.of_nat (size d.(pending)) + 1 <= d.(config).(max_in_flight_requests)
     /\ exists q, (Some t, q) ∈ d.(sent) /\ q.(request_id) = id /\ q.(route) = e.(pending_route)) ->
  (forall o, e.(pending_kind) = Renewal o -> filter is_renewal d.(pending) = ∅) ->
  driver_accounted cmds out (insert_pending d id e).
Proof.
  intros Hacc Happ Hren. unfold insert_pending, driver_accounted in *. destruct (pending d !! id) as [old|] eqn:Hold; cbn.
  - rewrite <-insert_delete_eq. apply accounted_insert; [|by rewrite lookup_delete_eq| |].
    + apply accounted_reply; [|intros t f Hin; by apply complete_no_frame in Hin]. rewrite complete_tokens. by apply accounted_remove.
    + intros t Ht. destruct (Happ t Ht) as [Hsize Hq]. split; [|done].
      pose proof (map_subseteq_size (delete id (pending d)) (pending d) (delete_subseteq _ _)). lia.
    + intros o Ho. by rewrite map_filter_delete, (Hren o Ho), delete_empty.
  - by apply accounted_insert.
Qed.

Lemma insert_pending_fields d id p :
  let d' := insert_pending d id p in
  d'.(connection) = d.(connection) /\ d'.(state) = d.(state) /\ d'.(reconnect_at) = d.(reconnect_at) /\ d'.(config) = d.(config).
Proof. unfold insert_pending. by destruct (pending d !! id). Qed.

Lemma reply_ok cmds out d l : driver_accounted cmds (l.*1 ++ out) d ->
  (forall t f, (t, FrameAnswer (Ok f)) ∈ l -> f.(kind) = Response
     /\ exists q, (Some t, q) ∈ d.(sent) /\ q.(request_id) = f.(request_id) /\ q.(route) = f.(route)) ->
  driver_accounted cmds out (reply d l).
Proof. apply accounted_reply. Qed.

Lemma no_pending_renewal d : has_pending_renewal d = false -> filter is_renewal d.(pending) = ∅.
Proof.
  intros Hr. apply map_empty. intros id. apply map_lookup_filter_None. right. intros e He Hren.
  apply not_true_iff_false in Hr. apply Hr. unfold has_pending_renewal. apply existsb_exists. exists (id, e).
  split; [by apply list_elem_of_In, elem_of_map_to_list|]. cbn. destruct (pending_kind e) as [t|] eqn:Hk; [|done].
  exfalso. apply Hren. by exists t.
Qed.

(** Between events: connected exactly when there is a connection, nothing in flight without one, and a reconnection
    scheduled exactly while reconnecting. *)
Record settled (d : Driver) : Prop := {
  set_link : d.(connection) = bool_decide (d.(state) = Connected);
  set_quiet : d.(connection) = false -> d.(pending) = ∅;
  set_backoff : is_Some d.(reconnect_at) <-> d.(state) = Reconnecting;
}.

Definition good cmds d d' : Prop := driver_accounted cmds [] d' /\ settled d' /\ d'.(config) = d.(config).

Lemma reauthentication_ok cmds out d : driver_accounted cmds out d ->
  let d' := require_reauthentication d in
  driver_accounted cmds out d' /\ settled d' /\ d'.(config) = d.(config) /\ d'.(state) = ReauthenticationNeeded.
Proof.
  intros Hacc d'. split_and!; try done; [by apply accounted_fail|].
  constructor; cbn; try done; by split; [intros [? ?]|].
Qed.

Lemma schedule_ok cmds out d now n d' : driver_accounted cmds out d -> d.(connection) = false -> d.(pending) = ∅ ->
  schedule_reconnect d now n = Some d' -> driver_accounted cmds out d' /\ settled d' /\ d'.(config) = d.(config).
Proof.
  intros Hacc Hc Hp. unfold schedule_reconnect. destruct (reconnect_delay _ _ _) as [delay|]; [|done]. cbn.
  destruct (SystemTime_add now delay) as [t|]; [|done]. cbn. intros [= <-]. split_and!; try done; constructor; cbn; try done; by split; [|eexists].
Qed.

Lemma connection_lost_ok cmds out d now d' : driver_accounted cmds out d -> connection_lost d now = Some d' ->
  driver_accounted cmds out d' /\ settled d' /\ d'.(config) = d.(config).
Proof.
  intros Hacc. unfold connection_lost. set (d1 := fail_pending (with_connection d false) RequestInterrupted).
  assert (H1 : driver_accounted cmds out d1) by (by apply (accounted_fail _ _ _ _ _ _ Interrupted)).
  set (d2 := if bool_decide (state d1 = Connected) then emit d1 DisconnectedEvent else d1).
  assert (H2 : driver_accounted cmds out d2 /\ d2.(connection) = false /\ d2.(pending) = ∅ /\ d2.(config) = d.(config)).
  { unfold d2. by destruct (bool_decide _). }
  destruct H2 as (H2 & Hc2 & Hp2 & Hcfg). destruct (automatic_reconnect (config d2)).
  - intros Hs. rewrite <-Hcfg. by apply (schedule_ok cmds out d2 now 1).
  - intros [= <-]. split_and!; try done; constructor; cbn; try done; by split; [intros [? ?]|].
Qed.

Lemma emit_all_fields l : forall d,
  let d' := emit_all d l in
  d'.(connection) = d.(connection) /\ d'.(pending) = d.(pending) /\ d'.(state) = d.(state) /\ d'.(reconnect_at) = d.(reconnect_at)
  /\ d'.(config) = d.(config) /\ d'.(sent) = d.(sent) /\ d'.(answers) = d.(answers).
Proof. unfold emit_all. induction l as [|e l IH]; intros d; [done|]. cbn [foldl]. apply (IH (emit d e)). Qed.

Lemma publish_ok d now d' : publish_session d now = Some d' ->
  d'.(connection) = d.(connection) /\ d'.(pending) = d.(pending) /\ d'.(state) = d.(state) /\ d'.(reconnect_at) = d.(reconnect_at)
  /\ d'.(config) = d.(config) /\ d'.(sent) = d.(sent) /\ d'.(answers) = d.(answers).
Proof. unfold publish_session. destruct (session_snapshot _ _); [|done]. cbn. by intros [= <-]. Qed.

Lemma connect_ok cmds out d env ticket r d' : driver_accounted cmds out d -> d.(connection) = false -> d.(pending) = ∅ ->
  connect_with_ticket d env ticket = Some (r, d') ->
  driver_accounted cmds out d' /\ d'.(config) = d.(config)
  /\ match r with
     | Ok _ => settled d'
     | Err _ => (d'.(state) = ReauthenticationNeeded /\ settled d')
         \/ (d'.(connection) = false /\ d'.(pending) = ∅ /\ d'.(state) = d.(state) /\ d'.(reconnect_at) = d.(reconnect_at))
     end.
Proof.
  intros Hacc Hc Hp. unfold connect_with_ticket. destruct (open_and_authenticate _ _ _ _) as [[r0 evs] id].
  destruct (emit_all_fields evs d) as (E1 & E2 & E3 & E4 & E5 & E6 & E7). set (d1 := with_next_id (emit_all d evs) id).
  assert (H1 : driver_accounted cmds out d1 /\ d1.(connection) = false /\ d1.(pending) = ∅ /\ d1.(state) = d.(state)
    /\ d1.(reconnect_at) = d.(reconnect_at) /\ d1.(config) = d.(config)).
  { unfold driver_accounted, d1. cbn. rewrite E1, E2, E3, E4, E5, E6, E7. done. }
  clearbody d1. destruct H1 as (H1 & Hc1 & Hp1 & Hs1 & Hr1 & Hcfg1).
  destruct r0 as [a|e].
  - match goal with |- context [publish_session ?d2 ?t] => destruct (publish_session d2 t) as [d3|] eqn:Hpub; [|done] end.
    cbn. intros [= <- <-]. apply publish_ok in Hpub as (P1 & P2 & P3 & P4 & P5 & P6 & P7). cbn in *.
    unfold driver_accounted. cbn. rewrite P2, P5, P6, P7. split; [done|]. split; [congruence|].
    constructor; cbn; [by rewrite P1|by rewrite P1|]. rewrite P4. by split; [intros [? ?]|].
  - destruct e as [| | |e| | | | | | | | |]; try (intros [= <- <-]; split_and!; try done; right; done).
    destruct (requires_reauthentication e); intros [= <- <-]; [|split_and!; try done; right; done].
    destruct (reauthentication_ok cmds out d1 H1) as (R1 & R2 & R3 & R4). split; [done|]. split; [congruence|by left].
Qed.

Lemma log_sent_ok cmds out d o q : driver_accounted cmds out d ->
  (forall t, o = Some t -> q.(kind) = Request /\ RequestCommand q.(route) q.(payload) t ∈ cmds) ->
  driver_accounted cmds out (log_sent d (o, q)).
Proof.
  intros [A B C D E] Hq. unfold driver_accounted. cbn. constructor; try done.
  - intros t f Hin. destruct (B t f Hin) as (? & q' & ? & ?). split; [done|]. exists q'. set_solver.
  - intros i e t He Ht. destruct (C i e t He Ht) as (q' & ? & ?). exists q'. set_solver.
  - intros t q' [Hin|Hin]%elem_of_app; [eauto|]. apply list_elem_of_singleton in Hin as [= <- <-]. by apply Hq.
Qed.

(** Sending: only the log of what was written changes. *)
Lemma send_frame_ok cmds out d w o q r d' : driver_accounted cmds out d ->
  (forall t, o = Some t -> q.(kind) = Request /\ RequestCommand q.(route) q.(payload) t ∈ cmds) ->
  send_frame d w o q = (r, d') ->
  driver_accounted cmds out d' /\ (r = Ok () -> (o, q) ∈ d'.(sent) /\ d.(connection) = true)
  /\ d'.(connection) = d.(connection) /\ d'.(pending) = d.(pending) /\ d'.(state) = d.(state)
  /\ d'.(reconnect_at) = d.(reconnect_at) /\ d'.(config) = d.(config).
Proof.
  intros Hacc Hq. unfold send_frame. destruct (connection d) eqn:Hc; cbn; [|intros [= <- <-]; by split_and!].
  destruct (w && _); intros [= <- <-]; [|by split_and!].
  split_and!; try done; [by apply log_sent_ok|]. intros _. cbn. set_solver.
Qed.

(** Starting a renewal: the operation waits, or it has been answered. *)
Lemma start_renewal_ok cmds d w now o r d' :
  driver_accounted cmds (match o with Some t => [t] | None => [] end) d -> has_pending_renewal d = false ->
  start_renewal d w now o = Some (r, d') ->
  driver_accounted cmds [] d' /\ d'.(config) = d.(config)
  /\ (r = Ok () -> d'.(connection) = d.(connection) /\ d'.(state) = d.(state) /\ d'.(reconnect_at) = d.(reconnect_at) /\ d.(connection) = true).
Proof.
  intros Hacc Hren. unfold start_renewal, take_request_id.
  destruct (EluraProtocol_renew_reconnect_ticket _ _) as [frame|error].
  - destruct (SystemTime_add now _) as [dl|]; [|done]. cbn.
    match goal with |- context [insert_pending ?d1 ?i ?e] => set (d2 := insert_pending d1 i e); set (p := e) in *; set (d1' := d1) in * end.
    assert (H2 : driver_accounted cmds [] d2).
    { apply insert_pending_ok; [|done|intros _ _; by apply no_pending_renewal]. unfold d1', p, driver_accounted, waiting. cbn. by destruct o. }
    assert (d2.(connection) = d.(connection) /\ d2.(state) = d.(state) /\ d2.(reconnect_at) = d.(reconnect_at) /\ d2.(config) = d.(config))
      as (F1 & F2 & F3 & F4) by exact (insert_pending_fields d1' (next_request_id d) p).
    assert (Hin : d2.(pending) !! next_request_id d = Some p).
    { unfold d2, insert_pending. destruct (pending d1' !! _); apply lookup_insert_eq. }
    assert (Hdrop : driver_accounted cmds [] (with_pending (reply d2 (complete_pending p Interrupted)) (delete (next_request_id d) (pending d2)))).
    { apply (accounted_reply _ _ _ _ _ _ (complete_pending p Interrupted)); [|intros t f []%complete_no_frame].
      rewrite complete_tokens. by apply accounted_remove. }
    destruct (send_frame d2 w None frame) as [r0 d3] eqn:Hsend.
    destruct (send_frame_ok cmds [] d2 w None frame r0 d3 H2 ltac:(done) Hsend) as (S1 & S2 & S3 & S4 & S5 & S6 & S7).
    destruct r0 as [[]|error]; intros [= <- <-].
    + split; [done|]. split; [congruence|]. intros _. destruct (S2 eq_refl) as [_ S2']. split_and!; congruence.
    + unfold send_frame in Hsend. assert (d3 = d2) as -> by (destruct (negb _); [|destruct (w && _)]; congruence).
      rewrite Hin. by split_and!.
  - intros [= <- <-]. split_and!; try done. apply reply_ok; [|destruct o; set_solver]. by destruct o.
Qed.

Lemma reply_error cmds t a d : (forall f, a <> FrameAnswer (Ok f)) -> driver_accounted cmds [t] d -> driver_accounted cmds [] (reply d [(t, a)]).
Proof. intros Ha Hacc. apply reply_ok; [done|]. intros t' f [= -> Hf]%list_elem_of_singleton. by destruct (Ha f). Qed.

Lemma reply_settled d l : settled d -> settled (reply d l).
Proof. by intros [A B C]. Qed.

Lemma request_fields route id payload f : Elr2Frame_request route id payload = Ok f ->
  f.(kind) = Request /\ f.(ClientProtocol.route) = route /\ f.(request_id) = id /\ f.(ClientProtocol.payload) = payload.
Proof.
  unfold Elr2Frame_request, Elr2Frame_request_with_sequence, Elr2Frame_create. destruct (Elr2Codec_validate _ _); [|done].
  cbn. by intros [= <-].
Qed.

Lemma handle_request_ok cmds d env route payload t d' : settled d -> driver_accounted cmds [t] d ->
  RequestCommand route payload t ∈ cmds -> handle_request d env route payload t = Some d' -> good cmds d d'.
Proof.
  intros Hset Hacc Hin. unfold handle_request. destruct (bool_decide_reflect (state d = Connected)) as [Hst|Hst]; cbn.
  2: { intros [= <-]. split_and!; [by apply reply_error|by apply reply_settled|done]. }
  destruct (Z.leb_spec (max_in_flight_requests (config d)) (Z.of_nat (size (pending d)))) as [|Hmax].
  { intros [= <-]. split_and!; [by apply reply_error|by apply reply_settled|done]. }
  set (d1 := with_next_id d (next_id (next_request_id d))).
  assert (H1 : driver_accounted cmds [t] d1) by done. destruct Hset as [Hl Hq Hb].
  destruct (Elr2Frame_request _ _ _) as [frame|error] eqn:Hf; [|intros [= <-]; by split_and!; [apply reply_error| |]].
  apply request_fields in Hf as (F1 & F2 & F3 & F4).
  destruct (send_frame d1 (write_ok env) (Some t) frame) as [r d2] eqn:Hsend.
  eapply (send_frame_ok cmds [t]) in Hsend as (S1 & S2 & S3 & S4 & S5 & S6 & S7);
    [|done|intros t' [= <-]; by rewrite F2, F4].
  destruct r as [[]|error].
  - destruct (SystemTime_add _ _) as [dl|]; [|done]. cbn. intros [= <-]. destruct (S2 eq_refl) as [S2' Hc].
    assert (A : driver_accounted cmds [] (insert_pending d2 (next_request_id d) {| pending_route := route; deadline := dl; pending_kind := Application t |})).
    { apply insert_pending_ok; [done| |done]. intros t' [= <-]. rewrite S4, S7. split; [cbn; lia|]. by exists frame. }
    match type of A with driver_accounted _ _ (insert_pending _ ?i ?p) => destruct (insert_pending_fields d2 i p) as (I1 & I2 & I3 & I4) end.
    split; [done|]. split; [|by rewrite I4, S7].
    constructor; rewrite ?I1, ?I2, ?I3, ?S3, ?S5, ?S6; [done| |done]. intros Hx. by rewrite Hx in Hc.
  - intros Hlost. eapply (connection_lost_ok cmds []) in Hlost as (L1 & L2 & L3); [|by apply reply_error].
    split_and!; [done|done|]. rewrite L3. done.
Qed.

(** The state in which frames are handled: connected, whatever is pending. *)
Record online (d : Driver) : Prop := {
  on_connection : d.(connection) = true;
  on_state : d.(state) = Connected;
  on_backoff : d.(reconnect_at) = None;
}.

Lemma online_settled d : online d -> settled d.
Proof. intros [A B C]. constructor; rewrite ?A, ?B, ?C; [done..|]. by split; [intros [? ?]|]. Qed.

Lemma settled_online d : settled d -> d.(connection) = true -> online d.
Proof.
  intros [A B C] Hc. rewrite A in Hc. apply bool_decide_eq_true in Hc. constructor; [|done|].
  - rewrite A. by apply bool_decide_eq_true.
  - apply eq_None_not_Some. rewrite C, Hc. done.
Qed.

Lemma lost_good cmds d0 d now d' : driver_accounted cmds [] d -> d.(config) = d0.(config) -> connection_lost d now = Some d' -> good cmds d0 d'.
Proof. intros Hacc Hcfg Hl. apply (connection_lost_ok cmds []) in Hl as (A & B & C); [|done]. split_and!; congruence. Qed.

Lemma finish_renewal_ok cmds out d now frame r d' : driver_accounted cmds out d -> online d ->
  finish_renewal d now frame = Some (r, d') ->
  driver_accounted cmds out d' /\ d'.(config) = d.(config) /\ (online d' \/ settled d' /\ d'.(state) = ReauthenticationNeeded).
Proof.
  intros Hacc Hon. unfold finish_renewal. destruct (bool_decide _).
  - destruct (EluraProtocol_decode_error frame) as [e|e]; [|intros [= <- <-]; auto].
    destruct (requires_reauthentication e); intros [= <- <-]; [|auto].
    destruct (reauthentication_ok cmds out d Hacc) as (A & B & C & D). auto.
  - destruct (EluraProtocol_decode_reconnect_ticket frame) as [t|e]; [|intros [= <- <-]; auto].
    match goal with |- context [publish_session ?d1 ?t1] => destruct (publish_session d1 t1) as [d2|] eqn:Hp; [|done] end.
    cbn. intros [= <- <-]. apply publish_ok in Hp as (P1 & P2 & P3 & P4 & P5 & P6 & P7). cbn in *. destruct Hon as [A B C].
    unfold driver_accounted. rewrite P2, P5, P6, P7. split_and!; [done..|]. left. constructor; congruence.
Qed.

Definition own_frame (d : Driver) (frame : Elr2Frame) (p : Pending) : Prop := forall t, p.(pending_kind) = Application t ->
  exists q, (Some t, q) ∈ d.(sent) /\ q.(request_id) = frame.(request_id) /\ q.(route) = p.(pending_route).

Lemma handle_answer_ok cmds d env frame p d' : driver_accounted cmds (waiting p) d -> online d -> own_frame d frame p ->
  handle_answer d env frame p = Some d' -> good cmds d d'.
Proof.
  intros Hacc Hon Hown. unfold handle_answer. destruct (Z.eqb_spec (route frame) (pending_route p)) as [Hroute|]; cbn.
  2: { apply lost_good; [|done]. unfold waiting in Hacc.
       destruct (pending_kind p) as [t|[t|]]; [by apply reply_error|by apply reply_error|]. by apply (reply_ok cmds [] d []); [|set_solver]. }
  unfold waiting, own_frame in *. destruct (pending_kind p) as [t|o].
  - destruct (Hown t eq_refl) as (q & Hq & Hid & Hqr). destruct (kind frame) eqn:Hk; cbn;
      try (intros [= <-]; split_and!; [by apply reply_error|by apply reply_settled, online_settled|done]).
    + intros [= <-]. split_and!; [|by apply reply_settled, online_settled|done]. apply reply_ok; [done|].
      intros t' f [= -> ->]%list_elem_of_singleton. split; [done|]. exists q. split_and!; congruence.
    + destruct (EluraProtocol_decode_error frame) as [e|e];
        [|intros [= <-]; split_and!; [by apply reply_error|by apply reply_settled, online_settled|done]].
      destruct (requires_reauthentication e); intros [= <-];
        [|split_and!; [by apply reply_error|by apply reply_settled, online_settled|done]].
      destruct (reauthentication_ok cmds [t] d Hacc) as (A & B & C & D). split_and!; [by apply reply_error|by apply reply_settled|done].
  - destruct (finish_renewal d (now env) frame) as [[r d1]|] eqn:Hf; [|done]. cbn.
    apply (finish_renewal_ok cmds (match o with Some t => [t] | None => [] end)) in Hf as (A & B & C); [|by destruct o|done].
    assert (S1 : settled d1) by (destruct C as [C|[C _]]; [by apply online_settled|done]).
    match goal with |- context [mbind _ ?x] => destruct x as [d2|] eqn:Hd2; [|done] end. cbn. intros [= <-].
    assert (D : driver_accounted cmds (match o with Some t => [t] | None => [] end) d2 /\ settled d2 /\ d2.(config) = d1.(config)).
    { destruct (negb _ && _); [|by injection Hd2 as <-]. apply fmap_Some in Hd2 as (x & _ & ->). split_and!; try done. by destruct S1. }
    destruct D as (D1 & D2 & D3). split_and!; [|by apply reply_settled|cbn; congruence].
    destruct o; [by apply reply_error|]. by apply (reply_ok cmds [] d2 []); [|set_solver].
Qed.

Lemma handle_frame_ok cmds d env received d' : settled d -> d.(connection) = true -> driver_accounted cmds [] d ->
  handle_frame d env received = Some d' -> good cmds d d'.
Proof.
  intros Hset Hc Hacc. unfold handle_frame. destruct received as [[frame|]|]; [|by apply lost_good..].
  destruct (bool_decide _ && _).
  { destruct (EluraProtocol_heartbeat_response frame) as [response|]; [|by apply lost_good].
    destruct (send_frame d (write_ok env) None response) as [r d1] eqn:Hs.
    apply (send_frame_ok cmds []) in Hs as (S1 & _ & S3 & S4 & S5 & S6 & S7); [|done|done].
    destruct r; [|by apply lost_good]. intros [= <-]. destruct Hset as [A B C].
    split_and!; [done|constructor; rewrite ?S3, ?S4, ?S5, ?S6; done|done]. }
  destruct (bool_decide _).
  { destruct (decode_event frame) as [event|]; [|by apply lost_good]. intros [= <-]. destruct Hset as [A B C].
    assert (E : good cmds d (emit d event)) by done. destruct event; try done. unfold apply_event_state. destruct (bool_decide (action control = _)); [done|].
    destruct (reauthentication_ok cmds [] (emit d (SessionControlEvent control)) Hacc) as (R1 & R2 & R3 & R4). done. }
  destruct (pending d !! request_id frame) as [p|] eqn:Hp; [|by apply lost_good]. intros Ha.
  apply (handle_answer_ok cmds) in Ha; [done| | |].
  - unfold driver_accounted. cbn. rewrite <-(app_nil_r (waiting p)). by apply accounted_remove.
  - destruct (settled_online d Hset Hc). done.
  - intros t Ht. destruct Hacc as [_ _ Hq _ _]. by apply (Hq _ _ _ Hp Ht).
Qed.

Lemma disconnect_ok cmds out d : driver_accounted cmds out d -> driver_accounted cmds out (disconnect_for_reconnect d).
Proof. apply accounted_fail. Qed.

(** A connection that could not be opened leaves the task where it was. *)
Lemma offline_settled d s : d.(connection) = false -> d.(pending) = ∅ -> d.(reconnect_at) = None -> s <> Connected -> s <> Reconnecting ->
  settled (set_state d s).
Proof.
  intros A B C D E. constructor; cbn; [by rewrite A, bool_decide_eq_false_2|done|]. rewrite C. split; [by intros [? ?]|done].
Qed.

Lemma handle_command_ok cmds d env c b d' : settled d -> driver_accounted cmds [command_token c] d -> c ∈ cmds ->
  handle_command d env c = Some (b, d') ->
  driver_accounted cmds [] d' /\ d'.(config) = d.(config) /\ (b = true -> settled d').
Proof.
  intros Hset Hacc Hin. destruct c as [route payload t|t|t|ticket t|t]; cbn [handle_command command_token] in *.
  - destruct (handle_request _ _ _ _ _) as [d1|] eqn:Hr; [|done]. cbn. intros [= <- <-].
    apply (handle_request_ok cmds) in Hr as (A & B & C); done.
  - destruct (bool_decide _); cbn [negb]; [|intros [= <- <-]; split_and!; [by apply reply_error|done|by intros _; apply reply_settled]].
    destruct (has_pending_renewal d) eqn:Hren;
      [intros [= <- <-]; split_and!; [by apply reply_error|done|by intros _; apply reply_settled]|].
    destruct (start_renewal _ _ _ _) as [[r d1]|] eqn:Hs; [|done]. cbn.
    apply (start_renewal_ok cmds) in Hs as (A & B & C); [|done|done]. destruct r as [[]|e].
    + intros [= <- <-]. destruct (C eq_refl) as (C1 & C2 & C3 & C4). destruct (settled_online d Hset C4).
      split_and!; [done|done|]. intros _. apply online_settled. constructor; congruence.
    + destruct (connection_lost d1 _) as [d2|] eqn:Hl; [|done]. cbn. intros [= <- <-].
      apply (connection_lost_ok cmds []) in Hl as (L1 & L2 & L3); [|done]. destruct (is_connection_loss e); [split_and!; congruence|].
      destruct (reauthentication_ok cmds [] d2 L1) as (R1 & R2 & R3 & R4). split_and!; congruence.
  - destruct (connect_with_ticket _ _ _) as [[r d1]|] eqn:Hc; [|done]. cbn.
    apply (connect_ok cmds [t]) in Hc as (A & B & C); [|by apply disconnect_ok|done|done]. cbn in *.
    match goal with |- context [mbind _ ?x] => destruct x as [d2|] eqn:Hd2; [|done] end. cbn. intros [= <- <-].
    assert (D : driver_accounted cmds [t] d2 /\ settled d2 /\ d2.(config) = d.(config)).
    { destruct r as [a|e]; cbn in Hd2; [injection Hd2 as <-; done|]. destruct C as [[C1 C2]|(C1 & C2 & C3 & C4)].
      - rewrite bool_decide_eq_true_2 in Hd2 by done. by injection Hd2 as <-.
      - rewrite bool_decide_eq_false_2 in Hd2 by congruence. destruct (automatic_reconnect _).
        + rewrite <-B. by apply (schedule_ok cmds [t]) in Hd2.
        + injection Hd2 as <-. split_and!; [done|by apply offline_settled|done]. }
    destruct D as (D1 & D2 & D3). split_and!; [by apply reply_error|done|by intros _; apply reply_settled].
  - destruct (connect_with_ticket _ _ _) as [[r d1]|] eqn:Hc; [|done]. cbn. intros [= <- <-].
    apply (connect_ok cmds [t]) in Hc as (A & B & C); [|by apply disconnect_ok|done|done]. cbn in *.
    match goal with |- context [reply ?x _] => set (d2 := x) end.
    assert (D : driver_accounted cmds [t] d2 /\ settled d2 /\ d2.(config) = d.(config)).
    { unfold d2. destruct r as [a|e]; cbn; [done|]. destruct C as [[C1 C2]|(C1 & C2 & C3 & C4)].
      - by rewrite bool_decide_eq_true_2.
      - rewrite bool_decide_eq_false_2 by congruence. split_and!; [done|by apply offline_settled|done]. }
    destruct D as (D1 & D2 & D3). split_and!; [by apply reply_error|done|by intros _; apply reply_settled].
  - intros [= <- <-]. split_and!; [by apply reply_error|done|done].
Qed.

Lemma try_reconnect_ok cmds d env d' : settled d -> d.(connection) = false -> d.(state) = Reconnecting -> driver_accounted cmds [] d ->
  try_automatic_reconnect d env = Some d' -> good cmds d d'.
Proof.
  intros Hset Hc Hst Hacc. unfold try_automatic_reconnect. destruct (connect_with_ticket _ _ _) as [[r d1]|] eqn:Hcon; [|done]. cbn.
  apply (connect_ok cmds []) in Hcon as (A & B & C); [|done|done|by apply Hset]. destruct r as [a|e]; cbn; [by intros [= <-]|].
  destruct C as [[C1 C2]|(C1 & C2 & C3 & C4)]; [rewrite bool_decide_eq_true_2 by done; by intros [= <-]|].
  rewrite bool_decide_eq_false_2 by congruence. match goal with |- context [if ?x then _ else _] => destruct x end.
  - intros [= <-]. split_and!; [done| |done]. constructor; cbn; [done|done|]. by split; [intros [? ?]|].
  - destruct (reconnect_delay _ _ _) as [delay|]; [|done]. cbn. destruct (SystemTime_add _ _) as [x|]; [|done]. cbn. intros [= <-].
    split_and!; [done| |done]. constructor; cbn; [|done|].
    + rewrite C1, C3, Hst. by rewrite bool_decide_eq_false_2.
    + rewrite C3, Hst. by split; [|eexists].
Qed.

Lemma handle_timer_ok cmds d env at_ d' : settled d -> driver_accounted cmds [] d -> handle_timer d env at_ = Some d' -> good cmds d d'.
Proof.
  intros Hset Hacc. unfold handle_timer. destruct (connection d) eqn:Hc; cbn [negb].
  - destruct (overdue d at_) as [id|].
    + apply lost_good; [|done]. unfold driver_accounted. cbn. destruct (pending d !! id) as [p|] eqn:Hp.
      * apply accounted_reply; [|intros t f []%complete_no_frame]. rewrite complete_tokens. by apply accounted_remove.
      * rewrite app_nil_r, delete_id by done. done.
    + destruct (_ <=? _); cbn [andb]; [|by intros [= <-]]. destruct (has_pending_renewal d) eqn:Hren; cbn [negb]; [by intros [= <-]|].
      destruct (start_renewal _ _ _ _) as [[r d1]|] eqn:Hs; [|done]. cbn.
      apply (start_renewal_ok cmds) in Hs as (A & B & C); [|done|done]. destruct r as [[]|e]; [|by apply lost_good].
      intros [= <-]. destruct (C eq_refl) as (C1 & C2 & C3 & C4). destruct (settled_online d Hset C4).
      split_and!; [done| |done]. apply online_settled. constructor; congruence.
  - destruct (reconnect_at d) as [t|] eqn:Ht; [|by intros [= <-]]. destruct (t <=? at_); [|by intros [= <-]].
    apply try_reconnect_ok; [done|done| |done]. destruct Hset as [_ _ S]. apply S. by rewrite Ht.
Qed.

(** ** Runs of the task *)

Definition commands_of (action : DriverAction) : list Command :=
  match action with CommandAction (Some c) => [c] | _ => [] end.

(** The commands the task has taken, whether it still runs, and its state. *)
Inductive driver_run (address ticket : string) (cfg : ClientConfig) : list Command -> bool -> Driver -> Prop :=
| run_start attempt now d :
    connect_with_config address ticket cfg attempt now = Some (Ok d) -> driver_run address ticket cfg [] true d
| run_step cmds d env action go d' : driver_run address ticket cfg cmds true d ->
    run_turn d env action = Some (go, d') -> driver_run address ticket cfg (cmds ++ commands_of action) go d'.

Definition ended (d : Driver) : Prop := d.(connection) = false /\ d.(pending) = ∅ /\ d.(state) = ClosedState.

Lemma accounted_take cmds d action : driver_accounted cmds [] d ->
  driver_accounted (cmds ++ commands_of action) (command_token <$> commands_of action) d.
Proof.
  intros [A B C D E]. constructor; try done.
  - rewrite fmap_app, <-A, app_nil_r. by rewrite <-app_assoc.
  - intros t q Hin. destruct (D t q Hin). set_solver.
Qed.

Lemma finish_ok cmds d : driver_accounted cmds [] d -> driver_accounted cmds [] (finish d) /\ ended (finish d).
Proof. intros Hacc. split; [by apply (accounted_fail _ _ _ _ _ _ FailedClosed)|done]. Qed.

Lemma run_turn_ok cmds d env action go d' : settled d -> driver_accounted cmds [] d -> run_turn d env action = Some (go, d') ->
  driver_accounted (cmds ++ commands_of action) [] d' /\ d'.(config) = d.(config) /\ (if go then settled d' else ended d').
Proof.
  intros Hset Hacc%(accounted_take _ _ action). unfold run_turn.
  match goal with |- context [mbind _ ?x] => destruct x as [[go1 d1]|] eqn:Hd1; [|done] end. cbn.
  assert (Hok : driver_accounted (cmds ++ commands_of action) [] d1 /\ d1.(config) = d.(config) /\ (go1 = true -> settled d1)).
  { destruct action as [[c|]|frame|at_]; cbn [commands_of fmap list_fmap] in *.
    - apply (handle_command_ok (cmds ++ [c])) in Hd1; [done|done|done|set_solver].
    - by injection Hd1 as <- <-.
    - destruct (connection d) eqn:Hc; [|by injection Hd1 as <- <-]. apply fmap_Some in Hd1 as (d2 & Hf & [= -> ->]).
      apply (handle_frame_ok (cmds ++ [])) in Hf as (A & B & C); done.
    - apply fmap_Some in Hd1 as (d2 & Hf & [= -> ->]). apply (handle_timer_ok (cmds ++ [])) in Hf as (A & B & C); done. }
  destruct Hok as (A & B & C). destruct go1; intros [= <- <-]; [auto|]. destruct (finish_ok _ _ A). done.
Qed.

Lemma connect_start_ok address ticket cfg attempt now d : 0 <= cfg.(max_in_flight_requests) ->
  connect_with_config address ticket cfg attempt now = Some (Ok d) ->
  driver_accounted [] [] d /\ d.(config) = cfg /\ settled d.
Proof.
  intros Hmax. unfold connect_with_config. destruct (ClientConfig_validate cfg); [|done].
  destruct (open_and_authenticate _ _ _ _) as [[r evs] id]. destruct r as [au|]; [|done]. destruct (session_snapshot _ _); [|done].
  cbn. intros [= <-]. split_and!; [|done|by apply online_settled].
  constructor; cbn; [done|set_solver|intros id' e t He; by rewrite lookup_empty in He|set_solver|].
  rewrite !map_filter_empty, !map_size_empty. lia.
Qed.

Lemma driver_run_ok address ticket cfg cmds go d : 0 <= cfg.(max_in_flight_requests) -> driver_run address ticket cfg cmds go d ->
  driver_accounted cmds [] d /\ d.(config) = cfg /\ (if go then settled d else ended d).
Proof.
  intros Hmax. induction 1 as [attempt now d Hd|cmds d env action go d' Hrun (A & B & C) Hturn].
  - by apply (connect_start_ok address ticket cfg attempt now).
  - apply (run_turn_ok cmds) in Hturn as (D & E & F); [|done|done]. split_and!; [done|congruence|done].
Qed.

(** ** Totality of a turn

    The task can panic only where a time is out of range.  It does not when the delays of the configuration and the
    lifetimes of tickets leave room above the clock. *)

Section Total.
Variables (cfg : ClientConfig) (room : Z).

Definition room_left (env : Env) : Prop := env.(now) + room <= SYSTEM_TIME_MAX /\ env.(later) + room <= SYSTEM_TIME_MAX.

(** The delays of the backoff exist, and all waits fit. *)
Record waits_fit : Prop := {
  fit_backoff : forall attempt seed, is_Some (reconnect_delay cfg attempt seed);
  fit_delay : cfg.(reconnect_max_delay) <= room;
  fit_initial : cfg.(reconnect_initial_delay) <= room;
  fit_request : cfg.(request_timeout) <= room;
}.

(** The server issues tickets whose lifetime fits. *)
Record tickets_fit : Prop := {
  fit_authentication : forall bytes r, authenticate_response_from_slice bytes = Ok r -> r.(reconnect).(expires_in_seconds) * 1000000000 <= room;
  fit_ticket : forall bytes r, reconnect_response_from_slice bytes = Ok r -> r.(expires_in_seconds) * 1000000000 <= room;
}.

Hypothesis Hwaits : waits_fit.
Hypothesis Htickets : tickets_fit.

Lemma add_defined t d : t + room <= SYSTEM_TIME_MAX -> d <= room -> SystemTime_add t d = Some (t + d).
Proof. intros Ht Hd. unfold SystemTime_add, checked_add. destruct (Z.leb_spec (t + d) SYSTEM_TIME_MAX); [done|lia]. Qed.

Lemma delay_le attempt seed delay : reconnect_delay cfg attempt seed = Some delay -> delay <= cfg.(reconnect_max_delay).
Proof.
  unfold reconnect_delay. destruct (_ =? 0); [intros [= <-]; lia|]. intros (d & _ & ->)%fmap_Some. lia.
Qed.

Lemma schedule_defined d t n : d.(config) = cfg -> t + room <= SYSTEM_TIME_MAX -> is_Some (schedule_reconnect d t n).
Proof.
  intros Hcfg Ht. unfold schedule_reconnect. cbn. rewrite Hcfg. destruct (fit_backoff Hwaits n (reconnect_seed d)) as [delay Hd].
  rewrite Hd. cbn. pose proof (delay_le _ _ _ Hd). pose proof (fit_delay Hwaits). rewrite add_defined by lia. by eexists.
Qed.

Lemma lost_defined d t : d.(config) = cfg -> t + room <= SYSTEM_TIME_MAX -> is_Some (connection_lost d t).
Proof.
  intros Hcfg Ht. unfold connection_lost. set (d1 := if bool_decide _ then _ else _).
  assert (d1.(config) = cfg) by (unfold d1; by destruct (bool_decide _)).
  destruct (automatic_reconnect (config d1)); [by apply schedule_defined|by eexists].
Qed.

Lemma loop_ticket id l : forall a, (authenticate_loop id l).1 = Some (Ok a) -> a.(reconnect).(expires_in_seconds) * 1000000000 <= room.
Proof.
  induction l as [|i l IH]; intros a; [done|]. cbn. destruct (received i) as [[f|]|]; [|done..]. destruct (bool_decide _ && _).
  { destruct (EluraProtocol_heartbeat_response f); [|done]. destruct (reply_sent i); [apply IH|done]. }
  destruct (bool_decide _).
  { destruct (decode_event f); [|done]. destruct (authenticate_loop id l) as [r evs]. apply IH. }
  destruct (negb _ || _); [done|]. destruct (kind f); try done.
  - cbn. unfold EluraProtocol_decode_authenticate, decode_json. destruct (require_response _ _ _); [|done]. cbn.
    destruct (authenticate_response_from_slice (payload f)) as [r|] eqn:Hr; [|done]. cbn.
    destruct (validate_authentication_response r); [|done]. cbn. intros [= <-]. by apply (fit_authentication Htickets) in Hr.
  - by destruct (EluraProtocol_decode_error f).
Qed.

Lemma open_ticket att ticket n a : (open_and_authenticate att ticket cfg n).1.1 = Ok a -> a.(reconnect).(expires_in_seconds) * 1000000000 <= room.
Proof.
  unfold open_and_authenticate. destruct (connected att) as [[]|]; [|done..]. destruct (negb _); [done|].
  destruct (Elr2Codec_new _); [|done]. destruct (EluraProtocol_authenticate n ticket) as [q|]; [|done].
  unfold authenticate_connection. destruct (_ && _); [|done].
  pose proof (loop_ticket (request_id q) (incoming att)) as Hl. destruct (authenticate_loop _ _) as [[r|] evs]; [|done].
  cbn in *. intros ->. by apply Hl.
Qed.

Lemma publish_defined d t : t + room <= SYSTEM_TIME_MAX -> d.(authentication).(reconnect).(expires_in_seconds) * 1000000000 <= room ->
  is_Some (publish_session d t).
Proof. intros Ht Ha. unfold publish_session, session_snapshot. rewrite add_defined by done. by eexists. Qed.

Lemma connect_defined d env ticket : d.(config) = cfg -> room_left env -> is_Some (connect_with_ticket d env ticket).
Proof.
  intros Hcfg [Hn _]. unfold connect_with_ticket. rewrite Hcfg. pose proof (open_ticket (attempt env) ticket (next_request_id d)) as Ho.
  destruct (open_and_authenticate _ _ _ _) as [[r evs] id]. cbn [fst] in Ho. destruct r as [a|e].
  - match goal with |- context [publish_session ?d2 ?t] => destruct (publish_defined d2 t) as [d3 ->] end; [done|by apply Ho|by eexists].
  - destruct e as [| | |e| | | | | | | | |]; try by eexists. destruct (requires_reauthentication e); by eexists.
Qed.

Lemma start_renewal_defined d w t o : d.(config) = cfg -> t + room <= SYSTEM_TIME_MAX -> is_Some (start_renewal d w t o).
Proof.
  intros Hcfg Ht. unfold start_renewal, take_request_id. destruct (EluraProtocol_renew_reconnect_ticket _ _); [|by eexists].
  cbn. rewrite Hcfg, add_defined by (done || apply (fit_request Hwaits)). cbn. destruct (send_frame _ _ _ _) as [[] ?]; by eexists.
Qed.

Lemma request_defined cmds d env route payload t : settled d -> driver_accounted cmds [t] d -> RequestCommand route payload t ∈ cmds ->
  d.(config) = cfg -> room_left env -> is_Some (handle_request d env route payload t).
Proof.
  intros Hset Hacc Hin Hcfg [Hn _]. unfold handle_request. destruct (negb _); [by eexists|]. destruct (_ <=? _); [by eexists|].
  cbn. destruct (Elr2Frame_request _ _ _) as [f|] eqn:Hf; [|by eexists]. apply request_fields in Hf as (F1 & F2 & F3 & F4).
  destruct (send_frame _ _ _ _) as [r d1] eqn:Hs.
  apply (send_frame_ok cmds [t]) in Hs as (S1 & _ & _ & _ & _ & _ & S7); [|done|intros t' [= <-]; by rewrite F2, F4]. cbn in S7.
  destruct r; [|apply lost_defined; cbn; congruence]. rewrite S7, Hcfg, add_defined by (done || apply (fit_request Hwaits)). by eexists.
Qed.

Lemma command_defined cmds d env c : settled d -> driver_accounted cmds [command_token c] d -> c ∈ cmds -> d.(config) = cfg -> room_left env ->
  is_Some (handle_command d env c).
Proof.
  intros Hset Hacc Hin Hcfg Hroom. destruct c as [route payload t|t|t|ticket t|t]; cbn [handle_command command_token] in *; [| | | |by eexists].
  - destruct (request_defined cmds d env route payload t) as [d1 ->]; try done.
  - destruct (negb _); [by eexists|]. destruct (has_pending_renewal d) eqn:Hren; [by eexists|].
    destruct (start_renewal_defined d (write_ok env) (now env) (Some t) Hcfg ltac:(apply Hroom)) as [[r d1] Hs]. rewrite Hs. cbn.
    apply (start_renewal_ok cmds) in Hs as (_ & B & _); [|done|done]. destruct r as [[]|e]; [by eexists|].
    destruct (lost_defined d1 (later env)) as [d2 ->]; [congruence|apply Hroom|by eexists].
  - destruct (connect_defined (disconnect_for_reconnect d) env (ticket (reconnect (authentication (disconnect_for_reconnect d)))) Hcfg Hroom)
      as [[r d1] Hc]. rewrite Hc. cbn.
    apply (connect_ok cmds [t]) in Hc as (_ & B & _); [|by apply disconnect_ok|done|done]. cbn in B.
    destruct (is_ok r || _); [by eexists|]. destruct (automatic_reconnect _); [|by eexists].
    destruct (schedule_defined d1 (later env) 1) as [d2 ->]; [congruence|apply Hroom|by eexists].
  - destruct (connect_defined (disconnect_for_reconnect d) env ticket Hcfg Hroom) as [[r d1] ->]. by eexists.
Qed.

Lemma answer_defined cmds d env f p : driver_accounted cmds (waiting p) d -> online d -> d.(config) = cfg -> room_left env ->
  is_Some (handle_answer d env f p).
Proof.
  intros Hacc Hon Hcfg [Hn Hl]. unfold handle_answer. destruct (negb _); [by apply lost_defined|].
  destruct (pending_kind p) as [t|o].
  { destruct (kind f); try by eexists. destruct (EluraProtocol_decode_error f) as [e|]; [|by eexists].
    destruct (requires_reauthentication e); by eexists. }
  assert (Hf : is_Some (finish_renewal d (now env) f)).
  { unfold finish_renewal. destruct (bool_decide _).
    { destruct (EluraProtocol_decode_error f) as [e|]; [|by eexists]. destruct (requires_reauthentication e); by eexists. }
    destruct (EluraProtocol_decode_reconnect_ticket f) as [r|] eqn:Hr; [|by eexists].
    match goal with |- context [publish_session ?d2 ?t] => destruct (publish_defined d2 t) as [d3 ->] end; [done| |by eexists].
    cbn. unfold EluraProtocol_decode_reconnect_ticket, decode_json in Hr. destruct (require_response _ _ _); [|done]. cbn in Hr.
    destruct (reconnect_response_from_slice (payload f)) as [r0|] eqn:Hr0; [|done]. cbn in Hr.
    destruct (validate_reconnect_ticket r0); [|done]. injection Hr as <-. by apply (fit_ticket Htickets) in Hr0. }
  destruct Hf as [[r d1] Hf]. rewrite Hf. cbn. apply (finish_renewal_ok cmds (waiting p)) in Hf as (_ & B & _); [|done|done].
  destruct (negb _ && _); [|by eexists]. rewrite B, Hcfg, add_defined by (done || apply (fit_initial Hwaits)). by eexists.
Qed.

Lemma frame_defined cmds d env received : settled d -> d.(connection) = true -> driver_accounted cmds [] d -> d.(config) = cfg -> room_left env ->
  is_Some (handle_frame d env received).
Proof.
  intros Hset Hc Hacc Hcfg Hroom. assert (Hlost : is_Some (connection_lost d (now env))) by (apply lost_defined; [done|apply Hroom]).
  unfold handle_frame. destruct received as [[f|]|]; [|done..]. destruct (bool_decide _ && _).
  { destruct (EluraProtocol_heartbeat_response f) as [q|]; [|done]. destruct (send_frame _ _ _ _) as [r d1] eqn:Hs.
    apply (send_frame_ok cmds []) in Hs as (_ & _ & _ & _ & _ & _ & S7); [|done|done].
    destruct r; [by eexists|]. apply lost_defined; [congruence|apply Hroom]. }
  destruct (bool_decide _); [destruct (decode_event f); [by eexists|done]|].
  destruct (pending d !! request_id f) as [p|] eqn:Hp; [|done]. apply (answer_defined cmds); [| |done|done].
  - unfold driver_accounted. cbn. rewrite <-(app_nil_r (waiting p)). by apply accounted_remove.
  - by destruct (settled_online d Hset Hc).
Qed.

Lemma timer_defined cmds d env at_ : settled d -> driver_accounted cmds [] d -> d.(config) = cfg -> room_left env -> is_Some (handle_timer d env at_).
Proof.
  intros Hset Hacc Hcfg Hroom. unfold handle_timer. destruct (connection d) eqn:Hc; cbn [negb].
  - destruct (overdue d at_); [apply lost_defined; [done|apply Hroom]|]. destruct (_ <=? _); [|by eexists].
    destruct (has_pending_renewal d) eqn:Hren; [by eexists|]. cbn [andb negb].
    destruct (start_renewal_defined d (write_ok env) (now env) None Hcfg ltac:(apply Hroom)) as [[r d1] Hs]. rewrite Hs. cbn.
    apply (start_renewal_ok cmds) in Hs as (_ & B & _); [|done|done].
    destruct r; [by eexists|]. apply lost_defined; [congruence|apply Hroom].
  - destruct (match reconnect_at d with Some t => _ | None => _ end); [|by eexists]. unfold try_automatic_reconnect.
    destruct (connect_defined d env (ticket (reconnect (authentication d))) Hcfg Hroom) as [[r d1] Hs]. rewrite Hs. cbn.
    apply (connect_ok cmds []) in Hs as (_ & B & _); [|done|done|by apply Hset]. destruct (is_ok r || _); [by eexists|].
    match goal with |- context [if ?x then _ else _] => destruct x end; [by eexists|]. rewrite B, Hcfg.
    match goal with |- context [reconnect_delay cfg ?n ?s] => destruct (fit_backoff Hwaits n s) as [delay Hd] end.
    rewrite Hd. cbn. pose proof (delay_le _ _ _ Hd). pose proof (fit_delay Hwaits). rewrite add_defined by (apply Hroom || lia). by eexists.
Qed.

Lemma turn_defined cmds d env action : settled d -> driver_accounted cmds [] d -> d.(config) = cfg -> room_left env ->
  exists go d', run_turn d env action = Some (go, d').
Proof.
  intros Hset Hacc Hcfg Hroom.
  assert (Hr : exists r, run_turn d env action = Some r); [|by destruct Hr as [[go d'] ?]; eauto].
  unfold run_turn. destruct action as [[c|]|frame|at_].
  - apply (accounted_take _ _ (CommandAction (Some c))) in Hacc.
    destruct (command_defined (cmds ++ [c]) d env c) as [r ->]; try done; [set_solver|by eexists].
  - by eexists.
  - destruct (connection d) eqn:Hc; [|by eexists]. destruct (frame_defined cmds d env frame) as [r ->]; try done. by eexists.
  - destruct (timer_defined cmds d env at_) as [r ->]; try done. by eexists.
Qed.
End Total.

(** C13: The client answers every operation of the application exactly once.  In every run of the task that owns the
    connection, whatever the network, the server and the clock do, the operations answered and those still pending
    are together the commands taken, each once; a request that succeeds returns a response frame with the identifier
    and the route of a request frame that was written for that very command; at most [max_in_flight_requests]
    requests and one renewal wait at a time; the client is connected exactly when it has a connection, nothing is
    pending without one, and a reconnection is scheduled exactly while reconnecting; when the task has ended, every
    operation it took has been answered; and while it runs it handles any event without a panic, provided the waits of
    the configuration and the lifetimes of tickets fit above the clock. *)
Theorem client_answers_once address ticket cfg cmds go d : 0 <= cfg.(max_in_flight_requests) -> driver_run address ticket cfg cmds go d ->
  d.(answers).*1 ++ (map_to_list d.(pending) ≫= fun e => waiting e.2) ≡ₚ command_token <$> cmds
  /\ (forall t f, (t, FrameAnswer (Ok f)) ∈ d.(answers) -> f.(kind) = Response
      /\ exists q, (Some t, q) ∈ d.(sent) /\ q.(kind) = Request /\ RequestCommand q.(route) q.(payload) t ∈ cmds
           /\ f.(request_id) = q.(request_id) /\ f.(route) = q.(route))
  /\ Z.of_nat (size (filter is_application d.(pending))) <= cfg.(max_in_flight_requests)
  /\ (size (filter is_renewal d.(pending)) <= 1)%nat
  /\ (if go then settled d else ended d /\ d.(answers).*1 ≡ₚ command_token <$> cmds)
  /\ (go = true -> forall room env action, waits_fit cfg room -> tickets_fit room -> room_left room env ->
      exists go' d', run_turn d env action = Some (go', d')).
Proof.
  intros Hmax Hrun. apply driver_run_ok in Hrun as (Hacc & <- & F); [|done]. pose proof Hacc as [A B _ D [E1 E2]]. rewrite app_nil_r in A.
  split_and!; [done| |done|done| |].
  - intros t f Hin. destruct (B t f Hin) as (K & q & Hq & Hid & Hr). destruct (D t q Hq). split; [done|]. exists q. auto.
  - destruct go; [done|]. split; [done|]. destruct F as (_ & F & _). rewrite <-A, F, map_to_list_empty. cbn. by rewrite app_nil_r.
  - intros -> room env action Hw Ht Hroom. by apply (turn_defined (config d) room Hw Ht cmds).
Qed.

(** A payload between the limit of the connection and that of the format is accepted by the request and refused by the
    encoder: the client drops its connection. *)
Lemma oversized_request_drops_connection d env route payload t frame d' :
  d.(state) = Connected -> Z.of_nat (size d.(pending)) < d.(config).(max_in_flight_requests) ->
  Elr2Frame_request route d.(next_request_id) payload = Ok frame -> is_ok (Elr2Codec_validate frame d.(config).(max_payload)) = false ->
  handle_request d env route payload t = Some d' ->
  d'.(connection) = false /\ (t, FrameAnswer (Err RequestInterrupted)) ∈ d'.(answers).
Proof.
  intros Hst Hsize Hf Hv. unfold handle_request. rewrite bool_decide_eq_true_2 by done. cbn [negb].
  destruct (Z.leb_spec (max_in_flight_requests (config d)) (Z.of_nat (size (pending d)))); [lia|]. cbn. rewrite Hf. unfold send_frame. cbn.
  rewrite Hv, andb_false_r.
  assert (Hl : forall d1 t1 d2, connection_lost d1 t1 = Some d2 -> d2.(connection) = false /\ forall x, x ∈ d1.(answers) -> x ∈ d2.(answers)).
  { intros d1 t1 d2. unfold connection_lost. set (e := if bool_decide _ then _ else _).
    assert (He : e.(connection) = false /\ forall x, x ∈ d1.(answers) -> x ∈ e.(answers)).
    { unfold e. destruct (bool_decide _); cbn; set_solver. }
    destruct (automatic_reconnect _); [|by intros [= <-]]. unfold schedule_reconnect.
    destruct (reconnect_delay _ _ _); [|done]. cbn. destruct (SystemTime_add _ _); [|done]. cbn. by intros [= <-]. }
  destruct (negb (connection d)); intros Hd'; apply Hl in Hd' as [-> Hd']; (split; [done|]); apply Hd'; cbn; set_solver.
Qed.
End Sdk.

(** The lifetime of a ticket is not bounded: where it does not fit above the clock, taking the session panics. *)
Lemma unbounded_lifetime_panics now a : 0 <= now -> a.(reconnect).(expires_in_seconds) = u64_max -> session_snapshot now a = None.
Proof.
  intros Hn Ha. unfold session_snapshot, SystemTime_add, checked_add. rewrite Ha.
  destruct (Z.leb_spec (now + u64_max * 1000000000) SYSTEM_TIME_MAX) as [Hle|]; [exfalso|done].
  assert (SYSTEM_TIME_MAX < u64_max * 1000000000) by (vm_compute; reflexivity). lia.
Qed.

(** The delays of the default configuration exist. *)
Lemma default_waits_fit room : 10 * 1000000000 <= room -> waits_fit ClientConfig_default room.
Proof.
  intros Hroom. constructor; [|cbn; lia..]. intros attempt seed. unfold reconnect_delay. cbv zeta. cbn [reconnect_jitter_percent ClientConfig_default].
  set (n := Z.min (saturating_sub attempt 1) 31). set (m := split_mix seed attempt mod _).
  assert (Hn : 0 <= n < 32) by (unfold n, saturating_sub; lia).
  assert (Hm : 0 <= m < 41) by (unfold m; apply Z.mod_pos_bound; vm_compute; reflexivity). clearbody n m. cbn [Z.eqb].
  assert (Hall : forallb (fun n => forallb (fun m => bool_decide (is_Some (mul_f64
      (Z.min (saturating_mul DURATION_LIMIT (reconnect_initial_delay ClientConfig_default) (Z.shiftl 1 n)) (reconnect_max_delay ClientConfig_default))
      (f64_div (f64_of_Z (100 - 20 + m)) (f64_of_Z 100))))) (seqZ 0 41)) (seqZ 0 32) = true) by (vm_compute; reflexivity).
  rewrite forallb_forall in Hall. specialize (Hall n). rewrite forallb_forall in Hall.
  apply fmap_is_Some. eapply bool_decide_eq_true_1, Hall; apply list_elem_of_In, elem_of_seqZ; lia.
Qed.

(** ** A run *)

Module DriverExamples.
Definition ticket0 : ReconnectTicketResponse := {| ticket := "again"; expires_in_seconds := 3600 |}.

Definition response0 : AuthenticateResponse :=
  {| session_id := "s1"; identity := {| account_id := 1; user_id := 2; region_id := 1; realm_id := 1; generation := 1 |}; reconnect := ticket0 |}.

#[local] Instance json : SdkJson :=
  {| authenticate_request_to_vec := fun _ => Ok [123; 125]; renewal_request_to_vec := fun _ => Ok [123; 125];
     authenticate_response_from_slice := fun _ => Ok response0; reconnect_response_from_slice := fun _ => Ok ticket0;
     error_envelope_from_slice := fun _ => Err "no envelope" |}.

#[local] Instance prost : SdkProst := {| control_encode_to_vec := fun _ => []; control_decode := fun _ => Err "no control" |}.

Definition answer0 (r : Z) (id : Z) : Elr2Frame :=
  {| kind := Response; flags := 0; route := r; request_id := id; sequence := 0; payload := [1] |}.

Definition attempt0 : Attempt :=
  {| connected := Some (Ok ()); nodelay_set := true; request_sent := true;
     incoming := [{| received := Some (Ok (answer0 AUTHENTICATE 1)); reply_sent := true |}] |}.

Definition env0 : Env := {| write_ok := true; attempt := attempt0; close_result := Ok (); now := 1000; later := 1001 |}.

Definition seed0 (address session : string) : Z := 7.

Definition commands : list Command := [RequestCommand 100 [9] 5; CloseCommand 6].

Definition actions : list DriverAction :=
  [CommandAction (Some (RequestCommand 100 [9] 5)); FrameAction (Some (Ok (answer0 100 2))); CommandAction (Some (CloseCommand 6))].

Definition turns (start : Driver) : option (bool * Driver) :=
  foldl (fun r action => r ≫= fun s => run_turn seed0 s.2 env0 action) (Some (true, start)) actions.

Definition final : option (bool * Driver) :=
  match connect_with_config seed0 "host:1" "first" ClientConfig_default attempt0 0 with Some (Ok d) => turns d | _ => None end.

(** The request is answered by the response to it, and closing ends the task. *)
Example client_run_answers :
  (fun s => (s.1, s.2.(answers), s.2.(state))) <$> final
  = Some (false, [(5, FrameAnswer (Ok (answer0 100 2))); (6, CloseAnswer (Ok ()))], ClosedState).
Proof. vm_compute. reflexivity. Qed.

Lemma client_answers_once_witness :
  exists d, driver_run seed0 "host:1" "first" ClientConfig_default commands false d /\ d.(answers).*1 ≡ₚ [5; 6].
Proof.
  assert (Hrun : exists d, driver_run seed0 "host:1" "first" ClientConfig_default commands false d).
  { eexists. change commands with ((([] ++ commands_of (CommandAction (Some (RequestCommand 100 [9] 5))))
      ++ commands_of (FrameAction (Some (Ok (answer0 100 2))))) ++ commands_of (CommandAction (Some (CloseCommand 6)))).
    eapply (run_step _ _ _ _ _ _ env0); [eapply (run_step _ _ _ _ _ _ env0); [eapply (run_step _ _ _ _ _ _ env0); [|]|]|].
    - eapply (run_start _ _ _ _ attempt0 0). vm_compute. reflexivity.
    - vm_compute. reflexivity.
    - vm_compute. reflexivity.
    - vm_compute. reflexivity. }
  destruct Hrun as [d Hd]. exists d. split; [exact Hd|].
  exact (proj2 (proj1 (proj2 (proj2 (proj2 (proj2 (client_answers_once seed0 "host:1" "first" ClientConfig_default commands false d ltac:(cbn; lia) Hd))))))).
Defined.
End DriverExamples.
