(* ===== verification/KubernetesLeases.v ===== *)
(** * Shard ownership and leader election on leases: [crates/elura-adapters/src/kubernetes.rs], [kubernetes/ownership.rs],
    [kubernetes/leader.rs]

    Coordinators assign shards to worlds by writing a lease for each shard, gateways watch the leases and build the
    table of owners from them, and an election chooses which coordinator is active.  The leases are kept by the
    Kubernetes API server, which is not part of the repository: it is a class of operations with the laws that its
    documentation gives (optimistic concurrency on the version of an object).  A read and a write of the server are
    separate atomic steps, and any number of coordinators, candidates and watchers interleave.  Times are
    nanoseconds. *)

From stdpp Require Import pretty.
From S2P Require Import Prelude Bytes CoreError Session Ownership WorldRouting.

#[local] Instance string_order : Ord string := String.leb.

Definition i32_max : Z := 2147483647.

(** ** Leases and their server *)

(** What the code reads and writes of [coordination.k8s.io/v1 Lease]. *)
Record LeaseSpec : Type := {
  holder_identity : option string;
  lease_duration_seconds : option Z;
  acquire_time : option Z;
  renew_time : option Z;
  lease_transitions : option Z;
}.

Definition LeaseSpec_default : LeaseSpec :=
  {| holder_identity := None; lease_duration_seconds := None; acquire_time := None; renew_time := None;
     lease_transitions := None |}.

Record Lease : Type := {
  lease_name : option string;
  labels : option (gmap string string);
  resource_version : option string;
  spec : option LeaseSpec;
}.

Definition with_version (l : Lease) (v : string) : Lease :=
  {| lease_name := l.(lease_name); labels := l.(labels); resource_version := Some v; spec := l.(spec) |}.

Definition with_spec (l : Lease) (s : LeaseSpec) : Lease :=
  {| lease_name := l.(lease_name); labels := l.(labels); resource_version := l.(resource_version); spec := Some s |}.

(** An error of the client library: the status of the server, if it answered, and the text. *)
Record KubeError : Type := { api_status : option Z; error_text : string }.

Definition kube_error (error : KubeError) : Error := Internal ("kubernetes: " +:+ error.(error_text)).

(** The API of a namespace.  [stored] is what it holds, which only the laws mention. *)
Class LeaseApi (A : Type) := {
  stored : A -> string -> option Lease;
  get_opt : A -> string -> result KubeError (option Lease);
  create : A -> Lease -> result KubeError unit * A;
  replace : A -> string -> Lease -> result KubeError unit * A;
}.

Definition api_step {A} `{!LeaseApi A} (s s' : A) : Prop :=
  (exists l r, create s l = (r, s')) \/ (exists n l r, replace s n l = (r, s')).

Definition unchanged {A} `{!LeaseApi A} (s s' : A) : Prop := forall n, stored s' n = stored s n.

Definition written {A} `{!LeaseApi A} (s s' : A) (n : string) (l : Lease) : Prop :=
  (exists v, stored s' n = Some (with_version l v)) /\ forall m, m <> n -> stored s' m = stored s m.

(** The documented behaviour: an object is created only where there is none, and replaced only when the version that
    was read is still its version; every write gives a new version.  A call may fail after it took effect. *)
Class LeaseApiLaws (A : Type) `{!LeaseApi A} := {
  get_opt_stored : forall (s : A) n o, get_opt s n = Ok o -> o = stored s n;
  stored_has_version : forall (s : A) n l, stored s n = Some l -> is_Some l.(resource_version);
  create_effect : forall (s s' : A) l r, create s l = (r, s') ->
    unchanged s s' /\ is_ok r = false
    \/ exists n, l.(lease_name) = Some n /\ stored s n = None /\ written s s' n l;
  replace_effect : forall (s s' : A) n l r, replace s n l = (r, s') ->
    unchanged s s' /\ is_ok r = false
    \/ exists c, stored s n = Some c /\ c.(resource_version) = l.(resource_version) /\ written s s' n l;
  version_identifies : forall (s s' : A) n l l', rtc api_step s s' -> stored s n = Some l -> stored s' n = Some l' ->
    l'.(resource_version) = l.(resource_version) -> l' = l;
}.

(** ** Scopes of leases *)

Definition TYPE_LABEL : string := "elura.dev/ownership".
Definition TYPE_VALUE : string := "world-shard".
Definition REGION_LABEL : string := "elura.dev/region-id".
Definition REALM_LABEL : string := "elura.dev/realm-id".
Definition SHARD_LABEL : string := "elura.dev/shard-id".

Definition scope_selector (region_id realm_id : Z) : string :=
  TYPE_LABEL +:+ "=" +:+ TYPE_VALUE +:+ "," +:+ REGION_LABEL +:+ "=" +:+ pretty region_id +:+ "," +:+ REALM_LABEL +:+ "="
    +:+ pretty realm_id.

Definition lease_prefix (region_id realm_id : Z) : string :=
  "elura-r" +:+ pretty region_id +:+ "-realm" +:+ pretty realm_id +:+ "-world-shard-".

Definition label_of (l : Lease) (key : string) : option string := l.(labels) ≫= fun labels => labels !! key.

Definition scope_matches (lease : Lease) (region_id realm_id : Z) : bool :=
  bool_decide (label_of lease TYPE_LABEL = Some TYPE_VALUE)
  && bool_decide (label_of lease REGION_LABEL = Some (pretty region_id))
  && bool_decide (label_of lease REALM_LABEL = Some (pretty realm_id)).

Definition lease_labels (region_id realm_id shard_id : Z) : gmap string string :=
  <[SHARD_LABEL := pretty shard_id]> (<[REALM_LABEL := pretty realm_id]> (<[REGION_LABEL := pretty region_id]>
    (<[TYPE_LABEL := TYPE_VALUE]> ∅))).

(** ** Assignments *)

(** The assignment a lease stands for, with the time it was renewed: the guards of the loop in order. *)
Definition lease_assignment (lease : Lease) (now shard_count region_id realm_id : Z) : option (Assignment * Z) :=
  if negb (scope_matches lease region_id realm_id) then None
  else
    shard_id ← label_of lease SHARD_LABEL ≫= parse_unsigned u32_max;
    if shard_count <=? shard_id then None
    else
      spec ← lease.(spec);
      world_id ← spec.(holder_identity);
      if String.eqb world_id "" then None
      else
        epoch ← spec.(lease_transitions);
        if epoch <=? 0 then None
        else
          renewed ← spec.(renew_time);
          duration ← spec.(lease_duration_seconds);
          if (duration <=? 0) || (renewed + duration * 1000000000 <=? now) then None
          else
            Some ({| region_id := region_id; realm_id := realm_id; shard_id := shard_id; world_id := world_id; epoch := epoch |},
                  renewed).

(** The turn of the loop for one candidate. *)
Definition select_assignment (selected : gmap Z (Assignment * Z)) (candidate : Assignment * Z) : gmap Z (Assignment * Z) :=
  let should_replace :=
    match selected !! candidate.1.(shard_id) with
    | None => true
    | Some (previous, previous_renewed) =>
        (previous.(epoch) <? candidate.1.(epoch))
        || ((candidate.1.(epoch) =? previous.(epoch)) && (previous_renewed <? candidate.2))
    end in
  if should_replace then <[candidate.1.(shard_id) := candidate]> selected else selected.

Definition assignments_from_leases (leases : list Lease) (now shard_count region_id realm_id : Z) : list Assignment :=
  let candidates := omap (fun l => lease_assignment l now shard_count region_id realm_id) leases in
  let selected := foldl select_assignment ∅ candidates in
  sort_by_key shard_id ((fun e => e.2.1) <$> map_to_list selected).

(** ** The observer *)

Record OwnershipObserverConfig : Type := {
  observer_namespace : string;
  observer_region_id : Z;
  observer_realm_id : Z;
  observer_shard_count : Z;
  additional_label_selector : option string;
}.

Definition OwnershipObserverConfig_new (namespace : string) (region_id realm_id shard_count : Z) : OwnershipObserverConfig :=
  {| observer_namespace := namespace; observer_region_id := region_id; observer_realm_id := realm_id;
     observer_shard_count := shard_count; additional_label_selector := None |}.

Definition OwnershipObserverConfig_validate (self : OwnershipObserverConfig) : Result unit :=
  if trim_is_empty self.(observer_namespace) || (self.(observer_region_id) =? 0) || (self.(observer_realm_id) =? 0)
     || (self.(observer_shard_count) =? 0) then
    Err (InvalidConfig "Kubernetes ownership namespace, region, realm and shard count are required")
  else Ok ().

(** The observer, with the maps of its [run]. *)
Record OwnershipObserver : Type := {
  observer_config : OwnershipObserverConfig;
  table : OwnershipTable;
  synchronized : bool;
  active_count : Z;
  current : gmap string Lease;
  initializing : option (gmap string Lease);
}.

Definition OwnershipObserver_new (config : OwnershipObserverConfig) : Result OwnershipObserver :=
  let? _ := OwnershipObserverConfig_validate config in
  let? table := OwnershipTable_new config.(observer_shard_count) in
  Ok {| observer_config := config; table := table; synchronized := false; active_count := 0; current := ∅; initializing := None |}.

Definition OwnershipObserver_ready (self : OwnershipObserver) : bool :=
  self.(synchronized) && (self.(active_count) =? self.(observer_config).(observer_shard_count)).

Definition OwnershipObserver_snapshot (self : OwnershipObserver) : list Assignment := OwnershipTable_snapshot self.(table).

(** The labels [run] watches. *)
Definition watched_labels (config : OwnershipObserverConfig) : string :=
  let labels := scope_selector config.(observer_region_id) config.(observer_realm_id) in
  match config.(additional_label_selector) with
  | Some extra => if String.eqb extra "" then labels else labels +:+ "," +:+ extra
  | None => labels
  end.

Definition publish (self : OwnershipObserver) (now : Z) : Result unit * OwnershipObserver :=
  let c := self.(observer_config) in
  let assignments := assignments_from_leases (snd <$> btree_iter self.(current)) now c.(observer_shard_count)
                       c.(observer_region_id) c.(observer_realm_id) in
  let '(r, table) := OwnershipTable_replace self.(table) assignments in
  (r, {| observer_config := c; table := table; synchronized := self.(synchronized); active_count := len assignments;
         current := self.(current); initializing := self.(initializing) |}).

Definition with_current (self : OwnershipObserver) (m : gmap string Lease) : OwnershipObserver :=
  {| observer_config := self.(observer_config); table := self.(table); synchronized := self.(synchronized);
     active_count := self.(active_count); current := m; initializing := self.(initializing) |}.

Definition with_initializing (self : OwnershipObserver) (m : option (gmap string Lease)) : OwnershipObserver :=
  {| observer_config := self.(observer_config); table := self.(table); synchronized := self.(synchronized);
     active_count := self.(active_count); current := self.(current); initializing := m |}.

Definition with_synchronized (self : OwnershipObserver) : OwnershipObserver :=
  {| observer_config := self.(observer_config); table := self.(table); synchronized := true; active_count := self.(active_count);
     current := self.(current); initializing := self.(initializing) |}.

(** [ResourceExt::name_any]. *)
Definition name_any (l : Lease) : string := default "" l.(lease_name).

(** What wakes the observer. *)
Inductive ObserverEvent : Type :=
| ExpiryTick
| WatchInit
| WatchInitApply (lease : Lease)
| WatchInitDone
| WatchApply (lease : Lease)
| WatchDelete (lease : Lease)
| WatchError
| WatchEnded.

(** A turn of the loop of [run]; an error ends it. *)
Definition OwnershipObserver_run_turn (self : OwnershipObserver) (now : Z) (event : ObserverEvent) : Result unit * OwnershipObserver :=
  match event with
  | ExpiryTick => if self.(synchronized) then publish self now else (Ok (), self)
  | WatchInit => (Ok (), with_initializing self (Some ∅))
  | WatchInitApply lease =>
      (Ok (), match self.(initializing) with
              | Some buffer => with_initializing self (Some (<[name_any lease := lease]> buffer))
              | None => self
              end)
  | WatchInitDone =>
      let self := match self.(initializing) with
                  | Some buffer => with_initializing (with_current self buffer) None
                  | None => self
                  end in
      match publish self now with
      | (Ok _, self) => (Ok (), with_synchronized self)
      | (Err e, self) => (Err e, self)
      end
  | WatchApply lease => publish (with_current self (<[name_any lease := lease]> self.(current))) now
  | WatchDelete lease => publish (with_current self (delete (name_any lease) self.(current))) now
  | WatchError => (Ok (), self)
  | WatchEnded => (Err Unavailable, self)
  end.

#[export] Instance OwnershipObserver_resolve : OwnershipResolver OwnershipObserver :=
  fun self region_id realm_id shard =>
    if negb (region_id =? self.(observer_config).(observer_region_id)) || negb (realm_id =? self.(observer_config).(observer_realm_id)) then
      Err Unavailable
    else resolve self.(table) region_id realm_id shard.

(** ** The coordinator *)

Record OwnershipCoordinatorConfig : Type := {
  coordinator_namespace : string;
  coordinator_region_id : Z;
  coordinator_realm_id : Z;
  coordinator_shard_count : Z;
  lease_duration : Z;
  renew_interval : Z;
}.

Definition OwnershipCoordinatorConfig_new (namespace : string) (region_id realm_id shard_count : Z) : OwnershipCoordinatorConfig :=
  {| coordinator_namespace := namespace; coordinator_region_id := region_id; coordinator_realm_id := realm_id;
     coordinator_shard_count := shard_count; lease_duration := 30 * 1000000000; renew_interval := 10 * 1000000000 |}.

Definition OwnershipCoordinatorConfig_validate (self : OwnershipCoordinatorConfig) : Result unit :=
  if trim_is_empty self.(coordinator_namespace) || (self.(coordinator_region_id) =? 0) || (self.(coordinator_realm_id) =? 0)
     || (self.(coordinator_shard_count) =? 0) then
    Err (InvalidConfig "Kubernetes coordinator namespace, region, realm and shard count are required")
  else if (self.(renew_interval) =? 0) || (self.(lease_duration) <=? self.(renew_interval))
          || (i32_max <? self.(lease_duration) / 1000000000) then
    Err (InvalidConfig "Kubernetes coordinator requires renew interval < lease duration")
  else Ok ().

Record OwnershipCoordinator : Type := {
  coordinator_config : OwnershipCoordinatorConfig;
  world_ids : list string;
}.

Definition OwnershipCoordinator_new (config : OwnershipCoordinatorConfig) : Result OwnershipCoordinator :=
  let? _ := OwnershipCoordinatorConfig_validate config in Ok {| coordinator_config := config; world_ids := [] |}.

(** [update_worlds], and with it the wake-up of [run]. *)
Definition OwnershipCoordinator_update_worlds (self : OwnershipCoordinator) (targets : list WorldRouteTarget) :
    Result unit * OwnershipCoordinator :=
  let ids := sort_by String.leb (remove_dups (target_world_id <$> targets)) in
  if existsb (fun id => String.eqb id "") ids then (Err (InvalidConfig "empty World instance ID"), self)
  else (Ok (), {| coordinator_config := self.(coordinator_config); world_ids := ids |}).

Definition OwnershipCoordinator_replace_targets (self : OwnershipCoordinator) (region_id realm_id : Z) (targets : list WorldRouteTarget) :
    Result unit * OwnershipCoordinator :=
  if negb (region_id =? self.(coordinator_config).(coordinator_region_id))
     || negb (realm_id =? self.(coordinator_config).(coordinator_realm_id)) then
    (Err (InvalidConfig "coordinator route scope mismatch"), self)
  else OwnershipCoordinator_update_worlds self targets.

(** [as_secs] as an [i32], where validation keeps it in range. *)
Definition duration_seconds (duration : Z) : Z := duration / 1000000000.

(** The lease [reconcile_lease] writes, from the one it read. *)
Definition reconciled_lease (c : OwnershipCoordinatorConfig) (name : string) (shard_id : Z) (world_id : string) (now : Z)
    (existing : option Lease) : Result Lease :=
  let duration := duration_seconds c.(lease_duration) in
  match existing with
  | Some lease =>
      if negb (scope_matches lease c.(coordinator_region_id) c.(coordinator_realm_id)) then
        Err (InvalidConfig ("Lease " +:+ name +:+ " belongs to another scope"))
      else
        let s := default LeaseSpec_default lease.(spec) in
        let transitions := Z.max (default 1 s.(lease_transitions)) 1 in
        if negb (bool_decide (s.(holder_identity) = Some world_id)) then
          match checked_add i32_max transitions 1 with
          | None => Err (Internal "Lease epoch exhausted")
          | Some next =>
              Ok (with_spec lease {| holder_identity := Some world_id; lease_duration_seconds := Some duration;
                                     acquire_time := Some now; renew_time := Some now; lease_transitions := Some next |})
          end
        else
          Ok (with_spec lease {| holder_identity := s.(holder_identity); lease_duration_seconds := Some duration;
                                 acquire_time := s.(acquire_time); renew_time := Some now;
                                 lease_transitions := s.(lease_transitions) |})
  | None =>
      Ok {| lease_name := Some name; labels := Some (lease_labels c.(coordinator_region_id) c.(coordinator_realm_id) shard_id);
            resource_version := None;
            spec := Some {| holder_identity := Some world_id; lease_duration_seconds := Some duration; acquire_time := Some now;
                            renew_time := Some now; lease_transitions := Some 1 |} |}
  end.

Section Server.
Context {A : Type} `{!LeaseApi A}.

(** The write at the end of [reconcile_lease] and [acquire_or_renew]. *)
Definition submit (s : A) (name : string) (lease : Lease) : result KubeError unit * A :=
  match lease.(resource_version) with
  | Some _ => replace s name lease
  | None => create s lease
  end.

(** [reconcile], suspended between the accesses of the server. *)
Inductive ReconcileTask : Type :=
| AtShard (worlds : list string) (shard_id : Z)
| WritingLease (worlds : list string) (shard_id : Z) (name : string) (lease : Lease)
| Finished (r : Result unit).

Definition reconcile_start (self : OwnershipCoordinator) : ReconcileTask :=
  match self.(world_ids) with [] => Finished (Ok ()) | worlds => AtShard worlds 0 end.

Definition shard_lease_name (c : OwnershipCoordinatorConfig) (shard_id : Z) : string :=
  lease_prefix c.(coordinator_region_id) c.(coordinator_realm_id) +:+ pretty shard_id.

(** To the next access of the server: the read of a lease, or its write. *)
Definition reconcile_step (self : OwnershipCoordinator) (now : Z) (s : A) (task : ReconcileTask) : ReconcileTask * A :=
  let c := self.(coordinator_config) in
  match task with
  | AtShard worlds shard_id =>
      if shard_id <? c.(coordinator_shard_count) then
        let name := shard_lease_name c shard_id in
        (match preferred_world shard_id worlds with
         | Err e => Finished (Err e)
         | Ok world_id =>
             match get_opt s name with
             | Err e => Finished (Err (kube_error e))
             | Ok existing =>
                 match reconciled_lease c name shard_id world_id now existing with
                 | Err e => Finished (Err e)
                 | Ok lease => WritingLease worlds shard_id name lease
                 end
             end
         end, s)
      else (Finished (Ok ()), s)
  | WritingLease worlds shard_id name lease =>
      let '(r, s) := submit s name lease in
      (match r with Ok _ => AtShard worlds (shard_id + 1) | Err e => Finished (Err (kube_error e)) end, s)
  | Finished _ => (task, s)
  end.
End Server.

(** ** Leader election *)

Inductive LeadershipError : Type :=
| LeaderInvalidConfig (message : string)
| Kubernetes (error : Error)
| Lost
| Runner (error : Error).

Record LeaderElectionConfig : Type := {
  leader_namespace : string;
  leader_region_id : Z;
  leader_realm_id : Z;
  leader_identity : string;
  leader_lease_duration : Z;
  renew_deadline : Z;
  retry_period : Z;
  release_on_cancel : bool;
}.

Definition LeaderElectionConfig_new (namespace : string) (region_id realm_id : Z) (identity : string) : LeaderElectionConfig :=
  {| leader_namespace := namespace; leader_region_id := region_id; leader_realm_id := realm_id; leader_identity := identity;
     leader_lease_duration := 15 * 1000000000; renew_deadline := 10 * 1000000000; retry_period := 2 * 1000000000;
     release_on_cancel := true |}.

Definition LeaderElectionConfig_validate (self : LeaderElectionConfig) : result LeadershipError unit :=
  if trim_is_empty self.(leader_namespace) || (self.(leader_region_id) =? 0) || (self.(leader_realm_id) =? 0)
     || trim_is_empty self.(leader_identity) then
    Err (LeaderInvalidConfig "namespace, region, realm and identity are required")
  else if (self.(retry_period) =? 0) || (self.(renew_deadline) <=? self.(retry_period))
          || (self.(leader_lease_duration) <=? self.(renew_deadline)) || (i32_max <? self.(leader_lease_duration) / 1000000000) then
    Err (LeaderInvalidConfig "require retry period < renew deadline < lease duration")
  else Ok ().

Definition leader_lease_name (c : LeaderElectionConfig) : string :=
  "elura-r" +:+ pretty c.(leader_region_id) +:+ "-realm" +:+ pretty c.(leader_realm_id) +:+ "-shard-coordinator".

(** The lease [acquire_or_renew] writes, from the one it read; [None] where another instance holds it. *)
Definition election_lease (config : LeaderElectionConfig) (now : Z) (current : option Lease) : option Lease :=
  let duration := duration_seconds config.(leader_lease_duration) in
  match current with
  | Some lease =>
      let s := default LeaseSpec_default lease.(spec) in
      let held_by_self := bool_decide (s.(holder_identity) = Some config.(leader_identity)) in
      let expired :=
        match s.(renew_time) with
        | None => true
        | Some renewed =>
            let seconds := Z.max (default duration s.(lease_duration_seconds)) 1 in
            renewed + seconds * 1000000000 <=? now
        end in
      if negb held_by_self && negb expired then None
      else
        Some (with_spec lease
          {| holder_identity := if held_by_self then s.(holder_identity) else Some config.(leader_identity);
             lease_duration_seconds := Some duration;
             acquire_time := if held_by_self then s.(acquire_time) else Some now;
             renew_time := Some now;
             lease_transitions :=
               if held_by_self then s.(lease_transitions)
               else Some (saturating_add i32_max (default 0 s.(lease_transitions)) 1) |})
  | None =>
      Some {| lease_name := Some (leader_lease_name config); labels := None; resource_version := None;
              spec := Some {| holder_identity := Some config.(leader_identity); lease_duration_seconds := Some duration;
                              acquire_time := Some now; renew_time := Some now; lease_transitions := Some 1 |} |}
  end.

(** The lease [release] writes, from the one it read; [None] where there is nothing to release. *)
Definition released_lease (identity : string) (now : Z) (current : option Lease) : option Lease :=
  match current with
  | None => None
  | Some lease =>
      let s := default LeaseSpec_default lease.(spec) in
      if negb (bool_decide (s.(holder_identity) = Some identity)) then None
      else
        Some (with_spec lease {| holder_identity := Some ""; lease_duration_seconds := Some 1; acquire_time := s.(acquire_time);
                                 renew_time := Some now; lease_transitions := s.(lease_transitions) |})
  end.

Section Election.
Context {A : Type} `{!LeaseApi A}.

(** [acquire_or_renew] to its read, and its write. *)
Definition acquire_read (config : LeaderElectionConfig) (now : Z) (s : A) : Result (option Lease) :=
  let? current := map_err kube_error (get_opt s (leader_lease_name config)) in Ok (election_lease config now current).

Definition acquire_write (config : LeaderElectionConfig) (lease : Lease) (s : A) : Result bool * A :=
  let '(r, s) := submit s (leader_lease_name config) lease in
  (match r with
   | Ok _ => Ok true
   | Err e => if bool_decide (e.(api_status) = Some 409) then Ok false else Err (kube_error e)
   end, s).

Definition release_read (config : LeaderElectionConfig) (now : Z) (s : A) : Result (option Lease) :=
  let? current := map_err kube_error (get_opt s (leader_lease_name config)) in Ok (released_lease config.(leader_identity) now current).

Definition release_write (config : LeaderElectionConfig) (lease : Lease) (s : A) : Result unit * A :=
  let '(r, s) := replace s (leader_lease_name config) lease in (map_err kube_error r, s).
End Election.

(** [run_leader_elected]: waiting for the lease, running the task, waiting for the cancelled task (after a shutdown or
    after the lease was lost), and done. *)
Inductive LeaderState : Type :=
| Candidate
| Leading (last_renewed : Z)
| Stopping (shutdown : bool)
| Returned (r : result LeadershipError unit).

Inductive LeaderEvent : Type :=
| Cancelled
| RetryDone (r : Result bool) (at_ : Z)
| TaskEnded (r : Result unit)
| TaskPanicked (text : string).

(** A branch of the loops, with whether [release] is called on the way. *)
Definition leader_turn (config : LeaderElectionConfig) (state : LeaderState) (event : LeaderEvent) : LeaderState * bool :=
  match state, event with
  | Candidate, Cancelled => (Returned (Ok ()), false)
  | Candidate, RetryDone (Ok true) at_ => (Leading at_, false)
  | Leading _, Cancelled => (Stopping true, false)
  | Leading _, TaskEnded r => (Returned (map_err Runner r), config.(release_on_cancel))
  | Leading _, TaskPanicked text => (Returned (Err (Runner (Internal text))), config.(release_on_cancel))
  | Leading _, RetryDone (Ok true) at_ => (Leading at_, false)
  | Leading _, RetryDone (Ok false) _ => (Stopping false, false)
  | Leading last_renewed, RetryDone (Err _) at_ =>
      if at_ - last_renewed <? config.(renew_deadline) then (Leading last_renewed, false) else (Stopping false, false)
  | Stopping true, TaskEnded r => (Returned (map_err Runner r), config.(release_on_cancel))
  | Stopping true, TaskPanicked text => (Returned (Err (Runner (Internal text))), false)
  | Stopping false, (TaskEnded _ | TaskPanicked _) => (Returned (Err Lost), false)
  | _, _ => (state, false)
  end.

(** The election is tried on every tick. *)
Definition retrying (state : LeaderState) : bool := match state with Candidate | Leading _ => true | _ => false end.

(** The task of the leader runs. *)
Definition task_running (state : LeaderState) : bool := match state with Leading _ | Stopping _ => true | _ => false end.

(** The holder and the number of transitions of a lease. *)
Definition content (l : Lease) (w : string) (e : Z) : Prop :=
  exists sp, l.(spec) = Some sp /\ sp.(holder_identity) = Some w /\ sp.(lease_transitions) = Some e.

(** ** From leases to owners *)

Lemma lease_assignment_spec l now count r m a t : lease_assignment l now count r m = Some (a, t) ->
  scope_matches l r m = true /\ label_of l SHARD_LABEL ≫= parse_unsigned u32_max = Some a.(shard_id) /\ a.(shard_id) < count
  /\ a.(region_id) = r /\ a.(realm_id) = m /\ content l a.(world_id) a.(epoch) /\ a.(world_id) <> "" /\ 1 <= a.(epoch)
  /\ exists sp d, l.(spec) = Some sp /\ sp.(renew_time) = Some t /\ sp.(lease_duration_seconds) = Some d
       /\ 0 < d /\ now < t + d * 1000000000.
Proof.
  unfold lease_assignment. destruct (scope_matches l r m); [cbn [negb]|done].
  destruct (label_of l SHARD_LABEL ≫= parse_unsigned u32_max) as [k|]; [|done]. cbn.
  destruct (Z.leb_spec count k); [done|]. destruct (spec l) as [sp|] eqn:Hsp; [|done]. cbn.
  destruct (holder_identity sp) as [w|] eqn:Hw; [|done]. cbn. destruct (String.eqb_spec w ""); [done|].
  destruct (lease_transitions sp) as [e|] eqn:He; [|done]. cbn. destruct (Z.leb_spec e 0); [done|].
  destruct (renew_time sp) as [t0|] eqn:Ht; [|done]. cbn. destruct (lease_duration_seconds sp) as [d|] eqn:Hd; [|done]. cbn.
  destruct (Z.leb_spec d 0); [done|]. cbn. destruct (Z.leb_spec (t0 + d * 1000000000) now); [done|]. intros [= <- <-]. cbn.
  split_and!; try done; try lia; [by exists sp|]. exists sp, d. split_and!; try done; lia.
Qed.

Lemma select_spec cands : forall sel,
  (forall k x, sel !! k = Some x -> k = x.1.(shard_id)) ->
  let m := foldl select_assignment sel cands in
  forall k x, m !! k = Some x -> k = x.1.(shard_id) /\ (x ∈ cands \/ sel !! k = Some x).
Proof.
  induction cands as [|c cands IH]; intros sel Hsel m k x Hm; [split; [by apply Hsel|by right]|].
  assert (Hs : forall k x, select_assignment sel c !! k = Some x -> k = x.1.(shard_id) /\ (x = c \/ sel !! k = Some x)).
  { intros k' x'. unfold select_assignment. destruct (match sel !! _ with Some _ => _ | None => _ end); [|eauto].
    intros [[<- <-]|[_ Hx]]%lookup_insert_Some; eauto. }
  destruct (IH (select_assignment sel c)) with k x as [Hk Hx]; [intros k' x' Hx'; by destruct (Hs k' x' Hx')|done|].
  split; [done|]. destruct Hx as [Hx|Hx]; [left; by right|]. destruct (Hs k x Hx) as [_ [->|Hx']]; [left; left|by right].
Qed.

(** Every assignment comes from a lease that is in force, and a shard has at most one. *)
Lemma assignments_spec ls now count r m a : a ∈ assignments_from_leases ls now count r m ->
  exists l t, l ∈ ls /\ lease_assignment l now count r m = Some (a, t).
Proof.
  unfold assignments_from_leases, sort_by_key. rewrite sort_by_perm, list_elem_of_fmap. intros ([k [a' t]] & -> & Hin%elem_of_map_to_list).
  apply select_spec in Hin as [_ [Hc|Hn]]; [|by rewrite lookup_empty in Hn|intros ? ? Hn; by rewrite lookup_empty in Hn].
  apply list_elem_of_omap in Hc as (l & Hl & Ha). eauto.
Qed.

Lemma assignments_nodup ls now count r m : NoDup (shard_id <$> assignments_from_leases ls now count r m).
Proof.
  unfold assignments_from_leases, sort_by_key. rewrite sort_by_perm, <-list_fmap_compose.
  set (sel := foldl _ _ _). assert (Hk : forall e, e ∈ map_to_list sel -> (shard_id ∘ (fun e => e.2.1)) e = e.1).
  { intros [k x] Hx%elem_of_map_to_list. cbn. apply select_spec in Hx as [-> _]; [done|]. intros ? ? Hn. by rewrite lookup_empty in Hn. }
  replace ((shard_id ∘ (fun e => e.2.1)) <$> map_to_list sel) with (map_to_list sel).*1; [apply NoDup_fst_map_to_list|].
  apply list_fmap_ext. intros i e He. symmetry. apply Hk. by eapply list_elem_of_lookup_2.
Qed.

(** ** Composition

    Coordinators, candidates for leadership and observers of one scope around one server. *)

(** A candidate, with the write it is about to make: of the election, or of the release. *)
Inductive ElectionCall : Type := AcquireCall (lease : Lease) | ReleaseCall (lease : Lease).

Record Elector : Type := {
  elector_config : LeaderElectionConfig;
  elector_state : LeaderState;
  call : option ElectionCall;
}.

Section System.
Context {A : Type} `{!LeaseApi A}.
Variables (region realm : Z).

(** [history] is every lease that the server was seen to hold after a write, with its name. *)
Record Cluster : Type := {
  server : A;
  history : list (string * Lease);
  coordinators : gmap nat (OwnershipCoordinator * ReconcileTask);
  electors : gmap nat Elector;
  observers : gmap nat OwnershipObserver;
}.

Definition set_coordinator (c : Cluster) (i : nat) (x : OwnershipCoordinator * ReconcileTask) : Cluster :=
  {| server := c.(server); history := c.(history); coordinators := <[i := x]> c.(coordinators); electors := c.(electors);
     observers := c.(observers) |}.

Definition set_elector (c : Cluster) (i : nat) (x : Elector) : Cluster :=
  {| server := c.(server); history := c.(history); coordinators := c.(coordinators); electors := <[i := x]> c.(electors);
     observers := c.(observers) |}.

Definition set_observer (c : Cluster) (i : nat) (x : OwnershipObserver) : Cluster :=
  {| server := c.(server); history := c.(history); coordinators := c.(coordinators); electors := c.(electors);
     observers := <[i := x]> c.(observers) |}.

(** After an access of the object [n]. *)
Definition set_server (c : Cluster) (s : A) (n : string) : Cluster :=
  {| server := s; history := c.(history) ++ match stored s n with Some l => [(n, l)] | None => [] end;
     coordinators := c.(coordinators); electors := c.(electors); observers := c.(observers) |}.

Definition in_scope_coordinator (c : OwnershipCoordinatorConfig) : Prop :=
  c.(coordinator_region_id) = region /\ c.(coordinator_realm_id) = realm /\ 0 <= c.(coordinator_shard_count) <= u32_max.

Definition in_scope_elector (c : LeaderElectionConfig) : Prop :=
  c.(leader_region_id) = region /\ c.(leader_realm_id) = realm /\ LeaderElectionConfig_validate c = Ok ().

Definition elector_at (e : Elector) (state : LeaderState) (call : option ElectionCall) : Elector :=
  {| elector_config := e.(elector_config); elector_state := state; call := call |}.

(** The watcher delivers leases the server held; leases of other scopes may come too. *)
Definition delivered (h : list (string * Lease)) (event : ObserverEvent) : Prop :=
  match event with
  | WatchInitApply l | WatchApply l => (exists n, (n, l) ∈ h) \/ scope_matches l region realm = false
  | _ => True
  end.

Inductive cluster_step : Cluster -> Cluster -> Prop :=
| step_new_coordinator c i config coordinator : in_scope_coordinator config -> c.(coordinators) !! i = None ->
    OwnershipCoordinator_new config = Ok coordinator -> cluster_step c (set_coordinator c i (coordinator, Finished (Ok ())))
| step_worlds c i coordinator task targets r coordinator' : c.(coordinators) !! i = Some (coordinator, task) ->
    OwnershipCoordinator_replace_targets coordinator region realm targets = (r, coordinator') ->
    cluster_step c (set_coordinator c i (coordinator', task))
| step_reconcile_start c i coordinator r : c.(coordinators) !! i = Some (coordinator, Finished r) ->
    cluster_step c (set_coordinator c i (coordinator, reconcile_start coordinator))
| step_reconcile_read c i coordinator worlds k now task s : c.(coordinators) !! i = Some (coordinator, AtShard worlds k) ->
    reconcile_step coordinator now c.(server) (AtShard worlds k) = (task, s) ->
    cluster_step c (set_coordinator c i (coordinator, task))
| step_reconcile_write c i coordinator worlds k name lease now task s :
    c.(coordinators) !! i = Some (coordinator, WritingLease worlds k name lease) ->
    reconcile_step coordinator now c.(server) (WritingLease worlds k name lease) = (task, s) ->
    cluster_step c (set_coordinator (set_server c s name) i (coordinator, task))
| step_new_elector c i config : in_scope_elector config -> c.(electors) !! i = None ->
    cluster_step c (set_elector c i {| elector_config := config; elector_state := Candidate; call := None |})
| step_acquire_read c i e now o : c.(electors) !! i = Some e -> e.(call) = None -> retrying e.(elector_state) = true ->
    acquire_read e.(elector_config) now c.(server) = Ok o ->
    cluster_step c (set_elector c i
      match o with
      | Some lease => elector_at e e.(elector_state) (Some (AcquireCall lease))
      | None => elector_at e (leader_turn e.(elector_config) e.(elector_state) (RetryDone (Ok false) now)).1 None
      end)
| step_acquire_failed c i e now error at_ : c.(electors) !! i = Some e -> e.(call) = None -> retrying e.(elector_state) = true ->
    acquire_read e.(elector_config) now c.(server) = Err error ->
    cluster_step c (set_elector c i (elector_at e (leader_turn e.(elector_config) e.(elector_state) (RetryDone (Err error) at_)).1 None))
| step_acquire_write c i e lease r s at_ : c.(electors) !! i = Some e -> e.(call) = Some (AcquireCall lease) ->
    acquire_write e.(elector_config) lease c.(server) = (r, s) ->
    cluster_step c (set_elector (set_server c s (leader_lease_name e.(elector_config))) i
      (elector_at e (leader_turn e.(elector_config) e.(elector_state) (RetryDone r at_)).1 None))
| step_elector_event c i e event now o : c.(electors) !! i = Some e -> e.(call) = None ->
    (forall r at_, event <> RetryDone r at_) ->
    (if (leader_turn e.(elector_config) e.(elector_state) event).2 then release_read e.(elector_config) now c.(server) = Ok o \/ o = None
     else o = None) ->
    cluster_step c (set_elector c i
      (elector_at e (leader_turn e.(elector_config) e.(elector_state) event).1 (ReleaseCall <$> o)))
| step_release_write c i e lease r s : c.(electors) !! i = Some e -> e.(call) = Some (ReleaseCall lease) ->
    release_write e.(elector_config) lease c.(server) = (r, s) ->
    cluster_step c (set_elector (set_server c s (leader_lease_name e.(elector_config))) i (elector_at e e.(elector_state) None))
| step_new_observer c i config o : config.(observer_region_id) = region -> config.(observer_realm_id) = realm ->
    c.(observers) !! i = None -> OwnershipObserver_new config = Ok o -> cluster_step c (set_observer c i o)
| step_observe c i o now event r o' : c.(observers) !! i = Some o -> delivered c.(history) event ->
    OwnershipObserver_run_turn o now event = (r, o') -> cluster_step c (set_observer c i o').

Definition shard_name (k : Z) : string := lease_prefix region realm +:+ pretty k.

Definition leader_name : string := "elura-r" +:+ pretty region +:+ "-realm" +:+ pretty realm +:+ "-shard-coordinator".

(** No lease of the scope exists yet. *)
Definition initial (s : A) : Cluster :=
  {| server := s; history := []; coordinators := ∅; electors := ∅; observers := ∅ |}.

Definition untouched (s : A) : Prop := (forall k, stored s (shard_name k) = None) /\ stored s leader_name = None.

Definition reachable (c : Cluster) : Prop := exists s, untouched s /\ rtc cluster_step (initial s) c.

(** ** Invariants *)

Lemma string_app_assoc (a b c : string) : a +:+ (b +:+ c) = (a +:+ b) +:+ c.
Proof. induction a as [|x a IH]; [done|]. change (String x (a +:+ (b +:+ c)) = String x ((a +:+ b) +:+ c)). by rewrite IH. Qed.

Definition fine_shard (k : Z) (l : Lease) : Prop :=
  l.(labels) = Some (lease_labels region realm k) /\ exists w e, content l w e /\ w <> "" /\ 1 <= e.

Definition fine (n : string) (l : Lease) : Prop :=
  (exists k, 0 <= k <= u32_max /\ n = shard_name k /\ fine_shard k l)
  \/ (n = leader_name /\ l.(labels) = None /\ exists h t, content l h t /\ t <= i32_max).

(** What may come after a lease: the transitions grow, or the holder stays; the lease of the election may be released,
    and its transitions saturate. *)
Definition follows (n : string) (l l' : Lease) : Prop :=
  exists w e w' e', content l w e /\ content l' w' e'
    /\ (e < e' \/ e = e' /\ (w' = w \/ (n = leader_name /\ (w' = "" \/ e = i32_max)))).

Lemma content_unique l w e w' e' : content l w e -> content l w' e' -> w = w' /\ e = e'.
Proof. intros (sp & Hs & Hh & He) (sp' & Hs' & Hh' & He'). split; congruence. Qed.

Lemma content_version l v w e : content (with_version l v) w e <-> content l w e.
Proof. done. Qed.

Lemma fine_shard_intro k l w e : 0 <= k <= u32_max -> l.(labels) = Some (lease_labels region realm k) -> content l w e -> w <> "" -> 1 <= e ->
  fine (shard_name k) l.
Proof. intros Hk Hl Hc Hw He. left. exists k. split; [done|]. split; [done|]. split; [done|]. by exists w, e. Qed.

Lemma fine_content n l : fine n l -> exists w e, content l w e.
Proof. intros [(k & _ & _ & _ & w & e & H & _)|(_ & _ & w & e & H & _)]; eauto. Qed.

Lemma lease_follows_refl n l : fine n l -> follows n l l.
Proof. intros (w & e & H)%fine_content. exists w, e, w, e. split_and!; auto. Qed.

Lemma lease_follows_trans n l1 l2 l3 : follows n l1 l2 -> follows n l2 l3 -> follows n l1 l3.
Proof.
  intros (w1 & e1 & w2 & e2 & C1 & C2 & H12) (w2' & e2' & w3 & e3 & C2' & C3 & H23).
  destruct (content_unique _ _ _ _ _ C2 C2') as [<- <-]. exists w1, e1, w3, e3. split_and!; [done..|].
  destruct H12 as [|[<- H12]], H23 as [|[<- H23]]; [left; lia..|]. right. split; [done|].
  destruct H12 as [->|[? [->|?]]], H23 as [->|[? [->|?]]]; auto.
Qed.

Lemma names_disjoint k : shard_name k <> leader_name.
Proof.
  unfold shard_name, leader_name, lease_prefix. intros H. rewrite <-!string_app_assoc in H.
  do 4 apply (inj (String.append _)) in H. done.
Qed.

Lemma shard_name_inj k k' : shard_name k = shard_name k' -> k = k'.
Proof. unfold shard_name. intros H%(inj (String.append _)). by apply (inj pretty) in H. Qed.

Definition scope_name (n : string) : Prop := n = leader_name \/ exists k, n = shard_name k.

Lemma fine_scope n l : fine n l -> scope_name n.
Proof. intros [(k & _ & -> & _)|(-> & _)]; [right; eauto|by left]. Qed.

(** The server and what it has held: all fine, and in the order of the writes. *)
Record ledger (s : A) (h : list (string * Lease)) : Prop := {
  ledger_stored : forall n l, scope_name n -> stored s n = Some l -> fine n l;
  ledger_history : forall n l, (n, l) ∈ h -> fine n l /\ exists x, stored s n = Some x /\ follows n l x;
  ledger_order : forall n l l', (n, l) ∈ h -> (n, l') ∈ h -> follows n l l' \/ follows n l' l;
}.

(** A write in flight: a lease to create, or one that follows the lease that was read. *)
Definition write_ok (s : A) (n : string) (l : Lease) : Prop :=
  fine n l /\
  match l.(resource_version) with
  | None => l.(lease_name) = Some n
  | Some v => exists s0 b, rtc api_step s0 s /\ stored s0 n = Some b /\ b.(resource_version) = Some v /\ follows n b l
  end.

Lemma write_ok_step s s' n l : api_step s s' -> write_ok s n l -> write_ok s' n l.
Proof.
  intros Hs [Hf Hw]. split; [done|]. destruct (resource_version l) as [v|]; [|done].
  destruct Hw as (s0 & b & Hr & ?). exists s0, b. split; [|done]. by eapply rtc_r.
Qed.

(** A successful write is of the lease in flight, after what the server held. *)
Definition wrote (s s' : A) (n : string) (l : Lease) : Prop :=
  written s s' n l /\ match stored s n with Some c => follows n c l | None => True end.

Context `{!LeaseApiLaws A}.

Lemma replace_ok s s' n l r v : write_ok s n l -> l.(resource_version) = Some v -> replace s n l = (r, s') ->
  api_step s s' /\ (unchanged s s' \/ wrote s s' n l).
Proof.
  intros [Hf Hw] Hv Hr. split; [right; eauto|]. rewrite Hv in Hw. destruct Hw as (s0 & b & Hreach & Hb & Hbv & Hfol).
  destruct (replace_effect _ _ _ _ _ Hr) as [[Hu _]|(c & Hc & Hcv & Hwr)]; [by left|]. right. split; [done|]. rewrite Hc.
  assert (c = b) as -> by (eapply version_identifies; [exact Hreach|exact Hb|exact Hc|congruence]). done.
Qed.

Lemma submit_ok s s' n l r : write_ok s n l -> submit s n l = (r, s') ->
  api_step s s' /\ (unchanged s s' \/ wrote s s' n l).
Proof.
  intros Hok. unfold submit. destruct (resource_version l) as [v|] eqn:Hv; [by eapply replace_ok|]. intros Hr.
  split; [left; eauto|]. destruct Hok as [_ Hname]. rewrite Hv in Hname.
  destruct (create_effect _ _ _ _ Hr) as [[Hu _]|(m & Hm & Hnone & Hwr)]; [by left|]. right.
  assert (m = n) as -> by congruence. split; [done|]. by rewrite Hnone.
Qed.

Lemma follows_version n l l' v : follows n l l' -> follows n l (with_version l' v).
Proof. done. Qed.

Lemma fine_version n l v : fine n l -> fine n (with_version l v).
Proof. done. Qed.

Lemma ledger_write s s' h n l : ledger s h -> fine n l -> unchanged s s' \/ wrote s s' n l ->
  ledger s' (h ++ match stored s' n with Some x => [(n, x)] | None => [] end).
Proof.
  intros [Hst Hh Ho] Hf Heff.
  assert (Hst' : forall m x, scope_name m -> stored s' m = Some x -> fine m x).
  { intros m x Hm Hx. destruct Heff as [Hu|[[[v Hv] Hother] _]]; [rewrite Hu in Hx; eauto|].
    destruct (decide (m = n)) as [->|Hne]; [|rewrite Hother in Hx by done; eauto].
    rewrite Hv in Hx. injection Hx as <-. by apply fine_version. }
  assert (Hh' : forall m x, (m, x) ∈ h -> fine m x /\ exists y, stored s' m = Some y /\ follows m x y).
  { intros m x Hx. destruct (Hh m x Hx) as (Hfx & y & Hy & Hxy). split; [done|].
    destruct Heff as [Hu|[[[v Hv] Hother] Hafter]]; [exists y; by rewrite Hu|].
    destruct (decide (m = n)) as [->|Hne]; [|exists y; by rewrite Hother].
    rewrite Hy in Hafter. exists (with_version l v). split; [done|]. by apply follows_version, (lease_follows_trans _ _ y). }
  destruct (stored s' n) as [x|] eqn:Hx; [|rewrite app_nil_r; by constructor].
  assert (Hfx : fine n x) by (apply Hst'; [by eapply fine_scope|done]). constructor; [done| |].
  - intros m y [Hy|Hy]%elem_of_app; [by apply Hh'|]. apply list_elem_of_singleton in Hy as [= -> ->].
    split; [done|]. exists x. split; [done|]. by apply lease_follows_refl.
  - intros m y y' [Hy|Hy]%elem_of_app [Hy'|Hy']%elem_of_app;
      rewrite ?list_elem_of_singleton in Hy; rewrite ?list_elem_of_singleton in Hy'.
    + by apply (Ho m).
    + injection Hy' as -> ->. destruct (Hh' n y Hy) as (_ & z & Hz & Hyz). rewrite Hx in Hz. injection Hz as <-. by left.
    + injection Hy as -> ->. destruct (Hh' n y' Hy') as (_ & z & Hz & Hyz). rewrite Hx in Hz. injection Hz as <-. by right.
    + injection Hy as -> ->. injection Hy' as ->. left. by apply lease_follows_refl.
Qed.

Lemma stored_fine s h n l : ledger s h -> scope_name n -> get_opt s n = Ok (Some l) ->
  fine n l /\ stored s n = Some l /\ is_Some l.(resource_version).
Proof.
  intros [Hst _ _] Hn Hg. apply get_opt_stored in Hg. symmetry in Hg. split_and!; [by apply Hst|done|by eapply stored_has_version].
Qed.

Lemma write_after s n l l' : stored s n = Some l -> is_Some l.(resource_version) -> l'.(resource_version) = l.(resource_version) ->
  fine n l' -> follows n l l' -> write_ok s n l'.
Proof.
  intros Hl [v Hv] Hv' Hf Hfol. split; [done|]. rewrite Hv', Hv. exists s, l. split_and!; [apply rtc_refl|done..].
Qed.

Lemma reconciled_ok s h c k w now o l : ledger s h -> in_scope_coordinator c -> 0 <= k <= u32_max -> w <> "" ->
  get_opt s (shard_lease_name c k) = Ok o -> reconciled_lease c (shard_lease_name c k) k w now o = Ok l ->
  write_ok s (shard_lease_name c k) l.
Proof.
  intros Hled (Hr & Hm & _) Hk Hw. assert (shard_lease_name c k = shard_name k) as ->.
  { unfold shard_lease_name, shard_name. by rewrite Hr, Hm. }
  intros Hg. unfold reconciled_lease. destruct o as [lease|].
  - apply (stored_fine s h) in Hg as (Hf & Hst & Hv); [|done|right; eauto]. destruct (negb _); [done|].
    destruct Hf as [(k' & _ & <-%shard_name_inj & Hlab & w0 & e0 & C & Hw0 & He0)|(Hn & _)]; [|by destruct (names_disjoint k)].
    pose proof C as (sp & Hsp & Hh & Ht). replace (default LeaseSpec_default (spec lease)) with sp by (by rewrite Hsp). rewrite Hh, Ht. change (default 1 (Some e0)) with e0. rewrite Z.max_l by lia.
    destruct (bool_decide_reflect (Some w0 = Some w)) as [[= ->]|Hne]; cbn [negb].
    + intros [= <-]. assert (C' : content (with_spec lease {| holder_identity := Some w; lease_duration_seconds :=
        Some (duration_seconds (lease_duration c)); acquire_time := acquire_time sp; renew_time := Some now; lease_transitions := Some e0 |}) w e0)
        by (eexists; split_and!; done).
      apply (write_after s _ lease); [done|done|done| |].
      * by apply (fine_shard_intro k _ w e0).
      * exists w, e0, w, e0. split_and!; auto.
    + destruct (checked_add i32_max e0 1) as [next|] eqn:Hn; [|done]. apply checked_add_Some in Hn as [-> _].
      intros [= <-]. assert (C' : content (with_spec lease {| holder_identity := Some w; lease_duration_seconds :=
        Some (duration_seconds (lease_duration c)); acquire_time := Some now; renew_time := Some now; lease_transitions := Some (e0 + 1) |}) w (e0 + 1))
        by (eexists; split_and!; done).
      apply (write_after s _ lease); [done|done|done| |].
      * apply (fine_shard_intro k _ w (e0 + 1)); try done. lia.
      * exists w0, e0, w, (e0 + 1). split_and!; [done|done|left; lia].
  - intros [= <-]. split; [|done]. apply (fine_shard_intro k _ w 1); try done; [cbn; congruence|]. eexists. by split_and!.
Qed.

Lemma elector_name c : in_scope_elector c -> leader_lease_name c = leader_name.
Proof. intros (Hr & Hm & _). unfold leader_lease_name, leader_name. by rewrite Hr, Hm. Qed.

Lemma leader_fine l : fine leader_name l -> l.(labels) = None /\ exists h t, content l h t /\ t <= i32_max.
Proof. intros [(k & _ & Hn & _)|(_ & H)]; [by destruct (names_disjoint k)|done]. Qed.

Lemma election_ok s h c now l : ledger s h -> in_scope_elector c -> acquire_read c now s = Ok (Some l) -> write_ok s leader_name l.
Proof.
  intros Hled Hc. unfold acquire_read. rewrite (elector_name c Hc). destruct (get_opt s leader_name) as [o|] eqn:Hg; [|done].
  cbn. unfold election_lease. destruct o as [lease|].
  - apply (stored_fine s h) in Hg as (Hf & Hst & Hv); [|done|by left]. destruct (leader_fine _ Hf) as (Hlab & w & t & C & Ht).
    pose proof C as (sp & Hsp & Hh & Hlt). replace (default LeaseSpec_default (spec lease)) with sp by (by rewrite Hsp). rewrite Hh, Hlt. change (default 0 (Some t)) with t.
    destruct (negb _ && _); [done|]. intros [= <-]. set (self := bool_decide _). 
    assert (C' : content (with_spec lease {| holder_identity := if self then Some w else Some (leader_identity c);
       lease_duration_seconds := Some (duration_seconds (leader_lease_duration c)); acquire_time := if self then acquire_time sp else Some now;
       renew_time := Some now; lease_transitions := if self then Some t else Some (saturating_add i32_max t 1) |})
       (if self then w else leader_identity c) (if self then t else saturating_add i32_max t 1)).
    { eexists. split; [done|]. cbn. by destruct self. }
    apply (write_after s _ lease); [done|done|done| |].
    + right. split_and!; [done|done|]. eexists _, _. split; [exact C'|]. destruct self; unfold saturating_add; lia.
    + eexists _, _, _, _. split_and!; [exact C|exact C'|]. destruct self; [auto|]. unfold saturating_add.
      destruct (decide (t + 1 <= i32_max)); [left; lia|]. right. split; [lia|]. right. split; [done|]. right. lia.
  - intros [= <-]. split; [|cbn; by rewrite (elector_name c Hc)]. right. split_and!; [done..|]. eexists _, _. split; [eexists; split_and!; done|].
    vm_compute. discriminate.
Qed.

Lemma released_ok s h c now l : ledger s h -> in_scope_elector c -> release_read c now s = Ok (Some l) ->
  write_ok s leader_name l /\ is_Some l.(resource_version).
Proof.
  intros Hled Hc. unfold release_read. rewrite (elector_name c Hc). destruct (get_opt s leader_name) as [o|] eqn:Hg; [|done].
  cbn. unfold released_lease. destruct o as [lease|]; [|done].
  apply (stored_fine s h) in Hg as (Hf & Hst & Hv); [|done|by left]. destruct (leader_fine _ Hf) as (Hlab & w & t & C & Ht).
  pose proof C as (sp & Hsp & Hh & Hlt). replace (default LeaseSpec_default (spec lease)) with sp by (by rewrite Hsp). rewrite Hlt.
  destruct (negb _); [done|]. intros [= <-]. split; [|done].
  assert (C' : content (with_spec lease {| holder_identity := Some ""; lease_duration_seconds := Some 1; acquire_time := acquire_time sp;
     renew_time := Some now; lease_transitions := Some t |}) "" t) by (eexists; split_and!; done).
  apply (write_after s _ lease); [done|done|done| |].
  - right. split_and!; [done|done|]. eexists _, _. by split; [exact C'|].
  - exists w, t, "", t. split_and!; [done|done|]. right. split; [done|]. right. auto.
Qed.

(** ** Observers *)

Definition seen (h : list (string * Lease)) (l : Lease) : Prop := (exists n, (n, l) ∈ h) \/ scope_matches l region realm = false.

(** An assignment that a lease of the history stood for. *)
Definition backed (h : list (string * Lease)) (a : Assignment) : Prop :=
  exists n l, (n, l) ∈ h /\ scope_matches l region realm = true
    /\ label_of l SHARD_LABEL ≫= parse_unsigned u32_max = Some a.(shard_id) /\ content l a.(world_id) a.(epoch).

Record observer_ok (h : list (string * Lease)) (o : OwnershipObserver) : Prop := {
  obs_scope : o.(observer_config).(observer_region_id) = region /\ o.(observer_config).(observer_realm_id) = realm;
  obs_config : OwnershipObserverConfig_validate o.(observer_config) = Ok ();
  obs_count : o.(table).(count) = o.(observer_config).(observer_shard_count);
  obs_table : forall key a, o.(table).(owners) !! key = Some a -> backed h a /\ key = shard_key a;
  obs_current : forall n l, o.(current) !! n = Some l -> seen h l;
  obs_initializing : forall m n l, o.(initializing) = Some m -> m !! n = Some l -> seen h l;
}.

Lemma seen_more h h' l : seen h l -> seen (h ++ h') l.
Proof. intros [[n Hn]|]; [left; exists n; set_solver|by right]. Qed.

Lemma backed_more h h' a : backed h a -> backed (h ++ h') a.
Proof. intros (n & l & Hin & ?). exists n, l. split; [set_solver|done]. Qed.

Lemma observer_more h h' o : observer_ok h o -> observer_ok (h ++ h') o.
Proof.
  intros [A1 B C D E F]. constructor; try done.
  - intros key a Ha. destruct (D key a Ha). split; [by apply backed_more|done].
  - intros n l Hl. by eapply seen_more, E.
  - intros m n l Hm Hl. by eapply seen_more, F.
Qed.

(** Publishing cannot fail. *)
Lemma observer_publish_ok h o now r o' : observer_ok h o -> publish o now = (r, o') -> r = Ok () /\ observer_ok h o'.
Proof.
  intros [[Hr Hm] Hval Hcount Htab Hcur Hini]. unfold publish, OwnershipTable_replace. rewrite Hr, Hm.
  set (l := assignments_from_leases _ _ _ _ _).
  assert (Hl : forall a, a ∈ l -> Assignment_validate a (count (table o)) = Ok () /\ backed h a /\ a.(region_id) = region /\ a.(realm_id) = realm).
  { intros a (x & t & Hx & Ha)%assignments_spec. apply lease_assignment_spec in Ha as (H1 & H2 & H3 & H4 & H5 & H6 & H7 & H8 & _).
    unfold OwnershipObserverConfig_validate in Hval. rewrite Hr, Hm in Hval.
    destruct (trim_is_empty _); [done|]. destruct (Z.eqb_spec region 0); [done|]. destruct (Z.eqb_spec realm 0); [done|].
    destruct (Z.eqb_spec (observer_shard_count (observer_config o)) 0); [done|].
    split; [|split; [|done]].
    - unfold Assignment_validate. rewrite Hcount, H4, H5.
      repeat match goal with |- context [?x =? ?y] => destruct (Z.eqb_spec x y); [lia|] end.
      destruct (Z.leb_spec (observer_shard_count (observer_config o)) (shard_id a)); [lia|]. by destruct (String.eqb_spec (world_id a) "").
    - apply list_elem_of_fmap in Hx as ([nm x'] & -> & Hx%elem_of_btree). destruct (Hcur _ _ Hx) as [[n' Hn']|Hs]; [|cbn in *; congruence].
      by exists n', x'. }
  assert (Hnd : NoDup (shard_key <$> l)).
  { pose proof (assignments_nodup (snd <$> btree_iter (current o)) now (observer_shard_count (observer_config o)) region realm) as Hn. fold l in Hn.
    apply (NoDup_fmap_1 (fun k => k.2)). rewrite <-list_fmap_compose. exact Hn. }
  pose proof (collect_assignments_spec (count (table o)) l ∅) as Hs. destruct (collect_assignments _ ∅ l) as [m|e].
  - destruct Hs as (_ & _ & _ & ->). intros [= <- <-]. split; [done|]. constructor; cbn; try done.
    intros key a. rewrite map_union_empty. intros Ha%elem_of_list_to_map_2%list_elem_of_fmap. destruct Ha as (b & [= -> <-] & Hb).
    split; [by apply Hl|done].
  - exfalso. apply Hs. split; [apply Forall_forall; intros a Ha; by apply Hl|]. split; [done|]. intros a _. by rewrite lookup_empty.
Qed.

Lemma observer_turn_ok h o now event r o' : observer_ok h o -> delivered h event ->
  OwnershipObserver_run_turn o now event = (r, o') -> observer_ok h o' /\ (event <> WatchEnded -> r = Ok ()).
Proof.
  intros Hok Hdel. pose proof Hok as [A1 B C D E F].
  assert (Hcur : forall m, (forall n l, m !! n = Some l -> seen h l) -> observer_ok h (with_current o m)) by (intros m Hm; by constructor).
  destruct event as [| |l| |l|l| |]; cbn [OwnershipObserver_run_turn].
  - destruct (synchronized o); [|by intros [= <- <-]]. intros Hp. apply (observer_publish_ok h) in Hp as [-> ?]; done.
  - intros [= <- <-]. split; [|done]. constructor; try done. intros m n x [= <-]. by rewrite lookup_empty.
  - intros [= <- <-]. split; [|done]. destruct (initializing o) as [b|] eqn:Hb; [|done]. constructor; try done.
    intros m n x [= <-]. cbn. intros [[_ <-]|[_ Hx]]%lookup_insert_Some; [done|by apply (F b n)].
  - assert (Hok' : observer_ok h (match initializing o with Some buffer => with_initializing (with_current o buffer) None | None => o end)).
    { destruct (initializing o) as [b|] eqn:Hb; [|done]. constructor; try done. cbn. intros n x. by apply F. }
    destruct (publish _ now) as [r1 o1] eqn:Hp. apply (observer_publish_ok h) in Hp as [-> Hok1]; [|done]. intros [= <- <-]. split; [|done].
    destruct Hok1. by constructor.
  - intros Hp. apply (observer_publish_ok h) in Hp as [-> ?]; [done|]. apply Hcur. intros n x [[_ <-]|[_ Hx]]%lookup_insert_Some; [done|by apply (E n)].
  - intros Hp. apply (observer_publish_ok h) in Hp as [-> ?]; [done|]. apply Hcur. intros n x [_ Hx]%lookup_delete_Some. by apply (E n).
  - by intros [= <- <-].
  - intros [= <- <-]. by split.
Qed.

Lemma observer_new_ok h config o : config.(observer_region_id) = region -> config.(observer_realm_id) = realm ->
  OwnershipObserver_new config = Ok o -> observer_ok h o.
Proof.
  intros Hr Hm. unfold OwnershipObserver_new. destruct (OwnershipObserverConfig_validate config) as [[]|] eqn:Hv; [|done]. cbn.
  unfold OwnershipTable_new. destruct (_ =? 0); [done|]. cbn. intros [= <-].
  constructor; cbn; try done; try (intros ? ? Hl; by rewrite lookup_empty in Hl).
Qed.

(** ** The invariant of a cluster *)

Definition coordinator_ok (s : A) (x : OwnershipCoordinator * ReconcileTask) : Prop :=
  in_scope_coordinator x.1.(coordinator_config) /\
  match x.2 with
  | AtShard _ k => 0 <= k
  | WritingLease _ k n l => 0 <= k /\ write_ok s n l
  | Finished _ => True
  end.

Definition elector_ok (s : A) (e : Elector) : Prop :=
  in_scope_elector e.(elector_config) /\
  match e.(call) with
  | None => True
  | Some (AcquireCall l) => write_ok s leader_name l
  | Some (ReleaseCall l) => write_ok s leader_name l /\ is_Some l.(resource_version)
  end.

Record cluster_inv (c : Cluster) : Prop := {
  inv_ledger : ledger c.(server) c.(history);
  inv_coordinators : map_Forall (fun _ => coordinator_ok c.(server)) c.(coordinators);
  inv_electors : map_Forall (fun _ => elector_ok c.(server)) c.(electors);
  inv_observers : map_Forall (fun _ => observer_ok c.(history)) c.(observers);
}.

Lemma coordinator_ok_step s s' x : api_step s s' -> coordinator_ok s x -> coordinator_ok s' x.
Proof. intros Hs [Hc Ht]. split; [done|]. destruct x.2; try done. destruct Ht. split; [done|]. by eapply write_ok_step. Qed.

Lemma elector_ok_step s s' e : api_step s s' -> elector_ok s e -> elector_ok s' e.
Proof.
  intros Hs [Hc Ht]. split; [done|]. destruct (call e) as [[l|l]|]; [by eapply write_ok_step| |done].
  destruct Ht. split; [by eapply write_ok_step|done].
Qed.

Lemma cluster_write c s n l : cluster_inv c -> fine n l -> api_step c.(server) s -> unchanged c.(server) s \/ wrote c.(server) s n l ->
  cluster_inv (set_server c s n).
Proof.
  intros [Hl Hc He Ho] Hf Hs Heff. constructor; cbn.
  - by apply (ledger_write (server c) s (history c) n l).
  - intros i x Hx. eapply coordinator_ok_step; [done|by apply (Hc i)].
  - intros i x Hx. eapply elector_ok_step; [done|by apply (He i)].
  - intros i x Hx. by apply observer_more, (Ho i).
Qed.

Lemma inv_set_coordinator c i x : cluster_inv c -> coordinator_ok c.(server) x -> cluster_inv (set_coordinator c i x).
Proof. intros [Hl Hc He Ho] Hx. constructor; try done. by apply map_Forall_insert_2. Qed.

Lemma inv_set_elector c i x : cluster_inv c -> elector_ok c.(server) x -> cluster_inv (set_elector c i x).
Proof. intros [Hl Hc He Ho] Hx. constructor; try done. by apply map_Forall_insert_2. Qed.

Lemma inv_set_observer c i x : cluster_inv c -> observer_ok c.(history) x -> cluster_inv (set_observer c i x).
Proof. intros [Hl Hc He Ho] Hx. constructor; try done. by apply map_Forall_insert_2. Qed.

Lemma replace_targets_config co r m targets res co' :
  OwnershipCoordinator_replace_targets co r m targets = (res, co') -> co'.(coordinator_config) = co.(coordinator_config).
Proof.
  unfold OwnershipCoordinator_replace_targets, OwnershipCoordinator_update_worlds. destruct (_ || _); [by intros [= _ <-]|].
  destruct (existsb _ _); by intros [= _ <-].
Qed.

Lemma reconcile_read_ok c co worlds k now task s : cluster_inv c -> coordinator_ok c.(server) (co, AtShard worlds k) ->
  reconcile_step co now c.(server) (AtShard worlds k) = (task, s) -> coordinator_ok c.(server) (co, task).
Proof.
  intros Hinv [Hc Hk]. cbn in Hc, Hk. cbn [reconcile_step].
  destruct (Z.ltb_spec k (coordinator_shard_count (coordinator_config co))); [|by intros [= <- <-]].
  intros [= <- <-]. split; [done|]. cbn. destruct (preferred_world k worlds) as [w|] eqn:Hw; [|done].
  destruct (get_opt _ _) as [o|] eqn:Hg; [|done]. destruct (reconciled_lease _ _ _ _ _ _) as [l|] eqn:Hl; [|done].
  split; [done|]. apply (reconciled_ok _ (history c) _ k w now o); try done; [apply Hinv| |].
  - destruct Hc as (_ & _ & Hn). lia.
  - apply preferred_world_spec in Hw as ([_ Hne] & Hin & _). by intros ->.
Qed.

Lemma reconcile_write_ok c i co worlds k name l now task s : cluster_inv c -> c.(coordinators) !! i = Some (co, WritingLease worlds k name l) ->
  reconcile_step co now c.(server) (WritingLease worlds k name l) = (task, s) ->
  cluster_inv (set_coordinator (set_server c s name) i (co, task)).
Proof.
  intros Hinv Hi. destruct (inv_coordinators c Hinv i _ Hi) as [Hc [Hk Hw]]. cbn [reconcile_step].
  destruct (submit (server c) name l) as [r s'] eqn:Hs. intros [= <- <-].
  destruct (submit_ok _ _ _ _ _ Hw Hs) as [Hstep Heff]. apply inv_set_coordinator.
  - apply (cluster_write c s' name l); [done|apply Hw|done|done].
  - split; [done|]. destruct r; [cbn; lia|done].
Qed.

Lemma acquire_write_ok c i e l r s at_ : cluster_inv c -> c.(electors) !! i = Some e -> e.(call) = Some (AcquireCall l) ->
  acquire_write e.(elector_config) l c.(server) = (r, s) ->
  cluster_inv (set_elector (set_server c s (leader_lease_name e.(elector_config))) i
    (elector_at e (leader_turn e.(elector_config) e.(elector_state) (RetryDone r at_)).1 None)).
Proof.
  intros Hinv Hi Hcall. destruct (inv_electors c Hinv i _ Hi) as [Hc Hw]. rewrite Hcall in Hw. unfold acquire_write.
  rewrite (elector_name _ Hc). destruct (submit (server c) leader_name l) as [r' s'] eqn:Hs. intros [= _ <-].
  destruct (submit_ok _ _ _ _ _ Hw Hs) as [Hstep Heff]. apply inv_set_elector; [|done].
  apply (cluster_write c s' leader_name l); [done|apply Hw|done|done].
Qed.

Lemma release_write_ok c i e l r s : cluster_inv c -> c.(electors) !! i = Some e -> e.(call) = Some (ReleaseCall l) ->
  release_write e.(elector_config) l c.(server) = (r, s) ->
  cluster_inv (set_elector (set_server c s (leader_lease_name e.(elector_config))) i (elector_at e e.(elector_state) None)).
Proof.
  intros Hinv Hi Hcall. destruct (inv_electors c Hinv i _ Hi) as [Hc Hw]. rewrite Hcall in Hw. destruct Hw as [Hw [v Hv]]. unfold release_write.
  rewrite (elector_name _ Hc). destruct (replace (server c) leader_name l) as [r' s'] eqn:Hs. intros [= _ <-].
  destruct (replace_ok _ _ _ _ _ _ Hw Hv Hs) as [Hstep Heff]. apply inv_set_elector; [|done].
  apply (cluster_write c s' leader_name l); [done|apply Hw|done|done].
Qed.

Lemma cluster_step_inv c c' : cluster_inv c -> cluster_step c c' -> cluster_inv c'.
Proof.
  intros Hinv Hstep. pose proof Hinv as [Hl Hc He Ho].
  destruct Hstep as [c i config co Hsc _ Hnew|c i co task targets r co' Hi Ht|c i co r Hi|c i co worlds k now task s Hi Hr
    |c i co worlds k name l now task s Hi Hr|c i config Hsc _|c i e now o Hi _ _ Hr|c i e now error at_ Hi _ _ _
    |c i e l r s at_ Hi Hcall Hr|c i e event now o Hi _ _ Hrel|c i e l r s Hi Hcall Hr|c i config o Hr Hm _ Hnew|c i o now event r o' Hi Hdel Ht].
  - apply inv_set_coordinator; [done|]. unfold OwnershipCoordinator_new in Hnew.
    destruct (OwnershipCoordinatorConfig_validate config); [|done]. injection Hnew as <-. done.
  - apply inv_set_coordinator; [done|]. destruct (Hc i _ Hi) as [Hsc Htask]. split; [|done]. cbn. by rewrite (replace_targets_config _ _ _ _ _ _ Ht).
  - apply inv_set_coordinator; [done|]. destruct (Hc i _ Hi) as [Hsc _]. split; [done|]. unfold reconcile_start. cbn. by destruct (world_ids co).
  - apply inv_set_coordinator; [done|]. eapply reconcile_read_ok; [done|by apply (Hc i)|done].
  - by eapply reconcile_write_ok.
  - by apply inv_set_elector.
  - destruct (He i _ Hi) as [Hsc _]. apply inv_set_elector; [done|]. destruct o as [l|]; [|done]. split; [done|]. cbn.
    by eapply election_ok.
  - destruct (He i _ Hi) as [Hsc _]. by apply inv_set_elector.
  - by eapply acquire_write_ok.
  - destruct (He i _ Hi) as [Hsc _]. apply inv_set_elector; [done|]. split; [done|]. cbn. destruct o as [l|]; [|done]. cbn.
    destruct (leader_turn _ _ _).2; [|done]. destruct Hrel as [Hrel|]; [|done]. by eapply released_ok.
  - by eapply release_write_ok.
  - apply inv_set_observer; [done|]. by eapply observer_new_ok.
  - apply inv_set_observer; [done|]. eapply observer_turn_ok; [by apply (Ho i)|done|done].
Qed.

Lemma cluster_initial_inv s : untouched s -> cluster_inv (initial s).
Proof.
  intros [Hs Hlead]. constructor; cbn; [|apply map_Forall_empty..]. constructor; cbn; [|set_solver..].
  intros n l [->|[k ->]] Hn; [congruence|]. by rewrite Hs in Hn.
Qed.

Lemma reachable_inv c : reachable c -> cluster_inv c.
Proof.
  intros (s & Hs & Hrun). apply cluster_initial_inv in Hs. induction Hrun as [|c1 c2 c3 Hstep _ IH]; [done|]. apply IH. by eapply cluster_step_inv.
Qed.

(** The shard of a lease is the one its name was made for. *)
Lemma fine_label n l k : fine n l -> scope_matches l region realm = true -> label_of l SHARD_LABEL ≫= parse_unsigned u32_max = Some k ->
  n = shard_name k.
Proof.
  intros [(k' & Hk & -> & Hlab & _)|(_ & Hlab & _)].
  - intros _. unfold label_of. rewrite Hlab. cbn -[lease_labels parse_unsigned]. unfold lease_labels. rewrite lookup_insert_eq.
    cbn -[parse_unsigned]. rewrite parse_unsigned_pretty by done. by intros [= ->].
  - unfold scope_matches, label_of. by rewrite Hlab.
Qed.

(** One owner per shard and epoch, whatever the leases were when they were seen. *)
Lemma backed_unique s h a a' : ledger s h -> backed h a -> backed h a' -> a.(shard_id) = a'.(shard_id) -> a.(epoch) = a'.(epoch) ->
  a.(world_id) = a'.(world_id).
Proof.
  intros Hled (n & l & Hin & Hs & Hk & C) (n' & l' & Hin' & Hs' & Hk' & C') Hshard Hepoch.
  assert (Hn : n = shard_name (shard_id a)) by (eapply fine_label; [by apply (ledger_history s h Hled)|done|done]).
  assert (Hn' : n' = shard_name (shard_id a)) by (rewrite Hshard; eapply fine_label; [by apply (ledger_history s h Hled)|done|done]).
  subst n n'. assert (Hone : forall x y w e w' e', content x w e -> content y w' e' -> e = e' -> follows (shard_name (shard_id a)) x y -> w = w').
  { intros x y w e w' e' Cx Cy <- (w1 & e1 & w2 & e2 & C1 & C2 & Hf). destruct (content_unique _ _ _ _ _ Cx C1) as [<- <-].
    destruct (content_unique _ _ _ _ _ Cy C2) as [<- <-]. destruct Hf as [|[_ [->|[Hx _]]]]; [lia|done|by destruct (names_disjoint (shard_id a))]. }
  destruct (ledger_order s h Hled _ _ _ Hin Hin') as [Hf|Hf]; [by eapply Hone|]. symmetry. by eapply Hone.
Qed.

(** One holder per term of the election. *)
Lemma term_unique s h l l' w w' t : ledger s h -> (leader_name, l) ∈ h -> (leader_name, l') ∈ h -> content l w t -> content l' w' t ->
  w <> "" -> w' <> "" -> t < i32_max -> w = w'.
Proof.
  intros Hled Hin Hin' C C' Hw Hw' Ht.
  assert (Hone : forall x y u u', content x u t -> content y u' t -> u' <> "" -> follows leader_name x y -> u = u').
  { intros x y u u' Cx Cy Hne (w1 & e1 & w2 & e2 & C1 & C2 & Hf). destruct (content_unique _ _ _ _ _ Cx C1) as [<- <-].
    destruct (content_unique _ _ _ _ _ Cy C2) as [<- <-]. destruct Hf as [|[_ [->|[_ [->|]]]]]; [lia|done|done|lia]. }
  destruct (ledger_order s h Hled _ _ _ Hin Hin') as [Hf|Hf]; [by eapply Hone|]. symmetry. by eapply Hone.
Qed.

Lemma resolve_backed h o k a : observer_ok h o -> resolve o region realm k = Ok a -> backed h a /\ a.(shard_id) = k.
Proof.
  intros Hok. unfold resolve, OwnershipObserver_resolve. destruct (_ || _); [done|]. unfold resolve, OwnershipTable_resolve.
  destruct (_ || _); [done|]. destruct (owners (table o) !! (region, realm, k)) as [b|] eqn:Hb; [|done]. intros [= ->].
  destruct (obs_table h o Hok _ _ Hb) as [Hback Hkey]. split; [done|]. unfold shard_key in Hkey. by injection Hkey.
Qed.

(** C5: An epoch of a shard has one owner.  Any number of coordinators that assign the shards, candidates that elect the
    active one, and observers that build tables of owners work against one API server; every read and write may
    interleave with those of the others, calls may fail after they took effect, and watchers may deliver leases that
    are long outdated.  Whatever happens, two observers that resolve a shard with the same epoch name the same world,
    so that the epoch a gateway sends with a command fences off every other world; an observer's update fails only
    when its watch has ended; and a term of the election has one holder, until its 32-bit counter is exhausted. *)
Theorem shard_epoch_has_one_owner c : reachable c ->
  (forall i j o o' k a a', c.(observers) !! i = Some o -> c.(observers) !! j = Some o' ->
    resolve o region realm k = Ok a -> resolve o' region realm k = Ok a' -> a.(epoch) = a'.(epoch) -> a.(world_id) = a'.(world_id))
  /\ (forall i o now event r o', c.(observers) !! i = Some o -> delivered c.(history) event -> event <> WatchEnded ->
        OwnershipObserver_run_turn o now event = (r, o') -> r = Ok ())
  /\ (forall l l' w w' t, (leader_name, l) ∈ c.(history) -> (leader_name, l') ∈ c.(history) -> content l w t -> content l' w' t ->
        w <> "" -> w' <> "" -> t < i32_max -> w = w').
Proof.
  intros Hc%reachable_inv. pose proof Hc as [Hl _ _ Ho]. split_and!.
  - intros i j o o' k a a' Hi Hj Ha Ha' He. destruct (resolve_backed _ _ _ _ (Ho i o Hi) Ha) as [Hb <-].
    destruct (resolve_backed _ _ _ _ (Ho j o' Hj) Ha') as [Hb' Hk]. by eapply backed_unique.
  - intros i o now event r o' Hi Hdel Hne Ht. by eapply observer_turn_ok; [by apply (Ho i)|done..].
  - intros l l' w w' t. by apply (term_unique c.(server)).
Qed.
End System.

(** A lease written for less than a second is never in force: the coordinator accepts such a duration. *)
Lemma subsecond_lease_never_assigned c name k w now o l t count r m :
  0 <= c.(lease_duration) < 1000000000 -> reconciled_lease c name k w now o = Ok l -> lease_assignment l t count r m = None.
Proof.
  intros Hd Hl. destruct (lease_assignment l t count r m) as [[a x]|] eqn:Ha; [exfalso|done].
  apply lease_assignment_spec in Ha as (_ & _ & _ & _ & _ & _ & _ & _ & sp & d & Hsp & _ & Hds & Hpos & _).
  assert (Hzero : duration_seconds (lease_duration c) = 0) by (unfold duration_seconds; apply Z.div_small; lia).
  unfold reconciled_lease in Hl. rewrite Hzero in Hl.
  assert (sp.(lease_duration_seconds) = Some 0); [|congruence || (assert (d = 0) by congruence; lia)].
  destruct o as [lease|]; [|by simplify_eq/=]. destruct (negb _); [done|].
  destruct (negb _); [destruct (checked_add _ _ _); [|done]|]; by simplify_eq/=.
Qed.

(** ** A server and a run *)

Module KubernetesExamples.
(** Every write, newest first; the version of an object is the number of writes before its own. *)
Definition Log : Type := list (string * Lease).

Fixpoint log_stored (s : Log) (n : string) : option Lease :=
  match s with
  | [] => None
  | (m, l) :: s => if String.eqb m n then Some (with_version l (pretty (Z.of_nat (length s)))) else log_stored s n
  end.

Definition conflict : KubeError := {| api_status := Some 409; error_text := "conflict" |}.

Definition log_create (s : Log) (l : Lease) : result KubeError unit * Log :=
  match l.(lease_name) with
  | Some n => match log_stored s n with None => (Ok (), (n, l) :: s) | Some _ => (Err conflict, s) end
  | None => (Err {| api_status := Some 422; error_text := "name required" |}, s)
  end.

Definition log_replace (s : Log) (n : string) (l : Lease) : result KubeError unit * Log :=
  match log_stored s n with
  | Some c => if bool_decide (c.(resource_version) = l.(resource_version)) then (Ok (), (n, l) :: s) else (Err conflict, s)
  | None => (Err {| api_status := Some 404; error_text := "not found" |}, s)
  end.

#[local] Instance log_api : LeaseApi Log :=
  {| stored := log_stored; get_opt := fun s n => Ok (log_stored s n); create := log_create; replace := log_replace |}.

Lemma log_stored_split s n l : log_stored s n = Some l ->
  exists t b r, s = t ++ (n, b) :: r /\ l = with_version b (pretty (Z.of_nat (length r))).
Proof.
  induction s as [|[m b] s IH]; [done|]. cbn. destruct (String.eqb_spec m n) as [->|]; [intros [= <-]; by exists [], b, s|].
  intros (t & b' & r & -> & ->)%IH. by exists ((m, b) :: t), b', r.
Qed.

Lemma log_step_suffix s s' : api_step s s' -> exists t, s' = t ++ s.
Proof.
  intros [(l & r & H)|(n & l & r & H)]; cbn in H.
  - unfold log_create in H. destruct (lease_name l) as [n|]; [destruct (log_stored s n)|]; injection H as _ <-; [by exists []|by exists [(n, l)]|by exists []].
  - unfold log_replace in H. destruct (log_stored s n); [destruct (bool_decide _)|]; injection H as _ <-; [by exists [(n, l)]|by exists []|by exists []].
Qed.

Lemma log_steps_suffix s s' : rtc api_step s s' -> exists t, s' = t ++ s.
Proof.
  induction 1 as [s|s1 s2 s3 Hs _ [t ->]]; [by exists []|]. apply log_step_suffix in Hs as [t' ->]. exists (t ++ t'). by rewrite app_assoc.
Qed.

Lemma log_written s n l : written s ((n, l) :: s) n l.
Proof.
  split; [eexists; cbn; by rewrite String.eqb_refl|]. intros m Hm. cbn. by destruct (String.eqb_spec n m).
Qed.

#[local] Instance log_laws : LeaseApiLaws Log.
Proof.
  constructor; cbn.
  - intros s n o. congruence.
  - intros s n l (t & b & r & _ & ->)%log_stored_split. by eexists.
  - intros s s' l r. unfold log_create. destruct (lease_name l) as [n|]; [|intros [= <- <-]; by left].
    destruct (log_stored s n) eqn:Hn; intros [= <- <-]; [by left|]. right. exists n. split_and!; [done|done|apply log_written].
  - intros s s' n l r. unfold log_replace. destruct (log_stored s n) as [c|] eqn:Hn; [|intros [= <- <-]; by left].
    destruct (bool_decide_reflect (resource_version c = resource_version l)); intros [= <- <-]; [|by left].
    right. exists c. split_and!; [done|done|apply log_written].
  - intros s s' n l l' [t ->]%log_steps_suffix (t1 & b & r & -> & ->)%log_stored_split (t2 & b' & r' & Heq & ->)%log_stored_split. cbn.
    intros [= Hv%(inj pretty)%(inj Z.of_nat)]. rewrite app_assoc in Heq. apply app_inj_2 in Heq as [_ [= -> ->]]; [done|]. cbn. lia.
Qed.

Definition coordinator_config0 : OwnershipCoordinatorConfig := OwnershipCoordinatorConfig_new "games" 1 2 1.
Definition observer_config0 : OwnershipObserverConfig := OwnershipObserverConfig_new "games" 1 2 1.
Definition election_config (identity : string) : LeaderElectionConfig := LeaderElectionConfig_new "games" 1 2 identity.
Definition target0 : WorldRouteTarget := {| target_world_id := "world-a"; target_address := {| addr_ip := V4 1; addr_port := 7000 |} |}.

(** A step whose conditions compute. *)
Tactic Notation "take_step" uconstr(step) := eapply rtc_l; [eapply step; first [done | vm_compute; reflexivity | split_and!; vm_compute; congruence | idtac]|].

Lemma empty_untouched : untouched 1 2 ([] : Log).
Proof. done. Qed.

(** A coordinator assigns the shard, and an observer that sees the lease resolves it. *)
Lemma shard_epoch_has_one_owner_witness :
  exists (c : Cluster (A := Log)) o a, reachable 1 2 c /\ c.(observers) !! 0%nat = Some o /\ resolve o 1 2 0 = Ok a /\ a.(world_id) = "world-a"
    /\ forall j o' a', c.(observers) !! j = Some o' -> resolve o' 1 2 0 = Ok a' -> a'.(epoch) = 1 -> a'.(world_id) = "world-a".
Proof.
  assert (Hc : exists (c : Cluster (A := Log)) o a, reachable 1 2 c /\ c.(observers) !! 0%nat = Some o /\ resolve o 1 2 0 = Ok a
    /\ a.(world_id) = "world-a" /\ a.(epoch) = 1).
  { eexists _, _, _. split.
    - exists []. split; [exact empty_untouched|].
      take_step (step_new_coordinator 1 2 _ 0%nat coordinator_config0).
      take_step (step_worlds 1 2 _ 0%nat _ _ [target0]).
      take_step (step_reconcile_start 1 2 _ 0%nat).
      take_step (step_reconcile_read 1 2 _ 0%nat _ _ _ 1000).
      take_step (step_reconcile_write 1 2 _ 0%nat _ _ _ _ _ 1000).
      take_step (step_new_observer 1 2 _ 0%nat observer_config0).
      eapply rtc_l; [eapply (step_observe 1 2 _ 0%nat _ 2000 (WatchApply _));
        [vm_compute; reflexivity|left; eexists; cbn; left|vm_compute; reflexivity]|].
      apply rtc_refl.
    - split_and!; [vm_compute; reflexivity|vm_compute; reflexivity|reflexivity|reflexivity]. }
  destruct Hc as (c & o & a & Hr & Ho & Ha & Hw & He). exists c, o, a. split_and!; [exact Hr|exact Ho|exact Ha|exact Hw|].
  intros j o' a' Hj Ha' He'. rewrite <-Hw.
  exact (proj1 (shard_epoch_has_one_owner 1 2 c Hr) j 0%nat o' o 0 a' a Hj Ho Ha' Ha (eq_trans He' (eq_sym He))).
Defined.

(** Nothing bounds a renewal: while the call of a leader hangs, its lease expires and another candidate becomes leader.
    Both run their tasks. *)
Lemma leaders_overlap : exists (c : Cluster (A := Log)) e e', reachable 1 2 c
  /\ c.(electors) !! 0%nat = Some e /\ c.(electors) !! 1%nat = Some e' /\ e.(elector_config).(leader_identity) = "gateway-a"
  /\ e'.(elector_config).(leader_identity) = "gateway-b" /\ task_running e.(elector_state) = true /\ task_running e'.(elector_state) = true.
Proof.
  eexists _, _, _. split.
  - exists []. split; [exact empty_untouched|].
    take_step (step_new_elector 1 2 _ 0%nat (election_config "gateway-a")).
    take_step (step_new_elector 1 2 _ 1%nat (election_config "gateway-b")).
    take_step (step_acquire_read 1 2 _ 0%nat _ 0).
    take_step (step_acquire_write 1 2 _ 0%nat _ _ _ _ 1000).
    take_step (step_acquire_read 1 2 _ 0%nat _ (2 * 1000000000)).
    take_step (step_acquire_read 1 2 _ 1%nat _ (16 * 1000000000)).
    take_step (step_acquire_write 1 2 _ 1%nat _ _ _ _ (16 * 1000000000)).
    apply rtc_refl.
  - split_and!; vm_compute; reflexivity.
Qed.
End KubernetesExamples.
